(* ===== verification/_CoqProject ===== *)
-Q . S2P
Prelude.v
Bencode.v
PeerWire.v
Pieces.v
Picker.v
Handshake.v
Paths.v
Torrent.v
Layout.v
Choke.v
Rc4.v
Mse.v
PeerManager.v
UtpPacket.v
Float64.v
UtpConnection.v
UtpTheorems.v
Net.v
RateLimit.v
DhtTable.v
Krpc.v
DhtServer.v
DhtLife.v
Extension.v
MetadataFetch.v
Text.v
Magnet.v
IpText.v
Tracker.v
HttpTracker.v
Socks5.v
HttpClient.v
Storage.v
Resume.v
Spool.v
Cache.v
Decrypt.v
Engine.v
EngineProofs.v
Posture.v
Connection.v
FetchPool.v
Sandbox.v
DaemonStore.v
Session.v
Daemon.v
Acceptor.v
UtpSocket.v
UtpSocketProofs.v
Create.v
Web.v
Launch.v
