(* ===== verification/Prelude.v ===== *)
(** * A verification of RustyTorrent

    RustyTorrent is a BitTorrent client.  An engine ([src/src/engine.rs]) reads a
    torrent, keeps a piece manager and a picker, talks to peers over TCP or µTP,
    decides whom to upload to, and writes verified pieces through a layout that
    maps the byte stream of the torrent to files.  A daemon hosts many such
    sessions behind one listener, one state directory and a local web interface.
    This development models the components that carry that logic and proves what
    makes them correct.  The
    definitions are translated from the source one function at a time, are
    executable, and keep its names where Rocq allows.

    ** Files

    - [Prelude]: results and errors, the state monad [M], machine integers,
      bytes, big-endian fields, [BTreeMap] with byte keys, decimal text, UTF-8.
    - [Bencode]: [metainfo/bencode.rs].  Values, serialiser, parser.
    - [PeerWire]: [peer/message.rs].  Messages, frames, bitfields.
    - [Pieces]: [piece/manager.rs].  The block-level state machine [PieceManager].
    - [Picker]: [piece/picker.rs] and [piece/verifier.rs].
    - [Handshake]: [peer/handshake.rs].  Codec and both sides of the exchange.
    - [Paths]: the part of [std::path] (Unix) the layout uses.
    - [Torrent]: [metainfo/torrent.rs].  Reading and validating metainfo.
    - [Layout]: [storage/layout.rs].  Containment of paths, byte ranges, selection.
    - [Choke]: [scheduler/choke.rs].  The tit-for-tat scheduler.
    - [Rc4]: [peer/mse/rc4.rs].  The stream cipher of encrypted connections.
    - [Mse]: [peer/mse/dh.rs], [handshake.rs], [stream.rs] and [mod.rs].  The key
      exchange of encrypted connections, both sides, and the encrypted streams.
    - [PeerManager]: [peer/manager.rs].  Admission, bans, dial gate, shared cap.
    - [UtpPacket]: [peer/utp/packet.rs].  Packet and extension codec.
    - [Float64]: [f64] as the binary64 arithmetic of the Standard Library.
    - [UtpConnection], [UtpTheorems]: [peer/utp/connection.rs].  The connection
      state machine with its LEDBAT controller, and what it guarantees.
    - [Net]: the dial policy of [util.rs].  Addresses, the dial policy, screened resolution.
    - [RateLimit]: [ratelimit.rs].  The token bucket.
    - [DhtTable]: [dht/node_id.rs] and [dht/routing.rs].  Node ids, k-buckets.
    - [Krpc]: [dht/krpc.rs] and [dht/persist.rs].  DHT messages, the state file.
    - [DhtServer], [DhtLife]: [dht/server.rs] and [dht/mod.rs].  Tokens, announced
      peers, queries, lookups; the tasks of a node from its start to its last save.
    - [Extension]: [peer/extension.rs].  Extension handshake, metadata messages,
      peer exchange.
    - [MetadataFetch], [FetchPool]: [peer/metadata_fetch.rs].  Fetching the info
      dictionary from one peer, and from a pool of them.
    - [Text], [Magnet]: [util.rs], [magnet.rs] and the text handling of the
      trackers: hex, percent-encoding, redaction, sanitising, magnet links.
    - [IpText]: the parts of [std::net] that read and write addresses as text.
    - [Tracker], [HttpTracker]: [tracker/mod.rs], [tracker/udp.rs] and
      [tracker/http.rs].  The walk over tiers, the UDP exchange, announce URLs,
      redirects, response bodies.
    - [Socks5]: [socks5.rs].  The proxy protocol and chains of proxies.
    - [HttpClient]: the clients of [tracker/http.rs] and their caches, on top of
      [Display] of addresses.
    - [Storage], [Resume]: [storage/disk.rs] and [storage/memspool.rs].  The
      storage task against the interface [PieceStore], its plain-file and
      in-memory back ends, the resume scan.
    - [Spool]: [storage/crypt.rs] and [storage/spool.rs].  The encrypted back end.
    - [Cache]: [storage/cache.rs].  The cache of pieces on the upload side.
    - [Decrypt]: [cmd_decrypt] of [main.rs].  A spool back to plain files: the
      command and the storage task as two processes joined by bounded channels.
    - [Engine]: [engine.rs].  Policy, startup, the event loop and its handlers,
      composed of the components above over one state [Sys].
    - [EngineProofs], [Posture]: the invariant of a session and what follows from
      it; what no event can change.
    - [Connection]: [peer/connection.rs].  The task behind each peer, from the dial
      to the verdict, between the wire and the engine's channels.
    - [Sandbox]: [sandbox.rs], Linux.  The system-call filter as a program for the
      kernel's machine.
    - [DaemonStore], [Session], [Daemon]: [daemon_store.rs], [session.rs] and the
      daemon's start in [main.rs].  The state directory, the hosted sessions with
      their registry, and a restart.
    - [Acceptor]: [acceptor.rs].  Routing inbound connections to sessions.
    - [UtpSocket], [UtpSocketProofs]: [peer/utp/socket.rs].  The driver of all µTP
      connections, its streams and send gates; what holds over whole histories.
    - [Create]: [create.rs] and [cmd_create].  Making a torrent file.
    - [Web]: [web.rs].  The guard and routes of the control interface, and the
      pipelines that turn a magnet link into a session.
    - [Launch]: [peer_id.rs], [cmd_download] and [cmd_magnet] of [main.rs].  What
      happens between the command line and the engine, with everything that
      leaves the machine on the way.

    ** How the code is modelled

    A function that can fail returns [result]: [Ok], [Err] with the crate's error
    (its variant and the fixed part of its text), or [Panic].  The release
    profile sets [overflow-checks], so a plain [+], [-] or [*] that leaves its
    width is a [Panic], like an index out of range; [wrapping_*] operations and
    casts wrap explicitly.  A method on [&mut self] is a function of the state
    monad [M], which keeps the state reached when an error is returned.
    Integers are [Z] with their ranges stated, lengths and indices [nat].
    [Vec], [VecDeque] and [BitVec] are lists, [HashMap] and [HashSet] are [gmap]
    and [gset], [BTreeMap] a sorted association list, [Arc<[u8]>] the bytes.
    Clock readings are arguments in nanoseconds.  What comes from other crates
    is an argument: SHA-1, the shuffle of the picker, the random pick of the
    choke scheduler, random numbers and transaction ids, the URL parser, the
    resolver, the HTTP client, AES-GCM and Argon2id, big integers, the LRU map,
    JSON, the numbers of the system calls, the decoding of HTTP headers; a theorem
    that needs more of it says so in a hypothesis or a class of laws.  Peers, trackers, proxies and
    DHT nodes are adversaries: what they send is an arbitrary list of bytes,
    datagrams or answers, and what the code sends is recorded.  Components meet
    at interfaces: the storage task is verified against [PieceStoreLaws], which
    each back end discharges, the spool against [AeadLaws], the key exchange
    against [NumBigintLaws], the engine against [LruLaws], the state directory
    against [SerdeJson], the filter against [Bpf], which states the kernel's
    documented meaning of three instructions.  The file system
    maps path components to contents, so that two handles on one path alias.

    Recursion that is not structural takes fuel, and the fuel the caller gives is
    proved to be enough: twice the input length plus one for the bencode parser,
    the input length for the search of the info dictionary and for the µTP
    extension chain, the size of the reorder buffer for its drain loop, the
    queued bytes for the packetiser, the frame budget for the metadata exchange,
    the length of the text plus one for redaction and percent-decoding, whose
    loops always move forward, the number of hashes in flight for the end of the
    resume scan, the candidates still unasked for a DHT lookup, the pieces of
    the torrent plus the depth of the pipeline for a round of block requests, and
    the room of the delivery queue for a delivery of the µTP driver.  No theorem
    speaks only about runs that end.

    ** What the theorems show

    - Codecs.  Bencode, wire messages, bitfields, handshakes, µTP packets, KRPC
      messages, extension messages and peer exchange, magnet links and announce
      URLs read back what they write; their decoders are total on hostile input,
      and for several the accepted inputs are characterised exactly
      ([parse_all_to_bytes], [parse_all_total], [parse_value_exact],
      [message_roundtrip], [decode_iff], [bitfield_roundtrip], [utp_roundtrip],
      [utp_decode_exact], [krpc_roundtrip], [krpc_decode_typed], [pex_roundtrip],
      [extension_parsers_typed], [magnet_link_read], [magnet_parse_typed],
      [base32_equiv], [announce_url_params], [http_response_typed]).
    - Metainfo and storage.  The info hash is taken over exactly the bytes of the
      info dictionary ([info_hash_exact]); accepted torrents satisfy what the rest
      of the program relies on, in particular a [PieceManager] can be built for
      them ([torrent_validated]); no path leaves the download root
      ([layout_contained]); ranges map to the right bytes of the right files
      ([slices_exact]); selections are complete ([selection_complete]).  The
      storage task refines a map from indices to pieces over every back end, also
      across restarts and, for plain files, provided the paths are distinct ([memory_task_refines], [disk_sessions], [spool_sessions]);
      the pipelined resume scan equals a direct one ([scan_resume_exact]); the
      spool holds no plaintext, opens exactly when its header has the right bytes
      and the passphrase opens its verifier, and gives back every verified piece ([spool_open_closed], [spool_recovery]); the
      decrypt command restores up to 129 pieces to distinct paths, whatever the
      schedule ([decrypt_restores]).  A torrent made from a tree of files, with names
      and a piece length the loader takes, is read by it as that tree, with the
      hashes of its consecutive pieces ([created_loads]).
    - Pieces.  [PieceManager] refines a specification with one record per piece
      ([manager_refines]); blocks that arrive in any order,
      with duplicates, losses and resets, assemble to the piece they came from
      ([assembly_correct], [delivery_completes]); the picker returns a usable
      piece of minimal availability, and its counters are exact
      ([pick_for_correct], [availability_exact]).
    - Sessions.  For every sequence of events, from any peers and in any order, a
      session neither panics nor loops ([session_never_panics]), hands storage
      only pieces with the right length and digest and counts a piece only when
      it is stored ([session_writes_verified]), asks for real blocks and serves
      the stored bytes ([session_commands_exact]), dials only screened addresses
      ([session_dials_screened]), and keeps the posture it started with
      ([session_posture]).
    - Peers.  The two ends of a handshake agree ([handshake_agree]), plain and
      encrypted ([mse_agree], [encrypted_stream_exact]); the accepting side of
      the encrypted one reveals nothing to a dialler without the secret
      ([mse_incoming_safe]); admission
      respects every limit under interleaving with other sessions
      ([peer_admission]); one choke round gives the slots to the best peers
      ([choke_tick]); the two RC4 ends stay in step whatever the chunking
      ([rc4_duplex]); metadata is accepted only with the right hash and an honest
      peer delivers it ([metadata_fetch_verified], [metadata_fetch_complete]), also
      from a pool of peers tried at once, whose sockets keep to the posture
      ([metadata_pool_safe]).
    - Peer tasks.  Whatever a peer sends, its task tells the engine that it came
      and that it went, once each and in that order, and nothing it did not send
      ([task_tells_engine]); only a reader that was aborted and not waited for can add
      events after the last one ([events_after_disconnect]); it opens only the sockets the session's posture allows
      ([task_dials_allowed]); and what one client's engine orders, the other's
      hears, when every frame fits [MAX_FRAME_LEN] ([peer_link_exact]).
    - µTP.  Whatever the network loses, repeats or reorders, the application
      reads a prefix of the peer's stream ([utp_in_order]); sending conserves
      bytes ([utp_send_conserves]); selective acknowledgements are exact
      ([utp_sack_exact]); receive memory is bounded ([utp_memory_bounded]); the
      accept gate opens only for a peer that saw our token ([utp_accept_gate]).
      The driver returns from every event of every history, its table, buffers and
      queues are bounded, a writer sleeps only at an open gate without credit, however
      the driver comes between the looks of its call, and the credit the writers hold
      is exactly the bytes still underway unless a write outlives its connection
      ([socket_bounded], [stale_write_crosses]).
    - DHT.  Buckets sort contacts by distance and stay bounded
      ([bucket_index_log2], [table_invariant]); the nearest contacts are the
      nearest ([closest_exact]); the node stays well formed under hostile traffic
      and delivers replies only from the address asked ([dht_node_safe]), and all its
      tasks together keep that up from any state file on, send only where they may,
      and leave a file that restores the node ([dht_life]); peers
      are stored only with a token issued to the sender ([announce_needs_token],
      [token_accepted]); lookups ask only screened contacts, each once
      ([lookup_screened]); the state file reads back ([persist_roundtrip]).
    - Trackers, proxies and privacy.  The dial policy is a table of blocks
      ([dialable_iff_not_blocked], [resolution_fails_closed]); the UDP exchange is
      bounded in time and packets and announces only with a fresh connection id
      ([udp_exchange_safe]); the walk contacts only listed, screened trackers and
      never UDP behind a proxy, and returns the first success
      ([walk_contacts_allowed], [walk_first_success]); a proxy chain is told only
      the next address, and that only after the hop before it accepted
      ([socks_says_only], [socks_chain_tunnels]); errors and
      displayed URLs leak no secret ([announce_errors_scrubbed],
      [url_redaction_hides]); the caches of HTTP clients never mix up proxies,
      interfaces or modes, until a build that panics poisons one of them, and each
      request has the proxy and credentials of its own announce
      ([announce_clients_exact]).  Before the engine runs, the commands do only what
      their arguments permit, and an anonymous run resolves nothing, reads no kept
      id and opens only proxied connections; the engine gets every argument as it was
      given ([launch_private]).
    - Daemon, sandbox and web.  The store refines a map of torrents and a restarted
      daemon hosts exactly the same ones with the same choices, when calls do not
      overlap and writes succeed ([store_refines], [daemon_resumes]); the
      registry and the sessions agree ([sessions_routed]); an inbound connection
      reaches a session only with a complete handshake for its torrent
      ([acceptor_routes]).  The filter allows exactly the whitelist
      ([sandbox_exact]).  The control interface refuses foreign hosts and origins
      before any handler runs ([web_guarded]), keeps sessions, directories and
      pipelines within their limits over any history ([web_history]), and keeps a
      magnet's torrent in a file that loads again, when its dictionary is not of
      the greatest depth ([magnet_restored]).
    - Defects.  Some lemmas pin down behaviour that contradicts a comment or the
      intent of the code: failed dials close the dial gate for good
      ([pending_dials_leak]), a FIN past a gap loses the gap
      ([utp_fin_drops_gap]), a stashed packet can stall the stream
      ([utp_stash_stalls]), a connection is reset sixty seconds after its creation
      ([utp_hard_deadline]), file lengths can overflow ([huge_torrent_panics]),
      idle peers keep their slots ([idle_peers_keep_slots]), two files of one
      path overwrite each other ([shared_path_clobbers]), a choke in endgame
      stalls the download ([endgame_choke_stalls]), a resumed seeder announces
      everything as left ([resumed_seeder_left]), the cleartext check of anonymous
      mode misses upper-case schemes ([uppercase_scheme_passes]), a bitfield longer
      than a frame is refused ([long_bitfield_refused]), some malformed messages do
      not count against a peer ([malformed_unflagged]), saving the DHT state is
      killed by the sandbox ([saving_state_is_killed]), a stray file stops the
      daemon from loading ([stray_name_stops_load]), a removal and an addition of
      one torrent overtake each other ([removal_overtakes_add],
      [persist_outlives_removal]), an ended session stays listed
      ([ended_session_stays]), a magnet's info dictionary of the greatest depth is
      lost ([deepest_lost]), the program makes torrents it cannot load
      ([long_pieces_refused], [backslash_unloadable]), a dropped µTP stream closes
      a later connection of the same id and its bytes reach that connection
      ([stale_close_ends], [stale_write_crosses]), the end of a µTP stream can cut
      off its last bytes ([fin_truncates]), the decrypt command waits forever on a
      spool of 130 pieces or more ([decrypt_stalls]), a DHT node that was shut
      down goes on answering and keeps its port ([stopped_node_answers]), the one of the magnet
      bootstrap ignores the interface it should keep to ([magnet_dht_unbound]), and
      that bootstrap announces to an upper-case plain-HTTP tracker in an anonymous
      run ([upper_case_announced]).

    ** What is not modelled

    Of the command line: argument parsing, printing, the [info] command, which only
    prints, and [peers], which announces once and prints; the rule of the parser that [--anonymous] requires
    [--socks5] is a hypothesis of [launch_private].  Interface binding
    ([netbind.rs]): operating-system calls.  The sandbox profile of macOS.  The pages and JSON bodies of the web interface, beyond the values
    they show.  Of the engine: binding sockets, spawning tasks, timers, logging and
    the last announce; of the µTP socket: binding, a failing send, the end of the
    driver.  The inside of the crates named above.  Input and output errors of
    open files other than the end of the file, and file permissions.  A file that
    changes between the web interface's check of its size and its read; two saves of
    the DHT state at the same time; the wait for room in a session's control channel;
    filters that were on the process before the sandbox's own.  Error text
    beyond its fixed part.  [usize] sums of buffered lengths are taken not to
    overflow. *)

From Stdlib Require Import ZArith Lia String Strings.Byte Sorting.Sorted.
From stdpp Require Import base tactics numbers list option.

#[global] Open Scope Z_scope.

(** ** Results

    A Rust function returns [Ok], returns [Err] with a value of the crate's
    [Error] enum, or panics.  The release profile sets [overflow-checks = true]
    so an arithmetic overflow of a plain [+], [-], [*] is a panic in every
    build, like a slice index out of range.  [NoFuel] belongs to the model only:
    a fuelled definition returns it when its fuel ran out, and the theorems
    about such a definition show that it is never returned. *)

Inductive Error :=
  | EBencode (msg : string)
  | ETracker (msg : string)
  | EHandshake (msg : string)
  | EVerifyFailed (index : nat)
  | EIo (msg : string)
  | ENetwork (msg : string)
  | EProtocol (msg : string)
  | ECrypto (msg : string).

Inductive result (A : Type) :=
  | Ok (a : A)
  | Err (e : Error)
  | Panic
  | NoFuel.
Arguments Ok {A} _.
Arguments Err {A} _.
Arguments Panic {A}.
Arguments NoFuel {A}.

#[export] Instance result_ret : MRet result := fun A => @Ok A.
#[export] Instance result_bind : MBind result := fun A B f m =>
  match m with
  | Ok a => f a
  | Err e => Err e
  | Panic => Panic
  | NoFuel => NoFuel
  end.
#[export] Instance result_fmap : FMap result := fun A B f m =>
  match m with
  | Ok a => Ok (f a)
  | Err e => Err e
  | Panic => Panic
  | NoFuel => NoFuel
  end.

(** [ok_or o e]: [Option::ok_or]. *)
Definition ok_or {A} (o : option A) (e : Error) : result A :=
  match o with Some a => Ok a | None => Err e end.

(** [map_err e r]: [Result::map_err] with a constant replacement. *)
Definition map_err {A} (e : Error) (r : result A) : result A :=
  match r with Err _ => Err e | _ => r end.

(** [ok r]: [Result::ok]; a panic is not an error value and stays a panic. *)
Definition unpanic {A} (r : result A) : option A :=
  match r with Ok a => Some a | _ => None end.

(** A run that ended in a value of Rust's [Result]: no panic, no fuel loss. *)
Definition returns {A} (r : result A) : bool :=
  match r with Ok _ | Err _ => true | _ => false end.

Definition is_ok {A} (r : result A) : bool :=
  match r with Ok _ => true | _ => false end.

(** [guard b e k]: the early return [if b { return Err(e) }]. *)
Definition fail_if {A} (b : bool) (e : Error) (k : result A) : result A :=
  if b then Err e else k.

Lemma bind_Ok {A B} (m : result A) (f : A -> result B) (b : B) :
  (m ≫= f) = Ok b <-> exists a, m = Ok a /\ f a = Ok b.
Proof.
  destruct m as [a|e| |]; simpl; split.
  - eauto.
  - intros (a' & [= <-] & ?); done.
  - done.
  - intros (a' & ? & ?); done.
  - done.
  - intros (a' & ? & ?); done.
  - done.
  - intros (a' & ? & ?); done.
Qed.

Lemma bind_returns {A B} (m : result A) (f : A -> result B) :
  returns m = true -> (forall a, m = Ok a -> returns (f a) = true) ->
  returns (m ≫= f) = true.
Proof. destruct m; simpl; eauto. Qed.

(** Case analysis on a successful monadic computation in a hypothesis. *)
Ltac inv_ok H :=
  lazymatch type of H with
  | mbind _ _ = Ok _ =>
      let a := fresh "v" in let H1 := fresh "H" in
      apply bind_Ok in H; destruct H as (a & H1 & H); inv_ok H
  | (let _ := _ in _) = Ok _ => cbv zeta in H; inv_ok H
  | (if ?b then _ else _) = Ok _ =>
      let E := fresh "E" in
      destruct b eqn:E; [try discriminate H | try discriminate H]
  | fail_if ?b _ _ = Ok _ =>
      unfold fail_if in H; inv_ok H
  | Ok _ = Ok _ => injection H as H
  | mret _ = Ok _ => injection H as H
  | _ => idtac
  end.

(** ** Machine integers

    An unsigned integer of width [w] is a [Z] in [0, 2^w).  [wrap w] is the
    wrap-around of the [wrapping_*] operations and of [as] casts; [checked]
    is a plain operator under [overflow-checks]. *)

Definition umax (w : Z) : Z := 2 ^ w - 1.
Definition in_u (w z : Z) : bool := (0 <=? z) && (z <=? umax w).
Definition wrap (w z : Z) : Z := z mod 2 ^ w.
Definition checked (w z : Z) : result Z := if in_u w z then Ok z else Panic.
Definition sat_sub (a b : Z) : Z := Z.max 0 (a - b).
Definition sat_add (w a b : Z) : Z := Z.min (umax w) (a + b).

Definition i64_min : Z := - 2 ^ 63.
Definition i64_max : Z := 2 ^ 63 - 1.
Definition in_i64 (z : Z) : bool := (i64_min <=? z) && (z <=? i64_max).

(** [n.div_ceil(d)] on unsigned integers. *)
Definition div_ceil (n d : Z) : Z :=
  if n mod d =? 0 then n / d else n / d + 1.

Lemma div_ceil_spec n d :
  0 <= n -> 0 < d -> d * (div_ceil n d - 1) < n <= d * div_ceil n d \/ (n = 0 /\ div_ceil n d = 0).
Proof.
  intros Hn Hd. unfold div_ceil.
  pose proof (Z.div_mod n d ltac:(lia)) as E.
  pose proof (Z.mod_pos_bound n d Hd) as B.
  destruct (Z.eqb_spec (n mod d) 0) as [H0|H0]; nia.
Qed.

Lemma div_ceil_bounds n d : 0 < n < 2 ^ 64 -> 0 < d <= Z.shiftl 1 30 -> 1 <= div_ceil n d <= n.
Proof. intros Hn Hd. pose proof (div_ceil_spec n d). nia. Qed.

Lemma div_ceil_nonneg n d : 0 <= n -> 0 < d -> 0 <= div_ceil n d.
Proof.
  intros Hn Hd. unfold div_ceil.
  pose proof (Z.div_pos n d Hn Hd). destruct (_ =? _); lia.
Qed.

Lemma wrap_range w z : 0 <= w -> 0 <= wrap w z < 2 ^ w.
Proof. intros. apply Z.mod_pos_bound. lia. Qed.

Lemma wrap_small w z : 0 <= z < 2 ^ w -> wrap w z = z.
Proof. apply Z.mod_small. Qed.

Lemma in_u_spec w z : in_u w z = true <-> 0 <= z < 2 ^ w.
Proof. unfold in_u, umax. lia. Qed.

Lemma checked_Ok w z v : checked w z = Ok v <-> v = z /\ 0 <= z < 2 ^ w.
Proof.
  unfold checked. pose proof (in_u_spec w z) as E.
  destruct (in_u w z); split.
  - intros [= <-]. split; [done|]. by apply E.
  - intros [-> _]. done.
  - done.
  - intros [_ H]. apply E in H. done.
Qed.

(** ** Bytes *)

Abbreviation byte := Byte.byte.
Abbreviation bytes := (list Byte.byte).

Definition b2z (b : byte) : Z := Z.of_N (Byte.to_N b).
Definition z2b (z : Z) : byte :=
  match Byte.of_N (Z.to_N (z mod 256)) with Some b => b | None => Byte.x00 end.

(** Byte literals: [bs "info"] is Rust's [b"info"]. *)
Definition bs (s : string) : bytes := String.list_byte_of_string s.

#[export] Instance byte_eq_dec : EqDecision byte := Byte.byte_eq_dec.

Lemma b2z_range b : 0 <= b2z b < 256.
Proof.
  unfold b2z. pose proof (Byte.to_N_bounded b). lia.
Qed.

Lemma z2b_b2z b : z2b (b2z b) = b.
Proof.
  unfold z2b. pose proof (b2z_range b). rewrite Z.mod_small by lia.
  unfold b2z. rewrite N2Z.id. by rewrite Byte.of_to_N.
Qed.

Lemma b2z_z2b z : b2z (z2b z) = z mod 256.
Proof.
  unfold z2b. pose proof (Z.mod_pos_bound z 256 ltac:(lia)) as B.
  destruct (Byte.of_N (Z.to_N (z mod 256))) as [b|] eqn:E.
  - apply Byte.to_of_N in E. unfold b2z. rewrite E. lia.
  - apply Byte.of_N_None_iff in E. lia.
Qed.

Lemma b2z_inj a b : b2z a = b2z b -> a = b.
Proof. intros H. by rewrite <- (z2b_b2z a), <- (z2b_b2z b), H. Qed.

Lemma b2z_z2b_small z : 0 <= z < 256 -> b2z (z2b z) = z.
Proof. intros. rewrite b2z_z2b. by apply Z.mod_small. Qed.

(** ** Big-endian encodings: [to_be_bytes] and [from_be_bytes] *)

Fixpoint to_be (n : nat) (z : Z) : bytes :=
  match n with
  | O => []
  | S n' => z2b (z / 256 ^ Z.of_nat n') :: to_be n' z
  end.

Definition from_be (l : bytes) : Z :=
  fold_left (fun acc b => acc * 256 + b2z b) l 0.

Lemma length_to_be n z : length (to_be n z) = n.
Proof. induction n; simpl; congruence. Qed.

Lemma from_be_acc l acc :
  fold_left (fun a b => a * 256 + b2z b) l acc
  = acc * 256 ^ Z.of_nat (length l) + from_be l.
Proof.
  unfold from_be. revert acc. induction l as [|b l IH]; intros acc.
  { simpl. lia. }
  cbn [fold_left length]. rewrite IH, (IH (0 * 256 + b2z b)).
  rewrite Nat2Z.inj_succ, Z.pow_succ_r by lia. ring.
Qed.

Lemma from_be_cons b l :
  from_be (b :: l) = b2z b * 256 ^ Z.of_nat (length l) + from_be l.
Proof.
  unfold from_be at 1. cbn [fold_left]. rewrite from_be_acc. lia.
Qed.

Lemma from_be_range l : 0 <= from_be l < 256 ^ Z.of_nat (length l).
Proof.
  induction l as [|b l IH]; [done|].
  rewrite from_be_cons. cbn [length]. rewrite Nat2Z.inj_succ, Z.pow_succ_r by lia.
  pose proof (b2z_range b). nia.
Qed.

Lemma from_to_be_mod n z : from_be (to_be n z) = z mod 256 ^ Z.of_nat n.
Proof.
  induction n as [|n IH]; [cbn; by rewrite Z.mod_1_r|].
  cbn [to_be]. rewrite from_be_cons, length_to_be, IH, b2z_z2b.
  rewrite Nat2Z.inj_succ, Z.pow_succ_r by lia.
  set (p := 256 ^ Z.of_nat n) in *.
  assert (0 < p) by (apply Z.pow_pos_nonneg; lia).
  rewrite (Z.mul_comm 256 p), Z.rem_mul_r by lia. lia.
Qed.

Lemma from_to_be n z : 0 <= z < 256 ^ Z.of_nat n -> from_be (to_be n z) = z.
Proof. intros. rewrite from_to_be_mod. by apply Z.mod_small. Qed.

Lemma to_from_be l : to_be (length l) (from_be l) = l.
Proof.
  induction l as [|b l IH]; [done|].
  cbn [length to_be]. rewrite from_be_cons.
  set (p := 256 ^ Z.of_nat (length l)) in *.
  pose proof (from_be_range l) as R. fold p in R.
  assert (Hq : (b2z b * p + from_be l) / p = b2z b).
  { rewrite Z.div_add_l by lia. rewrite Z.div_small by lia. lia. }
  rewrite Hq, z2b_b2z. f_equal.
  transitivity (to_be (length l) (from_be l)); [|exact IH].
  clear IH Hq R.
  assert (G : forall n y, (n <= length l)%nat -> to_be n (b2z b * p + y) = to_be n y).
  { induction n as [|n IHn]; intros y Hn; [done|]. cbn [to_be].
    rewrite IHn by lia. f_equal.
    assert (Hp : p = 256 ^ Z.of_nat (length l - S n) * 256 * 256 ^ Z.of_nat n).
    { unfold p. rewrite <- Z.mul_assoc, <- (Z.pow_succ_r 256 (Z.of_nat n)) by lia.
      rewrite <- Z.pow_add_r by lia. f_equal. lia. }
    rewrite Hp. set (q := 256 ^ Z.of_nat n). set (r := 256 ^ Z.of_nat (length l - S n)).
    assert (0 < q) by (apply Z.pow_pos_nonneg; lia).
    replace (b2z b * (r * 256 * q) + y) with ((b2z b * r * 256) * q + y) by ring.
    rewrite Z.div_add_l by lia.
    apply b2z_inj. rewrite !b2z_z2b.
    rewrite Z.add_comm, Z.mod_add by lia. done. }
  by apply (G (length l)).
Qed.

(** ** Slices

    [slice l a n] is [l[a..a+n]] where it is in range.  [index l i] is the
    panicking [l[i]]. *)

Definition slice {A} (l : list A) (a n : nat) : list A := take n (drop a l).

Definition index {A} (l : list A) (i : nat) : result A :=
  match l !! i with Some x => Ok x | None => Panic end.

(** [&l[a..]] *)
Definition slice_from {A} (l : list A) (a : nat) : result (list A) :=
  if decide (a <= length l)%nat then Ok (drop a l) else Panic.

(** [&l[a..b]] *)
Definition slice_range {A} (l : list A) (a b : nat) : result (list A) :=
  if decide (a <= b /\ b <= length l)%nat then Ok (slice l a (b - a)) else Panic.

Lemma length_slice {A} (l : list A) a n :
  (a + n <= length l)%nat -> length (slice l a n) = n.
Proof. intros. unfold slice. rewrite length_take, length_drop. lia. Qed.

Lemma slice_app_l {A} (l k : list A) a n :
  (a + n <= length l)%nat -> slice (l ++ k) a n = slice l a n.
Proof.
  intros. unfold slice. rewrite drop_app_le by lia.
  rewrite take_app_le; [done|]. rewrite length_drop. lia.
Qed.

Lemma slice_app_r {A} (l k : list A) a n :
  (length l <= a)%nat -> slice (l ++ k) a n = slice k (a - length l) n.
Proof. intros. unfold slice. by rewrite drop_app_ge by lia. Qed.

Lemma slice_all {A} (l : list A) n : length l = n -> slice l 0 n = l.
Proof. intros <-. unfold slice. rewrite drop_0. by apply firstn_all. Qed.

Lemma slice_split {A} (l : list A) n : l = slice l 0 n ++ drop n l.
Proof. unfold slice. by rewrite drop_0, take_drop. Qed.

Lemma index_lt {A} (l : list A) i : (i < length l)%nat -> exists x, index l i = Ok x.
Proof.
  intros H. unfold index. destruct (lookup_lt_is_Some_2 l i H) as [x ->]. eauto.
Qed.

(** ** Association lists in key order: [BTreeMap<Vec<u8>, V>]

    Keys are compared lexicographically by unsigned byte, as [Vec<u8>: Ord]. *)

Fixpoint bytes_ltb (a b : bytes) : bool :=
  match a, b with
  | _, [] => false
  | [], _ :: _ => true
  | x :: a', y :: b' => (b2z x <? b2z y) || ((b2z x =? b2z y) && bytes_ltb a' b')
  end.

Fixpoint bytes_eqb (a b : bytes) : bool :=
  match a, b with
  | [], [] => true
  | x :: a', y :: b' => (b2z x =? b2z y) && bytes_eqb a' b'
  | _, _ => false
  end.

Lemma byte_eqb_iff a b : Byte.eqb a b = true <-> a = b.
Proof. split; [apply Byte.byte_dec_bl | apply Byte.byte_dec_lb]. Qed.

Lemma bytes_eqb_eq a b : bytes_eqb a b = true <-> a = b.
Proof.
  revert b. induction a as [|x a IH]; intros [|y b]; simpl; try done.
  rewrite andb_true_iff, IH, Z.eqb_eq. split.
  - intros [H ->]. by rewrite (b2z_inj _ _ H).
  - by intros [= -> ->].
Qed.

Lemma bytes_eqb_refl a : bytes_eqb a a = true.
Proof. by apply bytes_eqb_eq. Qed.

Lemma bytes_ltb_irrefl a : bytes_ltb a a = false.
Proof.
  induction a as [|x a IH]; [done|]. simpl.
  rewrite Z.ltb_irrefl, Z.eqb_refl, IH. done.
Qed.

Lemma bytes_ltb_trans a b c :
  bytes_ltb a b = true -> bytes_ltb b c = true -> bytes_ltb a c = true.
Proof.
  revert b c. induction a as [|x a IH]; intros [|y b] [|z c]; simpl; try done.
  rewrite !orb_true_iff, !andb_true_iff, !Z.ltb_lt, !Z.eqb_eq.
  intros [H1|[H1 H2]] [H3|[H3 H4]]; [left; lia|left; lia|left; lia|].
  right. split; [lia|eauto].
Qed.

Lemma bytes_ltb_total a b :
  bytes_ltb a b = true \/ a = b \/ bytes_ltb b a = true.
Proof.
  revert b. induction a as [|x a IH]; intros [|y b]; simpl; auto.
  destruct (Z.lt_trichotomy (b2z x) (b2z y)) as [H|[H|H]].
  - left. apply orb_true_iff. left. lia.
  - rewrite H, Z.ltb_irrefl, Z.eqb_refl. simpl.
    destruct (IH b) as [?|[->|?]]; auto. right; left.
    by rewrite (b2z_inj _ _ H).
  - right; right. apply orb_true_iff. left. lia.
Qed.

Section btree.
Context {V : Type}.

Fixpoint bt_get (k : bytes) (m : list (bytes * V)) : option V :=
  match m with
  | [] => None
  | (k', v) :: m' => if bytes_eqb k k' then Some v else bt_get k m'
  end.

Fixpoint bt_insert (k : bytes) (v : V) (m : list (bytes * V)) : list (bytes * V) :=
  match m with
  | [] => [(k, v)]
  | (k', v') :: m' =>
      if bytes_ltb k k' then (k, v) :: (k', v') :: m'
      else if bytes_eqb k k' then (k, v) :: m'
      else (k', v') :: bt_insert k v m'
  end.

(** Every key is above [lo] and the keys ascend strictly. *)
Fixpoint bt_above (lo : option bytes) (m : list (bytes * V)) : bool :=
  match m with
  | [] => true
  | (k, _) :: m' =>
      match lo with None => true | Some l => bytes_ltb l k end && bt_above (Some k) m'
  end.

Definition bt_sorted (m : list (bytes * V)) : bool := bt_above None m.

Lemma bt_above_mono lo lo' m :
  bytes_ltb lo lo' = true -> bt_above (Some lo') m = true -> bt_above (Some lo) m = true.
Proof.
  destruct m as [|[k v] m]; [done|]. simpl. rewrite !andb_true_iff.
  intros H [H1 H2]. split; [|done]. by eapply bytes_ltb_trans.
Qed.

Lemma bt_insert_above lo k v m :
  match lo with None => True | Some l => bytes_ltb l k = true end ->
  bt_above lo m = true -> bt_above lo (bt_insert k v m) = true.
Proof.
  revert lo. induction m as [|[k' v'] m IH]; intros lo Hlo; simpl.
  { destruct lo; by rewrite ?Hlo. }
  rewrite andb_true_iff. intros [H1 H2].
  destruct (bytes_ltb k k') eqn:E1.
  { simpl. rewrite E1, H2. destruct lo; by rewrite ?Hlo. }
  destruct (bytes_eqb k k') eqn:E2.
  { apply bytes_eqb_eq in E2 as ->. simpl. rewrite H2. by destruct lo; rewrite ?Hlo. }
  simpl. rewrite H1. simpl. apply IH; [|done].
  destruct (bytes_ltb_total k k') as [?|[->|?]]; [congruence| |done].
  by rewrite bytes_eqb_refl in E2.
Qed.

(** Inserting a key above all keys appends it. *)
Lemma bt_insert_snoc lo k v m :
  bt_above lo (m ++ [(k, v)]) = true -> bt_insert k v m = m ++ [(k, v)].
Proof.
  revert lo. induction m as [|[k' v'] m IH]; intros lo; [done|].
  simpl. rewrite andb_true_iff. intros [_ H].
  assert (Hlt : bytes_ltb k' k = true).
  { clear IH. revert k' v' lo H. induction m as [|[k2 v2] m IH2]; intros k' v' lo H; simpl in H.
    - by apply andb_true_iff in H as [H _].
    - apply andb_true_iff in H as [H1 H2].
      eapply bytes_ltb_trans; [exact H1|]. by eapply (IH2 k2 v2 None). }
  destruct (bytes_ltb k k') eqn:E.
  { pose proof (bytes_ltb_trans _ _ _ Hlt E) as C. by rewrite bytes_ltb_irrefl in C. }
  destruct (bytes_eqb k k') eqn:E2.
  { apply bytes_eqb_eq in E2 as ->. by rewrite bytes_ltb_irrefl in Hlt. }
  by rewrite (IH (Some k')).
Qed.

Lemma bt_get_insert k v m : bt_get k (bt_insert k v m) = Some v.
Proof.
  induction m as [|[k' v'] m IH]; simpl; [by rewrite bytes_eqb_refl|].
  destruct (bytes_ltb k k'); simpl; [by rewrite bytes_eqb_refl|].
  destruct (bytes_eqb k k') eqn:E; simpl; [by rewrite bytes_eqb_refl|]. by rewrite E.
Qed.

Lemma bt_get_insert_ne k k' v m : k <> k' -> bt_get k (bt_insert k' v m) = bt_get k m.
Proof.
  intros Hne. assert (E : bytes_eqb k k' = false).
  { destruct (bytes_eqb k k') eqn:E; [|done]. by apply bytes_eqb_eq in E. }
  induction m as [|[k2 v2] m IH]; simpl; [by rewrite E|].
  destruct (bytes_ltb k' k2); simpl; [by rewrite E|].
  destruct (bytes_eqb k' k2) eqn:E2; simpl.
  { apply bytes_eqb_eq in E2 as ->. by rewrite E. }
  destruct (bytes_eqb k k2); [done|]. apply IH.
Qed.
End btree.

Lemma bt_get_above {V} lo k (m : list (bytes * V)) :
  bt_above (Some lo) m = true -> bytes_ltb lo k = false -> bt_get k m = None.
Proof.
  revert lo. induction m as [|[k' v'] m IH]; intros lo; [done|].
  simpl. rewrite andb_true_iff. intros [H1 H2] H3.
  destruct (bytes_eqb k k') eqn:E.
  { apply bytes_eqb_eq in E as ->. congruence. }
  apply (IH k'); [done|]. destruct (bytes_ltb k' k) eqn:E2; [|done].
  by rewrite (bytes_ltb_trans _ _ _ H1 E2) in H3.
Qed.

(** Two sorted maps with the same lookups are the same map. *)
Lemma bt_ext {V} lo (m m' : list (bytes * V)) :
  bt_above lo m = true -> bt_above lo m' = true ->
  (forall k, bt_get k m = bt_get k m') -> m = m'.
Proof.
  revert lo m'. induction m as [|[k v] m IH]; intros lo [|[k' v'] m'] H1 H2 Hext.
  - done.
  - specialize (Hext k'). simpl in Hext. by rewrite bytes_eqb_refl in Hext.
  - specialize (Hext k). simpl in Hext. by rewrite bytes_eqb_refl in Hext.
  - simpl in H1, H2. apply andb_true_iff in H1 as [H1 H1'], H2 as [H2 H2'].
    assert (k = k') as <-.
    { destruct (bytes_ltb_total k k') as [Hlt|[?|Hlt]]; [|done|].
      - pose proof (Hext k) as E. simpl in E. rewrite bytes_eqb_refl in E.
        destruct (bytes_eqb k k') eqn:E2; [by apply bytes_eqb_eq|].
        rewrite (bt_get_above k' k m' H2') in E; [done|].
        destruct (bytes_ltb k' k) eqn:E3; [|done].
        pose proof (bytes_ltb_trans _ _ _ Hlt E3) as C. by rewrite bytes_ltb_irrefl in C.
      - pose proof (Hext k') as E. simpl in E. rewrite bytes_eqb_refl in E.
        destruct (bytes_eqb k' k) eqn:E2; [by apply bytes_eqb_eq in E2|].
        rewrite (bt_get_above k k' m H1') in E; [done|].
        destruct (bytes_ltb k k') eqn:E3; [|done].
        pose proof (bytes_ltb_trans _ _ _ Hlt E3) as C. by rewrite bytes_ltb_irrefl in C. }
    pose proof (Hext k) as E. simpl in E. rewrite bytes_eqb_refl in E. injection E as <-.
    f_equal. apply (IH (Some k)); [done|done|]. intros k2.
    specialize (Hext k2). simpl in Hext. destruct (bytes_eqb k2 k) eqn:E; [|done].
    apply bytes_eqb_eq in E as ->.
    by rewrite (bt_get_above k k m H1' (bytes_ltb_irrefl k)), (bt_get_above k k m' H2' (bytes_ltb_irrefl k)).
Qed.

(** ** Decimal text *)

Definition digit (d : Z) : byte := z2b (48 + d).
Definition is_digit (b : byte) : bool := (48 <=? b2z b) && (b2z b <=? 57).

Fixpoint dec_aux (fuel : nat) (n : Z) : bytes :=
  match fuel with
  | O => []
  | S f => if n <? 10 then [digit n] else dec_aux f (n / 10) ++ [digit (n mod 10)]
  end.

(** [n.to_string()] for an unsigned integer. *)
Definition show_u (n : Z) : bytes := dec_aux (S (Z.to_nat (Z.log2 n))) n.
(** [n.to_string()] for a signed integer. *)
Definition show_i (n : Z) : bytes := if n <? 0 then "-"%byte :: show_u (- n) else show_u n.

(** The value of a run of ASCII digits, [None] if there is none or another
    byte occurs. *)
Definition digits_val (l : bytes) : option Z :=
  match l with
  | [] => None
  | _ => if forallb is_digit l
         then Some (fold_left (fun acc b => acc * 10 + (b2z b - 48)) l 0) else None
  end.

(** [str::parse::<i64>]: an optional sign, then at least one digit, in range. *)
Definition parse_i64 (s : bytes) : option Z :=
  let '(neg, ds) :=
    match s with
    | b :: r => if Byte.eqb b "-" then (true, r)
                else if Byte.eqb b "+" then (false, r) else (false, s)
    | [] => (false, [])
    end in
  match digits_val ds with
  | None => None
  | Some v => let v := if neg then - v else v in if in_i64 v then Some v else None
  end.

(** [str::parse::<usize>]: an optional plus sign, at least one digit, in range. *)
Definition parse_usize (s : bytes) : option Z :=
  let ds := match s with
            | b :: r => if Byte.eqb b "+" then r else s
            | [] => []
            end in
  match digits_val ds with
  | None => None
  | Some v => if in_u 64 v then Some v else None
  end.

Lemma b2z_digit d : 0 <= d < 10 -> b2z (digit d) = 48 + d.
Proof. intros. unfold digit. apply b2z_z2b_small. lia. Qed.

Lemma is_digit_digit d : 0 <= d < 10 -> is_digit (digit d) = true.
Proof. intros. unfold is_digit. rewrite b2z_digit by lia. lia. Qed.

Lemma dec_aux_spec fuel n :
  0 <= n < 2 ^ Z.of_nat fuel ->
  forallb is_digit (dec_aux fuel n) = true /\
  fold_left (fun acc b => acc * 10 + (b2z b - 48)) (dec_aux fuel n) 0 = n /\
  (fuel <> O -> dec_aux fuel n <> []).
Proof.
  revert n. induction fuel as [|f IH]; intros n H.
  { simpl in *. split_and!; [done|lia|done]. }
  rewrite Nat2Z.inj_succ, Z.pow_succ_r in H by lia. cbn [dec_aux].
  destruct (Z.ltb_spec n 10) as [Hlt|Hge].
  { cbn [forallb fold_left]. rewrite is_digit_digit, b2z_digit by lia.
    split_and!; [done|lia|done]. }
  pose proof (Z.mod_pos_bound n 10 ltac:(lia)) as B.
  pose proof (Z.div_mod n 10 ltac:(lia)) as D.
  destruct (IH (n / 10)) as (IH1 & IH2 & _); [lia|].
  rewrite forallb_app, fold_left_app, IH1, IH2. cbn [forallb fold_left].
  rewrite is_digit_digit, b2z_digit by lia. split_and!; [done|lia|].
  intros _ E. apply app_eq_nil in E as [_ E]. done.
Qed.

Lemma show_u_bound n : 0 <= n -> n < 2 ^ Z.of_nat (S (Z.to_nat (Z.log2 n))).
Proof.
  intros. rewrite Nat2Z.inj_succ, Z2Nat.id by apply Z.log2_nonneg.
  destruct (Z.eq_dec n 0) as [->|Hn]; [done|]. apply Z.log2_spec. lia.
Qed.

Lemma digits_val_show n : 0 <= n -> digits_val (show_u n) = Some n.
Proof.
  intros Hn. pose proof (show_u_bound n Hn) as Hb. unfold show_u.
  destruct (dec_aux_spec _ n (conj Hn Hb)) as (H1 & H2 & H3).
  unfold digits_val. destruct (dec_aux _ n) eqn:E; [by destruct H3|].
  by rewrite H1, H2.
Qed.

Lemma show_u_digits n : 0 <= n -> forallb is_digit (show_u n) = true.
Proof.
  intros Hn. apply (dec_aux_spec _ n (conj Hn (show_u_bound n Hn))).
Qed.

Lemma show_u_cons n : 0 <= n -> exists d r, show_u n = d :: r /\ is_digit d = true.
Proof.
  intros Hn. pose proof (show_u_digits n Hn) as H. pose proof (digits_val_show n Hn) as H2.
  destruct (show_u n) as [|d r]; [done|]. exists d, r. split; [done|].
  simpl in H. by apply andb_true_iff in H as [H _].
Qed.

Lemma digit_not b c : is_digit b = true -> (b2z c < 48 \/ 57 < b2z c) -> Byte.eqb b c = false.
Proof.
  unfold is_digit. intros H1 H2. destruct (Byte.eqb b c) eqn:E; [|done].
  apply Byte.byte_dec_bl in E. subst. lia.
Qed.

Lemma parse_usize_show n : 0 <= n < 2 ^ 64 -> parse_usize (show_u n) = Some n.
Proof.
  intros Hn. unfold parse_usize.
  destruct (show_u_cons n) as (d & r & E & Hd); [lia|]. rewrite E.
  rewrite digit_not by (done || (right + left; done)).
  rewrite <- E, digits_val_show by lia. rewrite (proj2 (in_u_spec 64 n)) by lia. done.
Qed.

Lemma parse_i64_show n : in_i64 n = true -> parse_i64 (show_i n) = Some n.
Proof.
  intros Hn. unfold parse_i64, show_i. destruct (Z.ltb_spec n 0) as [Hneg|Hpos].
  - cbn -[show_u digits_val in_i64]. rewrite digits_val_show by lia. rewrite Z.opp_involutive, Hn. done.
  - destruct (show_u_cons n) as (d & r & E & Hd); [lia|]. rewrite E.
    rewrite !digit_not by (done || (right + left; done)).
    rewrite <- E, digits_val_show, Hn by lia. done.
Qed.

Lemma dec_aux_head fuel n :
  0 < n < 2 ^ Z.of_nat fuel ->
  exists d r, dec_aux fuel n = d :: r /\ is_digit d = true /\ b2z d <> 48.
Proof.
  revert n. induction fuel as [|f IH]; intros n H; [simpl in H; lia|].
  rewrite Nat2Z.inj_succ, Z.pow_succ_r in H by lia. cbn [dec_aux].
  destruct (Z.ltb_spec n 10) as [Hlt|Hge].
  { exists (digit n), []. rewrite is_digit_digit, b2z_digit by lia. split_and!; [done|done|lia]. }
  pose proof (Z.div_mod n 10 ltac:(lia)) as D.
  pose proof (Z.mod_pos_bound n 10 ltac:(lia)) as B.
  destruct (IH (n / 10)) as (d & r & E & H1 & H2); [lia|].
  exists d, (r ++ [digit (n mod 10)]). rewrite E. done.
Qed.

(** A positive number has no leading zero. *)
Lemma show_u_head n :
  0 < n -> exists d r, show_u n = d :: r /\ is_digit d = true /\ b2z d <> 48.
Proof. intros. apply dec_aux_head. split; [done|]. apply show_u_bound. lia. Qed.

(** ** UTF-8: the acceptance condition of [std::str::from_utf8]

    A Rust [str] is its UTF-8 bytes; strings are [bytes] throughout. *)

Definition between (lo hi : Z) (b : byte) : bool := (lo <=? b2z b) && (b2z b <=? hi).
Definition cont (b : byte) : bool := between 128 191 b.

Fixpoint utf8_valid (l : bytes) : bool :=
  match l with
  | [] => true
  | a :: r =>
      if b2z a <? 128 then utf8_valid r
      else if between 194 223 a then
        match r with b :: r' => cont b && utf8_valid r' | _ => false end
      else if between 224 239 a then
        match r with
        | b :: c :: r' =>
            (if b2z a =? 224 then between 160 191 b
             else if b2z a =? 237 then between 128 159 b else cont b)
            && cont c && utf8_valid r'
        | _ => false
        end
      else if between 240 244 a then
        match r with
        | b :: c :: d :: r' =>
            (if b2z a =? 240 then between 144 191 b
             else if b2z a =? 244 then between 128 143 b else cont b)
            && cont c && cont d && utf8_valid r'
        | _ => false
        end
      else false
  end.

Lemma utf8_ascii l : forallb (fun b => b2z b <? 128) l = true -> utf8_valid l = true.
Proof.
  induction l as [|a l IH]; [done|]. cbn [forallb utf8_valid].
  rewrite andb_true_iff. intros [-> H]. by apply IH.
Qed.

(** ** Lists *)

Lemma forallb_Forall_iff {A} (f : A -> bool) l :
  forallb f l = true <-> Forall (fun x => f x = true) l.
Proof. rewrite forallb_forall, List.Forall_forall. done. Qed.

Lemma forallb_weaken {A} (f g : A -> bool) l :
  (forall x, f x = true -> g x = true) -> forallb f l = true -> forallb g l = true.
Proof.
  intros H. induction l as [|x l IH]; [done|]. simpl. rewrite !andb_true_iff.
  intros [H1 H2]. auto.
Qed.

Lemma drop_past {A} (l : list A) x r n : length l = n -> drop (n + 1) (l ++ x :: r) = r.
Proof. intros <-. induction l as [|y l IH]; simpl; [done|]. exact IH. Qed.

(** [iter().position(p)] *)
Fixpoint position {A} (p : A -> bool) (l : list A) : option nat :=
  match l with
  | [] => None
  | x :: l' => if p x then Some O else S <$> position p l'
  end.

Lemma position_Some {A} (p : A -> bool) l i :
  position p l = Some i ->
  exists x, l !! i = Some x /\ p x = true /\ forallb (fun y => negb (p y)) (take i l) = true.
Proof.
  revert i. induction l as [|x l IH]; intros i; [done|]. simpl.
  destruct (p x) eqn:E.
  - intros [= <-]. exists x. done.
  - destruct (position p l) as [j|]; [|done]. intros [= <-].
    destruct (IH j eq_refl) as (y & H1 & H2 & H3). exists y. simpl. by rewrite E, H3.
Qed.

Lemma position_app_first {A} (p : A -> bool) l x r :
  forallb (fun y => negb (p y)) l = true -> p x = true ->
  position p (l ++ x :: r) = Some (length l).
Proof.
  induction l as [|y l IH]; simpl; intros H Hx; [by rewrite Hx|].
  apply andb_true_iff in H as [H1 H2]. apply negb_true_iff in H1 as ->.
  by rewrite IH.
Qed.

Lemma position_None {A} (p : A -> bool) l :
  position p l = None -> forallb (fun y => negb (p y)) l = true.
Proof.
  induction l as [|x l IH]; [done|]. simpl. destruct (p x); [done|].
  destruct (position p l); [done|]. simpl. eauto.
Qed.

(** [as_chunks::<n>().0]: the full chunks of [n] elements. *)
Definition as_chunks {A} (n : nat) (l : list A) : list (list A) :=
  (fun i => take n (drop (n * i) l)) <$> seq 0 (length l / n).

Lemma as_chunks_concat {A} n (ls : list (list A)) :
  (0 < n)%nat -> Forall (fun c => length c = n) ls -> as_chunks n (concat ls) = ls.
Proof.
  intros Hn H. assert (E : length (concat ls) = (length ls * n)%nat).
  { induction H as [|c ls Hc Hl IH]; [done|]. cbn. rewrite length_app, IH. lia. }
  unfold as_chunks. rewrite E, Nat.div_mul by lia. clear E.
  apply list_eq. intros i. rewrite list_lookup_fmap.
  destruct (decide (i < length ls)%nat) as [Hi|Hi].
  - rewrite lookup_seq_lt by done. cbn. revert i Hi.
    induction H as [|c ls Hc Hl IH]; intros [|i] Hi; cbn [length concat lookup list_lookup] in *; try lia.
    + rewrite Nat.mul_0_r, drop_0. by rewrite take_app_length'.
    + rewrite <- IH by lia. rewrite drop_app_ge by lia. do 3 f_equal. lia.
  - rewrite lookup_seq_ge, lookup_ge_None_2 by lia. done.
Qed.

Lemma as_chunks_len {A} n (l : list A) : Forall (fun c => length c = n) (as_chunks n l).
Proof.
  apply Forall_fmap, list.Forall_lookup. intros i x Hx. apply lookup_seq in Hx as [-> Hi].
  unfold compose. rewrite length_take, length_drop.
  destruct (decide (n = 0)%nat) as [->|]; [lia|].
  pose proof (Nat.Div0.mul_div_le (length l) n). nia.
Qed.

(** ** Automation *)

Create HintDb rt.
Create Rewrite HintDb rtlen.
#[export] Hint Resolve b2z_range from_be_range wrap_range : rt.
#[export] Hint Rewrite length_to_be @length_app @length_take @length_drop : rtlen.

(** Solve a length goal over encoded fields. *)
Ltac len := repeat (autorewrite with rtlen in *; simpl in *); try lia.

(** Split every boolean conjunction and comparison of the context. *)
Ltac bools :=
  repeat match goal with
  | H : andb _ _ = true |- _ => apply andb_true_iff in H as [? ?]
  | H : orb _ _ = false |- _ => apply orb_false_iff in H as [? ?]
  | H : negb _ = true |- _ => apply negb_true_iff in H
  | H : negb _ = false |- _ => apply negb_false_iff in H
  | H : bool_decide _ = true |- _ => apply bool_decide_eq_true in H
  | H : bool_decide _ = false |- _ => apply bool_decide_eq_false in H
  end.

Arguments slice_from : simpl never.
Arguments slice_range : simpl never.
Arguments index : simpl never.
Arguments b2z : simpl never.
Arguments z2b : simpl never.
Arguments from_be : simpl never.
Arguments to_be : simpl never.
Arguments show_u : simpl never.
Arguments show_i : simpl never.
Arguments wrap : simpl never.
Arguments checked : simpl never.
Arguments in_u : simpl never.

(** [uN::from_be_bytes([p[i], p[i+1], ...])] over [n] bytes, each index checked. *)
Fixpoint index_seq {A} (l : list A) (i n : nat) : result (list A) :=
  match n with
  | O => Ok []
  | S n' => x ← index l i; r ← index_seq l (S i) n'; Ok (x :: r)
  end.

Definition be_at (l : bytes) (i n : nat) : result Z := from_be <$> index_seq l i n.

Lemma index_seq_slice {A} (l : list A) i n :
  (i + n <= length l)%nat -> index_seq l i n = Ok (slice l i n).
Proof.
  revert i. induction n as [|n IH]; intros i H; cbn [index_seq]; [done|].
  unfold index. destruct (lookup_lt_is_Some_2 l i) as [x Hx]; [lia|].
  rewrite Hx. cbn [mbind result_bind]. rewrite IH by lia. cbn.
  unfold slice. by rewrite (drop_S _ _ _ Hx).
Qed.

Lemma be_at_slice l i n :
  (i + n <= length l)%nat -> be_at l i n = Ok (from_be (slice l i n)).
Proof. intros. unfold be_at. by rewrite index_seq_slice. Qed.

(** Reading back an encoded field. *)
Lemma be_at_field l i n z a r :
  l = a ++ to_be n z ++ r -> length a = i -> 0 <= z < 256 ^ Z.of_nat n ->
  be_at l i n = Ok z.
Proof.
  intros -> <- Hz. rewrite be_at_slice.
  - unfold slice. rewrite drop_app_length, take_app_length' by (by rewrite length_to_be).
    by rewrite from_to_be.
  - rewrite !length_app, length_to_be. lia.
Qed.

Lemma slice_as_be l i n :
  (i + n <= length l)%nat -> to_be n (from_be (slice l i n)) = slice l i n.
Proof.
  intros H. rewrite <- (length_slice l i n H) at 1. apply to_from_be.
Qed.

Lemma slice_slice_app {A} (l : list A) i a b :
  slice l i a ++ slice l (i + a) b = slice l i (a + b).
Proof.
  unfold slice. rewrite <- drop_drop. apply take_take_drop.
Qed.

Lemma slice_drop {A} (l : list A) i a :
  slice l i a ++ drop (i + a) l = drop i l.
Proof. unfold slice. rewrite <- drop_drop. apply take_drop. Qed.

Lemma slice_from_Ok {A} (l : list A) a : (a <= length l)%nat -> slice_from l a = Ok (drop a l).
Proof. intros H. unfold slice_from. by rewrite decide_True. Qed.

Lemma slice_range_Ok {A} (l : list A) a b :
  (a <= b <= length l)%nat -> slice_range l a b = Ok (slice l a (b - a)).
Proof. intros H. unfold slice_range. by rewrite decide_True. Qed.

Lemma index_cons {A} (x : A) l : index (x :: l) 0 = Ok x.
Proof. done. Qed.

(** ** Stateful code

    [M S A] is a method on [&mut self] with state [S]: it returns the state it
    leaves behind in every case, so what an early [return Err(..)] already
    changed stays changed. *)

Definition M (S A : Type) : Type := S -> S * result A.

#[export] Instance M_ret S : MRet (M S) := fun A a s => (s, Ok a).
#[export] Instance M_bind S : MBind (M S) := fun A B f m s =>
  match m s with
  | (s', Ok a) => f a s'
  | (s', Err e) => (s', Err e)
  | (s', Panic) => (s', Panic)
  | (s', NoFuel) => (s', NoFuel)
  end.

Definition lift {S A} (r : result A) : M S A := fun s => (s, r).
Definition gets {S A} (f : S -> A) : M S A := fun s => (s, Ok (f s)).
Definition reads {S A} (f : S -> result A) : M S A := fun s => (s, f s).
Definition modify {S} (f : S -> S) : M S unit := fun s => (f s, Ok tt).

Lemma bind_gets {S A B} (g : S -> A) (f : A -> M S B) s : (gets g ≫= f) s = f (g s) s.
Proof. done. Qed.

Lemma bind_lift {S A B} (a : A) (f : A -> M S B) s : (lift (Ok a) ≫= f) s = f a s.
Proof. done. Qed.

Lemma bind_step {S A B} (m : M S A) (f : A -> M S B) s s' a : m s = (s', Ok a) -> (m ≫= f) s = f a s'.
Proof. intros E. unfold mbind, M_bind. by rewrite E. Qed.

(** [v[i] = x] and [bits.set(i, x)]: panic out of range. *)
Definition set_index {A} (l : list A) (i : nat) (x : A) : result (list A) :=
  if decide (i < length l)%nat then Ok (<[i := x]> l) else Panic.

Lemma set_index_Ok {A} (l : list A) i x : (i < length l)%nat -> set_index l i x = Ok (<[i := x]> l).
Proof. intros H. unfold set_index. by rewrite decide_True. Qed.

Lemma index_Some {A} (l : list A) i x : l !! i = Some x -> index l i = Ok x.
Proof. unfold index. by intros ->. Qed.

Lemma checked_small w z : 0 <= z < 2 ^ w -> checked w z = Ok z.
Proof. intros H. by apply checked_Ok. Qed.

Arguments set_index : simpl never.

(** Expose the state passing of one monadic step. *)
Ltac mstep := unfold reads, gets, modify, lift, mret, M_ret, mbind at 1, M_bind at 1; cbn beta iota zeta.
Ltac msteps := unfold reads, gets, modify, lift, mret, M_ret; unfold mbind, M_bind; cbn beta iota zeta.

(** ** Records of fixed-width big-endian fields *)

Fixpoint enc_fields (fs : list (nat * Z)) : bytes :=
  match fs with
  | [] => []
  | (n, z) :: fs' => to_be n z ++ enc_fields fs'
  end.

Fixpoint offset (fs : list (nat * Z)) (k : nat) : nat :=
  match k, fs with
  | S k', (n, _) :: fs' => n + offset fs' k'
  | _, _ => 0
  end.

Lemma be_at_skip (a l : bytes) i n : be_at (a ++ l) (length a + i) n = be_at l i n.
Proof.
  unfold be_at. f_equal. revert i. induction n as [|n IH]; intros i; [done|]. cbn [index_seq].
  unfold index. rewrite lookup_app_r by lia. replace (length a + i - length a)%nat with i by lia.
  destruct (l !! i); [|done]. cbn [mbind result_bind]. rewrite <- Nat.add_succ_r. by rewrite IH.
Qed.

Lemma be_at_fields fs r k n z :
  fs !! k = Some (n, z) -> 0 <= z < 256 ^ Z.of_nat n ->
  be_at (enc_fields fs ++ r) (offset fs k) n = Ok z.
Proof.
  revert k. induction fs as [|[n' z'] fs IH]; intros [|k] Hk Hz; try done; cbn [enc_fields offset].
  - injection Hk as -> ->. rewrite <- app_assoc. apply (be_at_field _ 0 n z [] (enc_fields fs ++ r)); done.
  - rewrite <- app_assoc. rewrite <- (length_to_be n' z') at 2. rewrite be_at_skip. by apply IH.
Qed.

Lemma be_at_nth fs r k i n z :
  fs !! k = Some (n, z) -> offset fs k = i -> 0 <= z < 256 ^ Z.of_nat n ->
  be_at (enc_fields fs ++ r) i n = Ok z.
Proof. intros Hk <-. by apply be_at_fields. Qed.

(** The fields of a buffer, read at their offsets, encode back to its prefix. *)
Fixpoint read_fields (b : bytes) (i : nat) (ws : list nat) : list (nat * Z) :=
  match ws with
  | [] => []
  | n :: ws' => (n, from_be (slice b i n)) :: read_fields b (i + n) ws'
  end.

Lemma enc_read_fields b ws : forall i, (i + sum_list ws <= length b)%nat ->
  enc_fields (read_fields b i ws) = slice b i (sum_list ws).
Proof.
  induction ws as [|n ws IH]; intros i H; cbn [read_fields enc_fields sum_list foldr sum_list_with]; [done|].
  cbn in H. rewrite IH by (unfold sum_list in *; lia). rewrite slice_as_be by lia. apply slice_slice_app.
Qed.

Lemma read_field_range b i n : (i + n <= length b)%nat -> 0 <= from_be (slice b i n) < 256 ^ Z.of_nat n.
Proof. intros H. pose proof (from_be_range (slice b i n)) as R. by rewrite length_slice in R. Qed.

Lemma to_be_1 z : to_be 1 z = [z2b z].
Proof. unfold to_be. cbn. by rewrite Z.div_1_r. Qed.

Lemma length_enc_fields fs : length (enc_fields fs) = sum_list (fst <$> fs).
Proof. induction fs as [|[n z] fs IH]; [done|]. cbn. rewrite length_app, length_to_be, IH. done. Qed.

(** ** Sums of [u64] ([Iterator::sum], which checks overflow like [+]) *)

Definition sum_u64 (l : list Z) : result Z :=
  foldl (fun acc x => a ← acc; checked 64 (a + x)) (Ok 0) l.

Definition zsum (l : list Z) : Z := foldr Z.add 0 l.

Lemma zsum_app l k : zsum (l ++ k) = zsum l + zsum k.
Proof. unfold zsum. induction l as [|x l IH]; simpl; lia. Qed.

Lemma zsum_nonneg l : Forall (fun x => 0 <= x) l -> 0 <= zsum l.
Proof. unfold zsum. induction 1; simpl; lia. Qed.

Lemma sum_stuck (l : list Z) (r : result Z) : (forall z, r <> Ok z) ->
  foldl (fun acc x => a ← acc; checked 64 (a + x)) r l = r.
Proof.
  revert r. induction l as [|x l IH]; intros r H; simpl; [done|].
  destruct r as [z| | |]; [by destruct (H z)|..]; simpl; by apply IH.
Qed.

Lemma sum_from a l : 0 <= a < 2 ^ 64 -> Forall (fun x => 0 <= x) l ->
  foldl (fun acc x => a ← acc; checked 64 (a + x)) (Ok a) l =
  if a + zsum l <? 2 ^ 64 then Ok (a + zsum l) else Panic.
Proof.
  revert a. induction l as [|x l IH]; intros a Ha Hl; simpl.
  { rewrite Z.add_0_r. by rewrite (proj2 (Z.ltb_lt _ _)) by lia. }
  apply list.Forall_cons in Hl as [Hx Hl]. pose proof (zsum_nonneg l Hl).
  unfold checked, in_u, umax. destruct (_ && _) eqn:E.
  - rewrite IH by (done || lia). by rewrite Z.add_assoc.
  - rewrite sum_stuck by done. apply andb_false_iff in E.
    by rewrite (proj2 (Z.ltb_ge _ _)) by lia.
Qed.

(** The sum panics exactly when it does not fit. *)
Lemma sum_u64_eq l : Forall (fun x => 0 <= x) l ->
  sum_u64 l = if zsum l <? 2 ^ 64 then Ok (zsum l) else Panic.
Proof. intros H. unfold sum_u64. rewrite sum_from by (done || lia). done. Qed.

(** ** Stable sorting ([sort_by_key]) *)

Section sort_by.
Context {A : Type} (lt : A -> A -> bool).

(** Insert before the first element that is not smaller, so that an element
    stays ahead of the equal ones that followed it. *)
Fixpoint sort_insert (x : A) (l : list A) : list A :=
  match l with
  | [] => [x]
  | y :: l' => if lt y x then y :: sort_insert x l' else x :: y :: l'
  end.

Definition sort_by (l : list A) : list A := foldr sort_insert [] l.

Lemma sort_insert_perm x l : sort_insert x l ≡ₚ x :: l.
Proof.
  induction l as [|y l IH]; simpl; [done|]. destruct (lt y x); [|done].
  rewrite IH. constructor.
Qed.

Lemma sort_by_perm l : sort_by l ≡ₚ l.
Proof. induction l as [|x l IH]; simpl; [done|]. by rewrite sort_insert_perm, IH. Qed.

Definition not_above (x y : A) : Prop := lt y x = false.

Context (lt_asym : forall x y, lt x y = true -> lt y x = false).
Context (not_above_trans : forall x y z, not_above x y -> not_above y z -> not_above x z).

Lemma sort_insert_sorted x l : StronglySorted not_above l -> StronglySorted not_above (sort_insert x l).
Proof.
  induction 1 as [|y l Hl IH Hy]; simpl; [repeat constructor|].
  destruct (lt y x) eqn:E.
  - constructor; [done|]. rewrite sort_insert_perm. constructor; [|done]. by apply lt_asym.
  - constructor; [by constructor|]. constructor; [done|].
    eapply list.Forall_impl; [exact Hy|]. intros z. by apply not_above_trans.
Qed.

Lemma sort_by_sorted l : StronglySorted not_above (sort_by l).
Proof. induction l; simpl; [constructor|]. by apply sort_insert_sorted. Qed.
End sort_by.

(** The elements a truncation keeps come before those it drops. *)
Lemma sorted_take_drop {A} (R : A -> A -> Prop) n l x y :
  StronglySorted R l -> x ∈ take n l -> y ∈ drop n l -> R x y.
Proof.
  intros Hs. revert n. induction Hs as [|z l Hl IH Hz]; intros [|n]; cbn [take drop].
  - by intros ?%not_elem_of_nil.
  - by intros ?%not_elem_of_nil.
  - by intros ?%not_elem_of_nil.
  - rewrite elem_of_cons. intros [->|Hx] Hy; [|by apply (IH n)].
    rewrite list.Forall_forall in Hz. apply Hz. rewrite <- (take_drop n l), elem_of_app. by right.
Qed.
