(* ===== verification/Bencode.v ===== *)
(** * Bencode: [src/src/metainfo/bencode.rs]

    The value type with its accessors, the serialiser and the recursive-descent
    parser, whose three mutually recursive functions share one fuel.  The
    lemmas establish totality, locality (only the bytes of a value decide how
    it is read) and the round trip. *)

From Stdlib Require Import ZArith Lia String Strings.Byte.
From stdpp Require Import base tactics numbers list option.
From S2P Require Import Prelude.

#[local] Set Warnings "-register-all".

Definition MAX_DEPTH : nat := 100.

(** [enum BencodeValue]; the [BTreeMap] of a [Dict] is its entries in key order. *)
Inductive BencodeValue :=
  | BInt (i : Z)
  | BBytes (b : bytes)
  | BList (items : list BencodeValue)
  | BDict (map : list (bytes * BencodeValue)).

(** ** Accessors *)

Definition as_int (v : BencodeValue) : result Z :=
  match v with BInt i => Ok i | _ => Err (EBencode "expected integer") end.

Definition as_bytes (v : BencodeValue) : result bytes :=
  match v with BBytes b => Ok b | _ => Err (EBencode "expected byte string") end.

Definition as_str (v : BencodeValue) : result bytes :=
  b ← as_bytes v;
  if utf8_valid b then Ok b else Err (EBencode "invalid utf-8").

Definition as_list (v : BencodeValue) : result (list BencodeValue) :=
  match v with BList l => Ok l | _ => Err (EBencode "expected list") end.

Definition as_dict (v : BencodeValue) : result (list (bytes * BencodeValue)) :=
  match v with BDict d => Ok d | _ => Err (EBencode "expected dict") end.

Definition dict_get (v : BencodeValue) (key : bytes) : result BencodeValue :=
  d ← as_dict v; ok_or (bt_get key d) (EBencode "missing key").

(** ** Serialisation *)

Fixpoint to_bytes (v : BencodeValue) : bytes :=
  match v with
  | BInt i => "i"%byte :: show_i i ++ ["e"%byte]
  | BBytes b => show_u (Z.of_nat (length b)) ++ ":"%byte :: b
  | BList items => "l"%byte :: flat_map to_bytes items ++ ["e"%byte]
  | BDict map =>
      "d"%byte ::
      flat_map (fun '(k, v) => (show_u (Z.of_nat (length k)) ++ ":"%byte :: k) ++ to_bytes v) map
      ++ ["e"%byte]
  end.

(** ** Parsing *)

(** The shape checks of [parse_int] on the text between [i] and [e]. *)
Definition check_int_text (s : bytes) : result unit :=
  if (length s =? 0)%nat then Err (EBencode "empty integer")
  else if negb (utf8_valid s) then Err (EBencode "int utf-8")
  else if bytes_eqb s (bs "-0") then Err (EBencode "negative zero")
  else if (1 <? length s)%nat &&
          (bytes_eqb (take 1 s) (bs "0") || bytes_eqb (take 2 s) (bs "-0"))
  then Err (EBencode "leading zero")
  else Ok tt.

Definition parse_int (input : bytes) : result (BencodeValue * bytes) :=
  body ← slice_from input 1;
  end_ ← ok_or (position (Byte.eqb "e") body) (EBencode "unterminated integer");
  let digits := take end_ body in
  _ ← check_int_text digits;
  n ← ok_or (parse_i64 digits) (EBencode "int parse");
  rest ← slice_from body (end_ + 1);
  Ok (BInt n, rest).

(** [slice::split_at]: past the end it panics. *)
Definition split_at (l : bytes) (len : Z) : result (bytes * bytes) :=
  if Z.of_nat (length l) <? len then Panic else Ok (take (Z.to_nat len) l, drop (Z.to_nat len) l).

Definition parse_bytes (input : bytes) : result (bytes * bytes) :=
  colon ← ok_or (position (Byte.eqb ":") input) (EBencode "byte string missing colon");
  if negb (utf8_valid (take colon input)) then Err (EBencode "len utf-8")
  else
    len ← ok_or (parse_usize (take colon input)) (EBencode "byte string len");
    rest ← slice_from input (colon + 1);
    if Z.of_nat (length rest) <? len then Err (EBencode "byte string too short")
    else split_at rest len.

(** The recursion of [parse_value_depth], [parse_list] and [parse_dict].  Each
    call spends one unit of fuel; [parse_value] gives enough (below). *)
Fixpoint parse_value_depth (fuel : nat) (input : bytes) (depth : nat)
    : result (BencodeValue * bytes) :=
  match fuel with
  | O => NoFuel
  | S fuel =>
      if (MAX_DEPTH <? depth)%nat then Err (EBencode "nesting exceeds max depth")
      else match input with
      | [] => Err (EBencode "unexpected EOF")
      | first :: body =>
          if Byte.eqb first "i" then parse_int input
          else if Byte.eqb first "l" then parse_list fuel body [] depth
          else if Byte.eqb first "d" then parse_dict fuel body [] None depth
          else if is_digit first then
            '(b, rest) ← parse_bytes input; Ok (BBytes b, rest)
          else Err (EBencode "unexpected byte")
      end
  end
with parse_list (fuel : nat) (rest : bytes) (items : list BencodeValue) (depth : nat)
    : result (BencodeValue * bytes) :=
  match fuel with
  | O => NoFuel
  | S fuel =>
      match rest with
      | [] => Err (EBencode "unterminated list")
      | c :: rest' =>
          if Byte.eqb c "e" then Ok (BList items, rest')
          else
            '(v, r) ← parse_value_depth fuel rest (S depth);
            parse_list fuel r (items ++ [v]) depth
      end
  end
with parse_dict (fuel : nat) (rest : bytes) (map : list (bytes * BencodeValue))
    (prev_key : option bytes) (depth : nat) : result (BencodeValue * bytes) :=
  match fuel with
  | O => NoFuel
  | S fuel =>
      match rest with
      | [] => Err (EBencode "unterminated dict")
      | c :: rest' =>
          if Byte.eqb c "e" then Ok (BDict map, rest')
          else
            '(key, r) ← parse_bytes rest;
            if match prev_key with Some pk => negb (bytes_ltb pk key) | None => false end
            then Err (EBencode "dict keys not sorted or duplicated")
            else
              '(v, r) ← parse_value_depth fuel r (S depth);
              parse_dict fuel r (bt_insert key v map) (Some key) depth
      end
  end.

Definition parse_value (input : bytes) : result (BencodeValue * bytes) :=
  parse_value_depth (2 * length input + 1) input 0.

Definition parse_all (input : bytes) : result BencodeValue :=
  '(v, rest) ← parse_value input;
  match rest with [] => Ok v | _ => Err (EBencode "trailing bytes after root value") end.

Definition skip_value (input : bytes) : result nat :=
  '(_, rest) ← parse_value input; Ok (length input - length rest)%nat.

Example parse_ex1 : parse_all (bs "d4:listli1ei2ei3eee") =
  Ok (BDict [(bs "list", BList [BInt 1; BInt 2; BInt 3])]).
Proof. vm_compute. reflexivity. Qed.
Example parse_ex2 : parse_all (bs "i03e") = Err (EBencode "leading zero").
Proof. vm_compute. reflexivity. Qed.
Example parse_ex3 : parse_all (bs "i+5e") = Ok (BInt 5).
Proof. vm_compute. reflexivity. Qed.

(** ** Well-formed values *)

(** What a Rust [BencodeValue] satisfies by construction: [i64] integers,
    lengths that fit [usize], and the key order of [BTreeMap]. *)
Fixpoint wf (v : BencodeValue) : bool :=
  match v with
  | BInt i => in_i64 i
  | BBytes b => in_u 64 (Z.of_nat (length b))
  | BList l => forallb wf l
  | BDict m =>
      bt_sorted m && forallb (fun '(k, v) => in_u 64 (Z.of_nat (length k)) && wf v) m
  end.

(** The depth of the deepest node, the root being at depth 0. *)
Fixpoint height (v : BencodeValue) : nat :=
  match v with
  | BInt _ | BBytes _ => 0
  | BList l => foldr (fun v h => Nat.max (S (height v)) h) 0%nat l
  | BDict m => foldr (fun '(_, v) h => Nat.max (S (height v)) h) 0%nat m
  end.

(** Induction over nested values. *)
Section value_ind.
Variable P : BencodeValue -> Prop.
Hypothesis HInt : forall i, P (BInt i).
Hypothesis HBytes : forall b, P (BBytes b).
Hypothesis HList : forall l, Forall P l -> P (BList l).
Hypothesis HDict : forall m, Forall (fun kv => P kv.2) m -> P (BDict m).

Fixpoint value_ind' (v : BencodeValue) : P v :=
  match v with
  | BInt i => HInt i
  | BBytes b => HBytes b
  | BList l =>
      HList l ((fix go l : Forall P l :=
        match l with
        | [] => Forall_nil_2 P
        | v :: l => Forall_cons_2 P v l (value_ind' v) (go l)
        end) l)
  | BDict m =>
      HDict m ((fix go m : Forall (fun kv => P kv.2) m :=
        match m with
        | [] => Forall_nil_2 _
        | kv :: m => Forall_cons_2 (fun kv => P kv.2) kv m (value_ind' kv.2) (go m)
        end) m)
  end.
End value_ind.

(** ** Scalars *)

Lemma parse_bytes_returns input : returns (parse_bytes input) = true.
Proof.
  unfold parse_bytes. destruct (position _ input) as [c|] eqn:E; [|done]. simpl.
  destruct (negb _); [done|]. destruct (parse_usize _); [|done]. simpl.
  apply position_Some in E as (x & E & _). apply lookup_lt_Some in E.
  rewrite slice_from_Ok by lia. simpl. unfold split_at. by destruct (_ <? _).
Qed.

(** What a parsed byte string is, and that only its own bytes matter. *)
Lemma parse_bytes_local input b rest :
  parse_bytes input = Ok (b, rest) ->
  in_u 64 (Z.of_nat (length b)) = true /\
  exists c, input = c ++ rest /\ c <> [] /\
    forall r', parse_bytes (c ++ r') = Ok (b, r').
Proof.
  unfold parse_bytes. destruct (position _ input) as [c|] eqn:E; [|done].
  simpl. destruct (negb _) eqn:Hu; [done|]. destruct (parse_usize _) as [len|] eqn:Hp; [|done].
  simpl. apply position_Some in E as (x & E & Hx & Hpre).
  pose proof (lookup_lt_Some _ _ _ E) as Hlt.
  rewrite slice_from_Ok by lia. simpl.
  unfold split_at. destruct (Z.ltb_spec (Z.of_nat (length (drop (c + 1) input))) len) as [|Hlen]; [done|].
  intros [= <- <-].
  assert (Hr : 0 <= len < 2 ^ 64).
  { unfold parse_usize in Hp. destruct (digits_val _) as [v|]; [|done].
    destruct (in_u 64 v) eqn:Hv; [|done]. injection Hp as ->. by apply in_u_spec. }
  set (n := Z.to_nat len) in *. split.
  { apply in_u_spec. rewrite length_take. lia. }
  exists (take (c + 1) input ++ take n (drop (c + 1) input)). split_and!.
  - by rewrite <- app_assoc, !take_drop.
  - intros H. apply (f_equal length) in H. rewrite length_app, length_take in H. simpl in H. lia.
  - intros r'.
    assert (Hin : take (c + 1) input = take c input ++ [x]).
    { rewrite Nat.add_1_r. by apply take_S_r. }
    rewrite Hin, <- !app_assoc. cbn [app].
    rewrite position_app_first by done. rewrite length_take_le by lia. simpl.
    rewrite take_app_length' by (rewrite length_take; lia).
    rewrite Hu, Hp. simpl.
    rewrite slice_from_Ok by (rewrite length_app, length_take; simpl; lia). simpl.
    assert (Hd : drop (c + 1) (take c input ++ x :: take n (drop (c + 1) input) ++ r')
                 = take n (drop (c + 1) input) ++ r').
    { apply drop_past. rewrite length_take. lia. }
    rewrite Hd. rewrite length_drop in Hlen.
    replace (Z.of_nat (length (take n (drop (c + 1) input) ++ r')) <? len) with false.
    2:{ symmetry. apply Z.ltb_ge. rewrite length_app, length_take, length_drop. lia. }
    rewrite take_app_length', drop_app_length' by (rewrite length_take, length_drop; lia).
    done.
Qed.

Lemma parse_bytes_show b r :
  in_u 64 (Z.of_nat (length b)) = true ->
  parse_bytes (show_u (Z.of_nat (length b)) ++ ":"%byte :: b ++ r) = Ok (b, r).
Proof.
  intros Hb. apply in_u_spec in Hb. unfold parse_bytes.
  set (ds := show_u (Z.of_nat (length b))).
  assert (Hds : forallb is_digit ds = true) by (apply show_u_digits; lia).
  rewrite position_app_first; [|..|done]; cycle 1.
  { eapply forallb_weaken; [|exact Hds]. intros d Hd. simpl.
    destruct (Byte.eqb ":" d) eqn:E; [|done]. apply byte_eqb_iff in E. by subst. }
  simpl. rewrite take_app_length. rewrite utf8_ascii; cycle 1.
  { eapply forallb_weaken; [|exact Hds]. intros d. unfold is_digit. lia. }
  simpl. assert (Hp : parse_usize ds = Some (Z.of_nat (length b))) by (apply parse_usize_show; lia).
  rewrite Hp. simpl.
  rewrite slice_from_Ok by (rewrite length_app; simpl; lia). simpl.
  replace (drop (length ds + 1) (ds ++ ":"%byte :: b ++ r)) with (b ++ r).
  2:{ symmetry. by apply drop_past. }
  replace (Z.of_nat (length (b ++ r)) <? Z.of_nat (length b)) with false.
  2:{ symmetry. apply Z.ltb_ge. rewrite length_app. lia. }
  unfold split_at. rewrite (proj2 (Z.ltb_ge _ _)) by (rewrite length_app; lia). by rewrite Nat2Z.id, take_app_length, drop_app_length.
Qed.

Lemma check_int_returns s : returns (check_int_text s) = true.
Proof. unfold check_int_text. by repeat case_match. Qed.

Lemma parse_int_returns c r : returns (parse_int (c :: r)) = true.
Proof.
  unfold parse_int. rewrite slice_from_Ok by (simpl; lia). simpl.
  rewrite drop_0. destruct (position _ r) as [e|] eqn:E; [|done]. simpl.
  apply bind_returns; [apply check_int_returns|]. intros _ _.
  destruct (parse_i64 _); [|done]. simpl.
  apply position_Some in E as (x & E & _). apply lookup_lt_Some in E.
  by rewrite slice_from_Ok by lia.
Qed.

Lemma parse_int_local c0 body v rest :
  parse_int (c0 :: body) = Ok (v, rest) ->
  wf v = true /\ height v = 0%nat /\
  exists c, body = c ++ rest /\ c <> [] /\
    forall r', parse_int (c0 :: c ++ r') = Ok (v, r').
Proof.
  unfold parse_int. rewrite slice_from_Ok by (simpl; lia). simpl. rewrite drop_0.
  destruct (position _ body) as [e|] eqn:E; [|done]. simpl.
  apply position_Some in E as (x & E & Hx & Hpre).
  pose proof (lookup_lt_Some _ _ _ E) as Hlt.
  remember (take e body) as ds eqn:Hds.
  assert (Hlen : length ds = e) by (subst; rewrite length_take; lia).
  destruct (check_int_text ds) as [[]| | |] eqn:Hc; try done. simpl.
  destruct (parse_i64 ds) as [n|] eqn:Hp; [|done]. simpl.
  rewrite slice_from_Ok by lia. simpl. intros [= <- <-]. split_and!; [|done|].
  { simpl. unfold parse_i64 in Hp.
    repeat (case_match; try done); by injection Hp as <-. }
  exists (ds ++ [x]). split_and!.
  - rewrite <- app_assoc. simpl. subst ds. rewrite Nat.add_1_r. symmetry.
    by apply take_drop_middle.
  - by destruct ds.
  - intros r'. rewrite drop_0, <- app_assoc. simpl. rewrite position_app_first by done. simpl.
    rewrite take_app_length, Hc, Hp. simpl.
    rewrite slice_from_Ok by (rewrite length_app; simpl; lia). simpl.
    by rewrite drop_past.
Qed.

Lemma show_i_checks n :
  bytes_eqb (show_i n) (bs "-0") = false /\
  (1 <? length (show_i n))%nat &&
  (bytes_eqb (take 1 (show_i n)) (bs "0") || bytes_eqb (take 2 (show_i n)) (bs "-0")) = false.
Proof.
  change (bs "-0") with ["-"%byte; "0"%byte]. change (bs "0") with ["0"%byte].
  unfold show_i. destruct (Z.ltb_spec n 0) as [H|H].
  - destruct (show_u_head (- n)) as (d & r & -> & Hd & H0); [lia|].
    assert (E : (b2z d =? b2z "0") = false) by (change (b2z "0") with 48; lia).
    simpl. rewrite E. simpl. change (b2z "-" =? b2z "0") with false. done.
  - destruct (Z.eq_dec n 0) as [->|Hn]; [done|].
    destruct (show_u_head n) as (d & r & -> & Hd & H0); [lia|].
    assert (E : (b2z d =? b2z "0") = false) by (change (b2z "0") with 48; lia).
    assert (E2 : (b2z d =? b2z "-") = false).
    { change (b2z "-") with 45. unfold is_digit in Hd. lia. }
    simpl. rewrite E, E2. simpl. by rewrite andb_false_r.
Qed.

Lemma show_i_bytes n :
  forallb (fun b => is_digit b || Byte.eqb b "-") (show_i n) = true /\ show_i n <> [].
Proof.
  unfold show_i. destruct (Z.ltb_spec n 0) as [H|H].
  - split; [|done]. cbn [forallb]. apply andb_true_iff. split; [done|].
    eapply forallb_weaken; [|apply (show_u_digits (- n)); lia]. by intros x ->.
  - split.
    + eapply forallb_weaken; [|apply (show_u_digits n); lia]. by intros x ->.
    + destruct (show_u_cons n) as (d & r & -> & _); done.
Qed.

Lemma parse_int_show n r :
  in_i64 n = true -> parse_int ("i"%byte :: show_i n ++ "e"%byte :: r) = Ok (BInt n, r).
Proof.
  intros Hn. unfold parse_int. rewrite slice_from_Ok by (simpl; lia). simpl. rewrite drop_0.
  destruct (show_i_bytes n) as [Hb Hne]. destruct (show_i_checks n) as [Hc1 Hc2].
  rewrite position_app_first; [|..|done]; cycle 1.
  { eapply forallb_weaken; [|exact Hb]. intros x Hx.
    destruct (Byte.eqb "e" x) eqn:E; [|done]. apply byte_eqb_iff in E. by subst. }
  simpl. rewrite take_app_length. unfold check_int_text.
  replace (length (show_i n) =? 0)%nat with false by (by destruct (show_i n)).
  rewrite utf8_ascii; cycle 1.
  { eapply forallb_weaken; [|exact Hb]. intros x Hx.
    apply orb_true_iff in Hx as [Hx|Hx]; [unfold is_digit in Hx; lia|].
    apply byte_eqb_iff in Hx. by subst. }
  simpl. rewrite Hc1, Hc2, parse_i64_show by done. simpl.
  rewrite slice_from_Ok by (rewrite length_app; simpl; lia). simpl.
  by rewrite drop_past.
Qed.

(** ** Totality of the parser *)

(** A successful parse leaves a strictly shorter rest. *)
Definition shrinks (input : bytes) (r : result (BencodeValue * bytes)) : Prop :=
  forall v rest, r = Ok (v, rest) -> (length rest < length input)%nat.

Lemma parse_int_shrinks c r : shrinks (c :: r) (parse_int (c :: r)).
Proof.
  intros v rest H. apply parse_int_local in H as (_ & _ & c' & -> & Hc & _).
  simpl. rewrite length_app. lia.
Qed.

Lemma parse_bytes_shrinks input b rest :
  parse_bytes input = Ok (b, rest) -> (length rest < length input)%nat.
Proof.
  intros H. apply parse_bytes_local in H as (_ & c & -> & Hc & _).
  rewrite length_app. destruct c; [done|]. simpl. lia.
Qed.

Lemma parse_fuel fuel :
  (forall input d, (2 * length input + 1 <= fuel)%nat ->
     returns (parse_value_depth fuel input d) = true /\
     shrinks input (parse_value_depth fuel input d)) /\
  (forall rest items d, (2 * length rest + 2 <= fuel)%nat ->
     returns (parse_list fuel rest items d) = true /\
     shrinks rest (parse_list fuel rest items d)) /\
  (forall rest map prev d, (2 * length rest + 2 <= fuel)%nat ->
     returns (parse_dict fuel rest map prev d) = true /\
     shrinks rest (parse_dict fuel rest map prev d)).
Proof.
  induction fuel as [|f (IHv & IHl & IHd)]; [split_and!; intros; lia|].
  split_and!.
  - intros [|c body] d Hf; cbn [parse_value_depth]; [by destruct (_ <? _)%nat|].
    destruct (_ <? _)%nat; [done|]. simpl in Hf.
    destruct (Byte.eqb c "i"); [split; [apply parse_int_returns | apply parse_int_shrinks]|].
    destruct (Byte.eqb c "l").
    { destruct (IHl body [] d) as [H1 H2]; [lia|]. split; [done|].
      intros v r E. apply H2 in E. simpl. lia. }
    destruct (Byte.eqb c "d").
    { destruct (IHd body [] None d) as [H1 H2]; [lia|]. split; [done|].
      intros v r E. apply H2 in E. simpl. lia. }
    destruct (is_digit c); [|done].
    pose proof (parse_bytes_returns (c :: body)) as H1.
    destruct (parse_bytes (c :: body)) as [[b r]| | |] eqn:E; try done.
    split; [done|]. intros v r' [= <- <-]. by apply parse_bytes_shrinks in E.
  - intros [|c rest] items d Hf; cbn [parse_list]; [done|]. simpl in Hf.
    destruct (Byte.eqb c "e").
    { split; [done|]. intros v r [= <- <-]. simpl. lia. }
    destruct (IHv (c :: rest) (S d)) as [H1 H2]; [simpl; lia|].
    destruct (parse_value_depth f (c :: rest) (S d)) as [[v r]| | |] eqn:E; try done. simpl.
    specialize (H2 v r eq_refl). simpl in H2.
    destruct (IHl r (items ++ [v]) d) as [H3 H4]; [lia|]. split; [done|].
    intros v' r' E'. apply H4 in E'. simpl. lia.
  - intros [|c rest] map prev d Hf; cbn [parse_dict]; [done|]. simpl in Hf.
    destruct (Byte.eqb c "e").
    { split; [done|]. intros v r [= <- <-]. simpl. lia. }
    pose proof (parse_bytes_returns (c :: rest)) as H0.
    destruct (parse_bytes (c :: rest)) as [[key r0]| | |] eqn:E0; try done. simpl.
    apply parse_bytes_shrinks in E0. simpl in E0.
    destruct (match prev with Some _ => _ | None => _ end); [done|].
    destruct (IHv r0 (S d)) as [H1 H2]; [lia|].
    destruct (parse_value_depth f r0 (S d)) as [[v r]| | |] eqn:E; try done. simpl.
    specialize (H2 v r eq_refl).
    destruct (IHd r (bt_insert key v map) (Some key) d) as [H3 H4]; [lia|]. split; [done|].
    intros v' r' E'. apply H4 in E'. simpl. lia.
Qed.

(** ** What a successful parse guarantees *)

(** [parse] on [c ++ r'] gives [v] and leaves [r'], whatever follows [c]. *)
Definition local (parse : nat -> bytes -> result (BencodeValue * bytes))
    (input rest : bytes) (v : BencodeValue) (k : nat) : Prop :=
  exists c, input = c ++ rest /\ c <> [] /\
    forall fuel r', (2 * length c + k <= fuel)%nat -> parse fuel (c ++ r') = Ok (v, r').

(** The entries read so far, the last key being [prev]. *)
Definition dict_state (prev : option bytes) (map : list (bytes * BencodeValue)) : Prop :=
  match prev with
  | None => map = []
  | Some pk => bt_sorted map = true /\ exists m0 v0, map = m0 ++ [(pk, v0)]
  end.

Lemma bt_above_snoc {V} lo (m : list (bytes * V)) pk v0 key v :
  bt_above lo (m ++ [(pk, v0)]) = true -> bytes_ltb pk key = true ->
  bt_above lo ((m ++ [(pk, v0)]) ++ [(key, v)]) = true.
Proof.
  revert lo. induction m as [|[k w] m IH]; intros lo; simpl.
  - rewrite !andb_true_r. intros -> ->. done.
  - rewrite !andb_true_iff. intros [-> H] H2. split; [done|]. by apply IH.
Qed.

Lemma dict_state_step prev map key v :
  dict_state prev map ->
  match prev with Some pk => negb (bytes_ltb pk key) | None => false end = false ->
  bt_insert key v map = map ++ [(key, v)] /\ dict_state (Some key) (map ++ [(key, v)]).
Proof.
  destruct prev as [pk|]; simpl.
  - intros (Hs & m0 & v0 & ->) Hk. apply negb_false_iff in Hk.
    pose proof (bt_above_snoc None m0 pk v0 key v Hs Hk) as Hs'.
    split; [by apply (bt_insert_snoc None)|]. split; [done|]. eauto.
  - intros -> _. split; [done|]. split; [done|]. by exists [], v.
Qed.

Definition wf_entry (kv : bytes * BencodeValue) : bool :=
  let '(k, v) := kv in in_u 64 (Z.of_nat (length k)) && wf v.

Definition height_list : list BencodeValue -> nat :=
  foldr (fun v h => Nat.max (S (height v)) h) 0%nat.
Definition height_dict : list (bytes * BencodeValue) -> nat :=
  foldr (fun '(_, v) h => Nat.max (S (height v)) h) 0%nat.

Lemma height_list_snoc l v :
  height_list (l ++ [v]) = Nat.max (height_list l) (S (height v)).
Proof.
  unfold height_list. induction l as [|x l IH]; simpl; [lia|]. rewrite IH. lia.
Qed.

Lemma height_dict_snoc m k v :
  height_dict (m ++ [(k, v)]) = Nat.max (height_dict m) (S (height v)).
Proof.
  unfold height_dict. induction m as [|[k' x] m IH]; simpl; [lia|]. rewrite IH. lia.
Qed.

Lemma local_list_step c rest r v rest' v' items d :
  Byte.eqb c "e" = false ->
  local (fun f i => parse_value_depth f i (S d)) (c :: rest) r v 1 ->
  local (fun f i => parse_list f i (items ++ [v]) d) r rest' v' 2 ->
  local (fun f i => parse_list f i items d) (c :: rest) rest' v' 2.
Proof.
  intros Hc (c1 & E1 & Hn1 & H1) (c2 & E2 & Hn2 & H2). subst r.
  destruct c1 as [|x c1]; [done|]. injection E1 as <- ->.
  exists ((c :: c1) ++ c2). split; [by rewrite <- app_assoc|]. split; [done|].
  intros [|f] r' Hf; [lia|]. rewrite length_app in Hf. simpl in Hf.
  destruct c2 as [|y c2]; [done|].
  rewrite <- app_assoc.
  pose proof (H1 f ((y :: c2) ++ r') ltac:(simpl in *; lia)) as Hv.
  cbn [parse_list app] in *. rewrite Hc, Hv. cbn [mbind result_bind].
  apply (H2 f r'). simpl in *. lia.
Qed.

Lemma local_dict_step c rest key r0 r v rest' v' map prev d :
  Byte.eqb c "e" = false ->
  parse_bytes (c :: rest) = Ok (key, r0) ->
  match prev with Some pk => negb (bytes_ltb pk key) | None => false end = false ->
  local (fun f i => parse_value_depth f i (S d)) r0 r v 1 ->
  local (fun f i => parse_dict f i (bt_insert key v map) (Some key) d) r rest' v' 2 ->
  local (fun f i => parse_dict f i map prev d) (c :: rest) rest' v' 2.
Proof.
  intros Hc Hk Hprev (c1 & E1 & Hn1 & H1) (c2 & E2 & Hn2 & H2). subst r r0.
  apply parse_bytes_local in Hk as (_ & c0 & E0 & Hn0 & H0).
  destruct c0 as [|x c0]; [done|]. injection E0 as <- ->.
  exists ((c :: c0) ++ c1 ++ c2). split; [by rewrite <- !app_assoc|]. split; [done|].
  intros [|f] r' Hf; [lia|]. rewrite !length_app in Hf. simpl in Hf.
  rewrite <- !app_assoc. specialize (H0 (c1 ++ c2 ++ r')).
  destruct c1 as [|y c1]; [done|]. destruct c2 as [|z c2]; [done|].
  pose proof (H1 f ((z :: c2) ++ r') ltac:(simpl in *; lia)) as Hv.
  cbn [parse_dict app] in *. rewrite Hc, H0. cbn [mbind result_bind].
  rewrite Hprev, Hv. cbn [mbind result_bind].
  apply (H2 f r'). simpl in *. lia.
Qed.

Lemma local_end c rest v k parse :
  (forall f r', (0 < f)%nat -> parse f (c :: r') = Ok (v, r')) ->
  local parse (c :: rest) rest v k.
Proof.
  intros H. exists [c]. split_and!; [done|done|]. intros f r' Hf. apply H. simpl in Hf. lia.
Qed.

Lemma local_tag c body rest v d (parse : nat -> bytes -> result (BencodeValue * bytes)) :
  (d <= MAX_DEPTH)%nat ->
  (forall f r, parse_value_depth (S f) (c :: r) d = parse f r) ->
  local parse body rest v 2 ->
  local (fun f i => parse_value_depth f i d) (c :: body) rest v 1.
Proof.
  intros Hd Hp (c1 & -> & Hn & H). exists (c :: c1). split_and!; [done|done|].
  intros [|f] r' Hf; [lia|]. simpl in Hf. cbn [app]. rewrite Hp. apply H. lia.
Qed.

Definition sound_at (d : nat) (v : BencodeValue) : Prop :=
  wf v = true /\ (height v + d <= MAX_DEPTH)%nat.

Definition sound_value (fuel : nat) : Prop := forall input d v rest,
  parse_value_depth fuel input d = Ok (v, rest) ->
  sound_at d v /\ local (fun f i => parse_value_depth f i d) input rest v 1.

Definition sound_list (fuel : nat) : Prop := forall rest items d v r,
  parse_list fuel rest items d = Ok (v, r) ->
  forallb wf items = true -> (height_list items + d <= MAX_DEPTH)%nat ->
  sound_at d v /\ local (fun f i => parse_list f i items d) rest r v 2.

Definition sound_dict (fuel : nat) : Prop := forall rest map prev d v r,
  parse_dict fuel rest map prev d = Ok (v, r) ->
  dict_state prev map -> forallb wf_entry map = true ->
  (height_dict map + d <= MAX_DEPTH)%nat ->
  sound_at d v /\ local (fun f i => parse_dict f i map prev d) rest r v 2.

Lemma sound_value_step f : sound_list f -> sound_dict f -> sound_value (S f).
Proof.
  unfold sound_value, sound_list, sound_dict, sound_at. intros IHl IHd.
  intros [|c body] d v rest; cbn [parse_value_depth]; [by destruct (_ <? _)%nat|].
  destruct (Nat.ltb_spec MAX_DEPTH d) as [|Hd]; [done|].
  assert (Hd' : (MAX_DEPTH <? d)%nat = false) by (by apply Nat.ltb_ge).
  destruct (Byte.eqb c "i") eqn:Ei.
  { intros H. apply parse_int_local in H as (H1 & H2 & c1 & -> & Hn & H).
    split; [rewrite H2; done|]. exists (c :: c1). split_and!; [done|done|].
    intros [|f'] r' Hf; [lia|]. cbn [parse_value_depth app]. rewrite Hd', Ei. apply H. }
  destruct (Byte.eqb c "l") eqn:El.
  { intros H. apply IHl in H as [H1 H2]; [|done|simpl; lia]. split; [done|].
    eapply local_tag; [done| |exact H2]. intros f' r. cbn [parse_value_depth]. by rewrite Hd', Ei, El. }
  destruct (Byte.eqb c "d") eqn:Ed.
  { intros H. apply IHd in H as [H1 H2]; [|done|done|simpl; lia]. split; [done|].
    eapply local_tag; [done| |exact H2]. intros f' r. cbn [parse_value_depth]. by rewrite Hd', Ei, El, Ed. }
  destruct (is_digit c) eqn:Eg; [|done].
  destruct (parse_bytes (c :: body)) as [[b r]| | |] eqn:E; try done.
  intros [= <- <-]. apply parse_bytes_local in E as (H1 & c1 & E1 & Hn & H).
  split; [done|]. destruct c1 as [|x c1]; [done|]. injection E1 as <- ->.
  exists (c :: c1). split_and!; [done|done|].
  intros [|f'] r' Hf; [lia|]. cbn [parse_value_depth app]. rewrite Hd', Ei, El, Ed, Eg.
  change (c :: c1 ++ r') with ((c :: c1) ++ r'). by rewrite H.
Qed.

Lemma sound_list_step f : sound_value f -> sound_list f -> sound_list (S f).
Proof.
  unfold sound_value, sound_list, sound_at. intros IHv IHl.
  intros [|c rest] items d v r; cbn [parse_list]; [done|].
  destruct (Byte.eqb c "e") eqn:Ec.
  { intros [= <- <-] Hw Hh. split; [done|]. apply local_end.
    intros [|f'] r' Hf; [lia|]. cbn. by rewrite Ec. }
  destruct (parse_value_depth f (c :: rest) (S d)) as [[v1 r1]| | |] eqn:E; try done.
  simpl. apply IHv in E as [[H1 H1'] H2]. intros H Hw Hh.
  apply IHl in H as [H3 H4].
  + split; [done|]. by eapply local_list_step.
  + by rewrite forallb_app, Hw; simpl; rewrite H1.
  + rewrite height_list_snoc. lia.
Qed.

Lemma sound_dict_step f : sound_value f -> sound_dict f -> sound_dict (S f).
Proof.
  unfold sound_value, sound_dict, sound_at. intros IHv IHd.
  intros [|c rest] map prev d v r; cbn [parse_dict]; [done|].
  destruct (Byte.eqb c "e") eqn:Ec.
  { intros [= <- <-] Hs Hw Hh. split.
    - split; [|done]. cbn [wf]. apply andb_true_iff. split; [|exact Hw].
      destruct prev; [by destruct Hs|]. by rewrite Hs.
    - apply local_end. intros [|f'] r' Hf; [lia|]. cbn. by rewrite Ec. }
  destruct (parse_bytes (c :: rest)) as [[key r0]| | |] eqn:E0; try done. simpl.
  destruct (match prev with Some _ => _ | None => _ end) eqn:Hp; [done|].
  destruct (parse_value_depth f r0 (S d)) as [[v1 r1]| | |] eqn:E; try done. simpl.
  apply IHv in E as [[H1 H1'] H2]. intros H Hs Hw Hh.
  destruct (dict_state_step prev map key v1 Hs Hp) as [Hi Hs'].
  apply IHd in H as [H3 H4]; rewrite ?Hi.
  + split; [done|]. by eapply local_dict_step.
  + done.
  + rewrite forallb_app, Hw. simpl. rewrite H1.
    apply parse_bytes_local in E0 as [-> _]. done.
  + rewrite height_dict_snoc. lia.
Qed.

Lemma parse_sound fuel : sound_value fuel /\ sound_list fuel /\ sound_dict fuel.
Proof.
  induction fuel as [|f (IHv & IHl & IHd)]; [done|].
  split_and!; [by apply sound_value_step|by apply sound_list_step|by apply sound_dict_step].
Qed.

(** ** Round trip *)

Definition entry_bytes (kv : bytes * BencodeValue) : bytes :=
  let '(k, v) := kv in (show_u (Z.of_nat (length k)) ++ ":"%byte :: k) ++ to_bytes v.

(** [v] is read back from its serialisation at depth [d]. *)
Definition reads_back (v : BencodeValue) : Prop :=
  wf v = true -> forall d, (height v + d <= MAX_DEPTH)%nat ->
  forall fuel r, (2 * length (to_bytes v) + 1 <= fuel)%nat ->
  parse_value_depth fuel (to_bytes v ++ r) d = Ok (v, r).

Lemma digit_not_tag c : is_digit c = true ->
  Byte.eqb c "i" = false /\ Byte.eqb c "l" = false /\ Byte.eqb c "d" = false /\ Byte.eqb c "e" = false.
Proof. intros H. split_and!; apply digit_not; (done || (right; done)). Qed.

Lemma to_bytes_head v : exists c r, to_bytes v = c :: r /\ Byte.eqb c "e" = false.
Proof.
  destruct v as [i|b|l|m]; cbn [to_bytes]; eauto.
  destruct (show_u_cons (Z.of_nat (length b))) as (d & r & -> & Hd); [lia|].
  eexists d, _. split; [done|]. apply digit_not_tag, Hd.
Qed.

Lemma parse_list_back l acc d r :
  Forall reads_back l -> forallb wf l = true -> (height_list l + d <= MAX_DEPTH)%nat ->
  forall f, (2 * length (flat_map to_bytes l) + 4 <= f)%nat ->
  parse_list f (flat_map to_bytes l ++ "e"%byte :: r) acc d = Ok (BList (acc ++ l), r).
Proof.
  intros Hall. revert acc. induction Hall as [|v l Hv Hl IH]; intros acc Hw Hh f Hf.
  { destruct f as [|f]; [simpl in Hf; lia|]. simpl. by rewrite app_nil_r. }
  cbn [forallb flat_map] in *. apply andb_true_iff in Hw as [Hw1 Hw2].
  destruct f as [|f]; [lia|]. rewrite length_app in Hf. cbn in Hh. fold (height_list l) in Hh.
  pose proof (Hv Hw1 (S d) ltac:(lia) f (flat_map to_bytes l ++ "e"%byte :: r)) as E.
  destruct (to_bytes_head v) as (c & t & Ht & Hc). rewrite Ht in *. simpl in Hf.
  rewrite <- app_assoc. cbn [app parse_list] in *.
  rewrite Hc, E by (simpl; lia). cbn [mbind result_bind].
  rewrite IH by (done || lia). by rewrite <- app_assoc.
Qed.

Lemma parse_dict_back m acc prev d r :
  Forall (fun kv => reads_back kv.2) m ->
  dict_state prev acc -> bt_above prev m = true ->
  forallb wf_entry m = true -> (height_dict m + d <= MAX_DEPTH)%nat ->
  forall f, (2 * length (flat_map entry_bytes m) + 4 <= f)%nat ->
  parse_dict f (flat_map entry_bytes m ++ "e"%byte :: r) acc prev d = Ok (BDict (acc ++ m), r).
Proof.
  intros Hall. revert acc prev. induction Hall as [|[k v] m Hv Hm IH];
    intros acc prev Hs Ha Hw Hh f Hf.
  { destruct f as [|f]; [simpl in Hf; lia|]. simpl. by rewrite app_nil_r. }
  cbn [forallb flat_map wf_entry bt_above] in *.
  apply andb_true_iff in Hw as [Hw1 Hw2]. apply andb_true_iff in Hw1 as [Hk Hw1].
  apply andb_true_iff in Ha as [Ha1 Ha2].
  destruct f as [|f]; [lia|]. cbn in Hh. fold (height_dict m) in Hh.
  assert (Hp : match prev with Some pk => negb (bytes_ltb pk k) | None => false end = false)
    by (destruct prev; [by rewrite Ha1|done]).
  destruct (dict_state_step prev acc k v Hs Hp) as [Hi Hs'].
  unfold entry_bytes in Hf at 1. unfold entry_bytes at 1. rewrite !length_app in Hf.
  destruct (show_u_cons (Z.of_nat (length k))) as (g & t & Ht & Hg); [lia|].
  pose proof (parse_bytes_show k (to_bytes v ++ flat_map entry_bytes m ++ "e"%byte :: r) Hk) as Ek.
  rewrite Ht in *. rewrite <- !app_assoc. cbn [app length] in *.
  cbn [parse_dict]. rewrite (proj2 (proj2 (proj2 (digit_not_tag g Hg)))).
  cbn [app]. rewrite Ek. cbn [mbind result_bind]. rewrite Hp.
  simpl in Hv. rewrite (Hv Hw1 (S d)) by (simpl; lia). cbn [mbind result_bind].
  rewrite Hi, IH by (done || lia). by rewrite <- app_assoc.
Qed.

Lemma all_read_back v : reads_back v.
Proof.
  induction v as [i|b|l IH|m IH] using value_ind';
    intros Hw d Hh [|f] r Hf; try lia; cbn [parse_value_depth];
    rewrite (proj2 (Nat.ltb_ge MAX_DEPTH d)) by lia.
  - cbn [to_bytes app]. rewrite <- app_assoc. cbn. by apply parse_int_show.
  - cbn [to_bytes] in *.
    destruct (show_u_cons (Z.of_nat (length b))) as (g & t & Ht & Hg); [lia|].
    pose proof (parse_bytes_show b r Hw) as E. rewrite Ht in *.
    rewrite <- app_assoc. cbn [app] in *.
    destruct (digit_not_tag g Hg) as (-> & -> & -> & _). by rewrite Hg, E.
  - cbn [to_bytes app] in *. rewrite <- app_assoc. cbn [app].
    change (Byte.eqb "l" "i") with false. change (Byte.eqb "l" "l") with true. cbv iota.
    rewrite parse_list_back; [done|done|done|exact Hh|].
    simpl in Hf. rewrite length_app in Hf. simpl in Hf. lia.
  - cbn [to_bytes app] in *. rewrite <- app_assoc. cbn [app].
    change (Byte.eqb "d" "i") with false. change (Byte.eqb "d" "l") with false.
    change (Byte.eqb "d" "d") with true. cbv iota.
    cbn [wf] in Hw. apply andb_true_iff in Hw as [Hw1 Hw2].
    change (flat_map _ m) with (flat_map entry_bytes m) in *.
    rewrite parse_dict_back; [done|done|done|exact Hw1|exact Hw2|exact Hh|].
    simpl in Hf. rewrite length_app in Hf. simpl in Hf. lia.
Qed.

Lemma parse_value_returns input : returns (parse_value input) = true.
Proof. apply (proj1 (parse_fuel (2 * length input + 1)) input 0%nat (Nat.le_refl _)). Qed.

(** ** Parts of a parsed value *)

Lemma bt_get_wf d k v : forallb wf_entry d = true -> bt_get k d = Some v -> wf v = true.
Proof.
  induction d as [|[k' v'] d IH]; [done|]. cbn. rewrite !andb_true_iff. intros [[_ H1] H2].
  destruct (bytes_eqb k k'); [intros [= <-]; done|auto].
Qed.

Lemma as_dict_wf v d : wf v = true -> as_dict v = Ok d -> forallb wf_entry d = true.
Proof. destruct v; try done. cbn [wf as_dict]. intros [_ H]%andb_true_iff [= <-]. exact H. Qed.

Lemma as_list_wf v l : wf v = true -> as_list v = Ok l -> Forall (fun v => wf v = true) l.
Proof. destruct v; try done. cbn [wf as_list]. intros H [= <-]. by apply forallb_Forall_iff. Qed.

Lemma parse_all_wf input v : parse_all input = Ok v -> wf v = true.
Proof.
  intros H. apply bind_Ok in H as ([w rest] & H & E). destruct rest; [|done]. injection E as <-.
  unfold parse_value in H. by destruct (proj1 (parse_sound _) _ _ _ _ H) as [[Hw _] _].
Qed.

Lemma parse_all_height input v : parse_all input = Ok v -> (height v <= MAX_DEPTH)%nat.
Proof.
  intros H. apply bind_Ok in H as ([w rest] & H & E). destruct rest; [|done]. injection E as <-.
  unfold parse_value in H. destruct (proj1 (parse_sound _) _ _ _ _ H) as [[_ Hh] _]. lia.
Qed.

Lemma parse_all_returns input : returns (parse_all input) = true.
Proof.
  unfold parse_all, parse_value.
  destruct (proj1 (parse_fuel (2 * length input + 1)) input 0%nat (Nat.le_refl _)) as [H _].
  destruct (parse_value_depth _ input 0) as [[v [|? ?]]| | |]; done.
Qed.

Lemma parse_all_back v : wf v = true -> (height v <= MAX_DEPTH)%nat -> parse_all (to_bytes v) = Ok v.
Proof.
  intros Hw Hh. unfold parse_all, parse_value.
  pose proof (all_read_back v Hw 0%nat ltac:(lia) (2 * length (to_bytes v) + 1)%nat []) as H.
  rewrite app_nil_r in H. by rewrite H by lia.
Qed.

Lemma parse_value_back v r : wf v = true -> (height v <= MAX_DEPTH)%nat -> parse_value (to_bytes v ++ r) = Ok (v, r).
Proof.
  intros Hw Hh. unfold parse_value. apply (all_read_back v Hw 0%nat ltac:(lia)). rewrite length_app. lia.
Qed.

(** ** Dictionaries with literal keys *)

Lemma bt_get_hit {V} k (v : V) m : bt_get k ((k, v) :: m) = Some v.
Proof. cbn. by rewrite bytes_eqb_refl. Qed.

Lemma bt_get_skip {V} k k' (v : V) m : bytes_eqb k k' = false -> bt_get k ((k', v) :: m) = bt_get k m.
Proof. cbn. by intros ->. Qed.

(** Look up literal keys in literal dictionaries. *)
Ltac lookups :=
  repeat (cbn [ok_or mbind result_bind option_bind as_bytes as_dict as_int as_list];
          first [rewrite bt_get_hit | rewrite bt_get_skip by (vm_compute; reflexivity)]);
  cbn [ok_or mbind result_bind option_bind as_bytes as_dict as_int as_list].

(** Decide comparisons of literals. *)
Ltac lit_eqb :=
  repeat match goal with |- context [bytes_eqb (bs ?a) (bs ?b)] =>
    let r := eval vm_compute in (bytes_eqb (bs a) (bs b)) in change (bytes_eqb (bs a) (bs b)) with r; cbv iota
  end.

Definition entries_wf (m : list (bytes * BencodeValue)) : bool :=
  forallb (fun '(k, v) => in_u 64 (Z.of_nat (length k)) && wf v) m.

Lemma wf_dict m : bt_sorted m = true -> entries_wf m = true -> wf (BDict m) = true.
Proof. unfold entries_wf. cbn [wf]. by intros -> ->. Qed.

Lemma entries_wf_cons k v m : in_u 64 (Z.of_nat (length k)) = true -> wf v = true -> entries_wf m = true ->
  entries_wf ((k, v) :: m) = true.
Proof. unfold entries_wf. cbn [forallb]. by intros -> -> ->. Qed.

Lemma entries_wf_nil : entries_wf [] = true.
Proof. done. Qed.

(** Reduce well-formedness of a literal dictionary to that of its values. *)
Ltac wf_dicts :=
  repeat match goal with
  | |- wf (BDict _) = true => apply wf_dict; [vm_compute; reflexivity|]
  | |- entries_wf (_ :: _) = true => apply entries_wf_cons; [vm_compute; reflexivity| |]
  | |- entries_wf [] = true => reflexivity
  | |- wf (BBytes (bs _)) = true => reflexivity
  end.

(** Step through a chain of fallible reads. *)
Ltac step_returns :=
  repeat match goal with
  | |- returns (mbind _ _) = true => apply bind_returns; [|intros ? ?]
  | |- returns (let _ := _ in _) = true => cbv zeta
  | |- returns (ok_or ?o _) = true => by destruct o
  | |- returns (as_bytes ?v) = true => by destruct v
  | |- returns (as_dict ?v) = true => by destruct v
  | |- returns (as_list ?v) = true => by destruct v
  | |- returns (as_int ?v) = true => by destruct v
  | |- returns (if ?b then _ else _) = true => destruct b eqn:?
  | |- returns (Ok _) = true => done
  | |- returns (Err _) = true => done
  end.

Lemma ok_or_Ok {A} (o : option A) e a : ok_or o e = Ok a -> o = Some a.
Proof. destruct o; [|done]. by intros [= ->]. Qed.

Lemma entries_wf_insert k v m : in_u 64 (Z.of_nat (length k)) = true -> wf v = true -> entries_wf m = true ->
  entries_wf (bt_insert k v m) = true.
Proof.
  intros Hk Hv. unfold entries_wf. induction m as [|[k' v'] m IH]; cbn [bt_insert forallb]; [by rewrite Hk, Hv|].
  intros [H1 H2]%andb_true_iff. destruct (bytes_ltb k k'); cbn [forallb]; [by rewrite Hk, Hv, H1, H2|].
  destruct (bytes_eqb k k'); cbn [forallb]; [by rewrite Hk, Hv, H2|]. by rewrite H1, IH.
Qed.

Lemma sorted_insert k (v : BencodeValue) m : bt_sorted m = true -> bt_sorted (bt_insert k v m) = true.
Proof. intros H. by apply bt_insert_above. Qed.

(** ** Theorems *)

(** C7: parsing is total: on every input, hostile or not, [parse_all] returns a
    value or an error of the crate.  It never panics (no slice is taken out of
    range, no string is split past its end) and the fuel of [parse_value] is
    always enough; a value it returns is nested at most [MAX_DEPTH] deep. *)
Theorem parse_all_total input :
  returns (parse_all input) = true /\
  forall v, parse_all input = Ok v -> wf v = true /\ (height v <= MAX_DEPTH)%nat.
Proof. split; [apply parse_all_returns|]. intros v H. split; [by eapply parse_all_wf|by eapply parse_all_height]. Qed.

(** C1: encode then parse is the identity: every value that Rust can hold whose
    nesting stays within [MAX_DEPTH] is read back exactly from its own
    serialisation. *)
Theorem parse_all_to_bytes v :
  wf v = true -> (height v <= MAX_DEPTH)%nat -> parse_all (to_bytes v) = Ok v.
Proof. apply parse_all_back. Qed.

Definition sample : BencodeValue :=
  BDict [(bs "a", BList [BInt (-7); BBytes (bs "spam")]); (bs "b", BDict [])].

Lemma parse_all_to_bytes_witness :
  wf sample = true /\ (height sample <= MAX_DEPTH)%nat /\
  parse_all (to_bytes sample) = Ok sample.
Proof.
  split; [vm_compute; reflexivity|]. split; [vm_compute; lia|].
  apply (parse_all_to_bytes sample); vm_compute; [reflexivity|lia].
Defined.

(** What a successful parse guarantees: the value is well formed (64-bit
    integers, strictly ascending dictionary keys), nests no deeper than
    [MAX_DEPTH], and occupies exactly the bytes [skip_value] counts: the same
    bytes followed by anything else give the same value. *)
Lemma parse_value_exact input v rest :
  parse_value input = Ok (v, rest) ->
  wf v = true /\ (height v <= MAX_DEPTH)%nat /\
  exists n, skip_value input = Ok n /\ rest = drop n input /\
    forall r', parse_value (take n input ++ r') = Ok (v, r').
Proof.
  unfold parse_value. intros H.
  destruct (proj1 (parse_sound _) _ _ _ _ H) as [[Hw Hh] (c & -> & Hc & Hl)].
  split; [done|]. split; [lia|]. exists (length c). unfold skip_value, parse_value.
  rewrite H. cbn [mbind result_bind]. split_and!.
  - f_equal. rewrite length_app. lia.
  - by rewrite drop_app_length.
  - intros r'. rewrite take_app_length. apply Hl. rewrite length_app. lia.
Qed.

Lemma parse_value_exact_witness :
  parse_value (bs "i42eXYZ") = Ok (BInt 42, bs "XYZ") /\
  exists n, skip_value (bs "i42eXYZ") = Ok n.
Proof.
  split; [vm_compute; reflexivity|].
  destruct (parse_value_exact (bs "i42eXYZ") (BInt 42) (bs "XYZ")) as (_ & _ & n & H & _).
  - vm_compute. reflexivity.
  - exists n. exact H.
Defined.

(** The parser accepts texts that are not canonical bencode.  A plus sign
    before an integer, a plus sign before the length of a dictionary key and
    leading zeros of a string length all pass, because [str::parse] allows
    them; the leading-zero checks cover integers only. *)
Lemma noncanonical_accepted :
  parse_all (bs "i+5e") = Ok (BInt 5) /\
  parse_all (bs "i+05e") = Ok (BInt 5) /\
  parse_all (bs "004:spam") = Ok (BBytes (bs "spam")) /\
  parse_all (bs "d+3:cow3:mooe") = parse_all (bs "d3:cow3:mooe") /\
  to_bytes (BInt 5) <> bs "i+5e".
Proof. split_and!; vm_compute; done. Qed.
