(* ===== verification/PeerWire.v ===== *)
(** * The peer wire protocol: [src/src/peer/message.rs]

    Messages with their encoder and decoder, length-prefixed frames over a byte
    stream (the allocating reader and writer and the buffer-reusing fast
    paths), and the bitfield codec. *)

From Stdlib Require Import ZArith Lia String Strings.Byte.
From stdpp Require Import base tactics numbers list option.
From S2P Require Import Prelude.

Definition BLOCK_SIZE : Z := 16384.

(** [enum Message]; [u32] and [u8] fields are [Z] in range (see [msg_ok]). *)
Inductive Message :=
  | KeepAlive
  | Choke
  | Unchoke
  | Interested
  | NotInterested
  | Have (i : Z)
  | Bitfield (b : bytes)
  | Request (index begin length : Z)
  | Piece (index begin : Z) (data : bytes)
  | Cancel (index begin length : Z)
  | Extended (ext_id : byte) (payload : bytes)
  | HaveAll
  | HaveNone
  | RejectRequest (index begin length : Z)
  | AllowedFast (i : Z)
  | SuggestPiece (i : Z).

Definition ID_CHOKE : Z := 0.
Definition ID_UNCHOKE : Z := 1.
Definition ID_INTERESTED : Z := 2.
Definition ID_NOT_INTERESTED : Z := 3.
Definition ID_HAVE : Z := 4.
Definition ID_BITFIELD : Z := 5.
Definition ID_REQUEST : Z := 6.
Definition ID_PIECE : Z := 7.
Definition ID_CANCEL : Z := 8.
Definition ID_EXTENDED : Z := 20.
Definition ID_SUGGEST : Z := 13.
Definition ID_HAVE_ALL : Z := 14.
Definition ID_HAVE_NONE : Z := 15.
Definition ID_REJECT : Z := 16.
Definition ID_ALLOWED_FAST : Z := 17.

Definition tag (id : Z) (payload : bytes) : bytes :=
  let len := wrap 32 (1 + Z.of_nat (length payload)) in
  to_be 4 len ++ [z2b id] ++ payload.

Definition encode (m : Message) : bytes :=
  match m with
  | KeepAlive => to_be 4 0
  | Choke => tag ID_CHOKE []
  | Unchoke => tag ID_UNCHOKE []
  | Interested => tag ID_INTERESTED []
  | NotInterested => tag ID_NOT_INTERESTED []
  | Have i => tag ID_HAVE (to_be 4 i)
  | Bitfield b => tag ID_BITFIELD b
  | Request i b l => tag ID_REQUEST (to_be 4 i ++ to_be 4 b ++ to_be 4 l)
  | Piece i b data => tag ID_PIECE (to_be 4 i ++ to_be 4 b ++ data)
  | Cancel i b l => tag ID_CANCEL (to_be 4 i ++ to_be 4 b ++ to_be 4 l)
  | Extended e payload => tag ID_EXTENDED ([e] ++ payload)
  | HaveAll => tag ID_HAVE_ALL []
  | HaveNone => tag ID_HAVE_NONE []
  | RejectRequest i b l => tag ID_REJECT (to_be 4 i ++ to_be 4 b ++ to_be 4 l)
  | AllowedFast i => tag ID_ALLOWED_FAST (to_be 4 i)
  | SuggestPiece i => tag ID_SUGGEST (to_be 4 i)
  end.

Definition ensure_empty (p : bytes) : result unit :=
  if negb (length p =? 0)%nat then Err (ENetwork "expected empty payload") else Ok tt.

Definition decode_index_begin_length (p : bytes) (id : Z) : result Message :=
  if negb (length p =? 12)%nat then Err (ENetwork "request/cancel payload")
  else
    index ← be_at p 0 4; begin ← be_at p 4 4; length ← be_at p 8 4;
    if id =? ID_CANCEL then Ok (Cancel index begin length)
    else Ok (Request index begin length).

Definition decode (frame : bytes) : result Message :=
  if (length frame =? 0)%nat then Ok KeepAlive
  else
    id ← b2z <$> index frame 0;
    p ← slice_from frame 1;
    if id =? ID_CHOKE then _ ← ensure_empty p; Ok Choke
    else if id =? ID_UNCHOKE then _ ← ensure_empty p; Ok Unchoke
    else if id =? ID_INTERESTED then _ ← ensure_empty p; Ok Interested
    else if id =? ID_NOT_INTERESTED then _ ← ensure_empty p; Ok NotInterested
    else if id =? ID_HAVE then
      if negb (length p =? 4)%nat then Err (ENetwork "have payload")
      else i ← be_at p 0 4; Ok (Have i)
    else if id =? ID_BITFIELD then Ok (Bitfield p)
    else if id =? ID_REQUEST then decode_index_begin_length p ID_REQUEST
    else if id =? ID_PIECE then
      if (length p <? 8)%nat then Err (ENetwork "piece short")
      else
        index ← be_at p 0 4; begin ← be_at p 4 4; data ← slice_from p 8;
        Ok (Piece index begin data)
    else if id =? ID_CANCEL then decode_index_begin_length p ID_CANCEL
    else if id =? ID_EXTENDED then
      if (length p =? 0)%nat then Err (ENetwork "extended payload empty")
      else e ← index p 0; payload ← slice_from p 1; Ok (Extended e payload)
    else if id =? ID_HAVE_ALL then _ ← ensure_empty p; Ok HaveAll
    else if id =? ID_HAVE_NONE then _ ← ensure_empty p; Ok HaveNone
    else if id =? ID_REJECT then
      if negb (length p =? 12)%nat then Err (ENetwork "reject payload")
      else
        index ← be_at p 0 4; begin ← be_at p 4 4; length ← be_at p 8 4;
        Ok (RejectRequest index begin length)
    else if (id =? ID_ALLOWED_FAST) || (id =? ID_SUGGEST) then
      if negb (length p =? 4)%nat then Err (ENetwork "fast extension piece index payload")
      else
        piece ← be_at p 0 4;
        if id =? ID_ALLOWED_FAST then Ok (AllowedFast piece) else Ok (SuggestPiece piece)
    else Err (ENetwork "unknown message id").

(** ** Framing over a byte stream

    A reader is the list of bytes the peer will send before closing.
    [read_exact n] takes [n] of them or fails at end of file. *)

Definition read_exact (n : nat) (stream : bytes) (e : Error) : result (bytes * bytes) :=
  if (length stream <? n)%nat then Err e else Ok (take n stream, drop n stream).

Definition read_frame (stream : bytes) (max_len : Z) : result (bytes * bytes) :=
  '(len_buf, stream) ← read_exact 4 stream (ENetwork "frame len");
  let len := from_be len_buf in
  if len =? 0 then Ok ([], stream)
  else if max_len <? len then Err (ENetwork "frame too large")
  else read_exact (Z.to_nat len) stream (ENetwork "frame body").

(** [read_frame_into] fills the caller's buffer [buf] (its previous contents are
    cleared) and returns it with the rest of the stream. *)
Definition read_frame_into (stream : bytes) (max_len : Z) (buf : bytes) : result (bytes * bytes) :=
  '(len_buf, stream) ← read_exact 4 stream (ENetwork "frame len");
  let len := from_be len_buf in
  if max_len <? len then Err (ENetwork "frame too large")
  else
    let buf := take 0 buf in
    if len =? 0 then Ok (buf, stream)
    else
      let buf := buf ++ replicate (Z.to_nat len) Byte.x00 in
      read_exact (length buf) stream (ENetwork "frame body").

(** Bytes put on the wire by [write_frame] and [write_message]. *)
Definition write_frame (payload : bytes) : bytes :=
  to_be 4 (wrap 32 (Z.of_nat (length payload))) ++ payload.

Definition write_message (m : Message) : bytes :=
  match m with
  | Piece index begin data =>
      let body_len := 1 + 8 + Z.of_nat (length data) in
      to_be 4 (wrap 32 body_len) ++ [z2b ID_PIECE] ++ to_be 4 index ++ to_be 4 begin ++ data
  | _ => encode m
  end.

(** ** Bitfields: [BitVec<u8, Msb0>] is the list of its bits in piece order *)

(** [bytes[j] |= v] *)
Definition or_at (l : bytes) (j : nat) (v : Z) : bytes :=
  alter (fun b => z2b (Z.lor (b2z b) v)) j l.

Definition bitfield_to_bytes (bf : list bool) : bytes :=
  let out := replicate (Z.to_nat (div_ceil (Z.of_nat (length bf)) 8)) Byte.x00 in
  foldl (fun (acc : bytes) '(i, bit) =>
           if bit : bool then or_at acc (i / 8) (Z.shiftr 128 (Z.of_nat (i mod 8))) else acc)
        out (imap (fun i b => (i, b)) bf).

(** The bits of a byte, most significant first. *)
Definition byte_bits (b : byte) : list bool :=
  (fun k => Z.testbit (b2z b) (7 - Z.of_nat k)) <$> seq 0 8.

Definition bitfield_from_bytes (bf : bytes) (num_pieces : nat) : result (list bool) :=
  let expected_bytes := Z.to_nat (div_ceil (Z.of_nat num_pieces) 8) in
  if negb (length bf =? expected_bytes)%nat then Err (ENetwork "bitfield bytes")
  else
    let out := take num_pieces (flat_map byte_bits bf) in
    let extra_bits := (expected_bytes * 8 - num_pieces)%nat in
    if (0 <? extra_bits)%nat then
      last ← index bf (expected_bytes - 1);
      let mask := Z.shiftl 1 (Z.of_nat extra_bits) - 1 in
      if negb (Z.land (b2z last) mask =? 0) then Err (ENetwork "bitfield spare bits not zero")
      else Ok out
    else Ok out.

(** ** Lemmas *)

(** The wire fits the message: [u32] fields in range, and the length prefix,
    which [tag] computes with [as u32], does not wrap. *)
Definition u32 (z : Z) : bool := in_u 32 z.

Definition msg_ok (m : Message) : bool :=
  match m with
  | Have i | AllowedFast i | SuggestPiece i => u32 i
  | Request i b l | Cancel i b l | RejectRequest i b l => u32 i && u32 b && u32 l
  | Piece i b data => u32 i && u32 b && (9 + Z.of_nat (length data) <? 2 ^ 32)
  | Bitfield b => 1 + Z.of_nat (length b) <? 2 ^ 32
  | Extended _ p => 2 + Z.of_nat (length p) <? 2 ^ 32
  | _ => true
  end.

(** The frame of a message: what follows the length prefix. *)
Definition frame_of (m : Message) : bytes := drop 4 (encode m).

Lemma u32_spec z : u32 z = true <-> 0 <= z < 256 ^ Z.of_nat 4.
Proof. unfold u32. rewrite in_u_spec. reflexivity. Qed.

Lemma drop_to_be n z r : drop n (to_be n z ++ r) = r.
Proof. by rewrite drop_app_length' by (by rewrite length_to_be). Qed.

Lemma frame_tag id p : drop 4 (tag id p) = z2b id :: p.
Proof. unfold tag. by rewrite drop_to_be. Qed.

Lemma be_at_0 n z r : 0 <= z < 256 ^ Z.of_nat n -> be_at (to_be n z ++ r) 0 n = Ok z.
Proof. intros H. by apply (be_at_field _ 0 n z [] r). Qed.

Lemma be_at_whole n z : 0 <= z < 256 ^ Z.of_nat n -> be_at (to_be n z) 0 n = Ok z.
Proof. intros H. apply (be_at_field _ 0 n z [] []); [by rewrite app_nil_r|done|done]. Qed.

Lemma be_at_1 n z a r :
  0 <= z < 256 ^ Z.of_nat n -> be_at (to_be n a ++ to_be n z ++ r) n n = Ok z.
Proof. intros H. apply (be_at_field _ n n z (to_be n a) r); [done|apply length_to_be|done]. Qed.

Lemma be_at_8 z a b :
  0 <= z < 256 ^ Z.of_nat 4 -> be_at (to_be 4 a ++ to_be 4 b ++ to_be 4 z) 8 4 = Ok z.
Proof.
  intros H. apply (be_at_field _ 8 4 z (to_be 4 a ++ to_be 4 b) []); [|len|done].
  by rewrite app_nil_r, app_assoc.
Qed.

Lemma decode_cons b p :
  decode (b :: p) = decode (z2b (b2z b) :: p).
Proof. by rewrite z2b_b2z. Qed.

(** Case analysis on a message, away from the names of list functions. *)
Ltac case_msg m :=
  destruct m as [| | | | |i|bf|i b l|i b d|i b l|e d| | |i b l|i|i].

(** Evaluate [decode] on a frame whose id byte is [z2b] of a constant. *)
Ltac step_decode :=
  unfold decode; rewrite index_cons, slice_from_Ok by len;
  cbn [length Nat.eqb fmap result_fmap mbind result_bind drop];
  rewrite b2z_z2b_small by (cbv; intuition discriminate);
  cbn -[be_at to_be slice_from index length]; rewrite ?drop_0.

Lemma decode_ibl i b l id :
  u32 i = true -> u32 b = true -> u32 l = true ->
  decode_index_begin_length (to_be 4 i ++ to_be 4 b ++ to_be 4 l) id =
  Ok (if id =? ID_CANCEL then Cancel i b l else Request i b l).
Proof.
  rewrite !u32_spec. intros. unfold decode_index_begin_length.
  replace (length _) with 12%nat by len. cbn [Nat.eqb negb].
  rewrite be_at_0, be_at_1, be_at_8 by done. cbn. by destruct (id =? _).
Qed.

Lemma decode_frame m : msg_ok m = true -> decode (frame_of m) = Ok m.
Proof.
  case_msg m; unfold frame_of; cbn [encode]; rewrite ?frame_tag; intros H; simpl in H;
    [by vm_compute|..]; bools; step_decode; try done.
  all: try (rewrite decode_ibl by done; done).
  all: rewrite ?u32_spec in *.
  - rewrite length_to_be. cbn [Nat.eqb negb]. by rewrite be_at_whole.
  - replace (length _ <=? 7)%nat with false by (symmetry; apply Nat.leb_gt; len).
    rewrite be_at_0, be_at_1, slice_from_Ok by first [done|len].
    cbn -[drop to_be]. by rewrite app_assoc, drop_app_length' by len.
  - replace (length _) with 12%nat by len. cbn -[be_at to_be].
    by rewrite be_at_0, be_at_1, be_at_8 by done.
  - rewrite length_to_be. cbn [Nat.eqb negb]. by rewrite be_at_whole.
  - rewrite length_to_be. cbn [Nat.eqb negb]. by rewrite be_at_whole.
Qed.

(** Turn the [nat] tests of the context into propositions. *)
Ltac natb :=
  bools;
  repeat match goal with
  | H : (_ =? _)%nat = true |- _ => apply Nat.eqb_eq in H
  | H : (_ =? _)%nat = false |- _ => apply Nat.eqb_neq in H
  | H : (_ <? _)%nat = false |- _ => apply Nat.ltb_ge in H
  | H : (_ <? _)%nat = true |- _ => apply Nat.ltb_lt in H
  end.

(** [decode] on a non-empty frame, as a function of the id and the payload. *)
Ltac open_decode :=
  unfold decode, decode_index_begin_length, ensure_empty;
  rewrite index_cons, slice_from_Ok by len;
  cbn [length Nat.eqb fmap result_fmap mbind result_bind];
  rewrite skipn_cons, drop_0.

(** Decoding any frame returns a message or an error; no index or slice of
    the decoder is ever out of range, whatever a peer sends. *)
Lemma decode_total frame : returns (decode frame) = true.
Proof.
  destruct frame as [|b p]; [done|]. open_decode.
  generalize (b2z b) as id; intros id.
  repeat case_match; natb; try done; rewrite ?be_at_slice, ?slice_from_Ok by lia; try done.
  by destruct p.
Qed.

Lemma slices3 (p : bytes) : length p = 12%nat -> slice p 0 4 ++ slice p 4 4 ++ slice p 8 4 = p.
Proof.
  intros H. pose proof (slice_slice_app p 4 4 4) as E1. pose proof (slice_slice_app p 0 4 8) as E2.
  simpl in E1, E2. rewrite E1, E2. by apply slice_all.
Qed.

Lemma slices2 (p : bytes) : (8 <= length p)%nat -> slice p 0 4 ++ slice p 4 4 ++ drop 8 p = p.
Proof. intros H. pose proof (slice_drop p 4 4) as E1. pose proof (slice_drop p 0 4) as E2.
  simpl in E1, E2. by rewrite E1, E2. Qed.

Lemma z2b_id b id : (b2z b =? id) = true -> b = z2b id.
Proof. rewrite Z.eqb_eq. intros <-. by rewrite z2b_b2z. Qed.

Lemma u32_slice (p : bytes) i : (i + 4 <= length p)%nat -> u32 (from_be (slice p i 4)) = true.
Proof.
  intros H. rewrite u32_spec. pose proof (from_be_range (slice p i 4)) as Hr.
  by rewrite length_slice in Hr.
Qed.

Lemma decode_canonical frame m :
  decode frame = Ok m -> Z.of_nat (length frame) < 2 ^ 32 ->
  frame_of m = frame /\ msg_ok m = true.
Proof.
  destruct frame as [|b p]; [intros [= <-]; by vm_compute|]. open_decode. intros H Hlen.
  repeat case_match; natb; try done; rewrite ?be_at_slice, ?slice_from_Ok in H by lia;
  repeat match goal with H : (_ || _) = true |- _ => apply orb_true_iff in H as [?|?]; try congruence end;
  repeat match goal with H : (b2z b =? _) = true |- _ => apply z2b_id in H; subst b end;
  try match goal with H : length p <> 0%nat |- _ => destruct p; [done|] end;
  cbn [mbind result_bind] in H; rewrite ?index_cons in H;
  cbn -[ID_EXTENDED slice slice_from] in H; simplify_eq; unfold frame_of; cbn [encode];
  rewrite ?frame_tag, ?slice_as_be, ?slices2, ?slices3, ?slice_all by (done || lia);
  (split; [|cbn -[Z.pow] in *; rewrite ?u32_slice by lia; try done; try (apply Z.ltb_lt; len)]);
  try done; try (by destruct p).
  all: rewrite <- (slice_all p 4) by lia; by apply u32_slice; lia.
Qed.

Lemma read_exact_app a r n e : length a = n -> read_exact n (a ++ r) e = Ok (a, r).
Proof.
  intros H. unfold read_exact. replace (length (a ++ r) <? n)%nat with false
    by (symmetry; apply Nat.ltb_ge; len).
  by rewrite take_app_length', drop_app_length' by done.
Qed.

Lemma encode_frame m :
  msg_ok m = true -> encode m = to_be 4 (Z.of_nat (length (frame_of m))) ++ frame_of m /\
  Z.of_nat (length (frame_of m)) < 2 ^ 32.
Proof.
  assert (T : forall id p, 1 + Z.of_nat (length p) < 2 ^ 32 ->
    tag id p = to_be 4 (Z.of_nat (length (drop 4 (tag id p)))) ++ drop 4 (tag id p) /\
    Z.of_nat (length (drop 4 (tag id p))) < 2 ^ 32).
  { intros id p H. rewrite frame_tag. unfold tag. rewrite wrap_small by lia.
    cbn [length]. rewrite Nat2Z.inj_succ. split; [|lia].
    by replace (Z.succ (Z.of_nat (length p))) with (1 + Z.of_nat (length p)) by lia. }
  unfold frame_of. case_msg m; cbn [encode msg_ok]; intros H; bools; rewrite ?Z.ltb_lt in *;
    [by vm_compute|..]; apply T; len.
Qed.

Lemma write_message_encode m : write_message m = encode m.
Proof.
  case_msg m; try reflexivity. cbn [write_message encode]. unfold tag.
  rewrite !length_app, !length_to_be. do 3 f_equal. lia.
Qed.

Lemma read_encoded m rest max_len : msg_ok m = true -> Z.of_nat (length (frame_of m)) <= max_len ->
  read_frame (encode m ++ rest) max_len = Ok (frame_of m, rest).
Proof.
  intros Hm Hl. destruct (encode_frame m Hm) as [E Hlt]. rewrite E. unfold read_frame.
  rewrite <- app_assoc, read_exact_app by apply length_to_be. cbn [mbind result_bind].
  rewrite from_to_be by lia.
  destruct (Z.eqb_spec (Z.of_nat (length (frame_of m))) 0) as [E0|].
  - by destruct (frame_of m).
  - replace (max_len <? _) with false by (symmetry; apply Z.ltb_ge; lia).
    rewrite Nat2Z.id. by apply read_exact_app.
Qed.

(** A message written to a stream is read back: [write_message] followed by
    anything, read by [read_frame] with a limit the frame does not exceed, gives a
    frame that decodes to the message and leaves what followed. *)
Lemma message_roundtrip m rest max_len :
  msg_ok m = true -> Z.of_nat (length (frame_of m)) <= max_len ->
  exists frame, read_frame (write_message m ++ rest) max_len = Ok (frame, rest) /\
                decode frame = Ok m.
Proof.
  intros Hm Hl. exists (frame_of m). rewrite write_message_encode.
  split; [by apply read_encoded|by apply decode_frame].
Qed.

Lemma message_roundtrip_witness :
  exists frame, read_frame (write_message (Piece 7 16384 (bs "data")) ++ bs "rest") 32768 =
                Ok (frame, bs "rest") /\ decode frame = Ok (Piece 7 16384 (bs "data")).
Proof. apply message_roundtrip; vm_compute; [reflexivity|intros [=]]. Defined.

(** The decoder is total and accepts exactly the encodings: whatever a peer
    sends it returns a message or an error and never panics, and a frame below
    4 GiB decodes to [m] if and only if it is the frame [encode] produces for [m]
    and the fields of [m] fit their wire types.  No two frames mean the same
    message and no trailing bytes are ignored. *)
Lemma decode_iff frame m :
  Z.of_nat (length frame) < 2 ^ 32 ->
  returns (decode frame) = true /\
  (decode frame = Ok m <-> drop 4 (encode m) = frame /\ msg_ok m = true).
Proof.
  intros Hl. split; [apply decode_total|]. split.
  - intros H. by apply decode_canonical.
  - intros [<- Hm]. by apply decode_frame.
Qed.

Lemma decode_iff_witness :
  returns (decode (bs "abc")) = true /\
  (decode (bs "abc") = Ok (Have 3) <-> drop 4 (encode (Have 3)) = bs "abc" /\ msg_ok (Have 3) = true).
Proof. apply decode_iff. vm_compute. reflexivity. Defined.

(** The allocation-saving variants agree with the plain ones: [read_frame_into]
    returns what [read_frame] returns whatever the reused buffer held (its
    limit being an unsigned number), and the one-pass [write_message] puts
    the bytes of [encode] on the wire. *)
Lemma fast_paths_equiv stream max_len buf m :
  0 <= max_len ->
  read_frame_into stream max_len buf = read_frame stream max_len /\ write_message m = encode m.
Proof.
  intros H. split; [|apply write_message_encode].
  unfold read_frame_into, read_frame.
  destruct (read_exact 4 stream _) as [[l r]|e| |]; [|done..]. cbn [mbind result_bind].
  rewrite take_0. cbn [app]. destruct (Z.eqb_spec (from_be l) 0) as [E|E].
  - by replace (max_len <? from_be l) with false by (symmetry; apply Z.ltb_ge; lia).
  - destruct (_ <? _); [done|]. by rewrite length_replicate.
Qed.

Lemma fast_paths_equiv_witness :
  read_frame_into (write_message Choke) 10 (bs "old") = read_frame (write_message Choke) 10 /\
  write_message Choke = encode Choke.
Proof. apply fast_paths_equiv. lia. Defined.

(** ** Bitfields, bit by bit *)

(** Bit [i] of a wire bitfield: byte [i / 8], bit [7 - i mod 8]. *)
Definition bit_at (l : bytes) (i : nat) : bool :=
  match l !! (i / 8)%nat with
  | Some b => Z.testbit (b2z b) (7 - Z.of_nat (i mod 8))
  | None => false
  end.

Lemma b2z_bit_high b k : 8 <= k -> Z.testbit (b2z b) k = false.
Proof.
  intros H. pose proof (b2z_range b). destruct (Z.eq_dec (b2z b) 0) as [->|]; [apply Z.bits_0|].
  apply Z.bits_above_log2; [lia|]. apply Z.log2_lt_pow2; [lia|].
  apply Z.lt_le_trans with (2 ^ 8); [lia|]. apply Z.pow_le_mono_r; lia.
Qed.

Lemma byte_bits_lookup b k :
  (k < 8)%nat -> byte_bits b !! k = Some (Z.testbit (b2z b) (7 - Z.of_nat k)).
Proof.
  intros H. unfold byte_bits. rewrite list_lookup_fmap, lookup_seq_lt by done. done.
Qed.

Lemma flat_bits_lookup l i :
  (i < 8 * length l)%nat -> flat_map byte_bits l !! i = Some (bit_at l i).
Proof.
  revert i. induction l as [|b l IH]; intros i H; [simpl in H; lia|].
  cbn [flat_map]. unfold bit_at. destruct (decide (i < 8)%nat) as [Hi|Hi].
  - rewrite lookup_app_l by done. rewrite byte_bits_lookup by done.
    by rewrite Nat.div_small, Nat.mod_small by done.
  - rewrite lookup_app_r by (unfold byte_bits; simpl; lia).
    replace (length (byte_bits b)) with 8%nat by done.
    rewrite IH by (cbn [length] in H; lia). unfold bit_at.
    pose proof (Nat.div_add (i - 8) 1 8 ltac:(lia)) as E1.
    pose proof (Nat.Div0.mod_add (i - 8) 1 8) as E2.
    replace (i - 8 + 1 * 8)%nat with i in E1, E2 by lia. rewrite E1, E2.
    by rewrite Nat.add_1_r.
Qed.

Lemma length_flat_bits l : length (flat_map byte_bits l) = (8 * length l)%nat.
Proof. induction l as [|b l IH]; [done|]. cbn [flat_map]. rewrite length_app, IH. simpl. lia. Qed.

Lemma bytes_bit_ext l l' :
  length l = length l' ->
  (forall i, (i < 8 * length l)%nat -> bit_at l i = bit_at l' i) -> l = l'.
Proof.
  intros Hl H. apply list_eq. intros j.
  destruct (decide (j < length l)%nat) as [Hj|Hj].
  2:{ rewrite !lookup_ge_None_2 by lia. done. }
  destruct (lookup_lt_is_Some_2 l j Hj) as [b Hb].
  destruct (lookup_lt_is_Some_2 l' j ltac:(lia)) as [b' Hb'].
  rewrite Hb, Hb'. f_equal. apply b2z_inj, Z.bits_inj'. intros k Hk.
  destruct (decide (k < 8)) as [H8|]; [|by rewrite !b2z_bit_high by lia].
  specialize (H (j * 8 + (7 - Z.to_nat k))%nat ltac:(lia)). revert H. unfold bit_at.
  rewrite (Nat.div_add_l j 8) by lia. rewrite Nat.div_small, Nat.add_0_r by lia.
  replace ((j * 8 + (7 - Z.to_nat k)) mod 8)%nat with (7 - Z.to_nat k)%nat
    by (rewrite Nat.add_comm, Nat.Div0.mod_add, Nat.mod_small; lia).
  rewrite Hb, Hb'. by replace (7 - Z.of_nat (7 - Z.to_nat k)) with k by lia.
Qed.

Lemma shiftr_128 k j : 0 <= k < 8 -> 0 <= j -> Z.testbit (Z.shiftr 128 k) (7 - j) = (j =? k).
Proof.
  intros Hk Hj. destruct (decide (j <= 7)) as [H7|].
  - rewrite Z.shiftr_spec by lia. change 128 with (2 ^ 7). rewrite Z.pow2_bits_eqb by lia.
    destruct (Z.eqb_spec 7 (7 - j + k)), (Z.eqb_spec j k); lia.
  - rewrite Z.testbit_neg_r by lia. symmetry. apply Z.eqb_neq. lia.
Qed.

Lemma log2_byte v : 0 <= v < 256 -> Z.log2 v < 8.
Proof.
  intros H. destruct (Z.eq_dec v 0) as [->|]; [by vm_compute|]. apply Z.log2_lt_pow2; lia.
Qed.

Lemma b2z_lor_small b v : 0 <= v < 256 -> 0 <= Z.lor (b2z b) v < 256.
Proof.
  intros H. pose proof (b2z_range b) as Hb.
  assert (0 <= Z.lor (b2z b) v) by (apply Z.lor_nonneg; lia). split; [done|].
  destruct (Z.eq_dec (Z.lor (b2z b) v) 0); [lia|].
  apply (Z.log2_lt_pow2 _ 8); [lia|].
  rewrite Z.log2_lor by lia. apply Z.max_lub_lt; by apply log2_byte.
Qed.

Lemma bit_at_or_at l i k :
  (i / 8 < length l)%nat ->
  bit_at (or_at l (i / 8) (Z.shiftr 128 (Z.of_nat (i mod 8)))) k = bit_at l k || (k =? i)%nat.
Proof.
  intros Hi. pose proof (Nat.mod_upper_bound i 8 ltac:(lia)) as Hm.
  unfold bit_at, or_at. destruct (decide (k / 8 = i / 8)%nat) as [E|E].
  - rewrite E, list_lookup_alter_eq. destruct (lookup_lt_is_Some_2 l _ Hi) as [b ->].
    cbn [fmap option_fmap option_map].
    assert (0 <= Z.shiftr 128 (Z.of_nat (i mod 8)) < 256) as Hs.
    { rewrite Z.shiftr_div_pow2 by lia. split; [apply Z.div_pos; lia|].
      apply Z.div_lt_upper_bound; [lia|]. pose proof (Z.pow_pos_nonneg 2 (Z.of_nat (i mod 8))). lia. }
    rewrite b2z_z2b_small by (by apply b2z_lor_small).
    rewrite Z.lor_spec, shiftr_128 by lia. f_equal.
    pose proof (Nat.div_mod_eq k 8). pose proof (Nat.div_mod_eq i 8).
    destruct (Z.eqb_spec (Z.of_nat (k mod 8)) (Z.of_nat (i mod 8))), (Nat.eqb_spec k i);
      try done; [lia|congruence].
  - rewrite list_lookup_alter_ne by done.
    destruct (Nat.eqb_spec k i); [congruence|]. by rewrite orb_false_r.
Qed.

Lemma length_or_at l j v : length (or_at l j v) = length l.
Proof. apply length_alter. Qed.

(** The loop of [bitfield_to_bytes], from index [off]. *)
Lemma to_bytes_fold bf off acc k :
  ((off + length bf) <= 8 * length acc)%nat ->
  let f := (fun (acc : bytes) '(i, bit) =>
           if bit : bool then or_at acc (i / 8) (Z.shiftr 128 (Z.of_nat (i mod 8))) else acc) in
  let out := foldl f acc (imap (fun i b => ((off + i)%nat, b)) bf) in
  length out = length acc /\
  bit_at out k = bit_at acc k || (bool_decide (off <= k)%nat && default false (bf !! (k - off)%nat)).
Proof.
  revert off acc. induction bf as [|x bf IH]; intros off acc H f out.
  { split; [done|]. rewrite lookup_nil. by rewrite andb_false_r, orb_false_r. }
  subst out. cbn [imap foldl]. rewrite Nat.add_0_r.
  set (acc' := f acc (off, x)).
  assert (length acc' = length acc /\ bit_at acc' k = bit_at acc k || ((k =? off)%nat && x)) as [L B].
  { subst acc' f. cbn beta iota. destruct x; [|by rewrite andb_false_r, orb_false_r].
    split; [apply length_or_at|]. rewrite andb_true_r. apply bit_at_or_at.
    apply Nat.Div0.div_lt_upper_bound. simpl in H. lia. }
  destruct (IH (S off) acc') as [L' B']; [simpl in H; lia|].
  fold f in L', B'.
  assert (forall l : list bool, imap ((fun i b => ((off + i)%nat, b)) ∘ S) l =
    imap (fun i b => ((S off + i)%nat, b)) l) as ->.
  { intros l. apply imap_ext. intros i y _. cbn. by rewrite Nat.add_succ_r. }
  split; [by rewrite L', L|]. rewrite B', B, <- orb_assoc. f_equal.
  repeat case_bool_decide; try lia.
  - destruct (Nat.eqb_spec k off); [lia|]. by replace (k - off)%nat with (S (k - S off)) by lia.
  - replace k with off by lia. rewrite Nat.eqb_refl, Nat.sub_diag. simpl. by rewrite orb_false_r.
  - destruct (Nat.eqb_spec k off); [lia|done].
Qed.

Lemma nbytes n :
  let e := Z.to_nat (div_ceil (Z.of_nat n) 8) in (n <= 8 * e)%nat /\ (8 * e < n + 8)%nat.
Proof.
  intros e. pose proof (div_ceil_spec (Z.of_nat n) 8).
  pose proof (div_ceil_nonneg (Z.of_nat n) 8). subst e. lia.
Qed.

Lemma bitfield_to_bytes_spec bf k :
  length (bitfield_to_bytes bf) = Z.to_nat (div_ceil (Z.of_nat (length bf)) 8) /\
  bit_at (bitfield_to_bytes bf) k = default false (bf !! k).
Proof.
  destruct (nbytes (length bf)) as [H _]. unfold bitfield_to_bytes.
  set (e := Z.to_nat _) in *.
  destruct (to_bytes_fold bf 0 (replicate e Byte.x00) k) as [L B].
  { rewrite length_replicate. lia. }
  rewrite length_replicate in L. split; [exact L|]. etransitivity; [exact B|].
  rewrite Nat.sub_0_r, bool_decide_eq_true_2 by lia. rewrite andb_true_l.
  assert (bit_at (replicate e Byte.x00) k = false) as ->; [|done].
  unfold bit_at. destruct (replicate e _ !! _) eqn:E; [|done].
  apply lookup_replicate in E as [-> _]. apply Z.bits_0.
Qed.

(** The mask test of the spare bits of the last byte, as bits. *)
Lemma spare_bits (l : bytes) n last :
  length l = Z.to_nat (div_ceil (Z.of_nat n) 8) ->
  let x := (length l * 8 - n)%nat in
  (0 < x)%nat -> l !! (length l - 1)%nat = Some last ->
  (Z.land (b2z last) (Z.shiftl 1 (Z.of_nat x) - 1) = 0 <->
   forall k, (n <= k < 8 * length l)%nat -> bit_at l k = false).
Proof.
  intros Hl x Hx Hlast. destruct (nbytes n) as [H1 H2]. rewrite <- Hl in H1, H2.
  rewrite Z.shiftl_1_l.
  replace (2 ^ Z.of_nat x - 1) with (Z.ones (Z.of_nat x)) by (rewrite Z.ones_equiv; lia).
  assert (forall k, (n <= k < 8 * length l)%nat ->
    bit_at l k = Z.testbit (b2z last) (7 - Z.of_nat (k mod 8)) /\
    Z.of_nat (k mod 8) = Z.of_nat k - 8 * (Z.of_nat (length l) - 1)) as B.
  { intros k Hk. assert (k / 8 = length l - 1)%nat as E.
    { symmetry. apply (Nat.div_unique _ _ _ (k - 8 * (length l - 1))); lia. }
    unfold bit_at. rewrite E, Hlast. split; [done|].
    pose proof (Nat.div_mod_eq k 8). lia. }
  split.
  - intros H0 k Hk. destruct (B k Hk) as [-> E]. apply (f_equal (fun z => Z.testbit z (7 - Z.of_nat (k mod 8)))) in H0.
    rewrite Z.land_spec, Z.ones_spec_low, andb_true_r, Z.bits_0 in H0 by lia. done.
  - intros H. apply Z.bits_inj'. intros j Hj. rewrite Z.land_spec, Z.bits_0.
    destruct (decide (j < Z.of_nat x)) as [Hj'|]; [|by rewrite Z.ones_spec_high, andb_false_r by lia].
    destruct (B (8 * length l - 1 - Z.to_nat j)%nat ltac:(lia)) as [E1 E2].
    rewrite H in E1 by lia. replace (7 - _) with j in E1 by lia. by rewrite <- E1.
Qed.

Lemma flat_bits_take l n :
  (n <= 8 * length l)%nat -> length (take n (flat_map byte_bits l)) = n.
Proof. intros. rewrite length_take, length_flat_bits. lia. Qed.

Lemma bitfield_from_bytes_spec l n bf :
  bitfield_from_bytes l n = Ok bf <->
  length bf = n /\ length l = Z.to_nat (div_ceil (Z.of_nat n) 8) /\
  forall k, (k < 8 * length l)%nat -> bit_at l k = default false (bf !! k).
Proof.
  destruct (nbytes n) as [H1 H2]. unfold bitfield_from_bytes. set (e := Z.to_nat _) in *.
  destruct (Nat.eqb_spec (length l) e) as [Hl|Hl]; [|split; [done|intros (_ & ? & _); done]].
  cbn [negb].
  assert (length (take n (flat_map byte_bits l)) = n) as Ln by (apply flat_bits_take; lia).
  assert (forall k, (k < n)%nat -> take n (flat_map byte_bits l) !! k = Some (bit_at l k)) as Bn.
  { intros k Hk. rewrite lookup_take_lt by done. apply flat_bits_lookup. lia. }
  (* the bits below [n] determine the result; the ones above must be clear *)
  assert ((forall k, (n <= k < 8 * length l)%nat -> bit_at l k = false) ->
    (Ok (take n (flat_map byte_bits l)) = Ok bf <->
     length bf = n /\ length l = e /\
     forall k, (k < 8 * length l)%nat -> bit_at l k = default false (bf !! k))) as Hmain.
  { intros Hsp. split.
    - intros [= <-]. split; [done|]. split; [done|]. intros k Hk.
      destruct (decide (k < n)%nat); [by rewrite Bn|].
      rewrite (lookup_ge_None_2 (take _ _)) by lia. apply Hsp. lia.
    - intros (Hb & _ & HB). f_equal. apply list_eq. intros k.
      destruct (decide (k < n)%nat); [|by rewrite !lookup_ge_None_2 by lia].
      rewrite Bn by done. rewrite HB by lia.
      by destruct (lookup_lt_is_Some_2 bf k ltac:(lia)) as [y ->]. }
  destruct (Nat.ltb_spec 0 (e * 8 - n)%nat) as [Hx|Hx]; [|apply Hmain; lia].
  rewrite <- Hl in Hx |- *. unfold index.
  destruct (lookup_lt_is_Some_2 l (length l - 1)) as [last Hlast]; [lia|]. rewrite Hlast.
  cbn [mbind result_bind].
  pose proof (spare_bits l n last Hl Hx Hlast) as Hsp. cbn beta zeta in Hsp.
  destruct (Z.eqb_spec (Z.land (b2z last) (Z.shiftl 1 (Z.of_nat (length l * 8 - n)) - 1)) 0) as [E|E].
  - rewrite <- Hl in Hmain. apply Hmain, Hsp, E.
  - split; [done|]. intros (Hb & _ & HB). exfalso. apply E, Hsp. intros k Hk.
    rewrite HB by lia. by rewrite lookup_ge_None_2 by lia.
Qed.

(** Bitfields survive the wire, in both directions: [n] bytes decode to [bf]
    exactly when [bf] has [n] bits and encoding [bf] gives these bytes.  So every
    bitfield round-trips, and any other byte count or a set spare bit is
    an error. *)
Lemma bitfield_roundtrip l n bf :
  bitfield_from_bytes l n = Ok bf <-> length bf = n /\ bitfield_to_bytes bf = l.
Proof.
  rewrite bitfield_from_bytes_spec. split.
  - intros (Hb & Hl & HB). split; [done|].
    destruct (bitfield_to_bytes_spec bf 0) as [Hl' _]. apply bytes_bit_ext.
    + by rewrite Hl', Hl, Hb.
    + intros i Hi. rewrite (proj2 (bitfield_to_bytes_spec bf i)). symmetry. apply HB.
      rewrite Hl', Hb in Hi. by rewrite Hl.
  - intros [Hb <-]. split; [done|]. split.
    + by rewrite (proj1 (bitfield_to_bytes_spec bf 0)), Hb.
    + intros k _. apply bitfield_to_bytes_spec.
Qed.
