(* ===== verification/Pieces.v ===== *)
(** * The piece manager: [src/src/piece/manager.rs]

    [PieceManager] is the record of the source with its parallel vectors; a
    [BitVec] is a list of booleans.  Each method is a definition of the same
    name: the pure ones take the manager, the [&mut self] ones live in
    the state monad [M PieceManager]. *)

From Stdlib Require Import ZArith Lia String Strings.Byte.
From stdpp Require Import base tactics numbers list option.
From S2P Require Import Prelude PeerWire.

Inductive PieceState := Missing | InProgress | Complete.
#[export] Instance PieceState_eq_dec : EqDecision PieceState.
Proof. solve_decision. Defined.

Inductive BlockOutcome := Duplicate | Stored | Completed (data : bytes).

Record PieceManager := mkPM {
  piece_length : Z;
  total_length : Z;
  num_pieces : nat;
  states : list PieceState;
  requested : list (list bool);
  received : list (list bool);
  buffers : list (option bytes);
  local : list bool;
  wanted : list bool
}.

Definition with_states f pm := mkPM (piece_length pm) (total_length pm) (num_pieces pm)
  f (requested pm) (received pm) (buffers pm) (local pm) (wanted pm).
Definition with_requested f pm := mkPM (piece_length pm) (total_length pm) (num_pieces pm)
  (states pm) f (received pm) (buffers pm) (local pm) (wanted pm).
Definition with_received f pm := mkPM (piece_length pm) (total_length pm) (num_pieces pm)
  (states pm) (requested pm) f (buffers pm) (local pm) (wanted pm).
Definition with_buffers f pm := mkPM (piece_length pm) (total_length pm) (num_pieces pm)
  (states pm) (requested pm) (received pm) f (local pm) (wanted pm).
Definition with_local f pm := mkPM (piece_length pm) (total_length pm) (num_pieces pm)
  (states pm) (requested pm) (received pm) (buffers pm) f (wanted pm).
Definition with_wanted f pm := mkPM (piece_length pm) (total_length pm) (num_pieces pm)
  (states pm) (requested pm) (received pm) (buffers pm) (local pm) f.

(** ** Geometry *)

Definition piece_size_for (index : nat) (piece_length total_length : Z) (num_pieces : nat)
  : result Z :=
  next ← checked 64 (Z.of_nat index + 1);
  if next =? Z.of_nat num_pieces then
    if piece_length =? 0 then Panic
    else
      let r := total_length mod piece_length in
      Ok (if r =? 0 then piece_length else r)
  else Ok piece_length.

Definition num_blocks_for_piece (index : nat) (piece_length total_length : Z) (num_pieces : nat)
  : result nat :=
  ps ← piece_size_for index piece_length total_length num_pieces;
  Ok (Z.to_nat (div_ceil ps BLOCK_SIZE)).

Definition piece_size (pm : PieceManager) (index : nat) : result Z :=
  piece_size_for index (piece_length pm) (total_length pm) (num_pieces pm).

Definition num_blocks (pm : PieceManager) (index : nat) : result nat :=
  num_blocks_for_piece index (piece_length pm) (total_length pm) (num_pieces pm).

Definition block_length (pm : PieceManager) (index block_index : nat) : result Z :=
  piece_size ← piece_size pm index;
  begin ← checked 64 (Z.of_nat block_index * BLOCK_SIZE);
  let remain := sat_sub piece_size begin in
  Ok (wrap 32 (Z.min remain BLOCK_SIZE)).

(** ** Construction and queries *)

(** The vectors [new] builds for pieces [i], [i + 1], ..., [n] of them. *)
Fixpoint blank_bits (i n : nat) (pl tl : Z) (np : nat) : result (list (list bool)) :=
  match n with
  | O => Ok []
  | S n' =>
      nb ← num_blocks_for_piece i pl tl np;
      rest ← blank_bits (S i) n' pl tl np;
      Ok (replicate nb false :: rest)
  end.

Definition new (piece_length total_length : Z) (num_pieces : nat) : result PieceManager :=
  if (num_pieces =? 0)%nat then Panic
  else
    bits ← blank_bits 0 num_pieces piece_length total_length num_pieces;
    Ok (mkPM piece_length total_length num_pieces
          (replicate num_pieces Missing) bits bits (replicate num_pieces None)
          (replicate num_pieces false) (replicate num_pieces true)).

(** The loop [self.wanted.set(i, w)] over the mask, from bit [i]. *)
Fixpoint write_bits (l : list bool) (i : nat) (mask : list bool) : result (list bool) :=
  match mask with
  | [] => Ok l
  | w :: mask' => l ← set_index l i w; write_bits l (S i) mask'
  end.

Definition set_wanted (mask : list bool) : M PieceManager unit :=
  n ← gets num_pieces;
  if negb (length mask =? n)%nat then mret tt
  else l ← reads (fun pm => write_bits (wanted pm) 0 mask); modify (with_wanted l).

Definition is_wanted (pm : PieceManager) (index : nat) : bool :=
  default false (wanted pm !! index).

Fixpoint count_ones (l : list bool) : nat :=
  match l with
  | [] => O
  | b :: l' => if b : bool then S (count_ones l') else count_ones l'
  end.

Definition wanted_count (pm : PieceManager) : nat := count_ones (wanted pm).

Definition state (pm : PieceManager) (index : nat) : result PieceState := Prelude.index (states pm) index.

Definition local_bitfield (pm : PieceManager) : list bool := local pm.

(** [(0..num_pieces)] iterated with the two bits of each piece. *)
Fixpoint scan_bits (f : bool -> bool -> bool) (pm : PieceManager) (i n : nat) : result (list bool) :=
  match n with
  | O => Ok []
  | S n' =>
      w ← index (wanted pm) i;
      l ← index (local pm) i;
      rest ← scan_bits f pm (S i) n';
      Ok (f w l :: rest)
  end.

Definition is_complete (pm : PieceManager) : result bool :=
  forallb id <$> scan_bits (fun w l => negb w || l) pm 0 (num_pieces pm).

Definition complete_count (pm : PieceManager) : nat := count_ones (local pm).

Definition wanted_complete_count (pm : PieceManager) : result nat :=
  count_ones <$> scan_bits (fun w l => w && l) pm 0 (num_pieces pm).

Definition missing_count (pm : PieceManager) : result nat :=
  count_ones <$> scan_bits (fun w l => w && negb l) pm 0 (num_pieces pm).

Definition missing_pieces (pm : PieceManager) : list nat :=
  fst <$> filter (fun p => snd p <> Complete) (imap (fun i s => (i, s)) (states pm)).

(** ** State changes *)

Definition set_state (i : nat) (s : PieceState) : M PieceManager unit :=
  l ← reads (fun pm => set_index (states pm) i s); modify (with_states l).
Definition set_local (i : nat) (b : bool) : M PieceManager unit :=
  l ← reads (fun pm => set_index (local pm) i b); modify (with_local l).
Definition set_buffer (i : nat) (b : option bytes) : M PieceManager unit :=
  l ← reads (fun pm => set_index (buffers pm) i b); modify (with_buffers l).

(** [self.requested[i].set(b, x)] *)
Definition set_requested (i b : nat) (x : bool) : M PieceManager unit :=
  row ← reads (fun pm => index (requested pm) i);
  row ← lift (set_index row b x);
  l ← reads (fun pm => set_index (requested pm) i row); modify (with_requested l).
Definition set_received (i b : nat) (x : bool) : M PieceManager unit :=
  row ← reads (fun pm => index (received pm) i);
  row ← lift (set_index row b x);
  l ← reads (fun pm => set_index (received pm) i row); modify (with_received l).

Definition requested_bit (i b : nat) (pm : PieceManager) : result bool :=
  row ← index (requested pm) i; index row b.
Definition received_bit (i b : nat) (pm : PieceManager) : result bool :=
  row ← index (received pm) i; index row b.

Definition mark_complete_verified (i : nat) : M PieceManager unit :=
  _ ← set_state i Complete; _ ← set_local i true; set_buffer i None.

Definition mark_complete (i : nat) : M PieceManager unit :=
  _ ← set_state i Complete; _ ← set_local i true; set_buffer i None.

(** The first half of [reserve_block] and [received_block]: a piece that was
    missing gets its zeroed buffer. *)
Definition start_piece (i : nat) : M PieceManager unit :=
  st ← reads (fun pm => state pm i);
  if decide (st = Missing) then
    _ ← set_state i InProgress;
    size ← reads (fun pm => piece_size pm i);
    set_buffer i (Some (replicate (Z.to_nat size) Byte.x00))
  else mret tt.

(** The scan of [reserve_block] over blocks [b], [b + 1], ..., [n] of them. *)
Fixpoint reserve_scan (i b n : nat) : M PieceManager (option (Z * Z)) :=
  match n with
  | O => mret None
  | S n' =>
      rq ← reads (requested_bit i b);
      (* [&&] reads the second bit only when the first is clear *)
      rc ← (if rq : bool then mret true else reads (received_bit i b));
      if negb rq && negb rc then
        _ ← set_requested i b true;
        begin ← lift (checked 32 (wrap 32 (Z.of_nat b) * BLOCK_SIZE));
        len ← reads (fun pm => block_length pm i b);
        mret (Some (begin, len))
      else reserve_scan i (S b) n'
  end.

Definition reserve_block (i : nat) : M PieceManager (option (Z * Z)) :=
  st ← reads (fun pm => state pm i);
  if decide (st = Complete) then mret None
  else
    _ ← start_piece i;
    nb ← reads (fun pm => num_blocks pm i);
    reserve_scan i 0 nb.

Fixpoint unfinished_scan (pm : PieceManager) (i b n : nat) : result (list (Z * Z)) :=
  match n with
  | O => Ok []
  | S n' =>
      rc ← received_bit i b pm;
      if negb rc then
        begin ← checked 32 (wrap 32 (Z.of_nat b) * BLOCK_SIZE);
        len ← block_length pm i b;
        rest ← unfinished_scan pm i (S b) n';
        Ok ((begin, len) :: rest)
      else unfinished_scan pm i (S b) n'
  end.

Definition unfinished_blocks (pm : PieceManager) (i : nat) : result (list (Z * Z)) :=
  nb ← num_blocks pm i; unfinished_scan pm i 0 nb.

Definition release_block (i : nat) (begin : Z) : M PieceManager unit :=
  st ← reads (fun pm => state pm i);
  if decide (st = Complete) then mret tt
  else if begin mod BLOCK_SIZE =? 0 then
    let b := Z.to_nat (begin / BLOCK_SIZE) in
    row ← reads (fun pm => index (requested pm) i);
    if (b <? length row)%nat then set_requested i b false else mret tt
  else mret tt.

Fixpoint release_scan (i b n : nat) : M PieceManager unit :=
  match n with
  | O => mret tt
  | S n' =>
      rc ← reads (received_bit i b);
      _ ← (if negb rc then set_requested i b false else mret tt);
      release_scan i (S b) n'
  end.

Definition release_piece_inflight (i : nat) : M PieceManager unit :=
  st ← reads (fun pm => state pm i);
  if decide (st = Complete) then mret tt
  else nb ← reads (fun pm => num_blocks pm i); release_scan i 0 nb.

(** [buf[a..a + data.len()].copy_from_slice(data)], in range. *)
Definition splice (buf : bytes) (a : nat) (data : bytes) : bytes :=
  take a buf ++ data ++ drop (a + length data) buf.

Definition copy_into (buf : bytes) (a n : nat) (data : bytes) : result bytes :=
  dst ← slice_range buf a (a + n);
  if (length dst =? length data)%nat then Ok (splice buf a data) else Panic.

Definition received_block (i : nat) (begin : Z) (data : bytes) : M PieceManager BlockOutcome :=
  n ← gets num_pieces;
  if (n <=? i)%nat then lift (Err (ENetwork "block for invalid piece"))
  else
    st ← reads (fun pm => state pm i);
    if decide (st = Complete) then mret Duplicate
    else if negb (begin mod BLOCK_SIZE =? 0) then
      lift (Err (ENetwork "block begin not multiple"))
    else
      let block_index := Z.to_nat (begin / BLOCK_SIZE) in
      nb ← reads (fun pm => num_blocks pm i);
      if (nb <=? block_index)%nat then lift (Err (ENetwork "block out of range for piece"))
      else
        expected_len ← reads (fun pm => block_length pm i block_index);
        if negb (Z.of_nat (length data) =? expected_len) then
          lift (Err (ENetwork "block size"))
        else
          _ ← start_piece i;
          dup ← reads (received_bit i block_index);
          if dup : bool then mret Duplicate
          else
            slot ← reads (fun pm => index (buffers pm) i);
            buf ← lift (ok_or slot (ENetwork "buffer missing"));
            buf ← lift (copy_into buf (Z.to_nat begin) (Z.to_nat expected_len) data);
            _ ← set_buffer i (Some buf);
            _ ← set_received i block_index true;
            _ ← set_requested i block_index true;
            row ← reads (fun pm => index (received pm) i);
            if forallb id row then
              slot ← reads (fun pm => index (buffers pm) i);
              _ ← set_buffer i None;
              bytes ← lift (ok_or slot (ENetwork "piece buffer vanished"));
              mret (Completed bytes)
            else mret Stored.

Fixpoint reset_scan (i b n : nat) : M PieceManager unit :=
  match n with
  | O => mret tt
  | S n' =>
      _ ← set_requested i b false;
      _ ← set_received i b false;
      reset_scan i (S b) n'
  end.

Definition reset_piece (i : nat) : M PieceManager unit :=
  _ ← set_state i Missing;
  _ ← set_buffer i None;
  nb ← reads (fun pm => num_blocks pm i);
  reset_scan i 0 nb.

(** ** One piece at a time

    The manager keeps five parallel vectors.  [Piece] is the row of one piece and
    the [a_*] functions say what each operation does to that row; the lemmas
    below show that an operation on piece [i] replaces row [i] by the row
    the abstract function gives and touches nothing else. *)

Record Piece := mkPiece {
  p_state : PieceState;
  p_req : list bool;
  p_rec : list bool;
  p_buf : option bytes;
  p_local : bool
}.

Definition row (pm : PieceManager) (i : nat) : option Piece :=
  s ← states pm !! i; q ← requested pm !! i; c ← received pm !! i;
  b ← buffers pm !! i; l ← local pm !! i; Some (mkPiece s q c b l).

Definition put (pm : PieceManager) (i : nat) (p : Piece) : PieceManager :=
  mkPM (piece_length pm) (total_length pm) (num_pieces pm)
    (<[i := p_state p]> (states pm)) (<[i := p_req p]> (requested pm))
    (<[i := p_rec p]> (received pm)) (<[i := p_buf p]> (buffers pm))
    (<[i := p_local p]> (local pm)) (wanted pm).

Definition lens_ok (pm : PieceManager) : Prop :=
  length (states pm) = num_pieces pm /\ length (requested pm) = num_pieces pm /\
  length (received pm) = num_pieces pm /\ length (buffers pm) = num_pieces pm /\
  length (local pm) = num_pieces pm /\ length (wanted pm) = num_pieces pm.

(** Sizes as plain functions. *)
Definition psize (pm : PieceManager) (i : nat) : Z :=
  if (S i =? num_pieces pm)%nat then
    let r := total_length pm mod piece_length pm in if r =? 0 then piece_length pm else r
  else piece_length pm.
Definition nblocks (size : Z) : nat := Z.to_nat (div_ceil size BLOCK_SIZE).
Definition blen (size : Z) (b : nat) : Z := Z.min (sat_sub size (Z.of_nat b * BLOCK_SIZE)) BLOCK_SIZE.

(** A geometry the manager can be built for: pieces of at most 4 GiB, since block
    offsets are [u32], and [u64] sizes. *)
Definition geom_ok (pl tl : Z) (n : nat) : bool :=
  (0 <? pl) && (pl <=? 2 ^ 32) && (0 <=? tl) && (0 <? n)%nat && (Z.of_nat n <? 2 ^ 64).

Definition geometry (pm : PieceManager) : Prop :=
  geom_ok (piece_length pm) (total_length pm) (num_pieces pm) = true.

Definition a_start (size : Z) (p : Piece) : Piece :=
  match p_state p with
  | Missing => mkPiece InProgress (p_req p) (p_rec p)
                 (Some (replicate (Z.to_nat size) Byte.x00)) (p_local p)
  | _ => p
  end.

(** The lowest block neither requested nor received. *)
Definition free_block (p : Piece) : option nat :=
  position (fun '(q, c) => negb q && negb c) (zip (p_req p) (p_rec p)).

Definition a_reserve (size : Z) (p : Piece) : Piece * option (Z * Z) :=
  match p_state p with
  | Complete => (p, None)
  | _ =>
      let p := a_start size p in
      match free_block p with
      | Some b =>
          (mkPiece (p_state p) (<[b := true]> (p_req p)) (p_rec p) (p_buf p) (p_local p),
           Some (Z.of_nat b * BLOCK_SIZE, blen size b))
      | None => (p, None)
      end
  end.

Definition a_release (begin : Z) (p : Piece) : Piece :=
  match p_state p with
  | Complete => p
  | _ =>
      if begin mod BLOCK_SIZE =? 0 then
        mkPiece (p_state p) (<[Z.to_nat (begin / BLOCK_SIZE) := false]> (p_req p))
          (p_rec p) (p_buf p) (p_local p)
      else p
  end.

Definition a_release_all (p : Piece) : Piece :=
  match p_state p with
  | Complete => p
  | _ => mkPiece (p_state p) (zip_with andb (p_req p) (p_rec p)) (p_rec p) (p_buf p) (p_local p)
  end.

Definition a_receive (size begin : Z) (data : bytes) (p : Piece) : Piece * result BlockOutcome :=
  match p_state p with
  | Complete => (p, Ok Duplicate)
  | _ =>
      let b := Z.to_nat (begin / BLOCK_SIZE) in
      if negb (begin mod BLOCK_SIZE =? 0) then (p, Err (ENetwork "block begin not multiple"))
      else if (nblocks size <=? b)%nat then (p, Err (ENetwork "block out of range for piece"))
      else if negb (Z.of_nat (length data) =? blen size b) then (p, Err (ENetwork "block size"))
      else
        let p := a_start size p in
        match p_rec p !! b, p_buf p with
        | Some true, _ => (p, Ok Duplicate)
        | _, None => (p, Err (ENetwork "buffer missing"))
        | _, Some buf =>
            let buf := splice buf (Z.to_nat begin) data in
            let rec' := <[b := true]> (p_rec p) in
            let req' := <[b := true]> (p_req p) in
            if forallb id rec' then
              (mkPiece (p_state p) req' rec' None (p_local p), Ok (Completed buf))
            else (mkPiece (p_state p) req' rec' (Some buf) (p_local p), Ok Stored)
        end
  end.

Definition a_reset (size : Z) (p : Piece) : Piece :=
  mkPiece Missing (replicate (nblocks size) false) (replicate (nblocks size) false) None (p_local p).

Definition a_complete (p : Piece) : Piece :=
  mkPiece Complete (p_req p) (p_rec p) None true.

(** The invariant of a row of a piece of [size] bytes. *)
Definition piece_ok (size : Z) (p : Piece) : bool :=
  (length (p_req p) =? nblocks size)%nat && (length (p_rec p) =? nblocks size)%nat &&
  match p_state p with
  | Missing => negb (p_local p) && negb (existsb id (p_rec p)) && bool_decide (p_buf p = None)
  | InProgress =>
      negb (p_local p) &&
      match p_buf p with
      | Some buf => (Z.of_nat (length buf) =? size) && negb (forallb id (p_rec p))
      | None => forallb id (p_rec p)
      end
  | Complete => p_local p && bool_decide (p_buf p = None)
  end.

Definition pm_ok (pm : PieceManager) : Prop :=
  geometry pm /\ lens_ok pm /\
  forall i p, row pm i = Some p -> piece_ok (psize pm i) p = true.

(** ** Geometry lemmas *)

Section Geometry.
Context (pm : PieceManager) (G : geometry pm).

Lemma geom_facts :
  0 < piece_length pm <= 2 ^ 32 /\ 0 <= total_length pm /\
  (0 < num_pieces pm)%nat /\ Z.of_nat (num_pieces pm) < 2 ^ 64.
Proof.
  unfold geometry, geom_ok in G. bools. rewrite ?Z.ltb_lt, ?Z.leb_le, ?Nat.ltb_lt in *. lia.
Qed.

Lemma psize_range i : 0 < psize pm i <= 2 ^ 32.
Proof.
  pose proof geom_facts as (Hp & Ht & _). unfold psize. destruct (_ =? _)%nat; [|lia].
  cbn zeta. pose proof (Z.mod_pos_bound (total_length pm) (piece_length pm)).
  destruct (Z.eqb_spec (total_length pm mod piece_length pm) 0); lia.
Qed.

Lemma piece_size_eq i : (i < num_pieces pm)%nat -> piece_size pm i = Ok (psize pm i).
Proof.
  intros Hi. pose proof geom_facts as (Hp & Ht & _ & Hn).
  unfold piece_size, piece_size_for. rewrite checked_small by lia. cbn [mbind result_bind].
  unfold psize. replace (Z.of_nat i + 1 =? _) with (S i =? num_pieces pm)%nat.
  - destruct (_ =? _)%nat; [|done]. by destruct (Z.eqb_spec (piece_length pm) 0); [lia|].
  - destruct (Nat.eqb_spec (S i) (num_pieces pm)), (Z.eqb_spec (Z.of_nat i + 1) (Z.of_nat (num_pieces pm))); lia.
Qed.

Lemma num_blocks_eq i : (i < num_pieces pm)%nat -> num_blocks pm i = Ok (nblocks (psize pm i)).
Proof.
  intros Hi. unfold num_blocks, num_blocks_for_piece.
  pose proof (piece_size_eq i Hi) as E. unfold piece_size in E. by rewrite E.
Qed.

Lemma nblocks_spec size b :
  0 < size -> (b < nblocks size)%nat <-> Z.of_nat b * BLOCK_SIZE < size.
Proof.
  intros Hs. unfold nblocks, BLOCK_SIZE.
  pose proof (div_ceil_spec size 16384). pose proof (div_ceil_nonneg size 16384). lia.
Qed.

Lemma blen_range size b : (b < nblocks size)%nat -> 0 < size -> 0 < blen size b <= BLOCK_SIZE.
Proof.
  intros Hb Hs. apply (nblocks_spec _ _ Hs) in Hb. unfold blen, sat_sub. unfold BLOCK_SIZE in *. lia.
Qed.

Lemma block_length_eq i b :
  (i < num_pieces pm)%nat -> Z.of_nat b < 2 ^ 50 -> block_length pm i b = Ok (blen (psize pm i) b).
Proof.
  intros Hi Hb. unfold block_length. rewrite piece_size_eq by done. cbn [mbind result_bind].
  unfold BLOCK_SIZE. rewrite checked_small by lia. cbn [mbind result_bind]. f_equal.
  unfold blen. rewrite wrap_small; [done|]. unfold sat_sub, BLOCK_SIZE. lia.
Qed.

Lemma begin_eq i b :
  (b < nblocks (psize pm i))%nat ->
  checked 32 (wrap 32 (Z.of_nat b) * BLOCK_SIZE) = Ok (Z.of_nat b * BLOCK_SIZE) /\ Z.of_nat b < 2 ^ 50.
Proof.
  pose proof (psize_range i). intros Hb. apply nblocks_spec in Hb; [|lia].
  unfold BLOCK_SIZE in *. rewrite wrap_small by lia. split; [apply checked_small|]; lia.
Qed.
End Geometry.

(** ** Primitive steps on a row *)

Lemma put_row pm i p : row pm i = Some p -> put pm i p = pm.
Proof.
  unfold row. intros H.
  destruct (states pm !! i) eqn:E1, (requested pm !! i) eqn:E2, (received pm !! i) eqn:E3,
    (buffers pm !! i) eqn:E4, (local pm !! i) eqn:E5; simplify_eq/=.
  unfold put. cbn. rewrite !list_insert_id by done. by destruct pm.
Qed.

Lemma row_is_Some pm i : lens_ok pm -> (i < num_pieces pm)%nat -> is_Some (row pm i).
Proof.
  intros (L1 & L2 & L3 & L4 & L5 & _) Hi. unfold row.
  destruct (lookup_lt_is_Some_2 (states pm) i) as [? ->]; [lia|].
  destruct (lookup_lt_is_Some_2 (requested pm) i) as [? ->]; [lia|].
  destruct (lookup_lt_is_Some_2 (received pm) i) as [? ->]; [lia|].
  destruct (lookup_lt_is_Some_2 (buffers pm) i) as [? ->]; [lia|].
  destruct (lookup_lt_is_Some_2 (local pm) i) as [? ->]; [lia|]. by eexists.
Qed.

Section Steps.
Context (pm : PieceManager) (i : nat) (L : lens_ok pm) (Hi : (i < num_pieces pm)%nat).

Lemma row_put p : row (put pm i p) i = Some p.
Proof.
  destruct L as (L1 & L2 & L3 & L4 & L5 & _). unfold row, put. cbn.
  rewrite !list_lookup_insert_eq by lia. cbn. by destruct p.
Qed.

Lemma row_put_ne p j : j <> i -> row (put pm i p) j = row pm j.
Proof. intros H. unfold row, put. cbn. by rewrite !list_lookup_insert_ne by done. Qed.

Lemma lens_put p : lens_ok (put pm i p).
Proof. unfold lens_ok in *. cbn. by rewrite !length_insert. Qed.

Lemma psize_put p j : psize (put pm i p) j = psize pm j.
Proof. done. Qed.

Lemma get_put p :
  state (put pm i p) i = Ok (p_state p) /\ index (requested (put pm i p)) i = Ok (p_req p) /\
  index (received (put pm i p)) i = Ok (p_rec p) /\ index (buffers (put pm i p)) i = Ok (p_buf p).
Proof.
  destruct L as (L1 & L2 & L3 & L4 & L5 & _).
  repeat split; apply index_Some; cbn; apply list_lookup_insert_eq; lia.
Qed.

Ltac set_row :=
  msteps; rewrite !set_index_Ok by (cbn; rewrite ?length_insert; lia);
  cbn beta iota; f_equal; unfold put; cbn; by rewrite list_insert_insert_eq.

Lemma set_state_put p s :
  set_state i s (put pm i p) = (put pm i (mkPiece s (p_req p) (p_rec p) (p_buf p) (p_local p)), Ok tt).
Proof. destruct L as (L1 & L2 & L3 & L4 & L5 & _). unfold set_state. set_row. Qed.

Lemma set_local_put p s :
  set_local i s (put pm i p) = (put pm i (mkPiece (p_state p) (p_req p) (p_rec p) (p_buf p) s), Ok tt).
Proof. destruct L as (L1 & L2 & L3 & L4 & L5 & _). unfold set_local. set_row. Qed.

Lemma set_buffer_put p s :
  set_buffer i s (put pm i p) = (put pm i (mkPiece (p_state p) (p_req p) (p_rec p) s (p_local p)), Ok tt).
Proof. destruct L as (L1 & L2 & L3 & L4 & L5 & _). unfold set_buffer. set_row. Qed.

Lemma set_requested_put p b x :
  (b < length (p_req p))%nat ->
  set_requested i b x (put pm i p) =
  (put pm i (mkPiece (p_state p) (<[b := x]> (p_req p)) (p_rec p) (p_buf p) (p_local p)), Ok tt).
Proof.
  intros Hb. destruct L as (L1 & L2 & L3 & L4 & L5 & _). unfold set_requested.
  msteps. rewrite (proj1 (proj2 (get_put p))). cbn beta iota.
  rewrite (set_index_Ok (p_req p)) by done. set_row.
Qed.

Lemma set_received_put p b x :
  (b < length (p_rec p))%nat ->
  set_received i b x (put pm i p) =
  (put pm i (mkPiece (p_state p) (p_req p) (<[b := x]> (p_rec p)) (p_buf p) (p_local p)), Ok tt).
Proof.
  intros Hb. destruct L as (L1 & L2 & L3 & L4 & L5 & _). unfold set_received.
  msteps. rewrite (proj1 (proj2 (proj2 (get_put p)))). cbn beta iota.
  rewrite (set_index_Ok (p_rec p)) by done. set_row.
Qed.

Lemma requested_bit_put p b : requested_bit i b (put pm i p) = index (p_req p) b.
Proof. unfold requested_bit. by rewrite (proj1 (proj2 (get_put p))). Qed.
Lemma received_bit_put p b : received_bit i b (put pm i p) = index (p_rec p) b.
Proof. unfold received_bit. by rewrite (proj1 (proj2 (proj2 (get_put p)))). Qed.
End Steps.

Lemma mult_begin begin :
  0 <= begin -> (begin mod BLOCK_SIZE =? 0) = true ->
  begin = Z.of_nat (Z.to_nat (begin / BLOCK_SIZE)) * BLOCK_SIZE.
Proof.
  intros H E. apply Z.eqb_eq in E. pose proof (Z.div_mod begin BLOCK_SIZE).
  pose proof (Z.div_pos begin BLOCK_SIZE). unfold BLOCK_SIZE in *. lia.
Qed.

Lemma insert_split {A} (l : list A) b x :
  (b < length l)%nat -> take (S b) (<[b := x]> l) = take b l ++ [x] /\ drop (S b) (<[b := x]> l) = drop (S b) l.
Proof.
  intros H. split; [|by rewrite drop_insert_lt by lia].
  rewrite (take_S_r _ _ x) by (by apply list_lookup_insert_eq). by rewrite take_insert_ge by lia.
Qed.

Lemma index_lt_Some {A} (l : list A) b : (b < length l)%nat -> exists x, l !! b = Some x /\ index l b = Ok x.
Proof. intros H. destruct (lookup_lt_is_Some_2 l b H) as [x Hx]. exists x. split; [done|by apply index_Some]. Qed.

(** ** Each operation replaces one row by the abstract result *)

Section Refine.
Context (pm : PieceManager) (i : nat) (G : geometry pm) (L : lens_ok pm) (Hi : (i < num_pieces pm)%nat).
Let size := psize pm i.

Lemma piece_size_put p : piece_size (put pm i p) i = Ok size.
Proof. by apply (piece_size_eq pm G). Qed.
Lemma num_blocks_put p : num_blocks (put pm i p) i = Ok (nblocks size).
Proof. by apply (num_blocks_eq pm G). Qed.
Lemma block_length_put p b : Z.of_nat b < 2 ^ 50 -> block_length (put pm i p) i b = Ok (blen size b).
Proof. intros. by apply (block_length_eq pm G). Qed.
Lemma state_put p : state (put pm i p) i = Ok (p_state p).
Proof. by apply get_put. Qed.

Lemma start_piece_put p : start_piece i (put pm i p) = (put pm i (a_start size p), Ok tt).
Proof.
  unfold start_piece, a_start. msteps. rewrite state_put. cbn beta iota.
  destruct (p_state p) eqn:Hs;
    [rewrite decide_True by done|by rewrite decide_False by done..].
  rewrite set_state_put by done. cbn beta iota. rewrite piece_size_put. cbn beta iota.
  by rewrite set_buffer_put.
Qed.

Lemma reserve_scan_put p n : forall b,
  length (p_req p) = nblocks size -> length (p_rec p) = nblocks size -> (b + n = nblocks size)%nat ->
  reserve_scan i b n (put pm i p) =
  match position (fun '(q, c) => negb q && negb c) (drop b (zip (p_req p) (p_rec p))) with
  | Some k =>
      (put pm i (mkPiece (p_state p) (<[(b + k)%nat := true]> (p_req p)) (p_rec p) (p_buf p) (p_local p)),
       Ok (Some (Z.of_nat (b + k) * BLOCK_SIZE, blen size (b + k))))
  | None => (put pm i p, Ok None)
  end.
Proof.
  induction n as [|n IH]; intros b Hq Hc Hb.
  - rewrite drop_ge by (rewrite length_zip_with; lia). done.
  - destruct (index_lt_Some (p_req p) b) as (q & Eq & Iq); [lia|].
    destruct (index_lt_Some (p_rec p) b) as (c & Ec & Ic); [lia|].
    rewrite (drop_S _ (q, c)) by (by rewrite lookup_zip_with, Eq, Ec).
    cbn [reserve_scan position]. msteps. rewrite requested_bit_put, Iq by done. cbn beta iota.
    pose proof (IH (S b) Hq Hc ltac:(lia)) as IH'.
    destruct q.
    + cbn [negb andb]. rewrite IH'. destruct (position _ _); [|done]. cbn [option_map fmap option_fmap].
      by rewrite Nat.add_succ_r.
    + rewrite received_bit_put, Ic by done. destruct c; cbn [negb andb].
      * rewrite IH'. destruct (position _ _); [|done]. cbn [option_map fmap option_fmap].
        by rewrite Nat.add_succ_r.
      * rewrite set_requested_put by (done || lia). cbn beta iota.
        destruct (begin_eq pm G i b) as [-> Hb']; [subst size; lia|]. cbn beta iota.
        rewrite block_length_put by done. by rewrite Nat.add_0_r.
Qed.
Definition bits_ok (p : Piece) : Prop :=
  length (p_req p) = nblocks size /\ length (p_rec p) = nblocks size.

Lemma bits_ok_start p : bits_ok p -> bits_ok (a_start size p).
Proof. unfold a_start. by destruct (p_state p). Qed.

Lemma reserve_block_put p :
  bits_ok p ->
  reserve_block i (put pm i p) =
  (put pm i (fst (a_reserve size p)), Ok (snd (a_reserve size p))).
Proof.
  intros H. unfold reserve_block, a_reserve. msteps. rewrite state_put. cbn beta iota.
  destruct (decide (p_state p = Complete)) as [->|Hn]; [done|].
  rewrite start_piece_put. cbn beta iota. rewrite num_blocks_put. cbn beta iota.
  destruct (bits_ok_start _ H) as [Hq Hc].
  rewrite reserve_scan_put by done. rewrite drop_0. fold (free_block (a_start size p)).
  destruct (p_state p); [..|done]; by destruct (free_block _).
Qed.

Lemma release_block_put p begin :
  bits_ok p -> release_block i begin (put pm i p) = (put pm i (a_release begin p), Ok tt).
Proof.
  intros [Hq Hc]. unfold release_block, a_release. msteps. rewrite state_put. cbn beta iota.
  destruct (decide (p_state p = Complete)) as [->|Hn]; [done|].
  assert (forall T (x y : T), match p_state p with Complete => x | _ => y end = y) as ->
    by (by destruct (p_state p)).
  destruct (begin mod BLOCK_SIZE =? 0); [|done].
  rewrite (proj1 (proj2 (get_put pm i L Hi p))). cbn beta iota.
  destruct (Nat.ltb_spec (Z.to_nat (begin / BLOCK_SIZE)) (length (p_req p))).
  - by rewrite set_requested_put.
  - rewrite list_insert_ge by done. by destruct p.
Qed.

Lemma release_scan_put n : forall b p,
  bits_ok p -> (b + n = nblocks size)%nat ->
  release_scan i b n (put pm i p) =
  (put pm i (mkPiece (p_state p) (take b (p_req p) ++ zip_with andb (drop b (p_req p)) (drop b (p_rec p)))
     (p_rec p) (p_buf p) (p_local p)), Ok tt).
Proof.
  induction n as [|n IH]; intros b p [Hq Hc] Hb.
  - rewrite (drop_ge (p_req p)), take_ge, app_nil_r by lia. by destruct p.
  - destruct (index_lt_Some (p_req p) b) as (q & Eq & Iq); [lia|].
    destruct (index_lt_Some (p_rec p) b) as (c & Ec & Ic); [lia|].
    cbn [release_scan]. msteps. rewrite received_bit_put, Ic by done. cbn beta iota.
    rewrite (drop_S _ _ _ Eq), (drop_S _ _ _ Ec). cbn [zip_with].
    destruct c; cbn [negb].
    + cbn beta iota. rewrite IH by (by rewrite ?Nat.add_succ_r in * || lia).
      rewrite (take_S_r _ _ _ Eq), <- app_assoc, andb_true_r. done.
    + rewrite set_requested_put by (done || lia). cbn beta iota.
      rewrite IH; [|split; cbn; [by rewrite length_insert|done]|lia].
      cbn [p_state p_req p_rec p_buf p_local].
      destruct (insert_split (p_req p) b false) as [-> ->]; [lia|].
      by rewrite <- app_assoc, andb_false_r.
Qed.

Lemma release_piece_put p :
  bits_ok p -> release_piece_inflight i (put pm i p) = (put pm i (a_release_all p), Ok tt).
Proof.
  intros H. unfold release_piece_inflight, a_release_all. msteps. rewrite state_put. cbn beta iota.
  destruct (decide (p_state p = Complete)) as [->|Hn]; [done|].
  rewrite num_blocks_put. cbn beta iota. rewrite release_scan_put by done.
  by destruct (p_state p).
Qed.

Lemma reset_scan_put n : forall b p,
  bits_ok p -> (b + n = nblocks size)%nat ->
  reset_scan i b n (put pm i p) =
  (put pm i (mkPiece (p_state p) (take b (p_req p) ++ replicate n false)
     (take b (p_rec p) ++ replicate n false) (p_buf p) (p_local p)), Ok tt).
Proof.
  induction n as [|n IH]; intros b p [Hq Hc] Hb.
  - rewrite !take_ge, !app_nil_r by lia. by destruct p.
  - cbn [reset_scan]. msteps. rewrite set_requested_put by (done || lia). cbn beta iota.
    rewrite set_received_put by (done || cbn; lia). cbn beta iota.
    rewrite IH; [|split; cbn; by rewrite length_insert|lia].
    cbn [p_state p_req p_rec p_buf p_local].
    destruct (insert_split (p_req p) b false) as [-> _]; [lia|].
    destruct (insert_split (p_rec p) b false) as [-> _]; [lia|].
    by rewrite <- !app_assoc.
Qed.

Lemma reset_piece_put p :
  bits_ok p -> reset_piece i (put pm i p) = (put pm i (a_reset size p), Ok tt).
Proof.
  intros [Hq Hc]. unfold reset_piece, a_reset. msteps. rewrite set_state_put by done. cbn beta iota.
  rewrite set_buffer_put by done. cbn beta iota. rewrite num_blocks_put. cbn beta iota.
  by rewrite reset_scan_put.
Qed.

Lemma mark_complete_put p :
  mark_complete i (put pm i p) = (put pm i (a_complete p), Ok tt) /\
  mark_complete_verified i (put pm i p) = (put pm i (a_complete p), Ok tt).
Proof.
  unfold mark_complete, mark_complete_verified. msteps.
  rewrite set_state_put by done. cbn beta iota. rewrite set_local_put by done. cbn beta iota.
  by rewrite set_buffer_put.
Qed.

Lemma piece_ok_bits p : piece_ok size p = true -> bits_ok p.
Proof. unfold piece_ok, bits_ok. intros H. bools. by rewrite !Nat.eqb_eq in *. Qed.

(** A started piece keeps its buffer as long as a block is missing. *)
Lemma start_buffer p b :
  piece_ok size p = true -> p_state p <> Complete -> p_rec (a_start size p) !! b = Some false ->
  exists buf, p_buf (a_start size p) = Some buf /\ Z.of_nat (length buf) = size.
Proof.
  pose proof (psize_range pm G i) as Hs. fold size in Hs.
  unfold piece_ok, a_start. destruct (p_state p) eqn:E; intros H Hn Hb; bools; [..|done].
  - eexists. split; [done|]. rewrite length_replicate. lia.
  - destruct (p_buf p) as [buf|] eqn:Eb; bools.
    + exists buf. by rewrite Z.eqb_eq in *.
    + exfalso. rewrite forallb_Forall_iff in *.
      match goal with H : Forall _ (p_rec p) |- _ => rewrite Forall_lookup in H; by apply (H b) in Hb end.
Qed.

Lemma copy_into_Ok buf b data :
  Z.of_nat (length buf) = size -> (b < nblocks size)%nat -> Z.of_nat (length data) = blen size b ->
  copy_into buf (Z.to_nat (Z.of_nat b * BLOCK_SIZE)) (Z.to_nat (blen size b)) data =
  Ok (splice buf (Z.to_nat (Z.of_nat b * BLOCK_SIZE)) data).
Proof.
  intros Hl Hb Hd. pose proof (psize_range pm G i) as Hs. fold size in Hs.
  apply nblocks_spec in Hb as Hb'; [|lia]. pose proof (blen_range _ _ Hb) as Hr.
  unfold copy_into. rewrite slice_range_Ok by (unfold blen, sat_sub, BLOCK_SIZE in *; lia).
  cbn [mbind result_bind]. rewrite length_slice by (unfold blen, sat_sub, BLOCK_SIZE in *; lia).
  replace (_ - _)%nat with (length data) by lia. by rewrite Nat.eqb_refl.
Qed.

Lemma received_block_put p begin data :
  piece_ok size p = true -> 0 <= begin < 2 ^ 32 ->
  received_block i begin data (put pm i p) =
  (put pm i (fst (a_receive size begin data p)), snd (a_receive size begin data p)).
Proof.
  intros Hok Hb. unfold received_block, a_receive. msteps.
  replace (num_pieces (put pm i p) <=? i)%nat with false by (symmetry; apply Nat.leb_gt; done).
  rewrite state_put. cbn beta iota.
  destruct (decide (p_state p = Complete)) as [->|Hn]; [done|].
  assert (forall T (x y : T), match p_state p with Complete => x | _ => y end = y) as ->
    by (by destruct (p_state p)).
  destruct (begin mod BLOCK_SIZE =? 0) eqn:Hm; cbn [negb]; [|done].
  apply mult_begin in Hm; [|lia]. set (b := Z.to_nat (begin / BLOCK_SIZE)) in *.
  rewrite num_blocks_put. cbn beta iota.
  destruct (Nat.leb_spec (nblocks size) b) as [|Hlt]; [done|].
  rewrite block_length_put by (apply (begin_eq pm G i b); done). cbn beta iota.
  destruct (Z.eqb_spec (Z.of_nat (length data)) (blen size b)) as [Hd|]; cbn [negb]; [|done].
  rewrite start_piece_put. cbn beta iota.
  destruct (bits_ok_start _ (piece_ok_bits _ Hok)) as [Hq Hc].
  rewrite received_bit_put by done.
  destruct (index_lt_Some (p_rec (a_start size p)) b) as (c & Ec & Ic); [lia|].
  rewrite Ec, Ic. cbn beta iota. destruct c; [done|].
  destruct (start_buffer p b Hok Hn Ec) as (buf & Ebuf & Lbuf).
  rewrite (proj2 (proj2 (proj2 (get_put pm i L Hi _)))), Ebuf. cbn [ok_or]. cbn beta iota.
  rewrite Hm, copy_into_Ok by done. cbn beta iota.
  set (a := a_start size p) in *. set (buf' := splice _ _ _).
  rewrite set_buffer_put by done. cbn beta iota.
  rewrite set_received_put by (done || cbn; lia). cbn beta iota.
  rewrite set_requested_put by (done || cbn; lia). cbn beta iota.
  cbn [p_state p_req p_rec p_buf p_local].
  rewrite (proj1 (proj2 (proj2 (get_put pm i L Hi _)))). cbn [p_rec]. cbn beta iota.
  destruct (forallb id _); [|done].
  rewrite (proj2 (proj2 (proj2 (get_put pm i L Hi _)))). cbn beta iota.
  by rewrite set_buffer_put.
Qed.

End Refine.

(** ** The abstract machine keeps its invariant *)

Lemma existsb_lookup (l : list bool) : existsb id l = false <-> forall b, l !! b <> Some true.
Proof.
  split.
  - intros H b Hb. assert (existsb id l = true); [|congruence].
    apply existsb_exists. exists true. split; [|done]. by apply list_elem_of_In, list_elem_of_lookup; exists b.
  - intros H. apply not_true_iff_false. intros E. apply existsb_exists in E as ([|] & Hin & E); [|done].
    apply list_elem_of_In, list_elem_of_lookup in Hin as [b Hb]. by apply (H b).
Qed.

Lemma forallb_lookup (l : list bool) : forallb id l = true <-> forall b x, l !! b = Some x -> x = true.
Proof. rewrite forallb_Forall_iff, Forall_lookup. done. Qed.

Lemma blank_bits_ok n : existsb id (replicate n false) = false.
Proof. apply existsb_lookup. intros b H. apply lookup_replicate in H as [? _]. done. Qed.

Lemma nblocks_pos size : 0 < size -> (0 < nblocks size)%nat.
Proof. intros H. apply nblocks_spec; lia. Qed.

Section Abstract.
Context (size : Z) (Hsize : 0 < size).

(** Destruct a row invariant into its facts. *)
Lemma piece_okE p : piece_ok size p = true <->
  length (p_req p) = nblocks size /\ length (p_rec p) = nblocks size /\
  match p_state p with
  | Missing => p_local p = false /\ p_buf p = None /\ forall b, p_rec p !! b <> Some true
  | InProgress => p_local p = false /\
      match p_buf p with
      | Some buf => Z.of_nat (length buf) = size /\ forallb id (p_rec p) = false
      | None => forallb id (p_rec p) = true
      end
  | Complete => p_local p = true /\ p_buf p = None
  end.
Proof.
  unfold piece_ok. pose proof (existsb_lookup (p_rec p)). destruct (p_state p), (p_buf p);
  rewrite ?andb_true_iff, ?Nat.eqb_eq, ?negb_true_iff, ?bool_decide_eq_true, ?Z.eqb_eq; tauto.
Qed.

Lemma not_all_received p : (0 < length (p_rec p))%nat -> (forall b, p_rec p !! b <> Some true) ->
  forallb id (p_rec p) = false.
Proof.
  intros Hl H. apply not_true_iff_false. rewrite forallb_lookup. intros Ha.
  destruct (lookup_lt_is_Some_2 _ _ Hl) as [x Hx]. apply (H 0%nat). rewrite Hx. f_equal. eauto.
Qed.

Lemma a_start_ok p : piece_ok size p = true -> piece_ok size (a_start size p) = true.
Proof.
  rewrite !piece_okE. unfold a_start. destruct (p_state p) eqn:E; cbn; rewrite ?E; [|done..].
  intros (H1 & H2 & H3 & H4 & H5). split_and!; try done.
  - rewrite length_replicate. lia.
  - apply not_all_received; [|done]. rewrite H2. by apply nblocks_pos.
Qed.

Lemma a_start_state p : p_state p <> Complete -> p_state (a_start size p) = InProgress.
Proof. unfold a_start. destruct (p_state p) eqn:E; cbn; by rewrite ?E. Qed.

Lemma a_reserve_ok p : piece_ok size p = true -> piece_ok size (fst (a_reserve size p)) = true.
Proof.
  intros H. unfold a_reserve. destruct (decide (p_state p = Complete)) as [E|E]; [by rewrite E|].
  assert (forall T (x y : T), match p_state p with Complete => x | _ => y end = y) as ->
    by (by destruct (p_state p)).
  apply a_start_ok in H. destruct (free_block _); [|done]. revert H. rewrite !piece_okE. cbn.
  by rewrite length_insert.
Qed.

Lemma a_release_ok begin p : piece_ok size p = true -> piece_ok size (a_release begin p) = true.
Proof.
  unfold a_release. destruct (p_state p) eqn:E, (begin mod BLOCK_SIZE =? 0); try done;
  rewrite !piece_okE, E; cbn; by rewrite length_insert.
Qed.

Lemma a_release_all_ok p : piece_ok size p = true -> piece_ok size (a_release_all p) = true.
Proof.
  unfold a_release_all. destruct (p_state p) eqn:E; try done; rewrite !piece_okE, E; cbn;
  intros (H1 & H2 & H3); (split; [rewrite length_zip_with; lia|done]).
Qed.

Lemma a_reset_ok p : p_local p = false -> piece_ok size (a_reset size p) = true.
Proof.
  intros H. rewrite piece_okE. cbn. rewrite length_replicate. split_and!; try done.
  apply existsb_lookup, blank_bits_ok.
Qed.

Lemma a_complete_ok p : piece_ok size p = true -> piece_ok size (a_complete p) = true.
Proof. rewrite !piece_okE. cbn. intros (H1 & H2 & _). done. Qed.

Lemma length_splice buf a data :
  (a + length data <= length buf)%nat -> length (splice buf a data) = length buf.
Proof. intros H. unfold splice. len. Qed.

Lemma lookup_splice buf a data k :
  (a + length data <= length buf)%nat ->
  splice buf a data !! k =
  if decide (a <= k < a + length data)%nat then data !! (k - a)%nat else buf !! k.
Proof.
  intros H. unfold splice. case_decide as Hk.
  - rewrite lookup_app_r by len. rewrite lookup_app_l by len. f_equal. len.
  - destruct (decide (k < a)%nat).
    + rewrite lookup_app_l by len. by rewrite lookup_take_lt.
    + rewrite lookup_app_r by len. rewrite lookup_app_r by len. rewrite lookup_drop. f_equal. len.
Qed.

(** What an accepted block does to a row. *)
Definition accepted (p : Piece) (b : nat) (data : bytes) (p' : Piece) (buf : bytes) : Prop :=
  (b < nblocks size)%nat /\ Z.of_nat (length data) = blen size b /\
  p_rec (a_start size p) !! b = Some false /\
  p_buf (a_start size p) = Some buf /\ Z.of_nat (length buf) = size /\
  p_rec p' = <[b := true]> (p_rec (a_start size p)) /\ p_state p' = InProgress.

Lemma a_receive_cases begin data p p' r :
  piece_ok size p = true -> 0 <= begin ->
  a_receive size begin data p = (p', r) ->
  (p' = p /\ exists e, r = Err e) \/
  (r = Ok Duplicate /\ (p' = p \/ p' = a_start size p)) \/
  (exists buf b, begin = Z.of_nat b * BLOCK_SIZE /\ p_state p <> Complete /\
     accepted p b data p' buf /\
     let buf' := splice buf (Z.to_nat begin) data in
     (forallb id (p_rec p') = true /\ p_buf p' = None /\ r = Ok (Completed buf') \/
      forallb id (p_rec p') = false /\ p_buf p' = Some buf' /\ r = Ok Stored) /\
     length (p_req p') = nblocks size /\ p_local p' = p_local p).
Proof.
  intros Hok Hb. unfold a_receive.
  destruct (decide (p_state p = Complete)) as [E|E]; [rewrite E; intros [= <- <-]; eauto|].
  assert (forall T (x y : T), match p_state p with Complete => x | _ => y end = y) as ->
    by (by destruct (p_state p)).
  destruct (begin mod BLOCK_SIZE =? 0) eqn:Hm; cbn [negb]; [|intros [= <- <-]; eauto].
  apply mult_begin in Hm; [|done]. set (b := Z.to_nat (begin / BLOCK_SIZE)) in *.
  destruct (Nat.leb_spec (nblocks size) b) as [|Hlt]; [intros [= <- <-]; eauto|].
  destruct (Z.eqb_spec (Z.of_nat (length data)) (blen size b)) as [Hd|]; cbn [negb]; [|intros [= <- <-]; eauto].
  pose proof (a_start_ok p Hok) as Ha. pose proof (a_start_state p E) as Hst.
  assert (p_local (a_start size p) = p_local p) as Hloc by (unfold a_start; by destruct (p_state p)).
  set (a := a_start size p) in *. apply piece_okE in Ha as (Hq & Hc & Ha). rewrite Hst in Ha.
  destruct (lookup_lt_is_Some_2 (p_rec a) b ltac:(lia)) as [c Ec]. rewrite Ec.
  destruct c; [intros [= <- <-]; eauto|]. destruct Ha as [_ Ha].
  destruct (p_buf a) as [buf|] eqn:Ebuf.
  2:{ rewrite forallb_lookup in Ha. by specialize (Ha _ _ Ec). }
  destruct Ha as [Lb _]. intros H. right; right. exists buf, b. rewrite Hst in H.
  destruct (forallb id (<[b:=true]> (p_rec a))) eqn:Hall; simplify_eq;
    (split_and!; try done); cbn; rewrite ?length_insert; try done; auto.
Qed.

Lemma a_receive_ok begin data p :
  piece_ok size p = true -> 0 <= begin -> piece_ok size (fst (a_receive size begin data p)) = true.
Proof.
  intros Hok Hb. destruct (a_receive size begin data p) as [p' r] eqn:E. cbn.
  pose proof (a_start_ok p Hok) as Hs.
  destruct (a_receive_cases _ _ _ _ _ Hok Hb E)
    as [[-> _]|[[_ [->| ->]]|(buf & b & Hm & Hn & Hacc & Hr & Hq & Hl)]]; try done.
  destruct Hacc as (Hlt & Hd & Hc & Hbuf & Hlen & Hrec & Hst). apply piece_okE in Hs as (_ & Hsc & _).
  apply piece_okE in Hok as (_ & _ & Hok).
  apply piece_okE. rewrite Hst, Hq, Hrec, length_insert, Hl. split_and!; try done.
  - destruct (p_state p); [apply Hok|apply Hok|done].
  - rewrite <- Hrec. destruct Hr as [(? & -> & _)|(? & -> & _)]; [done|]. split; [|done].
    apply nblocks_spec in Hlt; [|lia].
    rewrite length_splice; [done|]. unfold blen, sat_sub, BLOCK_SIZE in *. lia.
Qed.

(** The block that byte [k] of a piece belongs to. *)
Definition blk (k : nat) : nat := Z.to_nat (Z.of_nat k / BLOCK_SIZE).

Lemma blk_spec k b : blk k = b <-> Z.of_nat b * BLOCK_SIZE <= Z.of_nat k < (Z.of_nat b + 1) * BLOCK_SIZE.
Proof.
  unfold blk, BLOCK_SIZE. pose proof (Z.div_mod (Z.of_nat k) 16384 ltac:(lia)).
  pose proof (Z.mod_pos_bound (Z.of_nat k) 16384 ltac:(lia)). lia.
Qed.

(** The received bytes of a row agree with the piece content [c]. *)
Definition agrees (c : bytes) (p : Piece) : Prop :=
  forall k buf, p_buf p = Some buf -> p_rec p !! blk k = Some true -> buf !! k = c !! k.

Lemma agrees_start c p : piece_ok size p = true -> agrees c p -> agrees c (a_start size p).
Proof.
  rewrite piece_okE. unfold a_start. destruct (p_state p); try done.
  intros (_ & _ & _ & _ & H) _ k buf _ Hk. by apply H in Hk.
Qed.

Lemma agrees_splice c buf b data k :
  Z.of_nat (length c) = size -> Z.of_nat (length buf) = size -> (b < nblocks size)%nat ->
  Z.of_nat (length data) = blen size b ->
  data = slice c (Z.to_nat (Z.of_nat b * BLOCK_SIZE)) (length data) ->
  (blk k <> b -> buf !! k = c !! k) ->
  splice buf (Z.to_nat (Z.of_nat b * BLOCK_SIZE)) data !! k = c !! k.
Proof.
  intros Hc Hbuf Hb Hd Hdata Hother. apply nblocks_spec in Hb; [|lia].
  rewrite lookup_splice by (unfold blen, sat_sub, BLOCK_SIZE in *; lia). case_decide as Hk.
  - rewrite Hdata. unfold slice. rewrite lookup_take_lt, lookup_drop by lia. f_equal. lia.
  - destruct (decide (blk k = b)) as [E|E]; [|by apply Hother].
    apply blk_spec in E. rewrite !lookup_ge_None_2; [done|..]; unfold blen, sat_sub, BLOCK_SIZE in *; lia.
Qed.

Lemma agrees_receive c begin data p p' r :
  piece_ok size p = true -> 0 <= begin -> agrees c p -> Z.of_nat (length c) = size ->
  data = slice c (Z.to_nat begin) (length data) ->
  a_receive size begin data p = (p', r) ->
  agrees c p' /\ forall d, r = Ok (Completed d) -> d = c.
Proof.
  intros Hok Hb Hag Hlc Hdata E. pose proof (agrees_start c p Hok Hag) as Hag'.
  destruct (a_receive_cases _ _ _ _ _ Hok Hb E)
    as [[-> [e ->]]|[[-> [->| ->]]|(buf & b & Hm & Hn & Hacc & Hr & Hq & Hl)]]; try done.
  destruct Hacc as (Hlt & Hd & Hc & Hbuf & Hlen & Hrec & Hst). rewrite Hm in *.
  assert (forall k, p_rec p' !! blk k = Some true ->
    splice buf (Z.to_nat (Z.of_nat b * BLOCK_SIZE)) data !! k = c !! k) as Hall.
  { intros k Hk. apply agrees_splice; try done. intros Hne.
    apply Hag'; [done|]. by rewrite Hrec, list_lookup_insert_ne in Hk by done. }
  destruct Hr as [(Hf & Hb' & ->)|(Hf & Hb' & ->)]; (split; [|intros d [= <-]]).
  - intros k buf'. by rewrite Hb'.
  - apply list_eq. intros k. destruct (decide (k < length c)%nat) as [Hk|Hk].
    + apply Hall. rewrite forallb_lookup in Hf.
      destruct (lookup_lt_is_Some_2 (p_rec p') (blk k)) as [x Hx]; [|rewrite Hx; f_equal; eauto].
      pose proof (a_receive_ok (Z.of_nat b * BLOCK_SIZE) data p Hok Hb) as Hok'.
      rewrite E in Hok'. cbn in Hok'. apply piece_okE in Hok' as (_ & -> & _).
      pose proof (proj1 (blk_spec k _) eq_refl). apply nblocks_spec; unfold BLOCK_SIZE in *; lia.
    + rewrite !lookup_ge_None_2; [done|lia|]. apply nblocks_spec in Hlt; [|lia].
      rewrite length_splice; [lia|]. unfold blen, sat_sub, BLOCK_SIZE in *. lia.
  - intros k buf'. rewrite Hb'. intros [= <-]. apply Hall.
Qed.
End Abstract.

(** ** Operations of the engine on the manager *)

Inductive Op :=
  | OpReserve (i : nat)
  | OpRelease (i : nat) (begin : Z)
  | OpReleaseAll (i : nat)
  | OpReceive (i : nat) (begin : Z) (data : bytes)
  | OpReset (i : nat)
  | OpComplete (i : nat)
  | OpVerified (i : nat)
  | OpWanted (wants : list bool).

Inductive Out := Done | Reserved (o : option (Z * Z)) | Received (o : BlockOutcome).

Definition and_out {S A} (f : A -> Out) (m : M S A) : M S Out := a ← m; mret (f a).

Definition run (op : Op) : M PieceManager Out :=
  match op with
  | OpReserve i => and_out Reserved (reserve_block i)
  | OpRelease i begin => and_out (fun _ => Done) (release_block i begin)
  | OpReleaseAll i => and_out (fun _ => Done) (release_piece_inflight i)
  | OpReceive i begin data => and_out Received (received_block i begin data)
  | OpReset i => and_out (fun _ => Done) (reset_piece i)
  | OpComplete i => and_out (fun _ => Done) (mark_complete i)
  | OpVerified i => and_out (fun _ => Done) (mark_complete_verified i)
  | OpWanted mask => and_out (fun _ => Done) (set_wanted mask)
  end.

(** What the engine guarantees of a call: piece indexes in range, except for a
    block from the wire, whose index, offset and data are arbitrary; a
    piece is reset only while it is not complete. *)
Definition op_ok (pm : PieceManager) (op : Op) : Prop :=
  match op with
  | OpReserve i | OpReleaseAll i | OpComplete i | OpVerified i => (i < num_pieces pm)%nat
  | OpRelease i begin => (i < num_pieces pm)%nat
  | OpReceive i begin data => 0 <= begin < 2 ^ 32
  | OpReset i => (i < num_pieces pm)%nat /\ states pm !! i <> Some Complete
  | OpWanted _ => True
  end.

(** The abstract step: the row an operation works on and what it makes of it. *)
Definition op_piece (op : Op) : option nat :=
  match op with
  | OpReserve i | OpReleaseAll i | OpComplete i | OpVerified i
  | OpRelease i _ | OpReceive i _ _ | OpReset i => Some i
  | OpWanted _ => None
  end.

Definition a_run (size : Z) (op : Op) (p : Piece) : Piece * result Out :=
  match op with
  | OpReserve _ => let '(p', o) := a_reserve size p in (p', Ok (Reserved o))
  | OpRelease _ begin => (a_release begin p, Ok Done)
  | OpReleaseAll _ => (a_release_all p, Ok Done)
  | OpReceive _ begin data => let '(p', r) := a_receive size begin data p in (p', Received <$> r)
  | OpReset _ => (a_reset size p, Ok Done)
  | OpComplete _ | OpVerified _ => (a_complete p, Ok Done)
  | OpWanted _ => (p, Ok Done)
  end.

Lemma pm_ok_row pm i p : pm_ok pm -> row pm i = Some p ->
  (i < num_pieces pm)%nat /\ piece_ok (psize pm i) p = true.
Proof.
  intros (G & L & H) Hr. split; [|by apply H]. destruct L as (L1 & _). rewrite <- L1.
  unfold row in Hr. destruct (states pm !! i) eqn:E; [|done]. by eapply lookup_lt_Some.
Qed.

(** [pm_ok] survives replacing a row by a good one. *)
Lemma pm_ok_put pm i p : pm_ok pm -> (i < num_pieces pm)%nat ->
  piece_ok (psize pm i) p = true -> pm_ok (put pm i p).
Proof.
  intros (G & L & H) Hi Hp. split_and!; [done|by apply lens_put|].
  intros j q. destruct (decide (j = i)) as [->|Hne].
  - rewrite row_put by done. by intros [= <-].
  - rewrite row_put_ne by done. apply H.
Qed.

Lemma row_state pm i p : row pm i = Some p -> states pm !! i = Some (p_state p).
Proof.
  unfold row. destruct (states pm !! i), (requested pm !! i), (received pm !! i),
    (buffers pm !! i), (local pm !! i); cbn; by intros [= <-].
Qed.

Lemma a_run_ok pm op i p : pm_ok pm -> op_ok pm op -> op_piece op = Some i -> row pm i = Some p ->
  piece_ok (psize pm i) (fst (a_run (psize pm i) op p)) = true.
Proof.
  intros Hpm Hop Hi Hr. destruct (pm_ok_row _ _ _ Hpm Hr) as [Hlt Hok].
  pose proof (psize_range pm (proj1 Hpm) i) as [Hs _]. destruct op; simplify_eq/=.
  - pose proof (a_reserve_ok _ Hs p Hok) as H. by destruct (a_reserve _ _).
  - by apply a_release_ok.
  - by apply a_release_all_ok.
  - pose proof (a_receive_ok _ Hs begin data p Hok ltac:(lia)) as H. by destruct (a_receive _ _ _ _).
  - apply a_reset_ok. destruct Hop as [_ Hst]. rewrite (row_state _ _ _ Hr) in Hst.
    apply piece_okE in Hok as (_ & _ & Hok). destruct (p_state p); [apply Hok|apply Hok|done].
  - by apply a_complete_ok.
  - by apply a_complete_ok.
Qed.

Lemma run_piece pm op i p :
  pm_ok pm -> op_ok pm op -> op_piece op = Some i -> row pm i = Some p ->
  run op pm = (put pm i (fst (a_run (psize pm i) op p)), snd (a_run (psize pm i) op p)).
Proof.
  intros Hpm Hop Hi Hr. destruct (pm_ok_row _ _ _ Hpm Hr) as [Hlt Hok].
  destruct Hpm as (G & L & _). pose proof (piece_ok_bits pm i _ Hok) as Hbits.
  rewrite <- (put_row pm i p Hr) at 1.
  destruct op; simplify_eq/=; unfold and_out; msteps.
  - rewrite reserve_block_put by done. by destruct (a_reserve _ _).
  - by rewrite release_block_put.
  - by rewrite release_piece_put.
  - rewrite received_block_put by done. destruct (a_receive _ _ _ _) as [p' [| | |]]; done.
  - by rewrite reset_piece_put.
  - by rewrite (proj1 (mark_complete_put pm i L Hlt p)).
  - by rewrite (proj2 (mark_complete_put pm i L Hlt p)).
Qed.

Lemma write_bits_all mask : forall l i,
  (i + length mask <= length l)%nat ->
  write_bits l i mask = Ok (take i l ++ mask ++ drop (i + length mask) l).
Proof.
  induction mask as [|w mask IH]; intros l i H; cbn [write_bits length app] in *.
  - by rewrite Nat.add_0_r, take_drop.
  - rewrite set_index_Ok by lia. cbn [mbind result_bind]. rewrite IH by (rewrite length_insert; lia).
    destruct (insert_split l i w) as [-> _]; [lia|].
    rewrite drop_insert_lt by lia. rewrite <- app_assoc. cbn [app]. by rewrite Nat.add_succ_r.
Qed.

Lemma set_wanted_eq mask pm : pm_ok pm ->
  set_wanted mask pm =
  (if (length mask =? num_pieces pm)%nat then with_wanted mask pm else pm, Ok tt).
Proof.
  intros (_ & L & _). destruct L as (_ & _ & _ & _ & _ & L). unfold set_wanted. msteps.
  destruct (Nat.eqb_spec (length mask) (num_pieces pm)) as [E|E]; cbn [negb]; [|done].
  rewrite write_bits_all by lia. cbn beta iota. rewrite take_0, drop_ge by lia.
  by rewrite app_nil_r.
Qed.

(** A call in contract keeps the invariant and does not panic. *)
Lemma run_ok pm op : pm_ok pm -> op_ok pm op ->
  pm_ok (fst (run op pm)) /\ returns (snd (run op pm)) = true /\
  num_pieces (fst (run op pm)) = num_pieces pm.
Proof.
  intros Hpm Hop. destruct (op_piece op) as [i|] eqn:Hi.
  - destruct (row pm i) as [p|] eqn:Hr.
    + rewrite (run_piece _ _ _ _ Hpm Hop Hi Hr). cbn [fst snd].
      split_and!; [|..|done].
      * apply pm_ok_put; [done|apply (pm_ok_row _ _ _ Hpm Hr)|by apply a_run_ok].
      * destruct op; simplify_eq/=; try done; [by destruct (a_reserve _ _)|].
        destruct (pm_ok_row _ _ _ Hpm Hr) as [_ Hok]. pose proof (psize_range pm (proj1 Hpm) i) as [Hs _].
        destruct (a_receive _ _ _ _) as [p' r] eqn:E.
        destruct (a_receive_cases _ Hs begin data _ _ _ Hok ltac:(lia) E)
          as [[_ [? ->]]|[[-> _]|(? & ? & _ & _ & _ & [(_ & _ & ->)|(_ & _ & ->)] & _)]]; done.
    + assert (i >= num_pieces pm)%nat as Hge.
      { destruct (decide (i < num_pieces pm)%nat) as [Hlt|]; [|lia].
        destruct (row_is_Some pm i (proj1 (proj2 Hpm)) Hlt). congruence. }
      destruct op; simplify_eq/=; try lia. unfold and_out, received_block. msteps.
      by replace (num_pieces pm <=? i)%nat with true by (symmetry; apply Nat.leb_le; lia).
  - destruct op; try done. cbn [run]. unfold and_out. msteps. rewrite set_wanted_eq by done.
    cbn [fst snd]. destruct (Nat.eqb_spec (length wants) (num_pieces pm)); [|done].
    split_and!; try done. destruct Hpm as (G & L & H). split_and!; try done.
    destruct L as (? & ? & ? & ? & ? & _). by split_and!.
Qed.

(** C8: refinement.  Every operation of the manager on a piece whose row is [p]
    (the wire's [received_block] included, with any offset and data) leaves exactly
    the manager in which that one row is replaced by the row of the abstract
    one-piece machine, and returns what that machine returns.  The invariant is
    kept (equal lengths; a missing piece has no buffer and no received block; a
    piece in progress has a buffer of its exact size until its last block arrives;
    complete and local coincide), and nothing panics: in particular no block
    message of any content can. *)
Theorem manager_refines pm op i p :
  pm_ok pm -> op_ok pm op -> op_piece op = Some i -> row pm i = Some p ->
  pm_ok (fst (run op pm)) /\ returns (snd (run op pm)) = true /\
  run op pm = (put pm i (fst (a_run (psize pm i) op p)), snd (a_run (psize pm i) op p)).
Proof.
  intros Hpm Hop Hi Hp. destruct (run_ok pm op Hpm Hop) as (H1 & H2 & _). split_and!; [done|done|by apply run_piece].
Qed.

(** The invariant.  Every call in contract leaves the vectors consistent (equal
    lengths; a missing piece has no buffer and no received block; a piece in
    progress has a buffer of its exact size until its last block arrives;
    complete and local coincide) and never panics: in particular no block message
    of any content can. *)
Lemma manager_invariant pm op :
  pm_ok pm -> op_ok pm op ->
  pm_ok (fst (run op pm)) /\ returns (snd (run op pm)) = true.
Proof. intros Hpm Hop. destruct (run_ok pm op Hpm Hop) as (H1 & H2 & _). done. Qed.

(** ** A fresh manager *)

Lemma blank_bits_eq pm n : geometry pm -> forall i,
  (i + n <= num_pieces pm)%nat ->
  exists bits, blank_bits i n (piece_length pm) (total_length pm) (num_pieces pm) = Ok bits /\
    length bits = n /\
    forall k, (k < n)%nat -> bits !! k = Some (replicate (nblocks (psize pm (i + k))) false).
Proof.
  intros G. induction n as [|n IH]; intros i Hi; [exists []; split_and!; [done|done|lia]|].
  cbn [blank_bits]. pose proof (num_blocks_eq pm G i ltac:(lia)) as E. unfold num_blocks in E. rewrite E.
  destruct (IH (S i) ltac:(lia)) as (bits & Eb & Lb & Hb). cbn [mbind result_bind]. rewrite Eb.
  eexists. split; [done|]. split; [cbn; lia|]. intros [|k] Hk; cbn.
  - by rewrite Nat.add_0_r.
  - rewrite Hb by lia. by rewrite Nat.add_succ_r.
Qed.

Definition blank_row (size : Z) : Piece :=
  mkPiece Missing (replicate (nblocks size) false) (replicate (nblocks size) false) None false.

Lemma new_eq pl tl n : geom_ok pl tl n = true ->
  exists pm, new pl tl n = Ok pm /\ pm_ok pm /\ num_pieces pm = n /\
    piece_length pm = pl /\ total_length pm = tl /\
    forall i, (i < n)%nat -> row pm i = Some (blank_row (psize pm i)).
Proof.
  intros G. set (g := mkPM pl tl n [] [] [] [] [] []).
  destruct (blank_bits_eq g n G 0 ltac:(cbn; lia)) as (bits & Eb & Lb & Hb). cbn in Eb.
  pose proof (geom_facts g G) as (_ & _ & Hn & _). cbn in Hn. unfold new.
  destruct (Nat.eqb_spec n 0); [lia|]. rewrite Eb. cbn [mbind result_bind].
  eexists. split; [done|]. set (pm := mkPM _ _ _ _ _ _ _ _ _).
  assert (forall i, (i < n)%nat -> row pm i = Some (blank_row (psize pm i))) as Hrow.
  { intros i Hi. unfold row. cbn. rewrite !lookup_replicate_2 by done. rewrite Hb by done. done. }
  split_and!; try done. split_and!; [done|..].
  - by split_and!; cbn; rewrite ?length_replicate.
  - intros i p Hr. destruct (decide (i < n)%nat) as [Hi|Hi].
    + rewrite Hrow in Hr by done. simplify_eq. unfold piece_ok, blank_row. cbn.
      by rewrite length_replicate, Nat.eqb_refl, blank_bits_ok.
    + unfold row in Hr. cbn in Hr. by rewrite (lookup_ge_None_2 (replicate n Missing)) in Hr
        by (rewrite length_replicate; lia).
Qed.

(** ** Histories of operations *)

Fixpoint run_all (ops : list Op) (pm : PieceManager) : PieceManager * list (result Out) :=
  match ops with
  | [] => (pm, [])
  | op :: ops' =>
      let '(pm1, r) := run op pm in
      let '(pm2, rs) := run_all ops' pm1 in (pm2, r :: rs)
  end.

Fixpoint ops_ok (pm : PieceManager) (ops : list Op) : Prop :=
  match ops with
  | [] => True
  | op :: ops' => op_ok pm op /\ ops_ok (fst (run op pm)) ops'
  end.

(** The data a peer sends for piece [i] is the piece content [c] at its offset. *)
Definition honest (i : nat) (c : bytes) (op : Op) : Prop :=
  match op with
  | OpReceive j begin data => j = i -> data = slice c (Z.to_nat begin) (length data)
  | _ => True
  end.

Lemma agrees_run pm op i c :
  pm_ok pm -> op_ok pm op -> honest i c op -> Z.of_nat (length c) = psize pm i ->
  (forall p, row pm i = Some p -> agrees c p) ->
  (forall p, row (fst (run op pm)) i = Some p -> agrees c p) /\
  (forall b data d, op = OpReceive i b data -> snd (run op pm) = Ok (Received (Completed d)) -> d = c).
Proof.
  intros Hpm Hop Hh Hc Hag. destruct (op_piece op) as [j|] eqn:Hj.
  2:{ destruct op; try done. cbn [run]. unfold and_out. msteps. rewrite set_wanted_eq by done.
      split; [|done]. cbn [fst]. by destruct (_ =? _)%nat. }
  destruct (row pm j) as [p|] eqn:Hr.
  2:{ assert (num_pieces pm <= j)%nat as Hge.
      { destruct (decide (j < num_pieces pm)%nat) as [Hlt|]; [|lia].
        destruct (row_is_Some pm j (proj1 (proj2 Hpm)) Hlt). congruence. }
      destruct op; simplify_eq/=; try lia. unfold and_out, received_block. msteps.
      by replace (num_pieces pm <=? j)%nat with true by (symmetry; apply Nat.leb_le; lia). }
  destruct (pm_ok_row _ _ _ Hpm Hr) as [Hlt Hok]. pose proof (psize_range pm (proj1 Hpm) j) as [Hs _].
  rewrite (run_piece _ _ _ _ Hpm Hop Hj Hr). cbn [fst snd].
  destruct (decide (j = i)) as [->|Hne].
  2:{ split; [|by intros b data d ->; simplify_eq/=].
      intros q. rewrite row_put_ne by done. apply Hag. }
  specialize (Hag _ Hr). rewrite row_put by (done || apply Hpm).
  destruct op; simplify_eq/=.
  4:{ destruct (a_receive _ _ _ _) as [p' r] eqn:E.
      destruct (agrees_receive _ Hs c begin data p p' r Hok ltac:(lia) Hag Hc (Hh eq_refl) E) as [H1 H2].
      cbn. split; [by intros q [= <-]|]. intros b' data' d [= <- <-] Hd. apply H2.
      destruct r; by simplify_eq/=. }
  all: split; [intros q [= <-]|done]; try done.
  - unfold a_reserve. destruct (decide (p_state p = Complete)) as [E|E]; [by rewrite E|].
    assert (forall T (x y : T), match p_state p with Complete => x | _ => y end = y) as ->
      by (by destruct (p_state p)).
    pose proof (agrees_start _ c p Hok Hag). by destruct (free_block _).
  - unfold a_release. destruct (p_state p), (begin mod BLOCK_SIZE =? 0); done.
  - unfold a_release_all. by destruct (p_state p).
Qed.

Lemma run_psize pm op i : pm_ok pm -> op_ok pm op -> psize (fst (run op pm)) i = psize pm i.
Proof.
  intros Hpm Hop. destruct (op_piece op) as [j|] eqn:Hj.
  - destruct (row pm j) as [p|] eqn:Hr; [by rewrite (run_piece _ _ _ _ Hpm Hop Hj Hr)|].
    assert (num_pieces pm <= j)%nat as Hge.
    { destruct (decide (j < num_pieces pm)%nat) as [Hlt|]; [|lia].
      destruct (row_is_Some pm j (proj1 (proj2 Hpm)) Hlt). congruence. }
    destruct op; simplify_eq/=; try lia. unfold and_out, received_block. msteps.
    by replace (num_pieces pm <=? j)%nat with true by (symmetry; apply Nat.leb_le; lia).
  - destruct op; try done. cbn [run]. unfold and_out. msteps. rewrite set_wanted_eq by done.
    cbn [fst]. by destruct (_ =? _)%nat.
Qed.

Lemma agrees_run_all ops : forall pm i c,
  pm_ok pm -> ops_ok pm ops -> Forall (honest i c) ops -> Z.of_nat (length c) = psize pm i ->
  (forall p, row pm i = Some p -> agrees c p) ->
  forall k b data d, ops !! k = Some (OpReceive i b data) ->
    snd (run_all ops pm) !! k = Some (Ok (Received (Completed d))) -> d = c.
Proof.
  induction ops as [|op ops IH]; intros pm i c Hpm Hops Hh Hc Hag k b data d; [done|].
  destruct Hops as [Hop Hops]. apply list.Forall_cons in Hh as [Hh1 Hh].
  destruct (agrees_run pm op i c Hpm Hop Hh1 Hc Hag) as [Hag' Hd].
  pose proof (run_psize pm op i Hpm Hop) as Hps.
  destruct (run_ok pm op Hpm Hop) as (Hpm' & _ & _).
  cbn [run_all]. destruct (run op pm) as [pm1 r]. cbn [fst snd] in *.
  destruct (run_all ops pm1) as [pm2 rs] eqn:E. cbn [snd].
  destruct k as [|k]; cbn.
  - intros [= ->] [= ->]. by eapply Hd.
  - intros Hk Hrs. eapply (IH pm1 i c Hpm' Hops Hh ltac:(lia) Hag' k b data d Hk). by rewrite E.
Qed.

(** C3: assembly.  Start a manager for any geometry and run any history of calls in
    contract: reservations, releases, resets, completions, and blocks of every
    piece from any peers in any order, with duplicates.  If the blocks that
    were sent for piece [i] carry the bytes of its content [c], then whenever a block
    completes the piece, the bytes handed to the verifier are exactly [c]. *)
Theorem assembly_correct pl tl n pm0 ops i c :
  geom_ok pl tl n = true -> new pl tl n = Ok pm0 ->
  ops_ok pm0 ops -> Forall (honest i c) ops -> Z.of_nat (length c) = psize pm0 i ->
  forall k b data d, ops !! k = Some (OpReceive i b data) ->
    snd (run_all ops pm0) !! k = Some (Ok (Received (Completed d))) -> d = c.
Proof.
  intros G Hnew Hops Hh Hc.
  destruct (new_eq pl tl n G) as (pm & E & Hpm & Hn & _ & _ & Hrow). rewrite Hnew in E.
  injection E as <-. apply agrees_run_all; try done. intros p Hr k buf Hb.
  destruct (pm_ok_row _ _ _ Hpm Hr) as [Hi _].
  rewrite Hrow in Hr by lia.
  by simplify_eq/=.
Qed.

(** ** Delivery completes a piece *)

Definition block_op (i : nat) (size : Z) (c : bytes) (b : nat) : Op :=
  OpReceive i (Z.of_nat b * BLOCK_SIZE)
    (slice c (Z.to_nat (Z.of_nat b * BLOCK_SIZE)) (Z.to_nat (blen size b))).

Lemma block_data size (c : bytes) b : 0 < size -> Z.of_nat (length c) = size -> (b < nblocks size)%nat ->
  Z.of_nat (length (slice c (Z.to_nat (Z.of_nat b * BLOCK_SIZE)) (Z.to_nat (blen size b)))) = blen size b.
Proof.
  intros Hs Hc Hb. pose proof (blen_range size b Hb Hs).
  pose proof (proj1 (nblocks_spec size b Hs) Hb).
  rewrite length_slice; [lia|]. unfold blen, sat_sub, BLOCK_SIZE in *. lia.
Qed.

Lemma a_receive_new size (c : bytes) b p :
  0 < size -> Z.of_nat (length c) = size -> (b < nblocks size)%nat -> piece_ok size p = true ->
  p_state p <> Complete -> p_rec p !! b = Some false ->
  exists p' r, a_receive size (Z.of_nat b * BLOCK_SIZE)
     (slice c (Z.to_nat (Z.of_nat b * BLOCK_SIZE)) (Z.to_nat (blen size b))) p = (p', r) /\
    p_state p' = InProgress /\ p_rec p' = <[b := true]> (p_rec p) /\
    (forallb id (p_rec p') = false /\ r = Ok Stored \/
     forallb id (p_rec p') = true /\ exists d, r = Ok (Completed d)).
Proof.
  intros Hs Hc Hb Hok Hn Hrec. set (data := slice _ _ _).
  destruct (a_receive size (Z.of_nat b * BLOCK_SIZE) data p) as [p' r] eqn:E.
  exists p', r. split; [done|].
  assert (p_rec (a_start size p) = p_rec p) as Hst by (unfold a_start; by destruct (p_state p)).
  pose proof (block_data size c b Hs Hc Hb) as Hd. fold data in Hd.
  destruct (a_receive_cases size Hs (Z.of_nat b * BLOCK_SIZE) data p p' r Hok ltac:(unfold BLOCK_SIZE; lia) E)
    as [[_ [e ->]]|[[-> _]|(buf & b' & Hm & _ & Hacc & Hr & _)]].
  3:{ replace b' with b in * by (unfold BLOCK_SIZE in Hm; lia).
      destruct Hacc as (_ & _ & _ & _ & _ & Hr' & Hst'). rewrite Hst in Hr'.
      split_and!; try done. destruct Hr as [(? & _ & ->)|(? & _ & ->)]; eauto. }
  all: exfalso; revert E; unfold a_receive.
  all: assert (forall T (x y : T), match p_state p with Complete => x | _ => y end = y) as ->
    by (by destruct (p_state p)).
  all: replace (Z.of_nat b * BLOCK_SIZE / BLOCK_SIZE) with (Z.of_nat b) by (unfold BLOCK_SIZE; rewrite Z.div_mul; lia).
  all: replace (Z.of_nat b * BLOCK_SIZE mod BLOCK_SIZE) with 0 by (unfold BLOCK_SIZE; rewrite Z.mod_mul; lia).
  all: rewrite Nat2Z.id, Hd, !Z.eqb_refl; cbn [negb].
  all: destruct (Nat.leb_spec (nblocks size) b); [lia|].
  all: rewrite Hst, Hrec.
  all: destruct (p_buf (a_start size p)) as [buf|] eqn:Hbuf;
    [destruct (forallb _ _); intros [=]|].
  all: apply (a_start_ok _ Hs), piece_okE in Hok as (_ & _ & Hok).
  all: rewrite a_start_state, Hbuf, Hst in Hok by done; destruct Hok as [_ Hok]; cbn beta iota in Hok;
    rewrite forallb_lookup in Hok; by specialize (Hok _ _ Hrec).
Qed.

(** The received bits while the blocks [l] are still to come. *)
Definition awaiting (n : nat) (l : list nat) (rec : list bool) : Prop :=
  forall b, (b < n)%nat -> rec !! b = Some (bool_decide (b ∉ l)).

Lemma awaiting_insert n l rec b : length rec = n -> b ∉ l ->
  awaiting n (b :: l) rec -> awaiting n l (<[b := true]> rec).
Proof.
  intros Hl Hb H b0 Hb0. destruct (decide (b0 = b)) as [->|Hne'].
  - rewrite list_lookup_insert_eq by lia. by rewrite bool_decide_eq_true_2.
  - rewrite list_lookup_insert_ne by done. rewrite H by done. f_equal.
    apply bool_decide_ext. by rewrite not_elem_of_cons; intuition.
Qed.

Lemma awaiting_all n l rec : length rec = n -> (forall b, b ∈ l -> (b < n)%nat) ->
  awaiting n l rec -> forallb id rec = bool_decide (l = []).
Proof.
  intros Hl Hin Hrec. apply eq_bool_prop_intro.
  rewrite !Is_true_true, forallb_lookup, bool_decide_eq_true. split.
  - intros H. destruct l as [|b0 l]; [done|]. exfalso.
    assert (b0 < n)%nat as Hb0 by (apply Hin; by left).
    specialize (H _ _ (Hrec b0 Hb0)). apply bool_decide_eq_true in H. apply H. by left.
  - intros -> b0 x Hx. assert (b0 < n)%nat as Hb0 by (rewrite <- Hl; by eapply lookup_lt_Some).
    rewrite Hrec in Hx by done. simplify_eq. apply bool_decide_eq_true. by apply not_elem_of_nil.
Qed.

Lemma deliver_rest i c l : forall pm p,
  pm_ok pm -> row pm i = Some p -> p_state p <> Complete -> Z.of_nat (length c) = psize pm i ->
  agrees c p -> NoDup l -> l <> [] ->
  awaiting (nblocks (psize pm i)) l (p_rec p) ->
  (forall b, b ∈ l -> (b < nblocks (psize pm i))%nat) ->
  snd (run_all (block_op i (psize pm i) c <$> l) pm) =
  replicate (length l - 1) (Ok (Received Stored)) ++ [Ok (Received (Completed c))].
Proof.
  induction l as [|b l IH]; intros pm p Hpm Hr Hn Hc Hag Hnd Hne Hrec Hin; [done|].
  destruct (pm_ok_row _ _ _ Hpm Hr) as [Hi Hok].
  pose proof (psize_range pm (proj1 Hpm) i) as [Hs Hs']. apply list.NoDup_cons in Hnd as [Hnb Hnd].
  assert (b < nblocks (psize pm i))%nat as Hb by (apply Hin; by left).
  assert (p_rec p !! b = Some false) as Hpb.
  { rewrite Hrec by done. f_equal. apply bool_decide_eq_false. intros H. apply H. by left. }
  destruct (a_receive_new _ c b p Hs Hc Hb Hok Hn Hpb) as (p' & r & E & Hst & Hrec' & Hres).
  assert (op_ok pm (block_op i (psize pm i) c b)) as Hop.
  { cbn. apply nblocks_spec in Hb; [|done]. unfold BLOCK_SIZE in *. lia. }
  cbn [fmap list_fmap run_all].
  pose proof (run_ok pm _ Hpm Hop) as (Hpm' & _ & _).
  rewrite (run_piece _ _ _ _ Hpm Hop eq_refl Hr) in Hpm' |- *. cbn [fst] in Hpm'.
  cbn [block_op a_run] in Hpm' |- *. rewrite E in Hpm' |- *. cbn [fst snd] in Hpm' |- *.
  assert (data_ok : slice c (Z.to_nat (Z.of_nat b * BLOCK_SIZE)) (Z.to_nat (blen (psize pm i) b)) =
    slice c (Z.to_nat (Z.of_nat b * BLOCK_SIZE)) (length
      (slice c (Z.to_nat (Z.of_nat b * BLOCK_SIZE)) (Z.to_nat (blen (psize pm i) b))))).
  { f_equal. pose proof (block_data (psize pm i) c b Hs Hc Hb). lia. }
  destruct (agrees_receive _ Hs c _ _ p p' r Hok (proj1 Hop) Hag Hc data_ok E) as [Hag' Hd].
  assert (length (p_rec p) = nblocks (psize pm i)) as Hl by (by apply piece_okE in Hok as (_ & ? & _)).
  pose proof (awaiting_insert _ l _ b Hl Hnb Hrec) as Hrec2. rewrite <- Hrec' in Hrec2.
  assert (forallb id (p_rec p') = bool_decide (l = [])) as Hall.
  { eapply awaiting_all; [|intros b0 Hb0; apply Hin; by right|exact Hrec2]. by rewrite Hrec', length_insert. }
  rewrite Hall in Hres.
  destruct (decide (l = [])) as [->|Hl0].
  - destruct Hres as [[? _]|[_ [d ->]]]; [done|]. cbn. by rewrite (Hd d).
  - destruct Hres as [[_ ->]|[Hf _]]; [|by apply bool_decide_eq_true in Hf].
    specialize (IH (put pm i p') p' Hpm' (row_put pm i (proj1 (proj2 Hpm)) Hi p') ltac:(by rewrite Hst)
      Hc Hag' Hnd Hl0 Hrec2 (fun b0 H => Hin b0 (list_elem_of_further b0 b l H))).
    change (psize (put pm i p') i) with (psize pm i) in IH.
    destruct (run_all (block_op i (psize pm i) c <$> l) (put pm i p')) as [pm2 rs].
    cbn [snd] in IH |- *. rewrite IH. destruct l; [done|]. cbn. by rewrite Nat.sub_0_r.
Qed.

(** Delivery.  From a missing piece, sending each of its blocks once, in any
    order, stores every block but the last and completes the piece with the last one:
    the outcomes are [Stored] for all blocks but the final, which returns the
    whole content. *)
Lemma delivery_completes pm i p c order :
  pm_ok pm -> row pm i = Some p -> p_state p = Missing ->
  Z.of_nat (length c) = psize pm i -> order ≡ₚ seq 0 (nblocks (psize pm i)) ->
  snd (run_all (block_op i (psize pm i) c <$> order) pm) =
  replicate (length order - 1) (Ok (Received Stored)) ++ [Ok (Received (Completed c))].
Proof.
  intros Hpm Hr Hst Hc Hperm. destruct (pm_ok_row _ _ _ Hpm Hr) as [Hi Hok].
  pose proof (psize_range pm (proj1 Hpm) i) as [Hs _].
  apply piece_okE in Hok as (_ & Hl & Hok). rewrite Hst in Hok. destruct Hok as (_ & Hbuf & Hno).
  apply (deliver_rest i c order pm p); try done.
  - by rewrite Hst.
  - intros k buf. by rewrite Hbuf.
  - rewrite Hperm. apply NoDup_seq.
  - intros ->. apply Permutation_nil_l in Hperm. pose proof (nblocks_pos _ Hs).
    destruct (nblocks (psize pm i)); [lia|done].
  - intros b Hb. destruct (lookup_lt_is_Some_2 (p_rec p) b ltac:(lia)) as [x Hx].
    rewrite Hx. f_equal. rewrite bool_decide_eq_false_2.
    + destruct x; [|done]. by apply Hno in Hx.
    + intros H. apply H. rewrite Hperm. apply elem_of_seq. lia.
  - intros b Hb. rewrite Hperm in Hb. apply elem_of_seq in Hb. lia.
Qed.

Lemma position_zip (q c : list bool) b :
  length q = length c ->
  position (fun '(q, c) => negb q && negb c) (zip q c) = Some b ->
  q !! b = Some false /\ c !! b = Some false /\
  forall b', (b' < b)%nat -> q !! b' = Some true \/ c !! b' = Some true.
Proof.
  intros Hl H. apply position_Some in H as ([x y] & Hx & Hp & Hall).
  apply lookup_zip_with_Some in Hx as (x' & y' & [= -> ->] & Hq & Hc).
  bools. subst. split_and!; try done. intros b' Hb'.
  apply lookup_lt_Some in Hq as Hlt.
  destruct (lookup_lt_is_Some_2 q b') as [x Hx]; [lia|].
  destruct (lookup_lt_is_Some_2 c b') as [y Hy]; [lia|].
  rewrite forallb_Forall_iff, Forall_lookup in Hall.
  assert (negb (negb x && negb y) = true) as E.
  { apply (Hall b' (x, y)). rewrite lookup_take_lt by done. by rewrite lookup_zip_with, Hx, Hy. }
  rewrite Hx, Hy. destruct x, y; simpl in E; try done; auto.
Qed.

Lemma position_zip_None (q c : list bool) b :
  length q = length c -> (b < length q)%nat ->
  position (fun '(q, c) => negb q && negb c) (zip q c) = None ->
  q !! b = Some true \/ c !! b = Some true.
Proof.
  intros Hl Hb H. apply position_None in H. rewrite forallb_Forall_iff, Forall_lookup in H.
  destruct (lookup_lt_is_Some_2 q b) as [x Hx]; [lia|].
  destruct (lookup_lt_is_Some_2 c b) as [y Hy]; [lia|].
  specialize (H b (x, y)). rewrite lookup_zip_with, Hx, Hy in H. specialize (H eq_refl).
  rewrite Hx, Hy. destruct x, y; simpl in H; try done; auto.
Qed.

(** Reservation.  [reserve_block] on a piece that is not complete always
    answers: with the lowest block that is neither in flight nor received (its offset and
    length, inside the piece and at most [BLOCK_SIZE] long), which it marks
    in flight, so that the next call cannot give it out again; or with
    [None], exactly when every block is in flight or received. *)
Lemma reserve_block_lowest pm i p :
  pm_ok pm -> row pm i = Some p -> p_state p <> Complete ->
  exists p' o, reserve_block i pm = (put pm i p', Ok o) /\
  p_rec p' = p_rec p /\
  match o with
  | Some (begin, len) => exists b,
      begin = Z.of_nat b * BLOCK_SIZE /\ 0 < len <= BLOCK_SIZE /\ begin + len <= psize pm i /\
      p_req p !! b = Some false /\ p_rec p !! b = Some false /\
      (forall b', (b' < b)%nat -> p_req p !! b' = Some true \/ p_rec p !! b' = Some true) /\
      p_req p' = <[b := true]> (p_req p)
  | None => forall b, (b < nblocks (psize pm i))%nat -> p_req p !! b = Some true \/ p_rec p !! b = Some true
  end.
Proof.
  intros Hpm Hr Hn. destruct (pm_ok_row _ _ _ Hpm Hr) as [Hi Hok].
  destruct (psize_range pm (proj1 Hpm) i) as [Hs _]. destruct (piece_ok_bits pm i p Hok) as [Hq Hc].
  destruct Hpm as (G & L & _). pose proof (reserve_block_put pm i G L Hi p (conj Hq Hc)) as Hrun.
  rewrite (put_row pm i p Hr) in Hrun. rewrite Hrun. clear Hrun.
  set (size := psize pm i) in *.
  assert (p_req (a_start size p) = p_req p /\ p_rec (a_start size p) = p_rec p) as [Eq Ec]
    by (unfold a_start; by destruct (p_state p)).
  unfold a_reserve.
  assert (forall T (x y : T), match p_state p with Complete => x | _ => y end = y) as ->
    by (by destruct (p_state p)).
  unfold free_block. rewrite Eq, Ec.
  destruct (position _ _) as [b|] eqn:E; cbn [fst snd]; do 2 eexists; (split; [done|]); (split; [done|]).
  - apply position_zip in E as (H1 & H2 & H3); [|lia]. exists b.
    apply lookup_lt_Some in H1 as Hb. rewrite Hq in Hb. pose proof (blen_range size b Hb Hs).
    apply nblocks_spec in Hb; [|done].
    split_and!; try done; try lia. unfold blen, sat_sub, BLOCK_SIZE in *. lia.
  - intros b Hb. apply position_zip_None; [lia|lia|done].
Qed.

(** ** Progress counters *)

Lemma scan_bits_eq f pm : forall n i,
  (i + n <= length (wanted pm))%nat -> (i + n <= length (local pm))%nat ->
  scan_bits f pm i n = Ok (zip_with f (slice (wanted pm) i n) (slice (local pm) i n)).
Proof.
  induction n as [|n IH]; intros i Hw Hl; [done|]. cbn [scan_bits].
  destruct (index_lt_Some (wanted pm) i) as (w & Ew & ->); [lia|].
  destruct (index_lt_Some (local pm) i) as (l & El & ->); [lia|].
  cbn [mbind result_bind]. rewrite IH by lia. cbn [mbind result_bind].
  unfold slice. by rewrite (drop_S _ _ _ Ew), (drop_S _ _ _ El).
Qed.

Lemma scan_all f pm : pm_ok pm -> scan_bits f pm 0 (num_pieces pm) = Ok (zip_with f (wanted pm) (local pm)).
Proof.
  intros (_ & L & _). destruct L as (_ & _ & _ & _ & L1 & L2).
  rewrite scan_bits_eq by lia. by rewrite !slice_all by lia.
Qed.

Lemma count_split (w l : list bool) : length w = length l ->
  (count_ones (zip_with (fun w l => w && l) w l) + count_ones (zip_with (fun w l => w && negb l) w l) =
   count_ones w)%nat /\
  forallb id (zip_with (fun w l => negb w || l) w l) =
  (count_ones (zip_with (fun w l => w && negb l) w l) =? 0)%nat.
Proof.
  revert l. induction w as [|x w IH]; intros [|y l] H; try done.
  destruct (IH l) as [E1 E2]; [by injection H|]. cbn [zip_with forallb id].
  rewrite E2. destruct x, y; cbn; rewrite <- ?E1; split; try done; lia.
Qed.

(** Progress.  The counters never fail and are consistent: the wanted pieces
    that are complete and the missing ones add up to the wanted ones, and [is_complete]
    holds exactly when none is missing. *)
Lemma progress_counters pm :
  pm_ok pm ->
  exists done_ missing, wanted_complete_count pm = Ok done_ /\ missing_count pm = Ok missing /\
    (done_ + missing = wanted_count pm)%nat /\ is_complete pm = Ok (missing =? 0)%nat.
Proof.
  intros Hpm. unfold wanted_complete_count, missing_count, is_complete, wanted_count.
  rewrite !scan_all by done. do 2 eexists. do 2 (split; [done|]).
  destruct Hpm as (_ & (_ & _ & _ & _ & L1 & L2) & _).
  destruct (count_split (wanted pm) (local pm)) as [E1 E2]; [congruence|]. split; [done|].
  cbn. by rewrite E2.
Qed.

(** ** The blocks tile the pieces and the pieces tile the torrent *)

Fixpoint sumZ (f : nat -> Z) (n : nat) : Z :=
  match n with O => 0 | S n' => sumZ f n' + f n' end.

Lemma sum_blocks size n : 0 < size -> sumZ (blen size) n = Z.min size (Z.of_nat n * BLOCK_SIZE).
Proof.
  intros Hs. induction n as [|n IH]; cbn [sumZ]; [unfold BLOCK_SIZE; lia|].
  rewrite IH. unfold blen, sat_sub, BLOCK_SIZE. lia.
Qed.

Lemma sum_const f c n : (forall i, (i < n)%nat -> f i = c) -> sumZ f n = Z.of_nat n * c.
Proof.
  induction n as [|n IH]; intros H; cbn [sumZ]; [done|].
  rewrite IH, H by (intros; try apply H; lia). lia.
Qed.

(** Geometry.  The block lengths of a piece add up to its size, and when the
    number of pieces is the one the torrent's length calls for, the piece sizes
    add up to the total length: requests cover every byte of the torrent once. *)
Lemma geometry_covers pm :
  geometry pm -> 0 < total_length pm ->
  Z.of_nat (num_pieces pm) = div_ceil (total_length pm) (piece_length pm) ->
  (forall i, sumZ (blen (psize pm i)) (nblocks (psize pm i)) = psize pm i) /\
  sumZ (psize pm) (num_pieces pm) = total_length pm.
Proof.
  intros G Ht Hn. pose proof (geom_facts pm G) as (Hp & _ & Hnp & _). split.
  - intros i. destruct (psize_range pm G i) as [Hs _]. rewrite sum_blocks by done.
    pose proof (nblocks_spec (psize pm i) (nblocks (psize pm i)) Hs). lia.
  - destruct (num_pieces pm) as [|n] eqn:E; [lia|]. cbn [sumZ].
    rewrite (sum_const _ (piece_length pm)).
    2:{ intros i Hi. unfold psize. rewrite E. by destruct (Nat.eqb_spec (S i) (S n)); [lia|]. }
    unfold psize. rewrite E, Nat.eqb_refl. cbn zeta. unfold div_ceil in Hn.
    pose proof (Z.div_mod (total_length pm) (piece_length pm) ltac:(lia)) as Hdm.
    destruct (Z.eqb_spec (total_length pm mod piece_length pm) 0) as [H0|H0]; nia.
Qed.

(** ** Witnesses: two pieces of 16386 and 3614 bytes *)

Lemma new_ok pl tl n pm : geom_ok pl tl n = true -> new pl tl n = Ok pm -> pm_ok pm.
Proof. intros G H. destruct (new_eq pl tl n G) as (pm' & E & Hpm & _). congruence. Qed.

Definition pm_ex : PieceManager :=
  mkPM 16386 20000 2 [Missing; Missing] [[false; false]; [false]] [[false; false]; [false]]
    [None; None] [false; false] [true; true].
Definition row_ex : Piece := mkPiece Missing [false; false] [false; false] None false.
Definition content_ex : bytes := replicate (Z.to_nat 16386) "a"%byte.

Lemma pm_ex_new : new 16386 20000 2 = Ok pm_ex.
Proof. vm_compute. reflexivity. Qed.
Lemma pm_ex_ok : pm_ok pm_ex.
Proof. apply (new_ok 16386 20000 2); vm_compute; reflexivity. Qed.

Lemma manager_refines_witness :
  pm_ok (fst (run (OpReceive 0 16384 (bs "zz")) pm_ex)) /\
  returns (snd (run (OpReceive 0 16384 (bs "zz")) pm_ex)) = true /\
  run (OpReceive 0 16384 (bs "zz")) pm_ex =
  (put pm_ex 0 (fst (a_run (psize pm_ex 0) (OpReceive 0 16384 (bs "zz")) row_ex)),
   snd (a_run (psize pm_ex 0) (OpReceive 0 16384 (bs "zz")) row_ex)).
Proof. apply manager_refines; [apply pm_ex_ok|cbn; lia|reflexivity|reflexivity]. Defined.

Lemma manager_invariant_witness :
  pm_ok (fst (run (OpReceive 9 77 (bs "hostile")) pm_ex)) /\
  returns (snd (run (OpReceive 9 77 (bs "hostile")) pm_ex)) = true.
Proof. apply manager_invariant; [apply pm_ex_ok|cbn; lia]. Defined.

Definition pm_small : PieceManager :=
  mkPM 4 6 2 [Missing; Missing] [[false]; [false]] [[false]; [false]]
    [None; None] [false; false] [true; true].
Definition ops_ex : list Op :=
  [OpReserve 0; OpReceive 1 0 (bs "xy"); OpReceive 0 3 (bs "d"); OpReceive 0 0 (bs "abcd")].

Lemma assembly_correct_witness :
  exists d, snd (run_all ops_ex pm_small) !! 3%nat = Some (Ok (Received (Completed d))) /\ d = bs "abcd".
Proof.
  exists (bs "abcd"). split; [vm_compute; reflexivity|].
  apply (assembly_correct 4 6 2 pm_small ops_ex 0 (bs "abcd")) with (k := 3%nat) (b := 0) (data := bs "abcd");
    [vm_compute; reflexivity|vm_compute; reflexivity| | |vm_compute; reflexivity..].
  - cbn. lia.
  - repeat constructor; cbn; intros; try done; vm_compute; reflexivity.
Defined.

Lemma delivery_completes_witness :
  snd (run_all (block_op 0 (psize pm_ex 0) content_ex <$> [1; 0]%nat) pm_ex) =
  [Ok (Received Stored); Ok (Received (Completed content_ex))].
Proof.
  apply (delivery_completes pm_ex 0 row_ex content_ex [1; 0]%nat);
    [apply pm_ex_ok|reflexivity|reflexivity|vm_compute; reflexivity|].
  replace (nblocks (psize pm_ex 0)) with 2%nat by (vm_compute; reflexivity). apply perm_swap.
Defined.

Lemma reserve_block_lowest_witness :
  exists p' o, reserve_block 0 pm_ex = (put pm_ex 0 p', Ok o) /\
  p_rec p' = p_rec row_ex /\
  match o with
  | Some (begin, len) => exists b,
      begin = Z.of_nat b * BLOCK_SIZE /\ 0 < len <= BLOCK_SIZE /\ begin + len <= psize pm_ex 0 /\
      p_req row_ex !! b = Some false /\ p_rec row_ex !! b = Some false /\
      (forall b', (b' < b)%nat -> p_req row_ex !! b' = Some true \/ p_rec row_ex !! b' = Some true) /\
      p_req p' = <[b := true]> (p_req row_ex)
  | None => forall b, (b < nblocks (psize pm_ex 0))%nat ->
      p_req row_ex !! b = Some true \/ p_rec row_ex !! b = Some true
  end.
Proof. apply reserve_block_lowest; [apply pm_ex_ok|reflexivity|discriminate]. Defined.

Lemma progress_counters_witness :
  exists done_ missing, wanted_complete_count pm_ex = Ok done_ /\ missing_count pm_ex = Ok missing /\
    (done_ + missing = wanted_count pm_ex)%nat /\ is_complete pm_ex = Ok (missing =? 0)%nat.
Proof. apply progress_counters, pm_ex_ok. Defined.

Lemma geometry_covers_witness :
  (forall i, sumZ (blen (psize pm_ex i)) (nblocks (psize pm_ex i)) = psize pm_ex i) /\
  sumZ (psize pm_ex) 2 = 20000.
Proof. apply geometry_covers; vm_compute; reflexivity. Defined.
