(* ===== verification/Picker.v ===== *)
(** * The piece picker: [src/src/piece/picker.rs] and [src/src/piece/verifier.rs]

    [Picker] is the record of the source, over any type of peer addresses: the
    source uses [SocketAddr] only as a hash key.  The shuffle of
    the rarest pieces (the [rand] crate) is an argument of [pick_for]. *)

From Stdlib Require Import ZArith Lia String Strings.Byte.
From stdpp Require Import base tactics numbers list option gmap.
From S2P Require Import Prelude PeerWire Pieces.

(** [verify_piece], over the digest function of the [sha1] crate. *)
Definition verify_piece (sha1 : bytes -> bytes) (data expected : bytes) : bool :=
  bytes_eqb (sha1 data) expected.

Section Picker.
Context {Addr : Type} `{Countable Addr}.

Record Picker := mkPicker {
  pk_num_pieces : nat;
  peer_bitfields : gmap Addr (list bool);
  availability : list Z;
  assigned : gmap Addr nat;
  sequential : bool
}.

Definition with_bitfields x pk :=
  mkPicker (pk_num_pieces pk) x (availability pk) (assigned pk) (sequential pk).
Definition with_availability x pk :=
  mkPicker (pk_num_pieces pk) (peer_bitfields pk) x (assigned pk) (sequential pk).
Definition with_assigned x pk :=
  mkPicker (pk_num_pieces pk) (peer_bitfields pk) (availability pk) x (sequential pk).

Definition new_picker (num_pieces : nat) : Picker :=
  mkPicker num_pieces ∅ (replicate num_pieces 0) ∅ false.

Definition set_sequential (on : bool) (pk : Picker) : Picker :=
  mkPicker (pk_num_pieces pk) (peer_bitfields pk) (availability pk) (assigned pk) on.

(** The loop [for i in i..i+k { if bf[i] { availability[i] = f(availability[i]) } }]. *)
Fixpoint bump (f : Z -> Z) (bf : list bool) (av : list Z) (i k : nat) : result (list Z) :=
  match k with
  | O => Ok av
  | S k' =>
      b ← index bf i;
      av ← (if b : bool then a ← index av i; set_index av i (f a) else Ok av);
      bump f bf av (S i) k'
  end.

Definition dec_one (a : Z) : Z := sat_sub a 1.
Definition inc_one (a : Z) : Z := sat_add 32 a 1.

(** Remove the bitfield of [addr] with its contributions. *)
Definition drop_bitfield (addr : Addr) : M Picker unit :=
  m ← gets peer_bitfields;
  match m !! addr with
  | Some old =>
      _ ← modify (with_bitfields (delete addr m));
      n ← gets pk_num_pieces;
      av ← reads (fun pk => bump dec_one old (availability pk) 0 (Nat.min n (length old)));
      modify (with_availability av)
  | None => mret tt
  end.

Definition set_peer_bitfield (addr : Addr) (bf : list bool) : M Picker unit :=
  _ ← drop_bitfield addr;
  n ← gets pk_num_pieces;
  av ← reads (fun pk => bump inc_one bf (availability pk) 0 (Nat.min n (length bf)));
  _ ← modify (with_availability av);
  m ← gets peer_bitfields;
  modify (with_bitfields (<[addr := bf]> m)).

Definition peer_has (pk : Picker) (addr : Addr) (i : nat) : bool :=
  match peer_bitfields pk !! addr with
  | Some bf => if (i <? length bf)%nat then default false (bf !! i) else false
  | None => false
  end.

(** [bits.resize(n, false)] on a shorter vector. *)
Definition resize_bits (bf : list bool) (n : nat) : list bool :=
  bf ++ replicate (n - length bf) false.

Definition add_have (addr : Addr) (i : nat) : M Picker unit :=
  n ← gets pk_num_pieces;
  if (n <=? i)%nat then mret tt
  else
    m ← gets peer_bitfields;
    let bf := default (replicate n false) (m !! addr) in
    let bf := if (length bf <? n)%nat then resize_bits bf n else bf in
    _ ← modify (with_bitfields (<[addr := bf]> m));
    b ← lift (index bf i);
    if negb b then
      bf ← lift (set_index bf i true);
      _ ← modify (with_bitfields (<[addr := bf]> m));
      a ← reads (fun pk => index (availability pk) i);
      av ← reads (fun pk => set_index (availability pk) i (sat_add 32 a 1));
      modify (with_availability av)
    else mret tt.

Definition forget_peer (addr : Addr) : M Picker unit :=
  _ ← drop_bitfield addr;
  a ← gets assigned;
  modify (with_assigned (delete addr a)).

Definition assignment (pk : Picker) (addr : Addr) : option nat := assigned pk !! addr.

Definition release_assignment (addr : Addr) : M Picker unit :=
  a ← gets assigned; modify (with_assigned (delete addr a)).

Definition clear_assignment_if (addr : Addr) (i : nat) : M Picker unit :=
  a ← gets assigned;
  match a !! addr with
  | Some cur => if (cur =? i)%nat then modify (with_assigned (delete addr a)) else mret tt
  | None => mret tt
  end.

(** [in_use.contains(&i)]: some peer is assigned to [i]. *)
Definition in_use (a : gmap Addr nat) (i : nat) : bool :=
  existsb (fun '(_, j) => (j =? i)%nat) (map_to_list a).

(** The closure [usable]; [&&] stops at the first false operand. *)
Definition usable (a : gmap Addr nat) (bf : list bool) (pm : PieceManager) (endgame : bool) (i : nat)
  : result bool :=
  if negb (i <? length bf)%nat then Ok false
  else
    b ← index bf i;
    if negb b then Ok false
    else
      st ← state pm i;
      Ok (negb (bool_decide (st = Complete)) && is_wanted pm i && (endgame || negb (in_use a i))).

(** [(i..i+k).find(usable)] *)
Fixpoint find_from (u : nat -> result bool) (i k : nat) : result (option nat) :=
  match k with
  | O => Ok None
  | S k' => b ← u i; if b : bool then Ok (Some i) else find_from u (S i) k'
  end.

(** The rarest-first pass over [i..i+k] with its [min_av] and [ties]. *)
Fixpoint rarest (u : nat -> result bool) (av : list Z) (min_av : Z) (ties : list nat) (i k : nat)
  : result (list nat) :=
  match k with
  | O => Ok ties
  | S k' =>
      b ← u i;
      if negb b then rarest u av min_av ties (S i) k'
      else
        a ← index av i;
        if a <? min_av then rarest u av a [i] (S i) k'
        else if a =? min_av then rarest u av min_av (ties ++ [i]) (S i) k'
        else rarest u av min_av ties (S i) k'
  end.

Definition pick_for (shuffle : list nat -> list nat) (addr : Addr) (pm : PieceManager) (endgame : bool)
  : M Picker (option nat) :=
  a ← gets assigned;
  keep ← lift (match a !! addr with
               | Some i =>
                   st ← state pm i;
                   Ok (if negb (bool_decide (st = Complete)) && is_wanted pm i then Some i else None)
               | None => Ok None
               end);
  match keep with
  | Some i => mret (Some i)
  | None =>
      m ← gets peer_bitfields;
      match m !! addr with
      | None => mret None
      | Some bf =>
          n ← gets pk_num_pieces;
          seq ← gets sequential;
          av ← gets availability;
          let u := usable a bf pm endgame in
          chosen ← lift (if seq : bool then find_from u 0 n
                         else ties ← rarest u av (umax 32) [] 0 n; Ok (head (shuffle ties)));
          match chosen with
          | None => mret None
          | Some i => _ ← modify (with_assigned (<[addr := i]> a)); mret (Some i)
          end
      end
  end.

End Picker.
Arguments Picker Addr {_ _}.

Section Props.
Context {Addr : Type} `{Countable Addr}.
Implicit Types (pk : Picker Addr) (m : gmap Addr (list bool)).

(** How many peers advertise piece [i]. *)
Definition peers_with m (i : nat) : nat := size (filter (fun kv => kv.2 !! i = Some true) m).

Lemma peers_with_le m i : (peers_with m i <= size m)%nat.
Proof. unfold peers_with. apply map_subseteq_size, map_filter_subseteq. Qed.

Lemma peers_with_delete m k bf i : m !! k = Some bf ->
  peers_with m i = (if default false (bf !! i) then S (peers_with (delete k m) i)
                    else peers_with (delete k m) i).
Proof.
  intros Hk. unfold peers_with.
  replace m with (<[k := bf]> (delete k m)) at 1 by (by rewrite insert_delete_eq, insert_id).
  destruct (bf !! i) as [[|]|] eqn:E; cbn [from_option id].
  - rewrite map_filter_insert_True by done. apply map_size_insert_None.
    apply map_lookup_filter_None. left. apply lookup_delete_eq.
  - rewrite map_filter_insert_False by (cbn; congruence). by rewrite delete_delete_eq.
  - rewrite map_filter_insert_False by (cbn; congruence). by rewrite delete_delete_eq.
Qed.

Lemma peers_with_insert m k bf i : m !! k = None ->
  peers_with (<[k := bf]> m) i = (if default false (bf !! i) then S (peers_with m i) else peers_with m i).
Proof.
  intros Hk. rewrite (peers_with_delete _ k bf) by apply lookup_insert_eq.
  by rewrite delete_insert_eq, delete_id.
Qed.

Lemma bump_spec f bf k : forall i av,
  (i + k <= length av)%nat -> (i + k <= length bf)%nat ->
  exists av', bump f bf av i k = Ok av' /\ length av' = length av /\
    forall j, av' !! j = (fun a => if bool_decide (i <= j < i + k)%nat && default false (bf !! j)
                                   then f a else a) <$> av !! j.
Proof.
  induction k as [|k IH]; intros i av Ha Hb.
  { exists av. split_and!; try done. intros j. rewrite bool_decide_eq_false_2 by lia.
    by destruct (av !! j). }
  cbn [bump]. destruct (index_lt_Some bf i) as (b & Eb & ->); [lia|]. cbn [mbind result_bind].
  destruct (index_lt_Some av i) as (a & Ea & Ia); [lia|].
  set (av1 := if b then <[i := f a]> av else av).
  assert ((if b then index av i ≫= fun a => set_index av i (f a) else Ok av) = Ok av1) as ->.
  { subst av1. destruct b; [|done]. rewrite Ia. cbn [mbind result_bind]. by rewrite set_index_Ok by lia. }
  assert (length av1 = length av) as L1 by (subst av1; destruct b; by rewrite ?length_insert).
  destruct (IH (S i) av1) as (av' & E & L & Hj); [lia|lia|]. cbn [mbind result_bind]. rewrite E.
  exists av'. split_and!; [done|lia|]. intros j. rewrite Hj. subst av1.
  destruct (decide (j = i)) as [->|Hne].
  - rewrite bool_decide_eq_false_2, bool_decide_eq_true_2 by lia. rewrite Eb. cbn [from_option id andb].
    destruct b; [rewrite list_lookup_insert_eq by lia|]; by rewrite Ea.
  - replace ((if b then <[i:=f a]> av else av) !! j) with (av !! j)
      by (destruct b; by rewrite ?list_lookup_insert_ne).
    destruct (av !! j); [|done]. cbn. by rewrite (bool_decide_ext (S i <= j < S i + k)%nat (i <= j < i + S k)%nat) by lia.
Qed.

(** The availability counters count the peers. *)
Definition counts pk : Prop :=
  length (availability pk) = pk_num_pieces pk /\
  forall i, (i < pk_num_pieces pk)%nat ->
    availability pk !! i = Some (Z.of_nat (peers_with (peer_bitfields pk) i)).

Lemma bump_all f bf av n : length av = n ->
  exists av', bump f bf av 0 (Nat.min n (length bf)) = Ok av' /\ length av' = n /\
    forall j, (j < n)%nat ->
      av' !! j = (fun a => if default false (bf !! j) then f a else a) <$> av !! j.
Proof.
  intros Hl. destruct (bump_spec f bf (Nat.min n (length bf)) 0 av) as (av' & E & L & Hj); [lia..|].
  exists av'. split_and!; [done|lia|]. intros j Hlt. rewrite Hj. destruct (av !! j); [|done].
  cbn. case_bool_decide; [done|]. by rewrite (lookup_ge_None_2 bf j) by lia.
Qed.

Lemma drop_bitfield_spec addr pk : counts pk ->
  exists av, drop_bitfield addr pk =
    (mkPicker (pk_num_pieces pk) (delete addr (peer_bitfields pk)) av (assigned pk) (sequential pk), Ok tt) /\
    length av = pk_num_pieces pk /\
    forall i, (i < pk_num_pieces pk)%nat ->
      av !! i = Some (Z.of_nat (peers_with (delete addr (peer_bitfields pk)) i)).
Proof.
  intros [Hl Hc]. unfold drop_bitfield. msteps.
  destruct (peer_bitfields pk !! addr) as [bf|] eqn:E.
  - destruct (bump_all dec_one bf (availability pk) _ Hl) as (av & Eb & L & Hj).
    cbn [availability with_bitfields pk_num_pieces]. rewrite Eb. cbn beta iota.
    exists av. split_and!; [done|done|]. intros i Hi. rewrite Hj, Hc by done. cbn. f_equal.
    rewrite (peers_with_delete _ _ _ i E). unfold dec_one, sat_sub. destruct (default false _); lia.
  - exists (availability pk). rewrite (delete_id _ _ E). split_and!; try done. by destruct pk.
Qed.

Definition few_peers pk : Prop := Z.of_nat (size (peer_bitfields pk)) < 2 ^ 32 - 1.

Lemma peers_with_small m i : Z.of_nat (size m) < 2 ^ 32 - 1 ->
  inc_one (Z.of_nat (peers_with m i)) = Z.of_nat (S (peers_with m i)).
Proof. intros Hs. pose proof (peers_with_le m i). unfold inc_one, sat_add, umax. lia. Qed.

Lemma set_peer_bitfield_counts addr bf pk : counts pk -> few_peers pk ->
  exists av, set_peer_bitfield addr bf pk =
    (mkPicker (pk_num_pieces pk) (<[addr := bf]> (peer_bitfields pk)) av (assigned pk) (sequential pk), Ok tt) /\
    counts (fst (set_peer_bitfield addr bf pk)).
Proof.
  intros Hc Hf. destruct (drop_bitfield_spec addr pk Hc) as (av & E & L & Hav).
  unfold set_peer_bitfield. msteps. rewrite E. cbn beta iota. cbn [pk_num_pieces availability].
  destruct (bump_all inc_one bf av _ L) as (av' & Eb & L' & Hj). rewrite Eb. cbn beta iota.
  cbn [fst with_bitfields with_availability peer_bitfields pk_num_pieces availability assigned sequential].
  rewrite insert_delete_eq. exists av'. split; [done|]. split; [done|].
  cbn [pk_num_pieces availability peer_bitfields]. intros i Hi. rewrite Hj, Hav by done. cbn. f_equal.
  rewrite <- insert_delete_eq, peers_with_insert by apply lookup_delete_eq.
  destruct (default false _); [|done]. apply peers_with_small.
  pose proof (map_subseteq_size _ _ (delete_subseteq (peer_bitfields pk) addr)). unfold few_peers in Hf. lia.
Qed.

Lemma forget_peer_counts addr pk : counts pk ->
  exists av, forget_peer addr pk =
    (mkPicker (pk_num_pieces pk) (delete addr (peer_bitfields pk)) av (delete addr (assigned pk)) (sequential pk), Ok tt) /\
    counts (fst (forget_peer addr pk)).
Proof.
  intros Hc. destruct (drop_bitfield_spec addr pk Hc) as (av & E & L & Hav).
  unfold forget_peer. msteps. rewrite E. cbn beta iota. exists av. split; [done|]. by split.
Qed.

(** [add_have] sets one bit of a row that is first brought to full length. *)
Definition have_row (n : nat) (o : option (list bool)) : list bool :=
  let bf := default (replicate n false) o in
  if (length bf <? n)%nat then resize_bits bf n else bf.

Lemma have_row_bits n o i :
  default false (have_row n o !! i) = default false (default [] o !! i) /\ (n <= length (have_row n o))%nat.
Proof.
  unfold have_row, resize_bits. destruct o as [bf|]; cbn [from_option id].
  - destruct (Nat.ltb_spec (length bf) n); [|by split; [|lia]]. split; [|rewrite length_app, length_replicate; lia].
    destruct (decide (i < length bf)%nat); [by rewrite lookup_app_l|].
    rewrite lookup_app_r, (lookup_ge_None_2 bf) by lia.
    destruct (replicate _ _ !! _) eqn:E; [|done]. by apply lookup_replicate in E as [-> _].
  - rewrite length_replicate. destruct (Nat.ltb_spec n n); [lia|]. rewrite length_replicate. split; [|done].
    destruct (replicate _ _ !! _) eqn:E; [|done]. by apply lookup_replicate in E as [-> _].
Qed.

Lemma peers_with_update m k bf i :
  peers_with (<[k := bf]> m) i =
  (if default false (bf !! i) then S (peers_with (delete k m) i) else peers_with (delete k m) i).
Proof. rewrite <- insert_delete_eq. apply peers_with_insert, lookup_delete_eq. Qed.

Lemma peers_with_split m k i :
  peers_with m i =
  (if default false (default [] (m !! k) !! i) then S (peers_with (delete k m) i) else peers_with (delete k m) i).
Proof.
  destruct (m !! k) as [bf|] eqn:E; cbn [from_option id]; [by apply peers_with_delete|].
  by rewrite delete_id.
Qed.

Lemma add_have_counts addr i pk : counts pk -> few_peers pk ->
  exists pk', add_have addr i pk = (pk', Ok tt) /\ counts pk' /\
    assigned pk' = assigned pk /\ sequential pk' = sequential pk /\ pk_num_pieces pk' = pk_num_pieces pk /\
    ((i < pk_num_pieces pk)%nat -> peer_has pk' addr i = true).
Proof.
  intros [Hl Hc] Hf. unfold add_have. msteps.
  destruct (Nat.leb_spec (pk_num_pieces pk) i) as [Hge|Hlt].
  { exists pk. split_and!; try done. lia. }
  set (m := peer_bitfields pk) in *. set (n := pk_num_pieces pk) in *.
  fold (have_row n (m !! addr)). set (bf := have_row n (m !! addr)).
  destruct (have_row_bits n (m !! addr) i) as [_ Hlen]. fold bf in Hlen.
  destruct (index_lt_Some bf i) as (b & Eb & ->); [lia|]. cbn beta iota.
  assert (forall x, Z.of_nat (peers_with m x) =
     Z.of_nat (peers_with (<[addr := bf]> m) x)) as Hsame.
  { intros x. rewrite peers_with_update, (peers_with_split m addr x). f_equal.
    pose proof (proj1 (have_row_bits n (m !! addr) x)) as E1. fold bf in E1. by rewrite E1. }
  destruct b; cbn [negb].
  - eexists. split_and!; [done|..]; try done.
    + split; [done|]. intros x Hx. cbn [peer_bitfields availability with_bitfields].
      rewrite <- Hsame. apply Hc, Hx.
    + intros _. unfold peer_has. cbn [with_bitfields with_availability peer_bitfields]. rewrite lookup_insert_eq.
      destruct (Nat.ltb_spec i (length bf)); [|lia]. by rewrite Eb.
  - rewrite set_index_Ok by lia. cbn beta iota. cbn [availability with_bitfields].
    rewrite (index_Some _ _ _ (Hc i Hlt)). cbn beta iota. rewrite set_index_Ok by lia. cbn beta iota.
    eexists. split_and!; [done|..]; try done.
    + split; [cbn; by rewrite length_insert|]. intros x Hx.
      cbn [peer_bitfields availability with_bitfields with_availability pk_num_pieces] in *.
      rewrite peers_with_update. destruct (decide (x = i)) as [->|Hne].
      * rewrite !list_lookup_insert_eq by (unfold n in *; lia). cbn. f_equal.
        fold (inc_one (Z.of_nat (peers_with m i))).
        rewrite peers_with_small by done.
        pose proof (Hsame i) as E1. rewrite peers_with_update, Eb in E1. cbn in E1. lia.
      * rewrite !list_lookup_insert_ne by done. rewrite Hc by done. f_equal.
        pose proof (Hsame x) as E1. rewrite peers_with_update in E1. done.
    + intros _. unfold peer_has. cbn [with_bitfields with_availability peer_bitfields]. rewrite lookup_insert_eq, length_insert.
      destruct (Nat.ltb_spec i (length bf)); [|lia]. by rewrite list_lookup_insert_eq by lia.
Qed.
(** A piece still worth fetching. *)
Definition needed (pm : PieceManager) (i : nat) : bool :=
  negb (bool_decide (states pm !! i = Some Complete)) && is_wanted pm i.

(** A piece [pick_for] may assign to [addr]. *)
Definition candidate pk (pm : PieceManager) (addr : Addr) (endgame : bool) (i : nat) : bool :=
  peer_has pk addr i && needed pm i && (endgame || negb (in_use (assigned pk) i)).

Lemma in_use_spec (a : gmap Addr nat) i : in_use a i = true <-> exists k, a !! k = Some i.
Proof.
  unfold in_use. rewrite existsb_exists. split.
  - intros ([k j] & Hin & E). apply Nat.eqb_eq in E as ->. exists k.
    by apply elem_of_map_to_list, list_elem_of_In.
  - intros [k Hk]. exists (k, i). split; [|apply Nat.eqb_refl].
    by apply list_elem_of_In, elem_of_map_to_list.
Qed.

Lemma usable_eq pk pm addr bf endgame i :
  pm_ok pm -> (i < num_pieces pm)%nat -> peer_bitfields pk !! addr = Some bf ->
  usable (assigned pk) bf pm endgame i = Ok (candidate pk pm addr endgame i).
Proof.
  intros (_ & (L & _) & _) Hi Hbf. unfold usable, candidate, peer_has, needed. rewrite Hbf.
  destruct (Nat.ltb_spec i (length bf)) as [Hlt|]; [|done]. cbn [negb].
  destruct (index_lt_Some bf i Hlt) as (b & -> & ->). cbn [mbind result_bind from_option id].
  destruct b; [|done]. cbn [negb andb]. unfold state.
  destruct (lookup_lt_is_Some_2 (states pm) i) as [st Hst]; [lia|].
  rewrite (index_Some _ _ _ Hst), Hst. cbn [mbind result_bind]. f_equal. f_equal. f_equal. f_equal.
  apply bool_decide_ext. split; [by intros ->|by intros [= ->]].
Qed.

Lemma find_from_spec u (c : nat -> bool) k : forall i,
  (forall j, (i <= j < i + k)%nat -> u j = Ok (c j)) ->
  exists o, find_from u i k = Ok o /\
  match o with
  | Some j => (i <= j < i + k)%nat /\ c j = true /\ forall j', (i <= j' < j)%nat -> c j' = false
  | None => forall j, (i <= j < i + k)%nat -> c j = false
  end.
Proof.
  induction k as [|k IH]; intros i Hu; [exists None; split; [done|lia]|].
  cbn [find_from]. rewrite Hu by lia. cbn [mbind result_bind]. destruct (c i) eqn:E.
  - exists (Some i). split_and!; try done; lia.
  - destruct (IH (S i)) as (o & Eo & Ho); [intros; apply Hu; lia|]. rewrite Eo. exists o. split; [done|].
    destruct o as [j|].
    + destruct Ho as (H1 & H2 & H3). split_and!; try done; try lia. intros j' Hj'.
      destruct (decide (j' = i)) as [->|]; [done|]. apply H3. lia.
    + intros j Hj. destruct (decide (j = i)) as [->|]; [done|]. apply Ho. lia.
Qed.

(** What the rarest-first pass knows after the pieces below [i]. *)
Definition ties_ok (c : nat -> bool) (av : list Z) (min_av : Z) (ties : list nat) (i : nat) : Prop :=
  (forall t, t ∈ ties -> (t < i)%nat /\ c t = true /\ av !! t = Some min_av) /\
  (forall j a, (j < i)%nat -> c j = true -> av !! j = Some a -> min_av <= a /\ ties <> []) /\
  (ties = [] -> min_av = umax 32).

Lemma ties_skip c av mn ties i : ties_ok c av mn ties i ->
  (c i = true -> forall a, av !! i = Some a -> mn <= a /\ ties <> []) -> ties_ok c av mn ties (S i).
Proof.
  intros (H1 & H2 & H3) Hi. split_and!; [|..|done].
  - intros t Ht. destruct (H1 t Ht) as (? & ? & ?). split_and!; [lia|done..].
  - intros j a Hj Hc Ha. destruct (decide (j = i)) as [->|]; [by apply Hi|]. apply (H2 j a); [lia|done..].
Qed.

Lemma rarest_spec u (c : nat -> bool) av k : forall i mn ties,
  (forall j, (i <= j < i + k)%nat -> u j = Ok (c j)) ->
  (forall j, (j < i + k)%nat -> exists a, av !! j = Some a /\ 0 <= a <= umax 32) ->
  ties_ok c av mn ties i ->
  exists mn' ties', rarest u av mn ties i k = Ok ties' /\ ties_ok c av mn' ties' (i + k).
Proof.
  induction k as [|k IH]; intros i mn ties Hu Hav Ht.
  { exists mn, ties. rewrite Nat.add_0_r. done. }
  cbn [rarest]. rewrite Hu by lia. cbn [mbind result_bind].
  destruct (Hav i ltac:(lia)) as (a & Ea & Ra). rewrite (index_Some _ _ _ Ea). cbn [mbind result_bind].
  rewrite Nat.add_succ_r.
  assert (forall mn ties, ties_ok c av mn ties (S i) ->
    exists mn' ties', rarest u av mn ties (S i) k = Ok ties' /\ ties_ok c av mn' ties' (S (i + k))) as K.
  { intros mn' ties' H'. apply (IH (S i)); [intros; apply Hu; lia|intros; apply Hav; lia|done]. }
  destruct (c i) eqn:Ec; cbn [negb]; [|apply K, ties_skip; [done|congruence]].
  destruct Ht as (H1 & H2 & H3).
  destruct (Z.ltb_spec a mn) as [Hlt|Hge]; [|destruct (Z.eqb_spec a mn) as [->|Hne]]; apply K.
  - split_and!; [|..|done].
    + intros t ->%list_elem_of_singleton. split_and!; [lia|done..].
    + intros j a' Hj Hc Ha'. destruct (decide (j = i)) as [->|]; [simplify_eq; split; [lia|done]|].
      destruct (H2 j a' ltac:(lia) Hc Ha'). split; [lia|done].
  - split_and!.
    + intros t [Hin| ->%list_elem_of_singleton]%elem_of_app; [|split_and!; [lia|done..]].
      destruct (H1 t Hin) as (? & ? & ?). split_and!; [lia|done..].
    + intros j a' Hj Hc Ha'. split; [|by destruct ties].
      destruct (decide (j = i)) as [->|]; [simplify_eq; lia|]. apply (H2 j a'); [lia|done..].
    + by destruct ties.
  - apply ties_skip; [done|]. intros _ a' Ha'. simplify_eq. split; [lia|].
    intros ->. specialize (H3 eq_refl). lia.
Qed.
(** The best candidate: the lowest index when streaming, else the rarest. *)
Definition best pk (c : nat -> bool) (i : nat) : Prop :=
  if sequential pk then forall j, (j < i)%nat -> c j = false
  else forall j, (j < pk_num_pieces pk)%nat -> c j = true ->
         (peers_with (peer_bitfields pk) i <= peers_with (peer_bitfields pk) j)%nat.

Lemma choose_spec shuffle pk pm addr bf endgame :
  (forall l, shuffle l ≡ₚ l) -> pm_ok pm -> num_pieces pm = pk_num_pieces pk ->
  counts pk -> few_peers pk -> peer_bitfields pk !! addr = Some bf ->
  let u := usable (assigned pk) bf pm endgame in
  let c := candidate pk pm addr endgame in
  exists o, (if sequential pk then find_from u 0 (pk_num_pieces pk)
             else rarest u (availability pk) (umax 32) [] 0 (pk_num_pieces pk) ≫= fun ties => Ok (head (shuffle ties)))
    = Ok o /\
  match o with
  | Some i => (i < pk_num_pieces pk)%nat /\ c i = true /\ best pk c i
  | None => forall i, (i < pk_num_pieces pk)%nat -> c i = false
  end.
Proof.
  intros Hsh Hpm Hn [Hl Hc] Hf Hbf u c.
  assert (forall j, (0 <= j < 0 + pk_num_pieces pk)%nat -> u j = Ok (c j)) as Hu
    by (intros; apply usable_eq; [done|lia|done]).
  unfold best. destruct (sequential pk).
  - destruct (find_from_spec u c (pk_num_pieces pk) 0 Hu) as (o & -> & Ho). exists o. split; [done|].
    destruct o as [i|]; [|intros; apply Ho; lia]. destruct Ho as (H1 & H2 & H3).
    split_and!; [lia|done|]. intros. apply H3. lia.
  - destruct (rarest_spec u c (availability pk) (pk_num_pieces pk) 0 (umax 32) [] Hu) as (mn & ties & -> & T1 & T2 & T3).
    { intros j Hj. eexists. split; [apply Hc; lia|]. pose proof (peers_with_le (peer_bitfields pk) j).
      unfold few_peers, umax in *. lia. }
    { split_and!; [|lia|done]. intros t Ht. by apply not_elem_of_nil in Ht. }
    cbn [mbind result_bind]. eexists. split; [done|].
    destruct (shuffle ties) as [|i r] eqn:Es; cbn [head].
    + intros i Hi. destruct (c i) eqn:Ec; [|done]. exfalso.
      destruct (T2 i _ ltac:(lia) Ec (Hc i Hi)) as [_ Hne]. apply Hne.
      specialize (Hsh ties). rewrite Es in Hsh. by apply Permutation_nil_l in Hsh.
    + assert (i ∈ ties) as Hin by (rewrite <- (Hsh ties), Es; by left).
      destruct (T1 i Hin) as (Hi & Hci & Hai). split_and!; [lia|done|].
      intros j Hj Hcj. destruct (T2 j _ ltac:(lia) Hcj (Hc j Hj)) as [Hle _].
      rewrite Hc in Hai by lia. simplify_eq. lia.
Qed.

Definition assigned_ok pk : Prop := forall k i, assigned pk !! k = Some i -> (i < pk_num_pieces pk)%nat.

(** The picker.  [pick_for] always answers.  An answer [i] is a piece that is
    wanted and not complete, recorded as the peer's assignment (no other
    assignment changes): the one the peer already had, or else a piece the peer
    has that, outside endgame, no peer is assigned to; the lowest such index in sequential mode,
    otherwise one that the fewest peers have.  It answers [None] only if
    the peer has no such piece. *)
Lemma pick_for_correct shuffle addr pm endgame pk :
  (forall l, shuffle l ≡ₚ l) -> pm_ok pm -> num_pieces pm = pk_num_pieces pk ->
  counts pk -> few_peers pk -> assigned_ok pk ->
  let c := candidate pk pm addr endgame in
  exists o, pick_for shuffle addr pm endgame pk =
    (match o with Some i => with_assigned (<[addr := i]> (assigned pk)) pk | None => pk end, Ok o) /\
  match o with
  | Some i => (i < pk_num_pieces pk)%nat /\ needed pm i = true /\
      (assigned pk !! addr = Some i \/
       c i = true /\ best pk c i /\ (endgame = false -> forall k, assigned pk !! k <> Some i))
  | None => forall i, (i < pk_num_pieces pk)%nat -> c i = false
  end.
Proof.
  intros Hsh Hpm Hn Hc Hf Ha c. unfold pick_for. msteps.
  assert (forall j, assigned pk !! addr = Some j ->
    (state pm j ≫= fun st => Ok (if negb (bool_decide (st = Complete)) && is_wanted pm j then Some j else None))
    = Ok (if needed pm j then Some j else None)) as Hkeep.
  { intros j Hj. apply Ha in Hj. destruct Hpm as (_ & (L & _) & _). unfold state, needed.
    destruct (lookup_lt_is_Some_2 (states pm) j) as [st Hst]; [lia|].
    rewrite (index_Some _ _ _ Hst), Hst. cbn [mbind result_bind]. f_equal.
    by rewrite (bool_decide_ext (st = Complete) (Some st = Some Complete))
      by (split; [by intros ->|by intros [= ->]]). }
  unfold mbind in Hkeep. cbn beta iota in Hkeep.
  destruct (assigned pk !! addr) as [j|] eqn:Ej; [rewrite (Hkeep j eq_refl)|]; cbn beta iota.
  1: destruct (needed pm j) eqn:Hnd; cbn beta iota.
  { exists (Some j). split; [|split_and!; [by eapply Ha|done|by left]].
    rewrite insert_id by done. by destruct pk. }
  all: destruct (peer_bitfields pk !! addr) as [bf|] eqn:Hbf;
    [|exists None; split; [done|]; intros i _; unfold c, candidate, peer_has; by rewrite Hbf].
  all: destruct (choose_spec shuffle pk pm addr bf endgame Hsh Hpm Hn Hc Hf Hbf) as (o & Eo & Ho).
  all: unfold mbind in Eo; rewrite Eo; cbn beta iota; exists o; (split; [by destruct o|]).
  all: destruct o as [i|]; [|done]; destruct Ho as (Hi & Hci & Hb).
  all: pose proof Hci as Hci'; unfold candidate in Hci'; bools; split_and!; try done; right; split_and!; try done.
  all: intros -> k Hk; cbn [orb] in *; bools;
    match goal with H : in_use _ _ = false |- _ => apply not_true_iff_false in H; apply H end;
    apply in_use_spec; eauto.
Qed.

(** ** Shape

    What holds of the picker however many peers there are (the counters saturate): nothing panics. *)

Definition pk_ok (n : nat) pk : Prop :=
  pk_num_pieces pk = n /\ length (availability pk) = n /\ Forall (fun a => 0 <= a <= umax 32) (availability pk) /\ assigned_ok pk.

Lemma new_picker_ok n : pk_ok n (new_picker n).
Proof.
  split_and!; [done|apply length_replicate|apply Forall_replicate; unfold umax; lia|].
  intros k i. cbn. by rewrite lookup_empty.
Qed.

Lemma inc_one_range a : 0 <= a <= umax 32 -> 0 <= inc_one a <= umax 32.
Proof. unfold inc_one, sat_add, umax. lia. Qed.
Lemma dec_one_range a : 0 <= a <= umax 32 -> 0 <= dec_one a <= umax 32.
Proof. unfold dec_one, sat_sub, umax. lia. Qed.

Lemma bump_shape f bf av n : (forall a, 0 <= a <= umax 32 -> 0 <= f a <= umax 32) ->
  length av = n -> Forall (fun a => 0 <= a <= umax 32) av ->
  exists av', bump f bf av 0 (Nat.min n (length bf)) = Ok av' /\ length av' = n /\ Forall (fun a => 0 <= a <= umax 32) av'.
Proof.
  intros Hf Hl Ha. destruct (bump_all f bf av n Hl) as (av' & E & L & Hj). exists av'. split_and!; try done.
  apply list.Forall_lookup. intros j a Hjj. pose proof (lookup_lt_Some _ _ _ Hjj). rewrite Hj in Hjj by lia.
  destruct (av !! j) as [a0|] eqn:E0; [|done]. cbn in Hjj. pose proof (list.Forall_lookup_1 _ _ _ _ Ha E0).
  destruct (default false (bf !! j)); injection Hjj as <-; auto.
Qed.

Lemma drop_bitfield_ok n addr pk : pk_ok n pk -> exists pk', drop_bitfield addr pk = (pk', Ok tt) /\ pk_ok n pk' /\
  assigned pk' = assigned pk.
Proof.
  intros (Hn & Hl & Hf & Ha). unfold drop_bitfield. msteps. destruct (peer_bitfields pk !! addr) as [old|]; [|by exists pk].
  cbn [with_bitfields pk_num_pieces availability].
  destruct (bump_shape dec_one old (availability pk) n dec_one_range Hl Hf) as (av & E & L & F). rewrite Hn, E.
  eexists. split; [done|]. by split_and!.
Qed.

Lemma set_peer_bitfield_ok n addr bf pk : pk_ok n pk -> exists pk', set_peer_bitfield addr bf pk = (pk', Ok tt) /\ pk_ok n pk'.
Proof.
  intros Hpk. destruct (drop_bitfield_ok n addr pk Hpk) as (pk1 & E1 & (Hn & Hl & Hf & Ha) & _). unfold set_peer_bitfield.
  msteps. rewrite E1. destruct (bump_shape inc_one bf (availability pk1) n inc_one_range Hl Hf) as (av & E & L & F). rewrite Hn, E.
  eexists. split; [done|]. by split_and!.
Qed.

Lemma forget_peer_ok n addr pk : pk_ok n pk -> exists pk', forget_peer addr pk = (pk', Ok tt) /\ pk_ok n pk'.
Proof.
  intros Hpk. destruct (drop_bitfield_ok n addr pk Hpk) as (pk1 & E1 & (Hn & Hl & Hf & Ha) & _). unfold forget_peer.
  msteps. rewrite E1. eexists. split; [done|]. split_and!; try done.
  intros k i. cbn. intros [_ Hk]%lookup_delete_Some. by eapply Ha.
Qed.

Lemma release_assignment_ok n addr pk : pk_ok n pk -> exists pk', release_assignment addr pk = (pk', Ok tt) /\ pk_ok n pk'.
Proof.
  intros (Hn & Hl & Hf & Ha). eexists. split; [done|]. split_and!; try done. intros k i. cbn. intros [_ Hk]%lookup_delete_Some. by eapply Ha.
Qed.

Lemma clear_assignment_ok n addr i pk : pk_ok n pk -> exists pk', clear_assignment_if addr i pk = (pk', Ok tt) /\ pk_ok n pk'.
Proof.
  intros Hpk. unfold clear_assignment_if. msteps. destruct (assigned pk !! addr) as [cur|]; [|by exists pk].
  destruct (cur =? i)%nat; [|by exists pk]. by apply (release_assignment_ok n addr).
Qed.

Lemma add_have_ok n addr i pk : pk_ok n pk -> exists pk', add_have addr i pk = (pk', Ok tt) /\ pk_ok n pk'.
Proof.
  intros (Hn & Hl & Hf & Ha). unfold add_have. msteps. destruct (Nat.leb_spec (pk_num_pieces pk) i) as [|Hlt]; [by exists pk|].
  fold (have_row (pk_num_pieces pk) (peer_bitfields pk !! addr)). set (bf := have_row _ _).
  destruct (have_row_bits (pk_num_pieces pk) (peer_bitfields pk !! addr) i) as [_ Hlen]. fold bf in Hlen.
  destruct (index_lt_Some bf i) as (b & Eb & ->); [lia|]. cbn beta iota. destruct b; cbn [negb]; [by eexists|].
  rewrite set_index_Ok by lia. cbn beta iota. cbn [availability with_bitfields].
  destruct (lookup_lt_is_Some_2 (availability pk) i) as [a Eav]; [lia|]. rewrite (index_Some _ _ _ Eav). cbn beta iota.
  rewrite set_index_Ok by lia. cbn beta iota. eexists. split; [done|]. split_and!; try done; cbn; [by rewrite length_insert|].
  apply Forall_insert; [done|]. apply inc_one_range. by apply (list.Forall_lookup_1 _ _ _ _ Hf Eav).
Qed.

Lemma pick_for_ok n shuffle addr pm endgame pk :
  (forall l, shuffle l ≡ₚ l) -> pm_ok pm -> num_pieces pm = n -> pk_ok n pk ->
  exists pk' o, pick_for shuffle addr pm endgame pk = (pk', Ok o) /\ pk_ok n pk' /\ forall i, o = Some i -> (i < n)%nat.
Proof.
  intros Hsh Hpm Hnp (Hn & Hl & Hf & Ha). unfold pick_for. msteps.
  assert (Hst : forall j, (j < n)%nat -> exists st, state pm j = Ok st).
  { intros j Hj. destruct Hpm as (_ & (L & _) & _). destruct (lookup_lt_is_Some_2 (states pm) j) as [st Hst]; [lia|].
    exists st. by apply index_Some. }
  set (keep := match assigned pk !! addr with Some _ => _ | None => _ end).
  assert (Hk : exists o, keep = Ok o /\ forall i, o = Some i -> (i < n)%nat).
  { unfold keep. destruct (assigned pk !! addr) as [j|] eqn:Ej; [|by exists None]. apply Ha in Ej as Hj. rewrite Hn in Hj.
    destruct (Hst j Hj) as [st ->]. eexists. split; [done|]. intros i. by destruct (_ && _); intros [= <-]. }
  destruct Hk as (o & -> & Ho). cbn beta iota. destruct o as [i|].
  { exists pk, (Some i). by split_and!. }
  destruct (peer_bitfields pk !! addr) as [bf|] eqn:Eb; [|by exists pk, None].
  set (u := usable (assigned pk) bf pm endgame).
  assert (Hu : forall j, (j < n)%nat -> u j = Ok (candidate pk pm addr endgame j)) by (intros j Hj; apply usable_eq; [done|lia|done]).
  assert (Hc : exists o, (if sequential pk then find_from u 0 (pk_num_pieces pk)
    else match rarest u (availability pk) (umax 32) [] 0 (pk_num_pieces pk) with Ok ties => Ok (head (shuffle ties)) | Err e => Err e | Panic => Panic | NoFuel => NoFuel end) = Ok o
    /\ forall i, o = Some i -> (i < n)%nat).
  { rewrite Hn. destruct (sequential pk).
    - destruct (find_from_spec u (candidate pk pm addr endgame) n 0) as (o & Eo & Hj); [intros j Hj; apply Hu; lia|].
      exists o. split; [done|]. intros i ->. destruct Hj. lia.
    - destruct (rarest_spec u (candidate pk pm addr endgame) (availability pk) n 0 (umax 32) []) as (mn & ties & E & T & _).
      + intros j Hj. apply Hu. lia.
      + intros j Hj. destruct (lookup_lt_is_Some_2 (availability pk) j) as [a Ea]; [lia|]. exists a. split; [done|].
        by apply (list.Forall_lookup_1 _ _ _ _ Hf Ea).
      + split_and!; [by intros t Ht%elem_of_nil|lia|done].
      + rewrite E. eexists. split; [done|]. intros i Hi. apply head_Some_elem_of in Hi. rewrite (Hsh ties) in Hi. apply T in Hi as [? _]. lia. }
  destruct Hc as (o & Eo & Hi). unfold mbind, result_bind in *. rewrite Eo. cbn beta iota. destruct o as [i|]; [|by exists pk, None].
  eexists _, (Some i). split; [done|]. split_and!; try done.
  split_and!; try done. intros k j. cbn. intros [[_ <-]|[_ Hk]]%lookup_insert_Some; [rewrite Hn; by apply Hi|by eapply Ha].
Qed.

(** ** Availability *)

Inductive PkOp := PkBitfield (a : Addr) (bf : list bool) | PkHave (a : Addr) (i : nat) | PkForget (a : Addr).

Definition pk_run (op : PkOp) : M (Picker Addr) unit :=
  match op with
  | PkBitfield a bf => set_peer_bitfield a bf
  | PkHave a i => add_have a i
  | PkForget a => forget_peer a
  end.

(** Availability.  Bitfields and have messages of any length and index, and
    departures, never make the picker panic (below four billion peers), and after each
    of them the counter of every piece is exactly the number of peers that
    advertise it. *)
Lemma availability_exact op pk :
  counts pk -> few_peers pk ->
  snd (pk_run op pk) = Ok tt /\ counts (fst (pk_run op pk)) /\
  pk_num_pieces (fst (pk_run op pk)) = pk_num_pieces pk.
Proof.
  intros Hc Hf. destruct op as [a bf|a i|a]; cbn [pk_run].
  - destruct (set_peer_bitfield_counts a bf pk Hc Hf) as (av & E & Hc').
    rewrite E in Hc' |- *. done.
  - destruct (add_have_counts a i pk Hc Hf) as (pk' & -> & Hc' & _ & _ & Hn & _). done.
  - destruct (forget_peer_counts a pk Hc) as (av & E & Hc'). rewrite E in Hc' |- *. done.
Qed.
End Props.

(** ** Witnesses *)

Definition pk_ex : Picker nat := mkPicker 2 {[ 7%nat := [true; true]; 8%nat := [true; false] ]} [2; 1] ∅ false.

Lemma pk_ex_counts : counts pk_ex.
Proof. split; [done|]. intros [|[|i]] Hi; [vm_compute; reflexivity..|simpl in Hi; lia]. Qed.

Lemma pick_for_correct_witness :
  exists o, pick_for (fun l => l) 7%nat pm_ex false pk_ex =
    (match o with Some i => with_assigned (<[7%nat := i]> (assigned pk_ex)) pk_ex | None => pk_ex end, Ok o) /\
  match o with
  | Some i => (i < 2)%nat /\ needed pm_ex i = true /\
      (assigned pk_ex !! 7%nat = Some i \/
       candidate pk_ex pm_ex 7%nat false i = true /\ best pk_ex (candidate pk_ex pm_ex 7%nat false) i /\
       (false = false -> forall k, assigned pk_ex !! k <> Some i))
  | None => forall i, (i < 2)%nat -> candidate pk_ex pm_ex 7%nat false i = false
  end.
Proof.
  apply (pick_for_correct (fun l => l) 7%nat pm_ex false pk_ex);
    [reflexivity|apply pm_ex_ok|reflexivity|apply pk_ex_counts|vm_compute; reflexivity|].
  intros k i Hk. discriminate Hk.
Defined.

Lemma availability_exact_witness :
  let pk := pk_ex in let op := PkBitfield 8%nat [false; true; true] in
  snd (pk_run op pk) = Ok tt /\ counts (fst (pk_run op pk)) /\
  pk_num_pieces (fst (pk_run op pk)) = pk_num_pieces pk.
Proof. apply availability_exact; [apply pk_ex_counts|vm_compute; reflexivity]. Defined.
