(* ===== verification/Handshake.v ===== *)
(** * The BitTorrent handshake: [src/src/peer/handshake.rs]

    A [Stream] is one end of a connection: the bytes that will arrive, the bytes
    written so far, and whether writes still succeed.  The process-wide
    [EXTENSION_BYTES] cell is the argument [ext]. *)

From Stdlib Require Import ZArith Lia String Strings.Byte.
From stdpp Require Import base tactics numbers list option.
From S2P Require Import Prelude PeerWire.

Definition PSTR : bytes := bs "BitTorrent protocol".
Definition PSTRLEN : Z := 19.
Definition HANDSHAKE_LEN : nat := 68.

Definition RESERVED_BIT_DHT : Z := 1.
Definition RESERVED_BIT_EXTENSION : Z := 16.
Definition RESERVED_BIT_FAST : Z := 4.

(** [OnceLock::set]: the first call wins. *)
Definition set_extension_bytes (cell : option bytes) (b : bytes) : option bytes :=
  match cell with Some old => Some old | None => Some b end.

Definition extension_bytes_from (dht_enabled extension_protocol : bool) : bytes :=
  let r := replicate 8 Byte.x00 in
  let r := if dht_enabled then or_at r 7 RESERVED_BIT_DHT else r in
  if extension_protocol then or_at (or_at r 5 RESERVED_BIT_EXTENSION) 7 RESERVED_BIT_FAST else r.

Definition has_bit (reserved : bytes) (i : nat) (bit : Z) : result bool :=
  b ← index reserved i; Ok (negb (Z.land (b2z b) bit =? 0)).

Definition supports_fast_extensions (reserved : bytes) : result bool := has_bit reserved 7 RESERVED_BIT_FAST.
Definition supports_extension_protocol (reserved : bytes) : result bool :=
  has_bit reserved 5 RESERVED_BIT_EXTENSION.

Definition current_extension_bytes (ext : option bytes) : bytes := default (replicate 8 Byte.x00) ext.

Record Handshake := mkHandshake { reserved : bytes; info_hash : bytes; peer_id : bytes }.

(** The fixed-size arrays of the source. *)
Definition hs_ok (h : Handshake) : bool :=
  (length (reserved h) =? 8)%nat && (length (info_hash h) =? 20)%nat && (length (peer_id h) =? 20)%nat.

Definition new (ext : option bytes) (info_hash peer_id : bytes) : Handshake :=
  mkHandshake (current_extension_bytes ext) info_hash peer_id.

Definition encode (h : Handshake) : bytes :=
  [z2b PSTRLEN] ++ PSTR ++ reserved h ++ info_hash h ++ peer_id h.

Definition decode (buf : bytes) : result Handshake :=
  if (length buf <? HANDSHAKE_LEN)%nat then Err (EHandshake "handshake too short")
  else
    b0 ← index buf 0;
    if negb (b2z b0 =? PSTRLEN) then Err (EHandshake "bad pstrlen")
    else
      p ← slice_range buf 1 20;
      if negb (bytes_eqb p PSTR) then Err (EHandshake "bad protocol string")
      else
        reserved ← slice_range buf 20 28;
        info_hash ← slice_range buf 28 48;
        peer_id ← slice_range buf 48 68;
        Ok (mkHandshake reserved info_hash peer_id).

Record Stream := mkStream { inbox : bytes; outbox : bytes; writable : bool }.

Definition write_all (data : bytes) (e : Error) : M Stream unit := fun s =>
  if writable s then (mkStream (inbox s) (outbox s ++ data) true, Ok tt) else (s, Err e).

Definition read_n (n : nat) (e : Error) : M Stream bytes := fun s =>
  if (length (inbox s) <? n)%nat then (mkStream [] (outbox s) (writable s), Err e)
  else (mkStream (drop n (inbox s)) (outbox s) (writable s), Ok (take n (inbox s))).

Definition perform_outgoing (ext : option bytes) (ih pid : bytes) : M Stream Handshake :=
  let ours := new ext ih pid in
  _ ← write_all (encode ours) (EHandshake "write");
  buf ← read_n HANDSHAKE_LEN (EHandshake "read: early eof");
  theirs ← lift (decode buf);
  if negb (bytes_eqb (info_hash theirs) ih) then lift (Err (EHandshake "info_hash mismatch"))
  else mret theirs.

Definition perform_incoming (ext : option bytes) (ih pid : bytes) : M Stream Handshake :=
  buf ← read_n HANDSHAKE_LEN (EHandshake "read: early eof");
  theirs ← lift (decode buf);
  if negb (bytes_eqb (info_hash theirs) ih) then lift (Err (EHandshake "info_hash mismatch"))
  else
    let ours := new ext ih pid in
    _ ← write_all (encode ours) (EHandshake "write");
    mret theirs.

(** ** Lemmas *)

Lemma hs_okE h : hs_ok h = true <->
  length (reserved h) = 8%nat /\ length (info_hash h) = 20%nat /\ length (peer_id h) = 20%nat.
Proof. unfold hs_ok. rewrite !andb_true_iff, !Nat.eqb_eq. tauto. Qed.

Lemma length_encode h : hs_ok h = true -> length (encode h) = HANDSHAKE_LEN.
Proof. rewrite hs_okE. intros (H1 & H2 & H3). unfold encode, HANDSHAKE_LEN. rewrite !length_app, H1, H2, H3. done. Qed.

Lemma slice_mid {A} (a b c : list A) i n :
  length a = i -> length b = n -> slice (a ++ b ++ c) i n = b.
Proof. intros <- <-. unfold slice. by rewrite drop_app_length, take_app_length. Qed.

Lemma handshake_decode_encode h rest : hs_ok h = true -> decode (encode h ++ rest) = Ok h.
Proof.
  intros Hok. pose proof (length_encode h Hok) as Hl. apply hs_okE in Hok as (H1 & H2 & H3).
  unfold decode. replace (length _ <? HANDSHAKE_LEN)%nat with false
    by (symmetry; apply Nat.ltb_ge; rewrite length_app; lia).
  unfold HANDSHAKE_LEN in Hl. rewrite !slice_range_Ok by (rewrite length_app; lia).
  unfold encode. rewrite <- !app_assoc. replace (index _ 0) with (Ok (z2b PSTRLEN)) by done.
  cbn [mbind result_bind]. change (b2z (z2b PSTRLEN) =? PSTRLEN) with true. cbn [negb Nat.sub].
  rewrite (slice_mid [z2b PSTRLEN] PSTR) by done. rewrite bytes_eqb_refl. cbn [negb].
  rewrite (app_assoc [z2b PSTRLEN] PSTR).
  rewrite (slice_mid ([z2b PSTRLEN] ++ PSTR) (reserved h)) by done.
  rewrite (app_assoc _ (reserved h)).
  rewrite (slice_mid _ (info_hash h)) by (rewrite ?length_app, ?H1; done).
  rewrite (app_assoc _ (info_hash h)).
  rewrite (slice_mid _ (peer_id h)) by (rewrite ?length_app, ?H1, ?H2; done).
  cbn. by destruct h.
Qed.

Lemma decode_Ok buf h : decode buf = Ok h -> hs_ok h = true /\ take HANDSHAKE_LEN buf = encode h.
Proof.
  unfold decode. destruct (Nat.ltb_spec (length buf) HANDSHAKE_LEN) as [|Hl]; [done|].
  unfold HANDSHAKE_LEN in *. destruct buf as [|b0 buf]; [simpl in Hl; lia|].
  rewrite index_cons. cbn [mbind result_bind].
  destruct (b2z b0 =? PSTRLEN) eqn:E0; [|done]. cbn [negb].
  rewrite !slice_range_Ok by lia. cbn [mbind result_bind Nat.sub].
  destruct (bytes_eqb _ PSTR) eqn:E1; [|done]. cbn [negb]. apply bytes_eqb_eq in E1.
  intros [= <-]. rewrite hs_okE. unfold encode. cbn [reserved info_hash peer_id].
  rewrite !length_slice by lia. split; [done|]. rewrite <- E1.
  apply z2b_id in E0. rewrite <- E0.
  pose proof (slice_slice_app (b0 :: buf) 28 20 20) as S1. cbn [Nat.add] in S1. rewrite S1.
  pose proof (slice_slice_app (b0 :: buf) 20 8 40) as S2. cbn [Nat.add] in S2. rewrite S2.
  pose proof (slice_slice_app (b0 :: buf) 1 19 48) as S3. cbn [Nat.add] in S3. rewrite S3.
  done.
Qed.

(** [decode] accepts exactly the 68-byte encodings: it returns [h] if and only if
    the fields of [h] have their fixed sizes and the buffer starts with
    [encode h].  In particular encoding and decoding round-trip. *)
Lemma handshake_decode_iff buf h :
  decode buf = Ok h <-> hs_ok h = true /\ take HANDSHAKE_LEN buf = encode h.
Proof.
  split; [apply decode_Ok|]. intros [Hok E].
  rewrite <- (take_drop HANDSHAKE_LEN buf), E. by apply handshake_decode_encode.
Qed.

Lemma outgoing_eq ext ih pid s theirs rest :
  writable s = true -> hs_ok theirs = true -> inbox s = encode theirs ++ rest ->
  perform_outgoing ext ih pid s =
  (mkStream rest (outbox s ++ encode (new ext ih pid)) true,
   if bytes_eqb (info_hash theirs) ih then Ok theirs else Err (EHandshake "info_hash mismatch")).
Proof.
  intros Hw Hok Hin. unfold perform_outgoing, write_all, read_n. msteps. rewrite Hw. cbn beta iota.
  cbn [inbox outbox writable]. rewrite Hin. pose proof (length_encode theirs Hok) as Hl.
  destruct (Nat.ltb_spec (length (encode theirs ++ rest)) HANDSHAKE_LEN) as [Hlt|_].
  { rewrite length_app in Hlt. lia. }
  cbn beta iota. rewrite take_app_length', drop_app_length' by done.
  pose proof (handshake_decode_encode theirs [] Hok) as D. rewrite app_nil_r in D. rewrite D. cbn beta iota.
  by destruct (bytes_eqb _ _).
Qed.

Lemma handshake_decode_returns buf : returns (decode buf) = true.
Proof.
  unfold decode. destruct (Nat.ltb_spec (length buf) HANDSHAKE_LEN) as [|Hl]; [done|]. unfold HANDSHAKE_LEN in Hl.
  destruct buf as [|b0 buf]; [simpl in Hl; lia|]. rewrite index_cons. cbn [mbind result_bind].
  destruct (negb _); [done|]. rewrite !slice_range_Ok by lia. cbn [mbind result_bind]. by destruct (negb _).
Qed.

(** On any connection the dialler's handshake ends with a proper handshake for our torrent or an error. *)
Lemma outgoing_Ok ext ih pid s : exists s' (r : result Handshake),
  (returns r = true /\ forall h, r = Ok h -> hs_ok h = true /\ info_hash h = ih) /\ perform_outgoing ext ih pid s = (s', r).
Proof.
  assert (F : forall (s' : Stream) e, exists s'' (r : result Handshake), (returns r = true /\ forall h, r = Ok h -> hs_ok h = true /\ info_hash h = ih) /\
    (s', Err e) = (s'', r)) by (intros s' e; exists s', (Err e); by split).
  unfold perform_outgoing, write_all, read_n. msteps. destruct (writable s); [|apply F].
  cbn [inbox outbox writable]. destruct (_ <? _)%nat; [apply F|].
  pose proof (handshake_decode_returns (take HANDSHAKE_LEN (inbox s))) as R. destruct (decode _) as [h|e| |] eqn:E; try done.
  apply decode_Ok in E as [Hok _]. destruct (bytes_eqb (info_hash h) ih) eqn:Eh; cbn [negb]; [|apply F].
  apply bytes_eqb_eq in Eh. eexists _, _. split; [|reflexivity]. split; [done|]. by intros ? [= <-].
Qed.

Lemma supports_known h : hs_ok h = true -> exists b, supports_extension_protocol (reserved h) = Ok b.
Proof.
  intros (H & _)%hs_okE. destruct (reserved h) as [|? [|? [|? [|? [|? [|? ?]]]]]] eqn:E; try done.
  eexists. unfold supports_extension_protocol, has_bit. reflexivity.
Qed.

Lemma incoming_eq ext ih pid s theirs rest :
  writable s = true -> hs_ok theirs = true -> inbox s = encode theirs ++ rest ->
  perform_incoming ext ih pid s =
  if bytes_eqb (info_hash theirs) ih then
    (mkStream rest (outbox s ++ encode (new ext ih pid)) true, Ok theirs)
  else (mkStream rest (outbox s) true, Err (EHandshake "info_hash mismatch")).
Proof.
  intros Hw Hok Hin. unfold perform_incoming, write_all, read_n. msteps.
  rewrite Hin. pose proof (length_encode theirs Hok) as Hl.
  destruct (Nat.ltb_spec (length (encode theirs ++ rest)) HANDSHAKE_LEN) as [Hlt|_].
  { rewrite length_app in Hlt. lia. }
  cbn beta iota. rewrite take_app_length', drop_app_length' by done.
  pose proof (handshake_decode_encode theirs [] Hok) as D. rewrite app_nil_r in D. rewrite D. cbn beta iota.
  rewrite Hw. by destruct (bytes_eqb _ _).
Qed.

(** Two endpoints.  A dialler and an acceptor that handshake over a connection
    (what one writes is what the other reads) with the same info hash both
    succeed and learn each other's identity and capabilities; with different info
    hashes the acceptor fails and has written nothing, so it does not reveal
    what it serves. *)
Lemma handshake_agree extA extB ihA ihB pidA pidB :
  hs_ok (new extA ihA pidA) = true -> hs_ok (new extB ihB pidB) = true ->
  let toB := outbox (fst (perform_outgoing extA ihA pidA (mkStream [] [] true))) in
  let '(sB, rB) := perform_incoming extB ihB pidB (mkStream toB [] true) in
  if bytes_eqb ihA ihB then
    rB = Ok (new extA ihA pidA) /\
    snd (perform_outgoing extA ihA pidA (mkStream (outbox sB) [] true)) = Ok (new extB ihB pidB)
  else rB = Err (EHandshake "info_hash mismatch") /\ outbox sB = [].
Proof.
  intros HA HB toB.
  assert (toB = encode (new extA ihA pidA) ++ []) as E by (rewrite app_nil_r; reflexivity).
  rewrite (incoming_eq extB ihB pidB _ (new extA ihA pidA) []) by done. cbn [info_hash new].
  destruct (bytes_eqb ihA ihB) eqn:Eh; [|done]. split; [done|]. cbn [outbox app].
  rewrite (outgoing_eq extA ihA pidA _ (new extB ihB pidB) []) by (by rewrite ?app_nil_r).
  apply bytes_eqb_eq in Eh as ->. cbn [info_hash new]. by rewrite bytes_eqb_refl.
Qed.

Lemma handshake_agree_witness :
  let ih := replicate 20 "h"%byte in let ext := Some (extension_bytes_from true true) in
  let toB := outbox (fst (perform_outgoing ext ih (replicate 20 "a"%byte) (mkStream [] [] true))) in
  let '(sB, rB) := perform_incoming None ih (replicate 20 "b"%byte) (mkStream toB [] true) in
  if bytes_eqb ih ih then
    rB = Ok (new ext ih (replicate 20 "a"%byte)) /\
    snd (perform_outgoing ext ih (replicate 20 "a"%byte) (mkStream (outbox sB) [] true)) =
      Ok (new None ih (replicate 20 "b"%byte))
  else rB = Err (EHandshake "info_hash mismatch") /\ outbox sB = [].
Proof. apply handshake_agree; vm_compute; reflexivity. Defined.

(** Capability bits.  The reserved bytes built from the two flags are eight
    bytes in which the peer's two tests read back the extension-protocol flag, and
    the DHT bit is the DHT flag; the first installed pattern is the one every
    handshake carries. *)
Lemma capability_bits dht ext b2 ih pid :
  let r := extension_bytes_from dht ext in
  length r = 8%nat /\
  supports_fast_extensions r = Ok ext /\ supports_extension_protocol r = Ok ext /\
  has_bit r 7 RESERVED_BIT_DHT = Ok dht /\
  reserved (new (set_extension_bytes (set_extension_bytes None r) b2) ih pid) = r.
Proof. destruct dht, ext; vm_compute; done. Qed.
