(* ===== verification/Paths.v ===== *)
(** * Paths: what the crate uses of [std::path] (Unix)

    A [Path] or [PathBuf] is its bytes.  [components] is the documented
    decomposition: repeated separators and interior [.] segments vanish, a
    leading [/] is [RootDir], a leading [.] segment is [CurDir].  [join] is
    [PathBuf::push] on a copy, so an absolute argument replaces the base.
    [starts_with] compares whole components.  The lemmas say when a join stays
    below its base. *)

From Stdlib Require Import ZArith Lia String Strings.Byte.
From stdpp Require Import base tactics numbers list option.
From S2P Require Import Prelude.

(** ** [str::split] *)

Fixpoint split_on (sep : byte) (l : bytes) : list bytes :=
  match l with
  | [] => [[]]
  | c :: r =>
      if Byte.eqb c sep then [] :: split_on sep r
      else match split_on sep r with
           | s :: ss => (c :: s) :: ss
           | [] => [[c]]
           end
  end.

(** [str::trim_end_matches] with a set of characters. *)
Fixpoint trim_end (p : byte -> bool) (l : bytes) : bytes :=
  match l with
  | [] => []
  | c :: r =>
      match trim_end p r with
      | [] => if p c then [] else [c]
      | r' => c :: r'
      end
  end.

Definition to_ascii_lowercase (l : bytes) : bytes :=
  (fun b => if between 65 90 b then z2b (b2z b + 32) else b) <$> l.

(** [str::contains] with a string pattern. *)
Fixpoint has_prefix (p l : bytes) : bool :=
  match p, l with
  | [], _ => true
  | a :: p, b :: l => Byte.eqb a b && has_prefix p l
  | _, [] => false
  end.

Fixpoint contains (p l : bytes) : bool :=
  has_prefix p l || match l with [] => false | _ :: l => contains p l end.

(** ** Components *)

Inductive Component :=
  | RootDir
  | CurDir
  | ParentDir
  | Normal (part : bytes).

#[export] Instance component_eq_dec : EqDecision Component.
Proof. solve_decision. Defined.

Definition segment (s : bytes) : option Component :=
  if bytes_eqb s [] || bytes_eqb s (bs ".") then None
  else if bytes_eqb s (bs "..") then Some ParentDir
  else Some (Normal s).

Definition is_absolute (p : bytes) : bool :=
  match p with c :: _ => Byte.eqb c "/" | [] => false end.

Definition lead (p : bytes) : list Component :=
  if is_absolute p then [RootDir]
  else if bytes_eqb (default [] (head (split_on "/" p))) (bs ".") then [CurDir]
  else [].

Definition components (p : bytes) : list Component :=
  lead p ++ omap segment (split_on "/" p).

Definition ends_with_sep (p : bytes) : bool :=
  match list.last p with Some c => Byte.eqb c "/" | None => false end.

(** [PathBuf::push] / [Path::join]. *)
Definition join (base p : bytes) : bytes :=
  if is_absolute p then p
  else if bytes_eqb base [] || ends_with_sep base then base ++ p
  else base ++ "/"%byte :: p.

Definition starts_with (p base : bytes) : bool :=
  bool_decide (components base `prefix_of` components p).

Definition is_normal (c : Component) : bool :=
  match c with Normal _ => true | _ => false end.

Example components_ex :
  components (bs "/a//./b/../c/") =
  [RootDir; Normal (bs "a"); Normal (bs "b"); ParentDir; Normal (bs "c")].
Proof. vm_compute. reflexivity. Qed.

(** ** Lemmas *)

Lemma split_on_nonempty sep l : exists s ss, split_on sep l = s :: ss.
Proof.
  induction l as [|c r (s & ss & IH)]; simpl; [eauto|].
  destruct (Byte.eqb c sep); [eauto|]. rewrite IH. eauto.
Qed.

Lemma split_on_app sep a b :
  split_on sep (a ++ sep :: b) = split_on sep a ++ split_on sep b.
Proof.
  induction a as [|c a IH]; simpl.
  - by rewrite (proj2 (byte_eqb_iff sep sep) eq_refl).
  - rewrite IH. destruct (Byte.eqb c sep); [done|].
    destruct (split_on_nonempty sep a) as (s & ss & ->). done.
Qed.

Lemma split_on_none sep l : forallb (fun c => negb (Byte.eqb c sep)) l = true -> split_on sep l = [l].
Proof.
  induction l as [|c l IH]; simpl; [done|]. intros [H1 H2]%andb_true_iff.
  apply negb_true_iff in H1. by rewrite H1, IH.
Qed.

(** The first segment decides whether a path starts with [CurDir]. *)
Lemma head_split_app a b :
  default [] (head (split_on "/" (a ++ "/"%byte :: b))) = default [] (head (split_on "/" a)).
Proof. rewrite split_on_app. by destruct (split_on_nonempty "/" a) as (s & ss & ->). Qed.

Lemma lead_app a b : a <> [] -> lead (a ++ "/"%byte :: b) = lead a.
Proof. intros Ha. unfold lead. rewrite head_split_app. by destruct a. Qed.

(** Joining a path that starts with a plain component appends components. *)
Lemma components_join base p :
  lead p = [] -> components (join base p) = components base ++ omap segment (split_on "/" p).
Proof.
  unfold join, components. intros Hp.
  destruct (is_absolute p) eqn:Ha; [by unfold lead in Hp; rewrite Ha in Hp|].
  destruct base as [|c base]; cbn [bytes_eqb orb]; [cbn [app]; by rewrite Hp|].
  unfold ends_with_sep. destruct (list.last (c :: base)) as [z|] eqn:El; [|by apply last_None in El].
  apply last_Some in El as (l & El). rewrite El.
  destruct (Byte.eqb z "/") eqn:Ez.
  - apply byte_eqb_iff in Ez as ->. rewrite <- app_assoc. cbn [app].
    destruct l as [|x l].
    + unfold lead. cbn. done.
    + rewrite !lead_app by done. rewrite !split_on_app, !omap_app, <- !app_assoc. cbn. by rewrite app_nil_r || done.
  - rewrite lead_app by (by destruct l). by rewrite split_on_app, omap_app, <- app_assoc.
Qed.

(** A path of plain components starts with neither [/] nor [.]. *)
Lemma normal_lead p : forallb is_normal (components p) = true -> lead p = [].
Proof.
  unfold components. rewrite forallb_app, andb_true_iff. intros [H _].
  unfold lead in *. destruct (is_absolute p); [done|]. by destruct (bytes_eqb _ _).
Qed.

Lemma components_join_normal base p :
  forallb is_normal (components p) = true ->
  components (join base p) = components base ++ components p.
Proof.
  intros H. apply normal_lead in H. rewrite components_join by done.
  unfold components at 3. by rewrite H.
Qed.

(** The containment check after a join of plain components always passes. *)
Lemma join_starts_with base p :
  forallb is_normal (components p) = true -> starts_with (join base p) base = true.
Proof.
  intros H. apply bool_decide_eq_true. rewrite components_join_normal by done.
  by apply prefix_app_r.
Qed.

(** A name with no separator that is neither empty, [.] nor [..] is one plain component. *)
Definition plain (s : bytes) : bool :=
  negb (bytes_eqb s [] || bytes_eqb s (bs ".") || bytes_eqb s (bs "..")) &&
  forallb (fun c => negb (Byte.eqb c "/")) s.

Lemma segment_plain s : plain s = true -> segment s = Some (Normal s) /\ split_on "/" s = [s].
Proof.
  unfold plain, segment. intros [H1 H2]%andb_true_iff.
  apply negb_true_iff, orb_false_iff in H1 as [[-> ->]%orb_false_iff ->].
  split; [done|]. by apply split_on_none.
Qed.

Lemma components_plain s : plain s = true -> components s = [Normal s].
Proof.
  intros H. pose proof (segment_plain s H) as [Hs Hd]. unfold components, lead.
  rewrite Hd. cbn [omap list_omap head default from_option id]. rewrite Hs.
  unfold plain in H. destruct s as [|c s]; [done|].
  apply andb_true_iff in H as [H1 H2]. cbn [forallb] in H2. apply andb_true_iff in H2 as [H2 _].
  cbn [is_absolute]. apply negb_true_iff in H2 as ->.
  apply negb_true_iff, orb_false_iff in H1 as [[_ H1]%orb_false_iff _]. by rewrite H1.
Qed.
