(* ===== verification/Torrent.v ===== *)
(** * Torrent files: [src/src/metainfo/torrent.rs]

    The reader of a [.torrent] (or of the info dictionary of a magnet link):
    field extraction, validation of the attacker-controlled name, paths and
    sizes, and the search for the raw bytes of the info dictionary.  SHA-1 is a
    parameter.  The text of an error (and [describe_unsafe_component], which
    only formats it) is reduced to its fixed part. *)

From Stdlib Require Import ZArith Lia String Strings.Byte.
From stdpp Require Import base tactics numbers list option.
From S2P Require Import Prelude Bencode Paths Pieces.

(** ** Data *)

Record FileEntry := mkFileEntry { fe_length : Z; fe_path : bytes }.

Inductive TorrentFiles :=
  | Single (length : Z)
  | Multi (files : list FileEntry).

Record Info := mkInfo {
  name : bytes;
  piece_length : Z;
  piece_hashes : list bytes;
  files : TorrentFiles;
  private : bool;
}.

Record TorrentFile := mkTorrentFile {
  info_hash : bytes;
  announce : option bytes;
  announce_list : list (list bytes);
  info : Info;
}.

(** ** The info dictionary *)

Definition is_unsafe_path_component (s : bytes) : bool :=
  bytes_eqb s [] || bytes_eqb s (bs ".") || bytes_eqb s (bs "..") ||
  existsb (Byte.eqb "/") s || existsb (Byte.eqb "\") s.

Definition MAX_PIECE_LENGTH : Z := Z.shiftl 1 30.

(** [u64::try_from] of an [i64]. *)
Definition u64_try_from (i : Z) (e : Error) : result Z := if i <? 0 then Err e else Ok i.

(** [get(key).ok_or_else(missing)?.as_int()?] followed by [u64::try_from]. *)
Definition get_u64 (d : list (bytes * BencodeValue)) (key : bytes) (missing negative : string) : result Z :=
  v ← ok_or (bt_get key d) (EBencode missing);
  i ← as_int v;
  u64_try_from i (EBencode negative).

(** [as_chunks::<20>().0]. *)
Definition as_chunks_20 (l : bytes) : list bytes :=
  (fun i => slice l (20 * i) 20) <$> seq 0 (length l / 20).

(** The loop over the segments of one file path. *)
Fixpoint push_segments (p : bytes) (segs : list BencodeValue) : result bytes :=
  match segs with
  | [] => Ok p
  | seg :: segs =>
      s ← as_str seg;
      if is_unsafe_path_component s then Err (EBencode "unsafe path segment")
      else push_segments (join p s) segs
  end.

Definition file_entry (fv : BencodeValue) : result FileEntry :=
  fd ← as_dict fv;
  length ← get_u64 fd (bs "length") "file missing length" "file length negative";
  pl ← ok_or (bt_get (bs "path") fd) (EBencode "file missing path");
  path_list ← as_list pl;
  p ← push_segments [] path_list;
  Ok (mkFileEntry length p).

(** The loop over a list that stops at the first error. *)
Fixpoint map_res {A B} (f : A -> result B) (l : list A) : result (list B) :=
  match l with
  | [] => Ok []
  | x :: l => y ← f x; ys ← map_res f l; Ok (y :: ys)
  end.

Definition parse_files (d : list (bytes * BencodeValue)) : result TorrentFiles :=
  match bt_get (bs "files") d with
  | Some files_v =>
      list_ ← as_list files_v;
      entries ← map_res file_entry list_;
      Ok (Multi entries)
  | None =>
      length ← get_u64 d (bs "length") "info missing length" "length negative";
      Ok (Single length)
  end.

Definition files_length (f : TorrentFiles) : result Z :=
  match f with
  | Single length => Ok length
  | Multi files => sum_u64 (fe_length <$> files)
  end.

Definition info_from_value (v : BencodeValue) : result Info :=
  d ← as_dict v;
  nv ← ok_or (bt_get (bs "name") d) (EBencode "info missing name");
  name ← as_str nv;
  if is_unsafe_path_component name then Err (EBencode "unsafe torrent name")
  else
    piece_length ← get_u64 d (bs "piece length") "info missing piece length" "piece length negative";
    if (piece_length =? 0) || (MAX_PIECE_LENGTH <? piece_length)
    then Err (EBencode "implausible piece length")
    else
      pv ← ok_or (bt_get (bs "pieces") d) (EBencode "info missing pieces");
      pieces_raw ← as_bytes pv;
      if negb (length pieces_raw mod 20 =? 0)%nat then Err (EBencode "pieces length not multiple of 20")
      else
        let piece_hashes := as_chunks_20 pieces_raw in
        let private := default false ((fun n => negb (n =? 0)) <$>
                         (bt_get (bs "private") d ≫= fun v => unpanic (as_int v))) in
        files ← parse_files d;
        total_length ← files_length files;
        if total_length =? 0 then Err (EBencode "torrent total length is zero (nothing to download)")
        else
          let expected_pieces := div_ceil total_length piece_length in
          if negb (Z.of_nat (length piece_hashes) =? expected_pieces)
          then Err (EBencode "piece hash count mismatch")
          else Ok (mkInfo name piece_length piece_hashes files private).

(** ** The raw bytes of the info dictionary *)

Definition parse_bytes_inline (input : bytes) : result bytes :=
  '(v, rest) ← parse_value input;
  match rest with
  | [] => match v with BBytes b => Ok b | _ => Err (EBencode "dict key is not bytes") end
  | _ => Err (EBencode "trailing bytes after key")
  end.

(** The [while] loop; every turn moves the cursor past at least two values. *)
Fixpoint find_info_loop (fuel : nat) (input : bytes) (cursor : nat) : result bytes :=
  match fuel with
  | O => NoFuel
  | S fuel =>
      if (cursor <? length input)%nat then
        c ← index input cursor;
        if Byte.eqb c "e" then Err (EBencode "no info dict in root")
        else
          let key_start := cursor in
          from_key ← slice_from input cursor;
          key_len ← skip_value from_key;
          let cursor := (cursor + key_len)%nat in
          key_bytes ← slice_range input key_start (key_start + key_len);
          key ← parse_bytes_inline key_bytes;
          let value_start := cursor in
          from_value ← slice_from input cursor;
          value_len ← skip_value from_value;
          let cursor := (cursor + value_len)%nat in
          if bytes_eqb key (bs "info") then slice_range input value_start (value_start + value_len)
          else find_info_loop fuel input cursor
      else Err (EBencode "malformed top-level dict")
  end.

Definition find_info_slice (input : bytes) : result bytes :=
  match input with
  | c :: _ =>
      if Byte.eqb c "d" then find_info_loop (length input) input 1
      else Err (EBencode "torrent root is not a dict")
  | [] => Err (EBencode "torrent root is not a dict")
  end.

(** ** The torrent file *)

Definition parse_announce_list (dict : list (bytes * BencodeValue)) : result (list (list bytes)) :=
  match bt_get (bs "announce-list") dict with
  | None => Ok []
  | Some v =>
      tiers ← as_list v;
      map_res (fun tier => urls ← as_list tier; map_res as_str urls) tiers
  end.

Definition torrent_from_value (root : BencodeValue) (info_hash : bytes) : result TorrentFile :=
  dict ← as_dict root;
  announce ← match bt_get (bs "announce") dict with
             | Some v => s ← as_str v; Ok (Some s)
             | None => Ok None
             end;
  announce_list ← parse_announce_list dict;
  info_v ← ok_or (bt_get (bs "info") dict) (EBencode "missing info dict");
  info ← info_from_value info_v;
  Ok (mkTorrentFile info_hash announce announce_list info).

Definition total_length (t : TorrentFile) : result Z := files_length (files (info t)).

Definition num_pieces (t : TorrentFile) : nat := length (piece_hashes (info t)).

(** [if !out.contains(url) { out.push(url.clone()) }] *)
Definition push_new (out : list bytes) (url : bytes) : list bytes :=
  if existsb (bytes_eqb url) out then out else out ++ [url].

Definition trackers (t : TorrentFile) : list bytes :=
  let out := foldl (fun out tier => foldl push_new out tier) [] (announce_list t) in
  match announce t with
  | Some a => push_new out a
  | None => out
  end.

Section sha1.
Context (sha1_of : bytes -> bytes).

Definition compute_info_hash (input : bytes) : result bytes :=
  info_slice ← find_info_slice input; Ok (sha1_of info_slice).

Definition from_bytes (input : bytes) : result TorrentFile :=
  root ← parse_all input;
  info_hash ← compute_info_hash input;
  torrent_from_value root info_hash.

Definition from_info_dict_bytes (info_bytes info_hash : bytes) (trackers : list bytes)
    : result TorrentFile :=
  let recomputed := sha1_of info_bytes in
  if negb (bytes_eqb recomputed info_hash) then Err (EBencode "info dict sha1 mismatch")
  else
    info_v ← parse_all info_bytes;
    info ← info_from_value info_v;
    let announce_list := match trackers with [] => [] | _ => [trackers] end in
    Ok (mkTorrentFile info_hash None announce_list info).
End sha1.

(** A single-file torrent of two pieces. *)
Definition info_ex : BencodeValue :=
  BDict [(bs "length", BInt 20000); (bs "name", BBytes (bs "a.bin"));
         (bs "piece length", BInt 16384); (bs "pieces", BBytes (replicate 40 "h"%byte))].
Definition torrent_ex : bytes :=
  to_bytes (BDict [(bs "announce", BBytes (bs "http://t/")); (bs "info", info_ex)]).

Example from_bytes_ex :
  (fun t => (info_hash t, piece_length (info t), num_pieces t, trackers t)) <$> from_bytes id torrent_ex
  = Ok (to_bytes info_ex, 16384, 2%nat, [bs "http://t/"]).
Proof. vm_compute. reflexivity. Qed.

(** ** Tracker lists *)

(** A list of tiers of one tracker each. *)
Definition tiers (trackers : list bytes) : BencodeValue := BList ((fun t => BList [BBytes t]) <$> trackers).

Definition usable (t : bytes) : Prop := utf8_valid t = true /\ in_u 64 (Z.of_nat (length t)) = true.

Lemma tiers_wf trackers : Forall usable trackers -> wf (tiers trackers) = true /\ (height (tiers trackers) <= 2)%nat.
Proof.
  unfold tiers. cbn [wf height]. induction 1 as [|t l [_ Ht] _ [IH1 IH2]]; [split; [done|cbn; lia]|]. cbn [fmap list_fmap forallb wf foldr height].
  unfold fmap in *. rewrite Ht, IH1. split; [done|]. cbn. lia.
Qed.

Lemma tiers_read trackers : Forall (fun t => utf8_valid t = true) trackers ->
  map_res (fun tier => urls ← as_list tier; map_res as_str urls) ((fun t => BList [BBytes t]) <$> trackers) = Ok ((fun t => [t]) <$> trackers).
Proof.
  induction 1 as [|t l Ht _ IH]; [done|]. cbn [fmap list_fmap map_res as_list mbind result_bind as_str as_bytes]. rewrite Ht. cbn [mbind result_bind]. by rewrite IH.
Qed.

Lemma fold_tiers l : forall out, foldl (fun out tier => foldl push_new out tier) out ((fun t => [t]) <$> l) = foldl push_new out l.
Proof. induction l as [|t l IH]; intros out; [done|]. apply IH. Qed.

Lemma pushed_stays l t : forall out, t ∈ out -> t ∈ foldl push_new out l.
Proof. induction l as [|x l IH]; intros out Ht; [done|]. apply IH. unfold push_new. destruct (existsb _ _); [done|]. apply elem_of_app. by left. Qed.

Lemma pushed_again t out : t ∈ out -> push_new out t = out.
Proof. intros Ht. unfold push_new. replace (existsb (bytes_eqb t) out) with true; [done|]. symmetry. apply existsb_exists. exists t. split; [by apply list_elem_of_In|apply bytes_eqb_refl]. Qed.

(** ** Validation *)

Definition entry_ok (e : FileEntry) : Prop :=
  0 <= fe_length e < 2 ^ 63 /\
  exists ss, components (fe_path e) = Normal <$> ss /\ Forall (fun s => plain s = true) ss.

(** What [Info::from_value] guarantees to the rest of the program. *)
Definition info_ok (i : Info) (total : Z) : Prop :=
  plain (name i) = true /\ 0 < piece_length i <= MAX_PIECE_LENGTH /\
  Forall (fun h => length h = 20%nat) (piece_hashes i) /\
  match files i with Single _ => True | Multi es => Forall entry_ok es end /\
  files_length (files i) = Ok total /\ 0 < total < 2 ^ 64 /\
  Z.of_nat (length (piece_hashes i)) = div_ceil total (piece_length i).

Lemma safe_plain s : is_unsafe_path_component s = false -> plain s = true.
Proof.
  unfold is_unsafe_path_component, plain. rewrite !orb_false_iff. intros [[[[-> ->] ->] H] _].
  cbn. induction s as [|c s IH]; [done|]. cbn in *. apply orb_false_iff in H as [H1 H2].
  rewrite IH, andb_true_r by done. apply negb_true_iff.
  destruct (Byte.eqb c "/") eqn:E; [|done]. apply byte_eqb_iff in E as ->. done.
Qed.

Lemma push_segments_ok segs p p' : push_segments p segs = Ok p' ->
  exists ss, components p' = components p ++ (Normal <$> ss) /\ Forall (fun s => plain s = true) ss.
Proof.
  revert p. induction segs as [|seg segs IH]; intros p; cbn [push_segments].
  { intros [= <-]. exists []. cbn. by rewrite app_nil_r. }
  intros H. inv_ok H. apply safe_plain in E. apply IH in H as (ss & Hc & Hss).
  exists (v :: ss). split; [|by constructor].
  rewrite Hc, components_join_normal by (by rewrite components_plain).
  by rewrite (components_plain v), <- app_assoc by done.
Qed.

Lemma get_u64_ok d k m n z : forallb wf_entry d = true -> get_u64 d k m n = Ok z -> 0 <= z < 2 ^ 63.
Proof.
  intros Hd H. unfold get_u64 in H. apply bind_Ok in H as (v & Hv & H).
  apply bind_Ok in H as (i & Hi & H). unfold ok_or in Hv.
  destruct (bt_get k d) eqn:Hg; [|done]. injection Hv as <-.
  apply bt_get_wf in Hg; [|done]. destruct b; try done. injection Hi as <-. cbn [wf] in Hg.
  unfold u64_try_from in H. destruct (Z.ltb_spec i0 0); [done|]. injection H as <-.
  unfold in_i64, i64_max in Hg. lia.
Qed.

Lemma map_res_Forall {A B} (f : A -> result B) (P : A -> Prop) (Q : B -> Prop) l l' :
  (forall x y, P x -> f x = Ok y -> Q y) -> Forall P l -> map_res f l = Ok l' -> Forall Q l'.
Proof.
  intros Hf Hl. revert l'. induction Hl; intros l' H'; cbn in H'; inv_ok H'; subst; constructor; eauto.
Qed.

Lemma file_entry_ok v e : wf v = true -> file_entry v = Ok e -> entry_ok e.
Proof.
  intros Hv H. unfold file_entry in H. inv_ok H. subst e.
  pose proof (as_dict_wf _ _ Hv H0) as Hd. split; [by eapply get_u64_ok|].
  apply push_segments_ok in H4 as (ss & Hc & Hss). by exists ss.
Qed.

Lemma parse_files_ok d f : forallb wf_entry d = true -> parse_files d = Ok f ->
  match f with Single n => 0 <= n < 2 ^ 63 | Multi es => Forall entry_ok es end.
Proof.
  intros Hd H. unfold parse_files in H. destruct (bt_get (bs "files") d) as [fv|] eqn:E; inv_ok H; subst f.
  - eapply map_res_Forall; [apply file_entry_ok| |done]. eapply as_list_wf; [|done].
    by eapply bt_get_wf.
  - by eapply get_u64_ok.
Qed.

Lemma files_length_range f n :
  match f with Single n => 0 <= n < 2 ^ 63 | Multi es => Forall entry_ok es end ->
  files_length f = Ok n -> 0 <= n < 2 ^ 64.
Proof.
  destruct f as [k|es]; cbn [files_length]; [intros ? [= <-]; lia|]. intros Hes.
  assert (Hn : Forall (fun x => 0 <= x) (fe_length <$> es)).
  { apply Forall_fmap. eapply list.Forall_impl; [done|]. intros e [He _]. cbn. lia. }
  pose proof (zsum_nonneg _ Hn). rewrite sum_u64_eq by done.
  destruct (Z.ltb_spec (zsum (fe_length <$> es)) (2 ^ 64)); [|done]. intros [= <-]. lia.
Qed.

Lemma length_as_chunks_20 l : Forall (fun h => length h = 20%nat) (as_chunks_20 l).
Proof.
  apply Forall_fmap, list.Forall_lookup. intros i x Hx. apply lookup_seq in Hx as [-> Hi].
  unfold compose. apply length_slice. pose proof (Nat.Div0.mul_div_le (length l) 20). lia.
Qed.

Lemma info_from_value_ok v i : wf v = true -> info_from_value v = Ok i -> exists total, info_ok i total.
Proof.
  intros Hv H. unfold info_from_value in H. repeat inv_ok H.
  subst i. apply negb_false_iff, Z.eqb_eq in E3. apply Z.eqb_neq in E2.
  apply orb_false_iff in E0 as [E0a%Z.eqb_neq E0b%Z.ltb_ge].
  pose proof (as_dict_wf _ _ Hv H0) as Hd. pose proof (get_u64_ok _ _ _ _ _ Hd H3).
  pose proof (parse_files_ok _ _ Hd H6) as Hf. pose proof (files_length_range _ _ Hf H7).
  exists v7. split_and!; cbn; try done; try lia.
  - by apply safe_plain.
  - apply length_as_chunks_20.
  - by destruct v6.
Qed.

(** ** The bytes of the info dictionary *)

Lemma parse_depth_le fuel :
  (forall i d d' x, (d' <= d)%nat -> parse_value_depth fuel i d = Ok x -> parse_value_depth fuel i d' = Ok x) /\
  (forall i items d d' x, (d' <= d)%nat -> parse_list fuel i items d = Ok x -> parse_list fuel i items d' = Ok x) /\
  (forall i m p d d' x, (d' <= d)%nat -> parse_dict fuel i m p d = Ok x -> parse_dict fuel i m p d' = Ok x).
Proof.
  induction fuel as [|f (IHv & IHl & IHd)]; [done|]. split_and!.
  - intros i d d' x Hd. cbn [parse_value_depth].
    destruct (Nat.ltb_spec MAX_DEPTH d); [done|]. destruct (Nat.ltb_spec MAX_DEPTH d'); [lia|].
    destruct i; [done|]. repeat (case_match; try done); eauto.
  - intros i items d d' x Hd. cbn [parse_list]. destruct i; [done|]. case_match; [done|].
    intros H'. apply bind_Ok in H' as ([v r] & Hv & H').
    rewrite (IHv _ (S d) (S d') _ ltac:(lia) Hv). cbn. eauto.
  - intros i m p d d' x Hd. cbn [parse_dict]. destruct i; [done|]. case_match; [done|].
    intros H'. apply bind_Ok in H' as ([key r] & Hk & H'). rewrite Hk. cbn [mbind result_bind].
    case_match; [done|]. apply bind_Ok in H' as ([v r'] & Hv & H').
    rewrite (IHv _ (S d) (S d') _ ltac:(lia) Hv). cbn. eauto.
Qed.

Lemma parse_value_split input v rest : parse_value input = Ok (v, rest) ->
  exists c, input = c ++ rest /\ c <> [] /\ skip_value input = Ok (length c) /\ parse_value c = Ok (v, []).
Proof.
  intros H. unfold skip_value. rewrite H. cbn. unfold parse_value in *.
  destruct (proj1 (parse_sound _) _ _ _ _ H) as [_ (c & -> & Hc & Hl)].
  exists c. split_and!; [done|done| |].
  - f_equal. rewrite length_app. lia.
  - specialize (Hl (2 * length c + 1)%nat [] (Nat.le_refl _)). by rewrite app_nil_r in Hl.
Qed.

(** A value nested in a dictionary is read alike on its own. *)
Lemma nested_value f i d v r : parse_value_depth f i d = Ok (v, r) -> parse_value i = Ok (v, r).
Proof.
  intros H. destruct (proj1 (parse_sound _) _ _ _ _ H) as [_ (c & -> & _ & Hl)].
  unfold parse_value. eapply (proj1 (parse_depth_le _)); [apply Nat.le_0_l|].
  apply Hl. rewrite length_app. lia.
Qed.

Lemma parse_list_shape f rest items d v r : parse_list f rest items d = Ok (v, r) -> exists l, v = BList l.
Proof.
  revert rest items r. induction f as [|f IH]; intros rest items r; cbn [parse_list]; [done|].
  destruct rest; [done|]. case_match; [intros [= <- _]; eauto|].
  intros H'. apply bind_Ok in H' as ([x r'] & _ & H'). eauto.
Qed.

(** The keys of a dictionary ascend, so an entry once read stays. *)
Lemma parse_dict_get f rest map p d v r : parse_dict f rest map p d = Ok (v, r) ->
  exists m, v = BDict m /\ forall k pk, p = Some pk -> k = pk \/ bytes_ltb k pk = true ->
    bt_get k m = bt_get k map.
Proof.
  revert rest map p r. induction f as [|f IH]; intros rest map p r; cbn [parse_dict]; [done|].
  destruct rest as [|c rest]; [done|]. destruct (Byte.eqb c "e"); [intros [= <- _]; eauto|].
  intros H'. apply bind_Ok in H' as ([key r0] & _ & H').
  destruct (match p with Some _ => _ | None => _ end) eqn:Hp; [done|].
  apply bind_Ok in H' as ([x r'] & _ & H'). apply IH in H' as (m & -> & H').
  exists m. split; [done|]. intros k pk -> Hk. apply negb_false_iff in Hp.
  assert (Hlt : bytes_ltb k key = true).
  { destruct Hk as [->|Hk]; [done|]. by eapply bytes_ltb_trans. }
  rewrite (H' k key) by auto. apply bt_get_insert_ne. intros ->.
  by rewrite bytes_ltb_irrefl in Hlt.
Qed.

Lemma parse_value_bytes i b r : parse_value i = Ok (BBytes b, r) -> parse_bytes i = Ok (b, r).
Proof.
  unfold parse_value. rewrite Nat.add_1_r. cbn [parse_value_depth]. case_match; [done|].
  destruct i as [|c i]; [done|].
  destruct (Byte.eqb c "i"). { intros H'. unfold parse_int in H'. by repeat inv_ok H'. }
  destruct (Byte.eqb c "l"). { by intros [? ?]%parse_list_shape. }
  destruct (Byte.eqb c "d"). { by intros (? & ? & _)%parse_dict_get. }
  destruct (is_digit c); [|done]. intros H'. apply bind_Ok in H' as ([b' r'] & -> & [= -> ->]). done.
Qed.

(** One turn of the loop, as the parser sees it. *)
Lemma find_info_turn fuel pre c l : Byte.eqb c "e" = false ->
  find_info_loop (S fuel) (pre ++ c :: l) (length pre) =
  '(vk, rk) ← parse_value (c :: l);
  match vk with
  | BBytes key =>
      '(_, rest) ← parse_value rk;
      if bytes_eqb key (bs "info") then Ok (take (length rk - length rest) rk)
      else find_info_loop fuel (pre ++ c :: l) (length (pre ++ c :: l) - length rest)
  | _ => Err (EBencode "dict key is not bytes")
  end.
Proof.
  intros Ec. cbn [find_info_loop].
  destruct (Nat.ltb_spec (length pre) (length (pre ++ c :: l))) as [Hlt|Hge];
    [|rewrite length_app in Hge; cbn in Hge; lia].
  rewrite (index_Some _ _ c) by (by rewrite list_lookup_middle). cbn [mbind result_bind]. rewrite Ec.
  rewrite slice_from_Ok by lia. rewrite drop_app_length. cbn [mbind result_bind].
  destruct (parse_value (c :: l)) as [[vk rk]| | |] eqn:Hk; [|unfold skip_value; rewrite ?Hk; done..].
  apply parse_value_split in Hk as (ck & -> & _ & -> & Pk). cbn [mbind result_bind].
  rewrite slice_range_Ok by (rewrite ?length_app; lia).
  replace (length pre + length ck - length pre)%nat with (length ck) by lia.
  unfold slice at 1. rewrite drop_app_length, take_app_length. cbn [mbind result_bind].
  unfold parse_bytes_inline. rewrite Pk. cbn [mbind result_bind]. destruct vk as [|key| |]; try done.
  cbn [mbind result_bind]. rewrite slice_from_Ok by (rewrite ?length_app; lia).
  rewrite drop_app_add', drop_app_length by done. cbn [mbind result_bind].
  destruct (parse_value rk) as [[v rest]| | |] eqn:Hv; [|unfold skip_value; rewrite ?Hv; done..].
  apply parse_value_split in Hv as (cv & -> & _ & -> & _). cbn [mbind result_bind].
  rewrite slice_range_Ok by (rewrite !length_app; lia). unfold slice.
  rewrite drop_app_add', drop_app_length by done. rewrite !length_app.
  destruct (bytes_eqb key _); [f_equal; f_equal; lia|]. f_equal. lia.
Qed.

(** The key of an entry at the head of the input. *)
Lemma key_back k r : in_u 64 (Z.of_nat (length k)) = true ->
  exists c l, to_bytes (BBytes k) ++ r = c :: l /\ Byte.eqb c "e" = false /\ parse_value (c :: l) = Ok (BBytes k, r).
Proof.
  intros Hk. pose proof (parse_value_back (BBytes k) r Hk ltac:(cbn; lia)) as E. destruct (to_bytes_head (BBytes k)) as (c & t & Ht & Hc).
  exists c, (t ++ r). rewrite Ht in *. done.
Qed.

Lemma find_info_past f pre k c v rest : in_u 64 (Z.of_nat (length k)) = true -> bytes_eqb k (bs "info") = false -> parse_value (c ++ rest) = Ok (v, rest) ->
  find_info_loop (S f) (pre ++ to_bytes (BBytes k) ++ c ++ rest) (length pre) = find_info_loop f ((pre ++ to_bytes (BBytes k) ++ c) ++ rest) (length (pre ++ to_bytes (BBytes k) ++ c)).
Proof.
  intros Hk Hi Hv. destruct (key_back k (c ++ rest) Hk) as (b & l & El & Eb & Ek). rewrite El, (find_info_turn f pre b l Eb), Ek. cbn [mbind result_bind]. rewrite Hv. cbn [mbind result_bind]. rewrite Hi, <- El.
  f_equal; [by rewrite <- !app_assoc|]. rewrite !length_app. lia.
Qed.

Lemma find_info_here f pre c v rest : parse_value (c ++ rest) = Ok (v, rest) ->
  find_info_loop (S f) (pre ++ to_bytes (BBytes (bs "info")) ++ c ++ rest) (length pre) = Ok c.
Proof.
  intros Hv. destruct (key_back (bs "info") (c ++ rest) eq_refl) as (b & l & El & Eb & Ek). rewrite El, (find_info_turn f pre b l Eb), Ek. cbn [mbind result_bind]. rewrite Hv. cbn [mbind result_bind].
  change (bytes_eqb (bs "info") (bs "info")) with true. cbv iota. rewrite length_app. f_equal. apply take_app_length'. lia.
Qed.

(** The search in a canonical dictionary. *)
Lemma find_info_entries m v : forall f pre r, forallb wf_entry m = true -> (height_dict m <= MAX_DEPTH)%nat -> bt_get (bs "info") m = Some v -> (length m <= f)%nat ->
  find_info_loop f (pre ++ flat_map entry_bytes m ++ r) (length pre) = Ok (to_bytes v).
Proof.
  induction m as [|[k w] m IH]; intros f pre r Hw Hh Hg Hf; [done|]. destruct f as [|f]; [cbn in Hf; lia|].
  cbn [forallb wf_entry] in Hw. apply andb_true_iff in Hw as [[Hk Hw]%andb_true_iff Hm]. cbn [height_dict foldr] in Hh. fold (height_dict m) in Hh. cbn [length] in Hf.
  cbn [flat_map entry_bytes]. change (show_u _ ++ ":"%byte :: k) with (to_bytes (BBytes k)). rewrite <- !app_assoc.
  pose proof (parse_value_back w (flat_map entry_bytes m ++ r) Hw ltac:(lia)) as E. destruct (bytes_eqb k (bs "info")) eqn:Ei.
  - apply bytes_eqb_eq in Ei as ->. rewrite bt_get_hit in Hg. injection Hg as <-. by eapply find_info_here.
  - rewrite (find_info_past _ _ k _ w) by done. apply IH; [done|lia| |lia]. rewrite bt_get_skip in Hg; [done|].
    destruct (bytes_eqb (bs "info") k) eqn:E2; [|done]. apply bytes_eqb_eq in E2 as <-. by rewrite bytes_eqb_refl in Ei.
Qed.

Lemma find_info_end fuel pre c l : Byte.eqb c "e" = true ->
  find_info_loop (S fuel) (pre ++ c :: l) (length pre) = Err (EBencode "no info dict in root").
Proof.
  intros Ec. cbn [find_info_loop].
  destruct (Nat.ltb_spec (length pre) (length (pre ++ c :: l))) as [Hlt|Hge];
    [|rewrite length_app in Hge; cbn in Hge; lia].
  rewrite (index_Some _ _ c) by (by rewrite list_lookup_middle). cbn [mbind result_bind]. by rewrite Ec.
Qed.

(** A list at a cursor, as the loop sees it. *)
Lemma at_cursor {A} (l : list A) n : (n <= length l)%nat ->
  exists a b, l = a ++ b /\ n = length a /\ drop n l = b.
Proof. intros. exists (take n l), (drop n l). rewrite take_drop, length_take. split_and!; [done|lia|done]. Qed.

(** What the loop returns when the whole input parses from the same place. *)
Lemma find_info_loop_ok fuel : forall pf input cursor map p root r sl,
  (cursor <= length input)%nat ->
  parse_dict pf (drop cursor input) map p 0 = Ok (root, r) ->
  find_info_loop fuel input cursor = Ok sl ->
  exists pre post d v, input = pre ++ sl ++ post /\ parse_all sl = Ok v /\
    root = BDict d /\ bt_get (bs "info") d = Some v.
Proof.
  induction fuel as [|fuel IH]; intros pf input cursor map p root r sl Hc; [done|].
  destruct (at_cursor _ _ Hc) as (pre & l & -> & -> & ->). intros Hd H.
  destruct pf as [|pf]; [done|]. cbn [parse_dict] in Hd. destruct l as [|c l]; [done|].
  destruct (Byte.eqb c "e") eqn:Ec; [by rewrite find_info_end in H|].
  apply bind_Ok in Hd as ([key r0] & Hk & Hd). case_match; [done|].
  apply bind_Ok in Hd as ([v r1] & Hv & Hd). apply nested_value in Hv.
  rewrite find_info_turn in H by done. apply bind_Ok in H as ([vk rk] & Hpk & H).
  destruct vk as [|key'| |]; try done. destruct (parse_value_split _ _ _ Hpk) as (ck & Ek & _).
  apply parse_value_bytes in Hpk. rewrite Hk in Hpk. injection Hpk as -> <-.
  rewrite Hv in H. cbn [mbind result_bind] in H.
  destruct (parse_value_split _ _ _ Hv) as (cv & -> & _ & _ & Pv). rewrite Ek in *.
  destruct (bytes_eqb key' _) eqn:Eq.
  - rewrite take_app_length' in H by (rewrite length_app; lia). injection H as <-.
    apply bytes_eqb_eq in Eq as ->. apply parse_dict_get in Hd as (m & -> & Hm).
    exists (pre ++ ck), r1, m, v. rewrite <- !app_assoc. split_and!; try done.
    + unfold parse_all. by rewrite Pv.
    + rewrite (Hm _ (bs "info")) by auto. apply bt_get_insert.
  - eapply (IH pf); [|..|exact H]; [rewrite !length_app; lia|].
    replace (pre ++ ck ++ cv ++ r1) with ((pre ++ ck ++ cv) ++ r1) by (by rewrite <- !app_assoc).
    rewrite drop_app_length' by (rewrite !length_app; lia). exact Hd.
Qed.

(** The loop always ends in a slice or an error. *)
Lemma find_info_loop_returns fuel : forall input cursor, (cursor <= length input)%nat ->
  (length input - cursor < fuel)%nat -> returns (find_info_loop fuel input cursor) = true.
Proof.
  induction fuel as [|fuel IH]; intros input cursor Hc; [lia|].
  destruct (at_cursor _ _ Hc) as (pre & l & -> & -> & _). intros Hf. destruct l as [|c l].
  { cbn [find_info_loop]. by rewrite app_nil_r, Nat.ltb_irrefl. }
  destruct (Byte.eqb c "e") eqn:Ec; [by rewrite find_info_end|]. rewrite find_info_turn by done.
  apply bind_returns; [apply parse_value_returns|]. intros [vk rk] Hk. destruct vk; try done.
  apply bind_returns; [apply parse_value_returns|]. intros [v rest] Hv. case_match; [done|].
  apply parse_value_split in Hk as (ck & Ek & Hck & _). apply parse_value_split in Hv as (cv & -> & _).
  rewrite Ek in *.
  apply IH; [lia|]. rewrite !length_app in *. destruct ck; [done|]. cbn in *. lia.
Qed.

Lemma find_info_slice_returns input : returns (find_info_slice input) = true.
Proof.
  destruct input as [|c l]; [done|]. cbn [find_info_slice]. case_match; [|done].
  apply find_info_loop_returns; cbn; lia.
Qed.

Lemma find_info_slice_ok input root sl :
  parse_all input = Ok root -> find_info_slice input = Ok sl ->
  exists pre post d v, input = pre ++ sl ++ post /\ parse_all sl = Ok v /\
    root = BDict d /\ bt_get (bs "info") d = Some v.
Proof.
  intros Hp Hs. destruct input as [|c l]; [done|]. cbn [find_info_slice] in Hs.
  destruct (Byte.eqb c "d") eqn:Ed; [|done]. apply byte_eqb_iff in Ed as ->.
  apply bind_Ok in Hp as ([v rest] & Hp & Hv). unfold parse_value in Hp.
  rewrite Nat.add_1_r in Hp. destruct rest; [|done]. injection Hv as ->.
  change (parse_dict (2 * length ("d"%byte :: l)) (drop 1 ("d"%byte :: l)) [] None 0 = Ok (root, [])) in Hp.
  eapply find_info_loop_ok; [|exact Hp|exact Hs]. cbn. lia.
Qed.

Lemma from_bytes_info sha input t : from_bytes sha input = Ok t ->
  exists pre sl post d v, input = pre ++ sl ++ post /\ parse_all sl = Ok v /\
    parse_all input = Ok (BDict d) /\ bt_get (bs "info") d = Some v /\
    info_hash t = sha sl /\ info_from_value v = Ok (info t).
Proof.
  intros H. apply bind_Ok in H as (root & Hr & H). apply bind_Ok in H as (ih & Hih & H).
  apply bind_Ok in Hih as (sl & Hsl & Hih). injection Hih as <-.
  destruct (find_info_slice_ok _ _ _ Hr Hsl) as (pre & post & d & v & -> & Hv & -> & Hg).
  exists pre, sl, post, d, v. unfold torrent_from_value in H. cbn [as_dict mbind result_bind] in H.
  rewrite Hg in H. apply bind_Ok in H as (a & _ & H). apply bind_Ok in H as (al & _ & H).
  cbn [ok_or mbind result_bind] in H. apply bind_Ok in H as (i & Hi & H). injection H as <-. done.
Qed.

(** ** Theorems *)

(** C23: the info hash identifies the bytes of the info dictionary in the file.
    The search for them always ends in a slice or an error of the crate, on
    any input.  When [from_bytes] accepts a file, the hashed slice lies inside
    it, parses on its own to the very value the parser stored under [info],
    and the metadata is what [Info::from_value] read from that value. *)
Theorem info_hash_exact sha input :
  returns (find_info_slice input) = true /\
  forall t, from_bytes sha input = Ok t ->
    exists pre sl post d v, input = pre ++ sl ++ post /\ parse_all sl = Ok v /\
      parse_all input = Ok (BDict d) /\ bt_get (bs "info") d = Some v /\
      info_hash t = sha sl /\ info_from_value v = Ok (info t).
Proof. split; [apply find_info_slice_returns|]. apply from_bytes_info. Qed.

Lemma info_hash_exact_witness :
  exists t pre sl post, from_bytes id torrent_ex = Ok t /\
    torrent_ex = pre ++ sl ++ post /\ info_hash t = sl.
Proof.
  destruct (from_bytes id torrent_ex) as [t| | |] eqn:E; [|vm_compute in E; discriminate E..].
  destruct (info_hash_exact id torrent_ex) as [_ H].
  destruct (H t E) as (pre & sl & post & d & v & H1 & _ & _ & _ & H2 & _).
  exists t, pre, sl, post. split_and!; [reflexivity|exact H1|exact H2].
Defined.

(** Validation.  The metadata of every accepted torrent, from a file or from
    a magnet link, has a plain name, file paths that are lists of plain
    components, a piece length between 1 byte and 1 GiB, a total length that
    is positive and fits [u64], and exactly the piece hashes that length
    needs; and a [PieceManager] can be built from these numbers. *)
Lemma torrent_validated sha t :
  (exists input, from_bytes sha input = Ok t) \/
  (exists b h tr, from_info_dict_bytes sha b h tr = Ok t) ->
  exists total, info_ok (info t) total /\ total_length t = Ok total /\
    Z.of_nat (num_pieces t) = div_ceil total (piece_length (info t)) /\
    exists pm, Pieces.new (piece_length (info t)) total (num_pieces t) = Ok pm /\ pm_ok pm.
Proof.
  intros H. assert (exists v, wf v = true /\ info_from_value v = Ok (info t)) as (v & Hw & Hv).
  { destruct H as [(input & H)|(b & h & tr & H)].
    - apply from_bytes_info in H as (_ & sl & _ & _ & v & _ & H & _ & _ & _ & Hi).
      exists v. split; [by eapply parse_all_wf|done].
    - unfold from_info_dict_bytes in H. repeat inv_ok H. subst t. exists v.
      split; [by eapply parse_all_wf|done]. }
  apply info_from_value_ok in Hv as (total & Hi); [|done]. exists total.
  pose proof Hi as (_ & Hp & _ & _ & Hl & Ht & Hn). split_and!; [done|done|done|].
  assert (1 <= div_ceil total (piece_length (info t)) <= total) by (by apply div_ceil_bounds).
  destruct (new_eq (piece_length (info t)) total (num_pieces t)) as (pm & E & Hpm & _); [|by exists pm].
  unfold geom_ok, num_pieces. rewrite !andb_true_iff, !Z.ltb_lt, !Z.leb_le, Nat.ltb_lt.
  change MAX_PIECE_LENGTH with 1073741824 in Hp. lia.
Qed.

Lemma torrent_validated_witness :
  exists t total, from_bytes id torrent_ex = Ok t /\ total_length t = Ok total.
Proof.
  destruct (from_bytes id torrent_ex) as [t| | |] eqn:E; [|vm_compute in E; discriminate E..].
  destruct (torrent_validated id t (or_introl (ex_intro _ torrent_ex E))) as (total & _ & H & _).
  exists t, total. split; [reflexivity|exact H].
Defined.

(** Three files of [i64::MAX] bytes overflow the [u64] sum of their lengths. *)
Definition huge_file : BencodeValue :=
  BDict [(bs "length", BInt i64_max); (bs "path", BList [BBytes (bs "f")])].
Definition huge_ex : bytes :=
  to_bytes (BDict [(bs "info", BDict [(bs "files", BList [huge_file; huge_file; huge_file]);
    (bs "name", BBytes (bs "n")); (bs "piece length", BInt 16384); (bs "pieces", BBytes [])])]).

Lemma huge_torrent_panics sha : from_bytes sha huge_ex = Panic.
Proof. vm_compute. reflexivity. Qed.
