(* ===== verification/Layout.v ===== *)
(** * Storage layout: [src/src/storage/layout.rs]

    Maps the byte stream of a torrent to physical files, contains
    attacker-controlled paths below the download root, and computes which
    pieces and files a selection needs.  Paths are those of [Paths.v];
    [to_string_lossy] and [display] are the identity, which they are on the
    UTF-8 names the torrent reader lets through and on a UTF-8 root. *)

From Stdlib Require Import ZArith Lia String Strings.Byte.
From stdpp Require Import base tactics numbers list option sorting.
From S2P Require Import Prelude Paths Torrent.

(** ** Data *)

Record FileSpan := mkFileSpan { path : bytes; start : Z; fs_length : Z }.

Definition span_end (f : FileSpan) : result Z := checked 64 (start f + fs_length f).

Record Layout := mkLayout {
  root : bytes;
  l_files : list FileSpan;
  l_piece_length : Z;
  l_total_length : Z;
  l_num_pieces : nat;
}.

(** ** Path containment *)

Definition WINDOWS_RESERVED : list bytes :=
  bs <$> ["con"; "prn"; "aux"; "nul"; "com1"; "com2"; "com3"; "com4"; "com5"; "com6"; "com7"; "com8";
          "com9"; "lpt1"; "lpt2"; "lpt3"; "lpt4"; "lpt5"; "lpt6"; "lpt7"; "lpt8"; "lpt9"]%string.

Definition is_windows_reserved (name : bytes) : bool :=
  let lower := to_ascii_lowercase name in
  let trimmed := trim_end (fun c => Byte.eqb c " " || Byte.eqb c ".") lower in
  let stem := default trimmed (head (split_on "." trimmed)) in
  existsb (bytes_eqb stem) WINDOWS_RESERVED.

Definition joined_under_root (base rel : bytes) : result bytes :=
  let full := join base rel in
  if negb (starts_with full base) then Err (EBencode "unsafe torrent path: escapes its download root")
  else Ok full.

Definition ensure_safe_leaf_name (name : bytes) : result unit :=
  match components name with
  | [Normal part] =>
      if is_windows_reserved part then Err (EBencode "unsafe torrent name: reserved device name")
      else Ok tt
  | _ => Err (EBencode "unsafe torrent name: must be a single plain path component")
  end.

(** The loop over the components; [any] is whether one was seen. *)
Fixpoint check_components (any : bool) (cs : list Component) : result bool :=
  match cs with
  | [] => Ok any
  | Normal part :: cs =>
      if is_windows_reserved part then Err (EBencode "unsafe torrent path: reserved device name")
      else check_components true cs
  | _ :: _ => Err (EBencode "unsafe torrent path: not a plain relative component")
  end.

Definition ensure_safe_relative_path (p : bytes) : result unit :=
  any ← check_components false (components p);
  if negb any then Err (EBencode "unsafe torrent path: empty path") else Ok tt.

(** ** Construction *)

(** The loop over the entries of a multi-file torrent. *)
Fixpoint push_spans (base : bytes) (offset : Z) (entries : list FileEntry) : result (list FileSpan) :=
  match entries with
  | [] => Ok []
  | e :: entries =>
      _ ← ensure_safe_relative_path (fe_path e);
      full ← joined_under_root base (fe_path e);
      offset' ← checked 64 (offset + fe_length e);
      rest ← push_spans base offset' entries;
      Ok (mkFileSpan full offset (fe_length e) :: rest)
  end.

Definition from_torrent (root : bytes) (t : TorrentFile) : result Layout :=
  _ ← ensure_safe_leaf_name (name (info t));
  files ← match files (info t) with
          | Single length =>
              p ← joined_under_root root (name (info t));
              Ok [mkFileSpan p 0 length]
          | Multi entries => push_spans (join root (name (info t))) 0 entries
          end;
  total ← total_length t;
  Ok (mkLayout root files (piece_length (info t)) total (num_pieces t)).

(** ** Byte ranges *)

Fixpoint slices_loop (global_start end_ : Z) (i : nat) (files : list FileSpan)
    : result (list (nat * Z * Z)) :=
  match files with
  | [] => Ok []
  | f :: files =>
      f_end ← span_end f;
      if f_end <=? global_start then slices_loop global_start end_ (S i) files
      else if end_ <=? start f then Ok []
      else
        let slice_start := Z.max global_start (start f) in
        let slice_end := Z.min end_ f_end in
        if slice_end <=? slice_start then slices_loop global_start end_ (S i) files
        else
          rest ← slices_loop global_start end_ (S i) files;
          Ok ((i, slice_start - start f, slice_end - slice_start) :: rest)
  end.

Definition slices (l : Layout) (global_start length : Z) : result (list (nat * Z * Z)) :=
  end_ ← checked 64 (global_start + length);
  slices_loop global_start end_ 0 (l_files l).

Definition slices_for_piece (l : Layout) (piece_index : nat) (piece_size : Z) : result (list (nat * Z * Z)) :=
  global_start ← checked 64 (Z.of_nat piece_index * l_piece_length l);
  slices l global_start piece_size.

(** ** Selection *)

Definition selected (selectors : list bytes) (f : FileSpan) : bool :=
  existsb (fun s => contains s (path f)) selectors.

Definition selected_paths (l : Layout) (selectors : list bytes) : list bytes :=
  path <$> List.filter (fun f => (length selectors =? 0)%nat || selected selectors f) (l_files l).

(** [iter().any(p)], stopping at the first hit. *)
Fixpoint any_res {A} (p : A -> result bool) (l : list A) : result bool :=
  match l with
  | [] => Ok false
  | x :: l => p x ≫= fun b : bool => if b then Ok true else any_res p l
  end.

Definition wanted_piece (l : Layout) (sel : list FileSpan) (idx : nat) : result bool :=
  piece_start ← checked 64 (Z.of_nat idx * l_piece_length l);
  piece_end ← checked 64 (piece_start + l_piece_length l);
  let piece_end := Z.min piece_end (l_total_length l) in
  any_res (fun f =>
    if start f <? piece_end then e ← span_end f; Ok (piece_start <? e) else Ok false) sel.

Definition wanted_pieces (l : Layout) (selectors : list bytes) : result (list bool) :=
  match selectors with
  | [] => Ok (replicate (l_num_pieces l) true)
  | _ =>
      let sel := List.filter (fun f => selected selectors f) (l_files l) in
      map_res (wanted_piece l sel) (seq 0 (l_num_pieces l))
  end.

Definition l_piece_size (l : Layout) (index : nat) : result Z :=
  if (index + 1 =? l_num_pieces l)%nat then
    if l_piece_length l =? 0 then Panic
    else
      let r := l_total_length l mod l_piece_length l in
      Ok (if r =? 0 then l_piece_length l else r)
  else Ok (l_piece_length l).

Fixpoint mark_files (wanted : list bool) (sl : list (nat * Z * Z)) : result (list bool) :=
  match sl with
  | [] => Ok wanted
  | (file_idx, _, _) :: sl => w ← set_index wanted file_idx true; mark_files w sl
  end.

Fixpoint wanted_files_loop (l : Layout) (wanted : list bool) (idx : nat) (pieces : list bool)
    : result (list bool) :=
  match pieces with
  | [] => Ok wanted
  | false :: pieces => wanted_files_loop l wanted (S idx) pieces
  | true :: pieces =>
      piece_size ← l_piece_size l idx;
      sl ← slices_for_piece l idx piece_size;
      w ← mark_files wanted sl;
      wanted_files_loop l w (S idx) pieces
  end.

Definition wanted_files (l : Layout) (selectors : list bytes) : result (list bool) :=
  match selectors with
  | [] => Ok (replicate (length (l_files l)) true)
  | _ =>
      wp ← wanted_pieces l selectors;
      wanted_files_loop l (replicate (length (l_files l)) false) 0 wp
  end.

(** Three files of 150, 100 and 50 bytes in pieces of 100 bytes. *)
Definition layout_ex : Layout :=
  mkLayout (bs "/dl")
    [mkFileSpan (bs "/dl/pkg/a.txt") 0 150; mkFileSpan (bs "/dl/pkg/b.txt") 150 100;
     mkFileSpan (bs "/dl/pkg/c.txt") 250 50] 100 300 3.

Example slices_ex : slices layout_ex 100 100 = Ok [(0%nat, 100, 50); (1%nat, 0, 50)].
Proof. vm_compute. reflexivity. Qed.
Example wanted_files_ex : wanted_files layout_ex [bs "c.txt"] = Ok [false; true; true].
Proof. vm_compute. reflexivity. Qed.
Example reserved_ex :
  is_windows_reserved <$> [bs "CON"; bs "nul.txt"; bs "com1 ."; bs "console.txt"] = [true; true; true; false].
Proof. vm_compute. reflexivity. Qed.

(** ** Well-formed layouts *)

(** Files laid end to end from [base]. *)
Fixpoint contiguous (base : Z) (files : list FileSpan) : Prop :=
  match files with
  | [] => True
  | f :: files => start f = base /\ 0 <= fs_length f /\ contiguous (base + fs_length f) files
  end.

Definition span_sum (files : list FileSpan) : Z := zsum (fs_length <$> files).

Definition layout_ok (l : Layout) : Prop :=
  contiguous 0 (l_files l) /\ span_sum (l_files l) = l_total_length l /\
  0 < l_total_length l < 2 ^ 64 /\ 0 < l_piece_length l /\
  Z.of_nat (l_num_pieces l) = div_ceil (l_total_length l) (l_piece_length l).

(** Path of a file below [root]: plain components, none of them a device. *)
Definition below (root : bytes) (p : bytes) : Prop :=
  exists ss, ss <> [] /\ components p = components root ++ (Normal <$> ss) /\
    Forall (fun s => is_windows_reserved s = false) ss.

Lemma check_components_ok any cs r : check_components any cs = Ok r ->
  exists ss, cs = Normal <$> ss /\ Forall (fun s => is_windows_reserved s = false) ss /\
    (r = any /\ ss = [] \/ r = true /\ ss <> []).
Proof.
  revert any. induction cs as [|[| | |part] cs IH]; intros any; cbn [check_components]; try done.
  - intros [= <-]. exists []. auto.
  - destruct (is_windows_reserved part) eqn:E; [done|]. intros H.
    apply IH in H as (ss & -> & Hss & Hr). exists (part :: ss). split_and!; [done|by constructor|].
    right. by destruct Hr as [[-> _]|[-> _]].
Qed.

Lemma normals ss : forallb is_normal (Normal <$> ss) = true.
Proof. by induction ss. Qed.

Lemma joined_ok base rel full : forallb is_normal (components rel) = true ->
  joined_under_root base rel = Ok full ->
  full = join base rel /\ components full = components base ++ components rel.
Proof.
  intros H. unfold joined_under_root. rewrite join_starts_with by done. intros [= <-].
  split; [done|]. by apply components_join_normal.
Qed.

Lemma leaf_name_ok n : ensure_safe_leaf_name n = Ok tt ->
  exists part, components n = [Normal part] /\ is_windows_reserved part = false.
Proof.
  unfold ensure_safe_leaf_name. destruct (components n) as [|[| | |part] [|? ?]]; try done.
  destruct (is_windows_reserved part) eqn:E; [done|]. intros _. by exists part.
Qed.

Lemma relative_path_ok p : ensure_safe_relative_path p = Ok tt ->
  exists ss, ss <> [] /\ components p = Normal <$> ss /\ Forall (fun s => is_windows_reserved s = false) ss.
Proof.
  unfold ensure_safe_relative_path. intros H. apply bind_Ok in H as (any & H & E).
  apply check_components_ok in H as (ss & Hc & Hss & Hr). exists ss. split_and!; try done.
  destruct Hr as [[-> _]|[_ Hr]]; done.
Qed.

Lemma below_join root n p : ensure_safe_leaf_name n = Ok tt -> ensure_safe_relative_path p = Ok tt ->
  forall full, joined_under_root (join root n) p = Ok full -> below root full.
Proof.
  intros Hn Hp full H. apply leaf_name_ok in Hn as (part & Cn & Rn).
  apply relative_path_ok in Hp as (ss & Hs & Cp & Rp).
  apply joined_ok in H as [_ Hc]; [|rewrite Cp; apply normals].
  exists (part :: ss). split_and!; [done| |by constructor].
  rewrite Hc, components_join_normal, Cn, Cp, <- app_assoc by (by rewrite Cn). done.
Qed.

Lemma push_spans_below root n entries : ensure_safe_leaf_name n = Ok tt -> forall base files,
  push_spans (join root n) base entries = Ok files -> Forall (fun f => below root (path f)) files.
Proof.
  intros Hn. induction entries as [|e entries IH]; intros base files; cbn [push_spans].
  { by intros [= <-]. }
  intros H. repeat inv_ok H. subst files. destruct v. constructor; [by eapply below_join|by eapply IH].
Qed.

(** Names [from_torrent] lets through. *)
Definition safe_path (p : bytes) : Prop :=
  exists ss, ss <> [] /\ components p = Normal <$> ss /\ Forall (fun s => is_windows_reserved s = false) ss.

Definition safe_names (i : Info) : Prop :=
  is_windows_reserved (name i) = false /\
  match files i with Single _ => True | Multi es => Forall (fun e => safe_path (fe_path e)) es end.

Lemma check_components_safe any ss : Forall (fun s => is_windows_reserved s = false) ss ->
  check_components any (Normal <$> ss) = Ok (match ss with [] => any | _ => true end).
Proof.
  intros H. revert any. induction H as [|s ss Hs _ IH]; intros any; [done|].
  cbn [fmap list_fmap check_components]. rewrite Hs, IH. by destruct ss.
Qed.

Lemma relative_path_safe p : safe_path p -> ensure_safe_relative_path p = Ok tt.
Proof.
  intros (ss & Hs & Hc & Hr). unfold ensure_safe_relative_path.
  rewrite Hc, check_components_safe by done. by destruct ss.
Qed.

Lemma check_components_returns any cs : returns (check_components any cs) = true.
Proof.
  revert any. induction cs as [|[| | |part] cs IH]; intros any; cbn [check_components]; try done.
  by destruct (is_windows_reserved part).
Qed.

Lemma relative_path_returns p : returns (ensure_safe_relative_path p) = true.
Proof.
  apply bind_returns; [apply check_components_returns|]. intros any _. by destruct any.
Qed.

(** With lengths that fit, the loop ends in a well-formed layout or an error. *)
Lemma push_spans_spec base b entries :
  0 <= base -> Forall entry_ok entries -> base + zsum (fe_length <$> entries) < 2 ^ 64 ->
  returns (push_spans b base entries) = true /\
  (Forall (fun e => safe_path (fe_path e)) entries <-> is_ok (push_spans b base entries) = true) /\
  forall files, push_spans b base entries = Ok files ->
    contiguous base files /\ fs_length <$> files = fe_length <$> entries.
Proof.
  intros Hb He. revert base Hb. induction He as [|e entries [Hl _] He IH]; intros base Hb; cbn [push_spans].
  { intros _. split_and!; [done|done|]. by intros ? [= <-]. }
  rewrite fmap_cons. change (zsum (fe_length e :: ?l)) with (fe_length e + zsum l). intros Hs.
  assert (0 <= zsum (fe_length <$> entries)).
  { apply zsum_nonneg, Forall_fmap. eapply list.Forall_impl; [done|]. intros ? [? _]. cbn. lia. }
  pose proof (relative_path_returns (fe_path e)) as Hr.
  destruct (ensure_safe_relative_path (fe_path e)) as [[]|err| |] eqn:Ep; try done; cbn [mbind result_bind].
  2:{ split_and!; [done| |done]. split; [|done]. intros [H1 _]%list.Forall_cons.
      apply relative_path_safe in H1. congruence. }
  pose proof Ep as Hp. apply relative_path_ok in Hp as (ss & Hss & Hc & Hres).
  unfold joined_under_root. rewrite join_starts_with by (rewrite Hc; apply normals). cbn [negb mbind result_bind].
  rewrite checked_small by lia. cbn [mbind result_bind].
  destruct (IH (base + fe_length e) ltac:(lia) ltac:(lia)) as (R & O & L).
  destruct (push_spans b (base + fe_length e) entries) as [files| | |] eqn:E; try done; cbn [mbind result_bind].
  - split_and!; [done| |].
    + split; [done|]. intros _. constructor; [by exists ss|]. by apply O.
    + intros ? [= <-]. destruct (L files eq_refl) as [L1 L2]. cbn. split_and!; try done; [lia|by f_equal].
  - split_and!; [done| |done]. split; [|done]. intros [_ H2]%list.Forall_cons. by apply O in H2.
Qed.

Lemma leaf_name_eq n : plain n = true -> ensure_safe_leaf_name n =
  if is_windows_reserved n then Err (EBencode "unsafe torrent name: reserved device name") else Ok tt.
Proof. intros H. unfold ensure_safe_leaf_name. by rewrite components_plain. Qed.

(** ** Byte ranges *)

(** The part of file [i] that lies in [[gs, e)]. *)
Definition cut (gs e : Z) (i : nat) (f : FileSpan) : option (nat * Z * Z) :=
  let ss := Z.max gs (start f) in
  let se := Z.min e (start f + fs_length f) in
  if ss <? se then Some (i, ss - start f, se - ss) else None.

Definition option_to_list {A} (o : option A) : list A := match o with Some x => [x] | None => [] end.

Fixpoint cuts (gs e : Z) (i : nat) (files : list FileSpan) : list (nat * Z * Z) :=
  match files with
  | [] => []
  | f :: files => option_to_list (cut gs e i f) ++ cuts gs e (S i) files
  end.

Lemma cuts_past gs e i files base : contiguous base files -> e <= base -> cuts gs e i files = [].
Proof.
  revert i base. induction files as [|f files IH]; intros i base; [done|].
  cbn [contiguous cuts]. intros (Hs & Hl & Hc) He. rewrite (IH (S i) (base + fs_length f)) by (done || lia).
  unfold cut. by rewrite (proj2 (Z.ltb_ge _ _)) by lia.
Qed.

Lemma span_sum_cons f files : span_sum (f :: files) = fs_length f + span_sum files.
Proof. done. Qed.

Lemma contiguous_nonneg base files : contiguous base files -> 0 <= span_sum files.
Proof.
  revert base. induction files as [|f files IH]; intros base; [done|].
  intros (_ & Hl & Hc). apply IH in Hc. rewrite span_sum_cons. lia.
Qed.

(** The early exits of the loop change nothing, and no end overflows. *)
Lemma slices_loop_eq gs e i files base :
  contiguous base files -> 0 <= base -> base + span_sum files < 2 ^ 64 ->
  slices_loop gs e i files = Ok (cuts gs e i files).
Proof.
  revert i base. induction files as [|f files IH]; intros i base; [done|].
  intros (Hs & Hl & Hc) Hb Hsum. pose proof (contiguous_nonneg _ _ Hc) as Hn.
  rewrite span_sum_cons in Hsum.
  cbn [slices_loop cuts]. unfold span_end. rewrite checked_small by lia. cbn [mbind result_bind].
  assert (IH' : slices_loop gs e (S i) files = Ok (cuts gs e (S i) files))
    by (apply (IH _ (base + fs_length f)); (done || lia)).
  unfold cut. clear IH.
  destruct (Z.leb_spec (start f + fs_length f) gs).
  { rewrite (proj2 (Z.ltb_ge _ _)) by lia. by rewrite IH'. }
  destruct (Z.leb_spec e (start f)).
  { rewrite (proj2 (Z.ltb_ge _ _)) by lia. cbn. erewrite cuts_past by (done || lia). done. }
  destruct (Z.leb_spec (Z.min e (start f + fs_length f)) (Z.max gs (start f))).
  { rewrite (proj2 (Z.ltb_ge _ _)) by lia. by rewrite IH'. }
  rewrite (proj2 (Z.ltb_lt _ _)) by lia. by rewrite IH'.
Qed.

Lemma elem_of_option_to_list {A} (o : option A) x : x ∈ option_to_list o <-> o = Some x.
Proof. destruct o; cbn; [rewrite list_elem_of_singleton|]; [naive_solver|]. split; [by intros ?%elem_of_nil|done]. Qed.

Lemma elem_of_cuts gs e i files j o c :
  (j, o, c) ∈ cuts gs e i files <->
  exists k f, files !! k = Some f /\ j = (i + k)%nat /\ cut gs e j f = Some (j, o, c).
Proof.
  revert i. induction files as [|f files IH]; intros i; cbn [cuts].
  { split; [by intros ?%elem_of_nil|]. by intros (k & f & ? & _). }
  rewrite elem_of_app, IH, elem_of_option_to_list. split.
  - intros [H|(k & f' & Hk & -> & H)].
    + exists 0%nat, f. assert (j = i) as -> by (unfold cut in H; case_match; congruence).
      by rewrite Nat.add_0_r.
    + exists (S k), f'. split; [done|]. split; [lia|done].
  - intros ([|k] & f' & Hk & -> & H); cbn in Hk.
    + injection Hk as ->. left. by rewrite Nat.add_0_r in H |- *.
    + right. exists k, f'. split; [done|]. split; [lia|done].
Qed.

Lemma cuts_sorted gs e i files : StronglySorted lt ((cuts gs e i files).*1.*1).
Proof.
  revert i. induction files as [|f files IH]; intros i; cbn [cuts]; [constructor|].
  rewrite !fmap_app. unfold cut. destruct (_ <? _); cbn; [|apply IH]. constructor; [apply IH|].
  rewrite !Forall_fmap. apply list.Forall_forall. intros [[j o] c] H.
  apply elem_of_cuts in H as (k & f' & _ & -> & _). cbn. lia.
Qed.

Lemma slice_app {A} (x y : list A) a k :
  slice (x ++ y) a k = slice x a k ++ slice y (a - length x) (k - (length x - a)).
Proof. unfold slice. by rewrite drop_app, take_app, length_drop. Qed.

Lemma slice_0 {A} (l : list A) a : slice l a 0 = [].
Proof. done. Qed.

Lemma slice_past {A} (l : list A) a k : (length l <= a)%nat -> slice l a k = [].
Proof. intros. unfold slice. by rewrite drop_ge, take_nil. Qed.

(** The bytes of one slice, [contents] being what the files hold. *)
Definition slice_bytes (contents : list bytes) (s : nat * Z * Z) : bytes :=
  let '(i, off, count) := s in slice (default [] (contents !! i)) (Z.to_nat off) (Z.to_nat count).

(** Files that hold what their spans say. *)
Definition holds (contents : list bytes) (files : list FileSpan) : Prop :=
  Forall2 (fun c f => Z.of_nat (length c) = fs_length f) contents files.

Lemma cuts_concat gs e pre contents files base :
  holds contents files -> contiguous base files ->
  concat (slice_bytes (pre ++ contents) <$> cuts gs e (length pre) files) =
  slice (concat contents) (Z.to_nat (gs - base)) (Z.to_nat (e - Z.max gs base)).
Proof.
  intros H. revert base pre. induction H as [|c f contents files Hlen H IH]; intros base pre.
  { intros _. cbn. unfold slice. by rewrite drop_nil, take_nil. }
  intros (Hs & Hl & Hc). cbn [cuts concat]. rewrite fmap_app, concat_app.
  specialize (IH _ (pre ++ [c]) Hc). rewrite <- app_assoc, length_app in IH. cbn [app length] in IH.
  rewrite Nat.add_1_r in IH. rewrite IH, slice_app. f_equal.
  - unfold cut. destruct (Z.ltb_spec (Z.max gs (start f)) (Z.min e (start f + fs_length f))) as [Hlt|Hge]; cbn.
    + rewrite app_nil_r, list_lookup_middle by done. cbn. subst base.
      rewrite <- (firstn_all c) at 2. replace (Z.to_nat (Z.max gs (start f) - start f)) with (Z.to_nat (gs - start f)) by lia.
      unfold slice. rewrite skipn_firstn_comm, take_take. f_equal. lia.
    + subst base. destruct (decide (start f + fs_length f <= gs)).
      * by rewrite slice_past by lia.
      * unfold slice. destruct (decide (fs_length f = 0)).
        -- destruct c; [|cbn in Hlen; lia]. by rewrite drop_nil, take_nil.
        -- replace (Z.to_nat (e - Z.max gs (start f))) with 0%nat by lia. done.
  - subst base. destruct (decide (e <= Z.max gs (start f + fs_length f))).
    + replace (Z.to_nat (e - Z.max gs (start f + fs_length f))) with 0%nat by lia.
      replace (Z.to_nat (e - Z.max gs (start f)) - (length c - Z.to_nat (gs - start f)))%nat with 0%nat by lia. done.
    + f_equal; lia.
Qed.

(** ** Selection *)

Lemma any_res_Ok {A} (p : A -> result bool) (q : A -> bool) l :
  Forall (fun x => p x = Ok (q x)) l -> any_res p l = Ok (existsb q l).
Proof. induction 1 as [|x l Hx _ IH]; cbn; [done|]. rewrite Hx. cbn. by destruct (q x). Qed.

Lemma map_res_Ok {A B} (f : A -> result B) (g : A -> B) l :
  Forall (fun x => f x = Ok (g x)) l -> map_res f l = Ok (g <$> l).
Proof. induction 1 as [|x l Hx _ IH]; cbn; [done|]. rewrite Hx. cbn. by rewrite IH. Qed.

Lemma mark_files_spec sl : forall wanted, Forall (fun s => (s.1.1 < length wanted)%nat) sl ->
  exists w, mark_files wanted sl = Ok w /\ length w = length wanted /\
    forall j, w !! j = Some true <-> wanted !! j = Some true \/ exists o c, (j, o, c) ∈ sl.
Proof.
  induction sl as [|[[k o] c] sl IH]; intros wanted Hs; cbn [mark_files].
  { exists wanted. split_and!; [done..|]. intros j. split; [by left|]. intros [?|(? & ? & H)]; [done|]. by apply elem_of_nil in H. }
  apply list.Forall_cons in Hs as [Hk Hs]. cbn in Hk. rewrite set_index_Ok by done. cbn [mbind result_bind].
  destruct (IH (<[k := true]> wanted)) as (w & -> & Hl & Hw); [by rewrite length_insert|].
  exists w. rewrite length_insert in Hl. split_and!; [done..|]. intros j. rewrite Hw.
  destruct (decide (j = k)) as [->|Hj].
  - rewrite list_lookup_insert_eq by done. split; [|by left].
    intros _. right. exists o, c. apply list_elem_of_here.
  - rewrite list_lookup_insert_ne by done. split; intros [H|(o' & c' & H)]; [by left| |by left|]; right; exists o', c'.
    + by apply list_elem_of_further.
    + by apply elem_of_cons in H as [[= -> _ _]|H].
Qed.

Section selection.
Context (l : Layout) (Hok : layout_ok l).
#[local] Abbreviation pl := (l_piece_length l).
#[local] Abbreviation total := (l_total_length l).

Definition piece_end (idx : nat) : Z := Z.min (Z.of_nat idx * pl + pl) total.

Lemma piece_range idx : (idx < l_num_pieces l)%nat ->
  0 <= Z.of_nat idx * pl < total /\ l_piece_size l idx = Ok (piece_end idx - Z.of_nat idx * pl).
Proof.
  destruct Hok as (_ & _ & Ht & Hp & Hn). intros Hi.
  destruct (div_ceil_spec total pl) as [Hd|[? _]]; [lia|lia| |lia]. rewrite <- Hn in Hd.
  split; [nia|]. unfold l_piece_size, piece_end.
  destruct (Nat.eqb_spec (idx + 1) (l_num_pieces l)) as [Heq|Hne].
  - destruct (Z.eqb_spec pl 0); [lia|]. f_equal.
    assert (Hidx : Z.of_nat idx = Z.of_nat (l_num_pieces l) - 1) by lia. rewrite <- Hidx in Hd.
    destruct (Z.eqb_spec (total mod pl) 0) as [H0|H0].
    + apply Z.mod_divide in H0 as [k Hk]; [|lia].
      assert (k = Z.of_nat (l_num_pieces l)) by nia. subst k. nia.
    + assert (total < pl * Z.of_nat (l_num_pieces l)).
      { destruct (Z.eq_dec total (pl * Z.of_nat (l_num_pieces l))) as [E|]; [|lia].
        rewrite E, Z.mul_comm, Z_mod_mult in H0. done. }
      rewrite Z.min_r by nia.
      rewrite (Z.mod_eq total pl) by lia.
      rewrite <- (Z.div_unique total pl (Z.of_nat idx) (total - pl * Z.of_nat idx)); nia.
  - f_equal. nia.
Qed.

Lemma piece_slices idx : (idx < l_num_pieces l)%nat -> exists sz,
  l_piece_size l idx = Ok sz /\
  slices_for_piece l idx sz = Ok (cuts (Z.of_nat idx * pl) (piece_end idx) 0 (l_files l)).
Proof.
  intros Hi. destruct (piece_range idx Hi) as [Hr Hs]. eexists. split; [done|].
  destruct Hok as (Hc & Hsum & Ht & Hp & _). unfold slices_for_piece, slices.
  rewrite checked_small by lia. cbn [mbind result_bind]. unfold piece_end in *.
  rewrite checked_small by nia. cbn [mbind result_bind].
  rewrite (slices_loop_eq _ _ _ _ 0) by (done || lia).
  f_equal. f_equal. lia.
Qed.

(** File [j] has a byte of piece [idx]. *)
Lemma cuts_byte idx j :
  (exists o c, (j, o, c) ∈ cuts (Z.of_nat idx * pl) (piece_end idx) 0 (l_files l)) <->
  exists f x, l_files l !! j = Some f /\ start f <= x < start f + fs_length f /\
    Z.of_nat idx * pl <= x < piece_end idx.
Proof.
  split.
  - intros (o & c & H). apply elem_of_cuts in H as (k & f & Hk & -> & H). cbn [Nat.add] in *.
    unfold cut in H. destruct (Z.ltb_spec (Z.max (Z.of_nat idx * pl) (start f)) (Z.min (piece_end idx) (start f + fs_length f))); [|done].
    exists f, (Z.max (Z.of_nat idx * pl) (start f)). split; [done|]. lia.
  - intros (f & x & Hf & Hx & Hp). do 2 eexists. apply elem_of_cuts. exists j, f.
    split; [done|]. split; [done|]. unfold cut. by rewrite (proj2 (Z.ltb_lt _ _)) by lia.
Qed.

Lemma cuts_index gs e i files : Forall (fun s => (s.1.1 < i + length files)%nat) (cuts gs e i files).
Proof.
  apply list.Forall_forall. intros [[j o] c] H. apply elem_of_cuts in H as (k & f & Hk & -> & _).
  apply lookup_lt_Some in Hk. cbn. lia.
Qed.

Lemma wanted_files_loop_spec pieces : forall idx wanted,
  (idx + length pieces = l_num_pieces l)%nat -> length wanted = length (l_files l) ->
  exists w, wanted_files_loop l wanted idx pieces = Ok w /\ length w = length wanted /\
    forall j, w !! j = Some true <-> wanted !! j = Some true \/
      exists k, pieces !! k = Some true /\
        exists o c, (j, o, c) ∈ cuts (Z.of_nat (idx + k) * pl) (piece_end (idx + k)) 0 (l_files l).
Proof.
  induction pieces as [|b pieces IH]; intros idx wanted Hi Hw; cbn [wanted_files_loop].
  { exists wanted. split_and!; [done..|]. intros j. split; [by left|]. by intros [?|(k & ? & _)]. }
  cbn in Hi. destruct b.
  - destruct (piece_slices idx ltac:(lia)) as (sz & -> & E). cbn [mbind result_bind]. rewrite E. cbn [mbind result_bind].
    destruct (mark_files_spec (cuts (Z.of_nat idx * pl) (piece_end idx) 0 (l_files l)) wanted)
      as (w1 & -> & Hl1 & Hw1); [rewrite Hw; apply (cuts_index _ _ 0)|]. cbn [mbind result_bind].
    destruct (IH (S idx) w1 ltac:(lia) ltac:(lia)) as (w & -> & Hl & H). exists w. split_and!; [done|lia|].
    intros j. rewrite H, Hw1. split.
    + intros [[?|?]|(k & Hk & Hc)]; [by left| |].
      * right. exists 0%nat. by rewrite Nat.add_0_r.
      * right. exists (S k). by replace (idx + S k)%nat with (S idx + k)%nat by lia.
    + intros [?|([|k] & Hk & Hc)]; [by left; left| |].
      * left. right. by rewrite Nat.add_0_r in Hc.
      * right. exists k. by replace (S idx + k)%nat with (idx + S k)%nat by lia.
  - destruct (IH (S idx) wanted ltac:(lia) Hw) as (w & -> & Hl & H). exists w. split_and!; [done..|].
    intros j. rewrite H. split.
    + intros [?|(k & Hk & Hc)]; [by left|]. right. exists (S k).
      by replace (idx + S k)%nat with (S idx + k)%nat by lia.
    + intros [?|([|k] & Hk & Hc)]; [by left|done|]. right. exists k.
      by replace (S idx + k)%nat with (idx + S k)%nat by lia.
Qed.

Lemma span_bounds base files : contiguous base files -> forall k f, files !! k = Some f ->
  base <= start f /\ 0 <= fs_length f /\ start f + fs_length f <= base + span_sum files.
Proof.
  revert base. induction files as [|g files IH]; intros base; [done|].
  intros (Hs & Hl & Hc) k f Hk. pose proof (contiguous_nonneg _ _ Hc). rewrite span_sum_cons.
  destruct k as [|k]; cbn in Hk; [injection Hk as ->; lia|]. apply (IH _ Hc) in Hk. lia.
Qed.

(** Whether a selected file reaches into piece [idx]. *)
Definition wants (selectors : list bytes) (idx : nat) : bool :=
  existsb (fun f => (start f <? piece_end idx) && (Z.of_nat idx * pl <? start f + fs_length f))
    (List.filter (fun f => selected selectors f) (l_files l)).

Lemma wanted_pieces_eq selectors : selectors <> [] -> total + pl < 2 ^ 64 ->
  wanted_pieces l selectors = Ok (wants selectors <$> seq 0 (l_num_pieces l)).
Proof.
  intros Hsel Hbig. unfold wanted_pieces. destruct selectors as [|s selectors]; [done|].
  apply map_res_Ok, list.Forall_lookup. intros i idx Hi. apply lookup_seq in Hi as [-> Hi].
  cbn [Nat.add]. destruct (piece_range i Hi) as [Hr _]. destruct Hok as (Hc & Hsum & Ht & Hp & _).
  unfold wanted_piece. rewrite !checked_small by lia. cbn [mbind result_bind].
  rewrite checked_small by lia. cbn [mbind result_bind].
  apply any_res_Ok, List.Forall_forall. intros f [Hf _]%filter_In.
  apply list_elem_of_In, list_elem_of_lookup in Hf as (k & Hk).
  destruct (span_bounds _ _ Hc _ _ Hk) as (H1 & H2 & H3). unfold piece_end, span_end.
  destruct (start f <? _); [|done]. by rewrite checked_small by lia.
Qed.

Lemma piece_of idx x : (idx < l_num_pieces l)%nat ->
  Z.of_nat idx * pl <= x < piece_end idx -> Z.to_nat (x / pl) = idx.
Proof.
  intros Hi Hx. destruct Hok as (_ & _ & _ & Hp & _). unfold piece_end in Hx.
  rewrite <- (Z.div_unique x pl (Z.of_nat idx) (x - pl * Z.of_nat idx)); lia.
Qed.

Lemma piece_of_byte x : 0 <= x < total ->
  (Z.to_nat (x / pl) < l_num_pieces l)%nat /\
  Z.of_nat (Z.to_nat (x / pl)) * pl <= x < piece_end (Z.to_nat (x / pl)).
Proof.
  intros Hx. destruct Hok as (_ & _ & Ht & Hp & Hn). unfold piece_end.
  pose proof (Z.div_mod x pl ltac:(lia)). pose proof (Z.mod_pos_bound x pl ltac:(lia)).
  pose proof (Z.div_pos x pl ltac:(lia) ltac:(lia)).
  destruct (div_ceil_spec total pl) as [Hd|[? _]]; [lia|lia| |lia]. rewrite <- Hn in Hd.
  split; nia.
Qed.
End selection.

(** ** Theorems *)

Lemma from_torrent_below root t l : from_torrent root t = Ok l ->
  Forall (fun f => below root (path f)) (l_files l).
Proof.
  intros H. apply bind_Ok in H as ([] & Hn & H). apply bind_Ok in H as (fs & Hf & H).
  apply bind_Ok in H as (total & _ & H). injection H as <-. cbn [l_files].
  destruct (files (info t)) as [len|es]; [|by eapply push_spans_below].
  apply bind_Ok in Hf as (p & Hp & Hf). injection Hf as <-.
  apply leaf_name_ok in Hn as (part & Cn & Rn).
  apply joined_ok in Hp as [_ Hc]; [|by rewrite Cn]. constructor; [|done].
  exists [part]. split_and!; [done| |by constructor]. cbn [path]. by rewrite Hc, Cn.
Qed.

Lemma from_torrent_spec root t total : info_ok (info t) total ->
  returns (from_torrent root t) = true /\
  (is_ok (from_torrent root t) = true <-> safe_names (info t)) /\
  forall l, from_torrent root t = Ok l -> layout_ok l.
Proof.
  intros (Hn & Hp & _ & Hf & Hl & Ht & Hc). unfold from_torrent, safe_names, total_length.
  rewrite leaf_name_eq, Hl by done.
  destruct (is_windows_reserved (name (info t))); [split_and!; [done|split; [done|by intros []]|done]|].
  cbn [mbind result_bind]. destruct (files (info t)) as [len|es].
  - unfold joined_under_root. rewrite join_starts_with by (by rewrite components_plain). cbn.
    injection Hl as ->. split_and!; [done|done|]. intros l [= <-].
    unfold layout_ok, span_sum. cbn. split_and!; try done; lia.
  - cbn [files_length] in Hl.
    assert (Hz : Forall (fun x => 0 <= x) (fe_length <$> es)).
    { apply Forall_fmap. eapply list.Forall_impl; [done|]. intros ? [? _]. cbn. lia. }
    rewrite sum_u64_eq in Hl by done.
    destruct (Z.ltb_spec (zsum (fe_length <$> es)) (2 ^ 64)); [|done]. injection Hl as <-.
    destruct (push_spans_spec 0 (join root (name (info t))) es) as (R & O & L); [lia|done|done|].
    destruct (push_spans _ 0 es) as [fs| | |]; try done; cbn [mbind result_bind].
    + split_and!; [done|rewrite O; split; [done|by intros []]|]. intros l [= <-].
      destruct (L fs eq_refl) as [L1 L2]. unfold layout_ok, span_sum. cbn. rewrite L2. split_and!; try done; lia.
    + split_and!; [done|rewrite O; split; [done|by intros []]|done].
Qed.

(** C11: paths never escape.  Whatever the torrent says, every file of the
    layout [from_torrent] builds lies strictly below the download root: its
    components are those of the root followed by plain names, none of them a
    reserved Windows device.  For validated metadata the constructor never
    panics, refuses exactly the torrents with a device name or an empty entry
    path, and what it builds lays the files end to end over the whole length. *)
Theorem layout_contained root t :
  (forall l, from_torrent root t = Ok l -> Forall (fun f => below root (path f)) (l_files l)) /\
  forall total, info_ok (info t) total ->
    returns (from_torrent root t) = true /\
    (is_ok (from_torrent root t) = true <-> safe_names (info t)) /\
    forall l, from_torrent root t = Ok l -> layout_ok l.
Proof. split; [apply from_torrent_below|apply from_torrent_spec]. Qed.

Definition multi_ex : TorrentFile :=
  mkTorrentFile [] None [] (mkInfo (bs "pkg") 100 (replicate 3 (replicate 20 "h"%byte))
    (Multi [mkFileEntry 150 (bs "a.txt"); mkFileEntry 100 (bs "b.txt"); mkFileEntry 50 (bs "c.txt")]) false).

Lemma layout_contained_witness :
  from_torrent (bs "/dl") multi_ex = Ok layout_ex /\
  Forall (fun f => below (bs "/dl") (path f)) (l_files layout_ex).
Proof.
  assert (E : from_torrent (bs "/dl") multi_ex = Ok layout_ex) by (vm_compute; reflexivity).
  split; [exact E|]. destruct (layout_contained (bs "/dl") multi_ex) as [H _]. exact (H layout_ex E).
Defined.

(** C12: the mapping is exact.  Reading the slices [slices] gives for a range one
    after the other yields exactly that range of the concatenated files; each
    slice is non-empty and inside its file, and the file indices ascend, so no
    file is visited twice. *)
Theorem slices_exact l contents gs len :
  layout_ok l -> holds contents (l_files l) ->
  0 <= gs -> 0 <= len -> gs + len <= l_total_length l ->
  exists sl, slices l gs len = Ok sl /\
    concat (slice_bytes contents <$> sl) = slice (concat contents) (Z.to_nat gs) (Z.to_nat len) /\
    (forall i off count, (i, off, count) ∈ sl -> exists f, l_files l !! i = Some f /\
       0 <= off /\ 0 < count /\ off + count <= fs_length f) /\
    StronglySorted lt (sl.*1.*1).
Proof.
  intros (Hc & Hsum & Ht & _) Hh Hgs Hlen Hend. unfold slices. rewrite checked_small by lia.
  cbn [mbind result_bind]. rewrite (slices_loop_eq _ _ _ _ 0) by (done || lia).
  eexists. split; [done|]. split_and!.
  - etransitivity; [apply (cuts_concat gs (gs + len) [] contents (l_files l) 0); done|]. f_equal; lia.
  - intros i off count H. apply elem_of_cuts in H as (k & f & Hk & -> & H). exists f. split; [done|].
    unfold cut in H. destruct (Z.ltb_spec (Z.max gs (start f)) (Z.min (gs + len) (start f + fs_length f))); [|done].
    injection H as <- <-. lia.
  - apply cuts_sorted.
Qed.

Lemma slices_exact_witness :
  let contents := [replicate 150 "a"%byte; replicate 100 "b"%byte; replicate 50 "c"%byte] in
  exists sl, slices layout_ex 100 100 = Ok sl /\
    concat (slice_bytes contents <$> sl) = slice (concat contents) 100 100.
Proof.
  intros contents. destruct (slices_exact layout_ex contents 100 100) as (sl & H1 & H2 & _).
  - vm_compute. intuition discriminate.
  - repeat constructor.
  - lia.
  - lia.
  - vm_compute. discriminate.
  - exists sl. split; [exact H1|exact H2].
Defined.

(** A selection downloads and allocates what it needs.  Every piece that
    holds a byte of a selected file is wanted, and a file is allocated exactly
    when some byte of it lies in a wanted piece, so a straddling piece always
    has all its files. *)
Lemma selection_complete l selectors :
  layout_ok l -> selectors <> [] -> l_total_length l + l_piece_length l < 2 ^ 64 ->
  exists wp wf, wanted_pieces l selectors = Ok wp /\ wanted_files l selectors = Ok wf /\
    length wp = l_num_pieces l /\ length wf = length (l_files l) /\
    (forall f x, f ∈ l_files l -> selected selectors f = true ->
       start f <= x < start f + fs_length f -> wp !! Z.to_nat (x / l_piece_length l) = Some true) /\
    (forall j, wf !! j = Some true <-> exists f x, l_files l !! j = Some f /\
       start f <= x < start f + fs_length f /\ wp !! Z.to_nat (x / l_piece_length l) = Some true).
Proof.
  intros Hok Hsel Hbig. pose proof Hok as (Hc & Hsum & _).
  set (wp := wants l selectors <$> seq 0 (l_num_pieces l)).
  assert (Lp : length wp = l_num_pieces l) by (unfold wp; by rewrite length_fmap, length_seq).
  assert (Ep : wanted_pieces l selectors = Ok wp) by (by apply wanted_pieces_eq).
  destruct (wanted_files_loop_spec l Hok wp 0 (replicate (length (l_files l)) false))
    as (wf & Ef & Lf & Hf); [done|by rewrite length_replicate|].
  exists wp, wf. split_and!; [done| |done|by rewrite length_replicate in Lf| |].
  - unfold wanted_files. destruct selectors; [done|]. by rewrite Ep.
  - intros f x Hin Hs Hx. apply list_elem_of_lookup in Hin as (k & Hk).
    destruct (span_bounds _ _ Hc _ _ Hk) as (? & ? & ?).
    destruct (piece_of_byte l Hok x ltac:(lia)) as [Hi Hr]. unfold wp.
    rewrite list_lookup_fmap, lookup_seq_lt by done. cbn. f_equal. apply existsb_exists. exists f. split.
    + apply filter_In. split; [|done]. apply list_elem_of_In. by eapply list_elem_of_lookup_2.
    + rewrite andb_true_iff, !Z.ltb_lt. lia.
  - intros j. rewrite Hf, lookup_replicate. split.
    + intros [[? _]|(k & Hk & H)]; [done|]. cbn [Nat.add] in H.
      apply cuts_byte in H as (f & x & Hj & Hx & Hr). exists f, x. split_and!; [done|lia|lia|].
      rewrite (piece_of l Hok k) by (done || (rewrite <- Lp; by eapply lookup_lt_Some)). done.
    + intros (f & x & Hj & Hx & Hw). right. exists (Z.to_nat (x / l_piece_length l)). split; [done|].
      apply cuts_byte. exists f, x. split_and!; [done|lia|lia|..];
        destruct (span_bounds _ _ Hc _ _ Hj) as (? & ? & ?);
        destruct (piece_of_byte l Hok x ltac:(lia)) as [Hi Hr]; cbn [Nat.add]; lia.
Qed.

Lemma selection_complete_witness :
  exists wp wf, wanted_pieces layout_ex [bs "c.txt"] = Ok wp /\ wanted_files layout_ex [bs "c.txt"] = Ok wf /\
    length wp = 3%nat /\ length wf = 3%nat.
Proof.
  destruct (selection_complete layout_ex [bs "c.txt"]) as (wp & wf & H1 & H2 & H3 & H4 & _).
  - vm_compute. intuition discriminate.
  - discriminate.
  - vm_compute. reflexivity.
  - exists wp, wf. split_and!; [exact H1|exact H2|exact H3|exact H4].
Defined.
