(* ===== verification/Choke.v ===== *)
(** * The choke scheduler: [src/src/scheduler/choke.rs]

    Which peers we upload to: the three best by rate and one optimistic pick.
    Addresses are any countable type.  Instants are nanoseconds; each reading
    of the clock is an argument, and [tick] reads it once for the rotation and
    once per candidate for the snub test ([clock i] for the [i]-th).  The
    random pick ([SliceRandom::choose] of the [rand] crate) is an argument. *)

From Stdlib Require Import ZArith Lia String Strings.Byte.
From stdpp Require Import base tactics numbers list option gmap sorting.
From S2P Require Import Prelude.

Definition SEC : Z := 1000000000.
Definition CHOKE_INTERVAL : Z := 10 * SEC.
Definition OPTIMISTIC_INTERVAL : Z := 30 * SEC.
Definition RATE_WINDOW : Z := 20 * SEC.
Definition SNUB_THRESHOLD : Z := 60 * SEC.
Definition REGULAR_UNCHOKE_SLOTS : nat := 3.

Section Choke.
Context {Addr : Type} `{Countable Addr}.

Record ChokeScheduler := mkChoke {
  samples : gmap Addr (list (Z * Z));
  last_block : gmap Addr Z;
  unchoked : gmap Addr bool;
  optimistic : option Addr;
  last_optimistic_tick : Z;
  seeding : bool;
}.

Record ChokeDecision := mkDecision {
  to_unchoke : list Addr;
  to_choke : list Addr;
  dec_optimistic : option Addr;
}.

Definition new_choke (now : Z) : ChokeScheduler := mkChoke ∅ ∅ ∅ None now false.

Definition set_seeding (b : bool) (s : ChokeScheduler) : ChokeScheduler :=
  mkChoke (samples s) (last_block s) (unchoked s) (optimistic s) (last_optimistic_tick s) b.

(** [while let Some(&(t, _)) = q.front() { if t < cutoff { pop } else { break } }] *)
Fixpoint prune (cutoff : Z) (q : list (Z * Z)) : list (Z * Z) :=
  match q with
  | (t, b) :: q' => if t <? cutoff then prune cutoff q' else q
  | [] => []
  end.

(** The sample part that [record_download] and [record_upload] share. *)
Definition push_sample (now : Z) (addr : Addr) (bytes : Z) (m : gmap Addr (list (Z * Z))) :=
  let q := default [] (m !! addr) ++ [(now, bytes)] in
  let cutoff := now - RATE_WINDOW in
  <[addr := prune cutoff q]> m.

Definition record_download (now : Z) (addr : Addr) (bytes : Z) (s : ChokeScheduler) : ChokeScheduler :=
  mkChoke (push_sample now addr bytes (samples s)) (<[addr := now]> (last_block s)) (unchoked s)
    (optimistic s) (last_optimistic_tick s) (seeding s).

Definition record_upload (now : Z) (addr : Addr) (bytes : Z) (s : ChokeScheduler) : ChokeScheduler :=
  mkChoke (push_sample now addr bytes (samples s)) (last_block s) (unchoked s)
    (optimistic s) (last_optimistic_tick s) (seeding s).

Definition forget (addr : Addr) (s : ChokeScheduler) : ChokeScheduler :=
  mkChoke (delete addr (samples s)) (delete addr (last_block s)) (delete addr (unchoked s))
    (if decide (optimistic s = Some addr) then None else optimistic s)
    (last_optimistic_tick s) (seeding s).

Definition rate_for (s : ChokeScheduler) (addr : Addr) : result Z :=
  match samples s !! addr with
  | Some q => sum_u64 (q.*2)
  | None => Ok 0
  end.

Definition is_snubbed (now : Z) (s : ChokeScheduler) (addr : Addr) : bool :=
  match last_block s !! addr with
  | Some t => SNUB_THRESHOLD <? sat_sub now t
  | None => true
  end.

(** ** [tick] *)

(** The rotation of the optimistic slot. *)
Definition rotate (now : Z) (choose : list Addr -> option Addr) (candidates : list Addr)
    (s : ChokeScheduler) : ChokeScheduler :=
  if (OPTIMISTIC_INTERVAL <=? sat_sub now (last_optimistic_tick s)) ||
     match optimistic s with None => true | _ => false end
  then mkChoke (samples s) (last_block s) (unchoked s)
         (match choose candidates with Some pick => Some pick | None => optimistic s end)
         now (seeding s)
  else s.

(** [filter(..).map(..).collect()], the [i]-th candidate tested at [clock i]. *)
Fixpoint rank (clock : nat -> Z) (s : ChokeScheduler) (i : nat) (candidates : list Addr)
    : result (list (Addr * Z)) :=
  match candidates with
  | [] => Ok []
  | a :: rest =>
      if negb (is_snubbed (clock i) s a) || seeding s then
        r ← rate_for s a; rs ← rank clock s (S i) rest; Ok ((a, r) :: rs)
      else rank clock s (S i) rest
  end.

(** [sort_by_key(Reverse(rate))]: stable, highest rate first. *)
Fixpoint insert_ranked (x : Addr * Z) (l : list (Addr * Z)) : list (Addr * Z) :=
  match l with
  | [] => [x]
  | y :: l' => if y.2 <=? x.2 then x :: l else y :: insert_ranked x l'
  end.
Definition sort_ranked (l : list (Addr * Z)) : list (Addr * Z) := foldr insert_ranked [] l.

Definition chosen (s : ChokeScheduler) (ranked : list (Addr * Z)) : list Addr :=
  let chosen := (take REGULAR_UNCHOKE_SLOTS (sort_ranked ranked)).*1 in
  match optimistic s with
  | Some opt => if decide (opt ∈ chosen) then chosen else chosen ++ [opt]
  | None => chosen
  end.

(** The last loop: what changes, and the new [unchoked] map. *)
Fixpoint decide_loop (ch candidates : list Addr) (m : gmap Addr bool) (tu tc : list Addr)
    : gmap Addr bool * list Addr * list Addr :=
  match candidates with
  | [] => (m, tu, tc)
  | a :: rest =>
      let want := bool_decide (a ∈ ch) in
      let have := default false (m !! a) in
      if want && negb have then decide_loop ch rest (<[a := true]> m) (tu ++ [a]) tc
      else if negb want && have then decide_loop ch rest (<[a := false]> m) tu (tc ++ [a])
      else decide_loop ch rest m tu tc
  end.

Definition tick (now : Z) (clock : nat -> Z) (choose : list Addr -> option Addr)
    (candidates : list Addr) : M ChokeScheduler ChokeDecision :=
  _ ← modify (rotate now choose candidates);
  ranked ← reads (fun s => rank clock s 0 candidates);
  ch ← gets (fun s => chosen s ranked);
  m ← gets unchoked;
  let '(m', tu, tc) := decide_loop ch candidates m [] [] in
  _ ← modify (fun s => mkChoke (samples s) (last_block s) m' (optimistic s) (last_optimistic_tick s) (seeding s));
  opt ← gets optimistic;
  mret (mkDecision tu tc opt).
End Choke.

Arguments ChokeScheduler _ {_ _}.
Arguments ChokeDecision _ : clear implicits.

Section choke_lemmas.
Context {Addr : Type} `{Countable Addr}.
Implicit Types (s : ChokeScheduler Addr) (a : Addr) (l : list (Addr * Z)).

(** ** Ranking *)

Definition above (x y : Addr * Z) : Prop := y.2 <= x.2.

Lemma insert_ranked_perm x l : insert_ranked x l ≡ₚ x :: l.
Proof.
  induction l as [|y l IH]; cbn; [done|]. destruct (_ <=? _); [done|]. rewrite IH. by constructor.
Qed.

Lemma sort_ranked_perm l : sort_ranked l ≡ₚ l.
Proof. unfold sort_ranked. induction l as [|x l IH]; cbn; [done|]. by rewrite insert_ranked_perm, IH. Qed.

Lemma insert_ranked_sorted x l : StronglySorted above l -> StronglySorted above (insert_ranked x l).
Proof.
  unfold above. induction 1 as [|y l Hs IH Hy]; cbn; [by repeat constructor|].
  destruct (Z.leb_spec y.2 x.2).
  - constructor; [by constructor|]. constructor; [done|].
    eapply list.Forall_impl; [done|]. cbn. intros. lia.
  - constructor; [done|]. rewrite insert_ranked_perm. constructor; [lia|done].
Qed.

Lemma sort_ranked_sorted l : StronglySorted above (sort_ranked l).
Proof. unfold sort_ranked. induction l; cbn; [constructor|]. by apply insert_ranked_sorted. Qed.

(** The first [n] of the ranking dominate the others. *)
Lemma take_sorted n l x y : StronglySorted above l -> x ∈ take n l -> y ∈ drop n l -> y.2 <= x.2.
Proof.
  intros Hs. revert n. induction Hs as [|z l Hs IH Hz]; intros [|n]; cbn; intros Hx Hy;
    try by apply elem_of_nil in Hx.
  apply elem_of_cons in Hx as [->|Hx]; [|by eapply IH].
  rewrite list.Forall_forall in Hz. apply Hz. apply list_elem_of_lookup in Hy as (k & Hk).
  rewrite lookup_drop in Hk. by eapply list_elem_of_lookup_2.
Qed.

Lemma elem_of_take_in {A} n (l : list A) x : x ∈ take n l -> x ∈ l.
Proof.
  intros Hx. apply list_elem_of_lookup in Hx as (k & Hk). apply lookup_take_Some in Hk as [Hk _].
  by eapply list_elem_of_lookup_2.
Qed.

(** ** Rates *)

Definition rate s a : Z := zsum ((default [] (samples s !! a)).*2).

(** Samples are byte counts whose sum fits [u64]. *)
Definition rates_ok s : Prop := forall a q, samples s !! a = Some q ->
  Forall (fun b => 0 <= b) (q.*2) /\ zsum (q.*2) < 2 ^ 64.

Lemma rate_for_eq s a : rates_ok s -> rate_for s a = Ok (rate s a).
Proof.
  intros Hs. unfold rate_for, rate. destruct (samples s !! a) as [q|] eqn:E; [|done].
  apply Hs in E as [H1 H2]. rewrite sum_u64_eq by done. by rewrite (proj2 (Z.ltb_lt _ _)).
Qed.

(** The candidates that compete for the regular slots. *)
Fixpoint eligible (clock : nat -> Z) s (i : nat) (candidates : list Addr) : list Addr :=
  match candidates with
  | [] => []
  | a :: rest =>
      if negb (is_snubbed (clock i) s a) || seeding s then a :: eligible clock s (S i) rest
      else eligible clock s (S i) rest
  end.

Lemma rank_eq clock s cs : rates_ok s -> forall i,
  rank clock s i cs = Ok ((fun a => (a, rate s a)) <$> eligible clock s i cs).
Proof.
  intros Hs. induction cs as [|a cs IH]; intros i; cbn [rank eligible]; [done|].
  destruct (negb _ || _); [|by apply IH]. rewrite rate_for_eq by done. cbn. by rewrite IH.
Qed.

Lemma eligible_sublist clock s cs i : sublist (eligible clock s i cs) cs.
Proof.
  revert i. induction cs as [|a cs IH]; intros i; cbn [eligible]; [constructor|].
  destruct (negb _ || _); by constructor.
Qed.

(** ** The decision *)

Lemma decide_loop_spec ch cs : NoDup cs -> forall m tu tc,
  exists m', decide_loop ch cs m tu tc =
    (m', tu ++ List.filter (fun a => bool_decide (a ∈ ch) && negb (default false (m !! a))) cs,
         tc ++ List.filter (fun a => negb (bool_decide (a ∈ ch)) && default false (m !! a)) cs) /\
    (forall a, a ∈ cs -> default false (m' !! a) = bool_decide (a ∈ ch)) /\
    (forall a, a ∉ cs -> m' !! a = m !! a).
Proof.
  induction 1 as [|a cs Ha Hcs IH]; intros m tu tc; cbn [decide_loop List.filter].
  { exists m. rewrite !app_nil_r. split_and!; [done| |done]. by intros a ?%elem_of_nil. }
  set (m1 := if bool_decide (a ∈ ch) && negb (default false (m !! a)) then <[a := true]> m
             else if negb (bool_decide (a ∈ ch)) && default false (m !! a) then <[a := false]> m else m).
  assert (H1 : default false (m1 !! a) = bool_decide (a ∈ ch)).
  { unfold m1. destruct (bool_decide (a ∈ ch)), (default false (m !! a)) eqn:E; cbn;
      rewrite ?lookup_insert_eq; done. }
  assert (H2 : forall b, b <> a -> m1 !! b = m !! b).
  { intros b Hb. unfold m1. repeat case_match; rewrite ?lookup_insert_ne; done. }
  assert (E : forall f : bool -> bool -> bool,
    List.filter (fun b => f (bool_decide (b ∈ ch)) (default false (m1 !! b))) cs =
    List.filter (fun b => f (bool_decide (b ∈ ch)) (default false (m !! b))) cs).
  { intros f. apply filter_ext_in. intros b Hb%list_elem_of_In. rewrite H2; [done|]. by intros ->. }
  destruct (IH m1 (if bool_decide (a ∈ ch) && negb (default false (m !! a)) then tu ++ [a] else tu)
    (if bool_decide (a ∈ ch) && negb (default false (m !! a)) then tc
     else if negb (bool_decide (a ∈ ch)) && default false (m !! a) then tc ++ [a] else tc))
    as (m' & Em & Hin & Hout).
  exists m'. split_and!.
  - rewrite (E (fun w h => w && negb h)), (E (fun w h => negb w && h)) in Em.
    unfold m1 in Em. destruct (bool_decide (a ∈ ch)), (default false (m !! a)); cbn in *;
      rewrite Em, <- ?app_assoc; done.
  - intros b [->|Hb]%elem_of_cons; [|by apply Hin]. rewrite Hout by done. done.
  - intros b [Hb1 Hb2]%not_elem_of_cons. rewrite Hout by done. by apply H2.
Qed.

Lemma length_eligible_reg clock s cs :
  length (take REGULAR_UNCHOKE_SLOTS (sort_ranked ((fun a => (a, rate s a)) <$> eligible clock s 0 cs))).*1
  = Nat.min REGULAR_UNCHOKE_SLOTS (length (eligible clock s 0 cs)).
Proof. by rewrite length_fmap, length_take, sort_ranked_perm, length_fmap. Qed.

(** The regular slots: the best-rated eligible candidates, [reg]. *)
Definition best (clock : nat -> Z) s (cs reg : list Addr) : Prop :=
  let el := eligible clock s 0 cs in
  NoDup reg /\ length reg = Nat.min REGULAR_UNCHOKE_SLOTS (length el) /\
  (forall a, a ∈ reg -> a ∈ el) /\
  forall a b, a ∈ el -> a ∉ reg -> b ∈ reg -> rate s a <= rate s b.

Lemma best_ranked clock s cs : NoDup cs ->
  best clock s cs (take REGULAR_UNCHOKE_SLOTS (sort_ranked ((fun a => (a, rate s a)) <$> eligible clock s 0 cs))).*1.
Proof.
  intros Hnd. set (el := eligible clock s 0 cs). set (l := sort_ranked _).
  assert (Hl : l ≡ₚ (fun a => (a, rate s a)) <$> el) by apply sort_ranked_perm.
  assert (Hfst : l.*1 ≡ₚ el).
  { rewrite Hl, <- list_fmap_compose. by rewrite (list_fmap_ext _ id), list_fmap_id. }
  assert (Hel : NoDup el) by (eapply sublist_NoDup; [done|apply eligible_sublist]).
  assert (Hin : forall x, x ∈ l -> x.2 = rate s x.1 /\ x.1 ∈ el).
  { intros x Hx. rewrite Hl in Hx. apply list_elem_of_fmap in Hx as (a & -> & Ha). done. }
  split_and!.
  - rewrite <- Hfst in Hel. eapply sublist_NoDup; [exact Hel|]. apply fmap_sublist, sublist_take.
  - apply length_eligible_reg.
  - intros a (x & -> & Hx)%list_elem_of_fmap. apply Hin.
    by eapply elem_of_take_in.
  - intros a b Ha Hna (x & -> & Hx)%list_elem_of_fmap.
    change (a ∈ el) in Ha. rewrite <- Hfst in Ha. apply list_elem_of_fmap in Ha as (y & -> & Hy).
    destruct (Hin y Hy) as [<- _].
    assert (Hx' : x ∈ l) by (by eapply elem_of_take_in). destruct (Hin x Hx') as [<- _].
    eapply take_sorted; [apply sort_ranked_sorted|exact Hx|].
    rewrite <- (take_drop REGULAR_UNCHOKE_SLOTS l) in Hy.
    apply elem_of_app in Hy as [Hy|Hy]; [|exact Hy]. destruct Hna. by apply list_elem_of_fmap_2.
Qed.
End choke_lemmas.

(** ** Theorems *)

Section choke_theorems.
Context {Addr : Type} `{Countable Addr}.
Implicit Types (s : ChokeScheduler Addr) (cs : list Addr).

Lemma rotate_keeps now choose cs s : samples (rotate now choose cs s) = samples s /\
  last_block (rotate now choose cs s) = last_block s /\ unchoked (rotate now choose cs s) = unchoked s /\
  seeding (rotate now choose cs s) = seeding s.
Proof. unfold rotate. by destruct (_ || _). Qed.

Lemma rotate_eligible now choose cs s clock i :
  eligible clock (rotate now choose cs s) i cs = eligible clock s i cs.
Proof.
  destruct (rotate_keeps now choose cs s) as (_ & Hl & _ & Hs). 
  enough (E : forall k i, eligible clock (rotate now choose cs s) i k = eligible clock s i k) by apply E.
  induction k as [|a k IH]; intros j; cbn [eligible]; [done|]. unfold is_snubbed. by rewrite Hl, Hs, IH.
Qed.

(** One round of choking.  With distinct candidates and rates that fit
    [u64], [tick] never panics; the peers it wants are the best-rated eligible
    candidates (three, or all if fewer) and the optimistic one; afterwards a
    candidate is unchoked exactly when it is wanted, so at most four are; the
    decision lists exactly the candidates whose state changed; and the state
    of every other peer is untouched. *)
Lemma choke_tick now clock choose cs s :
  NoDup cs -> rates_ok s ->
  exists s' dec reg ch, tick now clock choose cs s = (s', Ok dec) /\
    best clock s cs reg /\
    ch = reg ++ match optimistic s' with Some o => if decide (o ∈ reg) then [] else [o] | None => [] end /\
    (length ch <= REGULAR_UNCHOKE_SLOTS + 1)%nat /\
    (forall a, a ∈ cs -> default false (unchoked s' !! a) = bool_decide (a ∈ ch)) /\
    (forall a, a ∉ cs -> unchoked s' !! a = unchoked s !! a) /\
    to_unchoke dec = List.filter (fun a => bool_decide (a ∈ ch) && negb (default false (unchoked s !! a))) cs /\
    to_choke dec = List.filter (fun a => negb (bool_decide (a ∈ ch)) && default false (unchoked s !! a)) cs /\
    dec_optimistic dec = optimistic s' /\
    optimistic s' = optimistic (rotate now choose cs s).
Proof.
  intros Hnd Hr. unfold tick. set (s1 := rotate now choose cs s).
  destruct (rotate_keeps now choose cs s) as (Es & El & Eu & _). fold s1 in Es, El, Eu.
  assert (Hr1 : rates_ok s1) by (unfold rates_ok; by rewrite Es).
  assert (Erate : forall a, rate s1 a = rate s a) by (intros; unfold rate; by rewrite Es).
  msteps. fold s1. rewrite rank_eq by done. cbn beta iota.
  rewrite (rotate_eligible now choose cs s clock 0 : eligible clock s1 0 cs = _).
  rewrite (list_fmap_ext (fun a => (a, rate s1 a)) (fun a => (a, rate s a)))
    by (intros; by rewrite Erate).
  set (reg := (take REGULAR_UNCHOKE_SLOTS (sort_ranked ((fun a => (a, rate s a)) <$> eligible clock s 0 cs))).*1).
  assert (Ech : chosen s1 ((fun a => (a, rate s a)) <$> eligible clock s 0 cs) =
    reg ++ match optimistic s1 with Some o => if decide (o ∈ reg) then [] else [o] | None => [] end).
  { unfold chosen. fold reg. destruct (optimistic s1) as [o|]; [destruct (decide (o ∈ reg))|]; by rewrite ?app_nil_r. }
  rewrite Ech. set (ch := reg ++ _).
  destruct (decide_loop_spec ch cs Hnd (unchoked s1) [] []) as (m' & -> & Hin & Hout). cbn beta iota.
  rewrite Eu in *. do 2 eexists. exists reg, ch. split; [done|].
  pose proof (best_ranked clock s cs Hnd) as Hb. fold reg in Hb. split_and!; try done.
  unfold ch. rewrite length_app. destruct Hb as (_ & Hl & _). rewrite Hl. repeat case_match; cbn [length]; lia.
Qed.
End choke_theorems.

Definition choke_ex : ChokeScheduler nat :=
  record_download 5 4%nat 10 (record_download 5 3%nat 200 (record_download 5 2%nat 50 (record_download 5 1%nat 100 (new_choke 0)))).

Lemma choke_ex_rates : rates_ok choke_ex.
Proof.
  assert (map_Forall (fun _ q => Forall (fun b => 0 <= b) (q.*2) /\ zsum (q.*2) < 2 ^ 64) (samples choke_ex)) as HF
    by (apply (bool_decide_unpack _); vm_compute; exact I).
  intros a q Hq. exact (HF a q Hq).
Qed.

Lemma choke_tick_witness :
  exists s' dec reg, tick 6 (fun _ => 6) head [1; 2; 3; 4]%nat choke_ex = (s', Ok dec) /\
    best (fun _ => 6) choke_ex [1; 2; 3; 4]%nat reg.
Proof.
  destruct (choke_tick 6 (fun _ => 6) head [1; 2; 3; 4]%nat choke_ex) as (s' & dec & reg & ch & H1 & H2 & _).
  - apply (bool_decide_unpack _). vm_compute. exact I.
  - exact choke_ex_rates.
  - exists s', dec, reg. split; [exact H1|exact H2].
Defined.

(** Samples leave the window only when the same peer is recorded again: a peer
    idle for an hour keeps its old rate.  Here peers 1 to 3 were served once at
    time 0, peer 4 is served now, and the seeder still prefers the idle ones. *)
Definition idle_ex : ChokeScheduler nat :=
  set_seeding true (record_upload (3600 * SEC) 4%nat 40 (record_upload 0 3%nat 50
    (record_upload 0 2%nat 50 (record_upload 0 1%nat 50 (new_choke 0))))).

Lemma idle_peers_keep_slots :
  (to_unchoke <$> (tick (3600 * SEC) (fun _ => 3600 * SEC) head [1; 2; 3; 4]%nat idle_ex).2) = Ok [1; 2; 3]%nat.
Proof. vm_compute. reflexivity. Qed.
