(* ===== verification/Rc4.v ===== *)
(** * RC4: [src/src/peer/mse/rc4.rs]

    The stream cipher of encrypted peer connections: the S-box as a list of 256
    bytes, the key schedule and the in-place XOR of the source. *)

From Stdlib Require Import ZArith Lia String Strings.Byte.
From stdpp Require Import base tactics numbers list option.
From S2P Require Import Prelude.

Record Rc4 := mkRc4 { s : list byte; i : byte; j : byte }.

(** [as usize] of a [u8], and [wrapping_add]. *)
Definition ix (b : byte) : nat := Z.to_nat (b2z b).
Definition wadd8 (a b : byte) : byte := z2b (b2z a + b2z b).

(** [slice::swap]: panics out of range. *)
Definition swap (l : list byte) (a b : nat) : result (list byte) :=
  x ← index l a; y ← index l b; l ← set_index l a y; set_index l b x.

(** The identity S-box. *)
Definition identity_box : list byte := (fun k => z2b (Z.of_nat k)) <$> seq 0 256.

(** [for i in i..i+n { .. }] of the key schedule. *)
Fixpoint schedule (key : bytes) (s : list byte) (j : byte) (i n : nat) : result (list byte) :=
  match n with
  | O => Ok s
  | S n =>
      si ← index s i;
      k ← index key (i mod length key);
      let j := wadd8 (wadd8 j si) k in
      s ← swap s i (ix j);
      schedule key s j (S i) n
  end.

Definition rc4_new (key : bytes) : result Rc4 :=
  if (length key =? 0)%nat then Panic
  else s ← schedule key identity_box x00 0 256; Ok (mkRc4 s x00 x00).

(** One keystream byte: the body of the loop of [process]. *)
Definition next (c : Rc4) : result (Rc4 * byte) :=
  let i' := wadd8 (i c) x01 in
  si ← index (s c) (ix i');
  let j' := wadd8 (j c) si in
  s' ← swap (s c) (ix i') (ix j');
  a ← index s' (ix i');
  b ← index s' (ix j');
  k ← index s' (ix (wadd8 a b));
  Ok (mkRc4 s' i' j', k).

Definition xor8 (a b : byte) : byte := z2b (Z.lxor (b2z a) (b2z b)).

Fixpoint process (c : Rc4) (data : bytes) : result (Rc4 * bytes) :=
  match data with
  | [] => Ok (c, [])
  | x :: data =>
      '(c1, k) ← next c;
      '(c2, out) ← process c1 data;
      Ok (c2, xor8 x k :: out)
  end.

Definition skip (c : Rc4) (n : nat) : result Rc4 :=
  '(c', _) ← process c (replicate n x00); Ok c'.

(** The test vector of the source. *)
Example rc4_vector :
  snd <$> (rc4_new (bs "Key") ≫= fun c => process c (bs "Plaintext")) =
  Ok (z2b <$> [0xBB; 0xF3; 0x16; 0xE8; 0xD9; 0x40; 0xAF; 0x0A; 0xD3]).
Proof. vm_compute. reflexivity. Qed.

(** ** Lemmas *)

(** The S-box is a permutation of the 256 bytes. *)
Definition box_ok (l : list byte) : Prop := l ≡ₚ identity_box.

Lemma ix_lt b : (ix b < 256)%nat.
Proof. unfold ix. pose proof (b2z_range b). lia. Qed.

Lemma box_length l : box_ok l -> length l = 256%nat.
Proof. unfold box_ok. intros Hl. by rewrite Hl. Qed.

Lemma box_index l k : box_ok l -> (k < 256)%nat -> exists x, index l k = Ok x /\ l !! k = Some x.
Proof.
  intros Hl Hk. rewrite <- (box_length l Hl) in Hk. apply lookup_lt_is_Some in Hk as [x Hx].
  exists x. split; [by apply index_Some|done].
Qed.

Lemma swap_ok l a b : box_ok l -> (a < 256)%nat -> (b < 256)%nat -> exists l', swap l a b = Ok l' /\ box_ok l'.
Proof.
  intros Hl Ha Hb. destruct (box_index l a Hl Ha) as (x & Ex & Lx). destruct (box_index l b Hl Hb) as (y & Ey & Ly).
  unfold swap. rewrite Ex. cbn. rewrite Ey. cbn. pose proof (box_length l Hl).
  rewrite set_index_Ok by lia. cbn. rewrite set_index_Ok by (rewrite length_insert; lia).
  eexists. split; [done|]. unfold box_ok. by rewrite Permutation_insert_swap.
Qed.

Lemma schedule_ok key n : key <> [] -> forall sb jj k, box_ok sb -> (k + n <= 256)%nat ->
  exists sb', schedule key sb jj k n = Ok sb' /\ box_ok sb'.
Proof.
  intros Hkey. induction n as [|n IH]; intros sb jj k Hs Hk; cbn [schedule]; [by exists sb|].
  destruct (box_index sb k Hs ltac:(lia)) as (x & -> & _). cbn [mbind result_bind].
  assert (Hm : (k mod length key < length key)%nat) by (apply Nat.mod_upper_bound; by destruct key).
  destruct (index_lt key _ Hm) as (y & ->). cbn [mbind result_bind].
  destruct (swap_ok sb k (ix (wadd8 (wadd8 jj x) y)) Hs ltac:(lia) (ix_lt _)) as (sb1 & -> & Hs1).
  cbn [mbind result_bind]. apply IH; [done|lia].
Qed.

Lemma next_ok c : box_ok (s c) -> exists c' k, next c = Ok (c', k) /\ box_ok (s c').
Proof.
  intros Hs. unfold next. destruct (box_index (s c) (ix (wadd8 (i c) x01)) Hs (ix_lt _)) as (si & -> & _).
  cbn [mbind result_bind].
  destruct (swap_ok (s c) _ _ Hs (ix_lt (wadd8 (i c) x01)) (ix_lt (wadd8 (j c) si))) as (s' & -> & Hs').
  cbn [mbind result_bind].
  destruct (box_index s' _ Hs' (ix_lt (wadd8 (i c) x01))) as (a & -> & _). cbn [mbind result_bind].
  destruct (box_index s' _ Hs' (ix_lt (wadd8 (j c) si))) as (b & -> & _). cbn [mbind result_bind].
  destruct (box_index s' _ Hs' (ix_lt (wadd8 a b))) as (k & -> & _). cbn [mbind result_bind].
  by do 2 eexists.
Qed.

Lemma process_ok data : forall c, box_ok (s c) ->
  exists c' out, process c data = Ok (c', out) /\ box_ok (s c') /\ length out = length data.
Proof.
  induction data as [|x data IH]; intros c Hs; cbn [process]; [by exists c, []|].
  destruct (next_ok c Hs) as (c1 & k & -> & Hs1). cbn [mbind result_bind].
  destruct (IH c1 Hs1) as (c2 & out & -> & Hs2 & Hl). cbn [mbind result_bind].
  do 2 eexists. split; [done|]. split; [done|]. cbn. by f_equal.
Qed.

Lemma process_app a b c : process c (a ++ b) =
  '(c1, x) ← process c a; '(c2, y) ← process c1 b; Ok (c2, x ++ y).
Proof.
  revert c. induction a as [|x a IH]; intros c; cbn [process app mbind result_bind].
  - by destruct (process c b) as [[? ?]| | |].
  - destruct (next c) as [[c1 k]| | |]; try done. cbn [mbind result_bind]. rewrite IH.
    destruct (process c1 a) as [[c2 u]| | |]; try done. cbn [mbind result_bind].
    by destruct (process c2 b) as [[c3 v]| | |].
Qed.

Lemma lxor_byte a b : 0 <= Z.lxor (b2z a) (b2z b) < 256.
Proof.
  pose proof (b2z_range a) as Ha. pose proof (b2z_range b) as Hb.
  assert (0 <= Z.lxor (b2z a) (b2z b)) by (apply Z.lxor_nonneg; lia). split; [done|].
  destruct (Z.eq_dec (Z.lxor (b2z a) (b2z b)) 0) as [->|]; [lia|].
  change 256 with (2 ^ 8). apply Z.log2_lt_pow2; [lia|].
  eapply Z.le_lt_trans; [apply Z.log2_lxor; lia|]. apply Z.max_lub_lt.
  - destruct (Z.eq_dec (b2z a) 0) as [->|]; [done|]. apply Z.log2_lt_pow2; lia.
  - destruct (Z.eq_dec (b2z b) 0) as [->|]; [done|]. apply Z.log2_lt_pow2; lia.
Qed.

Lemma xor8_twice a k : xor8 (xor8 a k) k = a.
Proof.
  unfold xor8. rewrite b2z_z2b_small.
  - by rewrite Z.lxor_assoc, Z.lxor_nilpotent, Z.lxor_0_r, z2b_b2z.
  - apply lxor_byte.
Qed.

Lemma process_twice data c c' out : process c data = Ok (c', out) -> process c out = Ok (c', data).
Proof.
  revert c c' out. induction data as [|x data IH]; intros c c' out; cbn [process].
  { by intros [= <- <-]. }
  intros Hp. apply bind_Ok in Hp as ([c1 k] & Hn & Hp). apply bind_Ok in Hp as ([c2 out'] & Hd & Hp).
  injection Hp as <- <-. cbn [process]. rewrite Hn. cbn [mbind result_bind].
  rewrite (IH _ _ _ Hd). cbn. by rewrite xor8_twice.
Qed.

Lemma rc4_new_ok key : key <> [] -> exists c, rc4_new key = Ok c /\ box_ok (s c).
Proof.
  intros Hkey. unfold rc4_new. destruct (schedule_ok key 256 Hkey identity_box x00 0) as (sb & -> & Hs); [by unfold box_ok|lia|].
  destruct (Nat.eqb_spec (length key) 0); [by destruct key|]. by eexists.
Qed.

Lemma skip_ok c n : box_ok (s c) -> exists c', skip c n = Ok c' /\ box_ok (s c').
Proof.
  intros Hc. unfold skip. destruct (process_ok (replicate n x00) c Hc) as (c' & z & -> & Hc' & _). by eexists.
Qed.

(** Skipping is processing any data of that length. *)
Lemma next_state data data' c : length data = length data' -> fst <$> process c data = fst <$> process c data'.
Proof.
  revert data' c. induction data as [|x data IH]; intros [|x' data'] c; cbn [length]; intros E; try done. injection E as E.
  cbn [process]. destruct (next c) as [[c1 k]| | |]; try done. cbn [mbind result_bind].
  specialize (IH data' c1 E). destruct (process c1 data) as [[? ?]| | |], (process c1 data') as [[? ?]| | |]; by inversion IH.
Qed.

Lemma skip_process c data c' out : process c data = Ok (c', out) -> skip c (length data) = Ok c'.
Proof.
  intros E. unfold skip. pose proof (next_state data (replicate (length data) x00) c) as H. rewrite length_replicate in H.
  specialize (H eq_refl). rewrite E in H. destruct (process c (replicate _ _)) as [[c2 u]| | |]; by inversion H.
Qed.

(** A cipher fed one chunk after the other, as the stream wrapper does. *)
Fixpoint process_all (c : Rc4) (chunks : list bytes) : result (Rc4 * list bytes) :=
  match chunks with
  | [] => Ok (c, [])
  | d :: ds =>
      '(c1, x) ← process c d;
      '(c2, xs) ← process_all c1 ds;
      Ok (c2, x :: xs)
  end.

Lemma process_all_ok chunks : forall c, box_ok (s c) -> exists c' outs, process_all c chunks = Ok (c', outs) /\
  box_ok (s c') /\ process c (concat chunks) = Ok (c', concat outs).
Proof.
  induction chunks as [|d ds IH]; intros c Hc; [by exists c, []|].
  destruct (process_ok d c Hc) as (c1 & x & E1 & H1 & _). destruct (IH c1 H1) as (c2 & xs & E2 & H2 & E).
  exists c2, (x :: xs). cbn [process_all concat]. rewrite process_app, E1. cbn [mbind result_bind].
  by rewrite E2, E.
Qed.

(** ** Theorems *)

(** A non-empty key always gives a cipher whose S-box is a permutation of
    the 256 bytes, and no operation panics or breaks that.  Two ends that
    start from the same key and skip the same number of bytes undo each
    other: whatever is encrypted in chunks of any sizes and arrives cut into
    chunks of any other sizes decrypts to the plaintext, and both ends are
    left in the same state. *)
Lemma rc4_duplex key n :
  key <> [] ->
  exists c0 c, rc4_new key = Ok c0 /\ skip c0 n = Ok c /\
    forall chunks, exists c' outs, process_all c chunks = Ok (c', outs) /\ box_ok (s c') /\
      forall cuts, concat cuts = concat outs ->
        exists back, process_all c cuts = Ok (c', back) /\ concat back = concat chunks.
Proof.
  intros Hkey. destruct (rc4_new_ok key Hkey) as (c0 & E0 & H0). destruct (skip_ok c0 n H0) as (c & Ec & Hc).
  exists c0, c. split; [done|]. split; [done|]. intros chunks.
  destruct (process_all_ok chunks c Hc) as (c' & outs & E1 & H1 & E). exists c', outs.
  split; [done|]. split; [done|]. intros cuts Hcuts. apply process_twice in E.
  destruct (process_all_ok cuts c Hc) as (c'' & back & E2 & _ & E3). rewrite Hcuts, E in E3.
  injection E3 as -> ->. by exists back.
Qed.

Lemma rc4_duplex_witness :
  exists c0 c, rc4_new (bs "Key") = Ok c0 /\ skip c0 1024 = Ok c.
Proof.
  destruct (rc4_duplex (bs "Key") 1024) as (c0 & c & H1 & H2 & _); [discriminate|].
  exists c0, c. split; [exact H1|exact H2].
Defined.
