(* ===== verification/Mse.v ===== *)
(** * Message stream encryption: [src/src/peer/mse/dh.rs], [handshake.rs], [stream.rs], [mod.rs]

    The Diffie-Hellman exchange, both sides of the MSE/PE handshake over a byte
    stream, and the RC4 wrappers of the stream that follows.  The big-integer
    crate and SHA-1 are parameters; random private keys and paddings are
    arguments. *)

From Stdlib Require Import ZArith Lia Zpow_facts String Strings.Byte.
From stdpp Require Import base tactics numbers list option.
From S2P Require Import Prelude Rc4 Handshake.

#[local] Set Warnings "-register-all".

(** ** Big integers: the [num-bigint] crate *)

(** The operations the source calls, on non-negative integers. *)
Class NumBigint := {
  from_bytes_be : bytes -> Z;
  to_bytes_be : Z -> bytes;
  modpow : Z -> Z -> Z -> Z }.

(** What their documentation promises. *)
Class NumBigintLaws `{NumBigint} := {
  from_bytes_be_spec : forall b, from_bytes_be b = from_be b;
  to_bytes_be_value : forall n, 0 <= n -> from_be (to_bytes_be n) = n;
  to_bytes_be_short : forall n k, (0 < k)%nat -> 0 <= n < 256 ^ Z.of_nat k -> (length (to_bytes_be n) <= k)%nat;
  modpow_spec : forall b e m, 0 <= b -> 0 <= e -> 1 < m -> modpow b e m = (b ^ e) mod m }.

(** ** [dh.rs] *)

Definition p : Z :=
  0xFFFFFFFFFFFFFFFFC90FDAA22168C234C4C6628B80DC1CD129024E088A67CC74020BBEA63B139B22514A08798E3404DDEF9519B3CD3A431B302B0A6DF25F14374FE1356D6D51C245E485B576625E7EC6F44C42E9A63A36210000000000090563.

Definition G : Z := 2.
Definition KEY_LEN : nat := 96.
Definition PRIVATE_BITS : nat := 160.

Record Keypair := mkKeypair { private : Z; public : Z }.

Section Dh.
Context `{NumBigint}.

(** [entropy] is what [fill_bytes] puts into the [PRIVATE_BITS / 8] bytes. *)
Definition generate (entropy : bytes) : result Keypair :=
  b0 ← index entropy 0;
  bytes ← set_index entropy 0 (z2b (Z.lor (b2z b0) 0x80));
  let private := from_bytes_be bytes in
  let public := modpow G private p in
  Ok (mkKeypair private public).

Definition shared_secret (kp : Keypair) (peer_public : Z) : Z := modpow peer_public (private kp) p.

Definition to_bytes (n : Z) : result bytes :=
  let raw := to_bytes_be n in
  if (length raw <=? KEY_LEN)%nat then Ok (replicate (KEY_LEN - length raw) x00 ++ raw) else Panic.

Definition from_bytes (b : bytes) : Z := from_bytes_be b.

End Dh.

Definition validate_peer_public (y : Z) : string + unit :=
  if y <=? 1 then inl "peer public key <= 1"%string
  else if p - 1 <=? y then inl "peer public key >= p-1"%string
  else inr tt.

(** ** [mod.rs] *)

Definition CRYPTO_PLAINTEXT : Z := 0x01.
Definition CRYPTO_RC4 : Z := 0x02.
Definition VC : bytes := replicate 8 x00.

Definition sha1_concat (sha1 : bytes -> bytes) (parts : list bytes) : bytes := sha1 (concat parts).

(** ** [handshake.rs] *)

Definition PAD_MAX : nat := 512.
Definition Y_LEN : nat := KEY_LEN.
Definition SYNC_SEARCH_LIMIT : nat := PAD_MAX + 20.

Inductive MseError :=
  | MIo
  | MHandshake (msg : string)
  | NoCommonCrypto
  | UnknownSkey.

Definition crypto_provide_bytes : bytes := to_be 4 (Z.lor CRYPTO_PLAINTEXT CRYPTO_RC4).

(** Steps on a stream that fail with an [MseError] or panic. *)
Definition MM (A : Type) : Type := Stream -> Stream * result (MseError + A).

#[export] Instance MM_ret : MRet MM := fun A a s => (s, Ok (inr a)).
#[export] Instance MM_bind : MBind MM := fun A B f m s =>
  match m s with
  | (s, Ok (inr a)) => f a s
  | (s, Ok (inl e)) => (s, Ok (inl e))
  | (s, Err e) => (s, Err e)
  | (s, Panic) => (s, Panic)
  | (s, NoFuel) => (s, NoFuel)
  end.

Definition throw {A} (e : MseError) : MM A := fun s => (s, Ok (inl e)).
Definition run_pure {A} (r : result A) : MM A := fun s => (s, inr <$> r).

Definition write_wire (b : bytes) : MM unit := fun s =>
  if writable s then (mkStream (inbox s) (outbox s ++ b) true, Ok (inr tt)) else (s, Ok (inl MIo)).

Definition read_wire (n : nat) : MM bytes := fun s =>
  if (length (inbox s) <? n)%nat then (mkStream [] (outbox s) (writable s), Ok (inl MIo))
  else (mkStream (drop n (inbox s)) (outbox s) (writable s), Ok (inr (take n (inbox s)))).

(** [for i in 0..20 { out[i] = a[i] ^ b[i] }] *)
Definition xor_bytes (a b : bytes) : bytes := zip_with xor8 a b.

(** The sliding window after one more byte. *)
Definition push_window (k : nat) (window : bytes) (b : byte) : bytes :=
  let w := window ++ [b] in
  if (k <? length w)%nat then drop 1 w else w.

(** [for _ in 0..n]: one byte at a time until the last bytes are [needle]. *)
Fixpoint search (n : nat) (needle window : bytes) : MM bool :=
  match n with
  | O => mret false
  | S n =>
      b ← read_wire 1;
      b ← run_pure (index b 0);
      let window := push_window (length needle) window b in
      if (length window =? length needle)%nat && bytes_eqb window needle then mret true
      else search n needle window
  end.

Definition sync_on_pattern (needle : bytes) : MM unit :=
  found ← search SYNC_SEARCH_LIMIT needle [];
  if found : bool then mret tt else throw (MHandshake "could not sync on HASH(req1, S) within search limit").

(** Returns the cipher [in_cipher] is replaced with. *)
Definition sync_on_encrypted_vc (in_cipher : Rc4) : MM Rc4 :=
  '(probe, needle) ← run_pure (process in_cipher (replicate 8 x00));
  found ← search (SYNC_SEARCH_LIMIT + 8) needle [];
  if found : bool then mret probe else throw (MHandshake "could not sync on encrypted VC").

(** [if n > 0 { read_exact; process }]: decrypt and drop [n] bytes. *)
Definition drain (n : nat) (c : Rc4) : MM Rc4 :=
  if (0 <? n)%nat then
    b ← read_wire n;
    '(c, _) ← run_pure (process c b);
    mret c
  else mret c.

Record EncryptedStream := mkEncrypted { read_cipher : Rc4; write_cipher : Rc4 }.

(** Step 4 of the initiator. *)
Definition receive_select (in_cipher out_cipher : Rc4) : MM EncryptedStream :=
  in_cipher ← sync_on_encrypted_vc in_cipher;
  tail ← read_wire 6;
  '(in_cipher, tail) ← run_pure (process in_cipher tail);
  crypto_select ← run_pure (be_at tail 0 4);
  pad_d_len ← run_pure (be_at tail 4 2);
  if Z.of_nat PAD_MAX <? pad_d_len then throw (MHandshake "PadD length")
  else
    in_cipher ← drain (Z.to_nat pad_d_len) in_cipher;
    if Z.land crypto_select CRYPTO_RC4 =? 0 then throw NoCommonCrypto
    else mret (mkEncrypted in_cipher out_cipher).

(** Steps 6 to 8 of the receiver. *)
Definition receive_provide (pad_d : bytes) (in_cipher out_cipher : Rc4) (matched : bytes) : MM (EncryptedStream * bytes) :=
  vc_and_header ← read_wire (8 + 4 + 2);
  '(in_cipher, vc_and_header) ← run_pure (process in_cipher vc_and_header);
  vc ← run_pure (slice_range vc_and_header 0 8);
  if negb (bytes_eqb vc VC) then throw (MHandshake "VC mismatch after sync")
  else
    crypto_provide ← run_pure (be_at vc_and_header 8 4);
    pad_c_len ← run_pure (be_at vc_and_header 12 2);
    if Z.of_nat PAD_MAX <? pad_c_len then throw (MHandshake "PadC length")
    else
      in_cipher ← drain (Z.to_nat pad_c_len) in_cipher;
      ia_len_buf ← read_wire 2;
      '(in_cipher, ia_len_buf) ← run_pure (process in_cipher ia_len_buf);
      in_cipher ← drain (Z.to_nat (from_be ia_len_buf)) in_cipher;
      if Z.land crypto_provide CRYPTO_RC4 =? 0 then throw NoCommonCrypto
      else
        '(out_cipher, packet) ← run_pure (process out_cipher
          (VC ++ to_be 4 CRYPTO_RC4 ++ to_be 2 (Z.of_nat (length pad_d)) ++ pad_d));
        _ ← write_wire packet;
        mret (mkEncrypted in_cipher out_cipher, matched).

Section Exchange.
Context `{NumBigint} (sha1 : bytes -> bytes).

Definition derive_rc4 (tag s skey : bytes) : result Rc4 :=
  let key := sha1_concat sha1 [tag; s; skey] in
  rc4 ← rc4_new key;
  skip rc4 1024.

Definition check_public (y : Z) : MM unit :=
  match validate_peer_public y with
  | inl _ => throw (MHandshake "bad peer DH key")
  | inr _ => mret tt
  end.

Definition perform_outgoing (entropy pad_a pad_c info_hash : bytes) : MM EncryptedStream :=
  kp ← run_pure (generate entropy);
  ya ← run_pure (to_bytes (public kp));
  _ ← write_wire ya;
  _ ← (if (length pad_a =? 0)%nat then mret tt else write_wire pad_a);
  yb ← read_wire Y_LEN;
  let yb_big := from_bytes yb in
  _ ← check_public yb_big;
  s ← run_pure (to_bytes (shared_secret kp yb_big));
  let req1 := sha1_concat sha1 [bs "req1"; s] in
  let req2 := sha1_concat sha1 [bs "req2"; info_hash] in
  let req3 := sha1_concat sha1 [bs "req3"; s] in
  let req23 := xor_bytes req2 req3 in
  out_cipher ← run_pure (derive_rc4 (bs "keyA") s info_hash);
  in_cipher ← run_pure (derive_rc4 (bs "keyB") s info_hash);
  '(out_cipher, encrypted_block) ← run_pure (process out_cipher
    (VC ++ crypto_provide_bytes ++ to_be 2 (Z.of_nat (length pad_c)) ++ pad_c ++ to_be 2 0));
  _ ← write_wire req1;
  _ ← write_wire req23;
  _ ← write_wire encrypted_block;
  receive_select in_cipher out_cipher.

(** The sweep over every hosted info hash: the last match wins. *)
Definition sweep (info_hashes : list bytes) (req2 : bytes) : option bytes :=
  fold_left (fun matched ih =>
    if bytes_eqb (sha1_concat sha1 [bs "req2"; ih]) req2 then Some ih else matched) info_hashes None.

(** Steps 3 to 8 of the receiver. *)
Definition receive_requests (pad_d : bytes) (info_hashes : list bytes) (s : bytes) : MM (EncryptedStream * bytes) :=
  let req1 := sha1_concat sha1 [bs "req1"; s] in
  _ ← sync_on_pattern req1;
  req23 ← read_wire 20;
  let req3 := sha1_concat sha1 [bs "req3"; s] in
  match sweep info_hashes (xor_bytes req23 req3) with
  | None => throw UnknownSkey
  | Some matched =>
      in_cipher ← run_pure (derive_rc4 (bs "keyA") s matched);
      out_cipher ← run_pure (derive_rc4 (bs "keyB") s matched);
      receive_provide pad_d in_cipher out_cipher matched
  end.

Definition perform_incoming (entropy pad_b pad_d : bytes) (info_hashes : list bytes) (pre_read : bytes)
    : MM (EncryptedStream * bytes) :=
  if (Y_LEN <? length pre_read)%nat then throw (MHandshake "pre_read longer than Ya")
  else
    rest ← (if (length pre_read <? Y_LEN)%nat then read_wire (Y_LEN - length pre_read) else mret []);
    let peer_pub := from_bytes (pre_read ++ rest) in
    _ ← check_public peer_pub;
    kp ← run_pure (generate entropy);
    yb ← run_pure (to_bytes (public kp));
    _ ← write_wire yb;
    _ ← (if (length pad_b =? 0)%nat then mret tt else write_wire pad_b);
    s ← run_pure (to_bytes (shared_secret kp peer_pub));
    receive_requests pad_d info_hashes s.

End Exchange.

(** ** [stream.rs] *)

Inductive Poll (A : Type) :=
  | Pending
  | ReadyErr
  | ReadyOk (a : A).
Arguments Pending {A}.
Arguments ReadyErr {A}.
Arguments ReadyOk {A} a.

(** The wrapped stream: [tokio]'s traits as interfaces.  A write answers how many bytes it took,
    a read deposits bytes behind what the buffer already holds. *)
Class AsyncWrite (W : Type) := inner_write : W -> bytes -> W * Poll nat.
Class AsyncRead (R : Type) := inner_read : R -> R * Poll bytes.

Definition poll_write {W} `{AsyncWrite W} (cipher : Rc4) (inner : W) (buf : bytes) : result (Rc4 * W * Poll nat) :=
  '(advanced, encrypted) ← process cipher buf;
  match inner_write inner encrypted with
  | (inner, ReadyOk n) =>
      if (n =? length encrypted)%nat then Ok (advanced, inner, ReadyOk n)
      else cipher ← skip cipher n; Ok (cipher, inner, ReadyOk n)
  | (inner, other) => Ok (cipher, inner, other)
  end.

(** [filled] is what the buffer already held; the result is its new content. *)
Definition poll_read {R} `{AsyncRead R} (cipher : Rc4) (inner : R) (filled : bytes)
    : result (Rc4 * R * bytes * Poll unit) :=
  match inner_read inner with
  | (inner, ReadyOk got) =>
      let before := length filled in
      let buf := filled ++ got in
      if (before <? length buf)%nat then
        fresh ← slice_range buf before (length buf);
        '(cipher, fresh) ← process cipher fresh;
        Ok (cipher, inner, take before buf ++ fresh, ReadyOk tt)
      else Ok (cipher, inner, buf, ReadyOk tt)
  | (inner, Pending) => Ok (cipher, inner, filled, Pending)
  | (inner, ReadyErr) => Ok (cipher, inner, filled, ReadyErr)
  end.

Definition encrypted_poll_write {W} `{AsyncWrite W} (es : EncryptedStream) (inner : W) (buf : bytes)
    : result (EncryptedStream * W * Poll nat) :=
  '(c, inner, r) ← poll_write (write_cipher es) inner buf;
  Ok (mkEncrypted (read_cipher es) c, inner, r).

Definition encrypted_poll_read {R} `{AsyncRead R} (es : EncryptedStream) (inner : R) (filled : bytes)
    : result (EncryptedStream * R * bytes * Poll unit) :=
  '(c, inner, buf, r) ← poll_read (read_cipher es) inner filled;
  Ok (mkEncrypted c (write_cipher es), inner, buf, r).

Definition into_parts (es : EncryptedStream) : Rc4 * Rc4 := (read_cipher es, write_cipher es).

(** ** Lemmas: running the steps *)

Section Steps.
Context {A B : Type}.
Implicit Types (m : MM A) (f : A -> MM B) (st : Stream).

Lemma mse_run_ok m f st st' a : m st = (st', Ok (inr a)) -> (m ≫= f) st = f a st'.
Proof. intros E. unfold mbind, MM_bind. by rewrite E. Qed.

Lemma run_fail m f st st' e : m st = (st', Ok (inl e)) -> (m ≫= f) st = (st', Ok (inl e)).
Proof. intros E. unfold mbind, MM_bind. by rewrite E. Qed.

Lemma run_pure_ok (r : result A) a st : r = Ok a -> run_pure r st = (st, Ok (inr a)).
Proof. by intros ->. Qed.
End Steps.

Lemma read_wire_app n a rest o w : length a = n -> read_wire n (mkStream (a ++ rest) o w) = (mkStream rest o w, Ok (inr a)).
Proof.
  intros <-. unfold read_wire. cbn [inbox outbox writable]. rewrite length_app.
  destruct (Nat.ltb_spec (length a + length rest) (length a)); [lia|]. by rewrite drop_app_length, take_app_length.
Qed.

Lemma read_wire_eof n i o w : (length i < n)%nat -> read_wire n (mkStream i o w) = (mkStream [] o w, Ok (inl MIo)).
Proof. intros Hl. unfold read_wire. cbn [inbox outbox writable]. by apply Nat.ltb_lt in Hl as ->. Qed.

Lemma write_wire_ok b i o : write_wire b (mkStream i o true) = (mkStream i (o ++ b) true, Ok (inr tt)).
Proof. done. Qed.

Lemma write_pad_ok b i o : (if (length b =? 0)%nat then mret tt else write_wire b) (mkStream i o true) =
  (mkStream i (o ++ b) true, Ok (inr tt)).
Proof. destruct b; [by rewrite app_nil_r|done]. Qed.

(** One step of a run: a pure step, a read of known bytes, a write. *)
Ltac pure_step := erewrite mse_run_ok by (apply run_pure_ok; eassumption || reflexivity); cbn beta iota.
Ltac pure_by H := erewrite mse_run_ok by (apply run_pure_ok; exact H); cbn beta iota.
Ltac read_step := erewrite mse_run_ok by (apply read_wire_app; eassumption || reflexivity); cbn beta iota.
Ltac write_step := erewrite mse_run_ok by (apply write_wire_ok || apply write_pad_ok); cbn beta iota.

(** ** Lemmas: the rolling search *)

Definition lastn {A} (k : nat) (l : list A) : list A := drop (length l - k) l.

Lemma lastn_short {A} k (l : list A) : (length l <= k)%nat -> lastn k l = l.
Proof. intros H. unfold lastn. by replace (length l - k)%nat with O by lia. Qed.

Lemma length_lastn {A} k (l : list A) : length (lastn k l) = Nat.min k (length l).
Proof. unfold lastn. rewrite length_drop. lia. Qed.

Lemma push_lastn k l b : (0 < k)%nat -> push_window k (lastn k l) b = lastn k (l ++ [b]).
Proof.
  intros Hk. unfold push_window. rewrite length_app, length_lastn. cbn [length].
  unfold lastn. rewrite length_app. cbn [length].
  destruct (Nat.ltb_spec k (Nat.min k (length l) + 1)) as [Hlt|Hge].
  - rewrite drop_app_le by (rewrite length_drop; lia). rewrite drop_drop, (drop_app_le l) by lia. f_equal. f_equal. lia.
  - replace (length l - k)%nat with O by lia. by replace (length l + 1 - k)%nat with O by lia.
Qed.

(** No occurrence of [needle] ends in [h]. *)
Definition absent (needle h : bytes) : Prop :=
  forall m, (length needle <= m <= length h)%nat -> lastn (length needle) (take m h) <> needle.

Lemma search_step n needle l b i o w :
  needle <> [] ->
  search (S n) needle (lastn (length needle) l) (mkStream (b :: i) o w) =
  if (length needle <=? S (length l))%nat && bytes_eqb (lastn (length needle) (l ++ [b])) needle
  then (mkStream i o w, Ok (inr true))
  else search n needle (lastn (length needle) (l ++ [b])) (mkStream i o w).
Proof.
  intros Hn. assert (0 < length needle)%nat by (destruct needle; [done|cbn; lia]). cbn [search].
  rewrite (mse_run_ok _ _ _ _ [b] (read_wire_app 1 [b] i o w eq_refl)).
  rewrite (mse_run_ok _ _ _ _ b (run_pure_ok _ _ _ eq_refl)), push_lastn by done.
  rewrite length_lastn, length_app. cbn [length].
  replace (Nat.min (length needle) (length l + 1) =? length needle)%nat with (length needle <=? S (length l))%nat; [by destruct (_ && _)|].
  destruct (Nat.leb_spec (length needle) (S (length l))); symmetry; [apply Nat.eqb_eq|apply Nat.eqb_neq]; lia.
Qed.

Lemma search_skip needle h : needle <> [] -> absent needle h -> forall n rest o w, (length h <= n)%nat ->
  search n needle [] (mkStream (h ++ rest) o w) = search (n - length h) needle (lastn (length needle) h) (mkStream rest o w).
Proof.
  intros Hn. induction h as [|b h IH] using rev_ind; intros Ha n rest o w Hl.
  { rewrite Nat.sub_0_r. by rewrite lastn_short by (cbn; lia). }
  rewrite length_app in Hl |- *. cbn [length] in *. rewrite <- app_assoc. cbn [app].
  rewrite IH by (try lia; intros m Hm; rewrite <- (take_app_le h [b]) by lia; apply Ha; rewrite length_app; cbn; lia).
  destruct (n - length h)%nat as [|n'] eqn:En; [lia|]. rewrite search_step by done.
  replace (n - (length h + 1))%nat with n' by lia.
  destruct (Nat.leb_spec (length needle) (S (length h))) as [Hle|]; [|done]. cbn [andb].
  destruct (bytes_eqb _ _) eqn:E; [|done]. apply bytes_eqb_eq in E. exfalso.
  apply (Ha (S (length h))); [rewrite length_app; cbn; lia|]. by rewrite take_ge by (rewrite length_app; cbn; lia).
Qed.

(** The padding in front of [needle] does not complete it early. *)
Definition clean (needle pad : bytes) : Prop :=
  forall k, (k < length pad)%nat -> slice (pad ++ needle) k (length needle) <> needle.

Definition clean_b (needle pad : bytes) : bool :=
  forallb (fun k => negb (bytes_eqb (slice (pad ++ needle) k (length needle)) needle)) (seq 0 (length pad)).

Lemma clean_b_spec needle pad : clean_b needle pad = true -> clean needle pad.
Proof.
  unfold clean_b. intros Hc k Hk E. rewrite forallb_forall in Hc. specialize (Hc k).
  rewrite in_seq, E, bytes_eqb_refl in Hc. cbn in Hc. discriminate Hc; lia.
Qed.

Lemma clean_absent needle pad h tl : clean needle pad -> pad ++ needle = h ++ tl -> tl <> [] -> absent needle h.
Proof.
  intros Hc E Ht m Hm He. assert (0 < length tl)%nat by (destruct tl; [done|cbn; lia]).
  assert (length pad + length needle = length h + length tl)%nat by (rewrite <- !length_app; by rewrite E).
  apply (Hc (m - length needle)%nat); [lia|]. etransitivity; [|exact He]. rewrite E. unfold slice, lastn.
  rewrite length_take_le by lia. rewrite drop_app_le by lia. rewrite take_app_le by (rewrite length_drop; lia).
  rewrite skipn_firstn_comm. f_equal. lia.
Qed.

Lemma search_found needle pad n rest o w :
  needle <> [] -> clean needle pad -> (length pad + length needle <= n)%nat ->
  search n needle [] (mkStream (pad ++ needle ++ rest) o w) = (mkStream rest o w, Ok (inr true)).
Proof.
  intros Hn Hc Hl. destruct (exists_last Hn) as (nd & b & E).
  assert (Eh : pad ++ needle ++ rest = (pad ++ nd) ++ b :: rest) by (rewrite E, <- !app_assoc; done).
  assert (Ep : pad ++ needle = (pad ++ nd) ++ [b]) by (rewrite E, <- !app_assoc; done).
  assert (length needle = S (length nd)) as En by (rewrite E, length_app; cbn; lia).
  rewrite Eh, search_skip; [|done|by eapply clean_absent|rewrite length_app; lia].
  rewrite length_app. destruct (n - _)%nat as [|n'] eqn:E'; [lia|]. rewrite search_step by done.
  rewrite <- Ep. replace (lastn (length needle) (pad ++ needle)) with needle.
  - rewrite bytes_eqb_refl, length_app. destruct (Nat.leb_spec (length needle) (S (length pad + length nd))); [done|lia].
  - unfold lastn. rewrite length_app, drop_app_ge by lia. by replace (_ - _ - _)%nat with O by lia.
Qed.

Lemma search_eof needle pad n o w : needle <> [] -> clean needle pad -> (length pad < n)%nat ->
  search n needle [] (mkStream pad o w) = (mkStream [] o w, Ok (inl MIo)).
Proof.
  intros Hn Hc Hl. rewrite <- (app_nil_r pad) at 1. rewrite search_skip; [|done|by eapply clean_absent|lia].
  destruct (n - length pad)%nat eqn:E; [lia|]. cbn [search]. by erewrite run_fail by (by apply read_wire_eof; cbn; lia).
Qed.

(** ** Lemmas: reading what the other end encrypted *)

Lemma process_length c data c' out : process c data = Ok (c', out) -> length out = length data.
Proof.
  revert c c' out. induction data as [|x data IH]; intros c c' out; cbn [process]; [by intros [= <- <-]|].
  intros Hp. apply bind_Ok in Hp as ([c1 k] & _ & Hp). apply bind_Ok in Hp as ([c2 out'] & Hd & Hp).
  injection Hp as <- <-. cbn [length]. f_equal. by eapply IH.
Qed.

Lemma process_split c a b c' out : process c (a ++ b) = Ok (c', out) -> exists c1 x y,
  process c a = Ok (c1, x) /\ process c1 b = Ok (c', y) /\ out = x ++ y.
Proof.
  rewrite process_app. intros Hp. apply bind_Ok in Hp as ([c1 x] & Hx & Hp). apply bind_Ok in Hp as ([c2 y] & Hy & Hp).
  injection Hp as <- <-. by exists c1, x, y.
Qed.

Lemma drain_run c data c' out rest o w : process c data = Ok (c', out) ->
  drain (length data) c (mkStream (out ++ rest) o w) = (mkStream rest o w, Ok (inr c')).
Proof.
  intros E. pose proof (process_length _ _ _ _ E) as El. apply process_twice in E. unfold drain.
  destruct (Nat.ltb_spec 0 (length data)) as [Hp|Hz].
  - erewrite mse_run_ok by (by apply read_wire_app). by erewrite mse_run_ok by (by apply run_pure_ok).
  - destruct out; [|cbn in El; lia]. cbn [process] in E. by injection E as <- _.
Qed.

Lemma pad_len_read n : (n <= PAD_MAX)%nat -> 0 <= Z.of_nat n < 256 ^ Z.of_nat 2 /\ (Z.of_nat PAD_MAX <? Z.of_nat n) = false.
Proof. unfold PAD_MAX. intros H. split; [lia|]. apply Z.ltb_ge. lia. Qed.

(** The initiator's last step against the packet of the receiver. *)
Lemma select_run c out pad_b pad_d c1 needle c' packet rest o w :
  process c VC = Ok (c1, needle) -> clean needle pad_b -> (length pad_b <= PAD_MAX)%nat -> (length pad_d <= PAD_MAX)%nat ->
  process c (VC ++ to_be 4 CRYPTO_RC4 ++ to_be 2 (Z.of_nat (length pad_d)) ++ pad_d) = Ok (c', packet) ->
  receive_select c out (mkStream (pad_b ++ packet ++ rest) o w) = (mkStream rest o w, Ok (inr (mkEncrypted c' out))).
Proof.
  intros Hn Hc Hb Hd Hp. apply process_split in Hp as (c1' & needle' & y & E1 & Hp & ->).
  rewrite Hn in E1. injection E1 as <- <-. rewrite app_assoc in Hp. apply process_split in Hp as (c2 & t6 & d & E2 & Ed & ->).
  pose proof (process_length _ _ _ _ Hn) as Ln. pose proof (process_length _ _ _ _ E2) as L2.
  rewrite length_app, !length_to_be in L2. apply process_twice in E2. apply pad_len_read in Hd as [Hd Hd'].
  assert (Hf : search (SYNC_SEARCH_LIMIT + 8) needle [] (mkStream (pad_b ++ needle ++ t6 ++ d ++ rest) o w) = (mkStream (t6 ++ d ++ rest) o w, Ok (inr true))).
  { apply search_found; [by destruct needle|done|]. unfold SYNC_SEARCH_LIMIT. rewrite Ln. change (length VC) with 8%nat. lia. }
  assert (Hs : sync_on_encrypted_vc c (mkStream (pad_b ++ needle ++ t6 ++ d ++ rest) o w) = (mkStream (t6 ++ d ++ rest) o w, Ok (inr c1))).
  { unfold sync_on_encrypted_vc. pure_step. by erewrite mse_run_ok by exact Hf. }
  unfold receive_select. rewrite <- !app_assoc. erewrite mse_run_ok by exact Hs. read_step. pure_step.
  rewrite (be_at_field _ 0 4 CRYPTO_RC4 [] (to_be 2 (Z.of_nat (length pad_d)))) by done.
  rewrite (be_at_field _ 4 2 (Z.of_nat (length pad_d)) (to_be 4 CRYPTO_RC4) []) by (rewrite ?app_nil_r; done).
  do 2 pure_step. rewrite Hd', Nat2Z.id. by erewrite mse_run_ok by (by apply drain_run).
Qed.

(** The receiver's last steps against the block of the initiator. *)
Lemma provide_run c out matched pad_c pad_d c' enc out' packet rest o :
  (length pad_c <= PAD_MAX)%nat ->
  process c (VC ++ crypto_provide_bytes ++ to_be 2 (Z.of_nat (length pad_c)) ++ pad_c ++ to_be 2 0) = Ok (c', enc) ->
  process out (VC ++ to_be 4 CRYPTO_RC4 ++ to_be 2 (Z.of_nat (length pad_d)) ++ pad_d) = Ok (out', packet) ->
  receive_provide pad_d c out matched (mkStream (enc ++ rest) o true) =
  (mkStream rest (o ++ packet) true, Ok (inr (mkEncrypted c' out', matched))).
Proof.
  intros Hc Hp Ho. apply pad_len_read in Hc as [Hc Hc'].
  replace (VC ++ crypto_provide_bytes ++ to_be 2 (Z.of_nat (length pad_c)) ++ pad_c ++ to_be 2 0)
    with ((VC ++ crypto_provide_bytes ++ to_be 2 (Z.of_nat (length pad_c))) ++ pad_c ++ to_be 2 0) in Hp
    by (rewrite <- !app_assoc; done).
  apply process_split in Hp as (c1 & h & y & E1 & Hp & ->). apply process_split in Hp as (c2 & d & l & E2 & E3 & ->).
  pose proof (process_length _ _ _ _ E1) as L1. rewrite !length_app, length_to_be in L1.
  pose proof (process_length _ _ _ _ E3) as L3. rewrite length_to_be in L3. apply process_twice in E1, E3.
  unfold receive_provide. rewrite <- !app_assoc. read_step. pure_step.
  rewrite slice_range_Ok by (rewrite !length_app, length_to_be; cbn; lia). pure_step.
  change (bytes_eqb (slice (VC ++ _) 0 (8 - 0)) VC) with true. cbn [negb].
  rewrite (be_at_field _ 8 4 (Z.lor CRYPTO_PLAINTEXT CRYPTO_RC4) VC (to_be 2 (Z.of_nat (length pad_c)))) by done.
  rewrite (be_at_field _ 12 2 (Z.of_nat (length pad_c)) (VC ++ crypto_provide_bytes) []) by (rewrite <- ?app_assoc, ?app_nil_r; done).
  do 2 pure_step. rewrite Hc', Nat2Z.id. erewrite mse_run_ok by (by apply drain_run). read_step. pure_step.
  erewrite mse_run_ok by (by apply (drain_run c' [] c' [])). cbn [Z.land]. change (Z.land _ _ =? 0) with false. cbn iota.
  pure_step. by write_step.
Qed.

(** ** Lemmas: Diffie-Hellman *)

Lemma p_range : 1 < p < 256 ^ Z.of_nat KEY_LEN.
Proof. split; vm_compute; reflexivity. Qed.

Lemma zeros_from_be n l : from_be (replicate n x00 ++ l) = from_be l.
Proof. induction n as [|n IH]; [done|]. cbn [replicate app]. rewrite from_be_cons, IH. done. Qed.

Section DhLemmas.
Context `{NumBigintLaws}.

Lemma to_bytes_ok n : 0 <= n < 256 ^ Z.of_nat KEY_LEN -> to_bytes n = Ok (to_be KEY_LEN n).
Proof.
  intros Hn. unfold to_bytes. pose proof (to_bytes_be_short n KEY_LEN ltac:(unfold KEY_LEN; lia) Hn) as Hs.
  pose proof (to_bytes_be_value n ltac:(lia)) as Hv. apply Nat.leb_le in Hs as Hs'. rewrite Hs'. f_equal.
  rewrite <- Hv at 3. rewrite <- (zeros_from_be (KEY_LEN - length (to_bytes_be n))).
  rewrite <- to_from_be at 1. f_equal. rewrite length_app, length_replicate. lia.
Qed.

Lemma generate_ok entropy : length entropy = (PRIVATE_BITS / 8)%nat ->
  exists kp, generate entropy = Ok kp /\ 0 <= private kp /\ public kp = (G ^ private kp) mod p.
Proof.
  intros Hl. unfold generate. destruct entropy as [|b e]; [done|]. rewrite index_cons. cbn [mbind result_bind].
  rewrite set_index_Ok by (cbn; lia). cbn [mbind result_bind]. eexists. split; [done|]. cbn [private public].
  rewrite from_bytes_be_spec. pose proof (from_be_range (<[0%nat:=z2b (Z.lor (b2z b) 128)]> (b :: e))).
  split; [lia|]. apply modpow_spec; [by unfold G; lia|lia|apply p_range].
Qed.

Lemma public_range kp : public kp = (G ^ private kp) mod p -> 0 <= public kp < p.
Proof. intros ->. apply Z.mod_pos_bound. pose proof p_range. lia. Qed.

Lemma secret_range kp y : 0 <= private kp -> 0 <= y -> 0 <= shared_secret kp y < p.
Proof.
  intros Hx Hy. unfold shared_secret. pose proof p_range. rewrite modpow_spec by lia. apply Z.mod_pos_bound. lia.
Qed.

(** Both ends compute the same secret. *)
Lemma secrets_agree ka kb : 0 <= private ka -> 0 <= private kb ->
  public ka = (G ^ private ka) mod p -> public kb = (G ^ private kb) mod p ->
  shared_secret ka (public kb) = shared_secret kb (public ka).
Proof.
  intros Ha Hb Pa Pb. pose proof p_range. pose proof (public_range ka Pa). pose proof (public_range kb Pb).
  unfold shared_secret. rewrite !modpow_spec by lia. rewrite Pa, Pb, !Z.mod_pow_l, <- !Z.pow_mul_r by lia. by rewrite Z.mul_comm.
Qed.
End DhLemmas.

Lemma check_public_ok y st : 1 < y < p - 1 -> check_public y st = (st, Ok (inr tt)).
Proof.
  intros Hy. unfold check_public, validate_peer_public.
  destruct (Z.leb_spec y 1), (Z.leb_spec (p - 1) y); try lia. done.
Qed.

(** ** Lemmas: the flights of the handshake *)

Definition keys_of `{NumBigint} (entropy : bytes) (kp : Keypair) : Prop :=
  generate entropy = Ok kp /\ 0 <= private kp /\ public kp = (G ^ private kp) mod p.

Section Flights.
Context `{NumBigintLaws} (sha1 : bytes -> bytes) (sha1_len : forall b, length (sha1 b) = 20%nat).

Lemma keys_bytes entropy kp : keys_of entropy kp -> to_bytes (public kp) = Ok (to_be KEY_LEN (public kp)).
Proof. intros (_ & _ & E). apply to_bytes_ok. pose proof (public_range kp E). pose proof p_range. lia. Qed.

Lemma secret_bytes entropy kp y : keys_of entropy kp -> 0 <= y ->
  to_bytes (shared_secret kp y) = Ok (to_be KEY_LEN (shared_secret kp y)).
Proof. intros (_ & Hx & E) Hy. apply to_bytes_ok. pose proof (secret_range kp y Hx Hy). pose proof p_range. lia. Qed.

Lemma derive_ok tag s skey : exists c, derive_rc4 sha1 tag s skey = Ok c /\ box_ok (Rc4.s c).
Proof.
  unfold derive_rc4, sha1_concat. destruct (rc4_new_ok (sha1 (concat [tag; s; skey]))) as (c & -> & Hc).
  { intros E. pose proof (sha1_len (concat [tag; s; skey])) as Hl. by rewrite E in Hl. }
  by apply skip_ok.
Qed.

(** The dialler speaks first. *)
Lemma outgoing_hello entropy kp pad_a pad_c ih i o : keys_of entropy kp -> (length i < Y_LEN)%nat ->
  perform_outgoing sha1 entropy pad_a pad_c ih (mkStream i o true) =
  (mkStream [] ((o ++ to_be KEY_LEN (public kp)) ++ pad_a) true, Ok (inl MIo)).
Proof.
  intros Hk Hi. pose proof (keys_bytes _ _ Hk) as Hy. destruct Hk as (Hg & _). unfold perform_outgoing.
  do 2 pure_step. do 2 write_step. by erewrite run_fail by (by apply read_wire_eof).
Qed.

Lemma outgoing_run entropy kp pad_a pad_c ih y ca cb ca' enc rest o :
  keys_of entropy kp -> 1 < y < p - 1 ->
  let s := to_be KEY_LEN (shared_secret kp y) in
  derive_rc4 sha1 (bs "keyA") s ih = Ok ca -> derive_rc4 sha1 (bs "keyB") s ih = Ok cb ->
  process ca (VC ++ crypto_provide_bytes ++ to_be 2 (Z.of_nat (length pad_c)) ++ pad_c ++ to_be 2 0) = Ok (ca', enc) ->
  perform_outgoing sha1 entropy pad_a pad_c ih (mkStream (to_be KEY_LEN y ++ rest) o true) =
  receive_select cb ca' (mkStream rest
    ((((o ++ to_be KEY_LEN (public kp)) ++ pad_a) ++ sha1_concat sha1 [bs "req1"; s])
      ++ xor_bytes (sha1_concat sha1 [bs "req2"; ih]) (sha1_concat sha1 [bs "req3"; s]) ++ enc) true).
Proof.
  intros Hk Hv s Ha Hb He. pose proof (keys_bytes _ _ Hk) as Hy. pose proof (secret_bytes _ _ y Hk ltac:(lia)) as Hs.
  destruct Hk as (Hg & _). unfold perform_outgoing. do 2 pure_step. do 2 write_step.
  erewrite mse_run_ok by (apply read_wire_app, length_to_be). unfold from_bytes. rewrite from_bytes_be_spec, from_to_be by (pose proof p_range; lia).
  erewrite mse_run_ok by (by apply check_public_ok). fold s in Hs. pure_by Hs. pure_by Ha. pure_by Hb. pure_by He. do 3 write_step. by rewrite <- !app_assoc.
Qed.

Lemma incoming_hello entropy kp pad_b pad_d hashes pre head y rest o :
  keys_of entropy kp -> 1 < y < p - 1 -> pre ++ head = to_be KEY_LEN y ->
  perform_incoming sha1 entropy pad_b pad_d hashes pre (mkStream (head ++ rest) o true) =
  receive_requests sha1 pad_d hashes (to_be KEY_LEN (shared_secret kp y))
    (mkStream rest ((o ++ to_be KEY_LEN (public kp)) ++ pad_b) true).
Proof.
  intros Hk Hv Hp. pose proof (keys_bytes _ _ Hk) as Hy. pose proof (secret_bytes _ _ y Hk ltac:(lia)) as Hs.
  destruct Hk as (Hg & _). assert (Hl : (length pre + length head = Y_LEN)%nat) by (rewrite <- length_app, Hp; apply length_to_be).
  unfold perform_incoming. destruct (Nat.ltb_spec Y_LEN (length pre)); [lia|].
  erewrite mse_run_ok; [|instantiate (1 := head); instantiate (1 := mkStream rest o true)].
  2: { destruct (Nat.ltb_spec (length pre) Y_LEN); [apply read_wire_app; lia|]. destruct head; [done|cbn in Hl; lia]. }
  cbn beta iota. unfold from_bytes. rewrite from_bytes_be_spec, Hp, from_to_be by (pose proof p_range; lia).
  erewrite mse_run_ok by (by apply check_public_ok). pure_by Hg. pure_by Hy. do 2 write_step. by pure_by Hs.
Qed.

Lemma requests_wait pad_d hashes s pad_a o w :
  clean (sha1_concat sha1 [bs "req1"; s]) pad_a -> (length pad_a <= PAD_MAX)%nat ->
  receive_requests sha1 pad_d hashes s (mkStream pad_a o w) = (mkStream [] o w, Ok (inl MIo)).
Proof.
  intros Hc Hl. unfold receive_requests. apply run_fail. unfold sync_on_pattern. apply run_fail.
  apply search_eof; [|done|unfold SYNC_SEARCH_LIMIT; lia].
  intros E. pose proof (sha1_len (concat [bs "req1"; s])) as Hs. unfold sha1_concat in E. by rewrite E in Hs.
Qed.

Lemma xor_bytes_twice a b : length a = length b -> xor_bytes (xor_bytes a b) b = a.
Proof.
  unfold xor_bytes. revert b. induction a as [|x a IH]; intros [|y b]; try done. cbn. intros [= E]. by rewrite xor8_twice, IH.
Qed.

Lemma requests_run pad_d hashes s ih pad_a ca cb rest o w :
  let req2 := sha1_concat sha1 [bs "req2"; ih] in
  clean (sha1_concat sha1 [bs "req1"; s]) pad_a -> (length pad_a <= PAD_MAX)%nat -> sweep sha1 hashes req2 = Some ih ->
  derive_rc4 sha1 (bs "keyA") s ih = Ok ca -> derive_rc4 sha1 (bs "keyB") s ih = Ok cb ->
  receive_requests sha1 pad_d hashes s
    (mkStream (pad_a ++ sha1_concat sha1 [bs "req1"; s] ++ xor_bytes req2 (sha1_concat sha1 [bs "req3"; s]) ++ rest) o w) =
  receive_provide pad_d ca cb ih (mkStream rest o w).
Proof.
  intros req2 Hc Hl Hs Ha Hb. pose proof (sha1_len (concat [bs "req1"; s])) as L1.
  assert (Hf : sync_on_pattern (sha1_concat sha1 [bs "req1"; s])
    (mkStream (pad_a ++ sha1_concat sha1 [bs "req1"; s] ++ xor_bytes req2 (sha1_concat sha1 [bs "req3"; s]) ++ rest) o w) =
    (mkStream (xor_bytes req2 (sha1_concat sha1 [bs "req3"; s]) ++ rest) o w, Ok (inr tt))).
  { unfold sync_on_pattern. erewrite (mse_run_ok _ _ _ _ true); [reflexivity|]. apply search_found; [|done|].
    - intros E. unfold sha1_concat in E. by rewrite E in L1.
    - unfold SYNC_SEARCH_LIMIT, sha1_concat. lia. }
  unfold receive_requests. erewrite mse_run_ok by exact Hf. erewrite mse_run_ok.
  2: { apply read_wire_app. unfold xor_bytes, req2, sha1_concat. rewrite length_zip_with, !sha1_len. done. }
  rewrite xor_bytes_twice by (unfold req2, sha1_concat; by rewrite !sha1_len). rewrite Hs. pure_by Ha. by pure_by Hb.
Qed.

Lemma sweep_last hashes ih : forall acc, (acc = Some ih \/ ih ∈ hashes) ->
  (forall ih', ih' ∈ hashes -> sha1_concat sha1 [bs "req2"; ih'] = sha1_concat sha1 [bs "req2"; ih] -> ih' = ih) ->
  fold_left (fun matched h => if bytes_eqb (sha1_concat sha1 [bs "req2"; h]) (sha1_concat sha1 [bs "req2"; ih]) then Some h else matched)
    hashes acc = Some ih.
Proof.
  induction hashes as [|h hashes IH]; intros acc Ha Hu; cbn [fold_left].
  { destruct Ha as [->|Hin]; [done|by apply elem_of_nil in Hin]. }
  apply IH; [|intros ih' Hin; apply Hu; by apply elem_of_cons; right].
  destruct (bytes_eqb _ _) eqn:E.
  - apply bytes_eqb_eq in E. left. f_equal. apply Hu; [apply elem_of_cons; by left|done].
  - destruct Ha as [->|Hin]; [by left|]. apply elem_of_cons in Hin as [->|Hin]; [|by right]. by rewrite bytes_eqb_refl in E.
Qed.
End Flights.

Lemma select_wait c out pad_b c1 needle o w : process c VC = Ok (c1, needle) -> clean needle pad_b -> (length pad_b <= PAD_MAX)%nat ->
  receive_select c out (mkStream pad_b o w) = (mkStream [] o w, Ok (inl MIo)).
Proof.
  intros Hn Hc Hl. pose proof (process_length _ _ _ _ Hn) as Ln. unfold receive_select. apply run_fail.
  unfold sync_on_encrypted_vc. pure_step. apply run_fail.
  apply search_eof; [by destruct needle|done|unfold SYNC_SEARCH_LIMIT; lia].
Qed.

Lemma validate_range y : validate_peer_public y = inr tt <-> 1 < y < p - 1.
Proof. unfold validate_peer_public. destruct (Z.leb_spec y 1), (Z.leb_spec (p - 1) y); split; intros; try done; lia. Qed.

(** ** Lemmas: any input *)

(** From any stream, [m] reads at most [n] bytes, does not panic, and ends either in an error,
    having read [used] and written [w] with [F used w], or in a result with [Q a used w]. *)
Definition behaves {A} (n : nat) (m : MM A) (F : bytes -> bytes -> Prop) (Q : A -> bytes -> bytes -> Prop) : Prop :=
  forall st, exists used w, inbox st = used ++ inbox (fst (m st)) /\ (length used <= n)%nat /\
    outbox (fst (m st)) = outbox st ++ w /\
    match snd (m st) with Ok (inl _) => F used w | Ok (inr a) => Q a used w | _ => False end.

Lemma behaves_bind {A B} n k (m : MM A) (f : A -> MM B) (F : bytes -> bytes -> Prop) Q R :
  behaves n m F Q ->
  (forall a u w, Q a u w -> behaves k (f a) (fun u' w' => F (u ++ u') (w ++ w')) (fun b u' w' => R b (u ++ u') (w ++ w'))) ->
  behaves (n + k) (m ≫= f) F R.
Proof.
  intros Hm Hf st. destruct (Hm st) as (u & w & E1 & L1 & O1 & R1). unfold mbind, MM_bind.
  destruct (m st) as [st1 r1]. cbn [fst snd] in *. destruct r1 as [[e|a]| | |]; try done.
  { exists u, w. split; [done|]. split; [lia|]. by split. }
  destruct (Hf a u w R1 st1) as (u' & w' & E2 & L2 & O2 & R2). exists (u ++ u'), (w ++ w').
  rewrite E1, E2, O2, O1, length_app, !app_assoc. split; [done|]. split; [lia|]. by split.
Qed.

Lemma behaves_weaken {A} n k (m : MM A) (F F' : bytes -> bytes -> Prop) (Q Q' : A -> bytes -> bytes -> Prop) :
  behaves n m F Q -> (n <= k)%nat -> (forall u w, F u w -> F' u w) -> (forall a u w, Q a u w -> Q' a u w) -> behaves k m F' Q'.
Proof.
  intros Hm Hn HF HQ st. destruct (Hm st) as (u & w & E & L & O & R). exists u, w. split; [done|]. split; [lia|]. split; [done|].
  destruct (snd (m st)) as [[e|a]| | |]; auto.
Qed.

Lemma behaves_ret {A} n (a : A) (F : bytes -> bytes -> Prop) (Q : A -> bytes -> bytes -> Prop) : Q a [] [] -> behaves n (mret a) F Q.
Proof. intros Hq st. exists [], []. rewrite app_nil_r. split; [done|]. split; [cbn; lia|]. by split. Qed.

Lemma behaves_throw {A} n e (F : bytes -> bytes -> Prop) (Q : A -> bytes -> bytes -> Prop) : F [] [] -> behaves n (throw e) F Q.
Proof. intros Hf st. exists [], []. rewrite app_nil_r. split; [done|]. split; [cbn; lia|]. by split. Qed.

Lemma behaves_pure {A B} n (r : result A) a (f : A -> MM B) F Q : r = Ok a -> behaves n (f a) F Q -> behaves n (run_pure r ≫= f) F Q.
Proof. intros -> Hf st. destruct (Hf st) as (u & w & H). exists u, w. exact H. Qed.

Lemma read_behaves n (F : bytes -> bytes -> Prop) : (forall u, (length u <= n)%nat -> F u []) ->
  behaves n (read_wire n) F (fun b u w => b = u /\ w = [] /\ length b = n).
Proof.
  intros HF st. unfold read_wire. destruct (Nat.ltb_spec (length (inbox st)) n).
  - exists (inbox st), []. cbn. rewrite !app_nil_r. split; [done|]. split; [lia|]. split; [done|]. apply HF. lia.
  - exists (take n (inbox st)), []. cbn. rewrite take_drop, app_nil_r, length_take. split; [done|]. split; [lia|].
    split; [done|]. repeat split. lia.
Qed.

Lemma write_behaves b n (F : bytes -> bytes -> Prop) : F [] [] -> behaves n (write_wire b) F (fun _ u w => u = [] /\ w = b).
Proof.
  intros HF st. unfold write_wire. destruct (writable st).
  - exists [], b. cbn. split; [done|]. split; [lia|]. by split.
  - exists [], []. cbn. rewrite app_nil_r. split; [done|]. split; [lia|]. by split.
Qed.

Lemma behaves_read {B} n k (f : bytes -> MM B) (F : bytes -> bytes -> Prop) Q :
  (forall u, (length u <= n)%nat -> F u []) ->
  (forall b, length b = n -> behaves k (f b) (fun u w => F (b ++ u) w) (fun a u w => Q a (b ++ u) w)) ->
  behaves (n + k) (read_wire n ≫= f) F Q.
Proof.
  intros HF Hf. eapply behaves_bind; [by apply read_behaves|]. intros b u w (-> & -> & Hl). by apply Hf.
Qed.

Lemma behaves_write {B} b n (f : unit -> MM B) (F : bytes -> bytes -> Prop) Q :
  F [] [] -> behaves n (f tt) (fun u w => F u (b ++ w)) (fun a u w => Q a u (b ++ w)) -> behaves n (write_wire b ≫= f) F Q.
Proof. intros HF Hf. apply (behaves_bind 0 n _ _ _ _ _ (write_behaves b 0 F HF)). intros [] u w [-> ->]. exact Hf. Qed.

Lemma push_suffix k win b : exists d, win ++ [b] = d ++ push_window k win b.
Proof.
  unfold push_window. destruct (_ <? _)%nat; [|by exists []]. exists (take 1 (win ++ [b])). by rewrite take_drop.
Qed.

Lemma search_behaves n needle : forall win,
  behaves n (search n needle win) (fun _ w => w = []) (fun found u w => w = [] /\ (found = true -> exists skip, win ++ u = skip ++ needle)).
Proof.
  induction n as [|n IH]; intros win; cbn [search]; [by apply behaves_ret|].
  apply (behaves_read 1 n); [done|]. intros b Hb. destruct b as [|b [|]]; try done.
  apply (behaves_pure _ _ b); [done|]. cbn zeta. destruct (push_suffix (length needle) win b) as [d Hd].
  destruct (_ && _) eqn:E.
  - apply andb_true_iff in E as [_ E]. apply bytes_eqb_eq in E. apply behaves_ret. split; [done|]. intros _. exists d. by rewrite app_nil_r, Hd, E.
  - eapply behaves_weaken; [apply IH|lia|done|]. intros a u w [Hw Hs]. split; [done|]. intros Ha.
    destruct (Hs Ha) as [sk Es]. exists (d ++ sk). cbn [app]. change (b :: u) with ([b] ++ u).
    by rewrite (app_assoc win), Hd, <- !app_assoc, Es.
Qed.

Lemma drain_behaves n k c : box_ok (s c) -> (n <= k)%nat ->
  behaves k (drain n c) (fun _ w => w = []) (fun c' _ w => w = [] /\ box_ok (s c')).
Proof.
  intros Hc Hn. unfold drain. destruct (0 <? n)%nat; [|by apply behaves_ret].
  apply behaves_weaken with (n := (n + 0)%nat) (F := fun _ w => w = []) (Q := fun c' _ w => w = [] /\ box_ok (s c')); [|lia|done|done].
  apply behaves_read; [done|]. intros b _. destruct (process_ok b c Hc) as (c' & x & E & Hc' & _).
  apply (behaves_pure _ _ (c', x)); [done|]. by apply behaves_ret.
Qed.

Definition ciphers_ok (es : EncryptedStream) : Prop := box_ok (s (read_cipher es)) /\ box_ok (s (write_cipher es)).

Lemma provide_behaves pad_d c out matched : box_ok (s c) -> box_ok (s out) ->
  behaves (14 + (PAD_MAX + (2 + Z.to_nat 65535))) (receive_provide pad_d c out matched) (fun _ w => w = [])
    (fun r _ _ => ciphers_ok r.1 /\ r.2 = matched).
Proof.
  intros Hc Ho. unfold receive_provide. apply behaves_read; [done|]. intros b Hb.
  destruct (process_ok b c Hc) as (c1 & h & E1 & H1 & L1). apply (behaves_pure _ _ (c1, h)); [done|].
  apply (behaves_pure _ _ (slice h 0 8)); [apply slice_range_Ok; lia|]. destruct (bytes_eqb _ _); cbn [negb]; [|by apply behaves_throw].
  eapply behaves_pure; [apply be_at_slice; lia|]. eapply behaves_pure; [apply be_at_slice; lia|].
  destruct (Z.ltb_spec (Z.of_nat PAD_MAX) (from_be (slice h 12 2))) as [|Hp]; [by apply behaves_throw|].
  eapply behaves_bind; [apply drain_behaves; [done|lia]|]. cbn beta. intros c2 u w [-> H2].
  apply behaves_read; [done|]. intros l Hl. destruct (process_ok l c2 H2) as (c3 & l' & E3 & H3 & L3).
  apply (behaves_pure _ _ (c3, l')); [done|]. rewrite <- (Nat.add_0_r (Z.to_nat 65535)).
  eapply behaves_bind; [apply drain_behaves; [done|]|].
  { pose proof (from_be_range l') as R. rewrite L3, Hl in R. change (256 ^ Z.of_nat 2) with 65536 in R. lia. }
  cbn beta. intros c4 u' w [-> H4]. destruct (_ =? 0); [by apply behaves_throw|].
  destruct (process_ok (VC ++ to_be 4 CRYPTO_RC4 ++ to_be 2 (Z.of_nat (length pad_d)) ++ pad_d) out Ho) as (o' & pk & Eo & Ho' & _).
  apply (behaves_pure _ _ (o', pk)); [done|]. apply behaves_write; [done|]. by apply behaves_ret.
Qed.

Lemma select_behaves c out : box_ok (s c) -> box_ok (s out) ->
  behaves (SYNC_SEARCH_LIMIT + 8 + (6 + PAD_MAX)) (receive_select c out) (fun _ w => w = []) (fun es _ w => ciphers_ok es /\ w = []).
Proof.
  intros Hc Ho. unfold receive_select, sync_on_encrypted_vc. destruct (process_ok (replicate 8 x00) c Hc) as (c1 & nd & E1 & H1 & _).
  eapply behaves_bind with (Q := fun c' _ w => box_ok (s c') /\ w = []).
  { apply (behaves_pure _ _ (c1, nd)); [done|]. rewrite <- (Nat.add_0_r (SYNC_SEARCH_LIMIT + 8)).
    eapply behaves_bind; [apply search_behaves|]. intros [] u w [-> _]; [by apply behaves_ret|by apply behaves_throw]. }
  intros c' u w [H' ->]. apply behaves_read; [done|]. intros b Hb. destruct (process_ok b c' H') as (c2 & t & E2 & H2 & L2).
  apply (behaves_pure _ _ (c2, t)); [done|]. eapply behaves_pure; [apply be_at_slice; lia|]. eapply behaves_pure; [apply be_at_slice; lia|].
  destruct (Z.ltb_spec (Z.of_nat PAD_MAX) (from_be (slice t 4 2))); [by apply behaves_throw|].
  rewrite <- (Nat.add_0_r PAD_MAX). eapply behaves_bind; [apply drain_behaves; [done|lia]|]. cbn beta. intros c3 u' w [-> H3].
  destruct (_ =? 0); [by apply behaves_throw|by apply behaves_ret].
Qed.

Section AnyInput.
Context `{NumBigintLaws} (sha1 : bytes -> bytes) (sha1_len : forall b, length (sha1 b) = 20%nat).

Lemma sweep_sound hashes r ih : sweep sha1 hashes r = Some ih -> ih ∈ hashes /\ sha1_concat sha1 [bs "req2"; ih] = r.
Proof.
  unfold sweep. assert (G : forall acc, fold_left (fun matched h => if bytes_eqb (sha1_concat sha1 [bs "req2"; h]) r then Some h else matched) hashes acc = Some ih ->
    acc = Some ih \/ ih ∈ hashes /\ sha1_concat sha1 [bs "req2"; ih] = r).
  - induction hashes as [|h hs IH]; intros acc; cbn [fold_left]; [by left|]. intros E. apply IH in E as [E|[Hin E]].
    + destruct (bytes_eqb _ _) eqn:Eb; [|by left]. injection E as ->. right. apply bytes_eqb_eq in Eb. split; [apply elem_of_cons; by left|done].
    + right. split; [apply elem_of_cons; by right|done].
  - intros E. apply G in E as [|]; [done|done].
Qed.

(** What a dialler that is answered has sent: the two proofs. *)
Definition proved (sec ih u : bytes) : Prop := exists skipped rest,
  u = skipped ++ sha1_concat sha1 [bs "req1"; sec]
    ++ xor_bytes (sha1_concat sha1 [bs "req2"; ih]) (sha1_concat sha1 [bs "req3"; sec]) ++ rest.

Definition REQUESTS_MAX : nat := SYNC_SEARCH_LIMIT + (20 + (14 + (PAD_MAX + (2 + Z.to_nat 65535)))).

Lemma requests_behaves pad_d hashes sec :
  behaves REQUESTS_MAX (receive_requests sha1 pad_d hashes sec)
    (fun _ w => w = []) (fun r u _ => ciphers_ok r.1 /\ r.2 ∈ hashes /\ proved sec r.2 u).
Proof.
  unfold receive_requests, sync_on_pattern.
  eapply behaves_bind with (Q := fun _ u w => w = [] /\ exists sk, u = sk ++ sha1_concat sha1 [bs "req1"; sec]).
  { rewrite <- (Nat.add_0_r SYNC_SEARCH_LIMIT). eapply behaves_bind; [apply search_behaves|].
    intros [] u w [-> Hs]; [|by apply behaves_throw]. destruct (Hs eq_refl) as [sk E]. apply behaves_ret. split; [done|]. exists sk. by rewrite app_nil_r. }
  intros [] u w [-> [sk ->]]. apply behaves_read; [done|]. intros q Hq.
  destruct (sweep _ _ _) as [ih|] eqn:Es; [|by apply behaves_throw]. apply sweep_sound in Es as [Hin Hr].
  destruct (derive_ok sha1 sha1_len (bs "keyA") sec ih) as (ca & Ea & Ba). destruct (derive_ok sha1 sha1_len (bs "keyB") sec ih) as (cb & Eb & Bb).
  apply (behaves_pure _ _ ca); [done|]. apply (behaves_pure _ _ cb); [done|].
  eapply behaves_weaken; [by apply provide_behaves|done|done|]. intros [es ih'] u w [Hes E]. cbn [fst snd] in *. subst ih'.
  split; [done|]. split; [done|]. exists sk, u. rewrite Hr, xor_bytes_twice by (unfold sha1_concat; by rewrite Hq, sha1_len). by rewrite <- !app_assoc.
Qed.
End AnyInput.

(** ** Lemmas: the encrypted stream *)

(** What [AsyncWrite] and [AsyncRead] promise: a write that is ready took a prefix of the buffer, one that is
    pending or failed took nothing; reads deliver what arrives, in order. *)
Class AsyncWriteLaws (W : Type) `{AsyncWrite W} := {
  wire : W -> bytes;
  inner_write_ok : forall w buf w' r, inner_write w buf = (w', r) ->
    match r with ReadyOk n => (n <= length buf)%nat /\ wire w' = wire w ++ take n buf | _ => wire w' = wire w end }.

Class AsyncReadLaws (R : Type) `{AsyncRead R} := {
  arriving : R -> bytes;
  inner_read_ok : forall r r' x, inner_read r = (r', x) ->
    match x with ReadyOk got => arriving r = got ++ arriving r' | _ => arriving r' = arriving r end }.

(** A sequence of calls, with the plaintext that was accepted or delivered. *)
Fixpoint write_calls {W} `{AsyncWrite W} (es : EncryptedStream) (w : W) (bufs : list bytes) : result (EncryptedStream * W * bytes) :=
  match bufs with
  | [] => Ok (es, w, [])
  | buf :: bufs =>
      '(es, w, r) ← encrypted_poll_write es w buf;
      '(es, w, sent) ← write_calls es w bufs;
      Ok (es, w, (match r with ReadyOk n => take n buf | _ => [] end) ++ sent)
  end.

Fixpoint read_calls {R} `{AsyncRead R} (es : EncryptedStream) (r : R) (fills : list bytes) : result (EncryptedStream * R * bytes) :=
  match fills with
  | [] => Ok (es, r, [])
  | filled :: fills =>
      '(es, r, buf, _) ← encrypted_poll_read es r filled;
      '(es, r, got) ← read_calls es r fills;
      Ok (es, r, drop (length filled) buf ++ got)
  end.

Lemma poll_write_ok {W} `{AsyncWriteLaws W} c w buf : box_ok (s c) -> exists c' w' r,
  poll_write c w buf = Ok (c', w', r) /\ box_ok (s c') /\
  exists enc, wire w' = wire w ++ enc /\ process c (match r with ReadyOk n => take n buf | _ => [] end) = Ok (c', enc).
Proof.
  intros Hc. destruct (process_ok buf c Hc) as (adv & e & Ep & Hadv & Hl). unfold poll_write. rewrite Ep. cbn [mbind result_bind].
  destruct (inner_write w e) as [w' r] eqn:Ew. apply inner_write_ok in Ew.
  destruct r as [| |n]; [by exists c, w', Pending; rewrite Ew; split_and!; [..|exists []; rewrite app_nil_r]|by exists c, w', ReadyErr; rewrite Ew; split_and!; [..|exists []; rewrite app_nil_r]|].
  destruct Ew as [Hn Ew]. destruct (Nat.eqb_spec n (length e)) as [->|Hne].
  - exists adv, w', (ReadyOk (length e)). split_and!; [done..|]. exists e. rewrite Ew, take_ge by lia. split; [done|]. by rewrite take_ge by lia.
  - rewrite <- (take_drop n buf) in Ep. apply process_split in Ep as (c1 & x & y & E1 & _ & ->).
    pose proof (process_length _ _ _ _ E1) as L1. rewrite length_take_le in L1 by lia.
    destruct (process_ok (take n buf) c Hc) as (c1' & x' & E1' & H1 & _). rewrite E1 in E1'. injection E1' as <- <-.
    apply skip_process in E1 as Es. rewrite length_take_le in Es by lia. rewrite Es. cbn [mbind result_bind].
    exists c1, w', (ReadyOk n). split_and!; [done..|]. exists x. rewrite Ew, take_app_length' by lia. done.
Qed.

Lemma write_calls_ok {W} `{AsyncWriteLaws W} bufs : forall es w, box_ok (s (write_cipher es)) -> exists es' w' sent enc,
  write_calls es w bufs = Ok (es', w', sent) /\ read_cipher es' = read_cipher es /\ wire w' = wire w ++ enc /\
  process (write_cipher es) sent = Ok (write_cipher es', enc) /\ box_ok (s (write_cipher es')).
Proof.
  induction bufs as [|buf bufs IH]; intros es w Hc; cbn [write_calls].
  { exists es, w, [], []. rewrite app_nil_r. by split_and!. }
  destruct (poll_write_ok (write_cipher es) w buf Hc) as (c1 & w1 & r & E1 & H1 & enc1 & Ew & Ep).
  unfold encrypted_poll_write. rewrite E1. cbn [mbind result_bind].
  destruct (IH (mkEncrypted (read_cipher es) c1) w1 H1) as (es' & w' & sent & enc & E2 & Er & Ew2 & Ep2 & H2).
  rewrite E2. cbn [mbind result_bind]. do 4 eexists. split; [done|]. split; [done|]. rewrite Ew2, Ew, <- app_assoc. split; [done|].
  rewrite process_app, Ep. cbn [mbind result_bind]. cbn [write_cipher] in Ep2. by rewrite Ep2.
Qed.

Lemma poll_read_ok {R} `{AsyncReadLaws R} c r filled cf plain : process c (arriving r) = Ok (cf, plain) -> exists c' r' buf x left,
  poll_read c r filled = Ok (c', r', filled ++ buf, x) /\ plain = buf ++ left /\ process c' (arriving r') = Ok (cf, left).
Proof.
  intros Ep. unfold poll_read. destruct (inner_read r) as [r' x] eqn:Er. apply inner_read_ok in Er.
  destruct x as [| |got]; [exists c, r', [], Pending, plain; rewrite app_nil_r, Er; by split_and!|exists c, r', [], ReadyErr, plain; rewrite app_nil_r, Er; by split_and!|].
  rewrite Er in Ep. apply process_split in Ep as (c1 & a & b & E1 & E2 & ->). rewrite length_app.
  destruct (Nat.ltb_spec (length filled) (length filled + length got)) as [Hlt|].
  - rewrite slice_range_Ok by (rewrite length_app; lia).
    replace (slice (filled ++ got) (length filled) (length filled + length got - length filled)) with got.
    2: { unfold slice. rewrite drop_app_length, take_ge; [done|lia]. }
    cbn [mbind result_bind]. rewrite E1. cbn [mbind result_bind]. rewrite take_app_length. by exists c1, r', a, (ReadyOk tt), b.
  - destruct got; [|cbn in *; lia]. cbn [process] in E1. injection E1 as <- <-. by exists c, r', [], (ReadyOk tt), b.
Qed.

Lemma read_calls_ok {R} `{AsyncReadLaws R} fills : forall es r cf plain, process (read_cipher es) (arriving r) = Ok (cf, plain) ->
  exists es' r' got left, read_calls es r fills = Ok (es', r', got) /\ write_cipher es' = write_cipher es /\
    plain = got ++ left /\ process (read_cipher es') (arriving r') = Ok (cf, left).
Proof.
  induction fills as [|f fills IH]; intros es r cf plain Ep; cbn [read_calls]; [by exists es, r, [], plain|].
  destruct (poll_read_ok _ _ f _ _ Ep) as (c1 & r1 & buf & x & left & E1 & -> & Ep1).
  unfold encrypted_poll_read. rewrite E1. cbn [mbind result_bind].
  destruct (IH (mkEncrypted c1 (write_cipher es)) r1 cf left Ep1) as (es' & r' & got & left' & E2 & Ew & -> & Ep2).
  rewrite E2. cbn [mbind result_bind]. rewrite drop_app_length. do 4 eexists. split; [done|]. split; [done|]. by rewrite app_assoc.
Qed.

(** ** Theorems *)

(** C32: the encrypted handshake succeeds on both ends and never deadlocks.
    Whatever the two private keys (that give admissible public keys) and
    paddings, and however many bytes of the first flight the acceptor peeked
    at, the dialler speaks first ([m1]), the acceptor answers that ([m2]), the
    dialler answers that ([m3]) and the acceptor that ([m4]); then the acceptor
    has found the torrent the dialler meant, neither end has consumed a byte of
    what follows, and the ciphers of the two directions are equal at the two
    ends.  The padding must not contain the pattern the other end searches
    for, and no other hosted info hash may collide with ours. *)
Theorem mse_agree `{NumBigintLaws} sha1 eA eB kpA kpB padA padB padC padD ih hashes k :
  (forall b, length (sha1 b) = 20%nat) ->
  length eA = 20%nat -> length eB = 20%nat -> generate eA = Ok kpA -> generate eB = Ok kpB ->
  validate_peer_public (public kpA) = inr tt -> validate_peer_public (public kpB) = inr tt ->
  Forall (fun pad : bytes => length pad <= PAD_MAX)%nat [padA; padB; padC; padD] -> (k <= Y_LEN)%nat ->
  ih ∈ hashes ->
  (forall ih', ih' ∈ hashes -> sha1_concat sha1 [bs "req2"; ih'] = sha1_concat sha1 [bs "req2"; ih] -> ih' = ih) ->
  let s := to_be KEY_LEN (shared_secret kpA (public kpB)) in
  clean (sha1_concat sha1 [bs "req1"; s]) padA ->
  (forall cb c1 needle, derive_rc4 sha1 (bs "keyB") s ih = Ok cb -> process cb VC = Ok (c1, needle) -> clean needle padB) ->
  let A i := perform_outgoing sha1 eA padA padC ih (mkStream i [] true) in
  let B i := perform_incoming sha1 eB padB padD hashes (take k i) (mkStream (drop k i) [] true) in
  exists m1 m2 m3 m4 esA esB,
    A [] = (mkStream [] m1 true, Ok (inl MIo)) /\
    B m1 = (mkStream [] m2 true, Ok (inl MIo)) /\
    A m2 = (mkStream [] (m1 ++ m3) true, Ok (inl MIo)) /\
    (forall x, B (m1 ++ m3 ++ x) = (mkStream x (m2 ++ m4) true, Ok (inr (esB, ih)))) /\
    (forall x, A (m2 ++ m4 ++ x) = (mkStream x (m1 ++ m3) true, Ok (inr esA))) /\
    read_cipher esA = write_cipher esB /\ write_cipher esA = read_cipher esB /\
    box_ok (Rc4.s (read_cipher esA)) /\ box_ok (Rc4.s (write_cipher esA)).
Proof.
  intros Hsha LA LB GA GB VA VB Hpads Hk Hin Hu s HcA HcB A B.
  rewrite !list.Forall_cons in Hpads. destruct Hpads as (PA & PB & PC & PD & _).
  apply validate_range in VA, VB.
  destruct (generate_ok eA LA) as (kA & EA & KA). rewrite GA in EA. injection EA as <-.
  destruct (generate_ok eB LB) as (kB & EB & KB). rewrite GB in EB. injection EB as <-.
  assert (HA : keys_of eA kpA) by done. assert (HB : keys_of eB kpB) by done.
  assert (Es : shared_secret kpB (public kpA) = shared_secret kpA (public kpB)).
  { destruct KA, KB. by apply secrets_agree. }
  destruct (derive_ok sha1 Hsha (bs "keyA") s ih) as (ca & Ea & Ba). destruct (derive_ok sha1 Hsha (bs "keyB") s ih) as (cb & Eb & Bb).
  destruct (process_ok (VC ++ crypto_provide_bytes ++ to_be 2 (Z.of_nat (length padC)) ++ padC ++ to_be 2 0) ca Ba) as (ca' & enc & Pa & Ba' & _).
  destruct (process_ok (VC ++ to_be 4 CRYPTO_RC4 ++ to_be 2 (Z.of_nat (length padD)) ++ padD) cb Bb) as (cb' & packet & Pb & Bb' & _).
  destruct (process_ok VC cb Bb) as (c1 & needle & Pn & _). specialize (HcB cb c1 needle Eb Pn).
  set (ya := to_be KEY_LEN (public kpA)). set (yb := to_be KEY_LEN (public kpB)).
  assert (Lya : length ya = Y_LEN) by apply length_to_be.
  exists (ya ++ padA), (yb ++ padB), (sha1_concat sha1 [bs "req1"; s] ++ xor_bytes (sha1_concat sha1 [bs "req2"; ih]) (sha1_concat sha1 [bs "req3"; s]) ++ enc), packet.
  exists (mkEncrypted cb' ca'), (mkEncrypted ca' cb').
  assert (RB : forall rest, B (ya ++ rest) = receive_requests sha1 padD hashes s (mkStream rest (yb ++ padB) true)).
  { intros rest. unfold B. rewrite take_app_le, drop_app_le by lia. erewrite incoming_hello; [|exact HB|exact VA|apply take_drop].
    by rewrite Es. }
  assert (RA : forall rest, A (yb ++ rest) = receive_select cb ca' (mkStream rest ((ya ++ padA) ++ sha1_concat sha1 [bs "req1"; s]
    ++ xor_bytes (sha1_concat sha1 [bs "req2"; ih]) (sha1_concat sha1 [bs "req3"; s]) ++ enc) true)).
  { intros rest. unfold A, yb. rewrite (outgoing_run sha1 eA kpA padA padC ih (public kpB) ca cb ca' enc rest [] HA VB Ea Eb Pa). by rewrite <- !app_assoc. }
  split_and!; try done.
  - unfold A. by erewrite outgoing_hello by (done || (cbn; unfold Y_LEN, KEY_LEN; lia)).
  - rewrite RB. by apply requests_wait.
  - rewrite RA. by eapply select_wait.
  - intros x. rewrite <- !app_assoc, RB.
    rewrite (requests_run sha1 Hsha padD hashes s ih padA ca cb _ _ _ HcA PA (sweep_last sha1 hashes ih None (or_intror Hin) Hu) Ea Eb).
    rewrite (app_assoc yb). exact (provide_run _ _ _ _ _ _ _ _ _ _ _ PC Pa Pb).
  - intros x. rewrite <- !app_assoc, RA, (app_assoc ya). by eapply select_run.
Qed.

(** A big-integer library from the Standard Library, and a stand-in digest of 20 bytes. *)
Definition byte_len (n : Z) : nat := S (Z.to_nat (Z.log2 n / 8)).

#[local] Instance std_bigint : NumBigint := {
  from_bytes_be := from_be;
  to_bytes_be n := to_be (byte_len n) n;
  modpow b e m := Zpow_mod b e m }.

Lemma byte_len_fits n : 0 <= n -> n < 256 ^ Z.of_nat (byte_len n).
Proof.
  intros Hn. unfold byte_len. rewrite Nat2Z.inj_succ, Z2Nat.id by (apply Z.div_pos; [apply Z.log2_nonneg|lia]).
  destruct (Z.eq_dec n 0) as [->|]; [by vm_compute|]. pose proof (Z.log2_spec n ltac:(lia)) as [_ Hl].
  eapply Z.lt_le_trans; [exact Hl|]. change 256 with (2 ^ 8). rewrite <- Z.pow_mul_r by (pose proof (Z.log2_nonneg n); pose proof (Z.div_pos (Z.log2 n) 8); lia).
  apply Z.pow_le_mono_r; [lia|]. pose proof (Z.div_mod (Z.log2 n) 8 ltac:(lia)). pose proof (Z.mod_pos_bound (Z.log2 n) 8). lia.
Qed.

#[local] Instance std_bigint_laws : NumBigintLaws.
Proof.
  split; [done| | |].
  - intros n Hn. cbn [to_bytes_be std_bigint]. apply from_to_be. split; [done|]. by apply byte_len_fits.
  - intros n k Hk Hn. cbn [to_bytes_be std_bigint]. rewrite length_to_be. unfold byte_len.
    destruct (Z.eq_dec n 0) as [->|Hz]; [replace (Z.to_nat (Z.log2 0 / 8)) with O by reflexivity; lia|].
    assert (Z.log2 n < 8 * Z.of_nat k).
    { apply Z.log2_lt_pow2; [lia|]. rewrite Z.pow_mul_r by lia. by apply Hn. }
    assert (Z.log2 n / 8 < Z.of_nat k) by (apply Z.div_lt_upper_bound; lia).
    pose proof (Z.div_pos (Z.log2 n) 8 (Z.log2_nonneg n) ltac:(lia)). lia.
  - intros b e m Hb He Hm. cbn [modpow std_bigint]. rewrite Zpow_mod_correct by lia. done.
Qed.

Definition digest20 (b : bytes) : bytes := take 20 (b ++ replicate 20 x00).

Lemma digest20_len b : length (digest20 b) = 20%nat.
Proof. unfold digest20. rewrite length_take, length_app, length_replicate. lia. Qed.

(** Of two consecutive exponents at least one gives an admissible public key. *)
Definition test_entropy (b : byte) : bytes := replicate 19 x00 ++ [b].

Lemma power_of_two_nonzero x : 0 <= x -> (G ^ x) mod p <> 0.
Proof.
  intros Hx E. apply Z.mod_divide in E; [|done].
  assert (R : Z.gcd p (G ^ x) = 1) by (apply Z.coprime_pow_r; [lia|by vm_compute]).
  pose proof (Z.gcd_greatest p (G ^ x) p (Z.divide_refl p) E) as D. rewrite R in D. apply Z.divide_1_r in D. pose proof p_range. lia.
Qed.

Lemma admissible_next x : 0 <= x -> 1 < (G ^ x) mod p < p - 1 \/ 1 < (G ^ (x + 1)) mod p < p - 1.
Proof.
  intros Hx. pose proof (power_of_two_nonzero x Hx) as Hz. pose proof (Z.mod_pos_bound (G ^ x) p ltac:(by vm_compute)) as Hb.
  destruct (decide (1 < (G ^ x) mod p < p - 1)) as [|Hn]; [by left|right].
  rewrite Z.pow_add_r, Z.pow_1_r by lia. rewrite <- Z.mul_mod_idemp_l by done. unfold G in *. assert (8 < p) by (by vm_compute).
  assert ((2 ^ x) mod p = 1 \/ (2 ^ x) mod p = p - 1) as [->| ->] by lia.
  - rewrite Z.mod_small by lia. lia.
  - replace ((p - 1) * 2) with ((p - 2) + 1 * p) by lia. rewrite Z.mod_add by lia. rewrite Z.mod_small by lia. lia.
Qed.

Lemma test_keys : exists b kp, generate (test_entropy b) = Ok kp /\ validate_peer_public (public kp) = inr tt.
Proof.
  assert (K : forall b, generate (test_entropy b) = Ok (mkKeypair (from_be (x80 :: replicate 18 x00 ++ [b]))
    (Zpow_mod G (from_be (x80 :: replicate 18 x00 ++ [b])) p))) by (intros b; unfold generate, test_entropy; reflexivity).
  assert (V : forall x, Zpow_mod G (from_be (x80 :: replicate 18 x00 ++ [x])) p = (G ^ from_be (x80 :: replicate 18 x00 ++ [x])) mod p)
    by (intros x; apply Zpow_mod_correct; done).
  assert (N : from_be (x80 :: replicate 18 x00 ++ [x01]) = from_be (x80 :: replicate 18 x00 ++ [x00]) + 1) by (by vm_compute).
  destruct (admissible_next (from_be (x80 :: replicate 18 x00 ++ [x00]))) as [A|A]; [by vm_compute| |].
  - eexists x00, _. split; [apply K|]. apply validate_range. cbn [public]. by rewrite V.
  - eexists x01, _. split; [apply K|]. apply validate_range. cbn [public]. by rewrite V, N.
Qed.

Lemma mse_agree_witness : exists e m1 m3 m24 esA,
  let A i := perform_outgoing digest20 e (bs "ab") (bs "cde") (replicate 20 x01) (mkStream i [] true) in
  A [] = (mkStream [] m1 true, Ok (inl MIo)) /\ A m24 = (mkStream [] (m1 ++ m3) true, Ok (inr esA)).
Proof.
  destruct test_keys as (b & kp & Hg & Hv).
  destruct (mse_agree digest20 (test_entropy b) (test_entropy b) kp kp (bs "ab") [] (bs "cde") (bs "pad") (replicate 20 x01) [replicate 20 x01] 5)
    as (m1 & m2 & m3 & m4 & esA & esB & H1 & _ & _ & _ & H5 & _).
  - exact digest20_len.
  - reflexivity.
  - reflexivity.
  - exact Hg.
  - exact Hg.
  - exact Hv.
  - exact Hv.
  - repeat constructor; cbn; unfold PAD_MAX; lia.
  - unfold Y_LEN, KEY_LEN. lia.
  - by left.
  - intros ih' Hin _. by apply list_elem_of_singleton in Hin.
  - intros [|[|]] Hk; [discriminate|discriminate|cbn in Hk; lia].
  - intros cb c1 needle _ _. by apply clean_b_spec.
  - exists (test_entropy b), m1, m3, (m2 ++ m4 ++ []), esA. split; [exact H1|]. exact (H5 []).
Defined.

(** Both sides, on any input. *)
Lemma incoming_behaves `{NumBigintLaws} sha1 entropy kp pad_b pad_d hashes pre :
  (forall b, length (sha1 b) = 20%nat) -> keys_of entropy kp ->
  behaves (Y_LEN + REQUESTS_MAX) (perform_incoming sha1 entropy pad_b pad_d hashes pre)
    (fun u w => w = [] \/ w = to_be KEY_LEN (public kp) \/ w = to_be KEY_LEN (public kp) ++ pad_b)
    (fun r u _ => ciphers_ok r.1 /\ r.2 ∈ hashes /\ exists head rest, u = head ++ rest /\ length (pre ++ head) = Y_LEN /\
      validate_peer_public (from_be (pre ++ head)) = inr tt /\
      proved sha1 (to_be KEY_LEN (shared_secret kp (from_be (pre ++ head)))) r.2 rest).
Proof.
  intros Hsha Hk. pose proof Hk as (Eg & _). unfold perform_incoming.
  destruct (Nat.ltb_spec Y_LEN (length pre)) as [|Hp]; [apply behaves_throw; by left|].
  eapply behaves_bind with (Q := fun h u w => h = u /\ w = [] /\ length (pre ++ h) = Y_LEN).
  { destruct (Nat.ltb_spec (length pre) Y_LEN) as [Hlt|].
    - eapply behaves_weaken; [apply (read_behaves _ (fun _ w => w = [])); done|lia|by left|].
      intros h u w (-> & -> & Hh). split; [done|]. split; [done|]. rewrite length_app. lia.
    - apply behaves_ret. rewrite app_nil_r. split; [done|]. split; [done|]. lia. }
  intros head u w (-> & -> & Hl). unfold from_bytes. rewrite from_bytes_be_spec. cbn zeta. cbn [app].
  apply (behaves_bind 0 REQUESTS_MAX) with (Q := fun _ u' w' => u' = [] /\ w' = [] /\ validate_peer_public (from_be (pre ++ u)) = inr tt).
  { unfold check_public. destruct (validate_peer_public _) as [|[]]; [apply behaves_throw; by left|]. by apply behaves_ret. }
  intros [] u' w' (-> & -> & Hv). apply validate_range in Hv as Hr.
  eapply behaves_pure; [exact Eg|]. eapply behaves_pure; [by eapply keys_bytes|].
  apply behaves_write; [by left|].
  apply (behaves_bind 0 REQUESTS_MAX) with (Q := fun _ u' w' => u' = [] /\ w' = pad_b).
  { destruct (Nat.eqb_spec (length pad_b) 0) as [Ez|]; [apply behaves_ret; by destruct pad_b|].
    apply write_behaves. right. left. by rewrite app_nil_r. }
  intros [] u' w' [-> ->]. eapply behaves_pure; [eapply secret_bytes; [done|lia]|].
  eapply behaves_weaken; [by apply requests_behaves|done|..].
  - cbn beta. intros u1 w1 ->. right. right. by rewrite app_nil_r.
  - intros [es ih] u1 w1 (Hes & Hin & Hpr). split; [done|]. split; [done|]. exists u, u1. by split_and!.
Qed.

Lemma outgoing_behaves `{NumBigintLaws} sha1 entropy pad_a pad_c ih :
  (forall b, length (sha1 b) = 20%nat) -> length entropy = 20%nat ->
  behaves (Y_LEN + (SYNC_SEARCH_LIMIT + 8 + (6 + PAD_MAX))) (perform_outgoing sha1 entropy pad_a pad_c ih) (fun _ _ => True) (fun es _ _ => ciphers_ok es).
Proof.
  intros Hsha He. destruct (generate_ok entropy He) as (kp & Eg & Kx). assert (Hk : keys_of entropy kp) by done. unfold perform_outgoing.
  eapply behaves_pure; [exact Eg|]. eapply behaves_pure; [by eapply keys_bytes|]. apply behaves_write; [done|].
  eapply (behaves_bind 0 (Y_LEN + (SYNC_SEARCH_LIMIT + 8 + (6 + PAD_MAX))) _ _ _ (fun _ _ _ => True)).
  { destruct (_ =? _)%nat; [by apply behaves_ret|]. eapply behaves_weaken; [by apply (write_behaves _ 0 (fun _ _ => True))|lia|done|done]. }
  intros [] u w _. apply behaves_read; [done|]. intros yb Hyb. unfold from_bytes. rewrite from_bytes_be_spec. cbn zeta.
  eapply (behaves_bind 0 (SYNC_SEARCH_LIMIT + 8 + (6 + PAD_MAX)) _ _ _ (fun _ _ _ => validate_peer_public (from_be yb) = inr tt)).
  { unfold check_public. destruct (validate_peer_public _) as [|[]]; [by apply behaves_throw|by apply behaves_ret]. }
  intros [] u' w' Hv. apply validate_range in Hv. eapply behaves_pure; [eapply secret_bytes; [done|lia]|].
  destruct (derive_ok sha1 Hsha (bs "keyA") (to_be KEY_LEN (shared_secret kp (from_be yb))) ih) as (ca & Ea & Ba).
  destruct (derive_ok sha1 Hsha (bs "keyB") (to_be KEY_LEN (shared_secret kp (from_be yb))) ih) as (cb & Eb & Bb).
  eapply behaves_pure; [exact Ea|]. eapply behaves_pure; [exact Eb|].
  destruct (process_ok (VC ++ crypto_provide_bytes ++ to_be 2 (Z.of_nat (length pad_c)) ++ pad_c ++ to_be 2 0) ca Ba) as (ca' & enc & Pa & Ba' & _).
  eapply behaves_pure; [exact Pa|]. do 3 (apply behaves_write; [done|]).
  eapply behaves_weaken; [by apply select_behaves|lia|done|]. by intros es u1 w1 [Hes _].
Qed.

(** C27: whatever an unknown dialler sends, the acceptor never panics, reads a
    bounded number of bytes, and says nothing but a fresh public key and random
    padding unless the dialler has proved that it computed the shared secret and
    knows the info hash of a torrent that is hosted; degenerate public keys get
    no answer at all.  Then, and only then, the connection is attributed to that
    torrent and the ciphers are sound. *)
Theorem mse_incoming_safe `{NumBigintLaws} sha1 entropy pad_b pad_d hashes pre :
  (forall b, length (sha1 b) = 20%nat) -> length entropy = 20%nat ->
  exists kp, generate entropy = Ok kp /\
  behaves (Y_LEN + REQUESTS_MAX) (perform_incoming sha1 entropy pad_b pad_d hashes pre)
    (fun u w => w = [] \/ w = to_be KEY_LEN (public kp) \/ w = to_be KEY_LEN (public kp) ++ pad_b)
    (fun r u _ => ciphers_ok r.1 /\ r.2 ∈ hashes /\ exists head rest, u = head ++ rest /\ length (pre ++ head) = Y_LEN /\
      validate_peer_public (from_be (pre ++ head)) = inr tt /\
      proved sha1 (to_be KEY_LEN (shared_secret kp (from_be (pre ++ head)))) r.2 rest).
Proof.
  intros Hsha He. destruct (generate_ok entropy He) as (kp & Eg & Kx). assert (Hk : keys_of entropy kp) by done.
  exists kp. split; [exact Eg|]. by apply incoming_behaves.
Qed.

Lemma mse_incoming_safe_witness : exists kp, generate (replicate 20 x07) = Ok kp /\
  behaves (Y_LEN + REQUESTS_MAX) (perform_incoming digest20 (replicate 20 x07) (bs "xyz") [] [replicate 20 x01] [])
    (fun u w => w = [] \/ w = to_be KEY_LEN (public kp) \/ w = to_be KEY_LEN (public kp) ++ bs "xyz") (fun _ _ _ => True).
Proof.
  destruct (mse_incoming_safe digest20 (replicate 20 x07) (bs "xyz") [] [replicate 20 x01] [] digest20_len eq_refl) as (kp & Hg & Hb).
  exists kp. split; [exact Hg|]. eapply behaves_weaken; [exact Hb|lia|done|done].
Defined.

(** An encrypted connection carries the plaintext exactly.  However the
    socket answers the writes (full, short, not ready, failed, in any order),
    what it was given is the encryption of the plaintext the caller was told was
    accepted, and however the other end's reads are cut, they deliver a prefix of
    that plaintext; what is left is what has not arrived, and once everything has
    arrived the two ciphers are in step again.  Nothing panics, and the opposite
    direction is untouched. *)
Lemma encrypted_stream_exact {W R} `{AsyncWriteLaws W} `{AsyncReadLaws R} esA esB (w : W) bufs :
  box_ok (s (write_cipher esA)) -> read_cipher esB = write_cipher esA ->
  exists esA' w' sent enc,
    write_calls esA w bufs = Ok (esA', w', sent) /\ wire w' = wire w ++ enc /\ read_cipher esA' = read_cipher esA /\
    forall (r : R) fills, arriving r = enc ->
      exists esB' r' got left, read_calls esB r fills = Ok (esB', r', got) /\ write_cipher esB' = write_cipher esB /\
        sent = got ++ left /\ length left = length (arriving r') /\
        (arriving r' = [] -> got = sent /\ read_cipher esB' = write_cipher esA').
Proof.
  intros Hb Hx. destruct (write_calls_ok bufs esA w Hb) as (esA' & w' & sent & enc & E & Er & Ew & Ep & _).
  exists esA', w', sent, enc. split_and!; try done. intros r fills Hr. apply process_twice in Ep. rewrite <- Hr, <- Hx in Ep.
  destruct (read_calls_ok fills esB r _ _ Ep) as (esB' & r' & got & left & E2 & Ew2 & -> & Ep2).
  exists esB', r', got, left. split_and!; try done; [by eapply process_length|].
  intros Hz. rewrite Hz in Ep2. injection Ep2 as E3 <-. by rewrite app_nil_r.
Qed.

(** A socket that takes three bytes, then is not ready, then takes five; a socket that delivers four bytes at a time. *)
#[local] Instance scripted_write : AsyncWrite (list (Poll nat) * bytes) := fun w buf =>
  match w with
  | (ReadyOk n :: script, out) => ((script, out ++ take n buf), ReadyOk (Nat.min n (length buf)))
  | (x :: script, out) => ((script, out), x)
  | ([], out) => (([], out), Pending)
  end.

#[local] Instance scripted_write_laws : AsyncWriteLaws (list (Poll nat) * bytes).
Proof.
  refine {| wire := snd |}. intros [script out] buf w' r. cbn. destruct script as [|[| |n] script]; intros [= <- <-]; try done.
  split; [lia|]. cbn. f_equal. destruct (Nat.min_spec n (length buf)) as [[_ ->]|[? ->]]; [done|]. by rewrite firstn_all, take_ge by lia.
Defined.

#[local] Instance chunked_read : AsyncRead bytes := fun r => (drop 4 r, ReadyOk (take 4 r)).

#[local] Instance chunked_read_laws : AsyncReadLaws bytes.
Proof. refine {| arriving := fun r => r |}. intros r r' x [= <- <-]. by rewrite take_drop. Defined.

Lemma encrypted_stream_exact_witness : let c := mkRc4 identity_box x00 x00 in
  exists esA' w' sent enc, write_calls (mkEncrypted c c) ([ReadyOk 3%nat; Pending; ReadyOk 5%nat], []) [bs "hello"; bs "lo wo"; bs "lo wo"] = Ok (esA', w', sent) /\
    wire w' = enc /\ sent = bs "hello wo" /\ exists esB' r' got, read_calls (mkEncrypted c c) enc [[]; bs "a"] = Ok (esB', r', got) /\ sent = got.
Proof.
  intros c. destruct (encrypted_stream_exact (R := bytes) (mkEncrypted c c) (mkEncrypted c c) ([ReadyOk 3%nat; Pending; ReadyOk 5%nat], []) [bs "hello"; bs "lo wo"; bs "lo wo"])
    as (esA' & w' & sent & enc & E & Ew & _ & Hr); [unfold box_ok; reflexivity|reflexivity|].
  exists esA', w', sent, enc. split; [exact E|]. split; [exact Ew|].
  vm_compute in E. injection E as <- <- <-. split; [reflexivity|]. vm_compute in Ew. subst enc.
  destruct (Hr _ [[]; bs "a"] eq_refl) as (esB' & r' & got & left & E2 & _ & _ & _ & Hall).
  exists esB', r', got. split; [exact E2|]. vm_compute in E2. injection E2 as <- <- <-. reflexivity.
Defined.
