(* ===== verification/PeerManager.v ===== *)
(** * The peer manager: [src/src/peer/manager.rs]

    Admission of peers: the connection table, bans and strikes, the pending-dial
    gate and the connection cap shared by all sessions of the daemon.  Addresses
    and IPs are countable types with [ip : Addr -> Ip].  A slot is what the
    admission logic sees of it: the parameters its task was spawned with and
    whether it holds a guard of the shared cap; channels, task handles and
    aborts are left out.  The shared atomic counter is a field of [World] next
    to the manager; its compare-and-swap loop and the drop of a guard are
    atomic steps. *)

From Stdlib Require Import ZArith Lia String Strings.Byte.
From stdpp Require Import base tactics numbers list option gmap fin_maps fin_sets.
From S2P Require Import Prelude.

Definition DEFAULT_MAX_PEERS : nat := 50.
Definition VIOLATION_BAN_THRESHOLD : nat := 3.
Definition VIOLATION_WINDOW : Z := 60 * 1000000000.
Definition MAX_PENDING_OUTGOING_DIALS : nat := 8.

Section PeerManager.
Context {Addr Ip Proxy Utp : Type} `{Countable Addr} `{Countable Ip} (ip : Addr -> Ip).

(** [struct PeerSlot]: what the spawned task was given (the peer id it presents,
    unless the acceptor already did), and the guard. *)
Record PeerSlot := mkSlot {
  slot_outgoing : bool;
  slot_peer_id : option bytes;
  slot_anonymous : bool;
  slot_global : bool;
}.

Record PeerManager := mkPeerManager {
  info_hash : bytes;
  our_peer_id : bytes;
  peers : gmap Addr PeerSlot;
  banned : gset Ip;
  max_peers : nat;
  force_outgoing_mse : bool;
  proxies : list Proxy;
  bind_iface : option bytes;
  anonymous : bool;
  violations : gmap Ip (list Z);
  utp : option Utp;
  global_cap : option nat;
  pending_dials : gset Addr;
}.

(** A session's manager and the counter behind [GlobalPeerCap]. *)
Record World := mkWorld { mgr : PeerManager; count : nat }.

Definition pm_new (info_hash our_peer_id : bytes) : PeerManager :=
  mkPeerManager info_hash our_peer_id ∅ ∅ DEFAULT_MAX_PEERS false [] None false ∅ None None ∅.

(** ** Field updates *)

Definition with_peers x m := mkPeerManager (info_hash m) (our_peer_id m) x (banned m) (max_peers m)
  (force_outgoing_mse m) (proxies m) (bind_iface m) (anonymous m) (violations m) (utp m) (global_cap m) (pending_dials m).
Definition with_banned x m := mkPeerManager (info_hash m) (our_peer_id m) (peers m) x (max_peers m)
  (force_outgoing_mse m) (proxies m) (bind_iface m) (anonymous m) (violations m) (utp m) (global_cap m) (pending_dials m).
Definition with_violations x m := mkPeerManager (info_hash m) (our_peer_id m) (peers m) (banned m) (max_peers m)
  (force_outgoing_mse m) (proxies m) (bind_iface m) (anonymous m) x (utp m) (global_cap m) (pending_dials m).
Definition with_pending x m := mkPeerManager (info_hash m) (our_peer_id m) (peers m) (banned m) (max_peers m)
  (force_outgoing_mse m) (proxies m) (bind_iface m) (anonymous m) (violations m) (utp m) (global_cap m) x.

Definition set_utp x m := mkPeerManager (info_hash m) (our_peer_id m) (peers m) (banned m) (max_peers m)
  (force_outgoing_mse m) (proxies m) (bind_iface m) (anonymous m) (violations m) x (global_cap m) (pending_dials m).
Definition set_global_cap max m := mkPeerManager (info_hash m) (our_peer_id m) (peers m) (banned m) (max_peers m)
  (force_outgoing_mse m) (proxies m) (bind_iface m) (anonymous m) (violations m) (utp m) (Some max) (pending_dials m).
Definition set_max_peers n m := mkPeerManager (info_hash m) (our_peer_id m) (peers m) (banned m) n
  (force_outgoing_mse m) (proxies m) (bind_iface m) (anonymous m) (violations m) (utp m) (global_cap m) (pending_dials m).
Definition set_force_outgoing_mse on m := mkPeerManager (info_hash m) (our_peer_id m) (peers m) (banned m) (max_peers m)
  on (proxies m) (bind_iface m) (anonymous m) (violations m) (utp m) (global_cap m) (pending_dials m).
Definition set_proxies x m := mkPeerManager (info_hash m) (our_peer_id m) (peers m) (banned m) (max_peers m)
  (force_outgoing_mse m) x (bind_iface m) (anonymous m) (violations m) (utp m) (global_cap m) (pending_dials m).
Definition set_bind_iface x m := mkPeerManager (info_hash m) (our_peer_id m) (peers m) (banned m) (max_peers m)
  (force_outgoing_mse m) (proxies m) x (anonymous m) (violations m) (utp m) (global_cap m) (pending_dials m).
Definition set_anonymous x m := mkPeerManager (info_hash m) (our_peer_id m) (peers m) (banned m) (max_peers m)
  (force_outgoing_mse m) (proxies m) (bind_iface m) x (violations m) (utp m) (global_cap m) (pending_dials m).
Definition set_peer_id x m := mkPeerManager (info_hash m) x (peers m) (banned m) (max_peers m)
  (force_outgoing_mse m) (proxies m) (bind_iface m) (anonymous m) (violations m) (utp m) (global_cap m) (pending_dials m).

Definition on_mgr (f : PeerManager -> PeerManager) (w : World) : World := mkWorld (f (mgr w)) (count w).

(** ** The shared cap *)

(** [GlobalPeerCap::try_acquire]: the count after, or [None] when full. *)
Definition try_acquire (max count : nat) : option nat :=
  if (max <=? count)%nat then None else Some (count + 1)%nat.

(** [Drop for GlobalPeerGuard]; [fetch_sub] wraps. *)
Definition release (count : nat) : nat := Z.to_nat (wrap 64 (Z.of_nat count - 1)).

(** [acquire_global]: whether a guard was taken and the count, or refusal. *)
Definition acquire_global (w : World) : option (bool * nat) :=
  match global_cap (mgr w) with
  | None => Some (false, count w)
  | Some max => (fun c => (true, c)) <$> try_acquire max (count w)
  end.

(** ** Queries *)

Definition connected_count (m : PeerManager) : nat := size (peers m).
Definition handle (m : PeerManager) (addr : Addr) : option PeerSlot := peers m !! addr.
Definition addrs (m : PeerManager) : list Addr := (map_to_list (peers m)).*1.
Definition is_banned (m : PeerManager) (i : Ip) : bool := bool_decide (i ∈ banned m).

(** ** Removal *)

(** [peers.remove(addr)] with the drop of the slot and its guard. *)
Definition remove_slot (addr : Addr) (w : World) : World :=
  match peers (mgr w) !! addr with
  | Some slot =>
      mkWorld (with_peers (delete addr (peers (mgr w))) (mgr w))
        (if slot_global slot then release (count w) else count w)
  | None => w
  end.

Definition drop_peer (addr : Addr) (w : World) : World :=
  remove_slot addr (on_mgr (fun m => with_pending (pending_dials m ∖ {[addr]}) m) w).

Definition forget (addr : Addr) (w : World) : World := remove_slot addr w.

Definition note_established (addr : Addr) (w : World) : World :=
  on_mgr (fun m => with_pending (pending_dials m ∖ {[addr]}) m) w.

(** ** Strikes and bans *)

Definition ban (i : Ip) (w : World) : World :=
  let w := on_mgr (fun m => with_banned ({[i]} ∪ banned m) m) w in
  let to_drop := List.filter (fun a => bool_decide (ip a = i)) (addrs (mgr w)) in
  foldl (fun w a => drop_peer a w) w to_drop.

(** Timestamps still inside the window. *)
Definition recent (now : Z) (times : list Z) : list Z :=
  List.filter (fun t => sat_sub now t <=? VIOLATION_WINDOW) times.

Definition record_violation (now : Z) (i : Ip) (w : World) : World * bool :=
  if bool_decide (i ∈ banned (mgr w)) then (w, false)
  else
    let entry := recent now (default [] (violations (mgr w) !! i)) ++ [now] in
    let w := on_mgr (fun m => with_violations (<[i := entry]> (violations m)) m) w in
    let cnt := wrap 32 (Z.of_nat (length entry)) in
    if Z.of_nat VIOLATION_BAN_THRESHOLD <=? cnt then (ban i w, true) else (w, false).

Definition gc_violations (now : Z) (w : World) : World :=
  on_mgr (fun m => with_violations
    (omap (fun times => match recent now times with [] => None | r => Some r end) (violations m)) m) w.

(** ** Admission *)

Definition add_slot (addr : Addr) (slot : PeerSlot) (c : nat) (w : World) : World :=
  mkWorld (with_peers (<[addr := slot]> (peers (mgr w))) (mgr w)) c.

Definition spawn_outgoing (addr : Addr) (w : World) : World * bool :=
  if bool_decide (is_Some (peers (mgr w) !! addr)) then (w, false)
  else if (MAX_PENDING_OUTGOING_DIALS <=? size (pending_dials (mgr w)))%nat then (w, false)
  else
    match acquire_global w with
    | None => (w, false)
    | Some (g, c) =>
        let w := on_mgr (fun m => with_pending ({[addr]} ∪ pending_dials m) m) w in
        (add_slot addr (mkSlot true (Some (our_peer_id (mgr w))) (anonymous (mgr w)) g) c w, true)
    end.

Fixpoint try_connect_many (l : list Addr) (w : World) : World * nat :=
  match l with
  | [] => (w, 0%nat)
  | addr :: l =>
      if (max_peers (mgr w) <=? size (peers (mgr w)))%nat then (w, 0%nat)
      else if bool_decide (is_Some (peers (mgr w) !! addr)) then try_connect_many l w
      else if bool_decide (ip addr ∈ banned (mgr w)) then try_connect_many l w
      else
        let '(w, ok) := spawn_outgoing addr w in
        if ok : bool then let '(w, started) := try_connect_many l w in (w, S started)
        else (w, 0%nat)
  end.

(** [accept_incoming] and [accept_handshaken] admit alike; they differ in the
    task they spawn. *)
Definition accept_incoming (addr : Addr) (w : World) : World * bool :=
  if (max_peers (mgr w) <=? size (peers (mgr w)))%nat || bool_decide (is_Some (peers (mgr w) !! addr))
  then (w, false)
  else if bool_decide (ip addr ∈ banned (mgr w)) then (w, false)
  else
    match acquire_global w with
    | None => (w, false)
    | Some (g, c) => (add_slot addr (mkSlot false (Some (our_peer_id (mgr w))) (anonymous (mgr w)) g) c w, true)
    end.

Definition accept_handshaken (addr : Addr) (w : World) : World * bool :=
  if (max_peers (mgr w) <=? size (peers (mgr w)))%nat || bool_decide (is_Some (peers (mgr w) !! addr))
  then (w, false)
  else if bool_decide (ip addr ∈ banned (mgr w)) then (w, false)
  else
    match acquire_global w with
    | None => (w, false)
    | Some (g, c) => (add_slot addr (mkSlot false None (anonymous (mgr w)) g) c w, true)
    end.
End PeerManager.

Arguments PeerManager _ _ _ _ {_ _ _ _}.
Arguments World _ _ _ _ {_ _ _ _}.

Section lemmas.
Context {Addr Ip Proxy Utp : Type} `{Countable Addr} `{Countable Ip} (ip : Addr -> Ip).
#[local] Abbreviation world := (World Addr Ip Proxy Utp).
Implicit Types (w : world) (a : Addr).

(** ** Events *)

Inductive op :=
  | Connect (l : list Addr)
  | AcceptIncoming (a : Addr)
  | AcceptHandshaken (a : Addr)
  | Established (a : Addr)
  | Disconnected (a : Addr)
  | DropPeer (a : Addr)
  | Ban (i : Ip)
  | Violation (now : Z) (i : Ip)
  | Gc (now : Z).

Definition run (o : op) (w : world) : world :=
  match o with
  | Connect l => (try_connect_many ip l w).1
  | AcceptIncoming a => (accept_incoming ip a w).1
  | AcceptHandshaken a => (accept_handshaken ip a w).1
  | Established a => note_established a w
  | Disconnected a => forget a w
  | DropPeer a => drop_peer a w
  | Ban i => ban ip i w
  | Violation now i => (record_violation ip now i w).1
  | Gc now => gc_violations now w
  end.

(** This session's events interleaved with guards taken and released by the
    other sessions, which hold [k] of them. *)
Inductive step : nat * world -> nat * world -> Prop :=
  | step_op o k w : step (k, w) (k, run o w)
  | step_acquire k w max c :
      global_cap (mgr w) = Some max -> try_acquire max (count w) = Some c ->
      step (k, w) (S k, mkWorld (mgr w) c)
  | step_release k w : step (S k, w) (k, mkWorld (mgr w) (release (count w))).

(** ** The invariant *)

Definition no_banned w : Prop :=
  forall a, is_Some (peers (mgr w) !! a) -> ip a ∉ banned (mgr w).

Definition counted (k : nat) w : Prop :=
  (size (peers (mgr w)) <= max_peers (mgr w))%nat /\
  (size (pending_dials (mgr w)) <= MAX_PENDING_OUTGOING_DIALS)%nat /\
  (forall a slot, peers (mgr w) !! a = Some slot ->
     slot_global slot = bool_decide (is_Some (global_cap (mgr w)))) /\
  match global_cap (mgr w) with
  | Some max => count w = (k + size (peers (mgr w)))%nat /\ (count w <= max)%nat /\ Z.of_nat max < 2 ^ 64
  | None => True
  end.

Definition inv (k : nat) w : Prop := counted k w /\ no_banned w.

Lemma release_pred c : (0 < c)%nat -> Z.of_nat c < 2 ^ 64 -> release c = (c - 1)%nat.
Proof. intros Hc Hb. unfold release. rewrite wrap_small; lia. Qed.

Lemma remove_slot_counted k w a : counted k w -> counted k (remove_slot a w).
Proof.
  intros (Hp & Hd & Hg & Hc). unfold remove_slot. destruct (peers (mgr w) !! a) as [slot|] eqn:E; [|done].
  assert (Ha : is_Some (peers (mgr w) !! a)) by eauto.
  pose proof (map_size_delete_Some _ _ Ha) as Hs. pose proof (map_size_ne_0_lookup_2 _ _ Ha) as Hne.
  split_and!; cbn; [lia|done| |].
  - intros b sl Hb. apply lookup_delete_Some in Hb as [_ Hb]. by eapply Hg.
  - rewrite (Hg a slot E). destruct (global_cap (mgr w)) as [max|]; [|done].
    rewrite bool_decide_true by done. destruct Hc as (Hc & Hm & Hb).
    rewrite release_pred by lia. split_and!; lia.
Qed.

Lemma remove_slot_peers w a b : peers (mgr (remove_slot a w)) !! b = if decide (a = b) then None else peers (mgr w) !! b.
Proof.
  unfold remove_slot. destruct (peers (mgr w) !! a) as [slot|] eqn:E; cbn.
  - destruct (decide (a = b)) as [->|]; [apply lookup_delete_eq|by apply lookup_delete_ne].
  - destruct (decide (a = b)) as [->|]; done.
Qed.

Lemma remove_slot_banned w a : banned (mgr (remove_slot a w)) = banned (mgr w).
Proof. unfold remove_slot. by destruct (_ !! _). Qed.

Lemma with_pending_counted k w X : (size X <= MAX_PENDING_OUTGOING_DIALS)%nat -> counted k w ->
  counted k (on_mgr (with_pending X) w).
Proof. intros HX (Hp & Hd & Hg & Hc). by split_and!. Qed.

Lemma size_remove (X : gset Addr) a n : (size X <= n)%nat -> (size (X ∖ {[a]}) <= n)%nat.
Proof. intros HX. assert (size (X ∖ {[a]}) <= size X)%nat by (apply subseteq_size, subseteq_difference_l; done). lia. Qed.

Lemma drop_peer_counted k w a : counted k w -> counted k (drop_peer a w).
Proof.
  intros Hw. apply remove_slot_counted. apply with_pending_counted; [|done].
  apply size_remove. apply Hw.
Qed.

Lemma drop_peer_peers w a b : peers (mgr (drop_peer a w)) !! b = if decide (a = b) then None else peers (mgr w) !! b.
Proof. unfold drop_peer. by rewrite remove_slot_peers. Qed.

Lemma drop_peer_banned w a : banned (mgr (drop_peer a w)) = banned (mgr w).
Proof. unfold drop_peer. by rewrite remove_slot_banned. Qed.

Lemma drop_all_peers l w b : peers (mgr (foldl (fun w a => drop_peer a w) w l)) !! b =
  if decide (b ∈ l) then None else peers (mgr w) !! b.
Proof.
  revert w. induction l as [|a l IH]; intros w; cbn [foldl].
  { by rewrite decide_False by apply not_elem_of_nil. }
  rewrite IH, drop_peer_peers. destruct (decide (b ∈ l)) as [Hb|Hb].
  { by rewrite decide_True by (by right). }
  destruct (decide (a = b)) as [->|Hne]; [by rewrite decide_True by (by left)|].
  rewrite decide_False; [done|]. intros [?|?]%elem_of_cons; congruence.
Qed.

Lemma drop_all_counted k l w : counted k w -> counted k (foldl (fun w a => drop_peer a w) w l).
Proof. revert w. induction l as [|a l IH]; intros w Hw; cbn; [done|]. by apply IH, drop_peer_counted. Qed.

Lemma drop_all_banned l w : banned (mgr (foldl (fun w a => drop_peer a w) w l)) = banned (mgr w).
Proof. revert w. induction l as [|a l IH]; intros w; cbn; [done|]. by rewrite IH, drop_peer_banned. Qed.

Lemma ban_inv k i w : inv k w -> inv k (ban ip i w).
Proof.
  intros [Hc Hb]. unfold ban. set (w1 := on_mgr _ w). split.
  { apply drop_all_counted. destruct Hc as (? & ? & ? & ?). by split_and!. }
  intros a. rewrite drop_all_peers, drop_all_banned. destruct (decide (a ∈ _)) as [|Hn]; [by intros []|].
  intros Ha. assert (ip a <> i).
  { intros Hi. apply Hn. apply list_elem_of_In, filter_In. rewrite bool_decide_true by done. split; [|done].
    apply list_elem_of_In. destruct Ha as [slot Ha]. unfold addrs. apply list_elem_of_fmap.
    exists (a, slot). split; [done|]. by apply elem_of_map_to_list. }
  specialize (Hb a Ha). cbn. apply not_elem_of_union. split; [by apply not_elem_of_singleton|done].
Qed.

(** A slot is added below the limit, with the guard the cap demands. *)
Lemma add_slot_inv k w a slot g c :
  inv k w -> (size (peers (mgr w)) < max_peers (mgr w))%nat -> peers (mgr w) !! a = None ->
  ip a ∉ banned (mgr w) -> acquire_global w = Some (g, c) -> slot_global slot = g ->
  inv k (add_slot a slot c w).
Proof.
  intros [(Hp & Hd & Hg & Hc) Hb] Hlt Ha Hi Hacq Hs.
  assert (Hgc : g = bool_decide (is_Some (global_cap (mgr w))) /\
    match global_cap (mgr w) with Some max => c = S (count w) /\ (count w < max)%nat | None => True end).
  { unfold acquire_global, try_acquire in Hacq. destruct (global_cap (mgr w)) as [max|].
    - destruct (Nat.leb_spec max (count w)); [done|]. cbn in Hacq. injection Hacq as <- <-. split; [done|lia].
    - by injection Hacq as <- _. }
  destruct Hgc as [Eg Ec]. split.
  - split_and!; cbn; [rewrite map_size_insert_None by done; lia|done| |].
    + intros b sl Hl. apply lookup_insert_Some in Hl as [[<- <-]|[_ Hl]]; [congruence|by eapply Hg].
    + rewrite map_size_insert_None by done. destruct (global_cap (mgr w)); [|done]. lia.
  - intros b [sl Hl]. cbn in Hl |- *. apply lookup_insert_Some in Hl as [[<- _]|[_ Hl]]; [done|].
    apply Hb. by exists sl.
Qed.

Lemma spawn_outgoing_inv k w a : inv k w -> (size (peers (mgr w)) < max_peers (mgr w))%nat ->
  ip a ∉ banned (mgr w) -> inv k (spawn_outgoing a w).1.
Proof.
  intros Hw Hlt Hi. unfold spawn_outgoing. case_bool_decide as Ha; [done|].
  destruct (Nat.leb_spec MAX_PENDING_OUTGOING_DIALS (size (pending_dials (mgr w)))) as [|Hd]; [done|].
  destruct (acquire_global w) as [[g c]|] eqn:E; [|done]. cbn [fst].
  apply (add_slot_inv k _ a _ g c); try done.
  - destruct Hw as [Hc Hb]. split; [|exact Hb].
    apply (with_pending_counted k w ({[a]} ∪ pending_dials (mgr w))); [|done].
    rewrite size_union_alt, size_singleton. pose proof (subseteq_size (pending_dials (mgr w) ∖ {[a]}) (pending_dials (mgr w)) ltac:(by apply subseteq_difference_l)). lia.
  - by apply eq_None_not_Some.
Qed.

Lemma try_connect_many_inv k l w : inv k w -> inv k (try_connect_many ip l w).1.
Proof.
  revert w. induction l as [|a l IH]; intros w Hw; cbn [try_connect_many]; [done|].
  destruct (Nat.leb_spec (max_peers (mgr w)) (size (peers (mgr w)))); [done|].
  case_bool_decide; [by apply IH|]. case_bool_decide; [by apply IH|].
  pose proof (spawn_outgoing_inv k w a Hw ltac:(done) ltac:(done)) as Hs.
  destruct (spawn_outgoing a w) as [w1 ok]. cbn in Hs. destruct ok; [|done].
  specialize (IH w1 Hs). by destruct (try_connect_many ip l w1).
Qed.

Lemma accept_inv k w a outgoing pid anon : inv k w ->
  inv k (if (max_peers (mgr w) <=? size (peers (mgr w)))%nat || bool_decide (is_Some (peers (mgr w) !! a))
    then (w, false)
    else if bool_decide (ip a ∈ banned (mgr w)) then (w, false)
    else match acquire_global w with
         | None => (w, false)
         | Some (g, c) => (add_slot a (mkSlot outgoing pid anon g) c w, true)
         end).1.
Proof.
  intros Hw. destruct (Nat.leb_spec (max_peers (mgr w)) (size (peers (mgr w)))); cbn [orb]; [done|].
  case_bool_decide as Ha; [done|]. case_bool_decide; [done|].
  destruct (acquire_global w) as [[g c]|] eqn:E; [|done].
  apply (add_slot_inv k w a _ g c); try done. by apply eq_None_not_Some.
Qed.

Lemma run_inv k o w : inv k w -> inv k (run o w).
Proof.
  intros Hw. destruct o as [l|a|a|a|a|a|i|now i|now]; cbn [run].
  - by apply try_connect_many_inv.
  - by apply accept_inv.
  - by apply accept_inv.
  - destruct Hw as [Hc Hb]. split; [|exact Hb]. apply (with_pending_counted k w); [|done].
    apply size_remove, Hc.
  - destruct Hw as [Hc Hb]. split; [by apply remove_slot_counted|]. intros b. unfold forget.
    rewrite remove_slot_peers, remove_slot_banned. destruct (decide _); [by intros []|apply Hb].
  - destruct Hw as [Hc Hb]. split; [by apply drop_peer_counted|]. intros b.
    rewrite drop_peer_peers, drop_peer_banned. destruct (decide _); [by intros []|apply Hb].
  - by apply ban_inv.
  - unfold record_violation. case_bool_decide; [done|]. destruct (_ <=? _); cbn [fst]; [apply ban_inv|]; exact Hw.
  - exact Hw.
Qed.

Lemma step_inv c1 c2 : step c1 c2 -> inv c1.1 c1.2 -> inv c2.1 c2.2.
Proof.
  intros [o k w|k w max c Hm Ha|k w]; cbn.
  - apply run_inv.
  - intros [(Hp & Hd & Hg & Hc) Hb]. split; [|exact Hb]. split_and!; try done. cbn. rewrite Hm in *.
    unfold try_acquire in Ha. destruct (Nat.leb_spec max (count w)); [done|]. injection Ha as <-. lia.
  - intros [(Hp & Hd & Hg & Hc) Hb]. split; [|exact Hb]. split_and!; try done. cbn.
    destruct (global_cap (mgr w)) as [max|]; [|done]. destruct Hc as (Hc & Hm & Hx).
    rewrite release_pred by lia. lia.
Qed.

Lemma steps_inv c1 c2 : rtc step c1 c2 -> inv c1.1 c1.2 -> inv c2.1 c2.2.
Proof. induction 1; eauto using step_inv. Qed.

(** ** The limits are fixed *)

Definition limits w : nat * option nat := (max_peers (mgr w), global_cap (mgr w)).

Lemma remove_slot_limits a w : limits (remove_slot a w) = limits w.
Proof. unfold remove_slot. by destruct (_ !! _). Qed.

Lemma drop_all_limits l w : limits (foldl (fun w a => drop_peer a w) w l) = limits w.
Proof.
  revert w. induction l as [|a l IH]; intros w; cbn; [done|]. rewrite IH. unfold drop_peer.
  by rewrite remove_slot_limits.
Qed.

Lemma spawn_outgoing_limits a w : limits (spawn_outgoing a w).1 = limits w.
Proof. unfold spawn_outgoing. repeat case_match; done. Qed.

Lemma run_limits o w : limits (run o w) = limits w.
Proof.
  destruct o as [l|a|a|a|a|a|i|now i|now]; cbn [run]; try done.
  - revert w. induction l as [|a l IH]; intros w; cbn [try_connect_many]; [done|].
    destruct (_ <=? _)%nat; [done|]. destruct (bool_decide _); [done|]. destruct (bool_decide _); [done|].
    pose proof (spawn_outgoing_limits a w) as Hs. destruct (spawn_outgoing a w) as [w1 [|]]; [|done].
    specialize (IH w1). destruct (try_connect_many ip l w1). cbn in *. congruence.
  - unfold accept_incoming. repeat case_match; done.
  - unfold accept_handshaken. repeat case_match; done.
  - apply remove_slot_limits.
  - unfold drop_peer. by rewrite remove_slot_limits.
  - unfold ban. by rewrite drop_all_limits.
  - unfold record_violation, ban. destruct (bool_decide _); [done|]. destruct (_ <=? _); cbn [fst]; [|done].
    by rewrite drop_all_limits.
Qed.

Lemma steps_limits c1 c2 : rtc step c1 c2 -> limits c2.2 = limits c1.2.
Proof.
  induction 1 as [|c1 c2 c3 Hs _ IH]; [done|]. rewrite IH. destruct Hs; cbn; [apply run_limits|done|done].
Qed.

(** ** Failed dials *)

(** A dial that fails: the engine sees [Disconnected] and calls [forget]. *)
Definition failed_dial w a : world := forget a (try_connect_many ip [a] w).1.

Lemma failed_dial_spec w a :
  peers (mgr w) = ∅ -> global_cap (mgr w) = None -> ip a ∉ banned (mgr w) ->
  (0 < max_peers (mgr w))%nat -> (size (pending_dials (mgr w)) < MAX_PENDING_OUTGOING_DIALS)%nat ->
  failed_dial w a = on_mgr (with_pending ({[a]} ∪ pending_dials (mgr w))) w.
Proof.
  intros Hp Hg Hi Hm Hd. unfold failed_dial. cbn [try_connect_many]. rewrite Hp, map_size_empty.
  destruct (Nat.leb_spec (max_peers (mgr w)) 0); [lia|]. rewrite lookup_empty.
  rewrite (bool_decide_eq_false_2 (is_Some None)) by (by intros []).
  rewrite bool_decide_eq_false_2 by done. unfold spawn_outgoing. rewrite Hp, lookup_empty.
  rewrite (bool_decide_eq_false_2 (is_Some None)) by (by intros []).
  destruct (Nat.leb_spec MAX_PENDING_OUTGOING_DIALS (size (pending_dials (mgr w)))); [lia|].
  unfold acquire_global. rewrite Hg. cbn. unfold forget, remove_slot. cbn. rewrite lookup_insert_eq. cbn.
  unfold add_slot, on_mgr. cbn. f_equal. rewrite Hp, delete_insert_eq, delete_empty. destruct (mgr w). cbn in *. by subst.
Qed.

Lemma failed_dials_spec l w :
  peers (mgr w) = ∅ -> global_cap (mgr w) = None -> Forall (fun a => ip a ∉ banned (mgr w)) l ->
  (0 < max_peers (mgr w))%nat -> NoDup l -> list_to_set l ## pending_dials (mgr w) ->
  (size (pending_dials (mgr w)) + length l <= MAX_PENDING_OUTGOING_DIALS)%nat ->
  exists X, foldl failed_dial w l = on_mgr (with_pending X) w /\
    size X = (size (pending_dials (mgr w)) + length l)%nat.
Proof.
  intros Hp Hg Hi Hm. revert w Hp Hg Hi Hm. induction l as [|a l IH]; intros w Hp Hg Hi Hm Hnd Hdis Hd; cbn [foldl].
  { exists (pending_dials (mgr w)). split; [by destruct w as [[] ?]|]. cbn. lia. }
  apply list.Forall_cons in Hi as [Hi Hi']. apply list.NoDup_cons in Hnd as [Ha Hnd]. cbn in Hd, Hdis.
  rewrite failed_dial_spec by (done || lia).
  assert (Hs : size ({[a]} ∪ pending_dials (mgr w)) = S (size (pending_dials (mgr w)))).
  { rewrite size_union by set_solver. by rewrite size_singleton. }
  destruct (IH (on_mgr (with_pending ({[a]} ∪ pending_dials (mgr w))) w)) as (X & E & HX); cbn; try done.
  - rewrite disjoint_union_r. split; [|set_solver]. apply disjoint_singleton_r. by rewrite elem_of_list_to_set.
  - lia.
  - exists X. split; [by rewrite E|]. rewrite HX. cbn. lia.
Qed.

Lemma gate_closed l w :
  (MAX_PENDING_OUTGOING_DIALS <= size (pending_dials (mgr w)))%nat -> try_connect_many ip l w = (w, 0%nat).
Proof.
  intros Hd. revert w Hd. induction l as [|a l IH]; intros w Hd; cbn [try_connect_many]; [done|].
  destruct (_ <=? _)%nat; [done|]. destruct (bool_decide _) eqn:Ea; [by apply IH|].
  destruct (bool_decide (ip a ∈ _)); [by apply IH|]. unfold spawn_outgoing. rewrite Ea.
  by rewrite (proj2 (Nat.leb_le _ _)).
Qed.
End lemmas.

(** ** Theorems *)

(** C18: admission.  From a fresh manager with any limits, through any
    interleaving of its events with the connections of other sessions, the
    peers stay within [max_peers], no peer of a banned IP is connected, at
    most eight dials are pending, and the shared counter is exactly the number
    of connections of all sessions and never exceeds the process-wide cap. *)
Theorem peer_admission {Addr Ip Proxy Utp} `{Countable Addr} `{Countable Ip} (ip : Addr -> Ip)
    (ih pid : bytes) (maxp cap k0 k : nat) (w : World Addr Ip Proxy Utp) :
  (k0 <= cap)%nat -> Z.of_nat cap < 2 ^ 64 ->
  rtc (step ip) (k0, mkWorld (set_max_peers maxp (set_global_cap cap (pm_new ih pid))) k0) (k, w) ->
  (size (peers (mgr w)) <= maxp)%nat /\
  (forall a, is_Some (peers (mgr w) !! a) -> ip a ∉ banned (mgr w)) /\
  (size (pending_dials (mgr w)) <= MAX_PENDING_OUTGOING_DIALS)%nat /\
  count w = (k + size (peers (mgr w)))%nat /\ (count w <= cap)%nat.
Proof.
  intros Hk Hc Hs. pose proof (steps_limits ip _ _ Hs) as Hl. cbn in Hl. injection Hl as Hm Hg.
  assert (inv ip k w) as [(H1 & H2 & _ & H4) H5].
  { apply (steps_inv ip _ _ Hs). cbn. split; [|by intros a []]. 
    split_and!; cbn; rewrite ?map_size_empty, ?size_empty; try done; lia. }
  rewrite Hg in H4. rewrite Hm in H1. split_and!; [done|done|done|lia|lia].
Qed.

(** The gate leaks.  [forget], which the engine calls when a dial fails, does
    not take the address out of [pending_dials].  After eight failed dials to
    eight addresses the connection table is empty, yet every later call of
    [try_connect_many] starts nothing. *)
Lemma pending_dials_leak {Addr Ip Proxy Utp} `{Countable Addr} `{Countable Ip} (ip : Addr -> Ip)
    (ih pid : bytes) (l : list Addr) :
  NoDup l -> length l = MAX_PENDING_OUTGOING_DIALS ->
  let w := foldl (failed_dial ip) (mkWorld (pm_new ih pid : PeerManager Addr Ip Proxy Utp) 0) l in
  peers (mgr w) = ∅ /\ forall addrs, try_connect_many ip addrs w = (w, 0%nat).
Proof.
  intros Hnd Hl. destruct (failed_dials_spec ip l (mkWorld (pm_new ih pid : PeerManager Addr Ip Proxy Utp) 0))
    as (X & E & HX); cbn; try done; try (rewrite size_empty; lia).
  - apply list.Forall_forall. intros a _. apply not_elem_of_empty.
  - unfold DEFAULT_MAX_PEERS. lia.
  - rewrite E. cbn. split; [done|]. intros addrs. apply gate_closed. cbn. rewrite HX. cbn. rewrite size_empty. lia.
Qed.

Lemma peer_admission_witness :
  let w0 := mkWorld (set_max_peers 2 (set_global_cap 5 (pm_new [] [] : PeerManager nat nat unit unit))) 1 in
  let w := run id (Connect [1; 2; 3]%nat) w0 in
  rtc (step id) (1%nat, w0) (1%nat, w) /\ (size (peers (mgr w)) <= 2)%nat.
Proof.
  intros w0 w. assert (Hs : rtc (step id) (1%nat, w0) (1%nat, w)) by (apply rtc_once, step_op).
  split; [exact Hs|]. apply (peer_admission id [] [] 2 5 1 1 w); [lia|lia|exact Hs].
Defined.

Lemma pending_dials_leak_witness :
  let w := foldl (failed_dial id) (mkWorld (pm_new [] [] : PeerManager nat nat unit unit) 0) (seq 1 8) in
  try_connect_many id [100]%nat w = (w, 0%nat).
Proof. intros w. apply (pending_dials_leak id [] [] (seq 1 8)); [apply NoDup_seq|reflexivity]. Defined.
