(* ===== verification/UtpPacket.v ===== *)
(** * µTP packets (BEP 29): [src/src/peer/utp/packet.rs]

    The 20-byte header, the chain of extensions and the payload, a window into
    a shared buffer; encoder, decoder and payload equality. *)

From Stdlib Require Import ZArith Lia String Strings.Byte.
From stdpp Require Import base tactics numbers list option.
From S2P Require Import Prelude PeerWire.

Definition HEADER_LEN : nat := 20.
Definition VERSION : Z := 1.
Definition EXT_NONE : Z := 0.
Definition EXT_SELECTIVE_ACK : Z := 1.

Inductive PacketType := Data | Fin | State | Reset | Syn.
#[export] Instance PacketType_eq_dec : EqDecision PacketType.
Proof. solve_decision. Defined.

Definition to_nibble (t : PacketType) : Z :=
  match t with Data => 0 | Fin => 1 | State => 2 | Reset => 3 | Syn => 4 end.

Definition from_nibble (v : Z) : result PacketType :=
  if v =? 0 then Ok Data
  else if v =? 1 then Ok Fin
  else if v =? 2 then Ok State
  else if v =? 3 then Ok Reset
  else if v =? 4 then Ok Syn
  else Err (ENetwork "utp: unknown packet type").

Record Extension := mkExt { kind : byte; data : bytes }.

(** A window of a shared buffer.  [slice]'s bounds are only asserted in debug builds,
    so a window out of range panics where it is read. *)
Record Payload := mkPayload { buf : bytes; start : nat; len : nat }.

Definition empty_arc : bytes := [].
Definition empty : Payload := mkPayload empty_arc 0 0.
Definition payload_slice (b : bytes) (start len : nat) : Payload := mkPayload b start len.
Definition as_slice (p : Payload) : result bytes := slice_range (buf p) (start p) (start p + len p).
Definition payload_from (b : bytes) : Payload := mkPayload b 0 (length b).

(** [PartialEq for Payload]: by bytes. *)
#[export] Instance payload_equiv : Equiv Payload := fun p q => as_slice p = as_slice q.

Record Packet := mkPacket {
  packet_type : PacketType;
  connection_id : Z;
  timestamp_micros : Z;
  timestamp_diff_micros : Z;
  wnd_size : Z;
  seq_nr : Z;
  ack_nr : Z;
  extensions : list Extension;
  payload : Payload
}.

#[export] Instance packet_equiv : Equiv Packet := fun p q =>
  packet_type p = packet_type q /\ connection_id p = connection_id q /\
  timestamp_micros p = timestamp_micros q /\ timestamp_diff_micros p = timestamp_diff_micros q /\
  wnd_size p = wnd_size q /\ seq_nr p = seq_nr q /\ ack_nr p = ack_nr q /\
  extensions p = extensions q /\ payload p ≡ payload q.

Definition new (packet_type : PacketType) (connection_id seq_nr ack_nr : Z) : Packet :=
  mkPacket packet_type connection_id 0 0 0 seq_nr ack_nr [] empty.

(** The kind of the first entry of a chain, or [EXT_NONE]. *)
Definition first_kind (l : list Extension) : byte :=
  match l with e :: _ => kind e | [] => z2b EXT_NONE end.

Fixpoint encode_extension_chain (l : list Extension) : bytes :=
  match l with
  | [] => []
  | e :: l' =>
      [first_kind l'; z2b (wrap 8 (Z.of_nat (length (data e))))] ++ data e ++ encode_extension_chain l'
  end.

Definition encode (p : Packet) : result bytes :=
  let ext_bytes := encode_extension_chain (extensions p) in
  body ← as_slice (payload p);
  Ok ([z2b (Z.lor (Z.shiftl (to_nibble (packet_type p)) 4) (Z.land VERSION 15))] ++
      [first_kind (extensions p)] ++
      to_be 2 (connection_id p) ++ to_be 4 (timestamp_micros p) ++ to_be 4 (timestamp_diff_micros p) ++
      to_be 4 (wnd_size p) ++ to_be 2 (seq_nr p) ++ to_be 2 (ack_nr p) ++ ext_bytes ++ body).

(** The loop over the extension chain; [fuel] bounds its iterations. *)
Fixpoint decode_chain (fuel : nat) (b : bytes) (cursor : nat) (next_ext : byte) (acc : list Extension)
  : result (list Extension * nat) :=
  if b2z next_ext =? EXT_NONE then Ok (acc, cursor)
  else
    match fuel with
    | O => NoFuel
    | S fuel' =>
        if (length b <? cursor + 2)%nat then Err (ENetwork "utp: truncated extension chain header")
        else
          next ← index b cursor;
          l ← index b (cursor + 1);
          let len := Z.to_nat (b2z l) in
          let cursor := (cursor + 2)%nat in
          if (length b <? cursor + len)%nat then Err (ENetwork "utp: extension body overflows packet")
          else
            body ← slice_range b cursor (cursor + len);
            decode_chain fuel' b (cursor + len) next (acc ++ [mkExt next_ext body])
    end.

Definition decode (b : bytes) : result Packet :=
  if (length b <? HEADER_LEN)%nat then Err (ENetwork "utp: packet too short")
  else
    type_ver ← b2z <$> index b 0;
    packet_type ← from_nibble (Z.shiftr type_ver 4);
    let version := Z.land type_ver 15 in
    if negb (version =? VERSION) then Err (ENetwork "utp: unsupported version")
    else
      first_ext ← index b 1;
      connection_id ← be_at b 2 2;
      timestamp_micros ← be_at b 4 4;
      timestamp_diff_micros ← be_at b 8 4;
      wnd_size ← be_at b 12 4;
      seq_nr ← be_at b 16 2;
      ack_nr ← be_at b 18 2;
      '(exts, cursor) ← decode_chain (length b) b HEADER_LEN first_ext [];
      rest ← slice_from b cursor;
      Ok (mkPacket packet_type connection_id timestamp_micros timestamp_diff_micros wnd_size
            seq_nr ack_nr exts (payload_from rest)).

(** ** Lemmas *)

Definition u16 (z : Z) : bool := in_u 16 z.

Definition ext_ok (e : Extension) : bool := negb (b2z (kind e) =? EXT_NONE) && (length (data e) <? 256)%nat.

(** Fields in their wire ranges, a payload window inside its buffer. *)
Definition packet_ok (p : Packet) : bool :=
  u16 (connection_id p) && u32 (timestamp_micros p) && u32 (timestamp_diff_micros p) && u32 (wnd_size p) &&
  u16 (seq_nr p) && u16 (ack_nr p) && forallb ext_ok (extensions p) &&
  (start (payload p) + len (payload p) <=? length (buf (payload p)))%nat.

Lemma payload_from_slice b : as_slice (payload_from b) = Ok b.
Proof. unfold as_slice, payload_from. cbn. rewrite slice_range_Ok by lia. by rewrite slice_all by lia. Qed.

Lemma decode_chain_app l : forall b pre rest next fuel acc,
  b = pre ++ encode_extension_chain l ++ rest -> next = first_kind l ->
  forallb ext_ok l = true -> (length l <= fuel)%nat ->
  decode_chain fuel b (length pre) next acc =
  Ok (acc ++ l, (length pre + length (encode_extension_chain l))%nat).
Proof.
  induction l as [|e l IH]; intros b pre rest next fuel acc Hb Hn Hok Hf.
  - subst next. cbn. rewrite app_nil_r, Nat.add_0_r. by destruct fuel.
  - cbn [forallb] in Hok. apply andb_true_iff in Hok as [He Hl].
    pose proof He as He'. unfold ext_ok in He. bools. rewrite Nat.ltb_lt in *.
    destruct fuel as [|fuel]; [simpl in Hf; lia|]. cbn [decode_chain]. subst next. cbn [first_kind].
    replace (b2z (kind e) =? EXT_NONE) with false by done.
    cbn [encode_extension_chain] in Hb. rewrite <- !app_assoc in Hb. cbn [app] in Hb.
    assert (length b = length pre + 2 + length (data e) + length (encode_extension_chain l) + length rest)%nat as Lb
      by (rewrite Hb; len).
    destruct (Nat.ltb_spec (length b) (length pre + 2)); [lia|].
    rewrite (index_Some b (length pre) (first_kind l)) by (rewrite Hb; by rewrite lookup_app_r, Nat.sub_diag).
    rewrite (index_Some b (length pre + 1) (z2b (wrap 8 (Z.of_nat (length (data e))))))
      by (rewrite Hb, lookup_app_r by lia; by replace (_ - _)%nat with 1%nat by lia).
    cbn [mbind result_bind]. rewrite wrap_small, b2z_z2b_small by lia. rewrite Nat2Z.id.
    destruct (Nat.ltb_spec (length b) (length pre + 2 + length (data e))); [lia|].
    rewrite slice_range_Ok by lia.
    replace (slice b (length pre + 2) _) with (data e).
    2:{ rewrite Hb. symmetry. unfold slice. replace (length pre + 2 + length (data e) - (length pre + 2))%nat with (length (data e)) by lia.
        rewrite <- drop_drop, drop_app_length. cbn [skipn]. by rewrite drop_0, take_app_length. }
    cbn [mbind result_bind].
    specialize (IH b (pre ++ [first_kind l; z2b (wrap 8 (Z.of_nat (length (data e))))] ++ data e) rest (first_kind l) fuel
      (acc ++ [mkExt (kind e) (data e)])).
    replace (length (pre ++ _ ++ data e)) with (length pre + 2 + length (data e))%nat in IH by len.
    rewrite IH; [|by rewrite Hb, <- !app_assoc|done|done|simpl in Hf; lia].
    f_equal. f_equal; [rewrite <- app_assoc; by destruct e|len].
Qed.

Lemma u16_spec z : u16 z = true <-> 0 <= z < 256 ^ Z.of_nat 2.
Proof. unfold u16. rewrite in_u_spec. reflexivity. Qed.

Lemma type_byte t :
  let v := b2z (z2b (Z.lor (Z.shiftl (to_nibble t) 4) (Z.land VERSION 15))) in
  from_nibble (Z.shiftr v 4) = Ok t /\ Z.land v 15 = VERSION.
Proof. by destruct t; vm_compute. Qed.

(** The header as fixed-width fields. *)
Definition hfields (p : Packet) : list (nat * Z) :=
  [(1, Z.lor (Z.shiftl (to_nibble (packet_type p)) 4) (Z.land VERSION 15));
   (1, b2z (first_kind (extensions p))); (2, connection_id p); (4, timestamp_micros p);
   (4, timestamp_diff_micros p); (4, wnd_size p); (2, seq_nr p); (2, ack_nr p)]%nat.

Lemma encode_eq p : encode p =
  (body ← as_slice (payload p);
   Ok (enc_fields (hfields p) ++ encode_extension_chain (extensions p) ++ body)).
Proof.
  unfold encode, hfields. destruct (as_slice (payload p)); cbn [mbind result_bind]; [|done..].
  cbn [enc_fields]. rewrite !to_be_1, z2b_b2z, app_nil_r. by rewrite <- !app_assoc.
Qed.

Lemma length_chain l : (length l <= length (encode_extension_chain l))%nat.
Proof. induction l as [|e l IH]; [done|]. cbn [encode_extension_chain]. len. Qed.

Lemma packet_decode_encode p b : packet_ok p = true -> encode p = Ok b ->
  exists body, as_slice (payload p) = Ok body /\
    decode b = Ok (mkPacket (packet_type p) (connection_id p) (timestamp_micros p)
      (timestamp_diff_micros p) (wnd_size p) (seq_nr p) (ack_nr p) (extensions p) (payload_from body)).
Proof.
  intros Hok E. rewrite encode_eq in E. destruct (as_slice (payload p)) as [body| | |] eqn:Eb; try done.
  cbn [mbind result_bind] in E.
  assert (enc_fields (hfields p) ++ encode_extension_chain (extensions p) ++ body = b) as Eb' by congruence.
  exists body. split; [done|].
  unfold packet_ok in Hok. bools. rewrite ?u16_spec, ?u32_spec in *.
  assert (length (enc_fields (hfields p)) = 20%nat) as Lh by (rewrite length_enc_fields; reflexivity).
  set (r := encode_extension_chain (extensions p) ++ body) in *.
  unfold decode. rewrite <- Eb'.
  destruct (Nat.ltb_spec (length (enc_fields (hfields p) ++ r)) HEADER_LEN) as [Hlt|_].
  { rewrite length_app, Lh in Hlt. unfold HEADER_LEN in Hlt. lia. }
  destruct (type_byte (packet_type p)) as [T1 T2]. cbn zeta in T1, T2.
  replace (index (enc_fields (hfields p) ++ r) 0) with
    (Ok (z2b (Z.lor (Z.shiftl (to_nibble (packet_type p)) 4) (Z.land VERSION 15)))).
  2:{ unfold hfields. cbn [enc_fields]. by rewrite to_be_1. }
  replace (index (enc_fields (hfields p) ++ r) 1) with (Ok (first_kind (extensions p))).
  2:{ unfold hfields. cbn [enc_fields]. by rewrite !to_be_1, z2b_b2z. }
  cbn [mbind result_bind fmap result_fmap]. rewrite T1, T2. cbn [mbind result_bind].
  rewrite Z.eqb_refl. cbn [negb].
  rewrite (be_at_nth (hfields p) r 2 2 2 (connection_id p) eq_refl eq_refl) by done.
  rewrite (be_at_nth (hfields p) r 3 4 4 (timestamp_micros p) eq_refl eq_refl) by done.
  rewrite (be_at_nth (hfields p) r 4 8 4 (timestamp_diff_micros p) eq_refl eq_refl) by done.
  rewrite (be_at_nth (hfields p) r 5 12 4 (wnd_size p) eq_refl eq_refl) by done.
  rewrite (be_at_nth (hfields p) r 6 16 2 (seq_nr p) eq_refl eq_refl) by done.
  rewrite (be_at_nth (hfields p) r 7 18 2 (ack_nr p) eq_refl eq_refl) by done.
  cbn [mbind result_bind].
  unfold HEADER_LEN. rewrite <- Lh.
  rewrite (decode_chain_app (extensions p) _ (enc_fields (hfields p)) body); try done.
  - cbn [mbind result_bind]. rewrite slice_from_Ok by (subst r; rewrite !length_app; lia).
    cbn [mbind result_bind app]. subst r. rewrite app_assoc, drop_app_length'; [done|].
    by rewrite length_app.
  - subst r. rewrite !length_app. pose proof (length_chain (extensions p)). lia.
Qed.

Lemma decode_chain_inv fuel : forall b cursor next acc exts cur,
  (cursor <= length b)%nat -> decode_chain fuel b cursor next acc = Ok (exts, cur) ->
  exists l, exts = acc ++ l /\ forallb ext_ok l = true /\ next = first_kind l /\ (cur <= length b)%nat /\
    drop cursor b = encode_extension_chain l ++ drop cur b.
Proof.
  induction fuel as [|fuel IH]; intros b cursor next acc exts cur Hc H; cbn [decode_chain] in H;
  destruct (Z.eqb_spec (b2z next) EXT_NONE) as [E0|E0]; simplify_eq.
  1,2: exists []; cbn; rewrite app_nil_r; split_and!; try done; by rewrite <- (z2b_b2z next), E0.
  destruct (Nat.ltb_spec (length b) (cursor + 2)); [done|].
  destruct (index_lt b cursor) as [nx Hnx]; [lia|]. destruct (index_lt b (cursor + 1)) as [l Hl]; [lia|].
  rewrite Hnx, Hl in H. cbn [mbind result_bind] in H. set (n := Z.to_nat (b2z l)) in *.
  destruct (Nat.ltb_spec (length b) (cursor + 2 + n)); [done|].
  rewrite slice_range_Ok in H by lia. cbn [mbind result_bind] in H.
  replace (cursor + 2 + n - (cursor + 2))%nat with n in H by lia.
  apply IH in H as (es & -> & Hes & -> & Hcur & Hd); [|lia].
  pose proof (b2z_range l) as Rl. assert (length (slice b (cursor + 2) n) = n) as Ln by (apply length_slice; lia).
  exists (mkExt next (slice b (cursor + 2) n) :: es). split_and!; [by rewrite <- app_assoc| | |done|].
  - cbn [forallb]. rewrite Hes, andb_true_r. unfold ext_ok. cbn [kind data]. rewrite Ln.
    apply andb_true_iff. split; [by apply negb_true_iff, Z.eqb_neq|]. apply Nat.ltb_lt. lia.
  - done.
  - cbn [encode_extension_chain data]. rewrite Ln, wrap_small by lia.
    replace (z2b (Z.of_nat n)) with l by (subst n; rewrite Z2Nat.id by lia; by rewrite z2b_b2z).
    rewrite <- !app_assoc, <- Hd. rewrite (slice_drop b (cursor + 2) n).
    unfold index in Hnx, Hl. destruct (b !! cursor) eqn:E1; [|done]. destruct (b !! (cursor + 1)%nat) eqn:E2; [|done].
    simplify_eq. rewrite (drop_S _ _ _ E1). rewrite Nat.add_1_r in E2. rewrite (drop_S _ _ _ E2).
    by rewrite Nat.add_comm.
Qed.

(** A short buffer has no room for another entry: the fuel is one more than needed. *)
Lemma decode_chain_returns fuel : forall b cursor next acc,
  (length b - cursor < fuel)%nat -> returns (decode_chain fuel b cursor next acc) = true.
Proof.
  induction fuel as [|fuel IH]; intros b cursor next acc Hf; [lia|]. cbn [decode_chain].
  destruct (_ =? EXT_NONE); [done|].
  destruct (Nat.ltb_spec (length b) (cursor + 2)); [done|].
  destruct (index_lt b cursor) as [nx ->]; [lia|]. destruct (index_lt b (cursor + 1)) as [l ->]; [lia|].
  cbn [mbind result_bind]. destruct (Nat.ltb_spec (length b) (cursor + 2 + Z.to_nat (b2z l))); [done|].
  rewrite slice_range_Ok by lia. cbn [mbind result_bind]. apply IH. lia.
Qed.

(** Decoding any datagram terminates with a packet or an error: no slice or
    index of the decoder is out of range, and the chain of extensions, whatever
    lengths it claims, is left within as many steps as the datagram has bytes. *)
Lemma utp_decode_total b : returns (decode b) = true.
Proof.
  unfold decode. destruct (Nat.ltb_spec (length b) HEADER_LEN) as [|Hl]; [done|]. unfold HEADER_LEN in *.
  destruct (index_lt b 0) as [t ->]; [lia|]. destruct (index_lt b 1) as [f ->]; [lia|].
  rewrite !be_at_slice by lia. cbn [fmap result_fmap mbind result_bind].
  assert (returns (from_nibble (Z.shiftr (b2z t) 4)) = true) as Hn
    by (unfold from_nibble; by repeat destruct (_ =? _)).
  destruct (from_nibble _); try done. cbn [mbind result_bind].
  destruct (negb _); [done|].
  pose proof (decode_chain_returns (length b) b 20 f [] ltac:(lia)) as Hr.
  destruct (decode_chain (length b) b 20 f []) as [[es cur]| | |] eqn:E; try done. cbn [mbind result_bind].
  apply decode_chain_inv in E as (l & _ & _ & _ & Hc & _); [|lia]. by rewrite slice_from_Ok.
Qed.

(** A packet whose fields fit the wire survives it: its encoding decodes to an
    equal packet (payloads compare by their bytes, like [PartialEq for Payload]). *)
Lemma utp_roundtrip p : packet_ok p = true ->
  exists b q, encode p = Ok b /\ decode b = Ok q /\ q ≡ p.
Proof.
  intros Hok.
  assert (exists body, as_slice (payload p) = Ok body) as [body Eb].
  { unfold packet_ok in Hok. bools. rewrite Nat.leb_le in *. unfold as_slice.
    rewrite slice_range_Ok by lia. eauto. }
  assert (exists b, encode p = Ok b) as [b E] by (rewrite encode_eq, Eb; eexists; reflexivity).
  destruct (packet_decode_encode p b Hok E) as (body' & Eb' & D). exists b. eexists. split; [done|]. split; [done|].
  split_and!; try done. unfold equiv, payload_equiv. cbn [payload]. by rewrite payload_from_slice.
Qed.

Lemma utp_roundtrip_witness :
  exists b q, encode (mkPacket Data 7 1 2 3 65535 4 [mkExt (z2b 1) (bs "sack")] (mkPayload (bs "abcdef") 2 3)) = Ok b /\
    decode b = Ok q /\
    q ≡ mkPacket Data 7 1 2 3 65535 4 [mkExt (z2b 1) (bs "sack")] (mkPayload (bs "abcdef") 2 3).
Proof. apply utp_roundtrip. vm_compute. reflexivity. Defined.

Lemma nibble_byte v t :
  0 <= v < 256 -> from_nibble (Z.shiftr v 4) = Ok t -> Z.land v 15 = VERSION ->
  v = Z.lor (Z.shiftl (to_nibble t) 4) (Z.land VERSION 15).
Proof.
  intros Hv Hn Hl.
  assert (to_nibble t = Z.shiftr v 4) as ->.
  { unfold from_nibble in Hn.
    repeat match type of Hn with (if ?x =? ?y then _ else _) = _ => destruct (Z.eqb_spec x y) end;
      try done; by injection Hn as <-. }
  apply Z.bits_inj'. intros k Hk. rewrite Z.lor_spec, Z.shiftl_spec by lia.
  destruct (decide (k < 4)).
  - rewrite (Z.testbit_neg_r _ (k - 4)) by lia. cbn [orb]. change (Z.land VERSION 15) with VERSION. rewrite <- Hl.
    change 15 with (Z.ones 4). by rewrite Z.land_spec, Z.ones_spec_low, andb_true_r by lia.
  - rewrite Z.shiftr_spec by lia. replace (k - 4 + 4) with k by lia.
    rewrite (Z.bits_above_log2 (Z.land VERSION 15)); [by rewrite orb_false_r|done|].
    apply Z.lt_le_trans with 1; [done|lia].
Qed.

Lemma decode_encode b p : decode b = Ok p -> packet_ok p = true /\ encode p = Ok b.
Proof.
  unfold decode. destruct (Nat.ltb_spec (length b) HEADER_LEN) as [|Hl]; [done|]. unfold HEADER_LEN in *.
  destruct (index_lt b 0) as [t Ht]; [lia|]. destruct (index_lt b 1) as [f Hf]; [lia|].
  rewrite Ht, Hf, !be_at_slice by lia. cbn [fmap result_fmap mbind result_bind].
  destruct (from_nibble _) as [ty| | |] eqn:En; try done. cbn [mbind result_bind].
  destruct (Z.eqb_spec (Z.land (b2z t) 15) VERSION) as [Ev|]; [|done]. cbn [negb].
  destruct (decode_chain (length b) b 20 f []) as [[es cur]| | |] eqn:E; try done. cbn [mbind result_bind].
  apply decode_chain_inv in E as (l & -> & Hes & -> & Hc & Hd); [|lia].
  rewrite slice_from_Ok by done. intros [= <-]. cbn [app].
  pose proof (nibble_byte _ _ (b2z_range t) En Ev) as Hty. split.
  - unfold packet_ok. cbn [connection_id timestamp_micros timestamp_diff_micros wnd_size seq_nr ack_nr
      extensions payload payload_from start len buf].
    rewrite Hes, !u32_slice by lia.
    assert (forall i, (i + 2 <= length b)%nat -> u16 (from_be (slice b i 2)) = true) as H16
      by (intros; apply u16_spec, read_field_range; lia).
    rewrite !H16 by lia. apply Nat.leb_refl.
  - rewrite encode_eq. cbn [payload]. rewrite payload_from_slice. cbn [mbind result_bind extensions].
    rewrite <- Hd. f_equal. transitivity (take 20 b ++ drop 20 b); [f_equal|apply take_drop].
    change (take 20 b) with (slice b 0 (sum_list [1; 1; 2; 4; 4; 4; 2; 2]%nat)).
    rewrite <- (enc_read_fields b [1; 1; 2; 4; 4; 4; 2; 2]%nat 0) by (cbn; lia).
    unfold hfields. cbn [read_fields enc_fields packet_type connection_id timestamp_micros
      timestamp_diff_micros wnd_size seq_nr ack_nr extensions Nat.add]. rewrite <- Hty.
    unfold index in Ht, Hf. destruct (b !! 0%nat) eqn:E0; [|done]. destruct (b !! 1%nat) eqn:E1; [|done].
    injection Ht as ->. injection Hf as ->. unfold slice.
    rewrite (drop_S _ _ _ E0), (drop_S _ _ _ E1). cbn [take]. rewrite !to_be_1.
    done.
Qed.

(** The decoder is total and exact: on any datagram it terminates with a packet or
    an error, without a panic, whatever lengths the extension chain claims; and a
    datagram that decodes is the encoding of the packet it decodes to, whose
    fields are in range and whose extensions have a kind other than the
    terminator.  No byte of a datagram is ignored. *)
Lemma utp_decode_exact b :
  returns (decode b) = true /\ forall p, decode b = Ok p -> packet_ok p = true /\ encode p = Ok b.
Proof. split; [apply utp_decode_total|]. intros p. apply decode_encode. Qed.

Lemma utp_decode_exact_witness :
  packet_ok (new Syn 9 1 0) = true /\ encode (new Syn 9 1 0) =
  Ok ([z2b 65; z2b 0] ++ to_be 2 9 ++ to_be 4 0 ++ to_be 4 0 ++ to_be 4 0 ++ to_be 2 1 ++ to_be 2 0).
Proof. apply (proj2 (utp_decode_exact _)). vm_compute. reflexivity. Defined.

(** Equal packets have equal encodings, whatever buffers their payloads share. *)
#[export] Instance encode_proper : Proper ((≡) ==> (=)) encode.
Proof.
  intros p q (E1 & E2 & E3 & E4 & E5 & E6 & E7 & E8 & E9). unfold encode.
  unfold equiv, payload_equiv in E9. by rewrite E1, E2, E3, E4, E5, E6, E7, E8, E9.
Qed.
