(* ===== verification/Float64.v ===== *)
(** * [f64]

    The binary64 numbers of the source as the Standard Library's executable
    specification of IEEE 754 ([spec_float], precision 53, exponent bound 1024,
    round to nearest even), with the conversions and the comparison-based
    methods of Rust's [f64] that the source uses. *)

From Stdlib Require Import ZArith Lia Floats.SpecFloat.
From stdpp Require Import base tactics numbers.
From S2P Require Import Prelude.

Definition f64 : Type := spec_float.

(** [z as f64] for an integer *)
Definition of_int (z : Z) : f64 := binary_normalize 53 1024 z 0 false.

Definition fadd (x y : f64) : f64 := SFadd 53 1024 x y.
Definition fsub (x y : f64) : f64 := SFsub 53 1024 x y.
Definition fmul (x y : f64) : f64 := SFmul 53 1024 x y.
Definition fdiv (x y : f64) : f64 := SFdiv 53 1024 x y.
Definition flt (x y : f64) : bool := SFltb x y.
Definition fle (x y : f64) : bool := SFleb x y.

Definition is_nan (x : f64) : bool := match x with S754_nan => true | _ => false end.

(** [f64::min], [f64::max]: a NaN operand is ignored. *)
Definition fmin (x y : f64) : f64 :=
  if is_nan x then y else if is_nan y then x else if flt y x then y else x.
Definition fmax (x y : f64) : f64 :=
  if is_nan x then y else if is_nan y then x else if flt x y then y else x.

(** [x.clamp(lo, hi)]; panics unless [lo <= hi], which is constant where it is used. *)
Definition fclamp (x lo hi : f64) : f64 :=
  let x := if flt x lo then lo else x in if flt hi x then hi else x.

(** [x as usize] (64 bits): truncation, saturating, NaN to zero. *)
Definition to_usize (x : f64) : Z :=
  match x with
  | S754_nan | S754_zero _ => 0
  | S754_infinity s => if s then 0 else umax 64
  | S754_finite s m e => if s then 0 else Z.min (umax 64) (Z.shiftl (Zpos m) e)
  end.

(** ** Order *)

(** [lo <= x <= hi] for numbers; false for NaN. *)
Definition in_range (x lo hi : f64) : bool := fle lo x && fle x hi.

Lemma SFcompare_refl x : is_nan x = false -> SFcompare x x = Some Eq.
Proof.
  destruct x as [s|s| |s m e]; try done; destruct s; try done; intros _; cbn;
  rewrite Z.compare_refl, Pos.compare_refl; done.
Qed.

Lemma SFcompare_swap x y : SFcompare y x = CompOpp <$> SFcompare x y.
Proof.
  destruct x as [[]|[]| |[] mx ex], y as [[]|[]| |[] my ey]; try done; cbn;
  rewrite (Z.compare_antisym ex ey); destruct (ex ?= ey)%Z; cbn; try done;
  change (Pos.compare_cont Eq) with Pos.compare;
  rewrite (Pos.compare_antisym mx my); by destruct (mx ?= my)%positive.
Qed.

Lemma fle_refl x : is_nan x = false -> fle x x = true.
Proof. intros H. unfold fle, SFleb. by rewrite SFcompare_refl. Qed.

(** For two numbers, not less means greater or equal. *)
Lemma not_flt x y : is_nan x = false -> is_nan y = false -> flt x y = false -> fle y x = true.
Proof.
  unfold flt, fle, SFltb, SFleb. rewrite (SFcompare_swap x y).
  destruct (SFcompare x y) as [[]|] eqn:E; try done.
  destruct x as [[]|[]| |[] mx ex], y as [[]|[]| |[] my ey]; cbn in E; try done; intros _ _ _; revert E;
  destruct (ex ?= ey)%Z; try done.
Qed.

Lemma flt_fle x y : flt x y = true -> fle x y = true.
Proof. unfold flt, fle, SFltb, SFleb. by destruct (SFcompare x y) as [[]|]. Qed.

(** Clamping a number gives a number of the interval. *)
Lemma fclamp_range x lo hi :
  is_nan x = false -> is_nan lo = false -> is_nan hi = false -> fle lo hi = true ->
  in_range (fclamp x lo hi) lo hi = true.
Proof.
  intros Hx Hlo Hhi Hle. unfold fclamp, in_range.
  destruct (flt x lo) eqn:E1.
  - destruct (flt hi lo) eqn:E2; [by rewrite Hle, fle_refl|]. by rewrite fle_refl, Hle.
  - destruct (flt hi x) eqn:E2; [by rewrite Hle, fle_refl|].
    by rewrite (not_flt x lo Hx Hlo E1), (not_flt hi x Hhi Hx E2).
Qed.

