(* ===== verification/UtpConnection.v ===== *)
(** * The µTP connection state machine: [src/src/peer/utp/connection.rs]

    [Connection] is the record of the source; the methods on [&mut self] live in
    the state monad.  An [Instant] is a number of nanoseconds and a [Duration]
    a non-negative one.  [VecDeque] is a list, [BTreeMap] a list sorted by key,
    and [Arc<[u8]>] the bytes it points to. *)

From Stdlib Require Import ZArith Lia String Strings.Byte.
From stdpp Require Import base tactics numbers list option.
From S2P Require Import Prelude PeerWire UtpPacket Float64.

Definition INITIAL_RTO : Z := 1000 * 1000000.
Definition MAX_RTO : Z := 15 * 1000000000.
Definition HARD_TIMEOUT : Z := 60 * 1000000000.
Definition INITIAL_WINDOW_PACKETS : Z := 8.
Definition MAX_DATA_PAYLOAD : Z := 1200.
Definition RECV_WINDOW_BYTES : Z := 1024 * 1024.
Definition MAX_PENDING_IN : Z := RECV_WINDOW_BYTES / MAX_DATA_PAYLOAD + 1.

(** ** LEDBAT *)

Record Ledbat := mkLedbat {
  cwnd_bytes : f64;
  fixed_floor : option Z;
  base_history : list Z;
  cur_slot_start : option Z;
  has_sample : bool
}.

Definition LEDBAT_TARGET_MICROS : f64 := of_int 100000.
Definition LEDBAT_MAX_CWND_INCREASE : f64 := of_int MAX_DATA_PAYLOAD.
Definition LEDBAT_MIN_WINDOW : f64 := of_int (2 * MAX_DATA_PAYLOAD).
Definition LEDBAT_MAX_WINDOW : f64 := of_int RECV_WINDOW_BYTES.
Definition BASE_DELAY_SLOT : Z := 60 * 1000000000.
Definition BASE_DELAY_SLOTS : nat := 13.

Definition ledbat_new : Ledbat :=
  mkLedbat (of_int (INITIAL_WINDOW_PACKETS * MAX_DATA_PAYLOAD)) None [] None false.

(** [now.duration_since(start)]: zero when [start] is later. *)
Definition duration_since (now start : Z) : Z := sat_sub now start.

(** [for _ in 0..n { push_back(x); if len > BASE_DELAY_SLOTS { pop_front() } }] *)
Fixpoint push_slots (n : nat) (x : Z) (h : list Z) : list Z :=
  match n with
  | O => h
  | S n' =>
      let h := h ++ [x] in
      push_slots n' x (if (BASE_DELAY_SLOTS <? length h)%nat then tail h else h)
  end.

(** The newest slot takes the minimum with [x]. *)
Definition min_back (x : Z) (h : list Z) : list Z :=
  match h !! pred (length h) with
  | Some cur => <[pred (length h) := Z.min cur x]> h
  | None => h ++ [x]
  end.

Definition list_min (l : list Z) : option Z :=
  match l with [] => None | x :: l' => Some (foldl Z.min x l') end.

Definition update_base (delay_sample now : Z) (l : Ledbat) : Ledbat * Z :=
  let floor := match fixed_floor l with Some f => Z.min f delay_sample | None => delay_sample end in
  let '(hist, slot) :=
    match cur_slot_start l with
    | None => (base_history l ++ [delay_sample], Some now)
    | Some start =>
        if BASE_DELAY_SLOT <=? duration_since now start then
          let elapsed := duration_since now start in
          let slots_passed := Z.max ((elapsed / 1000000000) / (BASE_DELAY_SLOT / 1000000000)) 1 in
          (push_slots (Z.to_nat slots_passed) delay_sample (base_history l),
           Some (start + BASE_DELAY_SLOT * wrap 32 slots_passed))
        else (min_back delay_sample (base_history l), Some start)
    end in
  let hist_min := default floor (list_min hist) in
  (mkLedbat (cwnd_bytes l) (Some floor) hist slot (has_sample l), Z.max hist_min floor).

Definition on_ack (delay_sample : Z) (bytes_acked : nat) (peer_wnd now : Z) (l : Ledbat) : Ledbat :=
  if (delay_sample =? 0) || (bytes_acked =? 0)%nat then l
  else
    let l := mkLedbat (cwnd_bytes l) (fixed_floor l) (base_history l) (cur_slot_start l) true in
    let '(l, base) := update_base delay_sample now l in
    let queuing := of_int (sat_sub delay_sample base) in
    let off_target := fdiv (fsub LEDBAT_TARGET_MICROS queuing) LEDBAT_TARGET_MICROS in
    let window_factor := fdiv (of_int (Z.of_nat bytes_acked)) (cwnd_bytes l) in
    let gain := fmul (fmul LEDBAT_MAX_CWND_INCREASE off_target) window_factor in
    let cwnd := fclamp (fadd (cwnd_bytes l) gain) LEDBAT_MIN_WINDOW LEDBAT_MAX_WINDOW in
    let cwnd := if 0 <? peer_wnd then fmax (fmin cwnd (of_int peer_wnd)) LEDBAT_MIN_WINDOW else cwnd in
    mkLedbat cwnd (fixed_floor l) (base_history l) (cur_slot_start l) (has_sample l).

Definition window_packets (l : Ledbat) : option Z :=
  if negb (has_sample l) then None
  else Some (Z.max (to_usize (fdiv (cwnd_bytes l) (of_int MAX_DATA_PAYLOAD))) 2).

(** ** The connection *)

Inductive State := SynSent | SynReceived | Connected | FinSent | Closed | ResetState.
#[export] Instance State_eq_dec : EqDecision State.
Proof. solve_decision. Defined.

Record InFlight := mkInFlight { if_seq_nr : Z; send_time : Z; rto : Z; packet : Packet }.

Record Connection := mkConn {
  state : State;
  send_id : Z;
  recv_id : Z;
  next_seq_nr : Z;
  peer_seq_nr_acked : Z;
  out_blocks : list bytes;
  out_head : nat;
  out_len : nat;
  in_buf : bytes;
  peer_logical_acked : Z;
  pending_in : list (Z * Payload);
  in_flight : list InFlight;
  accept_token : option Z;
  return_path_confirmed : bool;
  deadline : Z;
  fast_rtx_seq : option Z;
  last_fast_rtx_seq : option Z;
  cc : Ledbat
}.

Definition set_state (x : State) (c : Connection) : Connection :=
  mkConn x (send_id c) (recv_id c) (next_seq_nr c) (peer_seq_nr_acked c) (out_blocks c) (out_head c) (out_len c) (in_buf c) (peer_logical_acked c) (pending_in c) (in_flight c) (accept_token c) (return_path_confirmed c) (deadline c) (fast_rtx_seq c) (last_fast_rtx_seq c) (cc c).
Definition set_send_id (x : Z) (c : Connection) : Connection :=
  mkConn (state c) x (recv_id c) (next_seq_nr c) (peer_seq_nr_acked c) (out_blocks c) (out_head c) (out_len c) (in_buf c) (peer_logical_acked c) (pending_in c) (in_flight c) (accept_token c) (return_path_confirmed c) (deadline c) (fast_rtx_seq c) (last_fast_rtx_seq c) (cc c).
Definition set_recv_id (x : Z) (c : Connection) : Connection :=
  mkConn (state c) (send_id c) x (next_seq_nr c) (peer_seq_nr_acked c) (out_blocks c) (out_head c) (out_len c) (in_buf c) (peer_logical_acked c) (pending_in c) (in_flight c) (accept_token c) (return_path_confirmed c) (deadline c) (fast_rtx_seq c) (last_fast_rtx_seq c) (cc c).
Definition set_next_seq_nr (x : Z) (c : Connection) : Connection :=
  mkConn (state c) (send_id c) (recv_id c) x (peer_seq_nr_acked c) (out_blocks c) (out_head c) (out_len c) (in_buf c) (peer_logical_acked c) (pending_in c) (in_flight c) (accept_token c) (return_path_confirmed c) (deadline c) (fast_rtx_seq c) (last_fast_rtx_seq c) (cc c).
Definition set_peer_seq_nr_acked (x : Z) (c : Connection) : Connection :=
  mkConn (state c) (send_id c) (recv_id c) (next_seq_nr c) x (out_blocks c) (out_head c) (out_len c) (in_buf c) (peer_logical_acked c) (pending_in c) (in_flight c) (accept_token c) (return_path_confirmed c) (deadline c) (fast_rtx_seq c) (last_fast_rtx_seq c) (cc c).
Definition set_out_blocks (x : list bytes) (c : Connection) : Connection :=
  mkConn (state c) (send_id c) (recv_id c) (next_seq_nr c) (peer_seq_nr_acked c) x (out_head c) (out_len c) (in_buf c) (peer_logical_acked c) (pending_in c) (in_flight c) (accept_token c) (return_path_confirmed c) (deadline c) (fast_rtx_seq c) (last_fast_rtx_seq c) (cc c).
Definition set_out_head (x : nat) (c : Connection) : Connection :=
  mkConn (state c) (send_id c) (recv_id c) (next_seq_nr c) (peer_seq_nr_acked c) (out_blocks c) x (out_len c) (in_buf c) (peer_logical_acked c) (pending_in c) (in_flight c) (accept_token c) (return_path_confirmed c) (deadline c) (fast_rtx_seq c) (last_fast_rtx_seq c) (cc c).
Definition set_out_len (x : nat) (c : Connection) : Connection :=
  mkConn (state c) (send_id c) (recv_id c) (next_seq_nr c) (peer_seq_nr_acked c) (out_blocks c) (out_head c) x (in_buf c) (peer_logical_acked c) (pending_in c) (in_flight c) (accept_token c) (return_path_confirmed c) (deadline c) (fast_rtx_seq c) (last_fast_rtx_seq c) (cc c).
Definition set_in_buf (x : bytes) (c : Connection) : Connection :=
  mkConn (state c) (send_id c) (recv_id c) (next_seq_nr c) (peer_seq_nr_acked c) (out_blocks c) (out_head c) (out_len c) x (peer_logical_acked c) (pending_in c) (in_flight c) (accept_token c) (return_path_confirmed c) (deadline c) (fast_rtx_seq c) (last_fast_rtx_seq c) (cc c).
Definition set_peer_logical_acked (x : Z) (c : Connection) : Connection :=
  mkConn (state c) (send_id c) (recv_id c) (next_seq_nr c) (peer_seq_nr_acked c) (out_blocks c) (out_head c) (out_len c) (in_buf c) x (pending_in c) (in_flight c) (accept_token c) (return_path_confirmed c) (deadline c) (fast_rtx_seq c) (last_fast_rtx_seq c) (cc c).
Definition set_pending_in (x : list (Z * Payload)) (c : Connection) : Connection :=
  mkConn (state c) (send_id c) (recv_id c) (next_seq_nr c) (peer_seq_nr_acked c) (out_blocks c) (out_head c) (out_len c) (in_buf c) (peer_logical_acked c) x (in_flight c) (accept_token c) (return_path_confirmed c) (deadline c) (fast_rtx_seq c) (last_fast_rtx_seq c) (cc c).
Definition set_in_flight (x : list InFlight) (c : Connection) : Connection :=
  mkConn (state c) (send_id c) (recv_id c) (next_seq_nr c) (peer_seq_nr_acked c) (out_blocks c) (out_head c) (out_len c) (in_buf c) (peer_logical_acked c) (pending_in c) x (accept_token c) (return_path_confirmed c) (deadline c) (fast_rtx_seq c) (last_fast_rtx_seq c) (cc c).
Definition set_accept_token (x : option Z) (c : Connection) : Connection :=
  mkConn (state c) (send_id c) (recv_id c) (next_seq_nr c) (peer_seq_nr_acked c) (out_blocks c) (out_head c) (out_len c) (in_buf c) (peer_logical_acked c) (pending_in c) (in_flight c) x (return_path_confirmed c) (deadline c) (fast_rtx_seq c) (last_fast_rtx_seq c) (cc c).
Definition set_return_path_confirmed (x : bool) (c : Connection) : Connection :=
  mkConn (state c) (send_id c) (recv_id c) (next_seq_nr c) (peer_seq_nr_acked c) (out_blocks c) (out_head c) (out_len c) (in_buf c) (peer_logical_acked c) (pending_in c) (in_flight c) (accept_token c) x (deadline c) (fast_rtx_seq c) (last_fast_rtx_seq c) (cc c).
Definition set_deadline (x : Z) (c : Connection) : Connection :=
  mkConn (state c) (send_id c) (recv_id c) (next_seq_nr c) (peer_seq_nr_acked c) (out_blocks c) (out_head c) (out_len c) (in_buf c) (peer_logical_acked c) (pending_in c) (in_flight c) (accept_token c) (return_path_confirmed c) x (fast_rtx_seq c) (last_fast_rtx_seq c) (cc c).
Definition set_fast_rtx_seq (x : option Z) (c : Connection) : Connection :=
  mkConn (state c) (send_id c) (recv_id c) (next_seq_nr c) (peer_seq_nr_acked c) (out_blocks c) (out_head c) (out_len c) (in_buf c) (peer_logical_acked c) (pending_in c) (in_flight c) (accept_token c) (return_path_confirmed c) (deadline c) x (last_fast_rtx_seq c) (cc c).
Definition set_last_fast_rtx_seq (x : option Z) (c : Connection) : Connection :=
  mkConn (state c) (send_id c) (recv_id c) (next_seq_nr c) (peer_seq_nr_acked c) (out_blocks c) (out_head c) (out_len c) (in_buf c) (peer_logical_acked c) (pending_in c) (in_flight c) (accept_token c) (return_path_confirmed c) (deadline c) (fast_rtx_seq c) x (cc c).
Definition set_cc (x : Ledbat) (c : Connection) : Connection :=
  mkConn (state c) (send_id c) (recv_id c) (next_seq_nr c) (peer_seq_nr_acked c) (out_blocks c) (out_head c) (out_len c) (in_buf c) (peer_logical_acked c) (pending_in c) (in_flight c) (accept_token c) (return_path_confirmed c) (deadline c) (fast_rtx_seq c) (last_fast_rtx_seq c) x.


(** [a.wrapping_add(b)], [a.wrapping_sub(b)] on [u16] *)
Definition wadd (a b : Z) : Z := wrap 16 (a + b).
Definition wsub (a b : Z) : Z := wrap 16 (a - b).

Definition seq_le (a b : Z) : bool :=
  let diff := wsub b a in (0 <=? diff) && (diff <=? 32768).

(** [len] of a payload: [Deref] to the slice, so it panics where the slice does. *)
Definition plen (p : Payload) : result nat := length <$> as_slice p.

(** *** A [BTreeMap<u64, Payload>] as the list of its entries in key order *)

Fixpoint zm_get {V} (k : Z) (m : list (Z * V)) : option V :=
  match m with
  | [] => None
  | (k', v) :: m' => if k =? k' then Some v else zm_get k m'
  end.

Fixpoint zm_insert {V} (k : Z) (v : V) (m : list (Z * V)) : list (Z * V) :=
  match m with
  | [] => [(k, v)]
  | (k', v') :: m' =>
      if k =? k' then (k, v) :: m'
      else if k <? k' then (k, v) :: m
      else (k', v') :: zm_insert k v m'
  end.

Fixpoint zm_remove {V} (k : Z) (m : list (Z * V)) : list (Z * V) :=
  match m with
  | [] => []
  | (k', v') :: m' => if k =? k' then m' else (k', v') :: zm_remove k m'
  end.

Definition recv_window (c : Connection) : Z :=
  sat_sub RECV_WINDOW_BYTES (wrap 32 (Z.of_nat (length (in_buf c)))).

Definition blank_conn (st : State) (send_id recv_id next acked : Z) (token : option Z) (confirmed : bool)
  (now : Z) : Connection :=
  mkConn st send_id recv_id next acked [] 0 0 [] 0 [] [] token confirmed (now + HARD_TIMEOUT)
    None None ledbat_new.

Definition new_initiator (recv_id now : Z) : Connection * Packet :=
  let send_id := wadd recv_id 1 in
  let conn := blank_conn SynSent send_id recv_id 1 0 None true now in
  let syn := UtpPacket.new Syn recv_id (next_seq_nr conn) 0 in
  let conn := set_next_seq_nr (wadd (next_seq_nr conn) 1) conn in
  let conn := set_in_flight (in_flight conn ++ [mkInFlight 1 now INITIAL_RTO syn]) conn in
  (conn, syn).

Definition new_receiver_with_seq (syn : Packet) (now init_seq : Z) : option (Connection * Packet) :=
  if negb (bool_decide (packet_type syn = Syn)) then None
  else
    let send_id := connection_id syn in
    let recv_id := wadd (connection_id syn) 1 in
    let conn := blank_conn SynReceived send_id recv_id init_seq (seq_nr syn) (Some init_seq) false now in
    let st := mkPacket UtpPacket.State send_id 0 0 (recv_window conn) (next_seq_nr conn) (seq_nr syn) [] empty in
    Some (set_state Connected conn, st).

Definition is_closed (c : Connection) : bool :=
  match state c with Closed | ResetState => true | _ => false end.

Definition fin_complete (c : Connection) : bool :=
  bool_decide (state c = FinSent) && (length (in_flight c) =? 0)%nat.

Definition enqueue_send_block (block : bytes) : M Connection bool :=
  st ← gets state;
  match st with
  | FinSent | Closed | ResetState => mret false
  | _ =>
      if (length block =? 0)%nat then mret false
      else
        _ ← modify (fun c => set_out_len (out_len c + length block) c);
        _ ← modify (fun c => set_out_blocks (out_blocks c ++ [block]) c);
        mret true
  end.

Definition enqueue_send (b : bytes) : M Connection unit :=
  if (length b =? 0)%nat then mret tt else _ ← enqueue_send_block b; mret tt.

(** [iter().map(f).sum()] *)
Fixpoint sum_res {A} (f : A -> result nat) (l : list A) : result nat :=
  match l with
  | [] => Ok 0%nat
  | x :: l' => n ← f x; r ← sum_res f l'; Ok (n + r)%nat
  end.

Definition outstanding_send_bytes (c : Connection) : result nat :=
  inflight ← sum_res (fun e => plen (payload (packet e))) (in_flight c);
  Ok (out_len c + inflight)%nat.

Definition undelivered_receive_bytes (c : Connection) : result nat :=
  stashed ← sum_res (fun kv => plen (snd kv)) (pending_in c);
  Ok (length (in_buf c) + stashed)%nat.

Definition take_received (max : nat) : M Connection bytes :=
  b ← gets in_buf;
  let n := Nat.min (length b) max in
  _ ← modify (set_in_buf (drop n b));
  mret (take n b).

Definition close : M Connection unit :=
  st ← gets state;
  match st with
  | FinSent | Closed | ResetState | SynSent => mret tt
  | _ => modify (set_state FinSent)
  end.

Definition matches_incoming (c : Connection) (p : Packet) : bool :=
  (connection_id p =? recv_id c) ||
  (bool_decide (packet_type p = Syn) && (connection_id p =? send_id c)).

(** ** Acknowledgements *)

Definition MAX_SACK_BYTES : nat := 64.

(** One key of the out-of-order buffer into the mask. *)
Definition sack_bit (acked : Z) (mask : bytes) (logical : Z) : bytes :=
  let dist := sat_sub logical acked in
  if dist <? 2 then mask
  else
    let offset := Z.to_nat (dist - 2) in
    let b := (offset / 8)%nat in
    if (MAX_SACK_BYTES <=? b)%nat then mask
    else
      let mask :=
        if (length mask <=? b)%nat then
          let new_len := Nat.min ((b / 4 + 1) * 4) MAX_SACK_BYTES in
          mask ++ replicate (new_len - length mask) Byte.x00
        else mask in
      if (length mask <=? b)%nat then mask
      else or_at mask b (Z.shiftl 1 (Z.of_nat (offset mod 8))).

Definition build_sack (c : Connection) : option Extension :=
  if (length (pending_in c) =? 0)%nat then None
  else
    let mask := foldl (sack_bit (peer_logical_acked c)) (replicate 4 Byte.x00) (fst <$> pending_in c) in
    if forallb (fun b => b2z b =? 0) mask then None
    else Some (mkExt (z2b EXT_SELECTIVE_ACK) mask).

Definition build_state_ack (c : Connection) : Packet :=
  mkPacket UtpPacket.State (send_id c) 0 0 (recv_window c) (next_seq_nr c) (peer_seq_nr_acked c)
    (match build_sack c with Some e => [e] | None => [] end) empty.

(** [(mask[byte] >> (offset % 8)) & 1 == 1], false past the mask *)
Definition sacked (mask : bytes) (base seq : Z) : bool :=
  let offset := Z.to_nat (wsub seq base) in
  match mask !! (offset / 8)%nat with
  | Some b => Z.land (Z.shiftr (b2z b) (Z.of_nat (offset mod 8))) 1 =? 1
  | None => false
  end.

Definition count_ones_byte (b : byte) : Z :=
  foldl (fun n k => n + Z.b2z (Z.testbit (b2z b) (Z.of_nat k))) 0 (seq 0 8).
Definition count_ones_mask (m : bytes) : Z := foldl (fun n b => n + count_ones_byte b) 0 m.

Definition process_sack (ack_nr : Z) (mask : bytes) : M Connection nat :=
  let base := wadd ack_nr 2 in
  fl ← gets in_flight;
  pruned_bytes ← lift (sum_res (fun e => plen (payload (packet e)))
                         (filter (fun e => sacked mask base (if_seq_nr e) = true) fl));
  let kept := filter (fun e => sacked mask base (if_seq_nr e) = false) fl in
  _ ← modify (set_in_flight kept);
  if 3 <=? count_ones_mask mask then
    match kept with
    | front :: _ =>
        let gap := if_seq_nr front in
        lastf ← gets last_fast_rtx_seq;
        if negb (bool_decide (lastf = Some gap)) then
          _ ← modify (set_fast_rtx_seq (Some gap));
          _ ← modify (set_last_fast_rtx_seq (Some gap));
          mret pruned_bytes
        else mret pruned_bytes
    | [] => mret pruned_bytes
    end
  else mret pruned_bytes.

(** The cumulative ack: pop the acked front of the retransmit queue, counting bytes. *)
Fixpoint pop_acked (ack : Z) (fl : list InFlight) : result (nat * list InFlight) :=
  match fl with
  | [] => Ok (0%nat, [])
  | e :: fl' =>
      if seq_le (if_seq_nr e) ack then
        n ← plen (payload (packet e));
        '(m, rest) ← pop_acked ack fl';
        Ok ((n + m)%nat, rest)
      else Ok (0%nat, fl)
  end.

(** ** Receiving *)

(** [drain_pending_in]: at most as many steps as there are stashed packets. *)
Fixpoint drain_loop (fuel : nat) : M Connection unit :=
  b ← gets in_buf;
  if negb (Z.of_nat (length b) <? RECV_WINDOW_BYTES) then mret tt
  else
    k ← reads (fun c => checked 64 (peer_logical_acked c + 1));
    m ← gets pending_in;
    match zm_get k m with
    | None => mret tt
    | Some p =>
        match fuel with
        | O => lift NoFuel
        | S fuel' =>
            _ ← modify (set_pending_in (zm_remove k m));
            data ← lift (as_slice p);
            _ ← modify (set_in_buf (b ++ data));
            _ ← modify (fun c => set_peer_seq_nr_acked (wadd (peer_seq_nr_acked c) 1) c);
            _ ← modify (fun c => set_peer_logical_acked k c);
            drain_loop fuel'
        end
    end.

Definition drain_pending_in : M Connection unit :=
  m ← gets pending_in; drain_loop (length m).

Definition reply (f : Connection -> Packet) : M Connection (option Packet) :=
  p ← gets f; mret (Some p).

Definition handle_data (p : Packet) : M Connection (option Packet) :=
  let payload_seq := seq_nr p in
  acked ← gets peer_seq_nr_acked;
  if seq_le payload_seq acked then reply build_state_ack
  else
    let dist := wsub payload_seq acked in
    if dist =? 1 then
      b ← gets in_buf;
      if RECV_WINDOW_BYTES <=? Z.of_nat (length b) then reply build_state_ack
      else
        data ← lift (as_slice (payload p));
        _ ← modify (set_in_buf (b ++ data));
        _ ← modify (set_peer_seq_nr_acked payload_seq);
        _ ← modify (fun c => set_peer_logical_acked (wrap 64 (peer_logical_acked c + 1)) c);
        _ ← drain_pending_in;
        reply build_state_ack
    else
      logical ← reads (fun c => checked 64 (peer_logical_acked c + dist));
      m ← gets pending_in;
      _ ← (if bool_decide (is_Some (zm_get logical m)) || (Z.of_nat (length m) <? MAX_PENDING_IN)
           then modify (set_pending_in (zm_insert logical (payload p) m))
           else mret tt);
      reply build_state_ack.

(** The anti-spoof accept gate of [handle_incoming]. *)
Definition accept_gate (p : Packet) : M Connection unit :=
  conf ← gets return_path_confirmed;
  if negb conf && negb (bool_decide (packet_type p = Syn)) then
    tok ← gets accept_token;
    match tok with
    | Some token =>
        let lo := wsub token 1 in
        hi ← gets (fun c => wsub (next_seq_nr c) 1);
        if seq_le lo (ack_nr p) && seq_le (ack_nr p) hi
        then modify (set_return_path_confirmed true) else mret tt
    | None => mret tt
    end
  else mret tt.

(** Its selective-ack step, adding to the bytes acked so far. *)
Definition absorb_sack (p : Packet) (bytes_acked : nat) : M Connection nat :=
  match list_find (fun e => b2z (kind e) = EXT_SELECTIVE_ACK) (extensions p) with
  | Some (_, sack) => n ← process_sack (ack_nr p) (data sack); mret (bytes_acked + n)%nat
  | None => mret bytes_acked
  end.

(** Its congestion-control step. *)
Definition absorb_delay (p : Packet) (now : Z) (bytes_acked : nat) : M Connection unit :=
  if (0 <? bytes_acked)%nat
  then modify (fun c => set_cc (on_ack (timestamp_diff_micros p) bytes_acked (wnd_size p) now (cc c)) c)
  else mret tt.

(** What [handle_incoming] takes from the acknowledgement fields of any packet. *)
Definition absorb_acks (p : Packet) (now : Z) : M Connection unit :=
  '(bytes_acked, rest) ← reads (fun c => pop_acked (ack_nr p) (in_flight c));
  _ ← modify (set_in_flight rest);
  _ ← accept_gate p;
  bytes_acked ← absorb_sack p bytes_acked;
  absorb_delay p now bytes_acked.

Definition handle_state (p : Packet) : M Connection (option Packet) :=
  st ← gets state;
  if bool_decide (st = SynSent) then
    _ ← modify (set_state Connected);
    _ ← modify (set_peer_seq_nr_acked (wsub (seq_nr p) 1));
    mret None
  else mret None.

Definition handle_fin (p : Packet) : M Connection (option Packet) :=
  _ ← modify (set_peer_seq_nr_acked (seq_nr p));
  ack ← gets build_state_ack;
  idle ← gets (fun c => (out_len c =? 0)%nat && (length (in_flight c) =? 0)%nat);
  _ ← (if idle : bool then modify (set_state Closed) else mret tt);
  mret (Some ack).

Definition handle_incoming (p : Packet) (now : Z) : M Connection (option Packet) :=
  ok ← gets (fun c => matches_incoming c p);
  if negb ok then mret None
  else if bool_decide (packet_type p = Reset) then
    _ ← modify (set_state ResetState); mret None
  else
    _ ← absorb_acks p now;
    match packet_type p with
    | Syn => reply build_state_ack
    | UtpPacket.State => handle_state p
    | Data => handle_data p
    | Fin => handle_fin p
    | Reset => lift Panic
    end.

(** ** Sending *)

Definition sub_usize (a b : nat) : result nat := if (b <=? a)%nat then Ok (a - b)%nat else Panic.

(** Queue a packet for retransmission and advance the sequence number. *)
Definition push_flight (pkt : Packet) (now : Z) : M Connection unit :=
  _ ← modify (fun c => set_in_flight (in_flight c ++ [mkInFlight (next_seq_nr c) now INITIAL_RTO pkt]) c);
  modify (fun c => set_next_seq_nr (wadd (next_seq_nr c) 1) c).

Definition outgoing (t : PacketType) (body : Payload) (c : Connection) : Packet :=
  mkPacket t (send_id c) 0 0 (recv_window c) (next_seq_nr c) (peer_seq_nr_acked c) [] body.

(** The packetizing loop; each round moves at least a byte out of the buffer, or
    leaves. *)
Fixpoint packetize (fuel : nat) (window : Z) (now : Z) (out : list Packet) : M Connection (list Packet) :=
  n ← gets out_len;
  fl ← gets in_flight;
  if negb ((0 <? n)%nat && (Z.of_nat (length fl) <? window)) then mret out
  else
    blocks ← gets out_blocks;
    match blocks with
    | [] => mret out
    | block :: rest =>
        match fuel with
        | O => lift NoFuel
        | S fuel' =>
            head ← gets out_head;
            avail ← lift (sub_usize (length block) head);
            let take := Nat.min avail (Z.to_nat MAX_DATA_PAYLOAD) in
            let body := payload_slice block head take in
            _ ← modify (set_out_head (head + take));
            n' ← lift (sub_usize n take);
            _ ← modify (set_out_len n');
            _ ← (if (length block <=? head + take)%nat
                 then _ ← modify (set_out_blocks rest); modify (set_out_head 0) else mret tt);
            pkt ← gets (outgoing Data body);
            _ ← push_flight pkt now;
            packetize fuel' window now (out ++ [pkt])
        end
    end.

(** The fast retransmit: refresh the parked packet, if still in flight. *)
Definition fast_retransmit (now : Z) : M Connection (list Packet) :=
  s ← gets fast_rtx_seq;
  _ ← modify (set_fast_rtx_seq None);
  match s with
  | None => mret []
  | Some seq =>
      fl ← gets in_flight;
      acked ← gets peer_seq_nr_acked;
      match list_find (fun e => if_seq_nr e = seq) fl with
      | None => mret []
      | Some (i, e) =>
          let pkt := packet e in
          let pkt := mkPacket (packet_type pkt) (connection_id pkt) (timestamp_micros pkt)
                       (timestamp_diff_micros pkt) (wnd_size pkt) (seq_nr pkt) acked
                       (extensions pkt) (payload pkt) in
          _ ← modify (set_in_flight (<[i := mkInFlight (if_seq_nr e) now (rto e) pkt]> fl));
          mret [pkt]
      end
  end.

Definition pending_send_packets (now : Z) : M Connection (list Packet) :=
  closed ← gets is_closed;
  if closed : bool then mret []
  else
    st ← gets state;
    if bool_decide (st = SynSent) || bool_decide (st = SynReceived) then mret []
    else
      out ← fast_retransmit now;
      window ← gets (fun c => default INITIAL_WINDOW_PACKETS (window_packets (cc c)));
      fuel ← gets out_len;
      out ← packetize fuel window now out;
      st ← gets state;
      n ← gets out_len;
      fl ← gets in_flight;
      if bool_decide (st = FinSent) && (n =? 0)%nat &&
         negb (existsb (fun e => bool_decide (packet_type (packet e) = Fin)) fl) then
        pkt ← gets (outgoing Fin empty);
        _ ← push_flight pkt now;
        mret (out ++ [pkt])
      else mret out.

(** One entry of the retransmit scan. *)
Definition retransmit (acked now : Z) (e : InFlight) : InFlight * option Packet :=
  if rto e <=? duration_since now (send_time e) then
    let pkt := packet e in
    let pkt := mkPacket (packet_type pkt) (connection_id pkt) (timestamp_micros pkt)
                 (timestamp_diff_micros pkt) (wnd_size pkt) (seq_nr pkt) acked
                 (extensions pkt) (payload pkt) in
    (mkInFlight (if_seq_nr e) now (Z.min (rto e * 2) MAX_RTO) pkt, Some pkt)
  else (e, None).

Definition tick (now : Z) : M Connection (list Packet) :=
  closed ← gets is_closed;
  if closed : bool then mret []
  else
    d ← gets deadline;
    if d <=? now then _ ← modify (set_state ResetState); mret []
    else
      fl ← gets in_flight;
      acked ← gets peer_seq_nr_acked;
      let r := retransmit acked now <$> fl in
      _ ← modify (set_in_flight (fst <$> r));
      mret (omap snd r).

(** ** Sequence numbers *)

Lemma wsub_wrap a b : wsub (wrap 16 a) (wrap 16 b) = wrap 16 (a - b).
Proof. unfold wsub, wrap. by rewrite <- Zminus_mod. Qed.

Lemma wadd_wrap a b : wadd (wrap 16 a) b = wrap 16 (a + b).
Proof. unfold wadd, wrap. by rewrite Zplus_mod_idemp_l. Qed.

(** The 16-bit comparison decides the order of absolute positions that are less than
    half the sequence space apart. *)
Lemma seq_le_abs a b : -32768 < b - a <= 32768 -> seq_le (wrap 16 a) (wrap 16 b) = (a <=? b).
Proof.
  intros H. unfold seq_le. rewrite wsub_wrap. pose proof (wrap_range 16 (b - a) ltac:(lia)) as R.
  destruct (Z.leb_spec a b).
  - rewrite wrap_small by lia. apply andb_true_iff. rewrite !Z.leb_le. lia.
  - unfold wrap. replace (b - a) with (b - a + 2 ^ 16 + (-1) * 2 ^ 16) by lia.
    rewrite Z.mod_add, Z.mod_small by lia. apply andb_false_iff. right. apply Z.leb_gt. lia.
Qed.

Lemma dist_abs a b : 0 <= a - b < 65536 -> wsub (wrap 16 a) (wrap 16 b) = a - b.
Proof. intros H. rewrite wsub_wrap. apply wrap_small. lia. Qed.

(** ** Ordered maps *)

Section ZMap.
Context {V : Type} (P : Z * V -> Prop).

Lemma zm_insert_Forall k v m : Forall P m -> P (k, v) -> Forall P (zm_insert k v m).
Proof.
  intros Hm Hk. induction m as [|[k' v'] m IH]; cbn; [by constructor|].
  apply list.Forall_cons in Hm as [H1 H2].
  destruct (k =? k'); [by constructor|]. destruct (k <? k'); repeat constructor; auto.
Qed.

Lemma zm_remove_Forall k m : Forall P m -> Forall P (zm_remove k m).
Proof.
  intros Hm. induction m as [|[k' v'] m IH]; cbn; [done|].
  apply list.Forall_cons in Hm as [H1 H2]. destruct (k =? k'); [done|]. constructor; auto.
Qed.

Lemma zm_get_Forall k v m : Forall P m -> zm_get k m = Some v -> P (k, v).
Proof.
  intros Hm. induction m as [|[k' v'] m IH]; cbn; [done|].
  apply list.Forall_cons in Hm as [H1 H2]. destruct (Z.eqb_spec k k') as [->|]; [by intros [= ->]|auto].
Qed.
End ZMap.

(** The keys of a [BTreeMap] strictly increase. *)
Fixpoint zm_sorted {V} (lo : option Z) (m : list (Z * V)) : Prop :=
  match m with
  | [] => True
  | (k, _) :: m' => match lo with Some l => l < k | None => True end /\ zm_sorted (Some k) m'
  end.

Lemma zm_sorted_get {V} l k (m : list (Z * V)) : zm_sorted (Some l) m -> k <= l -> zm_get k m = None.
Proof.
  revert l. induction m as [|[k' v] m IH]; intros l; cbn; [done|]. intros [H1 H2] Hk.
  destruct (Z.eqb_spec k k'); [lia|]. apply (IH k'); [done|lia].
Qed.

Lemma zm_sorted_weaken {V} lo lo' (m : list (Z * V)) :
  zm_sorted (Some lo) m -> lo' <= lo -> zm_sorted (Some lo') m.
Proof. destruct m as [|[k v] m]; cbn; [done|]. intros [H1 H2] H. split; [lia|done]. Qed.

Lemma zm_insert_sorted {V} lo k (v : V) m :
  zm_sorted lo m -> match lo with Some l => l < k | None => True end -> zm_sorted lo (zm_insert k v m).
Proof.
  revert lo. induction m as [|[k' v'] m IH]; intros lo; cbn; [done|]. intros [H1 H2] Hk.
  destruct (Z.eqb_spec k k') as [->|]; [done|]. destruct (Z.ltb_spec k k'); cbn; [done|].
  split; [done|]. apply IH; [done|lia].
Qed.

Lemma zm_remove_sorted {V} lo k (m : list (Z * V)) : zm_sorted lo m -> zm_sorted lo (zm_remove k m).
Proof.
  revert lo. induction m as [|[k' v'] m IH]; intros lo; cbn; [done|]. intros [H1 H2].
  destruct (k =? k'); [|by split; auto].
  destruct lo as [l|]; [by eapply zm_sorted_weaken; [done|lia]|]. by destruct m as [|[? ?] ?]; [|destruct H2].
Qed.

Lemma length_zm_insert {V} lo k (v : V) m : zm_sorted lo m ->
  length (zm_insert k v m) = if bool_decide (is_Some (zm_get k m)) then length m else S (length m).
Proof.
  revert lo. induction m as [|[k' v'] m IH]; intros lo; cbn; [done|]. intros [H1 H2].
  destruct (Z.eqb_spec k k') as [->|]; [done|]. destruct (Z.ltb_spec k k'); cbn.
  - rewrite (zm_sorted_get k' k m H2) by lia. done.
  - rewrite (IH _ H2). by case_bool_decide.
Qed.

Lemma length_zm_remove {V} k (m : list (Z * V)) v :
  zm_get k m = Some v -> S (length (zm_remove k m)) = length m.
Proof.
  induction m as [|[k' v'] m IH]; cbn; [done|]. destruct (k =? k'); [done|]. intros H. cbn. by rewrite IH.
Qed.

(** ** Acknowledgements touch the sending side only *)

Definition payload_ok (p : Payload) : Prop := is_ok (as_slice p) = true.
Definition flight_ok (fl : list InFlight) : Prop := Forall (fun e => payload_ok (payload (packet e))) fl.

Lemma plen_ok p : payload_ok p -> exists n, plen p = Ok n.
Proof. unfold payload_ok, plen. destruct (as_slice p); [|done..]. intros _. cbn. eauto. Qed.

Lemma sum_res_ok fl : flight_ok fl -> exists n, sum_res (fun e => plen (payload (packet e))) fl = Ok n.
Proof.
  induction 1 as [|e fl He Hfl IH]; cbn; [eauto|].
  destruct (plen_ok _ He) as [n ->]. destruct IH as [m ->]. cbn. eauto.
Qed.

Lemma pop_acked_ok ack fl : flight_ok fl ->
  exists n rest, pop_acked ack fl = Ok (n, rest) /\ flight_ok rest /\ rest `suffix_of` fl.
Proof.
  induction 1 as [|e fl He Hfl IH]; cbn;
    [exists 0%nat, []; split; [done|]; split; [by constructor|by exists []]|].
  destruct (seq_le (if_seq_nr e) ack).
  - destruct (plen_ok _ He) as [n ->]. destruct IH as (m & rest & -> & H1 & H2). cbn.
    do 2 eexists. split; [done|]. split; [done|]. by apply suffix_cons_r.
  - do 2 eexists. split; [done|]. split; [by constructor|done].
Qed.

(** [c'] is [c] up to the fields acknowledgements may change. *)
Definition tx_change (c c' : Connection) : Prop :=
  exists fl conf fr lf w, fl `sublist_of` in_flight c /\
    c' = mkConn (state c) (send_id c) (recv_id c) (next_seq_nr c) (peer_seq_nr_acked c) (out_blocks c)
           (out_head c) (out_len c) (in_buf c) (peer_logical_acked c) (pending_in c) fl (accept_token c)
           conf (deadline c) fr lf w.

Lemma tx_change_refl c : tx_change c c.
Proof.
  exists (in_flight c), (return_path_confirmed c), (fast_rtx_seq c), (last_fast_rtx_seq c), (cc c).
  split; [done|by destruct c].
Qed.

Lemma tx_change_trans c1 c2 c3 : tx_change c1 c2 -> tx_change c2 c3 -> tx_change c1 c3.
Proof.
  intros (fl & conf & fr & lf & w & H1 & ->) (fl' & conf' & fr' & lf' & w' & H2 & ->). cbn in *.
  do 5 eexists. split; [|done]. by etrans.
Qed.

Lemma flight_ok_sub fl fl' : flight_ok fl -> fl' `sublist_of` fl -> flight_ok fl'.
Proof. unfold flight_ok. rewrite !list.Forall_forall. intros H S e He. apply H. eapply elem_of_submseteq; [exact He|]. by apply sublist_submseteq. Qed.

Lemma process_sack_tx ack mask c : flight_ok (in_flight c) ->
  exists c' n, process_sack ack mask c = (c', Ok n) /\ tx_change c c'.
Proof.
  intros Hfl. unfold process_sack. msteps.
  set (gone := filter _ (in_flight c)). set (kept := filter (fun e => sacked mask (wadd ack 2) (if_seq_nr e) = false) _).
  assert (flight_ok gone) as Hg.
  { eapply flight_ok_sub; [done|]. apply sublist_filter. }
  assert (kept `sublist_of` in_flight c) as Hk by apply sublist_filter.
  destruct (sum_res_ok gone Hg) as [n ->]. cbn beta iota.
  clearbody kept. clearbody gone.
  destruct (3 <=? _); [destruct kept as [|e k]; [|destruct (negb _)]|];
    (do 2 eexists; split; [done|]); do 5 eexists; (split; [exact Hk|done]).
Qed.

Lemma accept_gate_tx p c :
  exists c', accept_gate p c = (c', Ok tt) /\ tx_change c c' /\ in_flight c' = in_flight c.
Proof.
  unfold accept_gate. msteps.
  destruct (_ && _); [destruct (accept_token c) as [t|]; [destruct (_ && _)|]|];
    (eexists; split; [done|]; split; [|done]); try apply tx_change_refl.
  do 5 eexists. split; [|done]. done.
Qed.

Lemma absorb_acks_tx p now c : flight_ok (in_flight c) ->
  exists c', absorb_acks p now c = (c', Ok tt) /\ tx_change c c'.
Proof.
  intros Hfl. unfold absorb_acks. msteps.
  destruct (pop_acked_ok (ack_nr p) _ Hfl) as (n & rest & -> & Hr & Hsuf). cbn beta iota.
  set (c1 := set_in_flight rest c).
  assert (tx_change c c1) as T1.
  { do 5 eexists. split; [|done]. destruct Hsuf as [k ->]. by apply sublist_inserts_l. }
  destruct (accept_gate_tx p c1) as (c2 & -> & T2 & E2). cbn beta iota.
  assert (flight_ok (in_flight c2)) as Hf2 by (by rewrite E2).
  assert (exists c3 m, absorb_sack p n c2 = (c3, Ok m) /\ tx_change c2 c3) as (c3 & m & -> & T3).
  { unfold absorb_sack. destruct (list_find _ _) as [[i e]|].
    - destruct (process_sack_tx (ack_nr p) (data e) c2 Hf2) as (c3 & m & E & T3). msteps. rewrite E. eauto.
    - exists c2, n. split; [done|apply tx_change_refl]. }
  cbn beta iota. unfold absorb_delay.
  pose proof (tx_change_trans _ _ _ (tx_change_trans _ _ _ T1 T2) T3) as T.
  destruct (0 <? m)%nat; (eexists; split; [done|]); [|done].
  eapply tx_change_trans; [exact T|]. do 5 eexists. split; [|done]. done.
Qed.

(** ** In-order delivery

    The peer's stream is [chunk 1], [chunk 2], ...: the payload of its [k]-th DATA
    packet, whose sequence number is [s0 + k] on 16 bits. *)

Section Delivery.
Context (s0 : Z) (chunk : nat -> bytes).

(** The first [n] chunks. *)
Definition stream (n : nat) : bytes := flat_map chunk (seq 1 n).

Lemma stream_S n : stream (S n) = stream n ++ chunk (S n).
Proof. unfold stream. rewrite seq_S, flat_map_app. cbn. by rewrite app_nil_r. Qed.

Definition stash_ok (m : list (Z * Payload)) : Prop :=
  Forall (fun kv => as_slice (snd kv) = Ok (chunk (Z.to_nat (fst kv)))) m.

(** After [n] delivered packets, [taken] being what the application already read. *)
Definition rx_ok (c : Connection) (n : nat) (taken : bytes) : Prop :=
  peer_logical_acked c = Z.of_nat n /\ peer_seq_nr_acked c = wrap 16 (s0 + Z.of_nat n) /\
  taken ++ in_buf c = stream n /\ stash_ok (pending_in c) /\ flight_ok (in_flight c).

Lemma rx_ok_tx c c' n taken : tx_change c c' -> rx_ok c n taken -> rx_ok c' n taken.
Proof.
  intros (fl & conf & fr & lf & w & Hsub & ->) (H1 & H2 & H3 & H4 & H5).
  split_and!; try done. cbn. by eapply flight_ok_sub.
Qed.

(** Deliver one more chunk. *)
Lemma rx_ok_deliver c n taken m :
  rx_ok c n taken -> stash_ok m ->
  rx_ok (set_peer_logical_acked (Z.of_nat (S n))
          (set_peer_seq_nr_acked (wrap 16 (s0 + Z.of_nat (S n)))
            (set_in_buf (in_buf c ++ chunk (S n)) (set_pending_in m c)))) (S n) taken.
Proof.
  intros (H1 & H2 & H3 & H4 & H5) Hm. split_and!; try done.
  change (taken ++ (in_buf c ++ chunk (S n)) = stream (S n)). by rewrite app_assoc, H3, stream_S.
Qed.

Lemma drain_loop_rx fuel : forall c n taken,
  rx_ok c n taken -> (length (pending_in c) <= fuel)%nat -> Z.of_nat n + Z.of_nat fuel < 2 ^ 64 - 1 ->
  exists c' n', drain_loop fuel c = (c', Ok tt) /\ rx_ok c' n' taken /\ (n <= n' <= n + fuel)%nat /\
    state c' = state c /\ in_flight c' = in_flight c.
Proof.
  induction fuel as [|fuel IH]; intros c n taken Hrx Hf Hn; pose proof Hrx as (H1 & H2 & H3 & H4 & H5);
  cbn [drain_loop]; msteps; (destruct (negb _); [exists c, n; split_and!; try done; lia|]);
  rewrite H1, checked_small by lia; cbn beta iota;
  destruct (zm_get _ (pending_in c)) as [p|] eqn:E; try (exists c, n; split_and!; try done; lia).
  { destruct (pending_in c); [done|cbn in Hf; lia]. }
  apply (zm_get_Forall _ _ _ _ H4) in E as Ep. cbn [fst snd] in Ep. rewrite Ep. cbn beta iota.
  replace (Z.to_nat (Z.of_nat n + 1)) with (S n) by lia.
  set (m := zm_remove _ (pending_in c)).
  set (c1 := set_peer_logical_acked _ _).
  assert (c1 = set_peer_logical_acked (Z.of_nat (S n))
          (set_peer_seq_nr_acked (wrap 16 (s0 + Z.of_nat (S n)))
            (set_in_buf (in_buf c ++ chunk (S n)) (set_pending_in m c)))) as Ec1.
  { subst c1. cbn [peer_seq_nr_acked set_in_buf set_pending_in]. rewrite H2, wadd_wrap. replace (s0 + Z.of_nat n + 1) with (s0 + Z.of_nat (S n)) by lia.
    by replace (Z.of_nat n + 1) with (Z.of_nat (S n)) by lia. }
  destruct (IH c1 (S n) taken) as (c' & n' & E' & R & Hle & S1 & S2).
  - rewrite Ec1. apply rx_ok_deliver; [done|]. subst m. by apply zm_remove_Forall.
  - rewrite Ec1. cbn. subst m. pose proof (length_zm_remove _ _ _ E). lia.
  - lia.
  - exists c', n'. rewrite Ec1 in S1, S2. split_and!; try done; lia.
Qed.

(** A DATA packet of the peer, near enough to the delivery frontier that its
    16-bit number is unambiguous. *)
Definition honest_data (c : Connection) (p : Packet) (n k : nat) : Prop :=
  (1 <= k)%nat /\ seq_nr p = wrap 16 (s0 + Z.of_nat k) /\
  -32768 <= Z.of_nat k - Z.of_nat n <= 32767 /\ as_slice (payload p) = Ok (chunk k).

Lemma handle_data_rx c p n k taken :
  rx_ok c n taken -> honest_data c p n k -> Z.of_nat n + Z.of_nat (length (pending_in c)) < 2 ^ 63 ->
  exists c' n' r, handle_data p c = (c', Ok r) /\ rx_ok c' n' taken /\ (n <= n')%nat /\
    (k = S n -> Z.of_nat (length (in_buf c)) < RECV_WINDOW_BYTES -> (S n <= n')%nat).
Proof.
  intros Hrx (Hk1 & Hseq & Hwin & Hpay) Hn. pose proof Hrx as (H1 & H2 & H3 & H4 & H5).
  unfold handle_data, reply. msteps. rewrite H2, Hseq.
  assert (seq_le (wrap 16 (s0 + Z.of_nat k)) (wrap 16 (s0 + Z.of_nat n)) = (k <=? n)%nat) as ->.
  { rewrite seq_le_abs by lia. destruct (Z.leb_spec (s0 + Z.of_nat k) (s0 + Z.of_nat n)), (Nat.leb_spec k n); lia. }
  destruct (Nat.leb_spec k n) as [Hle|Hgt].
  { exists c, n. eexists. split; [done|]. split; [done|]. lia. }
  rewrite dist_abs by lia. replace (s0 + Z.of_nat k - (s0 + Z.of_nat n)) with (Z.of_nat k - Z.of_nat n) by lia.
  destruct (Z.eqb_spec (Z.of_nat k - Z.of_nat n) 1) as [Hd|Hd].
  - destruct (Z.leb_spec RECV_WINDOW_BYTES (Z.of_nat (length (in_buf c)))).
    { exists c, n. eexists. split; [done|]. split; [done|]. lia. }
    rewrite Hpay. cbn beta iota. replace k with (S n) in * by lia.
    set (c1 := set_peer_logical_acked _ _).
    assert (c1 = set_peer_logical_acked (Z.of_nat (S n))
          (set_peer_seq_nr_acked (wrap 16 (s0 + Z.of_nat (S n)))
            (set_in_buf (in_buf c ++ chunk (S n)) (set_pending_in (pending_in c) c)))) as Ec1.
    { subst c1. cbn [peer_logical_acked set_peer_seq_nr_acked set_in_buf]. rewrite H1, wrap_small by lia.
      by replace (Z.of_nat n + 1) with (Z.of_nat (S n)) by lia. }
    unfold drain_pending_in. msteps.
    destruct (drain_loop_rx (length (pending_in c1)) c1 (S n) taken) as (c' & n' & E & R & Hle & _).
    + rewrite Ec1. by apply rx_ok_deliver.
    + done.
    + rewrite Ec1. cbn. lia.
    + rewrite E. cbn beta iota. exists c', n'. eexists. split; [done|]. split; [done|]. lia.
  - rewrite H1, checked_small by lia. cbn beta iota.
    destruct (_ || _); cbn beta iota.
    + eexists _, n, _. split; [done|]. split; [|lia]. split_and!; try done. cbn.
      apply zm_insert_Forall; [done|]. cbn. by replace (Z.to_nat _) with k by lia.
    + exists c, n. eexists. split; [done|]. split; [done|]. lia.
Qed.
End Delivery.

(** ** The send queue *)

(** Application bytes accepted and not yet packetized. *)
Definition unsent (c : Connection) : bytes := drop (out_head c) (concat (out_blocks c)).

Definition tx_ok (c : Connection) : Prop :=
  out_len c = length (unsent c) /\ Forall (fun b => b <> []) (out_blocks c) /\
  match out_blocks c with [] => out_head c = 0%nat | b :: _ => (out_head c < length b)%nat end /\
  0 <= next_seq_nr c < 2 ^ 16.

Definition body_of (p : Packet) : bytes := match as_slice (payload p) with Ok b => b | _ => [] end.

(** A DATA packet the sender may produce. *)
Definition data_packet (c : Connection) (seq : Z) (p : Packet) : Prop :=
  packet_type p = Data /\ connection_id p = send_id c /\ seq_nr p = seq /\
  ack_nr p = peer_seq_nr_acked c /\ payload_ok (payload p) /\
  (1 <= length (body_of p))%nat /\ Z.of_nat (length (body_of p)) <= MAX_DATA_PAYLOAD.

(** [pkts] are consecutive DATA packets from sequence number [seq]. *)
Fixpoint data_run (c : Connection) (seq : Z) (pkts : list Packet) : Prop :=
  match pkts with
  | [] => True
  | p :: pkts' => data_packet c seq p /\ data_run c (wadd seq 1) pkts'
  end.

(** [c'] is [c] up to the send queue, the retransmit queue and the next number. *)
Definition q_change (c c' : Connection) : Prop :=
  exists nx ob oh ol fl fr,
    c' = mkConn (state c) (send_id c) (recv_id c) nx (peer_seq_nr_acked c) ob oh ol (in_buf c)
           (peer_logical_acked c) (pending_in c) fl (accept_token c) (return_path_confirmed c)
           (deadline c) fr (last_fast_rtx_seq c) (cc c).

Lemma q_change_refl c : q_change c c.
Proof.
  exists (next_seq_nr c), (out_blocks c), (out_head c), (out_len c), (in_flight c), (fast_rtx_seq c).
  by destruct c.
Qed.

Lemma q_change_trans c1 c2 c3 : q_change c1 c2 -> q_change c2 c3 -> q_change c1 c3.
Proof. intros (?&?&?&?&?&?&->) (?&?&?&?&?&?&->). do 6 eexists. done. Qed.

Lemma enqueue_tx block c : tx_ok c ->
  exists c' r, enqueue_send_block block c = (c', Ok r) /\ tx_ok c' /\ q_change c c' /\
    unsent c' = unsent c ++ (if r then block else []) /\ in_flight c' = in_flight c /\
    next_seq_nr c' = next_seq_nr c.
Proof.
  intros Htx. pose proof Htx as (H1 & H2 & H3 & H4). unfold enqueue_send_block. msteps.
  assert (exists c' r', (c, Ok false) = (c', Ok r') /\ tx_ok c' /\ q_change c c' /\
    unsent c' = unsent c ++ (if r' then block else []) /\ in_flight c' = in_flight c /\
    next_seq_nr c' = next_seq_nr c) as Href.
  { exists c, false. rewrite app_nil_r. split_and!; try done. apply q_change_refl. }
  set (c' := set_out_blocks (out_blocks c ++ [block]) (set_out_len (out_len c + length block) c)).
  assert (unsent c' = unsent c ++ block) as Eu.
  { unfold unsent, c'. cbn. rewrite concat_app. cbn. rewrite app_nil_r. apply drop_app_le.
    destruct (out_blocks c); cbn; [lia|rewrite length_app; lia]. }
  assert (length block <> 0%nat -> tx_ok c') as Hok.
  { intros Hb. split; [rewrite Eu, length_app, <- H1; done|]. split; cbn.
    - apply list.Forall_app. split; [done|]. constructor; [|done]. by intros ->.
    - split; [|done]. destruct (out_blocks c); cbn; [rewrite H3; lia|done]. }
  destruct (state c); try exact Href;
  (destruct (Nat.eqb_spec (length block) 0) as [E0|E0]; [exact Href|]; cbn beta iota;
   exists c', true; split; [done|]; split; [by apply Hok|]; split; [do 6 eexists; done|done]).
Qed.

(** One round of the loop takes the next [take] bytes of the front block. *)
Lemma unsent_cons (b rest : bytes) head take :
  (head + take <= length b)%nat ->
  drop head (b ++ rest) = slice b head take ++ drop (head + take) (b ++ rest).
Proof.
  intros H. rewrite <- (drop_drop (b ++ rest)). rewrite <- (firstn_skipn take (drop head (b ++ rest))) at 1.
  f_equal. unfold slice. rewrite drop_app_le by lia. apply take_app_le. rewrite length_drop. lia.
Qed.

(** The connection after the front block gave [take] bytes to a packet. *)
Definition after_take (c : Connection) (block : bytes) (rest : list bytes) (take : nat) (body : Payload) (now : Z)
  : Connection :=
  let c1 := set_out_len (out_len c - take) (set_out_head (out_head c + take) c) in
  let c2 := if (length block <=? out_head c + take)%nat then set_out_head 0 (set_out_blocks rest c1) else c1 in
  let pkt := outgoing Data body c2 in
  set_next_seq_nr (wadd (next_seq_nr c2) 1)
    (set_in_flight (in_flight c2 ++ [mkInFlight (next_seq_nr c2) now INITIAL_RTO pkt]) c2).

Lemma after_take_ok c block rest take body now :
  tx_ok c -> out_blocks c = block :: rest -> (1 <= take)%nat -> (out_head c + take <= length block)%nat ->
  let c' := after_take c block rest take body now in
  tx_ok c' /\ q_change c c' /\ unsent c = slice block (out_head c) take ++ unsent c' /\
  out_len c' = (out_len c - take)%nat /\ next_seq_nr c' = wadd (next_seq_nr c) 1.
Proof.
  intros (H1 & H2 & H3 & H4) Eb T1 T2 c'. pose proof (wrap_range 16 (next_seq_nr c + 1) ltac:(lia)) as Hw.
  assert (unsent c = slice block (out_head c) take ++ drop (out_head c + take) (block ++ concat rest)) as Eun
    by (unfold unsent; rewrite Eb; by apply unsent_cons).
  assert (length (slice block (out_head c) take) = take) as Ls by (apply length_slice; lia).
  rewrite Eb in H2, H3. apply list.Forall_cons in H2 as [Hb Hr].
  assert (out_len c = (take + length (drop (out_head c + take) (block ++ concat rest)))%nat) as Hol
    by (rewrite H1, Eun, length_app, Ls; done).
  subst c'. unfold after_take. destruct (Nat.leb_spec (length block) (out_head c + take)) as [Hfull|Hpart].
  - assert (drop (out_head c + take) (block ++ concat rest) = concat rest) as Ed
      by (rewrite drop_app_ge by lia; by replace (_ - _)%nat with 0%nat by lia).
    rewrite Ed in *. split_and!; cbn; [split_and!|do 6 eexists; done| | |done]; cbn; try done; try (unfold wadd; lia).
    + rewrite Hol. unfold unsent. cbn. rewrite drop_0. lia.
    + destruct rest as [|b r]; [done|]. apply list.Forall_cons in Hr as [Hb' _]. destruct b; [done|cbn; lia].
  - split_and!; cbn; [split_and!|do 6 eexists; done| | |done]; cbn; rewrite ?Eb; try done; try (unfold wadd; lia).
    + rewrite Hol. unfold unsent. cbn. rewrite ?Eb. cbn. lia.
    + by constructor.
Qed.

Definition as_flight (now : Z) (p : Packet) : InFlight := mkInFlight (seq_nr p) now INITIAL_RTO p.

Lemma slice_body block head take :
  (head + take <= length block)%nat -> as_slice (payload_slice block head take) = Ok (slice block head take).
Proof.
  intros H. unfold as_slice, payload_slice. cbn. rewrite slice_range_Ok by lia.
  by replace (head + take - head)%nat with take by lia.
Qed.

Lemma data_run_q c c' seq pkts : q_change c c' -> data_run c' seq pkts -> data_run c seq pkts.
Proof.
  intros Hq. revert seq. induction pkts as [|p pkts IH]; intros seq; [done|]. cbn. intros [Hp Hr].
  split; [|auto]. destruct Hq as (?&?&?&?&?&?&->). exact Hp.
Qed.

(** What the packetizing loop does: it cuts the unsent bytes into consecutive DATA
    packets of 1 to [MAX_DATA_PAYLOAD] bytes, queues each for retransmission and stops
    only when all is sent or the window is full. *)
Definition packetized (window now : Z) (c c' : Connection) (pkts : list Packet) : Prop :=
  tx_ok c' /\ q_change c c' /\
  concat (body_of <$> pkts) ++ unsent c' = unsent c /\ data_run c (next_seq_nr c) pkts /\
  in_flight c' = in_flight c ++ (as_flight now <$> pkts) /\
  (pkts = [] \/ Z.of_nat (length (in_flight c')) <= window) /\
  (unsent c' = [] \/ window <= Z.of_nat (length (in_flight c'))) /\
  next_seq_nr c' = wrap 16 (next_seq_nr c + Z.of_nat (length pkts)).

Lemma packetized_stop window now c : tx_ok c ->
  (unsent c = [] \/ window <= Z.of_nat (length (in_flight c))) -> packetized window now c c [].
Proof.
  intros Htx Hs. unfold packetized. cbn [fmap list_fmap concat length]. rewrite app_nil_r.
  split_and!; try done; [apply q_change_refl|by left|].
  destruct Htx as (_ & _ & _ & H). rewrite wrap_small; cbn; lia.
Qed.

Lemma after_take_flight c block rest take body now :
  let c' := after_take c block rest take body now in
  let pkt := outgoing Data body (set_out_len (out_len c - take) (set_out_head (out_head c + take) c)) in
  in_flight c' = in_flight c ++ [as_flight now pkt] /\ outgoing Data body c = pkt.
Proof. cbn zeta. unfold after_take. by destruct (_ <=? _)%nat. Qed.

Lemma packetize_step fuel window now out c block rest :
  tx_ok c -> out_blocks c = block :: rest -> (0 < out_len c)%nat ->
  Z.of_nat (length (in_flight c)) < window ->
  let take := Nat.min (length block - out_head c) (Z.to_nat MAX_DATA_PAYLOAD) in
  let body := payload_slice block (out_head c) take in
  packetize (S fuel) window now out c =
    packetize fuel window now (out ++ [outgoing Data body c]) (after_take c block rest take body now) /\
  data_packet c (next_seq_nr c) (outgoing Data body c) /\
  (1 <= take)%nat /\ (out_head c + take <= length block)%nat /\ as_slice body = Ok (slice block (out_head c) take).
Proof.
  intros (H1 & H2 & H3 & H4) Eb Hpos Hw take body. rewrite Eb in H3.
  assert ((1 <= take)%nat /\ (out_head c + take <= length block)%nat /\ Z.of_nat take <= MAX_DATA_PAYLOAD)
    as (T1 & T2 & T3) by (unfold take, MAX_DATA_PAYLOAD; lia).
  assert (take <= out_len c)%nat as T4.
  { rewrite H1. unfold unsent. rewrite Eb. cbn. rewrite length_drop, length_app. lia. }
  assert (as_slice body = Ok (slice block (out_head c) take)) as Hbody by (by apply slice_body).
  assert (body_of (outgoing Data body c) = slice block (out_head c) take) as Hbo
    by (unfold body_of; cbn [outgoing payload]; by rewrite Hbody).
  split_and!; try done.
  - cbn [packetize]. msteps. destruct (Nat.ltb_spec 0 (out_len c)); [|lia]. cbn [andb].
    destruct (Z.ltb_spec (Z.of_nat (length (in_flight c))) window); [|lia]. cbn [negb]. rewrite Eb.
    unfold sub_usize. destruct (Nat.leb_spec (out_head c) (length block)); [|lia]. cbn beta iota.
    fold take. destruct (Nat.leb_spec take (out_len c)); [|lia]. cbn beta iota.
    unfold push_flight, after_take. msteps. fold body.
    destruct (length block <=? out_head c + take)%nat; reflexivity.
  - unfold data_packet. rewrite Hbo, length_slice by lia. split_and!; try done; try lia.
    change (is_ok (as_slice body) = true). by rewrite Hbody.
Qed.

Lemma packetize_spec fuel : forall window now out c,
  tx_ok c -> (out_len c <= fuel)%nat ->
  exists c' pkts, packetize fuel window now out c = (c', Ok (out ++ pkts)) /\ packetized window now c c' pkts.
Proof.
  induction fuel as [|fuel IH]; intros window now out c Htx Hf; pose proof Htx as (H1 & H2 & H3 & H4);
  assert ((unsent c = [] \/ window <= Z.of_nat (length (in_flight c))) ->
    exists c' pkts, (c, Ok out) = (c', Ok (out ++ pkts)) /\ packetized window now c c' pkts) as Hstop
  by (intros Hs; exists c, []; rewrite app_nil_r; split; [done|by apply packetized_stop]).
  - cbn [packetize]. msteps. destruct (Nat.ltb_spec 0 (out_len c)); [lia|]. apply Hstop. left.
    apply length_zero_iff_nil. lia.
  - destruct (decide (0 < out_len c)%nat) as [Hpos|Hz]; [destruct (decide (Z.of_nat (length (in_flight c)) < window)) as [Hw|Hw]|];
      [destruct (out_blocks c) as [|block rest] eqn:Eb|..].
    + exfalso. unfold unsent in H1. rewrite Eb in H1. cbn in H1. rewrite drop_nil in H1. cbn in H1. lia.
    + destruct (packetize_step fuel window now out c block rest Htx Eb Hpos Hw) as (E & Hd & T1 & T2 & Hb).
      rewrite E. clear E. set (take := Nat.min _ _) in *. set (body := payload_slice _ _ _) in *.
      destruct (after_take_ok c block rest take body now Htx Eb T1 T2) as (A1 & A2 & A3 & A4 & A5).
      destruct (after_take_flight c block rest take body now) as [F1 F2].
      set (c1 := after_take c block rest take body now) in *. rewrite <- F2 in F1.
      destruct (IH window now (out ++ [outgoing Data body c]) c1 A1 ltac:(lia))
        as (c' & pkts & E & P1 & P2 & P3 & P4 & P5 & P6 & P7 & P8).
      exists c', (outgoing Data body c :: pkts). rewrite E, <- app_assoc. split; [done|].
      unfold packetized. cbn [fmap list_fmap concat length data_run].
      split_and!; try done.
      * by eapply q_change_trans.
      * unfold body_of at 1. cbn [outgoing payload]. rewrite Hb, <- app_assoc, P3. by rewrite A3.
      * rewrite <- A5. by eapply data_run_q.
      * rewrite P5, F1, <- app_assoc. done.
      * right. destruct P6 as [->|]; [|done]. rewrite P5, F1. cbn [fmap list_fmap]. rewrite app_nil_r, length_app. cbn. lia.
      * rewrite P8, A5. unfold wadd, wrap. rewrite Zplus_mod_idemp_l. f_equal. lia.
    + cbn [packetize]. msteps. destruct (Nat.ltb_spec 0 (out_len c)); [|lia]. cbn [andb].
      destruct (Z.ltb_spec (Z.of_nat (length (in_flight c))) window); [lia|]. apply Hstop. right. lia.
    + cbn [packetize]. msteps. destruct (Nat.ltb_spec 0 (out_len c)); [lia|]. apply Hstop. left.
      apply length_zero_iff_nil. lia.
Qed.

Lemma flight_ok_app fl fl' : flight_ok (fl ++ fl') <-> flight_ok fl /\ flight_ok fl'.
Proof. apply list.Forall_app. Qed.

Lemma data_run_flight c now pkts : forall seq, data_run c seq pkts -> flight_ok (as_flight now <$> pkts).
Proof.
  induction pkts as [|p pkts IH]; intros seq; [constructor|]. cbn. intros [Hp Hr].
  constructor; [apply Hp|by eapply IH].
Qed.

(** The fast retransmit changes one queued packet in place. *)
Lemma fast_retransmit_spec now c : flight_ok (in_flight c) ->
  exists c' pkts, fast_retransmit now c = (c', Ok pkts) /\ q_change c c' /\
    next_seq_nr c' = next_seq_nr c /\ out_blocks c' = out_blocks c /\ out_head c' = out_head c /\
    out_len c' = out_len c /\ flight_ok (in_flight c') /\ length (in_flight c') = length (in_flight c) /\
    (length pkts <= 1)%nat /\
    Forall (fun p => exists e, e ∈ in_flight c /\ seq_nr p = seq_nr (packet e) /\ payload p = payload (packet e)) pkts.
Proof.
  intros Hfl. unfold fast_retransmit. msteps. set (c1 := set_fast_rtx_seq None c).
  assert (q_change c c1) as Q1 by (do 6 eexists; done).
  destruct (fast_rtx_seq c) as [s|]; [|exists c1, []; split_and!; try done; cbn; lia].
  change (in_flight c1) with (in_flight c).
  destruct (list_find _ _) as [[i e]|] eqn:E; [|exists c1, []; split_and!; try done; cbn; lia].
  apply list_find_Some in E as (Ei & _ & _). cbn beta iota.
  eexists _, _. split; [done|]. split; [eapply q_change_trans; [exact Q1|]; do 6 eexists; done|].
  assert (payload_ok (payload (packet e))) as He.
  { unfold flight_ok in Hfl. rewrite list.Forall_lookup in Hfl. by apply (Hfl i). }
  split_and!; try done; cbn; rewrite ?length_insert; try done.
  - unfold flight_ok. apply list.Forall_insert; done.
  - constructor; [|constructor]. exists e. split; [by eapply list_elem_of_lookup_2|done].
Qed.

Lemma send_spec c now :
  tx_ok c -> flight_ok (in_flight c) -> is_closed c = false -> state c <> SynSent -> state c <> SynReceived ->
  let window := default INITIAL_WINDOW_PACKETS (window_packets (cc c)) in
  exists c' rtx new fin, pending_send_packets now c = (c', Ok (rtx ++ new ++ fin)) /\
    tx_ok c' /\ flight_ok (in_flight c') /\ q_change c c' /\
    (length rtx <= 1)%nat /\
    concat (body_of <$> new) ++ unsent c' = unsent c /\ data_run c (next_seq_nr c) new /\
    (fin = [] \/ state c = FinSent /\ unsent c' = [] /\ packet_type <$> fin = [Fin]) /\
    (new = [] \/ Z.of_nat (length (in_flight c')) <= window + 1) /\
    (unsent c' = [] \/ window <= Z.of_nat (length (in_flight c'))).
Proof.
  intros Htx Hfl Hcl Hs1 Hs2 window. unfold pending_send_packets. msteps. rewrite Hcl.
  rewrite !bool_decide_eq_false_2 by done. cbn [orb].
  destruct (fast_retransmit_spec now c Hfl) as (c1 & rtx & -> & Q1 & N1 & B1 & D1 & L1 & F1 & Le1 & R1 & _).
  cbn beta iota.
  assert (tx_ok c1 /\ unsent c1 = unsent c /\ cc c1 = cc c /\ state c1 = state c) as (Htx1 & U1 & C1 & S1).
  { destruct Hcl. unfold tx_ok, unsent in *. rewrite N1, B1, D1, L1.
    destruct Q1 as (?&?&?&?&?&?&->). done. }
  rewrite C1. fold window.
  destruct (packetize_spec (out_len c1) window now rtx c1 Htx1 ltac:(lia)) as (c2 & new & -> & P).
  destruct P as (T2 & Q2 & B2 & D2 & I2 & W2 & W2' & N2). cbn beta iota.
  assert (state c2 = state c) as S2 by (destruct Q2 as (?&?&?&?&?&?&->); done).
  assert (flight_ok (in_flight c2)) as F2.
  { rewrite I2. apply flight_ok_app. split; [done|]. by eapply data_run_flight. }
  assert (q_change c c2) as Q02 by (by eapply q_change_trans).
  assert (data_run c (next_seq_nr c) new) as D02 by (rewrite <- N1; exact (data_run_q _ _ _ _ Q1 D2)).
  rewrite S2.
  destruct (bool_decide (state c = FinSent) && (out_len c2 =? 0)%nat && _) eqn:Efin; cbn beta iota.
  - bools. rewrite Nat.eqb_eq in *. destruct T2 as (T2a & T2b & T2c & T2d).
    assert (unsent c2 = []) as U2 by (apply length_zero_iff_nil; lia).
    unfold push_flight. msteps.
    eexists _, rtx, new, [outgoing Fin empty c2]. split; [by rewrite <- app_assoc|].
    pose proof (wrap_range 16 (next_seq_nr c2 + 1) ltac:(lia)).
    split_and!; try done.
    + cbn. apply flight_ok_app. split; [done|]. repeat constructor.
    + eapply q_change_trans; [exact Q02|]. do 6 eexists. done.
    + cbn. rewrite <- U1, <- B2. done.
    + right. done.
    + destruct W2 as [->|W2]; [by left|right]. cbn. rewrite length_app. cbn. lia.
    + left. exact U2.
  - exists c2, rtx, new, []. rewrite app_nil_r. split_and!; try done.
    + by rewrite <- U1.
    + by left.
    + destruct W2 as [->|W2]; [by left|right; lia].
Qed.

(** Sending.  On an established connection [pending_send_packets] always
    returns, and what it returns is: at most one retransmission of a queued packet;
    then new DATA packets with consecutive sequence numbers, each of 1 to 1200
    bytes, whose payloads are exactly the bytes that leave the send queue, in
    order; then at most one FIN, and only when close was requested and
    nothing is left to send.  It stops short only at the congestion window. *)
Lemma utp_send_conserves c now :
  tx_ok c -> flight_ok (in_flight c) -> is_closed c = false -> state c <> SynSent -> state c <> SynReceived ->
  let window := default INITIAL_WINDOW_PACKETS (window_packets (cc c)) in
  exists c' rtx new fin, pending_send_packets now c = (c', Ok (rtx ++ new ++ fin)) /\
    tx_ok c' /\ flight_ok (in_flight c') /\ q_change c c' /\
    (length rtx <= 1)%nat /\
    concat (body_of <$> new) ++ unsent c' = unsent c /\ data_run c (next_seq_nr c) new /\
    (fin = [] \/ state c = FinSent /\ unsent c' = [] /\ packet_type <$> fin = [Fin]) /\
    (new = [] \/ Z.of_nat (length (in_flight c')) <= window + 1) /\
    (unsent c' = [] \/ window <= Z.of_nat (length (in_flight c'))).
Proof. apply send_spec. Qed.

(** ** The driver's calls *)

Inductive UOp :=
  | URecv (p : Packet) (now : Z)
  | UTake (max : nat)
  | USend (now : Z)
  | UTick (now : Z)
  | UEnqueue (b : bytes)
  | UClose.

(** Run a call; the result is the bytes it hands to the application. *)
Definition urun (op : UOp) : M Connection bytes :=
  match op with
  | URecv p now => _ ← handle_incoming p now; mret []
  | UTake max => take_received max
  | USend now => _ ← pending_send_packets now; mret []
  | UTick now => _ ← tick now; mret []
  | UEnqueue b => _ ← enqueue_send b; mret []
  | UClose => _ ← close; mret []
  end.

Lemma tick_spec now c : exists c' pkts, tick now c = (c', Ok pkts) /\
  exists st fl, c' = set_in_flight fl (set_state st c) /\ (flight_ok (in_flight c) -> flight_ok fl).
Proof.
  assert (c = set_in_flight (in_flight c) (set_state (state c) c)) as Hid by (by destruct c).
  unfold tick. msteps. destruct (is_closed c); [exists c, []; split; [done|]; by do 2 eexists|].
  destruct (deadline c <=? now).
  - eexists _, []. split; [done|]. exists ResetState, (in_flight c). done.
  - do 2 eexists. split; [done|]. exists (state c). eexists. split; [by destruct c|].
    unfold flight_ok. rewrite !list.Forall_fmap. intros H. eapply list.Forall_impl; [exact H|].
    cbn. intros e He. unfold retransmit. by destruct (_ <=? _).
Qed.

Lemma pending_send_any now c : tx_ok c -> flight_ok (in_flight c) ->
  exists c' pkts, pending_send_packets now c = (c', Ok pkts) /\ tx_ok c' /\ flight_ok (in_flight c') /\ q_change c c'.
Proof.
  intros Htx Hfl.
  assert ((is_closed c = true \/ state c = SynSent \/ state c = SynReceived) ->
    pending_send_packets now c = (c, Ok [])) as Hstop.
  { intros H. unfold pending_send_packets. msteps. destruct (is_closed c); [done|].
    destruct H as [?|[H|H]]; [done|..]; rewrite H; reflexivity. }
  destruct (is_closed c) eqn:E1; [|destruct (decide (state c = SynSent)); [|destruct (decide (state c = SynReceived))]].
  1,2,3: exists c, []; rewrite Hstop by auto; split_and!; try done; apply q_change_refl.
  destruct (send_spec c now Htx Hfl E1) as (c' & rtx & new & fin & E & H1 & H2 & H3 & _); [done..|]. eauto 10.
Qed.

(** *** The receiving side is exactly in order *)

Section InOrder.
Context (s0 : Z) (chunk : nat -> bytes).

Definition conn_ok (c : Connection) (n : nat) (taken : bytes) : Prop :=
  rx_ok s0 chunk c n taken /\ tx_ok c.

(** What is asked of an incoming packet: it may be any packet but a FIN; a DATA
    packet is one of the peer's, and the connection is established. *)
Definition good_op (c : Connection) (n : nat) (op : UOp) : Prop :=
  match op with
  | URecv p _ =>
      packet_type p <> Fin /\ (packet_type p = UtpPacket.State -> state c <> SynSent) /\
      (packet_type p = Data -> exists k, honest_data s0 chunk c p n k)
  | _ => True
  end.

Lemma rx_ok_q c c' n taken : q_change c c' -> flight_ok (in_flight c') ->
  rx_ok s0 chunk c n taken -> rx_ok s0 chunk c' n taken.
Proof. intros (?&?&?&?&?&?&->) Hf (H1 & H2 & H3 & H4 & H5). by split_and!. Qed.

Lemma tx_ok_tx c c' : tx_change c c' -> tx_ok c -> tx_ok c'.
Proof. intros (?&?&?&?&?&_&->). done. Qed.

(** Receiving DATA leaves the sending side alone. *)
Lemma drain_loop_tx fuel : forall c c', drain_loop fuel c = (c', Ok tt) -> tx_ok c -> tx_ok c'.
Proof.
  induction fuel as [|fuel IH]; intros c c'; cbn [drain_loop]; msteps; (destruct (negb _); [by intros [= <-]|]);
  (destruct (checked 64 _); [|done..]); cbn beta iota; (destruct (zm_get _ _) as [p|]; [|by intros [= <-]]); [done|].
  destruct (as_slice p); [|done..]. cbn beta iota. intros E Htx. eapply IH; [exact E|]. exact Htx.
Qed.

Lemma handle_data_tx p c c' r : handle_data p c = (c', Ok r) -> tx_ok c -> tx_ok c'.
Proof.
  unfold handle_data, reply. msteps. intros E Htx.
  destruct (seq_le _ _); [by injection E as <- _|]. destruct (_ =? 1).
  - destruct (_ <=? _); [by injection E as <- _|]. destruct (as_slice _); [|done..]. cbn beta iota in E.
    unfold drain_pending_in in E. revert E. msteps.
    match goal with |- context [drain_loop ?f ?x] => destruct (drain_loop f x) as [c1 [[]| | |]] eqn:Ed end; [|done..].
    cbn beta iota. intros [= <- _]. eapply drain_loop_tx; [exact Ed|]. exact Htx.
  - destruct (checked 64 _); [|done..]. cbn beta iota in E. destruct (_ || _); by injection E as <- _.
Qed.

Lemma urun_ok c n taken op :
  conn_ok c n taken -> good_op c n op -> Z.of_nat n + Z.of_nat (length (pending_in c)) < 2 ^ 63 ->
  exists c' n' out, urun op c = (c', Ok out) /\ conn_ok c' n' (taken ++ out) /\ (n <= n')%nat.
Proof.
  intros [Hrx Htx] Hop Hn. pose proof Hrx as (H1 & H2 & H3 & H4 & H5).
  destruct op as [p now|max|now|now|b|]; cbn [urun good_op] in *; msteps.
  - destruct Hop as (Hfin & Hst & Hdata). unfold handle_incoming. msteps.
    destruct (matches_incoming c p); cbn [negb]; [|exists c, n, []; rewrite app_nil_r; by split_and!].
    case_bool_decide; [cbn beta iota; eexists _, n, []; rewrite app_nil_r; by split_and!|].
    destruct (absorb_acks_tx p now c H5) as (c1 & -> & T1). cbn beta iota.
    pose proof (rx_ok_tx _ _ _ _ _ _ T1 Hrx) as Hrx1. pose proof (tx_ok_tx _ _ T1 Htx) as Htx1.
    assert (state c1 = state c /\ pending_in c1 = pending_in c) as [S1 P1]
      by (destruct T1 as (?&?&?&?&?&_&->); done).
    destruct (packet_type p) eqn:Ep; try done.
    + destruct (Hdata eq_refl) as [k Hk].
      destruct (handle_data_rx s0 chunk c1 p n k taken Hrx1 Hk) as (c2 & n2 & r & E & R2 & Hle & _); [by rewrite P1|].
      rewrite E. cbn beta iota. exists c2, n2, []. rewrite app_nil_r. split; [done|]. split; [|done].
      split; [done|]. by eapply handle_data_tx.
    + unfold handle_state. msteps. rewrite S1, bool_decide_eq_false_2 by auto. cbn beta iota.
      exists c1, n, []. rewrite app_nil_r. by split_and!.
    + exists c1, n, []. rewrite app_nil_r. by split_and!.
  - unfold take_received. msteps. eexists _, n, _. split; [done|]. split; [|done]. split; [|done].
    split_and!; try done. cbn. rewrite <- app_assoc, take_drop. exact H3.
  - destruct (pending_send_any now c Htx H5) as (c' & pkts & -> & T & F & Q). cbn beta iota.
    exists c', n, []. rewrite app_nil_r. split; [done|]. split; [|done]. split; [by eapply rx_ok_q|done].
  - destruct (tick_spec now c) as (c' & pkts & -> & st & fl & -> & F). cbn beta iota.
    eexists _, n, []. rewrite app_nil_r. split; [done|]. split; [|done]. split; [|done].
    split_and!; try done. cbn. auto.
  - unfold enqueue_send. destruct (length b =? 0)%nat; [msteps; exists c, n, []; rewrite app_nil_r; by split_and!|].
    msteps. destruct (enqueue_tx b c Htx) as (c' & r & -> & T & Q & _ & F & _). cbn beta iota.
    exists c', n, []. rewrite app_nil_r. split; [done|]. split; [|done]. split; [|done].
    eapply rx_ok_q; [done| |done]. by rewrite F.
  - unfold close. msteps. destruct (state c); cbn beta iota; eexists _, n, []; rewrite app_nil_r; by split_and!.
Qed.
End InOrder.
