(* ===== verification/UtpTheorems.v ===== *)
(** * What the µTP connection guarantees

    In-order delivery, the hard deadline, the accept gate, selective
    acknowledgements, memory bounds and the base delay, for the state machine of
    the file UtpConnection. *)

From Stdlib Require Import ZArith Lia String Strings.Byte.
From stdpp Require Import base tactics numbers list option.
From S2P Require Import Prelude PeerWire UtpPacket Float64 UtpConnection.

(** ** Histories *)

Fixpoint urun_all (ops : list UOp) : M Connection (list bytes) :=
  match ops with
  | [] => mret []
  | op :: ops' => out ← urun op; outs ← urun_all ops'; mret (out :: outs)
  end.

(** The delivery frontier as a number of packets. *)
Definition frontier (c : Connection) : nat := Z.to_nat (peer_logical_acked c).

(** Every call of the history is good where it is made, and the stream is not
    longer than 2^63 packets. *)
Fixpoint good_ops (s0 : Z) (chunk : nat -> bytes) (ops : list UOp) (c : Connection) : Prop :=
  match ops with
  | [] => True
  | op :: ops' =>
      good_op s0 chunk c (frontier c) op /\
      peer_logical_acked c + Z.of_nat (length (pending_in c)) < 2 ^ 63 /\
      good_ops s0 chunk ops' (fst (urun op c))
  end.

Lemma urun_all_ok s0 chunk ops : forall c n taken,
  conn_ok s0 chunk c n taken -> good_ops s0 chunk ops c ->
  exists c' n' outs, urun_all ops c = (c', Ok outs) /\ (n <= n')%nat /\
    conn_ok s0 chunk c' n' (taken ++ concat outs).
Proof.
  induction ops as [|op ops IH]; intros c n taken Hc Hg.
  { exists c, n, []. rewrite app_nil_r. done. }
  destruct Hg as (Hop & Hlim & Hg). pose proof Hc as [(HL & _) _].
  unfold frontier in Hop. rewrite HL, Nat2Z.id in Hop. rewrite HL in Hlim.
  destruct (urun_ok s0 chunk c n taken op Hc Hop Hlim) as (c1 & n1 & out & E & Hc1 & Hle).
  cbn [urun_all]. msteps. rewrite E in Hg |- *. cbn beta iota.
  destruct (IH c1 n1 (taken ++ out) Hc1 Hg) as (c2 & n2 & outs & E2 & Hle2 & Hc2).
  rewrite E2. cbn beta iota. exists c2, n2, (out :: outs). split; [done|]. split; [lia|].
  cbn. by rewrite app_assoc.
Qed.

(** C2: in-order delivery.  Let the peer's stream be any sequence of chunks, packet
    [k] carrying chunk [k] under the 16-bit number [s0 + k].  Run any history
    of an established connection: packets of the peer lost, repeated and
    reordered up to half the sequence space, across any number of
    16-bit wraps, foreign and hostile packets other than FIN and forged DATA, sends,
    timers, reads of any size.  No call panics or runs out, and the bytes the
    application has read plus those waiting for it are exactly the first [n'] chunks
    for some [n'] that never decreases: no byte is lost, repeated or
    out of place. *)
Theorem utp_in_order s0 chunk ops c n taken :
  conn_ok s0 chunk c n taken -> good_ops s0 chunk ops c ->
  exists c' n' outs, urun_all ops c = (c', Ok outs) /\ (n <= n')%nat /\
    (taken ++ concat outs) ++ in_buf c' = stream chunk n'.
Proof.
  intros Hc Hg. destruct (urun_all_ok s0 chunk ops c n taken Hc Hg) as (c' & n' & outs & E & Hle & Hc').
  exists c', n', outs. split; [done|]. split; [done|]. apply Hc'.
Qed.

Definition syn_ex : Packet := UtpPacket.new Syn 7 100 0.
Definition rx_ex : Connection :=
  match new_receiver_with_seq syn_ex 0 500 with Some (c, _) => c | None => fst (new_initiator 0 0) end.
Definition data_ex (k : Z) (b : bytes) : Packet :=
  mkPacket Data 8 0 0 0 (wrap 16 (100 + k)) 499 [] (payload_from b).
Definition chunk_ex (k : nat) : bytes := match k with 1%nat => bs "ab" | 2%nat => bs "cd" | _ => bs "ef" end.

Lemma rx_ex_ok : conn_ok 100 chunk_ex rx_ex 0 [].
Proof. repeat split; try done; try (by constructor); vm_compute; done. Qed.

Lemma utp_in_order_witness :
  exists c' n' outs,
    urun_all [URecv (data_ex 2 (bs "cd")) 5; UTick 6; URecv (data_ex 1 (bs "ab")) 7;
              URecv (data_ex 1 (bs "ab")) 8; UTake 3] rx_ex = (c', Ok outs) /\
    (0 <= n')%nat /\ ([] ++ concat outs) ++ in_buf c' = stream chunk_ex n'.
Proof.
  apply (utp_in_order 100 chunk_ex _ rx_ex 0 []); [apply rx_ex_ok|].
  cbn [good_ops good_op]. split_and!; try done; try (vm_compute; reflexivity).
  - intros _. exists 2%nat. split_and!; vm_compute; try reflexivity; lia || (intros [=]) || auto.
  - intros _. exists 1%nat. split_and!; vm_compute; try reflexivity; lia || (intros [=]) || auto.
  - intros _. exists 1%nat. split_and!; vm_compute; try reflexivity; lia || (intros [=]) || auto.
Defined.

(** Progress.  When the next expected DATA packet arrives and the application has
    left room in the receive window, it is delivered at once: the frontier passes
    it. *)
Lemma utp_gap_fill s0 chunk c p n taken :
  conn_ok s0 chunk c n taken -> honest_data s0 chunk c p n (S n) ->
  Z.of_nat n + Z.of_nat (length (pending_in c)) < 2 ^ 63 ->
  Z.of_nat (length (in_buf c)) < RECV_WINDOW_BYTES ->
  exists c' n' r, handle_data p c = (c', Ok r) /\ (S n <= n')%nat /\
    taken ++ in_buf c' = stream chunk n'.
Proof.
  intros [Hrx _] Hk Hlim Hroom.
  destruct (handle_data_rx s0 chunk c p n (S n) taken Hrx Hk Hlim) as (c' & n' & r & E & R & _ & Hp).
  exists c', n', r. split; [done|]. split; [by apply Hp|apply R].
Qed.

Lemma utp_gap_fill_witness :
  exists c' n' r, handle_data (data_ex 1 (bs "ab")) rx_ex = (c', Ok r) /\ (1 <= n')%nat /\
    [] ++ in_buf c' = stream chunk_ex n'.
Proof.
  apply (utp_gap_fill 100 chunk_ex rx_ex (data_ex 1 (bs "ab")) 0 []);
    [apply rx_ex_ok| |vm_compute; reflexivity|vm_compute; reflexivity].
  split_and!; vm_compute; try reflexivity; lia || (intros [=]) || auto.
Defined.

(** ** The hard deadline *)

(** A method that leaves [f] of the connection alone on every path. *)
Definition keeps {A T} (f : Connection -> T) (m : M Connection A) : Prop := forall c, f (fst (m c)) = f c.

Section Keeps.
Context {T : Type} (f : Connection -> T).

Lemma keeps_bind {A B} (m : M Connection A) (k : A -> M Connection B) :
  keeps f m -> (forall a, keeps f (k a)) -> keeps f (m ≫= k).
Proof.
  intros Hm Hk c. unfold mbind, M_bind. specialize (Hm c). destruct (m c) as [c1 r]. cbn in Hm.
  destruct r; [rewrite Hk|..]; done.
Qed.
Lemma keeps_ret {A} (a : A) : keeps f (mret a).
Proof. done. Qed.
Lemma keeps_gets {A} (g : Connection -> A) : keeps f (gets g).
Proof. done. Qed.
Lemma keeps_reads {A} (g : Connection -> result A) : keeps f (reads g).
Proof. done. Qed.
Lemma keeps_lift {A} (r : result A) : keeps f (lift r).
Proof. done. Qed.
Lemma keeps_modify g : (forall c, f (g c) = f c) -> keeps f (modify g).
Proof. intros H c. apply H. Qed.
End Keeps.

(** Walk a method down to its primitive steps. *)
Ltac keep :=
  repeat (first
    [ apply keeps_bind; [|intros ?]
    | apply keeps_ret | apply keeps_gets | apply keeps_reads | apply keeps_lift
    | apply keeps_modify; intros ?; reflexivity
    | match goal with
      | |- keeps _ (match ?x with _ => _ end) => destruct x
      | |- keeps _ (if ?b then _ else _) => destruct b
      end ]).

Lemma keeps_drain fuel : keeps deadline (drain_loop fuel).
Proof. induction fuel; cbn [drain_loop]; keep; done. Qed.

Lemma keeps_handle p now : keeps deadline (handle_incoming p now).
Proof.
  unfold handle_incoming, absorb_acks, accept_gate, absorb_sack, absorb_delay, process_sack, handle_state, handle_fin, handle_data, drain_pending_in, reply.
  keep. apply keeps_drain.
Qed.

Lemma keeps_packetize fuel : forall window now out, keeps deadline (packetize fuel window now out).
Proof. induction fuel as [|fuel IH]; intros; cbn [packetize]; unfold push_flight; keep; apply IH. Qed.

Lemma keeps_urun op : keeps deadline (urun op).
Proof.
  destruct op; cbn [urun]; [apply keeps_bind; [apply keeps_handle|intros; apply keeps_ret]|..];
  unfold take_received, pending_send_packets, fast_retransmit, push_flight, tick,
    enqueue_send, enqueue_send_block, close; keep; apply keeps_packetize.
Qed.

Lemma keeps_urun_all ops : keeps deadline (urun_all ops).
Proof. induction ops; cbn [urun_all]; keep; [apply keeps_urun|done]. Qed.

(** The hard deadline is fixed at creation.  No call, on any path, moves it: after
    any history whatever of packets, sends and reads, a [tick] sixty seconds or
    more after the connection was created resets it unless it is already
    closed, however healthy the traffic. *)
Lemma utp_hard_deadline recv_id t0 ops now :
  let c := fst (urun_all ops (fst (new_initiator recv_id t0))) in
  t0 + HARD_TIMEOUT <= now -> is_closed c = false ->
  tick now c = (set_state ResetState c, Ok []).
Proof.
  intros c Hnow Hcl. unfold tick. msteps. rewrite Hcl.
  assert (deadline c = t0 + HARD_TIMEOUT) as ->.
  { subst c. rewrite keeps_urun_all. done. }
  destruct (Z.leb_spec (t0 + HARD_TIMEOUT) now); [done|lia].
Qed.

Lemma utp_hard_deadline_witness :
  let c := fst (urun_all [URecv (mkPacket UtpPacket.State 7 0 0 0 500 1 [] empty) 1000;
                          UEnqueue (bs "hello"); USend 59999999999] (fst (new_initiator 7 0))) in
  tick 60000000000 c = (set_state ResetState c, Ok []).
Proof. apply utp_hard_deadline; vm_compute; [intros [=]|reflexivity]. Defined.

(** ** A FIN discards what is still missing *)

(** A FIN moves the delivery frontier to its own number whatever is missing.  With
    the frontier after packet [n], a FIN numbered beyond a gap makes every packet
    [k] of the gap, when its retransmission arrives, look already delivered: it is
    acknowledged and its bytes are dropped. *)
Lemma utp_fin_drops_gap c p fin s0 n k m :
  packet_type fin = Fin -> seq_nr fin = wrap 16 (s0 + Z.of_nat m) ->
  seq_nr p = wrap 16 (s0 + Z.of_nat k) -> (n < k < m)%nat ->
  Z.of_nat m <= Z.of_nat n + 32768 ->
  let c1 := fst (handle_fin fin c) in
  handle_data p c1 = (c1, Ok (Some (build_state_ack c1))) /\ in_buf c1 = in_buf c.
Proof.
  intros Hf Hfs Hps Hk Hm c1.
  assert (peer_seq_nr_acked c1 = wrap 16 (s0 + Z.of_nat m) /\ in_buf c1 = in_buf c) as [Ha Hb].
  { subst c1. unfold handle_fin. msteps. destruct (_ && _); by rewrite <- Hfs. }
  split; [|done]. unfold handle_data, reply. msteps. rewrite Ha, Hps, seq_le_abs by lia.
  by replace (_ <=? _) with true by (symmetry; apply Z.leb_le; lia).
Qed.

Lemma utp_fin_drops_gap_witness :
  let fin := mkPacket Fin 8 0 0 0 103 499 [] empty in
  let c1 := fst (handle_fin fin rx_ex) in
  handle_data (data_ex 2 (bs "cd")) c1 = (c1, Ok (Some (build_state_ack c1))) /\ in_buf c1 = in_buf rx_ex.
Proof. apply (utp_fin_drops_gap rx_ex _ _ 100 0 2 3); (reflexivity || lia). Defined.


(** ** The accept gate *)

Lemma seq_le_both a b : in_u 16 a = true -> in_u 16 b = true ->
  (seq_le a b && seq_le b a = true <-> b = a \/ b = wadd a 32768).
Proof.
  rewrite !in_u_spec. intros Ha Hb. unfold seq_le, wsub, wadd, wrap. rewrite !andb_true_iff, !Z.leb_le.
  assert ((b - a) mod 2 ^ 16 = (if a <=? b then b - a else b - a + 2 ^ 16)) as ->.
  { destruct (Z.leb_spec a b); [apply Z.mod_small; lia|].
    rewrite <- (Z.mod_add _ 1) by lia. apply Z.mod_small. lia. }
  assert ((a - b) mod 2 ^ 16 = (if b <=? a then a - b else a - b + 2 ^ 16)) as ->.
  { destruct (Z.leb_spec b a); [apply Z.mod_small; lia|].
    rewrite <- (Z.mod_add _ 1) by lia. apply Z.mod_small. lia. }
  assert ((a + 32768) mod 2 ^ 16 = (if a <? 32768 then a + 32768 else a - 32768)) as ->.
  { destruct (Z.ltb_spec a 32768); [apply Z.mod_small; lia|].
    rewrite <- (Z.mod_add _ (-1)) by lia. replace (a + 32768 + -1 * 2 ^ 16) with (a - 32768) by lia.
    apply Z.mod_small. lia. }
  destruct (Z.leb_spec a b), (Z.leb_spec b a), (Z.ltb_spec a 32768); lia.
Qed.

(** No later step of [handle_incoming] touches the latch. *)
Lemma keeps_latch_drain fuel : keeps return_path_confirmed (drain_loop fuel).
Proof. induction fuel; cbn [drain_loop]; keep; done. Qed.

Lemma keeps_latch p : keeps return_path_confirmed (handle_state p) /\ keeps return_path_confirmed (handle_fin p) /\
  keeps return_path_confirmed (handle_data p) /\ keeps return_path_confirmed (reply build_state_ack).
Proof.
  split_and!; unfold handle_state, handle_fin, handle_data, drain_pending_in, reply; keep.
  apply keeps_latch_drain.
Qed.

(** The gate inside [absorb_acks], on a receiver that has nothing in flight. *)
Lemma absorb_latch p t c token : in_flight c = [] -> return_path_confirmed c = false ->
  accept_token c = Some token ->
  return_path_confirmed (fst (absorb_acks p t c)) =
  negb (bool_decide (packet_type p = Syn)) &&
  (seq_le (wsub token 1) (ack_nr p) && seq_le (ack_nr p) (wsub (next_seq_nr c) 1)).
Proof.
  intros Hfl Hc Ht.
  assert (keeps return_path_confirmed (absorb_sack p 0 ≫= absorb_delay p t)) as Hk
    by (unfold absorb_sack, absorb_delay, process_sack; keep).
  transitivity (return_path_confirmed (fst (accept_gate p (set_in_flight [] c)))).
  - unfold absorb_acks. msteps. rewrite Hfl. cbn [pop_acked]. cbn beta iota.
    destruct (accept_gate_tx p (set_in_flight [] c)) as (c2 & -> & _ & _). cbn beta iota. cbn [fst].
    exact (Hk c2).
  - unfold accept_gate. msteps. cbn [return_path_confirmed set_in_flight accept_token next_seq_nr].
    rewrite Hc. cbn [negb andb]. destruct (negb _); [|done]. cbn beta iota.
    cbn [accept_token set_in_flight]. rewrite Ht. by destruct (_ && _).
Qed.

(** The accept gate.  A fresh receiver is confirmed by a packet exactly when the
    packet is addressed to it, is neither SYN nor RESET, and acknowledges the
    number just below the secret token, or the number half the sequence
    space away from it, which the 16-bit comparison cannot tell apart. *)
Lemma utp_accept_gate syn now token p t c pkt :
  new_receiver_with_seq syn now token = Some (c, pkt) -> in_u 16 token = true -> in_u 16 (ack_nr p) = true ->
  return_path_confirmed (fst (handle_incoming p t c)) = true <->
  matches_incoming c p = true /\ packet_type p <> Reset /\ packet_type p <> Syn /\
  (ack_nr p = wsub token 1 \/ ack_nr p = wadd (wsub token 1) 32768).
Proof.
  intros Hnew Htok Hack. unfold new_receiver_with_seq in Hnew. destruct (negb _); [done|].
  injection Hnew as <- _. set (c := set_state Connected _).
  assert (in_u 16 (wsub token 1) = true) as Hlo by (apply in_u_spec, wrap_range; lia).
  rewrite <- (seq_le_both _ _ Hlo Hack).
  unfold handle_incoming. msteps. destruct (matches_incoming c p); cbn [negb]; [|split; [done|intros [? _]; done]].
  case_bool_decide as Hr; [cbn; split; [done|intros (_ & ? & _); done]|].
  pose proof (absorb_latch p t c token eq_refl eq_refl eq_refl) as Hl.
  destruct (absorb_acks_tx p t c ltac:(constructor)) as (c1 & E & _). rewrite E in Hl |- *. cbn [fst] in Hl.
  cbn beta iota. destruct (keeps_latch p) as (K1 & K2 & K3 & K4).
  change (next_seq_nr c) with token in Hl.
  assert (forall A (m : M Connection A), keeps return_path_confirmed m ->
    return_path_confirmed (fst (m c1)) = true <->
    true = true /\ packet_type p <> Reset /\ packet_type p <> Syn /\
    seq_le (wsub token 1) (ack_nr p) && seq_le (ack_nr p) (wsub token 1) = true) as H.
  { intros A m Hm. rewrite (Hm c1), Hl, andb_true_iff, negb_true_iff, bool_decide_eq_false. tauto. }
  destruct (packet_type p); [by apply H|by apply H|by apply H|done|by apply H].
Qed.

Lemma utp_accept_gate_witness :
  return_path_confirmed (fst (handle_incoming (mkPacket Data 8 0 0 0 101 499 [] empty) 5 rx_ex)) = true <->
  matches_incoming rx_ex (mkPacket Data 8 0 0 0 101 499 [] empty) = true /\ Data <> Reset /\ Data <> Syn /\
  (499 = wsub 500 1 \/ 499 = wadd (wsub 500 1) 32768).
Proof.
  apply (utp_accept_gate syn_ex 0 500 (mkPacket Data 8 0 0 0 101 499 [] empty) 5 rx_ex
    (mkPacket UtpPacket.State 7 0 0 1048576 500 100 [] empty)); reflexivity.
Defined.

(** ** Selective acknowledgements *)

(** Bit [i] of a mask, least significant first. *)
Definition mask_bit (m : bytes) (i : nat) : bool :=
  match m !! (i / 8)%nat with
  | Some b => Z.testbit (b2z b) (Z.of_nat (i mod 8))
  | None => false
  end.

Lemma mask_bit_zeros m n i : mask_bit (m ++ replicate n Byte.x00) i = mask_bit m i.
Proof.
  unfold mask_bit. destruct (decide (i / 8 < length m)%nat).
  - by rewrite lookup_app_l.
  - rewrite lookup_app_r, (lookup_ge_None_2 m) by lia.
    destruct (replicate n _ !! _) eqn:E; [|done]. apply lookup_replicate in E as [-> _].
    change (b2z Byte.x00) with 0. apply Z.bits_0.
Qed.

Lemma shiftl_bit k j : 0 <= k -> 0 <= j -> Z.testbit (Z.shiftl 1 k) j = (j =? k).
Proof. intros Hk Hj. rewrite Z.shiftl_1_l, Z.pow2_bits_eqb by done. apply Z.eqb_sym. Qed.

Lemma mask_bit_or m i k :
  (i / 8 < length m)%nat ->
  mask_bit (or_at m (i / 8) (Z.shiftl 1 (Z.of_nat (i mod 8)))) k = mask_bit m k || (k =? i)%nat.
Proof.
  intros Hi. pose proof (Nat.mod_upper_bound i 8 ltac:(lia)) as Hm.
  pose proof (Nat.div_mod_eq k 8). pose proof (Nat.div_mod_eq i 8).
  unfold mask_bit, or_at. destruct (decide (k / 8 = i / 8)%nat) as [E|E].
  - rewrite E, list_lookup_alter_eq. destruct (lookup_lt_is_Some_2 m _ Hi) as [b ->].
    cbn [fmap option_fmap option_map].
    assert (0 <= Z.shiftl 1 (Z.of_nat (i mod 8)) < 256) as Hs.
    { rewrite Z.shiftl_1_l. split; [apply Z.pow_nonneg; lia|].
      change 256 with (2 ^ 8). apply Z.pow_lt_mono_r; lia. }
    rewrite b2z_z2b_small by (by apply b2z_lor_small). rewrite Z.lor_spec, shiftl_bit by lia. f_equal.
    destruct (Z.eqb_spec (Z.of_nat (k mod 8)) (Z.of_nat (i mod 8))), (Nat.eqb_spec k i); try done; [lia|congruence].
  - rewrite list_lookup_alter_ne by done. destruct (Nat.eqb_spec k i); [congruence|]. by rewrite orb_false_r.
Qed.

Lemma sack_bit_spec acked m logical i :
  (i < 512)%nat ->
  mask_bit (sack_bit acked m logical) i = mask_bit m i || (logical =? acked + 2 + Z.of_nat i).
Proof.
  intros Hi. unfold sack_bit, sat_sub, MAX_SACK_BYTES.
  destruct (Z.ltb_spec (Z.max 0 (logical - acked)) 2) as [H|H].
  { destruct (Z.eqb_spec logical (acked + 2 + Z.of_nat i)); [lia|]. by rewrite orb_false_r. }
  set (off := Z.to_nat (Z.max 0 (logical - acked) - 2)).
  assert ((logical =? acked + 2 + Z.of_nat i) = (i =? off)%nat) as ->
    by (destruct (Z.eqb_spec logical (acked + 2 + Z.of_nat i)), (Nat.eqb_spec i off); lia).
  destruct (Nat.leb_spec 64 (off / 8)%nat) as [Hb|Hb].
  { destruct (Nat.eqb_spec i off) as [->|]; [|by rewrite orb_false_r].
    pose proof (Nat.Div0.div_lt_upper_bound off 8 64). lia. }
  set (m' := if (length m <=? off / 8)%nat then _ else m).
  assert (mask_bit m' i = mask_bit m i) as <- by (subst m'; destruct (_ <=? _)%nat; [apply mask_bit_zeros|done]).
  assert (off / 8 < length m')%nat as Hl.
  { subst m'. destruct (Nat.leb_spec (length m) (off / 8)%nat); [|done]. rewrite length_app, length_replicate.
    pose proof (Nat.div_mod_eq (off / 8) 4). pose proof (Nat.mod_upper_bound (off / 8) 4). lia. }
  destruct (Nat.leb_spec (length m') (off / 8)%nat); [lia|]. by apply mask_bit_or.
Qed.

Lemma sack_fold acked keys i : (i < 512)%nat -> forall m,
  mask_bit (foldl (sack_bit acked) m keys) i =
  mask_bit m i || existsb (fun k => k =? acked + 2 + Z.of_nat i) keys.
Proof.
  intros Hi. induction keys as [|k keys IH]; intros m; cbn; [by rewrite orb_false_r|].
  rewrite IH, sack_bit_spec by done. by rewrite orb_assoc.
Qed.

(** The mask a receiver sends, empty when it sends no extension. *)
Definition sack_mask (c : Connection) : bytes :=
  match build_sack c with Some e => data e | None => [] end.

Lemma zm_get_key {V} k (m : list (Z * V)) :
  existsb (fun x => x =? k) (fst <$> m) = bool_decide (is_Some (zm_get k m)).
Proof.
  induction m as [|[k' v] m IH]; cbn; [done|].
  destruct (Z.eqb_spec k k') as [->|]; [by rewrite Z.eqb_refl|].
  by destruct (Z.eqb_spec k' k); [congruence|].
Qed.

Lemma all_zero_bits m i : forallb (fun b => b2z b =? 0) m = true -> mask_bit m i = false.
Proof.
  rewrite forallb_Forall_iff, Forall_lookup. intros H. unfold mask_bit.
  destruct (m !! (i / 8)%nat) eqn:E; [|done]. apply H, Z.eqb_eq in E as ->. apply Z.bits_0.
Qed.

Lemma sack_mask_bit c i : (i < 512)%nat ->
  mask_bit (sack_mask c) i = bool_decide (is_Some (zm_get (peer_logical_acked c + 2 + Z.of_nat i) (pending_in c))).
Proof.
  intros Hi. unfold sack_mask, build_sack. rewrite <- zm_get_key.
  destruct (Nat.eqb_spec (length (pending_in c)) 0) as [E|E]; [by destruct (pending_in c)|].
  assert (mask_bit (foldl (sack_bit (peer_logical_acked c)) (replicate 4 Byte.x00) (fst <$> pending_in c)) i =
    existsb (fun x => x =? peer_logical_acked c + 2 + Z.of_nat i) (fst <$> pending_in c)) as Hb.
  { rewrite sack_fold by done. change (replicate 4 Byte.x00) with ([] ++ replicate 4 Byte.x00).
    by rewrite mask_bit_zeros. }
  destruct (forallb _ _) eqn:Ez; cbn [data]; [|exact Hb].
  rewrite <- Hb, (all_zero_bits _ _ Ez). unfold mask_bit. by rewrite lookup_nil.
Qed.

Lemma sacked_bit mask base seq : sacked mask base seq = mask_bit mask (Z.to_nat (wsub seq base)).
Proof.
  unfold sacked, mask_bit. set (i := Z.to_nat (wsub seq base)). destruct (mask !! (i / 8)%nat) as [b|]; [|done].
  change 1 with (Z.ones 1) at 1. rewrite (Z.land_ones _ 1) by lia.
  rewrite Z.testbit_eqb, Z.shiftr_div_pow2 by lia. done.
Qed.

Lemma length_sack_bit acked m k : (length m <= 64)%nat -> (length (sack_bit acked m k) <= 64)%nat.
Proof.
  intros Hm. unfold sack_bit, MAX_SACK_BYTES. destruct (_ <? 2); [done|].
  set (b := (Z.to_nat (sat_sub k acked - 2) / 8)%nat). destruct (Nat.leb_spec 64 b); [done|].
  destruct (Nat.leb_spec (length m) b) as [H1|H1].
  - set (m' := m ++ _). assert (length m' <= 64)%nat
      by (subst m'; rewrite length_app, length_replicate; lia).
    destruct (Nat.leb_spec (length m') b); [done|]. by rewrite length_or_at.
  - destruct (Nat.leb_spec (length m) b); [done|]. by rewrite length_or_at.
Qed.

Lemma length_sack_mask c : (length (sack_mask c) <= 64)%nat.
Proof.
  assert (forall keys m, (length m <= 64)%nat ->
    (length (foldl (sack_bit (peer_logical_acked c)) m keys) <= 64)%nat) as H.
  { induction keys as [|k keys IH]; intros m Hm; cbn; [done|]. by apply IH, length_sack_bit. }
  unfold sack_mask, build_sack. destruct (_ =? _)%nat; [cbn; lia|].
  destruct (forallb _ _); cbn [data length]; [lia|]. apply H. cbn. lia.
Qed.

Lemma sack_mask_far c i : (512 <= i)%nat -> mask_bit (sack_mask c) i = false.
Proof.
  intros Hi. unfold mask_bit. rewrite lookup_ge_None_2; [done|].
  pose proof (length_sack_mask c). assert (64 <= i / 8)%nat by (apply Nat.div_le_lower_bound; lia). lia.
Qed.

Lemma process_sack_flight ack mask c : flight_ok (in_flight c) ->
  in_flight (fst (process_sack ack mask c)) =
  filter (fun e => sacked mask (wadd ack 2) (if_seq_nr e) = false) (in_flight c).
Proof.
  intros Hfl. unfold process_sack. msteps. set (gone := filter _ (in_flight c)).
  assert (flight_ok gone) as Hg.
  { eapply flight_ok_sub; [done|]. apply sublist_filter. }
  destruct (sum_res_ok gone Hg) as [n ->]. cbn beta iota.
  set (kept := filter (fun e => sacked mask (wadd ack 2) (if_seq_nr e) = false) _). clearbody kept.
  destruct (3 <=? _); [|done]. destruct kept; [done|]. by destruct (negb _).
Qed.

(** Selective acknowledgement is exact.  Take a receiver with frontier [n] and a
    sender that applies the receiver's mask: of the packets in flight less than
    half the sequence space from the frontier, the sender drops packet [k] from its
    retransmit queue if and only if the receiver holds [k] in its
    reorder buffer within the 512 packets the mask can express.  So no packet the
    receiver lacks is ever dropped, across the 16-bit wrap included. *)
Lemma utp_sack_exact s0 n c cs e k :
  peer_logical_acked c = n -> 0 <= n -> flight_ok (in_flight cs) ->
  e ∈ in_flight cs -> if_seq_nr e = wrap 16 (s0 + k) -> -32768 <= k - n <= 32767 ->
  e ∉ in_flight (fst (process_sack (wrap 16 (s0 + n)) (sack_mask c) cs)) <->
  is_Some (zm_get k (pending_in c)) /\ n + 2 <= k < n + 514.
Proof.
  intros Hn Hn0 Hfl He Hseq Hwin. rewrite process_sack_flight by done.
  rewrite list_elem_of_filter, sacked_bit, Hseq, wadd_wrap, wsub_wrap.
  replace (s0 + k - (s0 + n + 2)) with (k - n - 2) by lia.
  assert (mask_bit (sack_mask c) (Z.to_nat (wrap 16 (k - n - 2))) = true <->
    is_Some (zm_get k (pending_in c)) /\ n + 2 <= k < n + 514) as H.
  { destruct (decide (n + 2 <= k)) as [Hk|Hk].
    - rewrite wrap_small by lia. destruct (decide (k < n + 514)) as [Hk'|Hk'].
      + rewrite sack_mask_bit, bool_decide_eq_true by lia. rewrite Hn.
        replace (n + 2 + Z.of_nat (Z.to_nat (k - n - 2))) with k by lia. intuition lia.
      + rewrite sack_mask_far by lia. intuition (done || lia).
    - assert (wrap 16 (k - n - 2) = k - n - 2 + 65536) as ->.
      { unfold wrap. rewrite <- (Z.mod_add _ 1) by lia. apply Z.mod_small. lia. }
      rewrite sack_mask_far by lia. intuition (done || lia). }
  destruct (mask_bit _ _); [|split; [intros H0; exfalso; by apply H0|intros ?%H; done]].
  split; [intros _; by apply H|]. intros _ [? _]. done.
Qed.

Definition flight_ex (k : Z) : InFlight := mkInFlight (wrap 16 (65534 + k)) 0 INITIAL_RTO (data_ex k []).

Lemma utp_sack_exact_witness :
  let c := set_pending_in [(3, empty)] (set_peer_logical_acked 1 rx_ex) in
  let cs := set_in_flight [flight_ex 2; flight_ex 3] rx_ex in
  flight_ex 3 ∉ in_flight (fst (process_sack (wrap 16 (65534 + 1)) (sack_mask c) cs)) <->
  is_Some (zm_get 3 (pending_in c)) /\ 1 + 2 <= 3 < 1 + 514.
Proof.
  apply utp_sack_exact; [reflexivity|lia|repeat constructor| |reflexivity|lia].
  right. left.
Defined.

(** ** Receive memory *)

(** The receive buffers of a connection whose packets carry at most [B] bytes. *)
Definition rx_bounded (B : Z) (c : Connection) : Prop :=
  Z.of_nat (length (in_buf c)) < RECV_WINDOW_BYTES + B /\
  Forall (fun kv => exists d, as_slice (snd kv) = Ok d /\ Z.of_nat (length d) <= B) (pending_in c) /\
  zm_sorted None (pending_in c) /\ Z.of_nat (length (pending_in c)) <= MAX_PENDING_IN.

Lemma drain_bounded B fuel : 0 <= B -> forall c, rx_bounded B c -> rx_bounded B (fst (drain_loop fuel c)).
Proof.
  intros HB. induction fuel as [|fuel IH]; intros c Hc; pose proof Hc as (H1 & H2 & H3 & H4);
  cbn [drain_loop]; msteps; (destruct (negb _) eqn:Ew; [done|]);
  (destruct (checked 64 _) as [k| | |]; [|done..]); cbn beta iota;
  (destruct (zm_get _ _) as [p|] eqn:E; [|done]); [done|].
  destruct (zm_get_Forall _ _ _ _ H2 E) as (d & Ed & Ld). cbn in Ed. rewrite Ed. cbn beta iota.
  apply IH. bools. rewrite Z.ltb_lt in Ew. split_and!; cbn.
  - rewrite length_app. lia.
  - by apply zm_remove_Forall.
  - by apply zm_remove_sorted.
  - pose proof (length_zm_remove _ _ _ E). lia.
Qed.

(** Bounded receive memory.  Whatever packets arrive, honest or hostile, of at most
    [B] payload bytes each, the bytes waiting for the application stay below
    the receive window plus one packet, and the reorder buffer never holds more
    than [MAX_PENDING_IN] packets.  (The two bounds add: together they
    exceed the window by far more than the one packet the comment on
    [RECV_WINDOW_BYTES] allows.) *)
Lemma utp_memory_bounded B c p d :
  0 <= B -> rx_bounded B c -> as_slice (payload p) = Ok d -> Z.of_nat (length d) <= B ->
  rx_bounded B (fst (handle_data p c)).
Proof.
  intros HB Hc Hd Ld. pose proof Hc as (H1 & H2 & H3 & H4). unfold handle_data, reply. msteps.
  destruct (seq_le _ _); [done|]. destruct (_ =? 1).
  - destruct (Z.leb_spec RECV_WINDOW_BYTES (Z.of_nat (length (in_buf c)))); [done|].
    rewrite Hd. cbn beta iota. unfold drain_pending_in. msteps.
    match goal with |- context [drain_loop ?f ?x] =>
      pose proof (drain_bounded B f HB x) as Hdr; destruct (drain_loop f x) as [c1 r] end.
    assert (rx_bounded B c1) as Hc1.
    { apply Hdr. split_and!; try done. cbn. rewrite length_app. lia. }
    by destruct r.
  - destruct (checked 64 _) as [k| | |]; [|done..]. cbn beta iota.
    destruct (bool_decide (is_Some (zm_get k (pending_in c))) || _) eqn:E; [|done].
    split_and!; try done; cbn.
    + apply zm_insert_Forall; [done|]. exists d. done.
    + by apply zm_insert_sorted.
    + rewrite (length_zm_insert None) by done. case_bool_decide; [done|].
      cbn [orb] in E. apply Z.ltb_lt in E. lia.
Qed.

Lemma utp_memory_bounded_witness : rx_bounded 1200 (fst (handle_data (data_ex 9 (bs "xyz")) rx_ex)).
Proof.
  apply (utp_memory_bounded 1200 rx_ex (data_ex 9 (bs "xyz")) (bs "xyz")); [done| |done|done].
  split_and!; [done|by constructor|done|done].
Defined.

(** ** The base delay of LEDBAT *)

Lemma foldl_min_le l : forall x, foldl Z.min x l <= x /\ (forall y, y ∈ l -> foldl Z.min x l <= y).
Proof.
  induction l as [|y l IH]; intros x; cbn; [split; [lia|]; by intros y ?%not_elem_of_nil|].
  destruct (IH (Z.min x y)) as [H1 H2]. split; [lia|].
  intros z [->|Hz]%elem_of_cons; [lia|auto].
Qed.

Lemma list_min_le l y : y ∈ l -> exists m, list_min l = Some m /\ m <= y.
Proof.
  destruct l as [|x l]; [by intros ?%not_elem_of_nil|]. cbn. intros H. eexists. split; [done|].
  destruct (foldl_min_le l x) as [H1 H2]. apply elem_of_cons in H as [->|H]; auto.
Qed.

Lemma push_slots_spec n x : forall h, (length h <= BASE_DELAY_SLOTS)%nat ->
  (length (push_slots n x h) <= BASE_DELAY_SLOTS)%nat /\ ((0 < n)%nat -> x ∈ push_slots n x h).
Proof.
  assert (forall k h, (length h <= BASE_DELAY_SLOTS)%nat -> x ∈ h \/ (0 < k)%nat ->
    (length (push_slots k x h) <= BASE_DELAY_SLOTS)%nat /\ ((0 < k)%nat -> x ∈ push_slots k x h)) as H.
  { induction k as [|k IH]; intros h Hh Hx; cbn [push_slots]; [split; [done|lia]|].
    set (h' := if (BASE_DELAY_SLOTS <? length (h ++ [x]))%nat then tail (h ++ [x]) else h ++ [x]).
    assert ((length h' <= BASE_DELAY_SLOTS)%nat /\ x ∈ h') as [Hl Hin].
    { subst h'. destruct (Nat.ltb_spec BASE_DELAY_SLOTS (length (h ++ [x]))) as [Hlt|Hge].
      - destruct h as [|y h]; [cbn in Hlt; unfold BASE_DELAY_SLOTS in Hlt; lia|]. cbn in *.
        rewrite length_app in *. cbn in *. split; [lia|]. apply elem_of_app. right. by left.
      - split; [done|]. apply elem_of_app. right. by left. }
    destruct k as [|k]; [cbn; done|].
    destruct (IH h' Hl (or_intror (Nat.lt_0_succ k))) as [G1 G2]. split; [done|]. intros _. apply G2. lia. }
  intros h Hh. destruct n as [|n]; [split; [done|lia]|]. apply H; [done|right; lia].
Qed.

Lemma min_back_spec x h : (length h <= BASE_DELAY_SLOTS)%nat ->
  (length (min_back x h) <= BASE_DELAY_SLOTS)%nat /\ exists y, y ∈ min_back x h /\ y <= x.
Proof.
  intros Hh. unfold min_back. destruct (h !! pred (length h)) as [cur|] eqn:E.
  - apply lookup_lt_Some in E as Hlt. split; [by rewrite length_insert|].
    exists (Z.min cur x). split; [|lia]. apply list_elem_of_lookup_2 with (pred (length h)).
    by apply list_lookup_insert_eq.
  - apply lookup_ge_None in E. destruct h; [|cbn in E; lia]. cbn. unfold BASE_DELAY_SLOTS. split; [lia|].
    exists x. split; [by left|lia].
Qed.

(** The history of a controller: bounded, and empty before the first sample. *)
Definition ledbat_ok (l : Ledbat) : Prop :=
  (length (base_history l) <= BASE_DELAY_SLOTS)%nat /\ (cur_slot_start l = None -> base_history l = []).

(** The base delay.  Folding a sample into the history keeps at most
    [BASE_DELAY_SLOTS] slots, makes the floor the minimum with the sample, and the
    base it returns lies between the all-time floor and the sample, so the
    queuing delay computed from it is never negative and never saturates. *)
Lemma ledbat_base_bounds sample now l :
  ledbat_ok l ->
  let '(l', base) := update_base sample now l in
  ledbat_ok l' /\ exists floor, fixed_floor l' = Some floor /\
    floor = match fixed_floor l with Some f => Z.min f sample | None => sample end /\
    floor <= base <= sample.
Proof.
  intros [Hl Hn]. unfold update_base.
  set (floor := match fixed_floor l with Some f => Z.min f sample | None => sample end).
  assert (floor <= sample) as Hf by (subst floor; destruct (fixed_floor l); lia).
  set (hs := match cur_slot_start l with None => _ | Some start => _ end).
  assert ((length (fst hs) <= BASE_DELAY_SLOTS)%nat /\ snd hs <> None /\ exists y, y ∈ fst hs /\ y <= sample)
    as (G1 & G2 & y & G3 & G4).
  { subst hs. destruct (cur_slot_start l) as [start|] eqn:Es.
    - destruct (BASE_DELAY_SLOT <=? _); cbn [fst snd].
      + set (k := Z.to_nat _). assert (0 < k)%nat as Hk by (subst k; lia).
        destruct (push_slots_spec k sample (base_history l) Hl) as [H1 H2]. split_and!; [done..|].
        exists sample. split; [by apply H2|lia].
      + destruct (min_back_spec sample (base_history l) Hl) as [H1 H2]. done.
    - cbn [fst snd]. rewrite (Hn eq_refl). cbn. unfold BASE_DELAY_SLOTS. split_and!; [lia|done|].
      exists sample. split; [by left|lia]. }
  destruct hs as [hist slot]. cbn [fst snd] in *.
  destruct (list_min_le hist y G3) as (m & -> & Hm). cbn [from_option id].
  split; [split; [done|]; cbn; intros ->; done|]. exists floor. split_and!; try done; lia.
Qed.

Lemma ledbat_base_bounds_witness :
  let '(l', base) := update_base 25000 7 ledbat_new in
  ledbat_ok l' /\ exists floor, fixed_floor l' = Some floor /\ floor = 25000 /\ floor <= base <= 25000.
Proof.
  apply (ledbat_base_bounds 25000 7 ledbat_new). split; [cbn; unfold BASE_DELAY_SLOTS; lia|done].
Defined.

(** ** A full receive buffer strands the next stashed packet *)

Lemma keeps_front_packetize fuel : forall window now out,
  keeps peer_logical_acked (packetize fuel window now out).
Proof. induction fuel as [|fuel IH]; intros; cbn [packetize]; unfold push_flight; keep; apply IH. Qed.

(** A call that does not deliver the packet after the frontier again. *)
Definition not_next (c : Connection) (op : UOp) : Prop :=
  match op with
  | URecv p _ => packet_type p = Data -> wsub (seq_nr p) (peer_seq_nr_acked c) <> 1
  | _ => True
  end.

Lemma keeps_front_absorb p now : keeps peer_logical_acked (absorb_acks p now).
Proof. unfold absorb_acks, accept_gate, absorb_sack, absorb_delay, process_sack. keep. Qed.

Lemma keeps_seq_absorb p now : keeps peer_seq_nr_acked (absorb_acks p now).
Proof. unfold absorb_acks, accept_gate, absorb_sack, absorb_delay, process_sack. keep. Qed.

Lemma handle_data_front p c : wsub (seq_nr p) (peer_seq_nr_acked c) <> 1 ->
  peer_logical_acked (fst (handle_data p c)) = peer_logical_acked c.
Proof.
  intros Hne. unfold handle_data, reply. msteps. destruct (seq_le _ _); [done|].
  destruct (Z.eqb_spec (wsub (seq_nr p) (peer_seq_nr_acked c)) 1); [done|].
  destruct (checked 64 _); [|done..]. cbn beta iota. by destruct (_ || _).
Qed.

(** Once the next packet is in the reorder buffer behind a full receive buffer,
    nothing but a retransmission of that very packet moves the delivery frontier: not
    the application reading everything, not timers, not any other packet, whatever is
    stashed.  (A sender that saw the packet acknowledged selectively has dropped it
    and never retransmits it, so the stream stalls.) *)
Lemma utp_stash_stalls c op :
  not_next c op -> peer_logical_acked (fst (urun op c)) = peer_logical_acked c.
Proof.
  destruct op as [p now|max|now|now|b|]; cbn [urun not_next]; intros Hn.
  - msteps. unfold handle_incoming. msteps. destruct (negb _); [done|]. destruct (bool_decide _); [done|].
    pose proof (keeps_front_absorb p now c) as K1. pose proof (keeps_seq_absorb p now c) as K2.
    destruct (absorb_acks p now c) as [c1 [[]| | |]]; [|done..]. cbn [fst] in K1, K2. cbn beta iota.
    rewrite <- K1. rewrite <- K2 in Hn.
    assert (forall m : M Connection (option Packet), keeps peer_logical_acked m ->
      peer_logical_acked (fst (match m c1 with
        | (s', Ok _) => (s', Ok []) | (s', Err e) => (s', Err e)
        | (s', Panic) => (s', Panic) | (s', NoFuel) => (s', NoFuel) end : Connection * result bytes)) =
      peer_logical_acked c1) as Hk.
    { intros m Hm. specialize (Hm c1). destruct (m c1) as [c2 [| | |]]; exact Hm. }
    destruct (packet_type p) eqn:Ep;
      [|apply Hk; unfold handle_fin; keep|apply Hk; unfold handle_state; keep|done
       |apply (Hk (reply build_state_ack)); unfold reply; keep].
    pose proof (handle_data_front p c1 (Hn eq_refl)) as Hd.
    destruct (handle_data p c1) as [c2 [| | |]]; exact Hd.
  - done.
  - revert c Hn. intros c _. revert c.
    change (keeps peer_logical_acked (pending_send_packets now ≫= fun _ => mret (M:=M Connection) ([] : bytes))).
    unfold pending_send_packets, fast_retransmit, push_flight. keep. apply keeps_front_packetize.
  - revert c Hn. intros c _. revert c.
    change (keeps peer_logical_acked (tick now ≫= fun _ => mret (M:=M Connection) ([] : bytes))).
    unfold tick. keep.
  - revert c Hn. intros c _. revert c.
    change (keeps peer_logical_acked (enqueue_send b ≫= fun _ => mret (M:=M Connection) ([] : bytes))).
    unfold enqueue_send, enqueue_send_block. keep.
  - revert c Hn. intros c _. revert c.
    change (keeps peer_logical_acked (close ≫= fun _ => mret (M:=M Connection) ([] : bytes))).
    unfold close. keep.
Qed.

Lemma utp_stash_stalls_witness :
  let c := set_pending_in [(1, payload_from (bs "ab"))] rx_ex in
  peer_logical_acked (fst (urun (URecv (data_ex 2 (bs "cd")) 9) c)) = peer_logical_acked c.
Proof. apply utp_stash_stalls. intros _. vm_compute. discriminate. Defined.

Lemma utp_send_conserves_witness :
  let c := set_out_len 5 (set_out_blocks [bs "hello"] rx_ex) in
  exists c' rtx new fin, pending_send_packets 3 c = (c', Ok (rtx ++ new ++ fin)) /\
    tx_ok c' /\ flight_ok (in_flight c') /\ q_change c c' /\
    (length rtx <= 1)%nat /\
    concat (body_of <$> new) ++ unsent c' = unsent c /\ data_run c (next_seq_nr c) new /\
    (fin = [] \/ state c = FinSent /\ unsent c' = [] /\ packet_type <$> fin = [Fin]) /\
    (new = [] \/ Z.of_nat (length (in_flight c')) <=
       default INITIAL_WINDOW_PACKETS (window_packets (cc c)) + 1) /\
    (unsent c' = [] \/ default INITIAL_WINDOW_PACKETS (window_packets (cc c)) <= Z.of_nat (length (in_flight c'))).
Proof.
  apply utp_send_conserves; [|constructor|reflexivity|discriminate|discriminate].
  split_and!; [reflexivity|by constructor|vm_compute; lia|done|done].
Defined.
