(* ===== verification/Net.v ===== *)
(** * Addresses and the dial policy: [src/src/util.rs]

    The part of [std::net] the program uses (addresses, their predicates, the
    text form), and the filter that decides which addresses learned from
    untrusted sources may be dialled.  The filter is shown equal to a table of
    address blocks in CIDR form. *)

From Stdlib Require Import ZArith Lia String Strings.Byte.
From stdpp Require Import base tactics numbers list option countable.
From S2P Require Import Prelude.

(** ** [std::net] *)

Inductive IpAddr :=
  | IpV4 (a b c d : byte)
  | IpV6 (octets : bytes).

(** [SocketAddrV6] also carries a flow label and a scope. *)
Record SocketAddr := mkAddr { sa_ip : IpAddr; sa_port : Z; sa_flow : Z; sa_scope : Z }.

(** [SocketAddr::new] *)
Definition sock_addr (ip : IpAddr) (port : Z) : SocketAddr := mkAddr ip port 0 0.

#[export] Instance IpAddr_eq_dec : EqDecision IpAddr.
Proof. solve_decision. Defined.
#[export] Instance SocketAddr_eq_dec : EqDecision SocketAddr.
Proof. solve_decision. Defined.

#[export] Instance byte_countable : Countable byte.
Proof.
  refine (inj_countable' (fun b => Byte.to_N b) (fun n => default x00 (Byte.of_N n)) _).
  intros b. by rewrite Byte.of_to_N.
Defined.

#[export] Instance IpAddr_countable : Countable IpAddr.
Proof.
  refine (inj_countable'
    (fun ip => match ip with IpV4 a b c d => inl (a, b, c, d) | IpV6 o => inr o end)
    (fun s => match s with inl (a, b, c, d) => IpV4 a b c d | inr o => IpV6 o end) _).
  by intros [].
Defined.

#[export] Instance SocketAddr_countable : Countable SocketAddr.
Proof.
  refine (inj_countable' (fun a => (sa_ip a, sa_port a, sa_flow a, sa_scope a))
    (fun '(i, p, f, s) => mkAddr i p f s) _).
  by intros [].
Defined.

(** What the types hold: sixteen octets, a 16-bit port, and an IPv4 address has
    neither flow label nor scope. *)
Definition ip_ok (ip : IpAddr) : bool :=
  match ip with IpV4 _ _ _ _ => true | IpV6 o => (length o =? 16)%nat end.

Definition is_ipv4 (a : SocketAddr) : bool := match sa_ip a with IpV4 _ _ _ _ => true | _ => false end.

Definition addr_ok (a : SocketAddr) : bool :=
  ip_ok (sa_ip a) && in_u 16 (sa_port a)
  && (negb (is_ipv4 a) || (sa_flow a =? 0) && (sa_scope a =? 0)).

(** [Ipv4Addr::octets] and [Ipv6Addr::octets] *)
Definition octets (ip : IpAddr) : bytes :=
  match ip with IpV4 a b c d => [a; b; c; d] | IpV6 o => o end.

(** [Ipv6Addr::segments] *)
Fixpoint segments (o : bytes) : list Z :=
  match o with
  | a :: b :: r => (b2z a * 256 + b2z b) :: segments r
  | _ => []
  end.

Definition is_loopback (ip : IpAddr) : bool :=
  match ip with
  | IpV4 a _ _ _ => b2z a =? 127
  | IpV6 o => bool_decide (segments o = [0; 0; 0; 0; 0; 0; 0; 1])
  end.

Definition is_unspecified (ip : IpAddr) : bool :=
  match ip with
  | IpV4 a b c d => (b2z a =? 0) && (b2z b =? 0) && (b2z c =? 0) && (b2z d =? 0)
  | IpV6 o => bool_decide (segments o = [0; 0; 0; 0; 0; 0; 0; 0])
  end.

Definition is_multicast (ip : IpAddr) : bool :=
  match ip with
  | IpV4 a _ _ _ => (224 <=? b2z a) && (b2z a <=? 239)
  | IpV6 o => match segments o with s0 :: _ => Z.land s0 0xff00 =? 0xff00 | [] => false end
  end.

Definition v4_is_broadcast (a b c d : byte) : bool :=
  (b2z a =? 255) && (b2z b =? 255) && (b2z c =? 255) && (b2z d =? 255).
Definition v4_is_link_local (a b : byte) : bool := (b2z a =? 169) && (b2z b =? 254).
Definition v4_is_documentation (a b c : byte) : bool :=
  ((b2z a =? 192) && (b2z b =? 0) && (b2z c =? 2))
  || ((b2z a =? 198) && (b2z b =? 51) && (b2z c =? 100))
  || ((b2z a =? 203) && (b2z b =? 0) && (b2z c =? 113)).
Definition v4_is_private (a b : byte) : bool :=
  (b2z a =? 10) || ((b2z a =? 172) && (16 <=? b2z b) && (b2z b <=? 31))
  || ((b2z a =? 192) && (b2z b =? 168)).

Definition v6_is_unicast_link_local (s0 : Z) : bool := Z.land s0 0xffc0 =? 0xfe80.
Definition v6_is_unique_local (s0 : Z) : bool := Z.land s0 0xfe00 =? 0xfc00.

(** [Ipv6Addr::to_ipv4_mapped]: [::ffff:a.b.c.d]. *)
Definition to_ipv4_mapped (o : bytes) : option IpAddr :=
  match drop 12 o with
  | [a; b; c; d] =>
      if bool_decide (take 12 o = replicate 10 x00 ++ [xff; xff]) then Some (IpV4 a b c d) else None
  | _ => None
  end.

(** ** The policy ([util.rs]) *)

(** An IPv4-mapped address is judged as the IPv4 address the kernel dials. *)
Definition log_canonical_ip (ip : IpAddr) : IpAddr :=
  match ip with
  | IpV6 o => match to_ipv4_mapped o with Some v4 => v4 | None => ip end
  | v4 => v4
  end.

Definition v4_dialable (a b c d : byte) (strict : bool) : bool :=
  let o0 := b2z a in let o1 := b2z b in let o2 := b2z c in
  let cgnat := (o0 =? 100) && (64 <=? o1) && (o1 <=? 127) in
  let benchmarking := (o0 =? 198) && (18 <=? o1) && (o1 <=? 19) in
  let reserved := (Z.land o0 0xF0 =? 240) && negb (v4_is_broadcast a b c d) in
  let this_network := o0 =? 0 in
  let ietf_protocols := (o0 =? 192) && (o1 =? 0) && (o2 =? 0) in
  let six_to_four_relay := (o0 =? 192) && (o1 =? 88) && (o2 =? 99) in
  negb (v4_is_broadcast a b c d || v4_is_link_local a b || cgnat || benchmarking
        || v4_is_documentation a b c || reserved || this_network || ietf_protocols
        || six_to_four_relay || (strict && v4_is_private a b)).

Definition v6_dialable (o : bytes) (strict : bool) : bool :=
  let segs := segments o in
  let s i := default 0 (segs !! i) in
  let nat64 := (s 0%nat =? 0x64) && (s 1%nat =? 0xff9b) && (s 2%nat =? 0) && (s 3%nat =? 0) in
  let nat64_local_use := (s 0%nat =? 0x64) && (s 1%nat =? 0xff9b) && (s 2%nat =? 1) in
  let six_to_four := s 0%nat =? 0x2002 in
  let teredo := (s 0%nat =? 0x2001) && (s 1%nat =? 0) in
  let doc6 := (s 0%nat =? 0x2001) && (s 1%nat =? 0x0db8) in
  let zeronet6 := forallb (fun x => x =? 0) (take 7 segs) in
  let discard_only := (s 0%nat =? 0x0100) && (s 1%nat =? 0) && (s 2%nat =? 0) && (s 3%nat =? 0) in
  let ietf_protocols6 := (s 0%nat =? 0x2001) && (s 1%nat =? 1) in
  let benchmarking6 := (s 0%nat =? 0x2001) && (s 1%nat =? 2) && (s 2%nat =? 0) in
  let orchid := (s 0%nat =? 0x2001) && (Z.land (s 1%nat) 0xfff0 =? 0x0010) in
  let amt := (s 0%nat =? 0x2001) && (s 1%nat =? 3) in
  let as112v6 := (s 0%nat =? 0x2001) && (s 1%nat =? 4) && (s 2%nat =? 0x112) in
  let orchid_v2 := (s 0%nat =? 0x2001) && (Z.land (s 1%nat) 0xfff0 =? 0x0020) in
  let drone_rta := (s 0%nat =? 0x2001) && (Z.land (s 1%nat) 0xfff0 =? 0x0030) in
  negb nat64 && negb nat64_local_use && negb six_to_four && negb teredo && negb doc6
  && negb ietf_protocols6 && negb benchmarking6 && negb orchid && negb amt && negb as112v6
  && negb orchid_v2 && negb drone_rta && negb zeronet6 && negb discard_only
  && negb (v6_is_unicast_link_local (s 0%nat)) && negb (strict && v6_is_unique_local (s 0%nat)).

Definition is_dialable_ip (ip : IpAddr) (strict : bool) : bool :=
  let ip := match ip with
            | IpV4 _ _ _ _ => ip
            | IpV6 o => match to_ipv4_mapped o with Some v4 => v4 | None => ip end
            end in
  if is_loopback ip || is_unspecified ip || is_multicast ip then false
  else match ip with
       | IpV4 a b c d => v4_dialable a b c d strict
       | IpV6 o => v6_dialable o strict
       end.

Definition is_dialable_peer_addr (addr : SocketAddr) (strict : bool) : bool :=
  is_dialable_ip (sa_ip addr) strict.

Definition is_dialable_resolved_ip (ip : IpAddr) (strict : bool) : bool :=
  let ip := match ip with
            | IpV6 o => match to_ipv4_mapped o with Some v4 => v4 | None => ip end
            | v4 => v4
            end in
  if is_loopback ip then true else is_dialable_ip ip strict.

Definition filter_dialable_addrs (addrs : list SocketAddr) (strict : bool) : result (list SocketAddr) :=
  let kept := List.filter (fun a => is_dialable_resolved_ip (sa_ip a) strict) addrs in
  if (length kept =? 0)%nat then Err (ETracker "announce host resolved only to refused addresses")
  else Ok kept.

Definition is_safe_dial_target (addr : SocketAddr) (strict : bool) : bool :=
  if is_loopback (sa_ip addr) then true else is_dialable_peer_addr addr strict.

(** ** The policy as a table of blocks *)

(** The value of a list of [w]-bit digits, most significant first. *)
Fixpoint digits (w : Z) (l : list Z) : Z :=
  match l with
  | [] => 0
  | x :: r => x * 2 ^ (w * Z.of_nat (length r)) + digits w r
  end.

(** [in_block w n (p, len)]: the [w]-bit address [n] lies in the block [p/len]. *)
Definition in_block (w n : Z) (blk : Z * Z) : bool :=
  n / 2 ^ (w - blk.2) =? blk.1 / 2 ^ (w - blk.2).

(** A block in dotted-quad or hextet form, with its prefix length. *)
Definition in_cidr (w : Z) (l : list Z) (blk : list Z * Z) : bool :=
  in_block (w * Z.of_nat (length l)) (digits w l) (digits w (blk.1 ++ replicate (length l - length blk.1) 0), blk.2).

Definition blocked4 : list (list Z * Z) :=
  [ ([0], 8); ([100; 64], 10); ([127], 8); ([169; 254], 16); ([192; 0; 0], 24); ([192; 0; 2], 24);
    ([192; 88; 99], 24); ([198; 18], 15); ([198; 51; 100], 24); ([203; 0; 113], 24); ([224], 4); ([240], 4) ].

Definition site_local4 : list (list Z * Z) := [ ([10], 8); ([172; 16], 12); ([192; 168], 16) ].

Definition blocked6 : list (list Z * Z) :=
  [ ([0], 112); ([0x64; 0xff9b], 64); ([0x64; 0xff9b; 1], 48); ([0x100], 64);
    ([0x2001; 0], 32); ([0x2001; 1], 32); ([0x2001; 2], 48); ([0x2001; 3], 32); ([0x2001; 4; 0x112], 48);
    ([0x2001; 0x10], 28); ([0x2001; 0x20], 28); ([0x2001; 0x30], 28); ([0x2001; 0xdb8], 32);
    ([0x2002], 16); ([0xfe80], 10); ([0xff00], 8) ].

Definition site_local6 : list (list Z * Z) := [ ([0xfc00], 7) ].

Definition blocked (ip : IpAddr) (strict : bool) : bool :=
  match ip with
  | IpV4 _ _ _ _ => existsb (in_cidr 8 (b2z <$> octets ip)) (blocked4 ++ if strict then site_local4 else [])
  | IpV6 o => existsb (in_cidr 16 (segments o)) (blocked6 ++ if strict then site_local6 else [])
  end.

(** A mask that clears the low bits rounds down. *)
Lemma land_round j k s : 0 <= j -> 0 <= k -> 0 <= s < 2 ^ (j + k) ->
  Z.land s (Z.shiftl (Z.ones j) k) = s / 2 ^ k * 2 ^ k.
Proof.
  intros Hj Hk Hs. rewrite <- Z.shiftr_div_pow2, <- Z.shiftl_mul_pow2 by lia.
  apply Z.bits_inj'. intros n Hn. rewrite Z.land_spec, !Z.shiftl_spec by lia.
  destruct (Z.ltb_spec n k) as [H|H].
  { rewrite !(Z.testbit_neg_r _ (n - k)) by lia. by rewrite andb_false_r. }
  rewrite Z.shiftr_spec by lia. rewrite Z.sub_add, Z.testbit_ones_nonneg by lia.
  destruct (Z.ltb_spec (n - k) j); [by rewrite andb_true_r|].
  rewrite andb_false_r. symmetry. destruct (decide (s = 0)) as [->|]; [apply Z.testbit_0_l|].
  apply Z.bits_above_log2; [lia|]. apply Z.log2_lt_pow2; [lia|].
  eapply Z.lt_le_trans; [apply Hs|]. apply Z.pow_le_mono_r; lia.
Qed.

Lemma land_prefix j k s p m q : 0 <= j -> 0 <= k -> Z.shiftl (Z.ones j) k = m -> p * 2 ^ k = q ->
  0 <= s < 2 ^ (j + k) -> (Z.land s m =? q) = (s / 2 ^ k =? p).
Proof.
  intros Hj Hk <- <- Hs. rewrite land_round by lia.
  destruct (Z.eqb_spec (s / 2 ^ k) p) as [->|H]; [apply Z.eqb_refl|].
  apply Z.eqb_neq. intros E. apply Z.mul_cancel_r in E; [done|]. apply Z.pow_nonzero; lia.
Qed.

Lemma in_block_high v r s t a q len : 0 <= len <= v -> 0 <= r -> 0 <= t < 2 ^ r -> 0 <= q < 2 ^ r ->
  in_block (v + r) (s * 2 ^ r + t) (a * 2 ^ r + q, len) = in_block v s (a, len).
Proof.
  intros Hl Hr Ht Hq. unfold in_block. cbn [fst snd].
  replace (v + r - len) with (r + (v - len)) by lia. rewrite !Z.pow_add_r by lia.
  rewrite <- !Z.div_div by (try apply Z.pow_nonzero; try apply Z.pow_pos_nonneg; lia).
  by rewrite !Z.div_add_l, !(Z.div_small _ (2 ^ r)), !Z.add_0_r by lia.
Qed.

Lemma in_block_low v r s t a q len : 0 <= v <= len -> len <= v + r -> 0 <= t < 2 ^ r -> 0 <= q < 2 ^ r ->
  in_block (v + r) (s * 2 ^ r + t) (a * 2 ^ r + q, len) = (s =? a) && in_block r t (q, len - v).
Proof.
  intros Hl Hr Ht Hq. unfold in_block. cbn [fst snd].
  replace (v + r - len) with (r - (len - v)) by lia. set (m := r - (len - v)).
  assert (0 <= m) by lia.
  assert (E : 2 ^ r = 2 ^ (r - m) * 2 ^ m) by (rewrite <- Z.pow_add_r by lia; f_equal; lia).
  rewrite E, !Z.mul_assoc, !Z.div_add_l by lia.
  assert (forall x, 0 <= x < 2 ^ r -> 0 <= x / 2 ^ m < 2 ^ (r - m)) as B.
  { intros x Hx. split; [apply Z.div_pos; lia|]. apply Z.div_lt_upper_bound; lia. }
  pose proof (B t Ht). pose proof (B q Hq).
  destruct (Z.eqb_spec s a) as [->|Hne]; cbn [andb].
  - destruct (Z.eqb_spec (t / 2 ^ m) (q / 2 ^ m)); lia.
  - apply Z.eqb_neq. nia.
Qed.

Definition in_width (w : Z) (l : list Z) : Prop := Forall (fun x => 0 <= x < 2 ^ w) l.

Lemma digits_range w l : 0 <= w -> in_width w l -> 0 <= digits w l < 2 ^ (w * Z.of_nat (length l)).
Proof.
  intros Hw. induction 1 as [|x l Hx Hl IH]; cbn [digits length]; [by rewrite Z.mul_0_r|].
  replace (w * Z.of_nat (S (length l))) with (w + w * Z.of_nat (length l)) by lia.
  rewrite Z.pow_add_r by lia. nia.
Qed.

(** Digit-wise comparison of a prefix. *)
Fixpoint match_digits (w : Z) (l p : list Z) (len : Z) : bool :=
  match l, p with
  | x :: l', a :: p' =>
      if len <=? w then x / 2 ^ (w - len) =? a / 2 ^ (w - len)
      else (x =? a) && match_digits w l' p' (len - w)
  | _, _ => true
  end.

Lemma in_block_digits w l p len : 0 < w -> 0 <= len -> length l = length p ->
  len <= w * Z.of_nat (length l) -> in_width w l -> in_width w p ->
  in_block (w * Z.of_nat (length l)) (digits w l) (digits w p, len) = match_digits w l p len.
Proof.
  intros Hw. revert p len. induction l as [|x l IH]; intros [|a p] len Hlen E Hle Hl Hp; try done.
  injection E as E. apply list.Forall_cons in Hl as [Hx Hl], Hp as [Ha Hp].
  cbn [digits match_digits length] in *. rewrite <- E.
  replace (w * Z.of_nat (S (length l))) with (w + w * Z.of_nat (length l)) by lia.
  pose proof (digits_range w l ltac:(lia) Hl). pose proof (digits_range w p ltac:(lia) Hp) as Hr.
  rewrite <- E in Hr. destruct (Z.leb_spec len w).
  - by rewrite in_block_high by lia.
  - rewrite in_block_low, IH by (done || lia). done.
Qed.

Definition block_ok (w : Z) (n : nat) (blk : list Z * Z) : bool :=
  (0 <=? blk.2) && (blk.2 <=? w * Z.of_nat n) && (length blk.1 <=? n)%nat
  && forallb (fun x => (0 <=? x) && (x <? 2 ^ w)) blk.1.

Definition pad_match (w : Z) (l : list Z) (blk : list Z * Z) : bool :=
  match_digits w l (blk.1 ++ replicate (length l - length blk.1) 0) blk.2.

Lemma in_cidr_match w l bl : 0 < w -> in_width w l -> forallb (block_ok w (length l)) bl = true ->
  existsb (in_cidr w l) bl = existsb (pad_match w l) bl.
Proof.
  intros Hw Hl. induction bl as [|[p len] bl IH]; cbn [existsb forallb]; [done|].
  intros [H H2]%andb_true_iff. rewrite IH by done. f_equal.
  unfold block_ok in H. cbn [fst snd] in H. bools. unfold in_cidr, pad_match. cbn [fst snd].
  apply in_block_digits; try done; try lia.
  - rewrite length_app, length_replicate. apply Nat.leb_le in H1. lia.
  - apply list.Forall_app. split.
    + apply list.Forall_forall. intros x Hx. rewrite forallb_forall in *.
      assert (Hb : (0 <=? x) && (x <? 2 ^ w) = true) by (apply H0, list_elem_of_In, Hx). lia.
    + apply list.Forall_replicate. pose proof (Z.pow_pos_nonneg 2 w). lia.
Qed.

#[local] Ltac Zify.zify_post_hook ::= Z.div_mod_to_equations.

(** [clause blk c] rewrites the block test into the comparison [c] of the code. *)
Ltac clause blk c :=
  match goal with |- context [pad_match ?w ?l blk] =>
    replace (pad_match w l blk) with c by
      (let r := eval lazy -[Z.eqb Z.div andb] in (pad_match w l blk) in change (pad_match w l blk) with r; lia)
  end.

(** Decide an equation between disjunctions of opaque conditions. *)
Ltac decide_clause b :=
  lazymatch b with orb _ _ => fail | true => fail | false => fail | _ =>
    destruct b; cbn [negb orb andb]; rewrite ?orb_true_r, ?orb_false_r, ?andb_false_r; try reflexivity
  end.
Ltac decide_clauses :=
  repeat match goal with
  | |- context [orb ?b _] => decide_clause b
  | |- context [if ?b then _ else _] => decide_clause b
  | |- context [negb ?b] => decide_clause b
  end.

Lemma v4_blocked a b c d strict :
  is_dialable_ip (IpV4 a b c d) strict = negb (blocked (IpV4 a b c d) strict).
Proof.
  unfold blocked. pose proof (b2z_range a) as Ha. pose proof (b2z_range b) as Hb.
  pose proof (b2z_range c) as Hc. pose proof (b2z_range d) as Hd.
  rewrite in_cidr_match; [|done|by repeat (apply list.Forall_cons; split); try apply list.Forall_nil|by destruct strict].
  unfold is_dialable_ip, is_loopback, is_unspecified, is_multicast, v4_dialable, v4_is_broadcast,
    v4_is_link_local, v4_is_documentation, v4_is_private. cbn [octets fmap list_fmap].
  rewrite (land_prefix 4 4 (b2z a) 15) by done.
  generalize dependent (b2z a). generalize dependent (b2z b). generalize dependent (b2z c).
  generalize dependent (b2z d). clear.
  intros o3 H3 o2 H2 o1 H1 o0 H0. rewrite existsb_app. unfold blocked4.
  cbn [existsb].
  clause ([0], 8) (o0 =? 0). clause ([100; 64], 10) ((o0 =? 100) && (64 <=? o1) && (o1 <=? 127)).
  clause ([127], 8) (o0 =? 127). clause ([169; 254], 16) ((o0 =? 169) && (o1 =? 254)).
  clause ([192; 0; 0], 24) ((o0 =? 192) && (o1 =? 0) && (o2 =? 0)).
  clause ([192; 0; 2], 24) ((o0 =? 192) && (o1 =? 0) && (o2 =? 2)).
  clause ([192; 88; 99], 24) ((o0 =? 192) && (o1 =? 88) && (o2 =? 99)).
  clause ([198; 18], 15) ((o0 =? 198) && (18 <=? o1) && (o1 <=? 19)).
  clause ([198; 51; 100], 24) ((o0 =? 198) && (o1 =? 51) && (o2 =? 100)).
  clause ([203; 0; 113], 24) ((o0 =? 203) && (o1 =? 0) && (o2 =? 113)).
  clause ([224], 4) ((224 <=? o0) && (o0 <=? 239)).
  clause ([240], 4) (o0 / 2 ^ 4 =? 15).
  replace (existsb _ (if strict then _ else _)) with
    (strict && ((o0 =? 10) || (o0 =? 172) && (16 <=? o1) && (o1 <=? 31) || (o0 =? 192) && (o1 =? 168))).
  - set (bc := (o0 =? 255) && _ && _ && _). set (un := (o0 =? 0) && _ && _ && _).
    assert (Hbc : bc = true -> (o0 / 2 ^ 4 =? 15) = true) by (unfold bc; lia).
    assert (Hun : un = true -> (o0 =? 0) = true) by (unfold un; lia).
    destruct un; [rewrite Hun by done|]; (destruct bc; [rewrite Hbc by done|]); clear;
    cbn [negb]; rewrite ?andb_true_r; destruct strict; decide_clauses.
  - destruct strict; [|done]. unfold site_local4. cbn [existsb].
    clause ([10], 8) (o0 =? 10). clause ([172; 16], 12) ((o0 =? 172) && (16 <=? o1) && (o1 <=? 31)).
    clause ([192; 168], 16) ((o0 =? 192) && (o1 =? 168)). by rewrite orb_false_r, orb_assoc.
Qed.

Lemma segments_16 o : length o = 16%nat -> in_width 16 (segments o) /\
  exists s0 s1 s2 s3 s4 s5 s6 s7, segments o = [s0; s1; s2; s3; s4; s5; s6; s7].
Proof.
  intros H. do 16 (destruct o as [|? o]; [discriminate H|]). destruct o; [|discriminate H].
  cbn [segments]. split; [|eauto 10].
  repeat (apply list.Forall_cons; split); try done.
  all: match goal with |- context [b2z ?x * 256 + b2z ?y] =>
    pose proof (b2z_range x); pose proof (b2z_range y); lia end.
Qed.

Lemma v6_blocked o strict : length o = 16%nat -> to_ipv4_mapped o = None ->
  is_dialable_ip (IpV6 o) strict = negb (blocked (IpV6 o) strict).
Proof.
  intros Hlen Hm. destruct (segments_16 o Hlen) as (Hw & s0 & s1 & s2 & s3 & s4 & s5 & s6 & s7 & E).
  unfold is_dialable_ip. rewrite Hm. unfold blocked, is_loopback, is_unspecified, is_multicast, v6_dialable,
    v6_is_unicast_link_local, v6_is_unique_local. rewrite E in *. clear E Hm Hlen.
  rewrite in_cidr_match; [|done|done|by destruct strict]. unfold in_width in Hw.
  rewrite !list.Forall_cons in Hw. destruct Hw as (H0 & H1 & H2 & H3 & H4 & H5 & H6 & H7 & _).
  cbn [lookup list_lookup default from_option id take forallb].
  rewrite (land_prefix 8 8 s0 255), (land_prefix 10 6 s0 1018), (land_prefix 7 9 s0 126),
    (land_prefix 12 4 s1 1), (land_prefix 12 4 s1 2), (land_prefix 12 4 s1 3) by done.
  rewrite existsb_app. unfold blocked6. cbn [existsb].
  clause ([0], 112) ((s0 =? 0) && ((s1 =? 0) && ((s2 =? 0) && ((s3 =? 0) && ((s4 =? 0) && ((s5 =? 0) && ((s6 =? 0) && true))))))).
  clause ([0x64; 0xff9b], 64) ((s0 =? 0x64) && (s1 =? 0xff9b) && (s2 =? 0) && (s3 =? 0)).
  clause ([0x64; 0xff9b; 1], 48) ((s0 =? 0x64) && (s1 =? 0xff9b) && (s2 =? 1)).
  clause ([0x100], 64) ((s0 =? 0x0100) && (s1 =? 0) && (s2 =? 0) && (s3 =? 0)).
  clause ([0x2001; 0], 32) ((s0 =? 0x2001) && (s1 =? 0)).
  clause ([0x2001; 1], 32) ((s0 =? 0x2001) && (s1 =? 1)).
  clause ([0x2001; 2], 48) ((s0 =? 0x2001) && (s1 =? 2) && (s2 =? 0)).
  clause ([0x2001; 3], 32) ((s0 =? 0x2001) && (s1 =? 3)).
  clause ([0x2001; 4; 0x112], 48) ((s0 =? 0x2001) && (s1 =? 4) && (s2 =? 0x112)).
  clause ([0x2001; 0x10], 28) ((s0 =? 0x2001) && (s1 / 2 ^ 4 =? 1)).
  clause ([0x2001; 0x20], 28) ((s0 =? 0x2001) && (s1 / 2 ^ 4 =? 2)).
  clause ([0x2001; 0x30], 28) ((s0 =? 0x2001) && (s1 / 2 ^ 4 =? 3)).
  clause ([0x2001; 0xdb8], 32) ((s0 =? 0x2001) && (s1 =? 0x0db8)).
  clause ([0x2002], 16) (s0 =? 0x2002).
  clause ([0xfe80], 10) (s0 / 2 ^ 6 =? 1018).
  clause ([0xff00], 8) (s0 / 2 ^ 8 =? 255).
  replace (existsb _ (if strict then _ else _)) with (strict && (s0 / 2 ^ 9 =? 126)).
  - case_bool_decide as L; [by injection L as -> -> -> -> -> -> -> ->|].
    case_bool_decide as U; [by injection U as -> -> -> -> -> -> -> ->|].
    clear. destruct strict; decide_clauses.
  - destruct strict; [|done]. unfold site_local6. cbn [existsb].
    clause ([0xfc00], 7) (s0 / 2 ^ 9 =? 126). by rewrite orb_false_r.
Qed.

Lemma to_ipv4_mapped_v4 o v : to_ipv4_mapped o = Some v -> exists a b c d, v = IpV4 a b c d.
Proof.
  unfold to_ipv4_mapped. destruct (drop 12 o) as [|a [|b [|c [|d [|? ?]]]]]; try done.
  case_bool_decide; [|done]. intros [= <-]. eauto.
Qed.

Lemma dialable_blocked ip strict : ip_ok ip = true ->
  is_dialable_ip ip strict = negb (blocked (log_canonical_ip ip) strict).
Proof.
  intros Hok. destruct ip as [a b c d|o]; [apply v4_blocked|]. cbn [log_canonical_ip].
  destruct (to_ipv4_mapped o) as [v|] eqn:E.
  - destruct (to_ipv4_mapped_v4 o v E) as (a & b & c & d & ->). rewrite <- v4_blocked.
    unfold is_dialable_ip. by rewrite E.
  - apply v6_blocked; [|done]. cbn in Hok. by apply Nat.eqb_eq.
Qed.

(** Which addresses from trackers, the DHT and peers may be dialled.  After an
    IPv4-mapped IPv6 address is turned into its IPv4 address, an address is
    accepted exactly when it lies in none of the blocks of a fixed table in CIDR
    form (this-network, loopback, link-local, CGNAT, documentation, benchmarking,
    multicast, reserved, NAT64, 6to4, Teredo, ...), to which strict mode adds the
    site-local blocks. *)
Lemma dialable_iff_not_blocked ip strict :
  ip_ok ip = true -> is_dialable_ip ip strict = negb (blocked (log_canonical_ip ip) strict).
Proof. apply dialable_blocked. Qed.

(** [::ffff:169.254.169.254], the metadata endpoint in an IPv6 wrapper. *)
Definition smuggled : IpAddr := IpV6 (replicate 10 x00 ++ [xff; xff; xa9; xfe; xa9; xfe]).

Lemma dialable_iff_not_blocked_witness :
  ip_ok smuggled = true /\ blocked (log_canonical_ip smuggled) false = true /\
  is_dialable_ip smuggled false = negb (blocked (log_canonical_ip smuggled) false).
Proof.
  split; [reflexivity|]. split; [vm_compute; reflexivity|].
  apply (dialable_iff_not_blocked smuggled false). reflexivity.
Defined.

(** ** Screening resolved addresses *)

(** What the resolver screens accept: loopback, or any address outside the table. *)
Definition resolved_ok (strict : bool) (a : SocketAddr) : Prop :=
  is_loopback (log_canonical_ip (sa_ip a)) = true \/ blocked (log_canonical_ip (sa_ip a)) strict = false.

Lemma canonical_ok ip : ip_ok ip = true -> ip_ok (log_canonical_ip ip) = true.
Proof.
  destruct ip as [|o]; cbn [log_canonical_ip]; [done|]. destruct (to_ipv4_mapped o) as [v|] eqn:E; [|done].
  by destruct (to_ipv4_mapped_v4 o v E) as (? & ? & ? & ? & ->).
Qed.

Lemma canonical_idem ip : log_canonical_ip (log_canonical_ip ip) = log_canonical_ip ip.
Proof.
  destruct ip as [|o]; cbn [log_canonical_ip]; [done|]. destruct (to_ipv4_mapped o) as [v|] eqn:E.
  - by destruct (to_ipv4_mapped_v4 o v E) as (? & ? & ? & ? & ->).
  - cbn. by rewrite E.
Qed.

Lemma dialable_canonical ip strict : is_dialable_ip (log_canonical_ip ip) strict = is_dialable_ip ip strict.
Proof.
  destruct ip as [|o]; [done|]. cbn [log_canonical_ip]. destruct (to_ipv4_mapped o) as [v|] eqn:E; [|done].
  destruct (to_ipv4_mapped_v4 o v E) as (? & ? & ? & ? & ->). unfold is_dialable_ip. by rewrite E.
Qed.

Lemma resolved_iff a strict : ip_ok (sa_ip a) = true ->
  is_dialable_resolved_ip (sa_ip a) strict = true <-> resolved_ok strict a.
Proof.
  intros Hok. unfold resolved_ok.
  replace (is_dialable_resolved_ip (sa_ip a) strict) with
    (if is_loopback (log_canonical_ip (sa_ip a)) then true else is_dialable_ip (log_canonical_ip (sa_ip a)) strict)
    by (by destruct (sa_ip a)).
  destruct (is_loopback _); [by split; [left|]|].
  rewrite dialable_canonical, dialable_blocked, negb_true_iff by done. split; [by right|by intros [|]].
Qed.

(** Name resolution fails closed.  The screen keeps, in order, exactly the
    resolved addresses that are loopback or outside the refused blocks, judged
    after unwrapping IPv4-mapped forms; when none survives it returns the tracker
    error instead of an address, and it never panics. *)
Lemma resolution_fails_closed addrs strict :
  Forall (fun a => ip_ok (sa_ip a) = true) addrs ->
  match filter_dialable_addrs addrs strict with
  | Ok kept => kept <> [] /\ sublist kept addrs /\ forall a, a ∈ kept <-> a ∈ addrs /\ resolved_ok strict a
  | Err e => e = ETracker "announce host resolved only to refused addresses" /\
      forall a, a ∈ addrs -> ~ resolved_ok strict a
  | _ => False
  end.
Proof.
  intros Hok. unfold filter_dialable_addrs. set (p := fun a => is_dialable_resolved_ip (sa_ip a) strict).
  assert (Hp : forall a, a ∈ List.filter p addrs <-> a ∈ addrs /\ resolved_ok strict a).
  { intros a. rewrite !list_elem_of_In, filter_In, <- list_elem_of_In. rewrite list.Forall_forall in Hok.
    split; intros [Ha H]; (split; [done|]); apply resolved_iff; auto. }
  destruct (Nat.eqb_spec (length (List.filter p addrs)) 0) as [E|E].
  - split; [done|]. intros a Ha Hr. apply length_zero_iff_nil in E. rewrite E in Hp.
    by apply (not_elem_of_nil a), Hp.
  - split_and!; [by intros H; rewrite H in E| |done].
    clear. induction addrs as [|a l IH]; cbn; [constructor|]. destruct (p a); by constructor.
Qed.

Lemma resolution_fails_closed_witness :
  filter_dialable_addrs [sock_addr smuggled 80; sock_addr (IpV4 x01 x02 x03 x04) 80] false
    = Ok [sock_addr (IpV4 x01 x02 x03 x04) 80] /\
  match filter_dialable_addrs [sock_addr smuggled 80] false with
  | Ok kept => kept <> [] /\ sublist kept [sock_addr smuggled 80] /\
      forall a, a ∈ kept <-> a ∈ [sock_addr smuggled 80] /\ resolved_ok false a
  | Err e => e = ETracker "announce host resolved only to refused addresses" /\
      forall a, a ∈ [sock_addr smuggled 80] -> ~ resolved_ok false a
  | _ => False
  end.
Proof.
  split; [vm_compute; reflexivity|].
  apply (resolution_fails_closed [sock_addr smuggled 80] false).
  apply list.Forall_cons. split; [reflexivity|]. by apply list.Forall_nil.
Defined.
