(* ===== verification/RateLimit.v ===== *)
(** * Token buckets: [src/src/ratelimit.rs]

    The lazily refilled bucket, over the binary64 model.  The clock reading of
    each call is an argument, in nanoseconds. *)

From Stdlib Require Import ZArith Lia String Strings.Byte Floats.SpecFloat.
From stdpp Require Import base tactics numbers list option.
From S2P Require Import Prelude Float64.

Record TokenBucket := mkBucket {
  capacity : f64;
  rate_per_sec : f64;
  tokens : f64;
  last_refill : Z
}.

Definition bucket_new (now : Z) (capacity rate_per_sec : f64) : TokenBucket :=
  mkBucket capacity rate_per_sec capacity now.

(** [Duration::as_secs_f64] of [d] nanoseconds *)
Definition as_secs_f64 (d : Z) : f64 :=
  fadd (of_int (d / 1000000000)) (fdiv (of_int (d mod 1000000000)) (of_int 1000000000)).

(** [Instant::duration_since] saturates at zero. *)
Definition refill (now : Z) (b : TokenBucket) : TokenBucket :=
  let elapsed := as_secs_f64 (sat_sub now (last_refill b)) in
  if flt (of_int 0) elapsed then
    mkBucket (capacity b) (rate_per_sec b)
      (fmin (fadd (tokens b) (fmul elapsed (rate_per_sec b))) (capacity b)) now
  else b.

Definition try_consume (now : Z) (n : f64) (b : TokenBucket) : TokenBucket * bool :=
  let b := refill now b in
  if fle n (tokens b) then
    (mkBucket (capacity b) (rate_per_sec b) (fsub (tokens b) n) (last_refill b), true)
  else (b, false).

Definition available (now : Z) (b : TokenBucket) : TokenBucket * f64 :=
  let b := refill now b in (b, tokens b).

(** ** Properties *)

Lemma fmin_le x c : is_nan c = false -> fle (fmin x c) c = true /\ is_nan (fmin x c) = false.
Proof.
  intros Hc. unfold fmin. destruct (is_nan x) eqn:Hx; [by rewrite fle_refl|]. rewrite Hc.
  destruct (flt c x) eqn:E; [by rewrite fle_refl|]. split; [|done]. by apply not_flt.
Qed.

(** A refill that sees time pass leaves at most [capacity] tokens and never a
    NaN, whatever the arithmetic gave; one that sees none changes nothing. *)
Lemma refill_capped now b : is_nan (capacity b) = false ->
  refill now b = b \/
  (fle (tokens (refill now b)) (capacity b) = true /\ is_nan (tokens (refill now b)) = false /\
   last_refill (refill now b) = now).
Proof.
  intros Hc. unfold refill. destruct (flt _ _); [right|by left].
  destruct (fmin_le (fadd (tokens b) (fmul (as_secs_f64 (sat_sub now (last_refill b))) (rate_per_sec b)))
    (capacity b) Hc). done.
Qed.

(** A refused request keeps the tokens of the refill; with no time passed the
    bucket is unchanged and refuses again. *)
Lemma refused_again now n b : flt (of_int 0) (as_secs_f64 (sat_sub now (last_refill b))) = false ->
  (try_consume now n b).2 = false -> try_consume now n b = (b, false).
Proof.
  intros H. unfold try_consume. replace (refill now b) with b by (unfold refill; by rewrite H).
  by destruct (fle n (tokens b)).
Qed.

(** The documentation of the type says a refused request leaves the bucket
    unchanged; it keeps the refill. *)
Lemma refused_request_refills :
  let b := mkBucket (of_int 10) (of_int 1) (of_int 0) 0 in
  let '(b', ok) := try_consume 1000000000 (of_int 5) b in
  ok = false /\ tokens b' = of_int 1 /\ last_refill b' = 1000000000.
Proof. vm_compute. done. Qed.
