(* ===== verification/DhtTable.v ===== *)
(** * The routing table of the DHT: [src/src/dht/node_id.rs], [src/src/dht/routing.rs]

    Node ids with the XOR metric, k-buckets and the table of 160 of them.  The
    byte-wise definitions are related to the 160-bit numbers they stand for:
    the bucket index is the logarithm of the distance and the sort order of
    [closest] is the numeric order of distances. *)

From Stdlib Require Import ZArith Lia String Strings.Byte Sorting.Sorted.
From stdpp Require Import base tactics numbers list option sorting.
From S2P Require Import Prelude Net.

(** ** Node ids *)

(** [NodeId([u8; 20])] *)
Abbreviation NodeId := bytes.

Definition id_ok (id : NodeId) : bool := (length id =? 20)%nat.

Definition distance (a b : NodeId) : bytes := zip_with (fun x y => z2b (Z.lxor (b2z x) (b2z y))) a b.

(** [u8::leading_zeros] *)
Definition leading_zeros8 (z : Z) : Z := if z =? 0 then 8 else 7 - Z.log2 z.

(** The loop of [bucket_index]; [159 - bit_position] is an unsigned subtraction. *)
Fixpoint bucket_loop (d : bytes) (i : Z) : result (option nat) :=
  match d with
  | [] => Ok None
  | byte :: d' =>
      if b2z byte =? 0 then bucket_loop d' (i + 1)
      else
        let lz := leading_zeros8 (b2z byte) in
        let bit_position := i * 8 + lz in
        r ← checked 64 (159 - bit_position);
        Ok (Some (Z.to_nat r))
  end.

Definition bucket_index (a b : NodeId) : result (option nat) := bucket_loop (distance a b) 0.

(** ** Contacts and buckets *)

Definition K : nat := 8.
Definition GOOD_NODE_TTL : Z := 15 * 60 * 1000000000.

Record Contact := mkContact { c_id : NodeId; c_addr : SocketAddr; last_seen : Z }.

(** [Contact::new]: seen now. *)
Definition contact_new (now : Z) (id : NodeId) (addr : SocketAddr) : Contact := mkContact id addr now.

Definition is_good (now : Z) (c : Contact) : bool := sat_sub now (last_seen c) <? GOOD_NODE_TTL.

(** [struct KBucket { contacts: Vec<Contact> }] *)
Abbreviation KBucket := (list Contact).

(** [position(|c| !c.is_good())]: each test reads the clock. *)
Fixpoint stale_position (clock : nat -> Z) (i : nat) (l : list Contact) : option nat :=
  match l with
  | [] => None
  | c :: l' => if negb (is_good (clock i) c) then Some O else S <$> stale_position clock (S i) l'
  end.

Definition kb_insert (clock : nat -> Z) (contact : Contact) (b : KBucket) : KBucket * bool :=
  match position (fun c => bytes_eqb (c_id c) (c_id contact)) b with
  | Some pos =>
      match b !! pos with
      | Some existing =>
          (delete pos b ++ [mkContact (c_id existing) (c_addr contact) (last_seen contact)], true)
      | None => (b, true)
      end
  | None =>
      if (length b <? K)%nat then (b ++ [contact], true)
      else match stale_position clock 0 b with
           | Some stale_pos => (delete stale_pos b ++ [contact], true)
           | None => (b, false)
           end
  end.

(** ** The table *)

Record RoutingTable := mkTable { local_id : NodeId; buckets : list KBucket }.

Definition table_new (id : NodeId) : RoutingTable := mkTable id (replicate 160 []).

Definition rt_insert (clock : nat -> Z) (contact : Contact) : M RoutingTable bool := fun t =>
  if bytes_eqb (c_id contact) (local_id t) then (t, Ok false)
  else match bucket_index (local_id t) (c_id contact) with
       | Ok None => (t, Ok false)
       | Ok (Some i) =>
           match buckets t !! i with
           | Some b =>
               let '(b', r) := kb_insert clock contact b in
               (mkTable (local_id t) (<[i := b']> (buckets t)), Ok r)
           | None => (t, Panic)
           end
       | Err e => (t, Err e)
       | Panic => (t, Panic)
       | NoFuel => (t, NoFuel)
       end.

Definition all_contacts (t : RoutingTable) : list Contact := concat (buckets t).

Definition closer (target : NodeId) (a b : Contact) : bool :=
  bytes_ltb (distance (c_id a) target) (distance (c_id b) target).

Definition closest (t : RoutingTable) (target : NodeId) (count : nat) : list Contact :=
  take count (sort_by (closer target) (all_contacts t)).

Definition rt_len (t : RoutingTable) : nat := sum_list_with length (buckets t).
Definition rt_is_empty (t : RoutingTable) : bool := forallb (fun b => (length b =? 0)%nat) (buckets t).

(** ** Byte strings as numbers *)

Lemma testbit_split x l k n : 0 <= k -> 0 <= l < 2 ^ k -> 0 <= n ->
  Z.testbit (x * 2 ^ k + l) n = if n <? k then Z.testbit l n else Z.testbit x (n - k).
Proof.
  intros Hk Hl Hn. destruct (Z.ltb_spec n k).
  - rewrite <- (Z.mod_pow2_bits_low (x * 2 ^ k + l) k n) by lia.
    by rewrite Z.add_comm, Z.mod_add, Z.mod_small by lia.
  - replace (Z.testbit (x * 2 ^ k + l) n) with (Z.testbit ((x * 2 ^ k + l) / 2 ^ k) (n - k))
      by (rewrite Z.div_pow2_bits by lia; f_equal; lia).
    rewrite Z.div_add_l by lia. by rewrite Z.div_small, Z.add_0_r by lia.
Qed.

Lemma lxor_range k l m : 0 <= k -> 0 <= l < 2 ^ k -> 0 <= m < 2 ^ k -> 0 <= Z.lxor l m < 2 ^ k.
Proof.
  intros Hk Hl Hm. assert (0 <= Z.lxor l m) by (apply Z.lxor_nonneg; lia). split; [done|].
  assert (E : Z.shiftr (Z.lxor l m) k = 0).
  { rewrite Z.shiftr_lxor, !Z.shiftr_div_pow2, !Z.div_small by lia. done. }
  rewrite Z.shiftr_div_pow2 in E by lia. apply Z.div_small_iff in E; lia.
Qed.

Lemma lxor_split x y l m k : 0 <= k -> 0 <= l < 2 ^ k -> 0 <= m < 2 ^ k ->
  Z.lxor (x * 2 ^ k + l) (y * 2 ^ k + m) = Z.lxor x y * 2 ^ k + Z.lxor l m.
Proof.
  intros Hk Hl Hm. pose proof (lxor_range k l m Hk Hl Hm).
  apply Z.bits_inj'. intros n Hn. rewrite Z.lxor_spec, !testbit_split by lia.
  destruct (n <? k); by rewrite Z.lxor_spec.
Qed.

Lemma pow256 n : 256 ^ Z.of_nat n = 2 ^ (8 * Z.of_nat n).
Proof. rewrite Z.pow_mul_r by lia. done. Qed.

Lemma b2z_lxor x y : b2z (z2b (Z.lxor (b2z x) (b2z y))) = Z.lxor (b2z x) (b2z y).
Proof. apply b2z_z2b_small, (lxor_range 8); [lia|apply b2z_range..]. Qed.

Lemma length_distance a b : length a = length b -> length (distance a b) = length a.
Proof. intros H. unfold distance. rewrite length_zip_with. lia. Qed.

(** The distance is the exclusive or of the two numbers. *)
Lemma distance_lxor a b : length a = length b -> from_be (distance a b) = Z.lxor (from_be a) (from_be b).
Proof.
  revert b. induction a as [|x a IH]; intros [|y b] H; try done. injection H as H.
  cbn [distance zip_with]. rewrite !from_be_cons. fold (distance a b).
  rewrite IH, length_distance, b2z_lxor, <- H, pow256 by done.
  rewrite lxor_split; [done|lia|..]; rewrite <- pow256; [|rewrite H]; apply from_be_range.
Qed.

Lemma ltb_from_be a b : length a = length b -> bytes_ltb a b = (from_be a <? from_be b).
Proof.
  revert b. induction a as [|x a IH]; intros [|y b] H; try done. injection H as H.
  cbn [bytes_ltb]. rewrite !from_be_cons, IH, <- H by done.
  pose proof (from_be_range a) as Ra. pose proof (from_be_range b) as Rb. rewrite <- H in Rb.
  destruct (Z.ltb_spec (b2z x) (b2z y)); cbn [orb]; [symmetry; apply Z.ltb_lt; nia|].
  destruct (Z.eqb_spec (b2z x) (b2z y)) as [->|]; cbn [andb].
  - destruct (Z.ltb_spec (from_be a) (from_be b)); lia.
  - symmetry. apply Z.ltb_ge. nia.
Qed.

Lemma leading_log n d l : 0 < d < 256 -> 0 <= l < 256 ^ Z.of_nat n ->
  Z.log2 (d * 256 ^ Z.of_nat n + l) = Z.log2 d + 8 * Z.of_nat n.
Proof.
  intros Hd Hl. rewrite pow256 in *. pose proof (Z.log2_spec d ltac:(lia)) as [L U].
  pose proof (Z.log2_nonneg d). apply Z.log2_unique; [lia|].
  rewrite <- Z.add_succ_l, !Z.pow_add_r by lia.
  assert (0 < 2 ^ (8 * Z.of_nat n)) by lia. nia.
Qed.

Lemma bucket_loop_log d i : i + Z.of_nat (length d) = 20 -> 0 <= i ->
  bucket_loop d i = Ok (if from_be d =? 0 then None else Some (Z.to_nat (Z.log2 (from_be d)))).
Proof.
  revert i. induction d as [|x d IH]; intros i Hi H0; [done|]. cbn [bucket_loop length] in *.
  rewrite from_be_cons. pose proof (b2z_range x). pose proof (from_be_range d).
  destruct (Z.eqb_spec (b2z x) 0) as [->|Hne]; [by rewrite IH by lia|].
  rewrite (proj2 (Z.eqb_neq _ _)) by nia. unfold leading_zeros8. rewrite (proj2 (Z.eqb_neq _ _)) by done.
  pose proof (Z.log2_nonneg (b2z x)). assert (Z.log2 (b2z x) < 8) by (apply Z.log2_lt_pow2; lia).
  rewrite leading_log by lia. unfold checked. rewrite (proj2 (in_u_spec _ _)) by lia. cbn.
  do 3 f_equal. lia.
Qed.

Lemma lxor_zero_iff a b : length a = length b -> Z.lxor (from_be a) (from_be b) = 0 <-> a = b.
Proof.
  intros H. rewrite Z.lxor_eq_0_iff. split; [|by intros ->].
  intros E. rewrite <- (to_from_be a), <- (to_from_be b). by rewrite E, H.
Qed.

(** The numeric distance. *)
Definition dist (a b : NodeId) : Z := Z.lxor (from_be a) (from_be b).

Lemma bucket_index_eq a b : id_ok a = true -> id_ok b = true ->
  bucket_index a b = Ok (if dist a b =? 0 then None else Some (Z.to_nat (Z.log2 (dist a b)))).
Proof.
  unfold id_ok, dist. intros Ha Hb. apply Nat.eqb_eq in Ha, Hb. unfold bucket_index.
  rewrite bucket_loop_log, distance_lxor by (rewrite ?length_distance; lia). done.
Qed.

Lemma dist_range a b : id_ok a = true -> id_ok b = true -> 0 <= dist a b < 2 ^ 160.
Proof.
  unfold id_ok, dist. intros Ha Hb. apply Nat.eqb_eq in Ha, Hb. rewrite <- distance_lxor by lia.
  pose proof (from_be_range (distance a b)) as R. rewrite length_distance, Ha in R by lia. apply R.
Qed.


(** ** The invariant *)

Definition placed (id : NodeId) (i : nat) (c : Contact) : Prop :=
  id_ok (c_id c) = true /\ bucket_index id (c_id c) = Ok (Some i).

Record bucket_ok (id : NodeId) (i : nat) (b : KBucket) : Prop := mkBucketOk {
  bo_len : (length b <= K)%nat;
  bo_nodup : NoDup (c_id <$> b);
  bo_placed : Forall (placed id i) b
}.

Record table_ok (t : RoutingTable) : Prop := mkTableOk {
  to_id : id_ok (local_id t) = true;
  to_len : length (buckets t) = 160%nat;
  to_buckets : forall i b, buckets t !! i = Some b -> bucket_ok (local_id t) i b
}.

Lemma stale_position_Some clock l : forall i p, stale_position clock i l = Some p ->
  exists c, l !! p = Some c /\ is_good (clock (i + p)%nat) c = false.
Proof.
  induction l as [|c l IH]; intros i p; cbn [stale_position]; [done|].
  destruct (is_good (clock i) c) eqn:E; cbn [negb].
  - intros (q & Hq & ->)%fmap_Some. destruct (IH _ _ Hq) as (d & Hd & Hg).
    exists d. split; [done|]. by rewrite Nat.add_succ_r.
  - intros [= <-]. exists c. by rewrite Nat.add_0_r.
Qed.

Lemma stale_position_None clock l : forall i, stale_position clock i l = None ->
  forall p c, l !! p = Some c -> is_good (clock (i + p)%nat) c = true.
Proof.
  induction l as [|c l IH]; intros i; cbn [stale_position]; [done|].
  destruct (is_good (clock i) c) eqn:E; cbn [negb]; [|done].
  intros H%fmap_None [|p] d Hd.
  - injection Hd as <-. by rewrite Nat.add_0_r.
  - rewrite Nat.add_succ_r. by apply (IH (S i)).
Qed.

(** The four outcomes of an insertion into a bucket. *)
Inductive kb_outcome (clock : nat -> Z) (c : Contact) (b : KBucket) : KBucket -> bool -> Prop :=
  | kb_refresh p old : b !! p = Some old -> c_id old = c_id c ->
      kb_outcome clock c b (delete p b ++ [c]) true
  | kb_append : c_id c ∉ c_id <$> b -> (length b < K)%nat -> kb_outcome clock c b (b ++ [c]) true
  | kb_evict p old : c_id c ∉ c_id <$> b -> (K <= length b)%nat -> b !! p = Some old ->
      is_good (clock p) old = false -> kb_outcome clock c b (delete p b ++ [c]) true
  | kb_reject : c_id c ∉ c_id <$> b -> (K <= length b)%nat ->
      (forall p d, b !! p = Some d -> is_good (clock p) d = true) -> kb_outcome clock c b b false.

Lemma kb_insert_outcome clock c b : kb_outcome clock c b (kb_insert clock c b).1 (kb_insert clock c b).2.
Proof.
  unfold kb_insert. destruct (position _ b) as [p|] eqn:E.
  - destruct (position_Some _ _ _ E) as (old & Hp & He & _). rewrite Hp. cbn [fst snd].
    apply bytes_eqb_eq in He. rewrite He. destruct c as [i a s]. cbn. by apply (kb_refresh _ _ _ p old).
  - assert (Hn : c_id c ∉ c_id <$> b).
    { intros (d & Hd & Hin)%list_elem_of_fmap. apply position_None, forallb_Forall_iff in E.
      rewrite list.Forall_forall in E. specialize (E d Hin). by rewrite Hd, bytes_eqb_refl in E. }
    destruct (Nat.ltb_spec (length b) K) as [H|H]; [by apply kb_append|].
    destruct (stale_position clock 0 b) as [p|] eqn:Es.
    + destruct (stale_position_Some _ _ _ _ Es) as (d & Hd & Hg). by apply (kb_evict _ _ _ p d).
    + apply kb_reject; [done..|]. exact (stale_position_None _ _ _ Es).
Qed.

Lemma placed_new id i c d : placed id i d -> c_id d = c_id c -> placed id i c.
Proof. unfold placed. by intros H <-. Qed.

Lemma kb_outcome_ok clock c id i b b' r : kb_outcome clock c b b' r -> placed id i c ->
  bucket_ok id i b -> bucket_ok id i b'.
Proof.
  intros Ho Hc [Hl Hn Hp].
  destruct Ho as [p old Hold He|Hni Hlt|p old Hni Hge Hold _|]; [| | |by constructor].
  - pose proof (delete_Permutation _ _ _ Hold) as P. split.
    + apply Permutation_length in P. rewrite length_app. cbn in *. lia.
    + assert (c_id <$> (delete p b ++ [c]) ≡ₚ c_id <$> b) as ->; [|done].
      rewrite P at 2. rewrite fmap_app. cbn. rewrite He. by rewrite Permutation_app_comm.
    + rewrite P in Hp. apply list.Forall_cons in Hp as [_ Hp]. apply list.Forall_app. split; [done|].
      by repeat constructor; apply Hc.
  - split.
    + rewrite length_app. cbn. lia.
    + rewrite fmap_app, Permutation_app_comm. cbn. by constructor.
    + apply list.Forall_app. split; [done|]. by repeat constructor; apply Hc.
  - pose proof (delete_Permutation _ _ _ Hold) as P. split.
    + apply Permutation_length in P. rewrite length_app. cbn in *. lia.
    + rewrite fmap_app, Permutation_app_comm. cbn. rewrite P in Hn, Hni. cbn in Hn, Hni.
      apply list.NoDup_cons in Hn as [_ Hn]. constructor; [|done]. intros H. apply Hni. by right.
    + rewrite P in Hp. apply list.Forall_cons in Hp as [_ Hp]. apply list.Forall_app. split; [done|].
      by repeat constructor; apply Hc.
Qed.

Lemma table_new_ok id : id_ok id = true -> table_ok (table_new id).
Proof.
  intros H. constructor; [done|done|]. intros i b [-> _]%lookup_replicate. repeat constructor.
Qed.

(** An insertion either does nothing or acts on the one bucket of the contact. *)
Lemma rt_insert_eq clock c t : table_ok t -> id_ok (c_id c) = true ->
  (c_id c = local_id t /\ rt_insert clock c t = (t, Ok false)) \/
  (exists i b, placed (local_id t) i c /\ buckets t !! i = Some b /\
     rt_insert clock c t = (mkTable (local_id t) (<[i := (kb_insert clock c b).1]> (buckets t)),
                            Ok (kb_insert clock c b).2)).
Proof.
  intros [Hid Hlen Hb] Hc. unfold rt_insert. destruct (bytes_eqb _ _) eqn:E.
  { left. by apply bytes_eqb_eq in E. }
  right. assert (Hne : c_id c <> local_id t).
  { intros H. by rewrite H, bytes_eqb_refl in E. }
  pose proof (bucket_index_eq (local_id t) (c_id c) Hid Hc) as Hi.
  pose proof (dist_range (local_id t) (c_id c) Hid Hc) as R.
  destruct (Z.eqb_spec (dist (local_id t) (c_id c)) 0) as [H0|H0].
  { apply lxor_zero_iff in H0; [done|]. apply Nat.eqb_eq in Hid, Hc. congruence. }
  set (i := Z.to_nat _) in Hi. assert (Hlt : (i < 160)%nat).
  { unfold i. pose proof (Z.log2_nonneg (dist (local_id t) (c_id c))).
    assert (Z.log2 (dist (local_id t) (c_id c)) < 160) by (apply Z.log2_lt_pow2; lia). lia. }
  destruct (lookup_lt_is_Some_2 (buckets t) i) as [b Hbi]; [lia|].
  exists i, b. split_and!; [done|done|]. rewrite Hi, Hbi. by destruct (kb_insert clock c b).
Qed.

Lemma rt_insert_ok clock c t : table_ok t -> id_ok (c_id c) = true ->
  table_ok (rt_insert clock c t).1 /\ local_id (rt_insert clock c t).1 = local_id t /\
  is_ok (rt_insert clock c t).2 = true.
Proof.
  intros Ht Hc. destruct (rt_insert_eq clock c t Ht Hc) as [[_ ->]|(i & b & Hp & Hb & ->)]; [done|].
  cbn. split_and!; [|done|done]. destruct Ht as [Hid Hlen Hbs]. constructor; cbn; [done|by rewrite length_insert|].
  intros j b' [(-> & <- & _)|[_ H]]%list_lookup_insert_Some; [|by apply Hbs].
  apply (kb_outcome_ok clock c _ _ b _ (kb_insert clock c b).2); [apply kb_insert_outcome|done|by apply Hbs].
Qed.

(** ** Contacts of the whole table *)

Lemma in_all t c : c ∈ all_contacts t <-> exists i b, buckets t !! i = Some b /\ c ∈ b.
Proof.
  unfold all_contacts. rewrite list_elem_of_In, in_concat. split.
  - intros (b & Hb%list_elem_of_In & Hc%list_elem_of_In). apply list_elem_of_lookup in Hb as [i Hi]. eauto.
  - intros (i & b & Hi & Hc). exists b. rewrite <- !list_elem_of_In. split; [|done].
    by apply list_elem_of_lookup_2 with i.
Qed.

Lemma nodup_concat id bs : forall k, (forall i b, bs !! i = Some b -> bucket_ok id (k + i)%nat b) ->
  NoDup (c_id <$> concat bs).
Proof.
  induction bs as [|b bs IH]; intros k H; cbn [concat]; [constructor|]. rewrite fmap_app.
  apply list.NoDup_app. split_and!.
  - apply (bo_nodup _ _ _ (H 0%nat b eq_refl)).
  - intros x (c & -> & Hc)%list_elem_of_fmap (d & E & Hd)%list_elem_of_fmap.
    pose proof (bo_placed _ _ _ (H 0%nat b eq_refl)) as P. rewrite list.Forall_forall in P.
    apply list_elem_of_In, in_concat in Hd as (b' & Hb' & Hd). apply list_elem_of_In in Hb', Hd.
    apply list_elem_of_lookup in Hb' as [j Hj]. pose proof (bo_placed _ _ _ (H (S j) b' Hj)) as P'.
    rewrite list.Forall_forall in P'. destruct (P c Hc) as [_ E1], (P' d Hd) as [_ E2].
    rewrite E, E2 in E1. injection E1 as E1. lia.
  - apply (IH (S k)). intros i b' Hb'. rewrite Nat.add_succ_comm. by apply H.
Qed.

Lemma table_nodup t : table_ok t -> NoDup (c_id <$> all_contacts t).
Proof. intros [_ _ H]. by apply (nodup_concat (local_id t) _ 0). Qed.

Lemma all_ok t c : table_ok t -> c ∈ all_contacts t -> id_ok (c_id c) = true.
Proof.
  intros [_ _ H] (i & b & Hb & Hc)%in_all. pose proof (bo_placed _ _ _ (H i b Hb)) as P.
  rewrite list.Forall_forall in P. by apply P.
Qed.

Lemma rt_len_eq t : rt_len t = length (all_contacts t).
Proof. unfold rt_len, all_contacts. induction (buckets t) as [|b l IH]; [done|]. cbn. by rewrite IH, length_app. Qed.

(** ** The order of [closest] *)

Lemma bytes_ltb_asym a b : bytes_ltb a b = true -> bytes_ltb b a = false.
Proof.
  intros H. destruct (bytes_ltb b a) eqn:E; [|done].
  pose proof (bytes_ltb_trans a b a H E) as C. by rewrite bytes_ltb_irrefl in C.
Qed.

Lemma bytes_nlt_trans a b c : bytes_ltb b a = false -> bytes_ltb c b = false -> bytes_ltb c a = false.
Proof.
  intros H1 H2. destruct (bytes_ltb c a) eqn:E; [|done].
  destruct (bytes_ltb_total a b) as [H|[->|H]]; [|congruence|congruence].
  by rewrite (bytes_ltb_trans c a b E H) in H2.
Qed.

Lemma closer_dist target a b : id_ok target = true -> id_ok (c_id a) = true -> id_ok (c_id b) = true ->
  closer target a b = (dist (c_id a) target <? dist (c_id b) target).
Proof.
  unfold id_ok. intros Ht Ha Hb. apply Nat.eqb_eq in Ht, Ha, Hb. unfold closer, dist.
  rewrite ltb_from_be by (rewrite !length_distance; lia). by rewrite !distance_lxor by lia.
Qed.

Lemma dist_inj a b t : id_ok a = true -> id_ok b = true -> dist a t = dist b t -> a = b.
Proof.
  unfold id_ok, dist. intros Ha%Nat.eqb_eq Hb%Nat.eqb_eq H.
  assert (E : from_be a = from_be b).
  { rewrite <- (Z.lxor_0_r (from_be a)), <- (Z.lxor_nilpotent (from_be t)), <- Z.lxor_assoc, H.
    by rewrite Z.lxor_assoc, Z.lxor_nilpotent, Z.lxor_0_r. }
  rewrite <- (to_from_be a), <- (to_from_be b). by rewrite E, Ha, Hb.
Qed.

Definition nearer (target : NodeId) (a b : Contact) : Prop := dist (c_id a) target < dist (c_id b) target.

Lemma sorted_strict {A B} (R R' : A -> A -> Prop) (f : A -> B) l :
  StronglySorted R l -> NoDup (f <$> l) ->
  (forall x y, x ∈ l -> y ∈ l -> R x y -> f x <> f y -> R' x y) -> StronglySorted R' l.
Proof.
  induction 1 as [|x l Hl IH Hx]; intros Hn H; [constructor|]. cbn in Hn.
  apply list.NoDup_cons in Hn as [Hni Hn]. constructor.
  - apply IH; [done|]. intros a b Ha Hb. apply H; by right.
  - rewrite list.Forall_forall in *. intros y Hy. apply H; [left|by right|by apply Hx|].
    intros E. apply Hni. rewrite E. by apply list_elem_of_fmap_2.
Qed.

Lemma closest_sorted t target : table_ok t -> id_ok target = true ->
  StronglySorted (nearer target) (sort_by (closer target) (all_contacts t)).
Proof.
  intros Ht Htg. pose proof (sort_by_perm (closer target) (all_contacts t)) as P.
  apply (sorted_strict (not_above (closer target)) _ c_id).
  - apply sort_by_sorted.
    + intros x y. apply bytes_ltb_asym.
    + intros x y z. apply bytes_nlt_trans.
  - rewrite P. by apply table_nodup.
  - intros x y Hx Hy. rewrite P in Hx, Hy. pose proof (all_ok t x Ht Hx). pose proof (all_ok t y Ht Hy).
    unfold not_above, nearer. rewrite closer_dist by done. intros L N.
    assert (dist (c_id x) target <> dist (c_id y) target) by (intros E; by apply N, (dist_inj _ _ target)). lia.
Qed.

Definition insert_all (l : list ((nat -> Z) * Contact)) (t : RoutingTable) : RoutingTable :=
  foldl (fun t p => (rt_insert p.1 p.2 t).1) t l.

Lemma insert_all_ok l t : table_ok t -> Forall (fun p => id_ok (c_id p.2) = true) l ->
  table_ok (insert_all l t) /\ local_id (insert_all l t) = local_id t.
Proof.
  revert t. induction l as [|[clock c] l IH]; intros t Ht Hl; [done|].
  apply list.Forall_cons in Hl as [Hc Hl]. cbn. destruct (rt_insert_ok clock c t Ht Hc) as (H1 & H2 & _).
  destruct (IH _ H1 Hl) as [H3 H4]. split; [done|]. etransitivity; [apply H4|done].
Qed.

Lemma table_size t : table_ok t -> (rt_len t <= 160 * K)%nat.
Proof.
  intros [_ Hlen Hb]. unfold rt_len. rewrite <- Hlen.
  assert (H : forall b, b ∈ buckets t -> (length b <= K)%nat).
  { intros b [i Hi]%list_elem_of_lookup. apply (bo_len _ _ _ (Hb i b Hi)). }
  clear Hlen Hb. induction (buckets t) as [|b l IH]; cbn [sum_list_with length]; [lia|].
  assert (length b <= K)%nat by (apply H; left). specialize (IH (fun b Hb => H b (list_elem_of_further _ _ _ Hb))). lia.
Qed.

(** The bucket of a contact is the logarithm of its distance.  For 160-bit
    ids [bucket_index] never underflows; it is [None] exactly for equal ids and
    [Some i] exactly when the exclusive or of the two numbers has its highest set
    bit at position [i], so [i] is below 160. *)
Lemma bucket_index_log2 a b : id_ok a = true -> id_ok b = true ->
  (bucket_index a b = Ok None <-> a = b) /\
  (forall i, bucket_index a b = Ok (Some i) <-> 2 ^ Z.of_nat i <= dist a b < 2 ^ (Z.of_nat i + 1)) /\
  (a <> b -> exists i, bucket_index a b = Ok (Some i) /\ (i < 160)%nat).
Proof.
  intros Ha Hb. rewrite bucket_index_eq by done. pose proof (dist_range a b Ha Hb) as R.
  assert (Hz : dist a b = 0 <-> a = b).
  { apply lxor_zero_iff. apply Nat.eqb_eq in Ha, Hb. congruence. }
  destruct (Z.eqb_spec (dist a b) 0) as [E|E].
  - split_and!; [by rewrite <- Hz| |by rewrite <- Hz].
    intros i. rewrite E. split; [done|]. pose proof (Z.pow_pos_nonneg 2 (Z.of_nat i)). lia.
  - assert (L : Z.log2 (dist a b) < 160) by (apply Z.log2_lt_pow2; lia).
    pose proof (Z.log2_nonneg (dist a b)). split_and!.
    + split; [done|]. intros Hab. by apply Hz in Hab.
    + intros i. rewrite Z.add_1_r. split.
      * intros [= <-]. rewrite Z2Nat.id by lia. apply Z.log2_spec. lia.
      * intros Hi. do 2 f_equal. rewrite (Z.log2_unique _ _ (Nat2Z.is_nonneg i) Hi). lia.
    + intros _. eexists. split; [done|]. lia.
Qed.

Definition id_ex (b : byte) : NodeId := replicate 19 x00 ++ [b].

Lemma bucket_index_log2_witness :
  bucket_index (id_ex x01) (id_ex x05) = Ok (Some 2%nat) /\
  ((bucket_index (id_ex x01) (id_ex x05) = Ok None <-> id_ex x01 = id_ex x05) /\
   (forall i, bucket_index (id_ex x01) (id_ex x05) = Ok (Some i) <->
      2 ^ Z.of_nat i <= dist (id_ex x01) (id_ex x05) < 2 ^ (Z.of_nat i + 1)) /\
   (id_ex x01 <> id_ex x05 -> exists i, bucket_index (id_ex x01) (id_ex x05) = Ok (Some i) /\ (i < 160)%nat)).
Proof.
  split; [vm_compute; reflexivity|].
  apply (bucket_index_log2 (id_ex x01) (id_ex x05)); reflexivity.
Defined.

Lemma delete_cases (b : KBucket) p old d : b !! p = Some old -> d ∈ b -> d = old \/ d ∈ delete p b.
Proof. intros Hp. rewrite (delete_Permutation _ _ _ Hp) at 1. by rewrite elem_of_cons. Qed.

Lemma kb_outcome_in clock c b b' r : kb_outcome clock c b b' r ->
  (forall d, d ∈ b' -> d = c \/ d ∈ b) /\
  (forall d, d ∈ b -> d ∈ b' \/ c_id d = c_id c \/ exists p, is_good (clock p) d = false) /\
  (if r then c ∈ b' else b' = b /\ (K <= length b)%nat /\ forall p d, b !! p = Some d -> is_good (clock p) d = true).
Proof.
  assert (Hd : forall p d, d ∈ delete p b -> d ∈ b).
  { intros p d H. eapply elem_of_sublist; [done|apply sublist_delete]. }
  intros [p old Hp He|Hni Hlt|p old Hni Hge Hp Hg|Hni Hge Hg]; split_and!.
  all: try (intros d; rewrite elem_of_app, list_elem_of_singleton; intros [H| ->]; eauto; fail).
  all: try (apply elem_of_app; right; by apply list_elem_of_singleton).
  all: try done; try (by right); try (by left).
  - intros d H. destruct (delete_cases b p old d Hp H) as [->|H']; [by right; left|].
    left. apply elem_of_app. by left.
  - intros d H. left. apply elem_of_app. by left.
  - intros d H. destruct (delete_cases b p old d Hp H) as [->|H']; [right; right; eauto|].
    left. apply elem_of_app. by left.
Qed.

Lemma in_insert t i b b' id d : buckets t !! i = Some b ->
  d ∈ all_contacts (mkTable id (<[i := b']> (buckets t))) <->
  d ∈ b' \/ exists j bj, j <> i /\ buckets t !! j = Some bj /\ d ∈ bj.
Proof.
  intros Hb. rewrite in_all. cbn. split.
  - intros (j & bj & [(-> & <- & _)|[Hne H]]%list_lookup_insert_Some & Hd); [by left|right; eauto 6].
  - apply lookup_lt_Some in Hb as Hlt. intros [Hd|(j & bj & Hne & Hj & Hd)].
    + exists i, b'. by rewrite list_lookup_insert_eq.
    + exists j, bj. by rewrite list_lookup_insert_ne by done.
Qed.

Lemma rt_insert_policy clock c t : table_ok t -> id_ok (c_id c) = true ->
  let t' := (rt_insert clock c t).1 in
  exists ok, (rt_insert clock c t).2 = Ok ok /\
    (if ok then c ∈ all_contacts t'
     else t' = t /\ (c_id c = local_id t \/ exists i b, placed (local_id t) i c /\ buckets t !! i = Some b /\ length b = K /\
                     forall p d, b !! p = Some d -> is_good (clock p) d = true)) /\
    (forall d, d ∈ all_contacts t' -> d = c \/ d ∈ all_contacts t) /\
    (forall d, d ∈ all_contacts t -> d ∈ all_contacts t' \/ c_id d = c_id c \/ exists p, is_good (clock p) d = false).
Proof.
  intros Ht Hc t'. unfold t'. destruct (rt_insert_eq clock c t Ht Hc) as [[He ->]|(i & b & Hp & Hb & ->)]; cbn [fst snd].
  { exists false. split; [done|]. split; [split; [done|]; by left|]. split; [by right|by left]. }
  exists (kb_insert clock c b).2. split; [done|].
  destruct (kb_outcome_in _ _ _ _ _ (kb_insert_outcome clock c b)) as (H1 & H2 & H3).
  set (b' := (kb_insert clock c b).1) in *. clearbody b'.
  pose proof (fun d => in_insert t i b b' (local_id t) d Hb) as Hin. split_and!.
  - destruct (kb_insert clock c b).2; [apply Hin; by left|]. destruct H3 as (E & Hge & Hg). rewrite E.
    split; [rewrite list_insert_id by done; by destruct t|]. right. exists i, b. split_and!; try done.
    apply Nat.le_antisymm; [|done]. apply (bo_len _ _ _ (to_buckets _ Ht i b Hb)).
  - intros d [Hd|(j & bj & _ & Hj & Hd)]%Hin; [|right; apply in_all; eauto].
    destruct (H1 d Hd); [by left|right; apply in_all; eauto].
  - intros d (j & bj & Hj & Hd)%in_all. destruct (decide (j = i)) as [->|Hne].
    + rewrite Hb in Hj. injection Hj as <-. destruct (H2 d Hd) as [Hd'|]; [left; apply Hin; by left|by right].
    + left. apply Hin. right. eauto 6.
Qed.

(** The routing table stays a routing table.  After any sequence of insertions
    into a new table, whatever the addresses and clock readings, it has 160
    buckets of at most eight contacts, every contact in the bucket of its
    distance, and no id twice.  One more insertion does not panic; if it succeeds
    the contact is in the table exactly as given; it refuses only our own id or a
    contact whose bucket is full of good contacts; and it removes only the old
    entry of the same id, or one contact that is stale. *)
Lemma table_invariant id l clock c :
  id_ok id = true -> Forall (fun p => id_ok (c_id p.2) = true) l -> id_ok (c_id c) = true ->
  let t := insert_all l (table_new id) in
  let t' := (rt_insert clock c t).1 in
  table_ok t /\ NoDup (c_id <$> all_contacts t) /\ (rt_len t <= 160 * K)%nat /\
  exists ok, (rt_insert clock c t).2 = Ok ok /\
    (if ok then c ∈ all_contacts t'
     else t' = t /\ (c_id c = id \/ exists i b, placed id i c /\ buckets t !! i = Some b /\ length b = K /\
                     forall p d, b !! p = Some d -> is_good (clock p) d = true)) /\
    (forall d, d ∈ all_contacts t' -> d = c \/ d ∈ all_contacts t) /\
    (forall d, d ∈ all_contacts t -> d ∈ all_contacts t' \/ c_id d = c_id c \/ exists p, is_good (clock p) d = false).
Proof.
  intros Hid Hl Hc t t'. destruct (insert_all_ok l _ (table_new_ok id Hid) Hl) as [Ht Hloc].
  fold t in Ht, Hloc. cbn in Hloc. split_and!; [done|by apply table_nodup|by apply table_size|].
  rewrite <- Hloc. by apply rt_insert_policy.
Qed.

Lemma table_invariant_witness :
  let l := [(fun _ : nat => 0, contact_new 0 (id_ex x05) (sock_addr (IpV4 x01 x02 x03 x04) 6881))] in
  let c := contact_new 7 (id_ex x05) (sock_addr (IpV4 x05 x06 x07 x08) 6881) in
  let t := insert_all l (table_new (id_ex x01)) in
  all_contacts (rt_insert (fun _ => 7) c t).1 = [c] /\
  (table_ok t /\ NoDup (c_id <$> all_contacts t) /\ (rt_len t <= 160 * K)%nat).
Proof.
  intros l c t. split; [vm_compute; reflexivity|].
  destruct (table_invariant (id_ex x01) l (fun _ => 7) c) as (H1 & H2 & H3 & _); [reflexivity| |reflexivity|].
  - apply list.Forall_cons. split; [reflexivity|]. by apply list.Forall_nil.
  - exact (conj H1 (conj H2 H3)).
Defined.

(** [closest] returns the closest contacts.  From a well-formed table it
    returns as many contacts as asked for, or all there are, without repetition,
    strictly ordered by the numeric XOR distance to the target, and every contact
    of the table it leaves out is strictly farther than every one it returns. *)
Lemma closest_exact t target count : table_ok t -> id_ok target = true ->
  let r := closest t target count in
  length r = (count `min` rt_len t)%nat /\ NoDup (c_id <$> r) /\
  (forall c, c ∈ r -> c ∈ all_contacts t) /\ StronglySorted (nearer target) r /\
  (forall c d, c ∈ r -> d ∈ all_contacts t -> d ∉ r -> nearer target c d).
Proof.
  intros Ht Htg r. pose proof (sort_by_perm (closer target) (all_contacts t)) as P.
  pose proof (closest_sorted t target Ht Htg) as S. unfold r, closest.
  set (l := sort_by _ _) in *. split_and!.
  - by rewrite length_take, rt_len_eq, <- P.
  - assert (Hn : NoDup (c_id <$> l)) by (rewrite P; by apply table_nodup).
    rewrite <- (take_drop count l), fmap_app in Hn. by apply list.NoDup_app in Hn as [? _].
  - intros c Hc. rewrite <- P. eapply elem_of_sublist; [done|apply sublist_take].
  - rewrite <- (take_drop count l) in S. by apply StronglySorted_app_1_l in S.
  - intros c d Hc Hd Hn. apply (sorted_take_drop _ count l); [done..|].
    rewrite <- P, <- (take_drop count l), elem_of_app in Hd. by destruct Hd.
Qed.

Definition contact_ex (b : byte) : Contact := contact_new 0 (id_ex b) (sock_addr (IpV4 x01 x02 x03 x04) 6881).

Definition table_ex : RoutingTable :=
  insert_all ((fun b => (fun _ : nat => 0, contact_ex b)) <$> [x05; x09; x07]) (table_new (id_ex x01)).

Lemma table_ex_ok : table_ok table_ex.
Proof.
  apply insert_all_ok; [by apply table_new_ok|].
  repeat (apply list.Forall_cons; split; [done|]). by apply list.Forall_nil.
Qed.

Lemma closest_exact_witness :
  c_id <$> closest table_ex (id_ex x0a) 2 = [id_ex x09; id_ex x07] /\
  length (closest table_ex (id_ex x0a) 2) = (2 `min` rt_len table_ex)%nat.
Proof.
  split; [vm_compute; reflexivity|].
  apply (closest_exact table_ex (id_ex x0a) 2); [apply table_ex_ok|reflexivity].
Defined.
