(* ===== verification/Krpc.v ===== *)
(** * The DHT wire format: [src/src/dht/krpc.rs], [src/src/dht/persist.rs]

    KRPC messages over the bencode model, the compact contact encoding, and the
    state file that stores contacts in the same form. *)

From Stdlib Require Import ZArith Lia String Strings.Byte.
From stdpp Require Import base tactics numbers list option.
From S2P Require Import Prelude Bencode Net DhtTable.

#[local] Set Warnings "-register-all".

(** ** Messages *)

Inductive Query :=
  | Ping (id : NodeId)
  | FindNode (id target : NodeId)
  | GetPeers (id : NodeId) (info_hash : bytes)
  | AnnouncePeer (id : NodeId) (info_hash : bytes) (port : Z) (token : bytes) (implied_port : bool).

Inductive Response :=
  | RId (id : NodeId)
  | RNodes (id : NodeId) (nodes : list Contact)
  | RPeers (id : NodeId) (token : bytes) (values : list SocketAddr)
  | RPeersNodes (id : NodeId) (token : bytes) (nodes : list Contact).

Inductive Message :=
  | MQuery (transaction_id : bytes) (query : Query)
  | MResponse (transaction_id : bytes) (response : Response)
  | MError (transaction_id : bytes) (code : Z) (message : bytes).

(** ** Encoding *)

Definition b_bytes (v : bytes) : BencodeValue := BBytes v.
Definition b_int (n : Z) : BencodeValue := BInt n.
Definition b_list (v : list BencodeValue) : BencodeValue := BList v.

Definition build_dict (entries : list (bytes * BencodeValue)) : BencodeValue :=
  BDict (foldl (fun d '(k, v) => bt_insert k v d) [] entries).

(** The module's own serialiser, which appends to a buffer. *)
Fixpoint encode_into (v : BencodeValue) (out : bytes) : bytes :=
  match v with
  | BInt i => (out ++ ["i"%byte]) ++ show_i i ++ ["e"%byte]
  | BBytes b => (out ++ show_u (Z.of_nat (length b))) ++ [":"%byte] ++ b
  | BList items => fold_left (fun o item => encode_into item o) items (out ++ ["l"%byte]) ++ ["e"%byte]
  | BDict d =>
      fold_left (fun o '(k, v) =>
        encode_into v ((o ++ show_u (Z.of_nat (length k))) ++ [":"%byte] ++ k)) d (out ++ ["d"%byte])
      ++ ["e"%byte]
  end.

Definition encode (v : BencodeValue) : bytes := encode_into v [].

(** One compact contact; an IPv6 contact is skipped. *)
Definition contact_bytes (c : Contact) : bytes :=
  if is_ipv4 (c_addr c) then c_id c ++ octets (sa_ip (c_addr c)) ++ to_be 2 (sa_port (c_addr c)) else [].

Definition nodes_to_bytes (nodes : list Contact) : bytes :=
  fold_left (fun out c => out ++ contact_bytes c) nodes [].

(** The contact a 26-byte chunk describes. *)
Definition chunk_contact (now : Z) (chunk : bytes) : option Contact :=
  match drop 20 chunk with
  | [a; b; c; d; p1; p2] =>
      let port := from_be [p1; p2] in
      Some (contact_new now (take 20 chunk) (sock_addr (IpV4 a b c d) port))
  | _ => None
  end.

(** The loop of [parse_nodes_bytes]; [Contact::new] reads the clock. *)
Fixpoint parse_nodes_loop (clock : nat -> Z) (i : nat) (chunks : list bytes) : list Contact :=
  match chunks with
  | [] => []
  | chunk :: r =>
      match chunk_contact (clock i) chunk with
      | Some c => if sa_port (c_addr c) =? 0 then parse_nodes_loop clock (S i) r
                  else c :: parse_nodes_loop clock (S i) r
      | None => parse_nodes_loop clock (S i) r
      end
  end.

Definition parse_nodes_bytes (clock : nat -> Z) (buf : bytes) : result (list Contact) :=
  if negb (length buf mod 26 =? 0)%nat then Err (ENetwork "nodes length not multiple of 26")
  else Ok (parse_nodes_loop clock 0 (as_chunks 26 buf)).

Definition values_to_list (values : list SocketAddr) : BencodeValue :=
  b_list (flat_map (fun addr =>
    if is_ipv4 addr then [b_bytes (octets (sa_ip addr) ++ to_be 2 (sa_port addr))] else []) values).

(** One element of a [values] list: anything but six bytes with a port is skipped. *)
Definition value_addr (b : bytes) : option SocketAddr :=
  match b with
  | [a; b; c; d; p1; p2] =>
      let port := from_be [p1; p2] in
      if port =? 0 then None else Some (sock_addr (IpV4 a b c d) port)
  | _ => None
  end.

Fixpoint parse_values_loop (l : list BencodeValue) : result (list SocketAddr) :=
  match l with
  | [] => Ok []
  | item :: r =>
      b ← as_bytes item;
      rest ← parse_values_loop r;
      Ok (match value_addr b with Some a => a :: rest | None => rest end)
  end.

Definition parse_values_list (v : BencodeValue) : result (list SocketAddr) :=
  list_ ← as_list v; parse_values_loop list_.

Definition query_value (transaction_id : bytes) (q : string) (args : BencodeValue) : BencodeValue :=
  build_dict [(bs "a", args); (bs "q", b_bytes (bs q)); (bs "t", b_bytes transaction_id); (bs "y", b_bytes (bs "q"))].

Definition message_value (m : Message) : BencodeValue :=
  match m with
  | MQuery t (Ping id) => query_value t "ping" (build_dict [(bs "id", b_bytes id)])
  | MQuery t (FindNode id target) =>
      query_value t "find_node" (build_dict [(bs "id", b_bytes id); (bs "target", b_bytes target)])
  | MQuery t (GetPeers id info_hash) =>
      query_value t "get_peers" (build_dict [(bs "id", b_bytes id); (bs "info_hash", b_bytes info_hash)])
  | MQuery t (AnnouncePeer id info_hash port token implied_port) =>
      query_value t "announce_peer" (build_dict
        [(bs "id", b_bytes id); (bs "implied_port", b_int (if implied_port then 1 else 0));
         (bs "info_hash", b_bytes info_hash); (bs "port", b_int port); (bs "token", b_bytes token)])
  | MResponse t response =>
      let r := match response with
        | RId id => build_dict [(bs "id", b_bytes id)]
        | RNodes id nodes => build_dict [(bs "id", b_bytes id); (bs "nodes", b_bytes (nodes_to_bytes nodes))]
        | RPeers id token values =>
            build_dict [(bs "id", b_bytes id); (bs "token", b_bytes token); (bs "values", values_to_list values)]
        | RPeersNodes id token nodes =>
            build_dict [(bs "id", b_bytes id); (bs "nodes", b_bytes (nodes_to_bytes nodes)); (bs "token", b_bytes token)]
        end in
      build_dict [(bs "r", r); (bs "t", b_bytes t); (bs "y", b_bytes (bs "r"))]
  | MError t code message =>
      let e := b_list [b_int code; b_bytes message] in
      build_dict [(bs "e", e); (bs "t", b_bytes t); (bs "y", b_bytes (bs "e"))]
  end.

Definition msg_encode (m : Message) : bytes := encode (message_value m).

(** ** Decoding *)

Definition bytes20_from (dict : list (bytes * BencodeValue)) (key : bytes) : result bytes :=
  v ← ok_or (bt_get key dict) (ENetwork "krpc: missing");
  b ← as_bytes v;
  if negb (length b =? 20)%nat then Err (ENetwork "krpc: must be 20 bytes") else Ok b.

Definition node_id_from (dict : list (bytes * BencodeValue)) (key : bytes) : result NodeId :=
  bytes20_from dict key.

(** [get(key).and_then(|v| v.as_int().ok()).unwrap_or(0)] *)
Definition int_or_zero (dict : list (bytes * BencodeValue)) (key : bytes) : Z :=
  default 0 (bt_get key dict ≫= fun v => unpanic (as_int v)).

(** [u16::try_from(port).unwrap_or(0)] *)
Definition u16_or_zero (port : Z) : Z := if in_u 16 port then port else 0.

Definition decode_query (dict : list (bytes * BencodeValue)) : result Query :=
  qv ← ok_or (bt_get (bs "q") dict) (ENetwork "krpc: missing q");
  qname ← as_bytes qv;
  av ← ok_or (bt_get (bs "a") dict) (ENetwork "krpc: missing a");
  args ← as_dict av;
  id ← node_id_from args (bs "id");
  if bytes_eqb qname (bs "ping") then Ok (Ping id)
  else if bytes_eqb qname (bs "find_node") then
    target ← node_id_from args (bs "target"); Ok (FindNode id target)
  else if bytes_eqb qname (bs "get_peers") then
    info_hash ← bytes20_from args (bs "info_hash"); Ok (GetPeers id info_hash)
  else if bytes_eqb qname (bs "announce_peer") then
    info_hash ← bytes20_from args (bs "info_hash");
    let port := int_or_zero args (bs "port") in
    tv ← ok_or (bt_get (bs "token") args) (ENetwork "ap: missing token");
    token ← as_bytes tv;
    let implied_port := negb (int_or_zero args (bs "implied_port") =? 0) in
    Ok (AnnouncePeer id info_hash (u16_or_zero port) token implied_port)
  else Err (ENetwork "krpc: unknown query").

(** [map(f).transpose()?] *)
Definition transpose {A} (o : option (result A)) : result (option A) :=
  match o with None => Ok None | Some r => Some <$> r end.

Definition decode_response (clock : nat -> Z) (dict : list (bytes * BencodeValue)) : result Response :=
  rv ← ok_or (bt_get (bs "r") dict) (ENetwork "krpc: missing r");
  r ← as_dict rv;
  id ← node_id_from r (bs "id");
  nodes ← transpose (parse_nodes_bytes clock <$> (bt_get (bs "nodes") r ≫= fun v => unpanic (as_bytes v)));
  values ← transpose (parse_values_list <$> bt_get (bs "values") r);
  let token := bt_get (bs "token") r ≫= fun v => unpanic (as_bytes v) in
  Ok (match nodes, values, token with
      | None, None, None => RId id
      | Some nodes, None, None => RNodes id nodes
      | None, Some values, Some token => RPeers id token values
      | Some nodes, None, Some token => RPeersNodes id token nodes
      | Some nodes, Some values, Some token => RPeers id token values
      | _, _, _ => RId id
      end).

(** [as_str().unwrap_or(default)] *)
Definition str_or_empty (v : BencodeValue) : bytes := default [] (unpanic (as_str v)).

Definition decode (clock : nat -> Z) (buf : bytes) : result Message :=
  v ← map_err (ENetwork "krpc") (parse_all buf);
  dict ← as_dict v;
  tv ← ok_or (bt_get (bs "t") dict) (ENetwork "krpc: missing t");
  txid ← as_bytes tv;
  yv ← ok_or (bt_get (bs "y") dict) (ENetwork "krpc: missing y");
  ty ← as_bytes yv;
  if bytes_eqb ty (bs "q") then
    query ← decode_query dict; Ok (MQuery txid query)
  else if bytes_eqb ty (bs "r") then
    response ← decode_response clock dict; Ok (MResponse txid response)
  else if bytes_eqb ty (bs "e") then
    ev ← ok_or (bt_get (bs "e") dict) (ENetwork "krpc: missing e");
    err_list ← as_list ev;
    if (length err_list <? 2)%nat then Err (ENetwork "krpc: malformed error")
    else
      e0 ← index err_list 0;
      code ← as_int e0;
      e1 ← index err_list 1;
      Ok (MError txid code (str_or_empty e1))
  else Err (ENetwork "krpc: unknown y").

(** ** The serialiser agrees with the parser's *)

Lemma fold_append {A} (f : bytes -> A -> bytes) (g : A -> bytes) l :
  Forall (fun x => forall o, f o x = o ++ g x) l -> forall out, fold_left f l out = out ++ flat_map g l.
Proof.
  induction 1 as [|x l Hx Hl IH]; intros out; cbn; [by rewrite app_nil_r|]. by rewrite IH, Hx, <- app_assoc.
Qed.

Lemma encode_into_eq v : forall out, encode_into v out = out ++ to_bytes v.
Proof.
  induction v as [i|b|l IH|m IH] using value_ind'; intros out; cbn [encode_into to_bytes].
  - by rewrite <- !app_assoc.
  - by rewrite <- !app_assoc.
  - rewrite (fold_append _ to_bytes) by exact IH. by rewrite <- !app_assoc.
  - rewrite (fold_append _ (fun '(k, v) => (show_u (Z.of_nat (length k)) ++ ":"%byte :: k) ++ to_bytes v)).
    + by rewrite <- !app_assoc.
    + eapply list.Forall_impl; [exact IH|]. intros [k v] H o. cbn in H. by rewrite H, <- !app_assoc.
Qed.

Lemma encode_to_bytes v : encode v = to_bytes v.
Proof. apply encode_into_eq. Qed.

(** ** Compact contacts *)

Definition contact_ok (c : Contact) : bool := id_ok (c_id c) && addr_ok (c_addr c).

(** What the other side reads of a list of contacts: the IPv4 ones with a port,
    seen when they were read. *)
Fixpoint heard (clock : nat -> Z) (i : nat) (nodes : list Contact) : list Contact :=
  match nodes with
  | [] => []
  | c :: r =>
      if is_ipv4 (c_addr c) then
        if sa_port (c_addr c) =? 0 then heard clock (S i) r
        else mkContact (c_id c) (c_addr c) (clock i) :: heard clock (S i) r
      else heard clock i r
  end.

Lemma nodes_to_bytes_eq nodes : nodes_to_bytes nodes = concat (contact_bytes <$> List.filter (fun c => is_ipv4 (c_addr c)) nodes).
Proof.
  unfold nodes_to_bytes. rewrite (fold_append _ contact_bytes) by (by apply list.Forall_forall).
  cbn. induction nodes as [|c l IH]; [done|]. cbn. rewrite IH. unfold contact_bytes at 1.
  destruct (is_ipv4 (c_addr c)) eqn:E; cbn; [|done]. unfold contact_bytes at 2. by rewrite E.
Qed.

Lemma addr_v4 a : addr_ok a = true -> is_ipv4 a = true ->
  exists x y z w, a = sock_addr (IpV4 x y z w) (sa_port a) /\ 0 <= sa_port a < 65536.
Proof.
  destruct a as [[x y z w|o] p f s]; cbn; [|done]. unfold addr_ok. intros [[_ Hp]%andb_true_iff Hf]%andb_true_iff _.
  apply in_u_spec in Hp. cbn in Hf, Hp |- *. exists x, y, z, w. unfold sock_addr. split; [f_equal; lia|done].
Qed.

Lemma port_back p : 0 <= p < 65536 -> from_be (to_be 2 p) = p.
Proof. intros. by apply from_to_be. Qed.

Lemma to_be_two p : exists x y, to_be 2 p = [x; y].
Proof. unfold to_be. eauto. Qed.

Lemma chunk_contact_back now c : contact_ok c = true -> is_ipv4 (c_addr c) = true ->
  length (contact_bytes c) = 26%nat /\ chunk_contact now (contact_bytes c) = Some (mkContact (c_id c) (c_addr c) now).
Proof.
  intros Hc H4. unfold contact_ok, id_ok in Hc. bools. apply Nat.eqb_eq in H.
  destruct (addr_v4 _ H0 H4) as (x & y & z & w & Ha & Hp).
  unfold contact_bytes, chunk_contact. rewrite H4, Ha. cbn [sock_addr sa_ip sa_port octets].
  set (p := sa_port (c_addr c)) in *. pose proof (port_back p Hp) as Hb. destruct (to_be_two p) as (p1 & p2 & E).
  rewrite E in *. rewrite length_app. split; [cbn; lia|].
  rewrite (drop_app_length' (c_id c)), (take_app_length' (c_id c)) by lia. cbn. unfold contact_new.
  rewrite Hb. done.
Qed.

Lemma parse_nodes_back clock nodes : forall i, Forall (fun c => contact_ok c = true) nodes ->
  parse_nodes_loop clock i (contact_bytes <$> List.filter (fun c => is_ipv4 (c_addr c)) nodes) = heard clock i nodes.
Proof.
  induction nodes as [|c l IH]; intros i H; [done|]. apply list.Forall_cons in H as [Hc H]. cbn.
  destruct (is_ipv4 (c_addr c)) eqn:E; [|by apply IH]. cbn.
  destruct (chunk_contact_back (clock i) c Hc E) as [_ ->]. cbn. by rewrite IH.
Qed.

Lemma filter_contacts_len nodes : Forall (fun c => contact_ok c = true) nodes ->
  Forall (fun b => length b = 26%nat) (contact_bytes <$> List.filter (fun c => is_ipv4 (c_addr c)) nodes).
Proof.
  induction 1 as [|c l Hc Hl IH]; cbn; [constructor|]. destruct (is_ipv4 (c_addr c)) eqn:E; [|done].
  constructor; [|done]. by apply (chunk_contact_back 0).
Qed.

Lemma length_concat_const {A} n (ls : list (list A)) : Forall (fun c => length c = n) ls ->
  length (concat ls) = (length ls * n)%nat.
Proof. induction 1 as [|c ls Hc Hl IH]; [done|]. cbn. rewrite length_app, IH. lia. Qed.

Lemma nodes_roundtrip clock nodes : Forall (fun c => contact_ok c = true) nodes ->
  parse_nodes_bytes clock (nodes_to_bytes nodes) = Ok (heard clock 0 nodes).
Proof.
  intros H. unfold parse_nodes_bytes. rewrite nodes_to_bytes_eq. pose proof (filter_contacts_len _ H) as L.
  rewrite (length_concat_const 26), Nat.Div0.mod_mul by done. cbn [Nat.eqb negb].
  rewrite as_chunks_concat by (done || lia). by rewrite parse_nodes_back.
Qed.

Lemma length_nodes_to_bytes nodes : Forall (fun c => contact_ok c = true) nodes ->
  (length (nodes_to_bytes nodes) <= length nodes * 26)%nat.
Proof.
  intros H. rewrite nodes_to_bytes_eq, (length_concat_const 26) by by apply filter_contacts_len.
  rewrite length_fmap. pose proof (filter_length_le (fun c => is_ipv4 (c_addr c)) nodes). lia.
Qed.

Definition usable (a : SocketAddr) : bool := is_ipv4 a && negb (sa_port a =? 0).

Lemma values_roundtrip values : Forall (fun a => addr_ok a = true) values ->
  parse_values_list (values_to_list values) = Ok (List.filter usable values).
Proof.
  unfold parse_values_list, values_to_list. cbn [as_list b_list mbind result_bind].
  induction 1 as [|a l Ha Hl IH]; [done|]. cbn [flat_map List.filter]. unfold usable at 1.
  destruct (is_ipv4 a) eqn:E; cbn [app andb]; [|done]. cbn [parse_values_loop b_bytes as_bytes mbind result_bind].
  rewrite IH. cbn [mbind result_bind]. destruct (addr_v4 a Ha E) as (x & y & z & w & Hx & Hp).
  rewrite Hx at 1. cbn [sock_addr sa_ip octets]. pose proof (port_back _ Hp) as Hb.
  destruct (to_be_two (sa_port a)) as (p1 & p2 & E2). rewrite E2 in *. cbn [app value_addr]. rewrite Hb.
  destruct (sa_port a =? 0); [done|]. cbn. by rewrite <- Hx.
Qed.

(** ** Dictionaries *)

Lemma build_dict_sorted entries : bt_sorted entries = true -> build_dict entries = BDict entries.
Proof.
  intros H. unfold build_dict. f_equal.
  assert (G : forall l acc : list (bytes * BencodeValue), bt_sorted (acc ++ l) = true ->
    foldl (fun d '(k, v) => bt_insert k v d) acc l = acc ++ l); [|by apply (G entries [])].
  clear. induction l as [|[k v] l IH]; intros acc H; cbn [foldl]; [by rewrite app_nil_r|].
  replace (acc ++ (k, v) :: l) with ((acc ++ [(k, v)]) ++ l) in * by (by rewrite <- app_assoc).
  rewrite (bt_insert_snoc None); [by apply IH|].
  clear IH. unfold bt_sorted in H. revert H. generalize (@None bytes).
  induction (acc ++ [(k, v)]) as [|[k' v'] m IH]; intros lo; [done|]. cbn. rewrite !andb_true_iff. intros [-> H].
  split; [done|]. by apply IH.
Qed.

Ltac sorted_dicts := repeat rewrite build_dict_sorted by (vm_compute; reflexivity).

(** ** Well-formed messages *)

Definition fits (b : bytes) : bool := in_u 64 (Z.of_nat (length b)).

Definition nodes_ok (l : list Contact) : bool := forallb contact_ok l && in_u 64 (26 * Z.of_nat (length l)).

Definition query_ok (q : Query) : bool :=
  match q with
  | Ping id => id_ok id
  | FindNode id target => id_ok id && id_ok target
  | GetPeers id info_hash => id_ok id && id_ok info_hash
  | AnnouncePeer id info_hash port token _ => id_ok id && id_ok info_hash && in_u 16 port && fits token
  end.

Definition response_ok (r : Response) : bool :=
  match r with
  | RId id => id_ok id
  | RNodes id nodes => id_ok id && nodes_ok nodes
  | RPeers id token values => id_ok id && fits token && forallb addr_ok values
  | RPeersNodes id token nodes => id_ok id && fits token && nodes_ok nodes
  end.

Definition message_ok (m : Message) : bool :=
  match m with
  | MQuery t q => fits t && query_ok q
  | MResponse t r => fits t && response_ok r
  | MError t code message => fits t && in_i64 code && fits message && utf8_valid message
  end.

(** What the other side reads of a message. *)
Definition heard_response (clock : nat -> Z) (r : Response) : Response :=
  match r with
  | RId id => RId id
  | RNodes id nodes => RNodes id (heard clock 0 nodes)
  | RPeers id token values => RPeers id token (List.filter usable values)
  | RPeersNodes id token nodes => RPeersNodes id token (heard clock 0 nodes)
  end.

Definition heard_message (clock : nat -> Z) (m : Message) : Message :=
  match m with MResponse t r => MResponse t (heard_response clock r) | _ => m end.

Lemma id_fits id : id_ok id = true -> in_u 64 (Z.of_nat (length id)) = true.
Proof. intros H%Nat.eqb_eq. by rewrite H. Qed.

Lemma nodes_fits l : nodes_ok l = true -> in_u 64 (Z.of_nat (length (nodes_to_bytes l))) = true.
Proof.
  unfold nodes_ok. intros [H1 H2]%andb_true_iff. apply in_u_spec in H2. apply in_u_spec.
  apply forallb_Forall_iff in H1. pose proof (length_nodes_to_bytes l H1). lia.
Qed.

Lemma values_wf l : forallb addr_ok l = true -> wf (values_to_list l) = true /\ (height (values_to_list l) <= 1)%nat.
Proof.
  unfold values_to_list, b_list, b_bytes. cbn [wf height]. induction l as [|a l IH]; [by split; cbn; lia|].
  cbn [forallb flat_map]. intros [Ha H]%andb_true_iff. destruct (IH H) as [H1 H2].
  destruct (is_ipv4 a) eqn:E; cbn [app]; [|done]. cbn [forallb wf foldr height]. rewrite H1. split; [|lia].
  destruct (addr_v4 a Ha E) as (x & y & z & w & -> & _). cbn [sock_addr sa_ip octets].
  rewrite length_app, length_to_be. done.
Qed.

Lemma port_i64 port : in_u 16 port = true -> in_i64 port = true.
Proof. rewrite in_u_spec. unfold in_i64, i64_min, i64_max. lia. Qed.

Lemma message_value_wf m : message_ok m = true -> wf (message_value m) = true /\ (height (message_value m) <= 4)%nat.
Proof.
  destruct m as [t q|t r|t code msg]; cbn [message_ok message_value]; intros H.
  - apply andb_true_iff in H as [Ht H]. unfold query_value.
    destruct q; cbn [query_ok] in H; bools; sorted_dicts.
    all: unfold b_bytes, b_int; split; [wf_dicts; first [by apply id_fits|by apply port_i64|done|by destruct implied_port]|cbn; lia].
  - apply andb_true_iff in H as [Ht H]. destruct r as [id|id nodes|id token values|id token nodes];
    cbn [response_ok] in H; bools; sorted_dicts.
    3: pose proof (values_wf values H0) as [Hv1 Hv2].
    all: unfold b_bytes, b_int; split; [wf_dicts; first [by apply id_fits|by apply nodes_fits|done]|cbn [height foldr]; lia].
  - bools. sorted_dicts. split; [|cbn; lia]. unfold b_bytes, b_list, b_int. wf_dicts; [|done]. cbn [wf forallb].
    unfold fits in *. by rewrite H2, H1.
Qed.

Lemma parse_encoded m : message_ok m = true -> parse_all (msg_encode m) = Ok (message_value m).
Proof.
  intros H. destruct (message_value_wf m H) as [Hw Hh]. unfold msg_encode. rewrite encode_to_bytes.
  apply parse_all_back; [done|]. unfold MAX_DEPTH. lia.
Qed.

Lemma bytes20_hit k b m : id_ok b = true -> bytes20_from ((k, BBytes b) :: m) k = Ok b.
Proof.
  intros H. unfold bytes20_from. rewrite bt_get_hit. cbn. unfold id_ok in H. by rewrite H.
Qed.

Lemma bytes20_skip k k' v m : bytes_eqb k k' = false -> bytes20_from ((k', v) :: m) k = bytes20_from m k.
Proof. intros H. unfold bytes20_from. by rewrite bt_get_skip. Qed.

Ltac ids := unfold node_id_from; repeat first [rewrite bytes20_hit by assumption | rewrite bytes20_skip by (vm_compute; reflexivity)];
  cbn [mbind result_bind].

Lemma nodes_back clock nodes : nodes_ok nodes = true ->
  parse_nodes_bytes clock (nodes_to_bytes nodes) = Ok (heard clock 0 nodes).
Proof. intros [H _]%andb_true_iff. apply nodes_roundtrip. by apply forallb_Forall_iff. Qed.

Lemma values_back values : forallb addr_ok values = true ->
  parse_values_list (values_to_list values) = Ok (List.filter usable values).
Proof. intros H. apply values_roundtrip. by apply forallb_Forall_iff. Qed.

Lemma decode_response_back clock t r : response_ok r = true ->
  match message_value (MResponse t r) with
  | BDict d => decode_response clock d = Ok (heard_response clock r)
  | _ => False
  end.
Proof.
  intros H. destruct r as [id|id nodes|id token values|id token nodes]; cbn [response_ok] in H; bools;
  cbn [message_value heard_response]; sorted_dicts; unfold decode_response, b_bytes; lookups; ids; lookups; try done;
  cbn [bt_get mbind option_bind fmap option_fmap option_map transpose unpanic as_bytes];
  cbn [result_bind]; rewrite ?nodes_back, ?values_back by done; done.
Qed.

Lemma decode_query_back t q : query_ok q = true ->
  match message_value (MQuery t q) with BDict d => decode_query d = Ok q | _ => False end.
Proof.
  intros H. destruct q as [id|id target|id ih|id ih port token imp]; cbn [query_ok] in H; bools;
  cbn [message_value]; unfold query_value; sorted_dicts; unfold decode_query, b_bytes; lookups; ids.
  - done.
  - done.
  - done.
  - lit_eqb. ids. unfold int_or_zero, b_int. lookups.
    cbn [unpanic default]. unfold u16_or_zero, Datatypes.id. rewrite H1. cbn. by destruct imp.
Qed.

Lemma decode_encoded clock m : message_ok m = true -> decode clock (msg_encode m) = Ok (heard_message clock m).
Proof.
  intros H. unfold decode. rewrite (parse_encoded m H). cbn [map_err mbind result_bind].
  destruct m as [t q|t r|t code msg]; cbn [message_ok] in H; bools.
  - pose proof (decode_query_back t q H0) as D. cbn [heard_message].
    destruct q; cbn [message_value] in *; revert D; unfold query_value; sorted_dicts; unfold b_bytes;
    intros D; lookups; lit_eqb; by rewrite D.
  - pose proof (decode_response_back clock t r H0) as D. cbn [heard_message].
    destruct r; cbn [message_value] in *; revert D; sorted_dicts; unfold b_bytes; intros D; lookups; lit_eqb; by rewrite D.
  - cbn [message_value heard_message]. sorted_dicts. unfold b_bytes, b_list, b_int. lookups. lit_eqb.
    unfold str_or_empty, as_str, index. cbn [length Nat.ltb Nat.leb lookup list_lookup mbind result_bind as_int as_bytes]. by rewrite H0.
Qed.

(** ** What decoding accepts *)

Definition heard_contact_ok (c : Contact) : bool :=
  contact_ok c && usable (c_addr c).

Lemma parse_nodes_loop_ok clock chunks : forall i, Forall (fun c => length c = 26%nat) chunks ->
  Forall (fun c => heard_contact_ok c = true) (parse_nodes_loop clock i chunks).
Proof.
  induction chunks as [|ch l IH]; intros i H; cbn [parse_nodes_loop]; [constructor|].
  apply list.Forall_cons in H as [Hc H]. unfold chunk_contact.
  destruct (drop 20 ch) as [|a [|b [|c [|d [|p1 [|p2 [|? ?]]]]]]] eqn:E; auto. cbn.
  destruct (Z.eqb_spec (from_be [p1; p2]) 0) as [|Hne]; [auto|]. constructor; [|auto].
  unfold heard_contact_ok, contact_ok, usable, addr_ok, id_ok. cbn [contact_new c_id c_addr sock_addr sa_ip sa_port sa_flow sa_scope].
  rewrite length_take, Hc. pose proof (from_be_range [p1; p2]) as R. cbn in R.
  rewrite (proj2 (in_u_spec 16 _)) by (cbn; lia). cbn. by rewrite (proj2 (Z.eqb_neq _ _)).
Qed.

Lemma parse_nodes_ok clock b nodes : parse_nodes_bytes clock b = Ok nodes ->
  Forall (fun c => heard_contact_ok c = true) nodes.
Proof.
  unfold parse_nodes_bytes. destruct (negb _); [done|]. intros [= <-]. apply parse_nodes_loop_ok, as_chunks_len.
Qed.

Lemma value_addr_ok b a : value_addr b = Some a -> addr_ok a = true /\ usable a = true.
Proof.
  destruct b as [|x [|y [|z [|w [|p1 [|p2 [|? ?]]]]]]]; try done. cbn.
  destruct (Z.eqb_spec (from_be [p1; p2]) 0) as [|Hne]; [done|]. intros [= <-].
  pose proof (from_be_range [p1; p2]) as R. cbn in R. unfold addr_ok, usable.
  cbn [sock_addr sa_ip sa_port sa_flow sa_scope]. rewrite (proj2 (in_u_spec 16 _)) by (cbn; lia). cbn.
  by rewrite (proj2 (Z.eqb_neq _ _)).
Qed.

Lemma parse_values_ok l vs : parse_values_loop l = Ok vs -> Forall (fun a => addr_ok a = true /\ usable a = true) vs.
Proof.
  revert vs. induction l as [|v l IH]; intros vs; cbn [parse_values_loop]; [intros [= <-]; constructor|].
  intros (b & Hb & (rest & Hr & H)%bind_Ok)%bind_Ok. injection H as <-.
  destruct (value_addr b) eqn:E; [|auto]. constructor; [by apply (value_addr_ok b)|auto].
Qed.

Lemma bytes20_ok d k b : bytes20_from d k = Ok b -> id_ok b = true.
Proof.
  unfold bytes20_from, id_ok. intros (v & _ & (b' & _ & H)%bind_Ok)%bind_Ok.
  destruct (length b' =? 20)%nat eqn:E; [|done]. by injection H as <-.
Qed.

Lemma parse_values_returns l : returns (parse_values_loop l) = true.
Proof.
  induction l as [|v l IH]; [done|]. cbn [parse_values_loop]. apply bind_returns; [by destruct v|].
  intros b _. apply bind_returns; [done|]. done.
Qed.

Lemma bytes20_returns d k : returns (bytes20_from d k) = true.
Proof. unfold bytes20_from. step_returns. Qed.

Lemma transpose_returns {A} (o : option (result A)) :
  (forall r, o = Some r -> returns r = true) -> returns (transpose o) = true.
Proof. destruct o as [r|]; [|done]. intros H. specialize (H r eq_refl). by destruct r. Qed.

Lemma decode_query_returns d : returns (decode_query d) = true.
Proof. unfold decode_query, node_id_from. step_returns; apply bytes20_returns. Qed.

Lemma decode_response_returns clock d : returns (decode_response clock d) = true.
Proof.
  unfold decode_response, node_id_from. step_returns; [apply bytes20_returns|..].
  - apply transpose_returns. intros r (b & _ & ->)%fmap_Some. unfold parse_nodes_bytes. step_returns.
  - apply transpose_returns. intros r (b & _ & ->)%fmap_Some. unfold parse_values_list. step_returns.
    apply parse_values_returns.
Qed.

Lemma index_returns_lt {A} (l : list A) i : (i < length l)%nat -> returns (index l i) = true.
Proof. intros H. by destruct (index_lt l i H) as [x ->]. Qed.

Lemma decode_returns clock buf : returns (decode clock buf) = true.
Proof.
  unfold decode. step_returns.
  - pose proof (parse_all_returns buf). by destruct (parse_all buf).
  - apply decode_query_returns.
  - apply decode_response_returns.
  - apply Nat.ltb_ge in Heqb2. apply index_returns_lt. lia.
  - apply Nat.ltb_ge in Heqb2. apply index_returns_lt. lia.
Qed.

Definition heard_ok (m : Message) : bool :=
  match m with
  | MResponse _ (RNodes _ nodes) | MResponse _ (RPeersNodes _ _ nodes) => forallb (fun c => usable (c_addr c)) nodes
  | MResponse _ (RPeers _ _ values) => forallb usable values
  | _ => true
  end.

Lemma length_parse_nodes clock chunks : forall i, (length (parse_nodes_loop clock i chunks) <= length chunks)%nat.
Proof.
  induction chunks as [|ch l IH]; intros i; cbn [parse_nodes_loop length]; [lia|]. specialize (IH (S i)).
  destruct (chunk_contact _ _) as [c|]; [destruct (_ =? _)|]; cbn [length]; lia.
Qed.

Lemma parse_nodes_nodes_ok clock b nodes : parse_nodes_bytes clock b = Ok nodes -> wf (BBytes b) = true ->
  nodes_ok nodes = true /\ forallb (fun c => usable (c_addr c)) nodes = true.
Proof.
  intros H Hb. pose proof (parse_nodes_ok clock b nodes H) as F. unfold parse_nodes_bytes in H.
  destruct (negb _); [done|]. injection H as <-. unfold nodes_ok. rewrite !andb_true_iff. split_and!.
  - apply forallb_Forall_iff. eapply list.Forall_impl; [exact F|]. unfold heard_contact_ok. intros c. cbn. by intros [-> _]%andb_true_iff.
  - pose proof (length_parse_nodes clock (as_chunks 26 b) 0) as L. unfold as_chunks in L at 2.
    rewrite length_fmap, length_seq in L. cbn [wf] in Hb. apply in_u_spec in Hb. apply in_u_spec.
    pose proof (Nat.Div0.mul_div_le (length b) 26). lia.
  - apply forallb_Forall_iff. eapply list.Forall_impl; [exact F|]. unfold heard_contact_ok. intros c. cbn. by intros [_ ->]%andb_true_iff.
Qed.

Lemma as_bytes_fits v b : wf v = true -> as_bytes v = Ok b -> fits b = true.
Proof. destruct v; try done. by intros H [= <-]. Qed.

Lemma get_bytes_fits d k b : forallb wf_entry d = true ->
  (bt_get k d ≫= fun v => unpanic (as_bytes v)) = Some b -> fits b = true.
Proof.
  intros Hd (v & Hv & H)%bind_Some. apply (as_bytes_fits v); [by eapply bt_get_wf|]. by destruct v; inversion H.
Qed.

Lemma transpose_Ok {A} (o : option (result A)) a : transpose o = Ok a ->
  (o = None /\ a = None) \/ exists x, o = Some (Ok x) /\ a = Some x.
Proof.
  destruct o as [r|]; cbn; [|intros [= <-]; by left]. destruct r; try done. intros [= <-]. right. eauto.
Qed.

Lemma decode_response_ok clock t d r : forallb wf_entry d = true -> decode_response clock d = Ok r ->
  response_ok r = true /\ heard_ok (MResponse t r) = true.
Proof.
  intros Hd H. unfold decode_response in H. repeat inv_ok H.
  apply ok_or_Ok in H0. pose proof (as_dict_wf _ _ (bt_get_wf _ _ _ Hd H0) H1) as Hr.
  pose proof (bytes20_ok _ _ _ H2) as Hid.
  assert (Ht : forall b, (bt_get (bs "token") v0 ≫= fun v => unpanic (as_bytes v)) = Some b -> fits b = true)
    by (intros b; by apply get_bytes_fits).
  assert (Hn : forall l, v2 = Some l -> nodes_ok l = true /\ forallb (fun c => usable (c_addr c)) l = true).
  { intros l ->. destruct (transpose_Ok _ _ H3) as [[_ ?]|(x & (b & Hb & E)%fmap_Some & [= ->])]; [done|].
    eapply (parse_nodes_nodes_ok clock b); [done|]. by apply (get_bytes_fits v0 (bs "nodes")). }
  assert (Hv : forall l, v3 = Some l -> forallb addr_ok l = true /\ forallb usable l = true).
  { intros l ->. destruct (transpose_Ok _ _ H4) as [[_ ?]|(x & (b & Hb & E)%fmap_Some & [= ->])]; [done|].
    symmetry in E. apply bind_Ok in E as (ls & _ & E). pose proof (parse_values_ok _ _ E) as F.
    split; apply forallb_Forall_iff; (eapply list.Forall_impl; [exact F|]); by intros a [? ?]. }
  rewrite <- H. clear H H0 H1 H2 H3 H4.
  destruct v2 as [nodes|], v3 as [values|], (bt_get (bs "token") v0 ≫= _) as [token|];
  cbn [response_ok heard_ok]; try (destruct (Hn _ eq_refl) as [-> ->]); try (destruct (Hv _ eq_refl) as [-> ->]);
  try rewrite (Ht _ eq_refl); by rewrite Hid.
Qed.

Lemma decode_query_ok d q : forallb wf_entry d = true -> decode_query d = Ok q -> query_ok q = true.
Proof.
  intros Hd H. unfold decode_query in H. repeat inv_ok H; unfold node_id_from in *.
  all: try match goal with H : bytes20_from _ (bs "id") = Ok _ |- _ => apply bytes20_ok in H end.
  all: try match goal with H : bytes20_from _ (bs "target") = Ok _ |- _ => apply bytes20_ok in H end.
  all: try match goal with H : bytes20_from _ (bs "info_hash") = Ok _ |- _ => apply bytes20_ok in H end.
  all: subst q; cbn [query_ok]; try done; try (apply andb_true_iff; by split).
  apply ok_or_Ok in H2, H6. pose proof (as_dict_wf _ _ (bt_get_wf _ _ _ Hd H2) H3) as Hr.
  rewrite H4, H5, (as_bytes_fits v5 v6) by (done || by apply (bt_get_wf v2 (bs "token"))).
  unfold u16_or_zero. destruct (in_u 16 (int_or_zero v2 (bs "port"))) eqn:E3; [by rewrite E3|done].
Qed.

Lemma str_or_empty_ok v : wf v = true -> fits (str_or_empty v) = true /\ utf8_valid (str_or_empty v) = true.
Proof.
  unfold str_or_empty, as_str. destruct v as [i|b|l|d]; cbn [as_bytes mbind result_bind]; intros H; [done| |done|done].
  destruct (utf8_valid b) eqn:E; [by split|done].
Qed.

Lemma decode_ok clock buf m : decode clock buf = Ok m -> message_ok m = true /\ heard_ok m = true.
Proof.
  intros H. unfold decode in H. apply bind_Ok in H as (v & Hv & H).
  assert (Hw : wf v = true) by (apply (parse_all_wf buf); by destruct (parse_all buf); inversion Hv).
  apply bind_Ok in H as (d & Hd & H). pose proof (as_dict_wf v d Hw Hd) as Hwd.
  apply bind_Ok in H as (tv & Htv%ok_or_Ok & H). apply bind_Ok in H as (t & Ht & H).
  assert (Hft : fits t = true) by (eapply as_bytes_fits; [by eapply bt_get_wf|done]).
  apply bind_Ok in H as (yv & _ & H). apply bind_Ok in H as (y & _ & H).
  destruct (bytes_eqb y (bs "q")); [|destruct (bytes_eqb y (bs "r")); [|destruct (bytes_eqb y (bs "e")); [|done]]].
  - apply bind_Ok in H as (q & Hq & [= <-]). cbn [message_ok heard_ok]. by rewrite Hft, (decode_query_ok d q).
  - apply bind_Ok in H as (r & Hr & [= <-]). destruct (decode_response_ok clock t d r Hwd Hr) as [E1 E2].
    cbn [message_ok]. by rewrite Hft, E1.
  - apply bind_Ok in H as (ev & Hev%ok_or_Ok & H). apply bind_Ok in H as (el & Hel & H).
    pose proof (as_list_wf _ _ (bt_get_wf _ _ _ Hwd Hev) Hel) as Fl. destruct (_ <? _)%nat; [done|].
    apply bind_Ok in H as (e0 & H0 & H). apply bind_Ok in H as (code & Hc & H). apply bind_Ok in H as (e1 & H1 & [= <-]).
    unfold index in H0, H1. destruct (el !! 0%nat) as [e0'|] eqn:L0; [|done]. destruct (el !! 1%nat) as [e1'|] eqn:L1; [|done].
    injection H0 as ->. injection H1 as ->. rewrite list.Forall_lookup in Fl. pose proof (Fl _ _ L0) as W0. pose proof (Fl _ _ L1) as W1.
    cbn [message_ok heard_ok]. destruct (str_or_empty_ok e1 W1) as [-> ->]. rewrite Hft. split; [|done].
    destruct e0; try done. injection Hc as <-. cbn in W0. by rewrite W0.
Qed.

(** A message without the time its contacts were seen. *)
Definition untimed_contact (c : Contact) : Contact := mkContact (c_id c) (c_addr c) 0.

Definition untimed (m : Message) : Message :=
  match m with
  | MResponse t (RNodes id nodes) => MResponse t (RNodes id (untimed_contact <$> nodes))
  | MResponse t (RPeersNodes id token nodes) => MResponse t (RPeersNodes id token (untimed_contact <$> nodes))
  | _ => m
  end.

Lemma heard_usable clock l : forall i, forallb (fun c => usable (c_addr c)) l = true ->
  untimed_contact <$> heard clock i l = untimed_contact <$> l.
Proof.
  induction l as [|c l IH]; intros i; [done|]. cbn [forallb heard]. unfold usable at 1.
  intros [[-> ->%negb_true_iff]%andb_true_iff H]%andb_true_iff. cbn. by rewrite IH.
Qed.

Lemma filter_all {A} (p : A -> bool) l : forallb p l = true -> List.filter p l = l.
Proof. induction l as [|x l IH]; [done|]. cbn. intros [-> H]%andb_true_iff. by rewrite IH. Qed.

Lemma heard_untimed clock m : heard_ok m = true -> untimed (heard_message clock m) = untimed m.
Proof.
  destruct m as [|t r|]; try done. destruct r; cbn [heard_ok heard_message heard_response untimed]; intros H; try done.
  - by rewrite heard_usable.
  - by rewrite filter_all.
  - by rewrite heard_usable.
Qed.

(** ** Theorems *)

(** KRPC messages survive the wire.  Encoding a message and decoding it gives
    the same message, for every query, response and error; of the contacts and
    peers in a response the other side reads exactly the IPv4 ones with a
    non-zero port, in order. *)
Lemma krpc_roundtrip clock m : message_ok m = true -> decode clock (msg_encode m) = Ok (heard_message clock m).
Proof. apply decode_encoded. Qed.

Definition krpc_ex : Message :=
  MResponse (bs "aa") (RPeersNodes (id_ex x01) (bs "tok") [contact_ex x05]).

Lemma krpc_roundtrip_witness :
  message_ok krpc_ex = true /\ decode (fun _ => 0) (msg_encode krpc_ex) = Ok (heard_message (fun _ => 0) krpc_ex).
Proof. split; [vm_compute; reflexivity|]. apply (krpc_roundtrip (fun _ => 0) krpc_ex). vm_compute. reflexivity. Defined.

(** C28: decoding hostile datagrams.  On every input [decode] returns a message or an
    error, never a panic.  A message it returns is well typed: ids and info hashes
    of twenty bytes, 16-bit ports, 64-bit error codes, UTF-8 error text, contacts
    and peers that are IPv4 with a non-zero port; and it is a fixed point of the
    codec: encoded and decoded again it is the same message. *)
Theorem krpc_decode_typed clock clock' buf :
  returns (decode clock buf) = true /\
  forall m, decode clock buf = Ok m ->
    message_ok m = true /\ heard_ok m = true /\
    exists m', decode clock' (msg_encode m) = Ok m' /\ untimed m' = untimed m.
Proof.
  split; [apply decode_returns|]. intros m H. destruct (decode_ok clock buf m H) as [H1 H2].
  split_and!; [done..|]. exists (heard_message clock' m). split; [by apply decode_encoded|by apply heard_untimed].
Qed.

(** ** The state file ([persist.rs]) *)

Definition MAGIC : bytes := bs "RTDH".
Definition VERSION : byte := x01.

(** The file contents [save] writes; the [u32] counter is checked. *)
Definition save_bytes (node_id : NodeId) (table : RoutingTable) : result bytes :=
  let count := rt_len table in
  let contacts := closest table node_id count in
  let v4 := List.filter (fun c => is_ipv4 (c_addr c)) contacts in
  v4_contacts ← checked 32 (Z.of_nat (length v4));
  let payload := flat_map (fun c => c_id c ++ octets (sa_ip (c_addr c)) ++ to_be 2 (sa_port (c_addr c))) v4 in
  Ok (MAGIC ++ [VERSION] ++ node_id ++ to_be 4 v4_contacts ++ payload).

(** The loop of [load]: every chunk is a contact. *)
Fixpoint load_loop (clock : nat -> Z) (i : nat) (chunks : list bytes) : list Contact :=
  match chunks with
  | [] => []
  | chunk :: r =>
      match chunk_contact (clock i) chunk with
      | Some c => c :: load_loop clock (S i) r
      | None => load_loop clock (S i) r
      end
  end.

(** [load] on the contents of the file. *)
Definition load_bytes (clock : nat -> Z) (file : bytes) : option (NodeId * list Contact) :=
  if (length file <? 4 + 1 + 20 + 4)%nat then None
  else if negb (bytes_eqb (take 4 file) MAGIC) || negb (bool_decide (file !! 4%nat = Some VERSION)) then None
  else
    let id := slice file 5 20 in
    let n := from_be (slice file 25 4) in
    let expected := 4 + 1 + 20 + 4 + n * 26 in
    if negb (Z.of_nat (length file) =? expected) then None
    else Some (id, load_loop clock 0 (as_chunks 26 (drop 29 file))).

(** [dialable_warm_contacts] of [dht/mod.rs] *)
Definition dialable_warm_contacts (contacts : list Contact) (strict : bool) : list Contact :=
  List.filter (fun c => is_dialable_peer_addr (c_addr c) strict) contacts.

Definition retimed (clock : nat -> Z) (l : list Contact) : list Contact :=
  imap (fun i c => mkContact (c_id c) (c_addr c) (clock i)) l.

Lemma load_loop_back clock l : Forall (fun c => contact_ok c = true /\ is_ipv4 (c_addr c) = true) l ->
  forall i, load_loop clock i (contact_bytes <$> l) = imap (fun j c => mkContact (c_id c) (c_addr c) (clock (i + j)%nat)) l.
Proof.
  induction 1 as [|c l [Hc H4] Hl IH]; intros i; [done|]. cbn [fmap list_fmap load_loop].
  destruct (chunk_contact_back (clock i) c Hc H4) as [_ ->]. rewrite IH, imap_cons, Nat.add_0_r. f_equal.
  apply imap_ext. intros j x _. cbn. by rewrite Nat.add_succ_r.
Qed.

Lemma v4_payload l : Forall (fun c => contact_ok c = true /\ is_ipv4 (c_addr c) = true) l ->
  flat_map (fun c => c_id c ++ octets (sa_ip (c_addr c)) ++ to_be 2 (sa_port (c_addr c))) l = concat (contact_bytes <$> l) /\
  Forall (fun b => length b = 26%nat) (contact_bytes <$> l).
Proof.
  induction 1 as [|c l [Hc H4] Hl [IH1 IH2]]; [by split|]. cbn. split.
  - rewrite IH1. unfold contact_bytes at 2. by rewrite H4.
  - constructor; [|done]. by apply (chunk_contact_back 0).
Qed.

Lemma load_saved clock id n l : id_ok id = true -> Z.of_nat (length l) = n -> 0 <= n < 2 ^ 32 ->
  Forall (fun c => contact_ok c = true /\ is_ipv4 (c_addr c) = true) l ->
  load_bytes clock (MAGIC ++ [VERSION] ++ id ++ to_be 4 n ++ concat (contact_bytes <$> l)) = Some (id, retimed clock l).
Proof.
  intros Hid%Nat.eqb_eq Hn Hr Hl. destruct (v4_payload l Hl) as [_ Hlen].
  set (p := concat _). assert (Hp : length p = (length l * 26)%nat).
  { unfold p. rewrite (length_concat_const 26) by done. by rewrite length_fmap. }
  set (file := MAGIC ++ _). assert (Hf : length file = (29 + length l * 26)%nat).
  { unfold file. rewrite !length_app, length_to_be, Hid, Hp. cbn. lia. }
  unfold load_bytes. rewrite Hf. rewrite (proj2 (Nat.ltb_ge _ _)) by lia.
  assert (Hs : slice file 5 20 = id /\ from_be (slice file 25 4) = n /\ drop 29 file = p).
  { unfold slice, file. rewrite !app_assoc.
    split_and!.
    - rewrite <- !app_assoc. cbn [MAGIC]. change (MAGIC ++ [VERSION] ++ id ++ to_be 4 n ++ p) with ((MAGIC ++ [VERSION]) ++ id ++ to_be 4 n ++ p).
      rewrite (drop_app_length' (MAGIC ++ [VERSION])) by done. by rewrite take_app_length'.
    - rewrite <- (app_assoc _ (to_be 4 n) p). rewrite drop_app_length' by (rewrite length_app, Hid; done).
      rewrite take_app_length' by (by rewrite length_to_be). by apply from_to_be.
    - apply drop_app_length'. rewrite !length_app, length_to_be, Hid. done. }
  destruct Hs as (-> & -> & ->). change (take 4 file) with MAGIC. rewrite bytes_eqb_refl.
  change (file !! 4%nat) with (Some VERSION). rewrite bool_decide_true by done. cbn [negb orb].
  rewrite (proj2 (Z.eqb_eq _ _)) by lia. cbn [negb]. unfold p. rewrite as_chunks_concat by (done || lia).
  rewrite load_loop_back by done. done.
Qed.

Lemma untimed_retimed clock l : untimed_contact <$> retimed clock l = untimed_contact <$> l.
Proof.
  unfold retimed. rewrite fmap_imap. rewrite <- (list_fmap_id (untimed_contact <$> l)).
  apply list_eq. intros i. rewrite list_lookup_imap, !list_lookup_fmap. by destruct (l !! i).
Qed.

Lemma filter_perm {A} (p : A -> bool) l k : l ≡ₚ k -> List.filter p l ≡ₚ List.filter p k.
Proof.
  induction 1 as [|x l k _ IH|x y l|l k m _ IH1 _ IH2]; cbn; [done| | |by rewrite IH1].
  - destruct (p x); by rewrite IH.
  - destruct (p x), (p y); try done. constructor.
Qed.

(** The state file restores the DHT.  What [save] writes for a well-formed table
    (the [u32] counter cannot overflow), [load] reads back as the same node id and
    exactly the table's IPv4 contacts, ids and addresses unchanged. *)
Lemma persist_roundtrip clock id t : id_ok id = true -> table_ok t ->
  Forall (fun c => addr_ok (c_addr c) = true) (all_contacts t) ->
  exists file l, save_bytes id t = Ok file /\ load_bytes clock file = Some (id, l) /\
    untimed_contact <$> l ≡ₚ untimed_contact <$> List.filter (fun c => is_ipv4 (c_addr c)) (all_contacts t).
Proof.
  intros Hid Ht Ha. unfold save_bytes, closest. set (s := sort_by _ _).
  assert (P : s ≡ₚ all_contacts t) by apply sort_by_perm.
  rewrite rt_len_eq, take_ge by (by rewrite P). set (v4 := List.filter _ s).
  assert (Hv : Forall (fun c => contact_ok c = true /\ is_ipv4 (c_addr c) = true) v4).
  { apply list.Forall_forall. intros c Hc. apply list_elem_of_In, filter_In in Hc as [Hc H4].
    apply list_elem_of_In in Hc. rewrite P in Hc. rewrite list.Forall_forall in Ha. split; [|done].
    unfold contact_ok. by rewrite (all_ok t c Ht Hc), (Ha c Hc). }
  assert (Hlen : 0 <= Z.of_nat (length v4) < 2 ^ 32).
  { pose proof (filter_length_le (fun c => is_ipv4 (c_addr c)) s) as L. fold v4 in L. rewrite P, <- rt_len_eq in L.
    pose proof (table_size t Ht) as T. unfold K in T. lia. }
  rewrite checked_small by done. cbn [mbind result_bind]. destruct (v4_payload v4 Hv) as [-> _].
  eexists _, (retimed clock v4). split; [done|]. split; [by apply load_saved|].
  rewrite untimed_retimed. unfold v4. by rewrite (filter_perm _ _ _ P).
Qed.

Lemma persist_roundtrip_witness :
  exists file l, save_bytes (id_ex x01) table_ex = Ok file /\ load_bytes (fun _ => 0) file = Some (id_ex x01, l) /\
    untimed_contact <$> l ≡ₚ untimed_contact <$> List.filter (fun c => is_ipv4 (c_addr c)) (all_contacts table_ex).
Proof.
  apply (persist_roundtrip (fun _ => 0) (id_ex x01) table_ex); [reflexivity|apply table_ex_ok|].
  apply list.Forall_forall. intros c Hc. vm_compute in Hc |- *.
  repeat (apply elem_of_cons in Hc as [->|Hc]; [reflexivity|]). by apply not_elem_of_nil in Hc.
Defined.
