(* ===== verification/DhtServer.v ===== *)
(** * The DHT node: [src/src/dht/server.rs]

    The state behind the UDP socket (routing table, pending queries, announced
    peers, tokens, per-source limits), the handler of a datagram, outgoing
    queries and the iterative lookups.  A handler is one step: its clock readings
    are one argument [now], random bytes are arguments, what it sends and the
    replies it hands to waiting queries are its outputs.  SHA-1 is a parameter. *)

From Stdlib Require Import ZArith Lia String Strings.Byte Sorting.Sorted.
From stdpp Require Import base tactics numbers list option gmap fin_maps sorting.
From S2P Require Import Prelude Bencode Net Float64 RateLimit DhtTable Krpc.

#[local] Set Warnings "-register-all".

Definition SECS : Z := 1000000000.
Definition ALPHA : nat := 3.
Definition TOKEN_TTL : Z := 10 * 60 * SECS.
Definition MAX_DATAGRAM : nat := 1500.
Definition ANNOUNCE_TTL : Z := 30 * 60 * SECS.
Definition MAX_PEERS_PER_INFO_HASH : nat := 256.
Definition MAX_INFO_HASHES : N := 16384.
Definition QUERY_BURST : f64 := of_int 20.
Definition QUERY_RATE_PER_SEC : f64 := of_int 5.
Definition MAX_QUERY_LIMIT_IPS : N := 4096.

(** [info_hash -> list of (address, when we learned it)] *)
Abbreviation PeerStore := (gmap bytes (list (SocketAddr * Z))).

Record TokenState := mkTokens { current : bytes; previous : bytes; last_rotated : Z }.

(** [reply] names the waiting query. *)
Record PendingQuery := mkPending { reply : nat; target : SocketAddr }.

Inductive KrpcReply :=
  | KResponse (r : Response)
  | KError (code : Z) (message : bytes).

Record SharedState := mkShared {
  ss_id : NodeId;
  strict_martians : bool;
  routing : RoutingTable;
  pending : gmap bytes PendingQuery;
  peer_store : PeerStore;
  token_state : TokenState;
  query_limits : gmap IpAddr TokenBucket
}.

(** What a step does to the outside. *)
Inductive Output :=
  | Sent (dest : SocketAddr) (datagram : bytes)
  | Delivered (query : nat) (reply : KrpcReply).

Definition with_routing rt s := mkShared (ss_id s) (strict_martians s) rt (pending s) (peer_store s) (token_state s) (query_limits s).
Definition with_pending p s := mkShared (ss_id s) (strict_martians s) (routing s) p (peer_store s) (token_state s) (query_limits s).
Definition with_store p s := mkShared (ss_id s) (strict_martians s) (routing s) (pending s) p (token_state s) (query_limits s).
Definition with_tokens t s := mkShared (ss_id s) (strict_martians s) (routing s) (pending s) (peer_store s) t (query_limits s).
Definition with_limits l s := mkShared (ss_id s) (strict_martians s) (routing s) (pending s) (peer_store s) (token_state s) l.

Definition shared_new (now : Z) (id : NodeId) (strict : bool) (salt1 salt2 : bytes) : SharedState :=
  mkShared id strict (table_new id) ∅ ∅ (mkTokens salt1 salt2 now) ∅.

(** ** Parts of the state *)

Definition insert_contact (now : Z) (id : NodeId) (addr : SocketAddr) : M SharedState bool := fun s =>
  let '(rt, r) := rt_insert (fun _ => now) (contact_new now id addr) (routing s) in (with_routing rt s, r).

Definition allow_query_from (now : Z) (ip : IpAddr) (s : SharedState) : SharedState * bool :=
  let limits := query_limits s in
  let limits :=
    if bool_decide (MAX_QUERY_LIMIT_IPS < N.of_nat (size limits))%N then
      filter (fun kb => flt (tokens kb.2) (fsub QUERY_BURST (of_int 1)) = true) (refill now <$> limits)
    else limits in
  let b := default (bucket_new now QUERY_BURST QUERY_RATE_PER_SEC) (limits !! ip) in
  let '(b', ok) := try_consume now (of_int 1) b in
  (with_limits (<[ip := b']> limits) s, ok).

Section tokens.
Context (sha1 : bytes -> bytes).

Definition token_for (addr : SocketAddr) (salt : bytes) : bytes := take 8 (sha1 (salt ++ octets (sa_ip addr))).

(** [fresh] are the random bytes of a rotation. *)
Definition issue_token (now : Z) (fresh : bytes) (addr : SocketAddr) (s : SharedState) : SharedState * bytes :=
  let ts := token_state s in
  let ts := if TOKEN_TTL <=? sat_sub now (last_rotated ts) then mkTokens fresh (current ts) now else ts in
  (with_tokens ts s, token_for addr (current ts)).

Definition verify_token (s : SharedState) (addr : SocketAddr) (token : bytes) : bool :=
  bytes_eqb token (token_for addr (current (token_state s)))
  || bytes_eqb token (token_for addr (previous (token_state s))).

Definition prune_peer_store (now : Z) (s : SharedState) : SharedState :=
  let keep := List.filter (fun e : SocketAddr * Z => sat_sub now e.2 <=? ANNOUNCE_TTL) in
  with_store (filter (fun kv => kv.2 <> []) (keep <$> peer_store s)) s.

(** The list of one info hash after an announce: the newest last, the oldest
    dropped beyond the cap. *)
Definition add_announcer (now : Z) (peer_addr : SocketAddr) (entry : list (SocketAddr * Z)) : list (SocketAddr * Z) :=
  let entry := List.filter (fun e : SocketAddr * Z => negb (bool_decide (e.1 = peer_addr))) entry in
  let entry := entry ++ [(peer_addr, now)] in
  if (MAX_PEERS_PER_INFO_HASH <? length entry)%nat then drop (length entry - MAX_PEERS_PER_INFO_HASH) entry else entry.

Definition record_announce (now : Z) (info_hash : bytes) (peer_addr : SocketAddr) (s : SharedState) : SharedState :=
  let store := peer_store s in
  if bool_decide (N.of_nat (size store) < MAX_INFO_HASHES)%N || bool_decide (is_Some (store !! info_hash)) then
    with_store (<[info_hash := add_announcer now peer_addr (default [] (store !! info_hash))]> store) s
  else s.

(** ** Datagrams *)

Definition response_id (r : Response) : NodeId :=
  match r with RId id | RNodes id _ | RPeers id _ _ | RPeersNodes id _ _ => id end.

Definition query_id (q : Query) : NodeId :=
  match q with Ping id | FindNode id _ | GetPeers id _ | AnnouncePeer id _ _ _ _ => id end.

(** [Error { code: 203, .. }] in answer to a bad token. *)
Definition bad_token (transaction_id : bytes) : Message := MError transaction_id 203 (bs "bad token").

(** The response to a query after the sender was entered into the table;
    [None] means the answer is the error above. *)
Definition respond (now : Z) (fresh : bytes) (from : SocketAddr) (q : Query) (s : SharedState)
    : SharedState * option Response :=
  match q with
  | Ping _ => (s, Some (RId (ss_id s)))
  | FindNode _ tgt => (s, Some (RNodes (ss_id s) (closest (routing s) tgt K)))
  | GetPeers _ info_hash =>
      let '(s, token) := issue_token now fresh from s in
      let peers := (default [] (peer_store s !! info_hash)).*1 in
      if negb (length peers =? 0)%nat then (s, Some (RPeers (ss_id s) token peers))
      else (s, Some (RPeersNodes (ss_id s) token (closest (routing s) info_hash K)))
  | AnnouncePeer _ info_hash port token implied_port =>
      if negb (verify_token s from token) then (s, None)
      else
        let advertised_port := if implied_port then sa_port from else port in
        (record_announce now info_hash (sock_addr (sa_ip from) advertised_port) s, Some (RId (ss_id s)))
  end.

Definition answer_query (now : Z) (fresh : bytes) (from : SocketAddr) (transaction_id : bytes) (q : Query)
    : M SharedState (list Output) :=
  _ ← insert_contact now (query_id q) from;
  (fun s =>
    let '(s, r) := respond now fresh from q s in
    let msg := match r with Some r => MResponse transaction_id r | None => bad_token transaction_id end in
    (s, Ok [Sent from (msg_encode msg)])) : M SharedState (list Output).

(** Hand a reply to the query that waits for it, if it comes from the queried address. *)
Definition route_reply (from : SocketAddr) (transaction_id : bytes) (r : KrpcReply) (s : SharedState)
    : SharedState * list Output :=
  match pending s !! transaction_id with
  | Some p =>
      if bool_decide (target p = from) then (with_pending (delete transaction_id (pending s)) s, [Delivered (reply p) r])
      else (s, [])
  | None => (s, [])
  end.

Definition handle_datagram (now : Z) (fresh : bytes) (from : SocketAddr) (bytes : bytes) : M SharedState (list Output) :=
  fun s =>
  match decode (fun _ => now) bytes with
  | Ok (MQuery t q) =>
      let '(s, ok) := allow_query_from now (sa_ip from) s in
      if ok then answer_query now fresh from t q s else (s, Ok [])
  | Ok (MResponse t r) =>
      (_ ← insert_contact now (response_id r) from;
       (fun s => let '(s, out) := route_reply from t (KResponse r) s in (s, Ok out)) : M SharedState (list Output)) s
  | Ok (MError t code message) =>
      let '(s, out) := route_reply from t (KError code message) s in (s, Ok out)
  | Err _ => (s, Ok [])
  | Panic => (s, Panic)
  | NoFuel => (s, NoFuel)
  end.
End tokens.

(** ** Outgoing queries *)

(** [send_query] up to the wait: register under a random transaction id, send. *)
Definition send_query (txid : bytes) (query : nat) (addr : SocketAddr) (q : Query) (s : SharedState)
    : SharedState * list Output :=
  (with_pending (<[txid := mkPending query addr]> (pending s)) s, [Sent addr (msg_encode (MQuery txid q))]).

(** Its end without a response: a failed send, a timeout, an error reply or a closed channel. *)
Definition abandon_query (txid : bytes) (s : SharedState) : SharedState := with_pending (delete txid (pending s)) s.

(** ** Learning contacts and iterative lookups *)

Definition dialable_nodes (nodes : list Contact) (strict : bool) : list Contact :=
  List.filter (fun c => is_dialable_peer_addr (c_addr c) strict) nodes.

Definition response_nodes (r : Response) : option (list Contact) :=
  match r with RNodes _ nodes | RPeersNodes _ _ nodes => Some nodes | _ => None end.

Definition ingest_nodes_from (now : Z) (r : Response) (s : SharedState) : SharedState :=
  match response_nodes r with
  | Some nodes =>
      with_routing (foldl (fun rt c => (rt_insert (fun _ => now) c rt).1) (routing s)
        (dialable_nodes nodes (strict_martians s))) s
  | None => s
  end.

(** [dedup_by_key(|c| c.id)]: drop an element equal to the one kept before it. *)
Fixpoint dedup_by_id (l : list Contact) : list Contact :=
  match l with
  | [] => []
  | c :: l' =>
      match dedup_by_id l' with
      | d :: r => if bytes_eqb (c_id c) (c_id d) then c :: r else c :: d :: r
      | [] => [c]
      end
  end.

(** Up to [ALPHA] closest contacts not asked yet. *)
Definition next_batch (shortlist : list Contact) (queried : gset bytes) : list Contact :=
  take ALPHA (List.filter (fun c => negb (bool_decide (c_id c ∈ queried))) shortlist).

Definition mark (queried : gset bytes) (batch : list Contact) : gset bytes :=
  foldl (fun q c => {[c_id c]} ∪ q) queried batch.

(** The end of a round: nearest first, without repetition, at most [K * 4]. *)
Definition settle (tgt : NodeId) (shortlist : list Contact) : list Contact :=
  take (K * 4) (dedup_by_id (sort_by (closer tgt) shortlist)).

(** A lookup in progress; [peers] and [tokens] are used by [get_peers] and [announce]. *)
Record Lookup := mkLookup {
  shortlist : list Contact;
  queried : gset bytes;
  peers : list SocketAddr;
  toks : gmap bytes (bytes * SocketAddr)
}.

Definition lookup_new (s : SharedState) (tgt : NodeId) : Lookup :=
  mkLookup (closest (routing s) tgt (K * 2)) ∅ [] ∅.

Inductive Kind := KFind | KPeers | KAnnounce.

(** What one reply adds, for each of the three loops. *)
Definition push_new (l : list SocketAddr) (v : SocketAddr) : list SocketAddr :=
  if bool_decide (v ∈ l) then l else l ++ [v].

Definition absorb (k : Kind) (strict : bool) (c : Contact) (r : Response) (l : Lookup) : Lookup :=
  match k, r with
  | KFind, RNodes _ nodes =>
      mkLookup (shortlist l ++ dialable_nodes nodes strict) (queried l) (peers l) (toks l)
  | KFind, _ => l
  | KPeers, RPeers _ token values =>
      mkLookup (shortlist l) (queried l) (foldl push_new (peers l) values) (<[c_id c := (token, c_addr c)]> (toks l))
  | KAnnounce, RPeers _ token _ =>
      mkLookup (shortlist l) (queried l) (peers l) (<[c_id c := (token, c_addr c)]> (toks l))
  | _, RPeersNodes _ token nodes =>
      mkLookup (shortlist l ++ dialable_nodes nodes strict) (queried l) (peers l) (<[c_id c := (token, c_addr c)]> (toks l))
  | _, _ => l
  end.

(** The replies of a batch, in the order the tasks are awaited. *)
Fixpoint absorb_all (k : Kind) (now : Z) (batch : list Contact) (replies : list (option Response))
    (sl : SharedState * Lookup) : SharedState * Lookup :=
  match batch, replies with
  | c :: batch, Some r :: replies =>
      absorb_all k now batch replies (ingest_nodes_from now r sl.1, absorb k (strict_martians sl.1) c r sl.2)
  | _ :: batch, None :: replies => absorb_all k now batch replies sl
  | _, _ => sl
  end.

(** The [while] loop.  [rounds] gives, for each turn the time budget allows, the
    clock and the replies; the contacts asked are returned in order. *)
Fixpoint lookup_loop (k : Kind) (tgt : NodeId) (rounds : list (Z * list (option Response)))
    (sl : SharedState * Lookup) : SharedState * Lookup * list Contact :=
  match rounds with
  | [] => (sl, [])
  | (now, replies) :: rounds =>
      let batch := next_batch (shortlist sl.2) (queried sl.2) in
      if (length batch =? 0)%nat then (sl, [])
      else
        let l := mkLookup (shortlist sl.2) (mark (queried sl.2) batch) (peers sl.2) (toks sl.2) in
        let '(s, l) := absorb_all k now batch replies (sl.1, l) in
        let l := mkLookup (settle tgt (shortlist l)) (queried l) (peers l) (toks l) in
        match k with
        | KPeers =>
            if (20 <=? length (peers l))%nat then (s, l, batch)
            else let '(sl, asked) := lookup_loop k tgt rounds (s, l) in (sl, batch ++ asked)
        | _ => let '(sl, asked) := lookup_loop k tgt rounds (s, l) in (sl, batch ++ asked)
        end
  end.

Definition lookup_find_node (tgt : NodeId) (rounds : list (Z * list (option Response))) (s : SharedState)
    : SharedState * list Contact :=
  let '(s, l, _) := lookup_loop KFind tgt rounds (s, lookup_new s tgt) in (s, take K (shortlist l)).

Definition lookup_get_peers (info_hash : bytes) (rounds : list (Z * list (option Response))) (s : SharedState)
    : SharedState * list SocketAddr :=
  let '(s, l, _) := lookup_loop KPeers info_hash rounds (s, lookup_new s info_hash) in (s, peers l).

(** The announcements [announce_peer] sends: the closest nodes that gave a token. *)
Definition tok_closer (tgt : NodeId) (a b : bytes * (bytes * SocketAddr)) : bool :=
  bytes_ltb (distance a.1 tgt) (distance b.1 tgt).

Definition announce_targets (tgt : NodeId) (l : Lookup) : list (bytes * (bytes * SocketAddr)) :=
  take K (sort_by (tok_closer tgt) (map_to_list (toks l))).

Definition announce_peer (info_hash : bytes) (port : Z) (rounds : list (Z * list (option Response))) (s : SharedState)
    : SharedState * list (SocketAddr * Query) :=
  let '(s, l, _) := lookup_loop KAnnounce info_hash rounds (s, lookup_new s info_hash) in
  (s, (fun e => (e.2.2, AnnouncePeer (ss_id s) info_hash port e.2.1 false)) <$> announce_targets info_hash l).

Definition first_dialable_v4 (addrs : list SocketAddr) : option SocketAddr :=
  head (List.filter (fun a => is_ipv4 a && is_dialable_resolved_ip (sa_ip a) false) addrs).

(** ** The invariant *)

Definition addrs_ok (t : RoutingTable) : Prop := Forall (fun c => addr_ok (c_addr c) = true) (all_contacts t).

Definition entry_ok (l : list (SocketAddr * Z)) : Prop :=
  (length l <= MAX_PEERS_PER_INFO_HASH)%nat /\ NoDup l.*1 /\ Forall (fun e => addr_ok e.1 = true) l.

Definition store_ok (ps : PeerStore) : Prop :=
  (N.of_nat (size ps) <= MAX_INFO_HASHES)%N /\ forall h l, ps !! h = Some l -> entry_ok l.

Record state_ok (s : SharedState) : Prop := mkStateOk {
  so_table : table_ok (routing s);
  so_id : local_id (routing s) = ss_id s;
  so_addrs : addrs_ok (routing s);
  so_store : store_ok (peer_store s)
}.

Lemma insert_contact_ok now id addr s : state_ok s -> id_ok id = true -> addr_ok addr = true ->
  exists rt b, insert_contact now id addr s = (with_routing rt s, Ok b) /\ state_ok (with_routing rt s).
Proof.
  intros [Ht Hi Ha Hs] Hid Hadr. unfold insert_contact. set (c := contact_new now id addr).
  destruct (rt_insert_ok (fun _ => now) c (routing s) Ht Hid) as (H1 & H2 & _).
  destruct (rt_insert_policy (fun _ => now) c (routing s) Ht Hid) as (ok & H3 & _ & H4 & _).
  destruct (rt_insert _ c (routing s)) as [rt r]. cbn [fst snd] in *. subst r.
  exists rt, ok. split; [done|]. constructor; cbn; [done|congruence| |done].
  apply list.Forall_forall. intros d [->|Hd]%H4; [done|]. unfold addrs_ok in Ha. rewrite list.Forall_forall in Ha. by apply Ha.
Qed.

Lemma with_limits_ok l s : state_ok s -> state_ok (with_limits l s).
Proof. by intros []. Qed.
Lemma with_pending_ok l s : state_ok s -> state_ok (with_pending l s).
Proof. by intros []. Qed.
Lemma with_tokens_ok l s : state_ok s -> state_ok (with_tokens l s).
Proof. by intros []. Qed.

Lemma filter_sublist {A} (p : A -> bool) l : sublist (List.filter p l) l.
Proof. induction l as [|x l IH]; cbn; [constructor|]. destruct (p x); by constructor. Qed.

Lemma sublist_fmap_nodup {A B} (f : A -> B) l k : sublist l k -> NoDup (f <$> k) -> NoDup (f <$> l).
Proof. intros H Hn. eapply sublist_NoDup; [exact Hn|]. clear Hn. induction H; [done|by apply sublist_skip|by apply sublist_cons]. Qed.

Lemma entry_ok_sub l k : sublist l k -> entry_ok k -> entry_ok l.
Proof.
  intros H (H1 & H2 & H3). split_and!.
  - apply sublist_length in H. lia.
  - by eapply (sublist_fmap_nodup fst).
  - eapply list.Forall_forall. intros x Hx. rewrite list.Forall_forall in H3. apply H3. by eapply elem_of_sublist.
Qed.

Lemma add_announcer_ok now a l : addr_ok a = true -> entry_ok l -> entry_ok (add_announcer now a l) /\ add_announcer now a l <> [].
Proof.
  intros Ha Hl. unfold add_announcer. set (p := fun e : SocketAddr * Z => negb (bool_decide (e.1 = a))).
  set (l1 := List.filter p l). pose proof (filter_sublist p l) as Hsub. fold l1 in Hsub.
  destruct (entry_ok_sub _ _ Hsub Hl) as (L1 & N1 & F1). set (l2 := l1 ++ [(a, now)]).
  assert (N2 : NoDup l2.*1).
  { unfold l2. rewrite fmap_app, Permutation_app_comm. cbn. constructor; [|done].
    intros (e & E & He)%list_elem_of_fmap. unfold l1 in He. apply list_elem_of_In, filter_In in He as [_ He].
    unfold p in He. rewrite <- E, bool_decide_true in He; done. }
  assert (F2 : Forall (fun e => addr_ok e.1 = true) l2).
  { apply list.Forall_app. split; [done|]. by repeat constructor. }
  assert (L2 : length l2 = (length l1 + 1)%nat) by (unfold l2; rewrite length_app; done).
  unfold entry_ok, MAX_PEERS_PER_INFO_HASH in *.
  destruct (Nat.ltb_spec 256 (length l2)).
  - split.
    + split_and!.
      * rewrite length_drop. lia.
      * eapply (sublist_fmap_nodup fst); [apply sublist_drop|done].
      * apply list.Forall_drop, F2.
    + intros E. apply (f_equal length) in E. rewrite length_drop in E. cbn in E. lia.
  - split; [by split_and!|]. intros E. rewrite E in L2. cbn in L2. lia.
Qed.

Lemma record_announce_ok now h a s : addr_ok a = true -> state_ok s -> state_ok (record_announce now h a s).
Proof.
  intros Ha Hs. unfold record_announce. destruct (_ || _) eqn:E; [|done].
  destruct Hs as [Ht Hi Had [Hn Hl]]. constructor; cbn; [done..|]. split.
  - apply orb_true_iff in E as [E%bool_decide_eq_true|E%bool_decide_eq_true].
    + destruct (peer_store s !! h) eqn:Eh.
      * by rewrite map_size_insert, Eh.
      * rewrite map_size_insert_None by done. lia.
    + destruct E as [l El]. by rewrite map_size_insert, El.
  - intros h' l. rewrite lookup_insert_Some. intros [[<- <-]|[_ H]]; [|by apply (Hl h')].
    apply add_announcer_ok; [done|]. destruct (peer_store s !! h) eqn:Eh; cbn; [by apply (Hl h)|].
    split_and!; cbn; [unfold MAX_PEERS_PER_INFO_HASH; lia|constructor|constructor].
Qed.

Lemma prune_ok now s : state_ok s -> state_ok (prune_peer_store now s).
Proof.
  intros [Ht Hi Had [Hn Hl]]. constructor; cbn; [done..|]. set (keep := List.filter _). split.
  - assert (size (filter (fun kv : bytes * list (SocketAddr * Z) => kv.2 <> []) (keep <$> peer_store s)) <= size (peer_store s))%nat; [|lia].
    rewrite <- (map_size_fmap keep (peer_store s)). apply map_subseteq_size, map_filter_subseteq.
  - intros h l. rewrite map_lookup_filter_Some, lookup_fmap_Some. intros [(k & <- & Hk) _].
    eapply entry_ok_sub; [apply filter_sublist|by apply (Hl h)].
Qed.

(** ** What a datagram does *)

Lemma closest_in t tgt n c : c ∈ closest t tgt n -> c ∈ all_contacts t.
Proof.
  unfold closest. intros H. rewrite <- (sort_by_perm (closer tgt) (all_contacts t)).
  eapply elem_of_sublist; [exact H|apply sublist_take].
Qed.

Lemma closest_nodes_ok s tgt : state_ok s -> nodes_ok (closest (routing s) tgt K) = true.
Proof.
  intros [Ht _ Ha _]. unfold nodes_ok. apply andb_true_iff. split.
  - apply forallb_Forall_iff, list.Forall_forall. intros c Hc%closest_in. unfold contact_ok.
    unfold addrs_ok in Ha. rewrite list.Forall_forall in Ha. by rewrite (all_ok _ c Ht Hc), (Ha c Hc).
  - apply in_u_spec. assert (length (closest (routing s) tgt K) <= K)%nat by (unfold closest; rewrite length_take; lia).
    unfold K in *. lia.
Qed.

Section server.
Context (sha1 : bytes -> bytes).

Lemma token_fits a salt : fits (token_for sha1 a salt) = true.
Proof.
  unfold fits, token_for. apply in_u_spec. rewrite length_take. lia.
Qed.

Lemma respond_ok now fresh from q s : state_ok s -> query_ok q = true -> addr_ok from = true ->
  state_ok (respond sha1 now fresh from q s).1 /\
  (forall r, (respond sha1 now fresh from q s).2 = Some r -> response_ok r = true).
Proof.
  intros Hs Hq Hf. pose proof Hs as [Ht Hi _ _]. assert (Hid : id_ok (ss_id s) = true) by (rewrite <- Hi; apply Ht).
  destruct q as [id|id tgt|id ih|id ih port token imp]; cbn [respond fst snd].
  - split; [done|]. by intros r [= <-].
  - split; [done|]. intros r [= <-]. cbn [response_ok]. by rewrite Hid, closest_nodes_ok.
  - unfold issue_token. set (ts := if (_ : bool) then (_ : TokenState) else _). set (s1 := with_tokens ts s).
    assert (Hs1 : state_ok s1) by by apply with_tokens_ok.
    set (vs := (default [] (peer_store s1 !! ih)).*1). destruct (negb (length vs =? 0)%nat); cbn [fst snd];
    (split; [done|]); intros r [= <-]; cbn [response_ok]; rewrite token_fits; cbn [ss_id s1 with_tokens]; rewrite Hid.
    + apply forallb_Forall_iff. unfold vs. destruct (peer_store s1 !! ih) as [l|] eqn:E; cbn; [|constructor].
      destruct (so_store _ Hs1) as [_ Hl]. destruct (Hl ih l E) as (_ & _ & F). by apply Forall_fmap.
    + by apply (closest_nodes_ok s1).
  - destruct (verify_token sha1 s from token); cbn [negb fst snd]; [|by split].
    split; [|by intros r [= <-]]. apply record_announce_ok; [|done].
    cbn in Hq. bools. unfold addr_ok in *. bools. cbn [sock_addr sa_ip sa_port sa_flow sa_scope].
    rewrite H3. destruct imp; [rewrite H5|rewrite H1]; by rewrite orb_true_r.
Qed.

Lemma route_reply_spec from t r s :
  (exists p, pending s !! t = Some p /\ target p = from /\
     route_reply from t r s = (with_pending (delete t (pending s)) s, [Delivered (reply p) r])) \/
  ((forall p, pending s !! t = Some p -> target p <> from) /\ route_reply from t r s = (s, [])).
Proof.
  unfold route_reply. destruct (pending s !! t) as [p|] eqn:E; [|right; by split].
  case_bool_decide as H; [left; eauto|right]. split; [|done]. by intros p' [= <-].
Qed.

(** The effects of one datagram, from a well-formed state. *)
Definition effects_ok (from : SocketAddr) (s s' : SharedState) (out : list Output) : Prop :=
  state_ok s' /\
  ((out = [] /\ pending s' = pending s) \/
   (exists m, out = [Sent from (msg_encode m)] /\ message_ok m = true /\ pending s' = pending s) \/
   (exists t p r, out = [Delivered (reply p) r] /\ pending s !! t = Some p /\ target p = from /\
      pending s' = delete t (pending s))).

Lemma route_effects from t r s0 s : state_ok s -> pending s = pending s0 ->
  effects_ok from s0 (route_reply from t r s).1 (route_reply from t r s).2.
Proof.
  intros Hs Hp. destruct (route_reply_spec from t r s) as [(p & H1 & H2 & ->)|[_ ->]]; cbn [fst snd]; split.
  - by apply with_pending_ok.
  - right; right. exists t, p, r. cbn. by rewrite <- Hp.
  - done.
  - by left.
Qed.

Lemma answer_effects now fresh from t q s0 s : state_ok s -> pending s = pending s0 -> fits t = true ->
  query_ok q = true -> addr_ok from = true ->
  exists s' out, answer_query sha1 now fresh from t q s = (s', Ok out) /\ effects_ok from s0 s' out.
Proof.
  intros Hs Hp Ht Hq Hf. unfold answer_query. msteps.
  assert (Hid : id_ok (query_id q) = true) by (destruct q; cbn in *; bools; done).
  destruct (insert_contact_ok now (query_id q) from s Hs Hid Hf) as (rt & b & -> & Hs1).
  set (s1 := with_routing rt s) in *. destruct (respond_ok now fresh from q s1 Hs1 Hq Hf) as [Hs2 Hr].
  assert (Hp2 : pending (respond sha1 now fresh from q s1).1 = pending s0).
  { destruct q; cbn [respond fst]; [done|done| |].
    - unfold issue_token. set (ts := if (_ : bool) then (_ : TokenState) else _). set (vs := (default _ _).*1). by destruct (negb _).
    - destruct (verify_token _ _ _ _); cbn [negb fst]; [|done]. unfold record_announce. by destruct (_ || _). }
  destruct (respond sha1 now fresh from q s1) as [s2 r]. cbn [fst snd] in *.
  eexists _, _. split; [done|]. split; [done|]. right; left. eexists. split; [done|]. split; [|done].
  destruct r as [r|]; cbn [message_ok bad_token]; rewrite Ht; [by rewrite (Hr r)|done].
Qed.

Lemma handle_effects now fresh from bytes s : state_ok s -> addr_ok from = true ->
  exists s' out, handle_datagram sha1 now fresh from bytes s = (s', Ok out) /\ effects_ok from s s' out.
Proof.
  intros Hs Hf. unfold handle_datagram. pose proof (decode_returns (fun _ => now) bytes) as Hret.
  destruct (decode _ bytes) as [m|e| |] eqn:E; try done.
  2: { exists s, []. split; [done|]. split; [done|by left]. }
  destruct (decode_ok _ _ _ E) as [Hm _]. destruct m as [t q|t r|t code msg]; cbn [message_ok] in Hm; bools.
  - destruct (allow_query_from now (sa_ip from) s) as [s1 ok] eqn:Ea. unfold allow_query_from in Ea.
    set (lim := if (_ : bool) then (_ : gmap IpAddr TokenBucket) else _) in Ea. destruct (try_consume _ _ _) as [b' ok']. injection Ea as <- <-.
    set (s1 := with_limits _ s). assert (Hs1 : state_ok s1) by by apply with_limits_ok.
    destruct ok'; [by apply answer_effects|]. eexists _, _. split; [done|]. split; [done|by left].
  - msteps. assert (Hid : id_ok (response_id r) = true) by (destruct r; cbn in *; bools; done).
    destruct (insert_contact_ok now (response_id r) from s Hs Hid Hf) as (rt & b & -> & Hs1).
    pose proof (route_effects from t (KResponse r) s (with_routing rt s) Hs1 eq_refl) as R.
    destruct (route_reply _ _ _ _) as [s2 out]. eauto.
  - pose proof (route_effects from t (KError code msg) s s Hs eq_refl) as R.
    destruct (route_reply _ _ _ _) as [s2 out]. eauto.
Qed.

(** ** Runs of the node *)

Inductive dht_step : SharedState -> SharedState -> Prop :=
  | st_datagram now fresh from bytes s s' out : addr_ok from = true ->
      handle_datagram sha1 now fresh from bytes s = (s', Ok out) -> dht_step s s'
  | st_send txid query addr q s : dht_step s (send_query txid query addr q s).1
  | st_abandon_query txid s : dht_step s (abandon_query txid s)
  | st_prune now s : dht_step s (prune_peer_store now s)
  | st_ingest now r s : response_ok r = true -> dht_step s (ingest_nodes_from now r s).

Lemma ingest_ok now r s : response_ok r = true -> state_ok s -> state_ok (ingest_nodes_from now r s).
Proof.
  intros Hr Hs. unfold ingest_nodes_from. destruct (response_nodes r) as [nodes|] eqn:E; [|done].
  assert (Hn : Forall (fun c => contact_ok c = true) (dialable_nodes nodes (strict_martians s))).
  { apply list.Forall_forall. intros c Hc. unfold dialable_nodes in Hc.
    apply list_elem_of_In, filter_In in Hc as [Hc _]. apply list_elem_of_In in Hc.
    assert (F : forallb contact_ok nodes = true).
    { destruct r; try done; injection E as ->; cbn [response_ok] in Hr; unfold nodes_ok in Hr; bools; done. }
    apply forallb_Forall_iff in F. rewrite list.Forall_forall in F. by apply F. }
  revert Hn. generalize (dialable_nodes nodes (strict_martians s)) as l. clear E.
  intros l Hl. assert (H : forall rt, state_ok (with_routing rt s) ->
    state_ok (with_routing (foldl (fun rt c => (rt_insert (fun _ => now) c rt).1) rt l) s)); [|apply H; by destruct s].
  induction Hl as [|c l Hc Hl IH]; intros rt Hrt; [done|]. cbn [foldl]. apply IH.
  unfold contact_ok in Hc. bools.
  destruct (insert_contact_ok (last_seen c) (c_id c) (c_addr c) (with_routing rt s) Hrt H H0) as (rt' & b & E & Hok).
  destruct Hrt as [Ht Hi Ha Hst]. cbn in *.
  destruct (rt_insert_ok (fun _ => now) c rt Ht H) as (H1 & H2 & _).
  destruct (rt_insert_policy (fun _ => now) c rt Ht H) as (ok & _ & _ & H4 & _).
  constructor; cbn; [done|congruence| |done].
  apply list.Forall_forall. intros d [->|Hd]%H4; [done|]. unfold addrs_ok in Ha. rewrite list.Forall_forall in Ha. by apply Ha.
Qed.

Lemma dht_step_ok s s' : dht_step s s' -> state_ok s -> state_ok s'.
Proof.
  intros [now fresh from bytes s1 s1' out Hf H|txid query addr q s1|txid s1|now s1|now r s1 Hr] Hs.
  - destruct (handle_effects now fresh from bytes s1 Hs Hf) as (s2 & o2 & E & [H2 _]). rewrite H in E. by injection E as -> ->.
  - by apply with_pending_ok.
  - by apply with_pending_ok.
  - by apply prune_ok.
  - by apply ingest_ok.
Qed.

Lemma shared_new_ok now id strict a b : id_ok id = true -> state_ok (shared_new now id strict a b).
Proof.
  intros H. constructor; cbn; [by apply table_new_ok|done| |].
  - unfold addrs_ok, all_contacts. cbn. constructor.
  - split; [by rewrite map_size_empty|]. intros h l. by rewrite lookup_empty.
Qed.

Lemma dht_steps_ok s s' : rtc dht_step s s' -> state_ok s -> state_ok s'.
Proof. induction 1; eauto using dht_step_ok. Qed.

(** ** Announces *)

Lemma allow_query_store now ip s : peer_store (allow_query_from now ip s).1 = peer_store s /\
  token_state (allow_query_from now ip s).1 = token_state s.
Proof. unfold allow_query_from. by destruct (try_consume _ _ _). Qed.

Lemma insert_contact_store now id a s : peer_store (insert_contact now id a s).1 = peer_store s /\
  token_state (insert_contact now id a s).1 = token_state s.
Proof. unfold insert_contact. by destruct (rt_insert _ _ _). Qed.

Lemma route_reply_store from t r s : peer_store (route_reply from t r s).1 = peer_store s.
Proof. destruct (route_reply_spec from t r s) as [(p & _ & _ & ->)|[_ ->]]; done. Qed.

Lemma add_announcer_last now a l : list.last (add_announcer now a l) = Some (a, now).
Proof.
  unfold add_announcer. set (k := List.filter _ l). destruct (Nat.ltb_spec MAX_PEERS_PER_INFO_HASH (length (k ++ [(a, now)]))) as [H|H].
  - rewrite drop_app_le; [by rewrite last_snoc|]. rewrite length_app in *. cbn in *. unfold MAX_PEERS_PER_INFO_HASH in *. lia.
  - by rewrite last_snoc.
Qed.

(** The store changes only through an announce with a token we issued to that IP. *)
Definition announced (now : Z) (from : SocketAddr) (bytes : bytes) (s s' : SharedState) : Prop :=
  exists t id ih port token imp l,
    decode (fun _ => now) bytes = Ok (MQuery t (AnnouncePeer id ih port token imp)) /\
    (token = token_for sha1 from (current (token_state s)) \/ token = token_for sha1 from (previous (token_state s))) /\
    peer_store s' = <[ih := l]> (peer_store s) /\
    list.last l = Some (sock_addr (sa_ip from) (if imp then sa_port from else port), now).

Lemma answer_store now fresh from t q s :
  peer_store (answer_query sha1 now fresh from t q s).1 = peer_store s \/
  exists id ih port token imp l, q = AnnouncePeer id ih port token imp /\ verify_token sha1 s from token = true /\
    peer_store (answer_query sha1 now fresh from t q s).1 = <[ih := l]> (peer_store s) /\
    list.last l = Some (sock_addr (sa_ip from) (if imp then sa_port from else port), now).
Proof.
  unfold answer_query. msteps. pose proof (insert_contact_store now (query_id q) from s) as [Hs Ht].
  destruct (insert_contact now (query_id q) from s) as [s1 r]. cbn [fst] in *. destruct r; try (left; done).
  destruct q as [id|id tgt|id ih|id ih port token imp]; cbn [respond].
  - by left.
  - by left.
  - left. unfold issue_token. destruct (negb _); done.
  - assert (Hv : verify_token sha1 s1 from token = verify_token sha1 s from token) by (unfold verify_token; by rewrite Ht).
    rewrite Hv. destruct (verify_token sha1 s from token) eqn:V; cbn [negb fst]; [|by left].
    unfold record_announce. destruct (_ || _); [|by left]. right.
    set (pa := sock_addr (sa_ip from) (if imp then sa_port from else port)).
    exists id, ih, port, token, imp, (add_announcer now pa (default [] (peer_store s !! ih))).
    split_and!; [done|done|by rewrite <- Hs|apply add_announcer_last].
Qed.
End server.

(** ** Lookups *)

Definition dist_to (tgt : NodeId) (c : Contact) : Z := dist (c_id c) tgt.

Lemma dedup_sublist l : sublist (dedup_by_id l) l.
Proof.
  induction l as [|c l IH]; cbn [dedup_by_id]; [constructor|]. destruct (dedup_by_id l) as [|d r].
  - by apply sublist_skip.
  - destruct (bytes_eqb _ _); [|by apply sublist_skip].
    apply sublist_skip. etransitivity; [|exact IH]. by apply sublist_cons.
Qed.

Lemma dedup_strict tgt l : Forall (fun c => id_ok (c_id c) = true) l ->
  StronglySorted (fun a b => dist_to tgt a <= dist_to tgt b) l ->
  StronglySorted (fun a b => dist_to tgt a < dist_to tgt b) (dedup_by_id l).
Proof.
  intros Hok. induction 1 as [|c l Hl IH Hc]; cbn [dedup_by_id]; [constructor|].
  apply list.Forall_cons in Hok as [Hcok Hok]. specialize (IH Hok). pose proof (dedup_sublist l) as Hsub.
  destruct (dedup_by_id l) as [|d r]; [repeat constructor|].
  apply StronglySorted_inv in IH as [Hr Hd]. rewrite list.Forall_forall in Hc, Hok, Hd.
  assert (Hin : d ∈ l) by (eapply elem_of_sublist; [left|exact Hsub]). specialize (Hc d Hin).
  destruct (bytes_eqb (c_id c) (c_id d)) eqn:E.
  - apply bytes_eqb_eq in E. constructor; [done|]. apply list.Forall_forall. intros x Hx. unfold dist_to in *. rewrite E. by apply Hd.
  - assert (dist_to tgt c < dist_to tgt d).
    { unfold dist_to in *. assert (dist (c_id c) tgt <> dist (c_id d) tgt); [|lia].
      intros Heq. apply dist_inj in Heq; [|done|by apply Hok]. by rewrite Heq, bytes_eqb_refl in E. }
    constructor; [by constructor; [|apply list.Forall_forall]|].
    constructor; [done|]. apply list.Forall_forall. intros x Hx. specialize (Hd x Hx). lia.
Qed.

Lemma strict_nodup tgt l : StronglySorted (fun a b => dist_to tgt a < dist_to tgt b) l -> NoDup (c_id <$> l).
Proof.
  induction 1 as [|c l Hl IH Hc]; cbn; constructor; [|done].
  intros (d & E & Hd)%list_elem_of_fmap. rewrite list.Forall_forall in Hc. specialize (Hc d Hd).
  unfold dist_to in Hc. rewrite E in Hc. lia.
Qed.

Lemma settle_sorted tgt l : id_ok tgt = true -> Forall (fun c => id_ok (c_id c) = true) l ->
  StronglySorted (fun a b => dist_to tgt a < dist_to tgt b) (settle tgt l) /\ (forall c, c ∈ settle tgt l -> c ∈ l).
Proof.
  intros Ht Hl. pose proof (sort_by_perm (closer tgt) l) as P. unfold settle. set (s := sort_by _ l) in *.
  assert (Hs : Forall (fun c => id_ok (c_id c) = true) s) by by rewrite P.
  assert (S : StronglySorted (fun a b => dist_to tgt a <= dist_to tgt b) s).
  { assert (S0 : StronglySorted (not_above (closer tgt)) s).
    { apply sort_by_sorted; [intros x y; apply bytes_ltb_asym|intros x y z; apply bytes_nlt_trans]. }
    clear P. clearbody s. induction S0 as [|c s Hc IH F]; constructor; apply list.Forall_cons in Hs as [H1 H2]; [auto|].
    rewrite list.Forall_forall in F, H2 |- *. intros d Hd. specialize (F d Hd). unfold not_above in F.
    rewrite closer_dist in F by auto. unfold dist_to. lia. }
  pose proof (dedup_strict tgt s Hs S) as D. split.
  - rewrite <- (take_drop (K * 4) (dedup_by_id s)) in D. by apply StronglySorted_app_1_l in D.
  - intros c Hc. rewrite <- P. eapply elem_of_sublist; [exact Hc|].
    etransitivity; [apply sublist_take|apply dedup_sublist].
Qed.

Section lookup.
Context (tgt : NodeId) (Htgt : id_ok tgt = true) (strict : bool) (known : Contact -> Prop).

(** A contact a lookup may ask: one it started from, or one that passed the dial policy. *)
Definition askable (c : Contact) : Prop :=
  id_ok (c_id c) = true /\ (known c \/ is_dialable_peer_addr (c_addr c) strict = true).

Definition lookup_ok (l : Lookup) : Prop := Forall askable (shortlist l) /\ NoDup (c_id <$> shortlist l).

Lemma dialable_askable nodes : forallb contact_ok nodes = true -> Forall askable (dialable_nodes nodes strict).
Proof.
  intros H. apply forallb_Forall_iff in H. rewrite list.Forall_forall in H. apply list.Forall_forall. intros c Hc.
  unfold dialable_nodes in Hc. apply list_elem_of_In, filter_In in Hc as [Hc Hd]. apply list_elem_of_In in Hc.
  specialize (H c Hc). unfold contact_ok in H. bools. split; [done|by right].
Qed.

Lemma absorb_askable k c r l : response_ok r = true -> Forall askable (shortlist l) ->
  Forall askable (shortlist (absorb k strict c r l)) /\ queried (absorb k strict c r l) = queried l.
Proof.
  intros Hr Hl. unfold absorb. destruct k, r; cbn [shortlist queried]; (split; [|done]); try done;
  apply list.Forall_app; (split; [done|]); apply dialable_askable; cbn [response_ok] in Hr; unfold nodes_ok in Hr; bools; done.
Qed.

Lemma ingest_strict now r s : strict_martians (ingest_nodes_from now r s) = strict_martians s.
Proof. unfold ingest_nodes_from. by destruct (response_nodes r). Qed.

Definition replies_ok (replies : list (option Response)) : Prop :=
  Forall (fun o => match o with Some r => response_ok r = true | None => True end) replies.

Lemma absorb_all_askable k now batch : forall replies s l, replies_ok replies -> strict_martians s = strict ->
  Forall askable (shortlist l) ->
  Forall askable (shortlist (absorb_all k now batch replies (s, l)).2) /\
  queried (absorb_all k now batch replies (s, l)).2 = queried l /\
  strict_martians (absorb_all k now batch replies (s, l)).1 = strict.
Proof.
  induction batch as [|c batch IH]; intros [|[r|] replies] s l Hr Hs Hl; try done; cbn [absorb_all fst snd];
  apply list.Forall_cons in Hr as [H1 H2].
  - rewrite Hs. destruct (absorb_askable k c r l H1 Hl) as [A1 A2].
    destruct (IH replies (ingest_nodes_from now r s) (absorb k strict c r l) H2) as (B1 & B2 & B3); [by rewrite ingest_strict|done|].
    rewrite B2, A2. done.
  - by apply IH.
Qed.

Lemma next_batch_spec l : lookup_ok l ->
  Forall askable (next_batch (shortlist l) (queried l)) /\ NoDup (c_id <$> next_batch (shortlist l) (queried l)) /\
  (length (next_batch (shortlist l) (queried l)) <= ALPHA)%nat /\
  (forall c, c ∈ next_batch (shortlist l) (queried l) -> c_id c ∉ queried l).
Proof.
  intros [H1 H2]. unfold next_batch. set (p := fun c => negb _).
  assert (Hsub : sublist (take ALPHA (List.filter p (shortlist l))) (shortlist l)).
  { etransitivity; [apply sublist_take|apply filter_sublist]. }
  split_and!.
  - apply list.Forall_forall. intros c Hc. rewrite list.Forall_forall in H1. apply H1. by eapply elem_of_sublist.
  - by eapply sublist_fmap_nodup.
  - rewrite length_take. lia.
  - intros c Hc. assert (Hc' : c ∈ List.filter p (shortlist l)) by (eapply elem_of_sublist; [exact Hc|apply sublist_take]).
    apply list_elem_of_In, filter_In in Hc' as [_ Hc']. unfold p in Hc'. bools. done.
Qed.

Lemma mark_spec q batch x : x ∈ mark q batch <-> x ∈ q \/ x ∈ c_id <$> batch.
Proof.
  unfold mark. revert q. induction batch as [|c batch IH]; intros q; cbn.
  - split; [by left|]. intros [|H]; [done|]. by apply not_elem_of_nil in H.
  - rewrite IH, elem_of_union, elem_of_singleton, elem_of_cons. tauto.
Qed.

Lemma lookup_loop_ok k rounds : forall s l, Forall (fun r => replies_ok r.2) rounds -> strict_martians s = strict ->
  lookup_ok l ->
  let '(s', l', asked) := lookup_loop k tgt rounds (s, l) in
  lookup_ok l' /\ strict_martians s' = strict /\ NoDup (c_id <$> asked) /\ (length asked <= ALPHA * length rounds)%nat /\
  (forall c, c ∈ asked -> askable c /\ c_id c ∉ queried l).
Proof.
  assert (Hnil : forall P : Contact -> Prop, forall c, c ∈ [] -> P c) by (intros P c H; by apply not_elem_of_nil in H).
  induction rounds as [|[now replies] rounds IH]; intros s l Hr Hs Hl; cbn [lookup_loop fst snd length].
  { split_and!; [done|done|constructor|cbn; lia|apply Hnil]. }
  apply list.Forall_cons in Hr as [H1 H2]. cbn in H1. destruct (next_batch_spec l Hl) as (B1 & B2 & B3 & B4).
  set (batch := next_batch _ _) in *. destruct (length batch =? 0)%nat.
  { split_and!; [done|done|constructor|cbn; lia|apply Hnil]. }
  set (l0 := mkLookup _ _ _ _).
  destruct (absorb_all_askable k now batch replies s l0 H1 Hs (proj1 Hl)) as (A1 & A2 & A3).
  destruct (absorb_all k now batch replies (s, l0)) as [s1 l1]. cbn [fst snd] in *.
  set (l2 := mkLookup _ _ _ _). assert (Hl2 : lookup_ok l2).
  { destruct (settle_sorted tgt (shortlist l1) Htgt) as [S1 S2].
    - eapply list.Forall_impl; [exact A1|]. by intros c [? _].
    - split; cbn; [|by eapply strict_nodup]. apply list.Forall_forall. intros c Hc. rewrite list.Forall_forall in A1. auto. }
  assert (Hq : queried l2 = mark (queried l) batch) by done || (cbn; rewrite A2; done).
  specialize (IH s1 l2 H2 A3 Hl2).
  destruct (lookup_loop k tgt rounds (s1, l2)) as [[s3 l3] asked].
  assert (G : let '(s', l', a) := (s3, l3, batch ++ asked) in
    lookup_ok l' /\ strict_martians s' = strict /\ NoDup (c_id <$> a) /\ (length a <= ALPHA * S (length rounds))%nat /\
    (forall c, c ∈ a -> askable c /\ c_id c ∉ queried l)).
  { destruct IH as (I1 & I2 & I3 & I4 & I5). split_and!; [done|done| |rewrite length_app; lia|].
    - rewrite fmap_app. apply list.NoDup_app. split_and!; [done| |done].
      intros x Hx (c & -> & Hc)%list_elem_of_fmap. destruct (I5 c Hc) as [_ Hn]. apply Hn. rewrite Hq, mark_spec. by right.
    - intros c [Hc|Hc]%elem_of_app.
      + rewrite list.Forall_forall in B1. by split; [apply B1|apply B4].
      + destruct (I5 c Hc) as [? Hn]. split; [done|]. intros Hx. apply Hn. rewrite Hq, mark_spec. by left. }
  destruct k; [exact G| |exact G]. destruct (20 <=? length (peers l2))%nat; [|exact G].
  split_and!; [done|done|done|lia|]. intros c Hc. rewrite list.Forall_forall in B1. by split; [apply B1|apply B4].
Qed.
End lookup.

(** ** Tokens *)

Section token_life.
Context (sha1 : bytes -> bytes).

Definition rotated (now : Z) (fresh : bytes) (ts : TokenState) : TokenState :=
  if TOKEN_TTL <=? sat_sub now (last_rotated ts) then mkTokens fresh (current ts) now else ts.

Lemma respond_tokens now fresh from q s :
  token_state (respond sha1 now fresh from q s).1 = token_state s \/
  token_state (respond sha1 now fresh from q s).1 = rotated now fresh (token_state s).
Proof.
  destruct q as [id|id tgt|id ih|id ih port token imp]; cbn [respond fst]; [by left|by left| |].
  - right. unfold issue_token. destruct (negb _); done.
  - left. destruct (verify_token _ _ _ _); cbn [negb fst]; [|done]. unfold record_announce. by destruct (_ || _).
Qed.

Lemma handle_tokens now fresh from bytes s :
  token_state (handle_datagram sha1 now fresh from bytes s).1 = token_state s \/
  token_state (handle_datagram sha1 now fresh from bytes s).1 = rotated now fresh (token_state s).
Proof.
  unfold handle_datagram. destruct (decode (fun _ => now) bytes) as [[t q|t r|t code msg]|e| |]; try (by left).
  - destruct (allow_query_store now (sa_ip from) s) as [_ E].
    destruct (allow_query_from now (sa_ip from) s) as [s1 ok]. cbn [fst] in *. destruct ok; [|by left].
    unfold answer_query. msteps. destruct (insert_contact_store now (query_id q) from s1) as [_ E2].
    destruct (insert_contact _ _ _ s1) as [s2 x]. cbn [fst] in *. destruct x; try (left; cbn; congruence).
    destruct (respond_tokens now fresh from q s2) as [H|H]; destruct (respond _ _ _ _ q s2) as [s3 r]; cbn [fst] in *;
    rewrite H, E2, E; auto.
  - left. msteps. destruct (insert_contact_store now (response_id r) from s) as [_ E].
    destruct (insert_contact _ _ _ s) as [s1 x]. cbn [fst] in *. destruct x; try done.
    destruct (route_reply_spec from t (KResponse r) s1) as [(p & _ & _ & ->)|[_ ->]]; cbn; done.
  - left. destruct (route_reply_spec from t (KError code msg) s) as [(p & _ & _ & ->)|[_ ->]]; done.
Qed.

(** A datagram with its time, the random bytes available and its source. *)
Record Event := mkEvent { e_now : Z; e_fresh : bytes; e_from : SocketAddr; e_bytes : bytes }.

Definition handle_all (evs : list Event) (s : SharedState) : SharedState :=
  foldl (fun s e => (handle_datagram sha1 (e_now e) (e_fresh e) (e_from e) (e_bytes e) s).1) s evs.

(** [salt] is still accepted, and was current until [since]. *)
Definition salt_live (since : Z) (salt : bytes) (ts : TokenState) : Prop :=
  current ts = salt \/ (previous ts = salt /\ since <= last_rotated ts).

Lemma rotated_live since salt now fresh ts : since <= now < since + TOKEN_TTL ->
  salt_live since salt ts -> salt_live since salt (rotated now fresh ts).
Proof.
  intros Hn Hl. unfold rotated, sat_sub. destruct (Z.leb_spec TOKEN_TTL (Z.max 0 (now - last_rotated ts))) as [H|]; [|done].
  destruct Hl as [<-|[_ Hs]].
  - right. cbn. split; [done|lia].
  - unfold TOKEN_TTL, SECS in *. lia.
Qed.

Lemma handle_all_live since salt evs : forall s, Forall (fun e => since <= e_now e < since + TOKEN_TTL) evs ->
  salt_live since salt (token_state s) -> salt_live since salt (token_state (handle_all evs s)).
Proof.
  induction evs as [|e evs IH]; intros s He Hs; [done|]. apply list.Forall_cons in He as [H1 H2]. cbn.
  apply IH; [done|]. destruct (handle_tokens (e_now e) (e_fresh e) (e_from e) (e_bytes e) s) as [->| ->]; [done|].
  by apply rotated_live.
Qed.

Lemma live_verifies since salt s a a' : salt_live since salt (token_state s) -> sa_ip a' = sa_ip a ->
  verify_token sha1 s a' (token_for sha1 a salt) = true.
Proof.
  intros Hl E. unfold verify_token, token_for. rewrite E. apply orb_true_iff.
  destruct Hl as [->|[-> _]]; [left|right]; apply bytes_eqb_refl.
Qed.

Definition response_token (r : Response) : option bytes :=
  match r with RPeers _ token _ | RPeersNodes _ token _ => Some token | _ => None end.

(** The answer to a [get_peers] query carries the token of the current salt. *)
Lemma get_peers_answer now fresh a t id ih s : state_ok s -> addr_ok a = true ->
  message_ok (MQuery t (GetPeers id ih)) = true ->
  forall s1 out, handle_datagram sha1 now fresh a (msg_encode (MQuery t (GetPeers id ih))) s = (s1, Ok out) ->
  out = [] \/ exists r, out = [Sent a (msg_encode (MResponse t r))] /\ response_ok r = true /\
    response_token r = Some (token_for sha1 a (current (token_state s1))).
Proof.
  intros Hs Ha Hm s1 out. unfold handle_datagram. rewrite decode_encoded by done. cbn [heard_message].
  cbn [message_ok query_ok] in Hm. bools. unfold allow_query_from. set (lim := if (_ : bool) then (_ : gmap IpAddr TokenBucket) else _).
  destruct (try_consume _ _ _) as [b' ok]. destruct ok; [|intros [= <- <-]; by left].
  unfold answer_query. msteps. set (s0 := with_limits _ s). assert (Hs0 : state_ok s0) by by apply with_limits_ok.
  cbn [query_id]. destruct (insert_contact_ok now id a s0 Hs0 H0 Ha) as (rt & b & -> & Hs2). set (s2 := with_routing rt s0) in *.
  assert (Hq : query_ok (GetPeers id ih) = true) by (cbn; by rewrite H0, H1).
  destruct (respond_ok sha1 now fresh a (GetPeers id ih) s2 Hs2 Hq Ha) as [_ Hr].
  destruct (respond sha1 now fresh a (GetPeers id ih) s2) as [s3 r] eqn:E. intros [= <- <-]. right.
  cbn [respond] in E. unfold issue_token in E. cbn [snd] in Hr.
  destruct (negb _); injection E as <- <-; eexists; (split; [done|]); (split; [by apply Hr|]); done.
Qed.
End token_life.

(** ** Theorems *)

(** The DHT node under hostile traffic.  In every state reached from a fresh node
    by datagrams of any content and source, queries sent and abandoned, contacts
    learned and sweeps of the store: the routing table is well formed, at most
    16384 info hashes are stored with at most 256 distinct peers each; the next
    datagram is handled without a panic and has one effect at most: either
    nothing, or one well-formed message to the address it came from, or the
    delivery of a reply to a query that was sent to exactly that address, which
    is then no longer pending.  No other pending query changes. *)
Lemma dht_node_safe sha1 t0 id strict salt1 salt2 s now fresh from bytes :
  id_ok id = true -> rtc (dht_step sha1) (shared_new t0 id strict salt1 salt2) s -> addr_ok from = true ->
  state_ok s /\
  exists s' out, handle_datagram sha1 now fresh from bytes s = (s', Ok out) /\ effects_ok from s s' out.
Proof.
  intros Hid Hr Hf. assert (Hs : state_ok s) by (eapply dht_steps_ok; [exact Hr|by apply shared_new_ok]).
  split; [done|]. by apply handle_effects.
Qed.

Definition sha_ex (b : bytes) : bytes := replicate 20 x07.
Definition node_ex : SharedState := shared_new 0 (id_ex x01) false (bs "saltsalt") (bs "tlastlas").
Definition peer_ex : SocketAddr := sock_addr (IpV4 x05 x06 x07 x08) 6881.
Definition ping_ex : bytes := msg_encode (MQuery (bs "aa") (Ping (id_ex x05))).

Lemma dht_node_safe_witness :
  state_ok node_ex /\
  exists s' out, handle_datagram sha_ex 5 [] peer_ex ping_ex node_ex = (s', Ok out) /\ effects_ok peer_ex node_ex s' out.
Proof.
  apply (dht_node_safe sha_ex 0 (id_ex x01) false (bs "saltsalt") (bs "tlastlas") node_ex 5 [] peer_ex ping_ex);
    [reflexivity|apply rtc_refl|reflexivity].
Defined.

(** Only a peer that holds a token is stored.  Whatever a datagram contains, it
    changes the announced peers only if it is an announce that carries the token
    our current or previous secret gives for the sender's IP; then only the list
    of that info hash changes, and its newest entry is the sender's own IP with
    the port it named, or its source port if it asked for that. *)
Lemma announce_needs_token sha1 now fresh from bytes s :
  let s' := (handle_datagram sha1 now fresh from bytes s).1 in
  peer_store s' = peer_store s \/ announced sha1 now from bytes s s'.
Proof.
  intros s'. unfold s', handle_datagram, announced.
  destruct (decode (fun _ => now) bytes) as [[t q|t r|t code msg]|e| |]; try (by left).
  - destruct (allow_query_store now (sa_ip from) s) as [E1 E2].
    destruct (allow_query_from now (sa_ip from) s) as [s1 ok]. cbn [fst] in *. destruct ok; [|by left].
    destruct (answer_store sha1 now fresh from t q s1) as [E|(id & ih & port & token & imp & l & -> & V & H1 & H2)].
    + left. by rewrite E.
    + right. exists t, id, ih, port, token, imp, l. split_and!; [done| |by rewrite H1, E1|done].
      unfold verify_token in V. rewrite E2 in V. apply orb_true_iff in V as [V|V]; apply bytes_eqb_eq in V; auto.
  - left. msteps. destruct (insert_contact_store now (response_id r) from s) as [E _].
    destruct (insert_contact _ _ _ s) as [s1 x]. cbn [fst] in *. destruct x; try done.
    pose proof (route_reply_store from t (KResponse r) s1) as R. destruct (route_reply _ _ _ _). cbn in *. congruence.
  - left. pose proof (route_reply_store from t (KError code msg) s) as R. destruct (route_reply _ _ _ _). done.
Qed.

(** An iterative lookup asks only screened contacts, and none twice.  Whatever the
    nodes answer, in each of the three kinds of lookup every contact asked was
    either among the closest of our own routing table at the start or passed the
    dial policy with the strictness of the session; no node id is asked twice;
    at most three are asked per round. *)
Lemma lookup_screened k tgt rounds s :
  state_ok s -> id_ok tgt = true -> Forall (fun r => replies_ok r.2) rounds ->
  let '(_, _, asked) := lookup_loop k tgt rounds (s, lookup_new s tgt) in
  NoDup (c_id <$> asked) /\ (length asked <= ALPHA * length rounds)%nat /\
  forall c, c ∈ asked -> c ∈ closest (routing s) tgt (K * 2) \/ is_dialable_peer_addr (c_addr c) (strict_martians s) = true.
Proof.
  intros Hs Ht Hr. pose proof Hs as [Htab _ _ _].
  set (known := fun c => c ∈ closest (routing s) tgt (K * 2)).
  assert (Hl : lookup_ok (strict_martians s) known (lookup_new s tgt)).
  { split; cbn [lookup_new shortlist].
    - apply list.Forall_forall. intros c Hc. split; [|by left]. by eapply all_ok, closest_in.
    - eapply (strict_nodup tgt). pose proof (closest_sorted (routing s) tgt Htab Ht) as S.
      unfold closest. rewrite <- (take_drop (K * 2) (sort_by _ _)) in S. by apply StronglySorted_app_1_l in S. }
  pose proof (lookup_loop_ok tgt Ht (strict_martians s) known k rounds s (lookup_new s tgt) Hr eq_refl Hl) as L.
  destruct (lookup_loop k tgt rounds (s, lookup_new s tgt)) as [[s' l'] asked].
  destruct L as (_ & _ & L1 & L2 & L3). split_and!; [done|done|]. intros c Hc. by destruct (L3 c Hc) as [[_ ?] _].
Qed.

(** Two rounds: the contact asked first names a loopback address, which is not asked. *)
Definition lookup_state_ex : SharedState := (handle_datagram sha_ex 5 [] peer_ex ping_ex node_ex).1.
Definition rounds_ex : list (Z * list (option Response)) :=
  [(6, [Some (RNodes (id_ex x05) [mkContact (id_ex x09) (sock_addr (IpV4 x7f x00 x00 x01) 80) 6])]); (7, [])].

Lemma lookup_state_ex_ok : state_ok lookup_state_ex.
Proof.
  destruct (handle_effects sha_ex 5 [] peer_ex ping_ex node_ex) as (s' & out & E & [H _]);
    [by apply shared_new_ok|done|]. unfold lookup_state_ex. by rewrite E.
Qed.

Lemma lookup_screened_witness :
  c_id <$> (lookup_loop KFind (id_ex x0a) rounds_ex (lookup_state_ex, lookup_new lookup_state_ex (id_ex x0a))).2 = [id_ex x05] /\
  (let '(_, _, asked) := lookup_loop KFind (id_ex x0a) rounds_ex (lookup_state_ex, lookup_new lookup_state_ex (id_ex x0a)) in
   NoDup (c_id <$> asked) /\ (length asked <= ALPHA * length rounds_ex)%nat /\
   forall c, c ∈ asked -> c ∈ closest (routing lookup_state_ex) (id_ex x0a) (K * 2) \/
     is_dialable_peer_addr (c_addr c) (strict_martians lookup_state_ex) = true).
Proof.
  split; [vm_compute; reflexivity|].
  apply (lookup_screened KFind (id_ex x0a) rounds_ex lookup_state_ex); [apply lookup_state_ex_ok|reflexivity|].
  repeat first [apply list.Forall_nil|apply list.Forall_cons; split; cbn]; done.
Defined.

(** The token protocol works.  When a node answered a [get_peers] query, the token
    the asker reads from the answer is accepted for its IP after any datagrams from
    anyone that arrive within the next ten minutes, at most one rotation of the
    secret included. *)
Lemma token_accepted sha1 now fresh a t id ih s s1 reply clock t' r tok evs a' :
  state_ok s -> addr_ok a = true -> message_ok (MQuery t (GetPeers id ih)) = true ->
  handle_datagram sha1 now fresh a (msg_encode (MQuery t (GetPeers id ih))) s = (s1, Ok [Sent a reply]) ->
  decode clock reply = Ok (MResponse t' r) -> response_token r = Some tok ->
  Forall (fun e => now <= e_now e < now + TOKEN_TTL) evs -> sa_ip a' = sa_ip a ->
  t' = t /\ verify_token sha1 (handle_all sha1 evs s1) a' tok = true.
Proof.
  intros Hs Ha Hm H Hd Htok He Hip.
  destruct (get_peers_answer sha1 now fresh a t id ih s Hs Ha Hm _ _ H) as [?|(r0 & E & Hr & Ht)]; [done|].
  injection E as ->. assert (Hok : message_ok (MResponse t r0) = true).
  { cbn [message_ok] in *. bools. by rewrite Hr, H0. }
  rewrite decode_encoded in Hd by done. cbn [heard_message] in Hd. injection Hd as <- <-. split; [done|].
  assert (tok = token_for sha1 a (current (token_state s1))) as ->.
  { destruct r0; cbn [heard_response response_token] in *; congruence. }
  eapply live_verifies; [|done]. apply handle_all_live; [done|]. by left.
Qed.

Definition get_peers_ex : bytes := msg_encode (MQuery (bs "aa") (GetPeers (id_ex x05) (id_ex x0c))).
Definition answered_ex : SharedState := (handle_datagram sha_ex 5 [] peer_ex get_peers_ex node_ex).1.
Definition answer_ex : bytes :=
  msg_encode (MResponse (bs "aa") (RPeersNodes (id_ex x01) (replicate 8 x07)
    [mkContact (id_ex x05) peer_ex 5])).

Lemma token_accepted_witness :
  bs "aa" = bs "aa" /\
  verify_token sha_ex (handle_all sha_ex [mkEvent 9 [] peer_ex get_peers_ex] answered_ex) peer_ex (replicate 8 x07) = true.
Proof.
  apply (token_accepted sha_ex 5 [] peer_ex (bs "aa") (id_ex x05) (id_ex x0c) node_ex answered_ex answer_ex (fun _ => 0)
    (bs "aa") (RPeersNodes (id_ex x01) (replicate 8 x07) [mkContact (id_ex x05) peer_ex 0]) (replicate 8 x07)
    [mkEvent 9 [] peer_ex get_peers_ex] peer_ex).
  - apply shared_new_ok. reflexivity.
  - reflexivity.
  - vm_compute. reflexivity.
  - vm_compute. reflexivity.
  - vm_compute. reflexivity.
  - reflexivity.
  - apply list.Forall_cons. split; [vm_compute; split; [discriminate|reflexivity]|]. by apply list.Forall_nil.
  - reflexivity.
Defined.

(** ** Defects *)

Definition local_ex : SocketAddr := sock_addr (IpV4 x7f x00 x00 x01) 80.

(** The sender of any query is entered into the table without the dial policy, so a
    forged source address makes the next lookup probe it. *)
Lemma forged_source_is_probed :
  is_dialable_peer_addr local_ex false = false /\
  let s := (handle_datagram sha_ex 5 [] local_ex ping_ex node_ex).1 in
  (lookup_loop KFind (id_ex x0a) [(6, [])] (s, lookup_new s (id_ex x0a))).2 = [mkContact (id_ex x05) local_ex 5].
Proof. split; vm_compute; reflexivity. Qed.

(** A response to no query of ours replaces the address of the contact it names. *)
Lemma unsolicited_response_moves_contact :
  let s := (handle_datagram sha_ex 5 [] peer_ex ping_ex node_ex).1 in
  all_contacts (routing s) = [mkContact (id_ex x05) peer_ex 5] /\ pending s = ∅ /\
  all_contacts (routing (handle_datagram sha_ex 9 [] local_ex (msg_encode (MResponse (bs "zz") (RId (id_ex x05)))) s).1)
    = [mkContact (id_ex x05) local_ex 9].
Proof. split_and!; vm_compute; reflexivity. Qed.

(** Two queries in flight under the same random transaction id: registering the
    second drops the first one's channel, the first gives up and removes the entry
    of the second, whose answer is then not delivered. *)
Lemma transaction_id_collision :
  let s1 := (send_query (bs "aa") 1 peer_ex (Ping (id_ex x01)) node_ex).1 in
  let s2 := (send_query (bs "aa") 2 local_ex (Ping (id_ex x01)) s1).1 in
  let answer := msg_encode (MResponse (bs "aa") (RId (id_ex x09))) in
  (handle_datagram sha_ex 6 [] local_ex answer s2).2 = Ok [Delivered 2 (KResponse (RId (id_ex x09)))] /\
  (handle_datagram sha_ex 6 [] local_ex answer (abandon_query (bs "aa") s2)).2 = Ok [].
Proof. split; vm_compute; reflexivity. Qed.

(** A full list of announced peers does not fit the datagram size the node itself
    receives: the answer is longer than [MAX_DATAGRAM] and its first 1500 bytes do
    not decode. *)
Definition full_store_ex : SharedState :=
  with_store {[ id_ex x0c := (fun p => (sock_addr (IpV4 x05 x06 x07 x08) (Z.of_nat p), 0)) <$> seq 1 256 ]} node_ex.

Lemma full_answer_too_long :
  match (handle_datagram sha_ex 5 [] peer_ex get_peers_ex full_store_ex).2 with
  | Ok [Sent _ reply] => (MAX_DATAGRAM < length reply)%nat /\ is_ok (decode (fun _ => 0) (take MAX_DATAGRAM reply)) = false
  | _ => False
  end.
Proof. vm_compute. split; [lia|reflexivity]. Qed.
