(* ===== verification/DhtLife.v ===== *)
(** * The life of a DHT node: [src/src/dht/mod.rs] and the tasks of [src/src/dht/server.rs]

    From [Dht::spawn] to the last save: the state file, the receive task, the main
    task (bootstrap, then commands and timers), the lookups it starts and the saves
    it leaves to other threads.  The tasks share the [SharedState] behind the socket;
    each does one step at a time, between two points where it waits, and an [Event]
    says which goes next.  A query ends with a reply that a datagram delivered, or
    fails: its time is up, its channel is closed, or it could not be sent. *)

From Stdlib Require Import ZArith Lia String Strings.Byte.
From stdpp Require Import base tactics numbers list option gmap.
From S2P Require Import Prelude Bencode Net Float64 RateLimit DhtTable Krpc DhtServer.

#[local] Set Warnings "-register-all".

(** ** Tasks *)

Definition COMMANDS : nat := 64.

(** [reply] names the caller that waits. *)
Inductive DhtCommand :=
  | CGetPeers (info_hash : bytes) (reply : nat)
  | CAnnounce (info_hash : bytes) (port : Z)
  | CTableSize (reply : nat)
  | CShutdown.

(** What a lookup is for. *)
Inductive Purpose := ToKnow | ToFind (reply : nat) | ToAnnounce (port : Z).

(** The queries a task waits for are numbers; a lookup awaits its batch in order, with the contacts asked. *)
Inductive Task :=
  | Asking (rest : list SocketAddr) (waiting : option nat)
  | Looking (purpose : Purpose) (target : bytes) (l : Lookup) (waiting : list (Contact * nat))
  | Announcing (rest : list (SocketAddr * Query)) (waiting : option nat)
  | Finished.

Inductive Main :=
  | Resolving
  | Booting (t : Task)
  | Serving
  | Stopped.

Inductive Answer := PeersFound (reply : nat) (peers : list SocketAddr) | TableSize (reply n : nat).

(** [n_open] has the transaction ids of the queries underway, [n_inbox] how queries ended, [n_file] the state file, [n_saving] the
    contents of saves underway, [n_sent] all that was sent. *)
Record Node := mkNode {
  n_shared : SharedState;
  n_main : Main;
  n_tasks : list Task;
  n_cmds : list DhtCommand;
  n_persist : bool;
  n_file : option bytes;
  n_saving : list bytes;
  n_next : nat;
  n_open : gmap nat bytes;
  n_inbox : gmap nat (option Response);
  n_sent : list (SocketAddr * bytes);
  n_answers : list Answer;
}.

Definition set_shared s n := mkNode s (n_main n) (n_tasks n) (n_cmds n) (n_persist n) (n_file n) (n_saving n) (n_next n) (n_open n) (n_inbox n) (n_sent n) (n_answers n).
Definition set_main m n := mkNode (n_shared n) m (n_tasks n) (n_cmds n) (n_persist n) (n_file n) (n_saving n) (n_next n) (n_open n) (n_inbox n) (n_sent n) (n_answers n).
Definition set_tasks t n := mkNode (n_shared n) (n_main n) t (n_cmds n) (n_persist n) (n_file n) (n_saving n) (n_next n) (n_open n) (n_inbox n) (n_sent n) (n_answers n).
Definition set_cmds c n := mkNode (n_shared n) (n_main n) (n_tasks n) c (n_persist n) (n_file n) (n_saving n) (n_next n) (n_open n) (n_inbox n) (n_sent n) (n_answers n).
Definition set_files f v n := mkNode (n_shared n) (n_main n) (n_tasks n) (n_cmds n) (n_persist n) f v (n_next n) (n_open n) (n_inbox n) (n_sent n) (n_answers n).
Definition set_queries k o i n := mkNode (n_shared n) (n_main n) (n_tasks n) (n_cmds n) (n_persist n) (n_file n) (n_saving n) k o i (n_sent n) (n_answers n).
Definition set_sent x n := mkNode (n_shared n) (n_main n) (n_tasks n) (n_cmds n) (n_persist n) (n_file n) (n_saving n) (n_next n) (n_open n) (n_inbox n) x (n_answers n).
Definition set_answers a n := mkNode (n_shared n) (n_main n) (n_tasks n) (n_cmds n) (n_persist n) (n_file n) (n_saving n) (n_next n) (n_open n) (n_inbox n) (n_sent n) a.

(** ** Queries *)

(** [send_query] up to the wait, under the next number. *)
Definition ask (txid : bytes) (addr : SocketAddr) (q : Query) (n : Node) : Node * nat :=
  let '(s, _) := send_query txid (n_next n) addr q (n_shared n) in
  (set_sent (n_sent n ++ [(addr, msg_encode (MQuery txid q))])
     (set_queries (S (n_next n)) (<[n_next n := txid]> (n_open n)) (n_inbox n) (set_shared s n)), n_next n).

(** Its end without a response. *)
Definition fail_query (query : nat) (n : Node) : Node :=
  match n_open n !! query with
  | Some txid => set_queries (n_next n) (delete query (n_open n)) (<[query := None]> (n_inbox n)) (set_shared (abandon_query txid (n_shared n)) n)
  | None => n
  end.

(** What the receive task passes on. *)
Definition put_output (o : Output) (n : Node) : Node :=
  match o with
  | Sent dest datagram => set_sent (n_sent n ++ [(dest, datagram)]) n
  | Delivered query (KResponse r) =>
      match n_open n !! query with
      | Some _ => set_queries (n_next n) (delete query (n_open n)) (<[query := Some r]> (n_inbox n)) n
      | None => n
      end
  | Delivered query (KError _ _) => fail_query query n
  end.

(** ** The steps of a task *)

Definition kind_of (p : Purpose) : Kind := match p with ToKnow => KFind | ToFind _ => KPeers | ToAnnounce _ => KAnnounce end.

Definition lookup_query (p : Purpose) (id target : bytes) : Query := match p with ToKnow => FindNode id target | _ => GetPeers id target end.

Fixpoint ask_batch (p : Purpose) (target : bytes) (batch : list Contact) (txids : nat -> bytes) (n : Node) : Node * list (Contact * nat) :=
  match batch with
  | [] => (n, [])
  | c :: batch =>
      let '(n, q) := ask (txids 0%nat) (c_addr c) (lookup_query p (ss_id (n_shared n)) target) n in
      let '(n, ws) := ask_batch p target batch (fun i => txids (S i)) n in
      (n, (c, q) :: ws)
  end.

(** After the loop of a lookup. *)
Definition end_lookup (p : Purpose) (target : bytes) (l : Lookup) (n : Node) : Node * Task :=
  match p with
  | ToKnow => (n, Finished)
  | ToFind reply => (set_answers (n_answers n ++ [PeersFound reply (peers l)]) n, Finished)
  | ToAnnounce port => (n, Announcing ((fun e => (e.2.2, AnnouncePeer (ss_id (n_shared n)) target port e.2.1 false)) <$> announce_targets target l) None)
  end.

(** Up to the next wait.  [over] is whether the time of a lookup is up, [txids] are the random transaction ids. *)
Definition advance (now : Z) (txids : nat -> bytes) (over : bool) (t : Task) (n : Node) : Node * Task :=
  match t with
  | Asking [] None => (n, Looking ToKnow (ss_id (n_shared n)) (lookup_new (n_shared n) (ss_id (n_shared n))) [])
  | Asking (addr :: rest) None =>
      let id := ss_id (n_shared n) in
      let '(n, q) := ask (txids 0%nat) addr (FindNode id id) n in (n, Asking rest (Some q))
  | Asking rest (Some q) =>
      match n_inbox n !! q with
      | Some (Some r) => (set_shared (ingest_nodes_from now r (n_shared n)) n, Asking rest None)
      | Some None => (n, Asking rest None)
      | None => (n, t)
      end
  | Looking p target l [] =>
      let batch := next_batch (shortlist l) (queried l) in
      if over || (length batch =? 0)%nat then end_lookup p target l n
      else
        let '(n, ws) := ask_batch p target batch txids n in
        (n, Looking p target (mkLookup (shortlist l) (mark (queried l) batch) (peers l) (toks l)) ws)
  | Looking p target l ((c, q) :: ws) =>
      match n_inbox n !! q with
      | Some o =>
          let '(s, l) := match o with
            | Some r => (ingest_nodes_from now r (n_shared n), absorb (kind_of p) (strict_martians (n_shared n)) c r l)
            | None => (n_shared n, l)
            end in
          let n := set_shared s n in
          match ws with
          | [] =>
              let l := mkLookup (settle target (shortlist l)) (queried l) (peers l) (toks l) in
              match p with
              | ToFind _ => if (20 <=? length (peers l))%nat then end_lookup p target l n else (n, Looking p target l [])
              | _ => (n, Looking p target l [])
              end
          | _ => (n, Looking p target l ws)
          end
      | None => (n, t)
      end
  | Announcing [] None => (n, Finished)
  | Announcing ((addr, query) :: rest) None => let '(n, q) := ask (txids 0%nat) addr query n in (n, Announcing rest (Some q))
  | Announcing rest (Some q) => if bool_decide (is_Some (n_inbox n !! q)) then (n, Announcing rest None) else (n, t)
  | Finished => (n, t)
  end.

(** ** Events

    [SaveEnds] is a whole save: its file is in place at once, or the old one stays.  The source writes
    a neighbouring [.tmp] file and renames it, and two saves that run at the same time share its name; what they could
    write into each other's file is not modelled. *)

Inductive Event :=
  | Datagram (now : Z) (fresh : bytes) (from : SocketAddr) (datagram : bytes)
  | Fail_ (query : nat)
  | Resolved (answers : list (option (list SocketAddr)))
  | AdvanceMain (now : Z) (txids : nat -> bytes) (over : bool)
  | AdvanceTask (i : nat) (now : Z) (txids : nat -> bytes) (over : bool)
  | Command (c : DhtCommand)
  | NextCommand (written : bool)
  | HandlesGone (written : bool)
  | PersistTick
  | SaveEnds (written : bool)
  | GcTick (now : Z).

(** [resolve_bootstrap] on the resolver's answers. *)
Definition resolve_bootstrap (answers : list (option (list SocketAddr))) : list SocketAddr :=
  omap (fun a => a ≫= first_dialable_v4) answers.

(** What callers of commands that are never taken get. *)
Definition unanswered (c : DhtCommand) : list Answer :=
  match c with CGetPeers _ reply => [PeersFound reply []] | CTableSize reply => [TableSize reply 0] | _ => [] end.

Definition end_main (n : Node) : Node := set_main Stopped (set_cmds [] (set_answers (n_answers n ++ mjoin (unanswered <$> n_cmds n)) n)).

(** The last save, [written] if it succeeds, and the end of the main task. *)
Definition stop (written : bool) : M Node unit := fun n =>
  if n_persist n then
    match save_bytes (ss_id (n_shared n)) (routing (n_shared n)) with
    | Ok file => (end_main (set_files (if written then Some file else n_file n) (n_saving n) n), Ok tt)
    | Err e => (n, Err e)
    | Panic => (n, Panic)
    | NoFuel => (n, NoFuel)
    end
  else (end_main n, Ok tt).

Section Run.
Context (sha1 : bytes -> bytes).

(** One turn of the main loop for a command. *)
Definition on_command (written : bool) (c : DhtCommand) : M Node unit := fun n =>
  match c with
  | CShutdown => stop written n
  | CGetPeers info_hash reply => (set_tasks (n_tasks n ++ [Looking (ToFind reply) info_hash (lookup_new (n_shared n) info_hash) []]) n, Ok tt)
  | CAnnounce info_hash port => (set_tasks (n_tasks n ++ [Looking (ToAnnounce port) info_hash (lookup_new (n_shared n) info_hash) []]) n, Ok tt)
  | CTableSize reply => (set_answers (n_answers n ++ [TableSize reply (rt_len (routing (n_shared n)))]) n, Ok tt)
  end.

Definition dht_event (e : Event) : M Node unit := fun n =>
  match e with
  | Datagram now fresh from datagram =>
      match handle_datagram sha1 now fresh from (take MAX_DATAGRAM datagram) (n_shared n) with
      | (s, Ok out) => (foldl (fun n o => put_output o n) (set_shared s n) out, Ok tt)
      | (s, Err e) => (set_shared s n, Err e)
      | (s, Panic) => (set_shared s n, Panic)
      | (s, NoFuel) => (set_shared s n, NoFuel)
      end
  | Fail_ query => (fail_query query n, Ok tt)
  | Resolved answers =>
      match n_main n with
      | Resolving =>
          let addrs := resolve_bootstrap answers in
          (set_main (if (length addrs =? 0)%nat then Serving else Booting (Asking addrs None)) n, Ok tt)
      | _ => (n, Ok tt)
      end
  | AdvanceMain now txids over =>
      match n_main n with
      | Booting t => let '(n, t) := advance now txids over t n in (set_main (match t with Finished => Serving | _ => Booting t end) n, Ok tt)
      | _ => (n, Ok tt)
      end
  | AdvanceTask i now txids over =>
      match n_tasks n !! i with
      | Some t => let '(n, t) := advance now txids over t n in (set_tasks (<[i := t]> (n_tasks n)) n, Ok tt)
      | None => (n, Ok tt)
      end
  | Command c =>
      match n_main n with
      | Stopped => (set_answers (n_answers n ++ unanswered c) n, Ok tt)
      | _ => (if (length (n_cmds n) <? COMMANDS)%nat then set_cmds (n_cmds n ++ [c]) n else n, Ok tt)
      end
  | NextCommand written => match n_main n, n_cmds n with Serving, c :: cmds => on_command written c (set_cmds cmds n) | _, _ => (n, Ok tt) end
  | HandlesGone written => match n_main n, n_cmds n with Serving, [] => stop written n | _, _ => (n, Ok tt) end
  | PersistTick =>
      match n_main n with
      | Serving =>
          if n_persist n then
            match save_bytes (ss_id (n_shared n)) (routing (n_shared n)) with
            | Ok file => (set_files (n_file n) (n_saving n ++ [file]) n, Ok tt)
            | Err e => (n, Err e)
            | Panic => (n, Panic)
            | NoFuel => (n, NoFuel)
            end
          else (n, Ok tt)
      | _ => (n, Ok tt)
      end
  | SaveEnds written =>
      match n_saving n with
      | file :: saving => (set_files (if written then Some file else n_file n) saving n, Ok tt)
      | [] => (n, Ok tt)
      end
  | GcTick now => match n_main n with Serving => (set_shared (prune_peer_store now (n_shared n)) n, Ok tt) | _ => (n, Ok tt) end
  end.

Fixpoint dht_run (evs : list Event) : M Node unit :=
  match evs with [] => mret tt | e :: evs => _ ← dht_event e; dht_run evs end.
End Run.

(** ** [Dht::spawn] *)

(** [bound] is whether the socket could be bound, [file] the state file if there is a path for it and it can be read. *)
Definition server_spawn (now : Z) (clock : nat -> Z) (bound : bool) (node_id : option NodeId) (random_id : NodeId) (warm_contacts : list Contact) (persist : bool) (file : option bytes)
    (strict_martians : bool) (salt1 salt2 : bytes) : result Node :=
  if negb bound then Err (EIo "bind")
  else
    let s := shared_new now (default random_id node_id) strict_martians salt1 salt2 in
    let rt := foldl (fun rt c => (rt_insert clock c rt).1) (routing s) warm_contacts in
    Ok (mkNode (with_routing rt s) Resolving [] [] persist file [] 0 ∅ ∅ [] []).

Definition spawn (now : Z) (clock : nat -> Z) (bound : bool) (random_id : NodeId) (persist : bool) (file : option bytes) (strict_martians : bool) (salt1 salt2 : bytes) : result Node :=
  let '(node_id, warm_contacts) :=
    match (if persist then file ≫= load_bytes clock else None) with
    | Some (id, c) => (Some id, dialable_warm_contacts c strict_martians)
    | None => (None, [])
    end in
  server_spawn now clock bound node_id random_id warm_contacts persist file strict_martians salt1 salt2.

(** ** What a datagram leaves alone *)

Section Frame.
Context (sha1 : bytes -> bytes) (from : SocketAddr).

(** Only the sender is entered into the table, and the identity stays. *)
Definition framed (s s' : SharedState) : Prop :=
  ss_id s' = ss_id s /\ strict_martians s' = strict_martians s /\ forall d, d ∈ all_contacts (routing s') -> c_addr d = from \/ d ∈ all_contacts (routing s).

Lemma framed_insert now cid s : table_ok (routing s) -> id_ok cid = true -> framed s (insert_contact now cid from s).1.
Proof.
  intros Ht Hi. unfold insert_contact. destruct (rt_insert_policy (fun _ => now) (contact_new now cid from) (routing s) Ht Hi) as (ok & _ & _ & H4 & _).
  destruct (rt_insert _ _ (routing s)) as [rt r]. cbn in *. split_and!; [done|done|]. intros d [->|Hd]%H4; [by left|by right].
Qed.

Lemma framed_same s s1 s2 : framed s s1 -> ss_id s2 = ss_id s1 -> strict_martians s2 = strict_martians s1 -> routing s2 = routing s1 -> framed s s2.
Proof. intros (A & B & C) E1 E2 E3. unfold framed. rewrite E1, E2, E3. done. Qed.

Lemma framed_reply now t r s s1 : framed s s1 -> framed s (route_reply now t r s1).1.
Proof. intros H. unfold route_reply. destruct (pending s1 !! t); [|done]. by destruct (bool_decide _). Qed.

Lemma framed_respond now fresh q s s1 : framed s s1 -> framed s (respond sha1 now fresh from q s1).1.
Proof.
  intros H. destruct q; cbn [respond fst]; try done.
  - unfold issue_token. set (ts := if (_ : bool) then (_ : TokenState) else _). set (vs := (default _ _).*1). by destruct (negb _).
  - destruct (negb _); [done|]. unfold record_announce. by destruct (_ || _).
Qed.

Lemma handle_framed now fresh b s : state_ok s -> addr_ok from = true ->
  framed s (handle_datagram sha1 now fresh from b s).1 /\ forall out q r, (handle_datagram sha1 now fresh from b s).2 = Ok out -> Delivered q (KResponse r) ∈ out -> response_ok r = true.
Proof.
  intros Hs Hf. assert (H0 : framed s s) by (split_and!; auto). assert (Hr : forall r' t q r s1 s2 out, route_reply from t r' s1 = (s2, out) -> Delivered q (KResponse r) ∈ out -> r' = KResponse r).
  { intros r' t q r s1 s2 out E Hin. unfold route_reply in E. destruct (pending s1 !! t); [|injection E as <- <-; by apply not_elem_of_nil in Hin]. destruct (bool_decide _); injection E as <- <-; [by apply list_elem_of_singleton in Hin as [= _ ->]|by apply not_elem_of_nil in Hin]. }
  unfold handle_datagram. destruct (decode _ b) as [m|e| |] eqn:E; try (by split; [|intros out q r [= <-] Hin; by apply not_elem_of_nil in Hin]); try done.
  destruct (decode_ok _ _ _ E) as [Hm _]. destruct m as [t q|t r|t code msg]; cbn [message_ok] in Hm; bools.
  - destruct (allow_query_from now (sa_ip from) s) as [s1 ok] eqn:Ea. assert (G : framed s s1 /\ state_ok s1).
    { unfold allow_query_from in Ea. set (lim := if (_ : bool) then (_ : gmap IpAddr _) else _) in Ea. destruct (try_consume _ _ _) as [b' ok']. injection Ea as <- _. split; [by eapply framed_same|by apply with_limits_ok]. }
    destruct G as [G1 G2]. destruct ok; [|split; [done|intros out q' r [= <-] Hin; by apply not_elem_of_nil in Hin]]. unfold answer_query. msteps.
    assert (Hi : id_ok (query_id q) = true) by (destruct q; cbn in *; bools; done). destruct G2 as [Ht _ _ _]. pose proof (framed_insert now (query_id q) s1 Ht Hi) as F.
    assert (F' : framed s (insert_contact now (query_id q) from s1).1) by (destruct F as (A & B & C), G1 as (A' & B' & C'); split_and!; [congruence|congruence|intros d [?|Hd]%C; [by left|by apply C']]).
    destruct (insert_contact _ _ _ s1) as [s2 x]. destruct x; try done. cbn [fst] in *. pose proof (framed_respond now fresh q s s2 F') as R. destruct (respond _ _ _ _ _ _) as [s3 resp]. cbn [fst snd] in *. split; [done|].
    intros out q' r' [= <-] Hin. apply list_elem_of_singleton in Hin. discriminate Hin.
  - msteps. assert (Hi : id_ok (response_id r) = true) by (destruct r; cbn in *; bools; done). destruct Hs as [Ht _ _ _]. pose proof (framed_insert now (response_id r) s Ht Hi) as F.
    destruct (insert_contact _ _ _ s) as [s2 x]. destruct x; try done. cbn [fst] in F. pose proof (framed_reply from t (KResponse r) s s2 F) as R. destruct (route_reply _ _ _ _) as [s3 o] eqn:Er. cbn [fst snd] in *. split; [done|].
    intros out q' r' [= <-] Hin. by injection (Hr _ _ _ _ _ _ _ Er Hin) as <-.
  - pose proof (framed_reply from t (KError code msg) s s H0) as R. destruct (route_reply _ _ _ _) as [s3 o] eqn:Er. cbn [fst snd] in *. split; [done|]. intros out q' r' [= <-] Hin. discriminate (Hr _ _ _ _ _ _ _ Er Hin).
Qed.
End Frame.

(** ** What holds throughout *)

Section Invariant.
Context (sha1 : bytes -> bytes) (id : NodeId) (Hid : id_ok id = true) (strict : bool) (first : option bytes).
(** The sources of the datagrams that arrive, and the answers of the resolver. *)
Context (sources resolved : list SocketAddr).

(** Where the node may send: to an address the policy admits, to one it heard from, to a resolved bootstrap node. *)
Definition admitted (a : SocketAddr) : Prop :=
  is_dialable_peer_addr a strict = true \/ a ∈ sources \/ (a ∈ resolved /\ is_ipv4 a = true /\ is_dialable_resolved_ip (sa_ip a) false = true).

Definition met (c : Contact) : Prop := c_addr c ∈ sources \/ is_dialable_peer_addr (c_addr c) strict = true.

Definition askable_ : Contact -> Prop := askable strict met.

Definition look_ok (target : bytes) (l : Lookup) : Prop := id_ok target = true /\ Forall askable_ (shortlist l) /\ forall k t a, toks l !! k = Some (t, a) -> admitted a.

Definition task_ok (t : Task) : Prop :=
  match t with
  | Asking rest _ => Forall admitted rest
  | Looking _ target l ws => look_ok target l /\ Forall (fun w => admitted (c_addr w.1)) ws
  | Announcing rest _ => Forall (fun x => admitted x.1) rest
  | Finished => True
  end.

(** A file this node wrote: it reads back as its id and contacts it may ask. *)
Definition own_file (f : bytes) : Prop :=
  forall clock, exists l, load_bytes clock f = Some (id, l) /\ Forall met l.

Record node_ok (n : Node) : Prop := {
  k_shared : state_ok (n_shared n);
  k_id : ss_id (n_shared n) = id;
  k_strict : strict_martians (n_shared n) = strict;
  k_met : Forall met (all_contacts (routing (n_shared n)));
  k_main : match n_main n with Booting t => task_ok t | _ => True end;
  k_tasks : Forall task_ok (n_tasks n);
  k_cmds : (length (n_cmds n) <= COMMANDS)%nat /\ Forall (fun c => match c with CGetPeers ih _ | CAnnounce ih _ => id_ok ih = true | _ => True end) (n_cmds n);
  k_inbox : forall q r, n_inbox n !! q = Some (Some r) -> response_ok r = true;
  k_sent : Forall (fun x => admitted x.1) (n_sent n);
  k_file : n_file n = first \/ exists f, n_file n = Some f /\ own_file f;
  k_saving : Forall own_file (n_saving n);
}.

Lemma met_admitted c : met c -> admitted (c_addr c).
Proof. intros [?|?]; unfold admitted; auto. Qed.

Lemma askable_admitted c : askable_ c -> admitted (c_addr c).
Proof. intros [_ [?|?]]; [by apply met_admitted|by left]. Qed.

(** *** Queries *)

Lemma ask_ok txid addr q n : node_ok n -> admitted addr -> node_ok (ask txid addr q n).1 /\ n_main (ask txid addr q n).1 = n_main n /\ n_tasks (ask txid addr q n).1 = n_tasks n.
Proof.
  intros [] Ha. unfold ask, send_query. split_and!; [|done|done]. split; cbn; try done.
  - by apply with_pending_ok.
  - apply list.Forall_app. split; [done|]. by constructor.
Qed.

Lemma fail_ok q n : node_ok n -> node_ok (fail_query q n) /\ n_main (fail_query q n) = n_main n /\ n_tasks (fail_query q n) = n_tasks n.
Proof.
  intros Hn. unfold fail_query. destruct (n_open n !! q) as [txid|]; [|done]. destruct Hn. split_and!; [|done|done]. split; cbn; try done.
  - by apply with_pending_ok.
  - intros q' r [[_ E]|[_ E]]%lookup_insert_Some; [done|]. by eapply k_inbox0.
Qed.

Lemma ingest_met now r s : state_ok s -> response_ok r = true -> strict_martians s = strict -> Forall met (all_contacts (routing s)) -> Forall met (all_contacts (routing (ingest_nodes_from now r s))).
Proof.
  intros Hs Hr Est Hm. unfold ingest_nodes_from. destruct (response_nodes r) as [nodes|] eqn:E; [|done]. cbn [with_routing routing]. rewrite Est.
  assert (F : Forall (fun c => id_ok (c_id c) = true /\ is_dialable_peer_addr (c_addr c) strict = true) (dialable_nodes nodes strict)).
  { assert (F : forallb contact_ok nodes = true) by (destruct r; try done; injection E as ->; cbn [response_ok] in Hr; unfold nodes_ok in Hr; bools; done).
    apply forallb_Forall_iff in F. rewrite list.Forall_forall in F. apply list.Forall_forall. intros c Hc. apply list_elem_of_In, filter_In in Hc as [Hc Hd].
    split; [|done]. apply list_elem_of_In in Hc. specialize (F c Hc). unfold contact_ok in F. bools. done. }
  destruct Hs as [Ht _ _ _]. revert Ht Hm. generalize (routing s). induction F as [|c l [Hi Hd] _ IH]; intros rt Ht Hm; [done|]. cbn [foldl].
  destruct (rt_insert_ok (fun _ => now) c rt Ht Hi) as (H1 & _ & _). destruct (rt_insert_policy (fun _ => now) c rt Ht Hi) as (ok & _ & _ & H4 & _). apply IH; [done|].
  apply list.Forall_forall. intros d [->|Hd']%H4; [by right|]. rewrite list.Forall_forall in Hm. by apply Hm.
Qed.

Lemma ingest_node now r n : node_ok n -> response_ok r = true -> node_ok (set_shared (ingest_nodes_from now r (n_shared n)) n).
Proof.
  intros [] Hr. split; cbn; try done.
  - by apply ingest_ok.
  - unfold ingest_nodes_from. by destruct (response_nodes r).
  - by rewrite ingest_strict.
  - by apply ingest_met.
Qed.

(** *** Tasks *)

Lemma ask_batch_ok p target batch : forall txids n, node_ok n -> Forall (fun c => admitted (c_addr c)) batch ->
  let '(n', ws) := ask_batch p target batch txids n in node_ok n' /\ Forall (fun w => admitted (c_addr w.1)) ws.
Proof.
  induction batch as [|c batch IH]; intros txids n Hn Hb; cbn [ask_batch]; [split; [done|constructor]|]. apply list.Forall_cons in Hb as [Hc Hb].
  set (q0 := lookup_query _ _ _). pose proof (proj1 (ask_ok (txids 0%nat) (c_addr c) q0 n Hn Hc)) as H1. destruct (ask _ _ _ n) as [n1 q]. cbn [fst] in H1.
  specialize (IH (fun i => txids (S i)) n1 H1 Hb). destruct (ask_batch p target batch _ n1) as [n2 ws]. destruct IH as [I1 I2]. split; [done|]. by constructor.
Qed.

Lemma new_look s target : state_ok s -> Forall met (all_contacts (routing s)) -> id_ok target = true -> look_ok target (lookup_new s target).
Proof.
  intros [Ht _ _ _] Hm Hi. split_and!; [done| |].
  - cbn [lookup_new shortlist]. apply list.Forall_forall. intros c Hc%closest_in. rewrite list.Forall_forall in Hm. split; [by eapply all_ok|left; by apply Hm].
  - intros k t a. cbn. by rewrite lookup_empty.
Qed.

Lemma targets_admitted target l k : look_ok target l -> k ∈ announce_targets target l -> admitted k.2.2.
Proof.
  intros (_ & _ & Ht) Hk. unfold announce_targets in Hk. assert (Hin : k ∈ map_to_list (toks l)).
  { rewrite <- (sort_by_perm (tok_closer target)). eapply elem_of_sublist; [exact Hk|apply sublist_take]. }
  destruct k as [k [t a]]. apply elem_of_map_to_list in Hin. by eapply Ht.
Qed.

Lemma end_lookup_ok p target l n : node_ok n -> look_ok target l -> let '(n', t) := end_lookup p target l n in node_ok n' /\ task_ok t.
Proof.
  intros Hn Hl. destruct p as [|reply|port]; cbn [end_lookup task_ok]; [done|split; [by destruct Hn|done]|]. split; [done|]. apply Forall_fmap, list.Forall_forall. intros k Hk. cbn. by eapply targets_admitted.
Qed.

Lemma absorb_ok k c r target l : response_ok r = true -> admitted (c_addr c) -> look_ok target l -> look_ok target (absorb k strict c r l).
Proof.
  intros Hr Hc (H1 & H2 & H3). split_and!; [done|by apply absorb_askable|]. unfold absorb. intros k' t a. destruct k, r; cbn [toks]; try apply H3;
    (intros [[<- [= <- <-]]|[_ E]]%lookup_insert_Some; [done|by eapply H3]).
Qed.

Lemma settle_ok target l : look_ok target l -> look_ok target (mkLookup (settle target (shortlist l)) (queried l) (peers l) (toks l)).
Proof.
  intros (H1 & H2 & H3). split_and!; [done| |done]. cbn [shortlist]. destruct (settle_sorted target (shortlist l) H1) as [_ S]; [eapply list.Forall_impl; [exact H2|]; by intros c [? _]|].
  apply list.Forall_forall. intros c Hc%S. rewrite list.Forall_forall in H2. by apply H2.
Qed.

Lemma advance_ok now txids over t n : node_ok n -> task_ok t -> let '(n', t') := advance now txids over t n in node_ok n' /\ task_ok t'.
Proof.
  intros Hn Ht. destruct t as [[|addr rest] [q|]|p target l [|[c q] ws]|[|[addr query] rest] [q|]|]; cbn [advance].
  - destruct (n_inbox n !! q) as [[r|]|] eqn:E; [|done|done]. split; [|done]. apply ingest_node; [done|]. by eapply k_inbox.
  - split; [done|]. cbn [task_ok]. split; [|constructor]. destruct Hn as [S E1 _ M _ _ _ _ _ _ _]. apply new_look; [done|done|by rewrite E1].
  - destruct (n_inbox n !! q) as [[r|]|] eqn:E; [|done|done]. split; [|done]. apply ingest_node; [done|]. by eapply k_inbox.
  - apply list.Forall_cons in Ht as [Ha Hr]. pose proof (proj1 (ask_ok (txids 0%nat) addr (FindNode (ss_id (n_shared n)) (ss_id (n_shared n))) n Hn Ha)) as H1. by destruct (ask _ _ _ n).
  - destruct Ht as [Hl _]. destruct (_ || _); [by apply end_lookup_ok|]. set (batch := next_batch _ _).
    assert (Hb : Forall (fun c => admitted (c_addr c)) batch).
    { apply list.Forall_forall. intros c Hc. destruct Hl as (_ & F & _). rewrite list.Forall_forall in F. apply askable_admitted, F. eapply elem_of_sublist; [exact Hc|]. unfold batch, next_batch. etransitivity; [apply sublist_take|apply filter_sublist]. }
    pose proof (ask_batch_ok p target batch txids n Hn Hb) as B. destruct (ask_batch p target batch txids n) as [n1 ws]. destruct B as [B1 B2]. split; [done|]. split; [|done]. by destruct Hl as (? & ? & ?).
  - destruct Ht as [Hl Hw]. apply list.Forall_cons in Hw as [Hc Hw]. cbn [fst] in Hc. destruct (n_inbox n !! q) as [o|] eqn:E; [|by split; [|split; [|constructor]]].
    assert (G : let '(s, l') := match o with Some r => (ingest_nodes_from now r (n_shared n), absorb (kind_of p) (strict_martians (n_shared n)) c r l) | None => (n_shared n, l) end in node_ok (set_shared s n) /\ look_ok target l').
    { destruct o as [r|]; [|split; [by destruct n|done]]. pose proof (k_inbox n Hn q r E) as Hr. split; [by apply ingest_node|]. rewrite (k_strict n Hn). by apply absorb_ok. }
    destruct (match o with Some _ => _ | None => _ end) as [s1 l1]. destruct G as [G1 G2]. destruct ws as [|w ws]; [|done]. apply settle_ok in G2. set (l2 := mkLookup _ _ _ _) in *.
    assert (D : node_ok (set_shared s1 n) /\ task_ok (Looking p target l2 [])) by (split; [done|split; [done|constructor]]). destruct p as [|reply|port]; [exact D| |exact D]. destruct (20 <=? _)%nat; [by apply end_lookup_ok|exact D].
  - destruct (bool_decide _); done.
  - done.
  - destruct (bool_decide _); done.
  - apply list.Forall_cons in Ht as [Ha Hr]. pose proof (proj1 (ask_ok (txids 0%nat) addr query n Hn Ha)) as H1. by destruct (ask _ _ _ n).
  - done.
Qed.

(** *** Events *)

Lemma save_own s : state_ok s -> ss_id s = id -> Forall met (all_contacts (routing s)) -> exists file, save_bytes (ss_id s) (routing s) = Ok file /\ own_file file.
Proof.
  intros [Ht Hi Ha _] E Hm. rewrite E. destruct (persist_roundtrip (fun _ => 0) id (routing s) Hid Ht Ha) as (file & _ & Ef & _). exists file. split; [done|]. intros clock.
  destruct (persist_roundtrip clock id (routing s) Hid Ht Ha) as (file' & l & Ef' & El & P). rewrite Ef in Ef'. injection Ef' as <-. exists l. split; [done|].
  apply list.Forall_forall. intros c Hc. apply (list_elem_of_fmap_2 untimed_contact) in Hc. rewrite P in Hc. apply list_elem_of_fmap in Hc as (d & Ed & Hd). apply list_elem_of_In, filter_In in Hd as [Hd _]. apply list_elem_of_In in Hd.
  rewrite list.Forall_forall in Hm. specialize (Hm d Hd). destruct c as [ci ca ct], d as [di da dt]. unfold untimed_contact in Ed. injection Ed as -> ->. exact Hm.
Qed.

Lemma output_ok o n : node_ok n -> (forall dest b, o = Sent dest b -> admitted dest) -> (forall q r, o = Delivered q (KResponse r) -> response_ok r = true) -> node_ok (put_output o n).
Proof.
  intros Hn Hs Hr. destruct o as [dest b|q [r|code msg]]; cbn [put_output].
  - destruct Hn. split; cbn; try done. apply list.Forall_app. split; [done|]. constructor; [|done]. by eapply Hs.
  - destruct (n_open n !! q); [|done]. destruct Hn. split; cbn; try done. intros q' r' [[<- [= <-]]|[_ E]]%lookup_insert_Some; [by eapply Hr|by eapply k_inbox0].
  - by apply fail_ok.
Qed.

Lemma node_datagram_ok now fresh from b n : node_ok n -> addr_ok from = true -> from ∈ sources -> exists n', dht_event sha1 (Datagram now fresh from b) n = (n', Ok tt) /\ node_ok n'.
Proof.
  intros Hn Hf Hin. cbn [dht_event]. destruct (handle_effects sha1 now fresh from (take MAX_DATAGRAM b) (n_shared n) (k_shared n Hn) Hf) as (s' & out & E & He).
  destruct (handle_framed sha1 from now fresh (take MAX_DATAGRAM b) (n_shared n) (k_shared n Hn) Hf) as [(F1 & F2 & F3) Fr]. rewrite E in *. cbn [fst snd] in *.
  assert (H1 : node_ok (set_shared s' n)).
  { destruct Hn, He as [Hs' _]. split; cbn; try done; [congruence|congruence|]. apply list.Forall_forall. intros d [Hd|Hd]%F3; [left; by rewrite Hd|]. rewrite list.Forall_forall in k_met0. by apply k_met0. }
  eexists. split; [done|]. destruct He as [_ [[-> _]|[(m & -> & _ & _)|(t & p & r & -> & _ & _ & _)]]]; cbn [foldl]; [done| |].
  - apply output_ok; [done| |done]. intros dest b' [= <- <-]. right. by left.
  - apply output_ok; [done|done|]. intros q r' [= <- ->]. eapply (Fr _ (reply p) r' eq_refl). by apply list_elem_of_singleton.
Qed.

Lemma end_main_ok n : node_ok n -> node_ok (end_main n).
Proof. intros []. split; cbn; try done. split; [lia|constructor]. Qed.

Lemma node_stop_ok written n : node_ok n -> exists n', stop written n = (n', Ok tt) /\ node_ok n'.
Proof.
  intros Hn. unfold stop. destruct (n_persist n); [|eexists; split; [done|by apply end_main_ok]]. destruct (save_own (n_shared n) (k_shared n Hn) (k_id n Hn) (k_met n Hn)) as (file & -> & Ho).
  eexists. split; [done|]. apply end_main_ok. destruct Hn. split; cbn; try done. destruct written; [|done]. right. by exists file.
Qed.

(** Events of the world this node lives in. *)
Definition event_ok (e : Event) : Prop :=
  match e with
  | Datagram _ _ from _ => addr_ok from = true /\ from ∈ sources
  | Resolved answers => Forall (fun a => forall l x, a = Some l -> x ∈ l -> x ∈ resolved) answers
  | Command (CGetPeers ih _) | Command (CAnnounce ih _) => id_ok ih = true
  | _ => True
  end.

Lemma resolve_admitted answers : event_ok (Resolved answers) -> Forall admitted (resolve_bootstrap answers).
Proof.
  intros He. apply list.Forall_forall. intros a Ha. unfold resolve_bootstrap in Ha. apply list_elem_of_omap in Ha as (o & Ho & Ea). destruct o as [l|]; [|done]. cbn in Ea. cbn [event_ok] in He. rewrite list.Forall_forall in He.
  unfold first_dialable_v4 in Ea. destruct (List.filter _ l) as [|x r] eqn:Ef; [done|]. injection Ea as ->. assert (Hin : In a (a :: r)) by by left. rewrite <- Ef in Hin. apply filter_In in Hin as [Hin Hb]. apply andb_true_iff in Hb as [H1 H2].
  right. right. split_and!; [|done|done]. apply (He _ Ho l a eq_refl). by apply list_elem_of_In.
Qed.

Lemma start_lookup_ok p target n : node_ok n -> id_ok target = true -> node_ok (set_tasks (n_tasks n ++ [Looking p target (lookup_new (n_shared n) target) []]) n).
Proof.
  intros Hn Hc. pose proof (new_look _ target (k_shared n Hn) (k_met n Hn) Hc) as L. destruct Hn. split; cbn; try done. apply list.Forall_app. split; [done|]. constructor; [|done]. by split; [|constructor].
Qed.

Lemma command_ok written c n : node_ok n -> event_ok (Command c) -> exists n', on_command written c n = (n', Ok tt) /\ node_ok n'.
Proof.
  intros Hn Hc. destruct c as [ih reply|ih port|reply|]; cbn [on_command]; [eexists; split; [done|by apply start_lookup_ok]..|eexists; split; [done|by destruct Hn]|by apply node_stop_ok].
Qed.

Lemma event_keeps e n : node_ok n -> event_ok e -> exists n', dht_event sha1 e n = (n', Ok tt) /\ node_ok n'.
Proof.
  intros Hn He. destruct e as [now fresh from b|q|answers|now txids over|i now txids over|c|w|w| |w|now]; [by destruct He; apply node_datagram_ok|..]; cbn [dht_event].
  - eexists. split; [done|by apply fail_ok].
  - destruct (n_main n) eqn:Em; [|by exists n..]. eexists. split; [done|]. pose proof (resolve_admitted answers He) as Ha. destruct Hn. split; cbn; try done. by destruct (_ =? 0)%nat.
  - destruct (n_main n) as [|t| |] eqn:Em; [by exists n| |by exists n..]. assert (Ht : task_ok t) by (pose proof (k_main n Hn) as H; by rewrite Em in H). pose proof (advance_ok now txids over t n Hn Ht) as A.
    destruct (advance now txids over t n) as [n1 t1]. destruct A as [A1 A2]. eexists. split; [done|]. destruct A1. split; cbn; try done. by destruct t1.
  - destruct (n_tasks n !! i) as [t|] eqn:Et; [|by exists n]. assert (Ht : task_ok t) by (pose proof (k_tasks n Hn) as H; rewrite list.Forall_forall in H; by eapply H, list_elem_of_lookup_2). pose proof (advance_ok now txids over t n Hn Ht) as A.
    destruct (advance now txids over t n) as [n1 t1]. destruct A as [A1 A2]. eexists. split; [done|]. destruct A1. split; cbn; try done. by apply Forall_insert.
  - destruct (n_main n) eqn:Em; try (eexists; split; [done|]; destruct (Nat.ltb_spec (length (n_cmds n)) COMMANDS); [|done]; destruct Hn as [? ? ? ? ? ? [? ?] ? ? ? ?]; split; cbn; try done; rewrite length_app; cbn; (split; [lia|]); apply list.Forall_app; (split; [done|]); constructor; [by destruct c|done]).
    eexists. split; [done|]. by destruct Hn.
  - destruct (n_main n) eqn:Em; [by exists n..| |by exists n]. destruct (n_cmds n) as [|c cmds] eqn:Ec; [by exists n|]. pose proof (k_cmds n Hn) as [L F]. rewrite Ec in L, F. apply list.Forall_cons in F as [F1 F2].
    apply command_ok; [|by destruct c]. destruct Hn. split; cbn; try done. cbn in L. split; [lia|done].
  - destruct (n_main n); [by exists n..| |by exists n]. destruct (n_cmds n); [by apply node_stop_ok|by exists n].
  - destruct (n_main n); [by exists n..| |by exists n]. destruct (n_persist n); [|by exists n]. destruct (save_own (n_shared n) (k_shared n Hn) (k_id n Hn) (k_met n Hn)) as (file & -> & Ho). eexists. split; [done|].
    destruct Hn. split; cbn; try done. apply list.Forall_app. split; [done|]. by constructor.
  - destruct (n_saving n) as [|file saving] eqn:Es; [by exists n|]. eexists. split; [done|]. pose proof (k_saving n Hn) as F. rewrite Es in F. apply list.Forall_cons in F as [F1 F2]. destruct Hn. split; cbn; try done. destruct w; [|done]. right. by exists file.
  - destruct (n_main n) eqn:Em; [by exists n..| |by exists n]. eexists. split; [done|]. destruct Hn. split; cbn; try done. by apply prune_ok.
Qed.

Lemma node_run_ok evs : forall n, node_ok n -> Forall event_ok evs -> exists n', dht_run sha1 evs n = (n', Ok tt) /\ node_ok n'.
Proof.
  induction evs as [|e evs IH]; intros n Hn He; [by exists n|]. apply list.Forall_cons in He as [H1 H2]. destruct (event_keeps e n Hn H1) as (n1 & E & Hn1). cbn [dht_run]. rewrite (bind_step _ _ _ _ _ E). by apply IH.
Qed.
End Invariant.

(** ** From the state file on *)

Definition source_of (e : Event) : option SocketAddr := match e with Datagram _ _ from _ => Some from | _ => None end.
Definition resolved_by (e : Event) : list SocketAddr := match e with Resolved answers => mjoin (default [] <$> answers) | _ => [] end.

(** Addresses and hashes have their widths. *)
Definition event_typed (e : Event) : Prop :=
  match e with
  | Datagram _ _ from _ => addr_ok from = true
  | Command (CGetPeers ih _) | Command (CAnnounce ih _) => id_ok ih = true
  | _ => True
  end.

Lemma typed_ok evs : Forall event_typed evs -> Forall (event_ok (omap source_of evs) (mjoin (resolved_by <$> evs))) evs.
Proof.
  intros Ht. apply list.Forall_forall. intros e He. rewrite list.Forall_forall in Ht. specialize (Ht e He). destruct e; try done; cbn [event_ok event_typed] in *.
  - split; [done|]. apply list_elem_of_omap. eexists. by split.
  - apply list.Forall_forall. intros o Ho l x -> Hx. apply list_elem_of_join. exists (resolved_by (Resolved answers)). split.
    + cbn [resolved_by]. apply list_elem_of_join. exists l. split; [done|]. apply list_elem_of_fmap. by exists (Some l).
    + apply list_elem_of_fmap. by exists (Resolved answers).
Qed.

Lemma load_loop_ok clock chunks : forall i, Forall (fun c => length c = 26%nat) chunks -> Forall (fun c => contact_ok c = true) (load_loop clock i chunks).
Proof.
  induction chunks as [|ch l IH]; intros i H; cbn [load_loop]; [constructor|]. apply list.Forall_cons in H as [Hc H]. unfold chunk_contact.
  destruct (drop 20 ch) as [|a [|b [|c [|d [|p1 [|p2 [|? ?]]]]]]] eqn:E; auto. constructor; [|auto]. unfold contact_ok, addr_ok, id_ok. cbn [contact_new c_id c_addr sock_addr sa_ip sa_port sa_flow sa_scope].
  rewrite length_take, Hc. pose proof (from_be_range [p1; p2]) as R. cbn in R. by rewrite (proj2 (in_u_spec 16 _)) by (cbn; lia).
Qed.

Lemma load_typed clock f id l : load_bytes clock f = Some (id, l) -> id_ok id = true /\ Forall (fun c => contact_ok c = true) l.
Proof.
  unfold load_bytes. destruct (Nat.ltb_spec (length f) (4 + 1 + 20 + 4)) as [|L]; [done|]. destruct (_ || _); [done|]. destruct (negb _); [done|]. intros [= <- <-]. split; [|apply load_loop_ok, as_chunks_len].
  unfold id_ok. rewrite length_slice by lia. done.
Qed.

Section Spawn.
Context (now : Z) (clock : nat -> Z) (random_id : NodeId) (Hrnd : id_ok random_id = true) (persist : bool) (file : option bytes) (strict : bool) (salt1 salt2 : bytes).

Definition stored : option (NodeId * list Contact) := if persist then file ≫= load_bytes clock else None.
Definition identity : NodeId := match stored with Some (id, _) => id | None => random_id end.

Lemma identity_ok : id_ok identity = true.
Proof. unfold identity, stored. destruct persist; [|done]. destruct file as [f|]; [|done]. cbn. destruct (load_bytes clock f) as [[id l]|] eqn:E; [|done]. by eapply load_typed. Qed.

(** Entering screened contacts. *)
Lemma warm_ok sources l : Forall (fun c => contact_ok c = true /\ is_dialable_peer_addr (c_addr c) strict = true) l -> forall s, state_ok s -> Forall (met strict sources) (all_contacts (routing s)) ->
  let s' := with_routing (foldl (fun rt c => (rt_insert clock c rt).1) (routing s) l) s in state_ok s' /\ Forall (met strict sources) (all_contacts (routing s')).
Proof.
  induction 1 as [|c l [Hc Hd] _ IH]; intros s Hs Hm; [by destruct s|]. cbn [foldl]. unfold contact_ok in Hc. bools. pose proof Hs as [Ht Hi Ha Hst].
  destruct (rt_insert_ok clock c (routing s) Ht H) as (H1 & H2 & _). destruct (rt_insert_policy clock c (routing s) Ht H) as (ok & _ & _ & H4 & _).
  apply (IH (with_routing (rt_insert clock c (routing s)).1 s)); cbn [with_routing routing].
  - constructor; cbn; [done|congruence| |done]. apply list.Forall_forall. intros d [->|Hd']%H4; [done|]. unfold addrs_ok in Ha. rewrite list.Forall_forall in Ha. by apply Ha.
  - apply list.Forall_forall. intros d [->|Hd']%H4; [by right|]. rewrite list.Forall_forall in Hm. by apply Hm.
Qed.

Lemma spawned_ok sources resolved : exists n, spawn now clock true random_id persist file strict salt1 salt2 = Ok n /\ node_ok identity strict file sources resolved n.
Proof.
  unfold spawn, server_spawn. fold stored. cbn [negb]. set (warm := match stored with Some (_, c) => dialable_warm_contacts c strict | None => [] end).
  assert (Hw : Forall (fun c => contact_ok c = true /\ is_dialable_peer_addr (c_addr c) strict = true) warm).
  { unfold warm, stored. destruct persist; [|constructor]. destruct file as [f|]; [|constructor]. cbn. destruct (load_bytes clock f) as [[id l]|] eqn:E; [|constructor]. apply load_typed in E as [_ F]. rewrite list.Forall_forall in F.
    apply list.Forall_forall. intros c Hc. apply list_elem_of_In, filter_In in Hc as [Hc Hd]. split; [|done]. by apply F, list_elem_of_In. }
  set (s := shared_new now identity strict salt1 salt2). destruct (warm_ok sources warm Hw s (shared_new_ok _ _ _ _ _ identity_ok)) as [W1 W2]; [unfold all_contacts; cbn; constructor|].
  exists (mkNode (with_routing (foldl (fun rt c => (rt_insert clock c rt).1) (routing s) warm) s) Resolving [] [] persist file [] 0 ∅ ∅ [] []). split.
  - unfold warm, s, identity. by destruct stored as [[id l]|].
  - split; try done; [by split; [cbn; lia|constructor]|by left].
Qed.
End Spawn.

(** C10: the life of a DHT node.  Whatever the state file holds, whatever datagrams arrive from whatever addresses, however the
    bootstrap, the lookups, the announces, the commands and the saves interleave, and whichever queries fail: the node starts,
    no task panics, its tables stay well formed and bounded, at most 64 commands wait, and its identity is the one of the state file,
    when that can be read.  Everything it sends goes to an address it heard from, to a contact that passed the address
    policy, or to the first acceptable IPv4 address of a bootstrap name.  The state file is either untouched or one this
    node wrote, which the next start reads as the same identity.  And in every state reached each
    further datagram has one effect at most: one well-formed answer to its source, or the end of a query that was sent to exactly that address. *)
Theorem dht_life sha1 now clock random_id persist file strict salt1 salt2 evs : id_ok random_id = true -> Forall event_typed evs ->
  let heard := omap source_of evs in
  let named := mjoin (resolved_by <$> evs) in
  let id := identity clock random_id persist file in
  exists n0 n, spawn now clock true random_id persist file strict salt1 salt2 = Ok n0 /\ dht_run sha1 evs n0 = (n, Ok tt) /\
    state_ok (n_shared n) /\ ss_id (n_shared n) = id /\ (length (n_cmds n) <= COMMANDS)%nat /\
    Forall (fun x => admitted strict heard named x.1) (n_sent n) /\
    (n_file n = file \/ exists f, n_file n = Some f /\ own_file id strict heard f) /\
    forall now' fresh from b, addr_ok from = true -> exists s' out, handle_datagram sha1 now' fresh from b (n_shared n) = (s', Ok out) /\ effects_ok from (n_shared n) s' out.
Proof.
  intros Hr Ht heard named id. destruct (spawned_ok now clock random_id Hr persist file strict salt1 salt2 heard named) as (n0 & E0 & H0). fold id in H0.
  destruct (node_run_ok sha1 id (identity_ok clock random_id Hr persist file) strict file heard named evs n0 H0 (typed_ok evs Ht)) as (n & E & Hn). destruct Hn. exists n0, n. split_and!; try done; [by destruct k_cmds0|].
  intros now' fresh from b Hf. by apply handle_effects.
Qed.

(** ** Examples *)

Definition router_ex : SocketAddr := sock_addr (IpV4 x09 x09 x09 x09) 6881.
Definition nodes_ex : bytes := msg_encode (MResponse (bs "aa") (RNodes (id_ex x05) [contact_new 0 (id_ex x06) peer_ex])).

(** The bootstrap node is asked and answers, the node it names is asked and does not, then the node is shut down; [after] is what happens then. *)
Definition life_ex (after : list Event) : list Event :=
  [Resolved [None; Some [router_ex]]; AdvanceMain 1 (fun _ => bs "aa") false; Datagram 2 [] router_ex nodes_ex; AdvanceMain 2 (fun _ => []) false; AdvanceMain 3 (fun _ => []) false;
   AdvanceMain 3 (fun i => [z2b (Z.of_nat i)]) false; Fail_ 1; Fail_ 2; AdvanceMain 4 (fun _ => []) false; AdvanceMain 4 (fun _ => []) false; AdvanceMain 4 (fun _ => []) false;
   Command CShutdown; NextCommand true] ++ after.

Definition lived_ex (after : list Event) : list (Z * Z) * option Main * option nat :=
  match spawn 0 (fun _ => 0) true (id_ex x01) true None false (bs "saltsalt") (bs "tlastlas") with
  | Ok n => let n := (dht_run sha_ex (life_ex after) n).1 in ((fun x => (sa_port x.1, Z.of_nat (length x.2))) <$> n_sent n, Some (n_main n), (fun f => length f) <$> n_file n)
  | _ => ([], None, None)
  end.

Lemma dht_life_witness : exists n0 n, spawn 0 (fun _ => 0) true (id_ex x01) true None false (bs "saltsalt") (bs "tlastlas") = Ok n0 /\ dht_run sha_ex (life_ex []) n0 = (n, Ok tt) /\
  n_main n = Stopped /\ length (n_sent n) = 3%nat /\ Forall (fun x => admitted false [router_ex] [router_ex] x.1) (n_sent n).
Proof.
  destruct (dht_life sha_ex 0 (fun _ => 0) (id_ex x01) true None false (bs "saltsalt") (bs "tlastlas") (life_ex []) eq_refl) as (n0 & n & E0 & E & _ & _ & _ & Hs & _).
  - repeat constructor.
  - exists n0, n. split; [exact E0|]. split; [exact E|]. cut (n_main n = Stopped /\ length (n_sent n) = 3%nat); [intros [? ?]; split_and!; [done|done|exact Hs]|].
    assert (G : match spawn 0 (fun _ => 0) true (id_ex x01) true None false (bs "saltsalt") (bs "tlastlas") with Ok n => (fun m => (n_main m, length (n_sent m))) (dht_run sha_ex (life_ex []) n).1 | _ => (Serving, 0%nat) end = (Stopped, 3%nat)) by (vm_compute; reflexivity).
    rewrite E0, E in G. cbn [fst] in G. by injection G.
Defined.

(** Shutting down ends the main task only: the receive task goes on, so the socket stays open and a query that comes later is answered. *)
Example stopped_node_answers :
  (lived_ex []).1.2 = Some Stopped /\ (lived_ex [Datagram 9 [] peer_ex ping_ex]).1.1 = (lived_ex []).1.1 ++ [(6881, 47)].
Proof. vm_compute. split; reflexivity. Qed.
