(* ===== verification/Extension.v ===== *)
(** * Extension protocol: [src/src/peer/extension.rs]

    The BEP 10 handshake dictionary, the BEP 9 metadata messages and the BEP 11
    peer exchange, over the bencode model. *)

From Stdlib Require Import ZArith Lia String Strings.Byte.
From stdpp Require Import base tactics numbers list option.
From S2P Require Import Prelude Bencode Net.

#[local] Set Warnings "-register-all".

Definition METADATA_PIECE_SIZE : Z := 16384.
Definition OUR_UT_METADATA_ID : byte := x01.
Definition OUR_UT_PEX_ID : byte := x02.
Definition EXT_HANDSHAKE_ID : byte := x00.
Definition MAX_METADATA_SIZE : Z := 100 * 1024 * 1024.

(** The version of the package, from its manifest. *)
Definition CARGO_PKG_VERSION : string := "0.1.0".

Definition build_handshake_payload (anonymous : bool) : bytes :=
  let m_map := bt_insert (bs "ut_metadata") (BInt (b2z OUR_UT_METADATA_ID)) [] in
  let m_map := bt_insert (bs "ut_pex") (BInt (b2z OUR_UT_PEX_ID)) m_map in
  let root := bt_insert (bs "m") (BDict m_map) [] in
  let root :=
    if negb anonymous then
      bt_insert (bs "reqq") (BInt 0)
        (bt_insert (bs "v") (BBytes (bs "rustytorrent " ++ bs CARGO_PKG_VERSION)) root)
    else root in
  to_bytes (BDict root).

Record PeerExtensionInfo := mkExtInfo {
  their_ut_metadata_id : option Z;
  their_ut_pex_id : option Z;
  metadata_size : option Z
}.

(** The two ids of the [m] dictionary. *)
Definition parse_m (dict : list (bytes * BencodeValue)) : result (option Z * option Z) :=
  match bt_get (bs "m") dict with
  | None => Ok (None, None)
  | Some m =>
      m_dict ← map_err (ENetwork "ext handshake `m` not a dict") (as_dict m);
      md ← (match bt_get (bs "ut_metadata") m_dict with
            | None => Ok None
            | Some v =>
                id ← map_err (ENetwork "ut_metadata id not int") (as_int v);
                if negb ((0 <=? id) && (id <=? 255)) then Err (ENetwork "ut_metadata id out of range")
                else Ok (if negb (id =? 0) then Some (wrap 8 id) else None)
            end);
      pex ← (match bt_get (bs "ut_pex") m_dict with
             | None => Ok None
             | Some v =>
                 id ← map_err (ENetwork "ut_pex id not int") (as_int v);
                 Ok (if (1 <=? id) && (id <=? 255) then Some (wrap 8 id) else None)
             end);
      Ok (md, pex)
  end.

Definition parse_handshake_payload (payload : bytes) : result PeerExtensionInfo :=
  root ← map_err (ENetwork "ext handshake bencode") (parse_all payload);
  dict ← map_err (ENetwork "ext handshake not a dict") (as_dict root);
  '(md, pex) ← parse_m dict;
  match bt_get (bs "metadata_size") dict with
  | None => Ok (mkExtInfo md pex None)
  | Some sz =>
      n ← map_err (ENetwork "metadata_size not int") (as_int sz);
      if n <=? 0 then Err (ENetwork "metadata_size non-positive")
      else if MAX_METADATA_SIZE <? n then Err (ENetwork "metadata_size too large")
      else Ok (mkExtInfo md pex (Some (wrap 32 n)))
  end.

Definition build_metadata_request (piece : Z) : bytes :=
  to_bytes (BDict (bt_insert (bs "piece") (BInt piece) (bt_insert (bs "msg_type") (BInt 0) []))).

Inductive MetadataResponse :=
  | MData (piece total_size : Z) (data : bytes)
  | MReject (piece : Z)
  | MOther.

Definition parse_metadata_response (payload : bytes) : result MetadataResponse :=
  '(dict, rest) ← map_err (ENetwork "ut_metadata bencode") (parse_value payload);
  d ← map_err (ENetwork "ut_metadata not a dict") (as_dict dict);
  mt ← ok_or (bt_get (bs "msg_type") d) (ENetwork "ut_metadata missing msg_type");
  msg_type ← map_err (ENetwork "ut_metadata msg_type not int") (as_int mt);
  pv ← ok_or (bt_get (bs "piece") d) (ENetwork "ut_metadata missing piece");
  piece ← map_err (ENetwork "ut_metadata piece not int") (as_int pv);
  if (piece <? 0) || (umax 32 <? piece) then Err (ENetwork "ut_metadata piece OOR")
  else
    let piece := wrap 32 piece in
    if msg_type =? 0 then Ok MOther
    else if msg_type =? 1 then
      tv ← ok_or (bt_get (bs "total_size") d) (ENetwork "ut_metadata data missing total_size");
      total_size ← map_err (ENetwork "ut_metadata total_size not int") (as_int tv);
      if (total_size <=? 0) || (100 * 1024 * 1024 <? total_size) then Err (ENetwork "ut_metadata total_size implausible")
      else Ok (MData piece (wrap 32 total_size) rest)
    else if msg_type =? 2 then Ok (MReject piece)
    else Ok MOther.

(** ** Peer exchange *)

Definition PEX_MAX_ENTRIES_PER_DIRECTION : nat := 50.

Definition split_v4_v6 (addrs : list SocketAddr) : list SocketAddr * list SocketAddr :=
  (List.filter is_ipv4 addrs, List.filter (fun a => negb (is_ipv4 a)) addrs).

Definition encode_compact (addrs : list SocketAddr) : bytes :=
  fold_left (fun out a => (out ++ octets (sa_ip a)) ++ to_be 2 (sa_port a)) addrs [].

Definition encode_compact_v4 (addrs : list SocketAddr) : bytes := encode_compact addrs.
Definition encode_compact_v6 (addrs : list SocketAddr) : bytes := encode_compact addrs.

Definition build_pex_payload (added dropped : list SocketAddr) : bytes :=
  let '(added4, added6) := split_v4_v6 added in
  let '(dropped4, dropped6) := split_v4_v6 dropped in
  let d := [] in
  let d := if negb (length added4 =? 0)%nat then
      bt_insert (bs "added.f") (BBytes (replicate (length added4) x00))
        (bt_insert (bs "added") (BBytes (encode_compact_v4 added4)) d) else d in
  let d := if negb (length added6 =? 0)%nat then
      bt_insert (bs "added6.f") (BBytes (replicate (length added6) x00))
        (bt_insert (bs "added6") (BBytes (encode_compact_v6 added6)) d) else d in
  let d := if negb (length dropped4 =? 0)%nat then
      bt_insert (bs "dropped") (BBytes (encode_compact_v4 dropped4)) d else d in
  let d := if negb (length dropped6 =? 0)%nat then
      bt_insert (bs "dropped6") (BBytes (encode_compact_v6 dropped6)) d else d in
  to_bytes (BDict d).

(** The address of a compact entry of [n] octets and two port bytes. *)
Definition chunk_addr (mk : bytes -> option IpAddr) (n : nat) (chunk : bytes) : option SocketAddr :=
  let port := from_be (drop n chunk) in
  if port =? 0 then None else (fun ip => sock_addr ip port) <$> mk (take n chunk).

Definition v4_of (o : bytes) : option IpAddr :=
  match o with [a; b; c; d] => Some (IpV4 a b c d) | _ => None end.
Definition v6_of (o : bytes) : option IpAddr := Some (IpV6 o).

Definition parse_pex (payload : bytes) : result (list SocketAddr) :=
  v ← map_err (ENetwork "ut_pex bencode") (parse_all payload);
  d ← map_err (ENetwork "ut_pex not a dict") (as_dict v);
  let added4 := match bt_get (bs "added") d with
    | Some (BBytes b) => omap (chunk_addr v4_of 4) (as_chunks 6 b) | _ => [] end in
  let added6 := match bt_get (bs "added6") d with
    | Some (BBytes b) => omap (chunk_addr v6_of 16) (as_chunks 18 b) | _ => [] end in
  Ok (added4 ++ added6).

(** ** Compact lists *)

Definition entry (a : SocketAddr) : bytes := octets (sa_ip a) ++ to_be 2 (sa_port a).

Lemma encode_compact_eq l : encode_compact l = concat (entry <$> l).
Proof.
  unfold encode_compact. assert (H : forall out,
    fold_left (fun out a => (out ++ octets (sa_ip a)) ++ to_be 2 (sa_port a)) l out = out ++ concat (entry <$> l)); [|apply H].
  induction l as [|a l IH]; intros out; cbn; [by rewrite app_nil_r|]. rewrite IH. unfold entry at 2.
  by rewrite <- !app_assoc.
Qed.

(** What the other side reads of an address: nothing without a port, and neither
    flow label nor scope. *)
Definition heard_addr (a : SocketAddr) : option SocketAddr :=
  if sa_port a =? 0 then None else Some (sock_addr (sa_ip a) (sa_port a)).

Lemma ok_port a : addr_ok a = true -> 0 <= sa_port a < 256 ^ Z.of_nat 2.
Proof. unfold addr_ok. intros H. bools. match goal with H : in_u 16 _ = true |- _ => by apply in_u_spec in H end. Qed.

Lemma chunk_addr_entry mk n a : addr_ok a = true -> length (octets (sa_ip a)) = n ->
  mk (octets (sa_ip a)) = Some (sa_ip a) -> chunk_addr mk n (entry a) = heard_addr a.
Proof.
  intros Ha Hn Hm. unfold chunk_addr, entry, heard_addr.
  rewrite drop_app_length', take_app_length' by done. rewrite from_to_be by by apply ok_port.
  rewrite Hm. done.
Qed.

Lemma v4_entry a : addr_ok a = true -> is_ipv4 a = true ->
  length (entry a) = 6%nat /\ chunk_addr v4_of 4 (entry a) = heard_addr a.
Proof.
  intros Ha H4. split.
  - unfold entry, is_ipv4 in *. destruct (sa_ip a); [|done]. done.
  - apply chunk_addr_entry; [done|..]; unfold is_ipv4 in H4; by destruct (sa_ip a).
Qed.

Lemma v6_entry a : addr_ok a = true -> negb (is_ipv4 a) = true ->
  length (entry a) = 18%nat /\ chunk_addr v6_of 16 (entry a) = heard_addr a.
Proof.
  intros Ha H6. assert (Hl : length (octets (sa_ip a)) = 16%nat).
  { unfold addr_ok, is_ipv4 in *. destruct (sa_ip a) as [|o]; [done|]. cbn [ip_ok octets] in *. bools. by apply Nat.eqb_eq. }
  split; [unfold entry; by rewrite length_app, Hl, length_to_be|].
  apply chunk_addr_entry; [done|done|]. unfold is_ipv4 in H6. by destruct (sa_ip a).
Qed.

Lemma omap_chunks mk k n l : (0 < k)%nat -> (forall a, a ∈ l -> length (entry a) = k /\ chunk_addr mk n (entry a) = heard_addr a) ->
  omap (chunk_addr mk n) (as_chunks k (encode_compact l)) = omap heard_addr l.
Proof.
  intros Hk H. rewrite encode_compact_eq, as_chunks_concat; [|done|].
  - induction l as [|a l IH]; [done|]. cbn. destruct (H a) as [_ ->]; [left|]. rewrite IH; [done|]. intros b Hb. apply H. by right.
  - apply Forall_fmap, list.Forall_forall. intros a Ha. by apply H.
Qed.

Lemma length_compact k l : Forall (fun a => length (entry a) = k) l -> length (encode_compact l) = (k * length l)%nat.
Proof. rewrite encode_compact_eq. induction 1 as [|a l Ha Hl IH]; cbn; [lia|]. rewrite length_app, IH. lia. Qed.

Lemma filter_Forall {A} (p : A -> bool) (P Q : A -> Prop) l : Forall P l -> (forall x, P x -> p x = true -> Q x) -> Forall Q (List.filter p l).
Proof. intros H HQ. induction H as [|x l Hx Hl IH]; cbn; [constructor|]. destruct (p x) eqn:E; [constructor; auto|done]. Qed.

Lemma split_compact addrs : Forall (fun a => addr_ok a = true) addrs ->
  let '(v4, v6) := split_v4_v6 addrs in
  omap (chunk_addr v4_of 4) (as_chunks 6 (encode_compact_v4 v4)) = omap heard_addr v4 /\
  omap (chunk_addr v6_of 16) (as_chunks 18 (encode_compact_v6 v6)) = omap heard_addr v6 /\
  length (encode_compact_v4 v4) = (6 * length v4)%nat /\ length (encode_compact_v6 v6) = (18 * length v6)%nat /\
  (length v4 <= length addrs)%nat /\ (length v6 <= length addrs)%nat.
Proof.
  intros H. unfold split_v4_v6, encode_compact_v4, encode_compact_v6.
  pose proof (filter_Forall is_ipv4 _ (fun a => length (entry a) = 6%nat /\ chunk_addr v4_of 4 (entry a) = heard_addr a) _ H) as F4.
  pose proof (filter_Forall (fun a => negb (is_ipv4 a)) _ (fun a => length (entry a) = 18%nat /\ chunk_addr v6_of 16 (entry a) = heard_addr a) _ H) as F6.
  specialize (F4 v4_entry). specialize (F6 v6_entry). split_and!.
  - apply omap_chunks; [lia|]. by apply list.Forall_forall.
  - apply omap_chunks; [lia|]. by apply list.Forall_forall.
  - apply length_compact. eapply list.Forall_impl; [exact F4|]. by intros a [? _].
  - apply length_compact. eapply list.Forall_impl; [exact F6|]. by intros a [? _].
  - apply filter_length_le.
  - apply filter_length_le.
Qed.

(** ** The exchange dictionary *)

(** A well-formed dictionary of byte strings, one level deep. *)
Definition flat_ok (d : list (bytes * BencodeValue)) : Prop :=
  bt_sorted d = true /\ entries_wf d = true /\ Forall (fun kv => height kv.2 = 0%nat) d.

Lemma flat_insert k b d : in_u 64 (Z.of_nat (length k)) = true -> in_u 64 (Z.of_nat (length b)) = true ->
  flat_ok d -> flat_ok (bt_insert k (BBytes b) d).
Proof.
  intros Hk Hb (H1 & H2 & H3). split_and!; [by apply sorted_insert|by apply entries_wf_insert|].
  clear H1 H2. induction H3 as [|[k' v'] d Hv Hd IH]; cbn [bt_insert]; [by repeat constructor|].
  destruct (bytes_ltb k k'); [by repeat constructor|]. destruct (bytes_eqb k k'); by constructor.
Qed.

Lemma flat_parse d : flat_ok d -> parse_all (to_bytes (BDict d)) = Ok (BDict d).
Proof.
  intros (H1 & H2 & H3). apply parse_all_back; [by apply wf_dict|]. cbn [height].
  assert (foldr (fun '(_, v) h => Nat.max (S (height v)) h) 0%nat d <= 1)%nat; [|unfold MAX_DEPTH; lia].
  clear H1 H2. induction H3 as [|[k v] d Hv Hd IH]; cbn [foldr]; [lia|]. cbn in Hv. rewrite Hv. lia.
Qed.

Definition lists_fit (l : list SocketAddr) : bool := forallb addr_ok l && in_u 64 (18 * Z.of_nat (length l)).

Lemma compact_fits k n m : (0 <= k <= 18)%nat -> (n <= m)%nat -> in_u 64 (18 * Z.of_nat m) = true ->
  in_u 64 (Z.of_nat (k * n)) = true.
Proof. rewrite !in_u_spec. nia. Qed.

(** Look up a literal key under insertions of literal keys. *)
Ltac get_inserted :=
  repeat first [rewrite bt_get_insert | rewrite bt_get_insert_ne by (intros [=])].

Lemma pex_parsed added dropped : lists_fit added = true -> lists_fit dropped = true ->
  exists d, build_pex_payload added dropped = to_bytes (BDict d) /\ flat_ok d /\
    (let '(v4, v6) := split_v4_v6 added in
     bt_get (bs "added") d = (if negb (length v4 =? 0)%nat then Some (BBytes (encode_compact_v4 v4)) else None) /\
     bt_get (bs "added6") d = (if negb (length v6 =? 0)%nat then Some (BBytes (encode_compact_v6 v6)) else None)).
Proof.
  intros [Ha Hfa]%andb_true_iff [Hd Hfd]%andb_true_iff. apply forallb_Forall_iff in Ha, Hd.
  pose proof (split_compact added Ha) as SA. pose proof (split_compact dropped Hd) as SD. unfold build_pex_payload.
  destruct (split_v4_v6 added) as [a4 a6]. destruct (split_v4_v6 dropped) as [d4 d6].
  destruct SA as (_ & _ & A1 & A2 & A3 & A4). destruct SD as (_ & _ & D1 & D2 & D3 & D4).
  eexists. split; [done|]. split.
  - assert (flat_ok []) by (by split_and!).
    assert (Hz : forall n, (n <= length added)%nat -> in_u 64 (Z.of_nat (length (replicate n x00))) = true).
    { intros n Hn. rewrite length_replicate. replace (Z.of_nat n) with (Z.of_nat (1 * n)) by lia. by eapply compact_fits; [..|exact Hfa]; lia. }
    assert (E1 : in_u 64 (Z.of_nat (length (encode_compact_v4 a4))) = true) by (rewrite A1; eapply compact_fits; [..|exact Hfa]; lia).
    assert (E2 : in_u 64 (Z.of_nat (length (encode_compact_v6 a6))) = true) by (rewrite A2; eapply compact_fits; [..|exact Hfa]; lia).
    assert (E3 : in_u 64 (Z.of_nat (length (encode_compact_v4 d4))) = true) by (rewrite D1; eapply compact_fits; [..|exact Hfd]; lia).
    assert (E4 : in_u 64 (Z.of_nat (length (encode_compact_v6 d6))) = true) by (rewrite D2; eapply compact_fits; [..|exact Hfd]; lia).
    destruct (negb (length a4 =? 0)%nat), (negb (length a6 =? 0)%nat), (negb (length d4 =? 0)%nat), (negb (length d6 =? 0)%nat);
    repeat (apply flat_insert; [by vm_compute|first [done|by apply Hz]|]); done.
  - destruct (negb (length a4 =? 0)%nat), (negb (length a6 =? 0)%nat), (negb (length d4 =? 0)%nat), (negb (length d6 =? 0)%nat);
    get_inserted; done.
Qed.

(** ** What the parsers accept *)

Definition id_range (o : option Z) : Prop := forall i, o = Some i -> 1 <= i <= 255.

Lemma map_err_returns {A} e (r : result A) : returns (map_err e r) = returns r.
Proof. by destruct r. Qed.

Lemma map_err_Ok {A} e (r : result A) a : map_err e r = Ok a -> r = Ok a.
Proof. by destruct r. Qed.

Ltac ext_returns :=
  repeat first [progress step_returns | rewrite map_err_returns
    | match goal with
      | |- returns (match bt_get ?k ?d with _ => _ end) = true => destruct (bt_get k d) eqn:?
      | |- returns (parse_all _) = true => apply parse_all_returns
      | |- returns (parse_value _) = true => apply parse_value_returns
      | |- context [let '(_, _) := ?p in _] => destruct p
      end].

Lemma parse_m_ok d : returns (parse_m d) = true /\
  forall md pex, parse_m d = Ok (md, pex) -> id_range md /\ id_range pex.
Proof.
  split; [unfold parse_m; ext_returns|]. intros md pex. unfold parse_m.
  destruct (bt_get (bs "m") d) as [m|]; [|intros [= <- <-]; by split; intros i].
  intros (md' & _ & H)%bind_Ok. apply bind_Ok in H as (x & Hx & H). apply bind_Ok in H as (y & Hy & [= <- <-]). split.
  - destruct (bt_get (bs "ut_metadata") md'); [|injection Hx as <-; by intros i].
    apply bind_Ok in Hx as (id & _ & Hx). destruct (negb _) eqn:E; [done|]. injection Hx as <-.
    intros i. destruct (Z.eqb_spec id 0); cbn [negb]; [done|]. intros [= <-]. apply negb_false_iff in E. rewrite wrap_small by lia. lia.
  - destruct (bt_get (bs "ut_pex") md'); [|injection Hy as <-; by intros i].
    apply bind_Ok in Hy as (id & _ & [= <-]). intros i. destruct (_ && _) eqn:E; [|done]. intros [= <-]. rewrite wrap_small by lia. lia.
Qed.

Lemma parse_handshake_ok p : returns (parse_handshake_payload p) = true /\
  forall i, parse_handshake_payload p = Ok i -> id_range (their_ut_metadata_id i) /\ id_range (their_ut_pex_id i) /\
    forall n, metadata_size i = Some n -> 1 <= n <= MAX_METADATA_SIZE.
Proof.
  split.
  - unfold parse_handshake_payload. ext_returns. apply (proj1 (parse_m_ok _)).
  - intros i. unfold parse_handshake_payload. intros (root & _ & H)%bind_Ok. apply bind_Ok in H as (d & _ & H).
    apply bind_Ok in H as ([md pex] & Hm & H). destruct (proj2 (parse_m_ok d) md pex Hm) as [H1 H2].
    destruct (bt_get (bs "metadata_size") d) as [sz|]; [|injection H as <-; by split_and!].
    apply bind_Ok in H as (n & _ & H). destruct (Z.leb_spec n 0); [done|]. destruct (Z.ltb_spec MAX_METADATA_SIZE n); [done|].
    injection H as <-. split_and!; [done|done|]. intros m [= <-]. unfold MAX_METADATA_SIZE in *. rewrite wrap_small by lia. lia.
Qed.

Lemma parse_response_ok p : returns (parse_metadata_response p) = true /\
  forall piece total data, parse_metadata_response p = Ok (MData piece total data) ->
    0 <= piece < 2 ^ 32 /\ 1 <= total <= MAX_METADATA_SIZE /\ exists header, p = header ++ data.
Proof.
  split; [unfold parse_metadata_response; ext_returns|].
  intros piece total data. unfold parse_metadata_response. intros ([v rest] & Hv%map_err_Ok & H)%bind_Ok.
  apply bind_Ok in H as (d & _ & H). apply bind_Ok in H as (mt & _ & H). apply bind_Ok in H as (ty & _ & H).
  apply bind_Ok in H as (pv & _ & H). apply bind_Ok in H as (pc & _ & H).
  destruct (_ || _) eqn:E; [done|]. apply orb_false_iff in E as [E1 E2]. unfold umax in E2.
  destruct (ty =? 0); [done|]. destruct (ty =? 1); [|destruct (ty =? 2); done].
  apply bind_Ok in H as (tv & _ & H). apply bind_Ok in H as (tot & _ & H). destruct (_ || _) eqn:E; [done|].
  apply orb_false_iff in E as [E3 E4]. injection H as <- <- <-. unfold MAX_METADATA_SIZE. rewrite !wrap_small by lia.
  split_and!; try lia. destruct (proj1 (parse_sound _) _ _ _ _ Hv) as [_ (c & -> & _)]. by exists c.
Qed.

Lemma chunk_addr_ok mk n c a : (forall o ip, mk o = Some ip -> length o = n -> ip_ok ip = true /\ octets ip = o) ->
  length c = (n + 2)%nat -> chunk_addr mk n c = Some a -> addr_ok a = true /\ sa_port a <> 0.
Proof.
  intros Hm Hc. unfold chunk_addr. destruct (Z.eqb_spec (from_be (drop n c)) 0) as [|Hp]; [done|].
  intros (ip & Hip & ->)%fmap_Some. destruct (Hm _ _ Hip) as [H1 _]; [rewrite length_take; lia|].
  split; [|done]. pose proof (from_be_range (drop n c)) as R. rewrite length_drop, Hc in R. replace (n + 2 - n)%nat with 2%nat in R by lia.
  unfold addr_ok. cbn [sock_addr sa_ip sa_port sa_flow sa_scope]. rewrite H1, (proj2 (in_u_spec 16 _)) by (cbn; lia). cbn. apply orb_true_r.
Qed.

Lemma omap_chunk_ok mk n k b : k = (n + 2)%nat -> (forall o ip, mk o = Some ip -> length o = n -> ip_ok ip = true /\ octets ip = o) ->
  Forall (fun a => addr_ok a = true /\ sa_port a <> 0) (omap (chunk_addr mk n) (as_chunks k b)).
Proof.
  intros -> Hm. apply list.Forall_forall. intros a (c & Hc & E)%list_elem_of_omap.
  eapply chunk_addr_ok; [exact Hm| |exact E]. pose proof (as_chunks_len (n + 2) b) as F. rewrite list.Forall_forall in F. by apply F.
Qed.

Lemma parse_pex_ok p : returns (parse_pex p) = true /\
  forall l, parse_pex p = Ok l -> Forall (fun a => addr_ok a = true /\ sa_port a <> 0) l.
Proof.
  split; [unfold parse_pex; ext_returns|]. intros l. unfold parse_pex.
  intros (v & _ & H)%bind_Ok. apply bind_Ok in H as (d & _ & [= <-]). apply list.Forall_app. split.
  - destruct (bt_get (bs "added") d) as [[]|]; try constructor. apply omap_chunk_ok; [done|].
    intros o ip. destruct o as [|x [|y [|z [|w [|? ?]]]]]; cbn; try done. by intros [= <-].
  - destruct (bt_get (bs "added6") d) as [[]|]; try constructor. apply omap_chunk_ok; [done|].
    intros o ip [= <-] Hl. cbn. by rewrite Hl.
Qed.

(** ** Theorems *)

(** Peer exchange.  The peers a client announces arrive: parsing the payload built
    for [added] and [dropped] gives the added IPv4 peers and then the IPv6 ones, in
    order, each with its address and port, and leaves out only those without a
    port (flow labels and scopes are not sent). *)
Lemma pex_roundtrip added dropped : lists_fit added = true -> lists_fit dropped = true ->
  parse_pex (build_pex_payload added dropped)
  = Ok (omap heard_addr (List.filter is_ipv4 added) ++ omap heard_addr (List.filter (fun a => negb (is_ipv4 a)) added)).
Proof.
  intros Ha Hd. destruct (pex_parsed added dropped Ha Hd) as (d & -> & Hf & Hg).
  apply andb_true_iff in Ha as [Ha _]. apply forallb_Forall_iff in Ha. pose proof (split_compact added Ha) as S.
  unfold parse_pex. rewrite flat_parse by done. cbn [map_err mbind result_bind as_dict].
  unfold split_v4_v6 in *. destruct S as (S4 & S6 & _). destruct Hg as [-> ->]. f_equal. f_equal.
  - rewrite <- S4. destruct (List.filter is_ipv4 added); done.
  - rewrite <- S6. by destruct (List.filter (fun a => negb (is_ipv4 a)) added).
Qed.

Definition pex_ex : list SocketAddr :=
  [sock_addr (IpV4 x01 x02 x03 x04) 6881; sock_addr (IpV6 (replicate 16 x20)) 7; sock_addr (IpV4 x05 x06 x07 x08) 0].

Lemma pex_roundtrip_witness :
  parse_pex (build_pex_payload pex_ex []) = Ok (take 2 pex_ex) /\
  parse_pex (build_pex_payload pex_ex [])
  = Ok (omap heard_addr (List.filter is_ipv4 pex_ex) ++ omap heard_addr (List.filter (fun a => negb (is_ipv4 a)) pex_ex)).
Proof. split; [vm_compute; reflexivity|]. apply (pex_roundtrip pex_ex []); reflexivity. Defined.

(** Extension payloads from a hostile peer.  Each of the three parsers returns a value
    or an error on every input, without a panic; an id it returns lies in 1..255, a
    metadata size between 1 and 100 MiB, a piece number in 32 bits and its data is the
    tail of the payload; every exchanged address is a proper one with a port. *)
Lemma extension_parsers_typed p :
  (returns (parse_handshake_payload p) = true /\
   forall i, parse_handshake_payload p = Ok i -> id_range (their_ut_metadata_id i) /\ id_range (their_ut_pex_id i) /\
     forall n, metadata_size i = Some n -> 1 <= n <= MAX_METADATA_SIZE) /\
  (returns (parse_metadata_response p) = true /\
   forall piece total data, parse_metadata_response p = Ok (MData piece total data) ->
     0 <= piece < 2 ^ 32 /\ 1 <= total <= MAX_METADATA_SIZE /\ exists header, p = header ++ data) /\
  (returns (parse_pex p) = true /\
   forall l, parse_pex p = Ok l -> Forall (fun a => addr_ok a = true /\ sa_port a <> 0) l).
Proof. split_and!; first [apply parse_handshake_ok|apply parse_response_ok|apply parse_pex_ok]. Qed.

(** Our own handshake tells a peer the two ids, with or without the identifying keys. *)
Lemma handshake_payload_read anonymous :
  parse_handshake_payload (build_handshake_payload anonymous) = Ok (mkExtInfo (Some 1) (Some 2) None).
Proof. by destruct anonymous; vm_compute. Qed.

(** In anonymous mode the payload carries the [m] dictionary only. *)
Lemma handshake_payload_anonymous :
  parse_all (build_handshake_payload true) = Ok (BDict [(bs "m", BDict [(bs "ut_metadata", BInt 1); (bs "ut_pex", BInt 2)])]).
Proof. by vm_compute. Qed.
