(* ===== verification/MetadataFetch.v ===== *)
(** * Metadata from peers: [src/src/peer/metadata_fetch.rs]

    The exchange that turns a magnet link into an info dictionary: the extension
    handshake, the requests, the reassembly and the check of the hash, over a
    byte stream; the frame budget that bounds it; the memory budget shared by
    all fetches; and the choice of how to dial.  SHA-1 is a parameter. *)

From Stdlib Require Import ZArith Lia String Strings.Byte.
From stdpp Require Import base tactics numbers list option relations.
From S2P Require Import Prelude Bencode PeerWire Handshake Net Extension.

#[local] Set Warnings "-register-all".

Definition GLOBAL_METADATA_BUDGET : Z := 256 * 1024 * 1024.
Definition FETCH_MAX_FRAME_LEN : Z := METADATA_PIECE_SIZE + 1024.
Definition EXT_HANDSHAKE_MAX_FRAMES : nat := 64.
Definition EXT_NOISE_FRAME_SLACK : nat := 64.

(** ** Budgets *)

(** [MetadataReservation::try_acquire] on the shared counter. *)
Definition try_acquire (in_flight bytes : Z) : option Z :=
  if umax 64 <? in_flight + bytes then None
  else if GLOBAL_METADATA_BUDGET <? in_flight + bytes then None
  else Some (in_flight + bytes).

(** [Drop for MetadataReservation]: [fetch_sub] wraps. *)
Definition release (in_flight bytes : Z) : Z := wrap 64 (in_flight - bytes).

Definition spend (remaining : nat) : result nat :=
  match remaining with
  | O => Err (EProtocol "ut_metadata bootstrap: peer frame budget exhausted")
  | S r => Ok r
  end.

(** [saturating_add]; the sums stay far below [usize::MAX]. *)
Definition widen (remaining data_frames : nat) : nat := remaining + (data_frames + EXT_NOISE_FRAME_SLACK).

(** ** Reading *)

(** One frame off the connection; a failed read ends the attempt. *)
Definition next_frame (e : Error) : M Stream bytes := fun s =>
  match map_err e (read_frame (inbox s) FETCH_MAX_FRAME_LEN) with
  | Ok (f, rest) => (mkStream rest (outbox s) (writable s), Ok f)
  | Err e => (s, Err e)
  | Panic => (s, Panic)
  | NoFuel => (s, NoFuel)
  end.

(** The common loop of [read_extension_handshake] and [read_metadata_response]: skip
    frames until an [Extended] message with id [want] and parse its payload. *)
Fixpoint read_extended {A} (want : byte) (parse : bytes -> result A) (e : Error) (fuel budget : nat)
    : M Stream (A * nat) :=
  match fuel with
  | O => lift NoFuel
  | S fuel =>
      frame ← next_frame e;
      budget ← lift (spend budget);
      if (length frame =? 0)%nat then read_extended want parse e fuel budget
      else
        msg ← lift (PeerWire.decode frame);
        match msg with
        | Extended ext_id payload =>
            if Byte.eqb ext_id want then a ← lift (parse payload); mret (a, budget)
            else read_extended want parse e fuel budget
        | _ => read_extended want parse e fuel budget
        end
  end.

(** Every frame is paid for, so the budget bounds the loop. *)
Definition read_extension_handshake (budget : nat) : M Stream (PeerExtensionInfo * nat) :=
  read_extended EXT_HANDSHAKE_ID parse_handshake_payload (ENetwork "ext handshake frame") (S budget) budget.

Definition read_metadata_response (budget : nat) : M Stream (MetadataResponse * nat) :=
  read_extended OUR_UT_METADATA_ID parse_metadata_response (ENetwork "ut_metadata frame") (S budget) budget.

(** ** The exchange *)

Definition piece_expected_len (piece_idx num_pieces : nat) (total_size : Z) : Z :=
  if (piece_idx + 1 =? num_pieces)%nat then
    let r := total_size mod METADATA_PIECE_SIZE in
    if r =? 0 then METADATA_PIECE_SIZE else r
  else METADATA_PIECE_SIZE.

(** [buf[off..off + data.len()].copy_from_slice(data)] *)
Definition splice (buf : bytes) (off : nat) (data : bytes) : result bytes :=
  if (off + length data <=? length buf)%nat then Ok (take off buf ++ data ++ drop (off + length data) buf) else Panic.

(** [write_message]: a failed write ends the attempt. *)
Definition send (m : Message) (e : Error) : M Stream unit := write_all (write_message m) e.

(** The [while] loop over the missing pieces. *)
Fixpoint fetch_loop (their_id : Z) (num_pieces : nat) (total_size : Z) (fuel budget : nat)
    (assembled : bytes) (received : list bool) : M Stream bytes :=
  match fuel with
  | O => lift NoFuel
  | S fuel =>
      match position negb received with
      | None => mret assembled
      | Some next =>
          _ ← send (Extended (z2b their_id) (build_metadata_request (Z.of_nat next))) (ENetwork "ut_metadata request");
          '(resp, budget) ← read_metadata_response budget;
          match resp with
          | MData piece peer_total data =>
              if negb (peer_total =? total_size) then lift (Err (ENetwork "peer total_size changed mid-fetch"))
              else if Z.of_nat num_pieces <=? piece then lift (Err (ENetwork "piece out of range"))
              else
                let idx := Z.to_nat piece in
                let expected_len := piece_expected_len idx num_pieces total_size in
                if negb (Z.of_nat (length data) =? expected_len) then lift (Err (ENetwork "piece length != expected"))
                else
                  assembled ← lift (splice assembled (idx * Z.to_nat METADATA_PIECE_SIZE) data);
                  received ← lift (set_index received idx true);
                  fetch_loop their_id num_pieces total_size fuel budget assembled received
          | MReject _ => lift (Err (ENetwork "peer rejected ut_metadata piece"))
          | MOther => fetch_loop their_id num_pieces total_size fuel budget assembled received
          end
      end
  end.

Section exchange.
Context (sha1 : bytes -> bytes).

(** [in_flight] is what the shared counter holds when the reservation is tried. *)
Definition exchange_metadata (info_hash : bytes) (anonymous : bool) (in_flight : Z) : M Stream bytes :=
  _ ← send (Extended EXT_HANDSHAKE_ID (build_handshake_payload anonymous)) (ENetwork "ext handshake write");
  '(peer_info, budget) ← read_extension_handshake EXT_HANDSHAKE_MAX_FRAMES;
  their_id ← lift (ok_or (their_ut_metadata_id peer_info) (ENetwork "peer doesn't advertise ut_metadata in extension handshake"));
  total_size ← lift (ok_or (metadata_size peer_info) (ENetwork "peer doesn't advertise metadata_size"));
  _ ← lift (ok_or (try_acquire in_flight total_size) (ENetwork "metadata fetch refused"));
  let num_pieces := Z.to_nat (div_ceil total_size METADATA_PIECE_SIZE) in
  let budget := widen budget num_pieces in
  assembled ← fetch_loop their_id num_pieces total_size (S budget) budget
                (replicate (Z.to_nat total_size) x00) (replicate num_pieces false);
  if negb (bytes_eqb (sha1 assembled) info_hash) then lift (Err (ENetwork "fetched metadata hash mismatch"))
  else mret assembled.

(** The first attempt of [try_fetch_from], on the connection once it is dialled: the BitTorrent
    handshake, the extension bit, the exchange. *)
Definition plain_attempt (ext : option bytes) (info_hash our_peer_id : bytes) (anonymous : bool) (in_flight : Z) : M Stream bytes :=
  theirs ← Handshake.perform_outgoing ext info_hash our_peer_id;
  supported ← lift (supports_extension_protocol (reserved theirs));
  if negb supported then lift (Err (ENetwork "peer lacks BEP 10 extension protocol"))
  else exchange_metadata info_hash anonymous in_flight.
End exchange.

(** ** Dialling *)

(** ** The loops end *)

Lemma read_frame_returns stream n : returns (read_frame stream n) = true.
Proof.
  unfold read_frame, read_exact. destruct (_ <? _)%nat; [done|]. cbn [mbind result_bind].
  destruct (_ =? 0); [done|]. destruct (_ <? _); [done|]. by destruct (_ <? _)%nat.
Qed.

(** A frame read leaves what was written and the ability to write as they were. *)
Lemma next_frame_spec e s : exists s' r, next_frame e s = (s', r) /\ returns r = true /\
  outbox s' = outbox s /\ writable s' = writable s.
Proof.
  unfold next_frame. pose proof (read_frame_returns (inbox s) FETCH_MAX_FRAME_LEN) as R.
  destruct (read_frame (inbox s) FETCH_MAX_FRAME_LEN) as [[f rest]|e'| |]; try done; cbn [map_err]; eauto 10.
Qed.

(** A loop returns, within its fuel, and has spent at least one frame when it succeeds. *)
Lemma read_extended_returns {A} want (parse : bytes -> result A) e :
  (forall p, returns (parse p) = true) -> forall fuel budget s, (budget < fuel)%nat ->
  returns (read_extended want parse e fuel budget s).2 = true /\
  forall a b, (read_extended want parse e fuel budget s).2 = Ok (a, b) -> (b < budget)%nat /\ exists p, parse p = Ok a.
Proof.
  intros Hp. induction fuel as [|fuel IH]; intros budget s Hf; [lia|]. cbn [read_extended]. msteps.
  destruct (next_frame_spec e s) as (s1 & r & -> & Hr & _). destruct r as [frame|e'| |]; try done.
  destruct budget as [|b]; cbn [spend]; [done|].
  assert (IH' : forall s', returns (read_extended want parse e fuel b s').2 = true /\
    forall a b', (read_extended want parse e fuel b s').2 = Ok (a, b') -> (b' < S b)%nat /\ exists p, parse p = Ok a).
  { intros s'. destruct (IH b s') as [H1 H2]; [lia|]. split; [done|]. intros a b' H. destruct (H2 a b' H) as [? ?]. split; [lia|done]. }
  destruct (length frame =? 0)%nat; [apply IH'|].
  pose proof (decode_total frame) as Hd. destruct (PeerWire.decode frame) as [m|e2| |]; try done.
  destruct m; try apply IH'. destruct (Byte.eqb ext_id want); [|apply IH'].
  specialize (Hp payload). destruct (parse payload) eqn:E; try done. cbn. split; [done|]. intros a' b' [= <- <-]. split; [lia|eauto].
Qed.

Lemma expected_len_range i n total : 1 <= total -> n = Z.to_nat (div_ceil total METADATA_PIECE_SIZE) -> (i < n)%nat ->
  0 < piece_expected_len i n total <= METADATA_PIECE_SIZE /\
  Z.of_nat i * METADATA_PIECE_SIZE + piece_expected_len i n total <= total.
Proof.
  intros Ht Hn Hi. unfold piece_expected_len, METADATA_PIECE_SIZE, div_ceil in *.
  pose proof (Z.div_mod total 16384 ltac:(lia)) as D. pose proof (Z.mod_pos_bound total 16384 ltac:(lia)) as B.
  destruct (Z.eqb_spec (total mod 16384) 0) as [E|E]; destruct (Nat.eqb_spec (i + 1) n) as [E2|E2]; try rewrite E; cbn [Z.eqb]; nia.
Qed.

Definition loop_ok (n : nat) (total : Z) (assembled : bytes) (received : list bool) : Prop :=
  1 <= total /\ n = Z.to_nat (div_ceil total METADATA_PIECE_SIZE) /\
  Z.of_nat (length assembled) = total /\ length received = n.

Lemma loop_pos n total assembled received : loop_ok n total assembled received -> (0 < n)%nat.
Proof.
  intros (Ht & -> & _). unfold METADATA_PIECE_SIZE.
  pose proof (div_ceil_spec total 16384 ltac:(lia) ltac:(lia)). lia.
Qed.

Lemma splice_Ok buf off data : (off + length data <= length buf)%nat ->
  splice buf off data = Ok (take off buf ++ data ++ drop (off + length data) buf) /\
  length (take off buf ++ data ++ drop (off + length data) buf) = length buf.
Proof.
  intros H. unfold splice. rewrite (proj2 (Nat.leb_le _ _) H). split; [done|].
  rewrite !length_app, length_take, length_drop. lia.
Qed.

Lemma store_piece n total assembled received i data :
  loop_ok n total assembled received -> (i < n)%nat -> Z.of_nat (length data) = piece_expected_len i n total ->
  exists assembled' received', splice assembled (i * Z.to_nat METADATA_PIECE_SIZE) data = Ok assembled' /\
    set_index received i true = Ok received' /\ loop_ok n total assembled' received' /\
    assembled' = take (i * Z.to_nat METADATA_PIECE_SIZE) assembled ++ data ++ drop (i * Z.to_nat METADATA_PIECE_SIZE + length data) assembled /\
    received' = <[i := true]> received.
Proof.
  intros (Ht & Hn & Ha & Hr) Hi Hd. destruct (expected_len_range i n total Ht Hn Hi) as [_ He].
  assert (Hs : (i * Z.to_nat METADATA_PIECE_SIZE + length data <= length assembled)%nat).
  { unfold METADATA_PIECE_SIZE in *. lia. }
  destruct (splice_Ok assembled _ data Hs) as [E L]. eexists _, _. split; [exact E|].
  split; [apply set_index_Ok; lia|]. split; [|done]. split_and!; [done|done|by rewrite L|by rewrite length_insert].
Qed.

Lemma fetch_loop_returns tid n total : forall fuel budget assembled received s,
  (budget < fuel)%nat -> loop_ok n total assembled received ->
  returns (fetch_loop tid n total fuel budget assembled received s).2 = true /\
  forall d, (fetch_loop tid n total fuel budget assembled received s).2 = Ok d -> Z.of_nat (length d) = total.
Proof.
  induction fuel as [|fuel IH]; intros budget assembled received s Hf Hl; [lia|]. cbn [fetch_loop].
  destruct (position negb received) as [next|].
  2: { cbn. split; [done|]. intros d [= <-]. apply Hl. }
  unfold send, write_all. msteps. destruct (writable s); [|done].
  unfold read_metadata_response. set (s1 := mkStream _ _ _).
  destruct (read_extended_returns OUR_UT_METADATA_ID parse_metadata_response (ENetwork "ut_metadata frame")
    (fun p => proj1 (parse_response_ok p)) (S budget) budget s1 ltac:(lia)) as [R1 R2].
  destruct (read_extended _ _ _ _ budget s1) as [s2 r]. cbn [snd] in *. destruct r as [[resp b]|e| |]; try done.
  destruct (R2 resp b eq_refl) as [Rb _]. destruct resp as [piece ptotal data|piece|]; [|done|by apply IH; [lia|]].
  destruct (negb (ptotal =? total)); [done|]. destruct (Z.leb_spec (Z.of_nat n) piece); [done|].
  destruct (Z.eqb_spec (Z.of_nat (length data)) (piece_expected_len (Z.to_nat piece) n total)) as [E|]; [|done]. cbn [negb].
  pose proof (loop_pos _ _ _ _ Hl). destruct (store_piece n total assembled received (Z.to_nat piece) data Hl) as (a' & r' & -> & -> & Hl' & _); [lia|done|].
  apply IH; [lia|done].
Qed.

(** ** An honest peer *)

(** A message the reader for [want] skips and that fits a frame. *)
Definition skippable (want : byte) (m : Message) : Prop :=
  msg_ok m = true /\ Z.of_nat (length (frame_of m)) <= FETCH_MAX_FRAME_LEN /\
  match m with Extended e _ => Byte.eqb e want = false | _ => True end.

Lemma next_frame_encoded e m rest out w : msg_ok m = true -> Z.of_nat (length (frame_of m)) <= FETCH_MAX_FRAME_LEN ->
  next_frame e (mkStream (PeerWire.encode m ++ rest) out w) = (mkStream rest out w, Ok (frame_of m)).
Proof. intros H1 H2. unfold next_frame. cbn [inbox]. by rewrite read_encoded. Qed.

Lemma frame_nil m : length (frame_of m) = 0%nat -> m = KeepAlive.
Proof. destruct m; try done; unfold frame_of; cbn [PeerWire.encode]; rewrite frame_tag; done. Qed.

Lemma read_extended_honest {A} want (parse : bytes -> result A) e payload a rest out w :
  parse payload = Ok a -> msg_ok (Extended want payload) = true ->
  Z.of_nat (length (frame_of (Extended want payload))) <= FETCH_MAX_FRAME_LEN ->
  forall noise fuel budget, Forall (skippable want) noise -> (length noise < budget)%nat -> (budget < fuel)%nat ->
  read_extended want parse e fuel budget
    (mkStream (concat (PeerWire.encode <$> noise) ++ PeerWire.encode (Extended want payload) ++ rest) out w)
  = (mkStream rest out w, Ok (a, budget - length noise - 1)%nat).
Proof.
  intros Hp Hm Hl. induction noise as [|m noise IH]; intros [|fuel] [|b] Hn Hb Hf; cbn [length] in Hb; try lia; cbn [read_extended]; msteps.
  - cbn [fmap list_fmap concat app]. rewrite next_frame_encoded by done. cbn [spend].
    destruct (Nat.eqb_spec (length (frame_of (Extended want payload))) 0) as [E|_]; [by apply frame_nil in E|].
    rewrite decode_frame by done. rewrite (proj2 (byte_eqb_iff want want) eq_refl). rewrite Hp. cbn. do 2 f_equal. f_equal. lia.
  - apply list.Forall_cons in Hn as [(H1 & H2 & H3) Hn]. cbn [fmap list_fmap concat]. rewrite <- app_assoc.
    rewrite next_frame_encoded by done. cbn [spend].
    specialize (IH fuel b Hn ltac:(lia) ltac:(lia)). cbn [length]. replace (S b - S (length noise) - 1)%nat with (b - length noise - 1)%nat by lia.
    destruct (length (frame_of m) =? 0)%nat; [exact IH|]. rewrite decode_frame by done.
    destruct m; try exact IH. rewrite H3. exact IH.
Qed.

(** The message a peer answers a request with, as BEP 9 defines it. *)
Definition data_dict (i total : Z) : BencodeValue :=
  BDict [(bs "msg_type", BInt 1); (bs "piece", BInt i); (bs "total_size", BInt total)].
Definition data_payload (i total : Z) (data : bytes) : bytes := to_bytes (data_dict i total) ++ data.

Lemma data_payload_parsed i total data : 0 <= i < 2 ^ 32 -> 1 <= total <= MAX_METADATA_SIZE ->
  parse_metadata_response (data_payload i total data) = Ok (MData i total data).
Proof.
  intros Hi Ht. unfold parse_metadata_response, data_payload, MAX_METADATA_SIZE in *.
  assert (Hw : wf (data_dict i total) = true).
  { unfold data_dict. wf_dicts; cbn [wf]; unfold in_i64, i64_min, i64_max; lia. }
  rewrite parse_value_back by (done || (cbn; unfold MAX_DEPTH; lia)). unfold data_dict.
  cbn [map_err mbind result_bind as_dict]. lookups. cbn [map_err as_int mbind result_bind].
  lookups. cbn [map_err as_int mbind result_bind]. unfold umax.
  replace ((i <? 0) || (2 ^ 32 - 1 <? i)) with false by lia. cbn [Z.eqb]. cbv iota. lookups. cbn [map_err as_int mbind result_bind].
  replace ((total <=? 0) || (100 * 1024 * 1024 <? total)) with false by lia. by rewrite !wrap_small by lia.
Qed.

Lemma length_dec_aux fuel : forall n, (length (dec_aux fuel n) <= fuel)%nat.
Proof.
  induction fuel as [|f IH]; intros n; cbn [dec_aux]; [done|]. destruct (_ <? _); [cbn; lia|].
  rewrite length_app. specialize (IH (n / 10)). cbn. lia.
Qed.

Lemma length_show_u n : 0 <= n < 2 ^ 32 -> (length (show_u n) <= 33)%nat.
Proof.
  intros Hn. unfold show_u. etransitivity; [apply length_dec_aux|].
  assert (Z.log2 n < 33); [|pose proof (Z.log2_nonneg n); lia].
  destruct (decide (n = 0)) as [->|]; [done|]. apply Z.log2_lt_pow2; lia.
Qed.

Lemma length_int_le z : 0 <= z < 2 ^ 32 -> (length (to_bytes (BInt z)) <= 35)%nat.
Proof.
  intros Hz. pose proof (length_show_u z Hz). cbn [to_bytes]. unfold show_i. rewrite (proj2 (Z.ltb_ge z 0)) by lia.
  cbn [length]. rewrite length_app. cbn [length]. lia.
Qed.

Lemma length_data_dict i total : 0 <= i < 2 ^ 32 -> 0 <= total < 2 ^ 32 -> (length (to_bytes (data_dict i total)) <= 200)%nat.
Proof.
  intros Hi Ht. pose proof (length_int_le i Hi) as Li. pose proof (length_int_le total Ht) as Lt.
  assert (E : to_bytes (data_dict i total) = bs "d8:msg_typei1e5:piece" ++ to_bytes (BInt i)
    ++ bs "10:total_size" ++ to_bytes (BInt total) ++ bs "e").
  { unfold data_dict. generalize (BInt i) (BInt total). intros x y. cbn [to_bytes flat_map].
    rewrite app_nil_r, <- !app_assoc. reflexivity. }
  rewrite E, !length_app. change (length (bs "d8:msg_typei1e5:piece")) with 21%nat.
  change (length (bs "10:total_size")) with 13%nat. change (length (bs "e")) with 1%nat. lia.
Qed.

Section honest.
Context (content : bytes) (total : Z) (n : nat) (tid : Z).
Context (Htotal : 1 <= total <= MAX_METADATA_SIZE) (Hlen : Z.of_nat (length content) = total).
Context (Hn : n = Z.to_nat (div_ceil total METADATA_PIECE_SIZE)).

(** Piece [i] of the metadata. *)
Definition meta_piece (i : nat) : bytes :=
  take (Z.to_nat (piece_expected_len i n total)) (drop (i * Z.to_nat METADATA_PIECE_SIZE) content).

Definition data_msg (i : nat) : Message := Extended OUR_UT_METADATA_ID (data_payload (Z.of_nat i) total (meta_piece i)).
Definition request_msg (i : nat) : Message := Extended (z2b tid) (build_metadata_request (Z.of_nat i)).

(** The answers to the requests from piece [i] on, each after some noise. *)
Fixpoint data_stream (i : nat) (noises : list (list Message)) : bytes :=
  match noises with
  | [] => []
  | noise :: r => concat (PeerWire.encode <$> noise) ++ PeerWire.encode (data_msg i) ++ data_stream (S i) r
  end.

Lemma pieces_bound i : (i < n)%nat -> Z.of_nat i < 2 ^ 32 /\ length (meta_piece i) = Z.to_nat (piece_expected_len i n total).
Proof.
  intros Hi. destruct (expected_len_range i n total ltac:(lia) Hn Hi) as [H1 H2].
  unfold METADATA_PIECE_SIZE, MAX_METADATA_SIZE in *. split; [lia|].
  unfold meta_piece. rewrite length_take, length_drop. unfold METADATA_PIECE_SIZE. lia.
Qed.

Lemma data_msg_ok i : (i < n)%nat -> msg_ok (data_msg i) = true /\ Z.of_nat (length (frame_of (data_msg i))) <= FETCH_MAX_FRAME_LEN.
Proof.
  intros Hi. destruct (pieces_bound i Hi) as [Hb Hp]. destruct (expected_len_range i n total ltac:(lia) Hn Hi) as [H1 _].
  assert (L : (length (data_payload (Z.of_nat i) total (meta_piece i)) <= 200 + Z.to_nat METADATA_PIECE_SIZE)%nat).
  { unfold data_payload. rewrite length_app, Hp.
    assert (Ht : 0 <= total < 2 ^ 32) by (unfold MAX_METADATA_SIZE in *; lia).
    pose proof (length_data_dict (Z.of_nat i) total ltac:(lia) Ht). lia. }
  unfold METADATA_PIECE_SIZE, FETCH_MAX_FRAME_LEN in *. unfold data_msg. cbn [msg_ok]. split; [apply Z.ltb_lt; lia|].
  unfold frame_of. cbn [PeerWire.encode]. rewrite frame_tag. cbn [length app]. unfold METADATA_PIECE_SIZE. lia.
Qed.

(** The first [k] pieces of the buffer are in place. *)
Definition filled (k : nat) (assembled : bytes) : Prop :=
  take (Nat.min (k * Z.to_nat METADATA_PIECE_SIZE) (length content)) assembled
  = take (Nat.min (k * Z.to_nat METADATA_PIECE_SIZE) (length content)) content.

Definition flags (k : nat) : list bool := replicate k true ++ replicate (n - k) false.

Lemma flags_next k : (k < n)%nat -> position negb (flags k) = Some k /\ <[k := true]> (flags k) = flags (S k).
Proof.
  intros Hk. unfold flags. replace (n - k)%nat with (S (n - S k)) by lia. cbn [replicate]. split.
  - rewrite position_app_first; [by rewrite length_replicate| |done]. clear. induction k; done.
  - rewrite insert_app_r_alt by (rewrite length_replicate; lia). rewrite length_replicate, Nat.sub_diag. cbn.
    change (true :: replicate k true ++ replicate (n - S k) false) with ((true :: replicate k true) ++ replicate (n - S k) false).
    by rewrite replicate_cons_app, <- app_assoc.
Qed.

Lemma flags_done : position negb (flags n) = None.
Proof. unfold flags. rewrite Nat.sub_diag, app_nil_r. clear. induction n as [|m IH]; [done|]. cbn. by rewrite IH. Qed.

Lemma filled_step k assembled : (k < n)%nat -> length assembled = length content -> filled k assembled ->
  filled (S k) (take (k * Z.to_nat METADATA_PIECE_SIZE) assembled ++ meta_piece k ++ drop (k * Z.to_nat METADATA_PIECE_SIZE + length (meta_piece k)) assembled).
Proof.
  intros Hk Hl Hf. destruct (pieces_bound k Hk) as [_ Hp]. destruct (expected_len_range k n total ltac:(lia) Hn Hk) as [H1 H2].
  set (o := (k * Z.to_nat METADATA_PIECE_SIZE)%nat) in *. set (l := length (meta_piece k)) in *.
  assert (Hoff : (o + l <= length content)%nat) by (unfold o, METADATA_PIECE_SIZE in *; lia).
  assert (Hm : Nat.min (S k * Z.to_nat METADATA_PIECE_SIZE) (length content) = (o + l)%nat).
  { unfold piece_expected_len in *. destruct (Nat.eqb_spec (k + 1) n) as [E|E].
    - assert (o + l = length content)%nat; [|unfold o in *; lia].
      unfold o, METADATA_PIECE_SIZE, div_ceil in *. pose proof (Z.div_mod total 16384 ltac:(lia)) as D.
      pose proof (Z.mod_pos_bound total 16384 ltac:(lia)) as B.
      destruct (Z.eqb_spec (total mod 16384) 0) as [E0|E0]; lia.
    - unfold o in *. lia. }
  unfold filled in *. rewrite Hm. rewrite Nat.min_l in Hf by lia. rewrite app_assoc.
  rewrite take_app_length' by (rewrite length_app, length_take; unfold l; lia).
  fold o in Hf. rewrite Hf. unfold meta_piece. fold o. rewrite <- Hp. fold l. by rewrite take_take_drop.
Qed.

Lemma fetch_loop_honest noises : forall k fuel budget assembled out rest,
  (k + length noises = n)%nat -> Forall (Forall (skippable OUR_UT_METADATA_ID)) noises ->
  (length (concat noises) + length noises <= budget)%nat -> (length noises < fuel)%nat ->
  length assembled = length content -> filled k assembled ->
  fetch_loop tid n total fuel budget assembled (flags k) (mkStream (data_stream k noises ++ rest) out true)
  = (mkStream rest (out ++ concat (PeerWire.encode <$> (request_msg <$> seq k (length noises)))) true, Ok content).
Proof.
  induction noises as [|noise noises IH]; intros k [|fuel] budget assembled out rest Hk Hs Hb Hf Ha Hfill; cbn [length] in *; try lia; cbn [fetch_loop].
  - rewrite Nat.add_0_r in Hk. subst k. rewrite flags_done. cbn. rewrite app_nil_r. unfold mret, M_ret. do 2 f_equal.
    unfold filled in Hfill. assert (E : Nat.min (n * Z.to_nat METADATA_PIECE_SIZE) (length content) = length content).
    { pose proof (div_ceil_spec total METADATA_PIECE_SIZE ltac:(lia) ltac:(done)). unfold METADATA_PIECE_SIZE in *. lia. }
    rewrite E, take_ge, take_ge in Hfill by lia. done.
  - apply list.Forall_cons in Hs as [Hs1 Hs]. assert (Hkn : (k < n)%nat) by lia.
    destruct (flags_next k Hkn) as [-> Hset]. unfold send, write_all. msteps. cbn [writable inbox outbox].
    destruct (data_msg_ok k Hkn) as [Hm1 Hm2]. destruct (pieces_bound k Hkn) as [Hb32 Hpl].
    cbn [data_stream]. rewrite <- !app_assoc. unfold read_metadata_response.
    cbn [concat] in Hb. rewrite length_app in Hb.
    rewrite (read_extended_honest OUR_UT_METADATA_ID parse_metadata_response _ (data_payload (Z.of_nat k) total (meta_piece k))
      (MData (Z.of_nat k) total (meta_piece k))); [|by apply data_payload_parsed; [lia|]|done|done|done|lia|lia].
    rewrite Z.eqb_refl. cbn [negb]. rewrite (proj2 (Z.leb_gt _ _)) by lia. rewrite Nat2Z.id.
    destruct (expected_len_range k n total ltac:(lia) Hn Hkn) as [Hx _].
    rewrite (proj2 (Z.eqb_eq _ _)) by (rewrite Hpl; lia). cbn [negb].
    destruct (store_piece n total assembled (flags k) k (meta_piece k)) as (a' & r' & -> & -> & (_ & _ & La & _) & Ea & ->).
    { split_and!; [lia|done|lia|]. unfold flags. rewrite length_app, !length_replicate. lia. }
    { done. }
    { rewrite Hpl. lia. }
    rewrite Hset. rewrite (IH (S k)); [|lia|done|lia|lia|lia|].
    + cbn [seq fmap list_fmap concat]. rewrite <- app_assoc. do 3 f_equal.
    + rewrite Ea. by apply filled_step.
Qed.
End honest.

(** ** What the exchange promises *)

Lemma loop_start total : 1 <= total ->
  loop_ok (Z.to_nat (div_ceil total METADATA_PIECE_SIZE)) total (replicate (Z.to_nat total) x00)
    (replicate (Z.to_nat (div_ceil total METADATA_PIECE_SIZE)) false).
Proof. intros Ht. split_and!; [done|done| |]; rewrite length_replicate; lia. Qed.

Lemma try_acquire_Some c b c' : try_acquire c b = Some c' <-> c' = c + b /\ c + b <= GLOBAL_METADATA_BUDGET.
Proof.
  unfold try_acquire, umax, GLOBAL_METADATA_BUDGET.
  destruct (Z.ltb_spec (2 ^ 64 - 1) (c + b)); [split; [done|lia]|]. destruct (Z.ltb_spec (256 * 1024 * 1024) (c + b)).
  - split; [done|lia].
  - split; [intros [= <-]; lia|intros [-> _]; done].
Qed.

Lemma exchange_verified sha1 info_hash anonymous in_flight s :
  returns (exchange_metadata sha1 info_hash anonymous in_flight s).2 = true /\
  forall d, (exchange_metadata sha1 info_hash anonymous in_flight s).2 = Ok d ->
    sha1 d = info_hash /\ 1 <= Z.of_nat (length d) <= MAX_METADATA_SIZE /\
    in_flight + Z.of_nat (length d) <= GLOBAL_METADATA_BUDGET.
Proof.
  unfold exchange_metadata, send, write_all, read_extension_handshake. msteps.
  destruct (writable s); [|done]. set (s1 := mkStream _ _ _).
  destruct (read_extended_returns EXT_HANDSHAKE_ID parse_handshake_payload (ENetwork "ext handshake frame")
    (fun p => proj1 (parse_handshake_ok p)) (S EXT_HANDSHAKE_MAX_FRAMES) EXT_HANDSHAKE_MAX_FRAMES s1 ltac:(lia)) as [R1 R2].
  destruct (read_extended _ _ _ _ _ s1) as [s2 r]. cbn [snd] in *. destruct r as [[info b]|e| |]; try done.
  destruct (R2 info b eq_refl) as [_ (p & Hp)]. apply parse_handshake_ok in Hp as (_ & _ & Hsize).
  destruct (their_ut_metadata_id info) as [tid|]; [|done]. cbn [ok_or].
  destruct (metadata_size info) as [total|]; [|done]. cbn [ok_or]. specialize (Hsize total eq_refl).
  destruct (try_acquire in_flight total) as [c'|] eqn:Ea; [|done]. apply try_acquire_Some in Ea as [_ Ea]. cbn [ok_or].
  set (w := widen b _).
  destruct (fetch_loop_returns tid _ total (S w) w _ _ s2 (Nat.lt_succ_diag_r w) (loop_start total (proj1 Hsize))) as [F1 F2].
  destruct (fetch_loop _ _ _ _ _ _ _ s2) as [s3 r]. cbn [snd] in *. destruct r as [d|e| |]; try done.
  specialize (F2 d eq_refl). destruct (bytes_eqb (sha1 d) info_hash) eqn:Eh; [|done]. cbn.
  split; [done|]. intros d' [= <-]. split; [by apply bytes_eqb_eq|lia].
Qed.

(** Metadata from an untrusted peer.  Whatever bytes the peer sends and whenever it stops
    reading, the attempt (handshake, then exchange) comes to an end without a panic: the frame
    budget bounds its loops, the length checks its copies.  If it succeeds, the bytes hash to
    the info hash that was asked for, are between 1 byte and 100 MiB, and fit the memory budget
    beside the other fetches. *)
Lemma metadata_fetch_verified sha1 ext info_hash our_id anonymous in_flight s :
  returns (plain_attempt sha1 ext info_hash our_id anonymous in_flight s).2 = true /\
  forall d, (plain_attempt sha1 ext info_hash our_id anonymous in_flight s).2 = Ok d ->
    sha1 d = info_hash /\ 1 <= Z.of_nat (length d) <= MAX_METADATA_SIZE /\
    in_flight + Z.of_nat (length d) <= GLOBAL_METADATA_BUDGET.
Proof.
  unfold plain_attempt. destruct (outgoing_Ok ext info_hash our_id s) as (s1 & r & [Hret Hr] & E). msteps. rewrite E.
  destruct r as [theirs|e| |]; try done. destruct (Hr theirs eq_refl) as [Hok _].
  destruct (supports_known _ Hok) as [[] ->]; cbn [negb]; [|done]. apply exchange_verified.
Qed.

(** A small exchange: one piece of 3 bytes. *)
Definition meta_ex : bytes := bs "abc".
Definition hs_ex : bytes := bs "d1:md11:ut_metadatai3ee13:metadata_sizei3ee".
Definition sha1_ex (b : bytes) : bytes := replicate 20 (z2b (Z.of_nat (length b))).
Definition in_ex : bytes :=
  PeerWire.encode Unchoke ++ PeerWire.encode (Extended EXT_HANDSHAKE_ID hs_ex) ++ PeerWire.encode KeepAlive
  ++ PeerWire.encode (data_msg meta_ex 3 1 0).

(** C19: metadata from an honest peer.  A peer that sends an extension handshake with its
    [ut_metadata] id and the size, and answers each request with the piece asked for, gets the
    fetch to complete: the exchange returns exactly the metadata and has written our handshake
    and one request per piece, in order.  Irrelevant frames in between do no harm as long as
    there are fewer than 64 before the handshake and at most 127 in all. *)
Theorem metadata_fetch_complete sha1 content info_hash anonymous in_flight hs tid pex noise noises rest :
  let total := Z.of_nat (length content) in
  let n := Z.to_nat (div_ceil total METADATA_PIECE_SIZE) in
  1 <= total <= MAX_METADATA_SIZE -> in_flight + total <= GLOBAL_METADATA_BUDGET -> sha1 content = info_hash ->
  parse_handshake_payload hs = Ok (mkExtInfo (Some tid) pex (Some total)) ->
  (length hs <= 1024)%nat ->
  Forall (skippable EXT_HANDSHAKE_ID) noise -> Forall (Forall (skippable OUR_UT_METADATA_ID)) noises ->
  (length noise < 64)%nat -> (length noise + length (concat noises) <= 127)%nat -> length noises = n ->
  exchange_metadata sha1 info_hash anonymous in_flight
    (mkStream (concat (PeerWire.encode <$> noise) ++ PeerWire.encode (Extended EXT_HANDSHAKE_ID hs)
               ++ data_stream content total n 0 noises ++ rest) [] true)
  = (mkStream rest
       (PeerWire.encode (Extended EXT_HANDSHAKE_ID (build_handshake_payload anonymous))
        ++ concat (PeerWire.encode <$> (request_msg tid <$> seq 0 n))) true, Ok content).
Proof.
  intros total n Ht Hb Hh Hhs Hlen Hs0 Hs Hn0 Hn1 Hn.
  unfold exchange_metadata, send, write_all, read_extension_handshake. msteps. cbn [writable inbox outbox app].
  assert (Hx : msg_ok (Extended EXT_HANDSHAKE_ID hs) = true) by (cbn [msg_ok]; apply Z.ltb_lt; lia).
  rewrite (read_extended_honest EXT_HANDSHAKE_ID parse_handshake_payload _ hs (mkExtInfo (Some tid) pex (Some total)));
    [|done|done| |done|unfold EXT_HANDSHAKE_MAX_FRAMES; lia|lia].
  2: { unfold frame_of. cbn [PeerWire.encode]. rewrite frame_tag. cbn [length app]. unfold FETCH_MAX_FRAME_LEN, METADATA_PIECE_SIZE. lia. }
  cbn [their_ut_metadata_id metadata_size ok_or]. fold n.
  rewrite (proj2 (try_acquire_Some in_flight total (in_flight + total))) by done. cbn [ok_or].
  replace (replicate n false) with (flags n 0) by (unfold flags; by rewrite Nat.sub_0_r).
  rewrite (fetch_loop_honest content total n tid); try done.
  - rewrite Hn, Hh, bytes_eqb_refl. done.
  - unfold widen, EXT_HANDSHAKE_MAX_FRAMES, EXT_NOISE_FRAME_SLACK. lia.
  - unfold widen. lia.
  - rewrite length_replicate. lia.
Qed.

Lemma metadata_fetch_complete_witness :
  (exchange_metadata sha1_ex (replicate 20 x03) true 5 (mkStream (in_ex ++ bs "more") [] true)).2 = Ok meta_ex.
Proof.
  assert (E : mkStream (in_ex ++ bs "more") [] true
    = mkStream (concat (PeerWire.encode <$> [Unchoke]) ++ PeerWire.encode (Extended EXT_HANDSHAKE_ID hs_ex)
               ++ data_stream meta_ex 3 1 0 [[KeepAlive]] ++ bs "more") [] true) by (vm_compute; reflexivity).
  rewrite E.
  pose proof (metadata_fetch_complete sha1_ex meta_ex (replicate 20 x03) true 5 hs_ex 3 None [Unchoke] [[KeepAlive]] (bs "more")) as C.
  cbv zeta in C. change (Z.of_nat (length meta_ex)) with 3 in C. change (Z.to_nat (div_ceil 3 METADATA_PIECE_SIZE)) with 1%nat in C.
  rewrite C; [reflexivity|by vm_compute|by vm_compute|reflexivity|reflexivity|vm_compute; lia|..].
  - repeat constructor; by vm_compute.
  - repeat constructor; by vm_compute.
  - cbn. lia.
  - cbn. lia.
  - reflexivity.
Defined.

(** The shared counter under concurrent fetches: the reservations held, newest first.  The
    compare-and-swap loop makes [try_acquire] one step, and so is the [fetch_sub] of a drop. *)
Inductive res_step : list Z * Z -> list Z * Z -> Prop :=
  | res_acquire held c b c' : 1 <= b <= MAX_METADATA_SIZE -> try_acquire c b = Some c' -> res_step (held, c) (b :: held, c')
  | res_drop l b r c : res_step (l ++ b :: r, c) (l ++ r, release c b).

(** In every reachable state the counter is what the running fetches hold, within the budget: the
    wrapping subtraction never wraps. *)
Lemma reservations_bounded held c : rtc res_step ([], 0) (held, c) ->
  c = foldr Z.add 0 held /\ Forall (fun b => 0 <= b) held /\ c <= GLOBAL_METADATA_BUDGET.
Proof.
  assert (H : forall x y, rtc res_step x y -> x.2 = foldr Z.add 0 x.1 /\ Forall (fun b => 0 <= b) x.1 /\ x.2 <= GLOBAL_METADATA_BUDGET ->
    y.2 = foldr Z.add 0 y.1 /\ Forall (fun b => 0 <= b) y.1 /\ y.2 <= GLOBAL_METADATA_BUDGET).
  2: { intros R. apply (H _ _ R). split_and!; [done|by apply list.Forall_nil|done]. }
  induction 1 as [|x y z Hs _ IH]; [done|]. intros (Hc & Hf & Hb). apply IH. destruct Hs as [held' c0 b c' Hr Ha|l b r c0]; cbn [fst snd] in *.
  - apply try_acquire_Some in Ha as [-> Ha]. split_and!; [cbn; lia|apply list.Forall_cons; split; [lia|done]|done].
  - assert (Hsum : forall u v, foldr Z.add 0 (u ++ v) = foldr Z.add 0 u + foldr Z.add 0 v).
    { intros u v. induction u as [|x u IHu]; [done|]. cbn. lia. }
    assert (Hpos : forall u, Forall (fun b => 0 <= b) u -> 0 <= foldr Z.add 0 u) by (induction 1; cbn; lia).
    apply list.Forall_app in Hf as [Hl [Hb0 Hr]%list.Forall_cons]. rewrite Hsum in Hc. cbn in Hc.
    pose proof (Hpos l Hl). pose proof (Hpos r Hr). unfold release, GLOBAL_METADATA_BUDGET in *. rewrite wrap_small by lia.
    rewrite Hsum. split_and!; [lia|by apply list.Forall_app|lia].
Qed.
