(* ===== verification/Text.v ===== *)
(** * Text: strings as UTF-8, hex, and what is hidden from logs

    [src/src/util.rs] ([hex], [info_hash_from_hex], [sanitize_remote_text]),
    [src/src/tracker/mod.rs] ([redact_url_query], [scrub_url_from_message]) and
    [src/src/tracker/http.rs] ([percent_encode], [redact_param_values],
    [scrub_announce_error], [url_host_is_ipv6_literal]).  A [str] is its UTF-8
    bytes; slicing one panics off a character boundary. *)

From Stdlib Require Import ZArith Lia String Strings.Byte.
From stdpp Require Import base tactics numbers list option.
From S2P Require Import Prelude Paths.

#[local] Set Warnings "-register-all".

(** ** [str] *)

(** [str::chars], each character as its bytes. *)
Fixpoint chars (l : bytes) : list bytes :=
  match l with
  | [] => []
  | a :: r =>
      if b2z a <? 128 then [a] :: chars r
      else if b2z a <? 224 then
        match r with b :: r' => [a; b] :: chars r' | _ => [l] end
      else if b2z a <? 240 then
        match r with b :: c :: r' => [a; b; c] :: chars r' | _ => [l] end
      else match r with b :: c :: d :: r' => [a; b; c; d] :: chars r' | _ => [l] end
  end.

(** The code point of a character. *)
Definition code_point (c : bytes) : Z :=
  match c with
  | [a] => b2z a
  | [a; b] => Z.lor (Z.shiftl (Z.land (b2z a) 31) 6) (Z.land (b2z b) 63)
  | [a; b; c] => Z.lor (Z.shiftl (Z.land (b2z a) 15) 12) (Z.lor (Z.shiftl (Z.land (b2z b) 63) 6) (Z.land (b2z c) 63))
  | [a; b; c; d] =>
      Z.lor (Z.shiftl (Z.land (b2z a) 7) 18)
        (Z.lor (Z.shiftl (Z.land (b2z b) 63) 12) (Z.lor (Z.shiftl (Z.land (b2z c) 63) 6) (Z.land (b2z d) 63)))
  | _ => 0
  end.

(** [char::is_control]: general category Cc. *)
Definition is_control (c : bytes) : bool :=
  let p := code_point c in (p <? 32) || ((127 <=? p) && (p <=? 159)).

(** [str::is_char_boundary]. *)
Definition is_char_boundary (s : bytes) (i : nat) : bool :=
  if (i =? length s)%nat then true else match s !! i with Some b => negb (cont b) | None => false end.

(** [&s[a..b]] *)
Definition str_slice (s : bytes) (a b : nat) : result bytes :=
  if is_char_boundary s a && is_char_boundary s b then slice_range s a b else Panic.

Definition eq_ignore_ascii_case (a b : bytes) : bool := bytes_eqb (to_ascii_lowercase a) (to_ascii_lowercase b).

(** [str::split_once] with a string and [rsplit_once] with an ASCII character. *)
Fixpoint split_once (p l : bytes) : option (bytes * bytes) :=
  if has_prefix p l then Some ([], drop (length p) l)
  else match l with
       | [] => None
       | c :: r => match split_once p r with Some (a, b) => Some (c :: a, b) | None => None end
       end.

Fixpoint rsplit_once (sep : byte) (l : bytes) : option (bytes * bytes) :=
  match l with
  | [] => None
  | c :: r =>
      match rsplit_once sep r with
      | Some (a, b) => Some (c :: a, b)
      | None => if Byte.eqb c sep then Some ([], r) else None
      end
  end.

(** The part of a string before the first character of a set, [s.split(set).next()]. *)
Fixpoint before (p : byte -> bool) (l : bytes) : bytes :=
  match l with
  | [] => []
  | c :: r => if p c then [] else c :: before p r
  end.

(** ** Hex *)

Definition hex_lower (d : Z) : byte := z2b (if d <? 10 then 48 + d else 87 + d).
Definition hex_upper (d : Z) : byte := z2b (if d <? 10 then 48 + d else 55 + d).

Definition hex (b : bytes) : bytes :=
  flat_map (fun x => [hex_lower (b2z x / 16); hex_lower (b2z x mod 16)]) b.

(** [char::to_digit(16)] *)
Definition hex_digit (c : byte) : option Z :=
  if between 48 57 c then Some (b2z c - 48)
  else if between 97 102 c then Some (b2z c - 87)
  else if between 65 70 c then Some (b2z c - 55) else None.

(** [u8::from_str_radix(s, 16)]: an optional plus sign, then digits, within 8 bits. *)
Fixpoint radix_loop (acc : Z) (l : bytes) : option Z :=
  match l with
  | [] => Some acc
  | c :: r => d ← hex_digit c; if 255 <? acc * 16 + d then None else radix_loop (acc * 16 + d) r
  end.

Definition from_str_radix16 (s : bytes) : option Z :=
  match s with
  | [] => None
  | [c] => if Byte.eqb c "+" || Byte.eqb c "-" then None else radix_loop 0 s
  | c :: r => if Byte.eqb c "+" then radix_loop 0 r else radix_loop 0 s
  end.

(** The loop over the twenty output bytes, from byte [i]. *)
Fixpoint info_hash_loop (s : bytes) (n i : nat) : result (option bytes) :=
  match n with
  | O => Ok (Some [])
  | S n =>
      part ← str_slice s (i * 2) (i * 2 + 2);
      match from_str_radix16 part with
      | None => Ok None
      | Some v =>
          r ← info_hash_loop s n (S i);
          Ok ((fun t => z2b v :: t) <$> r)
      end
  end.

Definition info_hash_from_hex (s : bytes) : result (option bytes) :=
  if negb (length s =? 40)%nat then Ok None else info_hash_loop s 20 0.

(** ** Text from remote parties *)

Definition MAX_CHARS : nat := 512.

Definition is_invisible_or_directional (c : bytes) : bool :=
  let p := code_point c in
  ((0x200B <=? p) && (p <=? 0x200F)) || ((0x202A <=? p) && (p <=? 0x202E))
  || ((0x2066 <=? p) && (p <=? 0x2069)) || (p =? 0xFEFF).

(** A text of more than [MAX_CHARS] characters is cut and marked. *)
Definition bound_chars (text : bytes) : bytes :=
  if (MAX_CHARS <? length (chars text))%nat then concat (take MAX_CHARS (chars text)) ++ bs ".." else text.

Definition sanitize_remote_text (text : bytes) : bytes :=
  concat (List.filter (fun c => negb (is_control c) && negb (is_invisible_or_directional c)) (chars (bound_chars text))).

Definition sanitize_tracker_text (text : bytes) : bytes := sanitize_remote_text text.

(** ** URLs *)

Definition redact_url_query (url : bytes) : bytes :=
  let base := before (fun c => Byte.eqb c "?" || Byte.eqb c "#") url in
  let base :=
    match split_once (bs "://") base with
    | Some (scheme, rest) =>
        let '(authority, after) :=
          match split_once (bs "/") rest with Some (a, t) => (a, Some t) | None => (rest, None) end in
        let authority := match rsplit_once "@" authority with Some (_, h) => h | None => authority end in
        match after with
        | Some tail => scheme ++ bs "://" ++ authority ++ bs "/" ++ tail
        | None => scheme ++ bs "://" ++ authority
        end
    | None => base
    end in
  let filtered := concat (List.filter (fun c => negb (is_control c)) (chars base)) in
  bound_chars filtered.

Definition url_host_is_ipv6_literal (url : bytes) : bool :=
  let rest := match split_once (bs "://") url with Some (_, r) => r | None => url end in
  let authority := before (fun c => Byte.eqb c "/" || Byte.eqb c "?" || Byte.eqb c "#") rest in
  let host := match rsplit_once "@" authority with Some (_, h) => h | None => authority end in
  has_prefix (bs "[") host.

Definition percent_encode (b : bytes) : bytes :=
  flat_map (fun x =>
    if between 48 57 x || between 65 90 x || between 97 122 x
       || Byte.eqb x "-" || Byte.eqb x "_" || Byte.eqb x "." || Byte.eqb x "~"
    then [x] else ["%"%byte; hex_upper (b2z x / 16); hex_upper (b2z x mod 16)]) b.

(** ** Scrubbing *)

Definition SENSITIVE_PARAMS : list bytes := [bs "passkey"; bs "info_hash"; bs "peer_id"; bs "key"; bs "auth"].

(** Whether parameter [k] starts at byte [i]. *)
Definition param_at (msg : bytes) (i : nat) (k : bytes) : result bool :=
  tail ← str_slice msg i (length msg);
  if (length k + 1 <=? length tail)%nat then
    b ← index msg (i + length k);
    if Byte.eqb b "=" then
      name ← str_slice msg i (i + length k);
      Ok (eq_ignore_ascii_case name k)
    else Ok false
  else Ok false.

Fixpoint param_hit (msg : bytes) (i : nat) (ks : list bytes) : result (option nat) :=
  match ks with
  | [] => Ok None
  | k :: ks =>
      b ← param_at msg i k;
      if b : bool then Ok (Some (length k + 1)%nat) else param_hit msg i ks
  end.

(** The [while] loop of [redact_param_values]; every turn moves [i] forward. *)
Fixpoint redact_loop (fuel : nat) (msg : bytes) (i : nat) (out : bytes) : result bytes :=
  match fuel with
  | O => NoFuel
  | S fuel =>
      if (length msg <=? i)%nat then Ok out
      else
        hit ← param_hit msg i SENSITIVE_PARAMS;
        match hit with
        | Some nl =>
            name ← str_slice msg i (i + nl);
            rest ← str_slice msg (i + nl) (length msg);
            let stop := default (length rest) (position (fun c => Byte.eqb c "&" || Byte.eqb c "#") rest) in
            redact_loop fuel msg (i + (nl + stop)) (out ++ name ++ bs "[scrubbed]")
        | None =>
            tail ← str_slice msg i (length msg);
            let step := match chars tail with c :: _ => length c | [] => 1%nat end in
            c ← str_slice msg i (i + step);
            redact_loop fuel msg (i + step) (out ++ c)
        end
  end.

Definition redact_param_values (msg : bytes) : result bytes := redact_loop (S (length msg)) msg 0 [].

(** [str::replace]: every non-overlapping occurrence, from the left. *)
Fixpoint replace_aux (fuel : nat) (p q l : bytes) : bytes :=
  match fuel with
  | O => l
  | S fuel =>
      match split_once p l with
      | Some (a, b) => a ++ q ++ replace_aux fuel p q b
      | None => l
      end
  end.

Definition replace (p q l : bytes) : bytes := replace_aux (S (length l)) p q l.

Section scrubbing.
(** How the URL library renders the URL it parses, if it parses it. *)
Context (parsed_url : bytes -> option bytes).

Definition scrub_url_from_message (msg url : bytes) : bytes :=
  if bytes_eqb msg [] || bytes_eqb url [] then msg
  else
    let redacted := redact_url_query url in
    if bytes_eqb redacted url then msg
    else
      let out := replace url redacted msg in
      match parsed_url url with
      | Some disp => if negb (bytes_eqb disp url) && negb (bytes_eqb disp redacted) then replace disp redacted out else out
      | None => out
      end.

Definition scrub_announce_error (msg full_url base_url : bytes) : result bytes :=
  let once := scrub_url_from_message msg full_url in
  let twice := scrub_url_from_message once base_url in
  redact_param_values twice.
End scrubbing.

(** ** Valid strings are sequences of characters *)

Definition char_ok (c : bytes) : bool :=
  match c with
  | [a] => b2z a <? 128
  | [a; b] => between 194 223 a && cont b
  | [a; b; c] =>
      between 224 239 a
      && (if b2z a =? 224 then between 160 191 b else if b2z a =? 237 then between 128 159 b else cont b) && cont c
  | [a; b; c; d] =>
      between 240 244 a
      && (if b2z a =? 240 then between 144 191 b else if b2z a =? 244 then between 128 143 b else cont b) && cont c && cont d
  | _ => false
  end.

Ltac byte_ranges := unfold cont, between in *; repeat rewrite ?andb_true_iff, ?Z.leb_le in *; lia.

Lemma char_ok_app c r : char_ok c = true -> chars (c ++ r) = c :: chars r /\ utf8_valid (c ++ r) = utf8_valid r.
Proof.
  destruct c as [|a [|b [|c [|d [|e l]]]]]; cbn [char_ok]; try done.
  - intros H. cbn [app chars utf8_valid]. by rewrite H.
  - intros [Ha Hb]%andb_true_iff. cbn [app chars utf8_valid].
    rewrite Ha, Hb. replace (b2z a <? 128) with false by byte_ranges. by replace (b2z a <? 224) with true by byte_ranges.
  - intros [[Ha Hb]%andb_true_iff Hc]%andb_true_iff. cbn [app chars utf8_valid]. rewrite Ha, Hb, Hc.
    replace (between 194 223 a) with false by byte_ranges. replace (b2z a <? 128) with false by byte_ranges.
    replace (b2z a <? 224) with false by byte_ranges. by replace (b2z a <? 240) with true by byte_ranges.
  - intros [[[Ha Hb]%andb_true_iff Hc]%andb_true_iff Hd]%andb_true_iff. cbn [app chars utf8_valid]. rewrite Ha, Hb, Hc, Hd.
    replace (between 194 223 a) with false by byte_ranges. replace (between 224 239 a) with false by byte_ranges.
    replace (b2z a <? 128) with false by byte_ranges. replace (b2z a <? 224) with false by byte_ranges.
    by replace (b2z a <? 240) with false by byte_ranges.
Qed.

Lemma char_first l : utf8_valid l = true -> l <> [] -> exists c r, l = c ++ r /\ char_ok c = true /\ utf8_valid r = true.
Proof.
  destruct l as [|a r]; [done|]. cbn [utf8_valid]. intros H _.
  destruct (b2z a <? 128) eqn:E1; [by exists [a], r|]. destruct (between 194 223 a) eqn:E2.
  { destruct r as [|b r]; [done|]. apply andb_true_iff in H as [Hb H]. exists [a; b], r. cbn. by rewrite E2, Hb. }
  destruct (between 224 239 a) eqn:E3.
  { destruct r as [|b [|c r]]; [done|done|]. rewrite !andb_true_iff in H. destruct H as [[Hb Hc] H].
    exists [a; b; c], r. cbn [char_ok]. by rewrite E3, Hb, Hc. }
  destruct (between 240 244 a) eqn:E4; [|done].
  destruct r as [|b [|c [|d r]]]; [done|done|done|]. rewrite !andb_true_iff in H. destruct H as [[[Hb Hc] Hd] H].
  exists [a; b; c; d], r. cbn [char_ok]. by rewrite E4, Hb, Hc, Hd.
Qed.

Lemma char_ok_pos c : char_ok c = true -> (0 < length c)%nat.
Proof. by destruct c; [|cbn; lia]. Qed.

(** Strings are the concatenations of characters, and [chars] takes them apart. *)
Lemma utf8_chars l : utf8_valid l = true -> Forall (fun c => char_ok c = true) (chars l) /\ concat (chars l) = l.
Proof.
  remember (length l) as n eqn:En. revert l En. induction (lt_wf n) as [n _ IH]. intros l -> Hv.
  destruct (decide (l = [])) as [->|Hne]; [by split|]. destruct (char_first l Hv Hne) as (c & r & -> & Hc & Hr).
  destruct (char_ok_app c r Hc) as [-> _]. pose proof (char_ok_pos c Hc).
  destruct (IH (length r)) with (l := r) as [H1 H2]; [rewrite length_app; lia|done|done|].
  split; [by apply list.Forall_cons|]. cbn. by rewrite H2.
Qed.

Lemma chars_concat cs : Forall (fun c => char_ok c = true) cs -> chars (concat cs) = cs /\ utf8_valid (concat cs) = true.
Proof.
  induction 1 as [|c cs Hc _ [IH1 IH2]]; [done|]. cbn [concat]. destruct (char_ok_app c (concat cs) Hc) as [-> ->]. by rewrite IH1.
Qed.

Lemma utf8_app a b : utf8_valid a = true -> utf8_valid (a ++ b) = utf8_valid b.
Proof.
  intros Ha. destruct (utf8_chars a Ha) as [F <-]. clear Ha. induction F as [|c cs Hc _ IH]; [done|].
  cbn [concat]. rewrite <- app_assoc. by rewrite (proj2 (char_ok_app c _ Hc)).
Qed.

Lemma chars_ok_filter p l : utf8_valid l = true -> Forall (fun c => char_ok c = true) (List.filter p (chars l)).
Proof.
  intros [H _]%utf8_chars. apply list.Forall_forall. intros c [Hin _]%list_elem_of_In%filter_In.
  rewrite list.Forall_forall in H. by apply H, list_elem_of_In.
Qed.

Lemma bound_chars_ok l : utf8_valid l = true ->
  utf8_valid (bound_chars l) = true /\ (length (chars (bound_chars l)) <= MAX_CHARS + 2)%nat.
Proof.
  intros Hv. unfold bound_chars. destruct (Nat.ltb_spec MAX_CHARS (length (chars l))) as [H|H]; [|split; [done|lia]].
  destruct (utf8_chars l Hv) as [F _].
  assert (E : concat (take MAX_CHARS (chars l)) ++ bs ".." = concat (take MAX_CHARS (chars l) ++ [bs "."; bs "."])) by (by rewrite concat_app).
  rewrite E. destruct (chars_concat (take MAX_CHARS (chars l) ++ [bs "."; bs "."])) as [-> ->].
  - apply list.Forall_app. split; [by apply Forall_take|]. by repeat constructor.
  - split; [done|]. rewrite length_app, length_take. cbn [length]. lia.
Qed.

(** ** Hex digits *)

Lemma hex_lower_digit d : 0 <= d < 16 -> hex_digit (hex_lower d) = Some d /\ cont (hex_lower d) = false.
Proof.
  intros Hd. unfold hex_digit, hex_lower, between, cont, between. destruct (Z.ltb_spec d 10) as [H|H]; rewrite b2z_z2b_small by lia.
  - replace (_ && _) with true by lia. split; [f_equal|]; lia.
  - replace ((48 <=? 87 + d) && _) with false by lia. replace (_ && _) with true by lia. split; [f_equal|]; lia.
Qed.

Lemma hex_upper_digit d : 0 <= d < 16 -> hex_digit (hex_upper d) = Some d.
Proof.
  intros Hd. unfold hex_digit, hex_upper, between. destruct (Z.ltb_spec d 10) as [H|H]; rewrite b2z_z2b_small by lia.
  - replace (_ && _) with true by lia. f_equal. lia.
  - replace ((48 <=? 55 + d) && _) with false by lia. replace ((97 <=? 55 + d) && _) with false by lia.
    replace (_ && _) with true by lia. f_equal. lia.
Qed.

Lemma hex_digit_range c d : hex_digit c = Some d -> 0 <= d < 16.
Proof.
  unfold hex_digit, between. intros H.
  repeat (match type of H with context [if ?b then _ else _] => destruct b eqn:? end; [injection H as H; lia|]). done.
Qed.

Lemma nibbles b : 0 <= b2z b / 16 < 16 /\ 0 <= b2z b mod 16 < 16 /\ b2z b / 16 * 16 + b2z b mod 16 = b2z b.
Proof.
  pose proof (b2z_range b). pose proof (Z.div_mod (b2z b) 16 ltac:(lia)). pose proof (Z.mod_pos_bound (b2z b) 16 ltac:(lia)).
  split; [|lia]. split; [apply Z.div_pos; lia|]. apply Z.div_lt_upper_bound; lia.
Qed.

Lemma radix_pair b : from_str_radix16 [hex_lower (b2z b / 16); hex_lower (b2z b mod 16)] = Some (b2z b).
Proof.
  destruct (nibbles b) as (H1 & H2 & E). pose proof (b2z_range b). unfold from_str_radix16.
  destruct (Byte.eqb (hex_lower (b2z b / 16)) "+") eqn:Eb.
  { apply byte_eqb_iff in Eb. pose proof (hex_lower_digit _ H1) as [D _]. rewrite Eb in D. discriminate D. }
  cbn [radix_loop]. rewrite (proj1 (hex_lower_digit _ H1)), (proj1 (hex_lower_digit _ H2)). cbn [mbind option_bind].
  replace (255 <? 0 * 16 + b2z b / 16) with false by lia. replace (255 <? _) with false by lia. f_equal. lia.
Qed.

Lemma hex_cons b r : hex (b :: r) = [hex_lower (b2z b / 16); hex_lower (b2z b mod 16)] ++ hex r.
Proof. done. Qed.

Lemma hex_ascii b : Forall (fun c => cont c = false) (hex b).
Proof.
  induction b as [|x b IH]; [by apply list.Forall_nil|]. destruct (nibbles x) as (H1 & H2 & _).
  rewrite hex_cons. repeat (apply list.Forall_cons; split; [by apply hex_lower_digit|]). exact IH.
Qed.

Lemma length_hex b : length (hex b) = (2 * length b)%nat.
Proof. induction b as [|x b IH]; [done|]. rewrite hex_cons, length_app, IH. cbn [length]. lia. Qed.

(** Slices of a string without multi-byte characters never panic. *)
Lemma str_slice_ascii s a b : Forall (fun c => cont c = false) s -> (a <= b <= length s)%nat ->
  str_slice s a b = Ok (take (b - a) (drop a s)).
Proof.
  intros F Hab. unfold str_slice.
  assert (B : forall i, (i <= length s)%nat -> is_char_boundary s i = true).
  { intros i Hi. unfold is_char_boundary. destruct (Nat.eqb_spec i (length s)); [done|].
    destruct (lookup_lt_is_Some_2 s i ltac:(lia)) as [c Hc]. rewrite Hc. rewrite list.Forall_lookup in F. by rewrite (F _ _ Hc). }
  rewrite !B by lia. by rewrite slice_range_Ok by lia.
Qed.

Lemma info_hash_loop_hex s ih : Forall (fun c => cont c = false) s ->
  forall n i, drop (i * 2) s = hex (drop i ih) -> length ih = (i + n)%nat -> length s = (length ih * 2)%nat ->
  info_hash_loop s n i = Ok (Some (drop i ih)).
Proof.
  intros F. induction n as [|n IH]; intros i Hd Hl Hs; cbn [info_hash_loop].
  { by rewrite drop_ge by lia. }
  destruct (lookup_lt_is_Some_2 ih i ltac:(lia)) as [x Hx]. rewrite (drop_S ih x i Hx) in Hd |- *.
  rewrite str_slice_ascii by (done || lia). rewrite Hd. replace (i * 2 + 2 - i * 2)%nat with 2%nat by lia. rewrite hex_cons.
  cbn [take mbind result_bind app]. rewrite radix_pair. rewrite (IH (S i)); [|..|lia|done].
  - cbn. by rewrite z2b_b2z.
  - replace (S i * 2)%nat with (i * 2 + 2)%nat by lia. rewrite <- drop_drop, Hd, hex_cons. done.
Qed.

Lemma info_hash_hex ih : length ih = 20%nat -> info_hash_from_hex (hex ih) = Ok (Some ih).
Proof.
  intros H. unfold info_hash_from_hex. rewrite length_hex, H. cbn [Nat.mul Nat.add Nat.eqb negb].
  by rewrite (info_hash_loop_hex (hex ih) ih (hex_ascii ih) 20 0) by (done || rewrite ?length_hex; lia).
Qed.

(** A 40-byte string with a two-byte character across a pair of digits makes the parser panic. *)
Lemma info_hash_from_hex_panics :
  utf8_valid (bs "a" ++ [xc3; xa9] ++ replicate 37 "0"%byte) = true /\
  info_hash_from_hex (bs "a" ++ [xc3; xa9] ++ replicate 37 "0"%byte) = Panic.
Proof. by vm_compute. Qed.

(** A plus sign is taken for a digit. *)
Lemma info_hash_from_hex_plus : info_hash_from_hex (bs "+f" ++ replicate 38 "0"%byte) = Ok (Some (x0f :: replicate 19 x00)).
Proof. by vm_compute. Qed.

(** ** What the sanitiser lets through *)

Definition printable (c : bytes) : bool := negb (is_control c) && negb (is_invisible_or_directional c).

Lemma sanitize_spec text : utf8_valid text = true ->
  utf8_valid (sanitize_remote_text text) = true /\
  (length (chars (sanitize_remote_text text)) <= MAX_CHARS + 2)%nat /\
  Forall (fun c => printable c = true) (chars (sanitize_remote_text text)) /\
  (Forall (fun c => printable c = true) (chars text) -> (length (chars text) <= MAX_CHARS)%nat -> sanitize_remote_text text = text).
Proof.
  intros Hv. destruct (bound_chars_ok text Hv) as [Hb Hl]. unfold sanitize_remote_text. fold printable.
  destruct (chars_concat _ (chars_ok_filter printable _ Hb)) as [-> ->]. split_and!; [done| | |].
  - etransitivity; [apply List.filter_length_le|exact Hl].
  - apply list.Forall_forall. by intros c [_ H]%list_elem_of_In%filter_In.
  - intros Hp Hn. unfold bound_chars. rewrite (proj2 (Nat.ltb_ge _ _) Hn).
    assert (E : List.filter printable (chars text) = chars text).
    { clear - Hp. induction Hp as [|c cs H _ IH]; [done|]. cbn. by rewrite H, IH. }
    rewrite E. by apply utf8_chars.
Qed.

(** ** What the URL redaction drops *)

Lemma before_app p a c b : forallb (fun x => negb (p x)) a = true -> p c = true -> before p (a ++ c :: b) = a.
Proof.
  intros Ha Hc. induction a as [|x a IH]; cbn [app before]; [by rewrite Hc|].
  cbn [forallb] in Ha. apply andb_true_iff in Ha as [Hx Ha]. apply negb_true_iff in Hx. by rewrite Hx, IH.
Qed.

Lemma before_all p a : forallb (fun x => negb (p x)) a = true -> before p a = a.
Proof.
  intros Ha. induction a as [|x a IH]; [done|]. cbn [forallb before] in *. apply andb_true_iff in Ha as [Hx Ha].
  apply negb_true_iff in Hx. by rewrite Hx, IH.
Qed.

Definition without (set l : bytes) : bool := forallb (fun x => negb (existsb (Byte.eqb x) set)) l.

Lemma without_app set a b : without set (a ++ b) = without set a && without set b.
Proof. apply forallb_app. Qed.

Lemma without_cons c x a : without [c] (x :: a) = true -> Byte.eqb x c = false /\ Byte.eqb c x = false /\ without [c] a = true.
Proof.
  cbn [without forallb existsb]. intros [Hx Ha]%andb_true_iff. rewrite orb_false_r in Hx. apply negb_true_iff in Hx.
  split_and!; [done| |done]. destruct (Byte.eqb c x) eqn:E; [|done]. apply byte_eqb_iff in E as ->.
  by rewrite (proj2 (byte_eqb_iff x x) eq_refl) in Hx.
Qed.

(** The first occurrence of a separator is right after a prefix without its first character. *)
Lemma split_once_app p c l a : p = c :: drop 1 p -> without [c] a = true -> split_once p (a ++ p ++ l) = Some (a, l).
Proof.
  intros Hp Ha. induction a as [|x a IH]; cbn [app].
  - destruct p as [|y p]; [done|]. cbn [split_once app]. replace (has_prefix (y :: p) (y :: p ++ l)) with true.
    + do 2 f_equal. exact (drop_app_length (y :: p) l).
    + symmetry. clear. cbn [has_prefix]. rewrite (proj2 (byte_eqb_iff y y) eq_refl). cbn.
      induction p as [|z p IH]; [done|]. cbn. by rewrite (proj2 (byte_eqb_iff z z) eq_refl).
  - apply without_cons in Ha as (_ & Hx & Ha). cbn [split_once].
    replace (has_prefix p (x :: a ++ p ++ l)) with false; [by rewrite IH|]. rewrite Hp. cbn [has_prefix]. by rewrite Hx.
Qed.

Lemma split_once_skip c a b : without [c] a = true ->
  split_once [c] (a ++ b) = match split_once [c] b with Some (x, y) => Some (a ++ x, y) | None => None end.
Proof.
  induction a as [|x a IH]; intros Ha; cbn [app]; [by destruct (split_once [c] b) as [[]|]|].
  apply without_cons in Ha as (_ & Hx & Ha). cbn [split_once has_prefix]. rewrite Hx, IH by done.
  by destruct (split_once [c] b) as [[]|].
Qed.

Lemma rsplit_once_app sep a b : rsplit_once sep (a ++ sep :: b)
  = Some (match rsplit_once sep b with Some (x, y) => (a ++ sep :: x, y) | None => (a, b) end).
Proof.
  induction a as [|c a IH]; cbn [app rsplit_once].
  - destruct (rsplit_once sep b) as [[x y]|]; [done|]. by rewrite (proj2 (byte_eqb_iff sep sep) eq_refl).
  - rewrite IH. by destruct (rsplit_once sep b) as [[x y]|].
Qed.

Lemma before_skip p a b : forallb (fun x => negb (p x)) a = true -> before p (a ++ b) = a ++ before p b.
Proof.
  intros Ha. induction a as [|x a IH]; [done|]. cbn [forallb before app] in *. apply andb_true_iff in Ha as [Hx Ha].
  apply negb_true_iff in Hx. by rewrite Hx, IH.
Qed.

Lemma without_sub s1 s2 l : forallb (fun c => existsb (Byte.eqb c) s1) s2 = true -> without s1 l = true -> without s2 l = true.
Proof.
  intros Hs. apply forallb_weaken. intros x Hx. apply negb_true_iff in Hx. apply negb_true_iff.
  destruct (existsb (Byte.eqb x) s2) eqn:E; [|done]. apply existsb_exists in E as (c & Hc & ->%byte_eqb_iff).
  rewrite forallb_forall in Hs. by rewrite (Hs c Hc) in Hx.
Qed.

Definition query_mark (c : byte) : bool := Byte.eqb c "?" || Byte.eqb c "#".

Lemma without_marks l : without (bs "?#") l = true -> forallb (fun x => negb (query_mark x)) l = true.
Proof. apply forallb_weaken. intros x. unfold query_mark. cbn. by rewrite orb_false_r. Qed.

(** The redacted URL depends neither on the user information of the authority nor on the
    query and the fragment. *)
Lemma redact_drops scheme userinfo rest mark query :
  without (bs ":?#") scheme = true -> without (bs "/?#") userinfo = true -> without (bs "?#") rest = true -> query_mark mark = true ->
  redact_url_query (scheme ++ bs "://" ++ userinfo ++ bs "@" ++ rest ++ mark :: query) = redact_url_query (scheme ++ bs "://" ++ rest).
Proof.
  intros Hs Hu Hr Hm. unfold redact_url_query. fold query_mark.
  assert (Hs' : without (bs "?#") scheme = true) by (by apply (without_sub (bs ":?#"))).
  assert (Hu' : without (bs "?#") userinfo = true) by (by apply (without_sub (bs "/?#"))).
  assert (E1 : before query_mark (scheme ++ bs "://" ++ userinfo ++ bs "@" ++ rest ++ mark :: query)
    = scheme ++ bs "://" ++ userinfo ++ bs "@" ++ rest).
  { rewrite !app_assoc. apply before_app; [|done]. apply without_marks. rewrite !without_app, Hs', Hu', Hr. done. }
  assert (E2 : before query_mark (scheme ++ bs "://" ++ rest) = scheme ++ bs "://" ++ rest).
  { apply before_all, without_marks. by rewrite !without_app, Hs', Hr. }
  rewrite E1, E2. assert (Hc : without [":"%byte] scheme = true) by (by apply (without_sub (bs ":?#"))).
  rewrite !(split_once_app (bs "://") ":") by done.
  change (bs "/") with ["/"%byte]. rewrite (app_assoc userinfo), split_once_skip.
  2: { rewrite without_app. rewrite (without_sub (bs "/?#") ["/"%byte] userinfo) by done. done. }
  assert (Ha : forall x, match rsplit_once "@" ((userinfo ++ bs "@") ++ x) with Some (_, h) => h | None => (userinfo ++ bs "@") ++ x end
    = match rsplit_once "@" x with Some (_, h) => h | None => x end).
  { intros x. rewrite <- app_assoc. change (bs "@" ++ x) with ("@"%byte :: x). rewrite rsplit_once_app. by destruct (rsplit_once "@" x) as [[]|]. }
  destruct (split_once ["/"%byte] rest) as [[auth tail]|]; by rewrite Ha.
Qed.

(** ** Boundaries *)

Lemma char_ok_conts c j : char_ok c = true -> (0 < j < length c)%nat -> exists b, c !! j = Some b /\ cont b = true.
Proof.
  assert (W : forall lo hi b, 128 <= lo -> hi <= 191 -> between lo hi b = true -> cont b = true) by (intros; byte_ranges).
  destruct c as [|a [|b [|c [|d [|e l]]]]]; cbn [char_ok length]; intros H Hj; try done; rewrite ?andb_true_iff in H; try lia.
  - destruct j as [|[|j]]; [lia| |lia]. exists b. cbn. tauto.
  - destruct H as [[_ Hb] Hc]. destruct j as [|[|[|j]]]; [lia| | |lia]; [exists b|by exists c]. split; [done|].
    destruct (b2z a =? 224); [by eapply W, Hb|]. destruct (b2z a =? 237); [by eapply W, Hb|done].
  - destruct H as [[[_ Hb] Hc] Hd]. destruct j as [|[|[|[|j]]]]; [lia| | | |lia]; [exists b|by exists c|by exists d]. split; [done|].
    destruct (b2z a =? 240); [by eapply W, Hb|]. destruct (b2z a =? 244); [by eapply W, Hb|done].
Qed.

(** A string cut at a boundary is two strings. *)
Lemma boundary_split s i : utf8_valid s = true -> (i <= length s)%nat -> is_char_boundary s i = true ->
  utf8_valid (take i s) = true /\ utf8_valid (drop i s) = true.
Proof.
  intros Hv. destruct (utf8_chars s Hv) as [F E]. rewrite <- E. clear E Hv. generalize dependent (chars s). clear s. intros cs F.
  revert i. induction F as [|c cs Hc F IH]; intros i Hi Hb; cbn [concat] in *; [by rewrite take_nil, drop_nil|].
  destruct (decide (i = 0%nat)) as [->|Hne].
  { split; [done|]. rewrite drop_0, (proj2 (char_ok_app c _ Hc)). by apply chars_concat. }
  rewrite length_app in Hi. destruct (decide (i < length c)%nat) as [Hlt|Hge].
  { destruct (char_ok_conts c i Hc ltac:(lia)) as (b & Hb1 & Hb2). unfold is_char_boundary in Hb.
    rewrite length_app in Hb. destruct (Nat.eqb_spec i (length c + length (concat cs))); [lia|].
    rewrite lookup_app_l, Hb1, Hb2 in Hb by done. done. }
  destruct (IH (i - length c)%nat) as [H1 H2]; [lia| |].
  - unfold is_char_boundary in Hb |- *. rewrite length_app in Hb. rewrite lookup_app_r in Hb by lia.
    destruct (Nat.eqb_spec i (length c + length (concat cs))) as [->|Hx].
    + by replace (_ =? _)%nat with true by (symmetry; apply Nat.eqb_eq; lia).
    + by replace (_ =? _)%nat with false by (symmetry; apply Nat.eqb_neq; lia).
  - rewrite take_app_ge, drop_app_ge by lia. by rewrite (proj2 (char_ok_app c _ Hc)).
Qed.

Lemma ascii_boundary s i b : s !! i = Some b -> b2z b < 128 -> is_char_boundary s i = true.
Proof.
  intros Hi Hb. unfold is_char_boundary. rewrite Hi. destruct (_ =? _)%nat; [done|].
  apply negb_true_iff. unfold cont, between. lia.
Qed.

(** Conversely, where a valid string begins there is a boundary. *)
Lemma valid_boundary a b : utf8_valid b = true -> is_char_boundary (a ++ b) (length a) = true.
Proof.
  intros Hb. unfold is_char_boundary. destruct (Nat.eqb_spec (length a) (length (a ++ b))) as [_|Hne]; [done|].
  rewrite lookup_app_r, Nat.sub_diag by lia. destruct b as [|x b]; [by rewrite app_nil_r in Hne|]. cbn [lookup list_lookup].
  destruct (char_first (x :: b) Hb) as (c & r & E & Hc & _); [done|]. destruct c as [|y c]; [done|]. injection E as <- _.
  destruct c as [|z [|w [|v [|? ?]]]]; cbn [char_ok] in Hc; rewrite ?andb_true_iff in Hc; try done;
    apply negb_true_iff; unfold cont, between in *; lia.
Qed.

Lemma str_slice_app a b c : utf8_valid (b ++ c) = true -> utf8_valid c = true ->
  str_slice (a ++ b ++ c) (length a) (length a + length b) = Ok b.
Proof.
  intros H1 H2. unfold str_slice. rewrite (valid_boundary a (b ++ c) H1).
  pose proof (valid_boundary (a ++ b) c H2) as B. rewrite length_app, <- app_assoc in B. rewrite B. cbn [andb].
  rewrite slice_range_Ok by (rewrite !length_app; lia). unfold slice. rewrite drop_app_length.
  replace (length a + length b - length a)%nat with (length b) by lia. by rewrite take_app_length.
Qed.

Lemma str_slice_tail a b : utf8_valid b = true -> str_slice (a ++ b) (length a) (length (a ++ b)) = Ok b.
Proof.
  intros H. pose proof (str_slice_app a b [] ) as S. rewrite !app_nil_r in S. rewrite length_app. by apply S.
Qed.

(** ** Scrubbing, as a relation between the text and what is left of it *)

Definition sensitive (name : bytes) : bool := existsb (eq_ignore_ascii_case name) SENSITIVE_PARAMS.

(** No sensitive parameter starts here. *)
Definition no_param (l : bytes) : Prop := forall name rest, l = name ++ "="%byte :: rest -> sensitive name = false.

Definition stop_mark (c : byte) : bool := Byte.eqb c "&" || Byte.eqb c "#".

Inductive scrubbed : bytes -> bytes -> Prop :=
  | scrubbed_nil : scrubbed [] []
  | scrubbed_param name value rest out :
      sensitive name = true -> forallb (fun c => negb (stop_mark c)) value = true -> match rest with [] => True | c :: _ => stop_mark c = true end ->
      scrubbed rest out -> scrubbed (name ++ "="%byte :: value ++ rest) (name ++ bs "=[scrubbed]" ++ out)
  | scrubbed_char c rest out :
      char_ok c = true -> no_param (c ++ rest) -> scrubbed rest out -> scrubbed (c ++ rest) (c ++ out).

(** The characters of parameter names. *)
Definition name_char (b : byte) : bool := between 65 90 b || between 97 122 b || Byte.eqb b "_".

Lemma lower_name_char b : name_char (if between 65 90 b then z2b (b2z b + 32) else b) = true -> name_char b = true.
Proof. destruct b; vm_compute; done. Qed.

Lemma sensitive_chars name : sensitive name = true -> forallb name_char name = true.
Proof.
  unfold sensitive. intros (k & Hk & E)%existsb_exists. apply bytes_eqb_eq in E.
  assert (F : forallb name_char (to_ascii_lowercase k) = true).
  { cbn in Hk. repeat (destruct Hk as [<-|Hk]; [by vm_compute|]). done. }
  rewrite <- E in F. clear - F. induction name as [|b name IH]; [done|]. cbn in F |- *. apply andb_true_iff in F as [F1 F2].
  by rewrite (lower_name_char b F1), IH.
Qed.

Lemma name_char_not b : name_char b = true -> b <> "="%byte /\ b <> "]"%byte /\ b2z b < 128 /\ cont b = false.
Proof. intros H. split_and!; [by intros ->..| |]; destruct b; done. Qed.

Lemma char_ok_head b c : char_ok (b :: c) = true -> b2z b < 128 -> c = [].
Proof. destruct c as [|x [|y [|z [|? ?]]]]; cbn [char_ok]; try done; intros H Hb; exfalso; repeat apply andb_true_iff in H as [H _]; byte_ranges. Qed.

(** A name and an equals sign at the start of the output come from the start of the text, or
    are followed by the mark. *)
Lemma scrubbed_head l out : scrubbed l out -> forall w post, forallb name_char w = true -> out = w ++ "="%byte :: post ->
  (exists rest, l = w ++ "="%byte :: rest) \/ (exists post', post = bs "[scrubbed]" ++ post').
Proof.
  induction 1 as [|name value rest out Hs _ _ _ _|c rest out Hc _ _ IH]; intros w post Hw E; [by destruct w|..].
  - right. pose proof (sensitive_chars name Hs) as Hn. clear Hs. revert w Hw E.
    induction name as [|a name IHn]; intros [|b w] Hw E; cbn [app] in E.
    + injection E as <-. eauto.
    + injection E as <- _. cbn in Hw. done.
    + injection E as -> _. cbn in Hn. done.
    + injection E as <- E. cbn [forallb] in Hn, Hw. apply andb_true_iff in Hn as [_ Hn], Hw as [_ Hw]. by apply (IHn Hn w).
  - destruct c as [|a c]; [done|]. destruct w as [|b w]; cbn [app] in E; injection E as -> E.
    + rewrite (char_ok_head _ c Hc) by done. left. by exists rest.
    + cbn [forallb] in Hw. apply andb_true_iff in Hw as [Hb Hw]. destruct (name_char_not b Hb) as (_ & _ & Hlt & _).
      rewrite (char_ok_head b c Hc Hlt) in E |- *. destruct (IH w post Hw E) as [(r & ->)|H]; [left; by exists r|by right].
Qed.

Definition not_eq (b : byte) : bool := negb (Byte.eqb b "=").

Lemma name_not_eq w : forallb name_char w = true -> forallb not_eq w = true.
Proof. apply forallb_weaken. intros b. destruct b; done. Qed.

(** A name followed by an equals sign does not run over a bracket, *)
Lemma no_name_over_bracket w : forall k post out, forallb name_char w = true -> forallb not_eq k = true ->
  w ++ "="%byte :: post = k ++ "]"%byte :: out -> False.
Proof.
  induction w as [|a w IH]; intros [|b k] post out Hw Hk E; cbn [app] in E; injection E as E1 E2.
  - done.
  - subst b. done.
  - subst a. done.
  - cbn [forallb] in Hw, Hk. apply andb_true_iff in Hw as [_ Hw], Hk as [_ Hk]. by apply (IH k post out).
Qed.

(** and ends at the first equals sign. *)
Lemma name_unique w : forall v p q, forallb not_eq w = true -> forallb not_eq v = true ->
  w ++ "="%byte :: p = v ++ "="%byte :: q -> w = v /\ p = q.
Proof.
  induction w as [|a w IH]; intros [|b v] p q Hw Hv E; cbn [app] in E.
  - by injection E as ->.
  - injection E as <- _. done.
  - injection E as -> _. done.
  - injection E as <- E2. cbn [forallb] in Hw, Hv. apply andb_true_iff in Hw as [_ Hw], Hv as [_ Hv]. destruct (IH v p q Hw Hv E2) as [-> ->]. done.
Qed.

Lemma sensitive_nil : sensitive [] = false.
Proof. by vm_compute. Qed.

Lemma mark_hides nm out pre name post : sensitive nm = true -> sensitive name = true ->
  nm ++ bs "=[scrubbed]" ++ out = pre ++ name ++ "="%byte :: post ->
  (exists pre', out = pre' ++ name ++ "="%byte :: post) \/ (exists post', post = bs "[scrubbed]" ++ post').
Proof.
  intros Hm Hn E. apply sensitive_chars, name_not_eq in Hm. pose proof (sensitive_chars name Hn) as Hc.
  destruct (app_eq_inv _ _ _ _ E) as [(k0 & -> & E')|(k & -> & E')].
  - right. rewrite forallb_app in Hm. apply andb_true_iff in Hm as [_ Hm].
    destruct (name_unique name k0 post (bs "[scrubbed]" ++ out) (name_not_eq _ Hc) Hm E') as [_ ->]. eauto.
  - destruct (app_eq_inv _ _ _ _ E') as [(k2 & Ek & E2)|(k2 & -> & E2)]; [|left; by exists k2].
    destruct k2 as [|x k2] using rev_ind; [left; exists []; cbn [app] in *; congruence|]. exfalso.
    assert (Hx : bs "=[scrubbed" = k ++ k2 /\ "]"%byte = x).
    { apply app_inj_tail. rewrite <- app_assoc. exact Ek. }
    destruct Hx as [Ek2 <-]. rewrite <- app_assoc in E2. cbn [app] in E2. destruct k as [|y k].
    + cbn [app] in Ek2. subst k2. destruct name as [|z name]; [done|]. injection E2 as -> _. done.
    + injection Ek2 as _ Ek2. apply (no_name_over_bracket name k2 post out Hc); [|done].
      assert (F : forallb not_eq (k ++ k2) = true) by (by rewrite <- Ek2).
      rewrite forallb_app in F. by apply andb_true_iff in F as [_ F].
Qed.

(** Every sensitive parameter of the output is followed by the mark. *)
Lemma scrubbed_hides l out : scrubbed l out -> forall pre name post, sensitive name = true ->
  out = pre ++ name ++ "="%byte :: post -> exists post', post = bs "[scrubbed]" ++ post'.
Proof.
  induction 1 as [|nm value rest out Hs _ _ _ IH|c rest out Hc Hno Hr IH]; intros pre name post Hn E.
  { destruct pre, name; done. }
  - destruct (mark_hides nm out pre name post Hs Hn E) as [(p' & E')|H]; [by apply (IH p' name)|done].
  - destruct (app_eq_inv _ _ _ _ E) as [(k & -> & E')|(k & -> & E')]; [|by apply (IH k name)].
    destruct k as [|b k]; [by apply (IH [] name)|]. destruct name as [|b' name]; [done|]. injection E' as <- E'.
    pose proof (sensitive_chars _ Hn) as Hch. cbn [forallb] in Hch. apply andb_true_iff in Hch as [Hb Hch].
    destruct (name_char_not b' Hb) as (_ & _ & Hlt & Hnc). destruct pre as [|z pre].
    2: { destruct (char_ok_conts _ (length (z :: pre)) Hc) as (x & Hx & Hcont); [rewrite length_app; cbn; lia|].
         rewrite lookup_app_r, Nat.sub_diag in Hx by done. injection Hx as <-. congruence. }
    cbn [app] in *. rewrite (char_ok_head b' k Hc Hlt) in *. cbn [app] in *.
    destruct (scrubbed_head rest out Hr name post Hch (eq_sym E')) as [(r & ->)|H]; [|done].
    specialize (Hno (b' :: name) r eq_refl). congruence.
Qed.

(** ** The loop computes the relation *)

Lemma ignore_case_length a b : eq_ignore_ascii_case a b = true -> length a = length b.
Proof.
  intros E%bytes_eqb_eq. apply (f_equal length) in E. unfold to_ascii_lowercase in E. by rewrite !length_fmap in E.
Qed.

Lemma param_at_spec pre suf k : utf8_valid suf = true ->
  exists b, param_at (pre ++ suf) (length pre) k = Ok b /\
    (if b : bool then exists name rest, suf = name ++ "="%byte :: rest /\ length name = length k /\ eq_ignore_ascii_case name k = true
     else forall name rest, suf = name ++ "="%byte :: rest -> eq_ignore_ascii_case name k = false).
Proof.
  intros Hv. unfold param_at. rewrite str_slice_tail by done. cbn [mbind result_bind].
  assert (N : forall name rest, suf = name ++ "="%byte :: rest -> eq_ignore_ascii_case name k = true ->
    (length k + 1 <= length suf)%nat /\ suf !! length k = Some "="%byte /\ take (length k) suf = name).
  { intros name rest -> <-%ignore_case_length. rewrite length_app. cbn [length]. split_and!; [lia| |by rewrite take_app_length].
    by rewrite lookup_app_r, Nat.sub_diag by lia. }
  assert (F : forall name rest, (suf = name ++ "="%byte :: rest -> eq_ignore_ascii_case name k = true -> False) ->
    suf = name ++ "="%byte :: rest -> eq_ignore_ascii_case name k = false).
  { intros name rest H E. destruct (eq_ignore_ascii_case name k); [|done]. by destruct (H E). }
  destruct (Nat.leb_spec (length k + 1) (length suf)) as [Hl|Hl].
  2: { exists false. split; [done|]. intros name rest. apply F. intros E H. destruct (N _ _ E H). lia. }
  destruct (lookup_lt_is_Some_2 suf (length k) ltac:(lia)) as [b Hb].
  unfold index. rewrite lookup_app_r by lia. replace (length pre + length k - length pre)%nat with (length k) by lia. rewrite Hb.
  cbn [mbind result_bind]. destruct (Byte.eqb b "=") eqn:Eb.
  2: { exists false. split; [done|]. intros name rest. apply F. intros E H. destruct (N _ _ E H) as (_ & H2 & _).
       rewrite Hb in H2. injection H2 as ->. done. }
  apply byte_eqb_iff in Eb as ->.
  destruct (boundary_split suf (length k) Hv ltac:(lia) (ascii_boundary suf _ _ Hb ltac:(done))) as [_ Hd].
  pose proof (str_slice_app pre (take (length k) suf) (drop (length k) suf)) as Hsl.
  rewrite take_drop, length_take, Nat.min_l in Hsl by lia. rewrite Hsl by done. cbn [mbind result_bind]. eexists. split; [done|].
  destruct (eq_ignore_ascii_case (take (length k) suf) k) eqn:E.
  - exists (take (length k) suf), (drop (S (length k)) suf). rewrite length_take, <- (drop_S suf _ _ Hb), take_drop. split_and!; [done|lia|done].
  - intros name rest. apply F. intros E1 H. destruct (N _ _ E1 H) as (_ & _ & Et). rewrite Et in E. congruence.
Qed.

Lemma param_hit_spec pre suf ks : utf8_valid suf = true ->
  exists h, param_hit (pre ++ suf) (length pre) ks = Ok h /\
    match h with
    | Some nl => exists name rest, suf = name ++ "="%byte :: rest /\ nl = (length name + 1)%nat /\ existsb (eq_ignore_ascii_case name) ks = true
    | None => forall name rest, suf = name ++ "="%byte :: rest -> existsb (eq_ignore_ascii_case name) ks = false
    end.
Proof.
  intros Hv. induction ks as [|k ks IH]; cbn [param_hit]; [by exists None|].
  destruct (param_at_spec pre suf k Hv) as (b & -> & Hb). cbn [mbind result_bind]. destruct b.
  - destruct Hb as (name & rest & E & Hl & He). exists (Some (length k + 1)%nat). split; [done|]. exists name, rest.
    cbn [existsb]. by rewrite He, Hl.
  - destruct IH as (h & -> & Hh). exists h. split; [done|]. destruct h as [nl|].
    + destruct Hh as (name & rest & E & Hl & He). exists name, rest. cbn [existsb]. by rewrite He, orb_true_r.
    + intros name rest E. cbn [existsb]. by rewrite (Hb _ _ E), (Hh _ _ E).
Qed.

(** The value of a parameter runs to the next delimiter. *)
Lemma value_split rest : utf8_valid rest = true ->
  let stop := default (length rest) (position stop_mark rest) in
  (stop <= length rest)%nat /\ forallb (fun c => negb (stop_mark c)) (take stop rest) = true /\
  match drop stop rest with [] => True | c :: _ => stop_mark c = true end /\ utf8_valid (drop stop rest) = true.
Proof.
  intros Hv. destruct (position stop_mark rest) as [i|] eqn:E; cbn [default from_option id].
  - destruct (position_Some _ _ _ E) as (c & Hc & Hm & Ht). pose proof (lookup_lt_Some _ _ _ Hc).
    split_and!; [lia|done|by rewrite (drop_S rest c i Hc)|].
    apply (boundary_split rest i Hv); [lia|]. apply (ascii_boundary rest i c Hc).
    unfold stop_mark in Hm. apply orb_true_iff in Hm as [->%byte_eqb_iff| ->%byte_eqb_iff]; done.
  - rewrite drop_all, take_ge by lia. split_and!; [done| |done|done]. apply position_None in E. done.
Qed.

Lemma redact_loop_spec fuel : forall pre suf out, utf8_valid suf = true -> (length suf < fuel)%nat ->
  exists o, redact_loop fuel (pre ++ suf) (length pre) out = Ok (out ++ o) /\ scrubbed suf o.
Proof.
  induction fuel as [|fuel IH]; intros pre suf out Hv Hf; [lia|]. cbn [redact_loop].
  destruct (Nat.leb_spec (length (pre ++ suf)) (length pre)) as [Hl|Hl]; rewrite length_app in Hl.
  { destruct suf; [|cbn in Hl; lia]. exists []. rewrite app_nil_r. split; [done|constructor]. }
  destruct (param_hit_spec pre suf SENSITIVE_PARAMS Hv) as (h & -> & Hh). cbn [mbind result_bind]. destruct h as [nl|].
  - destruct Hh as (name & rest & -> & -> & Hs). fold (sensitive name) in Hs.
    assert (Hr : utf8_valid rest = true).
    { assert (Hn : utf8_valid name = true).
      { apply utf8_ascii. eapply forallb_weaken; [|apply (sensitive_chars name Hs)].
        intros b Hb. destruct (name_char_not b Hb) as (_ & _ & H & _). by apply Z.ltb_lt. }
      rewrite utf8_app in Hv by done. exact Hv. }
    assert (E : name ++ "="%byte :: rest = (name ++ bs "=") ++ rest) by (by rewrite <- app_assoc). rewrite E in Hv |- *.
    pose proof (str_slice_app pre (name ++ bs "=") rest Hv Hr) as S1. rewrite length_app in S1. cbn [length bs] in S1.
    change (length (bs "=")) with 1%nat in S1. rewrite S1. cbn [mbind result_bind].
    pose proof (str_slice_tail (pre ++ name ++ bs "=") rest Hr) as S2. rewrite <- app_assoc, !length_app in S2.
    change (length (bs "=")) with 1%nat in S2. rewrite !length_app. change (length (bs "=")) with 1%nat. rewrite S2. cbn [mbind result_bind].
    destruct (value_split rest Hr) as (Hle & H1 & H2 & H3). fold stop_mark. set (stop := default _ _) in *.
    assert (El : (length name + 1 + stop)%nat = length (name ++ bs "=" ++ take stop rest)).
    { rewrite !length_app, length_take. change (length (bs "=")) with 1%nat. lia. }
    destruct (IH (pre ++ name ++ bs "=" ++ take stop rest) (drop stop rest) (out ++ (name ++ bs "=") ++ bs "[scrubbed]")) as (o & Ho & Hsc).
    { done. }
    { rewrite length_app in Hf. cbn [length] in Hf. rewrite length_drop. lia. }
    exists (name ++ bs "=[scrubbed]" ++ o). split.
    + assert (Em : (pre ++ name ++ bs "=" ++ take stop rest) ++ drop stop rest = pre ++ (name ++ bs "=") ++ rest)
        by (rewrite <- !app_assoc, take_drop; done).
      rewrite Em, (length_app pre) in Ho. rewrite El, Ho. f_equal. by rewrite <- !app_assoc.
    + rewrite <- E. rewrite <- (take_drop stop rest) at 1. by apply scrubbed_param.
  - rewrite str_slice_tail by done. cbn [mbind result_bind]. destruct (char_first suf Hv) as (c & r & -> & Hc & Hr).
    { intros ->. cbn in Hl. lia. }
    rewrite (proj1 (char_ok_app c r Hc)). rewrite str_slice_app by done. cbn [mbind result_bind]. pose proof (char_ok_pos c Hc).
    destruct (IH (pre ++ c) r (out ++ c)) as (o & Ho & Hsc); [done|rewrite length_app in Hf; lia|].
    exists (c ++ o). rewrite <- app_assoc, length_app in Ho. rewrite Ho, <- app_assoc. split; [done|]. by apply scrubbed_char.
Qed.

(** ** Validity of the results *)

Lemma valid_split a c b : utf8_valid (a ++ c :: b) = true -> b2z c < 128 -> utf8_valid a = true /\ utf8_valid b = true.
Proof.
  intros Hv Hc. destruct (boundary_split _ (length a) Hv) as [H1 H2]; [rewrite length_app; lia| |].
  - apply (ascii_boundary _ _ c); [|done]. by rewrite lookup_app_r, Nat.sub_diag by lia.
  - rewrite take_app_length in H1. rewrite drop_app_length in H2. split; [done|].
    change (c :: b) with ([c] ++ b) in H2. rewrite utf8_app in H2; [done|]. cbn. by rewrite (proj2 (Z.ltb_lt _ _)).
Qed.

Lemma before_valid p l : utf8_valid l = true -> (forall c, p c = true -> b2z c < 128) -> utf8_valid (before p l) = true.
Proof.
  intros Hv Hp. assert (E : exists r, l = before p l ++ r /\ match r with [] => True | c :: _ => p c = true end).
  { clear Hv. induction l as [|c l (r & E & Hr)]; [by exists []|]. cbn [before]. destruct (p c) eqn:Ec; [by exists (c :: l)|].
    exists r. cbn. by rewrite <- E. }
  destruct E as ([|c r] & E & Hc); rewrite E in Hv.
  - by rewrite app_nil_r in Hv.
  - by apply (valid_split _ c r); [|apply Hp].
Qed.

Lemma has_prefix_app p l : has_prefix p l = true -> l = p ++ drop (length p) l.
Proof.
  revert l. induction p as [|a p IH]; intros l; [done|]. destruct l as [|b l]; [done|]. cbn [has_prefix].
  intros [->%byte_eqb_iff H]%andb_true_iff. cbn. by rewrite <- IH.
Qed.

Lemma split_once_Some p l a b : split_once p l = Some (a, b) -> l = a ++ p ++ b.
Proof.
  revert a b. induction l as [|c l IH]; intros a b; cbn [split_once]; destruct (has_prefix p _) eqn:E.
  - intros [= <- <-]. by apply has_prefix_app.
  - done.
  - intros [= <- <-]. by apply has_prefix_app.
  - destruct (split_once p l) as [[x y]|]; [|done]. intros [= <- <-]. cbn. by rewrite (IH x y).
Qed.

Lemma split_once_valid p l a b : utf8_valid l = true -> utf8_valid p = true -> p <> [] -> split_once p l = Some (a, b) ->
  utf8_valid a = true /\ utf8_valid b = true.
Proof.
  intros Hl Hp Hne ->%split_once_Some.
  assert (B : is_char_boundary (a ++ p ++ b) (length a) = true).
  { destruct p as [|x p]; [done|]. pose proof (valid_boundary a (x :: p) Hp) as B. unfold is_char_boundary in *.
    rewrite lookup_app_r, Nat.sub_diag in B |- * by lia. cbn [app lookup list_lookup] in *.
    destruct (Nat.eqb_spec (length a) (length (a ++ x :: p))) as [E|_]; [rewrite length_app in E; cbn in E; lia|].
    rewrite B. by destruct (_ =? _)%nat. }
  destruct (boundary_split (a ++ p ++ b) (length a) Hl ltac:(rewrite length_app; lia) B) as [H1 H2].
  rewrite take_app_length in H1. rewrite drop_app_length, utf8_app in H2 by done. done.
Qed.

Lemma rsplit_once_Some sep l a b : rsplit_once sep l = Some (a, b) -> l = a ++ sep :: b.
Proof.
  revert a b. induction l as [|c l IH]; intros a b; cbn [rsplit_once]; [done|].
  destruct (rsplit_once sep l) as [[x y]|].
  - intros [= <- <-]. cbn. by rewrite <- (IH x y).
  - destruct (Byte.eqb c sep) eqn:E; [|done]. apply byte_eqb_iff in E as ->. by intros [= <- <-].
Qed.

Lemma valid_app a b : utf8_valid a = true -> utf8_valid b = true -> utf8_valid (a ++ b) = true.
Proof. intros H1 H2. by rewrite utf8_app. Qed.

Lemma redact_url_valid url : utf8_valid url = true ->
  utf8_valid (redact_url_query url) = true /\ (length (chars (redact_url_query url)) <= MAX_CHARS + 2)%nat /\
  Forall (fun c => is_control c = false) (chars (redact_url_query url)).
Proof.
  intros Hv. unfold redact_url_query. fold query_mark.
  assert (Hb : utf8_valid (before query_mark url) = true).
  { apply before_valid; [done|]. intros c. unfold query_mark. by intros [->%byte_eqb_iff| ->%byte_eqb_iff]%orb_true_iff. }
  set (base2 := match split_once (bs "://") _ with Some _ => _ | None => _ end).
  assert (H2 : utf8_valid base2 = true).
  { unfold base2. destruct (split_once (bs "://") (before query_mark url)) as [[scheme rest]|] eqn:E1; [|done].
    destruct (split_once_valid (bs "://") _ _ _ Hb ltac:(done) ltac:(done) E1) as [Hs Hr].
    assert (HA : forall x, utf8_valid x = true -> utf8_valid (match rsplit_once "@" x with Some (_, h) => h | None => x end) = true).
    { intros x Hx. destruct (rsplit_once "@" x) as [[y h]|] eqn:Ex; [|done]. apply rsplit_once_Some in Ex as ->.
      by apply (valid_split y "@" h) in Hx as [_ Hx]. }
    destruct (split_once (bs "/") rest) as [[auth tail]|] eqn:E2.
    - destruct (split_once_valid (bs "/") _ _ _ Hr ltac:(done) ltac:(done) E2) as [Ha Ht].
      apply valid_app; [done|]. rewrite (utf8_app (bs "://")) by done. apply valid_app; [by apply HA|]. by rewrite utf8_app.
    - apply valid_app; [done|]. rewrite (utf8_app (bs "://")) by done. by apply HA. }
  pose proof (chars_concat _ (chars_ok_filter (fun c => negb (is_control c)) base2 H2)) as [Hf1 Hf2].
  destruct (bound_chars_ok _ Hf2) as [Ho1 Ho2]. split_and!; [done|done|].
  assert (Hc : Forall (fun c => is_control c = false) (List.filter (fun c => negb (is_control c)) (chars base2))).
  { apply list.Forall_forall. intros c [_ H]%list_elem_of_In%filter_In. by apply negb_true_iff. }
  unfold bound_chars. rewrite Hf1. destruct (_ <? _)%nat; [|by rewrite Hf1].
  assert (E : forall l, concat l ++ bs ".." = concat (l ++ [bs "."; bs "."])) by (intros l; by rewrite concat_app).
  rewrite E. destruct (chars_concat (take MAX_CHARS (List.filter (fun c => negb (is_control c)) (chars base2)) ++ [bs "."; bs "."])) as [-> _].
  - apply list.Forall_app. split; [by apply Forall_take, chars_ok_filter|]. by repeat constructor.
  - apply list.Forall_app. split; [by apply Forall_take|]. by repeat constructor.
Qed.

Lemma replace_valid p q : utf8_valid p = true -> utf8_valid q = true -> p <> [] ->
  forall l, utf8_valid l = true -> utf8_valid (replace p q l) = true.
Proof.
  intros Hp Hq Hne l. unfold replace. generalize (S (length l)) as fuel. intros fuel. revert l.
  induction fuel as [|fuel IH]; intros l Hl; cbn [replace_aux]; [done|].
  destruct (split_once p l) as [[a b]|] eqn:E; [|done]. destruct (split_once_valid p l a b Hl Hp Hne E) as [Ha Hb].
  apply valid_app; [done|]. apply valid_app; [done|]. by apply IH.
Qed.

(** ** Theorems *)

Section scrub.
Context (parsed_url : bytes -> option bytes).
(** The URL library renders a URL it parses as a string that is not empty. *)
Context (rendered : forall u d, parsed_url u = Some d -> utf8_valid d = true /\ d <> []).

Lemma scrub_url_valid msg url : utf8_valid msg = true -> utf8_valid url = true ->
  utf8_valid (scrub_url_from_message parsed_url msg url) = true.
Proof using rendered.
  intros Hm Hu. unfold scrub_url_from_message. destruct (bytes_eqb msg []) eqn:E1; [done|]. destruct (bytes_eqb url []) eqn:E2; [done|].
  cbn [orb]. destruct (bytes_eqb (redact_url_query url) url); [done|]. destruct (redact_url_valid url Hu) as (Hr & _).
  assert (Ho : utf8_valid (replace url (redact_url_query url) msg) = true).
  { apply replace_valid; try done. intros ->. done. }
  destruct (parsed_url url) as [d|] eqn:Ed; [|done]. destruct (rendered url d Ed) as [Hd Hne].
  destruct (_ && _); [|done]. by apply replace_valid.
Qed.

Lemma scrub_spec msg full_url base_url :
  utf8_valid msg = true -> utf8_valid full_url = true -> utf8_valid base_url = true ->
  exists twice out, scrub_announce_error parsed_url msg full_url base_url = Ok out /\ scrubbed twice out.
Proof using rendered.
  intros H1 H2 H3. unfold scrub_announce_error, redact_param_values.
  pose proof (scrub_url_valid _ base_url (scrub_url_valid msg full_url H1 H2) H3) as Hv.
  destruct (redact_loop_spec (S (length (scrub_url_from_message parsed_url (scrub_url_from_message parsed_url msg full_url) base_url)))
    [] _ [] Hv ltac:(lia)) as (o & Ho & Hs). by eexists _, o.
Qed.

(** Credentials in announce errors.  Whatever text comes back, the scrubbing ends without a
    panic on any string, and in what is left every parameter whose name is sensitive (in any
    letter case) is followed by the mark instead of its value. *)
Lemma announce_errors_scrubbed msg full_url base_url :
  utf8_valid msg = true -> utf8_valid full_url = true -> utf8_valid base_url = true ->
  exists out, scrub_announce_error parsed_url msg full_url base_url = Ok out /\
    forall pre name post, sensitive name = true -> out = pre ++ name ++ "="%byte :: post ->
      exists post', post = bs "[scrubbed]" ++ post'.
Proof using rendered.
  intros H1 H2 H3. destruct (scrub_spec msg full_url base_url H1 H2 H3) as (t & o & Ho & Hs). exists o. split; [exact Ho|].
  exact (scrubbed_hides _ _ Hs).
Qed.
End scrub.

Lemma announce_errors_scrubbed_witness :
  exists out, scrub_announce_error (fun _ => None) (bs "for url http://t/a?PassKey=secret&x=1") (bs "http://t/b") (bs "http://t/a") = Ok out /\
    forall pre name post, sensitive name = true -> out = pre ++ name ++ "="%byte :: post ->
      exists post', post = bs "[scrubbed]" ++ post'.
Proof. apply announce_errors_scrubbed; [done|by vm_compute..]. Defined.

(** Tracker URLs in logs.  The displayed form of a URL has at most 514 characters and no
    control character, and it is the same whatever user information the authority carries
    and whatever query or fragment follows: those never reach the log. *)
Lemma url_redaction_hides scheme userinfo rest mark query :
  without (bs ":?#") scheme = true -> without (bs "/?#") userinfo = true -> without (bs "?#") rest = true ->
  query_mark mark = true -> utf8_valid scheme = true -> utf8_valid rest = true ->
  let shown := redact_url_query (scheme ++ bs "://" ++ userinfo ++ bs "@" ++ rest ++ mark :: query) in
  shown = redact_url_query (scheme ++ bs "://" ++ rest) /\
  (length (chars shown) <= MAX_CHARS + 2)%nat /\ Forall (fun c => is_control c = false) (chars shown).
Proof.
  intros H1 H2 H3 H4 H5 H6 shown. unfold shown. rewrite redact_drops by done. split; [done|].
  destruct (redact_url_valid (scheme ++ bs "://" ++ rest)) as (_ & Hl & Hc); [|done].
  apply valid_app; [done|]. by rewrite utf8_app.
Qed.

Lemma url_redaction_hides_witness :
  let shown := redact_url_query (bs "http" ++ bs "://" ++ bs "me:pw" ++ bs "@" ++ bs "host:80/a" ++ "?"%byte :: bs "passkey=k") in
  shown = redact_url_query (bs "http" ++ bs "://" ++ bs "host:80/a") /\
  (length (chars shown) <= MAX_CHARS + 2)%nat /\ Forall (fun c => is_control c = false) (chars shown).
Proof. by apply url_redaction_hides. Defined.
