(* ===== verification/Magnet.v ===== *)
(** * Magnet links: [src/src/magnet.rs]

    The parser of [magnet:?] URIs with its percent, hex and base32 decoders.
    Strings are UTF-8 bytes. *)

From Stdlib Require Import ZArith Lia String Strings.Byte.
From stdpp Require Import base tactics numbers list option.
From S2P Require Import Prelude Paths Text.

#[local] Set Warnings "-register-all".

(** ** Decoders *)

Definition hex_nibble (c : byte) : result Z :=
  if between 48 57 c then Ok (b2z c - 48)
  else if between 97 102 c then Ok (10 + b2z c - 97)
  else if between 65 70 c then Ok (10 + b2z c - 65)
  else Err (EBencode "non-hex char in info_hash").

(** [(hi << 4) | lo] on [u8]. *)
Definition nibble_pair (hi lo : Z) : byte := z2b (Z.lor (wrap 8 (Z.shiftl hi 4)) lo).

(** The loop over the chunks; [out[i]] panics outside the array. *)
Fixpoint hex_chunks (chunks : list bytes) (i : nat) (out : bytes) : result bytes :=
  match chunks with
  | [] => Ok out
  | chunk :: chunks =>
      c0 ← index chunk 0;
      c1 ← index chunk 1;
      hi ← hex_nibble c0;
      lo ← hex_nibble c1;
      out ← set_index out i (nibble_pair hi lo);
      hex_chunks chunks (S i) out
  end.

Definition parse_hex_20 (s : bytes) : result bytes := hex_chunks (as_chunks 2 s) 0 (replicate 20 x00).

Definition base32_value (c : byte) : result Z :=
  if between 65 90 c then Ok (b2z c - 65)
  else if between 97 122 c then Ok (b2z c - 97)
  else if between 50 55 c then Ok (26 + (b2z c - 50))
  else Err (EBencode "non-base32 char in info_hash").

(** The loop: [bit_buf] is a [u32] that drops what is shifted out. *)
Fixpoint base32_loop (l : bytes) (bit_buf bits : Z) (out_idx : nat) (out : bytes) : result (nat * bytes) :=
  match l with
  | [] => Ok (out_idx, out)
  | c :: l =>
      v ← base32_value c;
      let bit_buf := Z.lor (wrap 32 (Z.shiftl bit_buf 5)) v in
      let bits := bits + 5 in
      if 8 <=? bits then
        let bits := bits - 8 in
        out ← set_index out out_idx (z2b (Z.land (Z.shiftr bit_buf bits) 255));
        base32_loop l bit_buf bits (S out_idx) out
      else base32_loop l bit_buf bits out_idx out
  end.

Definition parse_base32_20 (s : bytes) : result bytes :=
  '(out_idx, out) ← base32_loop s 0 0 0 (replicate 20 x00);
  if negb (out_idx =? 20)%nat then Err (EBencode "base32 info_hash decoded to the wrong length") else Ok out.

Definition parse_info_hash (s : bytes) : result bytes :=
  if (length s =? 40)%nat then parse_hex_20 s
  else if (length s =? 32)%nat then parse_base32_20 s
  else Err (EBencode "info_hash must be 40 hex chars or 32 base32 chars").

(** The [while] loop of [percent_decode] at byte [i]; every turn moves forward. *)
Fixpoint percent_loop (fuel : nat) (b : bytes) (i : nat) (out : bytes) : result bytes :=
  match fuel with
  | O => NoFuel
  | S fuel =>
      if (i <? length b)%nat then
        c ← index b i;
        if Byte.eqb c "%" then
          if (length b <=? i + 2)%nat then Err (EBencode "truncated %XX escape")
          else
            c1 ← index b (i + 1);
            c2 ← index b (i + 2);
            hi ← hex_nibble c1;
            lo ← hex_nibble c2;
            percent_loop fuel b (i + 3) (out ++ [nibble_pair hi lo])
        else percent_loop fuel b (i + 1) (out ++ [c])
      else Ok out
  end.

Definition percent_decode (s : bytes) : result bytes := percent_loop (S (length s)) s 0 [].

(** ** The link *)

Record MagnetLink := mkMagnet {
  ml_info_hash : bytes;
  ml_display_name : option bytes;
  ml_trackers : list bytes
}.

Definition MAX_TRACKERS : nat := 64.

(** [str::from_utf8] *)
Definition from_utf8 (b : bytes) (e : Error) : result bytes := if utf8_valid b then Ok b else Err e.

(** One [key=value] pair of the query. *)
Definition parse_pair (acc : option bytes * option bytes * list bytes) (pair : bytes) : result (option bytes * option bytes * list bytes) :=
  let '(info_hash, display_name, trackers) := acc in
  if (length pair =? 0)%nat then Ok acc
  else
    '(k, v) ← ok_or (split_once (bs "=") pair) (EBencode "magnet param missing `=`");
    decoded ← percent_decode v;
    if bytes_eqb k (bs "xt") then
      s ← from_utf8 decoded (EBencode "magnet xt not utf-8");
      hash_str ← (if has_prefix (bs "urn:btih:") s then Ok (drop (length (bs "urn:btih:")) s)
                  else Err (EBencode "xt missing urn:btih: prefix"));
      h ← parse_info_hash hash_str;
      Ok (Some h, display_name, trackers)
    else if bytes_eqb k (bs "dn") then
      s ← from_utf8 decoded (EBencode "magnet dn not utf-8");
      Ok (info_hash, Some s, trackers)
    else if bytes_eqb k (bs "tr") then
      s ← from_utf8 decoded (EBencode "magnet tr not utf-8");
      Ok (info_hash, display_name, trackers ++ [s])
    else Ok acc.

Fixpoint parse_pairs (pairs : list bytes) (acc : option bytes * option bytes * list bytes) : result (option bytes * option bytes * list bytes) :=
  match pairs with
  | [] => Ok acc
  | p :: pairs => acc ← parse_pair acc p; parse_pairs pairs acc
  end.

(** [retain] with a set of what was seen: first occurrences, in order. *)
Fixpoint dedup (seen l : list bytes) : list bytes :=
  match l with
  | [] => []
  | t :: l => if existsb (bytes_eqb t) seen then dedup seen l else t :: dedup (t :: seen) l
  end.

Definition parse (uri : bytes) : result MagnetLink :=
  query ← (if has_prefix (bs "magnet:?") uri then Ok (drop (length (bs "magnet:?")) uri)
           else Err (EBencode "magnet URI must start with `magnet:?`"));
  '(info_hash, display_name, trackers) ← parse_pairs (split_on "&" query) (None, None, []);
  ih ← ok_or info_hash (EBencode "magnet URI missing required xt=urn:btih:");
  Ok (mkMagnet ih display_name (take MAX_TRACKERS (dedup [] trackers))).

(** ** The decoders never panic *)

Lemma hex_nibble_range c : returns (hex_nibble c) = true /\ forall v, hex_nibble c = Ok v -> 0 <= v < 16.
Proof.
  unfold hex_nibble, between. repeat (match goal with |- context [if ?b then _ else _] => destruct b eqn:? end;
    [split; [done|]; intros v [= <-]; lia|]). by split.
Qed.

Lemma hex_chunks_ok chunks : Forall (fun c => length c = 2%nat) chunks -> forall i out, (i + length chunks <= length out)%nat ->
  returns (hex_chunks chunks i out) = true /\ forall r, hex_chunks chunks i out = Ok r -> length r = length out.
Proof.
  induction 1 as [|c chunks Hc _ IH]; intros i out Hi; cbn [hex_chunks]; [split; [done|]; by intros r [= <-]|].
  destruct c as [|c0 [|c1 [|? ?]]]; try done. change (index [c0; c1] 0) with (Ok c0).
  change (index [c0; c1] 1) with (Ok c1). cbn [mbind result_bind].
  pose proof (proj1 (hex_nibble_range c0)). destruct (hex_nibble c0) as [hi|e| |]; try done. cbn [mbind result_bind].
  pose proof (proj1 (hex_nibble_range c1)). destruct (hex_nibble c1) as [lo|e| |]; try done. cbn [mbind result_bind].
  cbn [length] in Hi. rewrite set_index_Ok by lia. cbn [mbind result_bind]. destruct (IH (S i) (<[i:=nibble_pair hi lo]> out)) as [H1 H2];
    [rewrite length_insert; lia|]. split; [done|]. intros r Hr. by rewrite (H2 r Hr), length_insert.
Qed.

Lemma base32_value_range c : returns (base32_value c) = true /\ forall v, base32_value c = Ok v -> 0 <= v < 32.
Proof.
  unfold base32_value, between. repeat (match goal with |- context [if ?b then _ else _] => destruct b eqn:? end;
    [split; [done|]; intros v [= <-]; lia|]). by split.
Qed.

(** The number the characters spell in base 32. *)
Fixpoint base32_number (l : bytes) (acc : Z) : result Z :=
  match l with
  | [] => Ok acc
  | c :: l => v ← base32_value c; base32_number l (acc * 32 + v)
  end.

(** The bytes written so far are the number read so far without its last [bits] bits, and
    the buffer is that number in 32 bits. *)
Definition base32_inv (n bits : Z) (out_idx : nat) (out : bytes) : Prop :=
  0 <= n /\ 0 <= bits < 8 /\ (out_idx <= length out)%nat /\ from_be (take out_idx out) = n / 2 ^ bits.

Lemma base32_buffer n v : 0 <= v < 32 -> Z.lor (wrap 32 (Z.shiftl (wrap 32 n) 5)) v = wrap 32 (n * 32 + v).
Proof.
  intros Hv. unfold wrap. rewrite Z.shiftl_mul_pow2 by lia.
  assert (L : Z.land (n mod 2 ^ 32 * 2 ^ 5 mod 2 ^ 32) v = 0).
  { apply Z.bits_inj'. intros i Hi. rewrite Z.land_spec, Z.bits_0. destruct (Z.ltb_spec i 5) as [H|H].
    - rewrite Z.mod_pow2_bits_low, Z.mul_pow2_bits_low by lia. done.
    - rewrite <- (Z.mod_small v (2 ^ 5)) by lia. rewrite (Z.mod_pow2_bits_high v 5 i) by lia. apply andb_false_r. }
  rewrite <- Z.lxor_lor, <- Z.add_nocarry_lxor by done. rewrite Zmult_mod_idemp_l.
  change (2 ^ 5) with 32. change (2 ^ 32) with (134217728 * 32). rewrite Zmult_mod_distr_r.
  pose proof (Z.div_mod n 134217728 ltac:(lia)). pose proof (Z.mod_pos_bound n 134217728 ltac:(lia)).
  apply Z.mod_unique with (q := n / 134217728); lia.
Qed.

Lemma low_byte n k : 0 <= k <= 24 -> b2z (z2b (Z.land (Z.shiftr (wrap 32 n) k) 255)) = (n / 2 ^ k) mod 256.
Proof.
  intros Hk. change 255 with (Z.ones 8). rewrite Z.land_ones by lia. change (2 ^ 8) with 256. rewrite b2z_z2b, Z.mod_mod by lia.
  change 256 with (2 ^ 8). apply Z.bits_inj'. intros i Hi. destruct (Z.ltb_spec i 8) as [H|H].
  - rewrite !Z.mod_pow2_bits_low by lia. rewrite Z.shiftr_spec by lia. unfold wrap. rewrite Z.mod_pow2_bits_low by lia.
    by rewrite Z.div_pow2_bits by lia.
  - by rewrite !Z.mod_pow2_bits_high by lia.
Qed.

Lemma from_be_snoc l b : from_be (l ++ [b]) = from_be l * 256 + b2z b.
Proof. unfold from_be. by rewrite fold_left_app. Qed.

Lemma base32_step n v bits out_idx out : base32_inv n bits out_idx out -> 0 <= v < 32 ->
  let n' := n * 32 + v in
  Z.lor (wrap 32 (Z.shiftl (wrap 32 n) 5)) v = wrap 32 n' /\
  (8 <= bits + 5 -> (out_idx < length out)%nat ->
   base32_inv n' (bits + 5 - 8) (S out_idx) (<[out_idx := z2b (Z.land (Z.shiftr (wrap 32 n') (bits + 5 - 8)) 255)]> out)) /\
  (bits + 5 < 8 -> base32_inv n' (bits + 5) out_idx out).
Proof.
  intros (Hn & Hb & Hi & Ho) Hv n'. split_and!.
  - by apply base32_buffer.
  - intros H8 Hlt. split_and!; [lia|lia|lia|rewrite length_insert; lia|].
    rewrite (take_S_r _ _ (z2b (Z.land (Z.shiftr (wrap 32 n') (bits + 5 - 8)) 255))) by (by rewrite list_lookup_insert_eq).
    rewrite take_insert_ge by lia. rewrite from_be_snoc, Ho, low_byte by lia.
    assert (E : n / 2 ^ bits = n' / 2 ^ (bits + 5 - 8) / 256).
    { change 256 with (2 ^ 8). rewrite Z.div_div by lia. rewrite <- Z.pow_add_r by lia. replace (bits + 5 - 8 + 8) with (5 + bits) by lia.
      rewrite Z.pow_add_r by lia. rewrite <- Z.div_div by lia. f_equal. unfold n'. change (2 ^ 5) with 32. 
      rewrite Z.div_add_l by lia. rewrite Z.div_small by lia. lia. }
    rewrite E. pose proof (Z.div_mod (n' / 2 ^ (bits + 5 - 8)) 256 ltac:(lia)). lia.
  - intros H8. split_and!; [lia|lia|lia|done|]. rewrite Ho. rewrite Z.add_comm, Z.pow_add_r by lia. rewrite <- Z.div_div by lia.
    f_equal. unfold n'. change (2 ^ 5) with 32. rewrite Z.div_add_l by lia. rewrite Z.div_small by lia. lia.
Qed.

Lemma base32_loop_ok l : forall n bits out_idx out, base32_inv n bits out_idx out ->
  8 * Z.of_nat out_idx + bits + 5 * Z.of_nat (length l) <= 8 * Z.of_nat (length out) + 7 ->
  match base32_number l n with
  | Ok m => exists bits' idx' out', base32_loop l (wrap 32 n) bits out_idx out = Ok (idx', out') /\ base32_inv m bits' idx' out' /\
      8 * Z.of_nat idx' + bits' = 8 * Z.of_nat out_idx + bits + 5 * Z.of_nat (length l) /\ length out' = length out
  | Err e => base32_loop l (wrap 32 n) bits out_idx out = Err e
  | _ => False
  end.
Proof.
  induction l as [|c l IH]; intros n bits idx out Hinv Hsz; cbn [base32_number base32_loop].
  { exists bits, idx, out. split_and!; try done. cbn. lia. }
  pose proof (base32_value_range c) as [Hr Hv]. destruct (base32_value c) as [v|e| |]; try done. cbn [mbind result_bind].
  specialize (Hv v eq_refl). destruct (base32_step n v bits idx out Hinv Hv) as (-> & H1 & H2).
  destruct Hinv as (Hn & Hb & Hi & Ho). cbn [length] in Hsz. destruct (Z.leb_spec 8 (bits + 5)) as [H8|H8].
  - assert (Hlt : (idx < length out)%nat) by lia. rewrite set_index_Ok by done. cbn [mbind result_bind].
    specialize (IH _ _ _ _ (H1 H8 Hlt)). rewrite length_insert in IH. specialize (IH ltac:(lia)).
    destruct (base32_number l (n * 32 + v)) as [m|e| |]; try done. destruct IH as (b' & i' & o' & E & Hinv & Hs & Hl).
    exists b', i', o'. split_and!; [done|done|cbn [length]; lia|done].
  - specialize (IH _ _ _ _ (H2 ltac:(lia)) ltac:(lia)). destruct (base32_number l (n * 32 + v)) as [m|e| |]; try done.
    destruct IH as (b' & i' & o' & E & Hinv & Hs & Hl). exists b', i', o'. split_and!; [done|done|cbn [length]; lia|done].
Qed.

(** Thirty-two base32 characters are the twenty bytes of the number they spell. *)
Lemma parse_base32_spec s : length s = 32%nat ->
  match base32_number s 0 with
  | Ok m => exists out, parse_base32_20 s = Ok out /\ length out = 20%nat /\ from_be out = m
  | Err e => parse_base32_20 s = Err e
  | _ => False
  end.
Proof.
  intros Hs. pose proof (base32_loop_ok s 0 0 0 (replicate 20 x00)) as H. rewrite Hs, length_replicate in H.
  unfold parse_base32_20. change (wrap 32 0) with 0 in H.
  specialize (H ltac:(split_and!; [lia|lia|lia|lia|done]) ltac:(lia)).
  destruct (base32_number s 0) as [m|e| |]; [|by rewrite H|done|done]. destruct H as (b & i & out & -> & (_ & Hb & _ & Ho) & Hsz & Hl).
  cbn [mbind result_bind]. assert (i = 20%nat) as -> by lia. assert (b = 0) as -> by lia. cbn [Nat.eqb negb].
  exists out. split_and!; [done|done|]. rewrite take_ge in Ho by lia. by rewrite Ho, Z.pow_0_r, Z.div_1_r.
Qed.

Lemma parse_info_hash_ok s : returns (parse_info_hash s) = true /\ forall h, parse_info_hash s = Ok h -> length h = 20%nat.
Proof.
  unfold parse_info_hash. destruct (Nat.eqb_spec (length s) 40) as [H40|_].
  - unfold parse_hex_20. pose proof (as_chunks_len 2 s) as F.
    destruct (hex_chunks_ok _ F 0 (replicate 20 x00)) as [H1 H2].
    { unfold as_chunks. rewrite length_replicate, length_fmap, length_seq, H40. done. }
    split; [done|]. intros h Hh. by rewrite (H2 h Hh), length_replicate.
  - destruct (Nat.eqb_spec (length s) 32) as [H32|_]; [|done]. pose proof (parse_base32_spec s H32) as H.
    destruct (base32_number s 0) as [m|e| |]; try done; [|by rewrite H]. destruct H as (out & -> & Hl & _).
    split; [done|]. by intros h [= <-].
Qed.

Lemma percent_loop_returns fuel : forall b i out, (i <= length b < i + fuel)%nat -> returns (percent_loop fuel b i out) = true.
Proof.
  induction fuel as [|fuel IH]; intros b i out Hf; [lia|]. cbn [percent_loop]. destruct (Nat.ltb_spec i (length b)) as [Hi|Hi]; [|done].
  destruct (index_lt b i Hi) as [c ->]. cbn [mbind result_bind]. destruct (Byte.eqb c "%"); [|apply IH; lia].
  destruct (Nat.leb_spec (length b) (i + 2)) as [|H2]; [done|].
  destruct (index_lt b (i + 1)) as [c1 ->]; [lia|]. destruct (index_lt b (i + 2)) as [c2 ->]; [lia|]. cbn [mbind result_bind].
  pose proof (proj1 (hex_nibble_range c1)). destruct (hex_nibble c1); try done. cbn [mbind result_bind].
  pose proof (proj1 (hex_nibble_range c2)). destruct (hex_nibble c2); try done. cbn [mbind result_bind]. apply IH. lia.
Qed.

(** The links found so far, with every text valid. *)
Definition acc_ok (acc : option bytes * option bytes * list bytes) : Prop :=
  (forall h, acc.1.1 = Some h -> length h = 20%nat) /\ (forall n, acc.1.2 = Some n -> utf8_valid n = true) /\
  Forall (fun t => utf8_valid t = true) acc.2.

Lemma parse_pair_ok acc pair : acc_ok acc -> returns (parse_pair acc pair) = true /\
  forall acc', parse_pair acc pair = Ok acc' -> acc_ok acc'.
Proof.
  destruct acc as [[ih dn] tr]. intros (H1 & H2 & H3). cbn [fst snd] in *. unfold parse_pair, from_utf8.
  destruct (length pair =? 0)%nat; [by split; [|intros ? [= <-]]|].
  destruct (split_once (bs "=") pair) as [[k v]|]; [|done]. cbn [ok_or mbind result_bind].
  pose proof (percent_loop_returns (S (length v)) v 0 [] ltac:(lia)) as Hp. unfold percent_decode.
  destruct (percent_loop _ v 0 []) as [d|e| |]; try done. cbn [mbind result_bind].
  destruct (bytes_eqb k (bs "xt")); [|destruct (bytes_eqb k (bs "dn")); [|destruct (bytes_eqb k (bs "tr"))]].
  - destruct (utf8_valid d); [|done]. cbn [mbind result_bind]. destruct (has_prefix _ d); [|done]. cbn [mbind result_bind].
    destruct (parse_info_hash_ok (drop (length (bs "urn:btih:")) d)) as [R L]. destruct (parse_info_hash _) as [h|e| |]; try done.
    cbn [mbind result_bind]. split; [done|]. intros acc' [= <-]. split_and!; [|done|done]. cbn. intros h' [= <-]. by apply L.
  - destruct (utf8_valid d) eqn:Eu; [|done]. cbn. split; [done|]. intros acc' [= <-]. split_and!; [done| |done]. cbn. by intros n [= <-].
  - destruct (utf8_valid d) eqn:Eu; [|done]. cbn. split; [done|]. intros acc' [= <-]. split_and!; [done|done|]. cbn.
    apply list.Forall_app. split; [done|]. by apply list.Forall_singleton.
  - split; [done|]. by intros acc' [= <-].
Qed.

Lemma parse_pairs_ok pairs : forall acc, acc_ok acc -> returns (parse_pairs pairs acc) = true /\
  forall acc', parse_pairs pairs acc = Ok acc' -> acc_ok acc'.
Proof.
  induction pairs as [|p pairs IH]; intros acc Ha; cbn [parse_pairs]; [by split; [|intros ? [= <-]]|].
  destruct (parse_pair_ok acc p Ha) as [R L]. destruct (parse_pair acc p) as [acc1|e| |]; try done. cbn [mbind result_bind].
  apply IH. by apply L.
Qed.

Lemma existsb_bytes_In t l : existsb (bytes_eqb t) l = true <-> t ∈ l.
Proof.
  rewrite existsb_exists. split.
  - intros (x & Hx & ->%bytes_eqb_eq). by apply list_elem_of_In.
  - intros H%list_elem_of_In. exists t. by rewrite bytes_eqb_refl.
Qed.

(** The trackers kept: each one once. *)
Lemma dedup_spec l : forall seen, NoDup (dedup seen l) /\ (forall t, t ∈ dedup seen l <-> t ∈ l /\ t ∉ seen).
Proof.
  induction l as [|x l IH]; intros seen; cbn [dedup].
  { split; [constructor|]. intros t. split; [intros []%not_elem_of_nil|intros [[]%not_elem_of_nil _]]. }
  destruct (existsb (bytes_eqb x) seen) eqn:E.
  - apply existsb_bytes_In in E. destruct (IH seen) as (H1 & H2). split; [done|]. intros t. rewrite H2, elem_of_cons.
    split; [tauto|]. intros [[->|Ht] Hs]; [done|tauto].
  - assert (Hx : x ∉ seen) by (intros H%existsb_bytes_In; congruence). destruct (IH (x :: seen)) as (H1 & H2). split.
    + apply list.NoDup_cons. split; [|done]. rewrite H2, elem_of_cons. tauto.
    + intros t. rewrite !elem_of_cons, H2, elem_of_cons. split.
      * intros [->|[Ht Hs]]; [tauto|]. split; [by right|]. intros H. apply Hs. by right.
      * intros [[->|Ht] Hs]; [by left|]. destruct (decide (t = x)) as [->|Hn]; [by left|]. right. split; [done|]. by intros [|].
Qed.

(** ** Links are read back *)

Lemma hex_nibble_digit c v : hex_digit c = Some v -> hex_nibble c = Ok v.
Proof.
  unfold hex_digit, hex_nibble. intros H. repeat (match goal with |- context [if ?b then _ else _] => destruct b end;
    [injection H as <-; f_equal; lia|]). done.
Qed.

Lemma nibble_pair_byte b : nibble_pair (b2z b / 16) (b2z b mod 16) = b.
Proof. destruct b; vm_compute; reflexivity. Qed.

Lemma index_mid {A} (a b : list A) x : index (a ++ x :: b) (length a) = Ok x.
Proof. apply index_Some. by apply list_lookup_middle. Qed.

(** Percent-decoding undoes the percent-encoding of announce URLs. *)
Lemma percent_loop_encoded b : forall fuel pre out, (length (percent_encode b) < fuel)%nat ->
  percent_loop fuel (pre ++ percent_encode b) (length pre) out = Ok (out ++ b).
Proof.
  induction b as [|x b IH]; intros [|fuel] pre out Hf; try lia.
  { cbn [percent_encode flat_map]. rewrite !app_nil_r. cbn [percent_loop]. by rewrite Nat.ltb_irrefl. }
  destruct (nibbles x) as (H1 & H2 & _). cbn [percent_loop].
  assert (P : percent_encode (x :: b) = (if between 48 57 x || between 65 90 x || between 97 122 x
       || Byte.eqb x "-" || Byte.eqb x "_" || Byte.eqb x "." || Byte.eqb x "~"
    then [x] else ["%"%byte; hex_upper (b2z x / 16); hex_upper (b2z x mod 16)]) ++ percent_encode b) by done.
  rewrite P in Hf |- *. destruct (_ || Byte.eqb x "~") eqn:E; cbn [app] in Hf |- *; rewrite length_app; cbn [length] in Hf |- *.
  - rewrite (proj2 (Nat.ltb_lt _ _)) by lia. rewrite index_mid.
    cbn [mbind result_bind]. destruct (Byte.eqb x "%") eqn:Ep; [apply byte_eqb_iff in Ep as ->; done|].
    specialize (IH fuel (pre ++ [x]) (out ++ [x]) ltac:(lia)). rewrite length_app, <- !app_assoc in IH. exact IH.
  - rewrite (proj2 (Nat.ltb_lt _ _)) by lia. set (l := pre ++ _ :: _ :: _ :: _).
    assert (L : forall k c, ("%"%byte :: hex_upper (b2z x / 16) :: hex_upper (b2z x mod 16) :: percent_encode b) !! k = Some c ->
      index l (length pre + k) = Ok c).
    { intros k c Hk. apply index_Some. unfold l. rewrite lookup_app_r by lia. by replace (length pre + k - length pre)%nat with k by lia. }
    rewrite (index_mid pre _ "%"%byte : index l (length pre) = _). cbn [mbind result_bind].
    rewrite (proj2 (byte_eqb_iff "%" "%") eq_refl). 
    rewrite (proj2 (Nat.leb_gt _ _)) by lia.
    rewrite (L 1%nat (hex_upper (b2z x / 16))), (L 2%nat (hex_upper (b2z x mod 16))) by done. cbn [mbind result_bind].
    rewrite (hex_nibble_digit _ _ (hex_upper_digit _ H1)), (hex_nibble_digit _ _ (hex_upper_digit _ H2)). cbn [mbind result_bind].
    rewrite nibble_pair_byte. specialize (IH fuel (pre ++ ["%"%byte; hex_upper (b2z x / 16); hex_upper (b2z x mod 16)]) (out ++ [x]) ltac:(lia)).
    rewrite length_app, <- !app_assoc in IH. exact IH.
Qed.

Lemma percent_roundtrip b : percent_decode (percent_encode b) = Ok b.
Proof. exact (percent_loop_encoded b (S (length (percent_encode b))) [] [] ltac:(lia)). Qed.

Lemma percent_loop_plain b : without ["%"%byte] b = true -> forall fuel pre out, (length b < fuel)%nat ->
  percent_loop fuel (pre ++ b) (length pre) out = Ok (out ++ b).
Proof.
  induction b as [|x b IH]; intros Hb [|fuel] pre out Hf; try (cbn in Hf; lia); cbn [percent_loop].
  { rewrite !app_nil_r. by rewrite Nat.ltb_irrefl. }
  apply without_cons in Hb as (Hx & _ & Hb). cbn [length] in Hf. rewrite length_app. cbn [length]. rewrite (proj2 (Nat.ltb_lt _ _)) by lia.
  rewrite index_mid. cbn [mbind result_bind]. rewrite Hx.
  specialize (IH Hb fuel (pre ++ [x]) (out ++ [x]) ltac:(lia)). rewrite length_app, <- !app_assoc in IH. exact IH.
Qed.

Lemma percent_plain b : without ["%"%byte] b = true -> percent_decode b = Ok b.
Proof. intros H. exact (percent_loop_plain b H (S (length b)) [] [] ltac:(lia)). Qed.

Lemma hex_chunks_hex ih : forall i out, (i + length ih <= length out)%nat ->
  hex_chunks ((fun x => [hex_lower (b2z x / 16); hex_lower (b2z x mod 16)]) <$> ih) i out
  = Ok (take i out ++ ih ++ drop (i + length ih) out).
Proof.
  induction ih as [|x ih IH]; intros i out Hl; cbn [fmap list_fmap hex_chunks length] in *.
  { cbn [app]. by rewrite Nat.add_0_r, take_drop. }
  destruct (nibbles x) as (H1 & H2 & _). rewrite index_cons. change (index [?a; ?b] 1) with (Ok b). cbn [mbind result_bind].
  rewrite (hex_nibble_digit _ _ (proj1 (hex_lower_digit _ H1))), (hex_nibble_digit _ _ (proj1 (hex_lower_digit _ H2))). cbn [mbind result_bind].
  rewrite nibble_pair_byte, set_index_Ok by lia. cbn [mbind result_bind]. unfold fmap in IH. rewrite IH by (rewrite length_insert; lia).
  rewrite (take_S_r _ _ x) by (by rewrite list_lookup_insert_eq by lia). rewrite take_insert_ge by lia. rewrite drop_insert_lt by lia.
  rewrite <- app_assoc. cbn [app]. by replace (i + S (length ih))%nat with (S i + length ih)%nat by lia.
Qed.

Lemma parse_info_hash_hex ih : length ih = 20%nat -> parse_info_hash (hex ih) = Ok ih.
Proof.
  intros Hl. unfold parse_info_hash. rewrite length_hex, Hl. cbn [Nat.mul Nat.add Nat.eqb]. unfold parse_hex_20.
  assert (E : hex ih = concat ((fun x => [hex_lower (b2z x / 16); hex_lower (b2z x mod 16)]) <$> ih)).
  { unfold hex. by rewrite flat_map_concat_map. }
  rewrite E, as_chunks_concat; [|lia|].
  - rewrite (hex_chunks_hex ih 0 (replicate 20 x00)) by (rewrite length_replicate, Hl; done). rewrite Hl. cbn [take app Nat.add].
    by rewrite drop_ge, app_nil_r by (rewrite length_replicate; lia).
  - apply Forall_fmap, list.Forall_forall. done.
Qed.

(** ** Theorems *)

(** Hostile links.  Parsing returns a link or an error on every input, without a panic; a
    link has a 20-byte hash, a valid name, and at most 64 valid tracker strings, none twice. *)
Lemma magnet_parse_typed uri :
  returns (parse uri) = true /\
  forall m, parse uri = Ok m -> length (ml_info_hash m) = 20%nat /\
    (forall n, ml_display_name m = Some n -> utf8_valid n = true) /\
    (length (ml_trackers m) <= MAX_TRACKERS)%nat /\ NoDup (ml_trackers m) /\ Forall (fun t => utf8_valid t = true) (ml_trackers m).
Proof.
  unfold parse. destruct (has_prefix _ uri); [|done]. cbn [mbind result_bind].
  destruct (parse_pairs_ok (split_on "&" (drop (length (bs "magnet:?")) uri)) (None, None, [])) as [R L].
  { split_and!; try done. }
  destruct (parse_pairs _ _) as [[[ih dn] tr]|e| |]; try done. cbn [mbind result_bind].
  destruct (L _ eq_refl) as (H1 & H2 & H3). cbn [fst snd] in *. destruct ih as [h|]; [|done]. cbn [ok_or mbind result_bind].
  split; [done|]. intros m [= <-]. cbn [ml_info_hash ml_display_name ml_trackers]. destruct (dedup_spec tr []) as [D1 D2]. split_and!.
  - by apply H1.
  - done.
  - rewrite length_take. lia.
  - by eapply sublist_NoDup, sublist_take.
  - apply Forall_take, list.Forall_forall. intros t [Ht _]%D2. rewrite list.Forall_forall in H3. by apply H3.
Qed.

(** A link with the hash in hex, as clients write them. *)
Definition link (ih : bytes) (name : option bytes) (trackers : list bytes) : bytes :=
  bs "magnet:?xt=urn:btih:" ++ hex ih
  ++ (match name with Some n => bs "&dn=" ++ percent_encode n | None => [] end)
  ++ flat_map (fun t => bs "&tr=" ++ percent_encode t) trackers.

Lemma percent_encode_cons x b : exists c, percent_encode (x :: b) = c ++ percent_encode b /\ without ["&"%byte] c = true.
Proof. eexists. split; [reflexivity|]. destruct x; vm_compute; reflexivity. Qed.

Lemma percent_encode_plain b : without ["&"%byte] (percent_encode b) = true.
Proof.
  induction b as [|x b IH]; [done|]. destruct (percent_encode_cons x b) as (c & -> & Hc). by rewrite without_app, Hc.
Qed.

Lemma hex_plain b : without (bs "&%") (hex b) = true.
Proof.
  induction b as [|x b IH]; [done|]. rewrite hex_cons, without_app, IH, andb_true_r. destruct x; vm_compute; reflexivity.
Qed.

Lemma hex_utf8 b : utf8_valid (hex b) = true.
Proof.
  induction b as [|x b IH]; [done|]. rewrite hex_cons, utf8_app; [exact IH|]. destruct x; vm_compute; reflexivity.
Qed.

Lemma without_none c l : without [c] l = true -> forallb (fun x => negb (Byte.eqb x c)) l = true.
Proof. apply forallb_weaken. intros x. cbn. by rewrite orb_false_r. Qed.

(** The query of a link is its first pair and the rest, each after an ampersand. *)
Lemma split_pairs ps : Forall (fun p => without ["&"%byte] p = true) ps -> forall p, without ["&"%byte] p = true ->
  split_on "&" (p ++ flat_map (fun q => "&"%byte :: q) ps) = p :: ps.
Proof.
  induction 1 as [|q ps Hq _ IH]; intros p Hp; cbn [flat_map].
  - rewrite app_nil_r. by apply split_on_none, without_none.
  - cbn [app]. rewrite split_on_app, (split_on_none "&" p) by (by apply without_none). by rewrite IH.
Qed.

Lemma parse_pair_split k v acc : without ["="%byte] k = true ->
  parse_pair acc (k ++ bs "=" ++ v) =
  (decoded ← percent_decode v;
   if bytes_eqb k (bs "xt") then
     s ← from_utf8 decoded (EBencode "magnet xt not utf-8");
     hash_str ← (if has_prefix (bs "urn:btih:") s then Ok (drop (length (bs "urn:btih:")) s)
                 else Err (EBencode "xt missing urn:btih: prefix"));
     h ← parse_info_hash hash_str;
     Ok (Some h, acc.1.2, acc.2)
   else if bytes_eqb k (bs "dn") then
     s ← from_utf8 decoded (EBencode "magnet dn not utf-8");
     Ok (acc.1.1, Some s, acc.2)
   else if bytes_eqb k (bs "tr") then
     s ← from_utf8 decoded (EBencode "magnet tr not utf-8");
     Ok (acc.1.1, acc.1.2, acc.2 ++ [s])
   else Ok acc).
Proof.
  intros Hk. destruct acc as [[ih dn] tr]. unfold parse_pair.
  destruct (Nat.eqb_spec (length (k ++ bs "=" ++ v)) 0) as [E|_]; [rewrite !length_app in E; cbn in E; lia|].
  by rewrite (split_once_app (bs "=") "=") by done.
Qed.

Lemma parse_trackers tr : Forall (fun t => utf8_valid t = true) tr -> forall ih dn acc,
  parse_pairs ((fun t => bs "tr=" ++ percent_encode t) <$> tr) (ih, dn, acc) = Ok (ih, dn, acc ++ tr).
Proof.
  induction 1 as [|t tr Ht _ IH]; intros ih dn acc; cbn [fmap list_fmap parse_pairs]; [by rewrite app_nil_r|].
  rewrite (parse_pair_split (bs "tr") (percent_encode t)) by done. rewrite percent_roundtrip.
  cbn [mbind result_bind]. unfold from_utf8. rewrite Ht. change (bytes_eqb (bs "tr") (bs "xt")) with false. change (bytes_eqb (bs "tr") (bs "dn")) with false.
  change (bytes_eqb (bs "tr") (bs "tr")) with true. cbn [fst snd mbind result_bind].
  unfold fmap in IH. rewrite IH. by rewrite <- app_assoc.
Qed.

(** Links arrive.  A link written with the hash in hex, a percent-encoded name and
    percent-encoded trackers is read back: the same hash and name, and the first 64
    distinct trackers in their order. *)
Lemma magnet_link_read ih name trackers :
  length ih = 20%nat -> (forall n, name = Some n -> utf8_valid n = true) -> Forall (fun t => utf8_valid t = true) trackers ->
  parse (link ih name trackers) = Ok (mkMagnet ih name (take MAX_TRACKERS (dedup [] trackers))).
Proof.
  intros Hi Hn Ht. unfold parse, link. change (has_prefix (bs "magnet:?") (bs "magnet:?xt=urn:btih:" ++ ?l)) with true.
  cbn [mbind result_bind].
  set (ps := (match name with Some n => [bs "dn=" ++ percent_encode n] | None => [] end) ++ ((fun t => bs "tr=" ++ percent_encode t) <$> trackers)).
  assert (E : drop (length (bs "magnet:?")) (bs "magnet:?xt=urn:btih:" ++ hex ih
    ++ (match name with Some n => bs "&dn=" ++ percent_encode n | None => [] end) ++ flat_map (fun t => bs "&tr=" ++ percent_encode t) trackers)
    = (bs "xt=urn:btih:" ++ hex ih) ++ flat_map (fun q => "&"%byte :: q) ps).
  { unfold ps. rewrite flat_map_app, <- app_assoc. change (drop (length (bs "magnet:?")) (bs "magnet:?xt=urn:btih:" ++ ?l)) with (bs "xt=urn:btih:" ++ l).
    do 2 f_equal. f_equal; [destruct name as [n|]; [cbn [flat_map]; by rewrite app_nil_r|done]|].
    clear. induction trackers as [|t tr IH]; [done|]. cbn [flat_map fmap list_fmap]. by rewrite IH. }
  rewrite E, split_pairs.
  2: { apply list.Forall_app. split.
       - destruct name; [|by apply list.Forall_nil]. apply list.Forall_singleton. rewrite without_app. by rewrite percent_encode_plain.
       - apply Forall_fmap, list.Forall_forall. intros t _. unfold compose. rewrite without_app. by rewrite percent_encode_plain. }
  2: { rewrite without_app. by rewrite (without_sub (bs "&%") ["&"%byte] (hex ih) ltac:(done) (hex_plain ih)). }
  cbn [parse_pairs]. change (bs "xt=urn:btih:" ++ hex ih) with (bs "xt" ++ bs "=" ++ (bs "urn:btih:" ++ hex ih)).
  rewrite parse_pair_split by done.
  rewrite percent_plain by (rewrite without_app; by rewrite (without_sub (bs "&%") ["%"%byte] (hex ih) ltac:(done) (hex_plain ih))).
  cbn [mbind result_bind]. unfold from_utf8. rewrite utf8_app, hex_utf8 by done.
  change (bytes_eqb (bs "xt") (bs "xt")) with true. cbn [mbind result_bind].
  change (has_prefix (bs "urn:btih:") (bs "urn:btih:" ++ hex ih)) with true. cbn [mbind result_bind].
  rewrite drop_app_length, parse_info_hash_hex by done. cbn [mbind result_bind fst snd].
  assert (P : parse_pairs ps (Some ih, None, []) = Ok (Some ih, name, trackers)).
  { unfold ps. destruct name as [n|]; cbn [app parse_pairs]; [|by rewrite parse_trackers].
    rewrite (parse_pair_split (bs "dn") (percent_encode n)) by done. rewrite percent_roundtrip. cbn [mbind result_bind].
    unfold from_utf8. rewrite (Hn n eq_refl). change (bytes_eqb (bs "dn") (bs "xt")) with false.
    change (bytes_eqb (bs "dn") (bs "dn")) with true. cbn [fst snd mbind result_bind]. by rewrite parse_trackers. }
  rewrite P. done.
Qed.

Lemma magnet_link_read_witness :
  parse (link (replicate 20 xab) (Some (bs "a b")) [bs "udp://t:80"; bs "http://u/?k=1&l=2"; bs "udp://t:80"])
  = Ok (mkMagnet (replicate 20 xab) (Some (bs "a b")) (take MAX_TRACKERS (dedup [] [bs "udp://t:80"; bs "http://u/?k=1&l=2"; bs "udp://t:80"]))).
Proof.
  apply magnet_link_read; [reflexivity|intros n [= <-]; reflexivity|].
  repeat (apply list.Forall_cons; split; [reflexivity|]). by apply list.Forall_nil.
Defined.

(** Base32 hashes.  The bit-shifting decoder is arithmetic: 32 characters give exactly the 20
    bytes of the number they spell in base 32, in either letter case, and the error of the
    first character outside the alphabet otherwise. *)
Lemma base32_equiv s : length s = 32%nat ->
  match base32_number s 0 with
  | Ok m => exists out, parse_info_hash s = Ok out /\ length out = 20%nat /\ from_be out = m
  | Err e => parse_info_hash s = Err e
  | _ => False
  end.
Proof. intros H. unfold parse_info_hash. rewrite H. exact (parse_base32_spec s H). Qed.

Lemma base32_equiv_witness :
  match base32_number (replicate 31 "A"%byte ++ bs "z") 0 with
  | Ok m => exists out, parse_info_hash (replicate 31 "A"%byte ++ bs "z") = Ok out /\ length out = 20%nat /\ from_be out = m
  | Err e => parse_info_hash (replicate 31 "A"%byte ++ bs "z") = Err e
  | _ => False
  end /\ base32_number (replicate 31 "A"%byte ++ bs "z") 0 = Ok 25.
Proof. split; [apply base32_equiv|]; reflexivity. Defined.
