(* ===== verification/IpText.v ===== *)
(** * IP addresses as text

    [IpAddr::from_str] of the standard library, as its recursive-descent parser
    reads it, and the screen of tracker hosts in [src/src/util.rs]
    ([is_dialable_url_host]). *)

From Stdlib Require Import ZArith Lia String Strings.Byte.
From stdpp Require Import base tactics numbers list option.
From S2P Require Import Prelude Net Text.

#[local] Set Warnings "-register-all".

(** ** The parser of [core::net::parser] *)

Definition read_given_char (c : byte) (s : bytes) : option bytes :=
  match s with x :: r => if Byte.eqb x c then Some r else None | [] => None end.

Definition to_digit (radix : Z) (c : byte) : option Z :=
  match hex_digit c with Some d => if d <? radix then Some d else None | None => None end.

(** The digits of a number, at most [max] of them. *)
Fixpoint read_digits (radix : Z) (max count : nat) (acc : Z) (s : bytes) : option (nat * Z * bytes) :=
  match s with
  | c :: r =>
      match to_digit radix c with
      | Some d => if (max <? S count)%nat then None else read_digits radix max (S count) (acc * radix + d) r
      | None => Some (count, acc, s)
      end
  | [] => Some (count, acc, [])
  end.

Definition read_number (radix : Z) (max : nat) (bound : Z) (allow_zero_prefix : bool) (s : bytes) : option (Z * bytes) :=
  let has_leading_zero := match s with c :: _ => Byte.eqb c "0" | [] => false end in
  match read_digits radix max 0 0 s with
  | None => None
  | Some (count, v, r) =>
      if (count =? 0)%nat then None
      else if negb allow_zero_prefix && has_leading_zero && (1 <? count)%nat then None
      else if v <=? bound then Some (v, r) else None
  end.

Definition read_separator {A} (sep : byte) (i : nat) (f : bytes -> option (A * bytes)) (s : bytes) : option (A * bytes) :=
  if (0 <? i)%nat then match read_given_char sep s with Some r => f r | None => None end else f s.

Definition read_octet (i : nat) (s : bytes) : option (Z * bytes) := read_separator "." i (read_number 10 3 255 false) s.

Definition read_ipv4_addr (s : bytes) : option (IpAddr * bytes) :=
  '(a, s) ← read_octet 0 s;
  '(b, s) ← read_octet 1 s;
  '(c, s) ← read_octet 2 s;
  '(d, s) ← read_octet 3 s;
  Some (IpV4 (z2b a) (z2b b) (z2b c) (z2b d), s).

(** Groups of an IPv6 address from the [i]-th on, [n] at most, and whether an IPv4 address ended them. *)
Fixpoint read_groups (n i : nat) (s : bytes) : list Z * bool * bytes :=
  match n with
  | O => ([], false, s)
  | S n =>
      match (if (1 <=? n)%nat then read_separator ":" i read_ipv4_addr s else None) with
      | Some (ip, r) => (segments (octets ip), true, r)
      | None =>
          match read_separator ":" i (read_number 16 4 65535 true) s with
          | Some (g, r) => let '(gs, v4, r) := read_groups n (S i) r in (g :: gs, v4, r)
          | None => ([], false, s)
          end
      end
  end.

Definition of_segments (l : list Z) : IpAddr := IpV6 (flat_map (to_be 2) l).

Definition read_ipv6_addr (s : bytes) : option (IpAddr * bytes) :=
  let '(head, head_ipv4, r) := read_groups 8 0 s in
  if (length head =? 8)%nat then Some (of_segments head, r)
  else if head_ipv4 : bool then None
  else
    r ← read_given_char ":" r;
    r ← read_given_char ":" r;
    let limit := (8 - (length head + 1))%nat in
    let '(tail, _, r) := read_groups limit 0 r in
    Some (of_segments (head ++ replicate (8 - length tail - length head) 0 ++ tail), r).

Definition parse_ip (s : bytes) : option IpAddr :=
  match (match read_ipv4_addr s with Some x => Some x | None => read_ipv6_addr s end) with
  | Some (ip, []) => Some ip
  | _ => None
  end.

Example parse_ip_ex :
  parse_ip (bs "169.254.169.254") = Some (IpV4 xa9 xfe xa9 xfe) /\ parse_ip (bs "1.2.3.04") = None /\
  parse_ip (bs "::ffff:127.0.0.1") = Some (IpV6 (replicate 10 x00 ++ [xff; xff; x7f; x00; x00; x01])) /\
  parse_ip (bs "2001:db8::7") = Some (IpV6 ([x20; x01; x0d; xb8] ++ replicate 11 x00 ++ [x07])) /\
  parse_ip (bs "1:2:3:4:5:6:7:8:9") = None /\ parse_ip (bs "tracker.example") = None /\ parse_ip (bs "::") = Some (IpV6 (replicate 16 x00)).
Proof. by vm_compute. Qed.

(** ** The screen of tracker hosts *)

(** [str::trim_matches]. *)
Fixpoint trim_start (p : byte -> bool) (l : bytes) : bytes :=
  match l with c :: r => if p c then trim_start p r else l | [] => [] end.

Definition trim_matches (p : byte -> bool) (l : bytes) : bytes := rev (trim_start p (rev (trim_start p l))).

Definition is_dialable_url_host (host : bytes) (strict : bool) : bool :=
  let bare := trim_matches (fun c => Byte.eqb c "[" || Byte.eqb c "]") host in
  match parse_ip bare with
  | None => true
  | Some parsed =>
      let ip := match parsed with
                | IpV6 v6 => match to_ipv4_mapped v6 with Some v4 => v4 | None => IpV6 v6 end
                | v4 => v4
                end in
      if is_loopback ip then true else is_dialable_ip ip strict
  end.

(** ** Parsed addresses *)

Lemma read_digits_range radix max s : 0 < radix <= 16 -> forall count acc n v r, 0 <= acc ->
  read_digits radix max count acc s = Some (n, v, r) -> 0 <= v.
Proof.
  intros Hr. induction s as [|c s IH]; intros count acc n v r Ha; cbn [read_digits]; [by intros [= _ <- _]|].
  unfold to_digit. destruct (hex_digit c) as [d|] eqn:E; [|by intros [= _ <- _]]. destruct (d <? radix); [|by intros [= _ <- _]].
  destruct (max <? S count)%nat; [done|]. apply IH. apply hex_digit_range in E. nia.
Qed.

Lemma read_number_range radix max bound z s v r : 0 < radix <= 16 -> read_number radix max bound z s = Some (v, r) -> 0 <= v <= bound.
Proof.
  intros Hr. unfold read_number. destruct (read_digits radix max 0 0 s) as [[[n x] r']|] eqn:E; [|done].
  apply read_digits_range in E; [|done|lia]. destruct (n =? 0)%nat; [done|]. destruct (_ && _); [done|].
  destruct (Z.leb_spec x bound); [|done]. intros [= <- <-]. lia.
Qed.

Lemma read_separator_Some {A} sep i (f : bytes -> option (A * bytes)) s x : read_separator sep i f s = Some x -> exists s', f s' = Some x.
Proof. unfold read_separator. destruct (0 <? i)%nat; [|eauto]. destruct (read_given_char sep s); [eauto|done]. Qed.

Lemma read_groups_range n : forall i s gs v4 r, read_groups n i s = (gs, v4, r) ->
  (length gs <= n)%nat /\ Forall (fun g => 0 <= g < 2 ^ 16) gs.
Proof.
  induction n as [|n IH]; intros i s gs v4 r; cbn [read_groups]; [intros [= <- _ _]; split; [done|constructor]|].
  destruct (if (1 <=? n)%nat then read_separator ":" i read_ipv4_addr s else None) as [[ip r1]|] eqn:E1.
  - intros [= <- _ _]. destruct (Nat.leb_spec 1 n) as [Hn|]; [|done]. apply read_separator_Some in E1 as (s' & E1).
    unfold read_ipv4_addr in E1.
    do 4 (apply bind_Some in E1 as ([? ?] & _ & E1)). injection E1 as <- _. cbn [octets segments length]. split; [lia|].
    repeat constructor; match goal with |- context [b2z ?a * 256 + b2z ?b] => pose proof (b2z_range a); pose proof (b2z_range b) end; lia.
  - clear E1. destruct (read_separator ":" i _ s) as [[g r1]|] eqn:E2; [|intros [= <- _ _]; split; [cbn; lia|constructor]].
    apply read_separator_Some in E2 as (s' & E2). apply read_number_range in E2; [|lia].
    destruct (read_groups n (S i) r1) as [[gs' v'] r'] eqn:E3. intros [= <- _ _]. destruct (IH _ _ _ _ _ E3) as [H1 H2].
    split; [cbn; lia|]. constructor; [lia|done].
Qed.

(** What the parser returns is an address. *)
Lemma parse_ip_ok s ip : parse_ip s = Some ip -> ip_ok ip = true.
Proof.
  unfold parse_ip. destruct (match read_ipv4_addr s with Some x => Some x | None => read_ipv6_addr s end) as [[ip' [|? ?]]|] eqn:E; try done.
  intros [= ->]. destruct (read_ipv4_addr s) as [[ip1 r1]|] eqn:E1.
  - injection E as -> ->. unfold read_ipv4_addr in E1. do 4 (apply bind_Some in E1 as ([? ?] & _ & E1)). by injection E1 as <- _.
  - assert (L : forall l, length (flat_map (to_be 2) l) = (2 * length l)%nat).
    { intros l. induction l as [|x l IH]; [done|]. cbn [flat_map]. rewrite length_app, length_to_be, IH. cbn [length]. lia. }
    unfold read_ipv6_addr in E. destruct (read_groups 8 0 s) as [[head hv4] r] eqn:Eh. destruct (read_groups_range _ _ _ _ _ _ Eh) as [Hh _].
    destruct (Nat.eqb_spec (length head) 8) as [H8|H8]; [|destruct hv4; [done|]].
    + injection E as <- _. unfold of_segments, ip_ok. rewrite L, H8. done.
    + apply bind_Some in E as (r1 & _ & E). apply bind_Some in E as (r2 & _ & E).
      destruct (read_groups (8 - (length head + 1)) 0 r2) as [[tail tv4] r3] eqn:Et. destruct (read_groups_range _ _ _ _ _ _ Et) as [Ht _].
      injection E as <- _. unfold of_segments, ip_ok. rewrite L, !length_app, length_replicate. apply Nat.eqb_eq. lia.
Qed.

(** The screen of a literal host is the screen of resolved addresses. *)
Lemma url_host_literal host ip strict : parse_ip (trim_matches (fun c => Byte.eqb c "[" || Byte.eqb c "]") host) = Some ip ->
  is_dialable_url_host host strict = is_dialable_resolved_ip ip strict.
Proof.
  intros E. unfold is_dialable_url_host, is_dialable_resolved_ip. rewrite E. by destruct ip as [a b c d|o]; [|destruct (to_ipv4_mapped o)].
Qed.

(** Dotted quads as [Display] writes them. *)
Definition show_v4 (a b c d : byte) : bytes :=
  show_u (b2z a) ++ bs "." ++ show_u (b2z b) ++ bs "." ++ show_u (b2z c) ++ bs "." ++ show_u (b2z d).

Lemma number_shown a r : match r with [] => True | c :: _ => c = "."%byte end ->
  read_number 10 3 255 false (show_u (b2z a) ++ r) = Some (b2z a, r).
Proof. intros Hr. destruct r as [|c r]; [|subst c]; destruct a; reflexivity. Qed.

Lemma octet_shown i a r : match r with [] => True | c :: _ => c = "."%byte end ->
  read_octet 0 (show_u (b2z a) ++ r) = Some (b2z a, r) /\
  read_octet (S i) (bs "." ++ show_u (b2z a) ++ r) = Some (b2z a, r).
Proof. intros Hr. pose proof (number_shown a r Hr) as H. by split. Qed.

(** Every dotted quad is read back. *)
Lemma parse_ip_v4 a b c d : parse_ip (show_v4 a b c d) = Some (IpV4 a b c d).
Proof.
  unfold parse_ip, read_ipv4_addr, show_v4. rewrite (fun r H => proj1 (octet_shown 0 a r H)) by done. cbn [mbind option_bind].
  rewrite (fun r H => proj2 (octet_shown 0 b r H)) by done. cbn [mbind option_bind]. rewrite (fun r H => proj2 (octet_shown 1 c r H)) by done. cbn [mbind option_bind].
  rewrite <- (app_nil_r (show_u (b2z d))). rewrite (proj2 (octet_shown 2 d [] I)). cbn [mbind option_bind]. by rewrite !z2b_b2z.
Qed.
