(* ===== verification/Tracker.v ===== *)
(** * Trackers: [src/src/tracker/udp.rs] and [src/src/tracker/mod.rs]

    The UDP announce (BEP 15) with its packets, retries and connection ids, and
    the walk over announce tiers with its screens and its deadline.  The network
    is a parameter: what each receive returns and when, the random numbers, how
    long an HTTP announce takes and what it returns, the host the URL library
    finds.  Times are milliseconds. *)

From Stdlib Require Import ZArith Lia String Strings.Byte.
From stdpp Require Import base tactics numbers list option.
From S2P Require Import Prelude Paths Net Text IpText.

#[local] Set Warnings "-register-all".

(** ** Requests and responses *)

Inductive Event := EvNone | EvStarted | EvCompleted | EvStopped.

Definition as_udp_code (e : Event) : Z :=
  match e with EvNone => 0 | EvCompleted => 1 | EvStarted => 2 | EvStopped => 3 end.

Definition as_http_param (e : Event) : option bytes :=
  match e with
  | EvNone => None
  | EvStarted => Some (bs "started")
  | EvCompleted => Some (bs "completed")
  | EvStopped => Some (bs "stopped")
  end.

Record AnnounceRequest := mkReq {
  rq_info_hash : bytes;
  rq_peer_id : bytes;
  rq_port : Z;
  rq_uploaded : Z;
  rq_downloaded : Z;
  rq_left : Z;
  rq_event : Event;
  rq_num_want : Z
}.

Record AnnounceResponse := mkResp {
  interval : Z;
  min_interval : option Z;
  seeders : option Z;
  leechers : option Z;
  peers : list SocketAddr
}.

(** ** UDP packets *)

Definition PROTOCOL_ID : Z := 0x41727101980.
Definition ACTION_CONNECT : Z := 0.
Definition ACTION_ANNOUNCE : Z := 1.
Definition ACTION_ERROR : Z := 3.
Definition MAX_RETRIES : nat := 4.
Definition BASE_TIMEOUT_SECS : Z := 15.
Definition CONNECTION_ID_MAX_AGE : Z := 45 * 1000.

(** The receive buffers. *)
Definition CONNECT_BUF : nat := Z.to_nat 1500.
Definition ANNOUNCE_BUF : nat := Z.to_nat 65535.

Definition connect_packet (transaction_id : Z) : bytes :=
  to_be 8 PROTOCOL_ID ++ to_be 4 ACTION_CONNECT ++ to_be 4 transaction_id.

(** [i32::to_be_bytes] is the two's complement. *)
Definition build_announce_packet (connection_id transaction_id key : Z) (req : AnnounceRequest) : bytes :=
  to_be 8 connection_id ++ to_be 4 ACTION_ANNOUNCE ++ to_be 4 transaction_id
  ++ rq_info_hash req ++ rq_peer_id req
  ++ to_be 8 (rq_downloaded req) ++ to_be 8 (rq_left req) ++ to_be 8 (rq_uploaded req)
  ++ to_be 4 (as_udp_code (rq_event req)) ++ to_be 4 0 ++ to_be 4 key
  ++ to_be 4 (wrap 32 (rq_num_want req)) ++ to_be 2 (rq_port req).

(** [u32::from_be_bytes([buf[i], ..])] *)
Definition be_at (buf : bytes) (i n : nat) : result Z := b ← slice_range buf i (i + n); Ok (from_be b).

Definition compact_peer (c : bytes) : result SocketAddr :=
  a ← index c 0; b ← index c 1; d ← index c 2; e ← index c 3;
  port ← be_at c 4 2;
  Ok (sock_addr (IpV4 a b d e) port).

Fixpoint compact_peers (cs : list bytes) : result (list SocketAddr) :=
  match cs with
  | [] => Ok []
  | c :: cs => p ← compact_peer c; ps ← compact_peers cs; Ok (p :: ps)
  end.

Definition parse_announce_response (buf : bytes) : result AnnounceResponse :=
  if (length buf <? 20)%nat then Err (ETracker "announce resp header < 20 bytes")
  else
    interval ← be_at buf 8 4;
    leechers ← be_at buf 12 4;
    seeders ← be_at buf 16 4;
    peers_bytes ← slice_range buf 20 (length buf);
    if negb (length peers_bytes mod 6 =? 0)%nat then Err (ETracker "peer payload not multiple of 6")
    else
      ps ← compact_peers (as_chunks 6 peers_bytes);
      Ok (mkResp (interval * 1000) None (Some seeders) (Some leechers) ps).

(** [SocketAddr]'s [Ord]: IPv4 first, then octets, port, flow label, scope. *)
Definition addr_ltb (x y : SocketAddr) : bool :=
  match sa_ip x, sa_ip y with
  | IpV4 _ _ _ _, IpV6 _ => true
  | IpV6 _, IpV4 _ _ _ _ => false
  | a, b =>
      if bytes_eqb (octets a) (octets b) then
        if sa_port x =? sa_port y then
          if sa_flow x =? sa_flow y then sa_scope x <? sa_scope y else sa_flow x <? sa_flow y
        else sa_port x <? sa_port y
      else bytes_ltb (octets a) (octets b)
  end.

Definition pick_udp_addr (addrs : list SocketAddr) : result SocketAddr :=
  kept ← filter_dialable_addrs (sort_by addr_ltb addrs) false;
  index kept 0.

(** ** The exchange *)

(** What a receive under a timeout gives. *)
Inductive Recv :=
  | RTimeout
  | RError (elapsed : Z)
  | RData (elapsed : Z) (datagram : bytes).

Inductive Log :=
  | LSent (at_ : Z) (packet : bytes)
  | LGot (at_ : Z) (datagram : bytes).

(** The socket, the clock and the counters of the parameters, with a log of the traffic. *)
Record Net := mkNet {
  now : Z;
  recvs : nat;
  rands : nat;
  sends : nat;
  log : list Log
}.

Section udp.
Context (recv : nat -> Recv) (rnd : nat -> Z) (send_ok : nat -> bool).

Definition random_u32 : M Net Z := fun s =>
  (mkNet (now s) (recvs s) (S (rands s)) (sends s) (log s), Ok (wrap 32 (rnd (rands s)))).

Definition sock_send (p : bytes) (e : Error) : M Net unit := fun s =>
  if send_ok (sends s) then (mkNet (now s) (recvs s) (rands s) (S (sends s)) (log s ++ [LSent (now s) p]), Ok tt)
  else (s, Err e).

(** [timeout(wait, sock.recv(&mut buf))] with a buffer of [cap] bytes: [None] is a timeout. *)
Definition sock_recv (wait : Z) (cap : nat) (e : Error) : M Net (option bytes) := fun s =>
  let step t l := mkNet (now s + t) (S (recvs s)) (rands s) (sends s) l in
  match recv (recvs s) with
  | RTimeout => (step wait (log s), Ok None)
  | RError t => if t <? wait then (step (Z.max 0 t) (log s), Err e) else (step wait (log s), Ok None)
  | RData t d =>
      if t <? wait then
        let t := Z.max 0 t in
        let d := take cap d in
        (step t (log s ++ [LGot (now s + t) d]), Ok (Some d))
      else (step wait (log s), Ok None)
  end.

Definition wait_for (attempt : nat) : Z := Z.shiftl BASE_TIMEOUT_SECS (Z.of_nat attempt) * 1000.

(** [connect]: the attempts from [attempt] on, [n] left. *)
Fixpoint connect_from (n attempt : nat) : M Net (Z * Z) :=
  match n with
  | O => lift (Err (ETracker "connect retries exhausted"))
  | S n =>
      transaction_id ← random_u32;
      _ ← sock_send (connect_packet transaction_id) (ETracker "udp send connect");
      got ← sock_recv (wait_for attempt) CONNECT_BUF (ETracker "udp recv connect");
      match got with
      | None => connect_from n (S attempt)
      | Some buf =>
          if (length buf <? 16)%nat then lift (Err (ETracker "connect resp too short"))
          else
            action ← lift (be_at buf 0 4);
            txid ← lift (be_at buf 4 4);
            if negb (txid =? transaction_id) then connect_from n (S attempt)
            else if action =? ACTION_ERROR then lift (Err (ETracker "connect error"))
            else if negb (action =? ACTION_CONNECT) then lift (Err (ETracker "connect bad action"))
            else
              cid ← lift (be_at buf 8 8);
              t ← gets now;
              mret (cid, t)
      end
  end.

Definition connect : M Net (Z * Z) := connect_from MAX_RETRIES 0.

Definition refresh (connection_id connect_time : Z) : M Net (Z * Z) :=
  t ← gets now;
  if CONNECTION_ID_MAX_AGE <=? t - connect_time then connect else mret (connection_id, connect_time).

Fixpoint do_announce_from (n attempt : nat) (connection_id connect_time : Z) (req : AnnounceRequest) : M Net AnnounceResponse :=
  match n with
  | O => lift (Err (ETracker "announce retries exhausted"))
  | S n =>
      '(connection_id, connect_time) ← refresh connection_id connect_time;
      transaction_id ← random_u32;
      key ← random_u32;
      _ ← sock_send (build_announce_packet connection_id transaction_id key req) (ETracker "udp send announce");
      got ← sock_recv (wait_for attempt) ANNOUNCE_BUF (ETracker "udp recv announce");
      match got with
      | None => do_announce_from n (S attempt) connection_id connect_time req
      | Some buf =>
          if (length buf <? 8)%nat then lift (Err (ETracker "announce resp too short"))
          else
            action ← lift (be_at buf 0 4);
            txid ← lift (be_at buf 4 4);
            if negb (txid =? transaction_id) then do_announce_from n (S attempt) connection_id connect_time req
            else if action =? ACTION_ERROR then
              t ← gets now;
              do_announce_from n (S attempt) connection_id (t - CONNECTION_ID_MAX_AGE) req
            else if negb (action =? ACTION_ANNOUNCE) then lift (Err (ETracker "announce bad action"))
            else lift (parse_announce_response buf)
      end
  end.

Definition do_announce (connection_id connect_time : Z) (req : AnnounceRequest) : M Net AnnounceResponse :=
  do_announce_from MAX_RETRIES 0 connection_id connect_time req.

(** [udp::announce] once its socket is connected to the target. *)
Definition udp_exchange (req : AnnounceRequest) : M Net AnnounceResponse :=
  '(connection_id, connect_time) ← connect;
  do_announce connection_id connect_time req.
End udp.

(** ** The packets *)

Definition req_ok (r : AnnounceRequest) : bool :=
  (length (rq_info_hash r) =? 20)%nat && (length (rq_peer_id r) =? 20)%nat && in_u 16 (rq_port r).

Lemma length_announce_packet cid tx key r : req_ok r = true -> length (build_announce_packet cid tx key r) = 98%nat.
Proof.
  unfold req_ok. rewrite !andb_true_iff, !Nat.eqb_eq. intros [[H1 H2] _].
  unfold build_announce_packet. rewrite !length_app, !length_to_be, H1, H2. done.
Qed.

Lemma be_at_Ok buf i n : (i + n <= length buf)%nat -> be_at buf i n = Ok (from_be (slice buf i n)).
Proof. intros H. unfold be_at. rewrite slice_range_Ok by lia. cbn. by replace (i + n - i)%nat with n by lia. Qed.

Lemma compact_peer_Ok c : length c = 6%nat -> exists a, compact_peer c = Ok a /\ addr_ok a = true /\ is_ipv4 a = true.
Proof.
  intros Hc. destruct c as [|x0 [|x1 [|x2 [|x3 [|x4 [|x5 [|? ?]]]]]]]; try done. eexists. split; [reflexivity|].
  split; [|done]. unfold addr_ok. cbn [sock_addr sa_ip sa_port sa_flow sa_scope ip_ok].
  pose proof (from_be_range [x4; x5]) as R. cbn [length] in R. unfold slice. cbn [take drop].
  rewrite (proj2 (in_u_spec 16 _)) by (cbn in R |- *; lia). done.
Qed.

Lemma compact_peers_Ok cs : Forall (fun c => length c = 6%nat) cs ->
  exists ps, compact_peers cs = Ok ps /\ length ps = length cs /\ Forall (fun a => addr_ok a = true /\ is_ipv4 a = true) ps.
Proof.
  induction 1 as [|c cs Hc _ (ps & E & Hl & F)]; [by exists []|]. cbn [compact_peers]. destruct (compact_peer_Ok c Hc) as (a & -> & Ha).
  cbn [mbind result_bind]. rewrite E. exists (a :: ps). cbn. split_and!; [done|lia|]. by constructor.
Qed.

Lemma parse_announce_ok buf : returns (parse_announce_response buf) = true /\
  forall r, parse_announce_response buf = Ok r ->
    (20 <= length buf)%nat /\ (20 + 6 * length (peers r) = length buf)%nat /\ 0 <= interval r < 2 ^ 32 * 1000 /\
    Forall (fun a => addr_ok a = true /\ is_ipv4 a = true) (peers r).
Proof.
  unfold parse_announce_response. destruct (Nat.ltb_spec (length buf) 20) as [|Hl]; [done|].
  rewrite !be_at_Ok by lia. rewrite slice_range_Ok by lia. cbn [mbind result_bind].
  destruct (Nat.eqb_spec (length (slice buf 20 (length buf - 20)) mod 6) 0) as [Hm|Hm]; [|done]. cbn [negb].
  destruct (compact_peers_Ok (as_chunks 6 (slice buf 20 (length buf - 20))) (as_chunks_len 6 _)) as (ps & -> & Hp & F).
  cbn [mbind result_bind]. split; [done|]. intros r [= <-]. cbn [peers interval]. split_and!; [done| | | |done].
  - unfold as_chunks in Hp. rewrite length_fmap, length_seq in Hp. unfold slice in *. rewrite length_take, length_drop in *.
    rewrite Nat.min_l in * by lia. pose proof (Nat.div_mod (length buf - 20) 6 ltac:(lia)). lia.
  - pose proof (from_be_range (slice buf 8 4)). lia.
  - pose proof (from_be_range (slice buf 8 4)) as R. rewrite length_slice in R by lia. cbn in R. lia.
Qed.

(** ** Time, traffic and connection ids *)

(** [l] grants connection id [cid] at time [t]: a connect reply, right after the request it answers. *)
Definition grants (l : list Log) (cid t : Z) : Prop :=
  exists l1 l2 tx t1 d, l = l1 ++ LSent t1 (connect_packet tx) :: LGot t d :: l2 /\
    be_at d 0 4 = Ok ACTION_CONNECT /\ be_at d 4 4 = Ok tx /\ be_at d 8 8 = Ok cid.

Lemma grants_app l l' cid t : grants l cid t -> grants (l ++ l') cid t.
Proof.
  intros (l1 & l2 & tx & t1 & d & -> & H). exists l1, (l2 ++ l'), tx, t1, d. split; [|done]. by rewrite <- app_assoc.
Qed.

Definition is_send (x : Log) : bool := match x with LSent _ _ => true | _ => false end.

(** A packet that may be sent after the traffic [pre]: a connect request, or an announce of
    [req] with a connection id granted less than 45 seconds ago. *)
Definition may_send (req : AnnounceRequest) (pre : list Log) (t : Z) (p : bytes) : Prop :=
  (exists tx, p = connect_packet tx) \/
  exists cid tx key t0, p = build_announce_packet cid tx key req /\ grants pre cid t0 /\ 0 <= t - t0 < CONNECTION_ID_MAX_AGE.

(** [ext]: traffic added after [pre], every packet of it allowed. *)
Definition allowed (req : AnnounceRequest) (pre ext : list Log) : Prop :=
  forall l t p r, ext = l ++ LSent t p :: r -> may_send req (pre ++ l) t p.

Lemma allowed_nil req pre : allowed req pre [].
Proof. intros l t p r E. by destruct l. Qed.

Lemma allowed_app req pre a b : allowed req pre a -> allowed req (pre ++ a) b -> allowed req pre (a ++ b).
Proof.
  intros Ha Hb l t p r E. destruct (app_eq_inv _ _ _ _ E) as [(k & -> & E')|(k & -> & E')].
  - destruct k as [|x k]; cbn [app] in E'.
    + pose proof (Hb [] t p r (eq_sym E')) as H. by rewrite !app_nil_r in H.
    + injection E' as <- ->. by apply (Ha l t p k).
  - rewrite app_assoc. by apply (Hb k t p r).
Qed.

Lemma allowed_got req pre t d : allowed req pre [LGot t d].
Proof. intros [|x [|y l]] t' p r E; done. Qed.

Lemma allowed_sent req pre t p : may_send req pre t p -> allowed req pre [LSent t p].
Proof. intros H [|x [|y l]] t' p' r E; try done. injection E as -> -> _. by rewrite app_nil_r. Qed.

(** What a step of the exchange leaves: allowed traffic, time at most [dt] later, at most [dn]
    packets more. *)
Definition ran (req : AnnounceRequest) (dt : Z) (dn : nat) (s s' : Net) : Prop :=
  now s <= now s' <= now s + dt /\ (exists ext, log s' = log s ++ ext /\ allowed req (log s) ext) /\
  (length (List.filter is_send (log s')) <= length (List.filter is_send (log s)) + dn)%nat.

Lemma ran_refl req s : ran req 0 0 s s.
Proof. split_and!; [lia|lia| |lia]. exists []. split; [by rewrite app_nil_r|apply allowed_nil]. Qed.

Lemma ran_trans req d1 d2 n1 n2 s1 s2 s3 : ran req d1 n1 s1 s2 -> ran req d2 n2 s2 s3 -> ran req (d1 + d2) (n1 + n2) s1 s3.
Proof.
  intros (T1 & (e1 & E1 & A1) & N1) (T2 & (e2 & E2 & A2) & N2). split_and!; [lia|lia| |lia].
  exists (e1 ++ e2). rewrite E2, E1, app_assoc. split; [done|]. apply allowed_app; [done|]. by rewrite <- E1.
Qed.

Lemma ran_weaken req d1 d2 n1 n2 s1 s2 : d1 <= d2 -> (n1 <= n2)%nat -> ran req d1 n1 s1 s2 -> ran req d2 n2 s1 s2.
Proof. intros Hd Hn (T & L & N). split_and!; [lia|lia|done|lia]. Qed.

Lemma ran_grants req d n s s' cid t : ran req d n s s' -> grants (log s) cid t -> grants (log s') cid t.
Proof. intros (_ & (e & -> & _) & _). apply grants_app. Qed.

Section traffic.
Context (recv : nat -> Recv) (rnd : nat -> Z) (send_ok : nat -> bool) (req : AnnounceRequest).

Lemma random_ran s : exists s' v, random_u32 rnd s = (s', Ok v) /\ ran req 0 0 s s' /\ log s' = log s /\ now s' = now s.
Proof.
  eexists _, _. split; [reflexivity|]. split; [|done]. split_and!; cbn [now log]; [lia|lia| |lia].
  exists []. split; [by rewrite app_nil_r|apply allowed_nil].
Qed.

Lemma send_ran s p e : may_send req (log s) (now s) p ->
  exists s' r, sock_send send_ok p e s = (s', r) /\ ran req 0 1 s s' /\
    (r = Err e \/ r = Ok tt /\ log s' = log s ++ [LSent (now s) p] /\ now s' = now s).
Proof.
  intros H. unfold sock_send. destruct (send_ok (sends s)).
  - eexists _, _. split; [reflexivity|]. split; [|right; done]. split_and!; cbn [now log]; [lia|lia| |].
    + eexists. split; [reflexivity|]. by apply allowed_sent.
    + rewrite List.filter_app, length_app. cbn [List.filter is_send length]. lia.
  - eexists _, _. split; [reflexivity|]. split; [|by left]. eapply ran_weaken, ran_refl; lia.
Qed.

Lemma recv_ran s wait cap e : 0 <= wait ->
  exists s' r, sock_recv recv wait cap e s = (s', r) /\ ran req wait 0 s s' /\
    (r = Err e \/ r = Ok None \/ exists d, r = Ok (Some d) /\ log s' = log s ++ [LGot (now s') d]).
Proof.
  intros Hw. assert (Q : forall t, 0 <= t <= wait -> ran req wait 0 s (mkNet (now s + t) (S (recvs s)) (rands s) (sends s) (log s))).
  { intros t Ht. split_and!; cbn [now log]; [lia|lia| |lia]. exists []. split; [by rewrite app_nil_r|apply allowed_nil]. }
  unfold sock_recv. destruct (recv (recvs s)) as [|t|t d].
  - eexists _, _. split; [reflexivity|]. split; [apply Q; lia|]. by right; left.
  - destruct (Z.ltb_spec t wait); (eexists _, _; split; [reflexivity|]); (split; [apply Q; lia|]); [by left|by right; left].
  - destruct (Z.ltb_spec t wait); (eexists _, _; split; [reflexivity|]).
    + split; [|right; right; eexists; by split]. split_and!; cbn [now log]; [lia|lia| |].
      * eexists. split; [reflexivity|]. apply allowed_got.
      * rewrite List.filter_app, length_app. cbn [List.filter is_send length]. lia.
    + split; [apply Q; lia|]. by right; left.
Qed.

Lemma wait_eq attempt : wait_for attempt = 15000 * 2 ^ Z.of_nat attempt.
Proof. unfold wait_for, BASE_TIMEOUT_SECS. rewrite Z.shiftl_mul_pow2 by lia. lia. Qed.

(** The time all attempts of a loop may take. *)
Definition waits (n attempt : nat) : Z := 15000 * (2 ^ Z.of_nat (attempt + n) - 2 ^ Z.of_nat attempt).

Lemma waits_S n attempt : waits (S n) attempt = wait_for attempt + waits n (S attempt) /\ 0 <= waits n (S attempt) /\ 0 <= wait_for attempt.
Proof.
  rewrite wait_eq. unfold waits. replace (attempt + S n)%nat with (S attempt + n)%nat by lia.
  assert (E : 2 ^ Z.of_nat (S attempt) = 2 * 2 ^ Z.of_nat attempt) by (rewrite Nat2Z.inj_succ, Z.pow_succ_r by lia; done).
  pose proof (Z.pow_le_mono_r 2 (Z.of_nat (S attempt)) (Z.of_nat (S attempt + n)) ltac:(lia) ltac:(lia)).
  pose proof (Z.pow_pos_nonneg 2 (Z.of_nat attempt) ltac:(lia) ltac:(lia)). lia.
Qed.

Lemma connect_ran n : forall attempt s, exists s' r, connect_from recv rnd send_ok n attempt s = (s', r) /\ returns r = true /\
  ran req (waits n attempt) n s s' /\ forall cid t, r = Ok (cid, t) -> t = now s' /\ grants (log s') cid t.
Proof.
  induction n as [|n IH]; intros attempt s; cbn [connect_from].
  { eexists _, _. split; [reflexivity|]. split_and!; [done| |done]. eapply ran_weaken, ran_refl; [|lia]. unfold waits. rewrite Nat.add_0_r. lia. }
  destruct (waits_S n attempt) as (Ew & W1 & W2). rewrite Ew. msteps.
  destruct (random_ran s) as (s1 & tx & -> & R1 & _). cbn beta iota.
  destruct (send_ran s1 (connect_packet tx) (ETracker "udp send connect")) as (s2 & r2 & -> & R2 & H2); [left; by eexists|].
  pose proof (ran_trans _ _ _ _ _ _ _ _ R1 R2) as R12. cbn in R12.
  assert (Stop : forall k, ran req 0 k s s2 -> (k <= S n)%nat -> ran req (wait_for attempt + waits n (S attempt)) (S n) s s2).
  { intros k Hr Hk. eapply ran_weaken, Hr; lia. }
  destruct H2 as [->|(-> & L2 & T2)]; [eexists _, _; split; [reflexivity|]; split_and!; [done|by eapply Stop; [exact R12|lia]|done]|].
  destruct (recv_ran s2 (wait_for attempt) CONNECT_BUF (ETracker "udp recv connect") W2) as (s3 & r3 & -> & R3 & H3).
  pose proof (ran_trans _ _ _ _ _ _ _ _ R12 R3) as R13. cbn in R13.
  assert (Done : ran req (wait_for attempt + waits n (S attempt)) (S n) s s3) by (eapply ran_weaken, R13; lia).
  assert (Again : exists s' r, connect_from recv rnd send_ok n (S attempt) s3 = (s', r) /\ returns r = true /\
    ran req (wait_for attempt + waits n (S attempt)) (S n) s s' /\ forall cid t, r = Ok (cid, t) -> t = now s' /\ grants (log s') cid t).
  { destruct (IH (S attempt) s3) as (s' & r & E & Hr & Rr & Hg). exists s', r. split_and!; [done|done| |done].
    eapply ran_weaken, (ran_trans _ _ _ _ _ _ _ _ R13 Rr); lia. }
  destruct H3 as [->|[->|(d & -> & L3)]]; [by eexists _, _|exact Again|].
  destruct (Nat.ltb_spec (length d) 16) as [|Hd]; [by eexists _, _|]. rewrite !be_at_Ok by lia. cbn beta iota.
  destruct (Z.eqb_spec (from_be (slice d 4 4)) tx) as [Etx|]; [|exact Again]. cbn [negb].
  destruct (from_be (slice d 0 4) =? ACTION_ERROR); [by eexists _, _|].
  destruct (Z.eqb_spec (from_be (slice d 0 4)) ACTION_CONNECT) as [Ea|]; [|by eexists _, _]. cbn [negb].
  eexists _, _. split; [reflexivity|]. split_and!; [done|done|]. intros cid t [= <- <-]. split; [done|].
  exists (log s1), [], tx, (now s1), d. rewrite L3, L2, <- app_assoc. rewrite !be_at_Ok by lia. by rewrite Ea, Etx.
Qed.

(** The id in hand was granted no earlier than [ct], unless it is too old to be used. *)
Definition fresh (s : Net) (cid ct : Z) : Prop :=
  now s - ct < CONNECTION_ID_MAX_AGE -> exists t0, grants (log s) cid t0 /\ ct <= t0 <= now s.

Lemma refresh_ran s cid ct : fresh s cid ct -> exists s' r, refresh recv rnd send_ok cid ct s = (s', r) /\ returns r = true /\
  ran req (waits 4 0) 4 s s' /\ forall cid' ct', r = Ok (cid', ct') ->
    exists t0, grants (log s') cid' t0 /\ ct' <= t0 <= now s' /\ now s' - t0 < CONNECTION_ID_MAX_AGE.
Proof.
  intros Hf. unfold refresh. msteps. destruct (Z.leb_spec CONNECTION_ID_MAX_AGE (now s - ct)) as [H|H].
  - destruct (connect_ran MAX_RETRIES 0 s) as (s' & r & E & Hr & R & Hg). exists s', r. split_and!; [done|done|exact R|].
    intros cid' ct' Hok. destruct (Hg _ _ Hok) as [-> G]. exists (now s'). split_and!; [done|lia|lia|]. unfold CONNECTION_ID_MAX_AGE. lia.
  - eexists _, _. split; [reflexivity|]. split_and!; [done|by eapply ran_weaken, ran_refl; [|lia]|].
    intros cid' ct' [= <- <-]. destruct (Hf H) as (t0 & G & Ht). exists t0. split_and!; [done|lia|lia|lia].
Qed.

(** The last two entries of the log are the announce and its answer. *)
Definition answered (s' : Net) (resp : AnnounceResponse) : Prop :=
  exists l cid tx key t0 t d, log s' = l ++ [LSent t0 (build_announce_packet cid tx key req); LGot t d] /\
    be_at d 0 4 = Ok ACTION_ANNOUNCE /\ be_at d 4 4 = Ok tx /\ parse_announce_response d = Ok resp.

Lemma announce_ran n : forall attempt cid ct s, fresh s cid ct ->
  exists s' r, do_announce_from recv rnd send_ok n attempt cid ct req s = (s', r) /\ returns r = true /\
    ran req (waits 4 0 * Z.of_nat n + waits n attempt) (5 * n) s s' /\ forall resp, r = Ok resp -> answered s' resp.
Proof.
  induction n as [|n IH]; intros attempt cid ct s Hf; cbn [do_announce_from].
  { eexists _, _. split; [reflexivity|]. split_and!; [done| |done]. eapply ran_weaken, ran_refl; [|lia]. unfold waits. rewrite Nat.add_0_r. lia. }
  destruct (waits_S n attempt) as (Ew & W1 & W2). rewrite Ew. assert (W0 : 0 <= waits 4 0) by (vm_compute; done). msteps.
  set (T := waits 4 0 * Z.of_nat (S n) + (wait_for attempt + waits n (S attempt))).
  destruct (refresh_ran s cid ct Hf) as (s1 & r1 & -> & Hr1 & R1 & G1). cbn beta iota.
  assert (Stop : forall d k s', ran req d k s s' -> d <= waits 4 0 + wait_for attempt -> (k <= 5)%nat -> ran req T (5 * S n) s s').
  { intros d k s' Hr Hd Hk. eapply ran_weaken, Hr; unfold T; nia. }
  destruct r1 as [[cid' ct']|e| |]; try done; [|eexists _, _; split; [reflexivity|]; split_and!; [done|by eapply Stop; [exact R1|lia|lia]|done]].
  destruct (G1 _ _ eq_refl) as (t0 & G & Ht & Hage). cbn beta iota.
  destruct (random_ran s1) as (s2 & tx & -> & R2 & L2 & N2). cbn beta iota. destruct (random_ran s2) as (s3 & key & -> & R3 & L3 & N3). cbn beta iota.
  destruct (send_ran s3 (build_announce_packet cid' tx key req) (ETracker "udp send announce")) as (s4 & r4 & -> & R4 & H4).
  { right. exists cid', tx, key, t0. split_and!; [done|by rewrite L3, L2|lia|lia]. }
  pose proof (ran_trans _ _ _ _ _ _ _ _ R1 (ran_trans _ _ _ _ _ _ _ _ R2 (ran_trans _ _ _ _ _ _ _ _ R3 R4))) as R14. cbn [Nat.add Z.add] in R14.
  destruct H4 as [->|(-> & L4 & T4)]; [eexists _, _; split; [reflexivity|]; split_and!; [done|by eapply Stop; [exact R14|lia|lia]|done]|].
  destruct (recv_ran s4 (wait_for attempt) ANNOUNCE_BUF (ETracker "udp recv announce") W2) as (s5 & r5 & -> & R5 & H5).
  pose proof (ran_trans _ _ _ _ _ _ _ _ R14 R5) as R15. cbn [Nat.add Z.add] in R15. rewrite Z.add_0_r in R15.
  assert (Done : ran req T (5 * S n) s s5) by (eapply Stop; [exact R15|lia|lia]).
  assert (Again : forall ct'', fresh s5 cid' ct'' -> exists s' r, do_announce_from recv rnd send_ok n (S attempt) cid' ct'' req s5 = (s', r) /\
    returns r = true /\ ran req T (5 * S n) s s' /\ forall resp, r = Ok resp -> answered s' resp).
  { intros ct'' Hf'. destruct (IH (S attempt) cid' ct'' s5 Hf') as (s' & r & E & Hr & Rr & Ha). exists s', r. split_and!; [done|done| |done].
    eapply ran_weaken, (ran_trans _ _ _ _ _ _ _ _ R15 Rr); unfold T; lia. }
  assert (Hold : fresh s5 cid' ct').
  { intros _. exists t0. destruct R2 as [? _], R3 as [? _], R4 as [? _], R5 as [? Rl]. split_and!; [|lia|lia].
    destruct Rl as ((e5 & -> & _) & _). rewrite L4, L3, L2. by apply grants_app, grants_app. }
  destruct H5 as [->|[->|(d & -> & L5)]]; [by eexists _, _|by apply Again|].
  destruct (Nat.ltb_spec (length d) 8) as [|Hd]; [by eexists _, _|]. rewrite !be_at_Ok by lia. cbn beta iota.
  destruct (Z.eqb_spec (from_be (slice d 4 4)) tx) as [Etx|]; [|by apply Again]. cbn [negb].
  destruct (from_be (slice d 0 4) =? ACTION_ERROR); [apply Again; intros H; lia|].
  destruct (Z.eqb_spec (from_be (slice d 0 4)) ACTION_ANNOUNCE) as [Ea|]; [|by eexists _, _]. cbn [negb].
  eexists _, _. split; [reflexivity|]. split_and!; [apply parse_announce_ok|done|]. intros resp Hp.
  exists (log s3), cid', tx, key, (now s3), (now s5), d. rewrite L5, L4, <- app_assoc. rewrite !be_at_Ok by lia. by rewrite Ea, Etx.
Qed.
End traffic.

Lemma exchange_ran recv rnd send_ok req s :
  exists s' r, udp_exchange recv rnd send_ok req s = (s', r) /\ returns r = true /\
    now s <= now s' <= now s + 1350 * 1000 /\
    (length (List.filter is_send (log s')) <= length (List.filter is_send (log s)) + 24)%nat /\
    (exists ext, log s' = log s ++ ext /\ forall l t p r', ext = l ++ LSent t p :: r' ->
       (exists tx, p = connect_packet tx) \/
       exists cid tx key t0, p = build_announce_packet cid tx key req /\ grants (log s ++ l) cid t0 /\ 0 <= t - t0 < CONNECTION_ID_MAX_AGE) /\
    forall resp, r = Ok resp -> answered req s' resp.
Proof.
  unfold udp_exchange, connect. msteps. destruct (connect_ran recv rnd send_ok req MAX_RETRIES 0 s) as (s1 & r1 & -> & H1 & R1 & G1).
  assert (F : forall dt dn s' r, ran req dt dn s s' -> dt <= 1350 * 1000 -> (dn <= 24)%nat -> returns r = true ->
    (forall resp, r = Ok resp -> answered req s' resp) -> exists s'' r'', (s', r) = (s'', r'') /\ returns r'' = true /\
    now s <= now s'' <= now s + 1350 * 1000 /\
    (length (List.filter is_send (log s'')) <= length (List.filter is_send (log s)) + 24)%nat /\
    (exists ext, log s'' = log s ++ ext /\ allowed req (log s) ext) /\ forall resp, r'' = Ok resp -> answered req s'' resp).
  { intros dt dn s' r (HT & HL & HN) Hdt Hdn Hr Ha. exists s', r. split_and!; [done|done|lia|lia|lia|done|done]. }
  destruct r1 as [[cid ct]|e| |]; try done; [|apply (F _ _ _ _ R1); [by vm_compute|unfold MAX_RETRIES; lia|done|done]].
  destruct (G1 _ _ eq_refl) as [-> G]. cbn beta iota. unfold do_announce.
  destruct (announce_ran recv rnd send_ok req MAX_RETRIES 0 cid (now s1) s1) as (s2 & r2 & -> & H2 & R2 & A2).
  { intros _. exists (now s1). split; [done|lia]. }
  apply (F _ _ _ _ (ran_trans _ _ _ _ _ _ _ _ R1 R2)); [by vm_compute|unfold MAX_RETRIES; lia|done|done].
Qed.

(** ** Dispatch and the walk over the tiers *)

(** Whom an announce sends to, and when. *)
Inductive Contact :=
  | CUdp (addr : SocketAddr)
  | CHttp (url : bytes) (proxied : bool).

(** An announce: how long it takes, the contacts on the way, the outcome. *)
Record Announce := mkAnn { an_time : Z; an_contacts : list (Z * Contact); an_result : result AnnounceResponse }.

Section walk.
(** Name resolution with its duration; the network a UDP announce sees; whether its socket binds;
    an HTTP announce; the host the URL library finds in a URL it can parse. *)
Context (lookup_host : bytes -> Z * option (list SocketAddr)).
Context (udp_recv : bytes -> nat -> Recv) (udp_rnd : bytes -> nat -> Z) (udp_send_ok : bytes -> nat -> bool).
Context (bind_ok : bool).
Context (http_announce : bytes -> bool -> bool -> Z * result AnnounceResponse).
Context (url_host : bytes -> option (option bytes)).

Definition refuse (e : Error) : Announce := mkAnn 0 [] (Err e).

Definition resolve_udp_target (host_port : bytes) : Z * result SocketAddr :=
  let '(t, addrs) := lookup_host host_port in
  (t, match addrs with Some addrs => pick_udp_addr addrs | None => Err (ETracker "dns") end).

Definition udp_announce (url : bytes) (req : AnnounceRequest) : Announce :=
  if has_prefix (bs "udp://") url then
    let host_port := before (fun c => Byte.eqb c "/") (drop (length (bs "udp://")) url) in
    let '(t, target) := resolve_udp_target host_port in
    match target with
    | Ok addr =>
        if negb bind_ok then mkAnn t [] (Err (ETracker "udp bind"))
        else
          let '(s, r) := udp_exchange (udp_recv url) (udp_rnd url) (udp_send_ok url) req (mkNet 0 0 0 0 []) in
          mkAnn (t + now s) [(t, CUdp addr)] r
    | Err e => mkAnn t [] (Err e)
    | Panic => mkAnn t [] Panic
    | NoFuel => mkAnn t [] NoFuel
    end
  else refuse (ETracker "not a udp URL").

Definition announce_with_proxy_anon (url : bytes) (req : AnnounceRequest) (proxied anonymous : bool) : Announce :=
  if anonymous && negb proxied then refuse (ETracker "anonymous mode requires a SOCKS5 proxy; refusing direct tracker announce")
  else if has_prefix (bs "udp://") url then
    if anonymous || proxied then refuse (ETracker "skipping UDP tracker while proxy is configured or anonymous mode is on")
    else udp_announce url req
  else if has_prefix (bs "http://") url || has_prefix (bs "https://") url then
    let '(t, r) := http_announce url proxied anonymous in mkAnn t [(0, CHttp url proxied)] r
  else refuse (ETracker "unsupported tracker scheme").

Definition tracker_url_dialable (url : bytes) (strict : bool) : bool :=
  match url_host url with
  | Some (Some h) => is_dialable_url_host h strict
  | Some None => false
  | None => false
  end.

Definition martian_refused : Error := ETracker "tracker host refused by martian screen".

(** The contacts of an announce that starts at time [t]. *)
Definition shift (t : Z) (cs : list (Z * Contact)) : list (Z * Contact) := (fun '(d, c) => (t + d, c)) <$> cs.

(** A walk so far: the time, the contacts, and how it ended or the last error. *)
Record Walk := mkWalk { wk_time : Z; wk_contacts : list (Z * Contact); wk_end : option (result (bytes * AnnounceResponse)); wk_last : option Error }.

Definition announce_one (w : Walk) (url : bytes) (req : AnnounceRequest) (proxied anonymous : bool) : Walk :=
  let a := announce_with_proxy_anon url req proxied anonymous in
  let t := wk_time w + an_time a in
  let cs := wk_contacts w ++ shift (wk_time w) (an_contacts a) in
  match an_result a with
  | Ok r => mkWalk t cs (Some (Ok (url, r))) (wk_last w)
  | Err e => mkWalk t cs None (Some e)
  | Panic => mkWalk t cs (Some Panic) (wk_last w)
  | NoFuel => mkWalk t cs (Some NoFuel) (wk_last w)
  end.

Fixpoint walk_tier (w : Walk) (tier : list bytes) (req : AnnounceRequest) (proxied anonymous : bool) : Walk :=
  match tier with
  | [] => w
  | url :: tier =>
      if negb (tracker_url_dialable url (anonymous || proxied)) then
        walk_tier (mkWalk (wk_time w) (wk_contacts w) None (Some martian_refused)) tier req proxied anonymous
      else
        let w := announce_one w url req proxied anonymous in
        match wk_end w with Some _ => w | None => walk_tier w tier req proxied anonymous end
  end.

Fixpoint walk_list (w : Walk) (tiers : list (list bytes)) (req : AnnounceRequest) (proxied anonymous : bool) : Walk :=
  match tiers with
  | [] => w
  | tier :: tiers =>
      let w := walk_tier w tier req proxied anonymous in
      match wk_end w with Some _ => w | None => walk_list w tiers req proxied anonymous end
  end.

Definition walk_fallback (w : Walk) (fallback_single : option bytes) (req : AnnounceRequest) (proxied anonymous : bool) : Walk :=
  match fallback_single with
  | None => w
  | Some url =>
      if negb (tracker_url_dialable url (anonymous || proxied)) then mkWalk (wk_time w) (wk_contacts w) (Some (Err martian_refused)) (wk_last w)
      else announce_one w url req proxied anonymous
  end.

(** The time and the contacts of the walk, and what it returns. *)
Definition walk_tiers (tiers : list (list bytes)) (fallback_single : option bytes) (req : AnnounceRequest) (proxied anonymous : bool)
    : Z * list (Z * Contact) * result (bytes * AnnounceResponse) :=
  let w := walk_list (mkWalk 0 [] None None) tiers req proxied anonymous in
  let w := match wk_end w with Some _ => w | None => walk_fallback w fallback_single req proxied anonymous end in
  (wk_time w, wk_contacts w,
   match wk_end w with Some r => r | None => Err (default (ETracker "no trackers configured") (wk_last w)) end).

Definition ANNOUNCE_WALK_DEADLINE : Z := 60 * 1000.

(** The whole walk under its deadline: what would come after it does not happen. *)
Definition announce_walk (tiers : list (list bytes)) (fallback_single : option bytes) (req : AnnounceRequest) (proxied anonymous : bool)
    (deadline : Z) : list (Z * Contact) * result (bytes * AnnounceResponse) :=
  let '(t, cs, r) := walk_tiers tiers fallback_single req proxied anonymous in
  if t <=? deadline then (cs, r)
  else (List.filter (fun x => x.1 <? deadline) cs, Err (ETracker "announce walk exceeded its deadline")).

Definition announce_with_fallback_anon (tiers : list (list bytes)) (fallback_single : option bytes) (req : AnnounceRequest) (proxied anonymous : bool) :=
  announce_walk tiers fallback_single req proxied anonymous ANNOUNCE_WALK_DEADLINE.

(** The single announce of the magnet bootstrap: screened, then HTTP whatever the scheme. *)
Definition announce_screened (url : bytes) (proxied anonymous : bool) : Announce :=
  if negb (tracker_url_dialable url (anonymous || proxied)) then refuse martian_refused
  else let '(t, r) := http_announce url proxied anonymous in mkAnn t [(0, CHttp url proxied)] r.
End walk.

(** ** Where announces go *)

Section screened.
Context (lookup_host : bytes -> Z * option (list SocketAddr)).
Context (udp_recv : bytes -> nat -> Recv) (udp_rnd : bytes -> nat -> Z) (udp_send_ok : bytes -> nat -> bool).
Context (bind_ok : bool).
Context (http_announce : bytes -> bool -> bool -> Z * result AnnounceResponse).
Context (url_host : bytes -> option (option bytes)).

#[local] Abbreviation announce_ := (announce_with_proxy_anon lookup_host udp_recv udp_rnd udp_send_ok bind_ok http_announce).
#[local] Abbreviation walk_tier_ := (walk_tier lookup_host udp_recv udp_rnd udp_send_ok bind_ok http_announce url_host).
#[local] Abbreviation walk_list_ := (walk_list lookup_host udp_recv udp_rnd udp_send_ok bind_ok http_announce url_host).
#[local] Abbreviation walk_tiers_ := (walk_tiers lookup_host udp_recv udp_rnd udp_send_ok bind_ok http_announce url_host).
#[local] Abbreviation announce_walk_ := (announce_walk lookup_host udp_recv udp_rnd udp_send_ok bind_ok http_announce url_host).
#[local] Abbreviation announce_one_ := (announce_one lookup_host udp_recv udp_rnd udp_send_ok bind_ok http_announce).

(** A contact the policy allows: UDP only in the clear and to a screened address, HTTP directly
    only when not anonymous, to a tracker whose host passed the screen. *)
Definition contact_ok (proxied anonymous : bool) (c : Contact) : Prop :=
  match c with
  | CUdp addr => anonymous = false /\ proxied = false /\ is_dialable_resolved_ip (sa_ip addr) false = true
  | CHttp url p => p = proxied /\ (anonymous = true -> proxied = true) /\
      (has_prefix (bs "http://") url = true \/ has_prefix (bs "https://") url = true)
  end.

Lemma pick_udp_addr_ok addrs a : pick_udp_addr addrs = Ok a -> is_dialable_resolved_ip (sa_ip a) false = true /\ a ∈ addrs.
Proof.
  unfold pick_udp_addr, filter_dialable_addrs. destruct (_ =? 0)%nat; [done|]. cbn [mbind result_bind].
  intros H. unfold index in H. destruct (List.filter _ _ !! 0%nat) as [x|] eqn:E; [|done]. injection H as ->.
  apply list_elem_of_lookup_2, list_elem_of_In, filter_In in E as [E1 E2]. split; [done|].
  apply list_elem_of_In in E1. by rewrite (sort_by_perm addr_ltb addrs) in E1.
Qed.

Lemma announce_contacts url req proxied anonymous :
  Forall (fun x => contact_ok proxied anonymous x.2) (an_contacts (announce_ url req proxied anonymous)).
Proof.
  unfold announce_with_proxy_anon. destruct (anonymous && negb proxied) eqn:E1; [constructor|].
  destruct (has_prefix (bs "udp://") url) eqn:E2.
  - destruct (anonymous || proxied) eqn:E3; [constructor|]. apply orb_false_iff in E3 as [-> ->].
    unfold udp_announce, resolve_udp_target. rewrite E2. destruct (lookup_host _) as [t [addrs|]]; [|constructor].
    destruct (pick_udp_addr addrs) as [a|e| |] eqn:Ep; try constructor. destruct bind_ok; [|constructor]. cbn [negb].
    destruct (udp_exchange _ _ _ _ _) as [s r]. apply list.Forall_singleton. cbn. split_and!; [done|done|]. by apply (pick_udp_addr_ok addrs).
  - destruct (has_prefix (bs "http://") url || has_prefix (bs "https://") url) eqn:E3; [|constructor].
    destruct (http_announce url proxied anonymous) as [t r]. apply list.Forall_singleton. cbn. split_and!; [done| |by apply orb_true_iff].
    intros ->. by destruct proxied.
Qed.

Section one_walk.
Context (req : AnnounceRequest) (proxied anonymous : bool).

#[local] Abbreviation dialable u := (tracker_url_dialable url_host u (anonymous || proxied) = true).
#[local] Abbreviation outcome u := (an_result (announce_ u req proxied anonymous)).

(** A tracker the walk gets past: refused by the screen, or its announce failed. *)
Definition passed_over (u : bytes) : Prop := ~ dialable u \/ exists e, outcome u = Err e.

(** The first tracker of [urls] that is not passed over, if any, ends the walk. *)
Definition ends_at (urls : list bytes) (r : option (result (bytes * AnnounceResponse))) : Prop :=
  match r with
  | None => Forall passed_over urls
  | Some (Ok (u, resp)) => exists a b, urls = a ++ u :: b /\ Forall passed_over a /\ dialable u /\ outcome u = Ok resp
  | Some (Err _) => False
  | Some Panic => exists u, u ∈ urls /\ outcome u = Panic
  | Some NoFuel => exists u, u ∈ urls /\ outcome u = NoFuel
  end.

(** The contacts made are those of announces to screened trackers of [urls]. *)
Definition contacts_of (urls : list bytes) (old new : list (Z * Contact)) : Prop :=
  Forall (fun x => x ∈ old \/ exists u, u ∈ urls /\ dialable u /\ x.2 ∈ (an_contacts (announce_ u req proxied anonymous)).*2) new.

Lemma contacts_of_refl urls cs : contacts_of urls cs cs.
Proof. apply list.Forall_forall. intros x Hx. by left. Qed.

Lemma contacts_of_mono urls urls' a b : (forall u, u ∈ urls -> u ∈ urls') -> contacts_of urls a b -> contacts_of urls' a b.
Proof.
  intros Hs H. eapply list.Forall_impl; [exact H|]. intros x [|(u & Hu & Hx)]; [by left|]. right. exists u. split; [by apply Hs|done].
Qed.

Lemma contacts_of_trans urls a b c : contacts_of urls a b -> contacts_of urls b c -> contacts_of urls a c.
Proof.
  unfold contacts_of. rewrite !list.Forall_forall. intros H1 H2 x Hx. destruct (H2 x Hx) as [Hb|H]; [by apply H1|by right].
Qed.

Lemma announce_one_spec w url : wk_end w = None -> dialable url ->
  contacts_of [url] (wk_contacts w) (wk_contacts (announce_one_ w url req proxied anonymous)) /\
  ends_at [url] (wk_end (announce_one_ w url req proxied anonymous)).
Proof.
  intros Hw Hd. assert (C : contacts_of [url] (wk_contacts w) (wk_contacts (announce_one_ w url req proxied anonymous))).
  { unfold announce_one. set (a := announce_ url req proxied anonymous).
    assert (E : contacts_of [url] (wk_contacts w) (wk_contacts w ++ shift (wk_time w) (an_contacts a))).
    { apply list.Forall_app. split; [apply contacts_of_refl|]. apply list.Forall_forall. intros x Hx. right. exists url.
      split; [by left|]. split; [done|]. unfold shift in Hx. apply list_elem_of_fmap in Hx as ([d c] & -> & Hx). cbn.
      apply list_elem_of_fmap. by exists (d, c). }
    by destruct (an_result a). }
  split; [exact C|]. unfold announce_one. destruct (outcome url) as [r|e| |] eqn:E; cbn [wk_end ends_at].
  - exists [], []. by repeat split.
  - apply list.Forall_singleton. right. by exists e.
  - exists url. split; [by left|done].
  - exists url. split; [by left|done].
Qed.

Lemma ends_at_app a b r : Forall passed_over a -> ends_at b r -> ends_at (a ++ b) r.
Proof.
  intros Ha. destruct r as [[[u resp]|e| |]|]; cbn [ends_at].
  - intros (x & y & -> & H). exists (a ++ x), y. split; [by rewrite <- app_assoc|]. destruct H as (? & ? & ?). split_and!; try done.
    by apply list.Forall_app.
  - done.
  - intros (u & Hu & H). exists u. split; [|done]. apply elem_of_app. by right.
  - intros (u & Hu & H). exists u. split; [|done]. apply elem_of_app. by right.
  - intros H. by apply list.Forall_app.
Qed.

Lemma ends_at_more a b r : ends_at a (Some r) -> ends_at (a ++ b) (Some r).
Proof.
  destruct r as [[u resp]|e| |]; cbn [ends_at]; try done.
  - intros (x & y & -> & H). exists x, (y ++ b). split; [by rewrite <- app_assoc|done].
  - intros (u & Hu & H). exists u. split; [|done]. apply elem_of_app. by left.
  - intros (u & Hu & H). exists u. split; [|done]. apply elem_of_app. by left.
Qed.

Lemma walk_tier_spec tier : forall w, wk_end w = None ->
  contacts_of tier (wk_contacts w) (wk_contacts (walk_tier_ w tier req proxied anonymous)) /\
  ends_at tier (wk_end (walk_tier_ w tier req proxied anonymous)).
Proof.
  induction tier as [|url tier IH]; intros w Hw; cbn [walk_tier].
  { split; [apply contacts_of_refl|]. rewrite Hw. by apply list.Forall_nil. }
  destruct (tracker_url_dialable url_host url (anonymous || proxied)) eqn:Ed; cbn [negb].
  - destruct (announce_one_spec w url Hw Ed) as [C E].
    destruct (wk_end (announce_one_ w url req proxied anonymous)) as [r|] eqn:Er.
    + rewrite Er. split; [|by apply (ends_at_more [url] tier)]. eapply contacts_of_mono, C. intros u ->%list_elem_of_singleton. by left.
    + destruct (IH _ Er) as [C' E']. split; [|by apply (ends_at_app [url])].
      eapply contacts_of_trans; [eapply contacts_of_mono, C|eapply contacts_of_mono, C'].
      * intros u ->%list_elem_of_singleton. by left.
      * intros u Hu. by right.
  - destruct (IH (mkWalk (wk_time w) (wk_contacts w) None (Some martian_refused)) eq_refl) as [C' E']. cbn [wk_contacts] in C'. split.
    + eapply contacts_of_mono, C'. intros u Hu. by right.
    + apply (ends_at_app [url]); [|done]. apply list.Forall_singleton. left. by rewrite Ed.
Qed.

Lemma walk_list_spec tiers : forall w, wk_end w = None ->
  contacts_of (concat tiers) (wk_contacts w) (wk_contacts (walk_list_ w tiers req proxied anonymous)) /\
  ends_at (concat tiers) (wk_end (walk_list_ w tiers req proxied anonymous)).
Proof.
  induction tiers as [|tier tiers IH]; intros w Hw; cbn [walk_list concat].
  { split; [apply contacts_of_refl|]. rewrite Hw. by apply list.Forall_nil. }
  destruct (walk_tier_spec tier w Hw) as [C E]. destruct (wk_end (walk_tier_ w tier req proxied anonymous)) as [r|] eqn:Er.
  - rewrite Er. split; [|by apply ends_at_more]. eapply contacts_of_mono, C. intros u Hu. apply elem_of_app. by left.
  - destruct (IH _ Er) as [C' E']. split; [|by apply ends_at_app].
    eapply contacts_of_trans; [eapply contacts_of_mono, C|eapply contacts_of_mono, C']; intros u Hu; apply elem_of_app; [by left|by right].
Qed.

(** The whole walk: the tiers in order, then the single tracker. *)
Lemma walk_tiers_spec tiers fallback t cs r : walk_tiers_ tiers fallback req proxied anonymous = (t, cs, r) ->
  let urls := concat tiers ++ option_list fallback in
  contacts_of urls [] cs /\ match r with Err _ => Forall passed_over urls | r => ends_at urls (Some r) end.
Proof.
  intros H urls. unfold walk_tiers in H. destruct (walk_list_spec tiers (mkWalk 0 [] None None) eq_refl) as [C E]. cbn [wk_contacts] in C.
  set (w := walk_list_ (mkWalk 0 [] None None) tiers req proxied anonymous) in *.
  assert (Hl : forall u, u ∈ concat tiers -> u ∈ urls) by (intros u Hu; apply elem_of_app; by left).
  destruct (wk_end w) as [x|] eqn:Ew.
  { rewrite Ew in H. injection H as _ <- <-. split; [by eapply contacts_of_mono, C|].
    pose proof (ends_at_more _ (option_list fallback) _ E) as E'. by destruct x as [[]| | |]. }
  unfold walk_fallback in H. destruct fallback as [url|]; cbn [option_list] in *.
  2: { rewrite Ew in H. injection H as _ <- <-. split; [by eapply contacts_of_mono, C|]. unfold urls. by rewrite app_nil_r. }
  destruct (tracker_url_dialable url_host url (anonymous || proxied)) eqn:Ed; cbn [negb] in H.
  - destruct (announce_one_spec w url Ew Ed) as [C1 E1]. injection H as _ <- <-. split.
    + eapply contacts_of_trans; [by eapply contacts_of_mono, C|]. eapply contacts_of_mono, C1. intros u Hu. apply elem_of_app. by right.
    + pose proof (ends_at_app _ _ _ E E1) as E2. by destruct (wk_end (announce_one_ w url req proxied anonymous)) as [[[]| | |]|].
  - injection H as _ <- <-. cbn [wk_contacts]. split; [by eapply contacts_of_mono, C|].
    apply list.Forall_app. split; [exact E|]. apply list.Forall_singleton. left. by rewrite Ed.
Qed.
End one_walk.

(** Announcing over tiers.  The walk returns the response of the first tracker, in the order of
    the tiers and then the single one, that the host screen lets through and whose announce
    succeeds; it fails only if every tracker was refused or failed; and a deadline can only turn
    the result into an error. *)
Lemma walk_first_success req proxied anonymous tiers fallback deadline cs r :
  (forall u, returns (an_result (announce_ u req proxied anonymous)) = true) ->
  announce_walk_ tiers fallback req proxied anonymous deadline = (cs, r) ->
  let urls := concat tiers ++ option_list fallback in
  match r with
  | Ok (u, resp) => exists a b, urls = a ++ u :: b /\ Forall (passed_over req proxied anonymous) a /\
      tracker_url_dialable url_host u (anonymous || proxied) = true /\ an_result (announce_ u req proxied anonymous) = Ok resp
  | Err e => Forall (passed_over req proxied anonymous) urls \/ e = ETracker "announce walk exceeded its deadline"
  | _ => False
  end.
Proof.
  intros Hret H urls. unfold announce_walk in H.
  destruct (walk_tiers_ tiers fallback req proxied anonymous) as [[t cs'] r'] eqn:E.
  destruct (walk_tiers_spec req proxied anonymous tiers fallback t cs' r' E) as [_ S]. fold urls in S.
  destruct (t <=? deadline); injection H as _ <-; [|by right].
  destruct r' as [[u resp]|e| |]; cbn [ends_at] in S; [done|by left| |].
  - destruct S as (u & _ & Hu). specialize (Hret u). by rewrite Hu in Hret.
  - destruct S as (u & _ & Hu). specialize (Hret u). by rewrite Hu in Hret.
Qed.

(** C15: no announce escapes the policy.  Whatever the tiers hold, whatever names resolve to and
    whatever trackers answer, every contact of the walk belongs to a listed tracker whose host
    passed the screen; UDP goes out only when neither anonymous nor proxied and only to
    addresses the resolution screen accepts; and an anonymous session contacts trackers over
    its proxy or not at all. *)
Theorem walk_contacts_allowed req proxied anonymous tiers fallback deadline cs r :
  announce_walk_ tiers fallback req proxied anonymous deadline = (cs, r) ->
  Forall (fun x => contact_ok proxied anonymous x.2 /\
    exists u, u ∈ concat tiers ++ option_list fallback /\ tracker_url_dialable url_host u (anonymous || proxied) = true /\
      x.2 ∈ (an_contacts (announce_ u req proxied anonymous)).*2) cs.
Proof.
  unfold announce_walk. destruct (walk_tiers_ tiers fallback req proxied anonymous) as [[t cs'] r'] eqn:E. intros H.
  destruct (walk_tiers_spec req proxied anonymous tiers fallback t cs' r' E) as [C _].
  assert (A : forall x, x ∈ cs' -> contact_ok proxied anonymous x.2 /\
    exists u, u ∈ concat tiers ++ option_list fallback /\ tracker_url_dialable url_host u (anonymous || proxied) = true /\
      x.2 ∈ (an_contacts (announce_ u req proxied anonymous)).*2).
  { intros x Hx. unfold contacts_of in C. rewrite list.Forall_forall in C. destruct (C x Hx) as [[]%not_elem_of_nil|(u & Hu & Hd & Hc)].
    split; [|by exists u]. apply list_elem_of_fmap in Hc as ([d c] & E2 & Hc). rewrite E2.
    pose proof (announce_contacts u req proxied anonymous) as F. rewrite list.Forall_forall in F. by apply (F (d, c)). }
  apply list.Forall_forall. intros x Hx. apply A. destruct (t <=? deadline); injection H as <- _; [done|].
  apply list_elem_of_In, filter_In in Hx as [Hx _]. by apply list_elem_of_In.
Qed.

(** ** A silent UDP tracker *)

Lemma silent_exchange recv rnd send_ok req s : (forall n, recv n = RTimeout) -> (forall n, send_ok n = true) ->
  now (udp_exchange recv rnd send_ok req s).1 = now s + 225 * 1000 /\
  (udp_exchange recv rnd send_ok req s).2 = Err (ETracker "connect retries exhausted").
Proof.
  intros Hr Hs. unfold udp_exchange, connect, MAX_RETRIES, connect_from, random_u32, sock_send, sock_recv. msteps.
  repeat (rewrite Hs; cbn [now recvs rands sends log]; rewrite Hr; cbn [now recvs rands sends log]).
  cbn [fst snd now]. split; [|done].
  change (wait_for 0) with 15000. change (wait_for 1) with 30000. change (wait_for 2) with 60000. change (wait_for 3) with 120000. lia.
Qed.

Section slow.
Context (lookup_time : forall h, 0 <= (lookup_host h).1) (http_time : forall u p a, 0 <= (http_announce u p a).1).
Context (req : AnnounceRequest) (proxied anonymous : bool).

Lemma an_time_nonneg u : 0 <= an_time (announce_ u req proxied anonymous).
Proof using lookup_time http_time.
  unfold announce_with_proxy_anon. destruct (_ && _); [done|]. destruct (has_prefix (bs "udp://") u) eqn:E.
  - destruct (_ || _); [done|]. unfold udp_announce, resolve_udp_target. rewrite E.
    pose proof (lookup_time (before (fun c => Byte.eqb c "/") (drop (length (bs "udp://")) u))) as Ht. destruct (lookup_host _) as [t addrs].
    cbn [fst] in Ht. destruct (match addrs with Some a => pick_udp_addr a | None => _ end); try done. destruct bind_ok; [|done]. cbn [negb].
    destruct (exchange_ran (udp_recv u) (udp_rnd u) (udp_send_ok u) req (mkNet 0 0 0 0 [])) as (s' & r & -> & _ & Hn & _). cbn in *. lia.
  - destruct (_ || _); [|done]. pose proof (http_time u proxied anonymous). by destruct (http_announce u proxied anonymous).
Qed.

Lemma announce_one_time w u : wk_time w <= wk_time (announce_one_ w u req proxied anonymous).
Proof using lookup_time http_time. pose proof (an_time_nonneg u). unfold announce_one. destruct (an_result _); cbn [wk_time]; lia. Qed.

Lemma walk_time_mono : (forall tier w, wk_time w <= wk_time (walk_tier_ w tier req proxied anonymous)) /\
  forall tiers w, wk_time w <= wk_time (walk_list_ w tiers req proxied anonymous).
Proof using lookup_time http_time.
  assert (T : forall tier w, wk_time w <= wk_time (walk_tier_ w tier req proxied anonymous)).
  { induction tier as [|u tier IH]; intros w; cbn [walk_tier]; [done|]. destruct (negb _); [apply (IH (mkWalk _ _ _ _))|].
    pose proof (announce_one_time w u). destruct (wk_end (announce_one_ w u req proxied anonymous)); [done|]. etransitivity; [done|apply IH]. }
  split; [exact T|]. induction tiers as [|tier tiers IH]; intros w; cbn [walk_list]; [done|].
  pose proof (T tier w). destruct (wk_end (walk_tier_ w tier req proxied anonymous)); [done|]. etransitivity; [done|apply IH].
Qed.
End slow.

(** A UDP tracker that does not answer, listed first, uses up the deadline of the whole walk: no
    tracker after it is ever tried, however healthy. *)
Lemma silent_udp_tracker_starves req u tier tiers fallback t addrs :
  (forall h, 0 <= (lookup_host h).1) -> (forall v p a, 0 <= (http_announce v p a).1) ->
  has_prefix (bs "udp://") u = true -> tracker_url_dialable url_host u false = true -> bind_ok = true ->
  lookup_host (before (fun c => Byte.eqb c "/") (drop (length (bs "udp://")) u)) = (t, Some addrs) ->
  (exists a, pick_udp_addr addrs = Ok a) ->
  (forall n, udp_recv u n = RTimeout) -> (forall n, udp_send_ok u n = true) ->
  (announce_with_fallback_anon lookup_host udp_recv udp_rnd udp_send_ok bind_ok http_announce url_host
     ((u :: tier) :: tiers) fallback req false false).2 = Err (ETracker "announce walk exceeded its deadline").
Proof.
  intros Hl Hh Hu Hd Hb Ht (a & Ha) Hr Hs. unfold announce_with_fallback_anon, announce_walk, walk_tiers. cbn [walk_list walk_tier orb].
  rewrite Hd. cbn [negb]. set (w0 := mkWalk 0 [] None None). set (w1 := announce_one_ w0 u req false false).
  destruct (silent_exchange (udp_recv u) (udp_rnd u) (udp_send_ok u) req (mkNet 0 0 0 0 []) Hr Hs) as [X1 X2].
  assert (A : an_time (announce_ u req false false) = t + 225 * 1000 /\
    an_result (announce_ u req false false) = Err (ETracker "connect retries exhausted")).
  { unfold announce_with_proxy_anon, udp_announce, resolve_udp_target. cbn [andb orb negb]. rewrite Hu, Ht, Ha, Hb. cbn [negb].
    destruct (udp_exchange _ _ _ _ _) as [s r]. cbn [fst snd] in X1, X2. cbn. rewrite X1, X2. split; [cbn; lia|done]. }
  assert (W : wk_end w1 = None /\ 225 * 1000 <= wk_time w1).
  { unfold w1, announce_one. rewrite (proj1 A), (proj2 A). cbn. split; [done|]. specialize (Hl (before (fun c => Byte.eqb c "/") (drop (length (bs "udp://")) u))).
    rewrite Ht in Hl. cbn in Hl. lia. }
  destruct W as [W1 W2]. rewrite W1. destruct (walk_time_mono Hl Hh req false false) as [M1 M2].
  set (w2 := walk_tier_ w1 tier req false false). pose proof (M1 tier w1 : _ <= wk_time w2) as L2.
  set (w3 := match wk_end w2 with Some _ => w2 | None => _ end).
  assert (L3 : wk_time w2 <= wk_time w3) by (unfold w3; destruct (wk_end w2); [done|apply M2]).
  set (w4 := match wk_end w3 with Some _ => w3 | None => _ end).
  assert (L4 : wk_time w3 <= wk_time w4).
  { unfold w4. destruct (wk_end w3); [done|]. unfold walk_fallback. destruct fallback as [v|]; [|done]. destruct (negb _); [done|].
    by apply announce_one_time. }
  rewrite (proj2 (Z.leb_gt _ _)) by (unfold ANNOUNCE_WALK_DEADLINE; lia). done.
Qed.
End screened.

(** A walk over a silent UDP tracker and an HTTP tracker that answers. *)
Definition resp_ex : AnnounceResponse := mkResp 1800000 None None None [sock_addr (IpV4 x01 x02 x03 x04) 6881].
Definition req_ex : AnnounceRequest := mkReq (replicate 20 x01) (replicate 20 x02) 6881 0 0 10 EvStarted 50.
Definition lookup_ex (h : bytes) : Z * option (list SocketAddr) := (5, Some [sock_addr (IpV4 x08 x08 x08 x08) 80]).
Definition host_ex (u : bytes) : option (option bytes) :=
  Some (Some (if has_prefix (bs "http://10.") u then bs "10.0.0.1" else bs "tracker")).
Definition http_ex (u : bytes) (p a : bool) : Z * result AnnounceResponse :=
  if has_prefix (bs "http://ok") u then (200, Ok resp_ex) else (200, Err (ETracker "http send")).

Lemma walk_first_success_witness :
  (announce_walk lookup_ex (fun _ _ => RTimeout) (fun _ _ => 7) (fun _ _ => true) true http_ex host_ex
     [[bs "http://10.0.0.1/"; bs "http://bad/"]; [bs "http://ok/"]] None req_ex true true 60000).2 = Ok (bs "http://ok/", resp_ex) /\
  exists a b, [bs "http://10.0.0.1/"; bs "http://bad/"; bs "http://ok/"] = a ++ bs "http://ok/" :: b /\
    Forall (passed_over lookup_ex (fun _ _ => RTimeout) (fun _ _ => 7) (fun _ _ => true) true http_ex host_ex req_ex true true) a.
Proof.
  split; [by vm_compute|].
  pose proof (walk_first_success lookup_ex (fun _ _ => RTimeout) (fun _ _ => 7) (fun _ _ => true) true http_ex host_ex req_ex true true
    [[bs "http://10.0.0.1/"; bs "http://bad/"]; [bs "http://ok/"]] None 60000
    [(0, CHttp (bs "http://bad/") true); (200, CHttp (bs "http://ok/") true)] (Ok (bs "http://ok/", resp_ex))) as W.
  destruct W as (a & b & E & F & _).
  - intros u. unfold announce_with_proxy_anon. cbn [andb orb negb]. destruct (has_prefix (bs "udp://") u); [done|].
    destruct (_ || _); [|done]. unfold http_ex. by destruct (has_prefix _ u).
  - by vm_compute.
  - by exists a, b.
Defined.

Lemma walk_contacts_allowed_witness :
  contact_ok true true (CHttp (bs "http://ok/") true) /\ tracker_url_dialable host_ex (bs "http://10.0.0.1/") true = false.
Proof.
  pose proof (walk_contacts_allowed lookup_ex (fun _ _ => RTimeout) (fun _ _ => 7) (fun _ _ => true) true http_ex host_ex req_ex true true
    [[bs "http://10.0.0.1/"; bs "http://bad/"]; [bs "http://ok/"]] None 60000
    [(0, CHttp (bs "http://bad/") true); (200, CHttp (bs "http://ok/") true)] (Ok (bs "http://ok/", resp_ex))) as W.
  split; [|by vm_compute]. specialize (W ltac:(vm_compute; reflexivity)).
  apply list.Forall_cons in W as [_ W]. apply list.Forall_cons in W as [[W _] _]. exact W.
Defined.

(** The magnet bootstrap announces to every URL over HTTP, so it never reaches a UDP tracker. *)
Lemma announce_screened_skips_udp http_announce url_host url proxied anonymous :
  Forall (fun x => match x.2 with CUdp _ => False | CHttp _ _ => True end) (an_contacts (announce_screened http_announce url_host url proxied anonymous)).
Proof.
  unfold announce_screened. destruct (negb _); [constructor|]. destruct (http_announce url proxied anonymous). by apply list.Forall_singleton.
Qed.


(** C13: the UDP announce.  Whatever the network does, the exchange ends with a response or an error,
    within 22.5 minutes and 24 packets.  Every announce it sends carries a connection id that the
    tracker gave in answer to our own connect request less than 45 seconds before; and a response
    it returns is the parse of a datagram with the transaction id of the announce just sent. *)
Theorem udp_exchange_safe recv rnd send_ok req s :
  exists s' r, udp_exchange recv rnd send_ok req s = (s', r) /\ returns r = true /\
    now s <= now s' <= now s + 1350 * 1000 /\
    (length (List.filter is_send (log s')) <= length (List.filter is_send (log s)) + 24)%nat /\
    (exists ext, log s' = log s ++ ext /\ forall l t p r', ext = l ++ LSent t p :: r' ->
       (exists tx, p = connect_packet tx) \/
       exists cid tx key t0, p = build_announce_packet cid tx key req /\ grants (log s ++ l) cid t0 /\ 0 <= t - t0 < CONNECTION_ID_MAX_AGE) /\
    forall resp, r = Ok resp -> answered req s' resp.
Proof. apply exchange_ran. Qed.
