(* ===== verification/HttpTracker.v ===== *)
(** * HTTP trackers: [src/src/tracker/http.rs]

    The announce URL, the bound on the response body, the parser of the response
    and the rule for redirects.  The HTTP client is a library: a response is its
    declared length and its chunks, and the parts of a URL are what the URL
    library finds. *)

From Stdlib Require Import ZArith Lia String Strings.Byte.
From stdpp Require Import base tactics numbers list option.
From S2P Require Import Prelude Bencode Paths Net Text IpText Magnet Tracker.

#[local] Set Warnings "-register-all".

(** ** The request *)

Definition build_url (base : bytes) (req : AnnounceRequest) : bytes :=
  let sep := if contains (bs "?") base then bs "&" else bs "?" in
  let url :=
    base ++ sep ++ bs "info_hash=" ++ percent_encode (rq_info_hash req)
    ++ bs "&peer_id=" ++ percent_encode (rq_peer_id req)
    ++ bs "&port=" ++ show_u (rq_port req)
    ++ bs "&uploaded=" ++ show_u (rq_uploaded req)
    ++ bs "&downloaded=" ++ show_u (rq_downloaded req)
    ++ bs "&left=" ++ show_u (rq_left req)
    ++ bs "&compact=1&numwant=" ++ show_i (rq_num_want req) in
  match as_http_param (rq_event req) with
  | Some e => url ++ bs "&event=" ++ e
  | None => url
  end.

(** ** Redirects *)

(** The parts of a URL the rule compares: scheme, host, port or its known default. *)
Record UrlParts := mkUrl { u_scheme : bytes; u_host : option bytes; u_port : option Z }.

#[export] Instance url_eq_dec : EqDecision UrlParts.
Proof. solve_decision. Defined.

Definition same_redirect_origin (first next : UrlParts) : bool :=
  bool_decide ((u_scheme first, u_host first, u_port first) = (u_scheme next, u_host next, u_port next)).

Inductive RedirectAction := Follow | Stop | TooMany.

Definition MAX_HOPS : nat := 10.

Definition same_host_redirect_policy (previous : list UrlParts) (next : UrlParts) : RedirectAction :=
  if (MAX_HOPS <=? length previous)%nat then TooMany
  else match previous with
       | [] => Follow
       | first :: _ => if same_redirect_origin first next then Follow else Stop
       end.

(** ** The body *)

Definition MAX_ANNOUNCE_RESPONSE_BYTES : Z := 4 * 1024 * 1024.

(** The chunks of a body; [None] is a failed read. *)
Fixpoint read_chunks (chunks : list (option bytes)) (out : bytes) : result bytes :=
  match chunks with
  | [] => Ok out
  | None :: _ => Err (ETracker "http recv")
  | Some chunk :: chunks =>
      if MAX_ANNOUNCE_RESPONSE_BYTES <? Z.of_nat (length out) + Z.of_nat (length chunk)
      then Err (ETracker "announce response exceeded byte cap")
      else read_chunks chunks (out ++ chunk)
  end.

Definition read_bounded_body (content_length : option Z) (chunks : list (option bytes)) : result bytes :=
  match content_length with
  | Some n =>
      if MAX_ANNOUNCE_RESPONSE_BYTES <? n then Err (ETracker "announce response too large") else read_chunks chunks []
  | None => read_chunks chunks []
  end.

(** ** The response *)

Definition MAX_INTERVAL_SECS : Z := 86400.
Definition MAX_PEERS_PER_ANNOUNCE : nat := Z.to_nat 8192.

(** The loop over the chunks of a compact list: the first ones, up to the cap. *)
Fixpoint compact_capped (mk : bytes -> result SocketAddr) (cs : list bytes) (out : list SocketAddr) : result (list SocketAddr) :=
  match cs with
  | [] => Ok out
  | c :: cs =>
      if (MAX_PEERS_PER_ANNOUNCE <=? length out)%nat then Ok out
      else a ← mk c; compact_capped mk cs (out ++ [a])
  end.

Definition compact_peer6 (c : bytes) : result SocketAddr :=
  octets ← slice_range c 0 16;
  port ← be_at c 16 2;
  Ok (sock_addr (IpV6 octets) port).

Definition parse_compact_v4 (b : bytes) : result (list SocketAddr) :=
  if negb (length b mod 6 =? 0)%nat then Err (ETracker "compact v4 peers length not multiple of 6")
  else compact_capped compact_peer (as_chunks 6 b) [].

Definition parse_compact_v6 (b : bytes) : result (list SocketAddr) :=
  if negb (length b mod 18 =? 0)%nat then Err (ETracker "compact v6 peers length not multiple of 18")
  else compact_capped compact_peer6 (as_chunks 18 b) [].

(** One dictionary of a peer list. *)
Definition peer_entry (entry : BencodeValue) : result SocketAddr :=
  dd ← map_err (ETracker "peer entry") (as_dict entry);
  ip_v ← ok_or (bt_get (bs "ip") dd) (ETracker "peer missing ip");
  ip ← map_err (ETracker "peer ip") (as_str ip_v);
  port_v ← ok_or (bt_get (bs "port") dd) (ETracker "peer missing port");
  port ← map_err (ETracker "peer port") (as_int port_v);
  if negb (in_u 16 port) then Err (ETracker "peer port out of range")
  else
    addr ← ok_or (parse_ip ip) (ETracker "peer ip parse");
    Ok (sock_addr addr port).

Fixpoint peer_entries (l : list BencodeValue) (out : list SocketAddr) : result (list SocketAddr) :=
  match l with
  | [] => Ok out
  | e :: l =>
      if (MAX_PEERS_PER_ANNOUNCE <=? length out)%nat then Ok out
      else a ← peer_entry e; peer_entries l (out ++ [a])
  end.

(** [.and_then(|v| v.as_int().ok())] *)
Definition int_of (v : option BencodeValue) : option Z :=
  match v with Some v => match as_int v with Ok n => Some n | _ => None end | None => None end.

(** [u32::try_from(n).ok()] *)
Definition u32_of (n : option Z) : option Z := match n with Some n => if in_u 32 n then Some n else None | None => None end.

(** [Duration::from_secs((n.max(0) as u64).min(MAX_INTERVAL_SECS))] *)
Definition clamp_interval (n : Z) : Z := Z.min (Z.max n 0) MAX_INTERVAL_SECS * 1000.

Section response.
Context (parsed_url : bytes -> option bytes).

(** The text of a failure reason that reaches the error. *)
Definition failure_message (reason : BencodeValue) (full_url base_url : bytes) : result bytes :=
  let raw := match as_str reason with Ok s => s | _ => bs "<non-utf8>" end in
  scrubbed ← scrub_announce_error parsed_url raw full_url base_url;
  Ok (sanitize_tracker_text scrubbed).

(** Of the failure only the fixed part of its text is kept. *)
Definition parse_response (body full_url base_url : bytes) : result AnnounceResponse :=
  v ← map_err (ETracker "bencode") (parse_all body);
  d ← map_err (ETracker "response") (as_dict v);
  match bt_get (bs "failure reason") d with
  | Some reason =>
      msg ← failure_message reason full_url base_url;
      Err (ETracker "failure")
  | None =>
      iv ← ok_or (bt_get (bs "interval") d) (ETracker "response missing interval");
      interval ← map_err (ETracker "interval") (as_int iv);
      let min_interval := clamp_interval <$> int_of (bt_get (bs "min interval") d) in
      let seeders := u32_of (int_of (bt_get (bs "complete") d)) in
      let leechers := u32_of (int_of (bt_get (bs "incomplete") d)) in
      peers ← (match bt_get (bs "peers") d with
               | Some (BBytes b) => parse_compact_v4 b
               | Some (BList l) => peer_entries l []
               | Some _ => Err (ETracker "peers field has unexpected type")
               | None => Ok []
               end);
      peers6 ← (match bt_get (bs "peers6") d with
                | Some (BBytes b) => parse_compact_v6 b
                | _ => Ok []
                end);
      Ok (mkResp (clamp_interval interval) min_interval seeders leechers (peers ++ peers6))
  end.
End response.

(** ** The announce URL carries the request *)

(** The parameters after the question mark, as a server takes them apart. *)
Definition query_params (url : bytes) : option (list (option (bytes * bytes))) :=
  match split_once (bs "?") url with Some (_, q) => Some (split_once (bs "=") <$> split_on "&" q) | None => None end.

Lemma contains_one c l : contains [c] l = negb (without [c] l).
Proof.
  induction l as [|x l IH]; [done|]. cbn [contains has_prefix without forallb existsb]. rewrite IH, orb_false_r.
  assert (E : Byte.eqb c x = Byte.eqb x c) by (destruct (Byte.eqb c x) eqn:E1, (Byte.eqb x c) eqn:E2; try done;
    [apply byte_eqb_iff in E1 as ->|apply byte_eqb_iff in E2 as ->]; by rewrite (proj2 (byte_eqb_iff _ _) eq_refl) in *).
  rewrite E, andb_true_r. unfold without. by destruct (Byte.eqb x c).
Qed.

Lemma digits_plain n : 0 <= n -> without ["&"%byte] (show_u n) = true.
Proof. intros Hn. eapply forallb_weaken, (show_u_digits n Hn). intros x. destruct x; done. Qed.

Lemma int_plain n : without ["&"%byte] (show_i n) = true.
Proof. unfold show_i. destruct (Z.ltb_spec n 0); [cbn [without forallb]|]; apply digits_plain; lia. Qed.

(** The parameters of a request, as name and encoded value. *)
Definition request_params (req : AnnounceRequest) : list (bytes * bytes) :=
  [(bs "info_hash", percent_encode (rq_info_hash req)); (bs "peer_id", percent_encode (rq_peer_id req)); (bs "port", show_u (rq_port req));
   (bs "uploaded", show_u (rq_uploaded req)); (bs "downloaded", show_u (rq_downloaded req)); (bs "left", show_u (rq_left req));
   (bs "compact", bs "1"); (bs "numwant", show_i (rq_num_want req))]
  ++ match as_http_param (rq_event req) with Some e => [(bs "event", e)] | None => [] end.

Definition pair_text (p : bytes * bytes) : bytes := p.1 ++ bs "=" ++ p.2.

(** The text after the base: the first pair and the others after ampersands. *)
Lemma build_url_pairs base req : exists p ps, request_params req = p :: ps /\
  build_url base req = base ++ (if contains (bs "?") base then bs "&" else bs "?") ++ pair_text p ++ flat_map (fun q => "&"%byte :: pair_text q) ps.
Proof.
  eexists _, _. split; [reflexivity|]. unfold build_url. set (sep := if contains (bs "?") base then bs "&" else bs "?").
  destruct (as_http_param (rq_event req)) as [e|]; cbn [app flat_map]; unfold pair_text; cbn [fst snd];
    rewrite <- ?app_assoc; repeat (cbn [app]; rewrite <- ?app_assoc); rewrite ?app_nil_r; reflexivity.
Qed.

Definition counters_ok (req : AnnounceRequest) : bool :=
  (0 <=? rq_port req) && (0 <=? rq_uploaded req) && (0 <=? rq_downloaded req) && (0 <=? rq_left req).

Lemma request_params_plain req : counters_ok req = true ->
  Forall (fun p => without ["&"%byte] (pair_text p) = true /\ without ["="%byte] p.1 = true) (request_params req).
Proof.
  unfold counters_ok. rewrite !andb_true_iff, !Z.leb_le. intros [[[H1 H2] H3] H4]. unfold request_params, pair_text.
  assert (D : forall k v, without ["&"%byte] k = true -> without ["="%byte] k = true -> without ["&"%byte] v = true ->
    without ["&"%byte] (k ++ bs "=" ++ v) = true /\ without ["="%byte] k = true).
  { intros k v Hk1 Hk2 Hv. by rewrite !without_app, Hk1, Hv. }
  apply list.Forall_app. split.
  - repeat (apply list.Forall_cons; split; [cbn [fst snd]; apply D; [done|done|]; auto using percent_encode_plain, digits_plain, int_plain|]).
    by apply list.Forall_nil.
  - destruct (rq_event req); cbn; repeat constructor.
Qed.

Lemma split_params ps : Forall (fun p => without ["&"%byte] (pair_text p) = true /\ without ["="%byte] p.1 = true) ps ->
  split_once (bs "=") <$> (pair_text <$> ps) = Some <$> ps.
Proof.
  induction 1 as [|[k v] ps [_ Hk] _ IH]; [done|]. rewrite !fmap_cons, IH.
  unfold pair_text. cbn [fst snd] in *. by rewrite (split_once_app (bs "=") "=") by done.
Qed.

Lemma flat_map_pairs ps : flat_map (fun q => "&"%byte :: pair_text q) ps = flat_map (fun q => "&"%byte :: q) (pair_text <$> ps).
Proof. induction ps as [|p ps IH]; [done|]. cbn [flat_map fmap list_fmap]. by rewrite IH. Qed.

(** What the tracker is told.  A server that takes the announce URL apart finds, after the
    parameters the base URL already had, exactly the parameters of the request; and decoding the
    info hash and the peer id gives back their bytes, whatever they are. *)
Lemma announce_url_params host query req :
  without (bs "?") host = true -> counters_ok req = true ->
  query_params (build_url (host ++ match query with Some q => bs "?" ++ q | None => [] end) req)
  = Some ((match query with Some q => split_once (bs "=") <$> split_on "&" q | None => [] end) ++ (Some <$> request_params req)) /\
  percent_decode (percent_encode (rq_info_hash req)) = Ok (rq_info_hash req) /\
  percent_decode (percent_encode (rq_peer_id req)) = Ok (rq_peer_id req).
Proof.
  intros Hh Hc. split; [|by rewrite !percent_roundtrip]. pose proof (request_params_plain req Hc) as F.
  destruct (build_url_pairs (host ++ match query with Some q => bs "?" ++ q | None => [] end) req) as (p & ps & E & ->). rewrite E in F |- *.
  pose proof (split_params _ F) as S. assert (F2 : Forall (fun q => without ["&"%byte] q = true) (pair_text <$> p :: ps)).
  { apply Forall_fmap. eapply list.Forall_impl; [exact F|]. by intros q [H _]. }
  apply list.Forall_cons in F2 as [Fp Fps]. rewrite flat_map_pairs. unfold query_params.
  change (bs "?") with ["?"%byte] in *. rewrite contains_one, without_app, Hh. destruct query as [q|]; cbn [andb negb app].
  - change (without ["?"%byte] ("?"%byte :: q)) with false. cbn [negb]. rewrite <- app_assoc.
    change (("?"%byte :: q) ++ ?r) with (["?"%byte] ++ (q ++ r)). rewrite (split_once_app ["?"%byte] "?") by done.
    change (q ++ bs "&" ++ ?r) with (q ++ "&"%byte :: r). rewrite split_on_app, split_pairs by done.
    change (pair_text p :: (pair_text <$> ps)) with (pair_text <$> p :: ps). by rewrite fmap_app, S.
  - change (without ["?"%byte] []) with true. cbn [negb]. rewrite app_nil_r. rewrite (split_once_app ["?"%byte] "?") by done.
    rewrite split_pairs by done. change (pair_text p :: (pair_text <$> ps)) with (pair_text <$> p :: ps). by rewrite S.
Qed.

Lemma announce_url_params_witness :
  query_params (build_url (bs "http://t/a" ++ bs "?" ++ bs "passkey=k") req_ex)
  = Some ([split_once (bs "=") (bs "passkey=k")] ++ (Some <$> request_params req_ex)) /\
  percent_decode (percent_encode (rq_info_hash req_ex)) = Ok (rq_info_hash req_ex) /\
  percent_decode (percent_encode (rq_peer_id req_ex)) = Ok (rq_peer_id req_ex).
Proof. apply (announce_url_params (bs "http://t/a") (Some (bs "passkey=k")) req_ex); reflexivity. Defined.

(** ** Bodies and responses *)

Lemma read_chunks_ok chunks : forall out, Z.of_nat (length out) <= MAX_ANNOUNCE_RESPONSE_BYTES ->
  returns (read_chunks chunks out) = true /\
  forall b, read_chunks chunks out = Ok b <->
    exists parts, chunks = Some <$> parts /\ b = out ++ concat parts /\ Z.of_nat (length b) <= MAX_ANNOUNCE_RESPONSE_BYTES.
Proof.
  induction chunks as [|[c|] chunks IH]; intros out Ho; cbn [read_chunks].
  - split; [done|]. intros b. split.
    + intros [= <-]. exists []. by rewrite app_nil_r.
    + intros ([|? ?] & E & -> & _); [|done]. by rewrite app_nil_r.
  - destruct (Z.ltb_spec MAX_ANNOUNCE_RESPONSE_BYTES (Z.of_nat (length out) + Z.of_nat (length c))) as [H|H].
    + split; [done|]. intros b. split; [done|]. intros ([|p parts] & E & -> & Hb); [done|]. injection E as -> ->.
      rewrite !length_app in Hb. cbn [concat] in Hb. rewrite length_app in Hb. lia.
    + destruct (IH (out ++ c)) as [R L]; [rewrite length_app; lia|]. split; [done|]. intros b. rewrite L. split.
      * intros (parts & -> & -> & Hb). exists (c :: parts). cbn [concat]. by rewrite app_assoc.
      * intros ([|p parts] & E & -> & Hb); [done|]. injection E as -> ->. exists parts. cbn [concat] in *. by rewrite <- app_assoc.
  - split; [done|]. intros b. split; [done|]. by intros ([|? ?] & E & _).
Qed.

(** The body is read whole or not at all, and never beyond the cap. *)
Lemma bounded_body content_length chunks b : read_bounded_body content_length chunks = Ok b ->
  Z.of_nat (length b) <= MAX_ANNOUNCE_RESPONSE_BYTES /\ exists parts, chunks = Some <$> parts /\ b = concat parts.
Proof.
  assert (H : read_chunks chunks [] = Ok b -> Z.of_nat (length b) <= MAX_ANNOUNCE_RESPONSE_BYTES /\ exists parts, chunks = Some <$> parts /\ b = concat parts).
  { intros (parts & -> & -> & Hb)%(proj2 (read_chunks_ok chunks [] ltac:(done))). split; [done|]. by exists parts. }
  unfold read_bounded_body. destruct content_length as [n|]; [destruct (_ <? _); [done|]|]; exact H.
Qed.

Lemma compact_peer6_Ok c : length c = 18%nat -> exists a, compact_peer6 c = Ok a /\ addr_ok a = true.
Proof.
  intros Hc. unfold compact_peer6. rewrite slice_range_Ok, be_at_Ok by lia. cbn [mbind result_bind]. eexists. split; [reflexivity|].
  unfold addr_ok. cbn [sock_addr sa_ip sa_port sa_flow sa_scope ip_ok]. rewrite length_slice by lia.
  pose proof (from_be_range (slice c 16 2)) as R. rewrite length_slice in R by lia. rewrite (proj2 (in_u_spec 16 _)) by (cbn in R |- *; lia). done.
Qed.

(** Both compact lists: no panic, proper addresses, at most the cap. *)
Lemma compact_capped_ok mk k cs : (forall c, length c = k -> exists a, mk c = Ok a /\ addr_ok a = true) ->
  Forall (fun c => length c = k) cs -> forall out, (length out <= MAX_PEERS_PER_ANNOUNCE)%nat -> Forall (fun a => addr_ok a = true) out ->
  exists ps, compact_capped mk cs out = Ok ps /\ (length ps <= MAX_PEERS_PER_ANNOUNCE)%nat /\ Forall (fun a => addr_ok a = true) ps.
Proof.
  intros Hm. induction 1 as [|c cs Hc _ IH]; intros out Ho Fo; cbn [compact_capped]; [by exists out|].
  destruct (Nat.leb_spec MAX_PEERS_PER_ANNOUNCE (length out)); [by exists out|]. destruct (Hm c Hc) as (a & -> & Ha). cbn [mbind result_bind].
  apply IH; [rewrite length_app; cbn; lia|]. apply list.Forall_app. split; [done|]. by apply list.Forall_singleton.
Qed.

Lemma as_str_returns v : returns (as_str v) = true /\ forall s, as_str v = Ok s -> utf8_valid s = true.
Proof. destruct v; try done. cbn. destruct (utf8_valid b) eqn:E; [|done]. split; [done|]. by intros s [= <-]. Qed.

Lemma peer_entry_ok e : returns (peer_entry e) = true /\ forall a, peer_entry e = Ok a -> addr_ok a = true.
Proof.
  unfold peer_entry. destruct e as [| | |dd]; try done. cbn [as_dict map_err mbind result_bind].
  destruct (bt_get (bs "ip") dd) as [v|]; [|done]. cbn [ok_or mbind result_bind].
  pose proof (as_str_returns v) as [Hs _]. destruct (as_str v) as [ip|e| |]; try done. cbn [map_err mbind result_bind].
  destruct (bt_get (bs "port") dd) as [w|]; [|done]. cbn [ok_or mbind result_bind].
  destruct w; try done. cbn [as_int map_err mbind result_bind]. destruct (in_u 16 i) eqn:Ei; [|done]. cbn [negb].
  destruct (parse_ip ip) as [addr|] eqn:Ep; [|done]. cbn. split; [done|]. intros a [= <-]. apply parse_ip_ok in Ep.
  unfold addr_ok. cbn [sock_addr sa_ip sa_port sa_flow sa_scope]. rewrite Ep, Ei. cbn. apply orb_true_r.
Qed.

Lemma peer_entries_ok l : forall out, (length out <= MAX_PEERS_PER_ANNOUNCE)%nat -> Forall (fun a => addr_ok a = true) out ->
  returns (peer_entries l out) = true /\ forall ps, peer_entries l out = Ok ps ->
    (length ps <= MAX_PEERS_PER_ANNOUNCE)%nat /\ Forall (fun a => addr_ok a = true) ps.
Proof.
  induction l as [|e l IH]; intros out Ho Fo; cbn [peer_entries]; [split; [done|]; by intros ps [= <-]|].
  destruct (Nat.leb_spec MAX_PEERS_PER_ANNOUNCE (length out)); [split; [done|]; by intros ps [= <-]|].
  destruct (peer_entry_ok e) as [R A]. destruct (peer_entry e) as [a|x| |]; try done. cbn [mbind result_bind].
  apply IH; [rewrite length_app; cbn; lia|]. apply list.Forall_app. split; [done|]. apply list.Forall_singleton. by apply A.
Qed.

Lemma compact_ok b : (returns (parse_compact_v4 b) = true /\ returns (parse_compact_v6 b) = true) /\
  forall ps, parse_compact_v4 b = Ok ps \/ parse_compact_v6 b = Ok ps ->
    (length ps <= MAX_PEERS_PER_ANNOUNCE)%nat /\ Forall (fun a => addr_ok a = true) ps.
Proof.
  unfold parse_compact_v4, parse_compact_v6.
  destruct (compact_capped_ok compact_peer 6 (as_chunks 6 b)) with (out := @nil SocketAddr) as (p4 & E4 & L4 & F4);
    [intros c Hc; destruct (compact_peer_Ok c Hc) as (a & ? & ? & _); eauto|apply as_chunks_len|cbn; lia|constructor|].
  destruct (compact_capped_ok compact_peer6 18 (as_chunks 18 b) compact_peer6_Ok) with (out := @nil SocketAddr) as (p6 & E6 & L6 & F6);
    [apply as_chunks_len|cbn; lia|constructor|]. rewrite E4, E6.
  split; [split; by destruct (negb _)|]. intros ps [H|H]; destruct (negb _); try done; by injection H as <-.
Qed.

(** Responses of a hostile tracker.  Whatever the body, parsing returns a response or an error
    and never panics (a failure reason included, which is scrubbed and sanitised); a response
    has intervals of at most a day, counts in 32 bits, and at most 8192 peers of each kind, all
    of them proper addresses. *)
Lemma http_response_typed parsed_url body full_url base_url :
  (forall u d, parsed_url u = Some d -> utf8_valid d = true /\ d <> []) ->
  utf8_valid full_url = true -> utf8_valid base_url = true ->
  returns (parse_response parsed_url body full_url base_url) = true /\
  forall r, parse_response parsed_url body full_url base_url = Ok r ->
    0 <= interval r <= MAX_INTERVAL_SECS * 1000 /\ (forall m, min_interval r = Some m -> 0 <= m <= MAX_INTERVAL_SECS * 1000) /\
    (forall n, seeders r = Some n \/ leechers r = Some n -> 0 <= n < 2 ^ 32) /\
    (length (peers r) <= 2 * MAX_PEERS_PER_ANNOUNCE)%nat /\ Forall (fun a => addr_ok a = true) (peers r).
Proof.
  intros Hu Hf Hb. unfold parse_response. pose proof (parse_all_returns body) as R. destruct (parse_all body) as [v|e| |]; try done.
  cbn [map_err mbind result_bind]. destruct v as [| | |d]; try done. cbn [as_dict map_err mbind result_bind].
  destruct (bt_get (bs "failure reason") d) as [reason|].
  { unfold failure_message. set (raw := match as_str reason with Ok s => s | _ => _ end).
    assert (Hr : utf8_valid raw = true).
    { unfold raw. destruct (as_str_returns reason) as [_ H]. destruct (as_str reason); try done. by apply H. }
    destruct (scrub_spec parsed_url Hu raw full_url base_url Hr Hf Hb) as (t & o & -> & _). done. }
  destruct (bt_get (bs "interval") d) as [iv|]; [|done]. cbn [ok_or mbind result_bind].
  destruct iv as [i| | |]; try done. cbn [as_int map_err mbind result_bind].
  set (p4 := match bt_get (bs "peers") d with Some _ => _ | None => _ end).
  assert (P4 : returns p4 = true /\ forall ps, p4 = Ok ps -> (length ps <= MAX_PEERS_PER_ANNOUNCE)%nat /\ Forall (fun a => addr_ok a = true) ps).
  { unfold p4. destruct (bt_get (bs "peers") d) as [[| b| l |]|]; try done.
    - split; [apply (compact_ok b)|]. intros ps H. apply (compact_ok b). by left.
    - apply peer_entries_ok; [cbn; lia|constructor].
    - split; [done|]. intros ps [= <-]. split; [cbn; lia|constructor]. }
  destruct P4 as [R4 A4]. destruct p4 as [l4|e| |]; try done. cbn [mbind result_bind]. destruct (A4 l4 eq_refl) as [L4 F4].
  set (p6 := match bt_get (bs "peers6") d with Some _ => _ | None => _ end).
  assert (P6 : returns p6 = true /\ forall ps, p6 = Ok ps -> (length ps <= MAX_PEERS_PER_ANNOUNCE)%nat /\ Forall (fun a => addr_ok a = true) ps).
  { unfold p6. assert (N : forall ps : list SocketAddr, Ok [] = Ok ps -> (length ps <= MAX_PEERS_PER_ANNOUNCE)%nat /\ Forall (fun a => addr_ok a = true) ps)
      by (intros ps [= <-]; split; [cbn; lia|constructor]).
    destruct (bt_get (bs "peers6") d) as [[| b| |]|]; try (by split). split; [apply (compact_ok b)|]. intros ps H. apply (compact_ok b). by right. }
  destruct P6 as [R6 A6]. destruct p6 as [l6|e| |]; try done. cbn [mbind result_bind]. destruct (A6 l6 eq_refl) as [L6 F6].
  split; [done|]. intros r [= <-]. cbn [interval min_interval seeders leechers peers]. unfold clamp_interval, MAX_INTERVAL_SECS.
  assert (U : forall o n, u32_of o = Some n -> 0 <= n < 2 ^ 32).
  { intros [x|] n; [|done]. cbn. destruct (in_u 32 x) eqn:E; [|done]. intros [= <-]. by apply in_u_spec. }
  split_and!; [lia|lia| | | |by apply list.Forall_app].
  - intros m. destruct (int_of _); [|done]. cbn. intros [= <-]. lia.
  - intros n [H|H]; by apply U in H.
  - rewrite length_app. lia.
Qed.

Definition body_ex : bytes := bs "d8:intervali999999e5:peers6:" ++ [x01; x02; x03; x04; x1a; xe1] ++ bs "e".

Lemma http_response_typed_witness :
  parse_response (fun _ => None) body_ex (bs "http://t/a?k") (bs "http://t/a")
  = Ok (mkResp (MAX_INTERVAL_SECS * 1000) None None None [sock_addr (IpV4 x01 x02 x03 x04) 6881]) /\
  Forall (fun a => addr_ok a = true) [sock_addr (IpV4 x01 x02 x03 x04) 6881].
Proof.
  assert (E : parse_response (fun _ => None) body_ex (bs "http://t/a?k") (bs "http://t/a")
    = Ok (mkResp (MAX_INTERVAL_SECS * 1000) None None None [sock_addr (IpV4 x01 x02 x03 x04) 6881])) by (vm_compute; reflexivity).
  split; [exact E|].
  apply (http_response_typed (fun _ => None) body_ex (bs "http://t/a?k") (bs "http://t/a")) in E as (_ & _ & _ & _ & F); [exact F|done|done|done].
Defined.

(** Redirects are followed within the origin of the first request only, ten at most. *)
Lemma redirect_same_origin first previous next : same_host_redirect_policy (first :: previous) next = Follow ->
  u_scheme next = u_scheme first /\ u_host next = u_host first /\ u_port next = u_port first /\ (length previous < 9)%nat.
Proof.
  unfold same_host_redirect_policy, MAX_HOPS. destruct (Nat.leb_spec 10 (length (first :: previous))) as [|H]; [done|].
  unfold same_redirect_origin. destruct (bool_decide_reflect ((u_scheme first, u_host first, u_port first) = (u_scheme next, u_host next, u_port next))) as [E|]; [|done].
  injection E as -> -> ->. intros _. cbn [length] in H. split_and!; [done|done|done|lia].
Qed.

(** The scrubbing looks for whole names, and only then are invisible characters dropped: a
    zero-width space inside a name hides the parameter from the one and is removed by the
    other, so the value reaches the error. *)
Lemma sanitize_revives_parameter :
  failure_message (fun _ => None) (BBytes (bs "passk" ++ [xe2; x80; x8b] ++ bs "ey=secret")) (bs "http://t/a?passkey=secret&info_hash=x") (bs "http://t/a?passkey=secret")
  = Ok (bs "passkey=secret").
Proof. by vm_compute. Qed.
