(* ===== verification/Socks5.v ===== *)
(** * SOCKS5: [src/src/socks5.rs]

    The client side of RFC 1928 and RFC 1929 over a byte stream, one hop or a
    chain of hops, and the fresh user name of stream isolation.  Opening the TCP
    connection and the timeout are left out. *)

From Stdlib Require Import ZArith Lia String Strings.Byte.
From stdpp Require Import base tactics numbers list option.
From S2P Require Import Prelude Handshake Net Text.

#[local] Set Warnings "-register-all".

Definition VER_SOCKS5 : byte := x05.
Definition VER_USERPASS : byte := x01.
Definition METHOD_NO_AUTH : byte := x00.
Definition METHOD_USERPASS : byte := x02.
Definition METHOD_NONE_ACCEPTABLE : byte := xff.
Definition CMD_CONNECT : byte := x01.
Definition ATYP_IPV4 : byte := x01.
Definition ATYP_DOMAIN : byte := x03.
Definition ATYP_IPV6 : byte := x04.
Definition REP_SUCCEEDED : byte := x00.

Record Credentials := mkCreds { username : bytes; password : bytes }.

Record ProxyConfig := mkProxy { pc_addr : SocketAddr; pc_credentials : option Credentials; pc_isolation : bool }.

Inductive Socks5Error :=
  | SIo
  | SProtocol (msg : string)
  | SAuthFailed
  | SRefused (rep : byte) (meaning : string)
  | STimeout.

(** ** Fallible steps on a stream *)

Definition SM (A : Type) : Type := Stream -> Stream * (Socks5Error + A).

#[local] Instance SM_ret : MRet SM := fun A a s => (s, inr a).
#[local] Instance SM_bind : MBind SM := fun A B f m s =>
  match m s with (s, inr a) => f a s | (s, inl e) => (s, inl e) end.

Definition fail {A} (e : Socks5Error) : SM A := fun s => (s, inl e).

Definition write (b : bytes) : SM unit := fun s =>
  if writable s then (mkStream (inbox s) (outbox s ++ b) true, inr tt) else (s, inl SIo).

Definition read_exact (n : nat) : SM bytes := fun s =>
  if (length (inbox s) <? n)%nat then (mkStream [] (outbox s) (writable s), inl SIo)
  else (mkStream (drop n (inbox s)) (outbox s) (writable s), inr (take n (inbox s))).

(** [buf[i]] of a buffer that was filled. *)
Definition at_ (b : bytes) (i : nat) : byte := default x00 (b !! i).

(** ** Dial configuration *)

(** [nonce] stands for the eight random bytes. *)
Definition for_dial (p : ProxyConfig) (nonce : bytes) : ProxyConfig :=
  if negb (pc_isolation p) then p
  else mkProxy (pc_addr p) (Some (mkCreds (hex nonce) (bs "x"))) false.

Definition urlencode (s : bytes) : bytes :=
  flat_map (fun x =>
    if between 48 57 x || between 65 90 x || between 97 122 x
       || Byte.eqb x "-" || Byte.eqb x "_" || Byte.eqb x "." || Byte.eqb x "~"
    then [x] else ["%"%byte; hex_upper (b2z x / 16); hex_upper (b2z x mod 16)]) s.

(** ** The handshake *)

Definition build_connect_request (target : SocketAddr) : bytes :=
  [VER_SOCKS5; CMD_CONNECT; x00]
  ++ (match sa_ip target with
      | IpV4 a b c d => ATYP_IPV4 :: octets (IpV4 a b c d)
      | IpV6 o => ATYP_IPV6 :: octets (IpV6 o)
      end)
  ++ to_be 2 (sa_port target).

Definition rep_meaning (rep : byte) : string :=
  match rep with
  | x01 => "general SOCKS server failure"
  | x02 => "connection not allowed by ruleset"
  | x03 => "network unreachable"
  | x04 => "host unreachable"
  | x05 => "connection refused by destination"
  | x06 => "TTL expired"
  | x07 => "command not supported"
  | x08 => "address type not supported"
  | _ => "unknown REP"
  end.

Definition drain_bind_addr_port (atyp : byte) : SM unit :=
  bind_len ← (if Byte.eqb atyp ATYP_IPV4 then mret (4 + 2)%nat
              else if Byte.eqb atyp ATYP_IPV6 then mret (16 + 2)%nat
              else if Byte.eqb atyp ATYP_DOMAIN then
                len_buf ← read_exact 1; mret (Z.to_nat (b2z (at_ len_buf 0)) + 2)%nat
              else fail (SProtocol "unsupported ATYP in connect reply") : SM nat);
  _ ← read_exact bind_len;
  mret tt.

Definition do_userpass_auth (creds : Credentials) : SM unit :=
  let u := username creds in
  let p := password creds in
  if (255 <? Z.of_nat (length u)) || (255 <? Z.of_nat (length p)) then fail (SProtocol "username/password must each be at most 255 bytes")
  else
    _ ← write ([VER_USERPASS; z2b (Z.of_nat (length u))] ++ u ++ [z2b (Z.of_nat (length p))] ++ p);
    reply ← read_exact 2;
    if negb (Byte.eqb (at_ reply 0) VER_USERPASS) then fail (SProtocol "auth reply version")
    else if negb (Byte.eqb (at_ reply 1) x00) then fail SAuthFailed
    else mret tt.

Definition offered (proxy : ProxyConfig) : bytes :=
  match pc_credentials proxy with Some _ => [METHOD_USERPASS] | None => [METHOD_NO_AUTH] end.

Definition greeting (proxy : ProxyConfig) : bytes :=
  [VER_SOCKS5; z2b (Z.of_nat (length (offered proxy)))] ++ offered proxy.

(** What the chosen method demands. *)
Definition authenticate (proxy : ProxyConfig) (method : byte) : SM unit :=
  if Byte.eqb method METHOD_NO_AUTH then mret tt
  else if Byte.eqb method METHOD_USERPASS then
    match pc_credentials proxy with
    | Some creds => do_userpass_auth creds
    | None => fail (SProtocol "proxy demanded USER/PASS but none provided")
    end
  else if Byte.eqb method METHOD_NONE_ACCEPTABLE then fail SAuthFailed
  else fail (SProtocol "proxy chose unsupported method").

Definition do_handshake_on_stream (proxy : ProxyConfig) (target : SocketAddr) : SM unit :=
  _ ← write (greeting proxy);
  method_reply ← read_exact 2;
  if negb (Byte.eqb (at_ method_reply 0) VER_SOCKS5) then fail (SProtocol "method reply version")
  else
    _ ← authenticate proxy (at_ method_reply 1);
    _ ← write (build_connect_request target);
    head ← read_exact 4;
    if negb (Byte.eqb (at_ head 0) VER_SOCKS5) then fail (SProtocol "connect reply version")
    else if negb (Byte.eqb (at_ head 1) REP_SUCCEEDED) then fail (SRefused (at_ head 1) (rep_meaning (at_ head 1)))
    else drain_bind_addr_port (at_ head 3).

(** The loop over the hops: each hop connects to the next one, the last to the target. *)
Fixpoint hops (chain : list ProxyConfig) (target : SocketAddr) : SM unit :=
  match chain with
  | [] => mret tt
  | hop :: rest =>
      let hop_target := match rest with next :: _ => pc_addr next | [] => target end in
      _ ← do_handshake_on_stream hop hop_target;
      hops rest target
  end.

Definition connect_chain (chain : list ProxyConfig) (target : SocketAddr) : SM unit :=
  match chain with
  | [] => fail (SProtocol "connect_chain called with empty chain")
  | _ => hops chain target
  end.

(** ** What an accepting proxy answers *)

(** The bound address of a reply, which is skipped. *)
Inductive Bind :=
  | BindV4 (b : bytes)
  | BindV6 (b : bytes)
  | BindDomain (name port : bytes).

Definition bind_ok (b : Bind) : bool :=
  match b with
  | BindV4 b => (length b =? 6)%nat
  | BindV6 b => (length b =? 18)%nat
  | BindDomain name port => (Z.of_nat (length name) <? 256) && (length port =? 2)%nat
  end.

Definition bind_bytes (b : Bind) : bytes :=
  match b with
  | BindV4 b => ATYP_IPV4 :: b
  | BindV6 b => ATYP_IPV6 :: b
  | BindDomain name port => ATYP_DOMAIN :: z2b (Z.of_nat (length name)) :: name ++ port
  end.

Definition creds_ok (p : ProxyConfig) : bool :=
  match pc_credentials p with
  | Some c => (Z.of_nat (length (username c)) <? 256) && (Z.of_nat (length (password c)) <? 256)
  | None => true
  end.

Definition auth_msg (p : ProxyConfig) : bytes :=
  match pc_credentials p with
  | Some c => [VER_USERPASS; z2b (Z.of_nat (length (username c)))] ++ username c ++ [z2b (Z.of_nat (length (password c)))] ++ password c
  | None => []
  end.

(** The answers of a proxy that takes the method we offer and connects. *)
Definition hop_answer (p : ProxyConfig) (rsv : byte) (b : Bind) : bytes :=
  [VER_SOCKS5; at_ (offered p) 0] ++ (match pc_credentials p with Some _ => [VER_USERPASS; x00] | None => [] end)
  ++ [VER_SOCKS5; REP_SUCCEEDED; rsv] ++ bind_bytes b.

(** What we say to it. *)
Definition hop_says (p : ProxyConfig) (target : SocketAddr) : bytes := greeting p ++ auth_msg p ++ build_connect_request target.

Lemma stream_read_exact n l r out w : length l = n -> read_exact n (mkStream (l ++ r) out w) = (mkStream r out w, inr l).
Proof.
  intros Hl. unfold read_exact. cbn [inbox outbox writable]. rewrite (proj2 (Nat.ltb_ge _ _)) by (rewrite length_app; lia).
  by rewrite take_app_length', drop_app_length'.
Qed.

Lemma write_ok b i out : write b (mkStream i out true) = (mkStream i (out ++ b) true, inr tt).
Proof. done. Qed.

Lemma write_cases b s : write b s = (mkStream (inbox s) (outbox s ++ b) true, inr tt) \/ write b s = (s, inl SIo).
Proof. unfold write. destruct (writable s); auto. Qed.

Ltac ssteps := unfold mret, SM_ret, mbind, SM_bind, fail; cbn beta iota zeta.

Lemma drain_reads b r out w : bind_ok b = true ->
  drain_bind_addr_port (at_ (bind_bytes b) 0) (mkStream (drop 1 (bind_bytes b) ++ r) out w) = (mkStream r out w, inr tt).
Proof.
  intros Hb. destruct b as [b|b|name port]; cbn [bind_ok bind_bytes] in *; unfold drain_bind_addr_port, at_; cbn [lookup list_lookup default from_option drop].
  - apply Nat.eqb_eq in Hb. change (Byte.eqb (id ATYP_IPV4) ATYP_IPV4) with true. ssteps. by rewrite (stream_read_exact 6 b).
  - apply Nat.eqb_eq in Hb. change (Byte.eqb (id ATYP_IPV6) ATYP_IPV4) with false. change (Byte.eqb (id ATYP_IPV6) ATYP_IPV6) with true.
    ssteps. by rewrite (stream_read_exact 18 b).
  - apply andb_true_iff in Hb as [Hn Hp]. apply Z.ltb_lt in Hn. apply Nat.eqb_eq in Hp.
    change (Byte.eqb (id ATYP_DOMAIN) ATYP_IPV4) with false. change (Byte.eqb (id ATYP_DOMAIN) ATYP_IPV6) with false.
    change (Byte.eqb (id ATYP_DOMAIN) ATYP_DOMAIN) with true. ssteps.
    change ((z2b (Z.of_nat (length name)) :: name ++ port) ++ r) with ([z2b (Z.of_nat (length name))] ++ ((name ++ port) ++ r)).
    rewrite (stream_read_exact 1 [_]) by done. cbn [lookup list_lookup default from_option id]. rewrite b2z_z2b_small, Nat2Z.id by lia.
    by rewrite (stream_read_exact _ (name ++ port)) by (rewrite length_app; lia).
Qed.

Lemma authenticate_reads p r out : creds_ok p = true ->
  authenticate p (at_ (offered p) 0)
    (mkStream ((match pc_credentials p with Some _ => [VER_USERPASS; x00] | None => [] end) ++ r) out true)
  = (mkStream r (out ++ auth_msg p) true, inr tt).
Proof.
  unfold creds_ok, authenticate, offered, auth_msg. destruct (pc_credentials p) as [c|].
  - intros [H1 H2]%andb_true_iff. apply Z.ltb_lt in H1, H2.
    change (Byte.eqb (at_ [METHOD_USERPASS] 0) METHOD_NO_AUTH) with false. change (Byte.eqb (at_ [METHOD_USERPASS] 0) METHOD_USERPASS) with true.
    unfold do_userpass_auth. replace (255 <? Z.of_nat (length (username c))) with false by lia.
    replace (255 <? Z.of_nat (length (password c))) with false by lia. cbn [orb]. ssteps. rewrite write_ok.
    by rewrite (stream_read_exact 2 [VER_USERPASS; x00]).
  - intros _. change (Byte.eqb (at_ [METHOD_NO_AUTH] 0) METHOD_NO_AUTH) with true. ssteps. cbn [app]. by rewrite app_nil_r.
Qed.

Lemma handshake_tunnels p target rsv b r out : creds_ok p = true -> bind_ok b = true ->
  do_handshake_on_stream p target (mkStream (hop_answer p rsv b ++ r) out true) = (mkStream r (out ++ hop_says p target) true, inr tt).
Proof.
  intros Hc Hb. unfold do_handshake_on_stream, hop_answer, hop_says. ssteps.
  rewrite <- !app_assoc, write_ok. rewrite (stream_read_exact 2 [VER_SOCKS5; at_ (offered p) 0]) by done.
  change (Byte.eqb (at_ [VER_SOCKS5; at_ (offered p) 0] 0) VER_SOCKS5) with true. cbn [negb].
  change (at_ [VER_SOCKS5; at_ (offered p) 0] 1) with (at_ (offered p) 0).
  rewrite authenticate_reads by done. rewrite write_ok.
  assert (E : [VER_SOCKS5; REP_SUCCEEDED; rsv] ++ bind_bytes b ++ r
    = [VER_SOCKS5; REP_SUCCEEDED; rsv; at_ (bind_bytes b) 0] ++ (drop 1 (bind_bytes b) ++ r)) by (by destruct b).
  rewrite E, (stream_read_exact 4) by done. change (Byte.eqb (at_ [VER_SOCKS5; REP_SUCCEEDED; rsv; at_ (bind_bytes b) 0] 0) VER_SOCKS5) with true.
  change (Byte.eqb (at_ [VER_SOCKS5; REP_SUCCEEDED; rsv; at_ (bind_bytes b) 0] 1) REP_SUCCEEDED) with true. cbn [negb].
  change (at_ [VER_SOCKS5; REP_SUCCEEDED; rsv; at_ (bind_bytes b) 0] 3) with (at_ (bind_bytes b) 0).
  rewrite drain_reads by done. by rewrite <- !app_assoc.
Qed.

(** The hops with the addresses they are asked to connect to. *)
Fixpoint targets (chain : list ProxyConfig) (target : SocketAddr) : list (ProxyConfig * SocketAddr) :=
  match chain with
  | [] => []
  | hop :: rest => (hop, match rest with next :: _ => pc_addr next | [] => target end) :: targets rest target
  end.

Lemma hops_tunnel chain target : Forall (fun p => creds_ok p = true) chain ->
  forall answers r out, length answers = length chain -> Forall (fun x => bind_ok x.2 = true) answers ->
  hops chain target (mkStream (concat (zip_with (fun p '(rsv, b) => hop_answer p rsv b) chain answers) ++ r) out true)
  = (mkStream r (out ++ concat ((fun '(p, t) => hop_says p t) <$> targets chain target)) true, inr tt).
Proof.
  induction 1 as [|p chain Hp _ IH]; intros [|[rsv b] answers] r out Hl Hb; try done; cbn [hops targets zip_with concat fmap list_fmap].
  { ssteps. cbn [app]. by rewrite app_nil_r. }
  apply list.Forall_cons in Hb as [Hb Hbs]. ssteps. rewrite <- app_assoc, handshake_tunnels by done.
  cbn [length] in Hl. rewrite IH by (done || lia). by rewrite <- app_assoc.
Qed.

(** ** What is said to a proxy that may answer anything *)

(** The answers that count as acceptance, byte by byte, with what we send between the greeting and
    the request: either the hop picks USER/PASS, takes our credentials with status 0 and connects,
    or it picks the method without authentication and connects.  The second is not limited to hops
    without credentials: see [unoffered_no_auth_accepted]. *)
Inductive accepting (p : ProxyConfig) : bytes -> bytes -> Prop :=
  | accepts_creds c rsv b : pc_credentials p = Some c -> creds_ok p = true -> bind_ok b = true ->
      accepting p ([x05; x02] ++ [x01; x00] ++ [x05; x00; rsv] ++ bind_bytes b) (auth_msg p)
  | accepts_open rsv b : bind_ok b = true ->
      accepting p ([x05; x00] ++ [x05; x00; rsv] ++ bind_bytes b) [].

(** One hop, which has the bytes [i] to answer with: what is written to it, and, when the handshake
    succeeds, the bytes left after its answer.  Credentials go out only after the hop asked for
    them, the request only after the hop took them or asked for none. *)
Inductive said (p : ProxyConfig) (target : SocketAddr) (i : bytes) : bytes -> option bytes -> Prop :=
  | said_nothing : said p target i [] None
  | said_greeting : said p target i (greeting p) None
  | said_auth r : i = [x05; x02] ++ r -> creds_ok p = true -> pc_credentials p <> None ->
      said p target i (greeting p ++ auth_msg p) None
  | said_request_open r : i = [x05; x00] ++ r ->
      said p target i (greeting p ++ build_connect_request target) None
  | said_request_auth r : i = [x05; x02] ++ [x01; x00] ++ r -> creds_ok p = true -> pc_credentials p <> None ->
      said p target i (greeting p ++ auth_msg p ++ build_connect_request target) None
  | said_all a auth r : i = a ++ r -> accepting p a auth ->
      said p target i (greeting p ++ auth ++ build_connect_request target) (Some r).

(** A chain: each hop is addressed only after the one before answered by accepting, and reads on
    where that answer ended. *)
Inductive chain_said : list (ProxyConfig * SocketAddr) -> bytes -> bytes -> option bytes -> Prop :=
  | chain_done i : chain_said [] i [] (Some i)
  | chain_stop p t rest i w : said p t i w None -> chain_said ((p, t) :: rest) i w None
  | chain_next p t rest i w r w' o : said p t i w (Some r) -> chain_said rest r w' o ->
      chain_said ((p, t) :: rest) i (w ++ w') o.

(** A step that writes nothing. *)
Definition silent {A} (m : SM A) : Prop := forall s, outbox (m s).1 = outbox s.

Lemma read_exact_silent n : silent (read_exact n).
Proof. intros s. unfold read_exact. by destruct (_ <? _)%nat. Qed.

Lemma read_exact_inv n s s' l : read_exact n s = (s', inr l) -> inbox s = l ++ inbox s' /\ length l = n /\ outbox s' = outbox s.
Proof.
  unfold read_exact. destruct (length (inbox s) <? n)%nat eqn:E; [done|]. apply Nat.ltb_ge in E. intros [= <- <-]. cbn [inbox outbox].
  rewrite take_drop, length_take. split_and!; [done|lia|done].
Qed.

Lemma drain_silent atyp : silent (drain_bind_addr_port atyp).
Proof.
  intros s. unfold drain_bind_addr_port. ssteps.
  set (m := if Byte.eqb atyp ATYP_IPV4 then _ else _). assert (H : outbox (m s).1 = outbox s).
  { unfold m. destruct (Byte.eqb atyp ATYP_IPV4); [done|]. destruct (Byte.eqb atyp ATYP_IPV6); [done|]. destruct (Byte.eqb atyp ATYP_DOMAIN); [|done].
    pose proof (read_exact_silent 1 s) as R. by destruct (read_exact 1 s) as [s' [|]]. }
  destruct (m s) as [s' [e|n]]; [done|]. cbn [fst] in H. pose proof (read_exact_silent n s') as R.
  destruct (read_exact n s') as [s2 [|]]; cbn [fst] in *; congruence.
Qed.

(** Two or four bytes that were read, one by one. *)
Lemma bytes2 (l : bytes) : length l = 2%nat -> l = [at_ l 0; at_ l 1].
Proof. by destruct l as [|? [|? [|? ?]]]. Qed.

Lemma bytes4 (l : bytes) : length l = 4%nat -> l = [at_ l 0; at_ l 1; at_ l 2; at_ l 3].
Proof. by destruct l as [|? [|? [|? [|? [|? ?]]]]]. Qed.

Lemma byte_is (x y : byte) : negb (Byte.eqb x y) = false -> x = y.
Proof. intros H%negb_false_iff. by apply Byte.byte_dec_bl. Qed.

(** The bound address that a success skipped. *)
Lemma drain_inv atyp s s' : drain_bind_addr_port atyp s = (s', inr tt) ->
  exists b, bind_ok b = true /\ atyp :: inbox s = bind_bytes b ++ inbox s'.
Proof.
  unfold drain_bind_addr_port. ssteps.
  destruct (Byte.eqb atyp ATYP_IPV4) eqn:E4; [|destruct (Byte.eqb atyp ATYP_IPV6) eqn:E6; [|destruct (Byte.eqb atyp ATYP_DOMAIN) eqn:Ed; [|done]]].
  - apply Byte.byte_dec_bl in E4 as ->. destruct (read_exact _ s) as [s1 [|l]] eqn:R; [done|]. intros [= <-].
    apply read_exact_inv in R as (-> & L & _). exists (BindV4 l). split; [by apply Nat.eqb_eq|done].
  - apply Byte.byte_dec_bl in E6 as ->. destruct (read_exact _ s) as [s1 [|l]] eqn:R; [done|]. intros [= <-].
    apply read_exact_inv in R as (-> & L & _). exists (BindV6 l). split; [by apply Nat.eqb_eq|done].
  - apply Byte.byte_dec_bl in Ed as ->. destruct (read_exact 1 s) as [s1 [|n]] eqn:R1; [done|].
    destruct (read_exact _ s1) as [s2 [|l]] eqn:R2; [done|]. intros [= <-].
    apply read_exact_inv in R1 as (-> & L1 & _), R2 as (-> & L2 & _). destruct n as [|x [|]]; try done.
    pose proof (b2z_range x) as Hx. cbn [at_ lookup list_lookup default from_option id] in L2. unfold at_ in L2. cbn in L2.
    exists (BindDomain (take (length l - 2) l) (drop (length l - 2) l)). cbn [bind_ok bind_bytes]. rewrite length_take, length_drop, take_drop.
    replace (Z.of_nat ((length l - 2) `min` length l)) with (b2z x) by lia. rewrite z2b_b2z. split; [|done].
    rewrite andb_true_iff, Z.ltb_lt, Nat.eqb_eq. lia.
Qed.

(** Authentication: what it writes, by the method the hop picked and its answer. *)
Lemma authenticate_inv p m s : exists a, outbox (authenticate p m s).1 = outbox s ++ a /\
  ((a = [] /\ (m = METHOD_NO_AUTH -> (authenticate p m s).1 = s) /\ ((authenticate p m s).2 = inr tt -> m = METHOD_NO_AUTH)) \/
   (m = METHOD_USERPASS /\ a = auth_msg p /\ creds_ok p = true /\ pc_credentials p <> None /\
    ((authenticate p m s).2 = inr tt -> inbox s = [x01; x00] ++ inbox (authenticate p m s).1))).
Proof.
  unfold authenticate. destruct (Byte.eqb m METHOD_NO_AUTH) eqn:E0.
  { apply Byte.byte_dec_bl in E0 as ->. exists []. rewrite app_nil_r. split; [done|]. left. split_and!; done. }
  assert (N0 : m <> METHOD_NO_AUTH) by (intros ->; done).
  destruct (Byte.eqb m METHOD_USERPASS) eqn:E2.
  2: { exists []. rewrite app_nil_r. split; [by destruct (Byte.eqb m METHOD_NONE_ACCEPTABLE)|]. left. split_and!; [done|done|].
       by destruct (Byte.eqb m METHOD_NONE_ACCEPTABLE). }
  apply Byte.byte_dec_bl in E2 as ->. destruct (pc_credentials p) as [c|] eqn:Ec.
  2: { exists []. rewrite app_nil_r. split; [done|]. left. by split_and!. }
  unfold do_userpass_auth. destruct (_ || _) eqn:El.
  { exists []. rewrite app_nil_r. split; [done|]. left. by split_and!. }
  apply orb_false_iff in El as [L1 L2]. ssteps.
  set (msg := _ ++ username c ++ _). assert (Em : msg = auth_msg p) by (unfold auth_msg; by rewrite Ec).
  assert (Hc : creds_ok p = true) by (unfold creds_ok; rewrite Ec, andb_true_iff; lia).
  destruct (write_cases msg s) as [->| ->].
  2: { exists []. rewrite app_nil_r. split; [done|]. left. by split_and!. }
  set (s1 := mkStream _ _ _). exists msg.
  assert (Hs : forall s2 (r : Socks5Error + unit), outbox s2 = outbox s1 -> (r = inr tt -> inbox s = [x01; x00] ++ inbox s2) ->
    outbox s2 = outbox s ++ msg /\ ((msg = [] /\ (METHOD_USERPASS = METHOD_NO_AUTH -> s2 = s) /\ (r = inr tt -> METHOD_USERPASS = METHOD_NO_AUTH)) \/
     (METHOD_USERPASS = METHOD_USERPASS /\ msg = auth_msg p /\ creds_ok p = true /\ Some c <> None /\ (r = inr tt -> inbox s = [x01; x00] ++ inbox s2)))).
  { intros s2 r Ho Hr. split; [done|]. right. by split_and!. }
  pose proof (read_exact_silent 2 s1) as R. destruct (read_exact 2 s1) as [s2 [e|reply]] eqn:ER; cbn [fst] in R; [by apply Hs|].
  destruct (negb (Byte.eqb (at_ reply 0) _)) eqn:V; [by apply Hs|]. destruct (negb (Byte.eqb (at_ reply 1) _)) eqn:St; [by apply Hs|].
  apply Hs; [done|]. intros _. apply read_exact_inv in ER as (Hi & Hl & _). apply byte_is in V, St.
  cbn [inbox s1] in Hi. by rewrite Hi, (bytes2 _ Hl), V, St.
Qed.

Lemma sm_bindE {A B} (m : SM A) (f : A -> SM B) s : (m ≫= f) s = match m s with (s, inr a) => f a s | (s, inl e) => (s, inl e) end.
Proof. done. Qed.

(** How a handshake ends, on the bytes it had to read: [Some] of the bytes left, or [None]. *)
Definition left_over {A} (r : Stream * (Socks5Error + A)) : option bytes := match r.2 with inr _ => Some (inbox r.1) | inl _ => None end.

(** From the request on, when the method is settled. *)
Lemma request_says p target a s0 s3 : outbox s3 = outbox s0 ++ greeting p ++ a ->
  said p target (inbox s0) (greeting p ++ a) None -> said p target (inbox s0) (greeting p ++ a ++ build_connect_request target) None ->
  (forall rsv b r, inbox s3 = [x05; x00; rsv] ++ bind_bytes b ++ r -> bind_ok b = true ->
     said p target (inbox s0) (greeting p ++ a ++ build_connect_request target) (Some r)) ->
  forall m, m = (_ ← write (build_connect_request target);
    head ← read_exact 4;
    if negb (Byte.eqb (at_ head 0) VER_SOCKS5) then fail (SProtocol "connect reply version")
    else if negb (Byte.eqb (at_ head 1) REP_SUCCEEDED) then fail (SRefused (at_ head 1) (rep_meaning (at_ head 1)))
    else drain_bind_addr_port (at_ head 3)) ->
  exists w, outbox (m s3).1 = outbox s0 ++ w /\ said p target (inbox s0) w (left_over (m s3)).
Proof.
  intros Ho Hw Hr Hok m ->. ssteps. destruct (write_cases (build_connect_request target) s3) as [->| ->]; [|by exists (greeting p ++ a)].
  exists (greeting p ++ a ++ build_connect_request target).
  set (s4 := mkStream _ _ _). assert (O4 : outbox s4 = outbox s0 ++ greeting p ++ a ++ build_connect_request target)
    by (cbn [outbox s4]; by rewrite Ho, <- !app_assoc).
  pose proof (read_exact_silent 4 s4) as R4. destruct (read_exact 4 s4) as [s5 [e|head]] eqn:E4; cbn [fst] in R4; rewrite O4 in R4; [by split|].
  destruct (negb (Byte.eqb (at_ head 0) _)) eqn:V; [by split|]. destruct (negb (Byte.eqb (at_ head 1) _)) eqn:Rp; [by split|].
  split; [by rewrite drain_silent|]. destruct (drain_bind_addr_port (at_ head 3) s5) as [s6 [e|[]]] eqn:D; [done|]. cbn [left_over fst snd].
  apply read_exact_inv in E4 as (Hi & Hl & _). apply byte_is in V, Rp. destruct (drain_inv _ _ _ D) as (b & Hb & E).
  apply (Hok (at_ head 2) b); [|done]. change (inbox s4) with (inbox s3) in Hi. rewrite Hi, (bytes4 _ Hl), V, Rp, <- E. done.
Qed.

Lemma handshake_says p target s : exists w, outbox (do_handshake_on_stream p target s).1 = outbox s ++ w /\
  said p target (inbox s) w (left_over (do_handshake_on_stream p target s)).
Proof.
  unfold do_handshake_on_stream. rewrite sm_bindE. destruct (write_cases (greeting p) s) as [->| ->].
  2: { exists []. rewrite app_nil_r. split; [done|constructor]. }
  rewrite sm_bindE. set (s1 := mkStream _ _ _). pose proof (read_exact_silent 2 s1 : _ = outbox s ++ greeting p) as R1.
  destruct (read_exact 2 s1) as [s2 [e|reply]] eqn:ER; cbn [fst] in R1; [exists (greeting p); split; [done|constructor]|].
  destruct (negb _) eqn:V; [exists (greeting p); split; [done|constructor]|].
  apply read_exact_inv in ER as (Hi & Hl & _). change (inbox s1) with (inbox s) in Hi. apply byte_is in V.
  rewrite (bytes2 _ Hl), V in Hi. rewrite sm_bindE.
  destruct (authenticate_inv p (at_ reply 1) s2) as (a & Ha & Hor). destruct (authenticate p (at_ reply 1) s2) as [s3 r3]. cbn [fst snd] in *.
  rewrite R1, <- app_assoc in Ha. destruct Hor as [(-> & H0 & Hm)|(Hm & -> & Hc & Hn & Hin)].
  - destruct r3 as [e|[]]; [exists (greeting p); rewrite app_nil_r in Ha; split; [done|constructor]|].
    specialize (Hm eq_refl). rewrite Hm in Hi. specialize (H0 Hm) as ->. eapply request_says; [exact Ha| | | |reflexivity].
    + rewrite app_nil_r. constructor.
    + by eapply said_request_open.
    + intros rsv b r E Hb. rewrite Hi, E. eapply said_all; [|by apply (accepts_open p rsv b)]. by rewrite <- !app_assoc.
  - rewrite Hm in Hi. destruct r3 as [e|[]]; [exists (greeting p ++ auth_msg p); split; [done|by eapply said_auth]|].
    specialize (Hin eq_refl). destruct (pc_credentials p) as [c|] eqn:Ec; [|done]. rewrite <- Ec in Hn.
    rewrite Hin in Hi. eapply request_says; [exact Ha| | | |reflexivity].
    + by eapply said_auth.
    + by eapply said_request_auth.
    + intros rsv b r E Hb. rewrite Hi, E. eapply said_all; [|by eapply (accepts_creds p c rsv b)]. by rewrite <- !app_assoc.
Qed.

Lemma hops_says chain target : forall s, exists w, outbox (hops chain target s).1 = outbox s ++ w /\
  chain_said (targets chain target) (inbox s) w (left_over (hops chain target s)).
Proof.
  induction chain as [|p chain IH]; intros s; cbn [hops targets].
  { exists []. rewrite app_nil_r. split; [done|constructor]. }
  set (t := match chain with next :: _ => pc_addr next | [] => target end). unfold mbind, SM_bind.
  destruct (handshake_says p t s) as (w & Hw & Hs). destruct (do_handshake_on_stream p t s) as [s1 [e|u]]; cbn [fst snd left_over] in *.
  - exists w. split; [done|by constructor].
  - destruct (IH s1) as (w' & Hw' & Hs'). exists (w ++ w'). rewrite Hw', Hw, <- app_assoc. split; [done|by econstructor].
Qed.

(** ** Theorems *)

(** The tunnel.  Over a chain of proxies that accept, every hop is told exactly our greeting, our
    credentials if there are any, and the address of the next hop, the last one that of the
    target; the call succeeds and leaves the stream at the first byte after the last reply,
    whatever kind of bound address each reply carries. *)
Lemma socks_chain_tunnels chain target answers r out :
  chain <> [] -> Forall (fun p => creds_ok p = true) chain ->
  length answers = length chain -> Forall (fun x => bind_ok x.2 = true) answers ->
  connect_chain chain target (mkStream (concat (zip_with (fun p '(rsv, b) => hop_answer p rsv b) chain answers) ++ r) out true)
  = (mkStream r (out ++ concat ((fun '(p, t) => hop_says p t) <$> targets chain target)) true, inr tt).
Proof. intros Hne Hc Hl Hb. destruct chain; [done|]. by apply hops_tunnel. Qed.

Definition proxy_ex : ProxyConfig := mkProxy (sock_addr (IpV4 x7f x00 x00 x01) 9050) (Some (mkCreds (bs "u") (bs "p"))) false.
Definition proxy2_ex : ProxyConfig := mkProxy (sock_addr (IpV4 x01 x02 x03 x04) 1080) None true.

Lemma socks_chain_tunnels_witness :
  connect_chain [proxy_ex; proxy2_ex] (sock_addr (IpV4 x05 x06 x07 x08) 6881)
    (mkStream (concat (zip_with (fun p '(rsv, b) => hop_answer p rsv b) [proxy_ex; proxy2_ex]
       [(x00, BindDomain (bs "exit") (bs "ab")); (x00, BindV4 (bs "abcdef"))]) ++ bs "data") [] true)
  = (mkStream (bs "data") ([] ++ concat ((fun '(p, t) => hop_says p t) <$> targets [proxy_ex; proxy2_ex] (sock_addr (IpV4 x05 x06 x07 x08) 6881))) true, inr tt).
Proof.
  apply socks_chain_tunnels; [done|repeat (apply list.Forall_cons; split; [reflexivity|]); by apply list.Forall_nil|reflexivity|].
  repeat (apply list.Forall_cons; split; [reflexivity|]). by apply list.Forall_nil.
Defined.

(** C24: nothing else is said, and only to hops that accepted.  Whatever bytes come back and whatever
    fails, what is written is, hop by hop, the greeting, our credentials, the request for the next
    hop: the credentials of a hop only after that hop picked USER/PASS, its request only after it
    answered them with status 0 or picked the method without authentication, the next hop's
    greeting only after the hop's reply, byte for byte, was version 5, REP 0 and a well-formed bound
    address.  The call succeeds only after all hops accepted so, and then hands over the stream
    exactly behind the last reply; an empty chain is refused in silence.  The target is thus named
    to the last hop only.  A hop with credentials may be accepted without being told them, when it
    picks the method that was not offered: [unoffered_no_auth_accepted] below. *)
Theorem socks_says_only chain target s :
  exists w, outbox (connect_chain chain target s).1 = outbox s ++ w /\
    if decide (chain = []) then w = [] /\ left_over (connect_chain chain target s) = None
    else chain_said (targets chain target) (inbox s) w (left_over (connect_chain chain target s)).
Proof.
  case_decide as Hc; [subst chain; exists []; rewrite app_nil_r; auto|].
  destruct (hops_says chain target s) as (w & H1 & H2). exists w. by destruct chain.
Qed.

(** A proxy that picks the method without authentication, which was not offered, is accepted, and
    the credentials are never sent. *)
Lemma unoffered_no_auth_accepted c addr target : exists s s',
  do_handshake_on_stream (mkProxy addr (Some c) false) target s = (s', inr tt) /\
  outbox s' = outbox s ++ greeting (mkProxy addr (Some c) false) ++ build_connect_request target.
Proof.
  exists (mkStream ([x05; x00; x05; x00; x00; x01] ++ replicate 6 x00) [] true). eexists. split; [reflexivity|]. reflexivity.
Qed.

(** Stream isolation: distinct nonces give distinct user names, and the password is never the user's. *)
Lemma hex_inj a b : hex a = hex b -> a = b.
Proof.
  revert b. induction a as [|x a IH]; intros [|y b]; try done. rewrite !hex_cons. intros E. injection E as E1 E2 E3.
  destruct (nibbles x) as (X1 & X2 & X), (nibbles y) as (Y1 & Y2 & Y).
  pose proof (proj1 (hex_lower_digit _ X1)) as D1. rewrite E1, (proj1 (hex_lower_digit _ Y1)) in D1. injection D1 as D1.
  pose proof (proj1 (hex_lower_digit _ X2)) as D2. rewrite E2, (proj1 (hex_lower_digit _ Y2)) in D2. injection D2 as D2.
  f_equal; [apply b2z_inj; lia|by apply IH].
Qed.

Lemma isolation_fresh p n1 n2 : pc_isolation p = true -> n1 <> n2 ->
  username <$> pc_credentials (for_dial p n1) <> username <$> pc_credentials (for_dial p n2) /\
  pc_addr (for_dial p n1) = pc_addr p.
Proof. intros Hi Hn. unfold for_dial. rewrite Hi. cbn. split; [|done]. intros [= E%hex_inj]. done. Qed.
