(* ===== verification/HttpClient.v ===== *)
(** * The HTTP clients of the tracker: [src/src/tracker/http.rs]

    An announce picks a client (direct or through the proxy, bound to the address of
    an interface or not), which two caches keep by a key written as text, asks it,
    and reads the body.  The HTTP library, the interface lookup and random nonces are
    arguments.  [Display] of addresses comes first: the keys are made of it. *)

From Stdlib Require Import ZArith Lia String Strings.Byte.
From stdpp Require Import base tactics numbers list option gmap.
From S2P Require Import Prelude Bencode Paths Net Text IpText Magnet Socks5 Tracker HttpTracker.

#[local] Set Warnings "-register-all".

(** ** Addresses as text *)

(** A segment as [{:x}] writes it. *)
Definition nibbles (n : Z) : list Z := [n / 4096 mod 16; n / 256 mod 16; n / 16 mod 16; n mod 16].

Fixpoint without_zeros (ds : list Z) : list Z :=
  match ds with
  | [] => []
  | d :: ds' => match ds' with [] => [d] | _ => if d =? 0 then without_zeros ds' else ds end
  end.

Definition show_segment (n : Z) : bytes := hex_lower <$> without_zeros (nibbles n).

Fixpoint segments_of (o : bytes) : list Z :=
  match o with a :: b :: o => b2z a * 256 + b2z b :: segments_of o | _ => [] end.

(** The first of the longest runs of zeros, as start and length; [cur] is the run underway. *)
Fixpoint longest_zeros (i : nat) (segments : list Z) (cur longest : nat * nat) : nat * nat :=
  match segments with
  | [] => longest
  | s :: segments =>
      if s =? 0 then
        let cur := (if (cur.2 =? 0)%nat then i else cur.1, S cur.2) in
        longest_zeros (S i) segments cur (if (longest.2 <? cur.2)%nat then cur else longest)
      else longest_zeros (S i) segments (0, 0)%nat longest
  end.

Fixpoint joined (l : list bytes) : bytes :=
  match l with [] => [] | [x] => x | x :: l => x ++ ":"%byte :: joined l end.

Definition show_ip (ip : IpAddr) : bytes :=
  match ip with
  | IpV4 a b c d => show_v4 a b c d
  | IpV6 o =>
      match to_ipv4_mapped o with
      | Some (IpV4 a b c d) => bs "::ffff:" ++ show_v4 a b c d
      | _ =>
          let segments := segments_of o in
          let '(start, len) := longest_zeros 0 segments (0, 0)%nat (0, 0)%nat in
          if (1 <? len)%nat then joined (show_segment <$> take start segments) ++ bs "::" ++ joined (show_segment <$> drop (start + len) segments)
          else joined (show_segment <$> segments)
      end
  end.

Definition show_addr (a : SocketAddr) : bytes :=
  match sa_ip a with
  | IpV4 _ _ _ _ => show_ip (sa_ip a) ++ bs ":" ++ show_u (sa_port a)
  | IpV6 _ => bs "[" ++ show_ip (sa_ip a) ++ (if sa_scope a =? 0 then [] else bs "%" ++ show_u (sa_scope a)) ++ bs "]:" ++ show_u (sa_port a)
  end.

Example show_ip_ex :
  show_ip (IpV6 ([x20; x01; x0d; xb8] ++ replicate 8 x00 ++ [x00; x00; x00; x01])) = bs "2001:db8::1" /\ show_ip (IpV6 (replicate 16 x00)) = bs "::" /\
  show_ip (IpV6 (replicate 10 x00 ++ [xff; xff; x01; x02; x03; x04])) = bs "::ffff:1.2.3.4" /\ show_ip (IpV6 (replicate 14 x01 ++ [x00; x0a])) = bs "101:101:101:101:101:101:101:a".
Proof. vm_compute. done. Qed.

(** *** The text determines the address *)

Definition plain_text (t : bytes) : bool := forallb (fun c => negb (Byte.eqb c ":")) t.

Lemma nibbles_range n : Forall (fun d => 0 <= d < 16) (without_zeros (nibbles n)).
Proof. unfold nibbles. repeat (cbn [without_zeros]; match goal with |- context [if ?b then _ else _] => destruct b | _ => idtac end); repeat (constructor; [apply Z.mod_pos_bound; lia|]); constructor. Qed.

Definition value_of (ds : list Z) : Z := foldl (fun acc d => acc * 16 + d) 0 ds.

Lemma value_without ds : value_of (without_zeros ds) = value_of ds.
Proof. induction ds as [|d ds IH]; [done|]. cbn [without_zeros]. destruct ds as [|e ds]; [done|]. destruct (Z.eqb_spec d 0) as [->|]; [|done]. by rewrite IH. Qed.

Lemma value_nibbles n : 0 <= n < 65536 -> value_of (nibbles n) = n.
Proof. intros Hn. unfold value_of, nibbles. cbn [foldl]. Z.to_euclidean_division_equations. lia. Qed.

Lemma hex_lower_inj a b : 0 <= a < 16 -> 0 <= b < 16 -> hex_lower a = hex_lower b -> a = b.
Proof. intros Ha Hb E. pose proof (proj1 (hex_lower_digit a Ha)) as D. rewrite E, (proj1 (hex_lower_digit b Hb)) in D. by injection D. Qed.

Lemma show_segment_inj m n : 0 <= m < 65536 -> 0 <= n < 65536 -> show_segment m = show_segment n -> m = n.
Proof.
  intros Hm Hn E. rewrite <- (value_nibbles m Hm), <- (value_nibbles n Hn), <- (value_without (nibbles m)), <- (value_without (nibbles n)). f_equal. unfold show_segment in E.
  pose proof (nibbles_range m) as Fm. pose proof (nibbles_range n) as Fn. revert E Fm Fn. generalize (without_zeros (nibbles m)) (without_zeros (nibbles n)). intros l. induction l as [|x l IH]; intros [|y l'] E Fm Fn; try done.
  cbn in E. injection E as E1 E2. apply list.Forall_cons in Fm as [? ?], Fn as [? ?]. f_equal; [by apply hex_lower_inj|by apply IH].
Qed.

(** A segment is some hex digits. *)
Lemma show_segment_text n : plain_text (show_segment n) = true /\ forallb (fun c => negb (Byte.eqb c ".")) (show_segment n) = true /\ show_segment n <> [].
Proof.
  assert (H : forall ds, Forall (fun d => 0 <= d < 16) ds -> plain_text (hex_lower <$> ds) = true /\ forallb (fun c => negb (Byte.eqb c ".")) (hex_lower <$> ds) = true).
  { induction 1 as [|d ds Hd _ [I1 I2]]; [done|]. cbn [fmap list_fmap plain_text forallb]. unfold plain_text in I1. rewrite I1, I2, !andb_true_r. pose proof (proj1 (hex_lower_digit d Hd)) as D. split; destruct (Byte.eqb _ _) eqn:E; try done; apply byte_eqb_iff in E; rewrite E in D; discriminate D. }
  destruct (H _ (nibbles_range n)). split_and!; [done|done|]. unfold show_segment, nibbles. repeat (cbn [without_zeros]; match goal with |- context [if ?b then _ else _] => destruct b | _ => idtac end); done.
Qed.

(** The fields between the colons. *)
Definition fields (l : list Z) : list bytes := match l with [] => [[]] | _ => show_segment <$> l end.

Lemma split_joined l : split_on ":" (joined (show_segment <$> l)) = fields l.
Proof.
  induction l as [|x l IH]; [done|]. destruct l as [|y l]; [by apply split_on_none, show_segment_text|]. cbn [fmap list_fmap joined] in *. rewrite split_on_app, (split_on_none _ _ (proj1 (show_segment_text x))). cbn [app]. rewrite IH. done.
Qed.

Lemma first_gap {A} (x : A) l1 l2 r1 r2 : x ∉ l1 -> x ∉ l2 -> l1 ++ x :: r1 = l2 ++ x :: r2 -> l1 = l2 /\ r1 = r2.
Proof.
  revert l2. induction l1 as [|a l1 IH]; intros [|b l2] H1 H2 E; cbn in E; [by injection E|injection E as -> _; exfalso; apply H2; by left|injection E as <- _; exfalso; apply H1; by left|].
  injection E as -> E. apply not_elem_of_cons in H1 as [_ H1], H2 as [_ H2]. destruct (IH l2 H1 H2 E) as [-> ->]. done.
Qed.

Lemma no_gap (l : list Z) : ([] : bytes) ∉ show_segment <$> l.
Proof. intros (n & E & _)%list_elem_of_fmap. by apply (proj2 (proj2 (show_segment_text n))). Qed.

Definition small (l : list Z) : Prop := Forall (fun n => 0 <= n < 65536) l.

Lemma shown_inj (l1 l2 : list Z) : small l1 -> small l2 -> show_segment <$> l1 = show_segment <$> l2 -> l1 = l2.
Proof.
  revert l2. induction l1 as [|x l1 IH]; intros [|y l2] F1 F2 E; try done. cbn in E. injection E as E1 E2. apply list.Forall_cons in F1 as [? ?], F2 as [? ?]. f_equal; [by apply show_segment_inj|by apply IH].
Qed.

Lemma fields_inj l1 l2 : small l1 -> small l2 -> fields l1 = fields l2 -> l1 = l2.
Proof.
  intros F1 F2 E. destruct l1 as [|x l1], l2 as [|y l2]; [done| | |by apply shown_inj]; unfold fields in E.
  - exfalso. apply (no_gap (y :: l2)). rewrite <- E. by left.
  - exfalso. apply (no_gap (x :: l1)). rewrite E. by left.
Qed.

(** The run of zeros that is left out is one. *)
Lemma zeros_there segs : forall i pre cur longest, i = length pre ->
  (cur.2 = 0%nat \/ (cur.1 + cur.2 = i)%nat) -> ((0 < cur.2)%nat -> forall j, (cur.1 <= j < i)%nat -> (pre ++ segs) !! j = Some 0) ->
  ((longest.1 + longest.2 <= i)%nat /\ forall j, (longest.1 <= j < longest.1 + longest.2)%nat -> (pre ++ segs) !! j = Some 0) ->
  let r := longest_zeros i segs cur longest in (r.1 + r.2 <= i + length segs)%nat /\ forall j, (r.1 <= j < r.1 + r.2)%nat -> (pre ++ segs) !! j = Some 0.
Proof.
  induction segs as [|s segs IH]; intros i pre cur longest Hi Hc Hz [Hl Hlz]; cbn [longest_zeros length]; [split; [lia|done]|].
  assert (Ei : (pre ++ s :: segs) !! i = Some s) by (subst i; by apply list_lookup_middle). replace (i + S (length segs))%nat with (S i + length segs)%nat by lia.
  replace (pre ++ s :: segs) with ((pre ++ [s]) ++ segs) in * by (by rewrite <- app_assoc). destruct (Z.eqb_spec s 0) as [->|].
  - assert (Hcur : forall k, (k <= i)%nat -> ((if (cur.2 =? 0)%nat then i else cur.1) <= k)%nat -> ((pre ++ [0]) ++ segs) !! k = Some 0).
    { intros k Hk Hs. destruct (Nat.eq_dec k i) as [->|]; [done|]. destruct (Nat.eqb_spec cur.2 0); [lia|]. apply Hz; lia. }
    apply IH; cbn [fst snd]; [rewrite length_app; cbn; lia| | |].
    + right. destruct (Nat.eqb_spec cur.2 0); lia.
    + intros _ j Hj. apply Hcur; lia.
    + destruct (_ <? _)%nat; cbn [fst snd]; [|split; [lia|done]]. split; [destruct (Nat.eqb_spec cur.2 0); lia|]. intros j Hj. apply Hcur; [destruct (Nat.eqb_spec cur.2 0); lia|lia].
  - apply IH; cbn [fst snd]; [rewrite length_app; cbn; lia|by left|lia|split; [lia|done]].
Qed.

Lemma zeros_cut segs : let '(start, len) := longest_zeros 0 segs (0, 0)%nat (0, 0)%nat in
  segs = take start segs ++ replicate len 0 ++ drop (start + len) segs /\ (start + len <= length segs)%nat.
Proof.
  pose proof (zeros_there segs 0 [] (0, 0)%nat (0, 0)%nat eq_refl (or_introl eq_refl)) as H. cbn [app fst snd] in H. specialize (H ltac:(lia) ltac:(split; [lia|intros; lia])).
  destruct (longest_zeros _ _ _ _) as [start len]. cbn [fst snd] in H. destruct H as [H1 H2]. split; [|lia]. rewrite <- (take_drop start segs) at 1. f_equal. rewrite <- drop_drop, <- (take_drop len (drop start segs)) at 1. f_equal.
  apply list_eq. intros k. destruct (Nat.lt_ge_cases k len) as [Hk|Hk].
  - rewrite lookup_take_lt, lookup_drop, lookup_replicate_2 by lia. apply H2. lia.
  - rewrite lookup_take_ge by lia. symmetry. apply lookup_ge_None. rewrite length_replicate. lia.
Qed.

Lemma segments_small o : small (segments_of o) /\ length (segments_of o) = (length o / 2)%nat.
Proof.
  assert (H : forall n o, (length o <= n)%nat -> small (segments_of o) /\ length (segments_of o) = (length o / 2)%nat); [|by eapply H].
  clear o. induction n as [|n IH]; intros [|a [|b o]] Hl; try (by split; [constructor|done]); [cbn in Hl; lia|]. cbn [segments_of length] in *. destruct (IH o ltac:(lia)) as [I1 I2]. split.
  - constructor; [|done]. pose proof (b2z_range a). pose proof (b2z_range b). lia.
  - rewrite I2. replace (S (S (length o))) with (length o + 1 * 2)%nat by lia. rewrite Nat.div_add by lia. lia.
Qed.

Lemma segments_inj : forall o1 o2, length o1 = length o2 -> Nat.even (length o1) = true -> segments_of o1 = segments_of o2 -> o1 = o2.
Proof.
  assert (H : forall n o1 o2, (length o1 <= n)%nat -> length o1 = length o2 -> Nat.even (length o1) = true -> segments_of o1 = segments_of o2 -> o1 = o2); [|intros; by eapply H].
  induction n as [|n IH]; intros [|a [|b o1]] [|c [|d o2]] Hl L E S; try done; [cbn in Hl; lia|]. cbn [segments_of length] in *. injection S as E1 E2. injection L as L.
  pose proof (b2z_range a). pose proof (b2z_range b). pose proof (b2z_range c). pose proof (b2z_range d). assert (b2z a = b2z c /\ b2z b = b2z d) as [Ha Hb] by lia.
  apply b2z_inj in Ha as ->, Hb as ->. do 2 f_equal. apply IH; [lia|done|done|done].
Qed.

(** What the fields of an address are. *)
Inductive shape : IpAddr -> list bytes -> Prop :=
  | shape_v4 a b c d : shape (IpV4 a b c d) [show_v4 a b c d]
  | shape_mapped o a b c d : to_ipv4_mapped o = Some (IpV4 a b c d) -> shape (IpV6 o) [[]; []; bs "ffff"; show_v4 a b c d]
  | shape_gap o x y : segments_of o = x ++ replicate (8 - length x - length y) 0 ++ y -> small x -> small y -> shape (IpV6 o) (fields x ++ [] :: fields y)
  | shape_full o : length (segments_of o) = 8%nat -> shape (IpV6 o) (show_segment <$> segments_of o).

Lemma show_v4_text a b c d : plain_text (show_v4 a b c d) = true /\ forallb (fun x => negb (Byte.eqb x ".")) (show_v4 a b c d) = false.
Proof.
  assert (H : forall x, plain_text (show_u (b2z x)) = true) by (intros x; unfold plain_text; eapply forallb_weaken; [|apply show_u_digits; pose proof (b2z_range x); lia]; intros y Hy; destruct (Byte.eqb y ":") eqn:E; [|done]; apply byte_eqb_iff in E as ->; discriminate Hy).
  unfold show_v4. split; [unfold plain_text in *; rewrite !forallb_app, !H; done|]. rewrite !forallb_app. cbn. by rewrite andb_false_r.
Qed.

Lemma mapped_v4 o ip : to_ipv4_mapped o = Some ip -> exists a b c d, ip = IpV4 a b c d /\ o = replicate 10 x00 ++ [xff; xff] ++ [a; b; c; d].
Proof.
  unfold to_ipv4_mapped. destruct (drop 12 o) as [|a [|b [|c [|d [|? ?]]]]] eqn:E; try done. case_bool_decide as H; [|done]. intros [= <-]. exists a, b, c, d. split; [done|]. rewrite <- (take_drop 12 o), E, H. done.
Qed.

Lemma shaped ip : ip_ok ip = true -> shape ip (split_on ":" (show_ip ip)).
Proof.
  intros Hip. destruct ip as [a b c d|o]; cbn [show_ip]; [rewrite split_on_none by apply show_v4_text; constructor|]. cbn in Hip. apply Nat.eqb_eq in Hip.
  destruct (to_ipv4_mapped o) as [m|] eqn:Em.
  - destruct (mapped_v4 o m Em) as (a & b & c & d & -> & _). change (bs "::ffff:" ++ show_v4 a b c d) with ([] ++ ":"%byte :: ([] ++ ":"%byte :: (bs "ffff" ++ ":"%byte :: show_v4 a b c d))). rewrite !split_on_app, (split_on_none _ (show_v4 a b c d)) by apply show_v4_text. by apply shape_mapped.
  - destruct (segments_small o) as [Hs Hl]. rewrite Hip in Hl. change (16 / 2)%nat with 8%nat in Hl. pose proof (zeros_cut (segments_of o)) as Z. destruct (longest_zeros _ _ _ _) as [start len]. destruct Z as [Z1 Z2]. rewrite Hl in Z2.
    destruct (1 <? len)%nat; [|rewrite split_joined; unfold fields; destruct (segments_of o) eqn:E; [done|]; rewrite <- E; apply shape_full; by rewrite E].
    set (x := take start _) in *. set (y := drop _ _) in *. change (bs "::" ++ joined (show_segment <$> y)) with (":"%byte :: ([] ++ ":"%byte :: joined (show_segment <$> y))). rewrite !split_on_app, !split_joined. cbn [split_on app].
    apply shape_gap; [|by apply Forall_take|by apply Forall_drop]. rewrite Z1 at 1. do 2 f_equal. assert (length x = start /\ length y = (8 - (start + len))%nat) as [-> ->] by (unfold x, y; rewrite length_take, length_drop; lia). f_equal. lia.
Qed.

Lemma show_v4_inj a b c d a' b' c' d' : show_v4 a b c d = show_v4 a' b' c' d' -> IpV4 a b c d = IpV4 a' b' c' d'.
Proof. intros E. pose proof (parse_ip_v4 a b c d) as P. rewrite E, parse_ip_v4 in P. by injection P as -> -> -> ->. Qed.

Lemma fields_long l : (1 <= length (fields l))%nat.
Proof. destruct l; cbn; lia. Qed.

Lemma fields_dotless l t : t ∈ fields l -> forallb (fun x => negb (Byte.eqb x ".")) t = true.
Proof. destruct l as [|z l]; unfold fields; [by intros ->%list_elem_of_singleton|]. intros (n & -> & _)%list_elem_of_fmap. apply show_segment_text. Qed.

Lemma gap_inj x1 y1 x2 y2 : small x1 -> small y1 -> small x2 -> small y2 -> fields x1 ++ [] :: fields y1 = fields x2 ++ [] :: fields y2 -> x1 = x2 /\ y1 = y2.
Proof.
  intros A1 B1 A2 B2 E. destruct x1 as [|a x1], x2 as [|b x2].
  - injection E as E. split; [done|]. by apply fields_inj.
  - exfalso. apply (proj2 (proj2 (show_segment_text b))). by injection E as E _.
  - exfalso. apply (proj2 (proj2 (show_segment_text a))). by injection E as E _.
  - apply first_gap in E as [E1 E2]; [|apply no_gap..]. split; [by apply shown_inj|by apply fields_inj].
Qed.

Lemma same_octets o1 o2 : length o1 = 16%nat -> length o2 = 16%nat -> segments_of o1 = segments_of o2 -> IpV6 o1 = IpV6 o2.
Proof. intros H1 H2 E. f_equal. apply segments_inj; [by rewrite H1|by rewrite H1|done]. Qed.

Lemma gap_dotless x y a b c d : show_v4 a b c d ∉ fields x ++ [] :: fields y.
Proof.
  assert (N : forall t, t = show_v4 a b c d -> forallb (fun z => negb (Byte.eqb z ".")) t = true -> False) by (intros t -> H; by rewrite (proj2 (show_v4_text a b c d)) in H).
  intros [H|[H|H]%elem_of_cons]%elem_of_app; [by apply fields_dotless, N in H| |by apply fields_dotless, N in H]. by apply (N [] (eq_sym H)).
Qed.

Lemma gap_long x y : (3 <= length (fields x ++ [] :: fields y))%nat.
Proof. rewrite length_app. cbn. pose proof (fields_long x). pose proof (fields_long y). lia. Qed.

Lemma gap_full x y (l : list Z) : fields x ++ [] :: fields y <> show_segment <$> l.
Proof. intros E. apply (no_gap l). rewrite <- E. apply elem_of_app. right. by left. Qed.

Lemma v4_last {A} (a b c d : A) : d ∈ [a; b; c; d].
Proof. set_solver. Qed.

Lemma shape_inj ip1 ip2 f1 f2 : ip_ok ip1 = true -> ip_ok ip2 = true -> shape ip1 f1 -> shape ip2 f2 -> f1 = f2 -> ip1 = ip2.
Proof.
  intros H1 H2 S1 S2 Ef. destruct S1 as [a b c d|o a b c d E|o x y E F1 F2|o E], S2 as [a' b' c' d'|o' a' b' c' d' E'|o' x' y' E' F1' F2'|o' E']; cbn in H1, H2; try apply Nat.eqb_eq in H1; try apply Nat.eqb_eq in H2; try discriminate Ef;
    try (by apply gap_full in Ef); try (by symmetry in Ef; apply gap_full in Ef); try (pose proof (gap_long x y) as G; rewrite Ef in G; cbn in G; lia); try (pose proof (gap_long x' y') as G; rewrite <- Ef in G; cbn in G; lia);
    try (apply (f_equal length) in Ef; rewrite length_fmap in Ef; cbn in Ef; lia).
  - injection Ef as Ef. by apply show_v4_inj.
  - injection Ef as Ef. apply show_v4_inj in Ef. destruct (mapped_v4 o _ E) as (? & ? & ? & ? & [= <- <- <- <-] & ->), (mapped_v4 o' _ E') as (? & ? & ? & ? & [= <- <- <- <-] & ->). by injection Ef as -> -> -> ->.
  - exfalso. apply (gap_dotless x' y' a b c d). rewrite <- Ef. apply v4_last.
  - exfalso. apply (gap_dotless x y a' b' c' d'). rewrite Ef. apply v4_last.
  - apply gap_inj in Ef as [-> ->]; [|done..]. apply same_octets; [done|done|congruence].
  - apply shown_inj in Ef; [|apply segments_small..]. by apply same_octets.
Qed.

Lemma show_ip_inj ip1 ip2 : ip_ok ip1 = true -> ip_ok ip2 = true -> show_ip ip1 = show_ip ip2 -> ip1 = ip2.
Proof. intros H1 H2 E. eapply shape_inj; [exact H1|exact H2|by apply shaped..|by rewrite E]. Qed.

(** ** Clients *)

(** What a client was built with: the URL of its proxy, its source address, the strictness of its screened resolver (a proxied
    client leaves names to the proxy), its timeout in milliseconds, its default user agent and its redirect policy. *)
Record Client := mkClient {
  cl_proxy : option bytes; cl_local : option IpAddr; cl_resolver : option bool;
  cl_timeout : Z; cl_user_agent : bytes; cl_redirect : list UrlParts -> UrlParts -> RedirectAction }.

Definition as_socks5h_url (p : ProxyConfig) : bytes :=
  match pc_credentials p with
  | Some creds => bs "socks5h://" ++ urlencode (username creds) ++ bs ":" ++ urlencode (password creds) ++ bs "@" ++ show_addr (pc_addr p)
  | None => bs "socks5h://" ++ show_addr (pc_addr p)
  end.

Definition proxied_url_for_announce (p : ProxyConfig) (nonce : bytes) : bytes * bool :=
  let cacheable := negb (pc_isolation p) in
  (as_socks5h_url (for_dial p nonce), cacheable).

(** [{local_ip:?}] *)
Definition debug_local (local_ip : option IpAddr) : bytes :=
  match local_ip with Some ip => bs "Some(" ++ show_ip ip ++ bs ")" | None => bs "None" end.

Definition LIBTORRENT_LOOKALIKE_UA : bytes := bs "libtorrent/2.0.9".

(** [concat!("rustytorrent/", env!("CARGO_PKG_VERSION"))] *)
Definition DEFAULT_UA : bytes := bs "rustytorrent/0.1.0".

(** A request as the library gets it; [as_ua] is the header that overrides the client's. *)
Record Asked := mkAsked { as_client : Client; as_url : bytes; as_ua : option bytes }.

(** The two caches with the poison of their locks, and all requests. *)
Record Http := mkHttp {
  h_direct : gmap bytes Client; h_direct_poisoned : bool; h_proxied : gmap bytes Client; h_poisoned : bool; h_log : list Asked }.

Section Clients.
(** Whether the library takes a proxy URL, and whether it builds a client. *)
Context (proxy_url_ok : bytes -> bool) (builds : Client -> bool) (interface_local_ip : bytes -> bool -> result IpAddr).
(** The [n]-th request: the length the server claims, and the chunks of the body. *)
Context (send : nat -> Asked -> result (option Z * list (option bytes))) (parsed_url : bytes -> option bytes).

(** [builder.build().expect(..)] *)
Definition built (c : Client) : result Client := if builds c then Ok c else Panic.

Definition build_direct_client (local_ip : option IpAddr) (strict : bool) : result Client :=
  built (mkClient None local_ip (Some strict) 30000 DEFAULT_UA same_host_redirect_policy).

(** A panic under the lock poisons it, and a poisoned lock panics. *)
Definition direct_client (local_ip : option IpAddr) (strict : bool) : M Http Client := fun h =>
  let key := debug_local local_ip ++ bs "#" ++ (if strict then bs "true" else bs "false") in
  if h_direct_poisoned h then (h, Panic)
  else
    match h_direct h !! key with
    | Some c => (h, Ok c)
    | None =>
        match build_direct_client local_ip strict with
        | Ok client => (mkHttp (<[key := client]> (h_direct h)) false (h_proxied h) (h_poisoned h) (h_log h), Ok client)
        | r => (mkHttp (h_direct h) true (h_proxied h) (h_poisoned h) (h_log h), r)
        end
    end.

Definition build_proxied_client (proxy_url : bytes) (local_ip : option IpAddr) : result Client :=
  if proxy_url_ok proxy_url then built (mkClient (Some proxy_url) local_ip None 30000 DEFAULT_UA same_host_redirect_policy) else Panic.

Definition proxied_client (proxy_url : bytes) (local_ip : option IpAddr) : M Http Client := fun h =>
  let key := proxy_url ++ bs "#" ++ debug_local local_ip in
  if h_poisoned h then (h, Panic)
  else
    match h_proxied h !! key with
    | Some c => (h, Ok c)
    | None =>
        match build_proxied_client proxy_url local_ip with
        | Ok client => (mkHttp (h_direct h) (h_direct_poisoned h) (<[key := client]> (h_proxied h)) false (h_log h), Ok client)
        | r => (mkHttp (h_direct h) (h_direct_poisoned h) (h_proxied h) true (h_log h), r)
        end
    end.

Definition announce_inner (base_url : bytes) (req : AnnounceRequest) (proxy : option ProxyConfig) (nonce : bytes) (ua_override bind_iface : option bytes) (strict : bool) : M Http AnnounceResponse :=
  local_ip ← lift (match bind_iface with
    | Some iface => ip ← map_err (ETracker "bind-iface") (interface_local_ip iface (url_host_is_ipv6_literal base_url)); Ok (Some ip)
    | None => Ok None
    end);
  let url := build_url base_url req in
  client ← match proxy with
    | Some p =>
        let '(purl, cacheable) := proxied_url_for_announce p nonce in
        if cacheable then proxied_client purl local_ip else lift (build_proxied_client purl local_ip)
    | None => direct_client local_ip strict
    end;
  let asked := mkAsked client url ua_override in
  n ← gets (fun h => length (h_log h));
  _ ← modify (fun h => mkHttp (h_direct h) (h_direct_poisoned h) (h_proxied h) (h_poisoned h) (h_log h ++ [asked]));
  '(content_length, chunks) ← lift (map_err (ETracker "http send") (send n asked));
  body ← lift (read_bounded_body content_length chunks);
  lift (parse_response parsed_url body url base_url).

Definition announce_with_proxy_anon (base_url : bytes) (req : AnnounceRequest) (proxy : option ProxyConfig) (nonce : bytes) (anonymous : bool) (bind_iface : option bytes) : M Http AnnounceResponse :=
  let ua_override := if anonymous then Some LIBTORRENT_LOOKALIKE_UA else None in
  let strict := anonymous || bool_decide (is_Some proxy) in
  announce_inner base_url req proxy nonce ua_override bind_iface strict.

Definition announce_with_proxy (base_url : bytes) (req : AnnounceRequest) (proxy : option ProxyConfig) (nonce : bytes) : M Http AnnounceResponse :=
  announce_inner base_url req proxy nonce None None (bool_decide (is_Some proxy)).

(** ** Announces one after the other *)

Record Announcement := mkAnnouncement {
  r_url : bytes; r_req : AnnounceRequest; r_proxy : option ProxyConfig; r_nonce : bytes; r_anonymous : bool; r_iface : option bytes }.

Fixpoint announces (rs : list Announcement) (h : Http) : Http * list (result AnnounceResponse) :=
  match rs with
  | [] => (h, [])
  | r :: rs =>
      let '(h, x) := announce_with_proxy_anon (r_url r) (r_req r) (r_proxy r) (r_nonce r) (r_anonymous r) (r_iface r) h in
      let '(h, xs) := announces rs h in (h, x :: xs)
  end.

(** *** What each should do, by itself *)

(** The source address. *)
Definition wanted_local (r : Announcement) : result (option IpAddr) :=
  match r_iface r with
  | Some iface => ip ← map_err (ETracker "bind-iface") (interface_local_ip iface (url_host_is_ipv6_literal (r_url r))); Ok (Some ip)
  | None => Ok None
  end.

(** A client of its own, without a cache. *)
Definition wanted_client (r : Announcement) (local_ip : option IpAddr) : result Client :=
  match r_proxy r with
  | Some p => build_proxied_client (as_socks5h_url (for_dial p (r_nonce r))) local_ip
  | None => build_direct_client local_ip (r_anonymous r)
  end.

(** Which announces share a lock: those without a proxy, and those with one and no isolation. *)
Inductive Lock := DirectLock | ProxiedLock | NoLock.

Definition lock_of (r : Announcement) : Lock :=
  match r_proxy r with None => DirectLock | Some p => if pc_isolation p then NoLock else ProxiedLock end.

Definition dead_of (lk : Lock) (dead : bool * bool) : bool := match lk with DirectLock => dead.1 | ProxiedLock => dead.2 | NoLock => false end.
Definition kill (lk : Lock) (dead : bool * bool) : bool * bool :=
  match lk with DirectLock => (true, dead.2) | ProxiedLock => (dead.1, true) | NoLock => dead end.

(** The rest of an announce, once asked. *)
Definition answer_of (n : nat) (r : Announcement) (asked : Asked) : result AnnounceResponse :=
  '(content_length, chunks) ← map_err (ETracker "http send") (send n asked); body ← read_bounded_body content_length chunks; parse_response parsed_url body (as_url asked) (r_url r).

(** [dead] are the locks that a failed build has poisoned; [n] requests were made before. *)
Fixpoint wanted_all (n : nat) (dead : bool * bool) (rs : list Announcement) : list (Announcement * Asked) * list (result AnnounceResponse) :=
  match rs with
  | [] => ([], [])
  | r :: rs =>
      match wanted_local r with
      | Ok local_ip =>
          if dead_of (lock_of r) dead then let '(log, xs) := wanted_all n dead rs in (log, Panic :: xs)
          else match wanted_client r local_ip with
               | Ok c =>
                   let asked := mkAsked c (build_url (r_url r) (r_req r)) (if r_anonymous r then Some LIBTORRENT_LOOKALIKE_UA else None) in
                   let '(log, xs) := wanted_all (S n) dead rs in ((r, asked) :: log, answer_of n r asked :: xs)
               | _ => let '(log, xs) := wanted_all n (kill (lock_of r) dead) rs in (log, Panic :: xs)
               end
      | Err e => let '(log, xs) := wanted_all n dead rs in (log, Err e :: xs)
      | Panic => let '(log, xs) := wanted_all n dead rs in (log, Panic :: xs)
      | NoFuel => let '(log, xs) := wanted_all n dead rs in (log, NoFuel :: xs)
      end
  end.

(** *** The posture of a request, read off the client *)

(** A proxy URL taken apart: scheme, decoded user name and password, host and port. *)
Definition read_proxy_url (u : bytes) : option (bytes * option (bytes * bytes) * bytes) :=
  match split_on "/" u with
  | [scheme; []; authority] =>
      match split_on "@" authority with
      | [host] => Some (scheme, None, host)
      | [userinfo; host] =>
          match split_on ":" userinfo with
          | [name; pass] => match percent_decode name, percent_decode pass with Ok n, Ok p => Some (scheme, Some (n, p), host) | _, _ => None end
          | _ => None
          end
      | _ => None
      end
  | _ => None
  end.

Definition addr_ok (a : SocketAddr) : Prop := ip_ok (sa_ip a) = true /\ 0 <= sa_port a /\ 0 <= sa_scope a.

(** The same host and port; the flow label and an IPv4 scope are not part of the text. *)
Definition same_endpoint (a b : SocketAddr) : Prop :=
  sa_ip a = sa_ip b /\ sa_port a = sa_port b /\ match sa_ip a with IpV6 _ => sa_scope a = sa_scope b | _ => True end.

(** The proxy of a client: names are resolved at the far end, the credentials are those of the configuration or, under
    isolation, the nonce of this announce, and no other endpoint is written like it. *)
Definition goes_through (p : ProxyConfig) (nonce url : bytes) : Prop :=
  exists host, read_proxy_url url = Some (bs "socks5h:", (if pc_isolation p then Some (hex nonce, bs "x") else (fun c => (username c, password c)) <$> pc_credentials p), host) /\
    forall a, addr_ok a -> (show_addr a = host <-> same_endpoint a (pc_addr p)).

Definition keeps_posture (r : Announcement) (a : Asked) : Prop :=
  let c := as_client a in
  as_url a = build_url (r_url r) (r_req r) /\
  default (cl_user_agent c) (as_ua a) = (if r_anonymous r then bs "libtorrent/2.0.9" else bs "rustytorrent/0.1.0") /\
  wanted_local r = Ok (cl_local c) /\ cl_timeout c = 30000 /\
  (forall first previous next, cl_redirect c (first :: previous) next = Follow -> next = first /\ (length previous < 9)%nat) /\
  match r_proxy r with
  | Some p => cl_resolver c = None /\ exists url, cl_proxy c = Some url /\ (addr_ok (pc_addr p) -> goes_through p (r_nonce r) url)
  | None => cl_proxy c = None /\ cl_resolver c = Some (r_anonymous r)
  end.
End Clients.

(** ** The keys *)

(** The text does not have the byte [c]. *)
Definition lacks (c : byte) (t : bytes) : bool := forallb (fun x => negb (Byte.eqb x c)) t.

(** Addresses are written with hex digits, dots and colons. *)
Definition foreign (c : byte) : Prop := hex_digit c = None /\ is_digit c = false /\ c <> ":"%byte /\ c <> "."%byte.

Lemma lacks_app c a b : lacks c (a ++ b) = lacks c a && lacks c b.
Proof. apply forallb_app. Qed.

Lemma lacks_cons c x t : x <> c -> lacks c (x :: t) = lacks c t.
Proof. intros H. cbn. destruct (Byte.eqb x c) eqn:E; [by apply byte_eqb_iff in E|done]. Qed.

Lemma lacks_digits c n : foreign c -> 0 <= n -> lacks c (show_u n) = true.
Proof. intros (_ & Hd & _) Hn. eapply forallb_weaken; [|by apply show_u_digits]. intros x Hx. destruct (Byte.eqb x c) eqn:E; [|done]. apply byte_eqb_iff in E as ->. congruence. Qed.

Lemma lacks_v4 c x y z w : foreign c -> lacks c (show_v4 x y z w) = true.
Proof.
  intros Hc. unfold show_v4. assert (D : lacks c (bs ".") = true) by (change (bs ".") with ["."%byte]; rewrite lacks_cons; [done|]; destruct Hc as (_ & _ & _ & H); congruence).
  by rewrite !lacks_app, D, !lacks_digits by (done || apply b2z_range).
Qed.

Lemma lacks_segment c n : foreign c -> lacks c (show_segment n) = true.
Proof.
  intros (Hc & _). unfold show_segment. induction (nibbles_range n) as [|d ds Hd _ IH]; [done|]. cbn [fmap list_fmap]. rewrite lacks_cons; [done|].
  intros E. pose proof (proj1 (hex_lower_digit d Hd)) as D. congruence.
Qed.

Lemma lacks_joined c l : foreign c -> lacks c (joined (show_segment <$> l)) = true.
Proof.
  intros Hc. induction l as [|x l IH]; [done|]. cbn [fmap list_fmap joined]. destruct l as [|y l]; [by apply lacks_segment|]. cbn [fmap list_fmap] in *.
  rewrite lacks_app, lacks_segment, lacks_cons by (try done; destruct Hc as (_ & _ & H & _); congruence). exact IH.
Qed.

Lemma lacks_ip c ip : foreign c -> lacks c (show_ip ip) = true.
Proof.
  intros Hc. assert (Hcol : ":"%byte <> c) by (destruct Hc as (_ & _ & H & _); congruence).
  assert (G : forall segs, lacks c (let '(start, len) := longest_zeros 0 segs (0, 0)%nat (0, 0)%nat in
    if (1 <? len)%nat then joined (show_segment <$> take start segs) ++ bs "::" ++ joined (show_segment <$> drop (start + len) segs) else joined (show_segment <$> segs)) = true).
  { intros segs. destruct (longest_zeros _ _ _ _) as [start len]. destruct (1 <? len)%nat; [|by apply lacks_joined]. rewrite lacks_app, lacks_joined by done. change (bs "::" ++ ?t) with (":"%byte :: ":"%byte :: t).
    by rewrite !lacks_cons, lacks_joined by done. }
  destruct ip as [x y z w|o]; cbn [show_ip]; [by apply lacks_v4|]. destruct (to_ipv4_mapped o) as [[x y z w|?]|]; [|apply G..].
  assert (F : "f"%byte <> c) by (intros <-; by destruct Hc as [H _]). change (bs "::ffff:" ++ ?t) with (":"%byte :: ":"%byte :: "f"%byte :: "f"%byte :: "f"%byte :: "f"%byte :: ":"%byte :: t).
  by rewrite !lacks_cons, lacks_v4 by done.
Qed.

Lemma lacks_debug l : lacks "#" (debug_local l) = true.
Proof. destruct l as [ip|]; [|done]. unfold debug_local. by rewrite !lacks_app, lacks_ip. Qed.

Lemma lacks_free c t : lacks c t = true -> c ∉ t.
Proof.
  intros H Hin. apply list_elem_of_In in Hin. unfold lacks in H. rewrite forallb_forall in H. specialize (H _ Hin). cbn in H. rewrite (proj2 (byte_eqb_iff c c) eq_refl) in H. done.
Qed.

Definition local_ok (l : option IpAddr) : Prop := forall ip, l = Some ip -> ip_ok ip = true.

Lemma debug_inj l1 l2 : local_ok l1 -> local_ok l2 -> debug_local l1 = debug_local l2 -> l1 = l2.
Proof.
  intros H1 H2 E. destruct l1 as [i1|], l2 as [i2|]; try done. f_equal. apply show_ip_inj; [by apply H1|by apply H2|]. unfold debug_local in E. apply app_inv_head in E. by apply app_inv_tail in E.
Qed.

Lemma direct_key_inj l1 s1 l2 s2 : local_ok l1 -> local_ok l2 ->
  debug_local l1 ++ bs "#" ++ (if s1 : bool then bs "true" else bs "false") = debug_local l2 ++ bs "#" ++ (if s2 : bool then bs "true" else bs "false") -> l1 = l2 /\ s1 = s2.
Proof.
  intros H1 H2 E. apply first_gap in E as [E1 E2]; [|by apply lacks_free, lacks_debug..]. split; [by apply debug_inj|by destruct s1, s2].
Qed.

Lemma proxied_key_inj u1 l1 u2 l2 : local_ok l1 -> local_ok l2 -> u1 ++ bs "#" ++ debug_local l1 = u2 ++ bs "#" ++ debug_local l2 -> u1 = u2 /\ l1 = l2.
Proof.
  intros H1 H2 E. apply (f_equal (@rev byte)) in E. rewrite !rev_app_distr in E. change (rev (bs "#")) with ["#"%byte] in E. rewrite <- !app_assoc in E. apply first_gap in E as [E1 E2]; [|rewrite list_elem_of_In, <- in_rev, <- list_elem_of_In; by apply lacks_free, lacks_debug..].
  apply (f_equal (@rev byte)) in E1, E2. rewrite !rev_involutive in E1, E2. split; [done|by apply debug_inj].
Qed.

(** ** Proxy URLs *)

Lemma show_u_inj m n : 0 <= m -> 0 <= n -> show_u m = show_u n -> m = n.
Proof. intros Hm Hn E. pose proof (digits_val_show m Hm) as D. rewrite E, (digits_val_show n Hn) in D. by injection D. Qed.

Lemma lacks_addr c a : addr_ok a -> foreign c -> c <> "["%byte -> c <> "]"%byte -> c <> "%"%byte -> lacks c (show_addr a) = true.
Proof.
  intros (_ & Hp & Hs) Hc H1 H2 H3. assert (Hcol : ":"%byte <> c) by (destruct Hc as (_ & _ & H & _); congruence).
  unfold show_addr. destruct (sa_ip a) as [x y z w|o]; [change (bs ":" ++ ?t) with (":"%byte :: t); by rewrite lacks_app, lacks_ip, lacks_cons, lacks_digits by done|].
  change (bs "[" ++ ?t) with ("["%byte :: t). change (bs "]:" ++ ?t) with ("]"%byte :: ":"%byte :: t). rewrite lacks_cons, !lacks_app, lacks_ip, !lacks_cons, lacks_digits, andb_true_r by congruence.
  destruct (_ =? 0); [done|]. change (bs "%" ++ ?t) with ("%"%byte :: t). by rewrite lacks_cons, lacks_digits by congruence.
Qed.

(** An endpoint is written in one way, and no two alike. *)
Lemma show_addr_inj a b : addr_ok a -> addr_ok b -> show_addr a = show_addr b <-> same_endpoint a b.
Proof.
  intros (Ia & Pa & Sa) (Ib & Pb & Sb). unfold show_addr, same_endpoint. split.
  2: { intros (-> & -> & H). destruct (sa_ip b); [done|by rewrite H]. }
  destruct (sa_ip a) as [x y z w|o], (sa_ip b) as [x' y' z' w'|o'].
  - change (bs ":" ++ ?t) with (":"%byte :: t). intros [E1 E2]%first_gap; [|by apply lacks_free, show_v4_text..]. split_and!; [by apply show_ip_inj|by apply show_u_inj|done].
  - intros E. assert (H : lacks "[" (show_ip (IpV4 x y z w) ++ bs ":" ++ show_u (sa_port a)) = true) by (by rewrite !lacks_app, lacks_ip, lacks_digits). by rewrite E in H.
  - intros E. assert (H : lacks "[" (show_ip (IpV4 x' y' z' w') ++ bs ":" ++ show_u (sa_port b)) = true) by (by rewrite !lacks_app, lacks_ip, lacks_digits). by rewrite <- E in H.
  - intros E. apply (app_inv_head (bs "[")) in E. rewrite !app_assoc in E. rewrite <- !(app_assoc _ (bs "]:")) in E. change (bs "]:" ++ ?t) with ("]"%byte :: ":"%byte :: t) in E.
    assert (Lk : forall o n, 0 <= n -> lacks "]" (show_ip (IpV6 o) ++ (if n =? 0 then [] else bs "%" ++ show_u n)) = true).
    { intros o0 n Hn. rewrite lacks_app, lacks_ip by done. destruct (n =? 0); [done|]. by rewrite lacks_app, lacks_digits. }
    apply first_gap in E as [E1 E2]; [|by apply lacks_free, Lk..]. injection E2 as E2. apply show_u_inj in E2; [|done..].
    assert (L : forall o, "%"%byte ∉ show_ip (IpV6 o)) by (intros o0; by apply lacks_free, lacks_ip).
    destruct (Z.eqb_spec (sa_scope a) 0) as [Za|Za], (Z.eqb_spec (sa_scope b) 0) as [Zb|Zb]; rewrite ?app_nil_r in E1.
    + split_and!; [by apply show_ip_inj|done|congruence].
    + exfalso. apply (L o). rewrite E1. apply elem_of_app. right. by left.
    + exfalso. apply (L o'). rewrite <- E1. apply elem_of_app. right. by left.
    + change (bs "%" ++ ?t) with ("%"%byte :: t) in E1. apply first_gap in E1 as [E1 E3]; [|done..]. split_and!; [by apply show_ip_inj|done|by apply show_u_inj].
Qed.

(** What percent encoding leaves: letters, digits, and four signs. *)
Lemma lacks_urlencode c t : c = ":"%byte \/ c = "/"%byte \/ c = "@"%byte -> lacks c (urlencode t) = true.
Proof.
  intros Hc. induction t as [|x t IH]; [done|]. cbn [urlencode flat_map]. fold (urlencode t). rewrite lacks_app, IH, andb_true_r.
  assert (U : forall d, 0 <= d < 16 -> hex_upper d <> c) by (intros d Hd E; pose proof (hex_upper_digit d Hd) as D; rewrite E in D; destruct Hc as [->|[->| ->]]; discriminate D).
  pose proof (b2z_range x) as Hx. destruct (_ || _) eqn:E.
  - rewrite lacks_cons; [done|]. intros ->. destruct Hc as [->|[->| ->]]; discriminate E.
  - assert (P : "%"%byte <> c) by (destruct Hc as [->|[->| ->]]; done).
    rewrite !lacks_cons; [done|apply U; Z.to_euclidean_division_equations; lia|apply U; Z.to_euclidean_division_equations; lia|done].
Qed.

Lemma urlencode_roundtrip t : percent_decode (urlencode t) = Ok t.
Proof. exact (percent_roundtrip t). Qed.

Lemma read_plain host : lacks "/" host = true -> lacks "@" host = true -> read_proxy_url (bs "socks5h://" ++ host) = Some (bs "socks5h:", None, host).
Proof.
  intros H1 H2. unfold read_proxy_url. change (bs "socks5h://" ++ host) with (bs "socks5h:" ++ "/"%byte :: ([] ++ "/"%byte :: host)).
  rewrite !split_on_app, (split_on_none _ host H1). change (split_on "/" (bs "socks5h:")) with [bs "socks5h:"]. change (split_on "/" []) with [[] : bytes]. cbn [app]. by rewrite (split_on_none _ host H2).
Qed.

Lemma read_with_creds n p host : lacks "/" host = true -> lacks "@" host = true ->
  read_proxy_url (bs "socks5h://" ++ urlencode n ++ bs ":" ++ urlencode p ++ bs "@" ++ host) = Some (bs "socks5h:", Some (n, p), host).
Proof.
  intros H1 H2. unfold read_proxy_url. set (auth := urlencode n ++ _). change (bs "socks5h://" ++ auth) with (bs "socks5h:" ++ "/"%byte :: ([] ++ "/"%byte :: auth)).
  assert (S : lacks "/" auth = true) by (unfold auth; rewrite !lacks_app, H1, !lacks_urlencode by auto; done). rewrite !split_on_app, (split_on_none _ auth S). change (split_on "/" (bs "socks5h:")) with [bs "socks5h:"]. change (split_on "/" []) with [[] : bytes]. cbn [app].
  assert (A : auth = (urlencode n ++ bs ":" ++ urlencode p) ++ "@"%byte :: host) by (unfold auth; by rewrite <- !app_assoc).
  rewrite A, split_on_app, (split_on_none _ host H2), split_on_none by (fold (lacks "@" (urlencode n ++ bs ":" ++ urlencode p)); rewrite !lacks_app, !lacks_urlencode by auto; done).
  cbn [app]. change (bs ":" ++ ?t) with (":"%byte :: t). rewrite split_on_app, !split_on_none by (apply lacks_urlencode; auto). cbn [app]. by rewrite !urlencode_roundtrip.
Qed.

Lemma url_goes_through p nonce : addr_ok (pc_addr p) -> goes_through p nonce (as_socks5h_url (for_dial p nonce)).
Proof.
  intros Ha. exists (show_addr (pc_addr p)). split; [|intros a Ha'; by apply show_addr_inj].
  assert (H1 : lacks "/" (show_addr (pc_addr p)) = true) by (by apply lacks_addr). assert (H2 : lacks "@" (show_addr (pc_addr p)) = true) by (by apply lacks_addr).
  unfold for_dial, as_socks5h_url. destruct (pc_isolation p); cbn [negb pc_credentials pc_addr username password]; [by rewrite read_with_creds|].
  destruct (pc_credentials p) as [c|]; cbn [fmap option_fmap option_map]; [by rewrite read_with_creds|by rewrite read_plain].
Qed.

(** ** The caches are transparent *)

Section Transparent.
Context (proxy_url_ok : bytes -> bool) (builds : Client -> bool) (interface_local_ip : bytes -> bool -> result IpAddr) (send : nat -> Asked -> result (option Z * list (option bytes))) (parsed_url : bytes -> option bytes).
Context (Hlocal : forall iface v6 ip, interface_local_ip iface v6 = Ok ip -> ip_ok ip = true).

(** Under each key is the client the key describes, as long as the lock is good. *)
Record caches_ok (dead : bool * bool) (h : Http) : Prop := {
  c_direct_ok : forall k c, h_direct h !! k = Some c -> exists l s, local_ok l /\ k = debug_local l ++ bs "#" ++ (if s : bool then bs "true" else bs "false") /\ build_direct_client builds l s = Ok c;
  c_proxied_ok : forall k c, h_proxied h !! k = Some c -> exists u l, local_ok l /\ k = u ++ bs "#" ++ debug_local l /\ build_proxied_client proxy_url_ok builds u l = Ok c;
  c_dead : (h_direct_poisoned h, h_poisoned h) = dead;
}.

Lemma built_cases c : built builds c = Ok c \/ built builds c = Panic.
Proof. unfold built. destruct (builds c); auto. Qed.

(** Getting a client under a lock, and what becomes of the lock. *)
Definition got (lk : Lock) (dead : bool * bool) (fresh : result Client) (h : Http) (x : Http * result Client) : Prop :=
  h_log x.1 = h_log h /\
  if dead_of lk dead then x.2 = Panic /\ caches_ok dead x.1
  else match fresh with
       | Ok c => x.2 = Ok c /\ caches_ok dead x.1
       | _ => x.2 = Panic /\ caches_ok (kill lk dead) x.1
       end.

Lemma direct_fresh l s dead h : caches_ok dead h -> local_ok l -> got DirectLock dead (build_direct_client builds l s) h (direct_client builds l s h).
Proof.
  intros Hh Hl. unfold got, direct_client. cbn zeta. pose proof Hh as [D P Ed]. assert (Q : dead_of DirectLock dead = h_direct_poisoned h) by (by rewrite <- Ed). rewrite Q. destruct (h_direct_poisoned h) eqn:Ep; [by split_and!|].
  set (key := _ ++ _). destruct (h_direct h !! key) as [c|] eqn:E.
  - destruct (D _ _ E) as (l' & s' & Hl' & Ek & Hc). apply direct_key_inj in Ek as [-> ->]; [|done..]. by rewrite Hc.
  - assert (C : build_direct_client builds l s = Panic \/ exists c, build_direct_client builds l s = Ok c) by (unfold build_direct_client; edestruct built_cases as [->| ->]; eauto).
    destruct C as [->|[c Ec]]; [split_and!; try done; split; [done|done|by rewrite <- Ed]|]. rewrite Ec. split_and!; try done. split; cbn; [try done..|by rewrite <- Ed]. intros k c' [[<- <-]|[_ E']]%lookup_insert_Some; [|by apply D]. by exists l, s.
Qed.

Lemma proxied_fresh u l dead h : caches_ok dead h -> local_ok l -> got ProxiedLock dead (build_proxied_client proxy_url_ok builds u l) h (proxied_client proxy_url_ok builds u l h).
Proof.
  intros Hh Hl. unfold got, proxied_client. cbn zeta. pose proof Hh as [D P Ed]. assert (Q : dead_of ProxiedLock dead = h_poisoned h) by (by rewrite <- Ed). rewrite Q. destruct (h_poisoned h) eqn:Ep; [by split_and!|].
  set (key := _ ++ _). destruct (h_proxied h !! key) as [c|] eqn:E.
  - destruct (P _ _ E) as (u' & l' & Hl' & Ek & Hc). apply proxied_key_inj in Ek as [-> ->]; [|done..]. by rewrite Hc.
  - assert (C : build_proxied_client proxy_url_ok builds u l = Panic \/ exists c, build_proxied_client proxy_url_ok builds u l = Ok c).
    { unfold build_proxied_client. destruct (proxy_url_ok u); [|by left]. edestruct built_cases as [->| ->]; eauto. }
    destruct C as [->|[c Ec]]; [split_and!; try done; split; [done|done|by rewrite <- Ed]|]. rewrite Ec. split_and!; try done. split; cbn; [try done..|by rewrite <- Ed]. intros k c' [[<- <-]|[_ E']]%lookup_insert_Some; [|by apply P]. by exists u, l.
Qed.

#[local] Abbreviation announce_ r := (announce_with_proxy_anon proxy_url_ok builds interface_local_ip send parsed_url (r_url r) (r_req r) (r_proxy r) (r_nonce r) (r_anonymous r) (r_iface r)).
#[local] Abbreviation wanted_client_ := (wanted_client proxy_url_ok builds).

(** The client of an announce. *)
Lemma client_got r l dead h : caches_ok dead h -> local_ok l ->
  got (lock_of r) dead (wanted_client_ r l) h
    (match r_proxy r with
     | Some p => let '(purl, cacheable) := proxied_url_for_announce p (r_nonce r) in
         if cacheable then proxied_client proxy_url_ok builds purl l else lift (build_proxied_client proxy_url_ok builds purl l)
     | None => direct_client builds l (r_anonymous r || bool_decide (is_Some (r_proxy r)))
     end h).
Proof.
  intros Hh Hl. unfold lock_of, wanted_client. destruct (r_proxy r) as [p|].
  - unfold proxied_url_for_announce. cbn zeta. set (u := as_socks5h_url _). destruct (pc_isolation p); cbn [negb]; [|by apply proxied_fresh].
    unfold got, lift. cbn [fst snd dead_of kill]. split; [done|]. unfold build_proxied_client. destruct (proxy_url_ok u); [|done]. edestruct built_cases as [->| ->]; done.
  - rewrite bool_decide_eq_false_2 by (by intros [? ?]). rewrite orb_false_r. by apply direct_fresh.
Qed.

(** What comes after getting it. *)
Lemma bind_got {B} (m : M Http Client) lk dead fresh h : got lk dead fresh h (m h) -> exists h1, h_log h1 = h_log h /\
  if dead_of lk dead then (forall f : Client -> M Http B, (m ≫= f) h = (h1, Panic)) /\ caches_ok dead h1
  else match fresh with
       | Ok c => (forall f : Client -> M Http B, (m ≫= f) h = f c h1) /\ caches_ok dead h1
       | _ => (forall f : Client -> M Http B, (m ≫= f) h = (h1, Panic)) /\ caches_ok (kill lk dead) h1
       end.
Proof.
  unfold got, mbind, M_bind. destruct (m h) as [h1 x]. cbn [fst snd]. intros [L G]. exists h1. split; [done|].
  destruct (dead_of lk dead); [|destruct fresh]; destruct G as [-> G]; done.
Qed.

(** Asking, with the client at hand. *)
Lemma ask_client (r : Announcement) client ua dead h : caches_ok dead h -> let asked := mkAsked client (build_url (r_url r) (r_req r)) ua in
  exists h', (n ← gets (fun h => length (h_log h));
    _ ← modify (fun h => mkHttp (h_direct h) (h_direct_poisoned h) (h_proxied h) (h_poisoned h) (h_log h ++ [asked]));
    '(content_length, chunks) ← lift (map_err (ETracker "http send") (send n asked));
    body ← lift (read_bounded_body content_length chunks);
    lift (parse_response parsed_url body (build_url (r_url r) (r_req r)) (r_url r)) : M Http AnnounceResponse) h = (h', answer_of send parsed_url (length (h_log h)) r asked) /\ caches_ok dead h' /\ h_log h' = h_log h ++ [asked].
Proof.
  intros Hh asked. exists (mkHttp (h_direct h) (h_direct_poisoned h) (h_proxied h) (h_poisoned h) (h_log h ++ [asked])). split; [|split; [by destruct Hh|done]]. unfold answer_of. unfold mbind, M_bind, gets, modify, lift. cbn [as_url asked].
  destruct (map_err _ (send _ _)) as [[len chunks]| | |]; [|done..]. cbn [result_bind mbind]. by destruct (read_bounded_body len chunks).
Qed.

Lemma wanted_local_ok r l : wanted_local interface_local_ip r = Ok l -> local_ok l.
Proof.
  unfold wanted_local. destruct (r_iface r) as [iface|]; [|by intros [= <-]]. destruct (interface_local_ip _ _) as [ip| | |] eqn:E; try done. intros [= <-] ip' [= <-]. by eapply Hlocal.
Qed.

Definition asked_by (r : Announcement) (c : Client) : Asked :=
  mkAsked c (build_url (r_url r) (r_req r)) (if r_anonymous r then Some LIBTORRENT_LOOKALIKE_UA else None).

(** One announce does what it should by itself. *)
Lemma announce_one_exact r dead h : caches_ok dead h -> exists h' x, announce_ r h = (h', x) /\
  match wanted_local interface_local_ip r with
  | Ok l =>
      if dead_of (lock_of r) dead then h_log h' = h_log h /\ x = Panic /\ caches_ok dead h'
      else match wanted_client_ r l with
           | Ok c => h_log h' = h_log h ++ [asked_by r c] /\ x = answer_of send parsed_url (length (h_log h)) r (asked_by r c) /\ caches_ok dead h'
           | _ => h_log h' = h_log h /\ x = Panic /\ caches_ok (kill (lock_of r) dead) h'
           end
  | Err e => h_log h' = h_log h /\ x = Err e /\ caches_ok dead h'
  | Panic => h_log h' = h_log h /\ x = Panic /\ caches_ok dead h'
  | NoFuel => h_log h' = h_log h /\ x = NoFuel /\ caches_ok dead h'
  end.
Proof.
  intros Hh. unfold announce_with_proxy_anon, announce_inner. pose proof (wanted_local_ok r) as Hl. unfold wanted_local in *. set (local := match r_iface r with Some _ => _ | None => _ end) in *.
  clearbody local. destruct local as [l|e| |]; [|eexists _, _; by split_and!..]. rewrite bind_lift. specialize (Hl l eq_refl). cbn zeta.
  destruct (bind_got (B := AnnounceResponse) _ _ _ _ _ (client_got r l dead h Hh Hl)) as (h1 & L1 & G). destruct (dead_of (lock_of r) dead).
  { destruct G as [E C]. rewrite E. by eexists _, _. }
  destruct (wanted_client_ r l) as [c|e| |]; destruct G as [E C]; rewrite E; [|by eexists _, _..].
  destruct (ask_client r c (if r_anonymous r then Some LIBTORRENT_LOOKALIKE_UA else None) dead h1 C) as (h2 & E2 & C2 & L2). eexists h2, _. split; [exact E2|]. rewrite L2, L1. by split_and!.
Qed.

Lemma announces_exact rs : forall dead h, caches_ok dead h ->
  let '(h', xs) := announces proxy_url_ok builds interface_local_ip send parsed_url rs h in
  let '(log, ys) := wanted_all proxy_url_ok builds interface_local_ip send parsed_url (length (h_log h)) dead rs in h_log h' = h_log h ++ log.*2 /\ xs = ys.
Proof.
  induction rs as [|r rs IH]; intros dead h Hh; cbn [announces wanted_all]; [by rewrite app_nil_r|].
  destruct (announce_one_exact r dead h Hh) as (h1 & x & E & W). rewrite E.
  assert (S : forall dead' x', h_log h1 = h_log h /\ x = x' /\ caches_ok dead' h1 ->
    let '(h', xs) := (let '(h, xs) := announces proxy_url_ok builds interface_local_ip send parsed_url rs h1 in (h, x :: xs)) in
    let '(log, ys) := (let '(log, xs) := wanted_all proxy_url_ok builds interface_local_ip send parsed_url (length (h_log h)) dead' rs in (log, x' :: xs)) in
    h_log h' = h_log h ++ log.*2 /\ xs = ys).
  { intros dead' x' (L & -> & C). specialize (IH dead' h1 C). rewrite L in IH. destruct (announces _ _ _ _ _ rs h1) as [h2 xs]. destruct (wanted_all _ _ _ _ _ _ dead' rs) as [log ys]. by destruct IH as [-> ->]. }
  destruct (wanted_local _ r) as [l|e| |]; [|by apply S..]. destruct (dead_of _ dead); [by apply S|].
  destruct (wanted_client_ r l) as [c|e| |]; [|by apply S..]. destruct W as (L & -> & C). specialize (IH dead h1 C). rewrite L, length_app, Nat.add_1_r in IH.
  fold (asked_by r c). destruct (announces _ _ _ _ _ rs h1) as [h2 xs]. destruct (wanted_all _ _ _ _ _ _ dead rs) as [log ys]. destruct IH as [-> ->]. by rewrite <- app_assoc.
Qed.

(** What is wanted keeps the posture of each announce. *)
Lemma wanted_keeps rs : forall n dead, Forall (fun ra => keeps_posture interface_local_ip ra.1 ra.2) (wanted_all proxy_url_ok builds interface_local_ip send parsed_url n dead rs).1.
Proof.
  assert (S : forall n dead rs' (x : result AnnounceResponse), Forall (fun ra => keeps_posture interface_local_ip ra.1 ra.2) (wanted_all proxy_url_ok builds interface_local_ip send parsed_url n dead rs').1 ->
    Forall (fun ra => keeps_posture interface_local_ip ra.1 ra.2) (let '(log, xs) := wanted_all proxy_url_ok builds interface_local_ip send parsed_url n dead rs' in (log, x :: xs)).1) by (intros n dead rs' x; by destruct (wanted_all _ _ _ _ _ _ _ _)).
  induction rs as [|r rs IH]; intros n dead; [constructor|]. cbn [wanted_all]. destruct (wanted_local _ r) as [l|e| |] eqn:El; [|by apply S..].
  destruct (dead_of _ dead); [by apply S|]. destruct (wanted_client_ r l) as [c|e| |] eqn:Ec; [|by apply S..].
  assert (K : keeps_posture interface_local_ip r (asked_by r c)).
  { assert (B : forall c0, built builds c0 = Ok c -> c = c0) by (unfold built; intros c0; destruct (builds c0); [by intros [= ->]|done]).
    assert (R : forall first previous next, same_host_redirect_policy (first :: previous) next = Follow -> next = first /\ (length previous < 9)%nat).
    { intros f pr nx Hf. apply redirect_same_origin in Hf as (E1 & E2 & E3 & E4). destruct f, nx; cbn in *. by subst. }
    unfold keeps_posture, asked_by. cbn [as_client as_url as_ua]. unfold wanted_client in Ec. destruct (r_proxy r) as [p|].
    - unfold build_proxied_client in Ec. destruct (proxy_url_ok _); [|done]. apply B in Ec as ->. split_and!; try done; [by destruct (r_anonymous r)|]. eexists. split; [done|]. intros Ha. by apply url_goes_through.
    - apply B in Ec as ->. split_and!; try done. by destruct (r_anonymous r). }
  fold (asked_by r c). specialize (IH (Datatypes.S n) dead). destruct (wanted_all _ _ _ _ _ _ _ _) as [log xs]. by constructor.
Qed.
End Transparent.

(** C31: tracker requests keep to their posture.  Over any sequence of announces, to any trackers, with different proxies,
    interfaces and modes in one process, the caches of HTTP clients cannot be told from building a client for every announce, with
    one exception that is spelled out: a build that panics (a proxy URL the library refuses, a client it does not build) poisons its
    cache, and every later announce without a proxy, or every later one with a proxy and no isolation, panics.  Each
    request that is made is made once, in order, by a client with a proxy URL that reads, taken apart and percent-decoded, as
    [socks5h] with exactly the credentials of that announce's proxy, under isolation the hex of a nonce of its own, and its endpoint and no other; with
    the source address of exactly its interface, or of none; without a proxy, behind a resolver of its strictness; within
    30 seconds, and with redirects inside the origin only, nine at most; an anonymous one names itself libtorrent, any other rustytorrent; an interface without an
    address stops the announce before anything is sent.  The answers are those of the same requests made one by one. *)
Theorem announce_clients_exact proxy_url_ok builds interface_local_ip send parsed_url rs :
  (forall iface v6 ip, interface_local_ip iface v6 = Ok ip -> ip_ok ip = true) ->
  let '(h, xs) := announces proxy_url_ok builds interface_local_ip send parsed_url rs (mkHttp ∅ false ∅ false []) in
  let '(log, ys) := wanted_all proxy_url_ok builds interface_local_ip send parsed_url 0 (false, false) rs in
  h_log h = log.*2 /\ xs = ys /\ Forall (fun ra => keeps_posture interface_local_ip ra.1 ra.2) log.
Proof.
  intros Hl. pose proof (announces_exact proxy_url_ok builds interface_local_ip send parsed_url Hl rs (false, false) (mkHttp ∅ false ∅ false []) ltac:(by split)) as H.
  pose proof (wanted_keeps proxy_url_ok builds interface_local_ip send parsed_url rs 0 (false, false)) as K.
  destruct (announces _ _ _ _ _ rs _) as [h xs]. cbn [h_log length app] in H. destruct (wanted_all _ _ _ _ _ 0 _ rs) as [log ys]. destruct H as [-> ->]. by split_and!.
Qed.

(** ** An example *)

Definition torrent_req_ex : AnnounceRequest := mkReq (replicate 20 x01) (replicate 20 x02) 6881 0 0 0 EvStarted 50.
Definition refused_ex : ProxyConfig := mkProxy (pc_addr proxy_ex) None false.
Definition rs_ex : list Announcement :=
  (fun pi => mkAnnouncement (bs "http://t/a") torrent_req_ex pi.1 (replicate 8 x07) pi.2.1 pi.2.2) <$>
  [(None, (false, None)); (Some proxy_ex, (true, None)); (None, (false, Some (bs "wg0"))); (None, (false, None)); (None, (false, Some (bs "down")));
   (Some proxy_ex, (true, None)); (Some refused_ex, (false, None)); (Some proxy_ex, (true, None)); (Some proxy2_ex, (true, None))].
Definition local_ex (iface : bytes) (v6 : bool) : result IpAddr := if bytes_eqb iface (bs "wg0") then Ok (IpV4 x0a x00 x00 x02) else Err (EIo "no such interface").
Definition send_ex (n : nat) (a : Asked) : result (option Z * list (option bytes)) := Ok (None, [Some body_ex]).
Definition url_ok_ex (u : bytes) : bool := negb (bytes_eqb u (as_socks5h_url refused_ex)).

(** Nine announces.  The fifth has no interface; the seventh has a proxy URL the library refuses, which also stops the
    eighth, that was fine before; the ninth has a client of its own.  Two clients come from the caches. *)
Lemma announce_clients_exact_witness : let '(h, xs) := announces url_ok_ex (fun _ => true) local_ex send_ex (fun _ => None) rs_ex (mkHttp ∅ false ∅ false []) in
  let '(log, ys) := wanted_all url_ok_ex (fun _ => true) local_ex send_ex (fun _ => None) 0 (false, false) rs_ex in
  xs = ys /\ Forall (fun ra => keeps_posture local_ex ra.1 ra.2) log /\
  length (h_log h) = 6%nat /\ (size (h_direct h) + size (h_proxied h) = 3)%nat /\ returns <$> xs = [true; true; true; true; true; true; false; false; true].
Proof.
  assert (L : forall iface v6 ip, local_ex iface v6 = Ok ip -> ip_ok ip = true) by (intros iface v6 ip; unfold local_ex; destruct (bytes_eqb _ _); [by intros [= <-]|done]).
  pose proof (announce_clients_exact url_ok_ex (fun _ => true) local_ex send_ex (fun _ => None) rs_ex L) as H.
  assert (G : let '(h, xs) := announces url_ok_ex (fun _ => true) local_ex send_ex (fun _ => None) rs_ex (mkHttp ∅ false ∅ false []) in
    (length (h_log h), (size (h_direct h) + size (h_proxied h))%nat, returns <$> xs) = (6%nat, 3%nat, [true; true; true; true; true; true; false; false; true])) by (vm_compute; reflexivity).
  destruct (announces _ _ _ _ _ rs_ex _) as [h xs]. destruct (wanted_all _ _ _ _ _ 0 _ rs_ex) as [log ys]. injection G as G1 G2 G3. destruct H as (_ & H2 & H3). by split_and!.
Defined.
