(* ===== verification/Storage.v ===== *)
(** * Storage tasks: [src/src/storage/disk.rs] and [src/src/storage/memspool.rs]

    A storage task owns one back end and serves [StorageCommand]s in order.  The
    class [PieceStore] holds the two operations a back end offers, and
    [PieceStoreLaws] what it promises the task: it behaves like a map from
    piece indices to pieces.  The task is verified against the laws once; the
    in-memory spool and the plain files discharge them here, the encrypted spool
    in [Spool.v].

    The file system maps the components of a path to the content of the file, so
    two spans with the same path share their bytes.  What creating directories
    and opening a file return is an argument; operations on an open file succeed
    except for a read past the end, and [flush] has no effect on the content. *)

From Stdlib Require Import ZArith Lia String Strings.Byte.
From stdpp Require Import base tactics numbers list option gmap countable.
From S2P Require Import Prelude Pieces Picker Paths Torrent Layout Net.

(** ** Files *)

#[export] Instance Component_countable : Countable Component.
Proof.
  refine (inj_countable'
    (fun c => match c with RootDir => inl 0%nat | CurDir => inl 1%nat | ParentDir => inl 2%nat | Normal p => inr p end)
    (fun x => match x with inl 0%nat => RootDir | inl 1%nat => CurDir | inl _ => ParentDir | inr p => Normal p end) _).
  by intros [].
Defined.

Abbreviation Key := (list Component).
Abbreviation Fs := (gmap (list Component) (list Byte.byte)).

(** [f.set_len(n)]. *)
Definition set_len (n : nat) (content : bytes) : bytes :=
  take n content ++ replicate (n - length content) Byte.x00.

(** [f.seek(Start(off))] then [f.write_all(data)]; a gap reads as zeros. *)
Definition write_at (off : nat) (data content : bytes) : bytes :=
  match data with
  | [] => content
  | _ => splice (set_len (Nat.max off (length content)) content) off data
  end.

(** [f.seek(Start(off))] then [f.read_exact] of [n] bytes. *)
Definition read_at (off n : nat) (content : bytes) : result bytes :=
  if (off + n <=? length content)%nat then Ok (slice content off n)
  else Err (EIo "failed to fill whole buffer").

(** ** The interface *)

Class PieceStore (S : Type) := {
  ps_write : nat -> bytes -> M S unit;
  ps_read : nat -> Z -> Z -> S -> result bytes;
}.

(** [size i] is the length of piece [i], [accepts i] whether the store was set up
    to hold it, [repr s m] that the pieces of [m] are in the store. *)
Class PieceStoreLaws S `{PieceStore S} (size : nat -> Z) (accepts : nat -> Prop)
    (repr : S -> gmap nat bytes -> Prop) := {
  law_write s m i d : repr s m -> accepts i -> Z.of_nat (length d) = size i ->
    exists s', ps_write i d s = (s', Ok tt) /\ repr s' (<[i := d]> m);
  law_refuse s m i d : repr s m -> accepts i -> Z.of_nat (length d) <> size i ->
    exists e, ps_write i d s = (s, Err e);
  law_read s m i d b n : repr s m -> m !! i = Some d -> accepts i -> 0 <= b -> 0 <= n -> b + n <= size i ->
    ps_read i b n s = Ok (slice d (Z.to_nat b) (Z.to_nat n));
  law_past s m i b n : repr s m -> accepts i -> in_u 32 b = true -> in_u 32 n = true -> size i < b + n ->
    exists e, ps_read i b n s = Err e;
  law_total s m i b n : repr s m -> accepts i -> in_u 32 b = true -> in_u 32 n = true ->
    returns (ps_read i b n s) = true;
}.

(** ** The task *)

Inductive StorageCommand :=
  | Write (index : nat) (data : bytes)
  | Read (index : nat) (begin length : Z)
  | Shutdown.

Inductive StorageEvent :=
  | Written (index : nat)
  | StorageError (index : option nat) (e : Error).

(** What the task sends: an event, or the reply to a read. *)
Inductive Output :=
  | Event (e : StorageEvent)
  | Reply (r : result bytes).

(** The loop over the commands; a panic ends the task. *)
Fixpoint serve {S} `{PieceStore S} (cmds : list StorageCommand) (s : S) : S * list Output * result unit :=
  match cmds with
  | [] | Shutdown :: _ => (s, [], Ok tt)
  | Write index data :: cmds =>
      match ps_write index data s with
      | (s, Ok _) => let '(s, out, r) := serve cmds s in (s, Event (Written index) :: out, r)
      | (s, Err e) => let '(s, out, r) := serve cmds s in (s, Event (StorageError (Some index) e) :: out, r)
      | (s, Panic) => (s, [], Panic)
      | (s, NoFuel) => (s, [], NoFuel)
      end
  | Read index begin length :: cmds =>
      match ps_read index begin length s with
      | Panic => (s, [], Panic)
      | NoFuel => (s, [], NoFuel)
      | res => let '(s, out, r) := serve cmds s in (s, Reply res :: out, r)
      end
  end.

(** ** The in-memory spool *)

Record MemSpool := mkMemSpool {
  ms_pieces : list (option bytes);
  ms_piece_length : Z;
  ms_num_pieces : Z;
  ms_total_length : Z;
}.

Definition memspool_new (piece_length num_pieces total_length : Z) : MemSpool :=
  mkMemSpool (replicate (Z.to_nat num_pieces) None) piece_length num_pieces total_length.

(** [piece_size] of the two spools. *)
Definition spool_piece_size (piece_length num_pieces total_length : Z) (index : nat) : result Z :=
  if Z.of_nat index + 1 =? num_pieces then
    if piece_length =? 0 then Panic
    else
      let r := total_length mod piece_length in
      Ok (if r =? 0 then piece_length else r)
  else Ok piece_length.

Definition ms_piece_size (ms : MemSpool) : nat -> result Z :=
  spool_piece_size (ms_piece_length ms) (ms_num_pieces ms) (ms_total_length ms).

Definition memspool_write_piece (index : nat) (data : bytes) : M MemSpool unit :=
  actual ← reads (fun ms => ms_piece_size ms index);
  if negb (Z.of_nat (length data) =? actual) then lift (Err (EIo "memspool write piece: wrong length"))
  else
    ps ← gets ms_pieces;
    match ps !! index with
    | None => lift (Err (EIo "memspool index out of range"))
    | Some _ => modify (fun ms =>
        mkMemSpool (<[index := Some data]> ps) (ms_piece_length ms) (ms_num_pieces ms) (ms_total_length ms))
    end.

Definition memspool_read_range (index : nat) (begin length : Z) (ms : MemSpool) : result bytes :=
  actual ← ms_piece_size ms index;
  end_ ← checked 64 (begin + length);
  if actual <? end_ then Err (EIo "memspool read past piece end")
  else
    slot ← ok_or (ms_pieces ms !! index) (EIo "memspool index out of range");
    buf ← ok_or slot (EIo "memspool piece not yet written");
    slice_range buf (Z.to_nat begin) (Z.to_nat end_).

#[export] Instance memspool_store : PieceStore MemSpool :=
  { ps_write := memspool_write_piece; ps_read := memspool_read_range }.

Definition run_memspool_storage (l : Layout) (cmds : list StorageCommand) : MemSpool * list Output * result unit :=
  serve cmds (memspool_new (l_piece_length l) (wrap 32 (Z.of_nat (l_num_pieces l))) (l_total_length l)).

Definition spawn_memspool_storage_task (l : Layout) (cmds : list StorageCommand) : list Output :=
  let '(_, out, r) := run_memspool_storage l cmds in
  out ++ match r with Err e => [Event (StorageError None e)] | _ => [] end.

Definition scan_memspool_resume (l : Layout) : result (list nat) := Ok [].

(** ** Plain files *)

Record Disk := mkDisk { d_fs : Fs; d_files : list (option Key) }.

Definition disk_piece_size (l : Layout) (index : nat) : result Z :=
  if (index + 1 =? l_num_pieces l)%nat then
    if l_piece_length l =? 0 then Panic
    else
      let r := l_total_length l mod l_piece_length l in
      Ok (if r =? 0 then l_piece_length l else r)
  else Ok (l_piece_length l).

Definition file_at (files : list (option Key)) (file_idx : nat) : result Key :=
  ok_or (mjoin (files !! file_idx)) (EIo "storage: file skipped but a piece referenced it").

(** The content behind an open handle. *)
Definition content (k : Key) (fs : Fs) : bytes := default [] (fs !! k).

(** The loop over the slices, [data_off] bytes of [data] being written. *)
Fixpoint write_slices (data : bytes) (data_off : nat) (sl : list (nat * Z * Z)) : M Disk unit :=
  match sl with
  | [] => mret tt
  | (file_idx, file_off, count) :: sl =>
      f ← reads (fun d => file_at (d_files d) file_idx);
      part ← lift (slice_range data data_off (data_off + Z.to_nat count));
      _ ← modify (fun d => mkDisk (<[f := write_at (Z.to_nat file_off) part (content f (d_fs d))]> (d_fs d)) (d_files d));
      write_slices data (data_off + Z.to_nat count) sl
  end.

Definition write_piece (l : Layout) (index : nat) (data : bytes) : M Disk unit :=
  piece_size ← lift (disk_piece_size l index);
  if negb (Z.of_nat (length data) =? piece_size) then lift (Err (EIo "write piece: data != expected"))
  else
    sl ← lift (slices_for_piece l index piece_size);
    write_slices data 0 sl.

(** The loop over the slices, [out_off] bytes of [out] being filled. *)
Fixpoint read_slices (d : Disk) (out : bytes) (out_off : nat) (sl : list (nat * Z * Z)) : result bytes :=
  match sl with
  | [] => Ok out
  | (file_idx, file_off, count) :: sl =>
      f ← file_at (d_files d) file_idx;
      _ ← slice_range out out_off (out_off + Z.to_nat count);
      part ← read_at (Z.to_nat file_off) (Z.to_nat count) (content f (d_fs d));
      read_slices d (splice out out_off part) (out_off + Z.to_nat count) sl
  end.

Definition read_range (l : Layout) (index : nat) (begin length : Z) (d : Disk) : result bytes :=
  piece_size ← disk_piece_size l index;
  end_ ← checked 64 (begin + length);
  if piece_size <? end_ then Err (EIo "read past piece end")
  else
    base ← checked 64 (Z.of_nat index * l_piece_length l);
    global_start ← checked 64 (base + begin);
    sl ← slices l global_start length;
    read_slices d (replicate (Z.to_nat length) Byte.x00) 0 sl.

(** A mask is present and marks the file unwanted. *)
Definition skip (wanted_files : option (list bool)) (i : nat) : bool :=
  match wanted_files with
  | Some w => negb (default true (w !! i))
  | None => false
  end.

Section opening.
(** What creating the parent directory and opening the path return. *)
Variable can_open : bytes -> result unit.

(** The loop that opens and preallocates the files, from file [i] on. *)
Fixpoint open_files (wanted_files : option (list bool)) (i : nat) (spans : list FileSpan)
    : M Fs (list (option Key)) :=
  match spans with
  | [] => mret []
  | span :: spans =>
      if skip wanted_files i then
        rest ← open_files wanted_files (S i) spans;
        mret (None :: rest)
      else
        _ ← lift (can_open (path span));
        let k := components (path span) in
        cur ← gets (content k);
        _ ← modify (fun fs => <[k := if Z.of_nat (length cur) <? fs_length span
                                     then set_len (Z.to_nat (fs_length span)) cur else cur]> fs);
        rest ← open_files wanted_files (S i) spans;
        mret (Some k :: rest)
  end.

Definition run_storage (l : Layout) (wanted_files : option (list bool)) (cmds : list StorageCommand) (fs : Fs)
    : Fs * list Output * result unit :=
  match open_files wanted_files 0 (l_files l) fs with
  | (fs, Ok files) =>
      let store := {| ps_write := write_piece l; ps_read := read_range l |} in
      let '(d, out, r) := serve cmds (mkDisk fs files) in (d_fs d, out, r)
  | (fs, Err e) => (fs, [], Err e)
  | (fs, Panic) => (fs, [], Panic)
  | (fs, NoFuel) => (fs, [], NoFuel)
  end.

(** The spawned task: an error that ends the run is reported without an index. *)
Definition report (run : Fs * list Output * result unit) : Fs * list Output :=
  let '(fs, out, r) := run in
  (fs, out ++ match r with Err e => [Event (StorageError None e)] | _ => [] end).

Definition spawn_storage_task_selective (l : Layout) (wanted_files : option (list bool))
    (cmds : list StorageCommand) (fs : Fs) : Fs * list Output :=
  report (run_storage l wanted_files cmds fs).

Definition spawn_storage_task (l : Layout) (cmds : list StorageCommand) (fs : Fs) : Fs * list Output :=
  spawn_storage_task_selective l None cmds fs.
End opening.

(** *** The resume scan *)

Definition MAX_IN_FLIGHT : nat := 32.

(** A hash computed on another thread: its piece and whether it verified. *)
Abbreviation Pending := (nat * bool)%type.

Definition drain_one (in_flight : list Pending) (out : list nat) : list Pending * list nat :=
  match in_flight with
  | [] => ([], out)
  | (idx, ok) :: rest => (rest, if ok : bool then out ++ [idx] else out)
  end.

Section resume.
Variable sha1 : bytes -> bytes.
(** What opening a path for reading returns: a file, or an error. *)
Inductive Opened := Found | NotFound | Failed (e : Error).
Variable open_ro : bytes -> Opened.

Fixpoint open_existing (spans : list FileSpan) : result (list (option Key)) :=
  match spans with
  | [] => Ok []
  | span :: spans =>
      match open_ro (path span) with
      | Found => rest ← open_existing spans; Ok (Some (components (path span)) :: rest)
      | NotFound => rest ← open_existing spans; Ok (None :: rest)
      | Failed e => Err e
      end
  end.

(** The loop over the slices of one piece: [None] when a file is missing or
    short. *)
Fixpoint scan_slices (d : Disk) (buf : bytes) (off : nat) (sl : list (nat * Z * Z)) : result (option bytes) :=
  match sl with
  | [] => Ok (Some buf)
  | (file_idx, file_off, count) :: sl =>
      slot ← index (d_files d) file_idx;
      match slot with
      | None => Ok None
      | Some f =>
          _ ← slice_range buf off (off + Z.to_nat count);
          match read_at (Z.to_nat file_off) (Z.to_nat count) (content f (d_fs d)) with
          | Ok part => scan_slices d (splice buf off part) (off + Z.to_nat count) sl
          | _ => Ok None
          end
      end
  end.

Definition scan_piece (l : Layout) (d : Disk) (index : nat) : result (option bytes) :=
  psz ← disk_piece_size l index;
  sl ← slices_for_piece l index psz;
  scan_slices d (replicate (Z.to_nat psz) Byte.x00) 0 sl.

(** The loop over the pieces, [piece_hashes] being those from [index] on. *)
Fixpoint scan_loop (l : Layout) (d : Disk) (index : nat) (piece_hashes : list bytes)
    (in_flight : list Pending) (out : list nat) : result (list Pending * list nat) :=
  match piece_hashes with
  | [] => Ok (in_flight, out)
  | expected :: piece_hashes =>
      let '(in_flight, out) :=
        if (MAX_IN_FLIGHT <=? length in_flight)%nat then drain_one in_flight out else (in_flight, out) in
      piece ← scan_piece l d index;
      let in_flight :=
        match piece with
        | Some buf => in_flight ++ [(index, verify_piece sha1 buf expected)]
        | None => in_flight
        end in
      scan_loop l d (S index) piece_hashes in_flight out
  end.

(** [while !in_flight.is_empty()]. *)
Fixpoint drain_all (fuel : nat) (in_flight : list Pending) (out : list nat) : result (list nat) :=
  match in_flight with
  | [] => Ok out
  | _ =>
      match fuel with
      | O => NoFuel
      | S fuel => let '(in_flight, out) := drain_one in_flight out in drain_all fuel in_flight out
      end
  end.

Definition scan_resume (l : Layout) (piece_hashes : list bytes) (fs : Fs) : result (list nat) :=
  files ← open_existing (l_files l);
  '(in_flight, out) ← scan_loop l (mkDisk fs files) 0 (take (l_num_pieces l) piece_hashes) [] [];
  out ← drain_all (length in_flight) in_flight out;
  Ok (sort_by Nat.ltb out).
End resume.

Definition dl_cmds : list StorageCommand :=
  [Write 1 (replicate 100 "x"%byte); Read 1 40 20; Write 0 [] ; Read 2 90 20; Shutdown; Read 1 0 1].
Example run_storage_ex :
  (run_storage (fun _ => Ok tt) layout_ex None dl_cmds ∅).1.2 =
  [Event (Written 1); Reply (Ok (replicate 20 "x"%byte));
   Event (StorageError (Some 0%nat) (EIo "write piece: data != expected"));
   Reply (Err (EIo "read past piece end"))].
Proof. vm_compute. reflexivity. Qed.

(** ** The task refines a map *)

Section refinement.
Context {S : Type} `{HS : PieceStore S} (len : nat -> Z) (accepts : nat -> Prop)
  (repr : S -> gmap nat bytes -> Prop) `{!PieceStoreLaws S len accepts repr}.

(** Commands the engine sends: pieces the store holds, fields of 32 bits. *)
Definition cmd_ok (c : StorageCommand) : Prop :=
  match c with
  | Write i _ => accepts i
  | Read i b n => accepts i /\ in_u 32 b = true /\ in_u 32 n = true
  | Shutdown => True
  end.

Definition spec_next (m : gmap nat bytes) (c : StorageCommand) : gmap nat bytes :=
  match c with
  | Write i d => if Z.of_nat (length d) =? len i then <[i := d]> m else m
  | _ => m
  end.

Definition spec_output (m : gmap nat bytes) (c : StorageCommand) (o : Output) : Prop :=
  match c with
  | Write i d =>
      if Z.of_nat (length d) =? len i then o = Event (Written i)
      else exists e, o = Event (StorageError (Some i) e)
  | Read i b n =>
      exists r, o = Reply r /\
        if len i <? b + n then exists e, r = Err e
        else match m !! i with Some d => r = Ok (slice d (Z.to_nat b) (Z.to_nat n)) | None => returns r = true end
  | Shutdown => False
  end.

(** The outputs of a run from the map [m], ending at a shutdown. *)
Fixpoint spec_run (m : gmap nat bytes) (cmds : list StorageCommand) (out : list Output) : Prop :=
  match cmds, out with
  | [], [] | Shutdown :: _, [] => True
  | Shutdown :: _, _ => False
  | c :: cmds, o :: out => spec_output m c o /\ spec_run (spec_next m c) cmds out
  | _, _ => False
  end.

Fixpoint spec_final (m : gmap nat bytes) (cmds : list StorageCommand) : gmap nat bytes :=
  match cmds with
  | [] | Shutdown :: _ => m
  | c :: cmds => spec_final (spec_next m c) cmds
  end.

Lemma serve_write s m i d : repr s m -> accepts i ->
  exists s' o, repr s' (spec_next m (Write i d)) /\ spec_output m (Write i d) o /\
    forall cmds, serve (Write i d :: cmds) s = let '(s, out, r) := serve cmds s' in (s, o :: out, r).
Proof.
  intros Hr Ha. cbn [serve spec_next spec_output]. destruct (Z.eqb_spec (Z.of_nat (length d)) (len i)) as [E|E].
  - destruct (law_write s m i d Hr Ha E) as (s' & -> & Hr'). by exists s', (Event (Written i)).
  - destruct (law_refuse s m i d Hr Ha E) as (e & ->). exists s, (Event (StorageError (Some i) e)). eauto.
Qed.

Lemma serve_read s m i b n : repr s m -> cmd_ok (Read i b n) ->
  exists o, spec_output m (Read i b n) o /\
    forall cmds, serve (Read i b n :: cmds) s = let '(s, out, r) := serve cmds s in (s, o :: out, r).
Proof.
  intros Hr (Ha & Hb & Hn). cbn [serve spec_output].
  pose proof (law_total s m i b n Hr Ha Hb Hn) as Ht.
  exists (Reply (ps_read i b n s)). split.
  - eexists. split; [done|]. destruct (Z.ltb_spec (len i) (b + n)); [by eapply law_past|].
    destruct (m !! i) eqn:E; [|done]. apply in_u_spec in Hb, Hn. eapply law_read; (done || lia).
  - intros cmds. by destruct (ps_read i b n s).
Qed.

(** The task over any lawful back end follows the map. *)
Lemma serve_refines cmds : forall s m, repr s m -> Forall cmd_ok cmds ->
  exists s' out, serve cmds s = (s', out, Ok tt) /\ spec_run m cmds out /\ repr s' (spec_final m cmds).
Proof.
  induction cmds as [|c cmds IH]; intros s m Hr Hc; [by exists s, []|].
  apply list.Forall_cons in Hc as [Hok Hc]. destruct c as [i d|i b n|].
  - destruct (serve_write s m i d Hr Hok) as (s1 & o & Hr1 & Ho & E).
    destruct (IH s1 _ Hr1 Hc) as (s' & out & E' & Hs & Hf). exists s', (o :: out).
    rewrite E, E'. cbn [spec_run spec_final]. auto.
  - destruct (serve_read s m i b n Hr Hok) as (o & Ho & E).
    destruct (IH s m Hr Hc) as (s' & out & E' & Hs & Hf). exists s', (o :: out).
    rewrite E, E'. cbn [spec_run spec_final spec_next]. auto.
  - by exists s, [].
Qed.
End refinement.

(** ** The in-memory spool keeps the laws *)

(** Sizes that fit their fields, as every validated torrent has them. *)
Definition geometry_ok (pl np total : Z) : Prop :=
  0 < pl < 2 ^ 32 /\ 0 < np < 2 ^ 32 /\ 0 <= total.

(** Length of piece [i]. *)
Definition size_of (pl np total : Z) (i : nat) : Z :=
  if Z.of_nat i + 1 =? np then (if total mod pl =? 0 then pl else total mod pl) else pl.

Lemma spool_piece_size_eq pl np total i : geometry_ok pl np total ->
  spool_piece_size pl np total i = Ok (size_of pl np total i).
Proof.
  intros (Hp & _). unfold spool_piece_size, size_of. destruct (_ =? np); [|done].
  by rewrite (proj2 (Z.eqb_neq pl 0)) by lia.
Qed.

Lemma size_of_range pl np total i : geometry_ok pl np total -> 0 < size_of pl np total i <= pl.
Proof.
  intros (Hp & _ & Ht). unfold size_of. pose proof (Z.mod_pos_bound total pl ltac:(lia)).
  destruct (_ =? np); [|lia]. destruct (Z.eqb_spec (total mod pl) 0); lia.
Qed.

Section memspool.
Context (pl np total : Z) (Hg : geometry_ok pl np total).
#[local] Abbreviation size := (size_of pl np total).

Definition mem_repr (ms : MemSpool) (m : gmap nat bytes) : Prop :=
  ms_piece_length ms = pl /\ ms_num_pieces ms = np /\ ms_total_length ms = total /\
  length (ms_pieces ms) = Z.to_nat np /\
  (forall i d, ms_pieces ms !! i = Some (Some d) -> Z.of_nat (length d) = size i) /\
  (forall i d, m !! i = Some d -> ms_pieces ms !! i = Some (Some d)).

Lemma ms_piece_size_eq ms m i : mem_repr ms m -> ms_piece_size ms i = Ok (size i).
Proof. intros (H1 & H2 & H3 & _). unfold ms_piece_size. rewrite H1, H2, H3. by apply spool_piece_size_eq. Qed.

Lemma mem_new_repr : mem_repr (memspool_new pl np total) ∅.
Proof.
  split_and!; cbn; try done; [by rewrite length_replicate|..]; intros i d Hd.
  by apply lookup_replicate in Hd as [? _].
Qed.

Lemma mem_read_eq ms m i b n : mem_repr ms m -> in_u 32 b = true -> in_u 32 n = true ->
  memspool_read_range i b n ms =
    if size i <? b + n then Err (EIo "memspool read past piece end")
    else slot ← ok_or (ms_pieces ms !! i) (EIo "memspool index out of range");
         buf ← ok_or slot (EIo "memspool piece not yet written");
         slice_range buf (Z.to_nat b) (Z.to_nat (b + n)).
Proof.
  intros Hr Hb%in_u_spec Hn%in_u_spec. unfold memspool_read_range. erewrite ms_piece_size_eq by done.
  cbn [mbind result_bind]. rewrite checked_small by lia. done.
Qed.

#[export] Instance memspool_laws :
  PieceStoreLaws MemSpool size (fun i => Z.of_nat i < np) mem_repr.
Proof.
  constructor; cbn [ps_write ps_read memspool_store].
  - intros ms m i d Hr Ha Hd. unfold memspool_write_piece. msteps. erewrite ms_piece_size_eq by done.
    cbn beta iota. rewrite (proj2 (Z.eqb_eq _ _)) by done. cbn [negb].
    destruct Hr as (H1 & H2 & H3 & Hl & Hs & Hm).
    destruct (lookup_lt_is_Some_2 (ms_pieces ms) i ltac:(lia)) as [o Ho]. rewrite Ho.
    eexists. split; [done|]. split_and!; cbn; try done; [by rewrite length_insert|..]; intros j x.
    + destruct (decide (i = j)) as [<-|Hj].
      * rewrite list_lookup_insert_eq by lia. by intros [= <-].
      * rewrite list_lookup_insert_ne by done. apply Hs.
    + intros [[-> ->]|[Hj Hx]]%lookup_insert_Some; [by rewrite list_lookup_insert_eq by lia|].
      rewrite list_lookup_insert_ne by done. by apply Hm.
  - intros ms m i d Hr Ha Hd. unfold memspool_write_piece. msteps. erewrite ms_piece_size_eq by done.
    cbn beta iota. rewrite (proj2 (Z.eqb_neq _ _)) by done. cbn [negb]. eauto.
  - intros ms m i d b n Hr Hd Ha Hb Hn Hbn. pose proof (size_of_range pl np total i Hg). destruct Hg as (Hp & _).
    rewrite (mem_read_eq ms m) by (done || apply in_u_spec; lia). destruct Hr as (_ & _ & _ & _ & Hs & Hm).
    rewrite (proj2 (Z.ltb_ge _ _)) by lia. rewrite (Hm _ _ Hd). apply Hm, Hs in Hd. cbn.
    rewrite slice_range_Ok by lia. do 2 f_equal. lia.
  - intros ms m i b n Hr Ha Hb Hn Hbn. rewrite (mem_read_eq ms m) by done.
    rewrite (proj2 (Z.ltb_lt _ _)) by lia. eauto.
  - intros ms m i b n Hr Ha Hb Hn. rewrite (mem_read_eq ms m) by done. destruct Hr as (_ & _ & _ & _ & Hs & _).
    apply in_u_spec in Hb, Hn. destruct (Z.ltb_spec (size i) (b + n)); [done|].
    destruct (ms_pieces ms !! i) as [[buf|]|] eqn:E; [|done..]. apply Hs in E. cbn.
    by rewrite slice_range_Ok by lia.
Qed.

(** A storage task is a map.  Over any back end that keeps the laws of
    [PieceStore], the task never panics and answers every command in order up to
    the shutdown as a map from indices to pieces would: a piece of the right
    length is stored and acknowledged, one of a wrong length is refused and
    changes nothing, a read inside a stored piece returns exactly its bytes, a
    read past the end an error.  The in-memory spool is such a back end. *)
Lemma memory_task_refines l cmds :
  l_piece_length l = pl -> Z.of_nat (l_num_pieces l) = np -> l_total_length l = total ->
  Forall (cmd_ok (fun i => Z.of_nat i < np)) cmds ->
  exists ms out, run_memspool_storage l cmds = (ms, out, Ok tt) /\ spec_run size ∅ cmds out /\
    forall i d, spec_final size ∅ cmds !! i = Some d -> ms_pieces ms !! i = Some (Some d).
Proof.
  intros E1 E2 E3 Hc. unfold run_memspool_storage. pose proof Hg as (_ & Hn & _).
  rewrite wrap_small, E1, E2, E3 by lia.
  destruct (serve_refines _ _ _ cmds _ _ mem_new_repr Hc) as (ms & out & Es & Ho & Hr).
  exists ms, out. split_and!; [done|done|]. apply Hr.
Qed.
End memspool.

Lemma memory_task_refines_witness :
  exists ms out, run_memspool_storage layout_ex [Write 1 (replicate 100 "m"%byte); Read 1 4 2; Shutdown] = (ms, out, Ok tt) /\
    spec_run (size_of 100 3 300) ∅ [Write 1 (replicate 100 "m"%byte); Read 1 4 2; Shutdown] out.
Proof.
  destruct (memory_task_refines 100 3 300 ltac:(unfold geometry_ok; lia) layout_ex
    [Write 1 (replicate 100 "m"%byte); Read 1 4 2; Shutdown]) as (ms & out & H1 & H2 & _).
  - reflexivity.
  - reflexivity.
  - reflexivity.
  - repeat constructor.
  - exists ms, out. split; [exact H1|exact H2].
Defined.

(** ** Plain files keep the laws *)

Lemma splice_app (x y : bytes) a d :
  splice (x ++ y) a d =
  splice x a (take (length x - a) d) ++ splice y (a - length x) (drop (length x - a) d).
Proof.
  unfold splice. rewrite take_app, drop_app, length_take, length_drop, <- !app_assoc.
  destruct (decide (a <= length x)%nat).
  - replace (a - length x)%nat with 0%nat by lia. rewrite take_0. cbn [app]. f_equal.
    destruct (decide (a + length d <= length x)%nat).
    + rewrite (take_ge d), (drop_ge d) by lia. cbn [app]. f_equal. f_equal; f_equal; lia.
    + rewrite (drop_ge x (a + length d)), (drop_ge x) by lia. cbn [app].
      rewrite <- (take_drop (length x - a) d) at 1. rewrite <- app_assoc. do 3 f_equal. lia.
  - replace (length x - a)%nat with 0%nat by lia. rewrite take_0, drop_0, Nat.min_0_l.
    rewrite (drop_ge x (a + length d)), (drop_ge x) by lia. cbn [app]. do 4 f_equal. lia.
Qed.

Lemma length_splice_le (x d : bytes) a : (a + length d <= length x \/ d = [])%nat -> length (splice x a d) = length x.
Proof. intros [?| ->]; [by apply length_splice|]. unfold splice. rewrite !length_app, length_take, length_drop. cbn. lia. Qed.

Lemma splice_nil (x : bytes) a : splice x a [] = x.
Proof. unfold splice. cbn. by rewrite Nat.add_0_r, take_drop. Qed.

Lemma splice_splice (x p q : bytes) a : (a + length p <= length x)%nat ->
  splice (splice x a p) (a + length p) q = splice x a (p ++ q).
Proof.
  intros H. unfold splice. rewrite (app_assoc (take a x) p).
  rewrite take_app_length' by (rewrite length_app, length_take; lia).
  rewrite drop_app_ge by (rewrite length_app, length_take; lia).
  rewrite drop_drop, !length_app, length_take, <- !app_assoc. do 4 f_equal. lia.
Qed.

Lemma slice_splice (x d : bytes) a : (a + length d <= length x)%nat -> slice (splice x a d) a (length d) = d.
Proof.
  intros. unfold slice, splice. rewrite drop_app_length' by (rewrite length_take; lia).
  by rewrite take_app_length.
Qed.

Lemma slice_splice_ne (x d : bytes) a b n : (a + length d <= length x)%nat ->
  (b + n <= a \/ a + length d <= b)%nat -> slice (splice x a d) b n = slice x b n.
Proof.
  intros Hx [H|H]; unfold splice.
  - rewrite slice_app_l by (rewrite length_take; lia). rewrite <- (take_drop a x) at 2.
    by rewrite slice_app_l by (rewrite length_take; lia).
  - rewrite app_assoc, slice_app_r by (rewrite length_app, length_take; lia).
    unfold slice. rewrite drop_drop, length_app, length_take. do 2 f_equal. lia.
Qed.

Lemma take_splice (x d : bytes) a n : (a + length d <= n)%nat -> (n <= length x)%nat ->
  take n (splice x a d) = splice (take n x) a d.
Proof.
  intros Ha Hn. unfold splice. rewrite take_take, Nat.min_l by lia.
  rewrite take_app_ge, length_take by (rewrite length_take; lia). f_equal.
  rewrite take_app_ge by lia. f_equal. rewrite firstn_skipn_comm. f_equal. f_equal. lia.
Qed.

(** The writes of [write_slices], on the contents of the files. *)
Fixpoint apply_slices (contents : list bytes) (data : bytes) (off : nat) (sl : list (nat * Z * Z)) : list bytes :=
  match sl with
  | [] => contents
  | (i, o, c) :: sl =>
      apply_slices (<[i := splice (default [] (contents !! i)) (Z.to_nat o) (slice data off (Z.to_nat c))]> contents)
        data (off + Z.to_nat c) sl
  end.

(** One file of the range: it takes the bytes that fall into it. *)
Lemma apply_cut gs e data pre c contents f : gs <= e -> Z.of_nat (length data) = e - gs ->
  Z.of_nat (length c) = fs_length f ->
  let off b := Z.to_nat (Z.min e (Z.max gs b) - gs) in
  let c' := splice c (Z.to_nat (gs - start f)) (take (length c - Z.to_nat (gs - start f)) (drop (off (start f)) data)) in
  length c' = length c /\
  forall r, apply_slices (pre ++ c :: contents) data (off (start f)) (option_to_list (cut gs e (length pre) f) ++ r) =
    apply_slices (pre ++ c' :: contents) data (off (start f + fs_length f)) r.
Proof.
  intros He Hd Hc off c'. split.
  { apply length_splice_le. destruct (decide (Z.to_nat (gs - start f) <= length c)%nat).
    - left. rewrite length_take. lia.
    - right. by replace (length c - Z.to_nat (gs - start f))%nat with 0%nat by lia. }
  intros r. unfold c', off, cut. clear c' off.
  destruct (Z.ltb_spec (Z.max gs (start f)) (Z.min e (start f + fs_length f))).
  - cbn [option_to_list app apply_slices]. rewrite list_lookup_middle by done. cbn [default from_option id].
    f_equal; [|lia]. rewrite insert_app_r_alt, Nat.sub_diag by lia. cbn [list_insert insert]. do 2 f_equal. f_equal; [lia|].
    unfold slice. destruct (decide (e <= start f + fs_length f)).
    + rewrite !take_ge by (rewrite length_drop; lia). done.
    + f_equal. lia.
  - cbn [option_to_list app]. f_equal; [|lia]. do 2 f_equal.
    destruct (decide (start f + fs_length f <= gs)).
    + replace (length c - Z.to_nat (gs - start f))%nat with 0%nat by lia. by rewrite take_0, splice_nil.
    + destruct c as [|x c]; [by rewrite take_0, splice_nil|]. rewrite drop_ge by (cbn in Hc; lia).
      by rewrite take_nil, splice_nil.
Qed.

Lemma apply_cuts gs e data pre contents files base :
  holds contents files -> contiguous base files -> gs <= e <= base + span_sum files ->
  Z.of_nat (length data) = e - gs ->
  exists contents', holds contents' files /\
    apply_slices (pre ++ contents) data (Z.to_nat (Z.min e (Z.max gs base) - gs)) (cuts gs e (length pre) files)
      = pre ++ contents' /\
    concat contents' = splice (concat contents) (Z.to_nat (gs - base)) (drop (Z.to_nat (Z.min e (Z.max gs base) - gs)) data).
Proof.
  intros H. revert base pre. induction H as [|c f contents files Hlen H IH]; intros base pre.
  { intros _ He Hd. exists []. split_and!; [constructor|done|]. cbn in He |- *. rewrite drop_ge by lia.
    unfold splice. by rewrite take_nil, drop_nil. }
  intros (Hs & Hl & Hc) He Hd. rewrite span_sum_cons in He. pose proof (contiguous_nonneg _ _ Hc). cbn [cuts concat].
  destruct (apply_cut gs e data pre c contents f ltac:(lia) Hd Hlen) as [Lc Ec]. rewrite Hs in Lc, Ec. rewrite Ec.
  set (c' := splice c _ _) in *.
  destruct (IH (base + fs_length f) (pre ++ [c']) Hc) as (contents' & Hh & Ea & Econ); [lia|done|].
  rewrite <- app_assoc, length_app in Ea. cbn [app length] in Ea. rewrite Nat.add_1_r in Ea.
  exists (c' :: contents'). split_and!; [by constructor; [lia|]|by rewrite Ea, <- app_assoc|].
  cbn [concat]. rewrite Econ, splice_app, drop_drop. fold c'. f_equal. f_equal; [lia|].
  destruct (decide (e <= base + fs_length f \/ base + fs_length f <= gs)) as [[?|?]|?].
  - by rewrite !drop_ge by lia.
  - f_equal. lia.
  - f_equal. lia.
Qed.

Section disk.
Context (l : Layout) (Hok : layout_ok l).

(** The bytes of the torrent in each file; a skipped file counts as zeros. *)
Definition contents_of (d : Disk) : list bytes :=
  imap (fun j f => match mjoin (d_files d !! j) with
                   | Some k => take (Z.to_nat (fs_length f)) (content k (d_fs d))
                   | None => replicate (Z.to_nat (fs_length f)) Byte.x00
                   end) (l_files l).

(** Open files are distinct and preallocated. *)
Definition disk_ok (d : Disk) : Prop :=
  (forall j f k, l_files l !! j = Some f -> d_files d !! j = Some (Some k) ->
     fs_length f <= Z.of_nat (length (content k (d_fs d)))) /\
  (forall i j k, d_files d !! i = Some (Some k) -> d_files d !! j = Some (Some k) -> i = j).

(** A slice inside a file that is open. *)
Definition slice_ok (d : Disk) (s : nat * Z * Z) : Prop :=
  let '(j, o, c) := s in
  exists f k, l_files l !! j = Some f /\ d_files d !! j = Some (Some k) /\ 0 <= o /\ 0 < c /\ o + c <= fs_length f.

Lemma contents_holds d : disk_ok d -> holds (contents_of d) (l_files l).
Proof.
  intros [Hp _]. apply Forall2_same_length_lookup. unfold contents_of. split; [by rewrite length_imap|].
  intros j c f Hc Hf. rewrite list_lookup_imap, Hf in Hc. cbn in Hc. injection Hc as <-.
  destruct Hok as (Hcon & _). destruct (span_bounds _ _ Hcon _ _ Hf) as (_ & ? & _).
  destruct (d_files d !! j) as [[k|]|] eqn:E; cbn; [|rewrite length_replicate; lia..].
  rewrite length_take. specialize (Hp _ _ _ Hf E). lia.
Qed.

Lemma contents_lookup d j f k : l_files l !! j = Some f -> d_files d !! j = Some (Some k) ->
  contents_of d !! j = Some (take (Z.to_nat (fs_length f)) (content k (d_fs d))).
Proof. intros Hf Hk. unfold contents_of. by rewrite list_lookup_imap, Hf, Hk. Qed.

Lemma file_at_open d j k : d_files d !! j = Some (Some k) -> file_at (d_files d) j = Ok k.
Proof. intros H. unfold file_at. by rewrite H. Qed.

Lemma write_at_in off data c : (off + length data <= length c)%nat -> write_at off data c = splice c off data.
Proof.
  intros H. unfold write_at. destruct data as [|x data]; [by rewrite splice_nil|].
  unfold set_len. rewrite Nat.max_r by (cbn in H; lia). by rewrite Nat.sub_diag, app_nil_r, firstn_all.
Qed.

Lemma content_insert k k' v fs : content k (<[k' := v]> fs) = if decide (k' = k) then v else content k fs.
Proof. unfold content. case_decide as E; [subst; by rewrite lookup_insert_eq|by rewrite lookup_insert_ne]. Qed.

(** One write, on the view. *)
Lemma write_one d j f k o part : disk_ok d -> l_files l !! j = Some f -> d_files d !! j = Some (Some k) ->
  (o + length part <= Z.to_nat (fs_length f))%nat ->
  let d' := mkDisk (<[k := write_at o part (content k (d_fs d))]> (d_fs d)) (d_files d) in
  disk_ok d' /\ contents_of d' = <[j := splice (default [] (contents_of d !! j)) o part]> (contents_of d).
Proof.
  intros Hd Hf Hk Hlen d'. pose proof Hd as [Hp Hi]. pose proof (Hp _ _ _ Hf Hk) as Hpk.
  assert (Hw : write_at o part (content k (d_fs d)) = splice (content k (d_fs d)) o part) by (apply write_at_in; lia).
  split; [split; [|done]|].
  - intros j' f' k' Hf' Hk'. cbn [d_fs d']. rewrite content_insert. case_decide; [subst k'|by eapply Hp].
    rewrite (Hi _ _ _ Hk Hk') in Hf. rewrite Hw, length_splice by lia. by eapply Hp.
  - apply list_eq. intros j'. destruct (decide (j = j')) as [<-|Hj].
    + rewrite list_lookup_insert_eq by (unfold contents_of; rewrite length_imap; by eapply lookup_lt_Some).
      erewrite !contents_lookup by done. cbn [default from_option id d_fs d']. rewrite content_insert, decide_True by done.
      by rewrite Hw, take_splice by lia.
    + rewrite list_lookup_insert_ne by done. unfold contents_of. rewrite !list_lookup_imap. cbn [d_files d_fs d'].
      destruct (l_files l !! j') as [f'|]; [|done]. cbn. f_equal.
      destruct (d_files d !! j') as [[k'|]|] eqn:E; cbn; [|done..]. rewrite content_insert.
      case_decide; [subst k'; by destruct Hj; eapply Hi|done].
Qed.

Definition counts (sl : list (nat * Z * Z)) : nat := sum_list (Z.to_nat <$> sl.*2).

Lemma write_slices_view data sl : forall d off, disk_ok d -> Forall (slice_ok d) sl ->
  (off + counts sl <= length data)%nat ->
  exists d', write_slices data off sl d = (d', Ok tt) /\ d_files d' = d_files d /\ disk_ok d' /\
    contents_of d' = apply_slices (contents_of d) data off sl.
Proof.
  induction sl as [|[[j o] c] sl IH]; intros d off Hd Hs Hlen; [by exists d|].
  apply list.Forall_cons in Hs as [(f & k & Hf & Hk & Ho & Hc & Hoc) Hs].
  unfold counts in Hlen. cbn in Hlen. fold (counts sl) in Hlen.
  cbn [write_slices]. msteps. rewrite (file_at_open _ _ _ Hk). cbn beta iota.
  rewrite slice_range_Ok by lia. cbn beta iota. replace (off + Z.to_nat c - off)%nat with (Z.to_nat c) by lia.
  destruct (write_one d j f k (Z.to_nat o) (slice data off (Z.to_nat c)) Hd Hf Hk) as [Hd' E];
    [rewrite length_slice; lia|].
  destruct (IH _ (off + Z.to_nat c)%nat Hd' Hs ltac:(lia)) as (d' & E' & Hfs & Hd2 & Ev).
  exists d'. split_and!; [exact E'|done|done|]. by rewrite Ev, E.
Qed.

Lemma read_slices_view d sl : forall out off, disk_ok d -> Forall (slice_ok d) sl ->
  (off + counts sl <= length out)%nat ->
  read_slices d out off sl = Ok (splice out off (concat (slice_bytes (contents_of d) <$> sl))).
Proof.
  induction sl as [|[[j o] c] sl IH]; intros out off Hd Hs Hlen; [cbn; by rewrite splice_nil|].
  apply list.Forall_cons in Hs as [(f & k & Hf & Hk & Ho & Hc & Hoc) Hs].
  unfold counts in Hlen. cbn in Hlen. fold (counts sl) in Hlen.
  cbn [read_slices]. rewrite (file_at_open _ _ _ Hk). cbn [mbind result_bind].
  rewrite slice_range_Ok by lia. cbn [mbind result_bind]. unfold read_at.
  pose proof (proj1 Hd _ _ _ Hf Hk) as Hp. rewrite (proj2 (Nat.leb_le _ _)) by lia. cbn [mbind result_bind].
  assert (E : slice_bytes (contents_of d) (j, o, c) = slice (content k (d_fs d)) (Z.to_nat o) (Z.to_nat c)).
  { cbn. erewrite contents_lookup by done. cbn. rewrite <- (take_drop (Z.to_nat (fs_length f)) (content k _)) at 2.
    rewrite slice_app_l; [done|]. rewrite length_take. lia. }
  set (part := slice (content _ _) _ _) in *.
  assert (Lp : length part = Z.to_nat c) by (unfold part; rewrite length_slice; lia).
  rewrite <- Lp, IH; [|done|done|rewrite length_splice; lia].
  rewrite splice_splice by lia. rewrite fmap_cons. cbn [concat]. by rewrite E.
Qed.

Lemma counts_cuts gs e i files base : contiguous base files -> gs <= e <= base + span_sum files ->
  Z.of_nat (counts (cuts gs e i files)) = e - Z.min e (Z.max gs base).
Proof.
  revert i base. induction files as [|f files IH]; intros i base; [cbn; lia|].
  intros (Hs & Hl & Hc) He. rewrite span_sum_cons in He. cbn [cuts].
  specialize (IH (S i) (base + fs_length f) Hc ltac:(lia)). unfold cut.
  destruct (Z.ltb_spec (Z.max gs (start f)) (Z.min e (start f + fs_length f))); cbn [option_to_list app].
  - unfold counts in *. cbn. lia.
  - rewrite IH. lia.
Qed.

Lemma holds_length contents files : holds contents files -> Z.of_nat (length (concat contents)) = span_sum files.
Proof.
  induction 1 as [|c f contents files Hc _ IH]; [done|]. cbn [concat]. rewrite length_app, span_sum_cons. lia.
Qed.

#[local] Abbreviation pl := (l_piece_length l).
#[local] Abbreviation np := (l_num_pieces l).
#[local] Abbreviation total := (l_total_length l).
#[local] Abbreviation size := (size_of pl (Z.of_nat np) total).
#[local] Abbreviation stream d := (concat (contents_of d)).

Lemma disk_size i : (i < np)%nat ->
  disk_piece_size l i = Ok (size i) /\ size i = piece_end l i - Z.of_nat i * pl /\
  0 <= Z.of_nat i * pl /\ 0 < size i <= pl /\ Z.of_nat i * pl + size i <= total.
Proof.
  intros Hi. destruct (piece_range l Hok i Hi) as [Hr Hs]. change (l_piece_size l i) with (disk_piece_size l i) in Hs.
  assert (Hd : disk_piece_size l i = Ok (size i)).
  { unfold disk_piece_size, size_of. destruct Hok as (_ & _ & _ & Hp & _).
    replace (Z.of_nat i + 1 =? Z.of_nat np) with (i + 1 =? np)%nat
      by (destruct (Nat.eqb_spec (i + 1) np), (Z.eqb_spec (Z.of_nat i + 1) (Z.of_nat np)); (done || lia)).
    destruct (_ =? np)%nat; [|done]. by rewrite (proj2 (Z.eqb_neq pl 0)) by lia. }
  assert (E : size i = piece_end l i - Z.of_nat i * pl) by congruence.
  split_and!; try done; unfold piece_end in E; destruct Hok as (_ & _ & _ & Hp & _); lia.
Qed.

Lemma stream_length d : disk_ok d -> Z.of_nat (length (stream d)) = total.
Proof. intros Hd. rewrite (holds_length _ _ (contents_holds d Hd)). apply Hok. Qed.

Section handles.
(** The handles of the running task. *)
Variable hs : list (option Key).

(** Every file with a byte of piece [i] is open. *)
Definition disk_accepts (i : nat) : Prop :=
  (i < np)%nat /\
  forall j o c, (j, o, c) ∈ cuts (Z.of_nat i * pl) (piece_end l i) 0 (l_files l) -> exists k, hs !! j = Some (Some k).

Definition disk_repr (d : Disk) (m : gmap nat bytes) : Prop :=
  d_files d = hs /\ disk_ok d /\
  forall i x, m !! i = Some x -> (i < np)%nat /\ Z.of_nat (length x) = size i /\
    slice (stream d) (Z.to_nat (Z.of_nat i * pl)) (length x) = x.

(** The slices of a range inside an accepted piece are inside open files. *)
Lemma range_slices d i gs e : d_files d = hs -> disk_accepts i ->
  Z.of_nat i * pl <= gs -> e <= piece_end l i -> Forall (slice_ok d) (cuts gs e 0 (l_files l)).
Proof.
  intros Hh [Hi Ha] Hgs He. apply list.Forall_forall. intros [[j o] c] H.
  apply elem_of_cuts in H as (k & f & Hk & -> & H). cbn [Nat.add] in *. unfold cut in H.
  destruct (Z.ltb_spec (Z.max gs (start f)) (Z.min e (start f + fs_length f))); [|done]. injection H as <- <-.
  destruct (proj2 (cuts_byte l i k)) as (o & c & Hin).
  { exists f, (Z.max gs (start f)). split; [done|]. lia. }
  destruct (Ha _ _ _ Hin) as (key & Hkey). exists f, key. rewrite Hh. split_and!; try done; lia.
Qed.

Lemma disk_write d m i x : disk_repr d m -> disk_accepts i -> Z.of_nat (length x) = size i ->
  exists d', write_piece l i x d = (d', Ok tt) /\ disk_repr d' (<[i := x]> m).
Proof.
  intros (Hh & Hd & Hm) Ha Hx. pose proof Ha as [Hi _]. destruct (disk_size i Hi) as (Es & Ee & Hb & Hs & Ht).
  unfold write_piece. msteps. rewrite Es. cbn beta iota. rewrite (proj2 (Z.eqb_eq _ _)) by done. cbn [negb].
  destruct (piece_slices l Hok i Hi) as (sz & Esz & Esl). change (l_piece_size l i) with (disk_piece_size l i) in Esz.
  rewrite Es in Esz. injection Esz as <-. rewrite Esl. cbn beta iota.
  destruct Hok as (Hc & Hsum & _).
  pose proof (counts_cuts (Z.of_nat i * pl) (piece_end l i) 0 _ 0 Hc ltac:(lia)) as Hcnt.
  destruct (write_slices_view x (cuts (Z.of_nat i * pl) (piece_end l i) 0 (l_files l)) d 0 Hd)
    as (d' & E & Hf & Hd' & Ev); [by eapply range_slices|lia|].
  exists d'. split; [exact E|]. split_and!; [congruence|done|].
  destruct (apply_cuts (Z.of_nat i * pl) (piece_end l i) x [] (contents_of d) (l_files l) 0)
    as (cs & _ & Ea & Econ); [by apply contents_holds|done|lia|lia|].
  replace (Z.to_nat (_ - _)) with 0%nat in Ea, Econ by lia. cbn [app length] in Ea. rewrite drop_0 in Econ.
  assert (Est : stream d' = splice (stream d) (Z.to_nat (Z.of_nat i * pl)) x).
  { rewrite Ev, Ea, Econ. f_equal. lia. }
  pose proof (stream_length d Hd). rewrite Est.
  intros i' x' [[<- <-]|[Hne Hx']]%lookup_insert_Some.
  - split_and!; [done|done|]. apply slice_splice. lia.
  - destruct (Hm _ _ Hx') as (Hi' & Hl' & Hsl). split_and!; [done|done|].
    destruct (disk_size i' Hi') as (_ & _ & ? & ? & ?).
    rewrite slice_splice_ne; [done|lia|]. destruct (decide (i < i')%nat); [right|left]; nia.
Qed.

Lemma splice_all (x d : bytes) : length d = length x -> splice x 0 d = d.
Proof. intros H. unfold splice. by rewrite take_0, Nat.add_0_l, drop_ge, app_nil_r by lia. Qed.

Lemma disk_read_in d i b n : d_files d = hs -> disk_ok d -> disk_accepts i -> 0 <= b -> 0 <= n -> b + n <= size i ->
  read_range l i b n d = Ok (slice (stream d) (Z.to_nat (Z.of_nat i * pl + b)) (Z.to_nat n)).
Proof.
  intros Hh Hd Ha Hb Hn Hbn. pose proof Ha as [Hi _]. destruct (disk_size i Hi) as (Es & Ee & Hbase & Hs & Ht).
  pose proof Hok as (Hc & Hsum & Htot & _). unfold read_range. rewrite Es. cbn [mbind result_bind].
  rewrite (checked_small 64 (b + n)) by lia. cbn [mbind result_bind]. rewrite (proj2 (Z.ltb_ge _ _)) by lia.
  rewrite checked_small by lia. cbn [mbind result_bind]. rewrite checked_small by lia. cbn [mbind result_bind].
  unfold slices. rewrite checked_small by lia. cbn [mbind result_bind].
  rewrite (slices_loop_eq _ _ _ _ 0) by (done || lia). cbn [mbind result_bind].
  set (gs := Z.of_nat i * pl + b).
  pose proof (counts_cuts gs (gs + n) 0 _ 0 Hc ltac:(lia)) as Hcnt.
  rewrite read_slices_view; [|done|eapply range_slices; (done || lia)|rewrite length_replicate; lia].
  assert (E : concat (slice_bytes (contents_of d) <$> cuts gs (gs + n) 0 (l_files l)) = slice (stream d) (Z.to_nat gs) (Z.to_nat n)).
  { etransitivity; [apply (cuts_concat gs (gs + n) [] (contents_of d) (l_files l) 0);
      [by apply contents_holds|done]|]. f_equal; lia. }
  rewrite E, splice_all; [done|]. pose proof (stream_length d Hd).
  rewrite length_replicate. apply length_slice. lia.
Qed.

Lemma slice_of_slice {A} (x : list A) a n b k : (b + k <= n)%nat -> slice (slice x a n) b k = slice x (a + b) k.
Proof. intros H. unfold slice. rewrite skipn_firstn_comm, take_take, drop_drop. f_equal. lia. Qed.

Lemma disk_past d i b n : disk_accepts i -> in_u 32 b = true -> in_u 32 n = true -> size i < b + n ->
  read_range l i b n d = Err (EIo "read past piece end").
Proof.
  intros [Hi _] Hb%in_u_spec Hn%in_u_spec H. destruct (disk_size i Hi) as (Es & _). unfold read_range. rewrite Es.
  cbn [mbind result_bind]. rewrite (checked_small 64 (b + n)) by lia. cbn [mbind result_bind].
  by rewrite (proj2 (Z.ltb_lt _ _)) by lia.
Qed.

Definition disk_store : PieceStore Disk := {| ps_write := write_piece l; ps_read := read_range l |}.

#[export] Instance disk_laws : @PieceStoreLaws Disk disk_store size disk_accepts disk_repr.
Proof.
  constructor; cbn [ps_write ps_read disk_store].
  - intros d m i x. apply disk_write.
  - intros d m i x _ [Hi _] Hx. destruct (disk_size i Hi) as (Es & _). unfold write_piece. msteps. rewrite Es.
    cbn beta iota. rewrite (proj2 (Z.eqb_neq _ _)) by done. cbn [negb]. eauto.
  - intros d m i x b n (Hh & Hd & Hm) Hx Ha Hb Hn Hbn. destruct (Hm _ _ Hx) as (Hi & Hl & Hs).
    destruct (disk_size i Hi) as (_ & _ & ? & _). rewrite disk_read_in by done. f_equal.
    rewrite <- Hs at 1. rewrite slice_of_slice by lia. f_equal. lia.
  - intros d m i b n _ Ha Hb Hn H. eauto using disk_past.
  - intros d m i b n (Hh & Hd & Hm) Ha Hb Hn. destruct (Z.ltb_spec (size i) (b + n)); [by rewrite disk_past|].
    apply in_u_spec in Hb, Hn. by rewrite disk_read_in by (done || lia).
Qed.
End handles.
End disk.

(** ** Opening the files *)

Definition span_key (f : FileSpan) : Key := components (path f).

Definition handles (wanted_files : option (list bool)) (i : nat) (spans : list FileSpan) : list (option Key) :=
  imap (fun j f => if skip wanted_files (i + j) then None else Some (span_key f)) spans.

(** The preallocation of one file. *)
Definition extend (f : FileSpan) (cur : bytes) : bytes :=
  if Z.of_nat (length cur) <? fs_length f then set_len (Z.to_nat (fs_length f)) cur else cur.

Lemma length_extend f cur : fs_length f <= Z.of_nat (length (extend f cur)).
Proof.
  unfold extend. destruct (Z.ltb_spec (Z.of_nat (length cur)) (fs_length f)); [|lia].
  unfold set_len. rewrite length_app, length_take, length_replicate. lia.
Qed.

Lemma extend_id f cur : fs_length f <= Z.of_nat (length cur) -> extend f cur = cur.
Proof. intros H. unfold extend. by rewrite (proj2 (Z.ltb_ge _ _)) by lia. Qed.

Lemma handles_cons w i f spans :
  handles w i (f :: spans) = (if skip w i then None else Some (span_key f)) :: handles w (S i) spans.
Proof.
  unfold handles. cbn. rewrite Nat.add_0_r. f_equal. apply imap_ext. intros j g _. cbn.
  by rewrite Nat.add_succ_r.
Qed.

Lemma open_files_spec can_open w spans : forall i fs,
  NoDup (span_key <$> spans) -> Forall (fun f => can_open (path f) = Ok tt) spans ->
  exists fs', open_files can_open w i spans fs = (fs', Ok (handles w i spans)) /\
    (forall k, k ∉ span_key <$> spans -> content k fs' = content k fs) /\
    (forall j f, spans !! j = Some f -> skip w (i + j) = false ->
       content (span_key f) fs' = extend f (content (span_key f) fs)).
Proof.
  induction spans as [|f spans IH]; intros i fs Hnd Hop; [by exists fs|].
  rewrite fmap_cons in Hnd. apply list.NoDup_cons in Hnd as [Hnew Hnd]. apply list.Forall_cons in Hop as [Hf Hop].
  rewrite handles_cons. cbn [open_files]. destruct (skip w i) eqn:Esk.
  - destruct (IH (S i) fs Hnd Hop) as (fs' & E & Hk & Hj). exists fs'. msteps. rewrite E. split_and!; [done|..].
    + intros k Hin. apply Hk. rewrite fmap_cons, not_elem_of_cons in Hin. apply Hin.
    + intros [|j] g Hg; [by rewrite Nat.add_0_r, Esk|]. rewrite Nat.add_succ_r. by apply Hj.
  - msteps. rewrite Hf. cbn beta iota. fold (span_key f). fold (extend f (content (span_key f) fs)).
    destruct (IH (S i) (<[span_key f := extend f (content (span_key f) fs)]> fs) Hnd Hop) as (fs' & E & Hk & Hj).
    exists fs'. rewrite E. split_and!; [done|..].
    + intros k Hin. rewrite fmap_cons, not_elem_of_cons in Hin. rewrite Hk by apply Hin.
      rewrite content_insert, decide_False by (intros <-; by destruct Hin). done.
    + intros [|j] g Hg; cbn in Hg.
      * injection Hg as <-. intros _. rewrite Hk by done. by rewrite content_insert, decide_True.
      * rewrite Nat.add_succ_r. intros Hs. rewrite (Hj j g Hg Hs), content_insert, decide_False; [done|].
        intros Ek. apply Hnew. rewrite Ek. apply list_elem_of_fmap. exists g. split; [done|].
        by eapply list_elem_of_lookup_2.
Qed.

Section sessions.
Context (l : Layout) (Hok : layout_ok l) (Hnd : NoDup (span_key <$> l_files l)).
Variables (can_open : bytes -> result unit) (w : option (list bool)).
Hypothesis Hopen : Forall (fun f => can_open (path f) = Ok tt) (l_files l).
#[local] Abbreviation hs := (handles w 0 (l_files l)).

Lemma handles_lookup j f k : l_files l !! j = Some f -> hs !! j = Some (Some k) <-> skip w j = false /\ k = span_key f.
Proof.
  intros Hf. unfold handles. rewrite list_lookup_imap, Hf. cbn. destruct (skip w j); split; try done.
  - by intros [? _].
  - by intros [= <-].
  - by intros [_ ->].
Qed.

Lemma handle_span j k : hs !! j = Some (Some k) -> exists f, l_files l !! j = Some f /\ skip w j = false /\ k = span_key f.
Proof.
  intros H. assert (Hj : (j < length (l_files l))%nat).
  { apply lookup_lt_Some in H. unfold handles in H. by rewrite length_imap in H. }
  destruct (lookup_lt_is_Some_2 _ _ Hj) as [f Hf]. exists f. split; [done|]. by apply (handles_lookup j f).
Qed.

Lemma handles_distinct i j k : hs !! i = Some (Some k) -> hs !! j = Some (Some k) -> i = j.
Proof.
  intros (f & Hf & _ & ->)%handle_span (g & Hg & _ & E)%handle_span.
  eapply (NoDup_lookup _ i j (span_key f) Hnd); rewrite list_lookup_fmap; [by rewrite Hf|by rewrite Hg, E].
Qed.

(** Opening leaves the pieces that are already stored in place. *)
Lemma open_repr fs m :
  (m = ∅ \/ disk_repr l hs (mkDisk fs hs) m) ->
  exists fs', open_files can_open w 0 (l_files l) fs = (fs', Ok hs) /\ disk_repr l hs (mkDisk fs' hs) m.
Proof.
  intros Hm. destruct (open_files_spec can_open w (l_files l) 0 fs Hnd Hopen) as (fs' & E & _ & Hj).
  exists fs'. split; [exact E|].
  assert (Hd' : disk_ok l (mkDisk fs' hs)).
  { split; [|intros i j k; apply handles_distinct]. cbn [d_files d_fs]. intros j f k Hf Hk.
    apply (handles_lookup j f k Hf) in Hk as [Hs ->]. rewrite (Hj _ _ Hf Hs). apply length_extend. }
  split; [done|]. split; [done|]. destruct Hm as [->|(_ & Hd & Hm)]; [by intros ? ? ?%lookup_empty_Some|].
  assert (Ec : contents_of l (mkDisk fs' hs) = contents_of l (mkDisk fs hs)); [|by rewrite Ec].
  unfold contents_of. apply imap_ext. intros j f Hf. cbn [d_files d_fs].
  destruct (hs !! j) as [[k|]|] eqn:Ek; [|done..]. cbn.
  pose proof (proj1 Hd j f k Hf Ek) as Hlen. apply (handles_lookup j f k Hf) in Ek as [Hs ->].
  by rewrite (Hj _ _ Hf Hs), extend_id.
Qed.

#[local] Abbreviation size := (size_of (l_piece_length l) (Z.of_nat (l_num_pieces l)) (l_total_length l)).

(** One session of the task, from a file system that holds the pieces of [m]. *)
Lemma session fs m cmds : (m = ∅ \/ disk_repr l hs (mkDisk fs hs) m) -> Forall (cmd_ok (disk_accepts l hs)) cmds ->
  exists fs' out, run_storage can_open l w cmds fs = (fs', out, Ok tt) /\ spec_run size m cmds out /\
    disk_repr l hs (mkDisk fs' hs) (spec_final size m cmds).
Proof.
  intros Hm Hc. destruct (open_repr fs m Hm) as (fs1 & E & Hr).
  pose proof (disk_laws l Hok hs) as Hl.
  destruct (@serve_refines Disk (disk_store l) size _ _ Hl cmds _ _ Hr Hc) as (d & out & Es & Ho & Hr').
  exists (d_fs d), out. unfold run_storage. rewrite E. cbn zeta. fold (disk_store l). rewrite Es.
  split_and!; [done|done|]. destruct d as [fd hd]. destruct Hr' as [Eh Hr']. cbn in Eh. subst hd. done.
Qed.
End sessions.

(** Selected pieces have all their files open. *)
Lemma selection_accepts l selectors wp wf i :
  layout_ok l -> l_total_length l + l_piece_length l < 2 ^ 64 ->
  wanted_pieces l selectors = Ok wp -> wanted_files l selectors = Ok wf ->
  wp !! i = Some true -> disk_accepts l (handles (Some wf) 0 (l_files l)) i.
Proof.
  intros Hok Hbig Ep Ef Hi.
  assert (Hlen : (i < l_num_pieces l)%nat /\
    forall j f x, l_files l !! j = Some f -> start f <= x < start f + fs_length f ->
      Z.of_nat i * l_piece_length l <= x < piece_end l i -> wf !! j = Some true).
  { destruct selectors as [|s0 ss] eqn:Es.
    - cbn in Ep, Ef. injection Ep as <-. injection Ef as <-. apply lookup_replicate in Hi as [_ Hi]. split; [done|].
      intros j f x Hf _ _. apply lookup_replicate. split; [done|]. by eapply lookup_lt_Some.
    - destruct (selection_complete l selectors Hok) as (wp' & wf' & Ep' & Ef' & Lp & _ & _ & Hf); [by subst|done|].
      rewrite Es, Ep in Ep'. rewrite Es, Ef in Ef'. injection Ep' as <-. injection Ef' as <-.
      assert (Hlt : (i < l_num_pieces l)%nat) by (rewrite <- Lp; by eapply lookup_lt_Some). split; [done|].
      intros j f x Hj Hx Hp. apply Hf. exists f, x. by rewrite (piece_of l Hok i x). }
  destruct Hlen as [Hlt Hw]. split; [done|]. intros j o c Hin.
  destruct (proj1 (cuts_byte l i j)) as (f & x & Hf & Hx & Hp); [eauto|].
  exists (span_key f). apply (handles_lookup l (Some wf) j f _ Hf). split; [|done].
  cbn. by rewrite (Hw j f x Hf Hx Hp).
Qed.

(** C26: a selective download into pairwise distinct paths keeps what it stored.
    With the file mask and the piece mask of a selection, two runs of the
    plain-file task one after the other, over any previous content of the files,
    answer every command for a wanted piece as the map would, and the second run
    still has the pieces of the first: a wanted piece never touches a file that
    was left out, pieces never overlap, and reopening never truncates.  This is
    for a torrent no two of whose entries have one path, which the code does not
    enforce ([shared_path_clobbers] is the exception), whose files can be opened,
    and over a file system on which seeking, reading, writing and flushing an
    open file succeed, as they do in this model. *)
Theorem disk_sessions l selectors wp wf can_open fs cmds1 cmds2 :
  layout_ok l -> l_total_length l + l_piece_length l < 2 ^ 64 ->
  NoDup (span_key <$> l_files l) -> Forall (fun f => can_open (path f) = Ok tt) (l_files l) ->
  wanted_pieces l selectors = Ok wp -> wanted_files l selectors = Ok wf ->
  Forall (cmd_ok (fun i => wp !! i = Some true)) (cmds1 ++ cmds2) ->
  let size := size_of (l_piece_length l) (Z.of_nat (l_num_pieces l)) (l_total_length l) in
  exists fs1 out1 fs2 out2,
    run_storage can_open l (Some wf) cmds1 fs = (fs1, out1, Ok tt) /\ spec_run size ∅ cmds1 out1 /\
    run_storage can_open l (Some wf) cmds2 fs1 = (fs2, out2, Ok tt) /\
    spec_run size (spec_final size ∅ cmds1) cmds2 out2.
Proof.
  intros Hok Hbig Hnd Hop Ep Ef Hc size.
  assert (Hc' : Forall (cmd_ok (disk_accepts l (handles (Some wf) 0 (l_files l)))) (cmds1 ++ cmds2)).
  { eapply list.Forall_impl; [exact Hc|]. intros [i d|i b n|]; cbn; [|intros [? ?]; split; [|done]|done];
      eauto using selection_accepts. }
  apply list.Forall_app in Hc' as [H1 H2].
  destruct (session l Hok Hnd can_open (Some wf) Hop fs ∅ cmds1 (or_introl eq_refl) H1) as (fs1 & out1 & E1 & S1 & R1).
  destruct (session l Hok Hnd can_open (Some wf) Hop fs1 _ cmds2 (or_intror R1) H2) as (fs2 & out2 & E2 & S2 & _).
  by exists fs1, out1, fs2, out2.
Qed.

Definition session_cmds : list StorageCommand := [Write 2 (replicate 100 "z"%byte); Read 2 10 3].

Lemma disk_sessions_witness :
  exists fs1 out1 fs2 out2,
    run_storage (fun _ => Ok tt) layout_ex (Some [false; true; true]) session_cmds ∅ = (fs1, out1, Ok tt) /\
    run_storage (fun _ => Ok tt) layout_ex (Some [false; true; true]) [Read 2 0 2] fs1 = (fs2, out2, Ok tt) /\
    spec_run (size_of 100 3 300) (<[2%nat := replicate 100 "z"%byte]> ∅) [Read 2 0 2] out2.
Proof.
  destruct (disk_sessions layout_ex [bs "c.txt"] [false; false; true] [false; true; true] (fun _ => Ok tt) ∅
    session_cmds [Read 2 0 2]) as (fs1 & out1 & fs2 & out2 & H1 & _ & H2 & H3).
  - vm_compute. intuition discriminate.
  - vm_compute. reflexivity.
  - apply (bool_decide_unpack _). vm_compute. exact I.
  - repeat constructor.
  - vm_compute. reflexivity.
  - vm_compute. reflexivity.
  - repeat constructor.
  - exists fs1, out1, fs2, out2. split; [exact H1|]. split; [exact H2|]. exact H3.
Defined.

(** Two entries with one path: nothing rejects them, they share a file, and the
    second piece overwrites the first. *)
Definition twins : Layout :=
  mkLayout (bs "/dl") [mkFileSpan (bs "/dl/t/a") 0 4; mkFileSpan (bs "/dl/t/a") 4 4] 4 8 2.

Lemma shared_path_clobbers :
  from_torrent (bs "/dl") (mkTorrentFile [] None [] (mkInfo (bs "t") 4 (replicate 2 (replicate 20 "h"%byte))
    (Multi [mkFileEntry 4 (bs "a"); mkFileEntry 4 (bs "a")]) false)) = Ok twins /\
  (run_storage (fun _ => Ok tt) twins None [Write 0 (bs "AAAA"); Write 1 (bs "BBBB"); Read 0 0 4] ∅).1.2 =
  [Event (Written 0); Event (Written 1); Reply (Ok (bs "BBBB"))].
Proof. split; vm_compute; reflexivity. Qed.
