(* ===== verification/Resume.v ===== *)
(** * The resume scan: [scan_resume] of [src/src/storage/disk.rs]

    The scan reads the pieces one after the other and hashes them on other
    threads, at most [MAX_IN_FLIGHT] at a time.  It is compared with a direct
    definition: a piece is complete when each of its bytes exists in the files
    and the bytes hash to the expected value. *)

From Stdlib Require Import ZArith Lia String Strings.Byte.
From stdpp Require Import base tactics numbers list option gmap sorting.
From S2P Require Import Prelude Pieces Picker Paths Torrent Layout Storage.

(** ** The reference *)

(** Byte [x] of the torrent, as it is on disk. *)
Fixpoint stream_byte (fs : Fs) (files : list FileSpan) (x : Z) : option byte :=
  match files with
  | [] => None
  | f :: files =>
      if (start f <=? x) && (x <? start f + fs_length f)
      then fs !! span_key f ≫= lookup (Z.to_nat (x - start f))
      else stream_byte fs files x
  end.

(** The piece, when all of it exists. *)
Definition piece_on_disk (l : Layout) (fs : Fs) (i : nat) : option bytes :=
  mapM (stream_byte fs (l_files l)) (seqZ (Z.of_nat i * l_piece_length l)
    (size_of (l_piece_length l) (Z.of_nat (l_num_pieces l)) (l_total_length l) i)).

Definition complete (sha1 : bytes -> bytes) (l : Layout) (hashes : list bytes) (fs : Fs) (i : nat) : bool :=
  match piece_on_disk l fs i, hashes !! i with
  | Some data, Some expected => verify_piece sha1 data expected
  | _, _ => false
  end.

(** ** Reading one piece *)

Lemma mapM_step {A B} (f : A -> option B) a l : mapM f (a :: l) = y ← f a; k ← mapM f l; Some (y :: k).
Proof. done. Qed.

Lemma mapM_app {A B} (f : A -> option B) l k :
  mapM f (l ++ k) = x ← mapM f l; y ← mapM f k; Some (x ++ y).
Proof.
  induction l as [|a l IH]; [cbn; by destruct (mapM f k)|]. rewrite <- app_comm_cons, !mapM_step, IH.
  by destruct (f a), (mapM f l), (mapM f k).
Qed.

Lemma mapM_ext_in {A B} (f g : A -> option B) l : Forall (fun x => f x = g x) l -> mapM f l = mapM g l.
Proof. induction 1 as [|x l H _ IH]; [done|]. by rewrite !mapM_step, H, IH. Qed.

(** The bytes of a range inside one file. *)
Lemma mapM_file (c : bytes) a n s : 0 <= a - s -> 0 < n ->
  mapM (fun x => c !! Z.to_nat (x - s)) (seqZ a n) =
  if (Z.to_nat (a - s) + Z.to_nat n <=? length c)%nat then Some (slice c (Z.to_nat (a - s)) (Z.to_nat n)) else None.
Proof.
  intros Ha Hn. destruct (Nat.leb_spec (Z.to_nat (a - s) + Z.to_nat n) (length c)) as [Hle|Hlt].
  - apply mapM_Some, Forall2_same_length_lookup. split; [rewrite length_seqZ, length_slice; lia|].
    intros i x y Hx Hy. apply lookup_seqZ in Hx as [-> Hi]. unfold slice in Hy.
    rewrite lookup_take_lt, lookup_drop in Hy by lia. rewrite <- Hy. f_equal. lia.
  - apply mapM_None, list.Exists_exists. exists (a + n - 1). split; [apply elem_of_seqZ; lia|].
    apply lookup_ge_None. lia.
Qed.

(** What the scan opened: the files that exist. *)
Definition opened (fs : Fs) (f : FileSpan) : option Key := match fs !! span_key f with Some _ => Some (span_key f) | None => None end.

(** One file of the range. *)
Lemma stream_file fs f files a n : start f <= a -> 0 < n -> a + n <= start f + fs_length f ->
  mapM (stream_byte fs (f :: files)) (seqZ a n) =
  k ← opened fs f; match read_at (Z.to_nat (a - start f)) (Z.to_nat n) (content k fs) with Ok p => Some p | _ => None end.
Proof.
  intros Ha Hn Hlen.
  rewrite (mapM_ext_in _ (fun x => fs !! span_key f ≫= lookup (Z.to_nat (x - start f)))).
  2:{ apply list.Forall_forall. intros x Hx%elem_of_seqZ. cbn [stream_byte].
      by rewrite (proj2 (Z.leb_le _ _)), (proj2 (Z.ltb_lt _ _)) by lia. }
  unfold opened, content. destruct (fs !! span_key f) as [c|] eqn:E; cbn [mbind option_bind].
  - rewrite E. cbn [default from_option id]. rewrite mapM_file by lia. unfold read_at. by destruct (_ <=? _)%nat.
  - rewrite seqZ_cons by lia. done.
Qed.

Lemma stream_past fs f files a n : start f + fs_length f <= a ->
  mapM (stream_byte fs (f :: files)) (seqZ a n) = mapM (stream_byte fs files) (seqZ a n).
Proof.
  intros Ha. apply mapM_ext_in, list.Forall_forall. intros x Hx%elem_of_seqZ. cbn [stream_byte].
  by rewrite (proj2 (Z.ltb_ge x _)), andb_false_r by lia.
Qed.

Lemma scan_cuts fs hs gs e files : forall base i buf off,
  contiguous base files -> gs <= e <= base + span_sum files ->
  (forall j f, files !! j = Some f -> hs !! (i + j)%nat = Some (opened fs f)) ->
  forall a, a = Z.min e (Z.max gs base) ->
  (off + Z.to_nat (e - a) <= length buf)%nat ->
  scan_slices (mkDisk fs hs) buf off (cuts gs e i files) =
  Ok (splice buf off <$> mapM (stream_byte fs files) (seqZ a (e - a))).
Proof.
  induction files as [|f files IH]; intros base i buf off; cbn [contiguous].
  { intros _ He _ a -> Hlen. cbn in He. rewrite (seqZ_nil _ (e - _)) by lia. cbn. by rewrite splice_nil. }
  intros (Hs & Hl & Hc) He Hh a Ea Hlen. rewrite span_sum_cons in He. pose proof (contiguous_nonneg _ _ Hc). cbn [cuts].
  remember (Z.min e (Z.max gs (base + fs_length f))) as a' eqn:Ea'.
  assert (Hh' : forall j g, files !! j = Some g -> hs !! (S i + j)%nat = Some (opened fs g)).
  { intros j g Hg. rewrite Nat.add_succ_comm. by apply (Hh (S j)). }
  unfold cut. destruct (Z.ltb_spec (Z.max gs (start f)) (Z.min e (start f + fs_length f))).
  - cbn [option_to_list app scan_slices d_files d_fs]. unfold index.
    rewrite <- (Nat.add_0_r i) at 1. rewrite (Hh 0%nat f) by done. cbn [mbind result_bind].
    replace (e - a) with ((a' - a) + (e - a')) by lia. rewrite seqZ_app, mapM_app by lia.
    replace (a + (a' - a)) with a' by lia. rewrite (stream_file fs f files a (a' - a)) by lia.
    replace (Z.max gs (start f) - start f) with (a - start f) by lia.
    replace (Z.min e (start f + fs_length f) - Z.max gs (start f)) with (a' - a) by lia.
    destruct (opened fs f) as [k|]; [|done]. rewrite slice_range_Ok by lia. cbn [mbind result_bind option_bind].
    destruct (read_at _ _ _) as [part| | |] eqn:Er; try done.
    assert (Lp : length part = Z.to_nat (a' - a)).
    { unfold read_at in Er. destruct (Nat.leb_spec (Z.to_nat (a - start f) + Z.to_nat (a' - a)) (length (content k fs))); [|done].
      injection Er as <-. by apply length_slice. }
    rewrite (IH _ (S i) _ _ Hc ltac:(lia) Hh' a' Ea') by (rewrite length_splice; lia).
    assert (Em : mapM (stream_byte fs (f :: files)) (seqZ a' (e - a')) = mapM (stream_byte fs files) (seqZ a' (e - a'))).
    { destruct (decide (e = a')) as [->|]; [by rewrite Z.sub_diag|]. apply stream_past. lia. }
    rewrite Em. destruct (mapM (stream_byte fs files) (seqZ a' (e - a'))) as [y|]; [|done].
    cbn [mbind option_bind fmap option_fmap option_map]. by rewrite <- Lp, splice_splice by lia.
  - cbn [option_to_list app]. 
    rewrite (IH _ (S i) _ _ Hc ltac:(lia) Hh' a ltac:(lia)) by lia. do 2 f_equal.
    symmetry. destruct (decide (e <= a)); [by rewrite !seqZ_nil by lia|]. apply stream_past. lia.
Qed.

Section scan.
Context (l : Layout) (Hok : layout_ok l) (sha1 : bytes -> bytes) (fs : Fs).
#[local] Abbreviation hs := (opened fs <$> l_files l).

Lemma mapM_length {A B} (f : A -> option B) l' k : mapM f l' = Some k -> length k = length l'.
Proof. intros H%mapM_Some. symmetry. by eapply Forall2_length. Qed.

Lemma scan_piece_eq i : (i < l_num_pieces l)%nat -> scan_piece l (mkDisk fs hs) i = Ok (piece_on_disk l fs i).
Proof.
  intros Hi. destruct (disk_size l Hok i Hi) as (Es & Ee & Hb & Hs & Ht). pose proof Hok as (Hc & Hsum & _).
  unfold scan_piece. rewrite Es. cbn [mbind result_bind].
  destruct (piece_slices l Hok i Hi) as (sz & Esz & Esl). change (l_piece_size l i) with (disk_piece_size l i) in Esz.
  rewrite Es in Esz. injection Esz as <-. rewrite Esl. cbn [mbind result_bind].
  rewrite (scan_cuts fs hs (Z.of_nat i * l_piece_length l) (piece_end l i) (l_files l) 0 0 _ 0 Hc ltac:(lia)) with (a := Z.of_nat i * l_piece_length l);
    [|by intros j f Hf; rewrite Nat.add_0_l, list_lookup_fmap, Hf|lia|rewrite length_replicate; lia].
  f_equal. unfold piece_on_disk. replace (_ - _) with (size_of (l_piece_length l) (Z.of_nat (l_num_pieces l)) (l_total_length l) i) by lia.
  destruct (mapM _ _) as [data|] eqn:E; [|done]. cbn. f_equal.
  apply splice_all. apply mapM_length in E. by rewrite length_replicate, E, length_seqZ.
Qed.

(** The pieces of a window that verified. *)
Definition passed (in_flight : list Pending) : list nat := (List.filter snd in_flight).*1.

Lemma passed_app a b : passed (a ++ b) = passed a ++ passed b.
Proof. unfold passed. by rewrite List.filter_app, fmap_app. Qed.

Lemma drain_one_passed q out q' out' : drain_one q out = (q', out') ->
  out' ++ passed q' = out ++ passed q /\ (length q' <= length q)%nat.
Proof.
  destruct q as [|[i [|]] q]; cbn; intros [= <- <-]; [done|..]; split; try lia; [|done].
  unfold passed. cbn. by rewrite <- app_assoc.
Qed.

(** Whatever the window, nothing is lost and the order is kept. *)
Lemma scan_loop_eq hashes all : forall i q out, (i + length hashes <= l_num_pieces l)%nat ->
  (forall j, hashes !! j = all !! (i + j)%nat) ->
  exists q' out', scan_loop sha1 l (mkDisk fs hs) i hashes q out = Ok (q', out') /\
    out' ++ passed q' = out ++ passed q ++ List.filter (complete sha1 l all fs) (seq i (length hashes)).
Proof.
  induction hashes as [|h hashes IH]; intros i q out Hi Ha; cbn [scan_loop].
  { exists q, out. split; [done|]. cbn. by rewrite app_nil_r. }
  destruct (if (MAX_IN_FLIGHT <=? length q)%nat then drain_one q out else (q, out)) as [q1 out1] eqn:Eq.
  assert (E1 : out1 ++ passed q1 = out ++ passed q).
  { destruct (_ <=? _)%nat; [by apply drain_one_passed in Eq as [? _]|by injection Eq as <- <-]. }
  cbn [length] in Hi. rewrite scan_piece_eq by lia. cbn [mbind result_bind].
  assert (Hh : all !! i = Some h) by (rewrite <- (Nat.add_0_r i), <- Ha; done).
  edestruct (IH (S i) (match piece_on_disk l fs i with Some buf => q1 ++ [(i, verify_piece sha1 buf h)] | None => q1 end) out1)
    as (q' & out' & E & Ep); [lia|intros j; rewrite Nat.add_succ_comm; apply (Ha (S j))|].
  exists q', out'. split; [exact E|]. rewrite Ep, (app_assoc out), <- E1, <- !app_assoc. f_equal.
  cbn [length seq List.filter]. unfold complete at 2. rewrite Hh.
  destruct (piece_on_disk l fs i) as [data|]; [|done]. rewrite passed_app, <- app_assoc. f_equal.
  unfold passed. cbn. by destruct (verify_piece sha1 data h).
Qed.

Lemma drain_all_eq q : forall out, drain_all (length q) q out = Ok (out ++ passed q).
Proof.
  induction q as [|[i b] q IH]; intros out; cbn; [by rewrite app_nil_r|].
  rewrite IH. unfold passed. destruct b; cbn; [by rewrite <- app_assoc|done].
Qed.
End scan.

Lemma sort_by_sorted_id (x : list nat) : StronglySorted lt x -> sort_by Nat.ltb x = x.
Proof.
  induction 1 as [|a x _ IH Ha]; [done|]. cbn. unfold sort_by in IH. rewrite IH.
  destruct x as [|b x]; [done|]. cbn [foldr sort_insert]. apply list.Forall_cons in Ha as [Hab _].
  destruct (Nat.ltb_spec b a); [lia|done].
Qed.

Lemma filter_sorted (p : nat -> bool) i n : StronglySorted lt (List.filter p (seq i n)).
Proof.
  revert i. induction n as [|n IH]; intros i; cbn; [constructor|]. destruct (p i); [|apply IH].
  constructor; [apply IH|]. apply List.Forall_forall. intros x [Hx _]%filter_In. apply in_seq in Hx. lia.
Qed.

Lemma open_existing_eq open_ro fs files :
  Forall (fun f => open_ro (path f) = match opened fs f with Some _ => Found | None => NotFound end) files ->
  open_existing open_ro files = Ok (opened fs <$> files).
Proof.
  induction 1 as [|f files Hf _ IH]; [done|]. cbn [open_existing]. rewrite Hf, IH. unfold opened.
  rewrite fmap_cons. by destruct (fs !! span_key f).
Qed.

(** The pipelined scan is the direct one.  On any files, some of them missing,
    short or full of other data, the scan with its window of hashes in flight
    returns, in ascending order, exactly the pieces all of whose bytes exist in
    the files and hash to the expected value; it never panics and one missing
    file costs only the pieces that need it. *)
Lemma scan_resume_exact sha1 open_ro l hashes fs :
  layout_ok l ->
  Forall (fun f => open_ro (path f) = match opened fs f with Some _ => Found | None => NotFound end) (l_files l) ->
  scan_resume sha1 open_ro l hashes fs =
  Ok (List.filter (complete sha1 l hashes fs) (seq 0 (Nat.min (l_num_pieces l) (length hashes)))).
Proof.
  intros Hok Ho. unfold scan_resume. rewrite (open_existing_eq _ fs) by done. cbn [mbind result_bind].
  set (hs := take (l_num_pieces l) hashes).
  assert (Lh : length hs = Nat.min (l_num_pieces l) (length hashes)) by apply length_take.
  destruct (scan_loop_eq l Hok sha1 fs hs hs 0 [] []) as (q & out & E & Ep); [lia|done|].
  rewrite E. cbn [mbind result_bind]. rewrite drain_all_eq. cbn [mbind result_bind].
  rewrite Ep, Lh. cbn [app passed]. rewrite sort_by_sorted_id by apply filter_sorted. f_equal.
  apply filter_ext_in. intros i Hi%in_seq. unfold complete, hs. by rewrite lookup_take_lt by lia.
Qed.

(** The first two files hold their bytes, the third is missing. *)
Definition fs_ex : Fs :=
  <[components (bs "/dl/pkg/a.txt") := replicate 150 "a"%byte]>
  (<[components (bs "/dl/pkg/b.txt") := replicate 100 "b"%byte]> ∅).

(** A stand-in for the digest: the first twenty bytes. *)
Definition first20 (d : bytes) : bytes := take 20 d.

Lemma scan_resume_exact_witness :
  scan_resume first20 (fun p => match fs_ex !! components p with Some _ => Found | None => NotFound end) layout_ex
    [replicate 20 "a"%byte; replicate 20 "a"%byte; replicate 20 "b"%byte] fs_ex = Ok [0%nat; 1%nat].
Proof.
  rewrite scan_resume_exact.
  - vm_compute. reflexivity.
  - vm_compute. intuition discriminate.
  - repeat constructor.
Defined.
