(* ===== verification/Spool.v ===== *)
(** * The encrypted spool: [src/src/storage/crypt.rs] and [src/src/storage/spool.rs]

    One file holds a header and a slot per piece; a slot is a nonce and the
    piece, padded to the piece length and sealed with the slot index as
    associated data.  AES-256-GCM and Argon2id are arguments; what the spool
    relies on (sealing succeeds below the length limit and adds sixteen bytes,
    opening accepts exactly what sealing produced) is the class [AeadLaws].
    The nonces of the random generator are a stream in the state, the salt an
    argument.  File operations are those of [Storage.v]. *)

From Stdlib Require Import ZArith Lia String Strings.Byte.
From stdpp Require Import base tactics numbers list option gmap sorting.
From S2P Require Import Prelude Pieces Picker Paths Torrent Layout Storage.

(** ** Authenticated encryption *)

Definition KEY_LEN : nat := 32.
Definition NONCE_LEN : nat := 12.
Definition TAG_LEN : nat := 16.
Definition SALT_LEN : nat := 16.

(** The primitives of the crates: [seal key nonce aad msg], [unseal key nonce aad
    ct], and [argon passphrase salt] with the fixed parameters. *)
Class Aead := {
  seal : bytes -> bytes -> bytes -> bytes -> option bytes;
  unseal : bytes -> bytes -> bytes -> bytes -> option bytes;
  argon : bytes -> bytes -> option bytes;
}.

(** The length limit of AES-GCM is 2^36 bytes. *)
Class AeadLaws `{Aead} := {
  seal_Some key nonce aad msg : length key = KEY_LEN -> length nonce = NONCE_LEN ->
    Z.of_nat (length msg) <= 2 ^ 36 -> Z.of_nat (length aad) <= 2 ^ 36 -> exists ct, seal key nonce aad msg = Some ct;
  seal_length key nonce aad msg ct : seal key nonce aad msg = Some ct -> length ct = (length msg + TAG_LEN)%nat;
  unseal_iff key nonce aad msg ct : unseal key nonce aad ct = Some msg <-> seal key nonce aad msg = Some ct;
  argon_length pass salt key : argon pass salt = Some key -> length key = KEY_LEN;
}.

Section crypt.
Context `{Aead}.

Definition derive_key (passphrase salt : bytes) : result bytes :=
  ok_or (argon passphrase salt) (ECrypto "argon2 derive").

(** [nonce] is what [random_nonce] returned. *)
Definition encrypt_with_aad (nonce key plaintext aad : bytes) : result (bytes * bytes) :=
  ct ← ok_or (seal key nonce aad plaintext) (ECrypto "aes-gcm encrypt");
  Ok (nonce, ct).

Definition encrypt (nonce key plaintext : bytes) : result (bytes * bytes) :=
  encrypt_with_aad nonce key plaintext [].

Definition decrypt_with_aad (key nonce ciphertext aad : bytes) : result bytes :=
  ok_or (unseal key nonce aad ciphertext) (ECrypto "aes-gcm decrypt").

Definition decrypt (key nonce ciphertext : bytes) : result bytes :=
  decrypt_with_aad key nonce ciphertext [].
End crypt.

(** ** The file format *)

Definition MAGIC : bytes := bs "RTSP".
Definition VERSION : Z := 2.
Definition HEADER_LEN : Z :=
  4 + 1 + 3 + Z.of_nat SALT_LEN + 4 + 4 + Z.of_nat NONCE_LEN + (16 + Z.of_nat TAG_LEN).
Definition VERIFIER_PLAINTEXT : bytes := replicate 16 Byte.x00.

(** [u32::to_le_bytes] and [u32::from_le_bytes]. *)
Definition to_le32 (z : Z) : bytes := rev (to_be 4 z).
Definition from_le32 (b : bytes) : Z := from_be (rev b).

Definition slot_size (piece_length : Z) : result Z :=
  a ← checked 64 (Z.of_nat NONCE_LEN + piece_length);
  checked 64 (a + Z.of_nat TAG_LEN).

Definition slot_offset (piece_length : Z) (index : nat) : result Z :=
  s ← slot_size piece_length;
  o ← checked 64 (Z.of_nat index * s);
  checked 64 (HEADER_LEN + o).

Definition piece_aad (index : nat) : bytes := bs "piece" ++ [Byte.x00] ++ to_be 4 (Z.of_nat index).

(** The header in the order it is written. *)
Definition header_bytes (salt : bytes) (num_pieces piece_length : Z) (verifier_nonce verifier_ct : bytes) : bytes :=
  MAGIC ++ [z2b VERSION] ++ replicate 3 Byte.x00 ++ salt ++ to_le32 num_pieces ++ to_le32 piece_length ++
  verifier_nonce ++ verifier_ct.

Definition write_header (salt : bytes) (num_pieces piece_length : Z) (verifier_nonce verifier_ct : bytes)
    : M bytes unit :=
  modify (write_at 0 (header_bytes salt num_pieces piece_length verifier_nonce verifier_ct)).

Definition read_header (file : bytes) : result (bytes * Z * Z * bytes * bytes) :=
  magic ← read_at 0 4 file;
  if negb (bytes_eqb magic MAGIC) then Err (ECrypto "spool magic mismatch")
  else
    version ← read_at 4 1 file;
    v ← index version 0;
    if negb (b2z v =? VERSION) then Err (ECrypto "spool version mismatch")
    else
      _ ← read_at 5 3 file;
      salt ← read_at 8 SALT_LEN file;
      np ← read_at 24 4 file;
      pl ← read_at 28 4 file;
      verifier_nonce ← read_at 32 NONCE_LEN file;
      verifier_ct ← read_at 44 (length VERIFIER_PLAINTEXT + TAG_LEN) file;
      Ok (salt, from_le32 np, from_le32 pl, verifier_nonce, verifier_ct).

(** ** The spool *)

Record EncryptedSpool := mkSpool {
  sp_file : bytes;
  sp_key : bytes;
  sp_piece_length : Z;
  sp_num_pieces : Z;
  sp_total_length : Z;
  sp_write_scratch : bytes;
  (** the nonces the generator returns, and how many were drawn *)
  sp_rng : nat -> bytes;
  sp_drawn : nat;
}.

Section spool.
Context `{Aead}.

(** The state is the content of the file, empty when it was just created. *)
Definition open_or_create (rng : nat -> bytes) (random_salt : bytes) (passphrase : bytes)
    (piece_length num_pieces total_length : Z) : M bytes EncryptedSpool :=
  existing_len ← gets length;
  '(key, drawn) ←
    (if (existing_len =? 0)%nat then
       key ← lift (derive_key passphrase random_salt);
       '(verifier_nonce, verifier_ct) ← lift (encrypt (rng 0%nat) key VERIFIER_PLAINTEXT);
       _ ← write_header random_salt num_pieces (wrap 32 piece_length) verifier_nonce verifier_ct;
       s ← lift (slot_size piece_length);
       slots ← lift (checked 64 (num_pieces * s));
       total_size ← lift (checked 64 (HEADER_LEN + slots));
       _ ← modify (set_len (Z.to_nat total_size));
       mret (key, 1%nat)
     else
       '(salt, stored_pieces, stored_piece_len, verifier_nonce, verifier_ct) ← reads read_header;
       if negb (stored_pieces =? num_pieces) then lift (Err (ECrypto "spool num_pieces mismatch"))
       else if negb (stored_piece_len =? piece_length) then lift (Err (ECrypto "spool piece_length mismatch"))
       else
         key ← lift (derive_key passphrase salt);
         decrypted ← lift (map_err (ECrypto "spool header verifier failed") (decrypt key verifier_nonce verifier_ct));
         if negb (bytes_eqb decrypted VERIFIER_PLAINTEXT) then
           lift (Err (ECrypto "spool header verifier decrypted but to unexpected bytes"))
         else mret (key, 0%nat));
  file ← gets id;
  mret (mkSpool file key piece_length num_pieces total_length [] rng drawn).

Definition sp_piece_size (sp : EncryptedSpool) : nat -> result Z :=
  spool_piece_size (sp_piece_length sp) (sp_num_pieces sp) (sp_total_length sp).

(** Draw a nonce. *)
Definition random_nonce : M EncryptedSpool bytes := fun sp =>
  (mkSpool (sp_file sp) (sp_key sp) (sp_piece_length sp) (sp_num_pieces sp) (sp_total_length sp)
     (sp_write_scratch sp) (sp_rng sp) (S (sp_drawn sp)), Ok (sp_rng sp (sp_drawn sp))).

Definition with_scratch (b : bytes) (sp : EncryptedSpool) : EncryptedSpool :=
  mkSpool (sp_file sp) (sp_key sp) (sp_piece_length sp) (sp_num_pieces sp) (sp_total_length sp) b (sp_rng sp) (sp_drawn sp).

Definition with_file (f : bytes) (sp : EncryptedSpool) : EncryptedSpool :=
  mkSpool f (sp_key sp) (sp_piece_length sp) (sp_num_pieces sp) (sp_total_length sp) (sp_write_scratch sp) (sp_rng sp)
    (sp_drawn sp).

Definition spool_write_piece (index : nat) (data : bytes) : M EncryptedSpool unit :=
  actual ← reads (fun sp => sp_piece_size sp index);
  if negb (Z.of_nat (length data) =? actual) then lift (Err (EIo "spool write piece: wrong length"))
  else
    pl ← gets sp_piece_length;
    let buf := set_len (Z.to_nat pl) data in
    _ ← modify (with_scratch buf);
    key ← gets sp_key;
    n ← random_nonce;
    '(nonce, ct) ← lift (encrypt_with_aad n key buf (piece_aad index));
    offset ← lift (slot_offset pl index);
    _ ← modify (fun sp => with_file (write_at (Z.to_nat offset) nonce (sp_file sp)) sp);
    modify (fun sp => with_file (write_at (Z.to_nat offset + length nonce) ct (sp_file sp)) sp).

Definition spool_read_range (index : nat) (begin len : Z) (sp : EncryptedSpool) : result bytes :=
  actual ← sp_piece_size sp index;
  end_ ← checked 64 (begin + len);
  if actual <? end_ then Err (EIo "spool read past piece end")
  else
    offset ← slot_offset (sp_piece_length sp) index;
    nonce_buf ← read_at (Z.to_nat offset) NONCE_LEN (sp_file sp);
    ct_len ← checked 64 (sp_piece_length sp + Z.of_nat TAG_LEN);
    ct ← read_at (Z.to_nat offset + NONCE_LEN) (Z.to_nat ct_len) (sp_file sp);
    plaintext ← decrypt_with_aad (sp_key sp) nonce_buf ct (piece_aad index);
    let plaintext := take (Z.to_nat actual) plaintext in
    if (begin =? 0) && (end_ =? Z.of_nat (length plaintext)) then Ok plaintext
    else slice_range plaintext (Z.to_nat begin) (Z.to_nat end_).

#[export] Instance spool_store : PieceStore EncryptedSpool :=
  { ps_write := spool_write_piece; ps_read := spool_read_range }.

(** The task, from the content of the file to its content at the end. *)
Definition run_encrypted_storage (rng : nat -> bytes) (salt passphrase : bytes) (l : Layout)
    (cmds : list StorageCommand) (file : bytes) : bytes * list Output * result unit :=
  match open_or_create rng salt passphrase (l_piece_length l) (wrap 32 (Z.of_nat (l_num_pieces l)))
          (l_total_length l) file with
  | (_, Ok sp) => let '(sp, out, r) := serve cmds sp in (sp_file sp, out, r)
  | (file, Err e) => (file, [], Err e)
  | (file, Panic) => (file, [], Panic)
  | (file, NoFuel) => (file, [], NoFuel)
  end.

Definition spawn_encrypted_storage_task (rng : nat -> bytes) (salt passphrase : bytes) (l : Layout)
    (cmds : list StorageCommand) (file : bytes) : bytes * list Output :=
  let '(file, out, r) := run_encrypted_storage rng salt passphrase l cmds file in
  (file, out ++ match r with Err e => [Event (StorageError None e)] | _ => [] end).

(** The loop over the slots of the two scans: the pieces that open and verify. *)
Fixpoint recover (sha1 : bytes -> bytes) (piece_hashes : list bytes) (sp : EncryptedSpool) (index n : nat)
    : result (list (nat * bytes)) :=
  match n with
  | O => Ok []
  | S n =>
      actual ← sp_piece_size sp index;
      found ← match spool_read_range index 0 (wrap 32 actual) sp with
              | Ok piece =>
                  match piece_hashes !! index with
                  | Some expected => Ok (if verify_piece sha1 piece expected then [(index, piece)] else [])
                  | None => Ok []
                  end
              | Err _ => Ok []
              | Panic => Panic
              | NoFuel => NoFuel
              end;
      rest ← recover sha1 piece_hashes sp (S index) n;
      Ok (found ++ rest)
  end.

(** [file] is the content of the spool, if it exists. *)
Definition scan_spool_resume (sha1 : bytes -> bytes) (rng : nat -> bytes) (salt passphrase : bytes) (l : Layout)
    (piece_hashes : list bytes) (file : option bytes) : result (list nat) :=
  match file with
  | None => Ok []
  | Some file =>
      sp ← (open_or_create rng salt passphrase (l_piece_length l) (wrap 32 (Z.of_nat (l_num_pieces l)))
             (l_total_length l) file).2;
      ps ← recover sha1 piece_hashes sp 0 (Z.to_nat (wrap 32 (Z.of_nat (l_num_pieces l))));
      Ok ps.*1
  end.

Definition decrypt_all_pieces (sha1 : bytes -> bytes) (rng : nat -> bytes) (salt passphrase : bytes) (l : Layout)
    (piece_hashes : list bytes) (file : option bytes) : result (list (nat * bytes)) :=
  match file with
  | None => Err (EIo "spool not found")
  | Some file =>
      sp ← (open_or_create rng salt passphrase (l_piece_length l) (wrap 32 (Z.of_nat (l_num_pieces l)))
             (l_total_length l) file).2;
      recover sha1 piece_hashes sp 0 (Z.to_nat (wrap 32 (Z.of_nat (l_num_pieces l))))
  end.
End spool.

(** ** The header reads back *)

Lemma from_to_le32 z : 0 <= z < 2 ^ 32 -> from_le32 (to_le32 z) = z.
Proof. intros. unfold from_le32, to_le32. rewrite rev_involutive. by apply from_to_be. Qed.

(** Field [k] of fields written one after the other. *)
Lemma read_field (parts : list bytes) k p off n rest : parts !! k = Some p ->
  off = length (concat (take k parts)) -> n = length p -> read_at off n (concat parts ++ rest) = Ok p.
Proof.
  intros Hk -> ->. rewrite <- (take_drop_middle parts k p Hk) at 2. rewrite concat_app. cbn [concat].
  rewrite <- !app_assoc. unfold read_at. rewrite (proj2 (Nat.leb_le _ _)) by (rewrite !length_app; lia).
  f_equal. rewrite slice_app_r, Nat.sub_diag by lia. rewrite slice_app_l by lia. by apply slice_all.
Qed.

Lemma length_to_le32 z : length (to_le32 z) = 4%nat.
Proof. unfold to_le32. by rewrite length_rev, length_to_be. Qed.

Lemma read_header_roundtrip salt np pl vn vct rest :
  length salt = SALT_LEN -> length vn = NONCE_LEN -> length vct = (16 + TAG_LEN)%nat ->
  0 <= np < 2 ^ 32 -> 0 <= pl < 2 ^ 32 ->
  read_header (header_bytes salt np pl vn vct ++ rest) = Ok (salt, np, pl, vn, vct).
Proof.
  intros Hs Hn Hc Hnp Hpl.
  set (parts := [MAGIC; [z2b VERSION]; replicate 3 Byte.x00; salt; to_le32 np; to_le32 pl; vn; vct]).
  assert (E : header_bytes salt np pl vn vct = concat parts) by (cbn [concat parts]; by rewrite app_nil_r).
  pose proof (length_to_le32 np) as L1. pose proof (length_to_le32 pl) as L2.
  unfold SALT_LEN, NONCE_LEN, TAG_LEN in *. rewrite E.
  assert (R : forall k p off n, parts !! k = Some p -> off = length (concat (take k parts)) -> n = length p ->
    read_at off n (concat parts ++ rest) = Ok p) by (intros; by eapply read_field).
  unfold read_header, SALT_LEN, NONCE_LEN, TAG_LEN.
  assert (F : forall k p off n B (f : bytes -> result B), parts !! k = Some p -> off = length (concat (take k parts)) ->
    n = length p -> (read_at off n (concat parts ++ rest) ≫= f) = f p).
  { intros k p off n B f H1 H2 H3. by rewrite (R k p off n). }
  assert (T : forall k, length (concat (take k parts)) = sum_list (length <$> take k parts)).
  { intros k. induction (take k parts) as [|x t IH]; [done|]. cbn. by rewrite length_app, IH. }
  setoid_rewrite T in F.
  erewrite (F 0%nat) by done. cbn beta. rewrite bytes_eqb_refl. cbn [negb].
  erewrite (F 1%nat) by done. cbn beta. change (index [z2b VERSION] 0) with (Ok (z2b VERSION)). cbn [mbind result_bind].
  change (b2z (z2b VERSION) =? VERSION) with true. cbn [negb].
  erewrite (F 2%nat), (F 3%nat), (F 4%nat), (F 5%nat), (F 6%nat), (F 7%nat) by (done || (cbn; lia)). cbn beta.
  by rewrite !from_to_le32.
Qed.

Lemma read_at_returns off n c : returns (read_at off n c) = true.
Proof. unfold read_at. by destruct (_ <=? _)%nat. Qed.

Lemma read_header_returns file : returns (read_header file) = true.
Proof.
  unfold read_header. apply bind_returns; [apply read_at_returns|]. intros magic _. destruct (negb _); [done|].
  apply bind_returns; [apply read_at_returns|]. intros version Hv.
  assert (Lv : length version = 1%nat).
  { unfold read_at in Hv. destruct (Nat.leb_spec (4 + 1) (length file)); [|done]. injection Hv as <-. by apply length_slice. }
  destruct version as [|v [|? ?]]; try done. change (index [v] 0) with (Ok v). cbn [mbind result_bind].
  destruct (b2z v =? VERSION); cbn [negb]; [|done]. repeat (apply bind_returns; [apply read_at_returns|]; intros ? _). done.
Qed.

(** The key never changes. *)
Lemma write_key `{Aead} i d sp : sp_key (spool_write_piece i d sp).1 = sp_key sp.
Proof.
  unfold spool_write_piece. msteps. destruct (sp_piece_size sp i); [|done..]. cbn beta iota. destruct (negb _); [done|].
  cbn [random_nonce]. destruct (encrypt_with_aad _ _ _ _) as [[n c]| | |]; [|done..]. cbn beta iota.
  by destruct (slot_offset _ i).
Qed.

Lemma serve_key `{Aead} cmds : forall sp sp' out r, serve cmds sp = (sp', out, r) -> sp_key sp' = sp_key sp.
Proof.
  induction cmds as [|c cmds IH]; intros sp sp' out r; cbn [serve]; [by intros [= <- _ _]|].
  destruct c as [i d|i b n|]; [| |by intros [= <- _ _]].
  - cbn [ps_write spool_store]. pose proof (write_key i d sp) as Hk.
    destruct (spool_write_piece i d sp) as [s1 [u|e| |]]; cbn [fst] in Hk.
    3,4: by intros [= <- _ _].
    all: destruct (serve cmds s1) as [[s2 o2] r2] eqn:E; intros [= <- _ _]; rewrite (IH _ _ _ _ E); done.
  - destruct (ps_read i b n sp); [..|by intros [= <- _ _]|by intros [= <- _ _]];
      destruct (serve cmds sp) as [[s2 o2] r2] eqn:E; intros [= <- _ _]; by apply (IH _ _ _ _ E).
Qed.

(** ** The spool keeps the laws *)

Section laws.
Context `{AeadLaws} (pl np total : Z) (Hg : geometry_ok pl np total) (Hpl : pl <= 2 ^ 30) (pass : bytes).
#[local] Abbreviation size := (size_of pl np total).
#[local] Abbreviation P := (Z.to_nat pl).

Definition slot_pos (i : nat) : nat := 76 + i * (Z.to_nat pl + 28).
Definition slot_at (file : bytes) (i : nat) : bytes := slice file (slot_pos i) (Z.to_nat pl + 28).
Definition file_len : nat := slot_pos (Z.to_nat np).

(** Slot [i] holds [msg] sealed for that slot. *)
Definition sealed_in (key file : bytes) (i : nat) (msg : bytes) : Prop :=
  exists nonce ct, slot_at file i = nonce ++ ct /\ length nonce = NONCE_LEN /\ seal key nonce (piece_aad i) msg = Some ct.

(** The header of this passphrase and these sizes. *)
Definition header_ok (key file : bytes) : Prop :=
  exists salt vn vct, slice file 0 76 = header_bytes salt np pl vn vct /\ length salt = SALT_LEN /\
    length vn = NONCE_LEN /\ argon pass salt = Some key /\ seal key vn [] VERIFIER_PLAINTEXT = Some vct.

(** Every slot is untouched or sealed for its index: no plaintext in the file. *)
Definition slots_sealed (key file : bytes) : Prop :=
  forall i, Z.of_nat i < np -> slot_at file i = replicate (Z.to_nat pl + 28) Byte.x00 \/
    exists msg, length msg = Z.to_nat pl /\ sealed_in key file i msg.

Definition file_repr (key file : bytes) (m : gmap nat bytes) : Prop :=
  length file = file_len /\ header_ok key file /\ slots_sealed key file /\
  forall i d, m !! i = Some d -> Z.of_nat i < np /\ Z.of_nat (length d) = size i /\
    sealed_in key file i (set_len (Z.to_nat pl) d).

Definition spool_repr (sp : EncryptedSpool) (m : gmap nat bytes) : Prop :=
  sp_piece_length sp = pl /\ sp_num_pieces sp = np /\ sp_total_length sp = total /\
  (forall n, length (sp_rng sp n) = NONCE_LEN) /\ file_repr (sp_key sp) (sp_file sp) m.

Lemma slot_size_eq : slot_size pl = Ok (pl + 28).
Proof.
  destruct Hg as (Hp & _). unfold slot_size, NONCE_LEN, TAG_LEN. rewrite checked_small by lia. cbn [mbind result_bind].
  rewrite checked_small by lia. f_equal. lia.
Qed.

Lemma slot_offset_eq i : Z.of_nat i < np -> slot_offset pl i = Ok (Z.of_nat (slot_pos i)).
Proof.
  intros Hi. destruct Hg as (Hp & Hn & _). unfold slot_offset. rewrite slot_size_eq. cbn [mbind result_bind].
  assert (Hb : 0 <= Z.of_nat i * (pl + 28) <= (2 ^ 32 - 1) * (2 ^ 30 + 28)) by nia.
  rewrite checked_small by lia. cbn [mbind result_bind]. unfold HEADER_LEN, SALT_LEN, NONCE_LEN, TAG_LEN, slot_pos.
  rewrite checked_small by lia. f_equal. lia.
Qed.

Lemma slot_fits i : Z.of_nat i < np -> (slot_pos i + (P + 28) <= file_len)%nat.
Proof. intros Hi. unfold file_len, slot_pos. nia. Qed.

Lemma slot_disjoint i j : i <> j -> (slot_pos j + (P + 28) <= slot_pos i \/ slot_pos i + (P + 28) <= slot_pos j)%nat.
Proof. intros Hne. unfold slot_pos. destruct (decide (i < j)%nat); [right|left]; nia. Qed.

Lemma slot_after_header i : (76 <= slot_pos i)%nat.
Proof. unfold slot_pos. lia. Qed.

Lemma padded d : (length d <= P)%nat -> set_len P d = d ++ replicate (P - length d) Byte.x00.
Proof. intros Hd. unfold set_len. by rewrite take_ge. Qed.

Lemma length_set_len n d : length (set_len n d) = n.
Proof. unfold set_len. rewrite length_app, length_take, length_replicate. lia. Qed.

Lemma take_set_len n d : (length d <= n)%nat -> take (length d) (set_len n d) = d.
Proof. intros Hd. unfold set_len. rewrite (take_ge d n) by done. apply take_app_length. Qed.

(** Filling one slot. *)
Lemma fill_slot key file m i d nonce ct :
  file_repr key file m -> Z.of_nat i < np -> Z.of_nat (length d) = size i ->
  length nonce = NONCE_LEN -> seal key nonce (piece_aad i) (set_len P d) = Some ct ->
  let file' := splice file (slot_pos i) (nonce ++ ct) in
  file_repr key file' (<[i := d]> m).
Proof.
  intros (Hl & Hh & Hs & Hm) Hi Hd Hn Hct file'. pose proof (slot_fits i Hi) as Hfit.
  assert (Lc : length (nonce ++ ct) = (P + 28)%nat).
  { rewrite length_app, Hn, (seal_length _ _ _ _ _ Hct), length_set_len. unfold NONCE_LEN, TAG_LEN. lia. }
  assert (Same : slot_at file' i = nonce ++ ct) by (unfold slot_at, file'; rewrite <- Lc at 1; apply slice_splice; lia).
  assert (Other : forall j, j <> i -> slot_at file' j = slot_at file j).
  { intros j Hj. unfold slot_at, file'. apply slice_splice_ne; [lia|]. rewrite Lc. pose proof (slot_disjoint i j). lia. }
  assert (Hsi : sealed_in key file' i (set_len P d)) by (exists nonce, ct; done).
  assert (Hso : forall j msg, j <> i -> sealed_in key file j msg -> sealed_in key file' j msg).
  { intros j msg Hj (n & c & E & ?). exists n, c. by rewrite Other. }
  split_and!.
  - unfold file'. rewrite length_splice; lia.
  - destruct Hh as (salt & vn & vct & E & Hh). exists salt, vn, vct. split; [|done]. rewrite <- E. unfold file'.
    apply slice_splice_ne; [lia|]. left. pose proof (slot_after_header i). lia.
  - intros j Hj. destruct (decide (j = i)) as [->|Hne].
    + right. exists (set_len P d). split; [apply length_set_len|done].
    + rewrite Other by done. destruct (Hs j Hj) as [?|(msg & ? & ?)]; [by left|right; eauto].
  - intros j x [[<- <-]|[Hne Hx]]%lookup_insert_Some; [done|].
    destruct (Hm _ _ Hx) as (? & ? & ?). eauto 6.
Qed.

Lemma size_le_P i : (Z.to_nat (size i) <= P)%nat.
Proof. pose proof (size_of_range pl np total i Hg). lia. Qed.

Lemma spool_size_eq sp m i : spool_repr sp m -> sp_piece_size sp i = Ok (size i).
Proof. intros (H1 & H2 & H3 & _). unfold sp_piece_size. rewrite H1, H2, H3. by apply spool_piece_size_eq. Qed.

Lemma spool_write sp m i d : spool_repr sp m -> Z.of_nat i < np -> Z.of_nat (length d) = size i ->
  exists sp', spool_write_piece i d sp = (sp', Ok tt) /\ spool_repr sp' (<[i := d]> m).
Proof.
  intros Hr Hi Hd. unfold spool_write_piece. msteps. erewrite spool_size_eq by done. cbn beta iota.
  rewrite (proj2 (Z.eqb_eq _ _)) by done. cbn [negb random_nonce with_scratch sp_rng sp_drawn sp_key].
  destruct Hr as (H1 & H2 & H3 & Hrng & Hf). rewrite H1.
  pose proof Hf as (Hl & (salt & vn & vct & _ & _ & _ & Ha & _) & _). pose proof (slot_fits i Hi) as Hfit.
  destruct (seal_Some (sp_key sp) (sp_rng sp (sp_drawn sp)) (piece_aad i) (set_len P d)) as [ct Hct].
  { by eapply argon_length. }
  { done. }
  { rewrite length_set_len. destruct Hg as (? & _). lia. }
  { unfold piece_aad. rewrite !length_app, length_to_be. cbn. lia. }
  unfold encrypt_with_aad. rewrite Hct. cbn [ok_or mbind result_bind]. rewrite slot_offset_eq by done. cbn beta iota.
  cbn [with_file sp_file sp_key sp_piece_length sp_num_pieces sp_total_length sp_write_scratch sp_rng sp_drawn].
  set (nonce := sp_rng sp (sp_drawn sp)) in *. assert (Ln : length nonce = NONCE_LEN) by apply Hrng.
  assert (Lc : length ct = (P + TAG_LEN)%nat) by (rewrite (seal_length _ _ _ _ _ Hct), length_set_len; done).
  unfold NONCE_LEN, TAG_LEN in Ln, Lc. rewrite Nat2Z.id.
  change (sp_file (with_scratch (set_len P d) sp)) with (sp_file sp).
  rewrite (write_at_in (slot_pos i) nonce) by lia.
  rewrite write_at_in by (rewrite length_splice; lia). rewrite splice_splice by lia.
  eexists. split; [done|]. split_and!; cbn; try done. by apply fill_slot.
Qed.

(** A read inside the piece opens the slot and cuts the plaintext. *)
Lemma spool_read_eq sp m i b n : spool_repr sp m -> Z.of_nat i < np -> in_u 32 b = true -> in_u 32 n = true ->
  spool_read_range i b n sp =
    if size i <? b + n then Err (EIo "spool read past piece end")
    else msg ← decrypt_with_aad (sp_key sp) (slice (slot_at (sp_file sp) i) 0 12)
                 (slice (slot_at (sp_file sp) i) 12 (P + 16)) (piece_aad i);
         Ok (slice msg (Z.to_nat b) (Z.to_nat n)).
Proof.
  intros Hr Hi Hb%in_u_spec Hn%in_u_spec. unfold spool_read_range. erewrite spool_size_eq by done.
  cbn [mbind result_bind]. rewrite (checked_small 64 (b + n)) by lia. cbn [mbind result_bind].
  destruct (Z.ltb_spec (size i) (b + n)) as [?|Hin]; [done|]. pose proof (slot_fits i Hi) as Hfit.
  destruct Hr as (H1 & H2 & H3 & _ & Hl & _). rewrite H1, slot_offset_eq by done. cbn [mbind result_bind].
  pose proof Hg as (Hp & _). unfold NONCE_LEN, TAG_LEN in *. rewrite Nat2Z.id. unfold read_at.
  rewrite !(proj2 (Nat.leb_le (slot_pos i + 12) _)) by lia. cbn [mbind result_bind].
  rewrite (checked_small 64 (pl + _)) by lia. cbn [mbind result_bind].
  rewrite (proj2 (Nat.leb_le _ _)) by lia. cbn [mbind result_bind].
  unfold slot_at. rewrite !slice_of_slice by lia. rewrite Nat.add_0_r.
  replace (Z.to_nat (pl + Z.of_nat 16)) with (P + 16)%nat by lia.
  unfold decrypt_with_aad. set (nonce := slice _ _ 12). set (ct := slice _ _ (P + 16)).
  destruct (unseal _ _ _ _) as [msg|] eqn:E; [|done]. cbn [ok_or mbind result_bind].
  assert (Lm : length msg = P).
  { apply unseal_iff, seal_length in E. unfold ct, TAG_LEN in E. rewrite length_slice in E by lia. lia. }
  pose proof (size_le_P i). assert (Lt : length (take (Z.to_nat (size i)) msg) = Z.to_nat (size i)) by (rewrite length_take; lia).
  rewrite Lt. destruct (_ && _) eqn:Ef.
  - apply andb_true_iff in Ef as [->%Z.eqb_eq Ee%Z.eqb_eq]. f_equal. unfold slice. rewrite drop_0. f_equal. lia.
  - rewrite slice_range_Ok by lia. f_equal. unfold slice. rewrite skipn_firstn_comm, take_take. f_equal. lia.
Qed.

Lemma read_sealed sp m i msg : spool_repr sp m -> length msg = P -> sealed_in (sp_key sp) (sp_file sp) i msg ->
  decrypt_with_aad (sp_key sp) (slice (slot_at (sp_file sp) i) 0 12)
    (slice (slot_at (sp_file sp) i) 12 (P + 16)) (piece_aad i) = Ok msg.
Proof.
  intros Hr Hm (nonce & ct & -> & Ln & Hs). unfold NONCE_LEN in Ln. pose proof (seal_length _ _ _ _ _ Hs) as Lc.
  rewrite slice_app_l by lia. rewrite (slice_all nonce) by done. rewrite slice_app_r, Ln, Nat.sub_diag by lia.
  rewrite slice_all by (unfold TAG_LEN in Lc; lia). unfold decrypt_with_aad.
  by rewrite (proj2 (unseal_iff _ _ _ msg _)).
Qed.

#[export] Instance spool_laws : PieceStoreLaws EncryptedSpool size (fun i => Z.of_nat i < np) spool_repr.
Proof.
  constructor; cbn [ps_write ps_read spool_store].
  - intros sp m i d. apply spool_write.
  - intros sp m i d Hr _ Hd. unfold spool_write_piece. msteps. erewrite spool_size_eq by done. cbn beta iota.
    rewrite (proj2 (Z.eqb_neq _ _)) by done. cbn [negb]. eauto.
  - intros sp m i d b n Hr Hd Hi Hb Hn Hbn. pose proof (size_of_range pl np total i Hg). pose proof Hg as (Hp & _).
    rewrite (spool_read_eq sp m) by (done || apply in_u_spec; lia). rewrite (proj2 (Z.ltb_ge _ _)) by lia.
    destruct (proj2 (proj2 (proj2 (proj2 (proj2 (proj2 (proj2 Hr)))))) i d Hd) as (_ & Ld & Hs).
    rewrite (read_sealed sp m i (set_len P d)) by (done || apply length_set_len). cbn [mbind result_bind]. f_equal.
    rewrite padded by lia. apply slice_app_l. lia.
  - intros sp m i b n Hr Hi Hb Hn Hbn. rewrite (spool_read_eq sp m) by done.
    rewrite (proj2 (Z.ltb_lt _ _)) by lia. eauto.
  - intros sp m i b n Hr Hi Hb Hn. rewrite (spool_read_eq sp m) by done. destruct (_ <? _); [done|].
    unfold decrypt_with_aad. by destruct (unseal _ _ _ _).
Qed.

(** *** Opening *)

Lemma length_header salt n p vn vct : length salt = SALT_LEN -> length vn = NONCE_LEN -> length vct = (16 + TAG_LEN)%nat ->
  length (header_bytes salt n p vn vct) = 76%nat.
Proof.
  intros Hs Hn Hc. unfold header_bytes. rewrite !length_app, !length_to_le32, Hs, Hn, Hc. done.
Qed.

Lemma open_created rng salt key file m : (forall n, length (rng n) = NONCE_LEN) -> file_repr key file m ->
  exists sp, open_or_create rng salt pass pl np total file = (file, Ok sp) /\ sp_key sp = key /\ sp_file sp = file /\
    spool_repr sp m.
Proof.
  intros Hrng Hf. pose proof Hf as (Hl & (s & vn & vct & Eh & Ls & Ln & Ha & Hv) & _). unfold open_or_create. msteps.
  assert (Hne : (length file =? 0)%nat = false) by (apply Nat.eqb_neq; unfold file_len, slot_pos in Hl; lia).
  rewrite Hne. destruct Hg as (Hp & Hn & _). pose proof (seal_length _ _ _ _ _ Hv) as Lv.
  assert (Er : read_header file = Ok (s, np, pl, vn, vct)).
  { rewrite (slice_split file 76), Eh. apply read_header_roundtrip; (done || lia). }
  rewrite Er. cbn beta iota. rewrite !Z.eqb_refl. cbn [negb]. unfold derive_key. rewrite Ha. cbn [ok_or].
  unfold decrypt, decrypt_with_aad. rewrite (proj2 (unseal_iff _ _ _ _ _) Hv). cbn [ok_or map_err].
  rewrite bytes_eqb_refl. cbn [negb]. eexists. split; [done|]. done.
Qed.

Lemma create_fresh rng salt key : (forall n, length (rng n) = NONCE_LEN) -> length salt = SALT_LEN ->
  argon pass salt = Some key ->
  exists file sp, open_or_create rng salt pass pl np total [] = (file, Ok sp) /\ sp_key sp = key /\ sp_file sp = file /\
    spool_repr sp ∅.
Proof.
  intros Hrng Hs Ha. pose proof Hg as (Hp & Hn & _). unfold open_or_create. msteps. cbn [length Nat.eqb].
  unfold derive_key. rewrite Ha. cbn [ok_or]. unfold encrypt, encrypt_with_aad.
  destruct (seal_Some key (rng 0%nat) [] VERIFIER_PLAINTEXT) as [vct Hv]; [by eapply argon_length|done|cbn; lia|cbn; lia|].
  rewrite Hv. cbn [ok_or mbind result_bind]. unfold write_header, modify. rewrite wrap_small by lia. rewrite slot_size_eq.
  pose proof (seal_length _ _ _ _ _ Hv) as Lv. set (h := header_bytes salt np pl (rng 0%nat) vct).
  assert (Lh : length h = 76%nat) by (apply length_header; done).
  assert (Hb : 0 <= np * (pl + 28) <= (2 ^ 32 - 1) * (2 ^ 30 + 28)) by nia.
  cbn beta iota. rewrite (checked_small 64 (np * _)) by lia. unfold HEADER_LEN, SALT_LEN, NONCE_LEN, TAG_LEN.
  rewrite checked_small by lia. cbn beta iota.
  assert (E : set_len (Z.to_nat (4 + 1 + 3 + Z.of_nat 16 + 4 + 4 + Z.of_nat 12 + (16 + Z.of_nat 16) + np * (pl + 28)))
    (write_at 0 h []) = h ++ replicate (Z.to_nat np * (P + 28)) Byte.x00).
  { assert (write_at 0 h [] = h) as ->.
    { unfold write_at. destruct h as [|x h']; [done|]. unfold splice, set_len. cbn. by rewrite ?drop_nil, ?app_nil_r. }
    unfold set_len. rewrite take_ge by lia. do 2 f_equal. lia. }
  rewrite E. do 2 eexists. split; [done|]. split; [done|]. split; [done|]. split_and!; try done. cbn [sp_file sp_key id].
  assert (Lf : length (h ++ replicate (Z.to_nat np * (P + 28)) Byte.x00) = file_len).
  { rewrite length_app, length_replicate. unfold file_len, slot_pos. lia. }
  split_and!; [done|..|by intros ? ? ?%lookup_empty_Some].
  - exists salt, (rng 0%nat), vct. split_and!; try done. rewrite slice_app_l by lia. by apply slice_all.
  - intros i Hi. left. unfold slot_at. pose proof (slot_after_header i). pose proof (slot_fits i Hi).
    rewrite slice_app_r by lia. unfold slice. rewrite drop_replicate, take_replicate. f_equal.
    unfold file_len in *. rewrite Lh. unfold slot_pos in *. lia.
Qed.

(** *** Recovering *)

Lemma decrypt_slot sp m i msg : spool_repr sp m -> Z.of_nat i < np ->
  decrypt_with_aad (sp_key sp) (slice (slot_at (sp_file sp) i) 0 12)
    (slice (slot_at (sp_file sp) i) 12 (P + 16)) (piece_aad i) = Ok msg <->
  length msg = P /\ sealed_in (sp_key sp) (sp_file sp) i msg.
Proof.
  intros Hr Hi. split; [|intros [? ?]; by eapply read_sealed].
  unfold decrypt_with_aad. destruct (unseal _ _ _ _) as [x|] eqn:E; [|done]. intros [= ->].
  apply unseal_iff in E. destruct Hr as (_ & _ & _ & _ & Hl & _). pose proof (slot_fits i Hi).
  assert (Lslot : length (slot_at (sp_file sp) i) = (P + 28)%nat) by (unfold slot_at; rewrite length_slice; lia).
  pose proof (seal_length _ _ _ _ _ E) as Lm. rewrite length_slice in Lm by lia. unfold TAG_LEN in Lm. split; [lia|].
  do 2 eexists. split; [|split; [|exact E]]; [|by rewrite length_slice by lia].
  rewrite (slice_split (slot_at _ i) 12) at 1. f_equal. unfold slice. rewrite take_ge; [done|]. rewrite length_drop. lia.
Qed.

(** What the scans find in slot [i]. *)
Definition found (sha1 : bytes -> bytes) (hashes : list bytes) (key file : bytes) (i : nat) (x : bytes) : Prop :=
  exists h msg, hashes !! i = Some h /\ verify_piece sha1 x h = true /\
    length msg = Z.to_nat pl /\ sealed_in key file i msg /\ x = take (Z.to_nat (size i)) msg.

(** One turn of the loop. *)
Lemma recover_slot sha1 hashes sp m i : spool_repr sp m -> Z.of_nat i < np ->
  exists fs, match spool_read_range i 0 (wrap 32 (size i)) sp with
      | Ok piece => match hashes !! i with Some h => Ok (if verify_piece sha1 piece h then [(i, piece)] else []) | None => Ok [] end
      | Err _ => Ok [] | Panic => Panic | NoFuel => NoFuel end = Ok fs /\
    (fs = [] \/ exists x, fs = [(i, x)]) /\ forall x, (i, x) ∈ fs <-> found sha1 hashes (sp_key sp) (sp_file sp) i x.
Proof.
  intros Hr Hi. pose proof (size_of_range pl np total i Hg) as Hs. pose proof Hg as (Hp & _).
  rewrite wrap_small by lia. rewrite (spool_read_eq sp m) by (done || lia || (apply in_u_spec; lia)).
  rewrite (proj2 (Z.ltb_ge _ _)) by lia. pose proof (fun msg => decrypt_slot sp m i msg Hr Hi) as Hdec.
  set (dec := decrypt_with_aad _ _ _ _) in *.
  assert (Hret : returns dec = true) by (unfold dec, decrypt_with_aad; by destruct (unseal _ _ _ _)). clearbody dec.
  assert (Hno : (forall msg h, dec = Ok msg -> hashes !! i = Some h -> verify_piece sha1 (take (Z.to_nat (size i)) msg) h = false) ->
    forall x, (i, x) ∈ [] <-> found sha1 hashes (sp_key sp) (sp_file sp) i x).
  { intros Hn x. split; [by intros ?%elem_of_nil|]. intros (h & msg & Hh & Hv & Hl & Hse & ->).
    rewrite (Hn msg h) in Hv; [done|by apply Hdec|done]. }
  destruct dec as [msg|e| |]; [..|done|done]; cbn [mbind result_bind].
  - change (slice msg (Z.to_nat 0) ?n) with (take n msg). destruct (hashes !! i) as [h|] eqn:Eh.
    2:{ exists []. split_and!; [done|by left|]. by apply Hno. }
    destruct (verify_piece sha1 (take (Z.to_nat (size i)) msg) h) eqn:Ev.
    + exists [(i, take (Z.to_nat (size i)) msg)]. split_and!; [done|by right; eauto|]. intros x.
      rewrite list_elem_of_singleton. split.
      * intros [= ->]. exists h, msg. destruct (proj1 (Hdec msg) eq_refl). done.
      * intros (h' & msg' & _ & _ & Hl & Hse & ->). f_equal. f_equal.
        assert (Ok msg = Ok msg') as [= ->] by (by apply Hdec). done.
    + exists []. split_and!; [done|by left|]. apply Hno. intros ? ? [= <-] [= <-]. done.
  - exists []. split_and!; [done|by left|]. by apply Hno.
Qed.

Lemma recover_eq sha1 hashes sp m k : spool_repr sp m -> forall i, Z.of_nat (i + k) <= np ->
  exists ps, recover sha1 hashes sp i k = Ok ps /\ StronglySorted lt ps.*1 /\
    forall j x, (j, x) ∈ ps <-> (i <= j < i + k)%nat /\ found sha1 hashes (sp_key sp) (sp_file sp) j x.
Proof.
  intros Hr. induction k as [|k IH]; intros i Hi; cbn [recover].
  { exists []. split_and!; [done|constructor|]. intros j x. split; [by intros ?%elem_of_nil|lia]. }
  erewrite spool_size_eq by done. cbn [mbind result_bind].
  destruct (IH (S i) ltac:(lia)) as (ps & E & Hsort & Hps).
  destruct (recover_slot sha1 hashes sp m i Hr ltac:(lia)) as (fs & -> & Hfs & Hx). cbn [mbind result_bind]. rewrite E. cbn [mbind result_bind].
  exists (fs ++ ps). split; [done|]. split.
  - destruct Hfs as [->|(x & ->)]; [done|]. cbn. constructor; [done|]. apply Forall_fmap, list.Forall_forall.
    intros [j y] Hj%Hps. cbn. lia.
  - intros j x. rewrite elem_of_app, Hps. split.
    + intros [Hin|[? ?]]; [|split; [lia|done]]. assert (j = i) as ->.
      { destruct Hfs as [->|(y & ->)]; [by apply elem_of_nil in Hin|]. apply list_elem_of_singleton in Hin. congruence. }
      split; [lia|]. by apply Hx.
    + intros [Hj Hf]. destruct (decide (j = i)) as [->|]; [left; by apply Hx|right; split; [lia|done]].
Qed.

(** A session over an open spool. *)
Lemma spool_session sp m cmds : spool_repr sp m -> Forall (cmd_ok (fun i => Z.of_nat i < np)) cmds ->
  exists sp' out, serve cmds sp = (sp', out, Ok tt) /\ spec_run size m cmds out /\
    sp_key sp' = sp_key sp /\ spool_repr sp' (spec_final size m cmds).
Proof.
  intros Hr Hc. destruct (serve_refines _ _ _ cmds _ _ Hr Hc) as (sp' & out & E & Ho & Hr').
  exists sp', out. split_and!; try done. by eapply (serve_key cmds sp).
Qed.
End laws.

(** ** Theorems *)

Section theorems.
Context `{AeadLaws} (l : Layout) (Hok : layout_ok l) (Hpl : l_piece_length l <= 2 ^ 30)
  (Hnp : Z.of_nat (l_num_pieces l) < 2 ^ 32).
#[local] Abbreviation pl := (l_piece_length l).
#[local] Abbreviation np := (Z.of_nat (l_num_pieces l)).
#[local] Abbreviation size := (size_of (l_piece_length l) (Z.of_nat (l_num_pieces l)) (l_total_length l)).

Lemma layout_geometry : geometry_ok pl np (l_total_length l).
Proof.
  destruct Hok as (_ & _ & Ht & Hp & Hn). unfold geometry_ok. split; [lia|]. split; [|lia].
  pose proof (div_ceil_bounds (l_total_length l) pl Ht). change (Z.shiftl 1 30) with (2 ^ 30) in *. lia.
Qed.

(** A first session on a file that does not exist yet. *)
Lemma first_session rng salt pass key cmds : (forall n, length (rng n) = NONCE_LEN) -> length salt = SALT_LEN ->
  argon pass salt = Some key -> Forall (cmd_ok (fun i => Z.of_nat i < np)) cmds ->
  exists file out, run_encrypted_storage rng salt pass l cmds [] = (file, out, Ok tt) /\ spec_run size ∅ cmds out /\
    file_repr pl np (l_total_length l) pass key file (spec_final size ∅ cmds).
Proof.
  intros Hr Hs Ha Hc. pose proof layout_geometry as Hg.
  destruct (create_fresh _ _ _ Hg Hpl pass rng salt key Hr Hs Ha) as (f0 & sp & E & Ek & _ & R).
  destruct (spool_session _ _ _ Hg Hpl pass sp ∅ cmds R Hc) as (sp' & out & Es & Ho & Ek' & R').
  exists (sp_file sp'), out. unfold run_encrypted_storage. rewrite wrap_small by lia. rewrite E, Es.
  split_and!; [done|done|]. rewrite <- Ek, <- Ek'. apply R'.
Qed.

(** A later session on the file of an earlier one. *)
Lemma later_session rng salt pass key file m cmds : (forall n, length (rng n) = NONCE_LEN) ->
  file_repr pl np (l_total_length l) pass key file m -> Forall (cmd_ok (fun i => Z.of_nat i < np)) cmds ->
  exists file' out, run_encrypted_storage rng salt pass l cmds file = (file', out, Ok tt) /\ spec_run size m cmds out /\
    file_repr pl np (l_total_length l) pass key file' (spec_final size m cmds).
Proof.
  intros Hr Hf Hc. pose proof layout_geometry as Hg.
  destruct (open_created _ _ _ Hg Hpl pass rng salt key file m Hr Hf) as (sp & E & Ek & _ & R).
  destruct (spool_session _ _ _ Hg Hpl pass sp m cmds R Hc) as (sp' & out & Es & Ho & Ek' & R').
  exists (sp_file sp'), out. unfold run_encrypted_storage. rewrite wrap_small by lia. rewrite E, Es.
  split_and!; [done|done|]. rewrite <- Ek, <- Ek'. apply R'.
Qed.

(** C37: the encrypted spool keeps what it stored and stores nothing in the clear.
    A session that creates the spool and a later one with the same passphrase
    answer every command as the map of pieces would, the second still having the
    pieces of the first; and after both every slot is untouched or holds one
    message sealed under the key for exactly that slot. *)
Theorem spool_sessions rng1 rng2 salt1 salt2 pass key cmds1 cmds2 :
  (forall n, length (rng1 n) = NONCE_LEN) -> (forall n, length (rng2 n) = NONCE_LEN) -> length salt1 = SALT_LEN ->
  argon pass salt1 = Some key -> Forall (cmd_ok (fun i => Z.of_nat i < np)) (cmds1 ++ cmds2) ->
  exists file1 out1 file2 out2,
    run_encrypted_storage rng1 salt1 pass l cmds1 [] = (file1, out1, Ok tt) /\ spec_run size ∅ cmds1 out1 /\
    run_encrypted_storage rng2 salt2 pass l cmds2 file1 = (file2, out2, Ok tt) /\
    spec_run size (spec_final size ∅ cmds1) cmds2 out2 /\ slots_sealed pl np key file2.
Proof.
  intros H1 H2 Hs Ha [C1 C2]%list.Forall_app.
  destruct (first_session rng1 salt1 pass key cmds1 H1 Hs Ha C1) as (f1 & o1 & E1 & S1 & R1).
  destruct (later_session rng2 salt2 pass key f1 _ cmds2 H2 R1 C2) as (f2 & o2 & E2 & S2 & R2).
  exists f1, o1, f2, o2. split_and!; try done. apply R2.
Qed.

(** What was downloaded can be extracted.  After a session, the resume scan
    and the decrypt command open the spool with the same passphrase and return,
    in ascending order, only pieces that verify against their hash, among them
    every piece that was written and verifies. *)
Lemma spool_recovery sha1 rng1 rng2 salt1 salt2 pass key cmds hashes :
  (forall n, length (rng1 n) = NONCE_LEN) -> (forall n, length (rng2 n) = NONCE_LEN) -> length salt1 = SALT_LEN ->
  argon pass salt1 = Some key -> Forall (cmd_ok (fun i => Z.of_nat i < np)) cmds ->
  exists file out ps, run_encrypted_storage rng1 salt1 pass l cmds [] = (file, out, Ok tt) /\
    decrypt_all_pieces sha1 rng2 salt2 pass l hashes (Some file) = Ok ps /\
    scan_spool_resume sha1 rng2 salt2 pass l hashes (Some file) = Ok ps.*1 /\ StronglySorted lt ps.*1 /\
    (forall i x, (i, x) ∈ ps -> (i < l_num_pieces l)%nat /\ Z.of_nat (length x) = size i /\ exists h, hashes !! i = Some h /\ verify_piece sha1 x h = true) /\
    (forall i d h, spec_final size ∅ cmds !! i = Some d -> hashes !! i = Some h -> verify_piece sha1 d h = true ->
       (i, d) ∈ ps).
Proof.
  intros H1 H2 Hs Ha Hc. pose proof layout_geometry as Hg.
  destruct (first_session rng1 salt1 pass key cmds H1 Hs Ha Hc) as (file & out & E & _ & R).
  destruct (open_created _ _ _ Hg Hpl pass rng2 salt2 key file _ H2 R) as (sp & Eo & Ek & Ef & Rs).
  destruct (recover_eq _ _ _ Hg Hpl pass sha1 hashes sp _ (Z.to_nat np) Rs 0) as (ps & Ep & Hsort & Hps); [lia|].
  exists file, out, ps. unfold decrypt_all_pieces, scan_spool_resume. rewrite wrap_small by lia.
  rewrite Eo. cbn [snd mbind result_bind]. rewrite Ep. cbn [mbind result_bind]. split_and!; try done.
  - intros i x (Hi & h & msg & Hh & Hv & Lm & _ & ->)%Hps. pose proof (size_of_range _ _ _ i Hg). rewrite length_take. split_and!; [lia|lia|eauto].
  - intros i d h Hd Hh Hv. destruct R as (_ & _ & _ & Hm). destruct (Hm i d Hd) as (Hi & Ld & Hse).
    apply Hps. split; [lia|]. exists h, (set_len (Z.to_nat pl) d). rewrite Ek, Ef. split_and!; try done.
    + apply length_set_len.
    + pose proof (size_of_range _ _ _ i Hg). rewrite <- Ld, Nat2Z.id. symmetry. apply take_set_len. lia.
Qed.
End theorems.

(** No two slots share their associated data. *)
Lemma piece_aad_inj i j : Z.of_nat i < 2 ^ 32 -> Z.of_nat j < 2 ^ 32 -> piece_aad i = piece_aad j -> i = j.
Proof.
  intros Hi Hj E. unfold piece_aad in E. do 2 apply app_inv_head in E. apply (f_equal from_be) in E. rewrite !from_to_be in E by lia. lia.
Qed.

(** *** The header, byte by byte *)

(** A little-endian number of four bytes. *)
Definition le32_is (b : bytes) (n : Z) : Prop :=
  match b with [w; x; y; z] => n = b2z w + 256 * b2z x + 65536 * b2z y + 16777216 * b2z z | _ => False end.

(** The fields of a spool file at their offsets: magic and version, salt, the two sizes, nonce and ciphertext of the verifier. *)
Definition header_says (file salt : bytes) (num_pieces piece_length : Z) (nonce verifier : bytes) : Prop :=
  (76 <= length file)%nat /\ take 4 file = bs "RTSP" /\ file !! 4%nat = Some Byte.x02 /\
  salt = take 16 (drop 8 file) /\ le32_is (take 4 (drop 24 file)) num_pieces /\ le32_is (take 4 (drop 28 file)) piece_length /\
  nonce = take 12 (drop 32 file) /\ verifier = take 32 (drop 44 file).

Lemma le32_value b n : length b = 4%nat -> from_le32 b = n <-> le32_is b n.
Proof.
  intros Hb. destruct b as [|w [|x [|y [|z [|? ?]]]]]; try done. unfold le32_is, from_le32. change (rev [w; x; y; z]) with [z; y; x; w]. unfold from_be. cbn [foldl fold_left]. lia.
Qed.

Lemma read_at_inv off n c x : read_at off n c = Ok x <-> (off + n <= length c)%nat /\ x = take n (drop off c).
Proof. unfold read_at, slice. destruct (Nat.leb_spec (off + n) (length c)); split; try done; [by intros [= <-]|by intros [_ ->]|lia]. Qed.

Lemma version_at (file : bytes) v : (5 <= length file)%nat -> index (take 1 (drop 4 file)) 0 = Ok v <-> file !! 4%nat = Some v.
Proof.
  intros Hl. destruct (lookup_lt_is_Some_2 file 4) as [w Hw]; [lia|]. rewrite (drop_S _ _ _ Hw), Hw. cbn. split; by intros [= ->].
Qed.

Lemma read_header_says file s np pl vn vct : read_header file = Ok (s, np, pl, vn, vct) <-> header_says file s np pl vn vct.
Proof.
  unfold read_header, header_says, SALT_LEN, NONCE_LEN, TAG_LEN. change (length VERIFIER_PLAINTEXT + 16)%nat with 32%nat. split.
  - intros E. apply bind_Ok in E as (magic & [_ ->]%read_at_inv & E). rewrite drop_0 in E. destruct (bytes_eqb (take 4 file) MAGIC) eqn:Em; [|done]. apply bytes_eqb_eq in Em. cbn [negb] in E.
    apply bind_Ok in E as (ver & [H4 ->]%read_at_inv & E). apply bind_Ok in E as (v & Hv & E). apply version_at in Hv; [|lia].
    destruct (Z.eqb_spec (b2z v) VERSION) as [Ev|]; [|done]. apply bind_Ok in E as (? & _ & E).
    apply bind_Ok in E as (? & [_ ->]%read_at_inv & E). apply bind_Ok in E as (? & [_ ->]%read_at_inv & E). apply bind_Ok in E as (? & [_ ->]%read_at_inv & E).
    apply bind_Ok in E as (? & [_ ->]%read_at_inv & E). apply bind_Ok in E as (? & [Hl ->]%read_at_inv & E). injection E as <- E1 E2 <- <-.
    split_and!; try done; [rewrite Hv; f_equal; by apply b2z_inj|..]; apply le32_value; try done; rewrite length_take, length_drop; lia.
  - intros (Hl & Hm & Hv & -> & Hn%le32_value & Hp%le32_value & -> & ->); [|rewrite length_take, length_drop; lia..].
    assert (R : forall off n, (off + n <= 76)%nat -> read_at off n file = Ok (take n (drop off file))) by (intros; apply read_at_inv; split; [lia|done]).
    rewrite !R by lia. cbn [mbind result_bind]. rewrite drop_0, Hm. change (bytes_eqb (bs "RTSP") MAGIC) with true. cbn [negb].
    rewrite (proj2 (version_at file Byte.x02 ltac:(lia)) Hv). cbn [mbind result_bind]. change (b2z Byte.x02 =? VERSION) with true. cbn [negb]. by rewrite Hn, Hp.
Qed.

(** C40: an existing spool is opened only with its own passphrase and sizes.  On any
    non-empty file the open never panics and never changes the file.  It succeeds
    exactly when the file has at least the 76 bytes of a header, begins with RTSP
    and version 2, has the asked number of pieces and piece length as the
    little-endian numbers at offsets 24 and 28, and the key derived from the
    passphrase and the salt at offset 8 opens the 32 bytes at offset 44, under the
    nonce at offset 32, to sixteen zeros; the spool then has that key and those
    sizes and has drawn no nonce. *)
Theorem spool_open_closed `{Aead} rng salt pass pl np total file : file <> [] ->
  let run := open_or_create rng salt pass pl np total file in
  run.1 = file /\ returns run.2 = true /\
  forall sp, run.2 = Ok sp <-> exists s vn vct key, header_says file s np pl vn vct /\
     argon pass s = Some key /\ unseal key vn [] vct = Some (replicate 16 Byte.x00) /\ sp = mkSpool file key pl np total [] rng 0.
Proof.
  intros Hne run. unfold run, open_or_create. msteps. destruct file as [|b0 file]; [done|]. cbn [length Nat.eqb].
  set (f := b0 :: file). pose proof (read_header_returns f) as Hret. setoid_rewrite <- read_header_says.
  destruct (read_header f) as [[[[[s snp] spl] vn] vct]|e| |]; [|by split_and!; [..|intros sp; split; [|intros (? & ? & ? & ? & ? & _)]]|done|done].
  cbn beta iota. destruct (Z.eqb_spec snp np) as [->|Hn]; cbn [negb].
  2:{ split_and!; [done..|]. split; [done|]. intros (? & ? & ? & ? & [=] & _). congruence. }
  destruct (Z.eqb_spec spl pl) as [->|Hp]; cbn [negb].
  2:{ split_and!; [done..|]. split; [done|]. intros (? & ? & ? & ? & [=] & _). congruence. }
  unfold derive_key, decrypt, decrypt_with_aad. destruct (argon pass s) as [key|] eqn:Ea; cbn [ok_or].
  2:{ split_and!; [done..|]. split; [done|]. intros (? & ? & ? & ? & [=] & ? & _). congruence. }
  destruct (unseal key vn [] vct) as [z|] eqn:Eu; cbn [ok_or map_err].
  2:{ split_and!; [done..|]. split; [done|]. intros (? & ? & ? & ? & [=] & ? & ? & _). by simplify_eq. }
  destruct (bytes_eqb z VERIFIER_PLAINTEXT) eqn:Ez; cbn [negb].
  - apply bytes_eqb_eq in Ez as ->. split_and!; [done..|]. intros sp. split; [intros [= <-]; eauto 10|]. intros (? & ? & ? & ? & [=] & ? & _ & ->). by simplify_eq.
  - split_and!; [done..|]. split; [done|]. intros (? & ? & ? & ? & [=] & ? & Hz & _). by simplify_eq.
Qed.

(** *** A stand-in for the primitives, for the examples *)

(** The tag is constant, the key the first 32 bytes of passphrase and salt. *)
Definition toy_tag : bytes := replicate TAG_LEN Byte.x01.

Definition toy_unseal (ct : bytes) : option bytes :=
  if decide (TAG_LEN <= length ct /\ drop (length ct - TAG_LEN) ct = toy_tag)%nat
  then Some (take (length ct - TAG_LEN) ct) else None.

#[local] Instance toy_aead : Aead := {
  seal := fun _ _ _ msg => Some (msg ++ toy_tag);
  unseal := fun _ _ _ ct => toy_unseal ct;
  argon := fun pass salt => Some (set_len KEY_LEN (pass ++ salt));
}.

#[local] Instance toy_laws : AeadLaws.
Proof.
  constructor; cbn [seal unseal argon toy_aead].
  - eauto.
  - intros _ _ _ msg ct [= <-]. by rewrite length_app.
  - intros _ _ _ msg ct. unfold toy_unseal. split.
    + case_decide as E; [|done]. destruct E as [_ E]. intros [= <-]. by rewrite <- E, take_drop.
    + intros [= <-]. rewrite length_app. change (length toy_tag) with TAG_LEN. rewrite Nat.add_sub.
      rewrite take_app_length, drop_app_length, decide_True by (split; [lia|done]). done.
  - intros pass salt key [= <-]. apply length_set_len.
Qed.

Definition toy_rng (n : nat) : bytes := replicate NONCE_LEN (z2b (Z.of_nat n)).
Definition toy_salt : bytes := replicate SALT_LEN "s"%byte.
Definition spool_cmds : list StorageCommand := [Write 1 (replicate 100 "x"%byte); Read 1 5 3].

Lemma layout_ex_ok : layout_ok layout_ex.
Proof. vm_compute. intuition discriminate. Defined.

Lemma spool_sessions_witness :
  exists file1 out1 file2 out2,
    run_encrypted_storage toy_rng toy_salt (bs "pw") layout_ex spool_cmds [] = (file1, out1, Ok tt) /\
    run_encrypted_storage toy_rng [] (bs "pw") layout_ex [Read 1 0 2] file1 = (file2, out2, Ok tt) /\
    spec_run (size_of 100 3 300) (<[1%nat := replicate 100 "x"%byte]> ∅) [Read 1 0 2] out2.
Proof.
  destruct (spool_sessions layout_ex layout_ex_ok ltac:(vm_compute; discriminate) ltac:(vm_compute; reflexivity)
    toy_rng toy_rng toy_salt [] (bs "pw") (set_len KEY_LEN (bs "pw" ++ toy_salt)) spool_cmds [Read 1 0 2])
    as (f1 & o1 & f2 & o2 & H1 & _ & H2 & H3 & _).
  - reflexivity.
  - reflexivity.
  - reflexivity.
  - reflexivity.
  - repeat constructor.
  - exists f1, o1, f2, o2. split; [exact H1|]. split; [exact H2|exact H3].
Defined.

Lemma spool_recovery_witness :
  exists file out ps, run_encrypted_storage toy_rng toy_salt (bs "pw") layout_ex spool_cmds [] = (file, out, Ok tt) /\
    decrypt_all_pieces (take 20) toy_rng [] (bs "pw") layout_ex (replicate 3 (replicate 20 "x"%byte)) (Some file) = Ok ps /\
    (1%nat, replicate 100 "x"%byte) ∈ ps.
Proof.
  destruct (spool_recovery layout_ex layout_ex_ok ltac:(vm_compute; discriminate) ltac:(vm_compute; reflexivity)
    (take 20) toy_rng toy_rng toy_salt [] (bs "pw") (set_len KEY_LEN (bs "pw" ++ toy_salt)) spool_cmds
    (replicate 3 (replicate 20 "x"%byte)))
    as (f & o & ps & H1 & H2 & _ & _ & _ & H3).
  - reflexivity.
  - reflexivity.
  - reflexivity.
  - reflexivity.
  - repeat constructor.
  - exists f, o, ps. split; [exact H1|]. split; [exact H2|]. apply (H3 1%nat _ (replicate 20 "x"%byte)).
    + vm_compute. reflexivity.
    + reflexivity.
    + vm_compute. reflexivity.
Defined.

(** A spool as it is created, the same with another magic, and a file that is none. *)
Definition spool_file_ex : bytes := (open_or_create toy_rng toy_salt (bs "pw") 100 3 300 []).1.

Lemma spool_open_closed_witness :
  (open_or_create toy_rng [] (bs "pw") 100 3 300 spool_file_ex).2 = Ok (mkSpool spool_file_ex (set_len KEY_LEN (bs "pw" ++ toy_salt)) 100 3 300 [] toy_rng 0) /\
  is_ok (open_or_create toy_rng [] (bs "pw") 100 3 300 ("X"%byte :: drop 1 spool_file_ex)).2 = false /\
  (open_or_create toy_rng toy_salt (bs "pw") 100 3 300 (bs "junk")).1 = bs "junk".
Proof.
  split_and!.
  - apply (spool_open_closed toy_rng [] (bs "pw") 100 3 300 spool_file_ex); [vm_compute; discriminate|].
    exists toy_salt, (toy_rng 0), (replicate 16 Byte.x00 ++ toy_tag), (set_len KEY_LEN (bs "pw" ++ toy_salt)).
    split; [|split; [reflexivity|split; vm_compute; reflexivity]]. split; [|vm_compute; repeat (split; [reflexivity|]); reflexivity].
    apply Nat.leb_le. vm_compute. reflexivity.
  - set (f := _ :: _). destruct (spool_open_closed toy_rng [] (bs "pw") 100 3 300 f ltac:(discriminate)) as (_ & _ & E). destruct (_).2 as [sp| | |]; try reflexivity.
    destruct (proj1 (E sp) eq_refl) as (? & ? & ? & ? & (_ & Hm & _) & _). vm_compute in Hm. discriminate Hm.
  - apply (spool_open_closed toy_rng toy_salt (bs "pw") 100 3 300 (bs "junk")). discriminate.
Defined.
