(* ===== verification/Cache.v ===== *)
(** * The piece cache: [src/src/storage/cache.rs]

    The upload side keeps whole pieces in an LRU map of the [lru] crate, which is
    the parameter [C]: its operations as a class, and what its documentation
    promises of them as laws over the map of entries it holds.  The mutex makes
    each operation atomic; the engine and its upload tasks share one cache. *)

From Stdlib Require Import ZArith Lia String Strings.Byte.
From stdpp Require Import base tactics numbers list option gmap fin_maps.
From S2P Require Import Prelude.

Class Lru (C : Type) := {
  lru_new : nat -> C;
  lru_get : Z -> C -> C * option bytes;
  lru_put : Z -> bytes -> C -> C;
  lru_pop : Z -> C -> C }.

(** [get] may reorder the entries but not change them; [put] stores its entry and may evict
    others once the capacity is reached; [pop] removes one. *)
Class LruLaws (C : Type) `{Lru C} := {
  entries : C -> gmap Z bytes;
  cap : C -> nat;
  new_entries : forall n, entries (lru_new n) = ∅ /\ cap (lru_new n) = n;
  get_entries : forall k c, snd (lru_get k c) = entries c !! k /\ entries (fst (lru_get k c)) = entries c /\
    cap (fst (lru_get k c)) = cap c;
  put_entries : forall k v c, entries (lru_put k v c) !! k = Some v /\
    (forall k' v', entries (lru_put k v c) !! k' = Some v' -> k' <> k -> entries c !! k' = Some v') /\
    (size (entries c) <= cap c -> 0 < cap c -> size (entries (lru_put k v c)) <= cap c)%nat /\ cap (lru_put k v c) = cap c;
  pop_entries : forall k c, entries (lru_pop k c) = delete k (entries c) /\ cap (lru_pop k c) = cap c }.

Definition DEFAULT_CAPACITY : nat := 32.

Section PieceCache.
Context {C : Type} `{Lru C}.

(** [NonZeroUsize::new(n).expect(..)] *)
Definition cache_new (capacity : nat) : result C :=
  let n := Nat.max capacity 1 in
  if (n =? 0)%nat then Panic else Ok (lru_new n).

Definition cache_default : result C := cache_new DEFAULT_CAPACITY.

Definition cache_get (index : Z) : M C (option bytes) := fun c => let '(c, r) := lru_get index c in (c, Ok r).
Definition cache_insert (index : Z) (data : bytes) : M C unit := modify (lru_put index data).
Definition cache_invalidate (index : Z) : M C unit := modify (lru_pop index).
End PieceCache.

Section lemmas.
Context {C : Type} `{LruLaws C}.

(** Every entry is the given function of its index. *)
Definition coherent (content : Z -> option bytes) (c : C) : Prop := forall k v, entries c !! k = Some v -> content k = Some v.

Lemma cache_get_coherent content k c : coherent content c ->
  coherent content (fst (lru_get k c)) /\ forall v, snd (lru_get k c) = Some v -> content k = Some v.
Proof.
  intros Hc. destruct (get_entries k c) as (E1 & E2 & _). split.
  - intros k' v. rewrite E2. apply Hc.
  - intros v. rewrite E1. apply Hc.
Qed.

Lemma cache_insert_coherent content k v c : coherent content c -> content k = Some v -> coherent content (lru_put k v c).
Proof.
  intros Hc Hv k' v' Hk. destruct (put_entries k v c) as (E1 & E2 & _). destruct (decide (k' = k)) as [->|Hne].
  - rewrite E1 in Hk. by injection Hk as <-.
  - apply Hc. by apply E2.
Qed.

Lemma cache_invalidate_coherent content k c : coherent content c -> coherent content (lru_pop k c).
Proof. intros Hc k' v. rewrite (proj1 (pop_entries k c)). intros [_ Hk]%lookup_delete_Some. by apply Hc. Qed.
End lemmas.

(** ** An LRU map, most recent entry first *)

Definition Assoc : Type := nat * list (Z * bytes).

Definition remove_key (k : Z) (l : list (Z * bytes)) : list (Z * bytes) := List.filter (fun e => negb (e.1 =? k)) l.

#[export] Instance assoc_lru : Lru Assoc := {
  lru_new n := (n, []);
  lru_get k c := match List.find (fun e => e.1 =? k) c.2 with
                 | Some (_, v) => ((c.1, (k, v) :: remove_key k c.2), Some v)
                 | None => (c, None)
                 end;
  lru_put k v c := (c.1, take (Nat.max 1 c.1) ((k, v) :: remove_key k c.2));
  lru_pop k c := (c.1, remove_key k c.2) }.

(** The first occurrence of a key counts. *)
Definition assoc_map (l : list (Z * bytes)) : gmap Z bytes := foldr (fun e m => <[e.1 := e.2]> m) ∅ l.

Lemma remove_key_cons k k' v l : remove_key k ((k', v) :: l) = if k' =? k then remove_key k l else (k', v) :: remove_key k l.
Proof. unfold remove_key. cbn [List.filter fst]. by destruct (k' =? k). Qed.

Lemma assoc_map_cons k v l : assoc_map ((k, v) :: l) = <[k := v]> (assoc_map l).
Proof. done. Qed.

Lemma assoc_map_remove k l : assoc_map (remove_key k l) = delete k (assoc_map l).
Proof.
  induction l as [|[k' v'] l IH]; [symmetry; apply delete_empty|]. rewrite remove_key_cons, assoc_map_cons.
  destruct (Z.eqb_spec k' k) as [->|Hne].
  - rewrite delete_insert_eq. exact IH.
  - rewrite assoc_map_cons, IH. by rewrite delete_insert_ne.
Qed.

Lemma assoc_find k (l : list (Z * bytes)) : (snd <$> List.find (fun e => e.1 =? k) l) = assoc_map l !! k.
Proof.
  induction l as [|[k' v'] l IH]; cbn; [done|]. destruct (Z.eqb_spec k' k) as [->|Hne]; cbn.
  - by rewrite lookup_insert_eq.
  - by rewrite lookup_insert_ne.
Qed.

Lemma assoc_find_key k (l : list (Z * bytes)) e : List.find (fun e => e.1 =? k) l = Some e -> e.1 = k.
Proof. intros E. apply find_some in E as [_ E]. by apply Z.eqb_eq in E. Qed.

Lemma assoc_take n l k v : assoc_map (take n l) !! k = Some v -> assoc_map l !! k = Some v.
Proof.
  revert n. induction l as [|[k' v'] l IH]; intros [|n]; cbn; try done.
  destruct (decide (k' = k)) as [->|Hne]; [by rewrite !lookup_insert_eq|]. rewrite !lookup_insert_ne by done. apply IH.
Qed.

Lemma assoc_size l : (size (assoc_map l) <= length l)%nat.
Proof. induction l as [|[k v] l IH]; [done|]. rewrite assoc_map_cons, map_size_insert. cbn [length]. destruct (assoc_map l !! k); simpl; lia. Qed.

#[export] Instance assoc_lru_laws : LruLaws Assoc.
Proof.
  refine {| entries c := assoc_map c.2; cap c := c.1 |}.
  - done.
  - intros k [n l]. cbn [lru_get assoc_lru fst snd]. rewrite <- assoc_find. destruct (List.find _ l) as [[k' v]|] eqn:E; [|done].
    apply assoc_find_key in E as Ek. cbn in Ek. subst k'. cbn [fst snd]. rewrite assoc_map_cons, assoc_map_remove, insert_delete_eq.
    split; [done|]. split; [|done]. apply insert_id. by rewrite <- assoc_find, E.
  - intros k v [n l]. cbn [lru_put assoc_lru fst snd].
    assert (Ek : assoc_map (take (Nat.max 1 n) ((k, v) :: remove_key k l)) !! k = Some v).
    { destruct (Nat.max 1 n) eqn:En; [lia|]. cbn [take]. rewrite assoc_map_cons. apply lookup_insert_eq. }
    split; [done|]. split; [|split; [|done]].
    + intros k' v' Hk Hne. apply assoc_take in Hk. rewrite assoc_map_cons, assoc_map_remove, insert_delete_eq, lookup_insert_ne in Hk by done. done.
    + intros _ Hn. etransitivity; [apply assoc_size|]. rewrite length_take. lia.
  - intros k [n l]. cbn [lru_pop assoc_lru fst snd]. by rewrite assoc_map_remove.
Defined.
