(* ===== verification/Decrypt.v ===== *)
(** * The decrypt command: [cmd_decrypt] of [src/src/main.rs]

    The command opens an encrypted spool, takes every piece that verifies, and
    has the plain-file storage task write them.  It and the task are two processes
    joined by two channels of 64 messages: the command sends all its writes and
    only then reads the confirmations.  Each process is a function that makes its
    next step, or none while it is blocked; a run is any interleaving. *)

From Stdlib Require Import ZArith Lia String Strings.Byte Sorting.Sorted.
From stdpp Require Import base tactics numbers list option gmap relations.
From S2P Require Import Prelude Bencode Picker Paths Torrent Layout Storage Spool.

#[local] Set Warnings "-register-all".

(** ** The passphrase *)

(** [terminal] is whether a user can be asked, [prompt] what the terminal returns.  Errors of the command line are kept as
    [EIo] with their text. *)
Definition resolve_passphrase (flag env : option bytes) (terminal : bool) (prompt : result bytes) : result bytes :=
  match flag with
  | Some p => Ok p
  | None =>
      match env with
      | Some (b :: p) => Ok (b :: p)
      | _ =>
          if terminal then
            p ← prompt;
            match p with [] => Err (EIo "empty passphrase") | _ => Ok p end
          else Err (EIo "--paranoid requires a passphrase")
      end
  end.

(** ** The two processes *)

Definition CHANNEL : nat := 64.

(** [Stopping] is before the shutdown command is sent, [Closing] after it. *)
Inductive MainState :=
  | Sending (rest : list (nat * bytes))
  | Draining (acked : nat)
  | Stopping
  | Closing
  | Finished
  | Failed (e : Error).

(** [Reporting] waits for room for an event; [Last] for room for the one that ends the task. *)
Inductive TaskState :=
  | Opening
  | Waiting
  | Reporting (e : StorageEvent)
  | Last (e : StorageEvent)
  | Ended.

Record Flow := mkFlow {
  f_main : MainState;
  f_cmds : list StorageCommand;
  f_task : TaskState;
  f_evs : list StorageEvent;
  f_disk : Disk;
}.

(** The task has dropped its end of the command channel. *)
Definition receiver_gone (t : TaskState) : bool := match t with Last _ | Ended => true | _ => false end.

Definition over (m : MainState) : bool := match m with Finished | Failed _ => true | _ => false end.

Definition room {A} (q : list A) : bool := (length q <? CHANNEL)%nat.

Section Decrypt.
Context (can_open : bytes -> result unit) (l : Layout).

Definition main_next (total : nat) (f : Flow) : option Flow :=
  let 'mkFlow main cmds task evs disk := f in
  match main with
  | Sending [] => Some (mkFlow (Draining 0) cmds task evs disk)
  | Sending ((index, data) :: rest) =>
      if receiver_gone task then Some (mkFlow (Failed (EIo "send Write to storage task")) cmds task evs disk)
      else if room cmds then Some (mkFlow (Sending rest) (cmds ++ [Write index data]) task evs disk)
      else None
  | Draining acked =>
      if (acked <? total)%nat then
        match evs with
        | Written _ :: evs => Some (mkFlow (Draining (S acked)) cmds task evs disk)
        | StorageError _ e :: evs => Some (mkFlow (Failed e) cmds task evs disk)
        | [] => match task with Ended => Some (mkFlow Stopping cmds task evs disk) | _ => None end
        end
      else Some (mkFlow Stopping cmds task evs disk)
  | Stopping =>
      if receiver_gone task then Some (mkFlow Closing cmds task evs disk)
      else if room cmds then Some (mkFlow Closing (cmds ++ [Shutdown]) task evs disk)
      else None
  | Closing => match task with Ended => Some (mkFlow Finished cmds task evs disk) | _ => None end
  | Finished | Failed _ => None
  end.

(** One turn of the storage task; when it ends, what waits in the channel is dropped.  A panic ends it without a word. *)
Definition task_turn (f : Flow) : option Flow :=
  let 'mkFlow main cmds task evs disk := f in
  match task with
  | Opening =>
      match open_files can_open None 0 (l_files l) (d_fs disk) with
      | (fs, Ok files) => Some (mkFlow main cmds Waiting evs (mkDisk fs files))
      | (fs, Err e) => Some (mkFlow main [] (Last (StorageError None e)) evs (mkDisk fs []))
      | (fs, _) => Some (mkFlow main [] Ended evs (mkDisk fs []))
      end
  | Waiting =>
      match cmds with
      | [] => None
      | Shutdown :: _ => Some (mkFlow main [] Ended evs disk)
      | Read _ _ _ :: cmds => Some (mkFlow main cmds Waiting evs disk)
      | Write index data :: cmds =>
          match write_piece l index data disk with
          | (disk, Ok _) => Some (mkFlow main cmds (Reporting (Written index)) evs disk)
          | (disk, Err e) => Some (mkFlow main cmds (Reporting (StorageError (Some index) e)) evs disk)
          | (disk, _) => Some (mkFlow main [] Ended evs disk)
          end
      end
  | Reporting e => if room evs then Some (mkFlow main cmds Waiting (evs ++ [e]) disk) else None
  | Last e => if room evs then Some (mkFlow main cmds Ended (evs ++ [e]) disk) else None
  | Ended => None
  end.

(** The task dies with the command. *)
Definition task_next (f : Flow) : option Flow := if over (f_main f) then None else task_turn f.

Definition flow_step (total : nat) (f f' : Flow) : Prop := main_next total f = Some f' \/ task_next f = Some f'.

Definition blocked (total : nat) (f : Flow) : Prop := main_next total f = None /\ task_next f = None.

(** A run in which [true] lets the command go and [false] the task, when they can. *)
Fixpoint run_flow (total : nat) (schedule : list bool) (f : Flow) : Flow :=
  match schedule with
  | [] => f
  | b :: schedule => run_flow total schedule (default f (if b then main_next total f else task_next f))
  end.

Definition flow_start (pieces : list (nat * bytes)) (fs : Fs) : Flow := mkFlow (Sending pieces) [] Opening [] (mkDisk fs []).
End Decrypt.

(** ** The command *)

(** [torrent] is what reading the torrent file returns, [spools] the contents of the files a spool may be in.  The result is the
    pieces and the start of the two processes. *)
Definition cmd_decrypt `{Aead} (sha1 : bytes -> bytes) (rng : nat -> bytes) (salt : bytes) (torrent : result bytes) (output : bytes) (spool : option bytes)
    (spools : bytes -> option bytes) (passphrase : result bytes) (fs : Fs) : result (Layout * nat * Flow) :=
  raw ← torrent;
  t ← from_bytes sha1 raw;
  l ← from_torrent output t;
  let spool_path := match spool with Some p => p | None => join output (name (info t) ++ bs ".rustytorrent-spool") end in
  pass ← passphrase;
  pieces ← decrypt_all_pieces sha1 rng salt pass l (piece_hashes (info t)) (spools spool_path);
  Ok (l, length pieces, flow_start pieces fs).

(** ** The invariant *)

Definition written (e : StorageEvent) : Prop := match e with Written _ => True | _ => False end.
Definition write_of (p : nat * bytes) : StorageCommand := Write p.1 p.2.

Section Flow.
Context (can_open : bytes -> result unit) (l : Layout) (Hok : layout_ok l) (Hnd : NoDup (span_key <$> l_files l)).
Context (Hopen : Forall (fun f => can_open (path f) = Ok tt) (l_files l)).
#[local] Abbreviation size := (size_of (l_piece_length l) (Z.of_nat (l_num_pieces l)) (l_total_length l)).
#[local] Abbreviation hs := (handles None 0 (l_files l)).
Context (ps : list (nat * bytes)) (Hps : Forall (fun p => (p.1 < l_num_pieces l)%nat /\ Z.of_nat (length p.2) = size p.1) ps).
#[local] Abbreviation n := (length ps).

Lemma all_open i : (i < l_num_pieces l)%nat -> disk_accepts l hs i.
Proof.
  intros Hi. split; [done|]. intros j o c Hin. destruct (proj1 (cuts_byte l i j)) as (f & x & Hf & _); [eauto|]. exists (span_key f). by apply (handles_lookup l None j f _ Hf).
Qed.

Definition acked (m : MainState) : nat := match m with Sending _ => 0 | Draining a => a | _ => n end.
Definition reporting (t : TaskState) : nat := match t with Reporting _ => 1 | _ => 0 end.

(** [taken] pieces have been written, [queue] wait in the channel, [rest] have not been sent. *)
Record flow_inv (taken queue rest : list (nat * bytes)) (f : Flow) : Prop := {
  i_split : ps = taken ++ queue ++ rest;
  i_evs : Forall written (f_evs f) /\ match f_task f with Reporting e => written e | _ => True end;
  i_room : (length (f_cmds f) <= CHANNEL)%nat /\ (length (f_evs f) <= CHANNEL)%nat;
  i_count : length taken = (acked (f_main f) + length (f_evs f) + reporting (f_task f))%nat;
  i_main : match f_main f with Sending r => r = rest | Failed _ => False | _ => rest = [] end;
  i_cmds : f_cmds f = (write_of <$> queue) ++ match f_main f, f_task f with Closing, Ended => [] | Closing, _ => [Shutdown] | _, _ => [] end;
  i_task : match f_task f with Opening => taken = [] /\ f_main f <> Finished | Last _ => False | Ended => f_main f = Closing \/ f_main f = Finished | _ => f_main f <> Finished end;
  i_disk : f_task f <> Opening -> disk_repr l hs (f_disk f) (spec_final size ∅ (write_of <$> taken));
}.

Definition flow_ok (f : Flow) : Prop := exists taken queue rest, flow_inv taken queue rest f.

Lemma start_ok fs : flow_ok (flow_start ps fs).
Proof. exists [], [], ps. split; try done; cbn; lia. Qed.

(** Once all is confirmed, nothing is underway. *)
Lemma all_done taken queue rest f : flow_inv taken queue rest f -> acked (f_main f) = n -> taken = ps /\ queue = [] /\ rest = [] /\ f_evs f = [] /\ reporting (f_task f) = 0%nat.
Proof.
  intros [H1 _ _ H4 _ _ _ _] Ha. pose proof (f_equal length H1) as L. rewrite !length_app in L. destruct queue, rest, (f_evs f); cbn [length] in *; try lia. rewrite !app_nil_r in H1. split_and!; [done..|lia].
Qed.

Lemma room_lt {A} (q : list A) : room q = true <-> (length q < CHANNEL)%nat.
Proof. unfold room. apply Nat.ltb_lt. Qed.

(** The task has not ended while the command is not closing. *)
#[local] Ltac task_cases := match goal with t : TaskState |- _ => destruct t; naive_solver end.

Lemma main_keeps f f' : flow_ok f -> main_next n f = Some f' -> flow_ok f'.
Proof.
  intros (taken & queue & rest & Hi) E. destruct f as [main cmds task evs disk]. pose proof Hi as [H1 [H2 H2'] [H3 H3'] H4 H5 H6 H7 H8]. cbn [f_main f_cmds f_task f_evs f_disk] in *.
  destruct main as [[|[i d] r]|a| | | |e]; cbn [main_next] in E.
  - injection E as <-. exists taken, queue, []. split; cbn [f_main f_cmds f_task f_evs f_disk acked]; try done; [by subst rest|task_cases].
  - subst rest. destruct (receiver_gone task) eqn:Eg; [task_cases|]. destruct (room cmds) eqn:Er; [|done]. injection E as <-. apply room_lt in Er.
    exists taken, (queue ++ [(i, d)]), r. split; cbn [f_main f_cmds f_task f_evs f_disk acked]; try done.
    + by rewrite <- app_assoc.
    + rewrite length_app. cbn. lia.
    + rewrite H6, fmap_app, app_nil_r. by rewrite app_nil_r.
    + task_cases.
  - destruct (Nat.ltb_spec a n) as [Ha|Ha].
    + destruct evs as [|[i|i x] evs]; [task_cases| |by apply list.Forall_cons in H2 as [? _]]. injection E as <-. apply list.Forall_cons in H2 as [_ H2].
      exists taken, queue, rest. split; cbn [f_main f_cmds f_task f_evs f_disk acked length] in *; try done; [lia|lia|task_cases].
    + injection E as <-. pose proof (f_equal length H1) as L. rewrite !length_app in L. exists taken, queue, rest. split; cbn [f_main f_cmds f_task f_evs f_disk acked] in *; try done; [lia|task_cases].
  - destruct (receiver_gone task) eqn:Eg; [task_cases|]. destruct (room cmds) eqn:Er; [|done]. injection E as <-. apply room_lt in Er.
    destruct (all_done _ _ _ _ Hi eq_refl) as (-> & -> & -> & _). exists ps, [], []. split; cbn [f_main f_cmds f_task f_evs f_disk acked] in *; try done.
    + rewrite length_app. cbn. lia.
    + rewrite H6. by destruct task.
    + task_cases.
  - destruct task; try done. injection E as <-. exists taken, queue, rest. split; cbn [f_main f_cmds f_task f_evs f_disk acked] in *; try done. by right.
  - done.
  - done.
Qed.

Lemma final_snoc i d qs : Z.of_nat (length d) = size i -> forall m, spec_final size m (write_of <$> qs ++ [(i, d)]) = <[i := d]> (spec_final size m (write_of <$> qs)).
Proof.
  intros Hd. induction qs as [|q qs IH]; intros m; cbn [app fmap list_fmap spec_final write_of spec_next fst snd]; [by rewrite (proj2 (Z.eqb_eq _ _) Hd)|]. apply IH.
Qed.

Lemma task_keeps f f' : flow_ok f -> task_next can_open l f = Some f' -> flow_ok f'.
Proof.
  intros (taken & queue & rest & Hi) E. destruct f as [main cmds task evs disk]. pose proof Hi as [H1 [H2 H2'] [H3 H3'] H4 H5 H6 H7 H8]. unfold task_next in E. cbn [f_main f_cmds f_task f_evs f_disk] in *.
  destruct (over main) eqn:Eo; [done|]. destruct task as [| |e|e|]; cbn [task_turn] in E; try done.
  - destruct (open_repr l Hnd can_open None Hopen (d_fs disk) ∅ (or_introl eq_refl)) as (fs' & Ef & Hr). rewrite Ef in E. injection E as <-. destruct H7 as [-> H7].
    exists [], queue, rest. split; cbn [f_main f_cmds f_task f_evs f_disk] in *; try done; by destruct main.
  - destruct queue as [|[i d] queue]; cbn [fmap list_fmap app] in H6.
    + destruct main; subst cmds; try done. injection E as <-. exists taken, [], rest. split; cbn [f_main f_cmds f_task f_evs f_disk] in *; try done; [split; [cbn; lia|done]|by left|intros _; by apply H8].
    + rewrite H6 in E, H3. cbn [write_of fst snd] in E. assert (Hp : (i < l_num_pieces l)%nat /\ Z.of_nat (length d) = size i).
      { rewrite H1 in Hps. apply list.Forall_app in Hps as [_ Hq]. by apply list.Forall_cons in Hq as [Hq _]. }
      destruct Hp as [Hi' Hd]. destruct (disk_write l Hok hs disk _ i d (H8 ltac:(done)) (all_open i Hi') Hd) as (disk' & Ew & Hr'). rewrite Ew in E. injection E as <-.
      exists (taken ++ [(i, d)]), queue, rest. split; cbn [f_main f_cmds f_task f_evs f_disk] in *; try done.
      * rewrite <- app_assoc. done.
      * split; [cbn in H3; lia|done].
      * rewrite length_app. cbn in *. lia.
      * intros _. by rewrite final_snoc.
  - destruct (room evs) eqn:Er; [|done]. injection E as <-. apply room_lt in Er. exists taken, queue, rest. split; cbn [f_main f_cmds f_task f_evs f_disk] in *; try done.
    + split; [|done]. apply list.Forall_app. split; [done|]. by constructor.
    + split; [done|]. rewrite length_app. cbn. lia.
    + rewrite length_app. cbn in *. lia.
    + intros _. by apply H8.
Qed.

Lemma step_keeps f f' : flow_ok f -> flow_step can_open l n f f' -> flow_ok f'.
Proof. intros Hf [E|E]; [by eapply main_keeps|by eapply task_keeps]. Qed.

Lemma reached fs f : rtc (flow_step can_open l n) (flow_start ps fs) f -> flow_ok f.
Proof. intros H. pose proof (start_ok fs) as H0. induction H as [|x y z S _ IH]; [done|]. apply IH. by eapply step_keeps. Qed.

(** ** Progress *)

(** The most that can be underway: a full channel of writes, a full channel of confirmations, and the one in the task's hand. *)
Definition UNDERWAY : nat := CHANNEL + CHANNEL + 1.

Lemma underway taken queue rest f : flow_inv taken queue rest f -> (length taken + length queue <= acked (f_main f) + UNDERWAY)%nat.
Proof.
  intros [_ _ [H3 H3'] H4 _ H6 _ _]. rewrite H6, length_app, length_fmap in H3. unfold UNDERWAY. destruct (f_task f); cbn [reporting] in *; lia.
Qed.

(** Blocked means finished, or the command waits for room while the task waits for room. *)
(** The task can always go on opening, and taking a command. *)
Lemma task_goes main cmds task evs disk : task_turn can_open l (mkFlow main cmds task evs disk) = None -> task = Ended \/ task = Waiting /\ cmds = [] \/ (exists e, (task = Reporting e \/ task = Last e) /\ room evs = false).
Proof.
  destruct task as [| |e|e|]; cbn [task_turn].
  - by destruct (open_files _ _ _ _ _) as [? []].
  - destruct cmds as [|[i d| |] cmds]; [auto|by destruct (write_piece _ _ _ _) as [? []]|done|done].
  - destruct (room evs); [done|]. eauto 6.
  - destruct (room evs); [done|]. eauto 6.
  - auto.
Qed.

(** Blocked means finished, or the command waits for room while the task waits for room. *)
Lemma blocked_cases f : flow_ok f -> blocked can_open l n f ->
  f_main f = Finished /\ disk_repr l hs (f_disk f) (spec_final size ∅ (write_of <$> ps)) \/ f_main f = Sending (drop UNDERWAY ps) /\ (UNDERWAY < n)%nat.
Proof.
  intros (taken & queue & rest & Hi) [Bm Bt]. destruct f as [main cmds task evs disk]. pose proof Hi as [H1 [H2 H2'] [H3 H3'] H4 H5 H6 H7 H8]. unfold task_next in Bt. cbn [f_main f_cmds f_task f_evs f_disk] in *.
  destruct main as [[|[i d] r]|a| | | |e]; cbn [main_next over] in *; try done.
  - right. subst rest. destruct (receiver_gone task) eqn:Eg; [done|]. destruct (room cmds) eqn:Er; [done|]. apply Nat.ltb_ge in Er. rewrite app_nil_r in H6. subst cmds. rewrite length_fmap in *.
    apply task_goes in Bt as [->|[[-> Eq]|(e & [-> | ->] & Ee)]]; [done|destruct queue; [cbn in Er; unfold CHANNEL in Er; lia|done]| |done]. apply Nat.ltb_ge in Ee. cbn [acked reporting] in H4.
    assert (L : length (taken ++ queue) = UNDERWAY) by (rewrite length_app; unfold UNDERWAY; lia). rewrite H1, app_assoc, drop_app_length' by done. split; [done|]. rewrite length_app, L. cbn. lia.
  - exfalso. destruct (Nat.ltb_spec a n) as [Ha|]; [|done]. destruct evs as [|[]]; [|done..]. apply task_goes in Bt as [->|[[-> Eq]|(e & [-> | ->] & Ee)]]; try done.
    rewrite app_nil_r in H6. subst cmds. destruct queue; [|done]. subst rest. rewrite !app_nil_r in H1. subst taken. cbn in H4. lia.
  - exfalso. destruct (all_done _ _ _ _ Hi eq_refl) as (-> & -> & -> & _). destruct (receiver_gone task); [done|]. by subst cmds.
  - exfalso. destruct (all_done _ _ _ _ Hi eq_refl) as (-> & -> & -> & _ & R). apply task_goes in Bt as [->|[[-> Eq]|(e & [-> | ->] & Ee)]]; try done. by subst cmds.
  - left. destruct (all_done _ _ _ _ Hi eq_refl) as (-> & _). split; [done|]. apply H8. intros ->. by destruct H7.
Qed.

(** With more pieces than can be underway, the command never gets to read a confirmation. *)
Lemma never_drains f f' : (UNDERWAY < n)%nat -> flow_ok f -> (exists p r, f_main f = Sending (p :: r)) -> flow_step can_open l n f f' -> exists p r, f_main f' = Sending (p :: r).
Proof.
  intros Hn Hf (p & r & Em) S. pose proof (step_keeps _ _ Hf S) as (taken & queue & rest & Hi). pose proof (underway _ _ _ _ Hi) as U. pose proof Hi as [H1 _ _ _ H5 _ _ _].
  assert (G : f_main f' = Sending (p :: r) \/ f_main f' = Sending r).
  { destruct f as [main cmds task evs disk]. cbn [f_main] in Em. subst main. destruct S as [E|E].
    - destruct p as [i d]. cbn [main_next] in E. destruct (receiver_gone task); [injection E as <-; done|]. destruct (room cmds); [|done]. injection E as <-. by right.
    - left. unfold task_next in E. cbn [over f_main] in E. destruct task as [| |e|e|]; cbn [task_turn] in E; [| | | |done].
      + destruct (open_files _ _ _ _ _) as [? []]; by injection E as <-.
      + destruct cmds as [|[i d| |] cmds]; [done| | |]; [destruct (write_piece _ _ _ _) as [? []]|..]; by injection E as <-.
      + destruct (room evs); [|done]. by injection E as <-.
      + destruct (room evs); [|done]. by injection E as <-. }
  destruct G as [G|G]; [by exists p, r|]. destruct r as [|q r]; [|by exists q, r]. exfalso. rewrite G in *. cbn [acked] in U. subst rest. apply (f_equal length) in H1. rewrite !length_app in H1. cbn in H1. lia.
Qed.

(** ** Termination *)

Definition work (f : Flow) : nat :=
  match f_main f with Sending rest => 4 * length rest + 20 | Draining _ => 15 | Stopping => 10 | Closing => 5 | Finished | Failed _ => 0 end +
  3 * length (f_cmds f) + match f_task f with Opening => 4 | Waiting => 1 | Reporting _ => 3 | Last _ => 2 | Ended => 0 end + length (f_evs f).

Lemma step_works f f' : flow_step can_open l n f f' -> (work f' < work f)%nat.
Proof.
  destruct f as [main cmds task evs disk]. unfold work. intros [E|E].
  - destruct main as [[|[i d] r]|a| | | |e]; cbn [main_next f_main f_cmds f_task f_evs] in *.
    + injection E as <-. cbn. lia.
    + destruct (receiver_gone task); [injection E as <-; cbn; lia|]. destruct (room cmds); [|done]. injection E as <-. cbn. rewrite length_app. cbn. lia.
    + destruct (_ <? _)%nat; [destruct evs as [|[]]; [destruct task; try done| |]|]; injection E as <-; cbn; lia.
    + destruct (receiver_gone task); [injection E as <-; cbn; lia|]. destruct (room cmds); [|done]. injection E as <-. cbn. rewrite length_app. cbn. lia.
    + destruct task; try done. injection E as <-. cbn. lia.
    + done.
    + done.
  - unfold task_next in E. destruct (over _); [done|]. destruct task as [| |e|e|]; cbn [task_turn] in E; [| | | |done].
    + destruct (open_files _ _ _ _ _) as [? []]; injection E as <-; cbn; lia.
    + destruct cmds as [|[i d| |] cmds]; [done| | |]; [destruct (write_piece _ _ _ _) as [? []]|..]; injection E as <-; cbn; lia.
    + destruct (room evs); [|done]. injection E as <-. cbn. rewrite length_app. cbn. lia.
    + destruct (room evs); [|done]. injection E as <-. cbn. rewrite length_app. cbn. lia.
Qed.

Lemma steps_bounded k f f' : nsteps (flow_step can_open l n) k f f' -> (k + work f' <= work f)%nat.
Proof. induction 1 as [x|k x y z S _ IH]; [lia|]. apply step_works in S. lia. Qed.

(** What every run comes to. *)
Lemma flow_ends fs k f : nsteps (flow_step can_open l n) k (flow_start ps fs) f -> (k <= 4 * n + 24)%nat /\
  (blocked can_open l n f -> if (n <=? UNDERWAY)%nat then f_main f = Finished /\ disk_repr l hs (f_disk f) (spec_final size ∅ (write_of <$> ps)) else f_main f = Sending (drop UNDERWAY ps)).
Proof.
  intros S. split; [apply steps_bounded in S; cbn in S; lia|]. intros B. assert (R : rtc (flow_step can_open l n) (flow_start ps fs) f) by (apply rtc_nsteps; by exists k).
  pose proof (blocked_cases f (reached fs f R) B) as C. destruct (Nat.leb_spec n UNDERWAY) as [Hn|Hn]; [destruct C as [?|[_ ?]]; [done|lia]|]. destruct C as [[Hf _]|[? _]]; [|done]. exfalso.
  assert (G : exists p r, f_main f = Sending (p :: r)); [|destruct G as (? & ? & G); congruence]. clear B Hf S k.
  assert (H0 : exists p r, f_main (flow_start ps fs) = Sending (p :: r)) by (cbn; destruct ps as [|p r]; [cbn in Hn; lia|eauto]). pose proof (start_ok fs) as Hk.
  induction R as [|x y z S _ IH]; [done|]. apply IH; [by eapply never_drains|by eapply step_keeps].
Qed.

Lemma final_other i qs : (i ∉ qs.*1) -> forall m, spec_final size m (write_of <$> qs) !! i = m !! i.
Proof.
  induction qs as [|[j x] qs IH]; intros Hi m; [done|]. cbn [fmap list_fmap fst] in Hi. apply not_elem_of_cons in Hi as [Hne Hi]. cbn [fmap list_fmap spec_final write_of fst snd spec_next]. rewrite IH by done.
  destruct (_ =? _); [|done]. by rewrite lookup_insert_ne.
Qed.

Lemma final_lookup i x qs : NoDup qs.*1 -> (i, x) ∈ qs -> Z.of_nat (length x) = size i -> forall m, spec_final size m (write_of <$> qs) !! i = Some x.
Proof.
  intros Hd Hin Hx. induction qs as [|[j y] qs IH]; intros m; [by apply elem_of_nil in Hin|]. cbn [fmap list_fmap fst] in Hd. apply NoDup_cons in Hd as [Hj Hd]. cbn [fmap list_fmap spec_final write_of fst snd spec_next].
  apply elem_of_cons in Hin as [[= <- <-]|Hin]; [|by apply IH]. rewrite final_other by done. rewrite (proj2 (Z.eqb_eq _ _) Hx). apply lookup_insert_eq.
Qed.
End Flow.

Lemma sorted_distinct (js : list nat) : StronglySorted lt js -> NoDup js.
Proof. induction 1 as [|i js _ IH Hi]; constructor; [|done]. intros Hin. rewrite list.Forall_forall in Hi. specialize (Hi _ Hin). lia. Qed.

(** With 130 pieces or more the command never finishes: it waits to send the 130th write, and the storage task to report a
    write nobody reads. *)
Lemma decrypt_stalls can_open l ps fs k f : layout_ok l -> NoDup (span_key <$> l_files l) -> Forall (fun f => can_open (path f) = Ok tt) (l_files l) ->
  Forall (fun p => (p.1 < l_num_pieces l)%nat /\ Z.of_nat (length p.2) = size_of (l_piece_length l) (Z.of_nat (l_num_pieces l)) (l_total_length l) p.1) ps ->
  (129 < length ps)%nat -> nsteps (flow_step can_open l (length ps)) k (flow_start ps fs) f ->
  (k <= 4 * length ps + 24)%nat /\ (blocked can_open l (length ps) f -> f_main f = Sending (drop 129 ps)).
Proof.
  intros Hl Hnd Hop Hps Hn S. destruct (flow_ends can_open l Hl Hnd Hop ps Hps fs k f S) as [Hk Hb]. split; [done|]. intros B. specialize (Hb B). change UNDERWAY with 129%nat in Hb.
  by rewrite (proj2 (Nat.leb_gt _ _) Hn) in Hb.
Qed.

(** C36: what a paranoid session stored, the decrypt command restores, when at most 129 pieces are recovered.  The torrent
    is one the loader accepts; its entries have pairwise distinct paths (the loader does not enforce this, and with
    shared paths pieces overwrite each other: [shared_path_clobbers]), all of which can be opened; operations on open files
    succeed.  After any session over a fresh spool, the command finds, with the same passphrase, only pieces that verify,
    among them every piece that was stored and verifies.  If these are at most 129, then however the
    command and the storage task interleave, they stop after a bounded number of steps, they stop only when the command
    has finished, and every piece is then in its place in the files.  With more pieces the command does not finish:
    [decrypt_stalls]. *)
Theorem decrypt_restores `{AeadLaws} sha1 rng1 rng2 salt1 salt2 pass key cmds raw t l output can_open fs spool spools file out :
  from_bytes sha1 raw = Ok t -> from_torrent output t = Ok l -> Z.of_nat (num_pieces t) < 2 ^ 32 ->
  NoDup (span_key <$> l_files l) -> Forall (fun f => can_open (path f) = Ok tt) (l_files l) ->
  (forall n, length (rng1 n) = NONCE_LEN) -> (forall n, length (rng2 n) = NONCE_LEN) -> length salt1 = SALT_LEN -> argon pass salt1 = Some key ->
  Forall (cmd_ok (fun i => (i < l_num_pieces l)%nat)) cmds -> run_encrypted_storage rng1 salt1 pass l cmds [] = (file, out, Ok tt) ->
  spools (default (join output (name (info t) ++ bs ".rustytorrent-spool")) spool) = Some file ->
  let size := size_of (l_piece_length l) (Z.of_nat (l_num_pieces l)) (l_total_length l) in
  exists ps, cmd_decrypt sha1 rng2 salt2 (Ok raw) output spool spools (Ok pass) fs = Ok (l, length ps, flow_start ps fs) /\
    (forall i x, (i, x) ∈ ps -> exists h, piece_hashes (info t) !! i = Some h /\ verify_piece sha1 x h = true) /\
    (forall i x h, spec_final size ∅ cmds !! i = Some x -> piece_hashes (info t) !! i = Some h -> verify_piece sha1 x h = true -> (i, x) ∈ ps) /\
    ((length ps <= 129)%nat -> forall k f, nsteps (flow_step can_open l (length ps)) k (flow_start ps fs) f -> (k <= 4 * length ps + 24)%nat /\
      (blocked can_open l (length ps) f -> f_main f = Finished /\ forall i x, (i, x) ∈ ps -> read_range l i 0 (Z.of_nat (length x)) (f_disk f) = Ok x)).
Proof.
  intros Et El Hnp Hnd Hop H1 H2 Hs Ha Hc Er Hf size. destruct (torrent_validated sha1 t) as (total & Hi & Ht & _); [left; by exists raw|].
  destruct (from_torrent_spec output t total Hi) as (_ & _ & Hl). specialize (Hl l El). assert (Geo : l_piece_length l = piece_length (info t) /\ l_num_pieces l = num_pieces t).
  { unfold from_torrent in El. repeat inv_ok El. by subst l. }
  destruct Geo as [Gp Gn]. destruct Hi as (_ & [_ Hpl] & _).
  destruct (spool_recovery l Hl ltac:(rewrite Gp; exact Hpl) ltac:(rewrite Gn; exact Hnp) sha1 rng1 rng2 salt1 salt2 pass key cmds (piece_hashes (info t)) H1 H2 Hs Ha) as (file' & out' & ps & E1 & E2 & _ & Hsort & Hv & Hall).
  { eapply list.Forall_impl; [exact Hc|]. intros [i d|i b n|]; cbn; [lia|intros [? ?]; split; [lia|done]|done]. }
  rewrite Er in E1. injection E1 as <- <-. exists ps. split_and!.
  - unfold cmd_decrypt. cbn [mbind result_bind]. rewrite Et. cbn [mbind result_bind]. rewrite El. cbn [mbind result_bind]. destruct spool as [p|]; cbn [default from_option] in Hf; cbn zeta; unfold id in Hf; rewrite Hf, E2; done.
  - intros i x Hin. by apply Hv in Hin as (_ & _ & ?).
  - exact Hall.
  - intros Hle k f S. assert (Hps : Forall (fun p => (p.1 < l_num_pieces l)%nat /\ Z.of_nat (length p.2) = size p.1) ps) by (apply list.Forall_forall; intros [i x] Hin; apply Hv in Hin as (? & ? & _); by split).
    destruct (flow_ends can_open l Hl Hnd Hop ps Hps fs k f S) as [Hk Hb]. split; [done|]. intros B. specialize (Hb B). change UNDERWAY with 129%nat in Hb. rewrite (proj2 (Nat.leb_le _ _) Hle) in Hb. destruct Hb as [Hm Hr]. split; [done|]. intros i x Hin.
    destruct (Hv _ _ Hin) as (Hi & Hx & _). pose proof (disk_laws l Hl (handles None 0 (l_files l))) as L.
    change (@ps_read Disk (disk_store l) i 0 (Z.of_nat (length x)) (f_disk f) = Ok x). rewrite (law_read _ _ i x 0 _ Hr); [|apply final_lookup; [by apply sorted_distinct|done|done]|by apply all_open|lia|lia|unfold size in Hx; lia].
    f_equal. rewrite Nat2Z.id. by apply slice_all.
Qed.

(** ** An example *)

#[local] Existing Instance toy_aead.
#[local] Existing Instance toy_laws.

Definition sha_ex (b : bytes) : bytes := take 20 (b ++ replicate 20 Byte.x00).
Definition secret_ex : bytes :=
  Bencode.to_bytes (BDict [(bs "info", BDict [(bs "length", BInt 3); (bs "name", BBytes (bs "f")); (bs "piece length", BInt 2); (bs "pieces", BBytes (sha_ex (bs "ab") ++ sha_ex (bs "c")))])]).
Definition secret_layout : Layout := match (t ← from_bytes sha_ex secret_ex; from_torrent (bs "/out") t) with Ok l => l | _ => layout_ex end.
Definition secret_cmds : list StorageCommand := [Write 1 (bs "c"); Write 0 (bs "ab")].
Definition secret_spool : bytes := (run_encrypted_storage toy_rng toy_salt (bs "pw") secret_layout secret_cmds []).1.1.

Definition spools_ex (p : bytes) : option bytes := if bytes_eqb p (bs "/out/f.rustytorrent-spool") then Some secret_spool else None.

(** The command sends its writes, the task works them off, the command reads the confirmations. *)
Example decrypt_ex :
  (fun '(l, total, f) => let f := run_flow (fun _ => Ok tt) l total ([true; true] ++ replicate 5 false ++ replicate 5 true ++ [false; true]) f in (f_main f, map_to_list (d_fs (f_disk f)))) <$>
  cmd_decrypt sha_ex toy_rng [] (Ok secret_ex) (bs "/out") None spools_ex (resolve_passphrase None (Some (bs "pw")) false (Err (EIo "")) ) ∅
  = Ok (Finished, [([RootDir; Normal (bs "out"); Normal (bs "f")], bs "abc")]).
Proof. vm_compute. reflexivity. Qed.

Lemma decrypt_restores_witness : exists ps, cmd_decrypt sha_ex toy_rng [] (Ok secret_ex) (bs "/out") None spools_ex (Ok (bs "pw")) ∅ = Ok (secret_layout, length ps, flow_start ps ∅) /\ (0%nat, bs "ab") ∈ ps.
Proof.
  destruct (from_bytes sha_ex secret_ex) as [t| | |] eqn:Et; [|vm_compute in Et; discriminate Et..].
  assert (El : from_torrent (bs "/out") t = Ok secret_layout) by (vm_compute in Et; injection Et as <-; vm_compute; reflexivity).
  assert (Er : run_encrypted_storage toy_rng toy_salt (bs "pw") secret_layout secret_cmds [] = (secret_spool, [Event (Written 1); Event (Written 0)], Ok tt)) by (vm_compute; reflexivity).
  destruct (decrypt_restores sha_ex toy_rng toy_rng toy_salt [] (bs "pw") (set_len KEY_LEN (bs "pw" ++ toy_salt)) secret_cmds secret_ex t secret_layout (bs "/out") (fun _ => Ok tt) ∅ None spools_ex secret_spool [Event (Written 1); Event (Written 0)] Et El) as (ps & E & _ & G & _).
  - vm_compute in Et. injection Et as <-. vm_compute. reflexivity.
  - vm_compute. repeat constructor. intros F. inversion F.
  - vm_compute. repeat constructor.
  - reflexivity.
  - reflexivity.
  - reflexivity.
  - reflexivity.
  - unfold secret_cmds. constructor; [|constructor; [|constructor]]; unfold cmd_ok; vm_compute; repeat constructor.
  - exact Er.
  - vm_compute in Et. injection Et as <-. vm_compute. reflexivity.
  - exists ps. split; [exact E|]. apply (G 0%nat (bs "ab") (sha_ex (bs "ab"))); vm_compute in Et; injection Et as <-; vm_compute; reflexivity.
Defined.
