(* ===== verification/Engine.v ===== *)
(** * The engine: [src/src/engine.rs]

    One torrent's session: the state of [TorrentEngine], the handlers of its event
    loop and the policy functions around it, composed of the piece manager, the
    picker, the choke scheduler, the peer manager, the rate limiter and the piece
    cache as the source composes them.

    A [Sys] is the engine with what its handlers can touch: the peer manager, the
    writes handed to the storage task and its answers to the first of them, the
    reads the upload tasks wait for, and the log of everything sent.  What the code takes from outside (clock
    readings, whether a peer's queue takes a command, the shuffle of the picker)
    comes from an [Env], asked with a running number, so that no two questions need
    get the same answer.  Hash maps are iterated in the order of [map_to_list]. *)

From Stdlib Require Import ZArith Lia String Strings.Byte.
From stdpp Require Import base tactics numbers list option gmap fin_maps fin_sets.
From S2P Require Import Prelude PeerWire Pieces Picker Handshake Paths Torrent Layout Choke PeerManager Float64 Net RateLimit Extension Text Socks5 Storage Cache Tracker.

#[local] Set Warnings "-register-all".

(** ** Constants and configuration *)

Inductive EngineControl := Pause | Resume | ShutdownSession.

Definition PIPELINE_DEPTH : nat := 5.
Definition ENDGAME_REMAINING : nat := 5.
Definition REQUEST_TIMEOUT : Z := 30 * SEC.
Definition MAX_INGESTED_PEERS_PER_EVENT : nat := 1024.

(** Durations are in nanoseconds, paths and host names are bytes. *)
Record EngineConfig := mkConfig {
  output_dir : bytes;
  listen_port : Z;
  cfg_max_peers : nat;
  progress_every : Z;
  reannounce_min : Z;
  seed_peers : list SocketAddr;
  no_tracker : bool;
  cfg_force_outgoing_mse : bool;
  enable_dht : bool;
  dht_bootstrap : list bytes;
  cfg_proxies : list ProxyConfig;
  cfg_bind_iface : option bytes;
  cfg_anonymous : bool;
  paranoid : bool;
  sandbox : bool;
  memory_only : bool;
  passphrase : option bytes;
  spool_path : option bytes;
  max_down_bytes_per_sec : option Z;
  max_up_bytes_per_sec : option Z;
  utp_enabled : bool;
  web_port : option Z;
  selected_files : list bytes;
  cfg_sequential : bool;
}.

Definition default_config : EngineConfig :=
  mkConfig (bs ".") 6881 50 (2 * SEC) (60 * SEC) [] false false false [] [] None false false false false
    None None None None false None [] false.

(** ** Policy *)

Definition dht_wanted (enable_dht anonymous proxied private : bool) : bool :=
  enable_dht && negb anonymous && negb proxied && negb private.

Definition throttle_bucket (now rate_bps : Z) : TokenBucket :=
  let rate := of_int rate_bps in
  bucket_new now (fmax (fmul rate (of_int 2)) (of_int BLOCK_SIZE)) rate.

Definition dht_martian_strict (anonymous proxied : bool) : bool := anonymous || proxied.

Definition proxied (c : EngineConfig) : bool := negb (length (cfg_proxies c) =? 0)%nat.

Definition martians_strict (c : EngineConfig) : bool := dht_martian_strict (cfg_anonymous c) (proxied c).

Definition inbound_wanted (anonymous proxied : bool) : bool := negb anonymous && negb proxied.

Definition advertised_port (anonymous proxied : bool) (listen_port : Z) : Z :=
  if anonymous || proxied then 0 else listen_port.

(** The loop of [filter_dialable_peers] with its two accumulators. *)
Fixpoint filter_peers (addrs out : list SocketAddr) (strict : bool) (dropped : nat) : list SocketAddr * nat :=
  match addrs with
  | [] => (out, dropped)
  | a :: addrs =>
      if is_dialable_peer_addr a strict then
        filter_peers addrs (if (length out <? MAX_INGESTED_PEERS_PER_EVENT)%nat then out ++ [a] else out) strict dropped
      else filter_peers addrs out strict (dropped + 1)
  end.

Definition filter_dialable_peers (addrs : list SocketAddr) (strict : bool) : list SocketAddr * nat :=
  filter_peers addrs [] strict 0.

Definition fmt_duration (secs : Z) : bytes :=
  let h := secs / 3600 in
  let m := secs mod 3600 / 60 in
  let s := secs mod 60 in
  (if 0 <? h then show_u h ++ bs "h " else [])
  ++ (if (0 <? m) || (0 <? h) then show_u m ++ bs "m " else [])
  ++ show_u s ++ bs "s".

(** [Vec<String>::join] *)
Fixpoint join_with (sep : bytes) (l : list bytes) : bytes :=
  match l with
  | [] => []
  | [x] => x
  | x :: l => x ++ sep ++ join_with sep l
  end.

Definition check_anonymous_tracker_urls (announce_list : list (list bytes)) (announce : option bytes) : option bytes :=
  let cleartext url := has_prefix (bs "http://") url in
  let bad := flat_map (fun tier => flat_map (fun url => if cleartext url then [redact_url_query url] else []) tier) announce_list in
  let bad := bad ++ match announce with Some u => if cleartext u then [redact_url_query u] else [] | None => [] end in
  match bad with
  | [] => None
  | _ => Some (bs "anonymous mode refuses cleartext http:// trackers: " ++ join_with (bs ", ") bad)
  end.

(** [Duration::saturating_mul], [saturating_add] and [/]: nanoseconds up to [Duration::MAX]; [pct] is the random draw. *)
Definition DURATION_MAX : Z := (2 ^ 64 - 1) * SEC + 999999999.

Definition jittered_interval (base : Z) (anonymous : bool) (draw : Z -> Z -> Z) : Z :=
  let pct := if anonymous then draw 5 50 else draw 0 5 in
  Z.min DURATION_MAX (base + Z.min DURATION_MAX (base * pct) / 100).

(** What must hold before anything is started, and the forced setting of anonymous mode. *)
Definition startup_checks (memspool_supported sandbox_supported : bool) (c : EngineConfig) (t : TorrentFile) : result EngineConfig :=
  if cfg_anonymous c && negb (proxied c) then
    Err (ENetwork "anonymous mode requires --socks5; refusing to dial clearnet")
  else if cfg_anonymous c && match check_anonymous_tracker_urls (announce_list t) (announce t) with Some _ => true | None => false end then
    Err (ENetwork "anonymous mode refuses cleartext http:// trackers")
  else if paranoid c && match passphrase c with None => true | Some _ => false end then
    Err (ECrypto "paranoid mode requires --passphrase (or RUSTYTORRENT_PASSPHRASE env)")
  else if memory_only c && paranoid c then
    Err (ENetwork "--memory-only and --paranoid are mutually exclusive")
  else if memory_only c && negb memspool_supported then
    Err (ENetwork "--memory-only is not supported on this platform (Linux/macOS/BSD only)")
  else if sandbox c && negb sandbox_supported then
    Err (ENetwork "--sandbox is not supported on this platform (Linux x86_64 and macOS only)")
  else
    Ok (mkConfig (output_dir c) (listen_port c) (cfg_max_peers c) (progress_every c) (reannounce_min c) (seed_peers c) (no_tracker c)
      (cfg_force_outgoing_mse c || cfg_anonymous c) (enable_dht c) (dht_bootstrap c) (cfg_proxies c) (cfg_bind_iface c) (cfg_anonymous c)
      (paranoid c) (sandbox c) (memory_only c) (passphrase c) (spool_path c) (max_down_bytes_per_sec c) (max_up_bytes_per_sec c)
      (utp_enabled c) (web_port c) (selected_files c) (cfg_sequential c)).

(** ** Events and commands *)

Inductive PeerEvent :=
  | Connected (addr : SocketAddr) (peer_id peer_reserved : bytes)
  | Disconnected (addr : SocketAddr) (violation : bool)
  | Bitfield (addr : SocketAddr) (bits : list bool)
  | Have (addr : SocketAddr) (index : Z)
  | Choke (addr : SocketAddr)
  | Unchoke (addr : SocketAddr)
  | Interested (addr : SocketAddr)
  | NotInterested (addr : SocketAddr)
  | Block (addr : SocketAddr) (index begin : Z) (data : bytes)
  | Request (addr : SocketAddr) (index begin length : Z)
  | Cancel (addr : SocketAddr) (index begin length : Z)
  | Pex (addr : SocketAddr) (peers : list SocketAddr)
  | ExtensionHandshake (addr : SocketAddr) (their_ut_pex_id : option Z)
  | HaveAll (addr : SocketAddr)
  | RejectRequest (addr : SocketAddr) (index begin : Z).

Inductive PeerCommand :=
  | CRequest (index begin length : Z)
  | CCancel (index begin length : Z)
  | CHave (index : Z)
  | CChoke
  | CUnchoke
  | CInterested
  | CNotInterested
  | CPiece (index begin : Z) (data : bytes)
  | CBitfield (bits : bytes)
  | CExtension (ext_id : Z) (payload : bytes)
  | CHaveAll
  | CHaveNone.

(** ** State *)

Section Engine.
Context {C : Type} `{Lru C}.

Record TorrentEngine := mkEngine {
  torrent : TorrentFile;
  peer_id : bytes;
  cfg : EngineConfig;
  pm : Pieces.PieceManager;
  picker : Picker SocketAddr;
  choker : ChokeScheduler SocketAddr;
  peer_choking_us : gmap SocketAddr bool;
  am_interested : gmap SocketAddr bool;
  we_unchoked : gmap SocketAddr bool;
  inflight : gmap SocketAddr nat;
  endgame_requests : gmap (Z * Z) (list SocketAddr);
  outstanding_requests : gmap (Z * Z) (SocketAddr * Z);
  uploaded : Z;
  downloaded : Z;
  paused : bool;
  upload_cache : C;
  download_bucket : option TokenBucket;
  upload_bucket : option TokenBucket;
  peer_pex_ids : gmap SocketAddr Z;
  peer_pex_snapshot : gmap SocketAddr (gset SocketAddr);
}.

(** Field updates. *)
Definition with_peer_id (x : bytes) (e : TorrentEngine) : TorrentEngine :=
  mkEngine (torrent e) x (cfg e) (pm e) (picker e) (choker e) (peer_choking_us e) (am_interested e) (we_unchoked e) (inflight e) (endgame_requests e) (outstanding_requests e) (uploaded e) (downloaded e) (paused e) (upload_cache e) (download_bucket e) (upload_bucket e) (peer_pex_ids e) (peer_pex_snapshot e).
Definition with_cfg (x : EngineConfig) (e : TorrentEngine) : TorrentEngine :=
  mkEngine (torrent e) (peer_id e) x (pm e) (picker e) (choker e) (peer_choking_us e) (am_interested e) (we_unchoked e) (inflight e) (endgame_requests e) (outstanding_requests e) (uploaded e) (downloaded e) (paused e) (upload_cache e) (download_bucket e) (upload_bucket e) (peer_pex_ids e) (peer_pex_snapshot e).
Definition with_pm (x : Pieces.PieceManager) (e : TorrentEngine) : TorrentEngine :=
  mkEngine (torrent e) (peer_id e) (cfg e) x (picker e) (choker e) (peer_choking_us e) (am_interested e) (we_unchoked e) (inflight e) (endgame_requests e) (outstanding_requests e) (uploaded e) (downloaded e) (paused e) (upload_cache e) (download_bucket e) (upload_bucket e) (peer_pex_ids e) (peer_pex_snapshot e).
Definition with_picker (x : Picker SocketAddr) (e : TorrentEngine) : TorrentEngine :=
  mkEngine (torrent e) (peer_id e) (cfg e) (pm e) x (choker e) (peer_choking_us e) (am_interested e) (we_unchoked e) (inflight e) (endgame_requests e) (outstanding_requests e) (uploaded e) (downloaded e) (paused e) (upload_cache e) (download_bucket e) (upload_bucket e) (peer_pex_ids e) (peer_pex_snapshot e).
Definition with_choker (x : ChokeScheduler SocketAddr) (e : TorrentEngine) : TorrentEngine :=
  mkEngine (torrent e) (peer_id e) (cfg e) (pm e) (picker e) x (peer_choking_us e) (am_interested e) (we_unchoked e) (inflight e) (endgame_requests e) (outstanding_requests e) (uploaded e) (downloaded e) (paused e) (upload_cache e) (download_bucket e) (upload_bucket e) (peer_pex_ids e) (peer_pex_snapshot e).
Definition with_peer_choking_us (x : gmap SocketAddr bool) (e : TorrentEngine) : TorrentEngine :=
  mkEngine (torrent e) (peer_id e) (cfg e) (pm e) (picker e) (choker e) x (am_interested e) (we_unchoked e) (inflight e) (endgame_requests e) (outstanding_requests e) (uploaded e) (downloaded e) (paused e) (upload_cache e) (download_bucket e) (upload_bucket e) (peer_pex_ids e) (peer_pex_snapshot e).
Definition with_am_interested (x : gmap SocketAddr bool) (e : TorrentEngine) : TorrentEngine :=
  mkEngine (torrent e) (peer_id e) (cfg e) (pm e) (picker e) (choker e) (peer_choking_us e) x (we_unchoked e) (inflight e) (endgame_requests e) (outstanding_requests e) (uploaded e) (downloaded e) (paused e) (upload_cache e) (download_bucket e) (upload_bucket e) (peer_pex_ids e) (peer_pex_snapshot e).
Definition with_we_unchoked (x : gmap SocketAddr bool) (e : TorrentEngine) : TorrentEngine :=
  mkEngine (torrent e) (peer_id e) (cfg e) (pm e) (picker e) (choker e) (peer_choking_us e) (am_interested e) x (inflight e) (endgame_requests e) (outstanding_requests e) (uploaded e) (downloaded e) (paused e) (upload_cache e) (download_bucket e) (upload_bucket e) (peer_pex_ids e) (peer_pex_snapshot e).
Definition with_inflight (x : gmap SocketAddr nat) (e : TorrentEngine) : TorrentEngine :=
  mkEngine (torrent e) (peer_id e) (cfg e) (pm e) (picker e) (choker e) (peer_choking_us e) (am_interested e) (we_unchoked e) x (endgame_requests e) (outstanding_requests e) (uploaded e) (downloaded e) (paused e) (upload_cache e) (download_bucket e) (upload_bucket e) (peer_pex_ids e) (peer_pex_snapshot e).
Definition with_endgame_requests (x : gmap (Z * Z) (list SocketAddr)) (e : TorrentEngine) : TorrentEngine :=
  mkEngine (torrent e) (peer_id e) (cfg e) (pm e) (picker e) (choker e) (peer_choking_us e) (am_interested e) (we_unchoked e) (inflight e) x (outstanding_requests e) (uploaded e) (downloaded e) (paused e) (upload_cache e) (download_bucket e) (upload_bucket e) (peer_pex_ids e) (peer_pex_snapshot e).
Definition with_outstanding_requests (x : gmap (Z * Z) (SocketAddr * Z)) (e : TorrentEngine) : TorrentEngine :=
  mkEngine (torrent e) (peer_id e) (cfg e) (pm e) (picker e) (choker e) (peer_choking_us e) (am_interested e) (we_unchoked e) (inflight e) (endgame_requests e) x (uploaded e) (downloaded e) (paused e) (upload_cache e) (download_bucket e) (upload_bucket e) (peer_pex_ids e) (peer_pex_snapshot e).
Definition with_uploaded (x : Z) (e : TorrentEngine) : TorrentEngine :=
  mkEngine (torrent e) (peer_id e) (cfg e) (pm e) (picker e) (choker e) (peer_choking_us e) (am_interested e) (we_unchoked e) (inflight e) (endgame_requests e) (outstanding_requests e) x (downloaded e) (paused e) (upload_cache e) (download_bucket e) (upload_bucket e) (peer_pex_ids e) (peer_pex_snapshot e).
Definition with_downloaded (x : Z) (e : TorrentEngine) : TorrentEngine :=
  mkEngine (torrent e) (peer_id e) (cfg e) (pm e) (picker e) (choker e) (peer_choking_us e) (am_interested e) (we_unchoked e) (inflight e) (endgame_requests e) (outstanding_requests e) (uploaded e) x (paused e) (upload_cache e) (download_bucket e) (upload_bucket e) (peer_pex_ids e) (peer_pex_snapshot e).
Definition with_paused (x : bool) (e : TorrentEngine) : TorrentEngine :=
  mkEngine (torrent e) (peer_id e) (cfg e) (pm e) (picker e) (choker e) (peer_choking_us e) (am_interested e) (we_unchoked e) (inflight e) (endgame_requests e) (outstanding_requests e) (uploaded e) (downloaded e) x (upload_cache e) (download_bucket e) (upload_bucket e) (peer_pex_ids e) (peer_pex_snapshot e).
Definition with_upload_cache (x : C) (e : TorrentEngine) : TorrentEngine :=
  mkEngine (torrent e) (peer_id e) (cfg e) (pm e) (picker e) (choker e) (peer_choking_us e) (am_interested e) (we_unchoked e) (inflight e) (endgame_requests e) (outstanding_requests e) (uploaded e) (downloaded e) (paused e) x (download_bucket e) (upload_bucket e) (peer_pex_ids e) (peer_pex_snapshot e).
Definition with_download_bucket (x : option TokenBucket) (e : TorrentEngine) : TorrentEngine :=
  mkEngine (torrent e) (peer_id e) (cfg e) (pm e) (picker e) (choker e) (peer_choking_us e) (am_interested e) (we_unchoked e) (inflight e) (endgame_requests e) (outstanding_requests e) (uploaded e) (downloaded e) (paused e) (upload_cache e) x (upload_bucket e) (peer_pex_ids e) (peer_pex_snapshot e).
Definition with_upload_bucket (x : option TokenBucket) (e : TorrentEngine) : TorrentEngine :=
  mkEngine (torrent e) (peer_id e) (cfg e) (pm e) (picker e) (choker e) (peer_choking_us e) (am_interested e) (we_unchoked e) (inflight e) (endgame_requests e) (outstanding_requests e) (uploaded e) (downloaded e) (paused e) (upload_cache e) (download_bucket e) x (peer_pex_ids e) (peer_pex_snapshot e).
Definition with_peer_pex_ids (x : gmap SocketAddr Z) (e : TorrentEngine) : TorrentEngine :=
  mkEngine (torrent e) (peer_id e) (cfg e) (pm e) (picker e) (choker e) (peer_choking_us e) (am_interested e) (we_unchoked e) (inflight e) (endgame_requests e) (outstanding_requests e) (uploaded e) (downloaded e) (paused e) (upload_cache e) (download_bucket e) (upload_bucket e) x (peer_pex_snapshot e).
Definition with_peer_pex_snapshot (x : gmap SocketAddr (gset SocketAddr)) (e : TorrentEngine) : TorrentEngine :=
  mkEngine (torrent e) (peer_id e) (cfg e) (pm e) (picker e) (choker e) (peer_choking_us e) (am_interested e) (we_unchoked e) (inflight e) (endgame_requests e) (outstanding_requests e) (uploaded e) (downloaded e) (paused e) (upload_cache e) (download_bucket e) (upload_bucket e) (peer_pex_ids e) x.


(** A read of [up_size] bytes an upload task has asked for: who wants which part of which piece. *)
Record Upload := mkUpload { up_addr : SocketAddr; up_index : Z; up_begin : Z; up_length : Z; up_size : Z }.

(** A command handed to a peer's queue, and whether the queue took it. *)
Record Sent := mkSent { to : SocketAddr; command : PeerCommand; taken : bool }.

#[local] Abbreviation World_ := (World SocketAddr IpAddr ProxyConfig unit).

Record Sys := mkSys {
  eng : TorrentEngine;
  world : World_;
  writes : list (nat * bytes);
  answers : list bool;
  uploads : list Upload;
  sent : list Sent;
  asked : nat;
}.

Record Env := mkEnv {
  clock : nat -> Z;
  accepts : nat -> bool;
  shuffle : nat -> list nat -> list nat;
  optimistic_choice : list SocketAddr -> option SocketAddr;
  join_ok : bool;
  storage_open : bool;
}.

#[local] Abbreviation E := (M Sys).

Definition on_eng (f : TorrentEngine -> TorrentEngine) : E unit :=
  modify (fun y => mkSys (f (eng y)) (world y) (writes y) (answers y) (uploads y) (sent y) (asked y)).

Definition on_world (f : World_ -> World_) : E unit :=
  modify (fun y => mkSys (eng y) (f (world y)) (writes y) (answers y) (uploads y) (sent y) (asked y)).

(** A question to the environment. *)
Definition ask {A} (f : nat -> A) : E A := fun y =>
  (mkSys (eng y) (world y) (writes y) (answers y) (uploads y) (sent y) (S (asked y)), Ok (f (asked y))).

Definition on_pm {A} (m : M Pieces.PieceManager A) : E A := fun y =>
  let '(x, r) := m (pm (eng y)) in
  (mkSys (with_pm x (eng y)) (world y) (writes y) (answers y) (uploads y) (sent y) (asked y), r).

Definition on_picker {A} (m : M (Picker SocketAddr) A) : E A := fun y =>
  let '(x, r) := m (picker (eng y)) in
  (mkSys (with_picker x (eng y)) (world y) (writes y) (answers y) (uploads y) (sent y) (asked y), r).

Definition on_choker {A} (m : M (ChokeScheduler SocketAddr) A) : E A := fun y =>
  let '(x, r) := m (choker (eng y)) in
  (mkSys (with_choker x (eng y)) (world y) (writes y) (answers y) (uploads y) (sent y) (asked y), r).

Definition on_cache {A} (m : M C A) : E A := fun y =>
  let '(x, r) := m (upload_cache (eng y)) in
  (mkSys (with_upload_cache x (eng y)) (world y) (writes y) (answers y) (uploads y) (sent y) (asked y), r).

(** [match r { Ok(o) => .., Err(e) => .. }] *)
Definition catch {A} (m : E A) : E (Error + A) := fun y =>
  match m y with
  | (y, Ok a) => (y, Ok (inr a))
  | (y, Err e) => (y, Ok (inl e))
  | (y, Panic) => (y, Panic)
  | (y, NoFuel) => (y, NoFuel)
  end.

Definition has_handle (addr : SocketAddr) : E bool :=
  gets (fun y => bool_decide (is_Some (PeerManager.handle (mgr (world y)) addr))).

(** [h.try_send(cmd).is_ok()] *)
Definition try_send (env : Env) (addr : SocketAddr) (cmd : PeerCommand) : E bool :=
  ok ← ask (accepts env);
  _ ← modify (fun y => mkSys (eng y) (world y) (writes y) (answers y) (uploads y) (sent y ++ [mkSent addr cmd ok]) (asked y));
  mret ok.

(** [if let Some(h) = peers.handle(&addr) { let _ = h.try_send(cmd); }] *)
Definition send_if_connected (env : Env) (addr : SocketAddr) (cmd : PeerCommand) : E unit :=
  h ← has_handle addr;
  if h : bool then _ ← try_send env addr cmd; mret tt else mret tt.

(** [TorrentEngine::new] *)
Definition engine_new (now : Z) (t : TorrentFile) (pid : bytes) (c : EngineConfig) : result TorrentEngine :=
  total ← Torrent.total_length t;
  let n := length (piece_hashes (info t)) in
  pm ← Pieces.new (Torrent.piece_length (info t)) total n;
  cache ← cache_default;
  Ok (mkEngine t pid c pm (new_picker n) (new_choke now) ∅ ∅ ∅ ∅ ∅ ∅ 0 0 false cache
    (throttle_bucket now <$> max_down_bytes_per_sec c) (throttle_bucket now <$> max_up_bytes_per_sec c) ∅ ∅).

Definition screen_ingested_peers (e : TorrentEngine) (addrs : list SocketAddr) : list SocketAddr * nat :=
  filter_dialable_peers addrs (martians_strict (cfg e)).

Definition announce_request (ev : Event) : E AnnounceRequest :=
  e ← gets eng;
  total ← lift (Torrent.total_length (torrent e));
  let left := sat_sub total (downloaded e) in
  let port := advertised_port (cfg_anonymous (cfg e)) (proxied (cfg e)) (listen_port (cfg e)) in
  mret (mkReq (Torrent.info_hash (torrent e)) (peer_id e) port (uploaded e) (downloaded e) left ev 50).

(** ** Interest and requests *)

Definition maybe_express_interest (env : Env) (addr : SocketAddr) : E unit :=
  e ← gets eng;
  let already := default false (am_interested e !! addr) in
  let useful := existsb (fun i => peer_has (picker e) addr i) (missing_pieces (pm e)) in
  h ← has_handle addr;
  if useful && negb already then
    if h : bool then
      _ ← try_send env addr CInterested;
      on_eng (fun e => with_am_interested (<[addr := true]> (am_interested e)) e)
    else mret tt
  else if negb useful && already then
    if h : bool then
      _ ← try_send env addr CNotInterested;
      on_eng (fun e => with_am_interested (<[addr := false]> (am_interested e)) e)
    else mret tt
  else mret tt.

(** The throttle at the request site: whether the block may be asked for. *)
Definition charge_download (env : Env) (len : Z) : E bool :=
  e ← gets eng;
  match download_bucket e with
  | None => mret true
  | Some b =>
      now ← ask (clock env);
      let '(b, ok) := try_consume now (of_int len) b in
      _ ← on_eng (with_download_bucket (Some b));
      mret ok
  end.

(** [if !endgame { self.pm.release_block(piece_idx, begin) }] *)
Definition give_back (endgame : bool) (piece_idx : nat) (begin : Z) : E unit :=
  if endgame then mret tt else on_pm (release_block piece_idx begin).

Definition key_of (piece_idx : nat) (begin : Z) : Z * Z := (wrap 32 (Z.of_nat piece_idx), begin).

(** The block to ask for next, in endgame any unfinished one we have not asked this peer for. *)
Definition next_block (addr : SocketAddr) (endgame : bool) (piece_idx : nat) : E (option (Z * Z)) :=
  if endgame then
    e ← gets eng;
    blocks ← lift (unfinished_blocks (pm e) piece_idx);
    mret (List.find (fun bl => negb (match endgame_requests e !! key_of piece_idx bl.1 with
                                     | Some v => bool_decide (addr ∈ v)
                                     | None => false
                                     end)) blocks)
  else on_pm (reserve_block piece_idx).

(** What is remembered of a request that was queued. *)
Definition note_request (env : Env) (addr : SocketAddr) (endgame : bool) (key : Z * Z) : E unit :=
  _ ← on_eng (fun e => with_inflight (<[addr := (default O (inflight e !! addr) + 1)%nat]> (inflight e)) e);
  if endgame then
    on_eng (fun e => with_endgame_requests (<[key := default [] (endgame_requests e !! key) ++ [addr]]> (endgame_requests e)) e)
  else
    now ← ask (clock env);
    on_eng (fun e => with_outstanding_requests (<[key := (addr, now)]> (outstanding_requests e)) e).

(** The body of [loop]: [true] to go round again, with the exhausted pieces. *)
Definition request_once (env : Env) (addr : SocketAddr) (endgame : bool) (exhausted : gset nat) : E (option (gset nat)) :=
  e ← gets eng;
  let cur := default O (inflight e !! addr) in
  if (PIPELINE_DEPTH <=? cur)%nat then mret None
  else
    sh ← ask (shuffle env);
    pick ← on_picker (pick_for sh addr (pm e) endgame);
    match pick with
    | None => mret None
    | Some piece_idx =>
        if decide (piece_idx ∈ exhausted) then mret None
        else
          block_opt ← next_block addr endgame piece_idx;
          match block_opt with
          | None =>
              _ ← on_picker (clear_assignment_if addr piece_idx);
              mret (Some ({[piece_idx]} ∪ exhausted))
          | Some (begin, len) =>
              paid ← charge_download env len;
              if negb paid then
                _ ← give_back endgame piece_idx begin; mret None
              else
                h ← has_handle addr;
                if negb h then
                  _ ← give_back endgame piece_idx begin; mret None
                else
                  ok ← try_send env addr (CRequest (wrap 32 (Z.of_nat piece_idx)) begin len);
                  if negb ok then
                    _ ← give_back endgame piece_idx begin; mret None
                  else
                    _ ← note_request env addr endgame (key_of piece_idx begin);
                    mret (Some exhausted)
          end
    end.

Fixpoint request_loop (fuel : nat) (env : Env) (addr : SocketAddr) (endgame : bool) (exhausted : gset nat) : E unit :=
  match fuel with
  | O => lift NoFuel
  | S fuel =>
      again ← request_once env addr endgame exhausted;
      match again with
      | None => mret tt
      | Some exhausted => request_loop fuel env addr endgame exhausted
      end
  end.

(** Each round asks for a block, of which at most [PIPELINE_DEPTH] are in flight, or exhausts a piece. *)
Definition loop_fuel (e : TorrentEngine) : nat := S (S (Pieces.num_pieces (pm e) + PIPELINE_DEPTH)).

Definition maybe_request_blocks (env : Env) (addr : SocketAddr) : E unit :=
  e ← gets eng;
  if paused e then mret tt
  else if default true (peer_choking_us e !! addr) then mret tt
  else
    missing ← lift (missing_count (pm e));
    let endgame := (missing <? ENDGAME_REMAINING)%nat && (0 <? missing)%nat in
    request_loop (loop_fuel e) env addr endgame ∅.

(** ** Bookkeeping of peers *)

Fixpoint release_keys (keys : list (Z * Z)) : E unit :=
  match keys with
  | [] => mret tt
  | (piece, begin) :: keys =>
      _ ← on_eng (fun e => with_outstanding_requests (delete (piece, begin) (outstanding_requests e)) e);
      _ ← on_pm (release_block (Z.to_nat piece) begin);
      release_keys keys
  end.

Definition release_outstanding_for (addr : SocketAddr) : E unit :=
  e ← gets eng;
  let to_release := (List.filter (fun kv => bool_decide (kv.2.1 = addr)) (map_to_list (outstanding_requests e))).*1 in
  release_keys to_release.

(** [for list in values_mut() { list.retain(|a| *a != addr) }; retain(|_, v| !v.is_empty())] *)
Definition forget_endgame (addr : SocketAddr) (m : gmap (Z * Z) (list SocketAddr)) : gmap (Z * Z) (list SocketAddr) :=
  omap (fun l => match List.filter (fun a => negb (bool_decide (a = addr))) l with [] => None | l => Some l end) m.

(** [endgame_requests.retain(|(i, _), _| *i != index)] *)
Definition forget_piece (index : Z) (m : gmap (Z * Z) (list SocketAddr)) : gmap (Z * Z) (list SocketAddr) :=
  filter (fun kv => kv.1.1 <> index) m.

Definition cleanup_disconnected_peer (addr : SocketAddr) : E unit :=
  _ ← on_eng (fun e => with_peer_choking_us (delete addr (peer_choking_us e)) e);
  _ ← on_eng (fun e => with_am_interested (delete addr (am_interested e)) e);
  _ ← on_eng (fun e => with_we_unchoked (delete addr (we_unchoked e)) e);
  _ ← on_eng (fun e => with_inflight (delete addr (inflight e)) e);
  e ← gets eng;
  _ ← match assignment (picker e) addr with
      | Some idx =>
          _ ← on_picker (release_assignment addr);
          on_pm (release_piece_inflight idx)
      | None => mret tt
      end;
  _ ← release_outstanding_for addr;
  _ ← on_picker (forget_peer addr);
  _ ← on_eng (fun e => with_choker (Choke.forget addr (choker e)) e);
  _ ← on_eng (fun e => with_peer_pex_ids (delete addr (peer_pex_ids e)) e);
  _ ← on_eng (fun e => with_peer_pex_snapshot (delete addr (peer_pex_snapshot e)) e);
  on_eng (fun e => with_endgame_requests (forget_endgame addr (endgame_requests e)) e).

(** [if let Some(c) = self.inflight.get_mut(&addr) { *c = c.saturating_sub(1) }] *)
Definition one_less (addr : SocketAddr) : E unit :=
  on_eng (fun e => match inflight e !! addr with
                   | Some c => with_inflight (<[addr := (c - 1)%nat]> (inflight e)) e
                   | None => e
                   end).

(** ** Uploads *)

(** [if let Some(b) = &mut self.upload_bucket { if !b.try_consume(length) { return } }] *)
Definition charge_upload (env : Env) (len : Z) : E bool :=
  e ← gets eng;
  match upload_bucket e with
  | None => mret true
  | Some b =>
      now ← ask (clock env);
      let '(b, ok) := try_consume now (of_int len) b in
      _ ← on_eng (with_upload_bucket (Some b));
      mret ok
  end.

(** The accounting and the hand-over to an upload task. *)
Definition dispatch_upload (env : Env) (addr : SocketAddr) (index begin len : Z) : E unit :=
  _ ← on_eng (fun e => with_uploaded (sat_add 64 (uploaded e) len) e);
  now ← ask (clock env);
  _ ← on_eng (fun e => with_choker (record_upload now addr len (choker e)) e);
  cached ← on_cache (cache_get index);
  let fin := Z.min (umax 64) (begin + len) in
  let read :=
    e ← gets eng;
    size ← lift (piece_size (pm e) (Z.to_nat index));
    modify (fun y => mkSys (eng y) (world y) (writes y) (answers y) (uploads y ++ [mkUpload addr index begin len (wrap 32 size)]) (sent y) (asked y)) in
  match cached with
  | Some piece =>
      if fin <=? Z.of_nat (length piece) then
        data ← lift (slice_range piece (Z.to_nat begin) (Z.to_nat fin));
        _ ← try_send env addr (CPiece index begin data);
        mret tt
      else read
  | None => read
  end.

Definition serve_request (env : Env) (addr : SocketAddr) (index begin len : Z) : E unit :=
  e ← gets eng;
  if negb (default false (we_unchoked e !! addr)) then mret tt
  else if (len =? 0) || (BLOCK_SIZE <? len) then mret tt
  else if (Pieces.num_pieces (pm e) <=? Z.to_nat index)%nat then mret tt
  else
    have ← lift (Prelude.index (local_bitfield (pm e)) (Z.to_nat index));
    if negb have then mret tt
    else
      size ← lift (piece_size (pm e) (Z.to_nat index));
      if size <? sat_add 64 begin len then mret tt
      else
        h ← has_handle addr;
        if negb h then mret tt
        else
          paid ← charge_upload env len;
          if negb paid then mret tt
          else dispatch_upload env addr index begin len.

(** The task spawned on a cache miss, once the storage task answered its read of the whole piece. *)
Definition upload_task (env : Env) (u : Upload) (reply : option (result bytes)) : E unit :=
  match reply with
  | Some (Ok piece) =>
      let fin := Z.min (umax 64) (up_begin u + up_length u) in
      if Z.of_nat (length piece) <? fin then mret tt
      else
        block ← lift (slice_range piece (Z.to_nat (up_begin u)) (Z.to_nat fin));
        _ ← on_cache (cache_insert (up_index u) piece);
        _ ← try_send env (up_addr u) (CPiece (up_index u) (up_begin u) block);
        mret tt
  | _ => mret tt
  end.

(** ** Peer events *)

(** Every other peer that was asked for the block in endgame is told to drop it. *)
Fixpoint cancel_list (env : Env) (addr : SocketAddr) (index begin len : Z) (others : list SocketAddr) : E unit :=
  match others with
  | [] => mret tt
  | other :: others =>
      _ ← (if decide (other = addr) then mret tt else send_if_connected env other (CCancel index begin (wrap 32 len)));
      cancel_list env addr index begin len others
  end.

Definition cancel_others (env : Env) (addr : SocketAddr) (index begin len : Z) : E unit :=
  e ← gets eng;
  match endgame_requests e !! (index, begin) with
  | Some l =>
      _ ← on_eng (fun e => with_endgame_requests (delete (index, begin) (endgame_requests e)) e);
      cancel_list env addr index begin len l
  | None => mret tt
  end.

(** A piece whose last block arrived: verified and written, or thrown away with the peer that sent it. *)
Definition finish_piece (sha1 : bytes -> bytes) (env : Env) (addr : SocketAddr) (index : Z) (buf : bytes) : E unit :=
  e ← gets eng;
  expected ← lift (Prelude.index (piece_hashes (info (torrent e))) (Z.to_nat index));
  if negb (join_ok env) then lift (Err (EIo "join"))
  else if verify_piece sha1 buf expected then
    if storage_open env then
      modify (fun y => mkSys (eng y) (world y) (writes y ++ [(Z.to_nat index, buf)]) (answers y) (uploads y) (sent y) (asked y))
    else lift (Err (EIo "storage task gone"))
  else
    _ ← on_pm (reset_piece (Z.to_nat index));
    _ ← on_cache (cache_invalidate index);
    _ ← on_world (PeerManager.ban sa_ip (sa_ip addr));
    _ ← on_picker (clear_assignment_if addr (Z.to_nat index));
    cleanup_disconnected_peer addr.

(** [if h.try_send(Unchoke).is_ok() { self.we_unchoked.insert(addr, true) }] and the same for [Choke]. *)
Definition unchoke (env : Env) (addr : SocketAddr) : E unit :=
  h ← has_handle addr;
  if negb h then mret tt
  else
    ok ← try_send env addr CUnchoke;
    if ok : bool then on_eng (fun e => with_we_unchoked (<[addr := true]> (we_unchoked e)) e) else mret tt.

Definition choke (env : Env) (addr : SocketAddr) : E unit :=
  h ← has_handle addr;
  if negb h then mret tt
  else
    ok ← try_send env addr CChoke;
    if ok : bool then on_eng (fun e => with_we_unchoked (<[addr := false]> (we_unchoked e)) e) else mret tt.

(** A block that was asked for: hand it over, account for it, cancel the other copies, and verify and store a finished piece. *)
Definition accept_block (sha1 : bytes -> bytes) (env : Env) (addr : SocketAddr) (index begin : Z) (data : bytes) : E unit :=
  let data_len := Z.of_nat (length data) in
  _ ← on_eng (fun e => with_outstanding_requests (delete (index, begin) (outstanding_requests e)) e);
  r ← catch (on_pm (received_block (Z.to_nat index) begin data));
  match r with
  | inl _ =>
      _ ← on_world (PeerManager.ban sa_ip (sa_ip addr));
      cleanup_disconnected_peer addr
  | inr outcome =>
      _ ← match outcome with
          | Duplicate => mret tt
          | _ =>
              now ← ask (clock env);
              _ ← on_eng (fun e => with_choker (record_download now addr data_len (choker e)) e);
              on_eng (fun e => with_downloaded (sat_add 64 (downloaded e) data_len) e)
          end;
      _ ← cancel_others env addr index begin data_len;
      _ ← match outcome with
          | Completed buf => finish_piece sha1 env addr index buf
          | _ => mret tt
          end;
      y ← gets world;
      if is_banned (mgr y) (sa_ip addr) then mret tt else maybe_request_blocks env addr
  end.

Definition handle_block (sha1 : bytes -> bytes) (env : Env) (addr : SocketAddr) (index begin : Z) (data : bytes) : E unit :=
  _ ← one_less addr;
  e ← gets eng;
  let in_endgame := match endgame_requests e !! (index, begin) with Some v => bool_decide (addr ∈ v) | None => false end in
  let in_normal := match outstanding_requests e !! (index, begin) with Some (a, _) => bool_decide (a = addr) | None => false end in
  if negb in_normal && negb in_endgame then maybe_request_blocks env addr
  else accept_block sha1 env addr index begin data.

(** [screen_ingested_peers] and [try_connect_many] *)
Definition ingest (addrs : list SocketAddr) : E unit :=
  e ← gets eng;
  let '(dialable, _) := screen_ingested_peers e addrs in
  on_world (fun w => (try_connect_many sa_ip dialable w).1).

Definition greet (env : Env) (addr : SocketAddr) (peer_fast : bool) : E unit :=
  e ← gets eng;
  h ← has_handle addr;
  if negb h then mret tt
  else
    complete ← lift (is_complete (pm e));
    if peer_fast && complete then _ ← try_send env addr CHaveAll; mret tt
    else if peer_fast && (complete_count (pm e) =? 0)%nat then _ ← try_send env addr CHaveNone; mret tt
    else if (0 <? complete_count (pm e))%nat then
      _ ← try_send env addr (CBitfield (bitfield_to_bytes (local_bitfield (pm e)))); mret tt
    else mret tt.

Definition note_pex_id (addr : SocketAddr) (their_ut_pex_id : option Z) : E unit :=
  e ← gets eng;
  if negb (cfg_anonymous (cfg e)) && negb (private (info (torrent e))) then
    match their_ut_pex_id with
    | Some id => on_eng (fun e => with_peer_pex_ids (<[addr := id]> (peer_pex_ids e)) e)
    | None => mret tt
    end
  else mret tt.

Definition take_pex (pex_peers : list SocketAddr) : E unit :=
  e ← gets eng;
  if cfg_anonymous (cfg e) || private (info (torrent e)) then mret tt else ingest pex_peers.

Definition handle_peer_event (sha1 : bytes -> bytes) (env : Env) (ev : PeerEvent) : E unit :=
  match ev with
  | Connected addr _ peer_reserved =>
      _ ← on_world (note_established addr);
      _ ← on_eng (fun e => with_peer_choking_us (<[addr := true]> (peer_choking_us e)) e);
      _ ← on_eng (fun e => with_am_interested (<[addr := false]> (am_interested e)) e);
      _ ← on_eng (fun e => with_we_unchoked (<[addr := false]> (we_unchoked e)) e);
      _ ← on_eng (fun e => with_inflight (<[addr := O]> (inflight e)) e);
      peer_fast ← lift (supports_fast_extensions peer_reserved);
      greet env addr peer_fast
  | Disconnected addr violation =>
      _ ← (if violation : bool then
             now ← ask (clock env);
             on_world (fun w => (record_violation sa_ip now (sa_ip addr) w).1)
           else mret tt);
      _ ← cleanup_disconnected_peer addr;
      on_world (PeerManager.forget addr)
  | HaveAll addr =>
      e ← gets eng;
      _ ← on_picker (set_peer_bitfield addr (replicate (Pieces.num_pieces (pm e)) true));
      maybe_express_interest env addr
  | RejectRequest addr index begin =>
      _ ← one_less addr;
      e ← gets eng;
      let owned := match outstanding_requests e !! (index, begin) with Some (a, _) => bool_decide (a = addr) | None => false end in
      let in_range := (Z.to_nat index <? Pieces.num_pieces (pm e))%nat in
      if owned && in_range then
        _ ← on_eng (fun e => with_outstanding_requests (delete (index, begin) (outstanding_requests e)) e);
        _ ← on_pm (release_block (Z.to_nat index) begin);
        maybe_request_blocks env addr
      else mret tt
  | Bitfield addr bits =>
      _ ← on_picker (set_peer_bitfield addr bits);
      _ ← maybe_express_interest env addr;
      maybe_request_blocks env addr
  | Have addr index =>
      _ ← on_picker (add_have addr (Z.to_nat index));
      _ ← maybe_express_interest env addr;
      maybe_request_blocks env addr
  | Choke addr =>
      _ ← on_eng (fun e => with_peer_choking_us (<[addr := true]> (peer_choking_us e)) e);
      _ ← on_eng (fun e => with_inflight (<[addr := O]> (inflight e)) e);
      e ← gets eng;
      _ ← match assignment (picker e) addr with
          | Some idx =>
              _ ← on_pm (release_piece_inflight idx);
              on_picker (release_assignment addr)
          | None => mret tt
          end;
      release_outstanding_for addr
  | Unchoke addr =>
      _ ← on_eng (fun e => with_peer_choking_us (<[addr := false]> (peer_choking_us e)) e);
      maybe_request_blocks env addr
  | Interested addr =>
      e ← gets eng;
      complete ← lift (is_complete (pm e));
      if complete && negb (default false (we_unchoked e !! addr)) then unchoke env addr else mret tt
  | NotInterested _ => mret tt
  | Block addr index begin data => handle_block sha1 env addr index begin data
  | Request addr index begin len => serve_request env addr index begin len
  | Cancel _ _ _ _ => mret tt
  | ExtensionHandshake addr their_ut_pex_id => note_pex_id addr their_ut_pex_id
  | Pex _ pex_peers => take_pex pex_peers
  end.

(** ** Storage events *)

(** A loop over addresses. *)
Fixpoint for_each (l : list SocketAddr) (f : SocketAddr -> E unit) : E unit :=
  match l with
  | [] => mret tt
  | a :: l => _ ← f a; for_each l f
  end.

Definition connected : E (list SocketAddr) := gets (fun y => addrs (mgr (world y))).

Definition handle_storage_event (env : Env) (ev : StorageEvent) : E unit :=
  match ev with
  | Written index =>
      _ ← on_pm (mark_complete index);
      _ ← on_eng (fun e => with_endgame_requests (forget_piece (wrap 32 (Z.of_nat index)) (endgame_requests e)) e);
      e ← gets eng;
      complete ← lift (is_complete (pm e));
      _ ← (if complete : bool then on_eng (fun e => with_choker (set_seeding true (choker e)) e) else mret tt);
      addrs ← connected;
      _ ← for_each addrs (fun a => send_if_connected env a (CHave (wrap 32 (Z.of_nat index))));
      for_each addrs (fun a =>
        _ ← on_picker (clear_assignment_if a index);
        maybe_request_blocks env a)
  | StorageError (Some i) _ =>
      _ ← on_pm (reset_piece i);
      on_eng (fun e => with_endgame_requests (forget_piece (wrap 32 (Z.of_nat i)) (endgame_requests e)) e)
  | StorageError None _ => mret tt
  end.

(** ** Timers *)

Definition set_list (l : list SocketAddr) : gset SocketAddr := list_to_set l.

(** One recipient of [send_pex_to_all]. *)
Definition send_pex (env : Env) (current : gset SocketAddr) (addr : SocketAddr) (ext_id : Z) : E unit :=
  e ← gets eng;
  let visible := current ∖ {[addr]} in
  let last := default ∅ (peer_pex_snapshot e !! addr) in
  let added := elements (visible ∖ last) in
  let dropped := elements (last ∖ visible) in
  if (length added =? 0)%nat && (length dropped =? 0)%nat then mret tt
  else
    let payload := build_pex_payload (take PEX_MAX_ENTRIES_PER_DIRECTION added) (take PEX_MAX_ENTRIES_PER_DIRECTION dropped) in
    h ← has_handle addr;
    ok ← (if h : bool then try_send env addr (CExtension ext_id payload) else mret true);
    if negb ok then mret tt
    else on_eng (fun e => with_peer_pex_snapshot (<[addr := visible]> (peer_pex_snapshot e)) e).

Fixpoint send_pex_list (env : Env) (current : gset SocketAddr) (targets : list (SocketAddr * Z)) : E unit :=
  match targets with
  | [] => mret tt
  | (addr, ext_id) :: targets => _ ← send_pex env current addr ext_id; send_pex_list env current targets
  end.

Definition send_pex_to_all (env : Env) : E unit :=
  current ← connected;
  e ← gets eng;
  send_pex_list env (set_list current) (map_to_list (peer_pex_ids e)).

(** The loop over the stale requests. *)
Fixpoint reap (env : Env) (stale : list ((Z * Z) * SocketAddr)) : E unit :=
  match stale with
  | [] => mret tt
  | ((piece, begin), addr) :: stale =>
      _ ← on_eng (fun e => with_outstanding_requests (delete (piece, begin) (outstanding_requests e)) e);
      _ ← on_pm (release_block (Z.to_nat piece) begin);
      _ ← one_less addr;
      _ ← maybe_request_blocks env addr;
      reap env stale
  end.

Definition stale_requests (now : Z) (m : gmap (Z * Z) (SocketAddr * Z)) : list ((Z * Z) * SocketAddr) :=
  (fun kv => (kv.1, kv.2.1)) <$> List.filter (fun kv => REQUEST_TIMEOUT <? sat_sub now kv.2.2) (map_to_list m).

Definition choke_timer (env : Env) : E unit :=
  candidates ← connected;
  now ← ask (clock env);
  n ← gets asked;
  dec ← on_choker (tick now (fun k => clock env (n + k)) (optimistic_choice env) candidates);
  _ ← for_each (to_unchoke dec) (unchoke env);
  _ ← for_each (to_choke dec) (choke env);
  now ← ask (clock env);
  e ← gets eng;
  reap env (stale_requests now (outstanding_requests e)).

(** ** The event loop *)

Inductive EngineEvent :=
  | PeerEv (ev : PeerEvent)
  | StorageAnswer (error : option Error)
  | UploadReply (i : nat) (reply : Upload -> option (result bytes))
  | Announced (peers : list SocketAddr) (new_id : bytes)
  | DhtPeers (peers : list SocketAddr)
  | ChokeTimer
  | PexTimer
  | ViolationGc
  | Control (ctl : EngineControl)
  | InboundRaw (addr : SocketAddr)
  | InboundHandshaken (addr : SocketAddr).

(** The storage task answers the oldest write it has not answered. *)
Definition storage_answer (env : Env) (error : option Error) : E unit :=
  w ← gets (fun y => writes y !! length (answers y));
  match w with
  | None => mret tt
  | Some (i, _) =>
      let ok := match error with None => true | Some _ => false end in
      _ ← modify (fun y => mkSys (eng y) (world y) (writes y) (answers y ++ [ok]) (uploads y) (sent y) (asked y));
      handle_storage_event env (match error with None => Written i | Some e => StorageError (Some i) e end)
  end.

(** The storage task answers the [i]-th waiting read: with an error, with bytes, or not at all. *)
Definition upload_reply (env : Env) (i : nat) (reply : Upload -> option (result bytes)) : E unit :=
  l ← gets uploads;
  match l !! i with
  | None => mret tt
  | Some u =>
      _ ← modify (fun y => mkSys (eng y) (world y) (writes y) (answers y) (take i l ++ drop (S i) l) (sent y) (asked y));
      upload_task env u (reply u)
  end.

(** The tracker's answer; an anonymous session takes a new peer id first. *)
Definition reannounce (new_id : bytes) (peers : list SocketAddr) : E unit :=
  e ← gets eng;
  _ ← (if cfg_anonymous (cfg e) then
         _ ← on_eng (with_peer_id new_id);
         on_world (on_mgr (PeerManager.set_peer_id new_id))
       else mret tt);
  ingest peers.

Definition dht_tick (peers : list SocketAddr) : E unit :=
  y ← gets (fun y => y);
  if (connected_count (mgr (world y)) <? cfg_max_peers (cfg (eng y)) / 2)%nat then ingest peers else mret tt.

Definition control (env : Env) (ctl : EngineControl) : E bool :=
  match ctl with
  | Pause => _ ← on_eng (with_paused true); mret false
  | Resume =>
      _ ← on_eng (with_paused false);
      addrs ← connected;
      _ ← for_each addrs (maybe_request_blocks env);
      mret false
  | ShutdownSession => mret true
  end.

(** One arm of [select!]; [true] when the loop is left.  [started_complete] is fixed at startup. *)
Definition engine_step (sha1 : bytes -> bytes) (started_complete : bool) (env : Env) (ev : EngineEvent) : E bool :=
  match ev with
  | PeerEv ev =>
      _ ← catch (handle_peer_event sha1 env ev);
      e ← gets eng;
      complete ← lift (is_complete (pm e));
      mret (complete && negb started_complete)
  | StorageAnswer error =>
      _ ← storage_answer env error;
      e ← gets eng;
      lift (is_complete (pm e))
  | UploadReply i reply => _ ← upload_reply env i reply; mret false
  | Announced peers new_id =>
      _ ← reannounce new_id peers;
      mret false
  | DhtPeers peers => _ ← dht_tick peers; mret false
  | ChokeTimer => _ ← choke_timer env; mret false
  | PexTimer =>
      e ← gets eng;
      _ ← (if bool_decide (peer_pex_ids e = ∅) then mret tt else send_pex_to_all env);
      mret false
  | ViolationGc =>
      now ← ask (clock env);
      _ ← on_world (gc_violations now);
      mret false
  | Control ctl => control env ctl
  | InboundRaw addr => _ ← on_world (fun w => (accept_incoming sa_ip addr w).1); mret false
  | InboundHandshaken addr => _ ← on_world (fun w => (accept_handshaken sa_ip addr w).1); mret false
  end.

(** A session: events in the order the loop takes them, until it is left. *)
Fixpoint engine_run (sha1 : bytes -> bytes) (started_complete : bool) (evs : list (Env * EngineEvent)) : E bool :=
  match evs with
  | [] => mret false
  | (env, ev) :: evs =>
      stop ← engine_step sha1 started_complete env ev;
      if stop : bool then mret true else engine_run sha1 started_complete evs
  end.

(** ** Startup *)

(** What the platform and the outside answer while a session starts. *)
Record Startup := mkStartup {
  st_now : Z;
  st_memspool_supported : bool;
  st_sandbox_supported : bool;
  st_managed_inbound : bool;
  st_global_cap : option nat;
  st_global_count : nat;
  st_utp_bound : bool;
  st_listener_port : option Z;
  st_resume_scan : Layout.Layout -> result (list nat);
  st_first_announce : option (list SocketAddr);
  st_sandbox_engaged : result unit;
}.

(** The peer manager of a new session; µTP only without a shared acceptor, proxy or anonymity. *)
Definition start_peers (st : Startup) (c : EngineConfig) (t : TorrentFile) (pid : bytes) : World_ :=
  let m := PeerManager.pm_new (Torrent.info_hash t) pid in
  let m := PeerManager.set_max_peers (cfg_max_peers c) m in
  let m := PeerManager.set_force_outgoing_mse (cfg_force_outgoing_mse c) m in
  let m := PeerManager.set_proxies (cfg_proxies c) m in
  let m := PeerManager.set_bind_iface (cfg_bind_iface c) m in
  let m := PeerManager.set_anonymous (cfg_anonymous c) m in
  let m := match st_global_cap st with Some cap => PeerManager.set_global_cap cap m | None => m end in
  let utp_on := negb (st_managed_inbound st) && utp_enabled c && negb (cfg_anonymous c) && negb (proxied c) && st_utp_bound st in
  PeerManager.mkWorld (PeerManager.set_utp (if utp_on then Some tt else None) m) (st_global_count st).

(** Whether the session binds a listener of its own. *)
Definition binds_listener (st : Startup) (c : EngineConfig) : bool :=
  negb (st_managed_inbound st) && inbound_wanted (cfg_anonymous c) (proxied c).

Definition with_listen_port (port : Z) (c : EngineConfig) : EngineConfig :=
  mkConfig (output_dir c) port (cfg_max_peers c) (progress_every c) (reannounce_min c) (seed_peers c) (no_tracker c)
    (cfg_force_outgoing_mse c) (enable_dht c) (dht_bootstrap c) (cfg_proxies c) (cfg_bind_iface c) (cfg_anonymous c)
    (paranoid c) (sandbox c) (memory_only c) (passphrase c) (spool_path c) (max_down_bytes_per_sec c) (max_up_bytes_per_sec c)
    (utp_enabled c) (web_port c) (selected_files c) (cfg_sequential c).

(** [--port 0] becomes the port the listener got. *)
Definition resolve_port (st : Startup) (c : EngineConfig) : EngineConfig :=
  match st_listener_port st with
  | Some port => if binds_listener st c && (listen_port c =? 0) then with_listen_port port c else c
  | None => c
  end.

Fixpoint mark_verified (already : list nat) : E unit :=
  match already with
  | [] => mret tt
  | i :: already => _ ← on_pm (mark_complete_verified i); mark_verified already
  end.

(** From the checked configuration to the loop; the result is [started_complete]. *)
Definition start_session (st : Startup) : E bool :=
  e ← gets eng;
  let c := cfg e in
  layout ← lift (Layout.from_torrent (output_dir c) (torrent e));
  _ ← (if cfg_sequential c then on_eng (fun e => with_picker (set_sequential true (picker e)) e) else mret tt);
  _ ← match selected_files c with
      | [] => mret tt
      | sel => wanted ← lift (Layout.wanted_pieces layout sel); on_pm (set_wanted wanted)
      end;
  already ← lift (if memory_only c then Ok [] else st_resume_scan st layout);
  _ ← mark_verified already;
  e ← gets eng;
  started_complete ← lift (is_complete (pm e));
  _ ← (if started_complete : bool then on_eng (fun e => with_choker (set_seeding true (choker e)) e) else mret tt);
  _ ← match seed_peers c with
      | [] => mret tt
      | peers => on_world (fun w => (try_connect_many sa_ip peers w).1)
      end;
  _ ← match st_first_announce st with
      | Some peers => if no_tracker c then mret tt else ingest peers
      | None => mret tt
      end;
  _ ← (if sandbox c then lift (st_sandbox_engaged st) else mret tt);
  mret started_complete.

Definition session_start (st : Startup) (t : TorrentFile) (pid : bytes) (c : EngineConfig) : result (Sys * bool) :=
  e ← engine_new (st_now st) t pid c;
  c ← startup_checks (st_memspool_supported st) (st_sandbox_supported st) c t;
  let w := start_peers st c t pid in
  let y := mkSys (with_cfg (resolve_port st c) e) w [] [] [] [] 0 in
  match start_session st y with
  | (y, Ok b) => Ok (y, b)
  | (_, Err e) => Err e
  | (_, Panic) => Panic
  | (_, NoFuel) => NoFuel
  end.

(** [run]: the session starts, then takes events until it is left. *)
Definition session (sha1 : bytes -> bytes) (st : Startup) (t : TorrentFile) (pid : bytes) (c : EngineConfig) (evs : list (Env * EngineEvent))
    : result (Sys * result bool) :=
  '(y, started_complete) ← session_start st t pid c;
  Ok (engine_run sha1 started_complete evs y).

(** Whether the session may publish itself on the DHT. *)
Definition announces_on_dht (st : Startup) (c : EngineConfig) (t : TorrentFile) (dht_spawned : bool) : bool :=
  let dht := dht_wanted (enable_dht c) (cfg_anonymous c) (proxied c) (private (info t)) && dht_spawned in
  let inbound_available := st_managed_inbound st || (binds_listener st c && match st_listener_port st with Some _ => true | None => false end) in
  dht && inbound_available.

(** ** The listener's gate: attempts per source address *)

Record Gate := mkGate { gate_buckets : gmap IpAddr TokenBucket; last_gc : Z }.

(** [buckets.retain(|_, b| b.available() < 9.0)]; [available] refills what it keeps. *)
Definition gate_gc (now : Z) (m : gmap IpAddr TokenBucket) : gmap IpAddr TokenBucket :=
  omap (fun b => let '(b, n) := available now b in if flt n (of_int 9) then Some b else None) m.

(** An accepted connection at time [now]: whether it is passed on. *)
Definition gate_accept (now : Z) (ip : IpAddr) (g : Gate) : Gate * bool :=
  let b := default (bucket_new now (of_int 10) (of_int 1)) (gate_buckets g !! ip) in
  let '(b, ok) := try_consume now (of_int 1) b in
  let m := <[ip := b]> (gate_buckets g) in
  if negb ok then (mkGate m (last_gc g), false)
  else if 300 * SEC <? sat_sub now (last_gc g) then (mkGate (gate_gc now m) now, true)
  else (mkGate m (last_gc g), true).

(** ** Progress *)

Record FileProgress := mkFileProgress { fp_path : bytes; fp_length : Z; fp_fraction : f64; fp_wanted : bool }.

Record EngineStats := mkStats {
  es_name : bytes;
  es_info_hash : bytes;
  es_complete_pieces : nat;
  es_total_pieces : nat;
  es_downloaded_bytes : Z;
  es_uploaded_bytes : Z;
  es_total_bytes : Z;
  es_peers_connected : nat;
  es_elapsed_secs : Z;
  es_down_rate_bps : Z;
  es_up_rate_bps : Z;
  es_complete : bool;
  es_paused : bool;
  es_remaining_bytes : Z;
  es_peers : list bytes;
  es_files : list FileProgress;
}.

Definition remaining_bytes (e : TorrentEngine) : result Z :=
  missing ← missing_count (pm e);
  total ← Torrent.total_length (torrent e);
  Ok (Z.min (Z.min (umax 64) (Z.of_nat missing * Pieces.piece_length (pm e))) (sat_sub total (downloaded e))).

Definition build_stats (e : TorrentEngine) (elapsed_secs : Z) (peers : list bytes) (down_rate_bps up_rate_bps : Z) (files : list FileProgress) : result EngineStats :=
  done_ ← wanted_complete_count (pm e);
  total ← Torrent.total_length (torrent e);
  complete ← is_complete (pm e);
  remaining ← remaining_bytes e;
  Ok (mkStats (name (info (torrent e))) (hex (Torrent.info_hash (torrent e))) done_ (wanted_count (pm e)) (downloaded e) (uploaded e)
    total (length peers) elapsed_secs down_rate_bps up_rate_bps complete (paused e) remaining peers files).

(** [done[fi] += count] over the slices of a piece, then over the pieces we have. *)
Fixpoint add_slices (done_ : list Z) (sl : list (nat * Z * Z)) : result (list Z) :=
  match sl with
  | [] => Ok done_
  | (fi, _, count) :: sl =>
      d ← Prelude.index done_ fi;
      d ← checked 64 (d + count);
      done_ ← set_index done_ fi d;
      add_slices done_ sl
  end.

Fixpoint count_done (e : TorrentEngine) (l : Layout.Layout) (pieces : list nat) (done_ : list Z) : result (list Z) :=
  match pieces with
  | [] => Ok done_
  | i :: pieces =>
      have ← Prelude.index (local_bitfield (pm e)) i;
      done_ ← (if have : bool then
                 psize ← piece_size (pm e) i;
                 sl ← Layout.slices_for_piece l i psize;
                 add_slices done_ sl
               else Ok done_);
      count_done e l pieces done_
  end.

Definition file_fraction (done_ len : Z) : f64 :=
  if len =? 0 then of_int 1 else fmin (fdiv (of_int done_) (of_int len)) (of_int 1).

(** The rows and the cache [(complete_count, rows)] afterwards. *)
Definition file_progress (e : TorrentEngine) (l : Layout.Layout) (cache : option (nat * list FileProgress))
    : result (list FileProgress * option (nat * list FileProgress)) :=
  if (length (Layout.l_files l) <=? 1)%nat then Ok ([], cache)
  else
    let complete := complete_count (pm e) in
    let fresh :=
      done_ ← count_done e l (seq 0 (Pieces.num_pieces (pm e))) (replicate (length (Layout.l_files l)) 0);
      let sel := selected_files (cfg e) in
      let rows := zip_with (fun f d => mkFileProgress (Layout.path f) (Layout.fs_length f) (file_fraction d (Layout.fs_length f))
        ((length sel =? 0)%nat || Layout.selected sel f)) (Layout.l_files l) done_ in
      Ok (rows, Some (complete, rows)) in
    match cache with
    | Some (cached_at, cached) => if (cached_at =? complete)%nat then Ok (cached, cache) else fresh
    | None => fresh
    end.

(** The instantaneous rates of the progress timer. *)
Definition rates (now : Z) (e : TorrentEngine) (rate_last : option (Z * Z * Z)) : Z * Z :=
  match rate_last with
  | Some (t0, d0, u0) =>
      let dt := fmax (as_secs_f64 (sat_sub now t0)) (fdiv (of_int 1) (of_int 1000)) in
      (to_usize (fdiv (of_int (sat_sub (downloaded e) d0)) dt), to_usize (fdiv (of_int (sat_sub (uploaded e) u0)) dt))
  | None => (0, 0)
  end.

(** The estimate of [log_progress]. *)
Definition eta (e : TorrentEngine) (down_rate_bps : Z) : result bytes :=
  remaining ← remaining_bytes e;
  complete ← is_complete (pm e);
  Ok (if complete : bool then bs "done" else if paused e then bs "paused"
      else if down_rate_bps =? 0 then bs "—" else fmt_duration (remaining / down_rate_bps)).
End Engine.

Arguments TorrentEngine C : clear implicits.
Arguments Sys C : clear implicits.

(** ** A session of one piece *)

Definition sha_ex (b : bytes) : bytes := take 20 (b ++ replicate 20 Byte.x00).

Definition data_ex : bytes := bs "abcd".

Definition torrent_of_ex : TorrentFile :=
  mkTorrentFile (replicate 20 Byte.x01) None [] (mkInfo (bs "f") 16384 [sha_ex data_ex] (Single 4) false).

Definition env_ex : Env := mkEnv Z.of_nat (fun _ => true) (fun _ l => l) (fun _ => None) true true.

Definition startup_ex : Startup :=
  mkStartup 0 true true false None 0 false (Some 6881) (fun _ => Ok []) None (Ok tt).

Definition peer_ex : SocketAddr := sock_addr (IpV4 Byte.xcb Byte.x00 Byte.x71 Byte.x07) 6881.

(** A seeder connects, offers everything, unchokes us and sends the only block. *)
Definition download_ex : list (Env * EngineEvent) := (fun ev => (env_ex, ev)) <$>
  [InboundRaw peer_ex; PeerEv (Connected peer_ex (replicate 20 Byte.x02) (replicate 8 Byte.x00)); PeerEv (HaveAll peer_ex);
   PeerEv (Unchoke peer_ex); PeerEv (Block peer_ex 0 0 data_ex); StorageAnswer None].
