(* ===== verification/EngineProofs.v ===== *)
(** * What a session promises: theorems about [Engine.v]

    One invariant of [Sys], preserved by every handler of the event loop for any
    event, any environment and any peers, and the theorems it gives: no event
    panics and every request loop ends; only verified pieces are written and only
    written or resumed pieces count as complete; requests name real blocks, uploads
    carry the stored bytes; only screened addresses are dialled. *)

From Stdlib Require Import ZArith Lia String Strings.Byte.
From stdpp Require Import base tactics numbers list option gmap fin_maps fin_sets.
From S2P Require Import Prelude PeerWire Pieces Picker Handshake Torrent Choke PeerManager Float64 Net RateLimit Extension Storage Cache Tracker Engine.

#[local] Set Warnings "-register-all".

(** ** The piece manager under the engine's calls *)

#[local] Abbreviation run := Pieces.run.
#[local] Abbreviation run_ok := Pieces.run_ok.

(** All blocks are in, the piece is not yet on disk. *)
Definition landed (pm : Pieces.PieceManager) (i : nat) : Prop :=
  exists p, row pm i = Some p /\ p_state p = InProgress /\ forallb id (p_rec p) = true.

(** Same geometry, and what was complete stays so. *)
Definition pm_le (pm pm' : Pieces.PieceManager) : Prop :=
  Pieces.num_pieces pm' = Pieces.num_pieces pm /\ (forall i, psize pm' i = psize pm i) /\
  (forall i, local pm !! i = Some true -> local pm' !! i = Some true).

Lemma pm_le_refl pm : pm_le pm pm.
Proof. done. Qed.

(** Calls that neither finish nor reset a piece. *)
Definition quiet (op : Op) : Prop :=
  match op with OpReserve _ | OpRelease _ _ | OpReleaseAll _ | OpReceive _ _ _ => True | _ => False end.

Lemma row_local pm i p : row pm i = Some p -> local pm !! i = Some (p_local p).
Proof.
  unfold row. destruct (states pm !! i), (requested pm !! i), (received pm !! i), (buffers pm !! i), (local pm !! i); cbn; by intros [= <-].
Qed.

Lemma a_start_fields size p : p_local (a_start size p) = p_local p /\ p_rec (a_start size p) = p_rec p.
Proof. unfold a_start. by destruct (p_state p). Qed.

Lemma a_reserve_fields size p : p_local (fst (a_reserve size p)) = p_local p /\ p_rec (fst (a_reserve size p)) = p_rec p /\
  (p_state p = InProgress -> p_state (fst (a_reserve size p)) = InProgress).
Proof.
  destruct (a_start_fields size p) as [E1 E2]. unfold a_reserve. destruct (p_state p) eqn:E; [| |cbn; by rewrite E];
  (destruct (free_block _); cbn; rewrite ?E1, ?E2; split_and!; try done; unfold a_start; rewrite E; by rewrite ?E).
Qed.

Lemma a_release_fields b p : p_local (a_release b p) = p_local p /\ p_rec (a_release b p) = p_rec p /\ p_state (a_release b p) = p_state p.
Proof. unfold a_release. destruct (p_state p) eqn:E, (b mod BLOCK_SIZE =? 0); cbn; by rewrite ?E. Qed.

Lemma a_release_all_fields p : p_local (a_release_all p) = p_local p /\ p_rec (a_release_all p) = p_rec p /\ p_state (a_release_all p) = p_state p.
Proof. unfold a_release_all. destruct (p_state p) eqn:E; cbn; by rewrite ?E. Qed.

(** What a quiet call does to the row it works on. *)
Lemma a_quiet size op p : 0 < size -> piece_ok size p = true -> quiet op ->
  match op with OpReceive _ b _ => 0 <= b | _ => True end ->
  p_local (fst (a_run size op p)) = p_local p /\
  (p_state p = InProgress -> forallb id (p_rec p) = true ->
     p_state (fst (a_run size op p)) = InProgress /\ forallb id (p_rec (fst (a_run size op p))) = true).
Proof.
  intros Hs Hok Hq Hb. destruct op; try done; cbn [a_run].
  - destruct (a_reserve_fields size p) as (E1 & E2 & E3). destruct (a_reserve size p) as [p' o]. cbn in *.
    split; [done|]. intros Hst Hr. by rewrite E2, E3.
  - cbn. destruct (a_release_fields begin p) as (E1 & E2 & E3). split; [done|]. intros Hst Hr. by rewrite E2, E3.
  - cbn. destruct (a_release_all_fields p) as (E1 & E2 & E3). split; [done|]. intros Hst Hr. by rewrite E2, E3.
  - destruct (a_receive size begin data p) as [p' r] eqn:E. cbn [fst]. destruct (a_start_fields size p) as [S1 S2].
    destruct (a_receive_cases size Hs begin data p p' r Hok Hb E) as [[-> _]|[[_ [->| ->]]|(buf & b & _ & _ & Hacc & _ & _ & Hl)]]; try done.
    + split; [done|]. intros Hst Hr. rewrite S2. split; [|done]. unfold a_start. by rewrite Hst.
    + split; [done|]. intros Hst Hr. exfalso. destruct Hacc as (_ & _ & Hf & _). rewrite S2 in Hf.
      rewrite forallb_lookup in Hr. by specialize (Hr _ _ Hf).
Qed.

Lemma run_put pm op : pm_ok pm -> op_ok pm op -> quiet op -> fst (run op pm) = pm \/
  exists i p, op_piece op = Some i /\ row pm i = Some p /\ (i < Pieces.num_pieces pm)%nat /\
    run op pm = (put pm i (fst (a_run (psize pm i) op p)), snd (a_run (psize pm i) op p)).
Proof.
  intros Hpm Hop Hq. destruct (op_piece op) as [i|] eqn:Hi; [|by destruct op].
  destruct (row pm i) as [p|] eqn:Hr.
  - right. exists i, p. split_and!; try done; [apply (pm_ok_row _ _ _ Hpm Hr)|by apply run_piece].
  - left. assert (i >= Pieces.num_pieces pm)%nat as Hge.
    { destruct (decide (i < Pieces.num_pieces pm)%nat) as [Hlt|]; [|lia]. destruct (row_is_Some pm i (proj1 (proj2 Hpm)) Hlt). congruence. }
    destruct op; simplify_eq/=; try lia. unfold and_out, received_block. msteps.
    by replace (Pieces.num_pieces pm <=? i)%nat with true by (symmetry; apply Nat.leb_le; lia).
Qed.

Lemma put_le pm i p p' : pm_ok pm -> row pm i = Some p -> p_local p' = p_local p -> pm_le pm (put pm i p').
Proof.
  intros Hpm Hr Hl. split_and!; try done. intros j Hj. cbn. destruct (decide (i = j)) as [->|Hne].
  - rewrite list_lookup_insert_eq by (by eapply lookup_lt_Some). rewrite Hl. rewrite (row_local _ _ _ Hr) in Hj. done.
  - by rewrite list_lookup_insert_ne.
Qed.

Lemma quiet_ok pm op : pm_ok pm -> op_ok pm op -> quiet op ->
  pm_ok (fst (run op pm)) /\ returns (snd (run op pm)) = true /\ pm_le pm (fst (run op pm)) /\
  local (fst (run op pm)) = local pm /\
  (forall i, landed pm i -> landed (fst (run op pm)) i).
Proof.
  intros Hpm Hop Hq. destruct (run_ok pm op Hpm Hop) as (H1 & H2 & _). split; [done|]. split; [done|].
  destruct (run_put pm op Hpm Hop Hq) as [->|(i & p & Hi & Hr & Hlt & ->)]; [done|]. cbn [fst].
  destruct (pm_ok_row _ _ _ Hpm Hr) as [_ Hok]. pose proof (psize_range pm (proj1 Hpm) i) as [Hs _].
  destruct (a_quiet (psize pm i) op p Hs Hok Hq) as [Hl Hd]; [destruct op; cbn in *; try done; lia|].
  split; [by eapply put_le|]. split.
  - cbn. rewrite Hl. apply list_insert_id. by apply row_local.
  - intros j (q & Hq1 & Hq2 & Hq3). destruct (decide (j = i)) as [->|Hne].
    + rewrite Hr in Hq1. injection Hq1 as <-. destruct (Hd Hq2 Hq3). eexists. split; [apply row_put; [apply Hpm|done]|]. done.
    + exists q. by rewrite row_put_ne.
Qed.

(** Received blocks: how large they are, and what a finished piece is. *)
Lemma receive_outcome pm i begin data pm' o :
  pm_ok pm -> 0 <= begin < 2 ^ 32 -> received_block i begin data pm = (pm', Ok o) ->
  (o = Duplicate \/ 0 <= Z.of_nat (length data) <= BLOCK_SIZE) /\
  forall d, o = Completed d -> (i < Pieces.num_pieces pm)%nat /\ Z.of_nat (length d) = psize pm i /\ landed pm' i /\ ~ landed pm i.
Proof.
  intros Hpm Hb E. pose (op := OpReceive i begin data).
  assert (Er : run op pm = (pm', Ok (Received o))) by (cbn; unfold and_out; msteps; by rewrite E).
  destruct (row pm i) as [p|] eqn:Hr.
  - rewrite (run_piece pm op i p Hpm Hb eq_refl Hr) in Er. destruct (pm_ok_row _ _ _ Hpm Hr) as [Hlt Hok].
    pose proof (psize_range pm (proj1 Hpm) i) as [Hs _]. cbn [a_run op] in Er.
    destruct (a_receive (psize pm i) begin data p) as [p' r] eqn:Ea. cbn [fst snd] in Er. injection Er as E1 E2.
    destruct (a_receive_cases (psize pm i) Hs begin data p p' r Hok ltac:(lia) Ea)
      as [[_ [e ->]]|[[-> _]|(buf & b & Hbb & _ & Hacc & Hcase & _ & _)]]; [done| |].
    + injection E2 as <-. split; [by left|done].
    + destruct Hacc as (Hlb & Hd & Hf & Hbuf & Hlen & Hrec & Hst).
      assert (0 <= Z.of_nat (length data) <= BLOCK_SIZE) by (rewrite Hd; unfold blen, sat_sub, BLOCK_SIZE; lia).
      split; [by right|]. intros d ->. destruct Hcase as [(Hall & _ & ->)|(_ & _ & ->)]; [|done]. injection E2 as <-.
      split_and!; [done| |exists p'; rewrite <- E1; split; [apply row_put; [apply Hpm|done]|done]|].
      * rewrite length_splice; [done|]. apply nblocks_spec in Hlb; [|lia]. rewrite Hbb. unfold blen, sat_sub, BLOCK_SIZE in *. lia.
      * intros (q & Hq1 & Hq2 & Hq3). rewrite Hr in Hq1. injection Hq1 as <-. rewrite (proj2 (a_start_fields _ p)) in Hf.
        rewrite forallb_lookup in Hq3. by specialize (Hq3 _ _ Hf).
  - exfalso. unfold received_block in E. revert E. msteps.
    destruct (Nat.leb_spec (Pieces.num_pieces pm) i) as [|Hlt]; [done|].
    destruct (row_is_Some pm i (proj1 (proj2 Hpm)) Hlt). congruence.
Qed.

Lemma reset_ok pm i : pm_ok pm -> landed pm i -> exists pm', reset_piece i pm = (pm', Ok tt) /\ pm_ok pm' /\ pm_le pm pm' /\
  local pm' = local pm /\ forall j, j <> i -> landed pm j -> landed pm' j.
Proof.
  intros Hpm (p & Hr & Hst & _). destruct (pm_ok_row _ _ _ Hpm Hr) as [Hlt _].
  assert (Hop : op_ok pm (OpReset i)) by (split; [done|]; rewrite (row_state _ _ _ Hr), Hst; done).
  destruct (run_ok pm (OpReset i) Hpm Hop) as (H1 & _). pose proof (run_piece pm (OpReset i) i p Hpm Hop eq_refl Hr) as E.
  cbn [a_run fst snd] in E. rewrite E in H1. cbn [fst] in H1. cbn [run] in E. unfold and_out in E. revert E. msteps.
  destruct (reset_piece i pm) as [pm' [[]| | |]]; [|done..]. intros [= ->]. eexists. split; [done|]. split; [done|].
  split; [by eapply put_le|]. split.
  - cbn. apply list_insert_id. by apply row_local.
  - intros j Hne (q & Hq). exists q. by rewrite row_put_ne.
Qed.

Lemma complete_ok pm i : pm_ok pm -> (i < Pieces.num_pieces pm)%nat -> exists pm', mark_complete i pm = (pm', Ok tt) /\ pm_ok pm' /\ pm_le pm pm' /\
  local pm' = <[i := true]> (local pm) /\ forall j, j <> i -> landed pm j -> landed pm' j.
Proof.
  intros Hpm Hlt. destruct (row_is_Some pm i (proj1 (proj2 Hpm)) Hlt) as [p Hr].
  destruct (run_ok pm (OpComplete i) Hpm Hlt) as (H1 & _). pose proof (run_piece pm (OpComplete i) i p Hpm Hlt eq_refl Hr) as E.
  cbn [a_run fst snd] in E. rewrite E in H1. cbn [fst] in H1. cbn [run] in E. unfold and_out in E. revert E. msteps.
  destruct (mark_complete i pm) as [pm' [[]| | |]]; [|done..]. intros [= ->]. eexists. split; [done|]. split; [done|].
  split; [|split; [done|]].
  - split_and!; try done. intros j Hj. cbn. destruct (decide (i = j)) as [->|Hne].
    + by rewrite list_lookup_insert_eq by (by eapply lookup_lt_Some).
    + by rewrite list_lookup_insert_ne.
  - intros j Hne (q & Hq). exists q. by rewrite row_put_ne.
Qed.

(** A block of piece [i]. *)
Definition block_of (pm : Pieces.PieceManager) (i : nat) (bl : Z * Z) : Prop :=
  exists b, (b < nblocks (psize pm i))%nat /\ bl = (Z.of_nat b * BLOCK_SIZE, blen (psize pm i) b).

Lemma unfinished_ok pm i : pm_ok pm -> (i < Pieces.num_pieces pm)%nat ->
  exists l, unfinished_blocks pm i = Ok l /\ Forall (block_of pm i) l.
Proof.
  intros Hpm Hi. destruct (row_is_Some pm i (proj1 (proj2 Hpm)) Hi) as [p Hr]. destruct (pm_ok_row _ _ _ Hpm Hr) as [_ Hok].
  pose proof (psize_range pm (proj1 Hpm) i) as [Hs Hmax]. apply piece_okE in Hok as (_ & Hc & _).
  unfold unfinished_blocks. rewrite num_blocks_eq by (done || apply Hpm). cbn [mbind result_bind].
  assert (Hrec : received pm !! i = Some (p_rec p)).
  { revert Hr. unfold row. destruct (states pm !! i), (requested pm !! i), (received pm !! i), (buffers pm !! i), (local pm !! i); cbn; by intros [= <-]. }
  assert (G : forall k b, (b + k <= nblocks (psize pm i))%nat -> exists l, unfinished_scan pm i b k = Ok l /\ Forall (block_of pm i) l).
  { induction k as [|k IH]; intros b Hb; cbn [unfinished_scan]; [by exists []|].
    destruct (lookup_lt_is_Some_2 (p_rec p) b) as [rc Erc]; [lia|].
    unfold received_bit. rewrite (index_Some _ _ _ Hrec). cbn [mbind result_bind]. rewrite (index_Some _ _ _ Erc). cbn [mbind result_bind].
    destruct (IH (S b) ltac:(lia)) as (l & El & Fl). destruct rc; cbn [negb]; [by exists l|].
    assert (Hbb : (b < nblocks (psize pm i))%nat) by lia.
    destruct (begin_eq pm (proj1 Hpm) i b Hbb) as [-> Hb50]. cbn [mbind result_bind].
    rewrite block_length_eq by (done || apply Hpm). cbn [mbind result_bind]. rewrite El. cbn [mbind result_bind].
    eexists. split; [done|]. constructor; [by exists b|done]. }
  by apply G.
Qed.

Lemma reserve_ok pm i pm' o : pm_ok pm -> (i < Pieces.num_pieces pm)%nat -> reserve_block i pm = (pm', Ok o) ->
  match o with Some bl => block_of pm i bl | None => True end.
Proof.
  intros Hpm Hi E. destruct (row_is_Some pm i (proj1 (proj2 Hpm)) Hi) as [p Hr]. destruct (pm_ok_row _ _ _ Hpm Hr) as [_ Hok].
  pose proof (run_piece pm (OpReserve i) i p Hpm Hi eq_refl Hr) as Er. cbn [run a_run] in Er. unfold and_out in Er. revert Er. msteps.
  rewrite E. unfold a_reserve. pose proof (psize_range pm (proj1 Hpm) i) as [Hs _]. apply piece_okE in Hok as (Hq & _).
  assert (Hf : forall b, free_block (a_start (psize pm i) p) = Some b -> (b < nblocks (psize pm i))%nat).
  { intros b Hb. unfold free_block in Hb. apply position_Some in Hb as (x & Hx & _). apply lookup_lt_Some in Hx. rewrite length_zip_with in Hx.
    assert (p_req (a_start (psize pm i) p) = p_req p) as Eq by (unfold a_start; by destruct (p_state p)). rewrite Eq in Hx. lia. }
  destruct (p_state p); [destruct (free_block _) as [b|]|destruct (free_block _) as [b|]|]; cbn; intros [= _ ->]; try done;
  exists b; split; auto.
Qed.

Lemma missing_count_ok pm : pm_ok pm -> exists k, missing_count pm = Ok k.
Proof. intros Hpm. unfold missing_count. rewrite scan_all by done. by eexists. Qed.

Lemma is_complete_ok pm : pm_ok pm -> exists b, is_complete pm = Ok b.
Proof. intros Hpm. unfold is_complete. rewrite scan_all by done. by eexists. Qed.

Lemma reserve_returns pm i : pm_ok pm -> (i < Pieces.num_pieces pm)%nat -> exists o, snd (reserve_block i pm) = Ok o.
Proof.
  intros Hpm Hi. destruct (row_is_Some pm i (proj1 (proj2 Hpm)) Hi) as [p Hr].
  pose proof (run_piece pm (OpReserve i) i p Hpm Hi eq_refl Hr) as E. cbn [run a_run] in E. unfold and_out in E. revert E. msteps.
  destruct (reserve_block i pm) as [pm' [o| | |]]; [by exists o|..]; by destruct (a_reserve _ _).
Qed.

Lemma release_returns pm i b : pm_ok pm -> (i < Pieces.num_pieces pm)%nat -> snd (release_block i b pm) = Ok tt.
Proof.
  intros Hpm Hi. destruct (row_is_Some pm i (proj1 (proj2 Hpm)) Hi) as [p Hr].
  pose proof (run_piece pm (OpRelease i b) i p Hpm Hi eq_refl Hr) as E. cbn [run a_run] in E. unfold and_out in E. revert E. msteps.
  by destruct (release_block i b pm) as [pm' [[]| | |]].
Qed.

(** ** Rates of the choke scheduler *)

Definition rates_within (B : Z) (s : ChokeScheduler SocketAddr) : Prop :=
  forall a q, samples s !! a = Some q -> Forall (fun b => 0 <= b) (q.*2) /\ zsum (q.*2) <= B.

Lemma prune_within cutoff q : Forall (fun b => 0 <= b) (q.*2) ->
  Forall (fun b => 0 <= b) ((prune cutoff q).*2) /\ zsum ((prune cutoff q).*2) <= zsum (q.*2).
Proof.
  induction q as [|[t b] q IH]; cbn; [done|]. intros [Hb Hq]%list.Forall_cons. destruct (t <? cutoff).
  - destruct (IH Hq). split; [done|]. unfold zsum in *. cbn. lia.
  - split; [by constructor|]. unfold zsum. cbn. lia.
Qed.

Lemma push_within B now (addr : SocketAddr) b (m : gmap SocketAddr (list (Z * Z))) : 0 <= b -> (forall a q, m !! a = Some q -> Forall (fun b => 0 <= b) (q.*2) /\ zsum (q.*2) <= B) -> 0 <= B ->
  forall a q, push_sample now addr b m !! a = Some q -> Forall (fun b => 0 <= b) (q.*2) /\ zsum (q.*2) <= B + b.
Proof.
  intros Hb Hm HB a q. unfold push_sample. intros [[<- <-]|[_ Hq]]%lookup_insert_Some.
  - assert (Hd : Forall (fun b => 0 <= b) ((default [] (m !! addr)).*2) /\ zsum ((default [] (m !! addr)).*2) <= B).
    { destruct (m !! addr) as [q|] eqn:E; [by apply Hm in E|]. cbn. by split. }
    destruct Hd as [H1 H2]. destruct (prune_within (now - RATE_WINDOW) (default [] (m !! addr) ++ [(now, b)])) as [P1 P2].
    + rewrite fmap_app. apply Forall_app. split; [done|]. by constructor.
    + split; [done|]. rewrite fmap_app, zsum_app in P2. cbn in P2. lia.
  - apply Hm in Hq as [? ?]. split; [done|lia].
Qed.

Lemma tick_keeps B now clk choose cs s : rates_within B s -> B < 2 ^ 64 ->
  exists s' dec, tick now clk choose cs s = (s', Ok dec) /\ rates_within B s'.
Proof.
  intros Hs HB. unfold tick. set (s1 := rotate now choose cs s).
  destruct (rotate_keeps now choose cs s) as (Es & _). fold s1 in Es.
  assert (Hr1 : rates_ok s1). { intros a q. rewrite Es. intros E. apply Hs in E as [? ?]. split; [done|lia]. }
  msteps. fold s1. rewrite rank_eq by done. cbn beta iota. destruct (decide_loop _ _ _ _ _) as [[m' tu] tc]. cbn beta iota.
  do 2 eexists. split; [done|]. unfold rates_within. cbn. by rewrite Es.
Qed.

(** ** The invariant *)

Section Invariant.
Context {C : Type} `{LruLaws C} (sha1 : bytes -> bytes) (content : Z -> option bytes) (size_of : nat -> Z) (resumed : list nat)
  (hashes : list bytes) (policy : bool) (seeds : list SocketAddr).

(** One hash per piece; sizes, hashes and the dialling policy are those the session started with. *)
Definition geometry (e : TorrentEngine C) : Prop :=
  Pieces.num_pieces (pm e) = length (piece_hashes (info (torrent e))) /\ (forall i, psize (pm e) i = size_of i) /\
  piece_hashes (info (torrent e)) = hashes /\ martians_strict (cfg e) = policy /\ seed_peers (cfg e) = seeds.

Definition eng_ok (B : Z) (e : TorrentEngine C) : Prop :=
  pm_ok (pm e) /\ geometry e /\ Z.of_nat (Pieces.num_pieces (pm e)) <= 2 ^ 32 /\
  pk_ok (Pieces.num_pieces (pm e)) (picker e) /\
  (forall k v, outstanding_requests e !! k = Some v -> 0 <= k.1 < Z.of_nat (Pieces.num_pieces (pm e))) /\
  (forall a c, inflight e !! a = Some c -> (c <= PIPELINE_DEPTH)%nat) /\
  rates_within B (choker e).

(** What storage was given: the right number of bytes with the right digest. *)
Definition verified (e : TorrentEngine C) (w : nat * bytes) : Prop :=
  (w.1 < Pieces.num_pieces (pm e))%nat /\ Z.of_nat (length w.2) = psize (pm e) w.1 /\
  piece_hashes (info (torrent e)) !! w.1 = Some (sha1 w.2).

Definition pending (y : Sys C) : list (nat * bytes) := drop (length (answers y)) (writes y).

Definition store_ok (y : Sys C) : Prop :=
  Forall (verified (eng y)) (writes y) /\ (length (answers y) <= length (writes y))%nat /\
  NoDup (pending y).*1 /\ Forall (fun w => landed (pm (eng y)) w.1) (pending y) /\
  (forall i, local (pm (eng y)) !! i = Some true ->
     i ∈ resumed \/ exists k d, writes y !! k = Some (i, d) /\ answers y !! k = Some true).

(** Part of a piece we have: what was stored, at the place that was asked for. *)
Definition part_ok (p : Pieces.PieceManager) (i begin len : Z) : Prop :=
  0 <= i /\ 0 <= begin /\ 0 < len <= BLOCK_SIZE /\ local p !! Z.to_nat i = Some true /\ begin + len <= psize p (Z.to_nat i).

Definition cmd_ok (p : Pieces.PieceManager) (c : PeerCommand) : Prop :=
  match c with
  | CRequest i b l => 0 <= i < Z.of_nat (Pieces.num_pieces p) /\ block_of p (Z.to_nat i) (b, l)
  | CPiece i b d => part_ok p i b (Z.of_nat (length d)) /\ exists x, content i = Some x /\ d = slice x (Z.to_nat b) (length d)
  | _ => True
  end.

Definition out_ok (y : Sys C) : Prop :=
  coherent content (upload_cache (eng y)) /\
  Forall (fun u => part_ok (pm (eng y)) (up_index u) (up_begin u) (up_length u)) (uploads y) /\
  Forall (fun x => cmd_ok (pm (eng y)) (command x)) (sent y).

(** Peers we dialled passed the screen of this session, or were configured by the user. *)
Definition dials_ok (y : Sys C) : Prop :=
  forall a slot, PeerManager.peers (mgr (world y)) !! a = Some slot -> slot_outgoing slot = true ->
    is_dialable_peer_addr a (martians_strict (cfg (eng y))) = true \/ a ∈ seed_peers (cfg (eng y)).

Definition Inv (B : Z) (y : Sys C) : Prop := eng_ok B (eng y) /\ store_ok y /\ out_ok y /\ dials_ok y.

(** Ends in [Inv] without a panic, keeping the geometry. *)
Definition good {A} (B : Z) (x : Sys C * result A) : Prop := Inv B (fst x) /\ returns (snd x) = true.

Definition keeps {A} (B : Z) (m : M (Sys C) A) : Prop := forall y, Inv B y -> good B (m y).

Lemma good_bind {A D} B (m : M (Sys C) A) (f : A -> M (Sys C) D) y :
  good B (m y) -> (forall a y', m y = (y', Ok a) -> Inv B y' -> good B (f a y')) -> good B ((m ≫= f) y).
Proof.
  intros [Hi Hr] Hf. unfold mbind, M_bind. destruct (m y) as [y' r] eqn:E. cbn [fst snd] in *.
  destruct r as [a|e| |]; try done. by apply Hf.
Qed.

Lemma step_bind {A D} B (m : M (Sys C) A) (f : A -> M (Sys C) D) : keeps B m -> (forall a, keeps B (f a)) -> keeps B (m ≫= f).
Proof. intros Hm Hf y Hy. apply good_bind; [by apply Hm|]. intros a y' _ Hy'. by apply Hf. Qed.

Lemma step_ret {A} B (a : A) : keeps B (mret a).
Proof. by intros y Hy. Qed.

Lemma step_gets {A D} B (g : Sys C -> A) (f : A -> M (Sys C) D) :
  (forall y, Inv B y -> good B (f (g y) y)) -> keeps B (gets g ≫= f).
Proof. intros Hf y Hy. by apply Hf. Qed.

Lemma step_lift {A} B (r : result A) : returns r = true -> keeps B (lift r).
Proof. by intros Hr y Hy. Qed.

Lemma keeps_if {A} B (b : bool) (m k : M (Sys C) A) : keeps B m -> keeps B k -> keeps B (if b then m else k).
Proof. by destruct b. Qed.

Lemma keeps_ask {A D} B (g : nat -> A) (f : A -> M (Sys C) D) : (forall a, keeps B (f a)) -> keeps B (ask g ≫= f).
Proof. intros Hf. apply step_bind; [|done]. by intros y Hy. Qed.

(** An update that the invariant does not look at. *)
Lemma keeps_eng B f : (forall y, Inv B y -> Inv B (fst (on_eng f y))) -> keeps B (on_eng f).
Proof. intros Hf y Hy. split; [by apply Hf|done]. Qed.

Lemma keeps_send B env addr cmd : (forall y, Inv B y -> cmd_ok (pm (eng y)) cmd) -> keeps B (try_send env addr cmd).
Proof.
  intros Hc y Hy. split; [|done]. pose proof (Hc y Hy) as Hcmd. destruct Hy as (He & Hs & (O1 & O2 & O3) & Hd).
  refine (conj He (conj Hs (conj (conj O1 (conj O2 _)) Hd))). cbn. apply Forall_app. split; [done|]. by constructor.
Qed.

Lemma keeps_send_if B env addr cmd : (forall y, Inv B y -> cmd_ok (pm (eng y)) cmd) -> keeps B (send_if_connected env addr cmd).
Proof.
  intros Hc. apply step_gets. intros y Hy. destruct (bool_decide _); [|done].
  apply good_bind; [by apply keeps_send|]. by intros.
Qed.

(** ** Sub-components *)

Lemma cmd_ok_le p p' c : pm_le p p' -> cmd_ok p c -> cmd_ok p' c.
Proof.
  intros (Hn & Hs & Hl). destruct c; cbn; try done.
  - intros [Hi (b & Hb & E)]. rewrite Hn. split; [done|]. exists b. by rewrite Hs.
  - intros [(H1 & H2 & H3 & H4 & H5) Hx]. split; [|done]. rewrite <- Hs in H5. split_and!; try done; try lia. by apply Hl.
Qed.

Lemma part_ok_le p p' i b l : pm_le p p' -> part_ok p i b l -> part_ok p' i b l.
Proof. intros (Hn & Hs & Hl) (H1 & H2 & H3 & H4 & H5). rewrite <- Hs in H5. split_and!; try done; try lia. by apply Hl. Qed.

Lemma out_ok_le y p' : out_ok y -> pm_le (pm (eng y)) p' ->
  out_ok (mkSys (with_pm p' (eng y)) (world y) (writes y) (answers y) (uploads y) (sent y) (asked y)).
Proof.
  intros (O1 & O2 & O3) Hle. split_and!; [done|..]; cbn.
  - eapply list.Forall_impl; [exact O2|]. intros u. by apply part_ok_le.
  - eapply list.Forall_impl; [exact O3|]. intros x. by apply cmd_ok_le.
Qed.

Lemma verified_le e p' w : pm_le (pm e) p' -> verified e w -> verified (with_pm p' e) w.
Proof. intros (Hn & Hs & _) (H1 & H2 & H3). split_and!; cbn; [lia|by rewrite Hs|done]. Qed.

Lemma eng_ok_le B e p' : eng_ok B e -> pm_ok p' -> pm_le (pm e) p' -> eng_ok B (with_pm p' e).
Proof.
  intros (E1 & (G1 & G2 & G3 & G4 & G5) & E3 & E4 & E5 & E6 & E7) Hp (Hn & Hs & _). unfold eng_ok, geometry. cbn. rewrite Hn. split_and!; try done. intros i. by rewrite Hs.
Qed.

(** The piece manager moves on without completing or losing anything. *)
Lemma inv_pm B y p' : Inv B y -> pm_ok p' -> pm_le (pm (eng y)) p' -> local p' = local (pm (eng y)) ->
  (forall i, landed (pm (eng y)) i -> landed p' i) ->
  Inv B (mkSys (with_pm p' (eng y)) (world y) (writes y) (answers y) (uploads y) (sent y) (asked y)).
Proof.
  intros (He & (S1 & S2 & S3 & S4 & S5) & Ho & Hd) Hp Hle Hl Hlan.
  split; [by apply eng_ok_le|]. split; [|split; [by apply out_ok_le|done]].
  split_and!; cbn; try done.
  - eapply list.Forall_impl; [exact S1|]. intros w. by apply verified_le.
  - eapply list.Forall_impl; [exact S4|]. intros w. apply Hlan.
  - by rewrite Hl.
Qed.

Lemma on_pm_quiet {A} B (m : M Pieces.PieceManager A) f op y :
  run op = and_out f m -> quiet op -> Inv B y -> op_ok (pm (eng y)) op ->
  good B (on_pm m y) /\ forall y' r, on_pm m y = (y', r) ->
    m (pm (eng y)) = (pm (eng y'), r) /\ inflight (eng y') = inflight (eng y) /\ pm_le (pm (eng y)) (pm (eng y')).
Proof.
  intros Er Hq Hy Hop. pose proof Hy as (He & _). destruct (quiet_ok (pm (eng y)) op (proj1 He) Hop Hq) as (H1 & H2 & H3 & H4 & H5).
  rewrite Er in *. unfold and_out, on_pm in *. revert H1 H2 H3 H4 H5. msteps. destruct (m (pm (eng y))) as [p' r] eqn:E.
  assert (Ef : fst (match r with Ok a => (p', Ok (f a)) | Err e => (p', Err e) | Panic => (p', Panic) | NoFuel => (p', NoFuel) end) = p') by (by destruct r).
  rewrite Ef. intros H1 H2 H3 H4 H5. split.
  - split; [by apply inv_pm|]. by destruct r.
  - by intros y' r' [= <- <-].
Qed.

Lemma keeps_picker {A} B (m : M (Picker SocketAddr) A) :
  (forall n pk, pk_ok n pk -> exists pk' a, m pk = (pk', Ok a) /\ pk_ok n pk') -> keeps B (on_picker m).
Proof.
  intros Hm y ((E1 & E2 & E3 & E4 & E5 & E6 & E7) & Hs & Ho & Hd). destruct (Hm _ _ E4) as (pk' & a & E & Hpk).
  unfold on_picker. rewrite E. split; [|done]. by split_and!.
Qed.

Lemma keeps_world B f : (forall y, Inv B y -> dials_ok (fst (on_world f y))) -> keeps B (on_world f).
Proof. intros Hf y Hy. split; [|done]. pose proof (Hf y Hy) as Hd. destruct Hy as (He & Hs & Ho & _). by split_and!. Qed.

(** ** Requests *)

Definition env_ok (env : Env) : Prop := forall k l, shuffle env k l ≡ₚ l.

#[local] Abbreviation np y := (Pieces.num_pieces (pm (eng y))).
#[local] Abbreviation load y addr := (default O (inflight (eng y) !! addr)).

(** A step that leaves the geometry and the pipeline of [addr] alone. *)
Definition steady {A} (B : Z) (addr : SocketAddr) (y : Sys C) (x : Sys C * result A) : Prop :=
  exists a, snd x = Ok a /\ Inv B (fst x) /\ np (fst x) = np y /\ load (fst x) addr = load y addr /\ (forall i, psize (pm (eng (fst x))) i = psize (pm (eng y)) i).

Lemma give_back_steady B addr endgame i b y : Inv B y -> (i < np y)%nat -> steady B addr y (give_back endgame i b y).
Proof.
  intros Hy Hi. unfold give_back. destruct endgame; [by exists tt|].
  destruct (on_pm_quiet B (release_block i b) (fun _ => Done) (OpRelease i b) y eq_refl I Hy Hi) as [[Hg Hr] Hx].
  destruct (on_pm (release_block i b) y) as [y' r] eqn:E. destruct (Hx y' r eq_refl) as (Em & Ei & Hn & Hs & _). cbn [fst snd] in *.
  pose proof (release_returns (pm (eng y)) i b (proj1 (proj1 Hy)) Hi) as Hok. rewrite Em in Hok. cbn in Hok. subst r. exists tt. split_and!; try done. cbn [fst]. by rewrite Ei.
Qed.

Lemma charge_steady B addr env len y : Inv B y -> steady B addr y (charge_download env len y).
Proof.
  intros Hy. unfold charge_download, ask, on_eng. msteps. destruct (download_bucket (eng y)) as [b|]; [|by exists true].
  destruct (try_consume (clock env (asked y)) (of_int len) b) as [b' ok]. exists ok. by split_and!.
Qed.

Lemma next_block_steady B addr endgame i y : Inv B y -> (i < np y)%nat ->
  steady B addr y (next_block addr endgame i y) /\
  forall y' bl, next_block addr endgame i y = (y', Ok (Some bl)) -> block_of (pm (eng y)) i bl.
Proof.
  intros Hy Hi. pose proof (proj1 (proj1 Hy)) as Hpm. unfold next_block. destruct endgame.
  - msteps. destruct (unfinished_ok (pm (eng y)) i Hpm Hi) as (l & El & Fl). rewrite El. split; [by eexists|].
    intros y' bl [= _ Ef]. apply find_some in Ef as [Hin _]. rewrite list.Forall_forall in Fl. apply Fl. by apply list_elem_of_In.
  - destruct (on_pm_quiet B (reserve_block i) Reserved (OpReserve i) y eq_refl I Hy Hi) as [[Hg Hr] Hx].
    destruct (on_pm (reserve_block i) y) as [y' r] eqn:E. destruct (Hx y' r eq_refl) as (Em & Ei & Hn & Hs & _). cbn [fst snd] in *.
    destruct (reserve_returns (pm (eng y)) i Hpm Hi) as [o Eo]. rewrite Em in Eo. cbn in Eo. subst r. split.
    + exists o. split_and!; try done. cbn [fst]. by rewrite Ei.
    + intros y'' bl [= <- ->]. by apply (reserve_ok _ _ _ _ Hpm Hi Em).
Qed.

Lemma note_request_ok B env addr endgame key y :
  Inv B y -> (load y addr < PIPELINE_DEPTH)%nat -> 0 <= key.1 < Z.of_nat (np y) ->
  exists y', note_request env addr endgame key y = (y', Ok tt) /\ Inv B y' /\ np y' = np y /\ load y' addr = S (load y addr).
Proof.
  intros ((E1 & E2 & E3 & E4 & E5 & E6 & E7) & Hs & Ho & Hd) Hl Hk. unfold note_request, on_eng, ask. msteps.
  assert (F : forall a c, <[addr := (load y addr + 1)%nat]> (inflight (eng y)) !! a = Some c -> (c <= PIPELINE_DEPTH)%nat).
  { intros a c [[_ <-]|[_ Ha]]%lookup_insert_Some; [lia|by eapply E6]. }
  destruct endgame; cbn beta iota; (eexists; split; [done|]); (split; [|split; [done|cbn; rewrite lookup_insert_eq; cbn; lia]]).
  - by split_and!.
  - split_and!; try done. split_and!; try done. cbn. intros k v [[<- _]|[_ Hv]]%lookup_insert_Some; [done|by eapply E5].
Qed.

(** What is left to do: rounds that exhaust a piece, and rounds that fill the pipeline. *)
Definition rounds (y : Sys C) (addr : SocketAddr) (exhausted : gset nat) : nat :=
  (np y - size exhausted + (PIPELINE_DEPTH - load y addr))%nat.

Definition below (n : nat) (X : gset nat) : Prop := forall x, x ∈ X -> (x < n)%nat.

Lemma below_size n X : below n X -> (size X <= n)%nat.
Proof.
  intros HX. assert (Hs : X ⊆ (set_seq 0 n : gset nat)) by (intros x Hx; apply elem_of_set_seq; specialize (HX x Hx); lia).
  apply subseteq_size in Hs. by rewrite size_set_seq in Hs.
Qed.

Lemma exhaust_less n X i : below n X -> (i < n)%nat -> i ∉ X -> below n ({[i]} ∪ X) /\ (size ({[i]} ∪ X) = S (size X))%nat /\ (size X < n)%nat.
Proof.
  intros HX Hi Hn. assert (Hb : below n ({[i]} ∪ X)) by (intros x [->%elem_of_singleton|Hx]%elem_of_union; auto).
  assert (Hs : size ({[i]} ∪ X) = S (size X)).
  { rewrite size_union by (intros x ->%elem_of_singleton Hx; done). by rewrite size_singleton. }
  pose proof (below_size _ _ Hb). split_and!; [done|done|lia].
Qed.

Lemma steady_next {A D} B addr (y0 y : Sys C) (m : M (Sys C) A) (f : A -> M (Sys C) D) (Q : Sys C * result D -> Prop) :
  steady B addr y (m y) -> np y = np y0 -> load y addr = load y0 addr -> (forall i, psize (pm (eng y)) i = psize (pm (eng y0)) i) ->
  (forall a y', m y = (y', Ok a) -> Inv B y' -> np y' = np y0 -> load y' addr = load y0 addr ->
     (forall i, psize (pm (eng y')) i = psize (pm (eng y0)) i) -> Q (f a y')) ->
  Q ((m ≫= f) y).
Proof.
  intros (a & Er & Hi & Hn & Hl & Hp) Hn0 Hl0 Hp0 Hf. unfold mbind, M_bind. destruct (m y) as [y' r]. cbn [fst snd] in *. subst r.
  apply Hf; [done|done|congruence|congruence|]. intros i. by rewrite Hp, Hp0.
Qed.

(** The result of one round: stop, or strictly fewer rounds to go. *)
Definition round_ok (B : Z) (addr : SocketAddr) (exhausted : gset nat) (y : Sys C) (x : Sys C * result (option (gset nat))) : Prop :=
  exists r, snd x = Ok r /\ Inv B (fst x) /\ np (fst x) = np y /\
    match r with None => True | Some ex => below (np y) ex /\ (rounds (fst x) addr ex < rounds y addr exhausted)%nat end.

Lemma stop_ok B addr ex (y0 y : Sys C) (m : M (Sys C) unit) : steady B addr y (m y) -> np y = np y0 ->
  round_ok B addr ex y0 ((_ ← m; mret None) y).
Proof.
  intros (a & Er & Hi & Hn & _) Hn0. unfold mbind, M_bind. destruct (m y) as [y' r]. cbn [fst snd] in *. subst r.
  exists None. split_and!; try done. etransitivity; [exact Hn|exact Hn0].
Qed.

Lemma ask_steady {A} B addr (g : nat -> A) y : Inv B y -> steady B addr y (ask g y).
Proof. intros Hy. by exists (g (asked y)). Qed.

Lemma pick_steady B addr sh who pm0 endgame y : (forall l, sh l ≡ₚ l) -> Inv B y -> pm0 = pm (eng y) ->
  steady B addr y (on_picker (pick_for sh who pm0 endgame) y) /\
  forall y' i, on_picker (pick_for sh who pm0 endgame) y = (y', Ok (Some i)) -> (i < np y)%nat.
Proof.
  intros Hsh ((E1 & E2 & E3 & E4 & E5 & E6 & E7) & Hs & Ho & Hd) ->.
  destruct (pick_for_ok (np y) sh who (pm (eng y)) endgame (picker (eng y)) Hsh E1 eq_refl E4) as (pk' & o & E & Hpk & Hi).
  unfold on_picker. rewrite E. split; [|intros y' i [= _ ->]; by apply Hi]. exists o. split; [done|]. split; [|done]. by split_and!.
Qed.

Lemma clear_steady B addr who i y : Inv B y -> steady B addr y (on_picker (clear_assignment_if who i) y).
Proof.
  intros ((E1 & E2 & E3 & E4 & E5 & E6 & E7) & Hs & Ho & Hd).
  destruct (clear_assignment_ok (np y) who i (picker (eng y)) E4) as (pk' & E & Hpk). unfold on_picker. rewrite E.
  exists tt. split; [done|]. split; [|done]. by split_and!.
Qed.

Lemma send_request_steady B env addr i b l y : Inv B y -> (i < np y)%nat -> block_of (pm (eng y)) i (b, l) ->
  steady B addr y (try_send env addr (CRequest (wrap 32 (Z.of_nat i)) b l) y).
Proof.
  intros Hy Hi Hb. pose proof Hy as ((_ & _ & Hn & _) & _). rewrite wrap_small by lia.
  unfold try_send, ask. msteps. eexists. split; [done|]. split; [|done].
  destruct Hy as (He & Hs & (O1 & O2 & O3) & Hd). refine (conj He (conj Hs (conj (conj O1 (conj O2 _)) Hd))). cbn.
  apply Forall_app. split; [done|]. constructor; [|done]. cbn. rewrite Nat2Z.id. split; [lia|done].
Qed.

Lemma request_once_ok B env addr endgame exhausted y :
  env_ok env -> Inv B y -> below (np y) exhausted ->
  round_ok B addr exhausted y (request_once env addr endgame exhausted y).
Proof.
  intros Henv Hy Hex. unfold request_once. rewrite bind_gets.
  assert (Hstop : forall y', Inv B y' -> np y' = np y -> round_ok B addr exhausted y (y', Ok None)) by (intros y' H1 H2; by exists None).
  destruct (Nat.leb_spec PIPELINE_DEPTH (load y addr)) as [|Hload]; [by apply Hstop|].
  eapply (steady_next B addr y y); [by apply ask_steady|done..|]. intros sh y1 Ea H1 N1 L1 P1.
  assert (Hsh : forall l, sh l ≡ₚ l) by (unfold ask in Ea; injection Ea as _ <-; apply Henv).
  assert (Epm : pm (eng y) = pm (eng y1)) by (unfold ask in Ea; by injection Ea as <- _).
  destruct (pick_steady B addr sh addr (pm (eng y)) endgame y1 Hsh H1 Epm) as [Hp Hpi].
  eapply (steady_next B addr y y1); [exact Hp|done..|]. intros pick y2 E2 H2 N2 L2 P2. destruct pick as [i|]; [|by apply Hstop].
  apply Hpi in E2. destruct (decide (i ∈ exhausted)) as [|Hni]; [by apply Hstop|].
  destruct (next_block_steady B addr endgame i y2 H2 ltac:(lia)) as [Hn Hbl].
  eapply (steady_next B addr y y2); [exact Hn|done..|]. intros bo y3 E3 H3 N3 L3 P3. destruct bo as [[b l]|].
  2: { eapply (steady_next B addr y y3); [by apply clear_steady|done..|]. intros [] y4 _ H4 N4 L4 _.
    destruct (exhaust_less (np y) exhausted i Hex ltac:(lia) Hni) as (Hb & Hs & Hlt).
    exists (Some ({[i]} ∪ exhausted)). split; [done|]. split; [done|]. split; [exact N4|]. split; [done|]. unfold rounds. cbn [fst mret M_ret]. rewrite N4, L4, Hs. lia. }
  specialize (Hbl _ _ E3).
  eapply (steady_next B addr y y3); [by apply charge_steady|done..|]. intros paid y4 _ H4 N4 L4 P4.
  assert (Hgb : forall z, Inv B z -> np z = np y -> steady B addr z (give_back endgame i b z)) by (intros z Hz Hnz; apply give_back_steady; [done|lia]).
  destruct paid; cbn [negb]; [|apply stop_ok; [by apply Hgb|done]].
  unfold has_handle. rewrite bind_gets. destruct (bool_decide _); cbn [negb]; [|apply stop_ok; [by apply Hgb|done]].
  assert (Hb4 : block_of (pm (eng y4)) i (b, l)).
  { destruct Hbl as (k & Hk & E). exists k. by rewrite P4, <- P2. }
  eapply (steady_next B addr y y4); [apply send_request_steady; [done|lia|done]|done..|]. intros ok y5 _ H5 N5 L5 _.
  destruct ok; cbn [negb]; [|apply stop_ok; [by apply Hgb|done]].
  pose proof H5 as ((_ & _ & Hn5 & _) & _).
  destruct (note_request_ok B env addr endgame (key_of i b) y5 H5) as (y6 & E6 & H6 & N6 & L6).
  { rewrite L5. lia. }
  { unfold key_of. cbn [fst]. rewrite wrap_small by lia. lia. }
  unfold mbind, M_bind. rewrite E6. exists (Some exhausted). split; [done|]. split; [done|]. split; [etransitivity; [exact N6|exact N5]|]. split; [done|]. unfold rounds. cbn [fst mret M_ret]. rewrite N6, N5, L6, L5. lia.
Qed.

Lemma request_loop_ok B env addr endgame fuel : env_ok env -> forall exhausted y, Inv B y -> below (np y) exhausted -> (rounds y addr exhausted < fuel)%nat ->
  exists y', request_loop fuel env addr endgame exhausted y = (y', Ok tt) /\ Inv B y' /\ np y' = np y.
Proof.
  intros Henv. induction fuel as [|fuel IH]; intros ex y Hy Hex Hf; [lia|]. cbn [request_loop].
  destruct (request_once_ok B env addr endgame ex y Henv Hy Hex) as (r & Er & Hi & Hn & Hr).
  unfold mbind, M_bind. destruct (request_once env addr endgame ex y) as [y1 r1]. cbn [fst snd] in *. subst r1.
  destruct r as [ex'|]; [|by exists y1]. destruct Hr as [Hb Hlt].
  destruct (IH ex' y1 Hi) as (y2 & E2 & H2 & N2); [by rewrite Hn|lia|]. exists y2. split_and!; try done. congruence.
Qed.

(** Asking for blocks always ends, whatever the peer has and whatever the environment answers. *)
Lemma maybe_request_ok B env addr y : env_ok env -> Inv B y ->
  exists y', maybe_request_blocks env addr y = (y', Ok tt) /\ Inv B y' /\ np y' = np y.
Proof.
  intros Henv Hy. unfold maybe_request_blocks. rewrite bind_gets.
  destruct (paused (eng y)); [by exists y|]. destruct (default true (peer_choking_us (eng y) !! addr)); [by exists y|].
  destruct (missing_count_ok (pm (eng y)) (proj1 (proj1 Hy))) as [k Ek]. msteps. rewrite Ek.
  apply request_loop_ok; [done|done|by intros x ?%elem_of_empty|]. unfold rounds, loop_fuel. rewrite size_empty. lia.
Qed.

Lemma keeps_request B env addr : env_ok env -> keeps B (maybe_request_blocks env addr).
Proof. intros Henv y Hy. destruct (maybe_request_ok B env addr y Henv Hy) as (y' & -> & Hi & _). by split. Qed.

Lemma keeps_interest B env addr : keeps B (maybe_express_interest env addr).
Proof.
  apply step_gets. intros y Hy. unfold has_handle. rewrite bind_gets.
  assert (K : forall b cmd, (forall p, cmd_ok p cmd) -> good B ((_ ← try_send env addr cmd; on_eng (fun e => with_am_interested (<[addr := b]> (am_interested e)) e)) y)).
  { intros b cmd Hc. apply step_bind; [apply keeps_send; by intros|intros _; by apply keeps_eng|done]. }
  destruct (_ && negb _); [destruct (bool_decide _); [by apply K|done]|].
  destruct (negb _ && _); [destruct (bool_decide _); [by apply K|done]|done].
Qed.

(** ** Departing peers *)

Lemma out_delete B y key : Inv B y ->
  Inv B (fst (on_eng (fun e => with_outstanding_requests (delete key (outstanding_requests e)) e) y)).
Proof.
  intros ((E1 & E2 & E3 & E4 & E5 & E6 & E7) & Hs & Ho & Hd). split_and!; try done. split_and!; try done. cbn.
  intros k v [_ Hk]%lookup_delete_Some. by eapply E5.
Qed.

Lemma release_good B y i b : Inv B y -> (i < np y)%nat -> good B (on_pm (release_block i b) y) /\ np (fst (on_pm (release_block i b) y)) = np y.
Proof.
  intros Hy Hi. destruct (on_pm_quiet B (release_block i b) (fun _ => Done) (OpRelease i b) y eq_refl I Hy Hi) as [Hg Hx].
  destruct (on_pm (release_block i b) y) as [y' r] eqn:E. destruct (Hx y' r eq_refl) as (_ & _ & Hn & _). by split.
Qed.

Lemma release_keys_good B keys : forall y, Inv B y -> Forall (fun k : Z * Z => 0 <= k.1 < Z.of_nat (np y)) keys -> good B (release_keys keys y).
Proof.
  induction keys as [|[i b] keys IH]; intros y Hy Hk; cbn [release_keys]; [done|]. apply list.Forall_cons in Hk as [Hi Hk]. cbn in Hi.
  apply good_bind; [split; [by apply out_delete|done]|]. intros [] y1 E1 H1.
  assert (N1 : np y1 = np y) by (unfold on_eng, modify in E1; by injection E1 as <-).
  destruct (release_good B y1 (Z.to_nat i) b H1 ltac:(lia)) as [Hg Hn]. apply good_bind; [done|].
  intros [] y2 E2 H2. rewrite E2 in Hn. cbn in Hn. apply IH; [done|]. by rewrite Hn, N1.
Qed.

Lemma keeps_release_for B addr : keeps B (release_outstanding_for addr).
Proof.
  apply step_gets. intros y Hy. apply release_keys_good; [done|]. pose proof Hy as ((_ & _ & _ & _ & E5 & _) & _).
  apply list.Forall_forall. intros k ([k' v] & -> & Hin)%list_elem_of_fmap. apply list_elem_of_In, filter_In in Hin as [Hin _].
  apply list_elem_of_In, elem_of_map_to_list in Hin. by eapply E5.
Qed.

Lemma keeps_inflight_delete B addr : keeps B (on_eng (fun e => with_inflight (delete addr (inflight e)) e)).
Proof.
  apply keeps_eng. intros y ((E1 & E2 & E3 & E4 & E5 & E6 & E7) & Hs & Ho & Hd). split_and!; try done. split_and!; try done. cbn.
  intros a c [_ Ha]%lookup_delete_Some. by eapply E6.
Qed.

Lemma keeps_inflight_set B addr n : (n <= PIPELINE_DEPTH)%nat -> keeps B (on_eng (fun e => with_inflight (<[addr := n]> (inflight e)) e)).
Proof.
  intros Hn. apply keeps_eng. intros y ((E1 & E2 & E3 & E4 & E5 & E6 & E7) & Hs & Ho & Hd). split_and!; try done. split_and!; try done. cbn.
  intros a c [[_ <-]|[_ Ha]]%lookup_insert_Some; [done|by eapply E6].
Qed.

Lemma keeps_one_less B addr : keeps B (one_less addr).
Proof.
  apply keeps_eng. intros y ((E1 & E2 & E3 & E4 & E5 & E6 & E7) & Hs & Ho & Hd).
  unfold on_eng. cbn. destruct (inflight (eng y) !! addr) as [c0|] eqn:E; [|by split_and!].
  split_and!; try done. split_and!; try done. cbn.
  intros a c [[_ <-]|[_ Ha]]%lookup_insert_Some; [specialize (E6 _ _ E); lia|by eapply E6].
Qed.

(** The blocks a peer was assigned are released. *)
Lemma release_assigned B y addr idx : Inv B y -> assignment (picker (eng y)) addr = Some idx ->
  good B (on_pm (release_piece_inflight idx) y).
Proof.
  intros Hy Ha. pose proof Hy as ((_ & _ & _ & (Hn & _ & _ & Hass) & _) & _). apply Hass in Ha. rewrite Hn in Ha.
  by destruct (on_pm_quiet B (release_piece_inflight idx) (fun _ => Done) (OpReleaseAll idx) y eq_refl I Hy Ha).
Qed.

Lemma picker_unit B (m : M (Picker SocketAddr) unit) :
  (forall n pk, pk_ok n pk -> exists pk', m pk = (pk', Ok tt) /\ pk_ok n pk') -> keeps B (on_picker m).
Proof. intros Hm. apply keeps_picker. intros n pk Hpk. destruct (Hm n pk Hpk) as (pk' & E & Hk). by exists pk', tt. Qed.

Lemma release_assigned_after B y addr idx : Inv B y -> assignment (picker (eng y)) addr = Some idx ->
  good B ((_ ← on_picker (release_assignment addr); on_pm (release_piece_inflight idx)) y).
Proof.
  intros Hy Ha. pose proof Hy as ((E1 & E2 & E3 & (Hn & Hl & Hf & Hass) & E5 & E6 & E7) & Hs & Ho & Hd).
  apply good_bind; [apply picker_unit; [by intros; apply release_assignment_ok|done]|].
  intros [] y1 Ey H1. assert (N1 : np y1 = np y) by (unfold on_picker, release_assignment, gets, modify in Ey; by injection Ey as <-).
  apply Hass in Ha. rewrite Hn in Ha.
  by destruct (on_pm_quiet B (release_piece_inflight idx) (fun _ => Done) (OpReleaseAll idx) y1 eq_refl I H1 ltac:(cbn; lia)).
Qed.

Lemma keeps_choker_forget B addr : keeps B (on_eng (fun e => with_choker (Choke.forget addr (choker e)) e)).
Proof.
  apply keeps_eng. intros y ((E1 & E2 & E3 & E4 & E5 & E6 & E7) & Hs & Ho & Hd). split_and!; try done. split_and!; try done. cbn.
  intros a q. cbn. intros [_ Hq]%lookup_delete_Some. by eapply E7.
Qed.

Lemma keeps_cleanup B addr : keeps B (cleanup_disconnected_peer addr).
Proof.
  unfold cleanup_disconnected_peer.
  apply step_bind; [by apply keeps_eng|intros _]. apply step_bind; [by apply keeps_eng|intros _].
  apply step_bind; [by apply keeps_eng|intros _]. apply step_bind; [apply keeps_inflight_delete|intros _].
  apply step_gets. intros y Hy. apply good_bind.
  { destruct (assignment _ _) as [idx|] eqn:E; [by eapply release_assigned_after|done]. }
  intros [] y1 _ H1. revert y1 H1. apply step_bind; [apply keeps_release_for|intros _].
  apply step_bind; [apply picker_unit; by intros; apply forget_peer_ok|intros _].
  apply step_bind; [apply keeps_choker_forget|intros _].
  apply step_bind; [by apply keeps_eng|intros _]. apply step_bind; [by apply keeps_eng|intros _]. by apply keeps_eng.
Qed.

(** ** The peer manager *)

#[local] Abbreviation World_ := (World SocketAddr IpAddr Socks5.ProxyConfig unit).

(** The table only shrinks. *)
Definition shrinks (f : World_ -> World_) : Prop := forall w a slot,
  PeerManager.peers (mgr (f w)) !! a = Some slot -> PeerManager.peers (mgr w) !! a = Some slot.

Lemma keeps_shrink B f : shrinks f -> keeps B (on_world f).
Proof. intros Hf. apply keeps_world. intros y (_ & _ & _ & Hd) a slot Ha. apply Hd. by apply Hf. Qed.

Lemma ban_shrinks i : shrinks (PeerManager.ban sa_ip i).
Proof. intros w a slot. unfold PeerManager.ban. rewrite drop_all_peers. by destruct (decide _). Qed.

Lemma violation_shrinks now i : shrinks (fun w => (record_violation sa_ip now i w).1).
Proof.
  intros w a slot. unfold record_violation. destruct (bool_decide _); [done|]. destruct (_ <=? _); cbn [fst]; [|done].
  intros Ha. by apply ban_shrinks in Ha.
Qed.

Lemma forget_shrinks a : shrinks (PeerManager.forget a).
Proof. intros w b slot. unfold PeerManager.forget. rewrite remove_slot_peers. by destruct (decide _). Qed.

Lemma connect_peers l : forall w a slot, PeerManager.peers (mgr (try_connect_many sa_ip l w).1) !! a = Some slot ->
  PeerManager.peers (mgr w : PeerManager.PeerManager SocketAddr IpAddr Socks5.ProxyConfig unit) !! a = Some slot \/ a ∈ l.
Proof.
  induction l as [|b l IH]; intros w a slot; cbn [try_connect_many]; [by left|].
  destruct (_ <=? _)%nat; [by left|]. destruct (bool_decide (is_Some _)); [intros Ha; apply IH in Ha as [|]; [by left|right; by apply elem_of_cons; right]|].
  destruct (bool_decide (sa_ip b ∈ _)); [intros Ha; apply IH in Ha as [|]; [by left|right; by apply elem_of_cons; right]|].
  unfold spawn_outgoing. destruct (bool_decide _); [by left|]. destruct (_ <=? _)%nat; [by left|]. destruct (acquire_global w) as [[g c]|]; [|by left].
  cbn beta iota zeta. destruct (try_connect_many sa_ip l _) as [w' n] eqn:E. cbn [fst]. intros Ha.
  assert (Ha' : PeerManager.peers (mgr (try_connect_many sa_ip l (add_slot b (mkSlot true (Some (our_peer_id (mgr (on_mgr (fun m => with_pending ({[b]} ∪ pending_dials m) m) w))))
    (PeerManager.anonymous (mgr (on_mgr (fun m => with_pending ({[b]} ∪ pending_dials m) m) w))) g) c (on_mgr (fun m => with_pending ({[b]} ∪ pending_dials m) m) w))).1) !! a = Some slot) by (by rewrite E).
  apply IH in Ha' as [Ha'|]; [|right; by apply elem_of_cons; right]. cbn in Ha'.
  apply lookup_insert_Some in Ha' as [[-> _]|[_ Ha']]; [right; by apply elem_of_cons; left|by left].
Qed.

Lemma filter_peers_ok addrs strict : forall out dropped, Forall (fun a => is_dialable_peer_addr a strict = true) out -> (length out <= MAX_INGESTED_PEERS_PER_EVENT)%nat ->
  Forall (fun a => is_dialable_peer_addr a strict = true) (filter_peers addrs out strict dropped).1 /\
  (length (filter_peers addrs out strict dropped).1 <= MAX_INGESTED_PEERS_PER_EVENT)%nat.
Proof.
  induction addrs as [|a addrs IH]; intros out dropped Ho Hl; cbn [filter_peers]; [done|].
  destruct (is_dialable_peer_addr a strict) eqn:Ea; [|by apply IH].
  destruct (Nat.ltb_spec (length out) MAX_INGESTED_PEERS_PER_EVENT); [|by apply IH].
  apply IH; [apply Forall_app; split; [done|by constructor]|rewrite length_app; cbn [length]; lia].
Qed.

Lemma keeps_ingest B l : keeps B (ingest l).
Proof.
  apply step_gets. intros y Hy. unfold screen_ingested_peers, filter_dialable_peers.
  destruct (filter_peers_ok l (martians_strict (cfg (eng y))) [] 0 ltac:(constructor) ltac:(cbn; lia)) as [Hf _].
  destruct (filter_peers l [] _ 0) as [dialable dropped]. cbn [fst] in Hf.
  destruct Hy as (He & Hs & Ho & Hd). split; [|done]. split_and!; try done.
  intros a slot Ha Hout. cbn in Ha. apply connect_peers in Ha as [Ha|Hin]; [by eapply Hd|].
  left. rewrite list.Forall_forall in Hf. by apply Hf.
Qed.

Lemma keeps_accept B f : (forall w a slot, PeerManager.peers (mgr (f w)) !! a = Some slot -> slot_outgoing slot = true ->
  PeerManager.peers (mgr (w : World_)) !! a = Some slot) -> keeps B (on_world f).
Proof. intros Hf. apply keeps_world. intros y (_ & _ & _ & Hd) a slot Ha Ho. cbn in Ha. apply Hf in Ha; [|done]. by eapply Hd. Qed.

Lemma accept_incoming_slots addr (w : World_) a slot : PeerManager.peers (mgr (accept_incoming sa_ip addr w).1) !! a = Some slot ->
  slot_outgoing slot = true -> PeerManager.peers (mgr w) !! a = Some slot.
Proof.
  unfold accept_incoming. destruct (_ || _); [done|]. destruct (bool_decide _); [done|]. destruct (acquire_global w) as [[g c]|]; [|done].
  cbn. intros [[_ <-]|[_ Ha]]%lookup_insert_Some; done.
Qed.

Lemma accept_handshaken_slots addr (w : World_) a slot : PeerManager.peers (mgr (accept_handshaken sa_ip addr w).1) !! a = Some slot ->
  slot_outgoing slot = true -> PeerManager.peers (mgr w) !! a = Some slot.
Proof.
  unfold accept_handshaken. destruct (_ || _); [done|]. destruct (bool_decide _); [done|]. destruct (acquire_global w) as [[g c]|]; [|done].
  cbn. intros [[_ <-]|[_ Ha]]%lookup_insert_Some; done.
Qed.

(** ** Accounting *)

Lemma inv_mono B B' y : B <= B' -> Inv B y -> Inv B' y.
Proof.
  intros HB ((E1 & E2 & E3 & E4 & E5 & E6 & E7) & Hs & Ho & Hd). split_and!; try done. split_and!; try done.
  intros a q Hq. apply E7 in Hq as [? ?]. split; [done|lia].
Qed.

Lemma good_mono {A} B B' (x : Sys C * result A) : B <= B' -> good B x -> good B' x.
Proof. intros HB [Hi Hr]. split; [by eapply inv_mono|done]. Qed.

Lemma inv_choker B B' y s' : Inv B y -> rates_within B' s' ->
  Inv B' (mkSys (with_choker s' (eng y)) (world y) (writes y) (answers y) (uploads y) (sent y) (asked y)).
Proof. intros ((E1 & E2 & E3 & E4 & E5 & E6 & E7) & Hs & Ho & Hd) Hr. by split_and!. Qed.

Lemma upload_recorded B now addr len y : 0 <= B -> 0 <= len -> Inv B y ->
  good (B + len) (on_eng (fun e => with_choker (record_upload now addr len (choker e)) e) y).
Proof.
  intros HB Hl Hy. split; [|done]. apply (inv_choker B); [done|]. destruct Hy as ((_ & _ & _ & _ & _ & _ & E7) & _).
  intros a q. cbn. by apply push_within.
Qed.

Lemma download_recorded B now addr len y : 0 <= B -> 0 <= len -> Inv B y ->
  good (B + len) (on_eng (fun e => with_choker (record_download now addr len (choker e)) e) y).
Proof.
  intros HB Hl Hy. split; [|done]. apply (inv_choker B); [done|]. destruct Hy as ((_ & _ & _ & _ & _ & _ & E7) & _).
  intros a q. cbn. by apply push_within.
Qed.

(** ** Uploads *)

Lemma keeps_cache_get B i : keeps B (on_cache (cache_get i)).
Proof.
  intros y (He & Hs & (O1 & O2 & O3) & Hd). unfold on_cache, cache_get.
  destruct (cache_get_coherent content i (upload_cache (eng y)) O1) as [Hc _]. destruct (lru_get i (upload_cache (eng y))) as [c r].
  split; [|done]. refine (conj He (conj Hs (conj (conj Hc (conj O2 O3)) Hd))).
Qed.

Lemma slice_part (x : bytes) b l : 0 <= b -> 0 <= l -> b + l <= Z.of_nat (length x) -> Z.of_nat (length x) < 2 ^ 64 ->
  exists d, slice_range x (Z.to_nat b) (Z.to_nat (Z.min (umax 64) (b + l))) = Ok d /\ Z.of_nat (length d) = l /\ d = slice x (Z.to_nat b) (length d).
Proof.
  intros Hb Hl Hx Hm. rewrite Z.min_r by (unfold umax; lia). eexists. split; [apply slice_range_Ok; lia|].
  replace (Z.to_nat (b + l) - Z.to_nat b)%nat with (Z.to_nat l) by lia. rewrite length_slice by lia. split; [lia|done].
Qed.

(** Contents are pieces of this torrent's size. *)
Definition content_ok : Prop := forall i x, content i = Some x -> 0 <= i -> Z.of_nat (length x) = size_of (Z.to_nat i).

Lemma content_length B y i x : content_ok -> Inv B y -> content i = Some x -> 0 <= i -> Z.of_nat (length x) = psize (pm (eng y)) (Z.to_nat i).
Proof. intros Hc ((_ & (_ & Hg & _) & _) & _) Hx Hi. rewrite Hg. by apply Hc. Qed.

Lemma dispatch_good B env addr i b l y : 0 <= B -> Inv B y -> content_ok -> (Z.to_nat i < np y)%nat ->
  part_ok (pm (eng y)) i b l -> good (B + BLOCK_SIZE) (dispatch_upload env addr i b l y).
Proof.
  intros HB Hy Hcon Hi Hp. pose proof Hp as (P1 & P2 & P3 & P4 & P5). unfold dispatch_upload.
  set (P := fun z : Sys C => pm (eng z) = pm (eng y)).
  apply (good_bind _ _ _ _); [split; [eapply inv_mono; [|exact Hy]; lia|done]|]. intros [] y1 E1 _.
  assert (H1 : Inv B y1 /\ P y1) by (injection E1 as <-; split; [exact Hy|reflexivity]). destruct H1 as [H1 Q1].
  apply (good_bind _ _ _ _); [split; [eapply inv_mono; [|exact H1]; lia|done]|]. intros now y2 E2 _.
  assert (H2 : Inv B y2 /\ P y2) by (injection E2 as <-; split; [exact H1|exact Q1]). destruct H2 as [H2 Q2].
  apply good_bind; [apply (good_mono (B + l)); [lia|]; apply upload_recorded; [done|lia|done]|]. intros [] y3 E3 H3.
  assert (Q3 : P y3) by (injection E3 as <-; exact Q2).
  apply good_bind; [by apply keeps_cache_get|]. intros cached y4 E4 H4.
  assert (Q4 : P y4) by (unfold on_cache, cache_get in E4; destruct (lru_get i _); injection E4 as <- _; exact Q3).
  assert (Hp4 : part_ok (pm (eng y4)) i b l) by (rewrite Q4; exact Hp).
  assert (Hread : good (B + BLOCK_SIZE) ((e ← gets eng; size ← lift (piece_size (pm e) (Z.to_nat i));
    modify (fun z => mkSys (eng z) (world z) (writes z) (answers z) (uploads z ++ [mkUpload addr i b l (wrap 32 size)]) (sent z) (asked z))) y4)).
  { rewrite bind_gets. rewrite Q4. msteps. rewrite piece_size_eq by (apply Hy || done). split; [|done].
    destruct H4 as (He & Hs & (O1 & O2 & O3) & Hd). refine (conj He (conj Hs (conj (conj O1 (conj _ O3)) Hd))). cbn.
    apply Forall_app. split; [done|]. constructor; [|done]. cbn. by rewrite Q4. }
  destruct cached as [x|]; [|exact Hread]. destruct (Z.leb_spec (Z.min (umax 64) (b + l)) (Z.of_nat (length x))) as [Hle|]; [|exact Hread].
  assert (Hx : content i = Some x).
  { destruct H3 as (_ & _ & (O1 & _) & _). destruct (cache_get_coherent content i _ O1) as [_ Hg]. apply Hg.
    unfold on_cache, cache_get in E4. destruct (lru_get i _) as [c r]. by injection E4 as _ ->. }
  pose proof (content_length B y i x Hcon Hy Hx P1) as Hlen. pose proof (psize_range (pm (eng y)) (proj1 (proj1 (proj1 Hy))) (Z.to_nat i)).
  destruct (slice_part x b l) as (d & Ed & Ld & Hd); [lia|lia|lia|lia|]. msteps. rewrite Ed. cbn beta iota.
  apply (good_bind _ (try_send env addr (CPiece i b d))); [|intros _ y5 _ Hy5; by split]. split; [|done].
  destruct H4 as (He & Hs & (O1 & O2 & O3) & Hdd). refine (conj He (conj Hs (conj (conj O1 (conj O2 _)) Hdd))). cbn.
  apply Forall_app. split; [done|]. constructor; [|done]. cbn [cmd_ok command]. rewrite Ld. split; [exact Hp4|by exists x].
Qed.

Lemma charge_upload_eng B env len y : Inv B y -> exists y' ok, charge_upload env len y = (y', Ok ok) /\ Inv B y' /\ pm (eng y') = pm (eng y).
Proof.
  intros Hy. unfold charge_upload, ask, on_eng. msteps. destruct (upload_bucket (eng y)) as [b|]; [|by exists y, true].
  destruct (try_consume (clock env (asked y)) (of_int len) b) as [b' ok]. eexists _, ok. by split_and!.
Qed.

Lemma serve_good B env addr i b l y : 0 <= B -> Inv B y -> content_ok -> 0 <= i -> 0 <= b < 2 ^ 32 -> 0 <= l < 2 ^ 32 ->
  good (B + BLOCK_SIZE) (serve_request env addr i b l y).
Proof.
  intros HB Hy Hcon Hi Hb Hl. assert (Hq : good (B + BLOCK_SIZE) ((y, Ok tt) : Sys C * result unit)).
  { split; [|done]. eapply inv_mono; [|exact Hy]. unfold BLOCK_SIZE. lia. }
  pose proof Hy as ((Hpm & _) & _). unfold serve_request. rewrite bind_gets.
  destruct (default false _); cbn [negb]; [|exact Hq]. destruct (Z.eqb_spec l 0) as [|Hnz]; [exact Hq|]. destruct (Z.ltb_spec BLOCK_SIZE l) as [|Hbs]; [exact Hq|]. cbn [orb].
  destruct (Nat.leb_spec (np y) (Z.to_nat i)) as [|Hlt]; [exact Hq|].
  assert (Hlen : length (local (pm (eng y))) = np y) by apply Hpm.
  destruct (lookup_lt_is_Some_2 (local (pm (eng y))) (Z.to_nat i)) as [have Eh]; [lia|]. unfold local_bitfield. msteps. rewrite (index_Some _ _ _ Eh).
  cbn beta iota. destruct have; cbn [negb]; [|exact Hq]. rewrite piece_size_eq by (apply Hpm || done). cbn beta iota.
  destruct (Z.ltb_spec (psize (pm (eng y)) (Z.to_nat i)) (sat_add 64 b l)) as [|Hsz]; [exact Hq|].
  unfold has_handle, gets. cbn beta iota. destruct (bool_decide _); cbn [negb]; [|exact Hq].
  destruct (charge_upload_eng B env l y Hy) as (y1 & ok & E1 & H1 & P1). rewrite E1. cbn beta iota. destruct ok; cbn [negb].
  - apply dispatch_good; [done|done|done|by rewrite P1|]. rewrite P1.
    split_and!; try done; try lia. unfold sat_add, umax in Hsz. lia.
  - split; [|done]. eapply inv_mono; [|exact H1]. unfold BLOCK_SIZE. lia.
Qed.

(** The answer to a read is the content of its piece. *)
Definition reply_ok (u : Upload) (reply : option (result bytes)) : Prop := forall x, reply = Some (Ok x) -> content (up_index u) = Some x.

Lemma upload_task_good B env u reply y : Inv B y -> content_ok ->
  part_ok (pm (eng y)) (up_index u) (up_begin u) (up_length u) -> reply_ok u reply -> good B (upload_task env u reply y).
Proof.
  intros Hy Hcon Hp Hr. pose proof Hp as (P1 & P2 & P3 & P4 & P5). unfold upload_task. destruct reply as [[x| | |]|]; try done.
  pose proof (Hr x eq_refl) as Hx. pose proof (content_length B y _ _ Hcon Hy Hx P1) as Hlen.
  pose proof (psize_range (pm (eng y)) (proj1 (proj1 (proj1 Hy))) (Z.to_nat (up_index u))).
  destruct (_ <? _); [done|]. destruct (slice_part x (up_begin u) (up_length u)) as (d & Ed & Ld & Hd); [lia|lia|lia|lia|].
  unfold on_cache, cache_insert. msteps. rewrite Ed. cbn beta iota. split; [|done].
  destruct Hy as (He & Hs & (O1 & O2 & O3) & Hdd).
  refine (conj He (conj Hs (conj (conj _ (conj O2 _)) Hdd))); [by apply cache_insert_coherent|]. cbn.
  apply Forall_app. split; [done|]. constructor; [|done]. cbn [cmd_ok command]. rewrite Ld. split; [exact Hp|by exists x].
Qed.

Lemma upload_reply_good B env i reply y : Inv B y -> content_ok ->
  (forall u, reply_ok u (reply u)) -> good B (upload_reply env i reply y).
Proof.
  intros Hy Hcon Hr. unfold upload_reply. rewrite bind_gets. destruct (uploads y !! i) as [u|] eqn:Eu; [|done].
  assert (Hu : part_ok (pm (eng y)) (up_index u) (up_begin u) (up_length u)).
  { destruct Hy as (_ & _ & (_ & O2 & _) & _). by apply (list.Forall_lookup_1 _ _ _ _ O2 Eu). }
  apply good_bind; [|intros [] y1 E1 H1; injection E1 as <-; by apply upload_task_good; [..|apply Hr]].
  split; [|done]. destruct Hy as (He & Hs & (O1 & O2 & O3) & Hd). refine (conj He (conj Hs (conj (conj O1 (conj _ O3)) Hd))). cbn.
  apply Forall_app. split; [by apply Forall_take|by apply Forall_drop].
Qed.

(** ** Blocks *)

(** Neither the pieces nor what storage was given changes. *)
Definition same_store (y y' : Sys C) : Prop := pm (eng y') = pm (eng y) /\ writes y' = writes y /\ answers y' = answers y.

Definition aside {A} (B : Z) (y : Sys C) (x : Sys C * result A) : Prop := exists a, snd x = Ok a /\ Inv B (fst x) /\ same_store y (fst x).

Lemma aside_bind {A D} B y0 y (m : M (Sys C) A) (f : A -> M (Sys C) D) (Q : Sys C * result D -> Prop) :
  same_store y0 y -> aside B y (m y) -> (forall a y', Inv B y' -> same_store y0 y' -> Q (f a y')) -> Q ((m ≫= f) y).
Proof.
  intros (S1 & S2 & S3) (a & Er & Hi & T1 & T2 & T3) Hf. unfold mbind, M_bind. destruct (m y) as [y' r]. cbn [fst snd] in *. subst r.
  apply Hf; [done|]. by split_and!; congruence.
Qed.

Lemma send_if_aside B env addr cmd y : Inv B y -> (forall p, cmd_ok p cmd) -> aside B y (send_if_connected env addr cmd y).
Proof.
  intros Hy Hc. unfold send_if_connected, has_handle. rewrite bind_gets. destruct (bool_decide _); [|by exists tt].
  unfold try_send, ask. msteps. exists tt. split; [done|]. split; [|done].
  destruct Hy as (He & Hs & (O1 & O2 & O3) & Hd). refine (conj He (conj Hs (conj (conj O1 (conj O2 _)) Hd))). cbn.
  apply Forall_app. split; [done|]. by constructor.
Qed.

Lemma cancel_list_aside B env addr i b l others : forall y, Inv B y -> aside B y (cancel_list env addr i b l others y).
Proof.
  induction others as [|o others IH]; intros y Hy; cbn [cancel_list]; [by exists tt|].
  apply (aside_bind B y y); [done| |].
  - destruct (decide (o = addr)); [by exists tt|by apply send_if_aside].
  - intros [] y1 H1 (S1 & S2 & S3). destruct (IH y1 H1) as (a & Er & Hi & T1 & T2 & T3). exists a. split; [done|]. split; [done|].
    by split_and!; congruence.
Qed.

Lemma cancel_aside B env addr i b l y : Inv B y -> aside B y (cancel_others env addr i b l y).
Proof.
  intros Hy. unfold cancel_others. rewrite bind_gets. destruct (endgame_requests (eng y) !! (i, b)) as [others|]; [|by exists tt].
  apply (aside_bind B y y); [done|by exists tt|]. intros [] y1 H1 (S1 & S2 & S3).
  destruct (cancel_list_aside B env addr i b l others y1 H1) as (a & Er & Hi & T1 & T2 & T3). exists a. split; [done|]. split; [done|].
  by split_and!; congruence.
Qed.

(** A write of a piece that has just landed. *)
Lemma inv_write B y i buf : Inv B y -> verified (eng y) (i, buf) -> landed (pm (eng y)) i -> i ∉ (pending y).*1 ->
  Inv B (mkSys (eng y) (world y) (writes y ++ [(i, buf)]) (answers y) (uploads y) (sent y) (asked y)).
Proof.
  intros (He & (S1 & S2 & S3 & S4 & S5) & Ho & Hd) Hv Hl Hn. split; [done|]. split; [|done].
  assert (Ep : pending (mkSys (eng y) (world y) (writes y ++ [(i, buf)]) (answers y) (uploads y) (sent y) (asked y)) = pending y ++ [(i, buf)])
    by (unfold pending; cbn; by rewrite drop_app_le).
  unfold store_ok. rewrite Ep. cbn [eng writes answers]. split_and!.
  - apply Forall_app. split; [done|by constructor].
  - rewrite length_app. cbn. lia.
  - rewrite fmap_app. apply list.NoDup_app. split; [done|]. split; [|apply NoDup_singleton]. intros x Hx ->%list_elem_of_singleton. done.
  - apply Forall_app. split; [done|by constructor].
  - intros j Hj. destruct (S5 j Hj) as [|(k & d & Hk & Ha)]; [by left|right]. exists k, d. split; [|done].
    rewrite lookup_app_l; [done|]. by eapply lookup_lt_Some.
Qed.

(** A landed piece is thrown away. *)
Lemma reset_good B y i : Inv B y -> landed (pm (eng y)) i -> i ∉ (pending y).*1 -> good B (on_pm (reset_piece i) y).
Proof.
  intros Hy Hl Hn. destruct Hy as (He & (S1 & S2 & S3 & S4 & S5) & Ho & Hd).
  destruct (reset_ok (pm (eng y)) i (proj1 He) Hl) as (p' & E & Hp & Hle & Eloc & Hlan).
  unfold on_pm. rewrite E. split; [|done]. split; [by apply eng_ok_le|]. split; [|split; [by apply out_ok_le|done]].
  split_and!; cbn; try done.
  - eapply list.Forall_impl; [exact S1|]. intros w. by apply verified_le.
  - apply list.Forall_forall. intros w Hw. rewrite list.Forall_forall in S4. apply Hlan; [|by apply S4].
    intros E1. apply Hn. rewrite <- E1. by apply list_elem_of_fmap_2.
  - by rewrite Eloc.
Qed.

Lemma keeps_invalidate B i : keeps B (on_cache (cache_invalidate i)).
Proof.
  intros y (He & Hs & (O1 & O2 & O3) & Hd). split; [|done].
  refine (conj He (conj Hs (conj (conj _ (conj O2 O3)) Hd))). by apply cache_invalidate_coherent.
Qed.

Lemma finish_good B env addr i buf y : Inv B y -> (Z.to_nat i < np y)%nat -> Z.of_nat (length buf) = psize (pm (eng y)) (Z.to_nat i) ->
  landed (pm (eng y)) (Z.to_nat i) -> Z.to_nat i ∉ (pending y).*1 -> good B (finish_piece sha1 env addr i buf y).
Proof.
  intros Hy Hi Hlen Hl Hn. pose proof Hy as ((_ & (En & _) & _) & _). unfold finish_piece. rewrite bind_gets.
  destruct (lookup_lt_is_Some_2 (piece_hashes (info (torrent (eng y)))) (Z.to_nat i)) as [h Eh]; [lia|].
  rewrite (index_Some _ _ _ Eh), bind_lift. destruct (join_ok env); cbn [negb]; [|done].
  destruct (verify_piece sha1 buf h) eqn:Ev.
  - destruct (storage_open env); [|done]. split; [|done]. apply inv_write; try done. split_and!; try done. cbn.
    unfold verify_piece in Ev. apply bytes_eqb_eq in Ev. by rewrite Ev.
  - apply good_bind; [by apply reset_good|]. intros [] y1 _ H1. revert y1 H1.
    apply step_bind; [apply keeps_invalidate|intros _]. apply step_bind; [apply keeps_shrink, ban_shrinks|intros _].
    apply step_bind; [apply picker_unit; by intros; apply clear_assignment_ok|intros _]. apply keeps_cleanup.
Qed.

(** A finished piece is one whose last block was this one: it is not waiting for storage already. *)
Definition fresh (y : Sys C) (i : nat) (o : BlockOutcome) : Prop :=
  forall d, o = Completed d -> (i < np y)%nat /\ Z.of_nat (length d) = psize (pm (eng y)) i /\ landed (pm (eng y)) i /\ i ∉ (pending y).*1.

Lemma fresh_same y y' i o : same_store y y' -> fresh y i o -> fresh y' i o.
Proof. intros (S1 & S2 & S3) Hf d Ed. unfold pending. rewrite S1, S2, S3. by apply Hf. Qed.

Lemma pending_landed B y i : Inv B y -> ~ landed (pm (eng y)) i -> i ∉ (pending y).*1.
Proof.
  intros (_ & (_ & _ & _ & S4 & _) & _) Hn ([j d] & -> & Hin)%list_elem_of_fmap. apply Hn. rewrite list.Forall_forall in S4. by apply (S4 (j, d)).
Qed.

(** A block is handed over: an error, a repeat, or a new block of at most [BLOCK_SIZE] bytes. *)
Lemma receive_good B y i begin data : Inv B y -> 0 <= begin < 2 ^ 32 ->
  exists y' r, catch (on_pm (received_block i begin data)) y = (y', Ok r) /\ Inv B y' /\
    forall o, r = inr o -> (o = Duplicate \/ 0 <= Z.of_nat (length data) <= BLOCK_SIZE) /\ fresh y' i o.
Proof.
  intros Hy Hb. destruct (on_pm_quiet B (received_block i begin data) Received (OpReceive i begin data) y eq_refl I Hy Hb) as [[Hg Hr] Hx].
  unfold catch. destruct (on_pm (received_block i begin data) y) as [y1 r] eqn:E. destruct (Hx y1 r eq_refl) as (Em & _ & Hn & Hs & _). cbn [fst snd] in *.
  assert (Ep : pending y1 = pending y).
  { unfold on_pm in E. destruct (received_block i begin data (pm (eng y))). by injection E as <- _. }
  destruct r as [o|e| |]; [| |done..]; (do 2 eexists; split; [done|]; split; [done|]); [|done]. intros o' [= <-].
  destruct (receive_outcome _ _ _ _ _ _ (proj1 (proj1 Hy)) Hb Em) as [Hd Hc]. split; [done|]. intros d Ed.
  destruct (Hc d Ed) as (H1 & H2 & H3 & H4). rewrite Ep, Hn, Hs. split_and!; try done. by eapply pending_landed.
Qed.

(** The accounting of a received block. *)
Definition account (env : Env) (addr : SocketAddr) (data_len : Z) (o : BlockOutcome) : M (Sys C) unit :=
  match o with
  | Duplicate => mret tt
  | _ =>
      now ← ask (clock env);
      _ ← on_eng (fun e => with_choker (record_download now addr data_len (choker e)) e);
      on_eng (fun e => with_downloaded (sat_add 64 (downloaded e) data_len) e)
  end.

Lemma account_aside B env addr len o y : 0 <= B -> Inv B y -> o = Duplicate \/ 0 <= len <= BLOCK_SIZE ->
  aside (B + BLOCK_SIZE) y (account env addr len o y).
Proof.
  intros HB Hy Hl. assert (Hq : aside (B + BLOCK_SIZE) y ((y, Ok tt) : Sys C * result unit)).
  { exists tt. split; [done|]. split; [|done]. eapply inv_mono; [|exact Hy]. unfold BLOCK_SIZE. lia. }
  assert (Hrec : 0 <= len <= BLOCK_SIZE -> aside (B + BLOCK_SIZE) y ((now ← ask (clock env);
    _ ← on_eng (fun e => with_choker (record_download now addr len (choker e)) e);
    on_eng (fun e => with_downloaded (sat_add 64 (downloaded e) len) e)) y)).
  { intros Hlen. exists tt. split; [done|]. split; [|done].
    assert (H1 : Inv B (fst (ask (clock env) y))) by exact Hy.
    destruct (download_recorded B (clock env (asked y)) addr len _ HB (proj1 Hlen) H1) as [H2 _].
    apply (inv_mono _ (B + BLOCK_SIZE)) in H2; [exact H2|lia]. }
  destruct o; cbn [account]; [exact Hq|..]; apply Hrec; by destruct Hl.
Qed.

Lemma keeps_expel B addr : keeps B (_ ← on_world (PeerManager.ban sa_ip (sa_ip addr)); cleanup_disconnected_peer addr).
Proof. apply step_bind; [apply keeps_shrink, ban_shrinks|intros _; apply keeps_cleanup]. Qed.

Lemma accept_good B env addr i begin data y : 0 <= B -> env_ok env -> Inv B y -> 0 <= begin < 2 ^ 32 ->
  good (B + BLOCK_SIZE) (accept_block sha1 env addr i begin data y).
Proof.
  intros HB Henv Hy Hb. assert (HBB : B <= B + BLOCK_SIZE) by (unfold BLOCK_SIZE; lia). unfold accept_block.
  apply good_bind; [apply (good_mono B); [done|]; split; [by apply out_delete|done]|]. intros [] y1 E1 _.
  assert (H1 : Inv B y1) by (injection E1 as <-; by apply (out_delete B y)).
  destruct (receive_good B y1 (Z.to_nat i) begin data H1 Hb) as (y2 & r & E2 & H2 & Hr).
  apply good_bind; [rewrite E2; split; [by eapply inv_mono|done]|]. intros r' y2' E2' _. rewrite E2 in E2'. injection E2' as <- <-.
  destruct r as [e|o]; [apply (good_mono B); [done|]; by apply keeps_expel|]. destruct (Hr o eq_refl) as [Hlen Hf].
  apply (aside_bind (B + BLOCK_SIZE) y2 y2 (account env addr (Z.of_nat (length data)) o)); [done|by apply account_aside|]. intros [] y3 H3 S3.
  apply (aside_bind (B + BLOCK_SIZE) y2 y3); [done|by apply cancel_aside|]. intros [] y4 H4 S4. apply good_bind.
  - pose proof (fresh_same _ _ _ _ S4 Hf) as Hf4. destruct o as [| |d]; [done..|]. destruct (Hf4 d eq_refl) as (F1 & F2 & F3 & F4). by apply finish_good.
  - intros [] y5 _ H5. rewrite bind_gets. destruct (is_banned _ _); [done|]. by apply keeps_request.
Qed.

Lemma block_good B env addr i begin data y : 0 <= B -> env_ok env -> Inv B y -> 0 <= begin < 2 ^ 32 ->
  good (B + BLOCK_SIZE) (handle_block sha1 env addr i begin data y).
Proof.
  intros HB Henv Hy Hb. assert (HBB : B <= B + BLOCK_SIZE) by (unfold BLOCK_SIZE; lia). unfold handle_block.
  apply good_bind; [apply (good_mono B); [done|]; by apply keeps_one_less|]. intros [] y1 E1 _.
  assert (H1 : Inv B y1) by (destruct (keeps_one_less B addr y Hy) as [Hi _]; by rewrite E1 in Hi).
  rewrite bind_gets. cbn zeta. destruct (_ && _); [|by apply accept_good]. apply (good_mono B); [done|]. by apply keeps_request.
Qed.

(** ** Peer events *)

Lemma keeps_greet B env addr fast : keeps B (greet env addr fast).
Proof.
  apply step_gets. intros y Hy. unfold has_handle. rewrite bind_gets. destruct (bool_decide _); cbn [negb]; [|done].
  destruct (is_complete_ok (pm (eng y)) (proj1 (proj1 Hy))) as [b ->]. rewrite bind_lift.
  assert (K : forall cmd, (forall p, cmd_ok p cmd) -> good B ((_ ← try_send env addr cmd; mret tt) y)).
  { intros cmd Hc. apply step_bind; [apply keeps_send; by intros|intros _; apply step_ret|done]. }
  destruct (fast && b); [by apply K|]. destruct (fast && _); [by apply K|]. destruct (_ <? _)%nat; [by apply K|done].
Qed.

Lemma keeps_mark B env addr cmd b : (forall p, cmd_ok p cmd) ->
  keeps B (h ← has_handle addr; if negb h then mret tt else ok ← try_send env addr cmd;
    if ok : bool then on_eng (fun e => with_we_unchoked (<[addr := b]> (we_unchoked e)) e) else mret tt).
Proof.
  intros Hc. apply step_gets. intros y Hy. destruct (bool_decide _); cbn [negb]; [|done].
  apply step_bind; [apply keeps_send; by intros| |done]. intros ok. apply keeps_if; [by apply keeps_eng|apply step_ret].
Qed.

Lemma keeps_unchoke B env addr : keeps B (unchoke env addr).
Proof. by apply keeps_mark. Qed.

Lemma keeps_choke B env addr : keeps B (choke env addr).
Proof. by apply keeps_mark. Qed.

Lemma keeps_connected B env addr id reserved : length reserved = 8%nat ->
  keeps B (handle_peer_event sha1 env (Connected addr id reserved)).
Proof.
  intros Hr. cbn [handle_peer_event]. apply step_bind; [apply keeps_shrink; intros w b slot Hb; exact Hb|intros _].
  apply step_bind; [by apply keeps_eng|intros _]. apply step_bind; [by apply keeps_eng|intros _]. apply step_bind; [by apply keeps_eng|intros _].
  apply step_bind; [apply keeps_inflight_set; unfold PIPELINE_DEPTH; lia|intros _].
  destruct (lookup_lt_is_Some_2 reserved 7) as [x Ex]; [lia|].
  apply step_bind; [|intros fast; apply keeps_greet]. apply step_lift. unfold supports_fast_extensions, has_bit. by rewrite (index_Some _ _ _ Ex).
Qed.

Lemma keeps_disconnected B env addr v : keeps B (handle_peer_event sha1 env (Disconnected addr v)).
Proof.
  cbn [handle_peer_event]. apply step_bind; [|intros _; apply step_bind; [apply keeps_cleanup|intros _; apply keeps_shrink, forget_shrinks]].
  apply keeps_if; [|apply step_ret]. apply keeps_ask. intros now. apply keeps_shrink, violation_shrinks.
Qed.

Lemma keeps_reject B env addr i b : env_ok env -> keeps B (handle_peer_event sha1 env (RejectRequest addr i b)).
Proof.
  intros Henv. cbn [handle_peer_event]. apply step_bind; [apply keeps_one_less|intros _]. apply step_gets. intros y Hy. cbn zeta.
  destruct (match outstanding_requests (eng y) !! (i, b) with Some (a, _) => _ | None => _ end) eqn:Eo; cbn [andb]; [|done].
  destruct (Nat.ltb_spec (Z.to_nat i) (np y)) as [Hi|]; [|done].
  apply good_bind; [split; [by apply out_delete|done]|]. intros [] y1 E1 H1.
  assert (N1 : np y1 = np y) by (unfold on_eng, modify in E1; by injection E1 as <-).
  apply good_bind; [by apply release_good; [|lia]|]. intros [] y2 _ H2. by apply keeps_request.
Qed.

Lemma keeps_choked B env addr : keeps B (handle_peer_event sha1 env (Engine.Choke addr)).
Proof.
  cbn [handle_peer_event]. apply step_bind; [by apply keeps_eng|intros _].
  apply step_bind; [apply keeps_inflight_set; unfold PIPELINE_DEPTH; lia|intros _]. apply step_gets. intros y Hy.
  apply good_bind; [|intros [] y1 _ H1; by apply keeps_release_for].
  destruct (assignment _ _) as [idx|] eqn:Ea; [|done]. apply good_bind; [by eapply release_assigned|].
  intros [] y1 _ H1. apply picker_unit; [by intros; apply release_assignment_ok|done].
Qed.

Lemma keeps_peer_update B env addr m : env_ok env ->
  (forall n pk, pk_ok n pk -> exists pk', m pk = (pk', Ok tt) /\ pk_ok n pk') ->
  keeps B (_ ← on_picker m; _ ← maybe_express_interest env addr; maybe_request_blocks env addr).
Proof.
  intros Henv Hm. apply step_bind; [by apply picker_unit|intros _]. apply step_bind; [apply keeps_interest|intros _]. by apply keeps_request.
Qed.

(** What the types of the messages guarantee: unsigned 32-bit fields and eight reserved bytes. *)
Definition peer_event_ok (ev : PeerEvent) : Prop :=
  match ev with
  | Connected _ _ reserved => length reserved = 8%nat
  | Engine.Block _ index begin _ => 0 <= index < 2 ^ 32 /\ 0 <= begin < 2 ^ 32
  | Engine.Request _ index begin len => 0 <= index < 2 ^ 32 /\ 0 <= begin < 2 ^ 32 /\ 0 <= len < 2 ^ 32
  | _ => True
  end.

Lemma peer_event_good B env ev y : content_ok -> 0 <= B -> env_ok env -> peer_event_ok ev -> Inv B y ->
  good (B + BLOCK_SIZE) (handle_peer_event sha1 env ev y).
Proof.
  intros Hcon HB Henv Hev Hy. assert (Hm : forall m : M (Sys C) unit, keeps B m -> good (B + BLOCK_SIZE) (m y)).
  { intros m Hk. apply (good_mono B); [unfold BLOCK_SIZE; lia|by apply Hk]. }
  destruct ev; cbn in Hev.
  - by apply Hm, keeps_connected.
  - apply Hm, keeps_disconnected.
  - apply Hm, keeps_peer_update; [done|]. by intros; apply set_peer_bitfield_ok.
  - apply Hm, keeps_peer_update; [done|]. by intros; apply add_have_ok.
  - apply Hm, keeps_choked.
  - apply Hm. apply step_bind; [by apply keeps_eng|intros _]. by apply keeps_request.
  - apply Hm. apply step_gets. intros z Hz. destruct (is_complete_ok (pm (eng z)) (proj1 (proj1 Hz))) as [b ->]. rewrite bind_lift.
    destruct (_ && _); [by apply keeps_unchoke|done].
  - apply Hm, step_ret.
  - destruct Hev as [? ?]. by apply block_good.
  - destruct Hev as ([? ?] & ? & ?). by apply serve_good.
  - apply Hm, step_ret.
  - apply Hm. apply step_gets. intros z Hz. destruct (_ || _); [done|by apply keeps_ingest].
  - apply Hm. apply step_gets. intros z Hz. destruct (_ && _); [|done]. destruct their_ut_pex_id; [by apply keeps_eng|done].
  - apply Hm. apply step_gets. intros z Hz. apply step_bind; [apply picker_unit; by intros; apply set_peer_bitfield_ok|intros _; apply keeps_interest|done].
  - by apply Hm, keeps_reject.
Qed.

(** ** Storage events *)

Lemma keeps_for_each B l f : (forall a, keeps B (f a)) -> keeps B (for_each l f).
Proof. intros Hf. induction l as [|a l IH]; cbn [for_each]; [apply step_ret|]. by apply step_bind. Qed.

Lemma inv_answer B y i d ok : Inv B y -> writes y !! (length (answers y)) = Some (i, d) ->
  let y1 := mkSys (eng y) (world y) (writes y) (answers y ++ [ok]) (uploads y) (sent y) (asked y) in
  Inv B y1 /\ landed (pm (eng y)) i /\ (i ∉ (pending y1).*1) /\ (i < np y)%nat.
Proof.
  intros (He & (S1 & S2 & S3 & S4 & S5) & Ho & Hd) Hw y1. pose proof (drop_S _ _ _ Hw) as Ep.
  assert (Ep1 : pending y = (i, d) :: pending y1).
  { unfold pending. cbn. rewrite length_app, Nat.add_1_r. exact Ep. }
  rewrite Ep1 in S3, S4. cbn in S3. apply NoDup_cons in S3 as [Hni Hnd]. apply list.Forall_cons in S4 as [Hl S4].
  pose proof (list.Forall_lookup_1 _ _ _ _ S1 Hw) as (Hlt & _). split; [|done].
  refine (conj He (conj (conj S1 (conj _ (conj Hnd (conj S4 _)))) (conj Ho Hd))).
  - cbn. rewrite length_app. apply lookup_lt_Some in Hw. cbn. lia.
  - intros j Hj. destruct (S5 j Hj) as [|(k & x & Hk & Ha)]; [by left|right]. exists k, x. split; [done|]. by apply lookup_app_l_Some.
Qed.

Lemma complete_good B y i d k : Inv B y -> writes y !! k = Some (i, d) -> answers y !! k = Some true ->
  i ∉ (pending y).*1 -> good B (on_pm (mark_complete i) y).
Proof.
  intros (He & (S1 & S2 & S3 & S4 & S5) & Ho & Hd) Hw Ha Hn. pose proof (list.Forall_lookup_1 _ _ _ _ S1 Hw) as (Hlt & _).
  destruct (complete_ok (pm (eng y)) i (proj1 He) Hlt) as (p' & E & Hp & Hle & Eloc & Hlan).
  unfold on_pm. rewrite E. split; [|done]. split; [by apply eng_ok_le|]. split; [|split; [by apply out_ok_le|done]].
  split_and!; cbn; try done.
  - eapply list.Forall_impl; [exact S1|]. intros w. by apply verified_le.
  - apply list.Forall_forall. intros w Hin. rewrite list.Forall_forall in S4. apply Hlan; [|by apply S4].
    intros E1. apply Hn. rewrite <- E1. by apply list_elem_of_fmap_2.
  - intros j. rewrite Eloc. destruct (decide (j = i)) as [->|Hne]; [intros _; right; by exists k, d|].
    rewrite list_lookup_insert_ne by done. apply S5.
Qed.

Lemma keeps_seeding B : keeps B (on_eng (fun e => with_choker (set_seeding true (choker e)) e)).
Proof. apply keeps_eng. intros y Hy. apply (inv_choker B); [done|]. by destruct Hy as ((_ & _ & _ & _ & _ & _ & E7) & _). Qed.

(** What follows a piece that is on disk: it is announced, and the peers get new work. *)
Lemma keeps_announced B env i : env_ok env -> keeps B (
  _ ← on_eng (fun e => with_endgame_requests (forget_piece (wrap 32 (Z.of_nat i)) (endgame_requests e)) e);
  e ← gets eng;
  complete ← lift (is_complete (pm e));
  _ ← (if complete : bool then on_eng (fun e => with_choker (set_seeding true (choker e)) e) else mret tt);
  addrs ← connected;
  _ ← for_each addrs (fun a => send_if_connected env a (CHave (wrap 32 (Z.of_nat i))));
  for_each addrs (fun a => _ ← on_picker (clear_assignment_if a i); maybe_request_blocks env a)).
Proof.
  intros Henv. apply step_bind; [by apply keeps_eng|intros _]. apply step_gets. intros y Hy.
  destruct (is_complete_ok (pm (eng y)) (proj1 (proj1 Hy))) as [b ->]. rewrite bind_lift. revert y Hy.
  apply step_bind; [apply keeps_if; [apply keeps_seeding|apply step_ret]|intros _]. apply step_gets. intros y Hy. revert y Hy.
  intros y. generalize (addrs (mgr (world y))). intros l. revert y.
  apply step_bind; [apply keeps_for_each; intros a; by apply keeps_send_if|intros _].
  apply keeps_for_each. intros a. apply step_bind; [apply picker_unit; by intros; apply clear_assignment_ok|intros _; by apply keeps_request].
Qed.

Lemma storage_good B env error y : env_ok env -> Inv B y -> good B (storage_answer env error y).
Proof.
  intros Henv Hy. unfold storage_answer. rewrite bind_gets. destruct (writes y !! length (answers y)) as [[i d]|] eqn:Ew; [|done]. cbn zeta.
  set (ok := match error with None => true | Some _ => false end). destruct (inv_answer B y i d ok Hy Ew) as (H1 & Hl & Hn & Hi).
  apply good_bind; [by split|]. intros [] y1 [= <-] _. destruct error as [e|]; cbn [handle_storage_event].
  - apply good_bind; [by apply reset_good|]. intros [] y2 _ H2. revert y2 H2. by apply keeps_eng.
  - apply good_bind; [eapply (complete_good B _ i d (length (answers y))); [done..| |done]; cbn; by rewrite lookup_app_r, Nat.sub_diag|].
    intros [] y2 _ H2. by apply keeps_announced.
Qed.

(** ** Timers *)

Lemma keeps_send_pex B env current addr id : keeps B (send_pex env current addr id).
Proof.
  apply step_gets. intros y Hy. cbn zeta. destruct (_ && _); [done|]. unfold has_handle. rewrite bind_gets. revert y Hy.
  intros y Hy. apply good_bind.
  - destruct (bool_decide _); [by apply keeps_send|done].
  - intros ok y1 _ H1. destruct ok; cbn [negb]; [by apply keeps_eng|done].
Qed.

Lemma keeps_pex_list B env current targets : keeps B (send_pex_list env current targets).
Proof.
  induction targets as [|[a id] targets IH]; cbn [send_pex_list]; [apply step_ret|]. apply step_bind; [apply keeps_send_pex|done].
Qed.

Lemma reap_good B env stale : env_ok env -> forall y, Inv B y -> Forall (fun k => 0 <= k.1.1 < Z.of_nat (np y)) stale -> good B (reap env stale y).
Proof.
  intros Henv. induction stale as [|[[i b] addr] stale IH]; intros y Hy Hk; cbn [reap]; [done|]. apply list.Forall_cons in Hk as [Hi Hk]. cbn in Hi.
  apply good_bind; [split; [by apply out_delete|done]|]. intros [] y1 E1 H1.
  assert (N1 : np y1 = np y) by (unfold on_eng, modify in E1; by injection E1 as <-).
  destruct (release_good B y1 (Z.to_nat i) b H1 ltac:(lia)) as [Hg Hn]. apply good_bind; [done|]. intros [] y2 E2 H2. rewrite E2 in Hn. cbn in Hn.
  apply good_bind; [by apply keeps_one_less|]. intros [] y3 E3 H3.
  assert (N3 : np y3 = np y2).
  { unfold one_less, on_eng, modify in E3. injection E3 as <-. cbn. by destruct (inflight (eng y2) !! addr). }
  destruct (maybe_request_ok B env addr y3 Henv H3) as (y4 & E4 & H4 & N4).
  unfold mbind, M_bind. rewrite E4. apply IH; [done|]. by rewrite N4, N3, Hn, N1.
Qed.

Lemma stale_in_range B y now : Inv B y -> Forall (fun k => 0 <= k.1.1 < Z.of_nat (np y)) (stale_requests now (outstanding_requests (eng y))).
Proof.
  intros ((_ & _ & _ & _ & E5 & _) & _). unfold stale_requests. apply list.Forall_forall.
  intros k ([k' v] & -> & Hin)%list_elem_of_fmap. apply list_elem_of_In, filter_In in Hin as [Hin _].
  apply list_elem_of_In, elem_of_map_to_list in Hin. by eapply E5.
Qed.

Lemma keeps_choke_timer B env : env_ok env -> B < 2 ^ 64 -> keeps B (choke_timer env).
Proof.
  intros Henv HB. apply step_gets. intros y0 Hy0. generalize (addrs (mgr (world y0))). intros l. revert y0 Hy0.
  apply keeps_ask. intros now. apply step_gets. intros y1 Hy1. generalize (asked y1). intros n. revert y1 Hy1. apply step_bind.
  - intros y Hy. pose proof Hy as ((_ & _ & _ & _ & _ & _ & E7) & _).
    destruct (tick_keeps B now (fun k => clock env (n + k)) (optimistic_choice env) l (choker (eng y)) E7 HB) as (s' & dec & E & Hs).
    unfold on_choker. rewrite E. split; [|done]. by apply (inv_choker B).
  - intros dec. apply step_bind; [apply keeps_for_each; intros a; apply keeps_unchoke|intros _].
    apply step_bind; [apply keeps_for_each; intros a; apply keeps_choke|intros _]. apply keeps_ask. intros now2.
    apply step_gets. intros y Hy. apply reap_good; [done..|]. by eapply stale_in_range.
Qed.

(** ** The event loop *)

Definition event_ok (ev : EngineEvent) : Prop :=
  match ev with
  | PeerEv ev => peer_event_ok ev
  | UploadReply _ reply => forall u, reply_ok u (reply u)
  | _ => True
  end.

Lemma catch_good {A} B (m : M (Sys C) A) y : good B (m y) -> good B (catch m y).
Proof. intros [Hi Hr]. unfold catch. destruct (m y) as [y' [a|e| |]]; by split. Qed.

Lemma keeps_complete B : keeps B (e ← gets eng; lift (is_complete (pm e))).
Proof. apply step_gets. intros y Hy. destruct (is_complete_ok (pm (eng y)) (proj1 (proj1 Hy))) as [b ->]. done. Qed.

Lemma keeps_then B (m : M (Sys C) unit) (b : bool) : keeps B m -> keeps B (_ ← m; mret b).
Proof. intros Hm. apply step_bind; [done|intros _; apply step_ret]. Qed.

(** Events that carry no block: the byte count of the rates does not move. *)
Lemma quiet_step_good B started env ev y : env_ok env -> 0 <= B < 2 ^ 64 -> Inv B y ->
  match ev with PeerEv _ | UploadReply _ _ => False | _ => True end -> good B (engine_step sha1 started env ev y).
Proof.
  intros Henv HB Hy Hq. revert y Hy. destruct ev as [| error | |peers new_id|peers| | | |ctl|addr|addr]; try destruct Hq; cbn [engine_step].
  - intros y Hy. apply good_bind; [by apply storage_good|]. intros [] y1 _ H1. by apply keeps_complete.
  - apply keeps_then. apply step_gets. intros y Hy. generalize (cfg_anonymous (cfg (eng y))). intros b. revert y Hy.
    apply step_bind; [apply keeps_if; [|apply step_ret]|intros _; apply keeps_ingest].
    apply step_bind; [by apply keeps_eng|intros _]. apply keeps_shrink. intros w a slot Ha. exact Ha.
  - apply keeps_then. apply step_gets. intros y Hy. destruct (_ <? _)%nat; [by apply keeps_ingest|done].
  - apply keeps_then, keeps_choke_timer; [done|lia].
  - apply step_gets. intros y Hy. apply keeps_then; [|done]. apply keeps_if; [apply step_ret|].
    apply step_gets. intros z Hz. apply step_gets; [|done]. intros z' Hz'. by apply keeps_pex_list.
  - apply keeps_ask. intros now. apply keeps_then, keeps_shrink. intros w a slot Ha. exact Ha.
  - destruct ctl; cbn [control]; [by apply keeps_then, keeps_eng| |apply step_ret]. apply step_bind; [by apply keeps_eng|intros _].
    apply step_gets. intros y Hy. apply keeps_then; [|done]. apply keeps_for_each. intros a. by apply keeps_request.
  - apply keeps_then, keeps_accept, accept_incoming_slots.
  - apply keeps_then, keeps_accept, accept_handshaken_slots.
Qed.

Lemma step_good B started env ev y : content_ok -> env_ok env -> event_ok ev -> 0 <= B < 2 ^ 64 -> Inv B y ->
  good (B + BLOCK_SIZE) (engine_step sha1 started env ev y).
Proof.
  intros Hcon Henv Hev HB Hy. assert (HBB : B <= B + BLOCK_SIZE) by (unfold BLOCK_SIZE; lia).
  destruct ev as [ev| |i reply|peers new_id|peers| | | |ctl|addr|addr]; try (apply (good_mono B); [done|]; by apply quiet_step_good); cbn [engine_step].
  - apply good_bind; [apply catch_good, peer_event_good; (done || lia)|]. intros r y1 _ H1. rewrite bind_gets.
    destruct (is_complete_ok (pm (eng y1)) (proj1 (proj1 H1))) as [b ->]. done.
  - apply (good_mono B); [done|]. apply good_bind; [by apply upload_reply_good|]. by intros [] y1 _ H1.
Qed.

Lemma run_good started evs : content_ok -> Forall (fun x => env_ok x.1 /\ event_ok x.2) evs ->
  forall B y, 0 <= B -> B + BLOCK_SIZE * Z.of_nat (length evs) < 2 ^ 64 -> Inv B y ->
  good (B + BLOCK_SIZE * Z.of_nat (length evs)) (engine_run sha1 started evs y).
Proof.
  intros Hcon. induction evs as [|[env ev] evs IH]; intros Hevs B y HB Hlen Hy; cbn [engine_run length] in *.
  - split; [|done]. eapply inv_mono; [|exact Hy]. unfold BLOCK_SIZE. lia.
  - apply list.Forall_cons in Hevs as [[Henv Hev] Hevs]. unfold BLOCK_SIZE in *.
    apply good_bind; [apply (good_mono (B + BLOCK_SIZE)); [unfold BLOCK_SIZE; lia|]; apply step_good; (done || lia)|].
    intros stop y1 E1 _. destruct (step_good B started env ev y Hcon Henv Hev ltac:(lia) Hy) as [H1 _]. rewrite E1 in H1. cbn [fst] in H1.
    unfold BLOCK_SIZE in H1. destruct stop; [split; [eapply inv_mono; [|exact H1]; lia|done]|].
    eapply good_mono; [|apply (IH Hevs (B + 16384) y1)]; [lia|lia|lia|done].
Qed.

(** ** Startup *)

(** The resume scan reports pieces of this torrent. *)
Definition scan_ok (st : Startup) (n : nat) : Prop := forall l,
  returns (st_resume_scan st l) = true /\ forall a, st_resume_scan st l = Ok a -> Forall (fun i => i ∈ resumed /\ (i < n)%nat) a.

(** Nothing has been written yet. *)
Definition opens {A} (n : nat) (c : EngineConfig) (x : Sys C * result A) : Prop :=
  good 0 x /\ writes (fst x) = [] /\ np (fst x) = n /\ cfg (eng (fst x)) = c.

Lemma opens_bind {A D} n c (m : M (Sys C) A) (f : A -> M (Sys C) D) y :
  opens n c (m y) -> (forall a y', m y = (y', Ok a) -> opens n c (y', Ok tt) -> opens n c (f a y')) -> opens n c ((m ≫= f) y).
Proof.
  intros ([Hi Hr] & Hw & Hn & Hc) Hf. unfold mbind, M_bind. destruct (m y) as [y' r] eqn:E. cbn [fst snd] in *.
  destruct r as [a|e| |]; try done. by apply Hf.
Qed.

Lemma opens_keeps {A} n c (m : M (Sys C) A) y : keeps 0 m -> writes (fst (m y)) = writes y -> np (fst (m y)) = np y -> cfg (eng (fst (m y))) = cfg (eng y) ->
  opens n c (y, Ok tt) -> opens n c (m y).
Proof. intros Hk Hw Hn Hc ([Hi _] & Hw0 & Hn0 & Hc0). cbn in *. split_and!; [by apply Hk|congruence..]. Qed.

Lemma opens_lift {A} n c (r : result A) y : returns r = true -> opens n c (y, Ok tt) -> opens n c (lift r y).
Proof. intros Hr ([Hi _] & Hw0 & Hn0 & Hc0). by split_and!. Qed.

Lemma wanted_good n c mask y : opens n c (y, Ok tt) -> opens n c (on_pm (set_wanted mask) y).
Proof.
  intros ([Hi _] & Hw & Hn & Hc). cbn in Hi, Hw, Hn. pose proof Hi as ((Hpm & _) & _). unfold on_pm.
  destruct (run_ok (pm (eng y)) (OpWanted mask) Hpm I) as (H1 & _). cbn [run] in H1. unfold and_out in H1. revert H1. msteps.
  rewrite set_wanted_eq by done. cbn [fst]. destruct (length mask =? _)%nat eqn:E; cbn [fst]; intros H1; split_and!; try done;
  (split; [|done]); by apply inv_pm.
Qed.

Lemma verified_good n c i y : i ∈ resumed -> (i < n)%nat -> opens n c (y, Ok tt) -> opens n c (on_pm (mark_complete_verified i) y).
Proof.
  intros Hin Hlt ([(He & (S1 & S2 & S3 & S4 & S5) & Ho & Hd) _] & Hw & Hn & Hc). cbn in *.
  destruct (complete_ok (pm (eng y)) i (proj1 He) ltac:(lia)) as (p' & E & Hp & Hle & Eloc & _).
  change (mark_complete i) with (mark_complete_verified i) in E. unfold on_pm. rewrite E.
  assert (Ep : pending y = []) by (unfold pending; rewrite Hw; by rewrite drop_nil).
  split_and!; [|done|etransitivity; [apply Hle|done]|done]. split; [|done]. split; [by apply eng_ok_le|]. split; [|split; [by apply out_ok_le|done]].
  split_and!; cbn; try done; try (by rewrite Ep).
  - eapply list.Forall_impl; [exact S1|]. intros w. by apply verified_le.
  - unfold pending. cbn. rewrite Hw, drop_nil. constructor.
  - intros j. rewrite Eloc. destruct (decide (j = i)) as [->|Hne]; [by left|]. rewrite list_lookup_insert_ne by done. apply S5.
Qed.

Lemma mark_verified_good n c l : Forall (fun i => i ∈ resumed /\ (i < n)%nat) l -> forall y, opens n c (y, Ok tt) -> opens n c (mark_verified l y).
Proof.
  induction l as [|i l IH]; intros Hl y Hy; cbn [mark_verified]; [done|]. apply list.Forall_cons in Hl as [[Hi Hn] Hl].
  apply opens_bind; [by apply verified_good|]. intros [] y' _ Hy'. by apply IH.
Qed.

Lemma seed_good n c y : opens n c (y, Ok tt) -> opens n c (on_world (fun w => (try_connect_many sa_ip (seed_peers c) w).1) y).
Proof.
  intros ([(He & Hs & Ho & Hd) _] & Hw & Hn & Hc). cbn in *. split_and!; try done. split; [|done]. split_and!; try done.
  intros a slot Ha Hout. cbn in Ha. apply connect_peers in Ha as [Ha|Hin]; [by eapply Hd|]. right. cbn. by rewrite Hc.
Qed.

Lemma ingest_opens n c l y : opens n c (y, Ok tt) -> opens n c (ingest l y).
Proof.
  apply opens_keeps; [apply keeps_ingest|..]; unfold ingest; rewrite bind_gets; by destruct (screen_ingested_peers _ _).
Qed.

Lemma opens_if {A} n c (b : bool) (m k : M (Sys C) A) y : opens n c (m y) -> opens n c (k y) -> opens n c ((if b then m else k) y).
Proof. by destruct b. Qed.

(** After the files are chosen: the resume scan, the seed dials, the first announce. *)
Lemma start_opens st t total y n : info_ok (info t) total -> total + Torrent.piece_length (info t) < 2 ^ 64 -> torrent (eng y) = t ->
  scan_ok st n -> returns (st_sandbox_engaged st) = true -> opens n (cfg (eng y)) (y, Ok tt) -> opens n (cfg (eng y)) (start_session st y).
Proof.
  intros Hinfo Hbig Ht Hscan Hsand Hy. unfold start_session. rewrite bind_gets. cbn zeta. set (c := cfg (eng y)) in *. rewrite Ht.
  destruct (Layout.from_torrent_spec (output_dir c) t total Hinfo) as (Hret & _ & Hlay).
  apply opens_bind; [by apply opens_lift|]. intros layout y0 E0 Hy0. injection E0 as <- El. specialize (Hlay _ El).
  assert (Elay : Layout.l_total_length layout = total /\ Layout.l_piece_length layout = Torrent.piece_length (info t)).
  { unfold Layout.from_torrent in El. destruct Hinfo as (_ & _ & _ & _ & Htot & _). unfold Torrent.total_length in El. rewrite Htot in El.
    repeat (apply bind_Ok in El as (? & ? & El)). simplify_eq/=. done. }
  apply opens_bind; [apply opens_if; [apply opens_keeps; [by apply keeps_eng|done..]|done]|]. intros [] y1 _ H1.
  apply opens_bind.
  { destruct (selected_files c) as [|s sel]; [done|]. rewrite (Layout.wanted_pieces_eq layout Hlay (s :: sel)); [|done|lia]. by apply wanted_good. }
  intros [] y2 _ H2. apply opens_bind; [apply opens_lift; [destruct (memory_only c); [done|apply Hscan]|done]|]. intros already y3 E3 H3.
  apply opens_bind.
  { apply mark_verified_good; [|done]. unfold lift in E3. injection E3 as _ E3. destruct (memory_only c); [injection E3 as <-; constructor|by apply (Hscan layout)]. }
  intros [] y4 _ H4. rewrite bind_gets. destruct (is_complete_ok (pm (eng y4)) (proj1 (proj1 (proj1 (proj1 H4))))) as [b ->]. rewrite bind_lift.
  apply opens_bind; [apply opens_if; [apply opens_keeps; [apply keeps_seeding|done..]|done]|]. intros [] y5 _ H5.
  apply opens_bind; [destruct (seed_peers c) as [|a l] eqn:El2; [done|]; rewrite <- El2; by apply seed_good|]. intros [] y6 _ H6.
  apply opens_bind; [destruct (st_first_announce st); [apply opens_if; [done|by apply ingest_opens]|done]|]. intros [] y7 _ H7.
  apply opens_bind; [apply opens_if; [by apply opens_lift|done]|]. by intros [] y8 _ H8.
Qed.

(** A new engine, before the resume scan. *)
Lemma new_opens now t pid c0 c w total e : info_ok (info t) total -> Z.of_nat (length (piece_hashes (info t))) <= 2 ^ 32 ->
  engine_new now t pid c0 = Ok e -> (forall i, psize (pm e) i = size_of i) -> PeerManager.peers (mgr w) = ∅ ->
  piece_hashes (info t) = hashes -> martians_strict c = policy -> seed_peers c = seeds ->
  torrent e = t /\ opens (length (piece_hashes (info t))) c (mkSys (with_cfg c e) w [] [] [] [] 0, Ok tt).
Proof.
  intros Hinfo Hn He Hsize Hw Hh Hstrict Hseeds. unfold engine_new in He. destruct Hinfo as (_ & Hp & _ & _ & Htot & Ht & Hc).
  unfold Torrent.total_length in He. rewrite Htot in He. cbn [mbind result_bind] in He.
  destruct (new_eq (Torrent.piece_length (info t)) total (length (piece_hashes (info t)))) as (p & Ep & Hpm & Hnum & Hpl & Htl & Hrow).
  { assert (1 <= div_ceil total (Torrent.piece_length (info t)) <= total) by (by apply div_ceil_bounds).
    unfold geom_ok. rewrite !andb_true_iff, !Z.ltb_lt, !Z.leb_le, Nat.ltb_lt. change MAX_PIECE_LENGTH with 1073741824 in Hp. lia. }
  rewrite Ep in He. cbn [mbind result_bind] in He. injection He as <-. split; [done|].
  split_and!; try done. split; [|done]. split_and!; cbn.
  - split_and!; cbn; try done; try lia. rewrite Hnum. apply new_picker_ok.
  - split_and!; cbn; try done; [by constructor..|]. intros i Hi. exfalso.
    destruct (decide (i < length (piece_hashes (info t)))%nat) as [Hlt|].
    + specialize (Hrow i Hlt). apply row_local in Hrow. rewrite Hrow in Hi. done.
    + apply lookup_lt_Some in Hi. destruct Hpm as (_ & (_ & _ & _ & _ & L & _) & _). lia.
  - split_and!; cbn; try done. intros k v. rewrite (proj1 (new_entries _)). by intros ?%lookup_empty_Some.
  - intros a slot. cbn. rewrite Hw. by intros ?%lookup_empty_Some.
Qed.
End Invariant.

(** ** Sessions *)

Section Session.
Context {C : Type} `{LruLaws C} (sha1 : bytes -> bytes) (st : Startup) (t : TorrentFile) (pid : bytes) (c : EngineConfig) (total : Z).

(** The size of piece [i] of the torrent. *)
Definition size_in (i : nat) : Z :=
  psize (mkPM (Torrent.piece_length (info t)) total (length (piece_hashes (info t))) [] [] [] [] [] []) i.

(** A torrent as validation leaves it, with indices that fit the wire's 32 bits; a resume scan that
    reports pieces of this torrent (those in [resumed]); and a sandbox that engages or fails. *)
Definition start_ok (resumed : list nat) : Prop :=
  info_ok (info t) total /\ Z.of_nat (length (piece_hashes (info t))) <= 2 ^ 32 /\ total + Torrent.piece_length (info t) < 2 ^ 64 /\
  scan_ok resumed st (length (piece_hashes (info t))) /\ returns (st_sandbox_engaged st) = true.

(** Events as their types allow them, at most [2^49] of them; the storage task answers reads with [content]. *)
Definition events_ok (content : Z -> option bytes) (evs : list (Env * EngineEvent)) : Prop :=
  content_ok content size_in /\ Forall (fun x => env_ok x.1 /\ event_ok content x.2) evs /\ Z.of_nat (length evs) <= 2 ^ 49.

Lemma engine_new_ok resumed : start_ok resumed -> exists e : TorrentEngine C, engine_new (st_now st) t pid c = Ok e /\ forall i, psize (pm e) i = size_in i.
Proof.
  intros ((_ & Hp & _ & _ & Htot & Ht & Hc) & Hn & _). unfold engine_new, Torrent.total_length. rewrite Htot. cbn [mbind result_bind].
  destruct (new_eq (Torrent.piece_length (info t)) total (length (piece_hashes (info t)))) as (p & Ep & _ & Hnum & Hpl & Htl & _).
  { assert (1 <= div_ceil total (Torrent.piece_length (info t)) <= total) by (by apply div_ceil_bounds).
    unfold geom_ok. rewrite !andb_true_iff, !Z.ltb_lt, !Z.leb_le, Nat.ltb_lt. change MAX_PIECE_LENGTH with 1073741824 in Hp. lia. }
  rewrite Ep. cbn [mbind result_bind]. eexists. split; [done|]. intros i. unfold psize, size_in. cbn. by rewrite Hnum, Hpl, Htl.
Qed.

Lemma checks_return m s : returns (startup_checks m s c t) = true.
Proof. unfold startup_checks. repeat (destruct (_ && _); [done|]). done. Qed.

(** The checks and the listener leave the policy alone. *)
Lemma checks_keep m s c' : startup_checks m s c t = Ok c' -> martians_strict c' = martians_strict c /\ seed_peers c' = seed_peers c.
Proof. unfold startup_checks. repeat (destruct (_ && _); [done|]). by intros [= <-]. Qed.

Lemma resolve_keep c' : martians_strict (resolve_port st c') = martians_strict c' /\ seed_peers (resolve_port st c') = seed_peers c'.
Proof. unfold resolve_port. destruct (st_listener_port st); [|done]. by destruct (_ && _). Qed.

Lemma session_start_ok resumed content : start_ok resumed -> returns (session_start (C := C) st t pid c) = true /\
  forall y b, session_start st t pid c = Ok (y, b) -> Inv sha1 content size_in resumed (piece_hashes (info t)) (martians_strict c) (seed_peers c) 0 y.
Proof.
  intros Hst. destruct (engine_new_ok resumed Hst) as (e & Ee & Hsize). destruct Hst as (Hinfo & Hn & Hbig & Hscan & Hsand).
  unfold session_start. rewrite Ee. cbn [mbind result_bind]. pose proof (checks_return (st_memspool_supported st) (st_sandbox_supported st)) as Hck.
  destruct (startup_checks _ _ c t) as [c'| | |] eqn:Eck; cbn [mbind result_bind]; try done.
  destruct (new_opens sha1 content size_in resumed (piece_hashes (info t)) (martians_strict c) (seed_peers c) (st_now st) t pid c (resolve_port st c') (start_peers st c' t pid) total e Hinfo Hn Ee Hsize) as [Et Ho].
  { unfold start_peers. by destruct (st_global_cap st). }
  { done. }
  { rewrite <- (proj1 (checks_keep _ _ _ Eck)). apply resolve_keep. }
  { rewrite <- (proj2 (checks_keep _ _ _ Eck)). apply resolve_keep. }
  destruct (start_opens sha1 content size_in resumed (piece_hashes (info t)) (martians_strict c) (seed_peers c) st t total
    (mkSys (with_cfg (resolve_port st c') e) (start_peers st c' t pid) [] [] [] [] 0) _ Hinfo Hbig Et Hscan Hsand Ho) as ([Hi Hr] & _).
  destruct (start_session st _) as [y r]. cbn [fst snd] in *. destruct r; try done. split; [done|]. by intros ? ? [= <- <-].
Qed.

(** Every reachable state of a session satisfies the invariant, and nothing panics on the way. *)
Lemma session_inv resumed content evs : start_ok resumed -> events_ok content evs ->
  returns (session sha1 (C := C) st t pid c evs) = true /\
  forall y r, session sha1 st t pid c evs = Ok (y, r) -> Inv sha1 content size_in resumed (piece_hashes (info t)) (martians_strict c) (seed_peers c) (2 ^ 63) y /\ returns r = true.
Proof.
  intros Hst (Hcon & Hevs & Hlen). destruct (session_start_ok resumed content Hst) as [Hr Hi]. unfold session.
  destruct (session_start st t pid c) as [[y0 started]| | |]; cbn [mbind result_bind]; try done. split; [done|].
  specialize (Hi y0 started eq_refl).
  destruct (run_good sha1 content size_in resumed (piece_hashes (info t)) (martians_strict c) (seed_peers c) started evs Hcon Hevs 0 y0) as [H1 H2]; [lia|unfold BLOCK_SIZE; lia|done|].
  intros y r [= E]. rewrite E in H1, H2. cbn in H1, H2. split; [|done]. eapply inv_mono; [|exact H1]. unfold BLOCK_SIZE. lia.
Qed.

(** C4: no event brings a session down.  Starting a session of a validated torrent
    and feeding it any sequence of events, from any peers, in any order, with
    any clock and any full or closed queues, never panics, and every loop that
    asks peers for blocks ends; no peer is ever charged with more than
    [PIPELINE_DEPTH] requests in flight. *)
Theorem session_never_panics resumed content evs : start_ok resumed -> events_ok content evs ->
  returns (session sha1 (C := C) st t pid c evs) = true /\
  forall y r, session sha1 st t pid c evs = Ok (y, r) ->
    returns r = true /\ forall a k, inflight (eng y) !! a = Some k -> (k <= PIPELINE_DEPTH)%nat.
Proof.
  intros Hst Hev. destruct (session_inv resumed content evs Hst Hev) as [Hr Hi]. split; [done|]. intros y r E.
  destruct (Hi y r E) as [((_ & _ & _ & _ & _ & E6 & _) & _) Hret]. by split.
Qed.

(** C5: only verified pieces reach the disk and only stored pieces count.  Whatever
    the peers send, every piece a session hands to storage has the length of
    that piece and its SHA-1 is the one in the torrent; no piece is handed over
    again while a write of it waits; and a piece counts as complete, is
    announced and served, only if the resume scan found it or storage
    acknowledged a write of it. *)
Theorem session_writes_verified resumed content evs y r : start_ok resumed -> events_ok content evs ->
  session sha1 (C := C) st t pid c evs = Ok (y, r) ->
  Forall (fun w => Z.of_nat (length w.2) = size_in w.1 /\ piece_hashes (info t) !! w.1 = Some (sha1 w.2)) (writes y) /\
  NoDup (pending y).*1 /\
  forall i, local (pm (eng y)) !! i = Some true ->
    i ∈ resumed \/ exists k d, writes y !! k = Some (i, d) /\ answers y !! k = Some true.
Proof.
  intros Hst Hev E. destruct (session_inv resumed content evs Hst Hev) as [_ Hi].
  destruct (Hi y r E) as [((_ & (_ & Hg & Hh & _) & _) & (S1 & _ & S3 & _ & S5) & _) _]. split_and!; try done.
  eapply list.Forall_impl; [exact S1|]. intros w (_ & H1 & H2). by rewrite <- Hg, <- Hh.
Qed.

(** C6: what a session says is exact.  Every [Request] it queues names a block
    of a piece of the torrent, at a multiple of the block size and with that
    block's exact length; every [Piece] it queues answers with at most one block
    of a piece it has, inside the piece, and carries exactly the stored bytes
    at that place. *)
Theorem session_commands_exact resumed content evs y r : start_ok resumed -> events_ok content evs ->
  session sha1 (C := C) st t pid c evs = Ok (y, r) ->
  Forall (fun x => match command x with
    | CRequest i b l => exists k, 0 <= i < Z.of_nat (length (piece_hashes (info t))) /\ (k < nblocks (size_in (Z.to_nat i)))%nat /\
        b = Z.of_nat k * BLOCK_SIZE /\ l = blen (size_in (Z.to_nat i)) k
    | CPiece i b d => exists x, content i = Some x /\ local (pm (eng y)) !! Z.to_nat i = Some true /\
        0 <= b /\ (0 < length d)%nat /\ Z.of_nat (length d) <= BLOCK_SIZE /\ b + Z.of_nat (length d) <= size_in (Z.to_nat i) /\
        d = slice x (Z.to_nat b) (length d)
    | _ => True
    end) (sent y).
Proof.
  intros Hst Hev E. destruct (session_inv resumed content evs Hst Hev) as [_ Hi].
  destruct (Hi y r E) as [((_ & (G1 & G2 & G3 & _) & _) & _ & (_ & _ & O3) & _) _].
  eapply list.Forall_impl; [exact O3|]. intros x. cbn beta. destruct (command x) as [i b l| | | | | | |i b d| | | |]; try done; intros Hx; cbn [cmd_ok] in Hx.
  - destruct Hx as [Hr Hb]. destruct Hb as (k & Hk & Eb). injection Eb as -> ->. exists k. by rewrite <- G2, <- G3, <- G1.
  - destruct Hx as [(P1 & P2 & P3 & P4 & P5) (z & Hz & Hd)]. exists z. rewrite <- G2. split_and!; try done; lia.
Qed.

(** C29: a session dials only addresses it has screened.  Every peer a session
    dialled itself passed the address filter in the strictness its
    configuration asks for (no martians; no private ranges either when
    anonymous or proxied), or is one of the addresses the user configured,
    whether it came from a tracker, the DHT or another peer. *)
Theorem session_dials_screened resumed content evs y r : start_ok resumed -> events_ok content evs ->
  session sha1 (C := C) st t pid c evs = Ok (y, r) ->
  forall a slot, PeerManager.handle (mgr (world y)) a = Some slot -> slot_outgoing slot = true ->
    is_dialable_peer_addr a (martians_strict c) = true \/ a ∈ seed_peers c.
Proof.
  intros Hst Hev E. destruct (session_inv resumed content evs Hst Hev) as [_ Hi].
  destruct (Hi y r E) as [((_ & (_ & _ & _ & G4 & G5) & _) & _ & _ & Hd) _]. unfold dials_ok in Hd. by rewrite G4, G5 in Hd.
Qed.
End Session.

(** ** A session *)

Definition content_ex (i : Z) : option bytes := if i =? 0 then Some data_ex else None.

Lemma start_ok_ex : start_ok startup_ex torrent_of_ex 4 [].
Proof.
  refine (conj _ (conj _ (conj _ (conj _ eq_refl)))); [| by vm_compute | by vm_compute | intros l; split; [done|]; intros a [= <-]; constructor].
  split_and!; cbn; try done. by repeat constructor.
Qed.

Lemma events_ok_ex : events_ok torrent_of_ex 4 content_ex download_ex.
Proof.
  split; [|split; [|by vm_compute]]; [|apply Forall_fmap; repeat (apply list.Forall_cons; split; [split; [by intros k l|cbn; try done; lia]|]); by apply list.Forall_nil].
  intros i x. unfold content_ex. destruct (Z.eqb_spec i 0) as [->|]; [|done]. by intros [= <-] _.
Qed.

Lemma session_never_panics_witness : returns (session sha_ex (C := Assoc) startup_ex torrent_of_ex [] default_config download_ex) = true.
Proof. exact (proj1 (session_never_panics sha_ex startup_ex torrent_of_ex [] default_config 4 [] content_ex download_ex start_ok_ex events_ok_ex)). Defined.

#[local] Abbreviation run_ex := (session sha_ex (C := Assoc) startup_ex torrent_of_ex [] default_config download_ex).

(** The download: one request, the verified piece on disk, and the loop is left. *)
Definition view (x : result (Sys Assoc * result bool)) : option (list (nat * bytes) * list Sent * list bool * result bool) :=
  match x with Ok (y, r) => Some (writes y, sent y, local (pm (eng y)), r) | _ => None end.

Example session_view : view run_ex =
  Some ([(0%nat, data_ex)], [mkSent peer_ex CInterested true; mkSent peer_ex (CRequest 0 0 4) true; mkSent peer_ex (CHave 0) true], [true], Ok true).
Proof. vm_compute. reflexivity. Qed.

Lemma session_ex : exists y, run_ex = Ok (y, Ok true) /\ writes y = [(0%nat, data_ex)] /\ sent y !! 1%nat = Some (mkSent peer_ex (CRequest 0 0 4) true).
Proof.
  pose proof session_view as V. destruct run_ex as [[y r]| | |]; try done. unfold view in V. injection V as Ew Es El ->.
  exists y. by rewrite Es.
Qed.

Lemma session_writes_verified_witness : exists y, run_ex = Ok (y, Ok true) /\
  Forall (fun w => Z.of_nat (length w.2) = size_in torrent_of_ex 4 w.1 /\ piece_hashes (info torrent_of_ex) !! w.1 = Some (sha_ex w.2)) (writes y).
Proof.
  destruct session_ex as (y & E & _). exists y. split; [exact E|].
  exact (proj1 (session_writes_verified sha_ex startup_ex torrent_of_ex [] default_config 4 [] content_ex download_ex y (Ok true) start_ok_ex events_ok_ex E)).
Defined.

Lemma session_commands_exact_witness : exists y, run_ex = Ok (y, Ok true) /\
  exists k, (k < nblocks (size_in torrent_of_ex 4 0))%nat /\ 0 = Z.of_nat k * BLOCK_SIZE /\ 4 = blen (size_in torrent_of_ex 4 0) k.
Proof.
  destruct session_ex as (y & E & _ & Es). exists y. split; [exact E|].
  pose proof (session_commands_exact sha_ex startup_ex torrent_of_ex [] default_config 4 [] content_ex download_ex y (Ok true) start_ok_ex events_ok_ex E) as F.
  apply (list.Forall_lookup_1 _ _ _ _ F) in Es as (k & _ & H1 & H2 & H3). exists k. exact (conj H1 (conj H2 H3)).
Defined.

Lemma session_dials_screened_witness : exists y, run_ex = Ok (y, Ok true) /\
  forall a slot, PeerManager.handle (mgr (world y)) a = Some slot -> slot_outgoing slot = true ->
    is_dialable_peer_addr a (martians_strict default_config) = true \/ a ∈ seed_peers default_config.
Proof.
  destruct session_ex as (y & E & _). exists y. split; [exact E|].
  exact (session_dials_screened sha_ex startup_ex torrent_of_ex [] default_config 4 [] content_ex download_ex y (Ok true) start_ok_ex events_ok_ex E).
Defined.

(** ** Behaviour worth knowing *)

(** A peer that chokes and unchokes us in endgame is never asked again for the block it dropped: its name
    stays in [endgame_requests], which neither the choke nor the reaper of stale requests clears. *)
Example endgame_choke_stalls :
  let later := mkEnv (fun n => 3600 * SEC + Z.of_nat n) (fun _ => true) (fun _ l => l) (fun _ => None) true true in
  let evs := take 4 download_ex ++ [(env_ex, PeerEv (Engine.Choke peer_ex)); (env_ex, PeerEv (Engine.Unchoke peer_ex))] in
  (fun v => v.1.1) <$> view (session sha_ex (C := Assoc) startup_ex torrent_of_ex [] default_config (evs ++ [(later, ChokeTimer)])) =
  Some ([], [mkSent peer_ex CInterested true; mkSent peer_ex (CRequest 0 0 4) true]).
Proof. vm_compute. reflexivity. Qed.

(** A session that resumes with every piece on disk announces all of it as still left. *)
Example resumed_seeder_left :
  let st := mkStartup 0 true true false None 0 false (Some 6881) (fun _ => Ok [0%nat]) None (Ok tt) in
  match session_start (C := Assoc) st torrent_of_ex [] default_config with
  | Ok (y, started_complete) => Some (started_complete, rq_left <$> snd (announce_request EvStarted y))
  | _ => None
  end = Some (true, Ok 4).
Proof. vm_compute. reflexivity. Qed.

(** The cleartext check compares the scheme as it is written. *)
Example uppercase_scheme_passes : check_anonymous_tracker_urls [] (Some (bs "HTTP://tracker.example/a")) = None.
Proof. vm_compute. reflexivity. Qed.
