(* ===== verification/Posture.v ===== *)
(** * The posture of a session

    What a session may reveal is decided before its loop starts: the proxies,
    the interface, anonymity, the transports, the listener.  No event changes it,
    whatever the peers, the tracker or storage say; and an anonymous or proxied
    session starts closed. *)

From Stdlib Require Import ZArith Lia String Strings.Byte.
From stdpp Require Import base tactics numbers list option gmap fin_maps fin_sets.
From S2P Require Import Prelude PeerWire Pieces Picker Handshake Torrent Layout Choke PeerManager Net RateLimit Extension Storage Cache Tracker Engine.

#[local] Set Warnings "-register-all".

#[local] Abbreviation World_ := (World SocketAddr IpAddr Socks5.ProxyConfig unit).

(** The fields of the peer manager that its setters write. *)
Definition settings (m : PeerManager.PeerManager SocketAddr IpAddr Socks5.ProxyConfig unit) :=
  (PeerManager.info_hash m, max_peers m, force_outgoing_mse m, proxies m, bind_iface m, anonymous m, utp m, global_cap m).

Create HintDb stays.

(** ** The peer manager *)

Definition fixes (f : World_ -> World_) : Prop := forall w, settings (mgr (f w)) = settings (mgr w).

Lemma fixes_remove a : fixes (remove_slot a).
Proof. intros w. unfold remove_slot. by destruct (PeerManager.peers (mgr w) !! a) as [[]|]. Qed.

Lemma fixes_drop_all l : forall w, settings (mgr (foldl (fun (w : World_) a => drop_peer a w) w l)) = settings (mgr w).
Proof. induction l as [|a l IH]; intros w; [done|]. cbn [foldl]. rewrite IH. unfold drop_peer. by rewrite fixes_remove. Qed.

Lemma fixes_ban i : fixes (PeerManager.ban sa_ip i).
Proof. intros w. unfold PeerManager.ban. by rewrite fixes_drop_all. Qed.

Lemma fixes_violation now i : fixes (fun w => (record_violation sa_ip now i w).1).
Proof.
  intros w. unfold record_violation. destruct (bool_decide _); [done|]. destruct (_ <=? _); [|done]. cbn [fst]. by rewrite fixes_ban.
Qed.

Lemma fixes_spawn a : fixes (fun w => (spawn_outgoing a w).1).
Proof. intros w. unfold spawn_outgoing. destruct (bool_decide _); [done|]. destruct (_ <=? _)%nat; [done|]. by destruct (acquire_global w) as [[]|]. Qed.

Lemma fixes_connect l : fixes (fun w => (try_connect_many sa_ip l w).1).
Proof.
  induction l as [|a l IH]; intros w; cbn [try_connect_many]; [done|]. destruct (_ <=? _)%nat; [done|].
  destruct (bool_decide (is_Some _)); [apply IH|]. destruct (bool_decide _); [apply IH|].
  pose proof (fixes_spawn a w) as Hs. cbn beta in Hs. destruct (spawn_outgoing a w) as [w1 []]; [|exact Hs].
  specialize (IH w1). cbn beta in IH. destruct (try_connect_many sa_ip l w1). cbn in *. congruence.
Qed.

Lemma fixes_incoming a : fixes (fun w => (accept_incoming sa_ip a w).1).
Proof. intros w. unfold accept_incoming. destruct (_ || _); [done|]. destruct (bool_decide _); [done|]. by destruct (acquire_global w) as [[]|]. Qed.

Lemma fixes_handshaken a : fixes (fun w => (accept_handshaken sa_ip a w).1).
Proof. intros w. unfold accept_handshaken. destruct (_ || _); [done|]. destruct (bool_decide _); [done|]. by destruct (acquire_global w) as [[]|]. Qed.

#[export] Hint Resolve fixes_remove fixes_ban fixes_violation fixes_connect fixes_incoming fixes_handshaken : stays.

(** ** Handlers *)

Section Posture.
Context {C : Type} `{Lru C}.
#[local] Abbreviation E := (M (Sys C)).

Definition posture (y : Sys C) := (torrent (eng y), cfg (eng y), settings (mgr (world y))).

Definition stays {A} (m : E A) : Prop := forall y, posture (fst (m y)) = posture y.

Lemma stays_bind {A B} (m : E A) (f : A -> E B) : stays m -> (forall a, stays (f a)) -> stays (m ≫= f).
Proof.
  intros Hm Hf y. unfold mbind, M_bind. specialize (Hm y). destruct (m y) as [y1 [a| | |]]; cbn in *; [|done..].
  by rewrite (Hf a y1).
Qed.

Lemma stays_ret {A} (a : A) : stays (mret a).
Proof. by intros y. Qed.
Lemma stays_lift {A} (r : result A) : stays (lift r).
Proof. by intros y. Qed.
Lemma stays_gets {A} (g : Sys C -> A) : stays (gets g).
Proof. by intros y. Qed.
Lemma stays_ask {A} (f : nat -> A) : stays (ask f).
Proof. by intros y. Qed.
Lemma stays_eng f : (forall e, torrent (f e) = torrent e /\ cfg (f e) = cfg e) -> stays (on_eng f).
Proof. intros Hf y. destruct (Hf (eng y)) as [E1 E2]. unfold posture. cbn. by rewrite E1, E2. Qed.
Lemma stays_world f : fixes f -> stays (on_world f).
Proof. intros Hf y. unfold posture. cbn. by rewrite Hf. Qed.
Lemma stays_pm {A} (m : M Pieces.PieceManager A) : stays (on_pm m).
Proof. intros y. unfold on_pm. by destruct (m (pm (eng y))). Qed.
Lemma stays_picker {A} (m : M (Picker SocketAddr) A) : stays (on_picker m).
Proof. intros y. unfold on_picker. by destruct (m (picker (eng y))). Qed.
Lemma stays_choker {A} (m : M (ChokeScheduler SocketAddr) A) : stays (on_choker m).
Proof. intros y. unfold on_choker. by destruct (m (choker (eng y))). Qed.
Lemma stays_cache {A} (m : M C A) : stays (on_cache m).
Proof. intros y. unfold on_cache. by destruct (m (upload_cache (eng y))). Qed.
Lemma stays_catch {A} (m : E A) : stays m -> stays (catch m).
Proof. intros Hm y. unfold catch. specialize (Hm y). by destruct (m y) as [y1 []]. Qed.
Lemma stays_log f : (forall y, posture (f y) = posture y) -> stays (modify f).
Proof. intros Hf y. apply Hf. Qed.

Hint Resolve stays_ret stays_lift stays_gets stays_ask stays_pm stays_picker stays_choker stays_cache : stays.

Ltac stays := repeat first
  [ progress intros | solve [auto with stays] | apply stays_bind | apply stays_catch
  | apply stays_world; solve [auto with stays | done] | apply stays_eng; done | apply stays_log; done
  | match goal with |- stays (match ?x with _ => _ end) => destruct x end
  | progress cbn zeta beta ].

Lemma stays_send env a c : stays (try_send env a c).
Proof. unfold try_send. stays. Qed.
Lemma stays_handle a : stays (has_handle (C := C) a).
Proof. apply stays_gets. Qed.
Hint Resolve stays_send stays_handle : stays.
Lemma stays_send_if env a c : stays (send_if_connected env a c).
Proof. unfold send_if_connected. stays. Qed.
Hint Resolve stays_send_if : stays.

Lemma stays_interest env a : stays (maybe_express_interest env a).
Proof. unfold maybe_express_interest. stays. Qed.
Lemma stays_charge env l : stays (charge_download env l).
Proof. unfold charge_download. stays. Qed.
Lemma stays_charge_up env l : stays (charge_upload env l).
Proof. unfold charge_upload. stays. Qed.
Lemma stays_next a en i : stays (next_block a en i).
Proof. unfold next_block. stays. Qed.
Lemma stays_give en i b : stays (give_back en i b).
Proof. unfold give_back. stays. Qed.
Lemma stays_note env a en k : stays (note_request env a en k).
Proof. unfold note_request. stays. Qed.
Hint Resolve stays_interest stays_charge stays_charge_up stays_next stays_give stays_note : stays.

Lemma stays_once env a en ex : stays (request_once env a en ex).
Proof. unfold request_once. stays. Qed.
Lemma stays_loop fuel env a en : forall ex, stays (request_loop fuel env a en ex).
Proof. induction fuel as [|fuel IH]; intros ex; cbn [request_loop]; [stays|]. apply stays_bind; [apply stays_once|]. stays. Qed.
Lemma stays_request env a : stays (maybe_request_blocks env a).
Proof. unfold maybe_request_blocks. stays. apply stays_loop. Qed.
Lemma stays_release_keys keys : stays (release_keys keys).
Proof. induction keys as [|[i b] keys IH]; cbn [release_keys]; stays. Qed.
Lemma stays_release_for a : stays (release_outstanding_for a).
Proof. unfold release_outstanding_for. stays. apply stays_release_keys. Qed.
Lemma stays_less a : stays (one_less a).
Proof. apply stays_eng. intros e. by destruct (inflight e !! a). Qed.
Hint Resolve stays_request stays_release_for stays_less : stays.
Lemma stays_cleanup a : stays (cleanup_disconnected_peer a).
Proof. unfold cleanup_disconnected_peer. stays. Qed.
Hint Resolve stays_cleanup : stays.

Lemma stays_dispatch env a i b l : stays (dispatch_upload env a i b l).
Proof. unfold dispatch_upload. stays. Qed.
Hint Resolve stays_dispatch : stays.
Lemma stays_serve env a i b l : stays (serve_request env a i b l).
Proof. unfold serve_request. stays. Qed.
Lemma stays_upload env u r : stays (upload_task env u r).
Proof. unfold upload_task. stays. Qed.
Hint Resolve stays_serve stays_upload : stays.

Lemma stays_cancel env a i b l others : stays (cancel_list env a i b l others).
Proof. induction others as [|o others IH]; cbn [cancel_list]; stays. Qed.
Hint Resolve stays_cancel : stays.
Lemma stays_cancel_others env a i b l : stays (cancel_others env a i b l).
Proof. unfold cancel_others. stays. Qed.
Lemma stays_finish sha1 env a i buf : stays (finish_piece sha1 env a i buf).
Proof. unfold finish_piece. stays. Qed.
Hint Resolve stays_cancel_others stays_finish : stays.
Lemma stays_block sha1 env a i b d : stays (handle_block sha1 env a i b d).
Proof. unfold handle_block, accept_block. stays. Qed.
Lemma stays_ingest l : stays (ingest l).
Proof. unfold ingest. stays. Qed.
Lemma stays_greet env a f : stays (greet env a f).
Proof. unfold greet. stays. Qed.
Lemma stays_unchoke env a : stays (unchoke env a).
Proof. unfold unchoke. stays. Qed.
Lemma stays_choke env a : stays (choke env a).
Proof. unfold choke. stays. Qed.
Hint Resolve stays_block stays_ingest stays_greet stays_unchoke stays_choke : stays.

Lemma stays_peer_event sha1 env ev : stays (handle_peer_event sha1 env ev).
Proof. destruct ev; cbn [handle_peer_event]; unfold note_pex_id, take_pex; stays. Qed.

Lemma stays_for_each l f : (forall a, stays (f a)) -> stays (for_each l f).
Proof. intros Hf. induction l as [|a l IH]; cbn [for_each]; stays. Qed.
Hint Resolve stays_for_each : stays.
Lemma stays_storage env ev : stays (handle_storage_event env ev).
Proof. unfold handle_storage_event, connected. stays; apply stays_for_each; stays. Qed.
Lemma stays_pex env cur a id : stays (send_pex env cur a id).
Proof. unfold send_pex. stays. Qed.
Lemma stays_pex_list env cur l : stays (send_pex_list env cur l).
Proof. induction l as [|[a id] l IH]; cbn [send_pex_list]; stays. Qed.
Lemma stays_reap env l : stays (reap env l).
Proof. induction l as [|[[i b] a] l IH]; cbn [reap]; stays. Qed.
Hint Resolve stays_peer_event stays_storage stays_pex_list stays_reap : stays.

Lemma stays_step sha1 started env ev : stays (engine_step sha1 started env ev).
Proof.
  destruct ev; cbn [engine_step]; unfold storage_answer, upload_reply, reannounce, dht_tick, choke_timer, send_pex_to_all, connected, control; stays.
Qed.

(** No sequence of events changes the torrent, the configuration or the settings of the peer manager. *)
Lemma stays_run sha1 started evs : stays (engine_run sha1 started evs).
Proof. induction evs as [|[env ev] evs IH]; cbn [engine_run]; stays. apply stays_step. Qed.

Lemma stays_mark l : stays (mark_verified l).
Proof. induction l as [|i l IH]; cbn [mark_verified]; stays. Qed.
Hint Resolve stays_mark : stays.
Lemma stays_start st : stays (start_session st).
Proof. unfold start_session. stays. Qed.
End Posture.

(** ** The posture at startup *)

Lemma checks_closed m s c t c' : startup_checks m s c t = Ok c' ->
  cfg_anonymous c' = cfg_anonymous c /\ cfg_proxies c' = cfg_proxies c /\ cfg_bind_iface c' = cfg_bind_iface c /\
  (cfg_anonymous c = true -> proxied c = true /\ check_anonymous_tracker_urls (announce_list t) (announce t) = None /\ cfg_force_outgoing_mse c' = true).
Proof.
  unfold startup_checks. destruct (cfg_anonymous c && negb (proxied c)) eqn:E1; [done|].
  destruct (cfg_anonymous c && match check_anonymous_tracker_urls _ _ with Some _ => _ | None => _ end) eqn:E2; [done|].
  repeat (match goal with |- (if ?b then _ else _) = _ -> _ => destruct b; [done|] end). intros [= <-]. split_and!; try done. intros Ha. rewrite Ha in E1, E2. cbn in *.
  rewrite Ha, orb_true_r. destruct (proxied c); [|discriminate E1]. destruct (check_anonymous_tracker_urls _ _); [discriminate E2|done].
Qed.

Lemma resolve_closed st c : cfg_anonymous (resolve_port st c) = cfg_anonymous c /\ proxied (resolve_port st c) = proxied c.
Proof. unfold resolve_port. destruct (st_listener_port st); [|done]. by destruct (_ && _). Qed.

(** The state a session's events start from, up to what no event changes. *)
Lemma session_settings {C} `{Lru C} sha1 st t pid c evs y r : session sha1 (C := C) st t pid c evs = Ok (y, r) ->
  exists c', startup_checks (st_memspool_supported st) (st_sandbox_supported st) c t = Ok c' /\
    posture y = (t, resolve_port st c', settings (mgr (start_peers st c' t pid))).
Proof.
  intros Hs. unfold session in Hs. apply bind_Ok in Hs as ([y0 started] & H0 & Hs). injection Hs as Hs.
  pose proof (stays_run sha1 started evs y0) as Hrun. rewrite Hs in Hrun. cbn [fst] in Hrun. rewrite Hrun.
  unfold session_start in H0. apply bind_Ok in H0 as (e & He & H0). apply bind_Ok in H0 as (c' & Hc & H0). exists c'. split; [done|].
  match type of H0 with (match start_session st ?y with _ => _ end) = _ => pose proof (stays_start st y) as Hst end.
  destruct (start_session st _) as [y1 [b| | |]]; [|done..]. injection H0 as <- <-. cbn [fst] in Hst. rewrite Hst.
  unfold posture. cbn [eng world with_cfg torrent cfg]. do 2 f_equal.
  unfold engine_new in He. repeat (apply bind_Ok in He as (? & _ & He)). by injection He as <-.
Qed.

(** C30: the posture is fixed at startup.  Whatever events a session sees, the
    settings of its peer manager are those its checked configuration gives: it
    keeps dialling through the proxies and the interface of its configuration.
    An anonymous session has a proxy, no cleartext tracker and encrypted
    handshakes only; and a session that is anonymous or proxied has no µTP
    socket, binds no listener, never publishes itself on the DHT and tells
    trackers port 0. *)
Theorem session_posture {C} `{Lru C} sha1 st t pid c evs y r : session sha1 (C := C) st t pid c evs = Ok (y, r) ->
  let m := mgr (world y) in
  (exists c', startup_checks (st_memspool_supported st) (st_sandbox_supported st) c t = Ok c' /\
     settings m = settings (mgr (start_peers st c' t pid))) /\
  proxies m = cfg_proxies c /\ bind_iface m = cfg_bind_iface c /\ anonymous m = cfg_anonymous c /\
  (cfg_anonymous c = true -> cfg_proxies c <> [] /\ force_outgoing_mse m = true /\
     check_anonymous_tracker_urls (announce_list t) (announce t) = None) /\
  (cfg_anonymous c || proxied c = true -> utp m = None /\ binds_listener st c = false /\
     (forall spawned, announces_on_dht st c t spawned = false) /\
     forall ev y' q, announce_request ev y = (y', Ok q) -> rq_port q = 0).
Proof.
  intros Hs m. destruct (session_settings sha1 st t pid c evs y r Hs) as (c' & Hc & Hp). split; [exists c'; split; [done|exact (f_equal snd Hp)]|].
  destruct (checks_closed _ _ _ _ _ Hc) as (A1 & A2 & A3 & A4). destruct (resolve_closed st c') as (R1 & R2).
  injection Hp as Et Ec _ _ Em Ep Eb Ea Eu _. subst m. rewrite Em, Ep, Eb, Ea, Eu. unfold start_peers. destruct (st_global_cap st); cbn.
  all: rewrite A1, A2, A3; split_and!; try done.
  all: try (intros Ha; destruct (A4 Ha) as (B1 & B2 & B3); split_and!; try done; intros Hn; unfold proxied in B1; by rewrite Hn in B1).
  all: intros Hor; unfold proxied in *; rewrite A2; unfold binds_listener, announces_on_dht, dht_wanted, inbound_wanted, proxied; split_and!.
  all: try (destruct (cfg_anonymous c), (negb (length (cfg_proxies c) =? 0)%nat); cbn; rewrite ?andb_false_r; done).
  all: try (intros spawned; destruct (cfg_anonymous c), (negb (length (cfg_proxies c) =? 0)%nat); cbn; rewrite ?andb_false_r; done).
  all: intros ev y' q; unfold announce_request; msteps; destruct (total_length (torrent (eng y))); try done; intros [= <- <-]; cbn.
  all: unfold advertised_port, proxied; rewrite Ec, R1, R2, A1, A2, Hor; done.
Qed.

Definition anonymous_ex : EngineConfig :=
  mkConfig (bs ".") 6881 50 (2 * SEC) (60 * SEC) [] false false true [] [Socks5.mkProxy (sock_addr (IpV4 Byte.x7f Byte.x00 Byte.x00 Byte.x01) 9050) None true]
    None true false false false None None None None true None [] false.

Example anonymous_starts : is_ok (session sha_ex (C := Assoc) startup_ex torrent_of_ex [] anonymous_ex download_ex) = true.
Proof. vm_compute. reflexivity. Qed.

Lemma session_posture_witness : exists y r, session sha_ex (C := Assoc) startup_ex torrent_of_ex [] anonymous_ex download_ex = Ok (y, r) /\
  utp (mgr (world y)) = None /\ force_outgoing_mse (mgr (world y)) = true.
Proof.
  pose proof anonymous_starts as Hok. destruct (session sha_ex startup_ex torrent_of_ex [] anonymous_ex download_ex) as [[y r]| | |] eqn:E; [|discriminate Hok..].
  destruct (session_posture sha_ex startup_ex torrent_of_ex [] anonymous_ex download_ex y r E) as (_ & _ & _ & _ & Ha & Hp).
  exists y, r. exact (conj eq_refl (conj (proj1 (Hp eq_refl)) (proj1 (proj2 (Ha eq_refl))))).
Defined.
