(* ===== verification/Connection.v ===== *)
(** * Peer tasks: [src/src/peer/connection.rs]

    The task behind each peer: dialling, the plain or encrypted handshake, the
    read side that turns frames into events for the engine, the write side that
    turns its commands into bytes, and the verdict when the task ends.

    What a task meets is a [TaskEnv]: the outcome of its dials, the transports
    they give (what the peer will send, whether it can be written to), timeouts,
    clock readings, and how many events the engine takes before its channel
    closes.  A [Task] records what was dialled and what the engine was told. *)

From Stdlib Require Import ZArith Lia String Strings.Byte.
From stdpp Require Import base tactics numbers list option.
From S2P Require Import Prelude Bencode PeerWire Pieces Picker Handshake Torrent Choke PeerManager Float64 Net RateLimit Extension Text Socks5 Rc4 Mse Storage Cache Tracker Engine EngineProofs.

#[local] Set Warnings "-register-all".

(** ** Constants *)

Definition MAX_FRAME_LEN : Z := (BLOCK_SIZE + 1024) * 2.
Definition HANDSHAKE_TIMEOUT : Z := 15 * SEC.
Definition KEEPALIVE_INTERVAL : Z := 120 * SEC.
Definition READ_IDLE_TIMEOUT : Z := 300 * SEC.
Definition WRITE_STALL_TIMEOUT : Z := 120 * SEC.
Definition REQUEST_TOKENS_PER_SEC : f64 := of_int 200.
Definition REQUEST_BURST_TOKENS : f64 := of_int 50.

(** ** Verdicts *)

(** [s.contains(pat)] *)
Definition contains_str (pat s : string) : bool := match String.index 0 pat s with Some _ => true | None => false end.

Definition is_likely_mse_signal (e : Error) : bool :=
  match e with
  | EHandshake s =>
      contains_str "early eof" s || contains_str "bad pstrlen" s || contains_str "bad protocol string" s
      || contains_str "read: unexpected end of file" s
  | ENetwork s => contains_str "Connection reset" s
  | _ => false
  end.

Definition violation_texts : list string :=
  ["bad pstrlen"; "bad protocol string"; "info_hash mismatch"; "frame too large"; "unknown message id";
   "bitfield spare bits not zero"; "have payload"; "piece short"; "extended payload empty"]%string.

Definition is_protocol_violation (e : Error) : bool :=
  match e with
  | EHandshake s | ENetwork s => existsb (fun pat => contains_str pat s) violation_texts
  | _ => false
  end.

(** The flag of the [Disconnected] event. *)
Definition classify_outcome (outcome : result unit) : bool :=
  match outcome with Err e => is_protocol_violation e | _ => false end.

Definition write_stall_error : Error := ENetwork "peer write stalled: no progress".

(** ** Messages and events *)

Definition msg_to_event (addr : SocketAddr) (msg : Message) : option PeerEvent :=
  match msg with
  | PeerWire.KeepAlive => None
  | PeerWire.Choke => Some (Choke addr)
  | PeerWire.Unchoke => Some (Unchoke addr)
  | PeerWire.Interested => Some (Interested addr)
  | PeerWire.NotInterested => Some (NotInterested addr)
  | PeerWire.Have index => Some (Have addr index)
  | PeerWire.Bitfield b => Some (Bitfield addr (flat_map byte_bits b))
  | PeerWire.Request index begin length => Some (Request addr index begin length)
  | PeerWire.Piece index begin data => Some (Block addr index begin data)
  | PeerWire.Cancel index begin length => Some (Cancel addr index begin length)
  | PeerWire.Extended _ _ => None
  | PeerWire.HaveAll => Some (HaveAll addr)
  | PeerWire.HaveNone => None
  | PeerWire.RejectRequest index begin _ => Some (RejectRequest addr index begin)
  | PeerWire.AllowedFast _ | PeerWire.SuggestPiece _ => None
  end.

(** The message of a command. *)
Definition command_message (cmd : PeerCommand) : Message :=
  match cmd with
  | CRequest index begin length => PeerWire.Request index begin length
  | CCancel index begin length => PeerWire.Cancel index begin length
  | CHave i => PeerWire.Have i
  | CChoke => PeerWire.Choke
  | CUnchoke => PeerWire.Unchoke
  | CInterested => PeerWire.Interested
  | CNotInterested => PeerWire.NotInterested
  | CPiece index begin data => PeerWire.Piece index begin data
  | CBitfield b => PeerWire.Bitfield b
  | CExtension ext_id payload => PeerWire.Extended (z2b ext_id) payload
  | CHaveAll => PeerWire.HaveAll
  | CHaveNone => PeerWire.HaveNone
  end.

(** Pieces take the single-pass path of [write_message], everything else [encode]. *)
Definition command_bytes (cmd : PeerCommand) : bytes :=
  match cmd with
  | CPiece index begin data => write_message (PeerWire.Piece index begin data)
  | other => PeerWire.encode (command_message other)
  end.

(** ** The read side *)

(** [read_frame_with_idle]; [idle] when no frame came within the limit. *)
Definition read_frame_with_idle (idle : bool) (stream buf : bytes) : result (bytes * bytes) :=
  if idle then Err (ENetwork "peer idle: no message") else read_frame_into stream MAX_FRAME_LEN buf.

(** What the reader of a connection meets at its [n]-th frame. *)
Record ReadEnv := mkReadEnv { re_idle : nat -> bool; re_clock : nat -> Z; re_open : nat }.

(** What a frame is turned into: nothing, or an event. *)
Definition frame_event (addr : SocketAddr) (msg : Message) : result (option PeerEvent) :=
  match msg with
  | PeerWire.Extended ext_id payload =>
      if Byte.eqb ext_id EXT_HANDSHAKE_ID then
        match parse_handshake_payload payload with
        | Ok info => Ok (Some (ExtensionHandshake addr (their_ut_pex_id info)))
        | Err _ => Ok None
        | Panic => Panic
        | NoFuel => NoFuel
        end
      else if Byte.eqb ext_id OUR_UT_PEX_ID then
        match parse_pex payload with
        | Ok added => Ok (if (length added =? 0)%nat then None else Some (Pex addr added))
        | Err _ => Ok None
        | Panic => Panic
        | NoFuel => NoFuel
        end
      else Ok (msg_to_event addr msg)
  | _ => Ok (msg_to_event addr msg)
  end.

(** The token bucket of inbound requests: whether the message goes on. *)
Definition take_token (now : Z) (msg : Message) (b : TokenBucket) : TokenBucket * bool :=
  match msg with PeerWire.Request _ _ _ => try_consume now (of_int 1) b | _ => (b, true) end.

(** The loop of the read task: the events the engine took, and how it ended.
    [n] frames have been read, [frame] is the reused buffer. *)
Fixpoint read_loop (fuel : nat) (env : ReadEnv) (addr : SocketAddr) (n : nat) (b : TokenBucket) (stream frame : bytes) (evs : list PeerEvent)
    : list PeerEvent * result unit :=
  match fuel with
  | O => (evs, NoFuel)
  | S fuel =>
      match read_frame_with_idle (re_idle env n) stream frame with
      | Ok (frame, stream) =>
          match PeerWire.decode frame with
          | Ok msg =>
              let '(b, ok) := take_token (re_clock env n) msg b in
              if negb ok then read_loop fuel env addr (S n) b stream frame evs
              else
                match frame_event addr msg with
                | Ok None => read_loop fuel env addr (S n) b stream frame evs
                | Ok (Some ev) =>
                    if (length evs <? re_open env)%nat then read_loop fuel env addr (S n) b stream frame (evs ++ [ev])
                    else (evs, Ok tt)
                | Err e => (evs, Err e)
                | Panic => (evs, Panic)
                | NoFuel => (evs, NoFuel)
                end
          | Err e => (evs, Err e)
          | Panic => (evs, Panic)
          | NoFuel => (evs, NoFuel)
          end
      | Err e => (evs, Err e)
      | Panic => (evs, Panic)
      | NoFuel => (evs, NoFuel)
      end
  end.

(** Every frame takes at least its four length bytes. *)
Definition read_task (env : ReadEnv) (now : Z) (addr : SocketAddr) (stream : bytes) : list PeerEvent * result unit :=
  read_loop (S (length stream)) env addr 0 (bucket_new now REQUEST_BURST_TOKENS REQUEST_TOKENS_PER_SEC) stream [] [].

(** ** The write side *)

Definition until_next_keepalive (now last_send : Z) : Z :=
  let elapsed := sat_sub now last_send in
  if elapsed <=? KEEPALIVE_INTERVAL then KEEPALIVE_INTERVAL - elapsed else SEC.

(** How a write ends. *)
Inductive WriteOutcome := Written_ | Stalled | Failed.

(** What wakes the loop; the read task's result is [lost] when it was cancelled before it could send it. *)
Inductive Wake :=
  | Command (cmd : option PeerCommand) (o : WriteOutcome)
  | Keepalive (o : WriteOutcome)
  | ReadDone (lost : bool).

Definition write_out (o : WriteOutcome) (b out : bytes) (e : Error) : bytes * result unit :=
  match o with
  | Written_ => (out ++ b, Ok tt)
  | Stalled => (out, Err write_stall_error)
  | Failed => (out, Err e)
  end.

(** The plaintext written and how the loop ended; [None] while it runs. *)
Fixpoint write_loop (read_result : result unit) (wakes : list Wake) (out : bytes) : bytes * option (result unit) :=
  match wakes with
  | [] => (out, None)
  | Command None _ :: _ => (out, Some (Ok tt))
  | Command (Some cmd) o :: wakes =>
      let e := match cmd with CPiece _ _ _ => ENetwork "frame write" | _ => ENetwork "write" end in
      match write_out o (command_bytes cmd) out e with
      | (out, Ok _) => write_loop read_result wakes out
      | (out, r) => (out, Some r)
      end
  | Keepalive o :: wakes =>
      match write_out o (write_frame []) out (ENetwork "frame write") with
      | (out, Ok _) => write_loop read_result wakes out
      | (out, r) => (out, Some r)
      end
  | ReadDone lost :: _ => (out, Some (if lost then Ok tt else read_result))
  end.

(** The extension handshake goes out first, when the peer knows the protocol; its failure is ignored. *)
Definition opening (supports_ext anonymous : bool) (o : WriteOutcome) : bytes :=
  if supports_ext then
    (write_out o (write_message (PeerWire.Extended EXT_HANDSHAKE_ID (build_handshake_payload anonymous))) [] (ENetwork "frame write")).1
  else [].

(** ** Dialling *)

Inductive Transport := Tcp | Utp.

Inductive Dial :=
  | DialChain (hops : list ProxyConfig) (addr : SocketAddr) (iface : option bytes)
  | DialInterface (addr : SocketAddr) (iface : bytes)
  | DialDirect (addr : SocketAddr)
  | DialUtp (addr : SocketAddr).

(** The [n]-th dial: whether it connects, and what the transport it gives carries. *)
Record DialEnv := mkDialEnv {
  de_nonce : nat -> nat -> bytes;
  de_tcp : nat -> bool;
  de_utp : nat -> bool;
  de_tcp_first : nat -> bool;
}.

(** [for_dial] on every hop, each with a nonce of its own. *)
Fixpoint effective_hops (nonce : nat -> bytes) (proxies : list ProxyConfig) : list ProxyConfig :=
  match proxies with
  | [] => []
  | p :: proxies => for_dial p (nonce 0%nat) :: effective_hops (fun i => nonce (S i)) proxies
  end.

(** The log grows by what is contacted. *)
Definition dial_tcp (env : DialEnv) (n : nat) (addr : SocketAddr) (proxies : list ProxyConfig) (iface : option bytes) (anonymous : bool)
    : M (list Dial) unit :=
  if anonymous && (length proxies =? 0)%nat then
    lift (Err (ENetwork "anonymous mode requires a SOCKS5 proxy; refusing direct dial"))
  else
    let strict := dht_martian_strict anonymous (negb (length proxies =? 0)%nat) in
    if negb (is_safe_dial_target addr strict) then lift (Err (ENetwork "refusing martian dial target"))
    else
      _ ← modify (fun log => log ++ [match proxies with
        | [] => match iface with Some i => DialInterface addr i | None => DialDirect addr end
        | _ => DialChain (effective_hops (de_nonce env n) proxies) addr iface
        end]);
      if de_tcp env n then mret tt
      else lift (Err (ENetwork (match proxies with [] => "connect" | _ => "socks5 dial" end))).

Definition should_use_utp (proxies_empty bind_iface_set anonymous : bool) : bool :=
  proxies_empty && negb bind_iface_set && negb anonymous.

(** Both dials are under way; the first to connect wins, and the last error is returned when neither does. *)
Definition race_tcp_utp (env : DialEnv) (n : nat) (addr : SocketAddr) (proxies : list ProxyConfig) (iface : option bytes) (anonymous : bool)
    : M (list Dial) Transport := fun log =>
  let '(log, tcp) := dial_tcp env n addr proxies iface anonymous log in
  let log := log ++ [DialUtp addr] in
  let utp : result unit := if de_utp env n then Ok tt else Err (ENetwork "utp connect") in
  (log, if de_tcp_first env n then
          match tcp with
          | Ok _ => Ok Tcp
          | Err _ => match utp with Ok _ => Ok Utp | Err e => Err e | Panic => Panic | NoFuel => NoFuel end
          | Panic => Panic
          | NoFuel => NoFuel
          end
        else
          match utp with
          | Ok _ => Ok Utp
          | _ => match tcp with Ok _ => Ok Tcp | Err e => Err e | Panic => Panic | NoFuel => NoFuel end
          end).

Definition connect_transport (env : DialEnv) (n : nat) (addr : SocketAddr) (utp : bool) (proxies : list ProxyConfig) (iface : option bytes) (anonymous : bool)
    : M (list Dial) Transport :=
  let strict := dht_martian_strict anonymous (negb (length proxies =? 0)%nat) in
  if negb (is_safe_dial_target addr strict) then lift (Err (ENetwork "refusing martian dial target"))
  else
    let use_utp := should_use_utp (length proxies =? 0)%nat (match iface with Some _ => true | None => false end) anonymous in
    if use_utp && utp then race_tcp_utp env n addr proxies iface anonymous
    else _ ← dial_tcp env n addr proxies iface anonymous; mret Tcp.

(** ** Handshakes *)

(** A connection past its handshake: the bytes still to come, as the reader will see them, and the other end's handshake. *)
Record Opened := mkOpened { op_incoming : bytes; op_cipher : option EncryptedStream; op_theirs : Handshake }.

(** The stream under an encrypted connection, its ciphers advancing with what passes. *)
Record Secure := mkSecure { se_stream : Stream; se_es : EncryptedStream }.

Definition secure_write (data : bytes) (e : Error) : M Secure unit := fun s =>
  match process (write_cipher (se_es s)) data with
  | Ok (c, ct) =>
      let '(st, r) := write_all ct e (se_stream s) in
      (mkSecure st (mkEncrypted (read_cipher (se_es s)) c), r)
  | Err e => (s, Err e)
  | Panic => (s, Panic)
  | NoFuel => (s, NoFuel)
  end.

Definition secure_read (n : nat) (e : Error) : M Secure bytes := fun s =>
  match read_n n e (se_stream s) with
  | (st, Ok ct) =>
      match process (read_cipher (se_es s)) ct with
      | Ok (c, pt) => (mkSecure st (mkEncrypted c (write_cipher (se_es s))), Ok pt)
      | Err e => (mkSecure st (se_es s), Err e)
      | Panic => (mkSecure st (se_es s), Panic)
      | NoFuel => (mkSecure st (se_es s), NoFuel)
      end
  | (st, Err e) => (mkSecure st (se_es s), Err e)
  | (st, Panic) => (mkSecure st (se_es s), Panic)
  | (st, NoFuel) => (mkSecure st (se_es s), NoFuel)
  end.

(** [Handshake::perform_outgoing] and [perform_incoming] over the encrypted stream. *)
Definition secure_outgoing (ext : option bytes) (ih pid : bytes) : M Secure Handshake :=
  _ ← secure_write (Handshake.encode (Handshake.new ext ih pid)) (EHandshake "write");
  buf ← secure_read HANDSHAKE_LEN (EHandshake "read: early eof");
  theirs ← lift (Handshake.decode buf);
  if negb (bytes_eqb (Handshake.info_hash theirs) ih) then lift (Err (EHandshake "info_hash mismatch")) else mret theirs.

Definition secure_incoming (ext : option bytes) (ih pid : bytes) : M Secure Handshake :=
  buf ← secure_read HANDSHAKE_LEN (EHandshake "read: early eof");
  theirs ← lift (Handshake.decode buf);
  if negb (bytes_eqb (Handshake.info_hash theirs) ih) then lift (Err (EHandshake "info_hash mismatch"))
  else
    _ ← secure_write (Handshake.encode (Handshake.new ext ih pid)) (EHandshake "write");
    mret theirs.

(** [timeout(HANDSHAKE_TIMEOUT, m)] *)
Definition within {A} (expired : bool) (msg : string) (m : Stream -> Stream * result A) : Stream -> Stream * result A := fun s =>
  if expired then (s, Err (EHandshake msg)) else m s.

Definition plain_handshake (expired outgoing : bool) (ext : option bytes) (ih pid : bytes) : Stream -> Stream * result Opened := fun s =>
  match within expired "timeout" (if outgoing then Handshake.perform_outgoing ext ih pid else Handshake.perform_incoming ext ih pid) s with
  | (s, Ok theirs) => (s, Ok (mkOpened (inbox s) None theirs))
  | (s, Err e) => (s, Err e)
  | (s, Panic) => (s, Panic)
  | (s, NoFuel) => (s, NoFuel)
  end.

(** What the reader of an encrypted connection will see. *)
Definition open_secure (s : Secure) (theirs : Handshake) : result Opened :=
  '(_, pt) ← process (read_cipher (se_es s)) (inbox (se_stream s));
  Ok (mkOpened pt (Some (se_es s)) theirs).

(** The rest of an encrypted handshake, once the key exchange is done. *)
Definition bt_over_mse (expired : bool) (msg : string) (m : M Secure Handshake) (es : EncryptedStream) (s : Stream) : Stream * result Opened :=
  if expired then (s, Err (EHandshake msg))
  else
    match m (mkSecure s es) with
    | (sec, Ok theirs) => (se_stream sec, open_secure sec theirs)
    | (sec, Err e) => (se_stream sec, Err e)
    | (sec, Panic) => (se_stream sec, Panic)
    | (sec, NoFuel) => (se_stream sec, NoFuel)
    end.

Section Tasks.
Context `{NumBigint} (sha1 : bytes -> bytes).

(** The random bytes of a key exchange. *)
Record Secrets := mkSecrets { entropy : bytes; pad1 : bytes; pad2 : bytes }.

Definition mse_handshake_outgoing (exp1 exp2 : bool) (sec : Secrets) (ext : option bytes) (ih pid : bytes) (s : Stream) : Stream * result Opened :=
  if exp1 then (s, Err (EHandshake "mse timeout"))
  else
    match Mse.perform_outgoing sha1 (entropy sec) (pad1 sec) (pad2 sec) ih s with
    | (s, Ok (inr es)) => bt_over_mse exp2 "bt-over-mse timeout" (secure_outgoing ext ih pid) es s
    | (s, Ok (inl _)) => (s, Err (EHandshake "mse"))
    | (s, Err e) => (s, Err e)
    | (s, Panic) => (s, Panic)
    | (s, NoFuel) => (s, NoFuel)
    end.

Definition mse_handshake_incoming (exp1 exp2 : bool) (sec : Secrets) (ext : option bytes) (ih pid : bytes) (s : Stream) : Stream * result Opened :=
  if exp1 then (s, Err (EHandshake "mse incoming timeout"))
  else
    match Mse.perform_incoming sha1 (entropy sec) (pad1 sec) (pad2 sec) [ih] [] s with
    | (s, Ok (inr (es, _))) => bt_over_mse exp2 "bt-over-mse incoming timeout" (secure_incoming ext ih pid) es s
    | (s, Ok (inl _)) => (s, Err (EHandshake "mse incoming"))
    | (s, Err e) => (s, Err e)
    | (s, Panic) => (s, Panic)
    | (s, NoFuel) => (s, NoFuel)
    end.

(** What a task meets after its dials. *)
Record TaskEnv := mkTaskEnv {
  te_ext : option bytes;
  te_dial : DialEnv;
  te_stream : nat -> Stream;
  te_expired : nat -> bool;
  te_secrets : Secrets;
  te_read : ReadEnv;
  te_now : Z;
  te_opening : WriteOutcome;
  te_wakes : list Wake;
  te_late : nat;
}.

(** What a task did: the dials, the events the engine got, the plaintext written after the handshake, and
    its result ([None] while the loop runs). *)
Record Task := mkTask { tk_dials : list Dial; tk_events : list PeerEvent; tk_written : bytes; tk_result : option (result unit) }.

(** Whether it is the end of the read task that ends the loop; the reader has sent all its events by then. *)
Fixpoint ended_by_reader (wakes : list Wake) : bool :=
  match wakes with
  | ReadDone _ :: _ => true
  | Command (Some _) Written_ :: wakes | Keepalive Written_ :: wakes => ended_by_reader wakes
  | _ => false
  end.

(** The two sides of the loop.  When the write side ends first it aborts the read task and does not
    wait for it: the reader may stop anywhere, which [re_open] covers, and the last [te_late] of the
    events it sends may reach the channel after the closing event of the task. *)
Definition post_handshake_loop (env : TaskEnv) (addr : SocketAddr) (incoming : bytes) (supports_ext anonymous : bool)
    : list PeerEvent * list PeerEvent * bytes * option (result unit) :=
  let '(evs, read_result) := read_task (te_read env) (te_now env) addr incoming in
  let '(out, r) := write_loop read_result (te_wakes env) (opening supports_ext anonymous (te_opening env)) in
  let early := if ended_by_reader (te_wakes env) then length evs else (length evs - te_late env)%nat in
  (take early evs, drop early evs, out, r).

(** The closing event, once the task has ended, among the events of a reader that runs on. *)
Definition finish_task (dials : list Dial) (addr : SocketAddr) (evs late : list PeerEvent) (out : bytes) (r : option (result unit)) : Task :=
  match r with
  | Some r => mkTask dials (evs ++ [Disconnected addr (classify_outcome r)] ++ late) out (Some r)
  | None => mkTask dials (evs ++ late) out None
  end.

Definition forget_value {A} (r : result A) : result unit :=
  match r with Ok _ => Ok tt | Err e => Err e | Panic => Panic | NoFuel => NoFuel end.

(** [run_after_handshake] and the end of the task that called it. *)
Definition run_after_handshake (env : TaskEnv) (dials : list Dial) (addr : SocketAddr) (opened : result Opened) (anonymous : bool) : Task :=
  match opened with
  | Ok o =>
      match supports_extension_protocol (Handshake.reserved (op_theirs o)) with
      | Ok supports_ext =>
          let '(evs, late, out, r) := post_handshake_loop env addr (op_incoming o) supports_ext anonymous in
          finish_task dials addr (Connected addr (Handshake.peer_id (op_theirs o)) (Handshake.reserved (op_theirs o)) :: evs) late out r
      | r => finish_task dials addr [] [] [] (Some (forget_value r))
      end
  | r => finish_task dials addr [] [] [] (Some (forget_value r))
  end.

Definition run_outgoing (env : TaskEnv) (addr : SocketAddr) (ih pid : bytes) (proxies : list ProxyConfig) (iface : option bytes) (anonymous utp : bool) : Task :=
  match connect_transport (te_dial env) 0 addr utp proxies iface anonymous [] with
  | (dials, Ok _) =>
      match plain_handshake (te_expired env 0%nat) true (te_ext env) ih pid (te_stream env 0%nat) with
      | (_, Ok o) => run_after_handshake env dials addr (Ok o) anonymous
      | (_, Err e) =>
          if is_likely_mse_signal e then
            match connect_transport (te_dial env) 1 addr utp proxies iface anonymous dials with
            | (dials, Ok _) =>
                run_after_handshake env dials addr
                  (mse_handshake_outgoing (te_expired env 1%nat) (te_expired env 2%nat) (te_secrets env) (te_ext env) ih pid (te_stream env 1%nat)).2 anonymous
            | (dials, r) => finish_task dials addr [] [] [] (Some (forget_value r))
            end
          else finish_task dials addr [] [] [] (Some (Err e))
      | (_, r) => finish_task dials addr [] [] [] (Some (forget_value r))
      end
  | (dials, r) => finish_task dials addr [] [] [] (Some (forget_value r))
  end.

Definition run_outgoing_mse_only (env : TaskEnv) (addr : SocketAddr) (ih pid : bytes) (proxies : list ProxyConfig) (iface : option bytes) (anonymous utp : bool) : Task :=
  match connect_transport (te_dial env) 0 addr utp proxies iface anonymous [] with
  | (dials, Ok _) =>
      run_after_handshake env dials addr
        (mse_handshake_outgoing (te_expired env 0%nat) (te_expired env 1%nat) (te_secrets env) (te_ext env) ih pid (te_stream env 0%nat)).2 anonymous
  | (dials, r) => finish_task dials addr [] [] [] (Some (forget_value r))
  end.

(** [run_incoming_dispatch] up to the loop: the first byte, not consumed, tells plain from encrypted. *)
Definition incoming_dispatch (peek_expired peek_failed exp1 exp2 : bool) (sec : Secrets) (ext : option bytes) (ih pid : bytes) (s : Stream) : Stream * result Opened :=
  if peek_expired then (s, Err (EHandshake "peek timeout"))
  else if peek_failed then (s, Err (ENetwork "peek"))
  else
    match inbox s with
    | [] => (s, Err (ENetwork "peer closed before handshake"))
    | first :: _ =>
        if b2z first =? PSTRLEN then plain_handshake exp1 false ext ih pid s
        else mse_handshake_incoming exp1 exp2 sec ext ih pid s
    end.

(** [run_with_stream]: an accepted connection, or one whose caller already dialled. *)
Definition run_with_stream (env : TaskEnv) (addr : SocketAddr) (ih pid : bytes) (outgoing anonymous : bool) (peek_expired peek_failed : bool) : Task :=
  let s := te_stream env 0%nat in
  let opened :=
    if outgoing then (plain_handshake (te_expired env 0%nat) true (te_ext env) ih pid s).2
    else (incoming_dispatch peek_expired peek_failed (te_expired env 0%nat) (te_expired env 1%nat) (te_secrets env) (te_ext env) ih pid s).2 in
  run_after_handshake env [] addr opened anonymous.

(** [run_handshaken]: the shared acceptor did the handshake. *)
Definition run_handshaken (env : TaskEnv) (addr : SocketAddr) (o : Opened) (supports_ext anonymous : bool) : Task :=
  let '(evs, late, out, r) := post_handshake_loop env addr (op_incoming o) supports_ext anonymous in
  finish_task [] addr (Connected addr (Handshake.peer_id (op_theirs o)) (Handshake.reserved (op_theirs o)) :: evs) late out r.
End Tasks.

(** ** The read side *)

Lemma frame_read idle stream buf frame rest : read_frame_with_idle idle stream buf = Ok (frame, rest) ->
  (4 + length rest <= length stream)%nat /\ Z.of_nat (length frame) <= MAX_FRAME_LEN.
Proof.
  unfold read_frame_with_idle. destruct idle; [done|]. rewrite (proj1 (fast_paths_equiv stream MAX_FRAME_LEN buf PeerWire.Choke ltac:(done))).
  unfold read_frame, PeerWire.read_exact. destruct (Nat.ltb_spec (length stream) 4); [done|]. cbn [mbind result_bind].
  pose proof (length_drop stream 4). destruct (_ =? 0); [intros [= <- <-]; split; [lia|done]|].
  destruct (Z.ltb_spec MAX_FRAME_LEN (from_be (take 4 stream))) as [|Hm]; [done|].
  destruct (Nat.ltb_spec (length (drop 4 stream)) (Z.to_nat (from_be (take 4 stream)))) as [|Hl]; [done|].
  intros [= <- <-]. rewrite length_drop, length_take. pose proof (from_be_range (take 4 stream)). split; lia.
Qed.

Lemma frame_returns idle stream buf : returns (read_frame_with_idle idle stream buf) = true.
Proof.
  unfold read_frame_with_idle. destruct idle; [done|]. rewrite (proj1 (fast_paths_equiv stream MAX_FRAME_LEN buf PeerWire.Choke ltac:(done))).
  unfold read_frame, PeerWire.read_exact. destruct (_ <? _)%nat; [done|]. cbn [mbind result_bind].
  destruct (_ =? 0); [done|]. destruct (_ <? _); [done|]. by destruct (_ <? _)%nat.
Qed.

(** Who an event is about. *)
Definition event_addr (ev : PeerEvent) : SocketAddr :=
  match ev with
  | Connected a _ _ | Disconnected a _ | Bitfield a _ | Have a _ | Choke a | Unchoke a | Interested a | NotInterested a
  | Block a _ _ _ | Request a _ _ _ | Cancel a _ _ _ | Pex a _ | ExtensionHandshake a _ | HaveAll a | RejectRequest a _ _ => a
  end.

(** An event of the exchange itself, with fields in their ranges. *)
Definition wire_event (addr : SocketAddr) (ev : PeerEvent) : Prop :=
  peer_event_ok ev /\ event_addr ev = addr /\ match ev with Connected _ _ _ | Disconnected _ _ => False | _ => True end.

Lemma frame_event_ok addr msg : msg_ok msg = true -> exists o, frame_event addr msg = Ok o /\ forall ev, o = Some ev -> wire_event addr ev.
Proof.
  intros Hm. unfold frame_event. destruct msg as [| | | | |i|b|i b l|i b d|i b l|e p| | |i b l|i|i]; cbn [msg_to_event];
    try (eexists; split; [reflexivity|]; intros ev [= <-]; done); try (eexists; split; [reflexivity|]; done).
  - eexists; split; [reflexivity|]. intros ev [= <-]. cbn in Hm. rewrite !andb_true_iff, !u32_spec in Hm. change (256 ^ Z.of_nat 4) with (2 ^ 32) in Hm. unfold wire_event. cbn [peer_event_ok event_addr]. split_and!; (done || lia).
  - eexists; split; [reflexivity|]. intros ev [= <-]. cbn in Hm. rewrite !andb_true_iff, !u32_spec in Hm. change (256 ^ Z.of_nat 4) with (2 ^ 32) in Hm. unfold wire_event. cbn [peer_event_ok event_addr]. split_and!; (done || lia).
  - destruct (Byte.eqb e EXT_HANDSHAKE_ID).
    { pose proof (proj1 (parse_handshake_ok p)) as Hr. destruct (parse_handshake_payload p) as [info| | |]; try done; (eexists; split; [reflexivity|]); [|done].
      by intros ev [= <-]. }
    destruct (Byte.eqb e OUR_UT_PEX_ID); [|by eexists].
    pose proof (proj1 (parse_pex_ok p)) as Hr. destruct (parse_pex p) as [l| | |]; try done; (eexists; split; [reflexivity|]); [|done].
    destruct (_ =? _)%nat; [done|]. by intros ev [= <-].
Qed.

(** The reader ends whatever the peer sends, and what it tells the engine is well formed. *)
Lemma read_loop_ok env addr fuel : forall n b stream frame evs, (length stream < fuel)%nat -> Forall (wire_event addr) evs ->
  Forall (wire_event addr) (read_loop fuel env addr n b stream frame evs).1 /\
  returns (read_loop fuel env addr n b stream frame evs).2 = true /\
  ((length evs <= re_open env)%nat -> (length (read_loop fuel env addr n b stream frame evs).1 <= re_open env)%nat).
Proof.
  induction fuel as [|fuel IH]; intros n b stream frame evs Hf Hevs; [lia|]. cbn [read_loop].
  pose proof (frame_returns (re_idle env n) stream frame) as Hr.
  destruct (read_frame_with_idle (re_idle env n) stream frame) as [[f rest]|e| |] eqn:Er; try done.
  apply frame_read in Er as [Hlen Hmax]. pose proof (decode_total f) as Hd. destruct (PeerWire.decode f) as [msg|e| |] eqn:Ed; try done.
  destruct (take_token (re_clock env n) msg b) as [b' ok]. destruct ok; cbn [negb]; [|apply IH; [lia|done]].
  destruct (decode_canonical f msg Ed) as [_ Hm]; [unfold MAX_FRAME_LEN, BLOCK_SIZE in Hmax; lia|].
  destruct (frame_event_ok addr msg Hm) as (o & Eo & Ho). rewrite Eo. destruct o as [ev|]; [|apply IH; [lia|done]].
  destruct (Nat.ltb_spec (length evs) (re_open env)) as [Hlt|]; [|done].
  assert (Hevs' : Forall (wire_event addr) (evs ++ [ev])) by (apply Forall_app; split; [done|constructor; [by apply Ho|done]]).
  destruct (IH (S n) b' rest f (evs ++ [ev]) ltac:(lia) Hevs') as (H1 & H2 & H3). split_and!; try done. intros _. apply H3. rewrite length_app. cbn. lia.
Qed.

Lemma read_task_ok env now addr stream : Forall (wire_event addr) (read_task env now addr stream).1 /\ returns (read_task env now addr stream).2 = true /\
  (length (read_task env now addr stream).1 <= re_open env)%nat.
Proof.
  destruct (read_loop_ok env addr (S (length stream)) 0 (bucket_new now REQUEST_BURST_TOKENS REQUEST_TOKENS_PER_SEC) stream [] [] ltac:(lia) ltac:(constructor)) as (H1 & H2 & H3).
  split_and!; try done. apply H3. cbn. lia.
Qed.

(** ** From commands to events *)

Definition all_written (w : Wake) : Prop := match w with Command (Some _) Written_ | Keepalive Written_ => True | _ => False end.

Definition wake_message (w : Wake) : Message :=
  match w with Command (Some c) _ => command_message c | _ => PeerWire.KeepAlive end.

Lemma write_loop_eq r wakes : Forall all_written wakes -> forall out,
  write_loop r wakes out = (out ++ concat (PeerWire.encode <$> (wake_message <$> wakes)), None).
Proof.
  induction wakes as [|w wakes IH]; intros Hw out; cbn [write_loop fmap list_fmap concat]; [by rewrite app_nil_r|].
  apply list.Forall_cons in Hw as [H1 H2]. destruct w as [[c|] []|[]|]; try done; cbn [write_out wake_message]; rewrite IH by done.
  - assert (E : command_bytes c = PeerWire.encode (command_message c)) by (destruct c; try done; apply write_message_encode).
    by rewrite E, <- app_assoc.
  - by rewrite <- app_assoc.
Qed.

(** What passes the rate limit: all but some of the requests. *)
Fixpoint throttle (env : ReadEnv) (n : nat) (b : TokenBucket) (msgs : list Message) : list Message :=
  match msgs with
  | [] => []
  | m :: msgs =>
      let '(b, ok) := take_token (re_clock env n) m b in
      if ok then m :: throttle env (S n) b msgs else throttle env (S n) b msgs
  end.

Definition told (addr : SocketAddr) (msg : Message) : option PeerEvent :=
  match frame_event addr msg with Ok o => o | _ => None end.

Lemma told_length addr msgs : (length (omap (told addr) msgs) <= length msgs)%nat.
Proof. induction msgs as [|m msgs IH]; cbn; [done|]. destruct (told addr m); cbn; lia. Qed.

Definition request_free (m : Message) : bool := match m with PeerWire.Request _ _ _ => false | _ => true end.

Lemma throttle_keeps env msgs : forall n b,
  sublist (throttle env n b msgs) msgs /\
  List.filter request_free (throttle env n b msgs) = List.filter request_free msgs.
Proof.
  induction msgs as [|m msgs IH]; intros n b; cbn [throttle]; [done|]. destruct (take_token (re_clock env n) m b) as [b' ok] eqn:E.
  destruct (IH (S n) b') as [H1 H2]. destruct ok; cbn [List.filter].
  - split; [by constructor|]. destruct m; by rewrite ?H2.
  - split; [by constructor|]. destruct m; try discriminate E. done.
Qed.

Definition fits (m : Message) : Prop := msg_ok m = true /\ Z.of_nat (length (frame_of m)) <= MAX_FRAME_LEN.

Lemma read_loop_eq env addr fuel : (forall n, re_idle env n = false) -> forall msgs n b frame evs,
  Forall fits msgs -> (length (concat (PeerWire.encode <$> msgs)) < fuel)%nat ->
  (length evs + length (omap (told addr) (throttle env n b msgs)) <= re_open env)%nat ->
  read_loop fuel env addr n b (concat (PeerWire.encode <$> msgs)) frame evs =
  (evs ++ omap (told addr) (throttle env n b msgs), Err (ENetwork "frame len")).
Proof.
  intros Hidle. induction fuel as [|fuel IH]; intros msgs n b frame evs Hm Hf Ho; [lia|].
  cbn [read_loop]. unfold read_frame_with_idle. rewrite Hidle, (proj1 (fast_paths_equiv _ MAX_FRAME_LEN frame PeerWire.Choke ltac:(done))).
  destruct msgs as [|m msgs]; cbn [fmap list_fmap concat throttle omap list_omap] in *; [by rewrite app_nil_r|].
  apply list.Forall_cons in Hm as [[Hm1 Hm2] Hm]. rewrite read_encoded by done. rewrite decode_frame by done.
  assert (Hfu : (length (concat (PeerWire.encode <$> msgs)) < fuel)%nat).
  { destruct (encode_frame m Hm1) as [E _]. rewrite length_app, E, length_app, length_to_be in Hf. lia. }
  destruct (take_token (re_clock env n) m b) as [b' ok]. destruct ok; cbn [negb]; [|by apply IH].
  destruct (frame_event_ok addr m Hm1) as (o & Eo & _). rewrite Eo. cbn [omap list_omap] in Ho |- *. unfold told at 1. unfold told at 1 in Ho. rewrite Eo in *.
  destruct o as [ev|]; [|by apply IH]. cbn [length] in Ho. destruct (Nat.ltb_spec (length evs) (re_open env)) as [|]; [|lia].
  rewrite IH; [by rewrite <- app_assoc|done|done|]. rewrite length_app. cbn. lia.
Qed.

(** ** Handshakes end *)

(** A result that is no panic, and a handshake of the right shape if it is one. *)
Definition shaken (r : result Opened) : Prop := returns r = true /\ forall o, r = Ok o -> hs_ok (op_theirs o) = true.

Lemma read_hs_ok {S} (read : M S bytes) (k : Handshake -> M S Handshake) s :
  returns (read s).2 = true -> (forall s' h, hs_ok h = true -> returns (k h s').2 = true /\ forall h', (k h s').2 = Ok h' -> hs_ok h' = true) ->
  let r := ((buf ← read; theirs ← lift (Handshake.decode buf); k theirs) s).2 in returns r = true /\ forall h, r = Ok h -> hs_ok h = true.
Proof.
  intros Hr Hk. unfold mbind, M_bind. destruct (read s) as [s1 [buf| | |]]; try done. cbn.
  pose proof (handshake_decode_returns buf) as Hd. destruct (Handshake.decode buf) as [h| | |] eqn:E; try done. apply Hk. by apply decode_Ok in E as [? _].
Qed.

Lemma plain_shaken expired outgoing ext ih pid s : shaken (plain_handshake expired outgoing ext ih pid s).2.
Proof.
  assert (Hend : forall m : M Stream Handshake, (forall s, returns (m s).2 = true /\ forall h, (m s).2 = Ok h -> hs_ok h = true) ->
    shaken (match within expired "timeout" m s with (s, Ok theirs) => (s, Ok (mkOpened (inbox s) None theirs)) | (s, Err e) => (s, Err e) | (s, Panic) => (s, Panic) | (s, NoFuel) => (s, NoFuel) end).2).
  { intros m Hm. unfold within. destruct expired; [done|]. destruct (Hm s) as [H1 H2]. destruct (m s) as [s1 [h| | |]]; try done. split; [done|]. intros o [= <-]. by apply H2. }
  unfold plain_handshake. destruct outgoing; apply Hend; clear; intros s.
  - destruct (outgoing_Ok ext ih pid s) as (s' & r & [H1 H2] & ->). split; [done|]. intros h Hh. by destruct (H2 h Hh).
  - apply (read_hs_ok (read_n HANDSHAKE_LEN (EHandshake "read: early eof"))); [unfold read_n; by destruct (_ <? _)%nat|].
    intros s' h Hh. destruct (negb _); [done|]. unfold write_all, mbind, M_bind. destruct (writable s'); [|done]. split; [done|]. by intros h' [= <-].
Qed.

Definition sound (s : Secure) : Prop := ciphers_ok (se_es s).

Lemma secure_write_ok data e s : sound s -> sound (secure_write data e s).1 /\ returns (secure_write data e s).2 = true.
Proof.
  intros [Hr Hw]. unfold secure_write. destruct (process_ok data _ Hw) as (c & ct & -> & Hc & _). unfold write_all. by destruct (writable _).
Qed.

Lemma secure_read_ok n e s : sound s -> sound (secure_read n e s).1 /\ returns (secure_read n e s).2 = true.
Proof.
  intros [Hr Hw]. unfold secure_read, read_n. destruct (_ <? _)%nat; [done|].
  destruct (process_ok (take n (inbox (se_stream s))) _ Hr) as (c & pt & -> & Hc & _). done.
Qed.

Lemma open_secure_shaken s h : sound s -> hs_ok h = true -> shaken (open_secure s h).
Proof.
  intros [Hr _] Hh. unfold open_secure. destruct (process_ok (inbox (se_stream s)) _ Hr) as (c & pt & -> & _). split; [done|]. by intros o [= <-].
Qed.

(** The handshake that follows a key exchange. *)
Definition secure_ok (m : M Secure Handshake) : Prop := forall s, sound s ->
  sound (m s).1 /\ returns (m s).2 = true /\ forall h, (m s).2 = Ok h -> hs_ok h = true.

Lemma secure_then {A B} (m : M Secure A) (f : A -> M Secure B) (Q : B -> Prop) s :
  sound s -> (sound (m s).1 /\ returns (m s).2 = true) ->
  (forall a s', sound s' -> sound (f a s').1 /\ returns (f a s').2 = true /\ forall b, (f a s').2 = Ok b -> Q b) ->
  sound ((m ≫= f) s).1 /\ returns ((m ≫= f) s).2 = true /\ forall b, ((m ≫= f) s).2 = Ok b -> Q b.
Proof. intros Hs [H1 H2] Hf. unfold mbind, M_bind. destruct (m s) as [s1 [a| | |]]; try done. by apply Hf. Qed.

Lemma secure_decode buf (k : Handshake -> M Secure Handshake) s : sound s ->
  (forall h, hs_ok h = true -> sound (k h s).1 /\ returns (k h s).2 = true /\ forall h', (k h s).2 = Ok h' -> hs_ok h' = true) ->
  sound ((theirs ← lift (Handshake.decode buf); k theirs) s).1 /\ returns ((theirs ← lift (Handshake.decode buf); k theirs) s).2 = true /\
  forall h, ((theirs ← lift (Handshake.decode buf); k theirs) s).2 = Ok h -> hs_ok h = true.
Proof.
  intros Hs Hk. unfold mbind, M_bind, lift. pose proof (handshake_decode_returns buf) as Hd.
  destruct (Handshake.decode buf) as [h| | |] eqn:E; try done. apply Hk. by apply decode_Ok in E as [? _].
Qed.

Lemma secure_outgoing_ok ext ih pid : secure_ok (secure_outgoing ext ih pid).
Proof.
  intros s Hs. unfold secure_outgoing. apply secure_then; [done|by apply secure_write_ok|]. intros [] s1 H1.
  apply secure_then; [done|by apply secure_read_ok|]. intros buf s2 H2. apply secure_decode; [done|]. intros h Hh.
  destruct (negb _); [done|]. split_and!; try done. by intros h' [= <-].
Qed.

Lemma secure_incoming_ok ext ih pid : secure_ok (secure_incoming ext ih pid).
Proof.
  intros s Hs. unfold secure_incoming. apply secure_then; [done|by apply secure_read_ok|]. intros buf s1 H1.
  apply secure_decode; [done|]. intros h Hh. destruct (negb _); [done|]. apply secure_then; [done|by apply secure_write_ok|].
  intros [] s2 H2. split_and!; try done. by intros h' [= <-].
Qed.

Lemma bt_over_mse_shaken expired msg m es s : secure_ok m -> ciphers_ok es -> shaken (bt_over_mse expired msg m es s).2.
Proof.
  intros Hm Hes. unfold bt_over_mse. destruct expired; [done|]. destruct (Hm (mkSecure s es) Hes) as (H1 & H2 & H3).
  destruct (m (mkSecure s es)) as [sec [h| | |]]; try done. apply open_secure_shaken; [done|]. by apply H3.
Qed.

Section Ends.
Context `{NumBigintLaws} (sha1 : bytes -> bytes) (sha1_len : forall b, length (sha1 b) = 20%nat).

Lemma mse_out_shaken exp1 exp2 sec ext ih pid s : length (entropy sec) = 20%nat ->
  shaken (mse_handshake_outgoing sha1 exp1 exp2 sec ext ih pid s).2.
Proof.
  intros He. unfold mse_handshake_outgoing. destruct exp1; [done|].
  destruct (outgoing_behaves sha1 (entropy sec) (pad1 sec) (pad2 sec) ih sha1_len He s) as (u & w & _ & _ & _ & Hq).
  destruct (Mse.perform_outgoing _ _ _ _ _ s) as [s1 [[e|es]| | |]]; try done. apply bt_over_mse_shaken; [apply secure_outgoing_ok|done].
Qed.

Lemma mse_in_shaken exp1 exp2 sec ext ih pid s : length (entropy sec) = 20%nat ->
  shaken (mse_handshake_incoming sha1 exp1 exp2 sec ext ih pid s).2.
Proof.
  intros He. unfold mse_handshake_incoming. destruct exp1; [done|]. destruct (generate_ok (entropy sec) He) as (kp & Eg & Kx).
  destruct (incoming_behaves sha1 (entropy sec) kp (pad1 sec) (pad2 sec) [ih] [] sha1_len (conj Eg Kx) s) as (u & w & _ & _ & _ & Hq).
  destruct (Mse.perform_incoming _ _ _ _ _ _ s) as [s1 [[e|[es ih']]| | |]]; try done. apply bt_over_mse_shaken; [apply secure_incoming_ok|by destruct Hq].
Qed.

Lemma incoming_shaken b1 b2 exp1 exp2 sec ext ih pid s : length (entropy sec) = 20%nat ->
  shaken (incoming_dispatch sha1 b1 b2 exp1 exp2 sec ext ih pid s).2.
Proof.
  intros He. unfold incoming_dispatch. destruct b1; [done|]. destruct b2; [done|]. destruct (inbox s) as [|x l]; [done|].
  destruct (_ =? _); [apply plain_shaken|by apply mse_in_shaken].
Qed.

(** ** What the engine is told *)

(** At most one [Connected], first, with a 20-byte id and eight reserved bytes; then events of the
    exchange; and one [Disconnected] exactly when the task has ended, which is never by a panic.
    Events of the exchange follow it only when the loop was not ended by its reader. *)
Definition well_told (env : TaskEnv) (addr : SocketAddr) (t : Task) : Prop := exists hello mid bye late,
  tk_events t = hello ++ mid ++ bye ++ late /\ Forall (wire_event addr) (mid ++ late) /\
  (hello = [] /\ mid ++ late = [] \/ exists pid res, length pid = 20%nat /\ length res = 8%nat /\ hello = [Connected addr pid res]) /\
  (ended_by_reader (te_wakes env) = true -> late = []) /\
  match tk_result t with None => bye = [] /\ late = [] | Some r => returns r = true /\ bye = [Disconnected addr (classify_outcome r)] end.

Lemma failed_told env dials addr r : returns r = true -> well_told env addr (finish_task dials addr [] [] [] (Some r)).
Proof. intros Hr. exists [], [], [Disconnected addr (classify_outcome r)], []. split_and!; try done. by left. Qed.

Lemma write_loop_returns rr wakes : returns rr = true -> forall out r, (write_loop rr wakes out).2 = Some r -> returns r = true.
Proof.
  intros Hr. induction wakes as [|w wakes IH]; intros out r; cbn [write_loop]; [done|].
  destruct w as [[c|] []|[]|[]]; cbn [write_out]; try apply IH; by intros [= <-].
Qed.

Lemma loop_told env dials addr incoming ext anon h : hs_ok h = true ->
  well_told env addr (let '(evs, late, out, r) := post_handshake_loop env addr incoming ext anon in
    finish_task dials addr (Connected addr (Handshake.peer_id h) (Handshake.reserved h) :: evs) late out r).
Proof.
  intros Hh. unfold post_handshake_loop. destruct (read_task_ok (te_read env) (te_now env) addr incoming) as (H1 & H2 & _).
  destruct (read_task _ _ _ _) as [evs rr]. cbn [fst snd] in *.
  pose proof (write_loop_returns rr (te_wakes env) H2 (opening ext anon (te_opening env))) as Hw.
  destruct (write_loop rr _ _) as [out r]. cbn [snd] in Hw. apply hs_okE in Hh as (Hlen & _ & Hpid).
  set (early := if ended_by_reader _ then _ else _).
  exists [Connected addr (Handshake.peer_id h) (Handshake.reserved h)]. destruct r as [r|].
  - exists (take early evs), [Disconnected addr (classify_outcome r)], (drop early evs). rewrite take_drop. split_and!; try done; [by right; eauto 10| |split; [by apply Hw|done]].
    unfold early. intros ->. by rewrite drop_all.
  - exists evs, [], []. cbn [tk_events finish_task]. rewrite !app_nil_r. cbn. rewrite take_drop. split_and!; try done. by right; eauto 10.
Qed.

Lemma after_told env dials addr opened anon : shaken opened -> well_told env addr (run_after_handshake env dials addr opened anon).
Proof.
  intros [Hr Hh]. unfold run_after_handshake. destruct opened as [o| | |]; try done; [|by apply failed_told].
  specialize (Hh o eq_refl). destruct (supports_known _ Hh) as [b ->]. by apply loop_told.
Qed.

Lemma connect_returns env n addr utp proxies iface anon log : returns (connect_transport env n addr utp proxies iface anon log).2 = true.
Proof.
  assert (T : forall log, returns (dial_tcp env n addr proxies iface anon log).2 = true).
  { intros l. unfold dial_tcp. destruct (_ && _); [done|]. cbn zeta. destruct (negb _); [done|]. unfold mbind, M_bind, modify. by destruct (de_tcp env n). }
  unfold connect_transport. cbn zeta. destruct (negb _); [done|]. destruct (_ && _).
  - unfold race_tcp_utp. specialize (T log). destruct (dial_tcp _ _ _ _ _ _ log) as [l [[]| | |]]; try done; by destruct (de_tcp_first env n), (de_utp env n).
  - unfold mbind, M_bind. specialize (T log). by destruct (dial_tcp _ _ _ _ _ _ log) as [l [[]| | |]].
Qed.

(** C9: a peer task tells the engine a well-formed story.  Whatever the peer
    sends and whenever it falls silent, a dialled, accepted or handed-over
    connection that ends does so without a panic; it sends the engine at most one
    [Connected], first, with a 20-byte peer id and the eight reserved bytes, then
    only events whose fields are in range, all about this peer, and one
    [Disconnected] exactly when the task has ended, flagged by the reason it
    ended.  That event is the last one when the loop ended because its reader
    did; when the write side ends the loop, the aborted reader is not waited for
    and some of its events may come after it ([events_after_disconnect]). *)
Theorem task_tells_engine env addr ih pid proxies iface anon : length (entropy (te_secrets env)) = 20%nat ->
  (forall utp, well_told env addr (run_outgoing sha1 env addr ih pid proxies iface anon utp)) /\
  (forall utp, well_told env addr (run_outgoing_mse_only sha1 env addr ih pid proxies iface anon utp)) /\
  (forall outgoing b1 b2, well_told env addr (run_with_stream sha1 env addr ih pid outgoing anon b1 b2)) /\
  (forall o supports_ext, hs_ok (op_theirs o) = true -> well_told env addr (run_handshaken env addr o supports_ext anon)).
Proof.
  intros He. split_and!.
  - intros utp. unfold run_outgoing. pose proof (connect_returns (te_dial env) 0 addr utp proxies iface anon []) as Hc.
    destruct (connect_transport _ 0 _ _ _ _ _ _) as [d [tr|e| |]]; try done; [|by apply failed_told].
    pose proof (plain_shaken (te_expired env 0%nat) true (te_ext env) ih pid (te_stream env 0%nat)) as Hp.
    destruct (plain_handshake _ _ _ _ _ _) as [s1 [o|e| |]]; [by apply after_told| |by destruct Hp..].
    destruct (is_likely_mse_signal e); [|by apply failed_told].
    pose proof (connect_returns (te_dial env) 1 addr utp proxies iface anon d) as Hc2.
    destruct (connect_transport _ 1 _ _ _ _ _ _) as [d2 [tr2|e2| |]]; try done; [|by apply failed_told]. by apply after_told, mse_out_shaken.
  - intros utp. unfold run_outgoing_mse_only. pose proof (connect_returns (te_dial env) 0 addr utp proxies iface anon []) as Hc.
    destruct (connect_transport _ 0 _ _ _ _ _ _) as [d [tr|e| |]]; try done; [|by apply failed_told]. by apply after_told, mse_out_shaken.
  - intros outgoing b1 b2. apply after_told. destruct outgoing; [apply plain_shaken|by apply incoming_shaken].
  - intros o ext Hh. by apply loop_told.
Qed.
End Ends.

(** ** Dials *)

(** A dial the configuration allows: through the whole chain when there is one, else over the interface,
    else direct; never around the proxies, and µTP only for an open session. *)
Definition allowed (addr : SocketAddr) (utp : bool) (proxies : list ProxyConfig) (iface : option bytes) (anon : bool) (d : Dial) : Prop :=
  is_safe_dial_target addr (anon || negb (length proxies =? 0)%nat) = true /\
  match d with
  | DialChain hops a i => a = addr /\ i = iface /\ proxies <> [] /\ pc_addr <$> hops = pc_addr <$> proxies
  | DialInterface a i => a = addr /\ iface = Some i /\ proxies = [] /\ anon = false
  | DialDirect a => a = addr /\ iface = None /\ proxies = [] /\ anon = false
  | DialUtp a => a = addr /\ utp = true /\ iface = None /\ proxies = [] /\ anon = false
  end.

Lemma effective_addrs nonce proxies : pc_addr <$> effective_hops nonce proxies = pc_addr <$> proxies.
Proof.
  revert nonce. induction proxies as [|p l IH]; intros nonce; [done|]. cbn. rewrite IH. f_equal. unfold for_dial. by destruct (negb _).
Qed.

Lemma dial_tcp_allowed env n addr utp proxies iface anon log : Forall (allowed addr utp proxies iface anon) log ->
  Forall (allowed addr utp proxies iface anon) (dial_tcp env n addr proxies iface anon log).1.
Proof.
  intros Hl. unfold dial_tcp. destruct (anon && _) eqn:Ea; [done|]. cbn zeta. unfold dht_martian_strict.
  destruct (is_safe_dial_target addr _) eqn:Es; cbn [negb]; [|done]. unfold mbind, M_bind, modify.
  enough (Forall (allowed addr utp proxies iface anon) (log ++ [match proxies with
    | [] => match iface with Some i => DialInterface addr i | None => DialDirect addr end
    | _ => DialChain (effective_hops (de_nonce env n) proxies) addr iface end])) by (by destruct (de_tcp env n)).
  apply Forall_app. split; [done|]. constructor; [|done]. split; [done|]. destruct proxies as [|p l].
  - destruct anon; [done|]. by destruct iface.
  - split_and!; try done. apply effective_addrs.
Qed.

Lemma connect_allowed env n addr utp proxies iface anon log : Forall (allowed addr utp proxies iface anon) log ->
  Forall (allowed addr utp proxies iface anon) (connect_transport env n addr utp proxies iface anon log).1.
Proof.
  intros Hl. pose proof (dial_tcp_allowed env n addr utp proxies iface anon log Hl) as Ht. unfold connect_transport. cbn zeta. unfold dht_martian_strict.
  destruct (is_safe_dial_target addr _) eqn:Es; cbn [negb]; [|done]. destruct (should_use_utp _ _ _ && utp) eqn:Eu.
  - unfold race_tcp_utp. destruct (dial_tcp _ _ _ _ _ _ log) as [l r]. cbn [fst] in *. apply Forall_app. split; [done|]. constructor; [|done].
    split; [done|]. unfold should_use_utp in Eu. destruct proxies; [|done]. destruct iface; [done|]. destruct anon, utp; done.
  - unfold mbind, M_bind. destruct (dial_tcp _ _ _ _ _ _ log) as [l [[]| | |]]; done.
Qed.

Lemma task_dials dials addr evs late out r : tk_dials (finish_task dials addr evs late out r) = dials.
Proof. by destruct r. Qed.

Lemma after_dials env dials addr opened anon : tk_dials (run_after_handshake env dials addr opened anon) = dials.
Proof.
  unfold run_after_handshake. destruct opened as [o| | |]; try apply task_dials. destruct (supports_extension_protocol _); try apply task_dials.
  destruct (post_handshake_loop _ _ _ _ _) as [[[evs late] out] r]. apply task_dials.
Qed.

(** C16: a task dials as its session allows.  Whatever answers or fails, and also
    when the plain handshake is retried encrypted, every connection a dialling
    task opens goes to the address it was given, which passed the address
    filter; with proxies it goes through the whole chain in order, anonymous
    tasks never dial directly, a pinned interface is used, and µTP is used only
    by a task with no proxy, no interface and no anonymity. *)
Theorem task_dials_allowed `{NumBigint} sha1 env addr ih pid proxies iface anon utp :
  Forall (allowed addr utp proxies iface anon) (tk_dials (run_outgoing sha1 env addr ih pid proxies iface anon utp)) /\
  Forall (allowed addr utp proxies iface anon) (tk_dials (run_outgoing_mse_only sha1 env addr ih pid proxies iface anon utp)) /\
  (anon = true -> proxies = [] -> tk_dials (run_outgoing sha1 env addr ih pid proxies iface anon utp) = []).
Proof.
  assert (G : Forall (allowed addr utp proxies iface anon) (tk_dials (run_outgoing sha1 env addr ih pid proxies iface anon utp))).
  { unfold run_outgoing. pose proof (connect_allowed (te_dial env) 0 addr utp proxies iface anon [] ltac:(constructor)) as Hc.
    destruct (connect_transport _ 0 _ _ _ _ _ _) as [d [tr|e| |]]; cbn [fst] in Hc; rewrite ?task_dials; try done.
    destruct (plain_handshake _ _ _ _ _ _) as [s1 [o|e| |]]; rewrite ?after_dials, ?task_dials; try done.
    destruct (is_likely_mse_signal e); [|by rewrite task_dials]. pose proof (connect_allowed (te_dial env) 1 addr utp proxies iface anon d Hc) as Hc2.
    destruct (connect_transport _ 1 _ _ _ _ _ _) as [d2 [tr2|e2| |]]; cbn [fst] in Hc2; by rewrite ?after_dials, ?task_dials. }
  split; [exact G|]. split.
  - unfold run_outgoing_mse_only. pose proof (connect_allowed (te_dial env) 0 addr utp proxies iface anon [] ltac:(constructor)) as Hc.
    destruct (connect_transport _ 0 _ _ _ _ _ _) as [d [tr|e| |]]; cbn [fst] in Hc; by rewrite ?after_dials, ?task_dials.
  - intros -> ->. destruct (tk_dials _) as [|d l]; [done|]. apply list.Forall_cons in G as [[_ Hd] _]. destruct d; by destruct_and? Hd.
Qed.

(** ** One end's commands are the other end's events *)

(** What the other engine is meant to hear of a command. *)
Definition command_event (addr : SocketAddr) (cmd : PeerCommand) : option PeerEvent :=
  match cmd with
  | CRequest index begin length => Some (Request addr index begin length)
  | CCancel index begin length => Some (Cancel addr index begin length)
  | CHave index => Some (Have addr index)
  | CChoke => Some (Choke addr)
  | CUnchoke => Some (Unchoke addr)
  | CInterested => Some (Interested addr)
  | CNotInterested => Some (NotInterested addr)
  | CPiece index begin data => Some (Block addr index begin data)
  | CBitfield b => Some (Bitfield addr (flat_map byte_bits b))
  | CExtension ext_id payload =>
      if ext_id mod 256 =? b2z OUR_UT_PEX_ID then match parse_pex payload with Ok ((_ :: _) as added) => Some (Pex addr added) | _ => None end
      else if ext_id mod 256 =? 0 then match parse_handshake_payload payload with Ok i => Some (ExtensionHandshake addr (their_ut_pex_id i)) | _ => None end
      else None
  | CHaveAll => Some (HaveAll addr)
  | CHaveNone => None
  end.

Definition wake_event (addr : SocketAddr) (w : Wake) : option PeerEvent :=
  match w with Command (Some cmd) _ => command_event addr cmd | _ => None end.

Lemma eqb_b2z b c : Byte.eqb b c = (b2z b =? b2z c).
Proof.
  destruct (Byte.eqb b c) eqn:E.
  - apply Byte.byte_dec_bl in E as ->. symmetry. apply Z.eqb_refl.
  - symmetry. apply Z.eqb_neq. intros H. apply (f_equal z2b) in H. rewrite !z2b_b2z in H. subst c. by rewrite (Byte.byte_dec_lb eq_refl) in E.
Qed.

Lemma told_command addr w : told addr (wake_message w) = wake_event addr w.
Proof.
  destruct w as [[c|] o| |]; try done. destruct c as [| | | | | | | | |e p| |]; try done. cbn [wake_message wake_event command_message command_event].
  unfold told. cbn [frame_event msg_to_event]. rewrite !eqb_b2z, b2z_z2b. change (b2z EXT_HANDSHAKE_ID) with 0. change (b2z OUR_UT_PEX_ID) with 2.
  destruct (Z.eqb_spec (e mod 256) 0) as [->|]; cbn [Z.eqb].
  - by destruct (parse_handshake_payload p).
  - destruct (e mod 256 =? 2); [|done]. by destruct (parse_pex p) as [[|]| | |].
Qed.

Definition no_request (ev : PeerEvent) : bool := match ev with Request _ _ _ _ => false | _ => true end.

Lemma told_kind addr m ev : told addr m = Some ev -> no_request ev = request_free m.
Proof.
  unfold told. destruct m as [| | | | | | | | | |e p| | | | |]; cbn [frame_event msg_to_event]; try by intros [= <-].
  destruct (Byte.eqb e EXT_HANDSHAKE_ID); [by destruct (parse_handshake_payload p); intros [= <-]|].
  destruct (Byte.eqb e OUR_UT_PEX_ID); [|done]. destruct (parse_pex p) as [l| | |]; try done. destruct (length l =? 0)%nat; [done|]. by intros [= <-].
Qed.

Lemma told_no_request addr l : List.filter no_request (omap (told addr) l) = omap (told addr) (List.filter request_free l).
Proof.
  induction l as [|m l IH]; [done|]. cbn [omap list_omap List.filter]. destruct (told addr m) as [ev|] eqn:E.
  - cbn [List.filter]. rewrite (told_kind addr m ev E), IH. destruct (request_free m); cbn [omap list_omap]; by rewrite ?E.
  - rewrite IH. destruct (request_free m); cbn [omap list_omap]; by rewrite ?E.
Qed.

Lemma omap_sublist {A B} (f : A -> option B) l k : sublist l k -> sublist (omap f l) (omap f k).
Proof. induction 1 as [|x l k H IH|x l k H IH]; cbn; [constructor| |]; destruct (f x); try done; by constructor. Qed.

Lemma told_wakes addr (wakes : list Wake) : omap (told addr) (wake_message <$> wakes) = omap (wake_event addr) wakes.
Proof. induction wakes as [|w wakes IH]; cbn; [done|]. rewrite told_command, <- IH. by destruct (wake_event addr w). Qed.

(** C17: what one engine says the other engine hears, as long as every frame fits
    in MAX_FRAME_LEN.  The bytes a task writes for a sequence of commands and
    keepalives, all of them written and each encoded to a frame of at most
    MAX_FRAME_LEN bytes with fields in their wire ranges, after its extension
    handshake, read by a task at the other end that does not meet its idle limit
    and whose engine takes its events, give exactly the events that announce the
    handshake and those commands, in order and with their fields, except that
    the rate limit may drop some of the requests; then the reader sees the end
    of the stream.  A longer frame is refused by the reader: the bitfield of a
    torrent with many pieces is one, see [long_bitfield_refused]. *)
Theorem peer_link_exact env now addr r wakes (supports_ext anonymous : bool) :
  Forall all_written wakes -> Forall (fun w => fits (wake_message w)) wakes ->
  (forall n, re_idle env n = false) -> (length wakes < re_open env)%nat ->
  let said := (if supports_ext then [ExtensionHandshake addr (Some (b2z OUR_UT_PEX_ID))] else []) ++ omap (wake_event addr) wakes in
  exists out heard, write_loop r wakes (opening supports_ext anonymous Written_) = (out, None) /\
    read_task env now addr out = (heard, Err (ENetwork "frame len")) /\
    sublist heard said /\ List.filter no_request heard = List.filter no_request said.
Proof.
  intros Hw Hf Hi Ho said. set (b0 := bucket_new now REQUEST_BURST_TOKENS REQUEST_TOKENS_PER_SEC).
  set (ext := if supports_ext then [PeerWire.Extended EXT_HANDSHAKE_ID (build_handshake_payload anonymous)] else []).
  set (msgs := ext ++ (wake_message <$> wakes)).
  assert (Hopen : opening supports_ext anonymous Written_ = concat (PeerWire.encode <$> ext)).
  { unfold opening, ext. destruct supports_ext; [|done]. cbn [write_out fst app]. rewrite write_message_encode. cbn. by rewrite app_nil_r. }
  assert (Hfits : Forall fits msgs).
  { apply Forall_app. split; [|by apply Forall_fmap]. unfold ext. destruct supports_ext; [|constructor]. constructor; [|constructor]. by destruct anonymous; vm_compute. }
  assert (Hsaid : omap (told addr) msgs = said).
  { unfold msgs, said. rewrite omap_app, told_wakes. f_equal. unfold ext. by destruct supports_ext, anonymous. }
  destruct (throttle_keeps env msgs 0 b0) as [H1 H2].
  exists (concat (PeerWire.encode <$> msgs)), (omap (told addr) (throttle env 0 b0 msgs)). split_and!.
  - rewrite write_loop_eq by done. rewrite Hopen. unfold msgs. by rewrite fmap_app, concat_app.
  - unfold read_task. fold b0. rewrite read_loop_eq; [done|done|done|lia|]. cbn [length]. etransitivity; [apply told_length|]. apply sublist_length in H1.
    assert (length msgs <= S (length wakes))%nat by (unfold msgs, ext; rewrite length_app, length_fmap; destruct supports_ext; cbn; lia). lia.
  - rewrite <- Hsaid. by apply omap_sublist.
  - rewrite <- Hsaid, !told_no_request. by rewrite H2.
Qed.

(** ** Examples *)

#[local] Existing Instance std_bigint.
#[local] Existing Instance std_bigint_laws.

Definition peer_addr_ex : SocketAddr := sock_addr (IpV4 Byte.x08 Byte.x08 Byte.x04 Byte.x09) 51413.

Definition read_ex : ReadEnv := mkReadEnv (fun _ => false) (fun _ => 0) 100.

(** A peer that sends a plain handshake, then [Unchoke], then closes. *)
Definition task_ex : TaskEnv :=
  mkTaskEnv None (mkDialEnv (fun _ _ => []) (fun _ => true) (fun _ => true) (fun _ => true))
    (fun _ => mkStream (Handshake.encode (mkHandshake (replicate 8 Byte.x00) (replicate 20 Byte.x01) (replicate 20 Byte.x02)) ++ PeerWire.encode PeerWire.Unchoke) [] true)
    (fun _ => false) (mkSecrets (replicate 20 Byte.x07) [] []) read_ex 0 Written_ [Command (Some CInterested) Written_; ReadDone false] 0.

Example task_runs :
  tk_events (run_outgoing digest20 task_ex peer_addr_ex (replicate 20 Byte.x01) (replicate 20 Byte.x03) [] None false true) =
  [Connected peer_addr_ex (replicate 20 Byte.x02) (replicate 8 Byte.x00); Unchoke peer_addr_ex; Disconnected peer_addr_ex false].
Proof. vm_compute. reflexivity. Qed.

(** The engine drops its sender while the peer's [Unchoke] is on its way. *)
Definition task_late_ex : TaskEnv :=
  mkTaskEnv None (te_dial task_ex) (te_stream task_ex) (te_expired task_ex) (te_secrets task_ex) read_ex 0 Written_ [Command None Written_] 1.

Example events_after_disconnect :
  tk_events (run_outgoing digest20 task_late_ex peer_addr_ex (replicate 20 Byte.x01) (replicate 20 Byte.x03) [] None false true) =
  [Connected peer_addr_ex (replicate 20 Byte.x02) (replicate 8 Byte.x00); Disconnected peer_addr_ex false; Unchoke peer_addr_ex].
Proof. vm_compute. reflexivity. Qed.

Lemma task_tells_engine_witness :
  well_told task_ex peer_addr_ex (run_outgoing digest20 task_ex peer_addr_ex (replicate 20 Byte.x01) (replicate 20 Byte.x03) [] None false true).
Proof.
  exact (proj1 (task_tells_engine digest20 digest20_len task_ex peer_addr_ex (replicate 20 Byte.x01) (replicate 20 Byte.x03) [] None false eq_refl) true).
Defined.

Lemma task_dials_allowed_witness :
  tk_dials (run_outgoing digest20 task_ex peer_addr_ex (replicate 20 Byte.x01) (replicate 20 Byte.x03) [] None true true) = [].
Proof.
  exact (proj2 (proj2 (task_dials_allowed digest20 task_ex peer_addr_ex (replicate 20 Byte.x01) (replicate 20 Byte.x03) [] None true true)) eq_refl eq_refl).
Defined.

Definition wakes_ex : list Wake :=
  [Command (Some CInterested) Written_; Keepalive Written_; Command (Some (CPiece 3 16384 (bs "data"))) Written_].

Lemma peer_link_exact_witness : exists out heard, write_loop (Ok tt) wakes_ex (opening false false Written_) = (out, None) /\
  read_task read_ex 0 peer_addr_ex out = (heard, Err (ENetwork "frame len")) /\
  List.filter no_request heard = [Interested peer_addr_ex; Block peer_addr_ex 3 16384 (bs "data")].
Proof.
  destruct (peer_link_exact read_ex 0 peer_addr_ex (Ok tt) wakes_ex false false) as (out & heard & H1 & H2 & _ & H4).
  - repeat constructor.
  - repeat constructor; vm_compute; done.
  - done.
  - cbn. lia.
  - exists out, heard. split; [exact H1|]. split; [exact H2|exact H4].
Defined.

(** ** Behaviour worth knowing *)

(** Some malformed messages end the connection without counting against the peer. *)
Example malformed_unflagged :
  (fun f => match PeerWire.decode f with Err e => Some (is_protocol_violation e) | _ => None end) <$>
    [[Byte.x00; Byte.x01]; [Byte.x06; Byte.x01]; [Byte.x10; Byte.x01]; [Byte.x11]; [Byte.x04; Byte.x01]] =
  [Some false; Some false; Some false; Some false; Some true].
Proof. vm_compute. reflexivity. Qed.

(** The bitfield of a torrent with many pieces is longer than the longest frame: the honest peer that sends
    it is cut off, and counted as a violator. *)
Lemma long_bitfield_refused env now addr b rest : MAX_FRAME_LEN <= Z.of_nat (length b) < 2 ^ 32 - 1 -> re_idle env 0 = false ->
  read_task env now addr (PeerWire.encode (PeerWire.Bitfield b) ++ rest) = ([], Err (ENetwork "frame too large")) /\
  classify_outcome (read_task env now addr (PeerWire.encode (PeerWire.Bitfield b) ++ rest)).2 = true.
Proof.
  intros Hb Hi. enough (E : read_task env now addr (PeerWire.encode (PeerWire.Bitfield b) ++ rest) = ([], Err (ENetwork "frame too large"))) by (by rewrite E).
  unfold read_task. cbn [read_loop]. unfold read_frame_with_idle. rewrite Hi, (proj1 (fast_paths_equiv _ MAX_FRAME_LEN [] PeerWire.Choke ltac:(done))).
  destruct (encode_frame (PeerWire.Bitfield b)) as [E _]; [cbn; apply Z.ltb_lt; lia|]. rewrite E, <- app_assoc. unfold read_frame.
  rewrite read_exact_app by apply length_to_be. cbn [mbind result_bind]. unfold frame_of. cbn [PeerWire.encode]. rewrite frame_tag. cbn [length].
  rewrite from_to_be by lia. destruct (Z.eqb_spec (Z.of_nat (S (length b))) 0); [lia|]. destruct (Z.ltb_spec MAX_FRAME_LEN (Z.of_nat (S (length b)))); [done|lia].
Qed.
