(* ===== verification/FetchPool.v ===== *)
(** * Fetching metadata from a pool of peers: [fetch_metadata] of [src/src/peer/metadata_fetch.rs]

    Every peer of the pool is tried, at most sixteen at once, first in plain and,
    when the answer looks like a peer that wants encryption, again over an
    encrypted connection; the first to deliver ends the fetch.  What an attempt
    meets is an [Attempt]; which attempt starts or ends next, and when the time is
    up, are the steps of a run. *)

From Stdlib Require Import ZArith Lia String Strings.Byte.
From stdpp Require Import base tactics numbers list option.
From S2P Require Import Prelude Bencode PeerWire Handshake Net Extension Socks5 Rc4 Mse Engine MetadataFetch Connection.

#[local] Set Warnings "-register-all".

Definition MAX_CONCURRENT_FETCH : nat := 16.

(** ** One attempt *)

(** The [n]-th dial, what its connection carries, which timeouts pass (0 the plain handshake, 1 the key exchange, 2 the handshake
    over it), the random bytes, and the shared counter at each reservation. *)
Record Attempt := mkAttempt {
  at_dial : DialEnv;
  at_ext : option bytes;
  at_stream : nat -> Stream;
  at_expired : nat -> bool;
  at_secrets : Secrets;
  at_in_flight : nat -> Z;
}.

Definition dial (env : DialEnv) (n : nat) (addr : SocketAddr) (proxies : list ProxyConfig) (anonymous : bool) (iface : option bytes) : M (list Dial) unit :=
  if anonymous && (length proxies =? 0)%nat then
    lift (Err (ENetwork "magnet bootstrap: anonymous mode requires --socks5; refusing direct dial"))
  else
    let martian_strict := dht_martian_strict anonymous (negb (length proxies =? 0)%nat) in
    if negb (is_safe_dial_target addr martian_strict) then lift (Err (ENetwork "refusing martian dial target"))
    else
      match proxies with
      | _ :: _ =>
          _ ← modify (fun log => log ++ [DialChain (effective_hops (de_nonce env n) proxies) addr iface]);
          if de_tcp env n then mret tt else lift (Err (ENetwork "socks5 dial"))
      | [] =>
          _ ← modify (fun log => log ++ [match iface with Some i => DialInterface addr i | None => DialDirect addr end]);
          if de_tcp env n then mret tt else lift (Err (ENetwork "connect"))
      end.

Definition looks_like_mse_signal (e : Error) : bool :=
  match e with
  | EHandshake s =>
      contains_str "early eof" s || contains_str "bad pstrlen" s || contains_str "bad protocol string" s
      || contains_str "read: unexpected end of file" s
  | ENetwork s => contains_str "Connection reset" s
  | _ => false
  end.

Section Fetch.
Context `{NumBigint} (sha1 : bytes -> bytes).

(** The second attempt, once dialled. *)
Definition mse_attempt (a : Attempt) (ih pid : bytes) (anonymous : bool) : result bytes :=
  if at_expired a 1 then Err (EHandshake "mse handshake timeout")
  else
    match Mse.perform_outgoing sha1 (entropy (at_secrets a)) (pad1 (at_secrets a)) (pad2 (at_secrets a)) ih (at_stream a 1) with
    | (s, Ok (inr es)) =>
        enc ← map_err (ENetwork "bt-over-mse handshake") (bt_over_mse (at_expired a 2) "bt-over-mse handshake timeout" (secure_outgoing (at_ext a) ih pid) es s).2;
        supported ← supports_extension_protocol (reserved (op_theirs enc));
        if negb supported then Err (ENetwork "peer (over MSE) lacks BEP 10 extension protocol")
        else (exchange_metadata sha1 ih anonymous (at_in_flight a 1) (mkStream (op_incoming enc) [] (writable s))).2
    | (_, Ok (inl _)) | (_, Err _) => Err (EHandshake "mse handshake")
    | (_, Panic) => Panic
    | (_, NoFuel) => NoFuel
    end.

Definition try_fetch_from (a : Attempt) (addr : SocketAddr) (ih pid : bytes) (proxies : list ProxyConfig) (anonymous : bool) (iface : option bytes) : M (list Dial) bytes := fun log =>
  let '(log, dialled) := dial (at_dial a) 0 addr proxies anonymous iface log in
  let plain_result :=
    _ ← dialled;
    if at_expired a 0 then Err (EHandshake "bt handshake timeout")
    else (plain_attempt sha1 (at_ext a) ih pid anonymous (at_in_flight a 0) (at_stream a 0)).2 in
  match plain_result with
  | Err e =>
      if looks_like_mse_signal e then
        match dial (at_dial a) 1 addr proxies anonymous iface log with
        | (log, Ok _) => (log, mse_attempt a ih pid anonymous)
        | (log, Err e) => (log, Err e)
        | (log, Panic) => (log, Panic)
        | (log, NoFuel) => (log, NoFuel)
        end
      else (log, Err e)
  | r => (log, r)
  end.

(** ** The pool *)

(** The attempts that wait for a permit, those that run, what was dialled, and how the fetch ended. *)
Record Pool := mkPool { p_queued : list nat; p_running : list nat; p_dials : list Dial; p_outcome : option (result bytes) }.

Inductive PoolStep := Acquire (i : nat) | Complete (i : nat) | Deadline.

Definition remove (i : nat) (l : list nat) : list nat := List.filter (fun j => negb (j =? i)%nat) l.

Section Steps.
Context (attempt : nat -> Attempt) (pool : list SocketAddr) (ih pid : bytes) (proxies : list ProxyConfig) (anonymous : bool) (iface : option bytes).

Definition attempt_at (i : nat) : list Dial * result bytes :=
  match pool !! i with
  | Some addr => try_fetch_from (attempt i) addr ih pid proxies anonymous iface []
  | None => ([], Panic)
  end.

(** The dials of an attempt are entered when it starts: the end of the fetch, which aborts it, may cut them short. *)
Definition pool_step (p : Pool) (s : PoolStep) : Pool :=
  match p_outcome p with
  | Some _ => p
  | None =>
      match s with
      | Acquire i =>
          if bool_decide (i ∈ p_queued p) && (length (p_running p) <? MAX_CONCURRENT_FETCH)%nat
          then mkPool (remove i (p_queued p)) (p_running p ++ [i]) (p_dials p ++ (attempt_at i).1) None else p
      | Complete i =>
          if bool_decide (i ∈ p_running p) then
            let running := remove i (p_running p) in
            mkPool (p_queued p) running (p_dials p)
              (match (attempt_at i).2 with
               | Ok b => Some (Ok b)
               | _ => if (length (p_queued p) + length running =? 0)%nat
                      then Some (Err (ENetwork "magnet bootstrap: every peer attempt failed")) else None
               end)
          else p
      | Deadline => mkPool (p_queued p) (p_running p) (p_dials p) (Some (Err (ENetwork "magnet bootstrap: timed out")))
      end
  end.

Definition fetch_metadata (steps : list PoolStep) : Pool :=
  foldl pool_step
    (mkPool (seq 0 (length pool)) [] []
       (if (length pool =? 0)%nat then Some (Err (ENetwork "magnet bootstrap: no candidate peers")) else None)) steps.
End Steps.
End Fetch.

(** ** What the fetch does *)

Section Safe.
Context `{NumBigintLaws} (sha1 : bytes -> bytes) (sha1_len : forall b, length (sha1 b) = 20%nat).

(** Metadata that was asked for, within the bounds. *)
Definition verified (ih d : bytes) : Prop := sha1 d = ih /\ 1 <= Z.of_nat (length d) <= MAX_METADATA_SIZE.

Definition fine (ih : bytes) (r : result bytes) : Prop := returns r = true /\ forall d, r = Ok d -> verified ih d.

Lemma fine_err ih e : fine ih (Err e).
Proof. done. Qed.

Lemma dial_as_task env n addr proxies anon iface log :
  (dial env n addr proxies anon iface log).1 = (dial_tcp env n addr proxies iface anon log).1 /\ returns (dial env n addr proxies anon iface log).2 = true.
Proof.
  unfold dial, dial_tcp. destruct (anon && _); [done|]. cbn zeta. destruct (negb (is_safe_dial_target _ _)); [done|]. destruct proxies as [|p l]; unfold mbind, M_bind, modify; by destruct (de_tcp env n).
Qed.

Lemma exchange_fine ih anon in_flight s : fine ih (exchange_metadata sha1 ih anon in_flight s).2.
Proof. destruct (exchange_verified sha1 ih anon in_flight s) as [H1 H2]. split; [done|]. intros d Hd. by apply H2 in Hd as (? & ? & _). Qed.

Lemma mse_attempt_fine a ih pid anon : length (entropy (at_secrets a)) = 20%nat -> fine ih (mse_attempt sha1 a ih pid anon).
Proof.
  intros He. unfold mse_attempt. destruct (at_expired a 1); [apply fine_err|].
  destruct (outgoing_behaves sha1 (entropy (at_secrets a)) (pad1 (at_secrets a)) (pad2 (at_secrets a)) ih sha1_len He (at_stream a 1)) as (u & w & _ & _ & _ & Hq).
  destruct (Mse.perform_outgoing _ _ _ _ _ _) as [s1 [[e|es]| | |]]; try done.
  destruct (bt_over_mse_shaken (at_expired a 2) "bt-over-mse handshake timeout" (secure_outgoing (at_ext a) ih pid) es s1 (secure_outgoing_ok _ _ _) Hq) as [Hr Ho].
  destruct (bt_over_mse _ _ _ _ _).2 as [enc| | |]; try done. cbn [map_err mbind result_bind]. destruct (supports_known _ (Ho enc eq_refl)) as [b ->]. cbn [mbind result_bind]. destruct b; [apply exchange_fine|apply fine_err].
Qed.

Lemma try_fetch_fine a addr ih pid proxies anon iface log : length (entropy (at_secrets a)) = 20%nat -> Forall (allowed addr false proxies iface anon) log ->
  Forall (allowed addr false proxies iface anon) (try_fetch_from sha1 a addr ih pid proxies anon iface log).1 /\ fine ih (try_fetch_from sha1 a addr ih pid proxies anon iface log).2.
Proof.
  intros He Hl. unfold try_fetch_from. destruct (dial_as_task (at_dial a) 0 addr proxies anon iface log) as [D1 R1]. pose proof (dial_tcp_allowed (at_dial a) 0 addr false proxies iface anon log Hl) as A1. rewrite <- D1 in A1.
  destruct (dial (at_dial a) 0 addr proxies anon iface log) as [log1 r1]. cbn [fst snd] in *.
  set (plain := (_ ← r1; _)). assert (Hp : fine ih plain).
  { unfold plain. destruct r1 as [[]| | |]; try done. cbn [mbind result_bind]. destruct (at_expired a 0); [apply fine_err|].
    destruct (metadata_fetch_verified sha1 (at_ext a) ih pid anon (at_in_flight a 0) (at_stream a 0)) as [H1 H2]. split; [done|]. intros d Hd. by apply H2 in Hd as (? & ? & _). }
  clearbody plain. destruct plain as [d|e| |]; try by destruct Hp. destruct (looks_like_mse_signal e); [|done].
  destruct (dial_as_task (at_dial a) 1 addr proxies anon iface log1) as [D2 R2]. pose proof (dial_tcp_allowed (at_dial a) 1 addr false proxies iface anon log1 A1) as A2. rewrite <- D2 in A2.
  destruct (dial (at_dial a) 1 addr proxies anon iface log1) as [log2 [[]| | |]]; cbn [fst snd] in *; try done. split; [done|]. by apply mse_attempt_fine.
Qed.

(** What holds of the pool at every step. *)
Definition pool_sound (pool : list SocketAddr) (ih : bytes) (proxies : list ProxyConfig) (anon : bool) (iface : option bytes) (p : Pool) : Prop :=
  (length (p_running p) <= MAX_CONCURRENT_FETCH)%nat /\ Forall (fun d => exists addr, addr ∈ pool /\ allowed addr false proxies iface anon d) (p_dials p) /\ forall r, p_outcome p = Some r -> fine ih r.

Section Pools.
Context (attempt : nat -> Attempt) (pool : list SocketAddr) (ih pid : bytes) (proxies : list ProxyConfig) (anon : bool) (iface : option bytes).
Context (Hent : forall i, length (entropy (at_secrets (attempt i))) = 20%nat).

Lemma attempt_fine i : Forall (fun d => exists addr, addr ∈ pool /\ allowed addr false proxies iface anon d) (attempt_at sha1 attempt pool ih pid proxies anon iface i).1 /\
  forall d, (attempt_at sha1 attempt pool ih pid proxies anon iface i).2 = Ok d -> verified ih d.
Proof.
  unfold attempt_at. destruct (pool !! i) as [addr|] eqn:E; [|by split]. destruct (try_fetch_fine (attempt i) addr ih pid proxies anon iface [] (Hent i) ltac:(constructor)) as [A [_ F]].
  split; [|done]. eapply list.Forall_impl; [exact A|]. intros d Hd. exists addr. split; [by eapply list_elem_of_lookup_2|done].
Qed.

Lemma remove_le i l : (length (remove i l) <= length l)%nat.
Proof. apply filter_length_le. Qed.

Lemma pool_step_ok p s : pool_sound pool ih proxies anon iface p -> pool_sound pool ih proxies anon iface (pool_step sha1 attempt pool ih pid proxies anon iface p s).
Proof.
  intros Hp. pose proof Hp as (H1 & H2 & H3). unfold pool_step. destruct (p_outcome p); [done|]. destruct s as [i|i|].
  - destruct (bool_decide _ && _) eqn:E; [|done]. apply andb_true_iff in E as [_ E]. apply Nat.ltb_lt in E. split_and!; cbn [p_running p_dials p_outcome]; [rewrite length_app; cbn; lia| |done].
    apply list.Forall_app. split; [done|apply attempt_fine].
  - destruct (bool_decide _); [|done]. pose proof (remove_le i (p_running p)). destruct (attempt_fine i) as [_ F]. split_and!; cbn [p_running p_dials p_outcome]; [lia|done|]. intros r.
    destruct (attempt_at _ _ _ _ _ _ _ _ _).2 as [d| | |]; [intros [= <-]; split; [done|]; intros d' [= <-]; by apply F|..]; (destruct (_ =? 0)%nat; [|done]; intros [= <-]; done).
  - split_and!; cbn [p_running p_dials p_outcome]; [done|done|]. by intros r [= <-].
Qed.

Lemma pool_run_ok steps : forall p, pool_sound pool ih proxies anon iface p -> pool_sound pool ih proxies anon iface (foldl (pool_step sha1 attempt pool ih pid proxies anon iface) p steps).
Proof. induction steps as [|s steps IH]; intros p Hp; [done|]. cbn [foldl]. by apply IH, pool_step_ok. Qed.
End Pools.

(** C33: metadata from a pool of untrusted peers.  However the attempts interleave, whatever the peers send and whenever a
    timeout passes, at most sixteen attempts run at once, no attempt panics or runs forever, and the fetch returns only metadata whose
    hash is the one asked for and whose length is within the limit.  Every connection it opens, also the second one of a
    peer that wants encryption, goes to a peer of the pool that passed the address filter, through the whole proxy
    chain when there is one and over the interface that was named; an anonymous fetch without proxies opens none. *)
Theorem metadata_pool_safe attempt pool ih pid proxies anon iface steps : (forall i, length (entropy (at_secrets (attempt i))) = 20%nat) ->
  let p := fetch_metadata sha1 attempt pool ih pid proxies anon iface steps in
  (length (p_running p) <= MAX_CONCURRENT_FETCH)%nat /\
  Forall (fun d => exists addr, addr ∈ pool /\ allowed addr false proxies iface anon d) (p_dials p) /\
  (anon = true -> proxies = [] -> p_dials p = []) /\
  (forall r, p_outcome p = Some r -> returns r = true /\ forall d, r = Ok d -> verified ih d) /\
  (forall i addr, pool !! i = Some addr -> returns (try_fetch_from sha1 (attempt i) addr ih pid proxies anon iface []).2 = true).
Proof.
  intros He p. assert (Hp : pool_sound pool ih proxies anon iface p) by (apply pool_run_ok; [done|]; split_and!; cbn; [lia|constructor|]; intros r; destruct (_ =? 0)%nat; [by intros [= <-]|done]).
  destruct Hp as (H1 & H2 & H3). split_and!; [done|done| |done|].
  - intros -> ->. destruct (p_dials p) as [|d l]; [done|]. apply list.Forall_cons in H2 as [(addr & _ & _ & Hd) _]. destruct d; by destruct_and? Hd.
  - intros i addr _. by apply (try_fetch_fine (attempt i) addr ih pid proxies anon iface [] (He i) ltac:(constructor)).
Qed.
End Safe.

(** ** An example *)

#[local] Existing Instance std_bigint.
#[local] Existing Instance std_bigint_laws.

Definition hash_ex : bytes := replicate 20 x03.
Definition peer_hs (bit : byte) : bytes := Handshake.encode (mkHandshake [x00; x00; x00; x00; x00; bit; x00; x00] hash_ex (replicate 20 x09)).

(** The first peer has no extension protocol, the second delivers. *)
Definition attempts_ex (i : nat) : Attempt :=
  mkAttempt (mkDialEnv (fun _ _ => []) (fun _ => true) (fun _ => true) (fun _ => true)) None
    (fun _ => mkStream (match i with O => peer_hs x00 | _ => peer_hs x10 ++ in_ex end) [] true) (fun _ => false) (mkSecrets (replicate 20 x07) [] []) (fun _ => 0).
Definition pool_ex : list SocketAddr := [sock_addr (IpV4 x08 x08 x08 x08) 6881; sock_addr (IpV4 x08 x08 x04 x04) 6881].
Definition fetch_ex : Pool := fetch_metadata sha1_ex attempts_ex pool_ex hash_ex (replicate 20 x05) [proxy_ex] true None [Acquire 1; Acquire 0; Complete 0; Complete 1; Deadline].

Lemma metadata_pool_safe_witness : p_outcome fetch_ex = Some (Ok meta_ex) /\ verified sha1_ex hash_ex meta_ex /\ length (p_dials fetch_ex) = 2%nat.
Proof.
  assert (E : p_outcome fetch_ex = Some (Ok meta_ex)) by (vm_compute; reflexivity).
  destruct (metadata_pool_safe sha1_ex (fun b => length_replicate 20 _) attempts_ex pool_ex hash_ex (replicate 20 x05) [proxy_ex] true None [Acquire 1; Acquire 0; Complete 0; Complete 1; Deadline]) as (_ & _ & _ & H & _).
  - intros i. reflexivity.
  - split; [exact E|]. split; [|vm_compute; reflexivity]. exact (proj2 (H (Ok meta_ex) E) meta_ex eq_refl).
Defined.
