(* ===== verification/Sandbox.v ===== *)
(** * The system-call sandbox: [src/src/sandbox.rs], Linux

    The seccomp filter is a program for the kernel's packet-filter machine.  The
    machine is not part of the repository: [Bpf] states what the kernel documents
    of the three instructions the filter uses, and the theorem is proved for any
    machine that obeys it.  The numbers of the system calls come from the libc
    crate and are a parameter [SYS]. *)

From Stdlib Require Import ZArith Lia String.
From stdpp Require Import base tactics numbers list option sets.
From S2P Require Import Prelude.

(** ** Constants *)

Definition BPF_LD : Z := 0x00.
Definition BPF_W : Z := 0x00.
Definition BPF_ABS : Z := 0x20.
Definition BPF_JMP : Z := 0x05.
Definition BPF_JEQ : Z := 0x10.
Definition BPF_K : Z := 0x00.
Definition BPF_RET : Z := 0x06.
Definition SECCOMP_RET_KILL_PROCESS : Z := 0x80000000.
Definition SECCOMP_RET_ALLOW : Z := 0x7fff0000.
Definition NR_OFFSET : Z := 0.
Definition ARCH_OFFSET : Z := 4.
Definition AUDIT_ARCH_X86_64 : Z := 0xC000003E.
Definition SECCOMP_SET_MODE_FILTER : Z := 1.
Definition SECCOMP_FILTER_FLAG_TSYNC : Z := 1.
Definition MAX_ALLOWED : nat := 255.

(** ** The filter *)

Record SockFilter := mkFilter { code : Z; jt : Z; jf : Z; k : Z }.

(** The whitelist, by name and in the order of the source. *)
Definition allowed_names : list string :=
  ["read"; "write"; "readv"; "writev"; "pread64"; "pwrite64"; "close"; "openat"; "lseek"; "fsync"; "fdatasync"; "ftruncate";
   "mkdirat"; "unlinkat"; "newfstatat"; "fstat"; "statx"; "readlinkat"; "getdents64"; "dup"; "dup3";
   "mmap"; "munmap"; "mprotect"; "brk"; "mremap"; "madvise";
   "futex"; "clone"; "clone3"; "exit"; "exit_group"; "rt_sigaction"; "rt_sigprocmask"; "rt_sigreturn"; "sigaltstack";
   "set_robust_list"; "get_robust_list"; "sched_getaffinity"; "sched_yield"; "set_tid_address"; "restart_syscall"; "gettid";
   "tgkill"; "getpid"; "prlimit64"; "getrlimit"; "uname"; "arch_prctl";
   "clock_gettime"; "clock_nanosleep"; "nanosleep"; "timerfd_create"; "timerfd_settime";
   "getrandom";
   "epoll_create1"; "epoll_ctl"; "epoll_wait"; "epoll_pwait"; "eventfd2"; "pipe2";
   "socket"; "connect"; "accept"; "accept4"; "bind"; "listen"; "setsockopt"; "getsockopt"; "getsockname"; "getpeername";
   "sendto"; "recvfrom"; "sendmsg"; "recvmsg"; "shutdown";
   "fcntl"; "ioctl"]%string.

Definition allowed_syscalls (SYS : string -> Z) : list Z := (fun n => SYS n mod 2 ^ 32) <$> allowed_names.

(** The comparisons: from the [i]-th of [n] the distance to the last instruction is [n - i]. *)
Fixpoint jeqs (n i : Z) (allowed : list Z) : list SockFilter :=
  match allowed with
  | [] => []
  | nr :: allowed => mkFilter (Z.lor (Z.lor BPF_JMP BPF_JEQ) BPF_K) ((n - i) mod 256) 0 nr :: jeqs n (i + 1) allowed
  end.

Definition build_filter (allowed : list Z) : result (list SockFilter) :=
  if (MAX_ALLOWED <? length allowed)%nat then Panic
  else
    Ok ([mkFilter (Z.lor (Z.lor BPF_LD BPF_W) BPF_ABS) 0 0 ARCH_OFFSET;
         mkFilter (Z.lor (Z.lor BPF_JMP BPF_JEQ) BPF_K) 1 0 AUDIT_ARCH_X86_64;
         mkFilter (Z.lor BPF_RET BPF_K) 0 0 SECCOMP_RET_KILL_PROCESS;
         mkFilter (Z.lor (Z.lor BPF_LD BPF_W) BPF_ABS) 0 0 NR_OFFSET]
        ++ jeqs (Z.of_nat (length allowed)) 0 allowed
        ++ [mkFilter (Z.lor BPF_RET BPF_K) 0 0 SECCOMP_RET_KILL_PROCESS;
            mkFilter (Z.lor BPF_RET BPF_K) 0 0 SECCOMP_RET_ALLOW]).

(** ** Installing it *)

(** What the kernel keeps for the process: the bit that setting a filter needs, and the filters of the
    calling thread and of the others. *)
Record Process := mkProcess { no_new_privs : bool; own_filter : option (list SockFilter); other_threads : option (list SockFilter) }.

(** [seccomp(mode, flags, prog)], of whose program [len] instructions are read.  The kernel keeps filters that
    were installed before and takes the strictest of their verdicts; the program installs this one filter only, and the
    verdict below is the verdict of that filter. *)
Definition seccomp (mode flags len : Z) (prog : list SockFilter) (p : Process) : Process :=
  if mode =? SECCOMP_SET_MODE_FILTER then
    let f := Some (take (Z.to_nat len) prog) in
    mkProcess (no_new_privs p) f (if Z.testbit flags 0 then f else other_threads p)
  else p.

(** [privs] and [install]: whether the kernel grants the two calls. *)
Definition engage (SYS : string -> Z) (privs install : bool) : M Process unit :=
  filter ← lift (build_filter (allowed_syscalls SYS));
  if negb privs then lift (Err (ENetwork "sandbox: PR_SET_NO_NEW_PRIVS failed"))
  else
    _ ← modify (fun p => mkProcess true (own_filter p) (other_threads p));
    let len := Z.of_nat (length filter) mod 2 ^ 16 in
    if negb install then lift (Err (ENetwork "sandbox: seccomp install failed"))
    else modify (seccomp SECCOMP_SET_MODE_FILTER SECCOMP_FILTER_FLAG_TSYNC len filter).

(** ** The machine *)

(** The word at an offset of [struct seccomp_data], for a call [nr] under an architecture. *)
Definition seccomp_data (arch nr : Z) (offset : Z) : Z :=
  if offset =? NR_OFFSET then nr else if offset =? ARCH_OFFSET then arch else 0.

(** [exec prog data pc a] is the action returned from instruction [pc] with accumulator [a]. *)
Class Bpf := {
  exec : list SockFilter -> (Z -> Z) -> nat -> Z -> Z;
  exec_load : forall prog data pc a f, prog !! pc = Some f -> code f = 0x20 -> exec prog data pc a = exec prog data (S pc) (data (k f));
  exec_jeq : forall prog data pc a f, prog !! pc = Some f -> code f = 0x15 ->
    exec prog data pc a = exec prog data (S pc + Z.to_nat (if a =? k f then jt f else jf f)) a;
  exec_ret : forall prog data pc a f, prog !! pc = Some f -> code f = 0x06 -> exec prog data pc a = k f;
}.

(** What the kernel does with a call of a process. *)
Definition verdict `{Bpf} (filter : option (list SockFilter)) (arch nr : Z) : Z :=
  match filter with Some prog => exec prog (seccomp_data arch nr) 0 0 | None => SECCOMP_RET_ALLOW end.

(** ** What the filter decides *)

Lemma jeqs_length n i l : length (jeqs n i l) = length l.
Proof. revert i. induction l as [|x l IH]; intros i; cbn; [done|]. by rewrite IH. Qed.

Section Filter.
Context `{Bpf}.

(** From a comparison on, with the call's number loaded. *)
Lemma exec_jeqs pre data nr allowed : forall post rest n i a,
  n = i + Z.of_nat (length rest) -> 0 <= i -> n <= 255 -> a = nr ->
  allowed = post ++ rest -> length post = Z.to_nat i ->
  let prog := pre ++ jeqs n 0 allowed ++ [mkFilter 0x06 0 0 SECCOMP_RET_KILL_PROCESS; mkFilter 0x06 0 0 SECCOMP_RET_ALLOW] in
  drop (length post) (jeqs n 0 allowed) = jeqs n i rest ->
  exec prog data (length pre + length post) a = if bool_decide (nr ∈ rest) then SECCOMP_RET_ALLOW else SECCOMP_RET_KILL_PROCESS.
Proof.
  intros post rest n i. revert post i. induction rest as [|x rest IH]; intros post i a Hn Hi Hn255 -> Hall Hpost prog Hdrop.
  - rewrite app_nil_r in Hall. subst post. rewrite bool_decide_false by set_solver.
    rewrite (exec_ret _ _ _ _ (mkFilter 0x06 0 0 SECCOMP_RET_KILL_PROCESS)); [done| |done].
    unfold prog. rewrite lookup_app_r, lookup_app_r by (rewrite ?jeqs_length; lia). rewrite jeqs_length. by replace (_ - _ - _)%nat with 0%nat by lia.
  - assert (Hlen : length allowed = (length post + S (length rest))%nat) by (subst; rewrite length_app; done).
    assert (Hat : forall j : nat, (j <= 1)%nat -> prog !! (length pre + length allowed + j)%nat =
      Some (mkFilter 0x06 0 0 (if decide (j = 0%nat) then SECCOMP_RET_KILL_PROCESS else SECCOMP_RET_ALLOW))).
    { intros j Hj. unfold prog. rewrite lookup_app_r, lookup_app_r by (rewrite ?jeqs_length; lia). rewrite jeqs_length.
      replace (_ - _ - _)%nat with j by lia. destruct j as [|[|]]; [done|done|lia]. }
    rewrite (exec_jeq _ _ _ _ (mkFilter 0x15 ((n - i) mod 256) 0 x)); [| |done]; cbn [k jt jf].
    + cbn [length] in Hn. rewrite Z.mod_small by lia. destruct (Z.eqb_spec nr x) as [->|Hne].
      * rewrite bool_decide_true by set_solver. rewrite (exec_ret _ _ _ _ (mkFilter 0x06 0 0 SECCOMP_RET_ALLOW)); [done| |done].
        etransitivity; [|apply (Hat 1%nat); lia]. f_equal. lia.
      * change (Z.to_nat 0) with 0%nat. replace (S _ + 0)%nat with (length pre + length (post ++ [x]))%nat by (rewrite length_app; cbn; lia).
        unfold prog. rewrite (IH (post ++ [x]) (i + 1) nr); try done; try lia.
        -- rewrite (bool_decide_ext (nr ∈ rest) (nr ∈ x :: rest)); [done|set_solver].
        -- by rewrite <- app_assoc.
        -- rewrite length_app. cbn. lia.
        -- rewrite length_app. cbn [length]. rewrite <- drop_drop, Hdrop. done.
    + unfold prog. rewrite lookup_app_r, lookup_app_l by (rewrite ?jeqs_length; lia). replace (_ - _)%nat with (length post) by lia.
      rewrite <- (Nat.add_0_r (length post)), <- lookup_drop, Hdrop. done.
Qed.

Lemma build_filter_exact allowed prog arch nr : build_filter allowed = Ok prog ->
  exec prog (seccomp_data arch nr) 0 0 =
  if (arch =? AUDIT_ARCH_X86_64) && bool_decide (nr ∈ allowed) then SECCOMP_RET_ALLOW else SECCOMP_RET_KILL_PROCESS.
Proof.
  unfold build_filter. destruct (Nat.ltb_spec MAX_ALLOWED (length allowed)) as [|Hlen]; [done|]. intros [= <-].
  rewrite (exec_load _ _ _ _ (mkFilter 0x20 0 0 ARCH_OFFSET)) by done. rewrite (exec_jeq _ _ _ _ (mkFilter 0x15 1 0 AUDIT_ARCH_X86_64)) by done. cbn [k jt jf].
  change (seccomp_data arch nr ARCH_OFFSET) with arch. destruct (Z.eqb_spec arch AUDIT_ARCH_X86_64) as [->|]; cbn [andb].
  - change (S 1 + Z.to_nat 1)%nat with 3%nat. rewrite (exec_load _ _ _ _ (mkFilter 0x20 0 0 NR_OFFSET)) by done. cbn [k].
    change (seccomp_data AUDIT_ARCH_X86_64 nr NR_OFFSET) with nr. unfold MAX_ALLOWED in Hlen.
    refine (exec_jeqs [_; _; _; _] _ nr allowed [] allowed (Z.of_nat (length allowed)) 0 nr _ _ _ _ _ _ _); (done || lia).
  - change (S 1 + Z.to_nat 0)%nat with 2%nat. by rewrite (exec_ret _ _ _ _ (mkFilter 0x06 0 0 SECCOMP_RET_KILL_PROCESS)).
Qed.
End Filter.

(** C25: the sandbox decides as its whitelist says.  Building the filter never
    panics; when both kernel calls are granted, a system call of any thread is
    allowed exactly when it comes from the 64-bit x86 interface and its number
    is that of a whitelisted call, and kills the process otherwise; when one is
    not granted the caller gets an error and no filter is left behind. *)
Theorem sandbox_exact `{Bpf} SYS privs install p :
  let '(p', r) := engage SYS privs install p in
  returns r = true /\ (r = Ok tt <-> privs && install = true) /\
  (r = Ok tt -> no_new_privs p' = true /\ forall filter arch nr, filter = own_filter p' \/ filter = other_threads p' ->
     (verdict filter arch nr = SECCOMP_RET_ALLOW \/ verdict filter arch nr = SECCOMP_RET_KILL_PROCESS) /\
     (verdict filter arch nr = SECCOMP_RET_ALLOW <-> arch = AUDIT_ARCH_X86_64 /\ exists name, name ∈ allowed_names /\ nr = SYS name mod 2 ^ 32)) /\
  (r <> Ok tt -> own_filter p' = own_filter p /\ other_threads p' = other_threads p).
Proof.
  unfold engage, mbind, M_bind, lift. destruct (build_filter (allowed_syscalls SYS)) as [prog|e| |] eqn:Eb; try done.
  assert (Hl : Z.of_nat (length prog) mod 2 ^ 16 = Z.of_nat (length prog)) by (by injection Eb as <-).
  destruct privs; cbn [negb andb]; [|by split_and!]. destruct install; cbn [negb modify]; [|by split_and!].
  split_and!; try done. intros _. split; [done|]. intros filter arch nr Hf.
  assert (Ef : filter = Some prog).
  { assert (Et : take (Z.to_nat (Z.of_nat (length prog) mod 2 ^ 16)) prog = prog) by (rewrite Hl, Nat2Z.id; by apply take_ge).
    clear Eb. destruct Hf as [Hf|Hf]; exact (eq_trans Hf (f_equal Some Et)). }
  subst filter. cbn [verdict]. rewrite (build_filter_exact _ _ arch nr Eb).
  assert (Ha : nr ∈ allowed_syscalls SYS <-> exists name, name ∈ allowed_names /\ nr = SYS name mod 2 ^ 32).
  { unfold allowed_syscalls. rewrite list_elem_of_fmap. naive_solver. }
  rewrite <- Ha. destruct (Z.eqb_spec arch AUDIT_ARCH_X86_64) as [->|]; cbn [andb]; [|naive_solver].
  case_bool_decide; naive_solver.
Qed.

(** ** A machine, and the calls by their numbers *)

Fixpoint run_from (data : Z -> Z) (skip : nat) (a : Z) (prog : list SockFilter) : Z :=
  match prog, skip with
  | [], _ => SECCOMP_RET_KILL_PROCESS
  | _ :: prog, S skip => run_from data skip a prog
  | f :: prog, O =>
      if code f =? 0x20 then run_from data 0 (data (k f)) prog
      else if code f =? 0x15 then run_from data (Z.to_nat (if a =? k f then jt f else jf f)) a prog
      else if code f =? 0x06 then k f else SECCOMP_RET_KILL_PROCESS
  end.

Lemma run_from_skip data prog : forall pc j a f, prog !! pc = Some f ->
  run_from data pc a prog = run_from data 0 a (f :: drop (S pc) prog) /\
  run_from data (S pc + j) a prog = run_from data j a (drop (S pc) prog).
Proof.
  induction prog as [|g prog IH]; intros pc j a f Hp; [done|]. destruct pc as [|pc]; cbn in Hp.
  - injection Hp as ->. done.
  - destruct (IH pc j a f Hp) as [H1 H2]. by split.
Qed.

#[local] Instance bpf_machine : Bpf.
Proof.
  refine {| exec prog data pc a := run_from data pc a prog |}; intros prog data pc a f Hp Hc.
  - rewrite (proj1 (run_from_skip data prog pc 0 a f Hp)). pose proof (proj2 (run_from_skip data prog pc 0 (data (k f)) f Hp)) as E.
    rewrite Nat.add_0_r in E. rewrite E. cbn [run_from]. by rewrite Hc.
  - rewrite (proj1 (run_from_skip data prog pc 0 a f Hp)), (proj2 (run_from_skip data prog pc _ a f Hp)). cbn [run_from]. by rewrite Hc.
  - rewrite (proj1 (run_from_skip data prog pc 0 a f Hp)). cbn [run_from]. by rewrite Hc.
Defined.

(** The numbers of the 64-bit x86 interface, for the calls of the list and three others. *)
Definition x86_64_numbers : list Z :=
  [0; 1; 19; 20; 17; 18; 3; 257; 8; 74; 75; 77; 258; 263; 262; 5; 332; 267; 217; 32; 292; 9; 11; 10; 12; 25; 28;
   202; 56; 435; 60; 231; 13; 14; 15; 131; 273; 274; 204; 24; 218; 219; 186; 234; 39; 302; 97; 63; 158;
   228; 230; 35; 283; 286; 318; 291; 233; 232; 281; 290; 293; 41; 42; 43; 288; 49; 50; 54; 55; 51; 52; 44; 45; 46; 47; 48; 72; 16].

Definition x86_64_SYS (name : string) : Z :=
  match List.find (fun n => String.eqb n.1 name) (zip (allowed_names ++ ["ptrace"; "rename"; "chmod"]%string) (x86_64_numbers ++ [101; 82; 90])) with
  | Some (_, nr) => nr
  | None => 2 ^ 32 - 1
  end.

Lemma sandbox_exact_witness :
  let p := (engage x86_64_SYS true true (mkProcess false None None)).1 in
  verdict (other_threads p) AUDIT_ARCH_X86_64 (x86_64_SYS "read") = SECCOMP_RET_ALLOW /\
  verdict (other_threads p) AUDIT_ARCH_X86_64 (x86_64_SYS "ptrace") <> SECCOMP_RET_ALLOW /\
  verdict (other_threads p) 0x40000003 (x86_64_SYS "read") <> SECCOMP_RET_ALLOW.
Proof.
  destruct (sandbox_exact x86_64_SYS true true (mkProcess false None None)) as (_ & Hok & Hr & _).
  destruct (Hr ltac:(by apply Hok)) as [_ Hv]. split_and!.
  - apply (Hv _ AUDIT_ARCH_X86_64 (x86_64_SYS "read") (or_intror eq_refl)). split; [done|]. exists "read"%string. split; [by left|done].
  - intros E. apply (Hv _ _ _ (or_intror eq_refl)) in E as (_ & name & Hn & E).
    assert (F : Forall (fun n => x86_64_SYS "ptrace" <> x86_64_SYS n mod 2 ^ 32) allowed_names) by (repeat (constructor; [vm_compute; discriminate|]); constructor).
    exact (proj1 (list.Forall_forall _ _) F name Hn E).
  - intros E. apply (Hv _ _ _ (or_intror eq_refl)) in E as [E _]. discriminate E.
Defined.

(** ** Behaviour worth knowing *)

(** The calls behind saving the DHT state (renaming the file, setting its mode) are not on the list. *)
Example saving_state_is_killed :
  let p := (engage x86_64_SYS true true (mkProcess false None None)).1 in
  (fun name => verdict (own_filter p) AUDIT_ARCH_X86_64 (x86_64_SYS name)) <$> ["rename"; "chmod"]%string =
  [SECCOMP_RET_KILL_PROCESS; SECCOMP_RET_KILL_PROCESS].
Proof. vm_compute. reflexivity. Qed.
