(* ===== verification/DaemonStore.v ===== *)
(** * The daemon's state directory: [src/src/daemon_store.rs]

    A directory is a map from file names to files.  Writes and removals may fail,
    a write after it has truncated the file: how each ends is an input.  The
    encoding of the sidecar is the serde_json crate's and is a class with its
    round-trip law; the order in which a directory is listed is an input too. *)

From Stdlib Require Import ZArith Lia String Strings.Byte.
From stdpp Require Import base tactics numbers list option gmap fin_maps fin_map_dom.
From S2P Require Import Prelude Bencode Net Paths Text Magnet.

#[local] Set Warnings "-register-all".

(** ** Data *)

Record PersistedTorrent := mkPersisted { torrent_bytes : bytes; pt_output : bytes; pt_enable_dht : bool }.

Record Sidecar := mkSidecar { sc_output : bytes; sc_enable_dht : bool }.

(** [serde_json::to_vec] and [from_slice] on sidecars; a path that is not text is not encoded. *)
Class SerdeJson := {
  to_vec : Sidecar -> option bytes;
  from_slice : bytes -> option Sidecar;
  json_roundtrip : forall s b, to_vec s = Some b -> from_slice b = Some s;
}.

(** A directory entry that cannot be read (a directory, say) is [Unreadable]. *)
Inductive Node := File (contents : bytes) | Unreadable.

Abbreviation Dir := (gmap bytes Node).

(** ** File names *)

(** [Path::extension] and [file_stem] of a listed name. *)
Definition extension (name : bytes) : option bytes :=
  match rsplit_once "."%byte name with Some ([], _) | None => None | Some (_, ext) => Some ext end.

Definition file_stem (name : bytes) : bytes :=
  match rsplit_once "."%byte name with Some ([], _) | None => name | Some (stem, _) => stem end.

Definition torrent_path (info_hash : bytes) : bytes := hex info_hash ++ bs ".torrent".
Definition sidecar_path (info_hash : bytes) : bytes := hex info_hash ++ bs ".json".

(** ** Operations *)

(** How a write ends: done, stopped after [n] bytes of the truncated file, or not begun. *)
Inductive Wrote := WroteAll | WroteSome (n : nat) | WroteNone.

Definition write_private_file (o : Wrote) (name data : bytes) : M Dir unit := fun d =>
  match o with
  | WroteAll => (<[name := File data]> d, Ok tt)
  | WroteSome n => (<[name := File (take n data)]> d, Err (EIo "write"))
  | WroteNone => (d, Err (EIo "open"))
  end.

(** [remove_file]; its result is ignored by the caller. *)
Definition remove_file (ok : bool) (name : bytes) (d : Dir) : Dir := if ok then delete name d else d.

Section Store.
Context `{SerdeJson}.

Definition save (o1 o2 : Wrote) (info_hash torrent_bytes output : bytes) (enable_dht : bool) : M Dir unit :=
  _ ← write_private_file o1 (torrent_path info_hash) torrent_bytes;
  match to_vec (mkSidecar output enable_dht) with
  | None => lift (Err (EIo "json"))
  | Some json => write_private_file o2 (sidecar_path info_hash) json
  end.

Definition forget (r1 r2 : bool) (info_hash : bytes) (d : Dir) : Dir :=
  remove_file r2 (sidecar_path info_hash) (remove_file r1 (torrent_path info_hash) d).

(** The label of a skipped entry in the log: whether its name is an info hash. *)
Definition entry_label (stem : bytes) : result (option bytes) := info_hash_from_hex stem.

(** [std::fs::read] *)
Definition read_file (d : Dir) (name : bytes) : option bytes :=
  match d !! name with Some (File b) => Some b | _ => None end.

(** One turn of the loop of [load_all]. *)
Definition load_entry (d : Dir) (name : bytes) : result (option PersistedTorrent) :=
  if negb (bool_decide (extension name = Some (bs "torrent"))) then Ok None
  else
    let stem := file_stem name in
    if negb (utf8_valid stem) then Ok None
    else
      match read_file d name with
      | None => _ ← entry_label stem; Ok None
      | Some torrent_bytes =>
          match b ← read_file d (stem ++ bs ".json"); from_slice b with
          | None => _ ← entry_label stem; Ok None
          | Some sidecar => Ok (Some (mkPersisted torrent_bytes (sc_output sidecar) (sc_enable_dht sidecar)))
          end
      end.

Fixpoint load_entries (d : Dir) (names : list bytes) : result (list PersistedTorrent) :=
  match names with
  | [] => Ok []
  | name :: names =>
      o ← load_entry d name;
      rest ← load_entries d names;
      Ok (match o with Some p => p :: rest | None => rest end)
  end.

(** [listing] is what [read_dir] gave, the entries that failed left out. *)
Definition load_all (listing : option (list bytes)) (d : Dir) : result (list PersistedTorrent) :=
  match listing with None => Ok [] | Some names => load_entries d names end.
End Store.

(** ** What the directory means *)

(** A hosted torrent as recorded: completely, or by an operation that failed half way. *)
Inductive Slot := Saved (p : PersistedTorrent) | Torn.

Inductive StoreOp :=
  | Save (o1 o2 : Wrote) (info_hash raw output : bytes) (dht : bool)
  | Forget (r1 r2 : bool) (info_hash : bytes).

Definition op_hash (op : StoreOp) : bytes := match op with Save _ _ ih _ _ _ | Forget _ _ ih => ih end.

Section Meaning.
Context `{SerdeJson}.

Definition apply_op (op : StoreOp) (d : Dir) : Dir :=
  match op with
  | Save o1 o2 ih raw out dht => (save o1 o2 ih raw out dht d).1
  | Forget r1 r2 ih => forget r1 r2 ih d
  end.

(** The promise: a save that succeeds records the torrent, a removal drops it, and a failure touches only
    the torrent it was about. *)
Definition spec_op (op : StoreOp) (s : gmap bytes Slot) : gmap bytes Slot :=
  match op with
  | Save WroteNone _ _ _ _ _ => s
  | Save WroteAll WroteAll ih raw out dht =>
      <[ih := match to_vec (mkSidecar out dht) with Some _ => Saved (mkPersisted raw out dht) | None => Torn end]> s
  | Save _ _ ih _ _ _ => <[ih := Torn]> s
  | Forget true _ ih => delete ih s
  | Forget false r2 ih => if r2 then match s !! ih with Some _ => <[ih := Torn]> s | None => s end else s
  end.

Lemma absent_rsplit sep l : sep ∉ l -> rsplit_once sep l = None.
Proof.
  induction l as [|c l IH]; intros Hl; [done|]. cbn. apply not_elem_of_cons in Hl as [Hc Hl]. rewrite IH by done.
  destruct (Byte.eqb c sep) eqn:E; [|done]. apply Byte.byte_dec_bl in E. congruence.
Qed.

Lemma rsplit_once_last sep a b : sep ∉ b -> rsplit_once sep (a ++ sep :: b) = Some (a, b).
Proof. intros Hb. by rewrite rsplit_once_app, absent_rsplit. Qed.

Lemma hex_nonempty ih : length ih = 20%nat -> exists c l, hex ih = c :: l.
Proof. intros Hl. destruct ih as [|x ih]; [done|]. rewrite hex_cons. cbn. by do 2 eexists. Qed.

Lemma torrent_name ih : length ih = 20%nat -> extension (torrent_path ih) = Some (bs "torrent") /\ file_stem (torrent_path ih) = hex ih.
Proof.
  intros Hl. destruct (hex_nonempty ih Hl) as (c & l & E). unfold extension, file_stem, torrent_path.
  change (bs ".torrent") with ("."%byte :: bs "torrent"). rewrite rsplit_once_last by (apply (bool_decide_unpack _); by vm_compute). by rewrite E.
Qed.

Lemma hex20_inj a b : length a = 20%nat -> length b = 20%nat -> hex a = hex b -> a = b.
Proof. intros Ha Hb E. pose proof (info_hash_hex a Ha) as H1. rewrite E, (info_hash_hex b Hb) in H1. by injection H1. Qed.

Lemma torrent_path_inj a b : length a = 20%nat -> length b = 20%nat -> torrent_path a = torrent_path b -> a = b.
Proof. intros Ha Hb E. apply hex20_inj; try done. by apply (List.app_inv_tail (bs ".torrent")). Qed.
Lemma paths_differ a b : torrent_path a <> sidecar_path b.
Proof. intros E. apply (f_equal last) in E. unfold torrent_path, sidecar_path in E. by rewrite !last_app in E. Qed.

(** Loading the entry of a hosted torrent never panics. *)
Definition restored (d : Dir) (ih : bytes) : option PersistedTorrent :=
  raw ← read_file d (torrent_path ih);
  s ← (b ← read_file d (sidecar_path ih); from_slice b);
  Some (mkPersisted raw (sc_output s) (sc_enable_dht s)).

Lemma load_entry_hash d ih : length ih = 20%nat -> load_entry d (torrent_path ih) = Ok (restored d ih).
Proof.
  intros Hl. destruct (torrent_name ih Hl) as [He Hs]. unfold load_entry, restored, entry_label, sidecar_path. rewrite Hs, He, bool_decide_true, hex_utf8 by done. cbn [negb].
  rewrite (info_hash_hex ih Hl). destruct (read_file d (torrent_path ih)); [|done]. cbn [mbind option_bind].
  destruct (read_file d (hex ih ++ bs ".json")) as [b|]; [|done]. cbn [mbind option_bind]. by destruct (from_slice b).
Qed.

Lemma load_entry_other d name : extension name <> Some (bs "torrent") -> load_entry d name = Ok None.
Proof. intros He. unfold load_entry. by rewrite bool_decide_false. Qed.

(** The directory holds what the slots say, and no torrent file that is not a slot's. *)
Definition stores (s : gmap bytes Slot) (d : Dir) : Prop :=
  (forall name, is_Some (d !! name) -> extension name = Some (bs "torrent") -> exists ih, name = torrent_path ih /\ is_Some (s !! ih)) /\
  (forall ih, is_Some (s !! ih) -> length ih = 20%nat) /\
  (forall ih p, s !! ih = Some (Saved p) -> is_Some (d !! torrent_path ih) /\ restored d ih = Some p).
Lemma read_insert d n m b : read_file (<[n := File b]> d) m = if decide (n = m) then Some b else read_file d m.
Proof. unfold read_file. destruct (decide (n = m)) as [->|]; [by rewrite lookup_insert_eq|by rewrite lookup_insert_ne]. Qed.

Lemma read_delete d n m : n <> m -> read_file (delete n d) m = read_file d m.
Proof. intros. unfold read_file. by rewrite lookup_delete_ne. Qed.

Lemma side_ext ih : length ih = 20%nat -> extension (sidecar_path ih) <> Some (bs "torrent").
Proof.
  intros Hl. destruct (hex_nonempty ih Hl) as (c & l & E). unfold extension, sidecar_path.
  change (bs ".json") with ("."%byte :: bs "json"). rewrite rsplit_once_last by (apply (bool_decide_unpack _); by vm_compute). by rewrite E.
Qed.

(** Changing the two files of one torrent leaves the others as they were. *)
Definition elsewhere (ih : bytes) (d d' : Dir) : Prop :=
  forall name, name <> torrent_path ih -> name <> sidecar_path ih -> d' !! name = d !! name.

Lemma restored_elsewhere ih d d' x : length ih = 20%nat -> length x = 20%nat -> elsewhere ih d d' -> x <> ih ->
  restored d' x = restored d x /\ d' !! torrent_path x = d !! torrent_path x.
Proof.
  intros Hl Hx He Hne. assert (H1 : d' !! torrent_path x = d !! torrent_path x).
  { apply He; [|apply paths_differ]. intros E. by apply Hne, torrent_path_inj. }
  assert (H2 : d' !! sidecar_path x = d !! sidecar_path x).
  { apply He; [intros E; by apply (paths_differ ih x)|]. intros E. apply Hne, hex20_inj; try done. by apply (List.app_inv_tail (bs ".json")). }
  split; [|done]. unfold restored, read_file. by rewrite H1, H2.
Qed.

Lemma stores_update s d d' ih o : length ih = 20%nat -> stores s d -> elsewhere ih d d' ->
  (o = None -> d' !! torrent_path ih = None) ->
  (forall p, o = Some (Saved p) -> is_Some (d' !! torrent_path ih) /\ restored d' ih = Some p) ->
  stores (partial_alter (fun _ => o) ih s) d'.
Proof.
  intros Hl (S1 & S2 & S3) He Hnone Hsaved. split_and!.
  - intros name Hn Hx. destruct (decide (name = torrent_path ih)) as [->|Hne].
    + exists ih. split; [done|]. rewrite lookup_partial_alter_eq. destruct o; [done|]. rewrite Hnone in Hn by done. by destruct Hn.
    + assert (name <> sidecar_path ih) by (intros ->; by apply (side_ext ih Hl)). rewrite He in Hn by done.
      destruct (S1 name Hn Hx) as (x & -> & Hs). exists x. split; [done|]. by rewrite lookup_partial_alter_ne by congruence.
  - intros x. destruct (decide (x = ih)) as [->|]; [done|]. rewrite lookup_partial_alter_ne by done. apply S2.
  - intros x p. destruct (decide (x = ih)) as [->|]; [rewrite lookup_partial_alter_eq; intros ->; by apply Hsaved|]. rewrite lookup_partial_alter_ne by done.
    intros Hs. assert (Hx : length x = 20%nat) by (apply S2; by rewrite Hs). destruct (restored_elsewhere ih d d' x Hl Hx He) as [-> ->]; [done|]. by apply S3.
Qed.

Lemma save_files o1 o2 ih raw out dht d : length ih = 20%nat ->
  elsewhere ih d (save o1 o2 ih raw out dht d).1 /\
  (o1 = WroteNone -> (save o1 o2 ih raw out dht d).1 = d) /\
  (o1 <> WroteNone -> is_Some ((save o1 o2 ih raw out dht d).1 !! torrent_path ih)) /\
  (o1 = WroteAll -> o2 = WroteAll -> is_Some (to_vec (mkSidecar out dht)) -> restored (save o1 o2 ih raw out dht d).1 ih = Some (mkPersisted raw out dht)).
Proof.
  intros Hl. assert (Hp : torrent_path ih <> sidecar_path ih) by apply paths_differ. unfold save, mbind, M_bind, write_private_file, lift, elsewhere.
  destruct (to_vec (mkSidecar out dht)) as [json|] eqn:Ej; destruct o1, o2; cbn [fst]; split_and!; try done;
    try (intros name H1 H2; by rewrite ?lookup_insert_ne by done);
    try (intros _; rewrite ?lookup_insert_ne, ?lookup_insert_eq by done; done);
    try (intros _ _ Hs; by destruct Hs). intros _ _ _.
  unfold restored. rewrite !read_insert. rewrite (decide_False (P := sidecar_path ih = torrent_path ih)) by congruence.
  rewrite !decide_True by done. cbn [mbind option_bind].
  by rewrite (json_roundtrip _ _ Ej).
Qed.

Lemma stores_op op s d : length (op_hash op) = 20%nat -> stores s d -> stores (spec_op op s) (apply_op op d).
Proof.
  intros Hl HS. destruct op as [o1 o2 ih raw out dht|r1 r2 ih]; cbn [op_hash apply_op] in *.
  - destruct (save_files o1 o2 ih raw out dht d Hl) as (He & H0 & H1 & H2). set (d' := (save o1 o2 ih raw out dht d).1) in *.
    assert (Ht : o1 <> WroteNone -> stores (<[ih := Torn]> s) d').
    { intros Ho. apply (stores_update s d d' ih (Some Torn)); done. }
    destruct o1 as [|n|]; cbn [spec_op]; [|by apply Ht|by rewrite H0].
    destruct o2; try by apply Ht. destruct (to_vec _); [|by apply Ht].
    apply (stores_update s d d' ih (Some (Saved _))); try done. intros p [= <-]. split; [by apply H1|by apply H2].
  - assert (He : elsewhere ih d (forget r1 r2 ih d)).
    { intros name H1 H2. unfold forget, remove_file. destruct r1, r2; by rewrite ?lookup_delete_ne by done. }
    destruct r1; cbn [spec_op].
    + apply (stores_update s d _ ih None); try done. intros _. unfold forget, remove_file. pose proof (paths_differ ih ih). destruct r2; rewrite ?lookup_delete_ne, ?lookup_delete_eq by done; done.
    + destruct r2; [|done]. destruct (s !! ih) eqn:E; [by apply (stores_update s d _ ih (Some Torn))|].
      assert (Es : partial_alter (fun _ => None) ih s = s) by (transitivity (partial_alter (fun _ => s !! ih) ih s); [by rewrite E|apply partial_alter_self]).
      rewrite <- Es. apply (stores_update s d _ ih None); try done. intros _. destruct HS as (S1 & S2 & _). unfold forget, remove_file.
      rewrite lookup_delete_ne by (intros E'; by apply (paths_differ ih ih)).
      destruct (d !! torrent_path ih) eqn:Ed; [|done]. destruct (S1 (torrent_path ih)) as (x & Ex & Hx); [done|by apply torrent_name|].
      apply torrent_path_inj in Ex as <-; [|done|by apply S2]. rewrite E in Hx. by destruct Hx.
Qed.

(** Reading the directory back. *)
Lemma load_entries_eq d names : (forall n, n ∈ names -> exists o, load_entry d n = Ok o) ->
  load_entries d names = Ok (omap (fun n => match load_entry d n with Ok o => o | _ => None end) names).
Proof.
  induction names as [|n names IH]; intros Hn; [done|]. cbn [load_entries omap list_omap]. destruct (Hn n) as [o ->]; [by left|].
  rewrite IH by (intros; apply Hn; by right). cbn [mbind result_bind]. by destruct o.
Qed.

Lemma omap_filter_bool {A B} (f : A -> option B) (p : A -> bool) l : (forall x, x ∈ l -> p x = false -> f x = None) -> omap f (List.filter p l) = omap f l.
Proof.
  induction l as [|x l IH]; intros Hp; [done|]. cbn [List.filter omap list_omap]. destruct (p x) eqn:E; cbn [omap list_omap].
  - rewrite IH; [done|]. intros y Hy. apply Hp. by right.
  - rewrite (Hp x) by (done || by left). apply IH. intros y Hy. apply Hp. by right.
Qed.

Lemma omap_compose {A B C} (f : B -> option C) (g : A -> B) (l : list A) : omap f (g <$> l) = omap (fun x => f (g x)) l.
Proof. induction l as [|x l IH]; [done|]. cbn. by rewrite IH. Qed.

Lemma elem_of_keys {A} (m : gmap bytes A) x : x ∈ (map_to_list m).*1 <-> is_Some (m !! x).
Proof.
  rewrite list_elem_of_fmap. split.
  - intros ([k v] & -> & H1). apply elem_of_map_to_list in H1. by eexists.
  - intros [v Hv]. exists (x, v). split; [done|]. by apply elem_of_map_to_list.
Qed.

Lemma omap_ext_in {A B} (f g : A -> option B) (l : list A) : (forall x, x ∈ l -> f x = g x) -> omap f l = omap g l.
Proof.
  induction l as [|x l IH]; intros Hx; [done|]. cbn. rewrite (Hx x) by left. rewrite IH; [done|]. intros y Hy. apply Hx. by right.
Qed.

Lemma load_all_stores s d listing : stores s d -> listing ≡ₚ (map_to_list d).*1 ->
  exists l, load_all (Some listing) d = Ok l /\ l ≡ₚ omap (restored d) (map_to_list s).*1.
Proof.
  intros (S1 & S2 & S3) Hp. cbn [load_all].
  assert (Hmem : forall n, n ∈ listing -> is_Some (d !! n)).
  { intros n Hn. rewrite Hp in Hn. apply list_elem_of_fmap in Hn as ([n' x] & -> & Hn). apply elem_of_map_to_list in Hn. by eexists. }
  rewrite load_entries_eq; cycle 1.
  { intros n Hn. destruct (decide (extension n = Some (bs "torrent"))) as [He|]; [|eexists; by apply load_entry_other].
    destruct (S1 n (Hmem n Hn) He) as (ih & -> & Hs). eexists. apply load_entry_hash. by apply S2. }
  eexists. split; [reflexivity|].
  set (p := fun n : bytes => bool_decide (extension n = Some (bs "torrent"))).
  set (q := fun ih : bytes => bool_decide (is_Some (d !! torrent_path ih))).
  rewrite <- (omap_filter_bool _ p); cycle 1.
  { intros n _ Hpn. apply bool_decide_eq_false in Hpn. by rewrite load_entry_other. }
  rewrite <- (omap_filter_bool _ q (map_to_list s).*1); cycle 1.
  { intros ih _ Hq. apply bool_decide_eq_false in Hq. unfold restored, read_file. destruct (d !! torrent_path ih); [by destruct Hq|done]. }
  assert (Hq : forall ih, ih ∈ List.filter q (map_to_list s).*1 <-> is_Some (s !! ih) /\ is_Some (d !! torrent_path ih)).
  { intros ih. rewrite list_elem_of_In, filter_In, <- list_elem_of_In, elem_of_keys. unfold q. by rewrite bool_decide_eq_true. }
  assert (E : List.filter p listing ≡ₚ torrent_path <$> List.filter q (map_to_list s).*1).
  { apply NoDup_Permutation.
    - apply NoDup_ListNoDup, List.NoDup_filter, NoDup_ListNoDup. rewrite Hp. apply NoDup_fst_map_to_list.
    - apply NoDup_fmap_2_strong; [|apply NoDup_ListNoDup, List.NoDup_filter, NoDup_ListNoDup, NoDup_fst_map_to_list].
      intros x y Hx%Hq Hy%Hq. apply torrent_path_inj; apply S2; tauto.
    - intros n. rewrite list_elem_of_In, filter_In, <- list_elem_of_In, list_elem_of_fmap. unfold p. rewrite bool_decide_eq_true. split.
      + intros [Hn He]. destruct (S1 n (Hmem n Hn) He) as (ih & -> & Hs). exists ih. split; [done|]. apply Hq. split; [done|by apply Hmem].
      + intros (ih & -> & [Hs Hd]%Hq). split; [rewrite Hp; by apply elem_of_keys|]. by apply torrent_name, S2. }
  rewrite E, omap_compose. erewrite omap_ext_in; [reflexivity|]. intros ih [Hs _]%Hq. by rewrite load_entry_hash by (by apply S2).
Qed.

(** A directory with no torrent file in it, whatever else it holds. *)
Definition fresh_dir (d : Dir) : Prop := forall name, is_Some (d !! name) -> extension name <> Some (bs "torrent").

Lemma stores_run ops s d : stores s d -> Forall (fun op => length (op_hash op) = 20%nat) ops ->
  stores (fold_left (fun s op => spec_op op s) ops s) (fold_left (fun d op => apply_op op d) ops d).
Proof.
  revert s d. induction ops as [|op ops IH]; intros s d HS Ho; [done|]. apply list.Forall_cons in Ho as [H1 H2]. cbn [fold_left].
  apply IH; [|done]. by apply stores_op.
Qed.

Lemma stores_fresh d : fresh_dir d -> stores ∅ d.
Proof.
  intros Hf. split_and!.
  - intros name Hn He. by destruct (Hf name Hn).
  - intros ih [x Hx]. by rewrite lookup_empty in Hx.
  - intros ih p Hx. by rewrite lookup_empty in Hx.
Qed.

(** The state directory remembers the hosted set.  After any sequence of
    saves and removals, each of which may fail at any point, loading the
    directory in whatever order it is listed succeeds and gives exactly the
    torrents whose last save succeeded and that were not removed since, with
    the bytes, the output directory and the DHT choice of that save; only a
    torrent whose own last operation failed half way may be missing or
    outdated. *)
Lemma store_refines ops d0 listing : fresh_dir d0 -> Forall (fun op => length (op_hash op) = 20%nat) ops ->
  let d := fold_left (fun d op => apply_op op d) ops d0 in
  let s := fold_left (fun s op => spec_op op s) ops ∅ in
  listing ≡ₚ (map_to_list d).*1 ->
  exists l torn, load_all (Some listing) d = Ok l /\
    l ≡ₚ omap (fun '(ih, slot) => match slot with Saved p => Some p | Torn => torn ih end) (map_to_list s).
Proof.
  intros Hf Ho d s Hl. assert (HS : stores s d) by (apply stores_run; [by apply stores_fresh|done]).
  destruct (load_all_stores s d listing HS Hl) as (l & El & Hp). exists l, (restored d). split; [done|]. rewrite Hp, omap_compose.
  erewrite omap_ext_in; [reflexivity|]. intros [ih [p|]] Hx; [|done]. apply elem_of_map_to_list in Hx. cbn [fst]. by apply HS.
Qed.
End Meaning.

(** ** An encoding, and a history *)

(** The choice in the first byte, the path after it. *)
#[local] Instance plain_json : SerdeJson.
Proof.
  refine {| to_vec s := if utf8_valid (sc_output s) then Some ((if sc_enable_dht s then "1" else "0")%byte :: sc_output s) else None;
            from_slice b := match b with c :: out => if Byte.eqb c "1" then Some (mkSidecar out true) else if Byte.eqb c "0" then Some (mkSidecar out false) else None | [] => None end |}.
  intros [out dht] b. cbn. destruct (utf8_valid out); [|done]. intros [= <-]. by destruct dht.
Defined.

Definition ih_a : bytes := replicate 20 x01.
Definition ih_b : bytes := replicate 20 x02.
Definition history_ex : list StoreOp :=
  [Save WroteAll WroteAll ih_a (bs "de") (bs "/srv") true; Save WroteAll WroteAll ih_b (bs "d1:ai0ee") (bs "/tmp") false;
   Save WroteAll WroteAll ih_a (bs "de") (bs "/srv/a") false; Forget true true ih_b].

Lemma store_refines_witness : exists l,
  load_all (Some [torrent_path ih_a; sidecar_path ih_a]) (fold_left (fun d op => apply_op op d) history_ex ∅) = Ok l /\
  l ≡ₚ [mkPersisted (bs "de") (bs "/srv/a") false].
Proof.
  destruct (store_refines history_ex ∅ [torrent_path ih_a; sidecar_path ih_a]) as (l & torn & H1 & H2).
  - intros name [x Hx]. by rewrite lookup_empty in Hx.
  - repeat constructor.
  - apply (bool_decide_unpack _). by vm_compute.
  - exists l. split; [exact H1|exact H2].
Defined.

(** ** Behaviour worth knowing *)

(** A stray file whose forty-byte name has a two-byte character across a digit pair stops the whole load. *)
Lemma stray_name_stops_load :
  let name := bs "a" ++ [xc3; xa9] ++ replicate 37 "0"%byte ++ bs ".torrent" in
  load_all (Some [name; torrent_path ih_a; sidecar_path ih_a])
    (<[name := File []]> (fold_left (fun d op => apply_op op d) history_ex ∅)) = Panic.
Proof. vm_compute. reflexivity. Qed.
