(* ===== verification/Session.v ===== *)
(** * Hosted sessions: [src/src/session.rs], and starting a daemon ([src/src/main.rs])

    The manager keeps the sessions it hosts, and in the daemon shares with them one
    registry of inbound channels, one DHT, one port and one state directory.  A
    session holds the engine it was started with, the channel its inbound
    connections come by, the commands sent to it and whether its engine still runs.
    Channels are numbered in the order they are made. *)

From Stdlib Require Import ZArith Lia String Strings.Byte.
From stdpp Require Import base tactics numbers list option gmap fin_maps fin_map_dom.
From S2P Require Import Prelude Bencode Net Paths Text Torrent Pieces Storage Cache Engine DaemonStore.

#[local] Set Warnings "-register-all".

Section Sessions.
Context {C : Type} `{Lru C} `{SerdeJson}.

(** ** State *)

Record Session := mkSession {
  ss_engine : TorrentEngine C;
  ss_stats : EngineStats;
  ss_inbound : option nat;
  ss_dht : bool;
  ss_capped : bool;
  ss_ctl : list EngineControl;
  ss_running : bool;
}.

Record Shared := mkShared {
  registry : gmap bytes nat;
  sh_dht : bool;
  sh_port : Z;
  sh_accepting : bool;
  sh_store : option Dir;
}.

(** [channels] counts the inbound channels made so far; [retired] are the sessions let go, as they were left. *)
Record SessionManager := mkManager { inner : gmap bytes Session; shared : option Shared; channels : nat; retired : list (bytes * Session) }.

Definition on_inner (f : gmap bytes Session -> gmap bytes Session) : M SessionManager unit :=
  modify (fun m => mkManager (f (inner m)) (shared m) (channels m) (retired m)).

Definition on_shared (f : Shared -> Shared) : M SessionManager unit :=
  modify (fun m => mkManager (inner m) (f <$> shared m) (channels m) (retired m)).

Definition with_registry (r : gmap bytes nat) (s : Shared) : Shared := mkShared r (sh_dht s) (sh_port s) (sh_accepting s) (sh_store s).
Definition with_store (d : Dir) (s : Shared) : Shared := mkShared (registry s) (sh_dht s) (sh_port s) (sh_accepting s) (Some d).

Definition new_manager : SessionManager := mkManager ∅ None 0 [].

Definition with_shared (dht : bool) (port : Z) (store : option Dir) : SessionManager :=
  mkManager ∅ (Some (mkShared ∅ dht port true store)) 0 [].

(** ** Operations *)

Definition placeholder (name info_hash : bytes) (total_bytes : Z) (total_pieces : nat) : EngineStats :=
  mkStats name info_hash 0 total_pieces 0 0 total_bytes 0 0 0 0 false false total_bytes [] [].

(** The settings the manager forces on a session of the daemon: its port, and no DHT of its own. *)
Definition shared_config (s : Shared) (c : EngineConfig) : EngineConfig :=
  mkConfig (output_dir c) (sh_port s) (cfg_max_peers c) (progress_every c) (reannounce_min c) (seed_peers c) (no_tracker c)
    (cfg_force_outgoing_mse c) (enable_dht c && sh_dht s) (dht_bootstrap c) (cfg_proxies c) (cfg_bind_iface c) (cfg_anonymous c)
    (paranoid c) (sandbox c) (memory_only c) (passphrase c) (spool_path c) (max_down_bytes_per_sec c) (max_up_bytes_per_sec c)
    (utp_enabled c) (web_port c) (selected_files c) (cfg_sequential c).

(** The wiring of a session in the daemon: its configuration, its channel in the registry, and whether it
    gets the shared DHT. *)
Definition wire (info_hash : bytes) (c : EngineConfig) : M SessionManager (EngineConfig * option nat * bool) := fun m =>
  match shared m with
  | Some s =>
      let ch := channels m in
      (mkManager (inner m) (Some (with_registry (<[info_hash := ch]> (registry s)) s)) (S ch) (retired m),
       Ok (shared_config s c, Some ch, enable_dht c && sh_dht s))
  | None => (m, Ok (c, None, false))
  end.

Definition add (now : Z) (t : TorrentFile) (peer_id : bytes) (c : EngineConfig) : M SessionManager (option bytes) :=
  let info_hash := Torrent.info_hash t in
  map ← gets inner;
  if bool_decide (is_Some (map !! info_hash)) then mret None
  else
    total ← lift (Torrent.total_length t);
    let initial := placeholder (name (info t)) (hex info_hash) total (Torrent.num_pieces t) in
    '(c, inbound, dht) ← wire info_hash c;
    engine ← lift (engine_new now t peer_id c);
    capped ← gets (fun m => bool_decide (is_Some (shared m)));
    _ ← on_inner (<[info_hash := mkSession engine initial inbound dht capped [] true]>);
    mret (Some info_hash).

(** The part of [add_persistent] after [add]; a failure is only logged. *)
Definition persist (o1 o2 : Wrote) (ih raw output : bytes) (dht : bool) : M SessionManager unit := fun m =>
  match (s ← shared m; sh_store s) with
  | Some d => on_shared (with_store (save o1 o2 ih raw output dht d).1) m
  | None => (m, Ok tt)
  end.

Definition add_persistent (o1 o2 : Wrote) (now : Z) (t : TorrentFile) (peer_id : bytes) (c : EngineConfig) (raw : bytes) : M SessionManager (option bytes) :=
  ih ← add now t peer_id c;
  match ih with
  | None => mret None
  | Some ih => _ ← persist o1 o2 ih raw (output_dir c) (enable_dht c); mret (Some ih)
  end.

Definition unregister (info_hash : bytes) : M SessionManager unit :=
  on_shared (fun s => with_registry (delete info_hash (registry s)) s).

Definition snapshot (m : SessionManager) : list EngineStats := ss_stats <$> (map_to_list (inner m)).*2.

Definition len (m : SessionManager) : nat := size (inner m).

Definition contains (info_hash : bytes) (m : SessionManager) : bool := bool_decide (is_Some (inner m !! info_hash)).

Definition is_empty (m : SessionManager) : bool := (size (inner m) =? 0)%nat.

(** [ctl_tx.send(cmd)]: taken while the engine runs.  The channel is bounded and the send waits for room; here the
    wait is over at once, so the list may be longer than the channel, and its order is that of the sends. *)
Definition send_ctl (cmd : EngineControl) (s : Session) : Session * bool :=
  (if ss_running s then mkSession (ss_engine s) (ss_stats s) (ss_inbound s) (ss_dht s) (ss_capped s) (ss_ctl s ++ [cmd]) true else s, ss_running s).

Definition control (info_hash : bytes) (cmd : EngineControl) : M SessionManager bool :=
  map ← gets inner;
  match map !! info_hash with
  | Some s => let '(s, ok) := send_ctl cmd s in _ ← on_inner (<[info_hash := s]>); mret ok
  | None => mret false
  end.

(** The first half of [remove], under the lock. *)
Definition remove_take (info_hash : bytes) : M SessionManager (option Session) :=
  map ← gets inner;
  _ ← on_inner (delete info_hash);
  mret (map !! info_hash).

(** [s.ctl_tx.send(Shutdown)] to a session that is let go. *)
Definition retire (info_hash : bytes) (s : Session) : M SessionManager unit :=
  modify (fun m => mkManager (inner m) (shared m) (channels m) (retired m ++ [(info_hash, (send_ctl ShutdownSession s).1)])).

(** The second half, after the lock is released: routing, persistence, and the engine, which is told to stop
    and aborted ten seconds later. *)
Definition remove_finish (r1 r2 : bool) (info_hash : bytes) (s : Session) : M SessionManager unit :=
  _ ← unregister info_hash;
  _ ← modify (fun m => match (s ← shared m; sh_store s) with
    | Some d => mkManager (inner m) (with_store (forget r1 r2 info_hash d) <$> shared m) (channels m) (retired m)
    | None => m
    end);
  retire info_hash s.

Definition remove (r1 r2 : bool) (info_hash : bytes) : M SessionManager bool :=
  s ← remove_take info_hash;
  match s with
  | Some s => _ ← remove_finish r1 r2 info_hash s; mret true
  | None => mret false
  end.

Fixpoint each (f : bytes * Session -> M SessionManager unit) (l : list (bytes * Session)) : M SessionManager unit :=
  match l with
  | [] => mret tt
  | x :: l => _ ← f x; each f l
  end.

(** Every session is drained and told to stop, then unregistered and joined or aborted; then the acceptor stops
    and the DHT closes.  The state directory stays. *)
Definition shutdown_all : M SessionManager unit :=
  map ← gets inner;
  _ ← on_inner (fun _ => ∅);
  _ ← each (fun x => retire x.1 x.2) (map_to_list map);
  _ ← each (fun x => unregister x.1) (map_to_list map);
  on_shared (fun s => mkShared (registry s) false (sh_port s) false (sh_store s)).

(** An engine that ends by itself: nothing tells the manager. *)
Definition engine_ends (info_hash : bytes) : M SessionManager unit :=
  on_inner (alter (fun s => mkSession (ss_engine s) (ss_stats s) (ss_inbound s) (ss_dht s) (ss_capped s) (ss_ctl s) false) info_hash).

(** ** The daemon command *)

Definition daemon_config (output : bytes) (port : Z) (dht sandbox : bool) : EngineConfig :=
  let c := default_config in
  mkConfig output port (cfg_max_peers c) (progress_every c) (reannounce_min c) (seed_peers c) (no_tracker c)
    (cfg_force_outgoing_mse c) dht (dht_bootstrap c) (cfg_proxies c) (cfg_bind_iface c) (cfg_anonymous c)
    (paranoid c) sandbox (memory_only c) (passphrase c) (spool_path c) (max_down_bytes_per_sec c) (max_up_bytes_per_sec c)
    (utp_enabled c) (web_port c) (selected_files c) (cfg_sequential c).

Record DaemonArgs := mkArgs { da_output : bytes; da_port : Z; da_no_dht : bool; da_sandbox : bool; da_peer_id : bytes }.

Section Daemon.
Context (sha1 : bytes -> bytes).

(** One entry of the restored set: what does not parse is skipped. *)
Definition restore_one (now : Z) (a : DaemonArgs) (entry : PersistedTorrent) : M SessionManager unit :=
  match Torrent.from_bytes sha1 (torrent_bytes entry) with
  | Ok t =>
      _ ← add now t (da_peer_id a) (daemon_config (pt_output entry) (da_port a) (pt_enable_dht entry && negb (da_no_dht a)) (da_sandbox a));
      mret tt
  | Err _ => mret tt
  | Panic => lift Panic
  | NoFuel => lift NoFuel
  end.

(** One torrent of the command line: [None] when its file cannot be read. *)
Definition host_one (o1 o2 : Wrote) (now : Z) (a : DaemonArgs) (raw : option bytes) : M SessionManager unit :=
  match raw with
  | None => mret tt
  | Some raw =>
      match Torrent.from_bytes sha1 raw with
      | Ok t =>
          _ ← add_persistent o1 o2 now t (da_peer_id a) (daemon_config (da_output a) (da_port a) (negb (da_no_dht a)) (da_sandbox a)) raw;
          mret tt
      | Err _ => mret tt
      | Panic => lift Panic
      | NoFuel => lift NoFuel
      end
  end.

Fixpoint for_each {A} (f : A -> M SessionManager unit) (l : list A) : M SessionManager unit :=
  match l with
  | [] => mret tt
  | x :: l => _ ← f x; for_each f l
  end.

(** [cmd_daemon] up to serving: [port] is the bound port, [dht_up] whether the shared DHT started, [store] the
    state directory if it could be opened, listed as [listing]; the command line's torrents come after the
    restored ones. *)
Definition start_daemon (now : Z) (a : DaemonArgs) (dht_up : bool) (store : option Dir) (listing : option (list bytes))
    (torrents : list (option bytes * (Wrote * Wrote))) : result (SessionManager) :=
  restored ← match store with Some d => load_all listing d | None => Ok [] end;
  match (_ ← for_each (restore_one now a) restored; for_each (fun x => host_one x.2.1 x.2.2 now a x.1) torrents)
          (with_shared (negb (da_no_dht a) && dht_up) (da_port a) store) with
  | (m, Ok _) => Ok m
  | (_, Err e) => Err e
  | (_, Panic) => Panic
  | (_, NoFuel) => NoFuel
  end.
End Daemon.
End Sessions.
Arguments Session C : clear implicits.
Arguments SessionManager C : clear implicits.

(** ** Histories *)

Inductive Op :=
  | Add (now : Z) (t : TorrentFile) (peer_id : bytes) (c : EngineConfig)
  | AddPersistent (o1 o2 : Wrote) (now : Z) (t : TorrentFile) (peer_id : bytes) (c : EngineConfig) (raw : bytes)
  | Remove (r1 r2 : bool) (info_hash : bytes)
  | Ctl (info_hash : bytes) (cmd : EngineControl)
  | Ends (info_hash : bytes)
  | ShutdownAll.

(** A torrent as validation leaves it. *)
Definition valid (t : TorrentFile) : Prop := length (Torrent.info_hash t) = 20%nat /\ exists total, info_ok (info t) total.

Definition op_valid (op : Op) : Prop :=
  match op with Add _ t _ _ | AddPersistent _ _ _ t _ _ _ => valid t | Remove _ _ ih => length ih = 20%nat | _ => True end.

(** Running a step that succeeds. *)
Lemma surjective_Ok {S A} (p : S * result A) a : p.2 = Ok a -> p = (p.1, Ok a).
Proof. destruct p. cbn. by intros ->. Qed.

Section Reachable.
Context {C : Type} `{Lru C} `{SerdeJson}.

Definition run_op (op : Op) : M (SessionManager C) unit :=
  match op with
  | Add now t pid c => _ ← add now t pid c; mret tt
  | AddPersistent o1 o2 now t pid c raw => _ ← add_persistent o1 o2 now t pid c raw; mret tt
  | Remove r1 r2 ih => _ ← remove r1 r2 ih; mret tt
  | Ctl ih cmd => _ ← control ih cmd; mret tt
  | Ends ih => engine_ends ih
  | ShutdownAll => shutdown_all
  end.

Fixpoint run_ops (ops : list Op) : M (SessionManager C) unit :=
  match ops with
  | [] => mret tt
  | op :: ops => _ ← run_op op; run_ops ops
  end.

(** A hosted session belongs to its key and is wired as the manager's mode says. *)
Definition session_ok (sh : option Shared) (next : nat) (ih : bytes) (x : Session C) : Prop :=
  Torrent.info_hash (torrent (ss_engine x)) = ih /\
  match sh with
  | Some s => listen_port (cfg (ss_engine x)) = sh_port s /\ enable_dht (cfg (ss_engine x)) = ss_dht x /\ (ss_dht x = true -> sh_dht s = true) /\
      ss_capped x = true /\ exists ch, ss_inbound x = Some ch /\ (ch < next)%nat
  | None => ss_inbound x = None /\ ss_dht x = false
  end.

(** The registry routes each hosted torrent to its session's channel and nothing else; no two sessions share one. *)
Definition hosts_ok (m : SessionManager C) : Prop :=
  (forall ih x, inner m !! ih = Some x -> session_ok (shared m) (channels m) ih x) /\
  (forall s, shared m = Some s -> forall ih ch, registry s !! ih = Some ch <-> exists x, inner m !! ih = Some x /\ ss_inbound x = Some ch) /\
  (forall ih ih' x x' ch, inner m !! ih = Some x -> inner m !! ih' = Some x' -> ss_inbound x = Some ch -> ss_inbound x' = Some ch -> ih = ih').

Lemma engine_new_valid now t pid c : valid t -> exists e : TorrentEngine C, engine_new now t pid c = Ok e /\ torrent e = t /\ cfg e = c /\ peer_id e = pid.
Proof.
  intros (_ & total & (_ & Hp & _ & _ & Htot & Ht & Hc)). unfold engine_new, Torrent.total_length. rewrite Htot. cbn [mbind result_bind].
  destruct (new_eq (Torrent.piece_length (info t)) total (length (piece_hashes (info t)))) as (p & Ep & _).
  { assert (1 <= div_ceil total (Torrent.piece_length (info t)) <= total) by (by apply div_ceil_bounds).
    unfold geom_ok. rewrite !andb_true_iff, !Z.ltb_lt, !Z.leb_le, Nat.ltb_lt. change MAX_PIECE_LENGTH with 1073741824 in Hp. lia. }
  rewrite Ep. cbn [mbind result_bind]. eexists. by split_and!.
Qed.

(** What adding a torrent does: nothing when it is hosted, else one new session wired as the mode says. *)
Lemma add_eq now t pid c m : valid t ->
  (is_Some (inner m !! Torrent.info_hash t) /\ add now t pid c m = (m, Ok None)) \/
  inner m !! Torrent.info_hash t = None /\ exists e st,
    torrent e = t /\ peer_id e = pid /\ cfg e = match shared m with Some s => shared_config s c | None => c end /\
    let x := match shared m with
      | Some s => mkSession e st (Some (channels m)) (enable_dht c && sh_dht s) true [] true
      | None => mkSession e st None false false [] true
      end in
    add now t pid c m =
    (mkManager (<[Torrent.info_hash t := x]> (inner m))
       ((fun s => with_registry (<[Torrent.info_hash t := channels m]> (registry s)) s) <$> shared m)
       (match shared m with Some _ => S (channels m) | None => channels m end) (retired m), Ok (Some (Torrent.info_hash t))).
Proof.
  intros Hv. unfold add. rewrite bind_gets. destruct (inner m !! Torrent.info_hash t) as [x|] eqn:Ex.
  { left. split; [done|]. by rewrite bool_decide_true. }
  right. split; [done|]. rewrite bool_decide_false by (by intros [? ?]). pose proof Hv as (_ & total & (_ & _ & _ & _ & Htot & _)).
  unfold Torrent.total_length at 1. rewrite Htot, bind_lift. unfold wire.
  destruct (engine_new_valid now t pid (match shared m with Some s => shared_config s c | None => c end) Hv) as (e & Ee & Et & Ec & Ep).
  exists e, (placeholder (name (info t)) (hex (Torrent.info_hash t)) total (Torrent.num_pieces t)). split_and!; try done.
  unfold mbind, M_bind. destruct (shared m) as [s|] eqn:Es; cbn; rewrite Ee; cbn; by rewrite ?Es.
Qed.

Lemma add_hosts now t pid c m : valid t -> hosts_ok m -> hosts_ok (add now t pid c m).1 /\ exists a, (add now t pid c m).2 = Ok a.
Proof.
  intros Hv (H1 & H2 & H3). destruct (add_eq now t pid c m Hv) as [[_ ->]|(Hn & e & st & Et & Ep & Ec & E)]; [split; [done|eexists; reflexivity]|]. rewrite E. split; [|eexists; reflexivity].
  set (ih := Torrent.info_hash t) in *. cbn [fst]. unfold hosts_ok. cbn [inner shared channels]. split_and!.
  - intros k x. destruct (decide (k = ih)) as [->|].
    + rewrite lookup_insert_eq. intros [= <-]. unfold session_ok. destruct (shared m) as [s|]; cbn; rewrite ?Et, ?Ec; [|done].
      split_and!; try done; [by intros [_ ?]%andb_true_iff|]. eexists. split; [done|lia].
    + rewrite lookup_insert_ne by done. intros Hx. specialize (H1 k x Hx). unfold session_ok in *. destruct (shared m) as [s|]; [|done].
      cbn. destruct H1 as (? & ? & ? & ? & ? & ch & ? & ?). split_and!; try done. exists ch. split; [done|lia].
  - destruct (shared m) as [s|]; [|done]. intros s' [= <-] k ch. cbn [with_registry registry]. destruct (decide (k = ih)) as [->|].
    + rewrite !lookup_insert_eq. split; [intros [= <-]; by eexists|]. by intros (x & [= <-] & [= <-]).
    + rewrite !lookup_insert_ne by done. by apply H2.
  - intros k k' x x' ch. destruct (decide (k = ih)) as [->|], (decide (k' = ih)) as [->|]; rewrite ?lookup_insert_eq, ?lookup_insert_ne by done; try done.
    + intros [= <-] Hx'. destruct (shared m) as [s|] eqn:Es; [|done]. intros [= <-] Hc. destruct (H1 k' x' Hx') as (_ & _ & _ & _ & _ & ch' & Hc' & Hlt). rewrite Hc in Hc'. injection Hc' as <-. lia.
    + intros Hx [= <-] Hc. destruct (shared m) as [s|] eqn:Es; [|done]. intros [= <-]. destruct (H1 k x Hx) as (_ & _ & _ & _ & _ & ch' & Hc' & Hlt). rewrite Hc in Hc'. injection Hc' as <-. lia.
    + by apply H3.
Qed.

(** A change that lets sessions go, and unregisters exactly those. *)
Definition same_wiring (x x' : Session C) : Prop :=
  ss_engine x' = ss_engine x /\ ss_inbound x' = ss_inbound x /\ ss_dht x' = ss_dht x /\ ss_capped x' = ss_capped x.

Lemma hosts_change m m' : hosts_ok m -> channels m' = channels m ->
  (forall ih x', inner m' !! ih = Some x' -> exists x, inner m !! ih = Some x /\ same_wiring x x') ->
  match shared m, shared m' with
  | Some s, Some s' => sh_port s' = sh_port s /\ (sh_dht s' = sh_dht s \/ inner m' = ∅) /\
      forall ih, registry s' !! ih = if decide (is_Some (inner m' !! ih)) then registry s !! ih else None
  | None, None => True
  | _, _ => False
  end -> hosts_ok m'.
Proof.
  intros (H1 & H2 & H3) Hc Hi Hs. split_and!.
  - intros ih x' Hx'. destruct (Hi ih x' Hx') as (x & Hx & Ee & Ei & Ed & Ek). specialize (H1 ih x Hx). unfold session_ok in *. rewrite Ee, Ei, Ed, Ek, Hc.
    destruct (shared m) as [s|], (shared m') as [s'|]; try done. destruct Hs as (Hp & Hd & _). rewrite Hp.
    destruct H1 as (? & ? & ? & Hdht & ? & ?). split_and!; try done. intros Hb. destruct Hd as [->|E]; [by apply Hdht|]. by rewrite E, lookup_empty in Hx'.
  - intros s' Es' ih ch. rewrite Es' in Hs. destruct (shared m) as [s|]; [|done]. destruct Hs as (_ & _ & ->).
    destruct (decide (is_Some (inner m' !! ih))) as [[x' Hx']|Hno].
    + destruct (Hi ih x' Hx') as (x & Hx & _ & Ei & _). rewrite (H2 s eq_refl). rewrite Hx, Hx'. split; intros (? & [= <-] & E); eexists; (split; [done|congruence]).
    + split; [done|]. intros (x & Hx & _). by destruct Hno.
  - intros ih ih' x x' ch Hx Hx' Ex Ex'. destruct (Hi ih x Hx) as (y & Hy & _ & Ei & _), (Hi ih' x' Hx') as (y' & Hy' & _ & Ei' & _).
    apply (H3 ih ih' y y' ch); congruence.
Qed.

Lemma persist_hosts o1 o2 ih raw out dht m : hosts_ok m -> hosts_ok (persist o1 o2 ih raw out dht m).1 /\ exists a, (persist o1 o2 ih raw out dht m).2 = Ok a.
Proof.
  intros Hm. unfold persist. destruct (shared m) as [s|] eqn:Es; [|split; [done|eexists; reflexivity]]. cbn [mbind option_bind]. destruct (sh_store s) as [d|]; [|split; [done|eexists; reflexivity]]. split; [|eexists; reflexivity].
  apply (hosts_change m); try done; [by intros k x Hx; exists x|]. cbn. rewrite Es. cbn. split_and!; try done; [by left|].
  intros k. destruct (decide _) as [|Hno]; [done|]. destruct (registry s !! k) as [ch|] eqn:E; [|done]. destruct Hm as (_ & H2 & _).
  apply (H2 s Es) in E as (x & Hx & _). by destruct Hno.
Qed.

Lemma add_persistent_hosts o1 o2 now t pid c raw m : valid t -> hosts_ok m ->
  hosts_ok (add_persistent o1 o2 now t pid c raw m).1 /\ exists a, (add_persistent o1 o2 now t pid c raw m).2 = Ok a.
Proof.
  intros Hv Hm. destruct (add_hosts now t pid c m Hv Hm) as [G [a E]]. unfold add_persistent. rewrite (bind_step _ _ m _ a (surjective_Ok _ _ E)).
  destruct a as [ih|]; [|split; [done|eexists; reflexivity]]. destruct (persist_hosts o1 o2 ih raw (output_dir c) (enable_dht c) _ G) as [G' [a E']].
  rewrite (bind_step _ _ _ _ a (surjective_Ok _ _ E')). split; [done|eexists; reflexivity].
Qed.

(** Every registered torrent is hosted. *)
Lemma registered_hosted m s ih : hosts_ok m -> shared m = Some s -> inner m !! ih = None -> registry s !! ih = None.
Proof.
  intros (_ & H2 & _) Es Hn. destruct (registry s !! ih) as [ch|] eqn:E; [|done]. apply (H2 s Es) in E as (x & Hx & _). by rewrite Hn in Hx.
Qed.

Lemma control_hosts ih cmd m : hosts_ok m -> hosts_ok (control ih cmd m).1 /\ exists a, (control ih cmd m).2 = Ok a.
Proof.
  intros Hm. unfold control. rewrite bind_gets. destruct (inner m !! ih) as [x|] eqn:Ex; [|split; [done|eexists; reflexivity]]. split; [|eexists; reflexivity].
  unfold send_ctl, on_inner, modify, mbind, M_bind, mret, M_ret. cbn [fst]. apply (hosts_change m); try done; cbn [inner shared].
  - intros k x'. destruct (decide (k = ih)) as [->|]; [|rewrite lookup_insert_ne by done; by exists x'].
    rewrite lookup_insert_eq. intros [= <-]. exists x. split; [done|]. by destruct (ss_running x).
  - destruct (shared m) as [s|] eqn:Es; [|done]. split_and!; [done|by left|]. intros k. destruct (decide _) as [|Hno]; [done|].
    apply (registered_hosted m s k Hm Es). destruct (inner m !! k) eqn:E; [|done]. destruct Hno. destruct (decide (k = ih)) as [->|]; [by rewrite lookup_insert_eq|by rewrite lookup_insert_ne].
Qed.

Lemma ends_hosts ih m : hosts_ok m -> hosts_ok (engine_ends ih m).1 /\ exists a, (engine_ends ih m).2 = Ok a.
Proof.
  intros Hm. split; [|eexists; reflexivity]. unfold engine_ends, on_inner, modify. cbn [fst]. apply (hosts_change m); try done; cbn [inner shared].
  - intros k x' Hx'. apply lookup_alter_Some in Hx' as [(-> & x & Hx & ->)|[_ Hx]]; [exists x; by split|exists x'; by split].
  - destruct (shared m) as [s|] eqn:Es; [|done]. split_and!; [done|by left|]. intros k. destruct (decide _) as [|Hno]; [done|].
    apply (registered_hosted m s k Hm Es). destruct (inner m !! k) eqn:E; [|done]. destruct Hno. by apply lookup_alter_is_Some.
Qed.

Lemma finish_hosts r1 r2 ih x m0 m : hosts_ok m0 -> inner m = delete ih (inner m0) -> shared m = shared m0 -> channels m = channels m0 ->
  hosts_ok (remove_finish r1 r2 ih x m).1 /\ exists a, (remove_finish r1 r2 ih x m).2 = Ok a.
Proof.
  intros Hm Ei Es Ec. unfold remove_finish, unregister, retire, on_shared, modify, mbind, M_bind. cbn [fst snd shared]. split; [|eexists; reflexivity].
  assert (G : forall m', inner m' = delete ih (inner m0) -> channels m' = channels m0 ->
    match shared m0, shared m' with Some s, Some s' => sh_port s' = sh_port s /\ sh_dht s' = sh_dht s /\ registry s' = delete ih (registry s) | None, None => True | _, _ => False end -> hosts_ok m').
  { intros m' Ei' Ec' Es'. apply (hosts_change m0); try done.
    - intros k x'. rewrite Ei'. intros [_ Hx]%lookup_delete_Some. exists x'. by split.
    - destruct (shared m0) as [s|] eqn:E0, (shared m') as [s'|]; try done. destruct Es' as (? & ? & ->). split_and!; [done|by left|]. intros k. rewrite Ei'.
      destruct (decide (k = ih)) as [->|]; [rewrite !lookup_delete_eq; by destruct (decide _)|]. rewrite !lookup_delete_ne by done.
      destruct (decide _) as [|Hno]; [done|]. apply (registered_hosted m0 s k Hm E0). destruct (inner m0 !! k); [by destruct Hno|done]. }
  rewrite Es. destruct (shared m0) as [s|]; cbn [fmap option_fmap option_map mbind option_bind]; [|by apply G].
  destruct (sh_store _); by apply G.
Qed.

Lemma remove_hosts r1 r2 ih m : hosts_ok m -> hosts_ok (remove r1 r2 ih m).1 /\ exists a, (remove r1 r2 ih m).2 = Ok a.
Proof.
  intros Hm. unfold remove, remove_take, gets, mbind, M_bind, on_inner, modify, mret, M_ret. cbn [inner shared channels retired]. destruct (inner m !! ih) as [x|] eqn:Ex.
  - destruct (finish_hosts r1 r2 ih x m (mkManager (delete ih (inner m)) (shared m) (channels m) (retired m)) Hm) as [G1 [a G2]]; try done.
    destruct (remove_finish r1 r2 ih x _) as [m' r]. cbn [fst snd] in *. subst r. split; [done|eexists; reflexivity].
  - split; [|eexists; reflexivity]. cbn [fst]. apply (hosts_change m); try done; cbn [inner shared].
    + intros k x'. intros [_ Hx]%lookup_delete_Some. exists x'. by split.
    + destruct (shared m) as [s|] eqn:Es; [|done]. split_and!; [done|by left|]. intros k. destruct (decide _) as [|Hno]; [done|].
      apply (registered_hosted m s k Hm Es). destruct (decide (k = ih)) as [->|]; [done|]. rewrite lookup_delete_ne in Hno by done. destruct (inner m !! k); [by destruct Hno|done].
Qed.

(** Draining: the sessions are noted, their registrations dropped. *)
Lemma each_retire l : forall m, exists new, each (C := C) (fun x => retire x.1 x.2) l m = (mkManager (inner m) (shared m) (channels m) (retired m ++ new), Ok tt) /\
  new = (fun x => (x.1, (send_ctl ShutdownSession x.2).1)) <$> l.
Proof.
  induction l as [|x l IH]; intros m; [exists []; split; [|done]; cbn; by rewrite app_nil_r; destruct m|].
  cbn [each]. unfold mbind, M_bind, retire at 1, modify. destruct (IH (mkManager (inner m) (shared m) (channels m) (retired m ++ [(x.1, (send_ctl ShutdownSession x.2).1)]))) as (new & E & ->).
  eexists. split; [rewrite E; cbn [inner shared channels retired]; rewrite <- app_assoc; reflexivity|done].
Qed.

Lemma each_unregister l : forall m, exists sh, each (C := C) (fun x => unregister x.1) l m = (mkManager (inner m) sh (channels m) (retired m), Ok tt) /\
  match shared m, sh with
  | Some s, Some s' => sh_port s' = sh_port s /\ sh_dht s' = sh_dht s /\ sh_store s' = sh_store s /\ sh_accepting s' = sh_accepting s /\
      forall ih, registry s' !! ih = if decide (ih ∈ l.*1) then None else registry s !! ih
  | None, None => True
  | _, _ => False
  end.
Proof.
  induction l as [|x l IH]; intros m; [exists (shared m); split; [by destruct m|by destruct (shared m)]|].
  cbn [each]. unfold mbind, M_bind, unregister at 1, on_shared, modify.
  destruct (IH (mkManager (inner m) ((fun s => with_registry (delete x.1 (registry s)) s) <$> shared m) (channels m) (retired m))) as (sh & E & Hs). exists sh. split; [by rewrite E|].
  cbn [shared] in Hs. destruct (shared m) as [s|], sh as [s'|]; try done. cbn in Hs. destruct Hs as (? & ? & ? & ? & Hr). split_and!; try done. intros ih. rewrite Hr. cbn [fmap list_fmap].
  destruct (decide (ih ∈ l.*1)), (decide (ih ∈ x.1 :: l.*1)) as [He|Hn]; try done; try set_solver.
  - apply elem_of_cons in He as [->|]; [by rewrite lookup_delete_eq|done].
  - rewrite lookup_delete_ne; [done|]. set_solver.
Qed.

Lemma shutdown_eq m : hosts_ok m -> exists sh, shutdown_all (C := C) m =
  (mkManager ∅ sh (channels m) (retired m ++ ((fun x => (x.1, (send_ctl ShutdownSession x.2).1)) <$> map_to_list (inner m))), Ok tt) /\
  match shared m, sh with
  | Some s, Some s' => sh_port s' = sh_port s /\ registry s' = ∅ /\ sh_dht s' = false /\ sh_accepting s' = false /\ sh_store s' = sh_store s
  | None, None => True
  | _, _ => False
  end.
Proof.
  intros Hm. unfold shutdown_all. rewrite bind_gets. unfold on_inner, modify at 1. unfold mbind at 1, M_bind at 1.
  destruct (each_retire (map_to_list (inner m)) (mkManager ∅ (shared m) (channels m) (retired m))) as (new & E1 & ->).
  unfold mbind at 1, M_bind at 1. rewrite E1. cbn [inner shared channels retired].
  destruct (each_unregister (map_to_list (inner m)) (mkManager ∅ (shared m) (channels m) (retired m ++ ((fun x => (x.1, (send_ctl ShutdownSession x.2).1)) <$> map_to_list (inner m))))) as (sh & E2 & Hs).
  unfold mbind at 1, M_bind at 1. rewrite E2. unfold on_shared, modify. cbn [inner shared channels retired] in *. eexists. split; [reflexivity|].
  destruct (shared m) as [s|] eqn:Es, sh as [s'|]; try done. cbn. destruct Hs as (? & ? & ? & ? & Hr). split_and!; try done.
  apply map_eq. intros ih. rewrite Hr, lookup_empty. destruct (decide _) as [|Hno]; [done|]. apply (registered_hosted m s ih Hm Es).
  destruct (inner m !! ih) eqn:E; [|done]. destruct Hno. apply elem_of_keys. by rewrite E.
Qed.

Lemma shutdown_hosts m : hosts_ok m -> hosts_ok (shutdown_all m).1 /\ exists a, (shutdown_all m).2 = Ok a.
Proof.
  intros Hm. destruct (shutdown_eq m Hm) as (sh & E & Hs). rewrite E. split; [|eexists; reflexivity]. apply (hosts_change m); try done; cbn [inner shared fst].
  destruct (shared m), sh; try done. destruct Hs as (? & -> & _). split_and!; [done|by right|]. intros ih. rewrite !lookup_empty. by destruct (decide _).
Qed.

Lemma run_op_hosts op m : op_valid op -> hosts_ok m -> hosts_ok (run_op op m).1 /\ (run_op op m).2 = Ok tt.
Proof.
  intros Hv Hm. destruct op as [now t pid c|o1 o2 now t pid c raw|r1 r2 ih|ih cmd|ih|]; cbn [run_op op_valid] in *.
  - destruct (add_hosts now t pid c m Hv Hm) as [G [a E]]. by rewrite (bind_step _ _ m _ a (surjective_Ok _ _ E)).
  - destruct (add_persistent_hosts o1 o2 now t pid c raw m Hv Hm) as [G [a E]]. by rewrite (bind_step _ _ m _ a (surjective_Ok _ _ E)).
  - destruct (remove_hosts r1 r2 ih m Hm) as [G [a E]]. by rewrite (bind_step _ _ m _ a (surjective_Ok _ _ E)).
  - destruct (control_hosts ih cmd m Hm) as [G [a E]]. by rewrite (bind_step _ _ m _ a (surjective_Ok _ _ E)).
  - destruct (ends_hosts ih m Hm) as [G [[] E]]. done.
  - destruct (shutdown_hosts m Hm) as [G [[] E]]. done.
Qed.

(** A session that was let go while its engine ran has been told to stop. *)
Definition told_to_stop (x : bytes * Session C) : Prop := ss_running x.2 = true -> last (ss_ctl x.2) = Some ShutdownSession.

Lemma stopped ih x : told_to_stop (ih, (send_ctl ShutdownSession x).1).
Proof. unfold told_to_stop, send_ctl. cbn. destruct (ss_running x) eqn:E; cbn; [by rewrite last_snoc|by rewrite E]. Qed.

Lemma persist_keeps o1 o2 ih raw out dht (m : SessionManager C) : inner (persist o1 o2 ih raw out dht m).1 = inner m /\ retired (persist o1 o2 ih raw out dht m).1 = retired m.
Proof. unfold persist. destruct (shared m) as [s|]; [|done]. cbn [mbind option_bind]. by destruct (sh_store s). Qed.

Lemma run_op_retired op m : op_valid op -> hosts_ok m -> Forall told_to_stop (retired m) -> Forall told_to_stop (retired (run_op op m).1).
Proof.
  intros Hv Hm Hr. destruct op as [now t pid c|o1 o2 now t pid c raw|r1 r2 ih|ih cmd|ih|]; cbn [run_op op_valid] in *.
  - unfold mbind, M_bind. destruct (add_eq now t pid c m Hv) as [[_ ->]|(_ & e & st & _ & _ & _ & ->)]; done.
  - unfold add_persistent, mbind, M_bind. destruct (add_eq now t pid c m Hv) as [[_ ->]|(_ & e & st & _ & _ & _ & ->)]; [done|].
    match goal with |- context [persist ?a ?b ?c ?d ?e ?f ?m] => pose proof (proj2 (persist_keeps a b c d e f m)) as E; destruct (persist a b c d e f m) as [m' [[]| | |]] end; cbn in *; by rewrite E.
  - unfold remove, remove_take, gets, mbind, M_bind, on_inner, modify, mret, M_ret. cbn [inner shared channels retired]. destruct (inner m !! ih) as [x|]; [|done].
    unfold remove_finish, unregister, retire, on_shared, modify, mbind, M_bind. cbn [fst snd shared retired]. apply Forall_app. split; [|constructor; [apply stopped|done]].
    destruct (shared m) as [s|]; [|done]. cbn. by destruct (sh_store s).
  - unfold control, gets, mbind, M_bind, on_inner, modify, mret, M_ret. by destruct (inner m !! ih).
  - done.
  - destruct (shutdown_eq m Hm) as (sh & -> & _). cbn. apply Forall_app. split; [done|]. apply Forall_fmap, Forall_true. intros [k x]. apply stopped.
Qed.

Lemma run_ops_hosts ops m : Forall op_valid ops -> hosts_ok m -> Forall told_to_stop (retired m) ->
  hosts_ok (run_ops ops m).1 /\ Forall told_to_stop (retired (run_ops ops m).1) /\ (run_ops ops m).2 = Ok tt.
Proof.
  revert m. induction ops as [|op ops IH]; intros m Hv Hm Hr; [done|]. apply list.Forall_cons in Hv as [H1 H2]. cbn [run_ops].
  destruct (run_op_hosts op m H1 Hm) as [G E]. rewrite (bind_step _ _ m _ tt (surjective_Ok _ _ E)). apply IH; [done|done|by apply run_op_retired].
Qed.

Lemma start_hosts dht port store : hosts_ok (with_shared dht port store) /\ hosts_ok new_manager.
Proof.
  split; (split_and!; [intros ih x Hx; cbn [with_shared new_manager inner] in Hx; by rewrite lookup_empty in Hx| |intros ih ih' x x' ch Hx; cbn [with_shared new_manager inner] in Hx; by rewrite lookup_empty in Hx]); [|done].
  intros s [= <-] ih ch. cbn. rewrite !lookup_empty. split; [done|]. by intros (x & ? & _).
Qed.
End Reachable.

(** The daemon routes each hosted torrent to its own session.  However
    torrents are added, persisted, paused, removed and shut down, one after the
    other, and whichever engines end by themselves: no operation panics or
    fails; a connection for an info hash has a registered channel exactly when
    that torrent is hosted, the channel is its session's and no other's; every
    hosted engine carries the torrent of its key, the shared port and, only if
    there is one, the shared DHT; and every session let go while it ran was told
    to stop. *)
Lemma sessions_routed {C : Type} `{Lru C} `{SerdeJson} ops (m0 : SessionManager C) dht port store :
  m0 = with_shared dht port store \/ m0 = new_manager -> Forall op_valid ops ->
  let '(m, r) := run_ops ops m0 in
  r = Ok tt /\ hosts_ok m /\ Forall told_to_stop (retired m) /\
  (forall s ih, shared m = Some s -> is_Some (registry s !! ih) <-> contains ih m = true).
Proof.
  intros Hm0 Hv. assert (Hh : hosts_ok m0 /\ Forall told_to_stop (retired m0)).
  { destruct (start_hosts (C := C) dht port store) as [G1 G2]. destruct Hm0 as [->| ->]; split; (done || constructor). }
  destruct (run_ops_hosts ops m0 Hv (proj1 Hh) (proj2 Hh)) as (G1 & G2 & G3). destruct (run_ops ops m0) as [m r]. cbn [fst snd] in *. split_and!; try done.
  intros s ih Es. unfold contains. rewrite bool_decide_eq_true. destruct G1 as (H1 & H2 & _). split.
  - intros [ch Hc]. apply (H2 s Es) in Hc as (x & Hx & _). by rewrite Hx.
  - intros [x Hx]. pose proof (H1 ih x Hx) as (_ & Hs). rewrite Es in Hs. destruct Hs as (_ & _ & _ & _ & ch & Hc & _). exists ch. apply (H2 s Es). by exists x.
Qed.

(** ** A daemon with one torrent *)

#[local] Existing Instance plain_json.

Definition small_ex : TorrentFile :=
  mkTorrentFile (replicate 20 x05) None [] (mkInfo (bs "a") 16384 [replicate 20 x01; replicate 20 x02] (Single 20000) false).

Definition wiring_ex : list Op :=
  [Add 0 small_ex (replicate 20 x2d) default_config; Ctl (replicate 20 x05) Pause; Add 1 small_ex (replicate 20 x2d) default_config; Ends (replicate 20 x05)].

Lemma sessions_routed_witness :
  let '(m, r) := run_ops (C := Assoc) wiring_ex (with_shared true 6881 None) in
  r = Ok tt /\ forall s ih, shared m = Some s -> is_Some (registry s !! ih) <-> contains ih m = true.
Proof.
  assert (Hv : Forall op_valid wiring_ex).
  { assert (valid small_ex) by (split; [reflexivity|]; exists 20000; by vm_compute; split_and!; repeat constructor).
    unfold wiring_ex. rewrite !list.Forall_cons. split_and!; try done. }
  pose proof (sessions_routed wiring_ex (with_shared (C := Assoc) true 6881 None) true 6881 None (or_introl eq_refl) Hv) as G.
  destruct (run_ops _ _) as [m r]. destruct G as (H1 & _ & _ & H4). split; [exact H1|exact H4].
Defined.
