(* ===== verification/Daemon.v ===== *)
(** * Restarting the daemon: [src/src/session.rs] with [src/src/daemon_store.rs] and [cmd_daemon] of [src/src/main.rs]

    What the state directory holds while torrents are hosted and removed, what a
    new daemon makes of it, and what can go wrong when a removal and an addition of
    the same torrent overlap. *)

From Stdlib Require Import ZArith Lia String Strings.Byte.
From stdpp Require Import base tactics numbers list option gmap fin_maps fin_map_dom.
From S2P Require Import Prelude Bencode Net Paths Text Torrent Pieces Storage Cache Engine Mse DaemonStore Session.

#[local] Set Warnings "-register-all".
#[local] Existing Instance plain_json.

Section Restart.
Context {C : Type} `{Lru C} `{SerdeJson} (sha1 : bytes -> bytes) (Hsha : forall b, length (sha1 b) = 20%nat).

(** A persistent history: torrents are added from the bytes they were parsed from, and every write and
    removal of a file succeeds. *)
Definition hosting (op : Op) : Prop :=
  match op with
  | AddPersistent WroteAll WroteAll _ t _ c raw => Torrent.from_bytes sha1 raw = Ok t /\ is_Some (to_vec (mkSidecar (output_dir c) (enable_dht c)))
  | Remove true true ih => length ih = 20%nat
  | Ctl _ _ | Ends _ => True
  | _ => False
  end.

(** One of the calls [ops] asked to host [ih] with the configuration [c]. *)
Definition asked (ops : list Op) (ih : bytes) (c : EngineConfig) : Prop :=
  exists o1 o2 now t pid raw, AddPersistent o1 o2 now t pid c raw ∈ ops /\ Torrent.info_hash t = ih.

(** The entry a hosted session will be restored from: the DHT choice is the one asked for, which the
    session has if the daemon has a DHT. *)
Definition keeps_session (ops : list Op) (dht : bool) (ih : bytes) (e : PersistedTorrent) (x : Session C) : Prop :=
  Torrent.from_bytes sha1 (torrent_bytes e) = Ok (torrent (ss_engine x)) /\ pt_output e = output_dir (cfg (ss_engine x)) /\
  exists c, asked ops ih c /\ enable_dht (cfg (ss_engine x)) = enable_dht c && dht /\ pt_enable_dht e = enable_dht c.

(** The directory holds one entry for each hosted session, and no other. *)
Definition resumable (ops : list Op) (dht : bool) (m : SessionManager C) : Prop :=
  exists s d p, shared m = Some s /\ sh_dht s = dht /\ sh_store s = Some d /\ stores p d /\
    forall ih, match inner m !! ih, p !! ih with
      | Some x, Some (Saved e) => keeps_session ops dht ih e x
      | None, None => True
      | _, _ => False
      end.

Lemma parsed_valid raw t : Torrent.from_bytes sha1 raw = Ok t -> valid t.
Proof.
  intros E. split.
  - apply from_bytes_info in E as (_ & sl & _ & _ & _ & _ & _ & _ & _ & -> & _). apply Hsha.
  - destruct (torrent_validated sha1 t) as (total & Hi & _); [left; by eexists|]. by exists total.
Qed.

Lemma hosting_valid op : hosting op -> op_valid op.
Proof. destruct op as [| [] [] | [] [] | | |]; cbn; try done. intros [Hp _]. exact (parsed_valid _ _ Hp). Qed.

Lemma resumable_start all dht port d : fresh_dir d -> resumable all dht (with_shared dht port (Some d)).
Proof.
  intros Hf. eexists _, d, ∅. split_and!; [done|done|done|by apply stores_fresh|]. intros ih. cbn [with_shared inner]. by rewrite !lookup_empty.
Qed.

(** Adding: the entry is written for the new session. *)
Lemma resumable_add all dht now t pid c raw m : AddPersistent WroteAll WroteAll now t pid c raw ∈ all -> Torrent.from_bytes sha1 raw = Ok t -> is_Some (to_vec (mkSidecar (output_dir c) (enable_dht c))) ->
  resumable all dht m -> resumable all dht (add_persistent WroteAll WroteAll now t pid c raw m).1.
Proof.
  intros Hin Hp [json Hj] (s & d & p & Es & Edh & Ed & Hs & Hm). assert (Hv : valid t) by exact (parsed_valid _ _ Hp).
  destruct (add_eq now t pid c m Hv) as [[_ E]|(Hn & e & st & Et & _ & Ec & E)]; unfold add_persistent; rewrite (bind_step _ _ _ _ _ E).
  { by exists s, d, p. }
  rewrite Es in Ec. unfold persist, mbind at 1, M_bind at 1. cbn [shared]. rewrite Es. cbn [fmap option_fmap option_map mbind option_bind with_registry sh_store]. rewrite Ed.
  unfold on_shared, modify, mret, M_ret. cbn [fst snd shared inner fmap option_fmap option_map].
  eexists _, _, (spec_op (Save WroteAll WroteAll (Torrent.info_hash t) raw (output_dir c) (enable_dht c)) p). split_and!; [reflexivity|done|reflexivity| |].
  { cbn [with_registry with_store sh_store]. apply (stores_op (Save WroteAll WroteAll (Torrent.info_hash t) raw (output_dir c) (enable_dht c))); [apply Hv|done]. }
  intros ih. cbn [spec_op inner]. rewrite Hj. destruct (decide (ih = Torrent.info_hash t)) as [->|].
  - rewrite !lookup_insert_eq. unfold keeps_session. cbn [ss_engine torrent_bytes pt_output pt_enable_dht]. rewrite Et, Ec. split_and!; [done|done|]. exists c. split_and!; [by repeat eexists|by rewrite <- Edh|done].
  - rewrite !lookup_insert_ne by done. apply Hm.
Qed.

(** Removing: the entry goes with the session. *)
Lemma resumable_remove all dht ih m : length ih = 20%nat -> resumable all dht m -> resumable all dht (remove true true ih m).1.
Proof.
  intros Hl (s & d & p & Es & Edh & Ed & Hs & Hm). unfold remove, remove_take, gets, mbind, M_bind, on_inner, modify, mret, M_ret. cbn [inner shared channels retired].
  destruct (inner m !! ih) as [x|] eqn:Ex.
  - unfold remove_finish, unregister, retire, on_shared, modify, mbind, M_bind. cbn [fst snd shared inner]. rewrite Es. cbn [fmap option_fmap option_map option_bind with_registry sh_store]. rewrite Ed.
    eexists _, _, (spec_op (Forget true true ih) p). split_and!; [reflexivity|done|reflexivity|by apply (stores_op (Forget true true ih))|].
    intros k. cbn [spec_op inner]. destruct (decide (k = ih)) as [->|]; [by rewrite !lookup_delete_eq|]. rewrite !lookup_delete_ne by done. apply Hm.
  - exists s, d, p. split_and!; try done. intros k. cbn [fst inner]. destruct (decide (k = ih)) as [->|]; [|rewrite lookup_delete_ne by done; apply Hm].
    rewrite lookup_delete_eq. specialize (Hm ih). by rewrite Ex in Hm.
Qed.

(** Commands to an engine, and engines that end, change nothing of this. *)
Lemma resumable_same all dht m m' : shared m' = shared m -> (forall ih, ss_engine <$> inner m' !! ih = ss_engine <$> inner m !! ih) -> resumable all dht m -> resumable all dht m'.
Proof.
  intros E1 E2 (s & d & p & Es & Edh & Ed & Hs & Hm). exists s, d, p. rewrite E1. split_and!; try done. intros ih. specialize (Hm ih). specialize (E2 ih). unfold keeps_session in *.
  destruct (inner m !! ih), (inner m' !! ih), (p !! ih) as [[]|]; try done. injection E2 as ->. done.
Qed.

Lemma resumable_op all dht op m : op ∈ all -> hosting op -> resumable all dht m -> resumable all dht (run_op op m).1.
Proof.
  intros Hin Ho Hm. destruct op as [now t pid c|o1 o2 now t pid c raw|r1 r2 ih|ih cmd|ih|]; cbn [hosting run_op] in *; try done.
  - destruct o1, o2; try done. destruct Ho as [Hp Hj]. pose proof (resumable_add all dht now t pid c raw m Hin Hp Hj Hm) as G. unfold mbind, M_bind.
    destruct (add_persistent _ _ _ _ _ _ _ m) as [m' []]; done.
  - destruct r1, r2; try done. pose proof (resumable_remove all dht ih m Ho Hm) as G. unfold mbind, M_bind. destruct (remove _ _ _ m) as [m' []]; done.
  - apply (resumable_same all dht m); [|intros k|done]; unfold control, gets, mbind, M_bind, send_ctl, on_inner, modify, mret, M_ret; destruct (inner m !! ih) as [x|] eqn:Ex; try done. cbn [fst inner].
    destruct (decide (k = ih)) as [->|]; [|by rewrite lookup_insert_ne]. rewrite lookup_insert_eq, Ex. by destruct (ss_running x).
  - apply (resumable_same all dht m); [done| |done]. intros k. unfold engine_ends, on_inner, modify. cbn [fst inner]. destruct (decide (k = ih)) as [->|]; [|by rewrite lookup_alter_ne].
    rewrite lookup_alter_eq. by destruct (inner m !! ih).
Qed.

Lemma resumable_run all dht ops : forall m, (forall op, op ∈ ops -> op ∈ all) -> Forall hosting ops -> hosts_ok m -> Forall told_to_stop (retired m) -> resumable all dht m ->
  resumable all dht (run_ops ops m).1 /\ hosts_ok (run_ops ops m).1 /\ (run_ops ops m).2 = Ok tt.
Proof.
  induction ops as [|op ops IH]; intros m Hin Ho Hh Ht Hm; [done|]. apply list.Forall_cons in Ho as [H1 H2]. cbn [run_ops].
  pose proof (hosting_valid op H1) as Hv. destruct (run_op_hosts op m Hv Hh) as [G E]. rewrite (bind_step _ _ m _ tt (surjective_Ok _ _ E)).
  apply IH; [intros o Hi; apply Hin; by right|done|done|by apply run_op_retired|]. apply resumable_op; [apply Hin; by left|done|done].
Qed.

(** ** Restoring *)

Definition hash_of (e : PersistedTorrent) : bytes :=
  match Torrent.from_bytes sha1 (torrent_bytes e) with Ok t => Torrent.info_hash t | _ => [] end.

(** The session an entry is restored as. *)
Definition restored_as (a : DaemonArgs) (dht : bool) (e : PersistedTorrent) (x : Session C) : Prop :=
  Torrent.from_bytes sha1 (torrent_bytes e) = Ok (torrent (ss_engine x)) /\ output_dir (cfg (ss_engine x)) = pt_output e /\
  enable_dht (cfg (ss_engine x)) = pt_enable_dht e && negb (da_no_dht a) && dht /\ ss_running x = true.

Lemma restore_step now a e m s : shared m = Some s -> (exists t, Torrent.from_bytes sha1 (torrent_bytes e) = Ok t) -> inner m !! hash_of e = None ->
  exists m' x s', restore_one sha1 now a e m = (m', Ok tt) /\ inner m' = <[hash_of e := x]> (inner m) /\ restored_as a (sh_dht s) e x /\
    shared m' = Some s' /\ sh_dht s' = sh_dht s.
Proof.
  intros Es [t Et] Hn. unfold restore_one, hash_of in *. rewrite Et in *. destruct (add_eq now t (da_peer_id a) (daemon_config (pt_output e) (da_port a) (pt_enable_dht e && negb (da_no_dht a)) (da_sandbox a)) m (parsed_valid _ _ Et))
    as [[[x Hx] _]|(_ & en & st & Etn & _ & Ec & E)]; [congruence|]. rewrite (bind_step _ _ _ _ _ E). rewrite Es in *. do 3 eexists. split_and!; try reflexivity.
  unfold restored_as. cbn [ss_engine ss_running]. rewrite Etn, Ec. by split_and!.
Qed.

Lemma restore_all now a l : forall m s, shared m = Some s -> (forall e, e ∈ l -> exists t, Torrent.from_bytes sha1 (torrent_bytes e) = Ok t) ->
  NoDup (hash_of <$> l) -> (forall e, e ∈ l -> inner m !! hash_of e = None) ->
  exists m', for_each (restore_one sha1 now a) l m = (m', Ok tt) /\
    (forall e, e ∈ l -> exists x, inner m' !! hash_of e = Some x /\ restored_as a (sh_dht s) e x) /\
    (forall ih, ih ∉ hash_of <$> l -> inner m' !! ih = inner m !! ih).
Proof.
  induction l as [|e l IH]; intros m s Es Hp Hd Hn; [exists m; split_and!; set_solver|]. cbn [fmap list_fmap] in Hd. apply NoDup_cons in Hd as [Hd1 Hd2].
  destruct (restore_step now a e m s Es (Hp e ltac:(by left)) (Hn e ltac:(by left))) as (m1 & x & s1 & E & Ei & Hx & Es1 & Edht).
  destruct (IH m1 s1 Es1) as (m' & E' & H1 & H2).
  - intros e' He'. apply Hp. by right.
  - done.
  - intros e' He'. rewrite Ei, lookup_insert_ne; [apply Hn; by right|]. intros Eq. apply Hd1. rewrite Eq. by apply list_elem_of_fmap_2.
  - exists m'. cbn [for_each]. rewrite (bind_step _ _ _ _ _ E). split_and!; [done| |].
    + intros e' He'. apply elem_of_cons in He' as [->|He'].
      * exists x. rewrite H2 by done. by rewrite Ei, lookup_insert_eq.
      * rewrite <- Edht. by apply H1.
    + intros ih Hih. cbn [fmap list_fmap] in Hih. apply not_elem_of_cons in Hih as [Hne Hih]. rewrite H2, Ei, lookup_insert_ne by done. done.
Qed.

(** What a resumable manager's directory restores. *)
Lemma restorable all dht m d p : hosts_ok m -> stores p d -> (forall ih, match inner m !! ih, p !! ih with Some x, Some (Saved e) => keeps_session all dht ih e x | None, None => True | _, _ => False end) ->
  let l := omap (restored d) (map_to_list p).*1 in
  hash_of <$> l = (map_to_list p).*1 /\
  (forall e, e ∈ l -> exists x, inner m !! hash_of e = Some x /\ keeps_session all dht (hash_of e) e x) /\ (forall ih, is_Some (p !! ih) <-> is_Some (inner m !! ih)).
Proof.
  intros Hm (S1 & S2 & S3) Hk.
  assert (Hone : forall ih, is_Some (p !! ih) -> exists e x, restored d ih = Some e /\ hash_of e = ih /\ inner m !! ih = Some x /\ keeps_session all dht ih e x).
  { intros ih [sl Hp]. specialize (Hk ih). rewrite Hp in Hk. destruct (inner m !! ih) as [x|] eqn:Ex; [|done]. destruct sl as [e|]; [|done].
    exists e, x. split_and!; try done; [by apply (S3 ih e)|]. unfold hash_of. rewrite (proj1 Hk). by apply (proj1 Hm ih x Ex). }
  split_and!.
  - assert (G : forall l : list bytes, (forall ih, ih ∈ l -> is_Some (p !! ih)) -> hash_of <$> omap (restored d) l = l).
    { induction l as [|ih l IH]; intros Hl; [done|]. destruct (Hone ih) as (e & x & Er & Eh & _); [apply Hl; by left|]. cbn [omap list_omap]. rewrite Er. cbn [fmap list_fmap]. rewrite Eh. f_equal. apply IH. intros k Hk'. apply Hl. by right. }
    apply G. intros ih. apply elem_of_keys.
  - intros e (ih & Hih & Er)%list_elem_of_omap. apply elem_of_keys, Hone in Hih as (e' & x & Er' & Eh & Ex & Hk'). rewrite Er in Er'. injection Er' as <-. exists x. rewrite Eh. done.
  - intros ih. specialize (Hk ih). destruct (inner m !! ih), (p !! ih) as [[]|]; try done; split; intros [? ?]; done.
Qed.

End Restart.

(** ** A daemon with one torrent *)

Definition ih_ex : bytes := digest20 (Bencode.to_bytes Torrent.info_ex).
Definition cfg_ex : EngineConfig := daemon_config (bs "/srv") 6881 true false.
Definition args_ex : DaemonArgs := mkArgs (bs "/srv") 51413 false false (replicate 20 x2d).
Definition empty_ex : SessionManager Assoc := with_shared true 6881 (Some ∅).

Definition t_ex : TorrentFile :=
  match Torrent.from_bytes digest20 Torrent.torrent_ex with Ok t => t | _ => mkTorrentFile [] None [] (mkInfo [] 0 [] (Single 0) false) end.

(** One parsed torrent is added and paused, and its engine ends. *)
Definition ops_ex : list Op :=
  [AddPersistent WroteAll WroteAll 0 t_ex (replicate 20 x2d) cfg_ex Torrent.torrent_ex; Ctl ih_ex Pause; Ends ih_ex].

Definition store_ex : option Dir := s ← shared (shutdown_all (run_ops ops_ex empty_ex).1).1; sh_store s.


(** ** Behaviour worth knowing *)

(** What an observer sees of a torrent: whether it is hosted, registered for inbound peers, and on disk. *)
Definition seen (ih : bytes) (m : SessionManager Assoc) : bool * bool * bool :=
  (contains ih m,
   match shared m with Some s => bool_decide (is_Some (registry s !! ih)) | None => false end,
   match (s ← shared m; sh_store s) with Some d => bool_decide (is_Some (d !! torrent_path ih)) | None => false end).

Definition adds (m : SessionManager Assoc) : SessionManager Assoc :=
  (add_persistent WroteAll WroteAll 0 t_ex (replicate 20 x2d) cfg_ex Torrent.torrent_ex m).1.

(** A removal lets go of the lock between taking the session out and unregistering it.  A torrent added again in
    between is hosted but gets no inbound peers and is forgotten by the next start. *)
Example removal_overtakes_add :
  seen ih_ex <$> (match remove_take ih_ex (adds empty_ex) with
    | (m, Ok (Some x)) => Some (remove_finish true true ih_ex x (adds m)).1
    | _ => None
    end) = Some (true, false, false).
Proof. vm_compute. reflexivity. Qed.

(** A torrent removed between the two halves of [add_persistent] comes back at the next start. *)
Example persist_outlives_removal :
  seen ih_ex (persist WroteAll WroteAll ih_ex Torrent.torrent_ex (bs "/srv") true
    (remove true true ih_ex (add 0 t_ex (replicate 20 x2d) cfg_ex empty_ex).1).1).1 = (false, false, true).
Proof. vm_compute. reflexivity. Qed.

(** A session whose engine ended by itself stays hosted and registered: it cannot be added again, and commands
    to it fail. *)
Example ended_session_stays :
  let m := (engine_ends ih_ex (adds empty_ex)).1 in
  (seen ih_ex m, (control ih_ex Resume m).2, (add 0 t_ex (replicate 20 x2d) cfg_ex m).2) = ((true, true, true), Ok false, Ok None).
Proof. vm_compute. reflexivity. Qed.
