(* ===== verification/Acceptor.v ===== *)
(** * The shared acceptor: [src/src/acceptor.rs]

    One listener serves every hosted torrent: each accepted connection is taken
    through its handshake far enough to learn which torrent it is for, and handed to
    that torrent's session.  The registry is the session manager's; it may change
    while an encrypted handshake runs, so the second look-up has a registry of its
    own.  Timeouts, the order of the registry's keys and whether a channel is still
    open are inputs. *)

From Stdlib Require Import ZArith Lia String Strings.Byte.
From stdpp Require Import base tactics numbers list option gmap fin_maps.
From S2P Require Import Prelude Bencode PeerWire Handshake Net RateLimit Float64 Rc4 Mse Engine Connection.

#[local] Set Warnings "-register-all".

Definition MAX_CONCURRENT_INBOUND_HANDSHAKES : nat := 64.

Abbreviation Registry := (gmap bytes nat).

(** A connection handed to a session: [HandshakenPeer], with the channel it was sent by. *)
Record Handed := mkHanded { hd_hash : bytes; hd_channel : nat; hd_supports_ext : bool; hd_opened : Opened }.

(** What routing one connection meets. *)
Record RouteEnv := mkRoute {
  ro_peek : bool;
  ro_expired : nat -> bool;
  ro_secrets : Secrets;
  ro_registry : Registry;
  ro_candidates : list bytes;
  ro_later : Registry;
  ro_open : nat -> bool;
}.

(** [tx.send(Inbound::Handshaken(peer))], once the reserved bits are read. *)
Definition hand_over (env : RouteEnv) (info_hash : bytes) (tx : nat) (o : Opened) : result (option Handed) :=
  supports_ext ← supports_extension_protocol (Handshake.reserved (op_theirs o));
  Ok (if ro_open env tx then Some (mkHanded info_hash tx supports_ext o) else None).

Section Route.
Context `{NumBigint} (sha1 : bytes -> bytes) (ext : option bytes) (env : RouteEnv) (pid : bytes).

Definition route_plain (s : Stream) : Stream * result (option Handed) :=
  if ro_expired env 0 then (s, Ok None)
  else
    match read_n HANDSHAKE_LEN (EHandshake "read") s with
    | (s, Ok buf) =>
        match Handshake.decode buf with
        | Ok theirs =>
            match ro_registry env !! Handshake.info_hash theirs with
            | Some tx =>
                if ro_expired env 1 then (s, Ok None)
                else
                  match write_all (Handshake.encode (Handshake.new ext (Handshake.info_hash theirs) pid)) (EHandshake "write") s with
                  | (s, Ok _) => (s, hand_over env (Handshake.info_hash theirs) tx (mkOpened (inbox s) None theirs))
                  | (s, Err _) => (s, Ok None)
                  | (s, Panic) => (s, Panic)
                  | (s, NoFuel) => (s, NoFuel)
                  end
            | None => (s, Ok None)
            end
        | Err _ => (s, Ok None)
        | Panic => (s, Panic)
        | NoFuel => (s, NoFuel)
        end
    | (s, Err _) => (s, Ok None)
    | (s, Panic) => (s, Panic)
    | (s, NoFuel) => (s, NoFuel)
    end.

Definition route_mse (s : Stream) : Stream * result (option Handed) :=
  if (length (ro_candidates env) =? 0)%nat then (s, Ok None)
  else if ro_expired env 0 then (s, Ok None)
  else
    let sec := ro_secrets env in
    match Mse.perform_incoming sha1 (entropy sec) (pad1 sec) (pad2 sec) (ro_candidates env) [] s with
    | (s, Ok (inr (es, matched))) =>
        match bt_over_mse (ro_expired env 1) "timeout" (secure_incoming ext matched pid) es s with
        | (s, Ok o) =>
            match ro_later env !! matched with
            | Some tx => (s, hand_over env matched tx o)
            | None => (s, Ok None)
            end
        | (s, Err _) => (s, Ok None)
        | (s, Panic) => (s, Panic)
        | (s, NoFuel) => (s, NoFuel)
        end
    | (s, Ok (inl _)) => (s, Ok None)
    | (s, Err _) => (s, Ok None)
    | (s, Panic) => (s, Panic)
    | (s, NoFuel) => (s, NoFuel)
    end.

(** [ro_peek]: whether the first byte could be peeked in time. *)
Definition route_one (s : Stream) : Stream * result (option Handed) :=
  match ro_peek env, inbox s with
  | true, first :: _ => if b2z first =? PSTRLEN then route_plain s else route_mse s
  | _, _ => (s, Ok None)
  end.

(** Behind the gate: [permits] handshakes may still begin. *)
Definition route_one_gated (permits : nat) (s : Stream) : Stream * result (option Handed) :=
  if (permits =? 0)%nat then (s, Ok None) else route_one s.
End Route.

(** ** The accept loop *)

(** The per-address gate, the connections whose task has not begun, and the handshakes under way. *)
Record Accepting := mkAccepting { ac_gate : Gate; ac_spawned : list SocketAddr; ac_busy : nat }.

Inductive AcceptEvent :=
  | Accepted (now : Z) (addr : SocketAddr)
  | TaskBegins
  | TaskEnds.

Definition accept_step (ev : AcceptEvent) (a : Accepting) : Accepting :=
  match ev with
  | Accepted now addr =>
      let '(g, ok) := gate_accept now (sa_ip addr) (ac_gate a) in
      mkAccepting g (if ok then ac_spawned a ++ [addr] else ac_spawned a) (ac_busy a)
  | TaskBegins =>
      match ac_spawned a with
      | [] => a
      | _ :: rest =>
          let permits := (MAX_CONCURRENT_INBOUND_HANDSHAKES - ac_busy a)%nat in
          mkAccepting (ac_gate a) rest (if (permits =? 0)%nat then ac_busy a else S (ac_busy a))
      end
  | TaskEnds => mkAccepting (ac_gate a) (ac_spawned a) (pred (ac_busy a))
  end.

Definition accept_loop (evs : list AcceptEvent) : Accepting :=
  fold_left (fun a ev => accept_step ev a) evs (mkAccepting (mkGate ∅ 0) [] 0).

(** ** Who is handed what *)

Section Safe.
Context `{NumBigintLaws} (sha1 : bytes -> bytes) (sha1_len : forall b, length (sha1 b) = 20%nat).
Context (ext : option bytes) (env : RouteEnv) (pid : bytes).

(** The dialler named, or proved to know, a torrent that is hosted. *)
Definition recognised (s : Stream) : Prop :=
  (exists theirs, Handshake.decode (take HANDSHAKE_LEN (inbox s)) = Ok theirs /\ is_Some (ro_registry env !! Handshake.info_hash theirs)) \/
  (exists ih kp head rest more, generate (entropy (ro_secrets env)) = Ok kp /\ inbox s = head ++ rest ++ more /\ length head = Y_LEN /\
     ih ∈ ro_candidates env /\ proved sha1 (to_be KEY_LEN (shared_secret kp (from_be head))) ih rest).

(** All that any other dialler is told: a fresh public key and padding. *)
Definition nothing_told (w : bytes) : Prop :=
  w = [] \/ exists kp, generate (entropy (ro_secrets env)) = Ok kp /\ (w = to_be KEY_LEN (public kp) \/ w = to_be KEY_LEN (public kp) ++ pad1 (ro_secrets env)).

Definition handed_ok (s : Stream) (h : Handed) : Prop :=
  hs_ok (op_theirs (hd_opened h)) = true /\ Handshake.info_hash (op_theirs (hd_opened h)) = hd_hash h /\
  supports_extension_protocol (Handshake.reserved (op_theirs (hd_opened h))) = Ok (hd_supports_ext h) /\ ro_open env (hd_channel h) = true /\
  recognised s /\
  match op_cipher (hd_opened h) with
  | None => ro_registry env !! hd_hash h = Some (hd_channel h)
  | Some _ => hd_hash h ∈ ro_candidates env /\ ro_later env !! hd_hash h = Some (hd_channel h)
  end.

(** One routed connection: no panic, what is said, and what is handed over. *)
Definition routes (s : Stream) (x : Stream * result (option Handed)) : Prop :=
  returns x.2 = true /\ (exists w, outbox x.1 = outbox s ++ w /\ (nothing_told w \/ recognised s)) /\ forall h, x.2 = Ok (Some h) -> handed_ok s h.

Lemma routes_none s s' : outbox s' = outbox s -> routes s (s', Ok None).
Proof. intros E. split; [done|]. split; [|done]. exists []. rewrite app_nil_r. split; [done|]. left. by left. Qed.

Lemma hand_over_ok ih tx o : hs_ok (op_theirs o) = true -> returns (hand_over env ih tx o) = true /\
  forall h, hand_over env ih tx o = Ok (Some h) -> hd_hash h = ih /\ hd_channel h = tx /\ hd_opened h = o /\ ro_open env tx = true /\
    supports_extension_protocol (Handshake.reserved (op_theirs o)) = Ok (hd_supports_ext h).
Proof.
  intros Ho. destruct (supports_known _ Ho) as [b Eb]. unfold hand_over. rewrite Eb. cbn [mbind result_bind]. split; [done|].
  destruct (ro_open env tx); [|done]. by intros h [= <-].
Qed.

Lemma route_plain_ok s : routes s (route_plain ext env pid s).
Proof.
  unfold route_plain. destruct (ro_expired env 0); [by apply routes_none|]. unfold read_n. destruct (Nat.ltb_spec (length (inbox s)) HANDSHAKE_LEN) as [|Hlen]; [by apply routes_none|].
  pose proof (handshake_decode_returns (take HANDSHAKE_LEN (inbox s))) as Hd.
  destruct (Handshake.decode (take HANDSHAKE_LEN (inbox s))) as [theirs| | |] eqn:Ed; try done; [|by apply routes_none].
  destruct (ro_registry env !! Handshake.info_hash theirs) as [tx|] eqn:Er; [|by apply routes_none]. destruct (ro_expired env 1); [by apply routes_none|].
  assert (Hrec : recognised s) by (left; exists theirs; split; [done|by rewrite Er]). unfold write_all. cbn [writable]. destruct (writable s); [|by apply routes_none].
  assert (Hh : hs_ok theirs = true) by (by apply decode_Ok in Ed as [? _]).
  destruct (hand_over_ok (Handshake.info_hash theirs) tx (mkOpened (drop HANDSHAKE_LEN (inbox s)) None theirs) Hh) as [G1 G2]. split; [exact G1|]. split.
  - eexists. split; [reflexivity|]. by right.
  - intros h Eh. destruct (G2 h Eh) as (E1 & E2 & E3 & E4 & E5). unfold handed_ok. rewrite E1, E2, E3. by split_and!.
Qed.

(** The handshake inside the encrypted stream: it appends to what was written, and is for the torrent proved. *)
Definition appends {A} (m : M Secure A) : Prop := forall x, exists w, outbox (se_stream (m x).1) = outbox (se_stream x) ++ w.

Lemma appends_bind {A B} (m : M Secure A) (f : A -> M Secure B) : appends m -> (forall a, appends (f a)) -> appends (m ≫= f).
Proof.
  intros Hm Hf x. unfold mbind, M_bind. destruct (Hm x) as [w Hw]. destruct (m x) as [y [a| | |]]; cbn [fst] in *; [|by exists w..].
  destruct (Hf a y) as [w' Hw']. exists (w ++ w'). by rewrite Hw', Hw, app_assoc.
Qed.

Lemma appends_lift {A} (r : result A) : appends (lift r).
Proof. intros x. exists []. by rewrite app_nil_r. Qed.

Lemma appends_write data e : appends (secure_write data e).
Proof.
  intros x. unfold secure_write. destruct (process _ _) as [[c ct]| | |]; try (exists []; by rewrite app_nil_r).
  unfold write_all. destruct (writable _); cbn; [by eexists|exists []; by rewrite app_nil_r].
Qed.

Lemma appends_read n e : appends (secure_read n e).
Proof.
  intros x. exists []. rewrite app_nil_r. unfold secure_read, read_n. destruct (_ <? _)%nat; [done|]. cbn. by destruct (process _ _) as [[c pt]| | |].
Qed.

Lemma appends_incoming ih : appends (secure_incoming ext ih pid).
Proof.
  apply appends_bind; [apply appends_read|]. intros buf. apply appends_bind; [apply appends_lift|]. intros theirs.
  destruct (negb _); [apply appends_lift|]. apply appends_bind; [apply appends_write|]. intros []. intros x. exists []. by rewrite app_nil_r.
Qed.

Lemma incoming_hash ih x h : (secure_incoming ext ih pid x).2 = Ok h -> Handshake.info_hash h = ih.
Proof.
  unfold secure_incoming, mbind, M_bind. destruct (secure_read _ _ x) as [y [buf| | |]]; try done. cbn. destruct (Handshake.decode buf) as [t| | |]; try done.
  destruct (bytes_eqb (Handshake.info_hash t) ih) eqn:E; [|done]. apply bytes_eqb_eq in E. cbn. destruct (secure_write _ _ y) as [z [[]| | |]]; try done. by intros [= <-].
Qed.

Lemma bt_in expired msg ih es s : ciphers_ok es ->
  let x := bt_over_mse expired msg (secure_incoming ext ih pid) es s in
  returns x.2 = true /\ (exists w, outbox x.1 = outbox s ++ w) /\
  forall o, x.2 = Ok o -> hs_ok (op_theirs o) = true /\ Handshake.info_hash (op_theirs o) = ih /\ is_Some (op_cipher o).
Proof.
  intros Hes. destruct (bt_over_mse_shaken expired msg _ es s (secure_incoming_ok ext ih pid) Hes) as [Hr Ho]. cbn zeta. split; [exact Hr|].
  unfold bt_over_mse in *. destruct expired; [split; [exists []; by rewrite app_nil_r|done]|].
  destruct (appends_incoming ih (mkSecure s es)) as [w Hw]. pose proof (incoming_hash ih (mkSecure s es)) as Hh.
  destruct (secure_incoming ext ih pid (mkSecure s es)) as [sec [t| | |]]; cbn [fst snd se_stream] in *; (split; [by exists w|]); try done.
  intros o Eo. split; [by apply Ho|]. unfold open_secure in Eo. destruct (process _ _) as [[c pt]| | |]; try done. injection Eo as <-. cbn. split; [by apply Hh|done].
Qed.

Lemma route_mse_ok s : length (entropy (ro_secrets env)) = 20%nat -> routes s (route_mse sha1 ext env pid s).
Proof.
  intros He. unfold route_mse. destruct (_ =? 0)%nat; [by apply routes_none|]. destruct (ro_expired env 0); [by apply routes_none|].
  destruct (generate_ok _ He) as (kp & Eg & Kx).
  destruct (incoming_behaves sha1 (entropy (ro_secrets env)) kp (pad1 (ro_secrets env)) (pad2 (ro_secrets env)) (ro_candidates env) [] sha1_len (conj Eg Kx) s) as (u & w & Eu & _ & Ew & Hq).
  destruct (Mse.perform_incoming _ _ _ _ _ _ s) as [s1 [[e|[es ih]]| | |]]; cbn [fst snd] in *; try done.
  { split; [done|]. split; [|done]. exists w. split; [done|]. left. destruct Hq as [->|Hq]; [by left|]. right. exists kp. by split. }
  destruct Hq as (Hes & Hih & head & rest & -> & Hl & _ & Hp). cbn [fst snd app] in *.
  assert (Hrec : recognised s) by (right; exists ih, kp, head, rest, (inbox s1); rewrite Eu, <- app_assoc; by split_and!).
  destruct (bt_in (ro_expired env 1) "timeout" ih es s1 Hes) as (B1 & [w2 B2] & B3). destruct (bt_over_mse _ _ _ es s1) as [s2 r2]. cbn [fst snd] in *.
  assert (Hout : exists w', outbox s2 = outbox s ++ w' /\ (nothing_told w' \/ recognised s)) by (exists (w ++ w2); rewrite B2, Ew, app_assoc; split; [done|by right]).
  destruct r2 as [o| | |]; try done. destruct (B3 o eq_refl) as (Hhs & Hhash & [es' Hc]).
  destruct (ro_later env !! ih) as [tx|] eqn:El; [|done]. destruct (hand_over_ok ih tx o Hhs) as [G1 G2]. split; [exact G1|]. split; [exact Hout|].
  intros h Eh. destruct (G2 h Eh) as (E1 & E2 & E3 & E4 & E5). unfold handed_ok. rewrite E1, E2, E3, Hc. by split_and!.
Qed.

(** C20: the shared acceptor hands a connection to the right session or to none.
    Whatever an unknown dialler sends and whichever step times out, routing it
    never panics; it is handed over only with a complete handshake for a torrent
    that is hosted at that moment, which the dialler named in the clear or
    proved to know, to the channel registered for exactly that torrent, and the
    task that takes it tells its engine a well-formed story; a dialler that
    neither names nor proves a hosted torrent is told nothing but a fresh public
    key and random padding. *)
Theorem acceptor_routes permits s : length (entropy (ro_secrets env)) = 20%nat ->
  let x := route_one_gated sha1 ext env pid permits s in
  returns x.2 = true /\ (exists w, outbox x.1 = outbox s ++ w /\ (nothing_told w \/ recognised s)) /\
  forall h, x.2 = Ok (Some h) -> permits <> 0%nat /\ handed_ok s h /\
    forall te addr anon, well_told te addr (run_handshaken te addr (hd_opened h) (hd_supports_ext h) anon).
Proof.
  intros He. cbn zeta. unfold route_one_gated. destruct (Nat.eqb_spec permits 0) as [->|Hp].
  { destruct (routes_none s s eq_refl) as (H1 & H2 & _). by split_and!. }
  assert (G : routes s (route_one sha1 ext env pid s)).
  { unfold route_one. destruct (ro_peek env); [|by apply routes_none]. destruct (inbox s) as [|b l] eqn:Ei; [by apply routes_none|].
    destruct (_ =? _); [apply route_plain_ok|by apply route_mse_ok]. }
  destruct G as (G1 & G2 & G3). split_and!; [done|done|]. intros h Eh. split; [done|]. split; [by apply G3|].
  intros te addr anon. apply loop_told. by apply (G3 h Eh).
Qed.
End Safe.

(** However many connections are accepted, no more than the cap are in a handshake. *)
Lemma handshakes_capped evs : (ac_busy (accept_loop evs) <= MAX_CONCURRENT_INBOUND_HANDSHAKES)%nat.
Proof.
  unfold accept_loop. assert (G : forall a, (ac_busy a <= MAX_CONCURRENT_INBOUND_HANDSHAKES)%nat ->
    (ac_busy (fold_left (fun a ev => accept_step ev a) evs a) <= MAX_CONCURRENT_INBOUND_HANDSHAKES)%nat); [|apply G; cbn; lia].
  induction evs as [|ev evs IH]; intros a Ha; [done|]. cbn [fold_left]. apply IH. destruct ev as [now addr| |]; cbn [accept_step].
  - by destruct (gate_accept _ _ _).
  - destruct (ac_spawned a); [done|]. cbn [ac_busy]. destruct (Nat.eqb_spec (MAX_CONCURRENT_INBOUND_HANDSHAKES - ac_busy a) 0); lia.
  - cbn [ac_busy]. lia.
Qed.

(** ** A dialler that names a hosted torrent *)

#[local] Existing Instance std_bigint.
#[local] Existing Instance std_bigint_laws.

Definition route_ex : RouteEnv :=
  mkRoute true (fun _ => false) (mkSecrets (replicate 20 x07) [] []) {[ replicate 20 x01 := 3%nat ]} [replicate 20 x01] {[ replicate 20 x01 := 3%nat ]} (fun _ => true).

Definition dialler_ex : Stream := mkStream (Handshake.encode (Handshake.new None (replicate 20 x01) (replicate 20 x02))) [] true.

Lemma acceptor_routes_witness : exists h, (route_one_gated digest20 None route_ex (replicate 20 x09) 1 dialler_ex).2 = Ok (Some h) /\
  hd_channel h = 3%nat /\ handed_ok digest20 route_ex dialler_ex h.
Proof.
  destruct (acceptor_routes digest20 digest20_len None route_ex (replicate 20 x09) 1 dialler_ex eq_refl) as (_ & _ & G).
  destruct (route_one_gated digest20 None route_ex (replicate 20 x09) 1 dialler_ex).2 as [[h|]| | |] eqn:E; [|vm_compute in E; discriminate E..].
  exists h. split; [reflexivity|]. destruct (G h eq_refl) as (_ & Hh & _). split; [|exact Hh].
  pose proof E as E'. vm_compute in E'. injection E' as <-. reflexivity.
Defined.
