(* ===== verification/UtpSocket.v ===== *)
(** * The µTP socket: [src/src/peer/utp/socket.rs]

    One driver owns the UDP socket and every connection: it routes datagrams by
    address and connection id, runs the commands of the streams and the timer,
    and hands received bytes to the streams over bounded queues.  A write takes
    credit from the gate its stream shares with the driver.  The model is the
    state both sides share, with one operation per handler of the driver and
    per call of a stream, each atomic, except that a write is one step for each of
    its looks at the gate, so that the driver may act in between.  Random numbers, the clock and the order
    in which a hash map is walked are arguments; the socket is the list of
    datagrams sent. *)

From Stdlib Require Import ZArith Lia String Strings.Byte.
From stdpp Require Import base tactics numbers list option gmap fin_maps fin_map_dom sets.
From S2P Require Import Prelude Net UtpPacket Float64 UtpConnection.

#[local] Set Warnings "-register-all".

Definition MAX_CONNS : nat := 1024.
Definition SEND_BUF_CAP_BYTES : nat := Z.to_nat (256 * 1024).
Definition DELIVER_MSG_BYTES : nat := Z.to_nat (64 * 1024).
Definition DELIVER_QUEUE_MSGS : nat := 16.

(** ** The send gate *)

(** The waker of a blocked writer is kept as whether there is one. *)
Record SendGate := mkGate { used : nat; gate_closed : bool; waiter : bool }.

Definition gate_new : SendGate := mkGate 0 false false.

Definition available (g : SendGate) : nat := SEND_BUF_CAP_BYTES - used g.

Definition wake (g : SendGate) : SendGate := mkGate (used g) (gate_closed g) false.

Definition reserve (want : nat) (g : SendGate) : SendGate * nat :=
  let n := Nat.min want (available g) in
  (if (0 <? n)%nat then mkGate (used g + n) (gate_closed g) (waiter g) else g, n).

(** The compare-and-swap loop ends with one saturating subtraction. *)
Definition release (n : nat) (g : SendGate) : SendGate :=
  if (n =? 0)%nat then g else wake (mkGate (used g - n) (gate_closed g) (waiter g)).

Definition gate_close (g : SendGate) : SendGate := wake (mkGate (used g) true (waiter g)).

(** ** State *)

(** The peer's address and our receive id. *)
Definition ConnKey : Type := SocketAddr * Z.

(** Where a [poll_write] stands: not under way; before it reserves; after a reservation of nothing; with its waker
    registered; after it found the gate open; and parked, its last answer being [Pending]. *)
Inductive Writer :=
  | WIdle
  | WAgain (b : bytes)
  | WShort (b : bytes)
  | WRegistered (b : bytes)
  | WOpen (b : bytes)
  | WParked.

(** What a stream and the driver share, and the stream's own fields.  [l_sender] and [l_receiver] say
    whether the two ends of the delivery queue exist; [l_got] is what the application has read. *)
Record Link := mkLink {
  l_key : ConnKey;
  l_gate : SendGate;
  l_queue : list bytes;
  l_sender : bool;
  l_receiver : bool;
  read_rem : bytes;
  read_pos : nat;
  shutdown_sent : bool;
  l_got : bytes;
  l_writer : Writer;
}.

Definition new_link (key : ConnKey) : Link := mkLink key gate_new [] true true [] 0 false [] WIdle.

Definition with_gate (g : SendGate) (l : Link) : Link :=
  mkLink (l_key l) g (l_queue l) (l_sender l) (l_receiver l) (read_rem l) (read_pos l) (shutdown_sent l) (l_got l) (l_writer l).
Definition with_queue (q : list bytes) (l : Link) : Link :=
  mkLink (l_key l) (l_gate l) q (l_sender l) (l_receiver l) (read_rem l) (read_pos l) (shutdown_sent l) (l_got l) (l_writer l).
Definition with_sender (b : bool) (l : Link) : Link :=
  mkLink (l_key l) (l_gate l) (l_queue l) b (l_receiver l) (read_rem l) (read_pos l) (shutdown_sent l) (l_got l) (l_writer l).
Definition with_read (rem : bytes) (pos : nat) (got : bytes) (l : Link) : Link :=
  mkLink (l_key l) (l_gate l) (l_queue l) (l_sender l) (l_receiver l) rem pos (shutdown_sent l) got (l_writer l).
Definition with_end (receiver shut : bool) (l : Link) : Link :=
  mkLink (l_key l) (l_gate l) (l_queue l) (l_sender l) receiver (read_rem l) (read_pos l) shut (l_got l) (l_writer l).
Definition with_writer (w : Writer) (l : Link) : Link :=
  mkLink (l_key l) (l_gate l) (l_queue l) (l_sender l) (l_receiver l) (read_rem l) (read_pos l) (shutdown_sent l) (l_got l) w.

(** A dial and a stream's gate are named by numbers. *)
Inductive Command :=
  | CmdConnect (peer : SocketAddr) (dial : nat)
  | CmdSend (key : ConnKey) (data : bytes) (gate : nat)
  | CmdClose (key : ConnKey).

(** [e_link] is the gate and the queue, [pending] the dial that waits for the handshake, [pending_accept]
    whether the entry still holds its stream back from [accept]. *)
Record Entry := mkEntry {
  conn : Connection;
  e_link : nat;
  last_outstanding : nat;
  pending : option nat;
  pending_accept : bool;
  last_timestamp_diff : Z;
}.

(** [waiting] are the dials whose caller still waits, [replies] their answers: a stream, or a reset.
    [accepted] are the streams handed to [accept], [sent] the datagrams. *)
Record Driver := mkDriver {
  conns : gmap ConnKey Entry;
  links : gmap nat Link;
  next_link : nat;
  cmd_ch : list Command;
  waiting : gset nat;
  replies : list (nat * option nat);
  accepting : bool;
  accepted : list nat;
  sent : list (SocketAddr * bytes);
  d_start : Z;
}.

Definition with_conns (m : gmap ConnKey Entry) (d : Driver) : Driver :=
  mkDriver m (links d) (next_link d) (cmd_ch d) (waiting d) (replies d) (accepting d) (accepted d) (sent d) (d_start d).
Definition with_links (m : gmap nat Link) (n : nat) (d : Driver) : Driver :=
  mkDriver (conns d) m n (cmd_ch d) (waiting d) (replies d) (accepting d) (accepted d) (sent d) (d_start d).
Definition with_cmds (l : list Command) (d : Driver) : Driver :=
  mkDriver (conns d) (links d) (next_link d) l (waiting d) (replies d) (accepting d) (accepted d) (sent d) (d_start d).
Definition with_dials (w : gset nat) (r : list (nat * option nat)) (d : Driver) : Driver :=
  mkDriver (conns d) (links d) (next_link d) (cmd_ch d) w r (accepting d) (accepted d) (sent d) (d_start d).
Definition with_accepted (l : list nat) (d : Driver) : Driver :=
  mkDriver (conns d) (links d) (next_link d) (cmd_ch d) (waiting d) (replies d) (accepting d) l (sent d) (d_start d).
Definition with_sent (l : list (SocketAddr * bytes)) (d : Driver) : Driver :=
  mkDriver (conns d) (links d) (next_link d) (cmd_ch d) (waiting d) (replies d) (accepting d) (accepted d) l (d_start d).

Definition bind_socket (start : Z) : Driver := mkDriver ∅ ∅ 0 [] ∅ [] true [] [] start.

Definition on_link (i : nat) (f : Link -> Link) : M Driver unit := modify (fun d => with_links (alter f i (links d)) (next_link d) d).

Definition push_cmd (c : Command) : M Driver unit := modify (fun d => with_cmds (cmd_ch d ++ [c]) d).

Definition put_entry (key : ConnKey) (e : Entry) : M Driver unit := modify (fun d => with_conns (<[key := e]> (conns d)) d).

(** A connection's gate and queue. *)
Definition fresh_link (key : ConnKey) : M Driver nat :=
  i ← gets next_link;
  _ ← modify (fun d => with_links (<[i := new_link key]> (links d)) (S i) d);
  mret i.

(** Run a call of the connection. *)
Definition on_conn {A} (c : Connection) (m : M Connection A) : M Driver (Connection * A) := fun d =>
  let '(c', r) := m c in (d, (fun a => (c', a)) <$> r).

(** ** Streams *)

Inductive Poll (A : Type) := Ready (a : A) | Broken | Pending.
Arguments Ready {A}.
Arguments Broken {A}.
Arguments Pending {A}.

Definition stream (i : nat) : M Driver Link := l ← gets (fun d => links d !! i); lift (match l with Some l => Ok l | None => Panic end).

(** The head of the loop: reserve, and hand what was reserved to the driver.  Nobody else reserves, so the load and
    the addition of [reserve] are one step. *)
Definition write_try (i : nat) (b : bytes) : M Driver (option (Poll nat)) :=
  l ← stream i;
  let '(g, n) := reserve (length b) (l_gate l) in
  if (0 <? n)%nat then
    _ ← on_link i (fun l => with_writer WIdle (with_gate g l));
    _ ← push_cmd (CmdSend (l_key l) (take n b) i);
    mret (Some (Ready n))
  else _ ← on_link i (with_writer (WShort b)); mret None.

(** A call begins; [None] while it is under way. *)
Definition poll_write (i : nat) (b : bytes) : M Driver (option (Poll nat)) :=
  l ← stream i;
  if gate_closed (l_gate l) then _ ← on_link i (with_writer WIdle); mret (Some Broken)
  else if (length b =? 0)%nat then _ ← on_link i (with_writer WIdle); mret (Some (Ready 0%nat))
  else _ ← on_link i (with_writer (WAgain b)); mret None.

(** The next look of the call at its gate: reserve; register the waker; look whether the gate was closed meanwhile; look
    whether credit came back meanwhile, and only then park. *)
Definition write_on (i : nat) : M Driver (option (Poll nat)) :=
  l ← stream i;
  match l_writer l with
  | WAgain b => write_try i b
  | WShort b =>
      _ ← on_link i (fun l => with_writer (WRegistered b) (with_gate (mkGate (used (l_gate l)) (gate_closed (l_gate l)) true) l));
      mret None
  | WRegistered b =>
      if gate_closed (l_gate l) then _ ← on_link i (with_writer WIdle); mret (Some Broken)
      else _ ← on_link i (with_writer (WOpen b)); mret None
  | WOpen b =>
      if (0 <? available (l_gate l))%nat then _ ← on_link i (with_writer (WAgain b)); mret None
      else _ ← on_link i (with_writer WParked); mret (Some Pending)
  | WIdle | WParked => mret None
  end.

(** The next chunk of the queue; [Ready []] once the driver has dropped its end. *)
Definition poll_recv (l : Link) : Poll (option bytes * Link) :=
  match l_queue l with
  | c :: q => Ready (Some c, with_queue q l)
  | [] => if l_sender l then Pending else Ready (None, l)
  end.

Definition poll_read (i : nat) (room : nat) : M Driver (Poll bytes) :=
  l ← stream i;
  if (read_pos l <? length (read_rem l))%nat then
    let n := Nat.min (length (read_rem l) - read_pos l) room in
    let out := slice (read_rem l) (read_pos l) n in
    _ ← on_link i (with_read (read_rem l) (read_pos l + n) (l_got l ++ out));
    mret (Ready out)
  else
    match poll_recv l with
    | Ready (Some c, l') =>
        let n := Nat.min (length c) room in
        _ ← on_link i (fun _ => with_read c n (l_got l ++ take n c) l');
        mret (Ready (take n c))
    | Ready (None, _) => mret (Ready [])
    | _ => mret Pending
    end.

(** [Ready None] is the end of the stream. *)
Definition peek_first_byte (i : nat) : M Driver (Poll (option byte)) :=
  l ← stream i;
  if (read_pos l <? length (read_rem l))%nat then
    b ← lift (index (read_rem l) (read_pos l));
    mret (Ready (Some b))
  else
    match poll_recv l with
    | Ready (Some c, l') => _ ← on_link i (fun _ => with_read c 0 (l_got l) l'); mret (Ready (head c))
    | Ready (None, _) => mret (Ready None)
    | _ => mret Pending
    end.

Definition poll_shutdown (i : nat) : M Driver unit :=
  l ← stream i;
  if shutdown_sent l then mret tt
  else _ ← push_cmd (CmdClose (l_key l)); on_link i (with_end (l_receiver l) true).

(** [Drop] of the stream: its end of the queue goes too, with what is in it. *)
Definition drop_stream (i : nat) : M Driver unit :=
  l ← stream i;
  _ ← (if shutdown_sent l then mret tt else push_cmd (CmdClose (l_key l)));
  on_link i (fun l => with_queue [] (with_end false (shutdown_sent l) l)).

(** ** The driver *)

Definition now_micros (now : Z) (d : Driver) : Z := wrap 32 (sat_sub now (d_start d) / 1000).

Definition stamped (now : Z) (diff : Z) (d : Driver) (p : Packet) : Packet :=
  mkPacket (packet_type p) (connection_id p) (now_micros now d) diff (wnd_size p) (seq_nr p) (ack_nr p) (extensions p) (payload p).

Fixpoint flush (now : Z) (peer : SocketAddr) (diff : Z) (packets : list Packet) : M Driver unit :=
  match packets with
  | [] => mret tt
  | p :: packets =>
      b ← reads (fun d => encode (stamped now diff d p));
      _ ← modify (fun d => with_sent (sent d ++ [(peer, b)]) d);
      flush now peer diff packets
  end.

(** Hand received bytes to the queue while it has room.  When the stream is gone, what was taken is lost. *)
Fixpoint deliver_loop (fuel : nat) (c : Connection) (l : Link) : result (Connection * Link) :=
  if (length (l_queue l) <? DELIVER_QUEUE_MSGS)%nat then
    match fuel with
    | O => NoFuel
    | S fuel =>
        let '(c', r) := take_received DELIVER_MSG_BYTES c in
        chunk ← r;
        if (length chunk =? 0)%nat then Ok (c', l)
        else if l_receiver l then deliver_loop fuel c' (with_queue (l_queue l ++ [chunk]) l)
        else Ok (c', l)
    end
  else Ok (c, l).

(** Answer a dial with its stream; a caller that gave up leaves a stream nobody holds. *)
Definition answer_dial (dial i : nat) : M Driver unit :=
  w ← gets waiting;
  if decide (dial ∈ w) then modify (fun d => with_dials (waiting d ∖ {[dial]}) (replies d ++ [(dial, Some i)]) d)
  else drop_stream i.

Definition fail_dial (dial : nat) : M Driver unit :=
  modify (fun d => if decide (dial ∈ waiting d) then with_dials (waiting d ∖ {[dial]}) (replies d ++ [(dial, None)]) d else d).

(** Drop an entry: its end of the queue, and its stream if it still holds it. *)
Definition reap (key : ConnKey) (e : Entry) : M Driver unit :=
  _ ← (match pending e with Some dial => fail_dial dial | None => mret tt end);
  remaining ← lift (outstanding_send_bytes (conn e));
  _ ← on_link (e_link e) (fun l => with_sender false (with_gate (gate_close (release remaining (l_gate l))) l));
  _ ← modify (fun d => with_conns (delete key (conns d)) d);
  if pending_accept e then drop_stream (e_link e) else mret tt.

Definition collect_after (key : ConnKey) (now : Z) : M Driver (list Packet) :=
  found ← gets (fun d => conns d !! key);
  match found with
  | None => mret []
  | Some e =>
      l ← stream (e_link e);
      '(c, l) ← lift (deliver_loop DELIVER_QUEUE_MSGS (conn e) l);
      '(c, pkts) ← on_conn c (pending_send_packets now);
      outstanding ← lift (outstanding_send_bytes c);
      let g := if (outstanding <? last_outstanding e)%nat then release (last_outstanding e - outstanding) (l_gate l) else l_gate l in
      _ ← on_link (e_link e) (fun _ => with_gate g l);
      let connected := bool_decide (state c = Connected) in
      _ ← (match pending e with Some dial => if connected then answer_dial dial (e_link e) else mret tt | None => mret tt end);
      let e := mkEntry c (e_link e) outstanding (if connected then None else pending e) (pending_accept e) (last_timestamp_diff e) in
      _ ← put_entry key e;
      _ ← (if is_closed c || fin_complete c then reap key e else mret tt);
      mret pkts
  end.

(** A packet for an entry: the reply and what can be sent now. *)
Definition feed (key : ConnKey) (e : Entry) (pkt : Packet) (recv_diff now : Z) : M Driver (list Packet) :=
  '(c, resp) ← on_conn (conn e) (handle_incoming pkt now);
  _ ← put_entry key (mkEntry c (e_link e) (last_outstanding e) (pending e) (pending_accept e) recv_diff);
  more ← collect_after key now;
  mret (option_list resp ++ more).

(** Hand the held stream of a confirmed connection to [accept]. *)
Definition surface (key : ConnKey) : M Driver unit :=
  found ← gets (fun d => conns d !! key);
  match found with
  | Some e =>
      if return_path_confirmed (conn e) && pending_accept e then
        _ ← put_entry key (mkEntry (conn e) (e_link e) (last_outstanding e) (pending e) false (last_timestamp_diff e));
        up ← gets accepting;
        if up : bool then modify (fun d => with_accepted (accepted d ++ [e_link e]) d) else drop_stream (e_link e)
      else mret tt
  | None => mret tt
  end.

Definition on_datagram (data : bytes) (peer : SocketAddr) (now init_seq : Z) : M Driver unit :=
  match decode data with
  | Ok pkt =>
      micros ← gets (now_micros now);
      let recv_diff := wrap 32 (micros - timestamp_micros pkt) in
      let key := (peer, connection_id pkt) in
      found ← gets (fun d => conns d !! key);
      outgoing ← match found with
        | Some e => out ← feed key e pkt recv_diff now; _ ← surface key; mret out
        | None =>
            if bool_decide (packet_type pkt = Syn) then
              let recv_key := (peer, wadd (connection_id pkt) 1) in
              found ← gets (fun d => conns d !! recv_key);
              match found with
              | Some e => feed recv_key e pkt recv_diff now
              | None =>
                  full ← gets (fun d => (MAX_CONNS <=? size (conns d))%nat);
                  if full : bool then mret []
                  else
                    match new_receiver_with_seq pkt now init_seq with
                    | Some (c, st) =>
                        i ← fresh_link recv_key;
                        _ ← put_entry recv_key (mkEntry c i 0 None true recv_diff);
                        mret [st]
                    | None => mret []
                    end
              end
            else mret []
        end;
      flush now peer recv_diff outgoing
  | Err _ => mret tt
  | Panic => lift Panic
  | NoFuel => lift NoFuel
  end.

Definition diff_for (key : ConnKey) (d : Driver) : Z := match conns d !! key with Some e => last_timestamp_diff e | None => 0 end.

(** The first of the random numbers that is free, with the next number. *)
Fixpoint free_recv_id (ids : list Z) (peer : SocketAddr) (d : Driver) : result Z :=
  match ids with
  | [] => NoFuel
  | id :: ids =>
      match conns d !! (peer, id), conns d !! (peer, wadd id 1) with
      | None, None => Ok id
      | _, _ => free_recv_id ids peer d
      end
  end.

Definition on_command (cmd : Command) (now : Z) (ids : list Z) : M Driver unit :=
  match cmd with
  | CmdConnect peer dial =>
      recv_id ← reads (free_recv_id ids peer);
      let key := (peer, recv_id) in
      let '(c, syn) := new_initiator recv_id now in
      i ← fresh_link key;
      _ ← put_entry key (mkEntry c i 0 (Some dial) false 0);
      flush now peer 0 [syn]
  | CmdSend key data gate =>
      found ← gets (fun d => conns d !! key);
      ok ← match found with
        | Some e =>
            '(c, ok) ← on_conn (conn e) (enqueue_send_block data);
            _ ← put_entry key (mkEntry c (e_link e) (last_outstanding e) (pending e) (pending_accept e) (last_timestamp_diff e));
            mret ok
        | None => mret false
        end;
      _ ← (if ok : bool then mret tt else on_link gate (fun l => with_gate (release (length data) (l_gate l)) l));
      out ← collect_after key now;
      diff ← gets (diff_for key);
      flush now key.1 diff out
  | CmdClose key =>
      found ← gets (fun d => conns d !! key);
      _ ← match found with
        | Some e =>
            '(c, _) ← on_conn (conn e) close;
            _ ← put_entry key (mkEntry c (e_link e) (last_outstanding e) (pending e) (pending_accept e) (last_timestamp_diff e));
            on_link (e_link e) (fun l => with_gate (gate_close (l_gate l)) l)
        | None => mret tt
        end;
      out ← collect_after key now;
      diff ← gets (diff_for key);
      flush now key.1 diff out
  end.

(** The timer, over the keys of the table in any order. *)
Fixpoint on_tick (keys : list ConnKey) (now : Z) : M Driver unit :=
  match keys with
  | [] => mret tt
  | key :: keys =>
      found ← gets (fun d => conns d !! key);
      out ← match found with
        | Some e =>
            '(c, out) ← on_conn (conn e) (tick now);
            _ ← put_entry key (mkEntry c (e_link e) (last_outstanding e) (pending e) (pending_accept e) (last_timestamp_diff e));
            mret out
        | None => mret []
        end;
      more ← collect_after key now;
      diff ← gets (diff_for key);
      _ ← flush now key.1 diff (out ++ more);
      on_tick keys now
  end.

(** ** The socket's callers *)

Definition connect (peer : SocketAddr) (dial : nat) : M Driver unit :=
  _ ← modify (fun d => with_dials ({[dial]} ∪ waiting d) (replies d) d);
  push_cmd (CmdConnect peer dial).

(** The caller gives up after [CONNECT_TIMEOUT]. *)
Definition connect_timeout (dial : nat) : M Driver unit := modify (fun d => with_dials (waiting d ∖ {[dial]}) (replies d) d).

(** ** Bytes a connection holds for its peer *)

Definition flight_bytes (fl : list InFlight) : nat := sum_list_with (fun e => length (body_of (packet e))) fl.
Definition held (c : Connection) : nat := out_len c + flight_bytes (in_flight c).

(** The sending side is sound: what a connection the driver made satisfies. *)
Definition sound (c : Connection) : Prop := tx_ok c /\ flight_ok (in_flight c).

Lemma flight_sum fl : flight_ok fl -> sum_res (fun e => plen (payload (packet e))) fl = Ok (flight_bytes fl).
Proof.
  induction 1 as [|e fl He _ IH]; [done|]. cbn [sum_res]. unfold payload_ok, plen in *. unfold flight_bytes, body_of in *. cbn [sum_list_with].
  destruct (as_slice (payload (packet e))) as [b| | |]; [|done..]. cbn [fmap result_fmap mbind result_bind]. rewrite IH. done.
Qed.

Lemma outstanding_held c : flight_ok (in_flight c) -> outstanding_send_bytes c = Ok (held c).
Proof. intros H. unfold outstanding_send_bytes. by rewrite flight_sum. Qed.

Lemma flight_bytes_app a b : flight_bytes (a ++ b) = (flight_bytes a + flight_bytes b)%nat.
Proof. apply sum_list_with_app. Qed.

Lemma flight_bytes_sub a b : a `sublist_of` b -> (flight_bytes a <= flight_bytes b)%nat.
Proof. unfold flight_bytes. induction 1; cbn [sum_list_with]; lia. Qed.

Lemma tx_change_held c c' : tx_change c c' -> sound c -> sound c' /\ (held c' <= held c)%nat.
Proof.
  intros T [H1 H2]. split; [split; [by eapply tx_ok_tx|]|]; destruct T as (fl & conf & fr & lf & w & S & ->); cbn [in_flight]; [by eapply flight_ok_sub|].
  unfold held. cbn [out_len in_flight]. apply flight_bytes_sub in S. lia.
Qed.

(** Operations that leave the sending side alone. *)
Definition same_tx (c c' : Connection) : Prop :=
  out_blocks c' = out_blocks c /\ out_head c' = out_head c /\ out_len c' = out_len c /\ in_flight c' = in_flight c /\ next_seq_nr c' = next_seq_nr c.

Lemma same_tx_held c c' : same_tx c c' -> sound c -> sound c' /\ held c' = held c.
Proof.
  intros (E1 & E2 & E3 & E4 & E5) [(H1 & H2 & H3 & H4) H5]. unfold sound, tx_ok, held, unsent in *. by rewrite E1, E2, E3, E4, E5.
Qed.

Lemma drain_same fuel : forall c, same_tx c (drain_loop fuel c).1.
Proof.
  induction fuel as [|fuel IH]; intros c; cbn [drain_loop]; msteps; (destruct (negb _); [done|]); (destruct (checked 64 _); [|done..]); cbn beta iota; (destruct (zm_get _ _) as [p|]; [|done]); [done|].
  destruct (as_slice p); [|done..]. cbn beta iota.
  match goal with |- same_tx _ (drain_loop fuel ?x).1 => destruct (IH x) as (E1 & E2 & E3 & E4 & E5) end. by split_and!.
Qed.

Lemma handle_data_same p c : same_tx c (handle_data p c).1.
Proof.
  unfold handle_data, reply. msteps. destruct (seq_le _ _); [done|]. destruct (_ =? 1).
  - destruct (_ <=? _); [done|]. destruct (as_slice _); [|done..]. cbn beta iota. unfold drain_pending_in. msteps.
    match goal with |- context [drain_loop ?f ?x] => pose proof (drain_same f x) as S; destruct (drain_loop f x) as [c1 [[]| | |]] end; cbn [fst] in *; done.
  - destruct (checked 64 _); [|done..]. cbn beta iota. by destruct (_ || _).
Qed.

Lemma handle_incoming_held p now c : sound c -> sound (handle_incoming p now c).1 /\ (held (handle_incoming p now c).1 <= held c)%nat.
Proof.
  intros Hc. unfold handle_incoming. msteps. destruct (matches_incoming c p); cbn [negb]; [|by split].
  case_bool_decide; cbn beta iota. { cbn [fst]. destruct (same_tx_held c (set_state ResetState c)) as [S ->]; [done|done|]. by split. }
  destruct (absorb_acks_tx p now c (proj2 Hc)) as (c1 & -> & T). cbn beta iota. apply tx_change_held in T as [S1 L1]; [|done].
  assert (K : forall c2, same_tx c1 c2 -> sound c2 /\ (held c2 <= held c)%nat) by (intros c2 E; apply same_tx_held in E as [? ->]; [by split|done]).
  destruct (packet_type p); cbn [fst].
  - apply K, handle_data_same.
  - unfold handle_fin. msteps. destruct (_ && _); cbn beta iota; by apply K.
  - unfold handle_state. msteps. case_bool_decide; cbn beta iota; by apply K.
  - by apply K.
  - unfold reply. msteps. by apply K.
Qed.

Lemma insert_flight fl i e pkt : fl !! i = Some e -> body_of (packet pkt) = body_of (packet e) -> flight_bytes (<[i := pkt]> fl) = flight_bytes fl.
Proof.
  unfold flight_bytes. revert i. induction fl as [|x fl IH]; intros i Hi Hb; [done|]. destruct i as [|i].
  - injection Hi as ->. change (<[0%nat := pkt]> (e :: fl)) with (pkt :: fl). cbn [sum_list_with]. by rewrite Hb.
  - change (<[S i := pkt]> (x :: fl)) with (x :: <[i := pkt]> fl). cbn [sum_list_with]. by rewrite (IH i).
Qed.

Lemma fast_held now c : flight_bytes (in_flight (fast_retransmit now c).1) = flight_bytes (in_flight c).
Proof.
  unfold fast_retransmit. msteps. destruct (fast_rtx_seq c) as [s|]; [|done]. destruct (list_find _ _) as [[i e]|] eqn:E; [|done].
  apply list_find_Some in E as (Ei & _ & _). cbn. by eapply insert_flight.
Qed.

Lemma flight_new now pkts : flight_bytes (as_flight now <$> pkts) = length (concat (body_of <$> pkts)).
Proof. unfold flight_bytes. induction pkts as [|p l IH]; [done|]. cbn in *. rewrite length_app, IH. done. Qed.

(** Packetizing moves bytes from the queue to the packets in flight, and loses none. *)
Lemma pending_send_held now c : sound c -> exists c' pkts, pending_send_packets now c = (c', Ok pkts) /\ sound c' /\ held c' = held c /\ q_change c c'.
Proof.
  intros Hc. pose proof Hc as [Htx Hfl]. destruct (pending_send_any now c Htx Hfl) as (c' & pkts & E & T & F & Q). exists c', pkts. split_and!; try done.
  unfold pending_send_packets in E. revert E. msteps. destruct (is_closed c); [by intros [= <- _]|]. destruct (_ || _); [by intros [= <- _]|].
  pose proof (fast_held now c) as Hf. destruct (fast_retransmit_spec now c Hfl) as (c1 & rtx & E1 & Q1 & N1 & B1 & D1 & L1 & F1 & _). rewrite E1 in *. cbn beta iota. cbn [fst] in Hf.
  assert (Htx1 : tx_ok c1) by (unfold tx_ok, unsent in *; by rewrite N1, B1, D1, L1).
  destruct (packetize_spec (out_len c1) (default INITIAL_WINDOW_PACKETS (window_packets (cc c1))) now rtx c1 Htx1 ltac:(lia)) as (c2 & new & -> & P).
  destruct P as (T2 & _ & B2 & _ & I2 & _). cbn beta iota.
  assert (H2 : held c2 = held c).
  { unfold held. rewrite I2, flight_bytes_app, flight_new, (proj1 T2), <- L1, (proj1 Htx1), <- B2, length_app, Hf. lia. }
  destruct (_ && _); [|by intros [= <- _]]. unfold push_flight. msteps. intros [= <- _]. rewrite <- H2. unfold held. cbn [out_len in_flight set_in_flight set_next_seq_nr].
  rewrite flight_bytes_app. match goal with |- context [flight_bytes [?x]] => change (flight_bytes [x]) with 0%nat end. lia.
Qed.

Lemma tick_held now c : sound c -> sound (tick now c).1 /\ held (tick now c).1 = held c /\ exists pkts, (tick now c).2 = Ok pkts.
Proof.
  intros [Htx Hfl]. destruct (tick_spec now c) as (c' & pkts & E & st & fl & Ec & F). rewrite E. cbn [fst snd]. subst c'. split_and!; [by split; [|apply F]| |by eexists].
  unfold held. cbn [out_len in_flight set_in_flight set_state]. f_equal. revert E. unfold tick. msteps. destruct (is_closed c); [by intros [= ->]|]. destruct (_ <=? _); [by intros [= _ ->]|].
  intros [= _ <- _]. unfold flight_bytes. clear. induction (in_flight c) as [|e fl IH]; [done|]. cbn. f_equal; [|exact IH]. unfold retransmit. by destruct (_ <=? _).
Qed.

Lemma enqueue_held b c : sound c -> exists c' ok, enqueue_send_block b c = (c', Ok ok) /\ sound c' /\ held c' = (held c + if ok : bool then length b else 0)%nat.
Proof.
  intros [Htx Hfl]. destruct (enqueue_tx b c Htx) as (c' & ok & E & T & Q & U & I & _). exists c', ok. split_and!; [done|by split; [|rewrite I]|].
  unfold held. rewrite I, (proj1 T), U, length_app, (proj1 Htx). destruct ok; cbn; lia.
Qed.

(** ** The invariant *)

(** Bytes of a gate's writes that wait in the channel, and the dials there. *)
Definition queued (i : nat) (ch : list Command) : nat :=
  sum_list_with (fun c => match c with CmdSend _ data g => if decide (g = i) then length data else 0%nat | _ => 0%nat end) ch.
Definition dials (ch : list Command) : nat := sum_list_with (fun c => match c with CmdConnect _ _ => 1%nat | _ => 0%nat end) ch.

(** What the gate of a connection answers for: between a call of the connection and the accounting that
    follows it, the larger of the two counts. *)
Definition owed (e : Entry) : nat := Nat.max (last_outstanding e) (held (conn e)).

Definition owed_by (i : nat) (l : Link) (cs : gmap ConnKey Entry) : nat :=
  match cs !! l_key l with Some e => if decide (e_link e = i) then owed e else 0%nat | None => 0%nat end.

(** A registered waker is of no use where the writer has seen, or will not look again for, what it waits for. *)
Definition gate_ok (w : Writer) (g : SendGate) : Prop :=
  (used g <= SEND_BUF_CAP_BYTES)%nat /\
  (waiter g = true -> match w with
     | WOpen _ => gate_closed g = false
     | WParked => used g = SEND_BUF_CAP_BYTES /\ gate_closed g = false
     | _ => True
     end).

Definition queue_ok (q : list bytes) : Prop :=
  (length q <= DELIVER_QUEUE_MSGS)%nat /\ Forall (fun c => (1 <= length c <= DELIVER_MSG_BYTES)%nat) q.

(** Whether every write meets the connection it was made on: the accounts are kept exactly only then. *)
Class Fair := fair : Prop.

Section Accounts.
Context `{Hfair : Fair}.

(** [loose] are the keys whose accounting is still to follow, [hand] the bytes of writes taken from
    the channel, [n] the dials made so far. *)
Record core_ok (loose : ConnKey -> Prop) (hand : nat -> nat) (n : nat) (cs : gmap ConnKey Entry) (ls : gmap nat Link) (next : nat) (ch : list Command) : Prop := {
  ok_entry : forall key e, cs !! key = Some e -> exists l, ls !! e_link e = Some l /\ l_key l = key;
  ok_conn : forall key e, cs !! key = Some e -> sound (conn e) /\ (~ loose key -> last_outstanding e = held (conn e));
  ok_link : forall i l, ls !! i = Some l -> (i < next)%nat /\ gate_ok (l_writer l) (l_gate l) /\ queue_ok (l_queue l) /\
    (fair -> used (l_gate l) = (queued i ch + owed_by i l cs + hand i)%nat);
  ok_gone : forall i l, ls !! i = Some l -> (exists e, cs !! l_key l = Some e /\ e_link e = i) \/ gate_closed (l_gate l) = true /\ l_sender l = false;
  ok_send : forall key data g, CmdSend key data g ∈ ch -> exists l, ls !! g = Some l /\ l_key l = key;
  ok_size : (size cs + dials ch <= MAX_CONNS + n)%nat /\ (dials ch <= n)%nat;
}.

Definition socket_ok loose hand n (d : Driver) : Prop := core_ok loose hand n (conns d) (links d) (next_link d) (cmd_ch d).

End Accounts.

Definition settled (_ : ConnKey) : Prop := False.
Definition empty_hand (_ : nat) : nat := 0%nat.

Definition is_close (c : Command) : Prop := match c with CmdClose _ => True | _ => False end.

Lemma queued_app i a b : queued i (a ++ b) = (queued i a + queued i b)%nat.
Proof. apply sum_list_with_app. Qed.

Lemma dials_app a b : dials (a ++ b) = (dials a + dials b)%nat.
Proof. apply sum_list_with_app. Qed.

Lemma closes_free cl : Forall is_close cl -> dials cl = 0%nat /\ (forall i, queued i cl = 0%nat) /\ forall key data g, CmdSend key data g ∉ cl.
Proof.
  unfold dials, queued. induction 1 as [|c cl Hc _ (IH1 & IH2 & IH3)]; [split_and!; try done; intros; apply not_elem_of_nil|]. destruct c; try done. cbn. split_and!; try done.
  intros k data g [?|?]%elem_of_cons; [done|]. by eapply IH3.
Qed.

(** A change that the invariant does not see. *)
Definition link_same (l l' : Link) : Prop := l_key l' = l_key l /\ l_gate l' = l_gate l /\ (l_queue l' = l_queue l \/ l_queue l' = []) /\ l_sender l' = l_sender l /\ l_writer l' = l_writer l.

Lemma link_same_refl l : link_same l l.
Proof. split_and!; try done. by left. Qed.

Lemma link_same_trans l1 l2 l3 : link_same l1 l2 -> link_same l2 l3 -> link_same l1 l3.
Proof. intros (?&?&Q1&?&?) (?&?&Q2&?&?). split_and!; try congruence. destruct Q2 as [->| ->]; [done|by right]. Qed.

Definition quiet (d d' : Driver) : Prop :=
  conns d' = conns d /\ next_link d' = next_link d /\ (exists cl, cmd_ch d' = cmd_ch d ++ cl /\ Forall is_close cl) /\
  forall i, option_relation link_same (fun _ => False) (fun _ => False) (links d !! i) (links d' !! i).

Lemma quiet_refl d : quiet d d.
Proof. split_and!; try done; [exists []; by rewrite app_nil_r|]. intros i. destruct (links d !! i); [apply link_same_refl|done]. Qed.

Lemma quiet_trans d1 d2 d3 : quiet d1 d2 -> quiet d2 d3 -> quiet d1 d3.
Proof.
  intros (A1 & A2 & (cl & A3 & A4) & A5) (B1 & B2 & (cl' & B3 & B4) & B5). split_and!; try congruence.
  - exists (cl ++ cl'). rewrite B3, A3, app_assoc. split; [done|by apply Forall_app].
  - intros i. specialize (A5 i). specialize (B5 i). destruct (links d1 !! i), (links d2 !! i), (links d3 !! i); try done. by eapply link_same_trans.
Qed.

Definition quietly {A} (m : M Driver A) : Prop := forall d, quiet d (m d).1.

Lemma quietly_bind {A B} (m : M Driver A) (f : A -> M Driver B) : quietly m -> (forall a, quietly (f a)) -> quietly (m ≫= f).
Proof.
  intros Hm Hf d. unfold mbind, M_bind. specialize (Hm d). destruct (m d) as [d1 [a|e| |]]; cbn [fst] in *; try done. eapply quiet_trans; [exact Hm|]. apply Hf.
Qed.

Lemma quietly_ret {A} (a : A) : quietly (mret a).
Proof. intros d. apply quiet_refl. Qed.

Lemma quietly_gets {A} (f : Driver -> A) : quietly (gets f).
Proof. intros d. apply quiet_refl. Qed.

Lemma quietly_lift {A} (r : result A) : quietly (lift r).
Proof. intros d. apply quiet_refl. Qed.

Lemma quietly_reads {A} (f : Driver -> result A) : quietly (reads f).
Proof. intros d. apply quiet_refl. Qed.

Lemma quietly_modify f : (forall d, quiet d (f d)) -> quietly (modify f).
Proof. intros Hf d. apply Hf. Qed.

Lemma quietly_link i f : (forall l, link_same l (f l)) -> quietly (on_link i f).
Proof.
  intros Hf d. unfold on_link, modify. cbn [fst]. split_and!; try done; [exists []; by rewrite app_nil_r|]. cbn [links with_links]. intros j.
  destruct (decide (i = j)) as [->|Hne]; [rewrite lookup_alter_eq; destruct (links d !! j); [apply Hf|done]|rewrite lookup_alter_ne by done; destruct (links d !! j); [apply link_same_refl|done]].
Qed.

Lemma quietly_close key : quietly (push_cmd (CmdClose key)).
Proof. intros d. split_and!; try done; [eexists; split; [done|]; by constructor|]. intros i. cbn [push_cmd modify fst links with_cmds]. destruct (links d !! i); [apply link_same_refl|done]. Qed.

Lemma quiet_same d d' : conns d' = conns d -> links d' = links d -> next_link d' = next_link d -> cmd_ch d' = cmd_ch d -> quiet d d'.
Proof. intros E1 E2 E3 E4. split_and!; try done; [exists []; by rewrite app_nil_r|]. intros i. rewrite E2. destruct (links d !! i); [apply link_same_refl|done]. Qed.

Create HintDb quiet.
#[export] Hint Resolve quietly_ret quietly_gets quietly_lift quietly_reads quietly_close : quiet.

Lemma quietly_stream i : quietly (stream i).
Proof. unfold stream. apply quietly_bind; auto with quiet. Qed.

Lemma quietly_drop i : quietly (drop_stream i).
Proof.
  unfold drop_stream. apply quietly_bind; [apply quietly_stream|]. intros l. apply quietly_bind; [destruct (shutdown_sent l); auto with quiet|]. intros _. apply quietly_link. intros x. split_and!; try done. by right.
Qed.

Lemma quietly_flush now peer diff packets : quietly (flush now peer diff packets).
Proof.
  induction packets as [|p l IH]; cbn [flush]; [auto with quiet|]. apply quietly_bind; [auto with quiet|]. intros b. apply quietly_bind; [|done]. apply quietly_modify. intros d. by apply quiet_same.
Qed.

Lemma quietly_answer dial i : quietly (answer_dial dial i).
Proof. unfold answer_dial. apply quietly_bind; [auto with quiet|]. intros w. case_decide; [|apply quietly_drop]. apply quietly_modify. intros d. by apply quiet_same. Qed.

Lemma quietly_fail dial : quietly (fail_dial dial).
Proof. apply quietly_modify. intros d. case_decide; [by apply quiet_same|apply quiet_refl]. Qed.
#[export] Hint Resolve quietly_drop quietly_flush quietly_answer quietly_fail : quiet.

(** ** Changes the invariant sees *)

Section Kept.
Context `{Hfair : Fair}.

Lemma socket_quiet loose hand n d d' : quiet d d' -> socket_ok loose hand n d -> socket_ok loose hand n d'.
Proof.
  intros (E1 & E2 & (cl & E3 & Hcl) & E4) [H1 H2 H3 H4 H5 H6]. apply closes_free in Hcl as (D & Q & N). unfold socket_ok. rewrite E1, E2, E3.
  assert (L : forall i l', links d' !! i = Some l' -> exists l, links d !! i = Some l /\ link_same l l').
  { intros i l' El. specialize (E4 i). rewrite El in E4. destruct (links d !! i) as [l|]; [|done]. by exists l. }
  assert (L' : forall i l, links d !! i = Some l -> exists l', links d' !! i = Some l' /\ link_same l l').
  { intros i l El. specialize (E4 i). rewrite El in E4. destruct (links d' !! i) as [l'|]; [|done]. by exists l'. }
  constructor.
  - intros key e He. destruct (H1 key e He) as (l & El & Ek). destruct (L' _ _ El) as (l' & El' & S & _). exists l'. split; [done|congruence].
  - done.
  - intros i l' El'. destruct (L i l' El') as (l & El & S1 & S2 & S3 & _ & S5). destruct (H3 i l El) as (A & B & C & E). unfold owed_by in *. rewrite S1, S2, S5, queued_app, Q. split_and!; [done..| |intros F; specialize (E F); lia]. destruct S3 as [->| ->]; [done|]. split; [cbn; lia|constructor].
  - intros i l' El'. destruct (L i l' El') as (l & El & S1 & S2 & S3 & S4 & _). rewrite S1, S2, S4. by apply (H4 i).
  - intros key data g Hin. apply elem_of_app in Hin as [Hin|Hin]; [|by apply N in Hin]. destruct (H5 _ _ _ Hin) as (l & El & Ek). destruct (L' _ _ El) as (l' & El' & S & _). exists l'. split; [done|congruence].
  - rewrite dials_app, D. destruct H6. lia.
Qed.

(** Replace the entry of a key, and its link, at once. *)
Lemma core_put loose loose' hand hand' n cs ls next ch key e l e' l' :
  core_ok loose hand n cs ls next ch -> cs !! key = Some e -> ls !! e_link e = Some l -> e_link e' = e_link e -> l_key l' = l_key l ->
  sound (conn e') -> (~ loose' key -> last_outstanding e' = held (conn e')) -> (forall k, k <> key -> ~ loose' k -> ~ loose k) -> (forall j, j <> e_link e -> hand' j = hand j) ->
  gate_ok (l_writer l') (l_gate l') -> queue_ok (l_queue l') -> (fair -> used (l_gate l') = (queued (e_link e) ch + owed e' + hand' (e_link e))%nat) ->
  core_ok loose' hand' n (<[key := e']> cs) (<[e_link e := l']> ls) next ch.
Proof.
  intros [H1 H2 H3 H4 H5 H6] He El Ee Ek Hs Hl Hloose Hhand Hg Hq Hu. destruct (H1 key e He) as (l0 & El0 & Ek0). rewrite El in El0. injection El0 as <-.
  constructor.
  - intros k x. destruct (decide (k = key)) as [->|Hne]; [rewrite lookup_insert_eq; intros [= <-]; rewrite Ee, lookup_insert_eq; exists l'; split; [done|congruence]|].
    rewrite lookup_insert_ne by done. intros Hx. destruct (H1 k x Hx) as (lx & Elx & Ekx). exists lx. split; [|done]. rewrite lookup_insert_ne; [done|]. intros Eq. rewrite <- Eq, El in Elx. injection Elx as <-. congruence.
  - intros k x. destruct (decide (k = key)) as [->|Hne]; [rewrite lookup_insert_eq; by intros [= <-]|]. rewrite lookup_insert_ne by done. intros Hx. destruct (H2 k x Hx) as [A B]. split; [done|]. intros Hn. by apply B, Hloose.
  - intros j x. destruct (decide (j = e_link e)) as [->|Hne].
    + rewrite lookup_insert_eq. intros [= <-]. destruct (H3 _ _ El) as (A & _). split_and!; try done. intros F. rewrite (Hu F). unfold owed_by. by rewrite Ek, Ek0, lookup_insert_eq, Ee, decide_True by done.
    + rewrite lookup_insert_ne by done. intros Hx. destruct (H3 j x Hx) as (A & B & C & D). split_and!; try done. intros F. rewrite (D F), Hhand by done. f_equal. f_equal. unfold owed_by.
      destruct (decide (l_key x = key)) as [E|E]; [|by rewrite lookup_insert_ne by congruence]. rewrite E, He, lookup_insert_eq, Ee. by rewrite !decide_False by congruence.
  - intros j x. destruct (decide (j = e_link e)) as [->|Hne]; [rewrite lookup_insert_eq; intros [= <-]; left; exists e'; split; [by rewrite Ek, Ek0, lookup_insert_eq|done]|].
    rewrite lookup_insert_ne by done. intros Hx. destruct (H4 j x Hx) as [(y & Ey & Ej)|?]; [left|by right]. destruct (decide (l_key x = key)) as [E|E]; [rewrite E in Ey; congruence|].
    exists y. by rewrite lookup_insert_ne by congruence.
  - intros k data g Hin. destruct (H5 k data g Hin) as (x & Ex & Ekx). destruct (decide (g = e_link e)) as [->|Hne]; [|exists x; by rewrite lookup_insert_ne by congruence].
    exists l'. rewrite lookup_insert_eq. split; [done|]. rewrite El in Ex. injection Ex as <-. congruence.
  - by rewrite map_size_insert_Some by (by eexists).
Qed.

(** Drop the entry of a key, closing its link. *)
Lemma core_drop loose hand n cs ls next ch key e l l' :
  core_ok loose hand n cs ls next ch -> cs !! key = Some e -> ls !! e_link e = Some l -> l_key l' = l_key l -> gate_ok (l_writer l') (l_gate l') -> queue_ok (l_queue l') ->
  gate_closed (l_gate l') = true -> l_sender l' = false -> (fair -> used (l_gate l') = (queued (e_link e) ch + hand (e_link e))%nat) ->
  core_ok loose hand n (delete key cs) (<[e_link e := l']> ls) next ch.
Proof.
  intros [H1 H2 H3 H4 H5 H6] He El Ek Hg Hq Hc Hsd Hu. destruct (H1 key e He) as (l0 & El0 & Ek0). rewrite El in El0. injection El0 as <-.
  constructor.
  - intros k x [Hne Hx]%lookup_delete_Some. destruct (H1 k x Hx) as (lx & Elx & Ekx). exists lx. split; [|done]. rewrite lookup_insert_ne; [done|]. intros Eq. rewrite <- Eq, El in Elx. injection Elx as <-. congruence.
  - intros k x [Hne Hx]%lookup_delete_Some. by apply H2.
  - intros j x. destruct (decide (j = e_link e)) as [->|Hne].
    + rewrite lookup_insert_eq. intros [= <-]. destruct (H3 _ _ El) as (A & _). split_and!; try done. intros F. rewrite (Hu F). unfold owed_by. rewrite Ek, Ek0, lookup_delete_eq. lia.
    + rewrite lookup_insert_ne by done. intros Hx. destruct (H3 j x Hx) as (A & B & C & D). split_and!; try done. intros F. rewrite (D F). f_equal. f_equal. unfold owed_by.
      destruct (decide (l_key x = key)) as [E|E]; [|by rewrite lookup_delete_ne by congruence]. rewrite E, He, lookup_delete_eq. by rewrite decide_False by congruence.
  - intros j x. destruct (decide (j = e_link e)) as [->|Hne]; [rewrite lookup_insert_eq; intros [= <-]; by right|].
    rewrite lookup_insert_ne by done. intros Hx. destruct (H4 j x Hx) as [(y & Ey & Ej)|?]; [left|by right]. destruct (decide (l_key x = key)) as [E|E]; [rewrite E in Ey; congruence|].
    exists y. by rewrite lookup_delete_ne by congruence.
  - intros k data g Hin. destruct (H5 k data g Hin) as (x & Ex & Ekx). destruct (decide (g = e_link e)) as [->|Hne]; [|exists x; by rewrite lookup_insert_ne by congruence].
    exists l'. rewrite lookup_insert_eq. split; [done|]. rewrite El in Ex. injection Ex as <-. congruence.
  - rewrite map_size_delete_Some by (by eexists). destruct H6. lia.
Qed.

Lemma queued_fresh loose hand n cs ls next ch : core_ok loose hand n cs ls next ch -> queued next ch = 0%nat.
Proof.
  intros [H1 H2 H3 H4 H5 H6]. unfold queued. assert (G : forall key data g, CmdSend key data g ∈ ch -> g <> next).
  { intros key data g Hin ->. destruct (H5 _ _ _ Hin) as (l & El & _). apply H3 in El as [El _]. lia. }
  clear H5 H6 H3. induction ch as [|c ch IH]; [done|]. cbn. rewrite IH by (intros k data g Hin; apply (G k data g); by right).
  destruct c as [|k data g|]; try done. rewrite decide_False; [done|]. apply (G k data g). by left.
Qed.

(** A new connection with its gate. *)
Lemma core_new n n' cs ls next ch key e : core_ok settled empty_hand n cs ls next ch -> cs !! key = None -> e_link e = next -> last_outstanding e = 0%nat -> sound (conn e) -> held (conn e) = 0%nat ->
  (S (size cs) + dials ch <= MAX_CONNS + n')%nat /\ (dials ch <= n')%nat -> core_ok settled empty_hand n' (<[key := e]> cs) (<[next := new_link key]> ls) (S next) ch.
Proof.
  intros Hok Hk Ee El Hs Hh Hsz. pose proof (queued_fresh _ _ _ _ _ _ _ Hok) as Hq. destruct Hok as [H1 H2 H3 H4 H5 H6].
  assert (Hno : ls !! next = None) by (destruct (ls !! next) as [l|] eqn:E; [apply H3 in E as [? _]; lia|done]).
  constructor.
  - intros k x. destruct (decide (k = key)) as [->|Hne]; [rewrite lookup_insert_eq; intros [= <-]; rewrite Ee, lookup_insert_eq; by exists (new_link key)|].
    rewrite lookup_insert_ne by done. intros Hx. destruct (H1 k x Hx) as (lx & Elx & Ekx). exists lx. split; [|done]. rewrite lookup_insert_ne; [done|]. intros Eq. congruence.
  - intros k x. destruct (decide (k = key)) as [->|Hne]; [rewrite lookup_insert_eq; intros [= <-]; split; [done|]; by rewrite El, Hh|]. rewrite lookup_insert_ne by done. apply H2.
  - intros j x. destruct (decide (j = next)) as [->|Hne].
    + rewrite lookup_insert_eq. intros [= <-]. split_and!; [lia|split; [cbn; lia|done]|split; [cbn; lia|constructor]|]. intros _. rewrite Hq. unfold owed_by, owed, empty_hand. cbn [l_key new_link l_gate gate_new used].
      rewrite lookup_insert_eq, El, Hh. by destruct (decide _).
    + rewrite lookup_insert_ne by done. intros Hx. destruct (H3 j x Hx) as (A & B & C & D). split_and!; [lia|done|done|]. intros F. rewrite (D F). f_equal. f_equal. unfold owed_by.
      destruct (decide (l_key x = key)) as [E|E]; [|by rewrite lookup_insert_ne by congruence]. rewrite E, Hk, lookup_insert_eq, decide_False by congruence. done.
  - intros j x. destruct (decide (j = next)) as [->|Hne]; [rewrite lookup_insert_eq; intros [= <-]; left; exists e; by rewrite lookup_insert_eq|].
    rewrite lookup_insert_ne by done. intros Hx. destruct (H4 j x Hx) as [(y & Ey & Ej)|?]; [left|by right]. exists y. rewrite lookup_insert_ne by congruence. done.
  - intros k data g Hin. destruct (H5 k data g Hin) as (x & Ex & Ekx). exists x. by rewrite lookup_insert_ne by congruence.
  - by rewrite map_size_insert_None.
Qed.

(** Delivery fills the queue at most, and never runs out of turns. *)
Lemma deliver_spec fuel : forall c l, (DELIVER_QUEUE_MSGS <= length (l_queue l) + fuel)%nat -> queue_ok (l_queue l) ->
  exists c' q, deliver_loop fuel c l = Ok (c', with_queue q l) /\ same_tx c c' /\ queue_ok q.
Proof.
  induction fuel as [|fuel IH]; intros c l Hf Hq; cbn [deliver_loop].
  - rewrite (proj2 (Nat.ltb_ge _ _)) by lia. exists c, (l_queue l). by destruct l.
  - destruct (Nat.ltb_spec (length (l_queue l)) DELIVER_QUEUE_MSGS) as [Hl|Hl]; [|exists c, (l_queue l); by destruct l].
    unfold take_received. msteps. cbn [mbind result_bind]. set (k := Nat.min _ _). destruct (Nat.eqb_spec (length (take k (in_buf c))) 0) as [E|E]; [eexists _, (l_queue l); split; [by destruct l|done]|].
    destruct (l_receiver l); [|eexists _, (l_queue l); split; [by destruct l|done]].
    destruct (IH (set_in_buf (drop k (in_buf c)) c) (with_queue (l_queue l ++ [take k (in_buf c)]) l)) as (c' & q & E' & S & Q).
    + cbn [l_queue with_queue]. rewrite length_app. cbn. lia.
    + destruct Hq as [Q1 Q2]. split; cbn [l_queue with_queue]; [rewrite length_app; cbn; lia|]. apply Forall_app. split; [done|]. constructor; [|constructor]. rewrite length_take in *. unfold DELIVER_MSG_BYTES in *. lia.
    + exists c', q. rewrite E'. by destruct l.
Qed.

Lemma quiet_conns m d d' : quiet d d' -> quiet (with_conns m d) (with_conns m d').
Proof. intros (E1 & E2 & E3 & E4). by split_and!. Qed.

Lemma quiet_link d d' i l : quiet d d' -> links d !! i = Some l -> exists l', links d' !! i = Some l' /\ link_same l l'.
Proof. intros (_ & _ & _ & E) El. specialize (E i). rewrite El in E. destruct (links d' !! i) as [l'|]; [|done]. by exists l'. Qed.

Lemma drop_runs i l d : links d !! i = Some l -> exists d', drop_stream i d = (d', Ok tt) /\ quiet d d'.
Proof. intros El. pose proof (quietly_drop i d) as Q. unfold drop_stream, stream in *. revert Q. msteps. rewrite El. cbn beta iota. destruct (shutdown_sent l); cbn beta iota; intros Q; by eexists. Qed.

Lemma answer_runs dial i l d : links d !! i = Some l -> exists d', answer_dial dial i d = (d', Ok tt) /\ quiet d d'.
Proof.
  intros El. unfold answer_dial. rewrite bind_gets. case_decide; [|by eapply drop_runs]. eexists. split; [done|]. by apply quiet_same.
Qed.

Lemma alter_insert_link (ls : gmap nat Link) i l f : ls !! i = Some l -> alter f i ls = <[i := f l]> ls.
Proof.
  intros El. apply map_eq. intros j. destruct (decide (i = j)) as [->|Hne]; [by rewrite lookup_alter_eq, lookup_insert_eq, El|by rewrite lookup_alter_ne, lookup_insert_ne].
Qed.

Lemma release_gate w k g : gate_ok w g -> gate_ok w (release k g) /\ used (release k g) = (used g - k)%nat.
Proof. intros [H1 H2]. unfold release. destruct (Nat.eqb_spec k 0) as [->|]; [split; [done|lia]|]. split; [|done]. split; [cbn; lia|done]. Qed.

Lemma reap_ok hand n key e l d : socket_ok settled hand n d -> conns d !! key = Some e -> links d !! e_link e = Some l ->
  exists d', reap key e d = (d', Ok tt) /\ socket_ok settled hand n d' /\ conns d' = delete key (conns d).
Proof.
  intros Hok He El. pose proof Hok as [_ H2 H3 _ _ _]. destruct (H2 key e He) as [Hs Hh]. specialize (Hh (fun F => F)). unfold reap.
  assert (P : exists d1, (match pending e with Some dial => fail_dial dial | None => mret tt end : M Driver unit) d = (d1, Ok tt) /\ quiet d d1).
  { destruct (pending e) as [dial|]; [|exists d; split; [done|apply quiet_refl]]. exists (fail_dial dial d).1. split; [done|]. apply quietly_fail. }
  destruct P as (d1 & E1 & Q1). rewrite (bind_step _ _ _ _ _ E1). rewrite outstanding_held by apply Hs. rewrite bind_lift.
  destruct (quiet_link _ _ _ _ Q1 El) as (l1 & El1 & K1 & G1 & U1 & S1 & W1). pose proof (socket_quiet _ _ _ _ _ Q1 Hok) as Hok1. pose proof Q1 as (C1 & N1 & _).
  destruct (ok_link _ _ _ _ _ _ _ Hok1 _ _ El1) as (_ & Gk & Qk & Uk). destruct (ok_entry _ _ _ _ _ _ _ Hok key e He) as (l0 & El0 & Ek). rewrite El in El0. injection El0 as <-.
  unfold owed_by in Uk. rewrite K1, Ek, C1, He, decide_True in Uk by done. unfold owed in Uk. rewrite Hh, Nat.max_id in Uk.
  destruct (release_gate _ (held (conn e)) (l_gate l1) Gk) as [[R1 _] R2]. unfold on_link, modify. unfold mbind at 1, M_bind at 1. cbn beta iota. unfold mbind at 1, M_bind at 1. cbn beta iota.
  set (l2 := with_sender false (with_gate (gate_close (release (held (conn e)) (l_gate l1))) l1)).
  set (d2 := with_conns (delete key _) _). assert (Hok2 : socket_ok settled hand n d2).
  { unfold socket_ok, d2. cbn [conns links next_link cmd_ch with_conns with_links]. rewrite (alter_insert_link _ _ _ _ El1). fold l2.
    eapply (core_drop _ _ _ (conns d1) (links d1) _ _ key e l1 l2); try done; [by rewrite C1|]. change (used (l_gate l2)) with (used (release (held (conn e)) (l_gate l1))). intros F. specialize (Uk F). lia. }
  assert (Ec : conns d2 = delete key (conns d)) by (unfold d2; cbn; by rewrite C1).
  assert (El2 : links d2 !! e_link e = Some l2) by (unfold d2; cbn; by rewrite lookup_alter_eq, El1).
  destruct (pending_accept e); [|by exists d2]. destruct (drop_runs _ _ _ El2) as (d3 & E3 & Q3). exists d3. split; [done|]. split; [by eapply socket_quiet|]. rewrite <- Ec. by destruct Q3.
Qed.

(** The follow-up of a call settles the accounts of its connection, and always returns. *)
Lemma collect_ok hand n key now d : socket_ok (eq key) hand n d -> exists d' pkts, collect_after key now d = (d', Ok pkts) /\ socket_ok settled hand n d' /\ (size (conns d') <= size (conns d))%nat.
Proof.
  intros Hok. unfold collect_after. rewrite bind_gets. destruct (conns d !! key) as [e|] eqn:He; cycle 1.
  { exists d, []. split; [done|]. split; [|done]. destruct Hok as [H1 H2 H3 H4 H5 H6]. constructor; try done. intros k x Hx. destruct (H2 k x Hx) as [A B]. split; [done|]. intros _. apply B. intros <-. congruence. }
  pose proof Hok as [H1 H2 H3 _ _ _]. destruct (H1 key e He) as (l & El & Ek). destruct (H2 key e He) as [Hs _]. destruct (H3 _ _ El) as (_ & Gl & Ql & Ul).
  unfold owed_by in Ul. rewrite Ek, He, decide_True in Ul by done. unfold stream at 1. unfold mbind at 1, M_bind at 1. rewrite bind_gets, El. unfold lift at 1. cbn beta iota.
  destruct (deliver_spec DELIVER_QUEUE_MSGS (conn e) l ltac:(lia) Ql) as (c1 & q & E1 & S1 & Q1). rewrite E1, bind_lift. apply same_tx_held in S1 as [Hs1 Hh1]; [|done].
  destruct (pending_send_held now c1 Hs1) as (c2 & pkts & E2 & Hs2 & Hh2 & _). unfold on_conn at 1. unfold mbind at 1, M_bind at 1. rewrite E2. cbn [fmap result_fmap]. cbn beta iota.
  rewrite outstanding_held by apply Hs2. rewrite bind_lift. set (g := if (_ <? _)%nat then _ else _).
  assert (Hg : gate_ok (l_writer l) g /\ (fair -> used g = (queued (e_link e) (cmd_ch d) + held c2 + hand (e_link e))%nat)).
  { unfold g, owed in *. cbn [l_gate with_queue]. destruct (Nat.ltb_spec (held c2) (last_outstanding e)); [|split; [done|intros F; specialize (Ul F); lia]].
    destruct (release_gate _ (last_outstanding e - held c2) (l_gate l) Gl) as [R1 R2]. split; [done|]. intros F. specialize (Ul F). lia. }
  destruct Hg as [Hg Hu]. set (l2 := with_gate g (with_queue q l)). unfold on_link at 1, modify at 1. unfold mbind at 1, M_bind at 1. cbn beta iota.
  set (d1 := with_links _ _ d). set (connected := bool_decide _).
  assert (El1 : links d1 !! e_link e = Some l2) by (unfold d1; cbn; by rewrite lookup_alter_eq, El).
  assert (P : exists d2, (match pending e with Some dial => if connected then answer_dial dial (e_link e) else mret tt | None => mret tt end : M Driver unit) d1 = (d2, Ok tt) /\ quiet d1 d2).
  { destruct (pending e) as [dial|]; [|exists d1; split; [done|apply quiet_refl]]. destruct connected; [by eapply answer_runs|exists d1; split; [done|apply quiet_refl]]. }
  destruct P as (d2 & E3 & Q2). rewrite (bind_step _ _ _ _ _ E3). set (e' := mkEntry c2 _ _ _ _ _). unfold put_entry at 1, modify at 1. unfold mbind at 1, M_bind at 1. cbn beta iota. set (d3 := with_conns _ d2).
  assert (Hok3 : socket_ok settled hand n d3).
  { replace d3 with (with_conns (<[key := e']> (conns d)) d2) by (unfold d3; destruct Q2 as (-> & _); done). eapply socket_quiet; [apply quiet_conns, Q2|].
    unfold socket_ok, d1. cbn [conns links next_link cmd_ch with_conns with_links]. rewrite (alter_insert_link _ _ _ _ El). fold l2.
    eapply (core_put (eq key) settled hand hand n (conns d) (links d) _ _ key e l e' l2); try done. cbn [l_gate l2 with_gate]. unfold owed. cbn [last_outstanding conn e']. rewrite Nat.max_id. exact Hu. }
  assert (Sz : size (conns d3) = size (conns d)) by (unfold d3; cbn; destruct Q2 as (-> & _); by rewrite map_size_insert_Some by (by eexists)).
  destruct (is_closed c2 || fin_complete c2); [|exists d3, pkts; split; [done|]; split; [done|lia]].
  destruct (quiet_link _ _ _ _ Q2 El1) as (l3 & El3 & _). destruct (reap_ok hand n key e' l3 d3 Hok3) as (d4 & E4 & Hok4 & C4); [by unfold d3; cbn; rewrite lookup_insert_eq|done|].
  rewrite (bind_step _ _ _ _ _ E4). exists d4, pkts. split; [done|]. split; [done|]. rewrite C4, map_size_delete_Some, Sz; [lia|]. unfold d3. cbn. rewrite lookup_insert_eq. by eexists.
Qed.

(** Replace the entry of a key alone. *)
Lemma entry_put hand hand' n d key e e' : socket_ok settled hand n d -> conns d !! key = Some e -> e_link e' = e_link e -> sound (conn e') ->
  (forall j, j <> e_link e -> hand' j = hand j) -> (fair -> (owed e' + hand' (e_link e) = owed e + hand (e_link e))%nat) ->
  socket_ok (eq key) hand' n (with_conns (<[key := e']> (conns d)) d).
Proof.
  intros Hok He Ee Hs Hh Ho. destruct (ok_entry _ _ _ _ _ _ _ Hok key e He) as (l & El & Ek). destruct (ok_link _ _ _ _ _ _ _ Hok _ _ El) as (_ & G & Q & U).
  unfold socket_ok. cbn [conns links next_link cmd_ch with_conns]. rewrite <- (insert_id (links d) (e_link e) l El).
  eapply (core_put settled (eq key) hand hand' n _ _ _ _ key e l e' l); try done; [by intros k _ _ F|]. intros F. rewrite (U F). unfold owed_by. rewrite Ek, He, decide_True by done. specialize (Ho F). lia.
Qed.

(** Change a link alone. *)
Lemma core_link loose hand hand' n cs ls next ch i l l' : core_ok loose hand n cs ls next ch -> ls !! i = Some l -> l_key l' = l_key l -> gate_ok (l_writer l') (l_gate l') -> queue_ok (l_queue l') ->
  (gate_closed (l_gate l) = true -> gate_closed (l_gate l') = true) -> (l_sender l = false -> l_sender l' = false) -> (forall j, j <> i -> hand' j = hand j) ->
  (fair -> (used (l_gate l') + hand i = used (l_gate l) + hand' i)%nat) -> core_ok loose hand' n cs (<[i := l']> ls) next ch.
Proof.
  intros [H1 H2 H3 H4 H5 H6] El Ek Hg Hq Hc Hsd Hh Hu.
  assert (L : forall j x, ls !! j = Some x -> exists x', <[i := l']> ls !! j = Some x' /\ l_key x' = l_key x).
  { intros j x Ex. destruct (decide (j = i)) as [->|Hne]; [exists l'; rewrite lookup_insert_eq; split; [done|congruence]|exists x; by rewrite lookup_insert_ne by done]. }
  constructor; try done.
  - intros k x Hx. destruct (H1 k x Hx) as (lx & Elx & Ekx). destruct (L _ _ Elx) as (y & Ey & Ey'). exists y. split; [done|congruence].
  - intros j x. destruct (decide (j = i)) as [->|Hne]; [rewrite lookup_insert_eq; intros [= <-]|rewrite lookup_insert_ne by done; intros Hx; destruct (H3 j x Hx) as (?&?&?&?); split_and!; try done; by rewrite Hh].
    destruct (H3 _ _ El) as (A & B & C & D). split_and!; try done. unfold owed_by in *. rewrite Ek. intros F. specialize (D F). specialize (Hu F). lia.
  - intros j x. destruct (decide (j = i)) as [->|Hne]; [rewrite lookup_insert_eq; intros [= <-]|rewrite lookup_insert_ne by done; apply H4].
    rewrite Ek. destruct (H4 _ _ El) as [?|[? ?]]; [by left|right; auto].
  - intros k data g Hin. destruct (H5 _ _ _ Hin) as (x & Ex & Ekx). destruct (L _ _ Ex) as (y & Ey & Ey'). exists y. split; [done|congruence].
Qed.

Lemma on_link_ok loose hand hand' n d i f : socket_ok loose hand n d -> (forall j, j <> i -> hand' j = hand j) -> (links d !! i = None -> hand' i = hand i) ->
  (forall l, links d !! i = Some l -> l_key (f l) = l_key l /\ gate_ok (l_writer (f l)) (l_gate (f l)) /\ queue_ok (l_queue (f l)) /\ (gate_closed (l_gate l) = true -> gate_closed (l_gate (f l)) = true) /\
    (l_sender l = false -> l_sender (f l) = false) /\ (fair -> (used (l_gate (f l)) + hand i = used (l_gate l) + hand' i)%nat)) ->
  socket_ok loose hand' n (on_link i f d).1.
Proof.
  intros Hok Hh Hn Hf. unfold on_link, modify, socket_ok. cbn [fst conns links next_link cmd_ch with_links]. destruct (links d !! i) as [l|] eqn:El.
  - rewrite (alter_insert_link _ _ _ _ El). destruct (Hf l eq_refl) as (A & B & C & D & E & F). by eapply core_link.
  - assert (Ea : alter f i (links d) = links d) by (apply map_eq; intros j; destruct (decide (i = j)) as [->|Hne]; [rewrite lookup_alter_eq, El; done|by rewrite lookup_alter_ne]).
    rewrite Ea. destruct Hok as [H1 H2 H3 H4 H5 H6]. constructor; try done. intros j x Hx. destruct (H3 j x Hx) as (?&?&?&?). split_and!; try done. rewrite Hh; [done|]. intros ->. congruence.
Qed.

(** Closing a gate, and the link fields the invariant does not see. *)
Lemma close_gate_ok loose hand n d i : socket_ok loose hand n d -> socket_ok loose hand n (on_link i (fun l => with_gate (gate_close (l_gate l)) l) d).1.
Proof.
  intros Hok. apply (on_link_ok loose hand hand); try done. intros l El. destruct (ok_link _ _ _ _ _ _ _ Hok _ _ El) as (_ & [G1 G2] & Q & _). split_and!; try done.
Qed.

Lemma feed_ok n key e pkt diff now d d' out : socket_ok settled empty_hand n d -> conns d !! key = Some e -> feed key e pkt diff now d = (d', Ok out) ->
  socket_ok settled empty_hand n d' /\ (size (conns d') <= size (conns d))%nat.
Proof.
  intros Hok He. destruct (ok_conn _ _ _ _ _ _ _ Hok key e He) as [Hs Hl]. specialize (Hl (fun F => F)). destruct (handle_incoming_held pkt now (conn e) Hs) as [Hs' Hh].
  unfold feed, on_conn. unfold mbind at 1, M_bind at 1. destruct (handle_incoming pkt now (conn e)) as [c [resp|x| |]]; cbn [fst snd fmap result_fmap] in *; try done. cbn beta iota.
  unfold put_entry at 1, modify at 1. unfold mbind at 1, M_bind at 1. cbn beta iota.
  match goal with |- context [with_conns ?m d] => pose (d1 := with_conns m d) end.
  assert (Hok1 : socket_ok (eq key) empty_hand n d1) by (apply (entry_put empty_hand empty_hand n d key e); try done; unfold owed; cbn [last_outstanding conn]; lia).
  destruct (collect_ok empty_hand n key now d1 Hok1) as (d2 & pkts & E2 & Hok2 & Sz). rewrite (bind_step _ _ _ _ _ E2). intros [= <- _]. split; [done|].
  etrans; [exact Sz|]. unfold d1. cbn. by rewrite map_size_insert_Some by (by eexists).
Qed.

Lemma surface_ok n key d d' : socket_ok settled empty_hand n d -> surface key d = (d', Ok tt) -> socket_ok settled empty_hand n d'.
Proof.
  intros Hok. unfold surface. rewrite bind_gets. destruct (conns d !! key) as [e|] eqn:He; [|by intros [= <-]]. destruct (_ && _); [|by intros [= <-]].
  set (e' := mkEntry _ _ _ _ false _). set (d1 := with_conns (<[key := e']> (conns d)) d). rewrite (bind_step (put_entry key e') _ d d1 tt eq_refl).
  destruct (ok_conn _ _ _ _ _ _ _ Hok key e He) as [Hs Hl]. specialize (Hl (fun F => F)).
  assert (Hok1 : socket_ok settled empty_hand n d1).
  { assert (H : socket_ok (eq key) empty_hand n d1) by (by apply (entry_put empty_hand empty_hand n d key e)). destruct H as [H1 H2 H3 H4 H5 H6]. constructor; try done. intros k x Hx. destruct (H2 k x Hx) as [A B]. split; [done|]. intros _.
    unfold d1 in Hx. cbn in Hx. destruct (decide (k = key)) as [->|Hne]; [rewrite lookup_insert_eq in Hx; injection Hx as <-; exact Hl|]. rewrite lookup_insert_ne in Hx by done. apply (proj2 (ok_conn _ _ _ _ _ _ _ Hok k x Hx)). by intros F. }
  rewrite bind_gets. destruct (accepting d1); [intros [= <-]; eapply socket_quiet; [|exact Hok1]; by apply quiet_same|]. intros E. eapply socket_quiet; [|exact Hok1].
  pose proof (quietly_drop (e_link e) d1) as Q. by rewrite E in Q.
Qed.

(** ** The handlers keep the invariant *)

Lemma receiver_fresh pkt now seq c st : 0 <= seq < 2 ^ 16 -> new_receiver_with_seq pkt now seq = Some (c, st) -> sound c /\ held c = 0%nat.
Proof. intros Hs. unfold new_receiver_with_seq. destruct (negb _); [done|]. intros [= <- _]. split; [|done]. split; [|constructor]. split_and!; cbn; try done; try constructor; lia. Qed.

Lemma initiator_fresh id now : sound (new_initiator id now).1 /\ held (new_initiator id now).1 = 0%nat.
Proof. split; [|done]. split; [|constructor; [done|constructor]]. split_and!; cbn; try done; try constructor; try lia; done. Qed.

Lemma flushed n d0 d now peer diff packets : socket_ok settled empty_hand n d0 -> flush now peer diff packets d0 = (d, Ok tt) -> socket_ok settled empty_hand n d.
Proof. intros Hok E. eapply socket_quiet; [|exact Hok]. pose proof (quietly_flush now peer diff packets d0) as Q. by rewrite E in Q. Qed.

(** Unfold one bind of a run that succeeded. *)
Lemma bind_inv {S A B} (m : M S A) (f : A -> M S B) s s' b : (m ≫= f) s = (s', Ok b) -> exists s1 a, m s = (s1, Ok a) /\ f a s1 = (s', Ok b).
Proof. unfold mbind, M_bind. destruct (m s) as [s1 [a|e| |]]; try done. intros E. by exists s1, a. Qed.

Lemma insert_new n n' d key c p a diff : socket_ok settled empty_hand n d -> conns d !! key = None -> sound c -> held c = 0%nat ->
  (S (size (conns d)) + dials (cmd_ch d) <= MAX_CONNS + n')%nat /\ (dials (cmd_ch d) <= n')%nat ->
  exists d', fresh_link key d = (d', Ok (next_link d)) /\ socket_ok settled empty_hand n' (with_conns (<[key := mkEntry c (next_link d) 0 p a diff]> (conns d')) d').
Proof.
  intros Hok Hk Hs Hh Hsz. eexists. split; [done|]. unfold socket_ok. cbn [conns links next_link cmd_ch with_conns with_links]. by eapply core_new.
Qed.

Lemma datagram_ok n data peer now seq d d' : socket_ok settled empty_hand n d -> 0 <= seq < 2 ^ 16 -> on_datagram data peer now seq d = (d', Ok tt) -> socket_ok settled empty_hand n d'.
Proof.
  intros Hok Hseq. unfold on_datagram. destruct (decode data) as [pkt|e| |]; [|by intros [= <-]|done..]. rewrite bind_gets. cbv zeta. rewrite bind_gets.
  set (key := (peer, connection_id pkt)). set (diff := wrap 32 _). intros E. apply bind_inv in E as (d1 & out & E & Ef). eapply flushed; [|exact Ef]. clear Ef.
  destruct (conns d !! key) as [e|] eqn:He.
  { apply bind_inv in E as (d2 & o & E & E'). apply bind_inv in E' as (d3 & [] & E' & [= <- _]). eapply surface_ok; [|exact E']. by eapply feed_ok. }
  case_bool_decide; [|by injection E as <- _]. rewrite bind_gets in E. destruct (conns d !! (peer, wadd (connection_id pkt) 1)) as [e|] eqn:He'; [by eapply feed_ok|].
  rewrite bind_gets in E. destruct (Nat.leb_spec MAX_CONNS (size (conns d))) as [|Hsz]; [by injection E as <- _|].
  destruct (new_receiver_with_seq pkt now seq) as [[c st]|] eqn:Er; [|by injection E as <- _]. apply receiver_fresh in Er as [Hs Hh]; [|done]. pose proof (ok_size _ _ _ _ _ _ _ Hok) as [Z1 Z2].
  destruct (insert_new n n d (peer, wadd (connection_id pkt) 1) c None true diff Hok He' Hs Hh) as (d2 & E2 & Hok2); [lia|]. rewrite (bind_step _ _ _ _ _ E2) in E. injection E as <- _. exact Hok2.
Qed.

(** A call of the connection of [key] that does not raise what it holds, then the follow-up. *)
Lemma touch_ok hand hand' n key e e' now d d' pkts : socket_ok settled hand n d -> conns d !! key = Some e -> e_link e' = e_link e -> sound (conn e') ->
  (forall j, j <> e_link e -> hand' j = hand j) -> (fair -> (owed e' + hand' (e_link e) = owed e + hand (e_link e))%nat) ->
  collect_after key now (with_conns (<[key := e']> (conns d)) d) = (d', Ok pkts) -> socket_ok settled hand' n d'.
Proof.
  intros Hok He Ee Hs Hh Ho E. destruct (collect_ok hand' n key now (with_conns (<[key := e']> (conns d)) d)) as (d2 & p2 & E2 & Hok2 & _); [by eapply entry_put|].
  rewrite E2 in E. by injection E as <- _.
Qed.

Lemma loosen hand n key d : socket_ok settled hand n d -> socket_ok (eq key) hand n d.
Proof. intros [H1 H2 H3 H4 H5 H6]. constructor; try done. intros k e He. destruct (H2 k e He) as [A B]. split; [done|]. intros _. apply B. by intros F. Qed.

Lemma collect_idle hand n key now d d' pkts : socket_ok settled hand n d -> collect_after key now d = (d', Ok pkts) -> socket_ok settled hand n d'.
Proof. intros Hok E. destruct (collect_ok hand n key now d (loosen _ _ _ _ Hok)) as (d2 & p2 & E2 & Hok2 & _). rewrite E2 in E. by injection E as <- _. Qed.

Lemma tick_ok n keys now : forall d d', socket_ok settled empty_hand n d -> on_tick keys now d = (d', Ok tt) -> socket_ok settled empty_hand n d'.
Proof.
  induction keys as [|key keys IH]; intros d d' Hok E; cbn [on_tick] in E; [by injection E as <-|]. rewrite bind_gets in E. apply bind_inv in E as (d1 & out & E1 & E). apply bind_inv in E as (d2 & more & E2 & E). rewrite bind_gets in E.
  apply bind_inv in E as (d3 & [] & E3 & E). eapply IH; [|exact E]. eapply flushed; [|exact E3]. clear E E3 IH. destruct (conns d !! key) as [e|] eqn:He; [|injection E1 as <- _; by eapply collect_idle].
  destruct (ok_conn _ _ _ _ _ _ _ Hok key e He) as [Hs _]. destruct (tick_held now (conn e) Hs) as (Hs' & Hh & _). unfold on_conn in E1. unfold mbind at 1, M_bind at 1 in E1.
  destruct (tick now (conn e)) as [c [pk|x| |]]; cbn [fst snd fmap result_fmap] in *; try done. injection E1 as <- _. eapply (touch_ok empty_hand empty_hand n key e); [exact Hok|done|..|exact E2]; try done. unfold owed. cbn [last_outstanding conn]. by rewrite Hh.
Qed.

Lemma collected hand n key now d d' pkts : socket_ok (eq key) hand n d -> collect_after key now d = (d', Ok pkts) -> socket_ok settled hand n d'.
Proof. intros Hok E. destruct (collect_ok hand n key now d Hok) as (d2 & p2 & E2 & Hok2 & _). rewrite E2 in E. by injection E as <- _. Qed.

(** The bytes of a command taken from the channel. *)
Definition hand_of (c : Command) (i : nat) : nat := match c with CmdSend _ data g => if decide (g = i) then length data else 0%nat | _ => 0%nat end.

Lemma pop_ok n c rest d : socket_ok settled empty_hand n d -> cmd_ch d = c :: rest -> socket_ok settled (hand_of c) n (with_cmds rest d) /\
  (match c with CmdConnect _ _ => (S (size (conns d)) + dials rest <= MAX_CONNS + n)%nat /\ (dials rest <= n)%nat | CmdSend key _ g => is_Some (links d !! g) | _ => True end).
Proof.
  intros [H1 H2 H3 H4 H5 H6] Ec. rewrite Ec in *. split.
  - unfold socket_ok. cbn [conns links next_link cmd_ch with_cmds]. constructor; try done.
    + intros i l El. destruct (H3 i l El) as (A & B & C & D). split_and!; try done. intros F. rewrite (D F). change (queued i (c :: rest)) with (hand_of c i + queued i rest)%nat. unfold empty_hand. lia.
    + intros k data g Hin. apply (H5 k data g). by right.
    + change (dials (c :: rest)) with ((match c with CmdConnect _ _ => 1 | _ => 0 end) + dials rest)%nat in H6. destruct c; lia.
  - destruct c as [p dl|key data g|]; [|destruct (H5 key data g) as (l & El & _); [by left|by eexists]|done]. change (dials (_ :: rest)) with (1 + dials rest)%nat in H6. lia.
Qed.

(** Credit of a write the connection refused, or that came after it was gone. *)
Lemma refund_ok loose n key data g d : socket_ok loose (hand_of (CmdSend key data g)) n d -> is_Some (links d !! g) ->
  socket_ok loose empty_hand n (on_link g (fun l => with_gate (release (length data) (l_gate l)) l) d).1.
Proof.
  intros Hok [l0 E0]. apply (on_link_ok loose (hand_of (CmdSend key data g)) empty_hand); [done|intros j Hj; cbn; by rewrite decide_False|congruence|].
  intros l El. destruct (ok_link _ _ _ _ _ _ _ Hok _ _ El) as (_ & G & Q & U). cbn [hand_of] in *. rewrite decide_True in * by done. destruct (release_gate _ (length data) (l_gate l) G) as [R1 R2].
  split_and!; try done; [|cbn [l_gate with_gate]; unfold empty_hand; intros F; specialize (U F); lia]. cbn [l_gate with_gate]. unfold release. by destruct (_ =? 0)%nat.
Qed.

(** When the accounts need not be kept, what is in hand does not matter. *)
Lemma unfair_hand loose hand hand' n d : ~ fair -> socket_ok loose hand n d -> socket_ok loose hand' n d.
Proof. intros Hn [H1 H2 H3 H4 H5 H6]. constructor; try done. intros i l El. destruct (H3 i l El) as (A & B & C & _). by split_and!. Qed.

(** Bytes the connection took: from the gate they were lent by, or from another one's. *)
Lemma taken_ok n key data g e c d : socket_ok settled (hand_of (CmdSend key data g)) n d -> conns d !! key = Some e -> (fair -> e_link e = g) -> sound c -> held c = (held (conn e) + length data)%nat ->
  socket_ok (eq key) empty_hand n (with_conns (<[key := mkEntry c (e_link e) (last_outstanding e) (pending e) (pending_accept e) (last_timestamp_diff e)]> (conns d)) d).
Proof.
  intros Hok He Hown Hs Hh. destruct (ok_conn _ _ _ _ _ _ _ Hok key e He) as [_ Hl]. specialize (Hl (fun F => F)). destruct (decide (e_link e = g)) as [Eg|Ng].
  - apply (entry_put (hand_of (CmdSend key data g)) empty_hand n d key e); try done; [intros j Hj; cbn; by rewrite decide_False by congruence|].
    intros _. unfold owed, empty_hand. cbn [last_outstanding conn hand_of]. rewrite decide_True by done. lia.
  - assert (Hn : ~ fair) by (intros F; by apply Ng, Hown). apply (unfair_hand _ (hand_of (CmdSend key data g))); [done|]. by apply (entry_put (hand_of (CmdSend key data g)) _ n d key e).
Qed.

(** Bytes it refused. *)
Lemma refused_ok n key data g e c d : socket_ok settled (hand_of (CmdSend key data g)) n d -> conns d !! key = Some e -> is_Some (links d !! g) -> sound c -> held c = held (conn e) ->
  socket_ok (eq key) empty_hand n (on_link g (fun l => with_gate (release (length data) (l_gate l)) l)
    (with_conns (<[key := mkEntry c (e_link e) (last_outstanding e) (pending e) (pending_accept e) (last_timestamp_diff e)]> (conns d)) d)).1.
Proof.
  intros Hok He Hg Hs Hh. apply (refund_ok (eq key) n key data g); [|done]. apply (entry_put (hand_of (CmdSend key data g)) _ n d key e); try done. intros _. unfold owed. cbn [last_outstanding conn]. lia.
Qed.

Lemma send_ok n key data g now d d' : socket_ok settled (hand_of (CmdSend key data g)) n d -> is_Some (links d !! g) -> (fair -> forall e, conns d !! key = Some e -> e_link e = g) ->
  on_command (CmdSend key data g) now [] d = (d', Ok tt) -> socket_ok settled empty_hand n d'.
Proof.
  intros Hok Hg Hown E. cbn [on_command] in E. rewrite bind_gets in E. apply bind_inv in E as (d1 & ok & E1 & E). apply bind_inv in E as (d2 & [] & E2 & E). apply bind_inv in E as (d3 & out & E3 & E).
  rewrite bind_gets in E. eapply flushed; [|exact E]. clear E. destruct (conns d !! key) as [e|] eqn:He; cycle 1.
  { injection E1 as <- <-. injection E2 as <-. eapply collect_idle; [|exact E3]. by apply (refund_ok settled n key data g d). }
  destruct (ok_conn _ _ _ _ _ _ _ Hok key e He) as [Hs _]. destruct (enqueue_held data (conn e) Hs) as (c & ok' & Ee & Hs' & Hh).
  unfold on_conn in E1. unfold mbind at 1, M_bind at 1 in E1. rewrite Ee in E1. cbn [fmap result_fmap] in E1. injection E1 as <- ->. destruct ok; injection E2 as <-; (eapply collected; [|exact E3]).
  - apply (taken_ok n key data g e c d Hok He); [|done|done]. intros F. by apply (Hown F).
  - apply (refused_ok n key data g e c d Hok He Hg); [done|]. lia.
Qed.

Lemma close_ok n key now ids d d' : socket_ok settled empty_hand n d -> on_command (CmdClose key) now ids d = (d', Ok tt) -> socket_ok settled empty_hand n d'.
Proof.
  intros Hok E. cbn [on_command] in E. rewrite bind_gets in E. apply bind_inv in E as (d1 & [] & E1 & E). apply bind_inv in E as (d3 & out & E3 & E). rewrite bind_gets in E. eapply flushed; [|exact E]. clear E.
  destruct (conns d !! key) as [e|] eqn:He; [|injection E1 as <-; by eapply collect_idle]. destruct (ok_conn _ _ _ _ _ _ _ Hok key e He) as [Hs Hl].
  assert (Sc : exists c, close (conn e) = (c, Ok tt) /\ same_tx (conn e) c) by (unfold close; msteps; destruct (state (conn e)); cbn beta iota; by eexists). destruct Sc as (c & Ec & Sc).
  apply same_tx_held in Sc as [Hs' Hh]; [|done]. unfold on_conn in E1. unfold mbind at 1, M_bind at 1 in E1. rewrite Ec in E1. cbn [fmap result_fmap] in E1. injection E1 as <-.
  set (e' := mkEntry c _ _ _ _ _) in E3. set (d4 := with_conns (<[key := e']> (conns d)) d) in E3.
  assert (Hok4 : socket_ok (eq key) empty_hand n d4) by (apply (entry_put empty_hand _ n d key e); try done; unfold owed; cbn [last_outstanding conn e']; by rewrite Hh).
  pose proof (close_gate_ok (eq key) empty_hand n d4 (e_link e) Hok4) as Hok5. by apply (collected _ _ _ _ _ _ _ Hok5 E3).
Qed.

Lemma free_id_free ids peer d id : free_recv_id ids peer d = Ok id -> conns d !! (peer, id) = None /\ conns d !! (peer, wadd id 1) = None.
Proof. induction ids as [|x ids IH]; cbn [free_recv_id]; [done|]. destruct (conns d !! (peer, x)) eqn:E1, (conns d !! (peer, wadd x 1)) eqn:E2; try done. by intros [= <-]. Qed.

Lemma dial_ok n peer dial now ids d d' : socket_ok settled empty_hand n d -> (S (size (conns d)) + dials (cmd_ch d) <= MAX_CONNS + n)%nat /\ (dials (cmd_ch d) <= n)%nat ->
  on_command (CmdConnect peer dial) now ids d = (d', Ok tt) -> socket_ok settled empty_hand n d'.
Proof.
  intros Hok Hsz E. cbn [on_command] in E. apply bind_inv in E as (d1 & id & E1 & E). unfold reads in E1. injection E1 as <- E1. apply free_id_free in E1 as [Hk _].
  destruct (initiator_fresh id now) as [Hs Hh]. destruct (new_initiator id now) as [c syn]. cbn [fst] in *.
  destruct (insert_new n n d (peer, id) c (Some dial) false 0 Hok Hk Hs Hh Hsz) as (d2 & E2 & Hok2). rewrite (bind_step _ _ _ _ _ E2) in E.
  rewrite (bind_step (put_entry _ _) _ d2 _ tt eq_refl) in E. by eapply flushed.
Qed.

End Kept.

(** ** Histories *)

Inductive SocketStep :=
  | Datagram (data : bytes) (peer : SocketAddr) (now init_seq : Z)
  | NextCommand (now : Z) (ids : list Z)
  | TimerTick (keys : list ConnKey) (now : Z)
  | Write (i : nat) (b : bytes)
  | WriteOn (i : nat)
  | Read (i room : nat)
  | Peek (i : nat)
  | Shutdown (i : nat)
  | DropStream (i : nat)
  | Dial (peer : SocketAddr) (dial : nat)
  | GiveUp (dial : nat).

Definition next_command (now : Z) (ids : list Z) : M Driver unit :=
  ch ← gets cmd_ch;
  match ch with
  | [] => mret tt
  | c :: rest => _ ← modify (with_cmds rest); on_command c now ids
  end.

Definition socket_step (s : SocketStep) : M Driver unit :=
  match s with
  | Datagram data peer now init_seq => on_datagram data peer now init_seq
  | NextCommand now ids => next_command now ids
  | TimerTick keys now => on_tick keys now
  | Write i b => _ ← poll_write i b; mret tt
  | WriteOn i => _ ← write_on i; mret tt
  | Read i room => _ ← poll_read i room; mret tt
  | Peek i => _ ← peek_first_byte i; mret tt
  | Shutdown i => poll_shutdown i
  | DropStream i => drop_stream i
  | Dial peer dial => connect peer dial
  | GiveUp dial => connect_timeout dial
  end.

Fixpoint socket_run (steps : list SocketStep) : M Driver unit :=
  match steps with [] => mret tt | s :: steps => _ ← socket_step s; socket_run steps end.

Lemma stream_inv i d d' l : stream i d = (d', Ok l) -> d' = d /\ links d !! i = Some l.
Proof. unfold stream, lift. rewrite bind_gets. destruct (links d !! i); [|done]. by intros [= <- <-]. Qed.

#[local] Opaque SEND_BUF_CAP_BYTES DELIVER_MSG_BYTES.

Section Calls.
Context `{Hfair : Fair}.

(** A step of a write that neither reserves nor registers. *)
Lemma writer_ok n i w d : socket_ok settled empty_hand n d ->
  (forall l, links d !! i = Some l -> gate_ok w (l_gate l)) -> socket_ok settled empty_hand n (on_link i (with_writer w) d).1.
Proof.
  intros Hok Hw. apply (on_link_ok settled empty_hand empty_hand); try done. intros l El. destruct (ok_link _ _ _ _ _ _ _ Hok _ _ El) as (_ & _ & Q & _). destruct (Hw l El). by split_and!.
Qed.

Lemma writer_plain n i w d d' : socket_ok settled empty_hand n d -> on_link i (with_writer w) d = (d', Ok tt) -> match w with WOpen _ | WParked => False | _ => True end -> socket_ok settled empty_hand n d'.
Proof.
  intros Hok E Hw. replace d' with (on_link i (with_writer w) d).1 by (by rewrite E). apply writer_ok; [done|]. intros l El. destruct (ok_link _ _ _ _ _ _ _ Hok _ _ El) as (_ & [G _] & _). split; [done|]. by destruct w.
Qed.

Lemma write_try_ok n i b d d' r : socket_ok settled empty_hand n d -> write_try i b d = (d', Ok r) -> socket_ok settled empty_hand n d'.
Proof.
  intros Hok E. unfold write_try in E. apply bind_inv in E as (d1 & l & E1 & E). apply stream_inv in E1 as [-> El].
  destruct (ok_link _ _ _ _ _ _ _ Hok _ _ El) as (_ & [G1 G2] & Q & U). unfold reserve in E. set (k := Nat.min _ _) in E. destruct (Nat.ltb_spec 0 k) as [Hk|Hk].
  2: { apply bind_inv in E as (d2 & [] & E2 & [= <- _]). exact (writer_plain n i _ d d2 Hok E2 I). }
  unfold available in k. set (hand := fun j => if decide (j = i) then k else 0%nat). set (f := fun l0 => with_writer WIdle _) in E.
  apply bind_inv in E as (d2 & [] & E2 & E). apply bind_inv in E as (d3 & [] & E3 & [= <- _]).
  assert (Hok2 : socket_ok settled hand n d2).
  { replace d2 with (on_link i f d).1 by (by rewrite E2). apply (on_link_ok settled empty_hand hand); [done|intros j Hj; unfold hand; by rewrite decide_False|congruence|].
    intros l' El'. rewrite El in El'. injection El' as <-. split_and!; try done; [split; [cbn; lia|done]|]. intros F. cbn. unfold hand, empty_hand. rewrite decide_True by done. lia. }
  injection E3 as <-. unfold socket_ok in *. cbn [conns links next_link cmd_ch with_cmds]. destruct Hok2 as [H1 H2 H3 H4 H5 H6]. injection E2 as <-. cbn [conns links next_link cmd_ch with_links] in *. constructor; try done.
  - intros j x Hx. destruct (H3 j x Hx) as (A & B & D & F). split_and!; try done. intros Fr. rewrite (F Fr), queued_app. unfold queued at 3. cbn. unfold hand, empty_hand. rewrite length_take.
    destruct (decide (j = i)) as [->|Hne]; [rewrite decide_True by done; lia|rewrite decide_False by done; lia].
  - intros key data g Hin. apply elem_of_app in Hin as [Hin|Hin]; [by eapply H5|]. apply list_elem_of_singleton in Hin as [= -> -> ->]. rewrite lookup_alter_eq, El. by eexists.
  - rewrite dials_app. match goal with |- context [dials [?x]] => change (dials [x]) with 0%nat end. lia.
Qed.

Lemma stream_write_ok n i b d d' r : socket_ok settled empty_hand n d -> poll_write i b d = (d', Ok r) -> socket_ok settled empty_hand n d'.
Proof.
  intros Hok E. unfold poll_write in E. apply bind_inv in E as (d1 & l & E1 & E). apply stream_inv in E1 as [-> _].
  destruct (gate_closed (l_gate l)); [|destruct (length b =? 0)%nat]; apply bind_inv in E as (d2 & [] & E2 & [= <- _]); exact (writer_plain n i _ d d2 Hok E2 I).
Qed.

(** The writer parks only when, its waker registered, it has seen the gate open and then without credit. *)
Lemma write_on_ok n i d d' r : socket_ok settled empty_hand n d -> write_on i d = (d', Ok r) -> socket_ok settled empty_hand n d'.
Proof.
  intros Hok E. unfold write_on in E. apply bind_inv in E as (d1 & l & E1 & E). apply stream_inv in E1 as [-> El].
  destruct (ok_link _ _ _ _ _ _ _ Hok _ _ El) as (_ & [G1 G2] & Q & U). destruct (l_writer l) as [|b|b|b|b|] eqn:Ew; [by injection E as <- _|by eapply write_try_ok|..|by injection E as <- _].
  - apply bind_inv in E as (d2 & [] & E2 & [= <- _]). match type of E2 with on_link i ?f d = _ => replace d2 with (on_link i f d).1 by (by rewrite E2) end.
    apply (on_link_ok settled empty_hand empty_hand); try done. intros l' El'. rewrite El in El'. injection El' as <-. by split_and!.
  - destruct (gate_closed (l_gate l)) eqn:Ec; apply bind_inv in E as (d2 & [] & E2 & [= <- _]); [exact (writer_plain n i _ d d2 Hok E2 I)|].
    replace d2 with (on_link i (with_writer (WOpen b)) d).1 by (by rewrite E2). apply writer_ok; [done|]. intros l' El'. rewrite El in El'. by injection El' as <-.
  - unfold available in E. destruct (Nat.ltb_spec 0 (SEND_BUF_CAP_BYTES - used (l_gate l))) as [Ha|Ha]; apply bind_inv in E as (d2 & [] & E2 & [= <- _]); [exact (writer_plain n i _ d d2 Hok E2 I)|].
    replace d2 with (on_link i (with_writer WParked) d).1 by (by rewrite E2). apply writer_ok; [done|]. intros l' El'. rewrite El in El'. injection El' as <-. split; [done|]. intros W. split; [lia|by apply G2].
Qed.

(** Taking a chunk from the queue, and where the stream stands in it. *)
Lemma reader_ok n i f d : socket_ok settled empty_hand n d ->
  (forall l, links d !! i = Some l -> l_key (f l) = l_key l /\ l_gate (f l) = l_gate l /\ l_sender (f l) = l_sender l /\ l_writer (f l) = l_writer l /\ (l_queue (f l) = l_queue l \/ exists c, l_queue l = c :: l_queue (f l))) ->
  socket_ok settled empty_hand n (on_link i f d).1.
Proof.
  intros Hok Hf. apply (on_link_ok settled empty_hand empty_hand); try done. intros l El. destruct (Hf l El) as (K & G & S & W & Q). destruct (ok_link _ _ _ _ _ _ _ Hok _ _ El) as (_ & Gl & [Q1 Q2] & _).
  rewrite G, S, W. split_and!; try done. destruct Q as [->|[c Ec]]; [done|]. rewrite Ec in *. apply list.Forall_cons in Q2 as [_ Q2]. split; [cbn in Q1; lia|done].
Qed.

Lemma stream_read_ok n i room d d' r : socket_ok settled empty_hand n d -> poll_read i room d = (d', Ok r) -> socket_ok settled empty_hand n d'.
Proof.
  intros Hok E. unfold poll_read in E. apply bind_inv in E as (d1 & l & E1 & E). apply stream_inv in E1 as [-> El]. destruct (_ <? _)%nat.
  { apply bind_inv in E as (d2 & [] & E2 & [= <- _]). injection E2 as <-. apply reader_ok; [done|]. intros l' _. split_and!; try done. by left. }
  unfold poll_recv in E. destruct (l_queue l) as [|c q] eqn:Eq; [destruct (l_sender l); by injection E as <- _|].
  apply bind_inv in E as (d2 & [] & E2 & [= <- _]). injection E2 as <-. apply reader_ok; [done|]. intros l' El'. rewrite El in El'. injection El' as <-. split_and!; try done. right. by exists c.
Qed.

Lemma peek_ok n i d d' r : socket_ok settled empty_hand n d -> peek_first_byte i d = (d', Ok r) -> socket_ok settled empty_hand n d'.
Proof.
  intros Hok E. unfold peek_first_byte in E. apply bind_inv in E as (d1 & l & E1 & E). apply stream_inv in E1 as [-> El]. destruct (_ <? _)%nat.
  { apply bind_inv in E as (d2 & x & E2 & [= <- _]). unfold lift in E2. by injection E2 as <- _. }
  unfold poll_recv in E. destruct (l_queue l) as [|c q] eqn:Eq; [destruct (l_sender l); by injection E as <- _|].
  apply bind_inv in E as (d2 & [] & E2 & [= <- _]). injection E2 as <-. apply reader_ok; [done|]. intros l' El'. rewrite El in El'. injection El' as <-. split_and!; try done. right. by exists c.
Qed.

Lemma connect_ok n peer dial d d' : socket_ok settled empty_hand n d -> connect peer dial d = (d', Ok tt) -> socket_ok settled empty_hand (S n) d'.
Proof.
  intros [H1 H2 H3 H4 H5 H6] E. unfold connect in E. apply bind_inv in E as (d1 & [] & [= <-] & [= <-]). unfold socket_ok. cbn [conns links next_link cmd_ch with_cmds with_dials]. constructor; try done.
  - intros i l El. rewrite queued_app. destruct (H3 i l El) as (A & B & C & D). split_and!; try done. intros F. rewrite (D F). cbn. lia.
  - intros key data g [Hin|Hin]%elem_of_app; [by eapply H5|]. by apply list_elem_of_singleton in Hin.
  - rewrite dials_app. match goal with |- context [dials [?x]] => change (dials [x]) with 1%nat end. lia.
Qed.
End Calls.
