(* ===== verification/UtpSocketProofs.v ===== *)
(** * The µTP socket over whole histories

    The driver of [UtpSocket] never fails, whatever its peers send, and keeps its
    accounts and its memory bounded; where a command outlives its connection, and
    where the end of a stream cuts it short. *)

From Stdlib Require Import ZArith Lia String Strings.Byte.
From stdpp Require Import base tactics numbers list option gmap fin_maps fin_map_dom sets.
From S2P Require Import Prelude Net UtpPacket Float64 UtpConnection UtpTheorems UtpSocket.

#[local] Set Warnings "-register-all".
#[local] Opaque SEND_BUF_CAP_BYTES DELIVER_MSG_BYTES.

(** ** A connection never fails *)

Definition RECV_BUF : Z := 65535.

(** The receiving side after [m] datagrams: what is buffered, and the count of packets, which a 64-bit number holds. *)
Definition rx_sound (m : Z) (c : Connection) : Prop :=
  rx_bounded RECV_BUF c /\ 0 <= peer_logical_acked c /\ peer_logical_acked c + Z.of_nat (length (pending_in c)) <= m.

Definition pkt_ok (p : Packet) : Prop := payload_ok (payload p).

(** Changes the receiving side does not see, or that only take from the buffer. *)
Definition rx_less (c c' : Connection) : Prop :=
  (length (in_buf c') <= length (in_buf c))%nat /\ peer_logical_acked c' = peer_logical_acked c /\ pending_in c' = pending_in c.

Lemma rx_less_sound m c c' : rx_less c c' -> rx_sound m c -> rx_sound m c'.
Proof. intros (E1 & E2 & E3) ((H1 & H2) & H3 & H4). unfold rx_sound, rx_bounded. rewrite E2, E3. split_and!; try apply H2; try done. lia. Qed.

Lemma rx_sound_later m m' c : m <= m' -> rx_sound m c -> rx_sound m' c.
Proof. intros Hm (H1 & H2 & H3). split_and!; [done|done|lia]. Qed.

Lemma rx_less_tx c c' : tx_change c c' -> rx_less c c'.
Proof. intros (?&?&?&?&?&_&->). done. Qed.

Lemma rx_less_q c c' : q_change c c' -> rx_less c c'.
Proof. intros (?&?&?&?&?&?&->). done. Qed.

Lemma drain_total m fuel : m < 2 ^ 63 -> forall c, rx_sound m c -> (length (pending_in c) <= fuel)%nat -> exists c', drain_loop fuel c = (c', Ok tt) /\ rx_sound m c'.
Proof.
  intros Hm. induction fuel as [|fuel IH]; intros c Hc Hf; pose proof Hc as ((H1 & H2 & H3 & H4) & H5 & H6); cbn [drain_loop]; msteps;
    (destruct (negb _) eqn:Ew; [by exists c|]); rewrite checked_small by lia; cbn beta iota; (destruct (zm_get _ _) as [p|] eqn:E; [|by exists c]); pose proof (length_zm_remove _ _ _ E) as L; [lia|].
  destruct (zm_get_Forall _ _ _ _ H2 E) as (dt & Ed & Ld). cbn [snd] in Ed. rewrite Ed. cbn beta iota. apply IH; [|cbn; lia]. bools. rewrite Z.ltb_lt in Ew.
  split; [|cbn; lia]. split_and!; cbn; [rewrite length_app; lia|by apply zm_remove_Forall|by apply zm_remove_sorted|lia].
Qed.

Lemma handle_data_total m p c dt : m + 1 < 2 ^ 63 -> rx_sound m c -> as_slice (payload p) = Ok dt -> Z.of_nat (length dt) <= RECV_BUF ->
  exists c' ack, handle_data p c = (c', Ok (Some ack)) /\ rx_sound (m + 1) c' /\ pkt_ok ack.
Proof.
  intros Hm Hc Hd Ld. pose proof Hc as ((H1 & H2 & H3 & H4) & H5 & H6). unfold handle_data, reply. msteps.
  assert (K : rx_sound (m + 1) c) by (apply (rx_sound_later m); [lia|done]). destruct (seq_le _ _); [by do 2 eexists|].
  pose proof (wrap_range 16 (seq_nr p - peer_seq_nr_acked c) ltac:(lia)) as W. destruct (_ =? 1).
  - destruct (Z.leb_spec RECV_WINDOW_BYTES (Z.of_nat (length (in_buf c)))); [by do 2 eexists|]. rewrite Hd. cbn beta iota. unfold drain_pending_in. msteps.
    match goal with |- context [drain_loop ?f ?x] => destruct (drain_total (m + 1) f Hm x) as (c1 & -> & Hc1) end; [|done|by do 2 eexists].
    split; [|cbn; rewrite wrap_small; lia]. split_and!; cbn; try done. rewrite length_app. lia.
  - unfold wsub. rewrite checked_small by lia. cbn beta iota. destruct (bool_decide (is_Some (zm_get _ (pending_in c))) || _) eqn:E; [|by do 2 eexists].
    eexists _, _. split; [done|]. split; [|done]. pose proof (length_zm_insert None (peer_logical_acked c + wrap 16 (seq_nr p - peer_seq_nr_acked c)) (payload p) (pending_in c) H3) as L.
    case_bool_decide; cbn [orb] in E; [|apply Z.ltb_lt in E]; (split; [split_and!; cbn; [done|apply zm_insert_Forall; [done|by exists dt]|by apply zm_insert_sorted|lia]|cbn; lia]).
Qed.

Lemma handle_incoming_total m p now c dt : m + 1 < 2 ^ 63 -> sound c -> rx_sound m c -> as_slice (payload p) = Ok dt -> Z.of_nat (length dt) <= RECV_BUF ->
  exists c' r, handle_incoming p now c = (c', Ok r) /\ rx_sound (m + 1) c' /\ Forall pkt_ok (option_list r).
Proof.
  intros Hm [_ Hf] Hc Hd Ld. assert (K : rx_sound (m + 1) c) by (apply (rx_sound_later m); [lia|done]). unfold handle_incoming. msteps.
  destruct (matches_incoming c p); cbn [negb]; [|eexists _, None; split_and!; [done..|constructor]]. case_bool_decide as Hr; cbn beta iota; [eexists _, None; split_and!; [done|by apply (rx_less_sound _ c)|constructor]|].
  destruct (absorb_acks_tx p now c Hf) as (c1 & -> & T). cbn beta iota. apply rx_less_tx in T. pose proof (rx_less_sound _ _ _ T Hc) as Hc1. pose proof (rx_less_sound _ _ _ T K) as K1.
  destruct (packet_type p) eqn:Et; try done.
  - destruct (handle_data_total m p c1 dt Hm Hc1 Hd Ld) as (c2 & ack & -> & Hc2 & Ha). eexists _, (Some ack). split_and!; [done..|by constructor].
  - unfold handle_fin. msteps. destruct (_ && _); cbn beta iota; (eexists _, (Some _); split_and!; [done|by apply (rx_less_sound _ c1)|by constructor]).
  - unfold handle_state. msteps. case_bool_decide; cbn beta iota; (eexists _, None; split_and!; [done|by apply (rx_less_sound _ c1)|constructor]).
  - unfold reply. msteps. eexists _, (Some _). split_and!; [done..|by constructor].
Qed.

Lemma pending_send_total now c : sound c -> exists c' pkts, pending_send_packets now c = (c', Ok pkts) /\ Forall pkt_ok pkts /\ rx_less c c'.
Proof.
  intros [Htx Hfl]. destruct (pending_send_any now c Htx Hfl) as (c' & pkts & E & _ & F & Q). exists c', pkts. split_and!; [done| |by apply rx_less_q].
  unfold pending_send_packets in E. revert E. msteps. destruct (is_closed c); [intros [= _ <-]; constructor|]. destruct (_ || _); [intros [= _ <-]; constructor|].
  destruct (fast_retransmit_spec now c Hfl) as (c1 & rtx & -> & Q1 & N1 & B1 & D1 & L1 & F1 & _ & _ & R). cbn beta iota.
  assert (Htx1 : tx_ok c1) by (unfold tx_ok, unsent in *; by rewrite N1, B1, D1, L1).
  destruct (packetize_spec (out_len c1) (default INITIAL_WINDOW_PACKETS (window_packets (cc c1))) now rtx c1 Htx1 ltac:(lia)) as (c2 & new & -> & P). destruct P as (_ & _ & _ & D2 & _). cbn beta iota.
  assert (A : Forall pkt_ok rtx).
  { eapply list.Forall_impl; [exact R|]. intros p (e & He & _ & Ep). unfold pkt_ok. rewrite Ep. unfold flight_ok in Hfl. rewrite list.Forall_forall in Hfl. by apply Hfl. }
  assert (B : Forall pkt_ok new) by (apply (data_run_flight c1 now) in D2; unfold flight_ok in D2; by rewrite list.Forall_fmap in D2).
  destruct (_ && _); [unfold push_flight; msteps|]; intros [= _ <-]; rewrite ?list.Forall_app; [|done]. split; [done|]. by constructor.
Qed.

Lemma tick_total now c : sound c -> exists c' pkts, tick now c = (c', Ok pkts) /\ Forall pkt_ok pkts /\ rx_less c c'.
Proof.
  intros [_ Hfl]. unfold tick. msteps. destruct (is_closed c); [eexists _, []; split_and!; [done|constructor|done]|]. destruct (_ <=? _); [eexists _, []; split_and!; [done|constructor|done]|].
  do 2 eexists. split; [done|]. split; [|done]. unfold flight_ok in Hfl. induction Hfl as [|e fl He _ IH]; [constructor|]. cbn. unfold retransmit at 1. destruct (_ <=? _); cbn; [by constructor|done].
Qed.

Lemma deliver_less fuel : forall c l c' l', deliver_loop fuel c l = Ok (c', l') -> rx_less c c'.
Proof.
  induction fuel as [|fuel IH]; intros c l c' l'; cbn [deliver_loop]; (destruct (_ <? _)%nat; [|by intros [= <- _]]); [done|]. unfold take_received. msteps. cbn [mbind result_bind].
  assert (D : forall n, rx_less c (set_in_buf (drop n (in_buf c)) c)) by (intros n; split_and!; try done; cbn; rewrite length_drop; lia).
  destruct (_ =? 0)%nat; [by intros [= <- _]|]. destruct (l_receiver l); [|by intros [= <- _]]. intros E. apply IH in E as (E1 & E2 & E3). split_and!; [cbn in E1; rewrite length_drop in E1; lia|done|done].
Qed.

Lemma decoded_payload b p : decode b = Ok p -> exists dt, as_slice (payload p) = Ok dt /\ (length dt <= length b)%nat.
Proof. intros [_ E]%decode_encode. rewrite encode_eq in E. destruct (as_slice (payload p)) as [dt| | |]; try done. exists dt. split; [done|]. cbn [mbind result_bind] in E. apply (f_equal (fun r => match r with Ok x => length x | _ => 0%nat end)) in E. rewrite !length_app in E. lia. Qed.

(** ** The driver never fails *)

Section Never.
Context `{Hfair : Fair}.

Definition rx_all (m : Z) (d : Driver) : Prop := forall key e, conns d !! key = Some e -> rx_sound m (conn e).

Lemma rx_all_put m d key e : rx_all m d -> rx_sound m (conn e) -> rx_all m (with_conns (<[key := e]> (conns d)) d).
Proof. intros Hd He k x. cbn [conns with_conns]. destruct (decide (k = key)) as [->|Hne]; [rewrite lookup_insert_eq; by intros [= <-]|rewrite lookup_insert_ne by done; apply Hd]. Qed.

Lemma rx_all_later m m' d : m <= m' -> rx_all m d -> rx_all m' d.
Proof. intros Hm Hd key e He. by apply (rx_sound_later m), (Hd key). Qed.

Lemma rx_all_same m d d' : conns d' = conns d -> rx_all m d -> rx_all m d'.
Proof. intros E Hd key e. rewrite E. apply Hd. Qed.

Lemma quiet_conns_eq {A} (k : M Driver A) d d' r : quietly k -> k d = (d', r) -> conns d' = conns d.
Proof. intros Q E. specialize (Q d). rewrite E in Q. apply Q. Qed.

Lemma flush_total now peer diff pkts : Forall pkt_ok pkts -> forall d, exists d', flush now peer diff pkts d = (d', Ok tt) /\ conns d' = conns d.
Proof.
  intros H. assert (G : forall d, exists d', flush now peer diff pkts d = (d', Ok tt)).
  { induction H as [|p l Hp _ IH]; intros d; cbn [flush]; [by eexists|]. unfold pkt_ok, payload_ok in Hp. assert (En : exists b, encode (stamped now diff d p) = Ok b).
    { rewrite encode_eq. cbn [stamped payload]. destruct (as_slice (payload p)); try done. by eexists. }
    destruct En as [b En]. unfold mbind at 1, M_bind at 1, reads at 1. rewrite En. apply IH. }
  intros d. destruct (G d) as [d' E]. exists d'. split; [done|]. by eapply quiet_conns_eq; [apply quietly_flush|].
Qed.

(** A lifted result, taken apart without evaluating it. *)
Lemma lift_inv {S A} (r : result A) (s s' : S) a : lift r s = (s', Ok a) -> s' = s /\ r = Ok a.
Proof. unfold lift. by intros [= -> ->]. Qed.

Lemma reap_conns key e d d' : reap key e d = (d', Ok tt) -> conns d' = delete key (conns d).
Proof.
  intros E. unfold reap in E. apply bind_inv in E as (d1 & [] & E1 & E). assert (C1 : conns d1 = conns d) by (destruct (pending e); [by eapply quiet_conns_eq; [apply quietly_fail|]|by injection E1 as <-]).
  apply bind_inv in E as (d2 & r & E2 & E). apply lift_inv in E2 as [-> _]. apply bind_inv in E as (d3 & [] & [= <-] & E). apply bind_inv in E as (d4 & [] & [= <-] & E).
  transitivity (conns (with_conns (delete key (conns d1)) d1)); [|by rewrite C1]. destruct (pending_accept e); [|by injection E as <-]. by eapply quiet_conns_eq in E; [|apply quietly_drop].
Qed.

Lemma collect_rx loose hand n m key now d d' pkts : socket_ok loose hand n d -> rx_all m d -> collect_after key now d = (d', Ok pkts) -> rx_all m d' /\ Forall pkt_ok pkts.
Proof.
  intros Hok Hrx E. unfold collect_after in E. rewrite bind_gets in E. destruct (conns d !! key) as [e|] eqn:He; [|injection E as <- <-; split; [done|constructor]].
  apply bind_inv in E as (d1 & l & E1 & E). apply stream_inv in E1 as [-> El]. apply bind_inv in E as (d2 & [c l'] & E1 & E). apply lift_inv in E1 as [-> E1].
  destruct (ok_conn _ _ _ _ _ _ _ Hok key e He) as [Hs _]. destruct (ok_link _ _ _ _ _ _ _ Hok _ _ El) as (_ & _ & Ql & _).
  destruct (deliver_spec DELIVER_QUEUE_MSGS (conn e) l ltac:(lia) Ql) as (c0 & q & E0 & S & _). assert (Ec : Ok (c0, with_queue q l) = Ok (c, l')) by (by rewrite <- E0, <- E1). injection Ec as -> _. apply same_tx_held in S as [Hs1 _]; [|done].
  apply deliver_less in E0. apply bind_inv in E as (d3 & [c2 pk] & E2 & E). unfold on_conn in E2. destruct (pending_send_total now c Hs1) as (c2' & pk' & E3 & Hp & Hl). rewrite E3 in E2. injection E2 as <- <- <-.
  assert (Hc2 : rx_sound m c2') by (eapply rx_less_sound; [exact Hl|]; eapply rx_less_sound; [exact E0|]; by apply (Hrx key)).
  apply bind_inv in E as (d4 & o & E4 & E). apply lift_inv in E4 as [-> _]. apply bind_inv in E as (d5 & [] & [= <-] & E). apply bind_inv in E as (d6 & [] & E6 & E).
  match type of E6 with _ ?x = _ => assert (C6 : conns d6 = conns x) by (destruct (pending e); [case_bool_decide; [by eapply quiet_conns_eq; [apply quietly_answer|]|by injection E6 as <-]|by injection E6 as <-]) end.
  apply bind_inv in E as (d7 & [] & [= <-] & E). apply bind_inv in E as (d8 & [] & E8 & [= <- <-]). split; [|done].
  match type of E8 with _ ?x = _ => assert (H7 : rx_all m x) by (apply rx_all_put; [by eapply rx_all_same; [exact C6|]|done]) end.
  destruct (_ || _); [|by injection E8 as <-]. apply reap_conns in E8. intros k x. rewrite E8. intros [_ Hx]%lookup_delete_Some. by apply (H7 k).
Qed.

Lemma on_conn_ok {A} c (k : M Connection A) c' a d : k c = (c', Ok a) -> on_conn c k d = (d, Ok (c', a)).
Proof. intros E. unfold on_conn. by rewrite E. Qed.

(** The follow-up of a call that leaves the accounts of [key] open. *)
Lemma collect_total hand n m key now d : socket_ok (eq key) hand n d -> rx_all m d -> exists d' pkts, collect_after key now d = (d', Ok pkts) /\ rx_all m d' /\ Forall pkt_ok pkts /\ socket_ok settled hand n d'.
Proof. intros Hok Hrx. destruct (collect_ok hand n key now d Hok) as (d' & pkts & E & Hok' & _). exists d', pkts. destruct (collect_rx _ _ _ _ _ _ _ _ _ Hok Hrx E). by split_and!. Qed.

Lemma surface_total n m key d : socket_ok settled empty_hand n d -> rx_all m d -> exists d', surface key d = (d', Ok tt) /\ rx_all m d'.
Proof.
  intros Hok Hrx. unfold surface. rewrite bind_gets. destruct (conns d !! key) as [e|] eqn:He; [|by exists d]. destruct (_ && _); [|by exists d]. set (e' := mkEntry _ _ _ _ false _).
  set (d1 := with_conns (<[key := e']> (conns d)) d). rewrite (bind_step (put_entry key e') _ d d1 tt eq_refl), bind_gets. assert (H1 : rx_all m d1) by (apply rx_all_put; [done|exact (Hrx key e He)]).
  destruct (accepting d1); [eexists; split; [done|]; by apply (rx_all_same m d1)|]. destruct (ok_entry _ _ _ _ _ _ _ Hok key e He) as (l & El & _).
  destruct (drop_runs (e_link e) l d1 El) as (d' & E & Q). exists d'. split; [done|]. apply (rx_all_same m d1); [|done]. apply Q.
Qed.

Lemma receiver_rx m pkt now seq c st : 0 <= m -> new_receiver_with_seq pkt now seq = Some (c, st) -> rx_sound m c /\ pkt_ok st.
Proof. intros Hm. unfold new_receiver_with_seq. destruct (negb _); [done|]. intros [= <- <-]. split; [|done]. split; [|cbn; lia]. split_and!; cbn; try done; constructor. Qed.

Lemma initiator_rx m id now : 0 <= m -> rx_sound m (new_initiator id now).1 /\ pkt_ok (new_initiator id now).2.
Proof. intros Hm. split; [|done]. split; [|cbn; lia]. split_and!; cbn; try done; constructor. Qed.

Section Datagram.
Context (n : nat) (m now : Z) (Hm0 : 0 <= m) (Hm : m + 1 < 2 ^ 63).

Lemma feed_total key e pkt diff d dt : socket_ok settled empty_hand n d -> rx_all m d -> conns d !! key = Some e -> as_slice (payload pkt) = Ok dt -> Z.of_nat (length dt) <= RECV_BUF ->
  exists d' out, feed key e pkt diff now d = (d', Ok out) /\ rx_all (m + 1) d' /\ Forall pkt_ok out.
Proof.
  intros Hok Hrx He Hd Ld. destruct (ok_conn _ _ _ _ _ _ _ Hok key e He) as [Hs Hl]. specialize (Hl (fun F => F)). destruct (handle_incoming_total m pkt now (conn e) dt Hm Hs (Hrx _ _ He) Hd Ld) as (c & r & E & Hc & Hr).
  unfold feed. rewrite (bind_step _ _ _ _ _ (on_conn_ok _ _ _ _ d E)). set (e' := mkEntry c _ _ _ _ _). set (d1 := with_conns (<[key := e']> (conns d)) d). rewrite (bind_step (put_entry key e') _ d d1 tt eq_refl).
  destruct (handle_incoming_held pkt now (conn e) Hs) as [Hs' Hh]. rewrite E in Hs', Hh. cbn [fst] in Hs', Hh.
  assert (Hok1 : socket_ok (eq key) empty_hand n d1) by (apply (entry_put empty_hand empty_hand n d key e); try done; unfold owed; cbn [last_outstanding conn e']; lia).
  assert (Hrx1 : rx_all (m + 1) d1) by (apply rx_all_put; [apply (rx_all_later m); [lia|done]|done]). destruct (collect_total empty_hand n (m + 1) key now d1 Hok1 Hrx1) as (d2 & pkts & E2 & Hrx2 & Hp & _).
  rewrite (bind_step _ _ _ _ _ E2). exists d2, (option_list r ++ pkts). split; [done|]. split; [done|]. apply list.Forall_app. by split.
Qed.

Lemma datagram_total data peer seq d : socket_ok settled empty_hand n d -> rx_all m d -> Z.of_nat (length data) <= RECV_BUF -> exists d', on_datagram data peer now seq d = (d', Ok tt) /\ rx_all (m + 1) d'.
Proof.
  intros Hok Hrx Ld. assert (K : rx_all (m + 1) d) by (apply (rx_all_later m); [lia|done]). pose proof (utp_decode_total data) as Ht. unfold on_datagram. destruct (decode data) as [pkt|x| |] eqn:Ed; try done; [|by exists d].
  apply decoded_payload in Ed as (dt & Hd & L). rewrite bind_gets. cbv zeta. rewrite bind_gets. set (key := (peer, connection_id pkt)). set (diff := wrap 32 _).
  match goal with |- context [mbind ?f ?k d] => assert (G : exists d1 out, k d = (d1, Ok out) /\ rx_all (m + 1) d1 /\ Forall pkt_ok out) end.
  2: { destruct G as (d1 & out & E & Hrx1 & Hp). rewrite (bind_step _ _ _ _ _ E). destruct (flush_total now peer diff out Hp d1) as (d2 & E2 & C2). exists d2. split; [done|]. by apply (rx_all_same _ d1). }
  destruct (conns d !! key) as [e|] eqn:He.
  { destruct (feed_total key e pkt diff d dt Hok Hrx He Hd ltac:(lia)) as (d1 & out & E & Hrx1 & Hp). rewrite (bind_step _ _ _ _ _ E). destruct (feed_ok n key e pkt diff now d d1 out Hok He E) as [Hok1 _].
    destruct (surface_total n (m + 1) key d1 Hok1 Hrx1) as (d2 & E2 & Hrx2). rewrite (bind_step _ _ _ _ _ E2). by exists d2, out. }
  case_bool_decide; [|exists d, []; split_and!; [done..|constructor]]. rewrite bind_gets. destruct (conns d !! (peer, wadd (connection_id pkt) 1)) as [e|] eqn:He'; [by apply (feed_total _ _ _ _ _ dt); [..|lia]|].
  rewrite bind_gets. destruct (_ <=? _)%nat; [exists d, []; split_and!; [done..|constructor]|]. destruct (new_receiver_with_seq pkt now seq) as [[c st]|] eqn:Er; [|exists d, []; split_and!; [done..|constructor]].
  destruct (receiver_rx m pkt now seq c st Hm0 Er) as [Hc Hst]. eexists _, [st]. split; [done|]. split; [|by constructor].
  apply (rx_all_put (m + 1) (with_links (<[next_link d := new_link (peer, wadd (connection_id pkt) 1)]> (links d)) (S (next_link d)) d)); [done|]. apply (rx_sound_later m); [lia|done].
Qed.
End Datagram.

(** The end of a command or of a timer's turn: account, then send. *)
Lemma finish_total hand n m key now pre d : Forall pkt_ok pre -> socket_ok (eq key) hand n d -> rx_all m d ->
  exists d', (out ← collect_after key now; diff ← gets (diff_for key); flush now key.1 diff (pre ++ out)) d = (d', Ok tt) /\ rx_all m d'.
Proof.
  intros Hp Hok Hrx. destruct (collect_total hand n m key now d Hok Hrx) as (d1 & pkts & E & Hrx1 & Hp1 & _). rewrite (bind_step _ _ _ _ _ E), bind_gets.
  destruct (flush_total now key.1 (diff_for key d1) (pre ++ pkts)) with (d := d1) as (d2 & E2 & C2); [apply list.Forall_app; by split|]. exists d2. split; [done|]. by apply (rx_all_same m d1).
Qed.

Lemma on_tick_total n m now keys : forall d, socket_ok settled empty_hand n d -> rx_all m d -> exists d', on_tick keys now d = (d', Ok tt) /\ rx_all m d'.
Proof.
  induction keys as [|key keys IH]; intros d Hok Hrx; cbn [on_tick]; [by exists d|]. rewrite bind_gets.
  assert (G : exists d1 out, (match conns d !! key with Some e => '(c, out) ← on_conn (conn e) (tick now); _ ← put_entry key (mkEntry c (e_link e) (last_outstanding e) (pending e) (pending_accept e) (last_timestamp_diff e)); mret out | None => mret [] end : M Driver _) d = (d1, Ok out) /\
    socket_ok (eq key) empty_hand n d1 /\ rx_all m d1 /\ Forall pkt_ok out).
  { destruct (conns d !! key) as [e|] eqn:He; [|exists d, []; split_and!; [done|by apply loosen|done|constructor]]. destruct (ok_conn _ _ _ _ _ _ _ Hok key e He) as [Hs _].
    destruct (tick_total now (conn e) Hs) as (c & pkts & E & Hp & Hl). destruct (tick_held now (conn e) Hs) as (Hs' & Hh & _). rewrite E in Hs', Hh. cbn [fst] in Hs', Hh.
    rewrite (bind_step _ _ _ _ _ (on_conn_ok _ _ _ _ d E)). eexists _, pkts. split; [done|]. split_and!; [| |done].
    - apply (entry_put empty_hand empty_hand n d key e); try done. unfold owed. cbn [last_outstanding conn]. by rewrite Hh.
    - apply rx_all_put; [done|]. eapply rx_less_sound; [exact Hl|]. exact (Hrx key e He). }
  destruct G as (d1 & out & E1 & Hok1 & Hrx1 & Hp). rewrite (bind_step _ _ _ _ _ E1). destruct (collect_total empty_hand n m key now d1 Hok1 Hrx1) as (d2 & pkts & E2 & Hrx2 & Hp2 & Hok2).
  rewrite (bind_step _ _ _ _ _ E2), bind_gets. destruct (flush_total now key.1 (diff_for key d2) (out ++ pkts)) with (d := d2) as (d3 & E3 & C3); [apply list.Forall_app; by split|].
  rewrite (bind_step _ _ _ _ _ E3). apply IH; [by eapply flushed|]. by apply (rx_all_same m d2).
Qed.

Lemma send_total n m key data g now ids d : socket_ok settled (hand_of (CmdSend key data g)) n d -> rx_all m d -> is_Some (links d !! g) -> (fair -> forall e, conns d !! key = Some e -> e_link e = g) ->
  exists d', on_command (CmdSend key data g) now ids d = (d', Ok tt) /\ rx_all m d'.
Proof.
  intros Hok Hrx Hg Hown. cbn [on_command]. rewrite bind_gets. destruct (conns d !! key) as [e|] eqn:He; cycle 1.
  { rewrite (bind_step (mret false) _ d d false eq_refl). rewrite (bind_step (on_link g _) _ d _ tt eq_refl). apply (finish_total empty_hand n m key now []); [constructor| |by apply (rx_all_same m d)].
    apply loosen, (refund_ok settled n key data g d); done. }
  destruct (ok_conn _ _ _ _ _ _ _ Hok key e He) as [Hs _]. destruct (enqueue_held data (conn e) Hs) as (c & ok & Ee & Hs' & Hh).
  assert (Hc : rx_sound m c). { destruct (enqueue_tx data (conn e) (proj1 Hs)) as (c' & r & E' & _ & Q & _). rewrite Ee in E'. injection E' as -> _. eapply rx_less_sound; [by apply rx_less_q|]. exact (Hrx key e He). }
  set (e' := mkEntry c (e_link e) (last_outstanding e) (pending e) (pending_accept e) (last_timestamp_diff e)). set (d4 := with_conns (<[key := e']> (conns d)) d).
  assert (Hrx4 : rx_all m d4) by (by apply rx_all_put).
  match goal with |- context [mbind ?f (mbind ?g (on_conn _ _)) d] => assert (E4 : mbind g (on_conn (conn e) (enqueue_send_block data)) d = (d4, Ok ok)) by (by rewrite (bind_step _ _ _ _ _ (on_conn_ok _ _ _ _ d Ee))) end.
  rewrite (bind_step _ _ _ _ _ E4). destruct ok.
  - rewrite (bind_step (mret tt) _ d4 d4 tt eq_refl). apply (finish_total empty_hand n m key now []); [constructor| |done]. apply (taken_ok n key data g e c d Hok He); [|done|done]. intros F. by apply (Hown F).
  - rewrite (bind_step (on_link g _) _ d4 _ tt eq_refl). apply (finish_total empty_hand n m key now []); [constructor| |by apply (rx_all_same m d4)]. apply (refused_ok n key data g e c d Hok He Hg); [done|]. lia.
Qed.

Lemma close_total n m key now ids d : socket_ok settled empty_hand n d -> rx_all m d -> exists d', on_command (CmdClose key) now ids d = (d', Ok tt) /\ rx_all m d'.
Proof.
  intros Hok Hrx. cbn [on_command]. rewrite bind_gets. destruct (conns d !! key) as [e|] eqn:He.
  2: { rewrite (bind_step (mret tt) _ d d tt eq_refl). apply (finish_total empty_hand n m key now []); [constructor|by apply loosen|done]. }
  destruct (ok_conn _ _ _ _ _ _ _ Hok key e He) as [Hs Hl]. assert (Sc : exists c, close (conn e) = (c, Ok tt) /\ same_tx (conn e) c /\ rx_less (conn e) c) by (unfold close; msteps; destruct (state (conn e)); cbn beta iota; by eexists).
  destruct Sc as (c & Ec & Sc & Rc). apply same_tx_held in Sc as [Hs' Hh]; [|done]. set (e' := mkEntry c (e_link e) (last_outstanding e) (pending e) (pending_accept e) (last_timestamp_diff e)).
  set (d4 := with_conns (<[key := e']> (conns d)) d). set (d5 := (on_link (e_link e) (fun l => with_gate (gate_close (l_gate l)) l) d4).1).
  match goal with |- context [mbind ?f (mbind ?g (on_conn _ _)) d] => assert (E5 : mbind g (on_conn (conn e) close) d = (d5, Ok tt)) by (by rewrite (bind_step _ _ _ _ _ (on_conn_ok _ _ _ _ d Ec))) end.
  rewrite (bind_step _ _ _ _ _ E5). apply (finish_total empty_hand n m key now []); [constructor| |].
  - apply close_gate_ok. apply (entry_put empty_hand _ n d key e); try done. unfold owed. cbn [last_outstanding conn e']. by rewrite Hh.
  - apply (rx_all_same m d4); [done|]. apply rx_all_put; [done|]. eapply rx_less_sound; [exact Rc|]. exact (Hrx key e He).
Qed.

Lemma dial_total m peer dial now ids id d : 0 <= m -> rx_all m d -> free_recv_id ids peer d = Ok id -> exists d', on_command (CmdConnect peer dial) now ids d = (d', Ok tt) /\ rx_all m d'.
Proof.
  intros Hm Hrx E. cbn [on_command]. rewrite (bind_step (reads (free_recv_id ids peer)) _ d d id) by (unfold reads; by rewrite E). destruct (initiator_rx m id now Hm) as [Hc Hs]. destruct (new_initiator id now) as [c syn]. cbn [fst snd] in *.
  set (d1 := with_links (<[next_link d := new_link (peer, id)]> (links d)) (S (next_link d)) d). rewrite (bind_step (fresh_link (peer, id)) _ d d1 (next_link d) eq_refl). rewrite (bind_step (put_entry _ _) _ d1 _ tt eq_refl).
  match goal with |- context [flush _ _ _ _ ?x] => destruct (flush_total now peer 0 [syn] ltac:(by constructor) x) as (d3 & E3 & C3) end. exists d3. split; [done|]. eapply rx_all_same; [exact C3|]. by apply (rx_all_put m d1).
Qed.

(** A stream's calls return, and leave the table alone. *)
Lemma stream_bind {B} i l (f : Link -> M Driver B) d : links d !! i = Some l -> (stream i ≫= f) d = f l d.
Proof. intros El. apply bind_step. unfold stream. by rewrite bind_gets, El. Qed.

Lemma calls_total i d : is_Some (links d !! i) ->
  (forall b, exists d' r, poll_write i b d = (d', Ok r) /\ conns d' = conns d) /\ (exists d' r, write_on i d = (d', Ok r) /\ conns d' = conns d) /\ (forall room, exists d' r, poll_read i room d = (d', Ok r) /\ conns d' = conns d) /\
  (exists d' r, peek_first_byte i d = (d', Ok r) /\ conns d' = conns d) /\ (exists d', poll_shutdown i d = (d', Ok tt) /\ conns d' = conns d).
Proof.
  intros [l El]. split_and!; [intros b; unfold poll_write|unfold write_on|intros room; unfold poll_read|unfold peek_first_byte|unfold poll_shutdown]; rewrite (stream_bind i l) by done.
  - destruct (gate_closed _); [by do 2 eexists|]. destruct (_ =? 0)%nat; by do 2 eexists.
  - destruct (l_writer l) as [|b|b|b|b|]; try (by do 2 eexists).
    + unfold write_try. rewrite (stream_bind i l) by done. unfold reserve. destruct (0 <? _)%nat; by do 2 eexists.
    + destruct (gate_closed _); by do 2 eexists.
    + destruct (_ <? _)%nat; by do 2 eexists.
  - destruct (_ <? _)%nat; [by do 2 eexists|]. unfold poll_recv. destruct (l_queue l); [destruct (l_sender l)|]; by do 2 eexists.
  - destruct (Nat.ltb_spec (read_pos l) (length (read_rem l))) as [H|H]; [destruct (index_lt _ _ H) as [x ->]; by do 2 eexists|]. unfold poll_recv. destruct (l_queue l); [destruct (l_sender l)|]; by do 2 eexists.
  - destruct (shutdown_sent l); by eexists.
Qed.

(** ** Histories *)

(** What a step finds: a datagram is no longer than the buffer it is read into, and the random start of an inbound
    connection a 16-bit number; a stream's calls are on a stream there is; one of the random numbers tried for a dial is
    free. *)
Definition lawful (s : SocketStep) (d : Driver) : Prop :=
  match s with
  | Datagram data _ _ init_seq => Z.of_nat (length data) <= RECV_BUF /\ 0 <= init_seq < 2 ^ 16
  | NextCommand _ ids => match cmd_ch d with CmdConnect peer _ :: _ => exists id, free_recv_id ids peer d = Ok id | _ => True end
  | Write i _ | WriteOn i | Read i _ | Peek i | Shutdown i | DropStream i => is_Some (links d !! i)
  | _ => True
  end.

(** A write at the head of the channel is for the connection it was made on, should its key name one.  A peer can break this
    with a reset and a new connection under the same id: [stale_write_crosses]. *)
Definition owned (s : SocketStep) (d : Driver) : Prop :=
  match s with
  | NextCommand _ _ => match cmd_ch d with CmdSend key _ g :: _ => forall e, conns d !! key = Some e -> e_link e = g | _ => True end
  | _ => True
  end.

Fixpoint along (P : SocketStep -> Driver -> Prop) (steps : list SocketStep) (d : Driver) : Prop :=
  match steps with [] => True | s :: steps => P s d /\ along P steps (socket_step s d).1 end.

Definition is_dial (s : SocketStep) : bool := match s with Dial _ _ => true | _ => false end.
Definition dials_made (steps : list SocketStep) : nat := length (List.filter is_dial steps).

Lemma socket_step_ok n s d d' : socket_ok settled empty_hand n d -> lawful s d -> (fair -> owned s d) -> socket_step s d = (d', Ok tt) -> socket_ok settled empty_hand (n + if is_dial s then 1 else 0)%nat d'.
Proof.
  intros Hok Hc Hw E. destruct s as [data peer now seq|now ids|keys now|i b|i|i room|i|i|i|peer dial|dial]; cbn [is_dial socket_step] in *; rewrite ?Nat.add_0_r.
  - destruct Hc. by eapply datagram_ok.
  - unfold next_command in E. rewrite bind_gets in E. destruct (cmd_ch d) as [|c rest] eqn:Ec; [by injection E as <-|]. destruct (pop_ok n c rest d Hok Ec) as [Hok1 Hx]. apply bind_inv in E as (d1 & [] & [= <-] & E).
    destruct c as [peer dial|key data g|key]; [by eapply dial_ok| |by eapply close_ok]. cbn [owned] in Hw. rewrite Ec in Hw. by eapply send_ok.
  - by eapply tick_ok.
  - apply bind_inv in E as (d1 & r & E & [= <-]). by eapply stream_write_ok.
  - apply bind_inv in E as (d1 & r & E & [= <-]). by eapply write_on_ok.
  - apply bind_inv in E as (d1 & r & E & [= <-]). by eapply stream_read_ok.
  - apply bind_inv in E as (d1 & r & E & [= <-]). by eapply peek_ok.
  - eapply socket_quiet; [|exact Hok]. assert (Q : quietly (poll_shutdown i)) by (apply quietly_bind; [apply quietly_stream|]; intros l; destruct (shutdown_sent l); [auto with quiet|]; apply quietly_bind; [auto with quiet|]; intros _; apply quietly_link; intros x; apply (link_same_refl x)).
    specialize (Q d). by rewrite E in Q.
  - eapply socket_quiet; [|exact Hok]. pose proof (quietly_drop i d) as Q. by rewrite E in Q.
  - rewrite Nat.add_1_r. by eapply connect_ok.
  - injection E as <-. eapply socket_quiet; [|exact Hok]. by apply quiet_same.
Qed.

Lemma socket_run_ok steps : forall n d d', socket_ok settled empty_hand n d -> along lawful steps d -> (fair -> along owned steps d) -> socket_run steps d = (d', Ok tt) -> socket_ok settled empty_hand (n + dials_made steps) d'.
Proof.
  induction steps as [|s steps IH]; intros n d d' Hok Hc Hw E; cbn [socket_run along] in *; [injection E as <-; unfold dials_made; cbn; by rewrite Nat.add_0_r|].
  apply bind_inv in E as (d1 & [] & E1 & E). destruct Hc as [Hc Hr]. rewrite E1 in Hr, Hw. pose proof (socket_step_ok n s d d1 Hok Hc (fun F => proj1 (Hw F)) E1) as Hok1.
  replace (n + dials_made (s :: steps))%nat with (n + (if is_dial s then 1 else 0) + dials_made steps)%nat; [eapply IH; [exact Hok1|exact Hr|intros F; apply (Hw F)|exact E]|]. unfold dials_made. destruct s; cbn; lia.
Qed.

Lemma free_id_cmds rest ids peer d : free_recv_id ids peer (with_cmds rest d) = free_recv_id ids peer d.
Proof. induction ids as [|id ids IH]; [done|]. cbn [free_recv_id]. rewrite IH. done. Qed.

Lemma socket_step_total n m s d : 0 <= m -> m + 1 < 2 ^ 63 -> socket_ok settled empty_hand n d -> rx_all m d -> lawful s d -> (fair -> owned s d) -> exists d', socket_step s d = (d', Ok tt) /\ rx_all (m + 1) d'.
Proof.
  intros Hm0 Hm Hok Hrx Hc Hw. assert (K : forall d', conns d' = conns d -> rx_all (m + 1) d') by (intros d' E; apply (rx_all_same _ d); [done|]; apply (rx_all_later m); [lia|done]).
  assert (K' : (exists d', socket_step s d = (d', Ok tt) /\ rx_all m d') -> exists d', socket_step s d = (d', Ok tt) /\ rx_all (m + 1) d').
  { intros (d' & E & H). exists d'. split; [done|]. apply (rx_all_later m); [lia|done]. }
  destruct s as [data peer now seq|now ids|keys now|i b|i|i room|i|i|i|peer dial|dial]; cbn [lawful owned socket_step] in *.
  - destruct Hc. by apply (datagram_total n).
  - apply K'. unfold next_command. rewrite bind_gets. destruct (cmd_ch d) as [|c rest] eqn:Ec; [by exists d|]. destruct (pop_ok n c rest d Hok Ec) as [Hok1 Hx].
    rewrite (bind_step (modify (with_cmds rest)) _ d _ tt eq_refl). assert (Hrx1 : rx_all m (with_cmds rest d)) by (by apply (rx_all_same m d)).
    destruct c as [peer dial|key data g|key]; [destruct Hc as [id Hid]; apply (dial_total m _ _ _ _ id); by rewrite ?free_id_cmds|by apply (send_total n)|by apply (close_total n)].
  - apply K'. by apply (on_tick_total n).
  - destruct (calls_total i d Hc) as (G & _). destruct (G b) as (d' & r & E & C). rewrite (bind_step _ _ _ _ _ E). exists d'. auto.
  - destruct (calls_total i d Hc) as (_ & (d' & r & E & C) & _). rewrite (bind_step _ _ _ _ _ E). exists d'. auto.
  - destruct (calls_total i d Hc) as (_ & _ & G & _). destruct (G room) as (d' & r & E & C). rewrite (bind_step _ _ _ _ _ E). exists d'. auto.
  - destruct (calls_total i d Hc) as (_ & _ & _ & (d' & r & E & C) & _). rewrite (bind_step _ _ _ _ _ E). exists d'. auto.
  - destruct (calls_total i d Hc) as (_ & _ & _ & _ & d' & E & C). exists d'. auto.
  - destruct Hc as [l El]. destruct (drop_runs i l d El) as (d' & E & Q). exists d'. split; [done|]. apply K, Q.
  - eexists. split; [done|]. by apply K.
  - eexists. split; [done|]. by apply K.
Qed.

Lemma socket_run_total steps : forall n m d, 0 <= m -> m + Z.of_nat (length steps) < 2 ^ 63 -> socket_ok settled empty_hand n d -> rx_all m d -> along lawful steps d -> (fair -> along owned steps d) ->
  exists d', socket_run steps d = (d', Ok tt) /\ rx_all (m + Z.of_nat (length steps)) d'.
Proof.
  induction steps as [|s steps IH]; intros n m d Hm0 Hm Hok Hrx Hc Hw; cbn [socket_run along length] in *; [exists d; split; [done|]; by rewrite Z.add_0_r|].
  destruct Hc as [Hc Hr]. destruct (socket_step_total n m s d Hm0 ltac:(lia) Hok Hrx Hc (fun F => proj1 (Hw F))) as (d1 & E1 & Hrx1). rewrite E1 in Hr, Hw. rewrite (bind_step _ _ _ _ _ E1).
  destruct (IH _ (m + 1) d1 ltac:(lia) ltac:(lia) (socket_step_ok n s d d1 Hok Hc (fun F => proj1 (Hw F)) E1) Hrx1 Hr (fun F => proj2 (Hw F))) as (d2 & E2 & Hrx2). exists d2. split; [done|]. by replace (m + Z.of_nat (S (length steps))) with (m + 1 + Z.of_nat (length steps)) by lia.
Qed.

End Never.

(** C35: whatever datagrams, timer ticks, dials and stream calls the socket sees, in whatever order they interleave, also between
    the looks of one write at its gate, every handler returns: the driver neither panics nor loops, whatever its peers send.  What it holds is bounded.
    The table has at most [MAX_CONNS] entries besides one for each dial.  A connection buffers less than
    the receive window and one datagram, and stashes at most [MAX_PENDING_IN] packets.  A gate never lends more than
    [SEND_BUF_CAP_BYTES]; a writer that was answered [Pending] and whose waker is still registered, so that nobody has woken it since,
    is at an open gate that has no credit left, so none sleeps while it could write; a delivery queue has at most
    [DELIVER_QUEUE_MSGS] chunks, none empty and none over [DELIVER_MSG_BYTES]; and a stream whose connection is gone finds
    its gate closed and its queue ended.  If moreover no write outlives its connection to meet another of the same key, the credit is
    accounted for exactly: what a connection's gate has lent is the bytes of its stream that wait in the command channel
    and the bytes the connection still holds, and a gate without a connection has lent what waits in the channel, so credit neither leaks nor is given
    twice.  Without that it is not: [stale_write_crosses].  The history is shorter than 2^63 steps. *)
Theorem socket_bounded steps t0 :
  along lawful steps (bind_socket t0) -> Z.of_nat (length steps) < 2 ^ 63 ->
  exists d, socket_run steps (bind_socket t0) = (d, Ok tt) /\
    (size (conns d) <= MAX_CONNS + dials_made steps)%nat /\
    (forall key e, conns d !! key = Some e ->
      Z.of_nat (length (in_buf (conn e))) < RECV_WINDOW_BYTES + RECV_BUF /\ Z.of_nat (length (pending_in (conn e))) <= MAX_PENDING_IN /\
      outstanding_send_bytes (conn e) = Ok (last_outstanding e) /\
      exists l, links d !! e_link e = Some l /\ l_key l = key /\
        (along owned steps (bind_socket t0) -> used (l_gate l) = (queued (e_link e) (cmd_ch d) + last_outstanding e)%nat)) /\
    (forall i l, links d !! i = Some l ->
      (used (l_gate l) <= SEND_BUF_CAP_BYTES)%nat /\
      (l_writer l = WParked -> waiter (l_gate l) = true -> used (l_gate l) = SEND_BUF_CAP_BYTES /\ gate_closed (l_gate l) = false) /\
      (length (l_queue l) <= DELIVER_QUEUE_MSGS)%nat /\ Forall (fun c => (1 <= length c <= DELIVER_MSG_BYTES)%nat) (l_queue l) /\
      ((exists e, conns d !! l_key l = Some e /\ e_link e = i) \/
       gate_closed (l_gate l) = true /\ l_sender l = false /\ (along owned steps (bind_socket t0) -> used (l_gate l) = queued i (cmd_ch d)))).
Proof.
  intros Hc Hn. pose (Hf := along owned steps (bind_socket t0) : Fair).
  assert (H0 : socket_ok settled empty_hand 0 (bind_socket t0)) by (split; try done; [intros ? ? ? H; by apply elem_of_nil in H|cbn [conns bind_socket]; rewrite map_size_empty; cbn; lia]).
  destruct (socket_run_total steps 0 0 (bind_socket t0)) as (d & E & Hrx); [lia..|done|done|done|done|]. exists d. pose proof (socket_run_ok steps 0 _ d H0 Hc (fun F => F) E) as [H1 H2 H3 H4 H5 [H6 _]]. split; [done|]. split; [lia|]. split.
  - intros key e He. destruct (Hrx key e He) as ((B1 & _ & _ & B2) & _). split; [done|]. split; [done|]. destruct (H1 key e He) as (l & El & Ek). destruct (H2 key e He) as [[_ Hfl] Hl]. specialize (Hl (fun F => F)).
    destruct (H3 _ _ El) as (_ & _ & _ & Hu). split; [by rewrite outstanding_held, Hl|]. exists l. split_and!; try done. intros F. specialize (Hu F). unfold owed_by, owed, empty_hand in Hu. rewrite Ek, He, decide_True in Hu by done. lia.
  - intros i l El. destruct (H3 i l El) as (_ & [G1 G2] & [Q1 Q2] & Hu). split_and!; try done; [by intros Ew W; specialize (G2 W); rewrite Ew in G2|]. destruct (H4 i l El) as [?|[C1 C2]]; [by left|]. unfold owed_by in Hu.
    destruct (conns d !! l_key l) as [e|] eqn:He; [destruct (decide (e_link e = i)); [left; by exists e|]|]; right; split_and!; try done; intros F; specialize (Hu F); unfold empty_hand in Hu; lia.
Qed.

(** ** A history *)

Definition wire (p : Packet) : bytes := match encode p with Ok b => b | _ => [] end.
Definition peer_ex : SocketAddr := sock_addr (IpV4 Byte.x01 Byte.x02 Byte.x03 Byte.x04) 6881.
Definition from_peer (p : Packet) : SocketStep := Datagram (wire p) peer_ex 1000000 500.

(** A peer connects and confirms the return path with its first data. *)
Definition opened_ex : list SocketStep :=
  [from_peer (UtpPacket.new Syn 7 100 0); from_peer (mkPacket Data 8 0 0 0 101 499 [] (payload_from (bs "hi")))].

Definition served_ex : list SocketStep := opened_ex ++ [Write 0 (bs "abc"); WriteOn 0; NextCommand 1000000 []; Read 0 10; Dial peer_ex 0; NextCommand 1000000 [30]; TimerTick [(peer_ex, 8); (peer_ex, 30)] 2000000].

Lemma socket_bounded_witness : exists d, socket_run served_ex (bind_socket 0) = (d, Ok tt) /\ (size (conns d) <= MAX_CONNS + 1)%nat /\
  (forall i l, links d !! i = Some l -> (used (l_gate l) <= SEND_BUF_CAP_BYTES)%nat) /\ exists e l, conns d !! (peer_ex, 8) = Some e /\ links d !! e_link e = Some l /\ used (l_gate l) = (queued (e_link e) (cmd_ch d) + 3)%nat.
Proof.
  destruct (socket_bounded served_ex 0) as (d & E & A & C & B).
  - vm_compute. repeat split; try discriminate; try (eexists; reflexivity).
  - vm_compute. reflexivity.
  - exists d. split; [exact E|]. split; [exact A|]. split; [intros i l El; apply (B i l El)|].
    assert (E8 : last_outstanding <$> (conns d !! (peer_ex, 8)) = Some 3%nat) by (replace d with (socket_run served_ex (bind_socket 0)).1 by (rewrite E; reflexivity); vm_compute; reflexivity).
    destruct (conns d !! (peer_ex, 8)) as [e|] eqn:He; [|discriminate]. injection E8 as E8. destruct (C _ e He) as (_ & _ & _ & l & El & _ & U). exists e, l. split; [reflexivity|]. split; [exact El|].
    rewrite <- E8. apply U. vm_compute. repeat split; intros ? [= <-]; reflexivity.
Defined.

(** ** Where commands name a connection *)

(** A command carries the key of its connection, not the connection: a peer may reset it and connect again under the same
    id while the old stream is still in the application's hands. *)
Definition again_ex : list SocketStep := from_peer (UtpPacket.new Reset 8 102 0) :: opened_ex.

(** Dropping the old stream then closes the new connection. *)
Lemma stale_close_ends : let d := (socket_run (opened_ex ++ again_ex ++ [DropStream 0; NextCommand 1000000 []]) (bind_socket 0)).1 in
  accepted d = [0%nat; 1%nat] /\ (fun e => (e_link e, state (conn e))) <$> (conns d !! (peer_ex, 8)) = Some (1%nat, FinSent) /\ gate_closed ∘ l_gate <$> (links d !! 1%nat) = Some true.
Proof. vm_compute. done. Qed.

(** What the old stream wrote is sent to the new connection, and the old gate is not refunded. *)
Lemma stale_write_crosses : let d := (socket_run (opened_ex ++ [Write 0 (bs "abc"); WriteOn 0] ++ again_ex ++ [NextCommand 1000000 []]) (bind_socket 0)).1 in
  (fun e => (e_link e, last_outstanding e)) <$> (conns d !! (peer_ex, 8)) = Some (1%nat, 3%nat) /\ used ∘ l_gate <$> (links d !! 0%nat) = Some 3%nat /\ used ∘ l_gate <$> (links d !! 1%nat) = Some 0%nat.
Proof. vm_compute. done. Qed.

(** ** Bytes the queue has no room for *)

(** A peer sends seventeen small packets and finishes, and the application has not read yet: the last bytes, acknowledged
    to the peer, go with the entry, and the stream ends without them and without an error. *)
Definition unread_ex : list SocketStep :=
  opened_ex ++ ((fun k => from_peer (mkPacket Data 8 0 0 0 (101 + Z.of_nat k) 499 [] (payload_from (bs "x")))) <$> seq 1 16).

Lemma fin_truncates : let d0 := (socket_run unread_ex (bind_socket 0)).1 in
  let d := (socket_run (unread_ex ++ [from_peer (UtpPacket.new Fin 8 118 499)]) (bind_socket 0)).1 in
  (fun e => (peer_seq_nr_acked (conn e), in_buf (conn e))) <$> (conns d0 !! (peer_ex, 8)) = Some (117, bs "x") /\
  conns d !! (peer_ex, 8) = None /\ (fun l => (concat (l_queue l), l_sender l)) <$> (links d !! 0%nat) = Some (bs "hixxxxxxxxxxxxxxx", false).
Proof. vm_compute. done. Qed.
