(* ===== verification/Create.v ===== *)
(** * Torrent creation: [src/src/create.rs], and [cmd_create] of [src/src/main.rs]

    A file or a directory is read, hashed in pieces and described by a torrent file.
    The input is a tree whose nodes may fail to be listed, measured or read, and
    every [read] may return fewer bytes than were asked for.  SHA-1 is a
    parameter.  The theorem is that the loader of [Torrent] reads back what was
    created. *)

From Stdlib Require Import ZArith Lia String Strings.Byte.
From stdpp Require Import base tactics numbers list option sorting.
From S2P Require Import Prelude Bencode Paths Torrent.

#[local] Set Warnings "-register-all".

(** ** [String::from_utf8_lossy] *)

Definition REPLACEMENT : bytes := [xef; xbf; xbd].

(** The second byte of a three- and of a four-byte character. *)
Definition second3 (a b : byte) : bool := if b2z a =? 224 then between 160 191 b else if b2z a =? 237 then between 128 159 b else cont b.
Definition second4 (a b : byte) : bool := if b2z a =? 240 then between 144 191 b else if b2z a =? 244 then between 128 143 b else cont b.

(** Each maximal prefix of a character that is not completed becomes one replacement character. *)
Fixpoint to_string_lossy (l : bytes) : bytes :=
  match l with
  | [] => []
  | a :: r =>
      if b2z a <? 128 then a :: to_string_lossy r
      else if between 194 223 a then
        match r with
        | b :: r' => if cont b then a :: b :: to_string_lossy r' else REPLACEMENT ++ to_string_lossy r
        | [] => REPLACEMENT
        end
      else if between 224 239 a then
        match r with
        | b :: r1 =>
            if second3 a b then
              match r1 with
              | c :: r' => if cont c then a :: b :: c :: to_string_lossy r' else REPLACEMENT ++ to_string_lossy r1
              | [] => REPLACEMENT
              end
            else REPLACEMENT ++ to_string_lossy r
        | [] => REPLACEMENT
        end
      else if between 240 244 a then
        match r with
        | b :: r1 =>
            if second4 a b then
              match r1 with
              | c :: r2 =>
                  if cont c then
                    match r2 with
                    | d :: r' => if cont d then a :: b :: c :: d :: to_string_lossy r' else REPLACEMENT ++ to_string_lossy r2
                    | [] => REPLACEMENT
                    end
                  else REPLACEMENT ++ to_string_lossy r1
              | [] => REPLACEMENT
              end
            else REPLACEMENT ++ to_string_lossy r
        | [] => REPLACEMENT
        end
      else REPLACEMENT ++ to_string_lossy r
  end.

(** ** The input *)

(** A regular file with the length [stat] reports and the data it reads as, a directory with its entries,
    a symbolic link, anything else.  [None] is an operation that fails. *)
Inductive Node :=
  | RegularFile (len : option Z) (data : option bytes)
  | Directory (entries : option (list (bytes * option Node)))
  | Symlink
  | OtherNode.

(** [if_data] is what the file at [disk_path] reads as. *)
Record InputFile := mkInput { if_data : option bytes; rel_components : list bytes; if_length : Z }.

Definition DEFAULT_PIECE_LENGTH : Z := 256 * 1024.

(** [input.file_name()] *)
Definition file_name (p : bytes) : option bytes :=
  match last (components p) with Some (Normal s) => Some s | _ => None end.

(** ** Collecting *)

(** Every entry is read before any is visited; an entry is visited in the order of the names. *)
Fixpoint collect_files (dir : Node) (prefix : list bytes) : result (list InputFile) :=
  match dir with
  | Directory (Some entries) =>
      names ← map_res (fun r => r) (map (fun '(raw, x) =>
        match x with
        | None => Err (EBencode "dir entry")
        | Some x =>
            let name := to_string_lossy raw in
            let visit :=
              match x with
              | Symlink => Ok []
              | Directory _ => collect_files x (prefix ++ [name])
              | RegularFile (Some len) data => Ok [mkInput data (prefix ++ [name]) len]
              | RegularFile None _ => Err (EBencode "stat")
              | OtherNode => Ok []
              end in
            Ok (name, visit)
        end) entries);
      found ← map_res snd (sort_by (fun a b => bytes_ltb a.1 b.1) names);
      Ok (concat found)
  | _ => Err (EBencode "read dir")
  end.

(** The order of [Vec<String>]. *)
Fixpoint components_ltb (a b : list bytes) : bool :=
  match a, b with
  | _, [] => false
  | [], _ :: _ => true
  | x :: a, y :: b => bytes_ltb x y || bytes_eqb x y && components_ltb a b
  end.

(** ** Hashing *)

Section Hashing.
Context (sha1 : bytes -> bytes) (reads : nat -> nat) (piece_length : nat).

(** The loop over one file: the reads so far, the hashes and [buf[..filled]].  A read of a file with bytes left
    returns at least one and at most what fits. *)
Fixpoint hash_file (fuel : nat) (t : nat) (rest pieces buf : bytes) : result (nat * bytes * bytes) :=
  match fuel with
  | O => NoFuel
  | S fuel =>
      let n := Nat.min (Nat.max 1 (reads t)) (Nat.min (piece_length - length buf) (length rest)) in
      if (n =? 0)%nat then Ok (S t, pieces, buf)
      else
        let buf := buf ++ take n rest in
        if (length buf =? piece_length)%nat then hash_file fuel (S t) (drop n rest) (pieces ++ sha1 buf) []
        else hash_file fuel (S t) (drop n rest) pieces buf
  end.

Fixpoint hash_files (files : list InputFile) (t : nat) (pieces buf : bytes) : result (bytes * bytes) :=
  match files with
  | [] => Ok (pieces, buf)
  | f :: files =>
      data ← ok_or (if_data f) (EBencode "open");
      '(t, pieces, buf) ← hash_file (S (length data)) t data pieces buf;
      hash_files files t pieces buf
  end.

Definition hash_pieces (files : list InputFile) : result bytes :=
  '(pieces, buf) ← hash_files files 0 [] [];
  Ok (if (0 <? length buf)%nat then pieces ++ sha1 buf else pieces).
End Hashing.

(** ** The torrent file *)

(** [n as i64] of a [u64]. *)
Definition as_i64 (n : Z) : Z := if n <? 2 ^ 63 then n else n - 2 ^ 64.

Definition file_value (f : InputFile) : BencodeValue :=
  BDict (bt_insert (bs "path") (BList (BBytes <$> rel_components f)) (bt_insert (bs "length") (BInt (as_i64 (if_length f))) [])).

Definition info_value (name : bytes) (piece_length : Z) (pieces : bytes) (private single_file : bool) (files : list InputFile) : result BencodeValue :=
  let info := bt_insert (bs "name") (BBytes name) [] in
  let info := bt_insert (bs "piece length") (BInt (as_i64 piece_length)) info in
  let info := bt_insert (bs "pieces") (BBytes pieces) info in
  let info := if private then bt_insert (bs "private") (BInt 1) info else info in
  if single_file then
    f ← index files 0;
    Ok (BDict (bt_insert (bs "length") (BInt (as_i64 (if_length f))) info))
  else Ok (BDict (bt_insert (bs "files") (BList (file_value <$> files)) info)).

Definition top_value (info_val : BencodeValue) (trackers : list bytes) : BencodeValue :=
  let top := bt_insert (bs "info") info_val [] in
  let top := match trackers with first :: _ => bt_insert (bs "announce") (BBytes first) top | [] => top end in
  BDict (if (1 <? length trackers)%nat then bt_insert (bs "announce-list") (BList ((fun u => BList [BBytes u]) <$> trackers)) top else top).

(** The files to describe, and whether the input is a single file.  [std::fs::metadata] follows a link,
    so the node is the one the path leads to. *)
Definition input_files (node : Node) : result (list InputFile * bool) :=
  match node with
  | RegularFile None _ | Symlink => Err (EBencode "stat")
  | RegularFile (Some len) data => Ok ([mkInput data [] len], true)
  | Directory _ =>
      collected ← collect_files node [];
      let collected := sort_by (fun a b => components_ltb (rel_components a) (rel_components b)) collected in
      if (length collected =? 0)%nat then Err (EBencode "directory contains no regular files") else Ok (collected, false)
  | OtherNode => Err (EBencode "neither a regular file nor a directory")
  end.

Section Create.
Context (sha1 : bytes -> bytes) (reads : nat -> nat).

Definition create_torrent (input : bytes) (node : Node) (trackers : list bytes) (piece_length : Z) (name_override : option bytes) (private : bool)
    : result (bytes * bytes) :=
  if piece_length =? 0 then Err (EBencode "piece length must be > 0")
  else
    '(files, single_file) ← input_files node;
    let name := default (default (bs "torrent") (to_string_lossy <$> file_name input)) name_override in
    total_length ← sum_u64 (if_length <$> files);
    if total_length =? 0 then Err (EBencode "zero total length; torrents of empty data are not representable")
    else
      pieces ← hash_pieces sha1 reads (Z.to_nat piece_length) files;
      info_val ← info_value name piece_length pieces private single_file files;
      Ok (Bencode.to_bytes (top_value info_val trackers), sha1 (Bencode.to_bytes info_val)).

(** [cmd_create]: the path to write to, and the bytes. *)
Definition cmd_create (path : bytes) (node : Node) (output : option bytes) (trackers : list bytes) (piece_length : Z) (name : option bytes) (private : bool)
    : result (bytes * bytes) :=
  '(raw, _) ← create_torrent path node trackers piece_length name private;
  out_path ← match output with
             | Some p => Ok p
             | None => t ← Torrent.from_bytes sha1 raw; Ok (Torrent.name (info t) ++ bs ".torrent")
             end;
  Ok (out_path, raw).
End Create.

(** A directory with a file, a link and a directory below. *)
Definition tree_ex : Node :=
  Directory (Some [(bs "b.txt", Some (RegularFile (Some 3) (Some (bs "xyz")))); (bs "link", Some Symlink);
                   (bs "a", Some (Directory (Some [(bs "c.txt", Some (RegularFile (Some 2) (Some (bs "uv"))))])))]).

Example create_ex : (fun t => (Torrent.name (info t), piece_hashes (info t), files (info t), Torrent.trackers t))
  <$> ('(raw, _) ← create_torrent (fun b => take 20 (b ++ replicate 20 x00)) (fun _ => 1%nat) (bs "/data/set") tree_ex [bs "http://t/"] 4 None false; Torrent.from_bytes id raw)
  = Ok (bs "set", [take 20 (bs "uvxy" ++ replicate 20 x00); take 20 (bs "z" ++ replicate 20 x00)],
        Multi [mkFileEntry 2 (bs "a/c.txt"); mkFileEntry 3 (bs "b.txt")], [bs "http://t/"]).
Proof. vm_compute. reflexivity. Qed.

(** ** Lossy text *)

Lemma lossy_valid l : utf8_valid (to_string_lossy l) = true /\ (utf8_valid l = true -> to_string_lossy l = l).
Proof.
  assert (R : forall x, utf8_valid (REPLACEMENT ++ x) = utf8_valid x) by done.
  remember (length l) as n eqn:En. revert l En. induction n as [n IH] using lt_wf_ind. intros l ->.
  assert (G : forall r, (length r < length l)%nat -> utf8_valid (to_string_lossy r) = true /\ (utf8_valid r = true -> to_string_lossy r = r)) by (intros r Hr; by apply (IH _ Hr)). clear IH.
  destruct l as [|a r]; [done|]. cbn [to_string_lossy utf8_valid length] in *. fold (second3 a) (second4 a).
  destruct (b2z a <? 128) eqn:E1. { cbn [utf8_valid]. rewrite E1. destruct (G r) as [G1 G2]; [lia|]. split; [done|]. intros H. by rewrite G2. }
  destruct (between 194 223 a) eqn:E2.
  { destruct r as [|b r]; [done|]. destruct (cont b) eqn:Eb.
    - cbn [utf8_valid]. rewrite E1, E2, Eb. cbn [andb]. destruct (G r) as [G1 G2]; [cbn; lia|]. split; [done|]. intros H. by rewrite G2.
    - rewrite R. split; [apply G; lia|done]. }
  destruct (between 224 239 a) eqn:E3.
  { destruct r as [|b r]; [done|]. destruct (second3 a b) eqn:Eb; [|rewrite R; split; [apply G; lia|by destruct r; unfold second3 in Eb; rewrite ?Eb]].
    destruct r as [|c r]; [done|]. destruct (cont c) eqn:Ec; [|rewrite R; split; [apply G; cbn; lia|by rewrite andb_false_r]].
    cbn [utf8_valid]. rewrite E1, E2, E3, Ec. unfold second3 in Eb. rewrite Eb. cbn [andb]. destruct (G r) as [G1 G2]; [cbn; lia|]. split; [done|]. intros H. by rewrite G2. }
  destruct (between 240 244 a) eqn:E4; [|rewrite R; split; [apply G; lia|done]].
  destruct r as [|b r]; [done|]. destruct (second4 a b) eqn:Eb; [|rewrite R; split; [apply G; lia|by destruct r as [|? [|? ?]]; unfold second4 in Eb; rewrite ?Eb]].
  destruct r as [|c r]; [done|]. destruct (cont c) eqn:Ec; [|rewrite R; split; [apply G; cbn; lia|by destruct r; rewrite ?andb_false_r]].
  destruct r as [|d r]; [done|]. destruct (cont d) eqn:Ed; [|rewrite R; split; [apply G; cbn; lia|by rewrite andb_false_r]].
  cbn [utf8_valid]. rewrite E1, E2, E3, E4, Ec, Ed. unfold second4 in Eb. rewrite Eb. cbn [andb]. destruct (G r) as [G1 G2]; [cbn; lia|]. split; [done|]. intros H. by rewrite G2.
Qed.

(** ** The tree *)

Section node_ind.
Variable P : Node -> Prop.
Hypothesis HFile : forall len data, P (RegularFile len data).
Hypothesis HNone : P (Directory None).
Hypothesis HDir : forall entries, Forall (fun e => match e.2 with Some x => P x | None => True end) entries -> P (Directory (Some entries)).
Hypothesis HLink : P Symlink.
Hypothesis HOther : P OtherNode.

Fixpoint node_ind' (x : Node) : P x :=
  match x with
  | RegularFile len data => HFile len data
  | Directory None => HNone
  | Directory (Some entries) =>
      HDir entries ((fix go l : Forall (fun e : bytes * option Node => match e.2 with Some x => P x | None => True end) l :=
        match l with
        | [] => Forall_nil_2 _
        | (raw, o) :: l =>
            Forall_cons_2 (fun e : bytes * option Node => match e.2 with Some x => P x | None => True end) (raw, o) l
              (match o return match o with Some x => P x | None => True end with Some x => node_ind' x | None => I end) (go l)
        end) entries)
  | Symlink => HLink
  | OtherNode => HOther
  end.
End node_ind.

(** Every regular file below a directory, links left alone, in the order of the listings. *)
Fixpoint all_files (dir : Node) (prefix : list bytes) : list InputFile :=
  match dir with
  | Directory (Some entries) =>
      flat_map (fun '(raw, x) =>
        match x with
        | Some (RegularFile len data) => [mkInput data (prefix ++ [to_string_lossy raw]) (default 0 len)]
        | Some (Directory _ as d) => all_files d (prefix ++ [to_string_lossy raw])
        | _ => []
        end) entries
  | _ => []
  end.

Lemma map_res_Forall2 {A B} (f : A -> result B) l l' : map_res f l = Ok l' -> Forall2 (fun x y => f x = Ok y) l l'.
Proof.
  revert l'. induction l as [|x l IH]; intros l'; cbn [map_res]; [by intros [= <-]|]. intros E. apply bind_Ok in E as (y & Ey & E). apply bind_Ok in E as (ys & Eys & [= <-]). constructor; [done|]. by apply IH.
Qed.

Lemma visits_concat (l : list (bytes * result (list InputFile))) found : map_res snd l = Ok found -> concat found = flat_map (fun v => match v.2 with Ok fs => fs | _ => [] end) l.
Proof. intros E%map_res_Forall2. induction E as [|[n r] fs l found Er _ IH]; [done|]. cbn [snd] in Er. subst r. cbn. by rewrite IH. Qed.

Lemma visits_ok (l : list (bytes * result (list InputFile))) found : map_res snd l = Ok found -> Forall (fun v => exists fs, v.2 = Ok fs) l.
Proof. intros E%map_res_Forall2. induction E; constructor; [by eexists|done]. Qed.

(** Listing finds every regular file once. *)
Lemma collect_perm dir : forall prefix fs, collect_files dir prefix = Ok fs -> fs ≡ₚ all_files dir prefix.
Proof.
  induction dir as [len data| |entries IH| |] using node_ind'; intros prefix fs; cbn [collect_files]; try done.
  intros E. apply bind_Ok in E as (names & En & E). apply bind_Ok in E as (found & Ef & [= <-]). rewrite (visits_concat _ _ Ef). cbn [all_files]. apply visits_ok in Ef.
  rewrite (sort_by_perm _ names) in Ef. rewrite (Permutation_flat_map _ (sort_by_perm _ names)). apply map_res_Forall2 in En. clear found. revert names Ef En.
  induction IH as [|[raw x] entries Hx _ IHl]; intros names Ef En; cbn [map] in En.
  { by apply Forall2_nil_inv_l in En as ->. }
  apply Forall2_cons_inv_l in En as ([n v] & names' & En & Er & ->). apply list.Forall_cons in Ef as [[fs Hv] Ef]. cbn [flat_map]. apply Permutation_app; [|by apply IHl].
  cbn [snd] in *. destruct x as [x|]; [|done]. injection En as <- Ev. rewrite Hv in *. destruct x as [[len|] data|d| |]; try done; try by injection Ev as <-. by apply Hx.
Qed.

(** ** The hashes *)

Section Hashes.
Context (sha1 : bytes -> bytes) (reads : nat -> nat) (pl : nat) (Hpl : (0 < pl)%nat).

(** Full pieces, then a rest shorter than one. *)
Definition cut_as (stream : bytes) (cs : list bytes) (rest : bytes) : Prop :=
  stream = concat cs ++ rest /\ Forall (fun c => length c = pl) cs /\ (length rest < pl)%nat.

Lemma hash_file_spec fuel : forall t rest pieces buf, (length rest < fuel)%nat -> (length buf < pl)%nat ->
  exists t' cs buf', hash_file sha1 reads pl fuel t rest pieces buf = Ok (t', pieces ++ flat_map sha1 cs, buf') /\ cut_as (buf ++ rest) cs buf'.
Proof.
  induction fuel as [|fuel IH]; intros t rest pieces buf Hf Hb; [lia|]. cbn [hash_file]. set (n := Nat.min _ _).
  destruct (Nat.eqb_spec n 0) as [E|E].
  { destruct rest as [|c rest]; [|cbn in *; lia]. exists (S t), [], buf. cbn. rewrite !app_nil_r. split; [done|]. by split_and!. }
  assert (Hn : (n <= length rest /\ n <= pl - length buf)%nat) by lia. assert (Hd : (length (drop n rest) < fuel)%nat) by (rewrite length_drop; lia).
  assert (Hl : length (buf ++ take n rest) = (length buf + n)%nat) by (rewrite length_app, length_take; lia). rewrite Hl.
  destruct (Nat.eqb_spec (length buf + n) pl) as [Ep|Ep].
  - destruct (IH (S t) (drop n rest) (pieces ++ sha1 (buf ++ take n rest)) [] Hd) as (t' & cs & buf' & Eh & Es & Hc & Hr); [cbn; lia|].
    exists t', ((buf ++ take n rest) :: cs), buf'. rewrite Eh. cbn [flat_map concat app] in *. split; [by rewrite <- app_assoc|]. split_and!; [|constructor; [lia|done]|done].
    cbn [concat]. rewrite <- !app_assoc, <- Es. by rewrite take_drop.
  - destruct (IH (S t) (drop n rest) pieces (buf ++ take n rest) Hd) as (t' & cs & buf' & Eh & Es & Hc & Hr); [lia|].
    exists t', cs, buf'. split; [done|]. split_and!; [|done|done]. rewrite <- Es, <- app_assoc. by rewrite take_drop.
Qed.

Lemma hash_files_spec files datas : Forall2 (fun f d => if_data f = Some d) files datas -> forall t pieces buf, (length buf < pl)%nat ->
  exists cs buf', hash_files sha1 reads pl files t pieces buf = Ok (pieces ++ flat_map sha1 cs, buf') /\ cut_as (buf ++ concat datas) cs buf'.
Proof.
  induction 1 as [|f d files datas Hd _ IH]; intros t pieces buf Hb; cbn [hash_files].
  { exists [], buf. cbn. rewrite !app_nil_r. split; [done|]. by split_and!. }
  rewrite Hd. cbn [ok_or mbind result_bind]. destruct (hash_file_spec (S (length d)) t d pieces buf) as (t1 & cs1 & buf1 & E1 & S1 & C1 & R1); [lia|done|].
  rewrite E1. cbn [mbind result_bind]. destruct (IH t1 (pieces ++ flat_map sha1 cs1) buf1 R1) as (cs2 & buf2 & E2 & S2 & C2 & R2).
  exists (cs1 ++ cs2), buf2. rewrite E2, flat_map_app, <- app_assoc. split; [done|]. split_and!; [|by apply Forall_app|done].
  cbn [concat]. rewrite app_assoc, S1, concat_app, <- !app_assoc. by rewrite <- S2.
Qed.

(** The pieces of a stream, the last one perhaps shorter. *)
Definition pieces_of (stream : bytes) : list bytes :=
  (fun i => slice stream (i * pl) pl) <$> seq 0 (Z.to_nat (div_ceil (Z.of_nat (length stream)) (Z.of_nat pl))).

Lemma count_pieces n r : (r < pl)%nat -> Z.to_nat (div_ceil (Z.of_nat (n * pl + r)) (Z.of_nat pl)) = (n + if (0 <? r)%nat then 1 else 0)%nat.
Proof.
  intros Hr. unfold div_ceil. rewrite Nat2Z.inj_add, Nat2Z.inj_mul, Z.add_comm, Z.mod_add, Z.div_add by lia.
  rewrite Z.mod_small, Z.div_small by lia. destruct (Nat.ltb_spec 0 r), (Z.eqb_spec (Z.of_nat r) 0); lia.
Qed.

Lemma cut_pieces stream cs rest : cut_as stream cs rest -> cs ++ (if (0 <? length rest)%nat then [rest] else []) = pieces_of stream.
Proof.
  intros (-> & Hc & Hr). unfold pieces_of. assert (Hl : length (concat cs) = (length cs * pl)%nat).
  { induction Hc as [|c cs Ec _ IH]; [done|]. cbn. rewrite length_app, IH. lia. }
  rewrite length_app, Hl, count_pieces by done. clear Hl. induction Hc as [|c cs Ec _ IH].
  - destruct (Nat.ltb_spec 0 (length rest)) as [H0|H0]; cbn; [|done]. unfold slice. cbn. by rewrite drop_0, take_ge by lia.
  - cbn [length app Nat.add seq fmap list_fmap concat]. f_equal.
    + unfold slice. rewrite Nat.mul_0_l, drop_0, <- app_assoc. by rewrite take_app_length'.
    + rewrite IH, <- fmap_S_seq, <- list_fmap_compose. apply list_fmap_ext. intros i x _. cbn. unfold slice. rewrite <- app_assoc. f_equal.
      by rewrite drop_app_add'.
Qed.

Lemma hash_pieces_spec files datas : Forall2 (fun f d => if_data f = Some d) files datas ->
  hash_pieces sha1 reads pl files = Ok (concat (sha1 <$> pieces_of (concat datas))).
Proof.
  intros Hd. unfold hash_pieces. destruct (hash_files_spec files datas Hd 0 [] []) as (cs & rest & E & Hc); [done|]. rewrite E. cbn [mbind result_bind app].
  rewrite <- (cut_pieces (concat datas) _ _ Hc). f_equal. rewrite fmap_app, concat_app, <- flat_map_concat_map. destruct (0 <? length rest)%nat; cbn; by rewrite ?app_nil_r.
Qed.
End Hashes.

Lemma concat_20 (hs : list bytes) : Forall (fun h => length h = 20%nat) hs -> length (concat hs) = (length hs * 20)%nat.
Proof. induction 1 as [|h l Eh _ IH]; [done|]. cbn. rewrite length_app, IH. lia. Qed.

Lemma chunks_20 hs : Forall (fun h => length h = 20%nat) hs -> as_chunks_20 (concat hs) = hs.
Proof.
  intros Hh. unfold as_chunks_20. rewrite concat_20, Nat.div_mul by done. induction Hh as [|h hs Eh _ IH]; [done|]. cbn [length seq fmap list_fmap concat]. f_equal.
  - unfold slice. rewrite Nat.mul_0_r, drop_0. by rewrite take_app_length'.
  - rewrite <- IH at 2. rewrite <- fmap_S_seq, <- list_fmap_compose. apply list_fmap_ext. intros i x _. unfold compose, slice.
    replace (20 * S x)%nat with (20 + 20 * x)%nat by lia. by rewrite drop_app_add'.
Qed.

(** ** The order of the files *)

Lemma components_total a b : components_ltb a b = true \/ a = b \/ components_ltb b a = true.
Proof.
  revert b. induction a as [|x a IH]; intros [|y b]; cbn; auto. destruct (bytes_ltb_total x y) as [-> | [-> | ->]]; cbn; auto.
  rewrite bytes_ltb_irrefl, bytes_eqb_refl. cbn. destruct (IH b) as [-> | [-> | ->]]; auto.
Qed.

Lemma components_trans a b c : components_ltb a b = true -> components_ltb b c = true -> components_ltb a c = true.
Proof.
  revert b c. induction a as [|x a IH]; intros [|y b] [|z c]; cbn; try done. rewrite !orb_true_iff, !andb_true_iff, !bytes_eqb_eq.
  intros [H1|[-> H1]] [H2|[-> H2]]; [left; by eapply bytes_ltb_trans|by left|by left|right]. split; [done|]. by eapply IH.
Qed.

Lemma components_irrefl a : components_ltb a a = false.
Proof. induction a as [|x a IH]; cbn; [done|]. by rewrite bytes_ltb_irrefl, bytes_eqb_refl. Qed.

Lemma components_asym a b : components_ltb a b = true -> components_ltb b a = false.
Proof. intros H. destruct (components_ltb b a) eqn:E; [|done]. pose proof (components_trans _ _ _ H E) as C. by rewrite components_irrefl in C. Qed.

Lemma components_nlt_trans a b c : components_ltb b a = false -> components_ltb c b = false -> components_ltb c a = false.
Proof.
  intros H1 H2. destruct (components_ltb c a) eqn:E; [|done]. destruct (components_total a b) as [H|[->|H]]; [|congruence..].
  pose proof (components_trans _ _ _ E H). congruence.
Qed.

(** ** Values that fit *)

(** What a value satisfies whatever its size. *)
Fixpoint shape (v : BencodeValue) : bool :=
  match v with
  | BInt i => in_i64 i
  | BBytes _ => true
  | BList l => forallb shape l
  | BDict m => bt_sorted m && forallb (fun '(_, v) => shape v) m
  end.

Lemma in_flat_map_length {A} (f : A -> bytes) l x : x ∈ l -> (length (f x) <= length (flat_map f l))%nat.
Proof. induction l as [|y l IH]; [by intros ?%not_elem_of_nil|]. cbn. rewrite length_app. intros [->|Hx]%elem_of_cons; [lia|]. specialize (IH Hx). lia. Qed.

Lemma fits_wf v : shape v = true -> Z.of_nat (length (Bencode.to_bytes v)) < 2 ^ 64 -> wf v = true.
Proof.
  induction v as [i|b|l IH|m IH] using value_ind'; intros Hs Hl; [done|..].
  - cbn [wf]. apply in_u_spec. cbn [Bencode.to_bytes] in Hl. rewrite length_app in Hl. cbn [length] in Hl. lia.
  - cbn [wf shape Bencode.to_bytes] in *. cbn [length] in Hl. rewrite length_app in Hl. rewrite forallb_forall in *. intros v Hv. rewrite list.Forall_forall in IH.
    apply IH; [by apply list_elem_of_In|by apply Hs|]. apply list_elem_of_In, (in_flat_map_length Bencode.to_bytes) in Hv. lia.
  - cbn [wf shape Bencode.to_bytes] in *. apply andb_true_iff in Hs as [-> Hs]. cbn [andb length] in *. rewrite length_app in Hl. change (flat_map _ m) with (flat_map entry_bytes m) in Hl.
    rewrite forallb_forall in *. intros [k v] Hv. specialize (Hs _ Hv). apply list_elem_of_In in Hv. pose proof (in_flat_map_length entry_bytes m (k, v) Hv) as L.
    cbn [entry_bytes] in L. rewrite !length_app in L. cbn [length] in L. rewrite list.Forall_forall in IH. specialize (IH _ Hv). cbn [snd] in IH.
    rewrite IH by (done || lia). rewrite andb_true_r. apply in_u_spec. lia.
Qed.

Lemma height_BList l n : Forall (fun v => (height v <= n)%nat) l -> (height (BList l) <= S n)%nat.
Proof. cbn [height]. induction 1; cbn; lia. Qed.

Lemma height_BDict m n : Forall (fun kv => (height kv.2 <= n)%nat) m -> (height (BDict m) <= S n)%nat.
Proof. cbn [height]. induction 1 as [|[k v] m]; cbn in *; lia. Qed.

(** [shape] and a bound on the height, kept by insertions. *)
Definition flat (n : nat) (m : list (bytes * BencodeValue)) : Prop := shape (BDict m) = true /\ Forall (fun kv => (height kv.2 <= n)%nat) m.

Lemma flat_nil n : flat n [].
Proof. by split. Qed.

Lemma flat_file_insert n k v m : shape v = true -> (height v <= n)%nat -> flat n m -> flat n (bt_insert k v m).
Proof.
  intros Hv Hh [Hs Hm]. cbn [shape] in Hs. apply andb_true_iff in Hs as [H1 H2]. split.
  - cbn [shape]. rewrite sorted_insert by done. cbn [andb]. clear H1 Hm. induction m as [|[k' v'] m IH]; cbn [bt_insert forallb]; [by rewrite Hv|].
    cbn [forallb] in H2. apply andb_true_iff in H2 as [H2 H3]. destruct (bytes_ltb k k'); cbn [forallb]; [by rewrite Hv, H2, H3|]. destruct (bytes_eqb k k'); cbn [forallb]; [by rewrite Hv, H3|]. by rewrite H2, IH.
  - clear H1 H2. induction Hm as [|[k' v'] m Hk Hm IH]; cbn [bt_insert]; [by constructor|]. destruct (bytes_ltb k k'); [by constructor; [|constructor]|]. destruct (bytes_eqb k k'); by constructor.
Qed.

Lemma flat_height n m : flat n m -> shape (BDict m) = true /\ (height (BDict m) <= S n)%nat.
Proof. intros [H1 H2]. split; [done|]. by apply height_BDict. Qed.

(** ** What the loader reads *)

Lemma as_i64_small n : n < 2 ^ 63 -> as_i64 n = n.
Proof. intros H. unfold as_i64. by rewrite (proj2 (Z.ltb_lt _ _) H). Qed.

(** A file that is as long as [stat] said, under names the loader accepts. *)
Definition sound_file (f : InputFile) : Prop :=
  (exists d, if_data f = Some d /\ if_length f = Z.of_nat (length d)) /\ Forall (fun c => is_unsafe_path_component c = false) (rel_components f).

Definition entry_of (f : InputFile) : FileEntry := mkFileEntry (if_length f) (foldl join [] (rel_components f)).

Lemma segments_read comps : Forall (fun c => is_unsafe_path_component c = false /\ utf8_valid c = true) comps -> forall p,
  push_segments p (BBytes <$> comps) = Ok (foldl join p comps).
Proof.
  induction 1 as [|c comps [Hs Hu] _ IH]; intros p; [done|]. cbn [fmap list_fmap push_segments as_str as_bytes mbind result_bind foldl].
  rewrite Hu. cbn [mbind result_bind]. rewrite Hs. apply IH.
Qed.

Lemma file_value_eq f : file_value f = BDict [(bs "length", BInt (as_i64 (if_length f))); (bs "path", BList (BBytes <$> rel_components f))].
Proof. done. Qed.

Lemma entry_read f : 0 <= if_length f < 2 ^ 63 -> Forall (fun c => is_unsafe_path_component c = false /\ utf8_valid c = true) (rel_components f) ->
  file_entry (file_value f) = Ok (entry_of f).
Proof.
  intros Hl Hc. rewrite file_value_eq, as_i64_small by lia. unfold file_entry, get_u64, u64_try_from. lookups. rewrite (proj2 (Z.ltb_ge _ _)) by lia.
  lookups. by rewrite segments_read.
Qed.

Lemma sizes_ok n : 0 <= n < 2 ^ 63 -> in_i64 n = true.
Proof. unfold in_i64, i64_min, i64_max. lia. Qed.

(** Close [flat] of a dictionary with literal keys. *)
Ltac flat_literal :=
  split; [cbn [shape]; apply andb_true_iff; split; [reflexivity|]; cbn [forallb shape]; rewrite ?andb_true_iff; split_and!; try done; apply sizes_ok; lia
         |repeat (apply list.Forall_cons; split; [cbn [snd height]; done || lia|]); by apply list.Forall_nil].

Section Loads.
Context (nm : bytes) (pl : Z) (hs : list bytes) (priv : bool).
Context (Hname : is_unsafe_path_component nm = false) (Hutf : utf8_valid nm = true) (Hpl : 0 < pl <= MAX_PIECE_LENGTH) (Hhs : Forall (fun h => length h = 20%nat) hs).

(** The files part of the dictionary, as the loader reads it. *)
Lemma info_read d fs total : bt_get (bs "name") d = Some (BBytes nm) -> bt_get (bs "piece length") d = Some (BInt pl) -> bt_get (bs "pieces") d = Some (BBytes (concat hs)) ->
  bt_get (bs "private") d = (if priv then Some (BInt 1) else None) -> parse_files d = Ok fs -> files_length fs = Ok total -> 0 < total ->
  Z.of_nat (length hs) = div_ceil total pl -> info_from_value (BDict d) = Ok (mkInfo nm pl hs fs priv).
Proof.
  intros H1 H2 H3 H4 H5 H6 H7 H8. unfold info_from_value, get_u64, u64_try_from. cbn [as_dict mbind result_bind]. rewrite H1. cbn [ok_or mbind result_bind as_str as_bytes]. rewrite Hutf. cbn [mbind result_bind]. rewrite Hname, H2.
  cbn [ok_or mbind result_bind as_int]. rewrite (proj2 (Z.ltb_ge _ _)) by lia. cbn [mbind result_bind].
  replace ((pl =? 0) || (MAX_PIECE_LENGTH <? pl)) with false by (symmetry; apply orb_false_iff; split; [apply Z.eqb_neq|apply Z.ltb_ge]; lia).
  rewrite H3. cbn [ok_or mbind result_bind as_bytes]. rewrite concat_20, Nat.Div0.mod_mul by done. cbn [Nat.eqb negb]. rewrite H5. cbn [mbind result_bind]. rewrite H6. cbn [mbind result_bind].
  rewrite (proj2 (Z.eqb_neq total 0)) by lia. rewrite chunks_20, H8, Z.eqb_refl by done. cbn [negb]. rewrite H4. by destruct priv.
Qed.

Lemma pl_small : 0 <= pl < 2 ^ 63.
Proof. change MAX_PIECE_LENGTH with 1073741824 in Hpl. lia. Qed.

Lemma single_read f v : info_value nm pl (concat hs) priv true [f] = Ok v -> 0 < if_length f < 2 ^ 63 -> Z.of_nat (length hs) = div_ceil (if_length f) pl ->
  info_from_value v = Ok (mkInfo nm pl hs (Single (if_length f)) priv) /\ exists d, v = BDict d /\ flat 3 d.
Proof.
  intros E Ht Hc. unfold info_value in E. cbn [index lookup list_lookup mbind result_bind] in E. injection E as <-. pose proof pl_small as Hp.
  rewrite (as_i64_small (if_length f)), (as_i64_small pl) by lia. split; [|eexists; split; [done|]].
  - apply (info_read _ (Single (if_length f)) (if_length f)); try (by destruct priv); try lia. unfold parse_files, get_u64, u64_try_from.
    replace (bt_get (bs "files") _) with (@None BencodeValue) by (by destruct priv). replace (bt_get (bs "length") _) with (Some (BInt (if_length f))) by (by destruct priv).
    cbn [ok_or as_int mbind result_bind]. by rewrite (proj2 (Z.ltb_ge (if_length f) 0)) by lia.
  - apply flat_file_insert; [by apply sizes_ok; lia|cbn; lia|]. destruct priv; flat_literal.
Qed.

Lemma entries_read l : Forall (fun f => 0 <= if_length f < 2 ^ 63 /\ Forall (fun c => is_unsafe_path_component c = false /\ utf8_valid c = true) (rel_components f)) l ->
  map_res file_entry (file_value <$> l) = Ok (entry_of <$> l).
Proof. induction 1 as [|f l [H1 H2] _ IH]; [done|]. cbn [fmap list_fmap map_res]. rewrite entry_read by done. cbn [mbind result_bind]. by rewrite IH. Qed.

Lemma file_value_shape f : 0 <= if_length f < 2 ^ 63 -> shape (file_value f) = true /\ (height (file_value f) <= 2)%nat.
Proof.
  intros Hl. rewrite file_value_eq, as_i64_small by lia. split.
  - cbn [shape]. apply andb_true_iff. split; [reflexivity|]. cbn [forallb shape]. rewrite sizes_ok by done. cbn [andb]. rewrite andb_true_r. apply forallb_forall. intros v Hv. by apply list_elem_of_In, list_elem_of_fmap in Hv as (c & -> & _).
  - apply height_BDict. constructor; [cbn; lia|]. constructor; [|constructor]. apply (height_BList _ 0), Forall_fmap, list.Forall_forall. intros c _. cbn. lia.
Qed.

Lemma multi_read l v total : info_value nm pl (concat hs) priv false l = Ok v ->
  Forall (fun f => 0 <= if_length f < 2 ^ 63 /\ Forall (fun c => is_unsafe_path_component c = false /\ utf8_valid c = true) (rel_components f)) l ->
  sum_u64 (if_length <$> l) = Ok total -> 0 < total -> Z.of_nat (length hs) = div_ceil total pl ->
  info_from_value v = Ok (mkInfo nm pl hs (Multi (entry_of <$> l)) priv) /\ exists d, v = BDict d /\ flat 3 d.
Proof.
  intros E Hl Hs Ht Hc. unfold info_value in E. injection E as <-. pose proof pl_small as Hp. rewrite (as_i64_small pl) by lia. set (fl := BList (file_value <$> l)).
  assert (F : shape fl = true /\ (height fl <= 3)%nat).
  { split; [|apply height_BList, Forall_fmap]; [|eapply list.Forall_impl; [exact Hl|]; intros f [Hf _]; by apply file_value_shape].
    cbn [shape fl]. apply forallb_forall. intros w Hw. apply list_elem_of_In, list_elem_of_fmap in Hw as (f & -> & Hf). rewrite list.Forall_forall in Hl. by apply file_value_shape, Hl. }
  destruct F as [F1 F2]. split; [|eexists; split; [done|]].
  - apply (info_read _ (Multi (entry_of <$> l)) total); try (by destruct priv); try done; [|by cbn [files_length]; rewrite <- list_fmap_compose].
    unfold parse_files. replace (bt_get _ _) with (Some fl) by (by destruct priv). unfold fl. cbn [as_list mbind result_bind]. by rewrite entries_read.
  - apply flat_file_insert; [done|done|]. destruct priv; flat_literal.
Qed.
End Loads.

Lemma canonical_slice m v : wf (BDict m) = true -> (height (BDict m) <= MAX_DEPTH)%nat -> bt_get (bs "info") m = Some v -> find_info_slice (Bencode.to_bytes (BDict m)) = Ok (Bencode.to_bytes v).
Proof.
  intros Hw Hh Hg. cbn [wf] in Hw. apply andb_true_iff in Hw as [_ Hw]. cbn [Bencode.to_bytes]. change (flat_map _ m) with (flat_map entry_bytes m). unfold find_info_slice.
  change (Byte.eqb "d" "d") with true. cbv iota. apply (find_info_entries m v _ ["d"%byte] ["e"%byte]); [exact Hw|exact Hh|done|].
  cbn [length]. rewrite length_app. cbn. clear. induction m as [|[k v] m IH]; cbn [length flat_map entry_bytes]; [lia|]. rewrite !length_app. cbn [length]. lia.
Qed.

Lemma top_read sha d i trackers : info_from_value (BDict d) = Ok i -> flat 3 d -> Forall (fun t => utf8_valid t = true) trackers ->
  Z.of_nat (length (Bencode.to_bytes (top_value (BDict d) trackers))) < 2 ^ 64 ->
  exists t, Torrent.from_bytes sha (Bencode.to_bytes (top_value (BDict d) trackers)) = Ok t /\ Torrent.info_hash t = sha (Bencode.to_bytes (BDict d)) /\ info t = i /\
    Torrent.trackers t = foldl push_new [] trackers.
Proof.
  intros Hi Hd Ht Hl. apply flat_height in Hd as [Sd Hd].
  assert (F : exists m, top_value (BDict d) trackers = BDict m /\ flat 4 m /\ bt_get (bs "info") m = Some (BDict d)).
  { eexists. split; [done|]. assert (T : shape (BList ((fun u => BList [BBytes u]) <$> trackers)) = true /\ (height (BList ((fun u => BList [BBytes u]) <$> trackers)) <= 2)%nat).
    { split; [cbn [shape]; apply forallb_forall; intros w Hw; by apply list_elem_of_In, list_elem_of_fmap in Hw as (c & -> & _)|].
      apply height_BList, Forall_fmap, list.Forall_forall. intros c _. cbn. lia. }
    destruct T as [T1 T2]. split; [|by destruct trackers as [|a [|b l]]].
    destruct trackers as [|a [|b l]]; cbn [length Nat.ltb Nat.leb]; repeat (apply (flat_file_insert 4); [done|solve [lia|cbn; lia]|]); apply flat_nil. }
  destruct F as (m & Em & Fm & Hg). rewrite Em in *. apply flat_height in Fm as [Sm Hm]. pose proof (fits_wf _ Sm Hl) as Wm.
  unfold Torrent.from_bytes, compute_info_hash. rewrite parse_all_back, (canonical_slice m (BDict d)) by (done || unfold MAX_DEPTH; lia). cbn [mbind result_bind].
  unfold torrent_from_value. cbn [as_dict mbind result_bind]. rewrite Hg. cbn [ok_or mbind result_bind]. rewrite Hi. injection Em as Em.
  destruct trackers as [|a [|b l]]; rewrite <- Em; unfold parse_announce_list.
  - eexists. split; [done|]. done.
  - apply list.Forall_cons in Ht as [Ha _]. cbn [length Nat.ltb Nat.leb]. lookups. cbn [as_str as_bytes mbind result_bind]. rewrite Ha. by eexists.
  - cbn [length Nat.ltb Nat.leb]. rewrite (bt_get_insert_ne (bs "announce")), (bt_get_insert (bs "announce-list")) by done. lookups. cbn [as_str as_bytes mbind result_bind]. rewrite (proj1 (proj1 (list.Forall_cons _ _ _) Ht)). cbn [mbind result_bind].
    rewrite tiers_read by done. cbn [mbind result_bind]. eexists. split; [done|]. split_and!; [done|done|].
    unfold Torrent.trackers. cbn [announce announce_list]. rewrite fold_tiers. apply pushed_again. cbn [foldl]. apply pushed_stays.
    assert (Ha : a ∈ push_new [] a) by (by apply list_elem_of_singleton). unfold push_new at 1. destruct (existsb _ _); [done|]. apply elem_of_app. by left.
Qed.

Lemma names_valid dir : forall prefix, Forall (fun c => utf8_valid c = true) prefix -> Forall (fun f => Forall (fun c => utf8_valid c = true) (rel_components f)) (all_files dir prefix).
Proof.
  induction dir as [len data| |entries IH| |] using node_ind'; intros prefix Hp; cbn [all_files]; try constructor.
  induction IH as [|[raw x] entries Hx _ IHl]; cbn [flat_map]; [constructor|]. apply Forall_app. split; [|done].
  assert (Hn : Forall (fun c => utf8_valid c = true) (prefix ++ [to_string_lossy raw])) by (apply Forall_app; split; [done|]; constructor; [apply lossy_valid|constructor]).
  cbn [snd] in Hx. destruct x as [[len data|d| |]|]; try constructor; [done|constructor|]. by apply Hx.
Qed.

(** ** Theorems *)

(** The files a torrent of the input describes. *)
Definition described (node : Node) : list InputFile :=
  match node with RegularFile len data => [mkInput data [] (default 0 len)] | _ => all_files node [] end.

Definition before_file (f g : InputFile) : Prop := components_ltb (rel_components g) (rel_components f) = false.

Lemma input_files_spec node l single : input_files node = Ok (l, single) -> l ≡ₚ described node /\ StronglySorted before_file l /\
  (if single then exists len data, node = RegularFile (Some len) data /\ l = [mkInput data [] len] else exists d, node = Directory d).
Proof.
  unfold input_files. destruct node as [[len|] data|d| |]; try done; [intros [= <- <-]; split_and!; [done|repeat constructor|by eexists _, _]|].
  intros E. apply bind_Ok in E as (fs & Ef & E). destruct (_ =? 0)%nat; [done|]. injection E as <- <-. split_and!; [|apply sort_by_sorted|by eexists].
  - rewrite sort_by_perm. by apply collect_perm.
  - intros x y. apply components_asym.
  - intros x y z. apply components_nlt_trans.
Qed.

Lemma zsum_perm l k : l ≡ₚ k -> zsum l = zsum k.
Proof. unfold zsum. induction 1; cbn; lia. Qed.

#[export] Instance zsum_proper : Proper ((≡ₚ) ==> (=)) zsum.
Proof. intros l k. apply zsum_perm. Qed.

Lemma sound_stream l : Forall sound_file l ->
  Forall2 (fun f d => if_data f = Some d) l ((default [] ∘ if_data) <$> l) /\ Z.of_nat (length (concat ((default [] ∘ if_data) <$> l))) = zsum (if_length <$> l) /\ Forall (fun n => 0 <= n) (if_length <$> l).
Proof.
  induction 1 as [|f l [(d & Ed & El) _] _ (IH1 & IH2 & IH3)]; [by split_and!; try constructor|]. cbn [fmap list_fmap concat]. unfold compose at 1 3. rewrite Ed, El. cbn [default from_option id].
  split_and!; [by constructor|rewrite length_app; unfold zsum in *; cbn; lia|constructor; [lia|done]].
Qed.

(** Every file is below the sum, and its names can be read. *)
Lemma sound_entries l (b : Z) : Forall sound_file l -> zsum (if_length <$> l) < b -> Forall (fun f => Forall (fun c => utf8_valid c = true) (rel_components f)) l ->
  Forall (fun f => 0 <= if_length f < b /\ Forall (fun c => is_unsafe_path_component c = false /\ utf8_valid c = true) (rel_components f)) l.
Proof.
  intros Hs Hz Hu. apply list.Forall_forall. intros f Hf. rewrite list.Forall_forall in Hs, Hu. destruct (Hs f Hf) as [(d & Ed & El) Hc]. split; [|apply list.Forall_and; split; [done|by apply Hu]].
  split; [lia|]. apply elem_of_Permutation in Hf as [k Pk]. rewrite (zsum_perm _ (if_length f :: (if_length <$> k))) in Hz by (by rewrite Pk).
  cbn in Hz. assert (0 <= zsum (if_length <$> k)); [|unfold zsum in *; lia]. apply zsum_nonneg, Forall_fmap, list.Forall_forall. intros g Hg.
  destruct (Hs g) as [(d' & _ & E') _]; [rewrite Pk; by right|]. unfold compose. lia.
Qed.

(** C39: what is created within the loader's limits can be loaded.  The limits: a piece length of at most 1 GiB
    ([long_pieces_refused] otherwise), a torrent name and path components that are UTF-8 and safe for the loader
    ([backslash_unloadable] otherwise), trackers in UTF-8, files that still are as long as their metadata said when they
    are hashed, fewer than 2^63 bytes of them, and a torrent file of fewer than 2^64 bytes.  Then the loader reads what
    was created: the same info hash, the name, piece length and flag that were asked for, the trackers in
    their order, every regular file of the tree once with its length and its path, sorted, and the
    hashes of the consecutive pieces of their concatenation, however the reads were split. *)
Theorem created_loads sha1 reads input node trackers pl name_override priv raw ih : (forall b, length (sha1 b) = 20%nat) ->
  create_torrent sha1 reads input node trackers pl name_override priv = Ok (raw, ih) ->
  0 <= pl <= MAX_PIECE_LENGTH -> Z.of_nat (length raw) < 2 ^ 64 -> Forall (fun t => utf8_valid t = true) trackers ->
  let nm := default (default (bs "torrent") (to_string_lossy <$> file_name input)) name_override in
  utf8_valid nm = true -> is_unsafe_path_component nm = false -> Forall sound_file (described node) -> zsum (if_length <$> described node) < 2 ^ 63 ->
  exists t l, Torrent.from_bytes sha1 raw = Ok t /\ Torrent.info_hash t = ih /\ Torrent.trackers t = foldl push_new [] trackers /\
    l ≡ₚ described node /\ StronglySorted before_file l /\
    info t = mkInfo nm pl (sha1 <$> pieces_of (Z.to_nat pl) (concat ((default [] ∘ if_data) <$> l)))
      (match node with RegularFile _ _ => Single (zsum (if_length <$> l)) | _ => Multi (entry_of <$> l) end) priv.
Proof.
  intros Hsha E Hpl Hraw Htr nm Hu Hn Hs Hz. unfold create_torrent in E. destruct (Z.eqb_spec pl 0) as [|H0]; [done|].
  apply bind_Ok in E as ([l single] & Ei & E). fold nm in E. apply bind_Ok in E as (total & Et & E). destruct (Z.eqb_spec total 0) as [|Hz0]; [done|].
  apply bind_Ok in E as (pieces & Ep & E). apply bind_Ok in E as (v & Ev & [= <- <-]). destruct (input_files_spec _ _ _ Ei) as (P & S & Sh).
  rewrite <- P in Hs, Hz. destruct (sound_stream l Hs) as (Hd & Hlen & Hl0). set (stream := concat _) in Hlen. pose proof (zsum_nonneg _ Hl0) as Hz1.
  rewrite sum_u64_eq in Et by done. destruct (Z.ltb_spec (zsum (if_length <$> l)) (2 ^ 64)) as [_|]; [|done]. injection Et as <-.
  rewrite (hash_pieces_spec sha1 reads (Z.to_nat pl) ltac:(lia) l _ Hd) in Ep. fold stream in Ep. injection Ep as <-.
  set (hs := sha1 <$> pieces_of (Z.to_nat pl) stream) in *.
  assert (Hhs : Forall (fun h => length h = 20%nat) hs) by (apply Forall_fmap, list.Forall_forall; intros; apply Hsha).
  assert (Hc : Z.of_nat (length hs) = div_ceil (zsum (if_length <$> l)) pl).
  { unfold hs, pieces_of. rewrite !length_fmap, length_seq, (Z2Nat.id pl), Hlen by lia. rewrite Z2Nat.id; [done|]. apply div_ceil_nonneg; lia. }
  assert (R : exists d, v = BDict d /\ flat 3 d /\ info_from_value v = Ok (mkInfo nm pl hs (match node with RegularFile _ _ => Single (zsum (if_length <$> l)) | _ => Multi (entry_of <$> l) end) priv)).
  { destruct single.
    - destruct Sh as (len & data & -> & ->). unfold zsum in *. cbn [fmap list_fmap foldr if_length] in *. rewrite Z.add_0_r in *.
      destruct (single_read nm pl hs priv Hn Hu ltac:(lia) Hhs _ v Ev) as [R (d & Ed & Fd)]; [cbn; lia|exact Hc|]. by exists d.
    - destruct Sh as (d0 & ->). destruct (multi_read nm pl hs priv Hn Hu ltac:(lia) Hhs l v (zsum (if_length <$> l)) Ev) as [R (d & Ed & Fd)]; [|by rewrite sum_u64_eq, (proj2 (Z.ltb_lt _ _)) by (done || lia)|lia|exact Hc|by exists d].
      apply (sound_entries l _ Hs Hz). rewrite P. by apply names_valid. }
  destruct R as (d & -> & Fd & Hi). destruct (top_read sha1 d _ trackers Hi Fd Htr Hraw) as (t & T1 & T2 & T3 & T4). exists t, l. split_and!; try done.
Qed.

Definition digest_ex (b : bytes) : bytes := take 20 (b ++ replicate 20 x00).

Definition created_ex : bytes * bytes :=
  match create_torrent digest_ex (fun t => t) (bs "/data/set") tree_ex [bs "http://t/"; bs "udp://u:1"] 4 None true with Ok r => r | _ => ([], []) end.

Lemma created_loads_witness : exists t l, Torrent.from_bytes digest_ex created_ex.1 = Ok t /\ Torrent.info_hash t = created_ex.2 /\ l ≡ₚ described tree_ex /\
  Torrent.private (info t) = true /\ Torrent.trackers t = [bs "http://t/"; bs "udp://u:1"].
Proof.
  destruct (created_loads digest_ex (fun t => t) (bs "/data/set") tree_ex [bs "http://t/"; bs "udp://u:1"] 4 None true created_ex.1 created_ex.2) as (t & l & H1 & H2 & H3 & H4 & _ & H6).
  - intros b. unfold digest_ex. rewrite length_take, length_app, length_replicate. lia.
  - vm_compute. reflexivity.
  - vm_compute. split; discriminate.
  - vm_compute. reflexivity.
  - repeat constructor.
  - reflexivity.
  - reflexivity.
  - change (described tree_ex) with [mkInput (Some (bs "xyz")) [bs "b.txt"] 3; mkInput (Some (bs "uv")) [bs "a"; bs "c.txt"] 2].
    constructor; [split; [exists (bs "xyz"); split; vm_compute; reflexivity|repeat constructor; vm_compute; reflexivity]|].
    constructor; [split; [exists (bs "uv"); split; vm_compute; reflexivity|repeat constructor; vm_compute; reflexivity]|constructor].
  - reflexivity.
  - exists t, l. split; [exact H1|]. split; [exact H2|]. split; [exact H4|]. split; [rewrite H6; reflexivity|]. rewrite H3. reflexivity.
Defined.

(** ** Torrents the loader refuses *)

(** The creator takes any piece length, and the loader refuses those over 1 GiB. *)
Lemma long_pieces_refused nm pl pieces priv single l v : utf8_valid nm = true -> is_unsafe_path_component nm = false -> MAX_PIECE_LENGTH < pl < 2 ^ 63 ->
  info_value nm pl pieces priv single l = Ok v -> info_from_value v = Err (EBencode "implausible piece length").
Proof.
  intros Hu Hn Hp E. unfold info_value in E. rewrite as_i64_small in E by lia. change MAX_PIECE_LENGTH with 1073741824 in Hp.
  assert (R : exists d, v = BDict d /\ bt_get (bs "name") d = Some (BBytes nm) /\ bt_get (bs "piece length") d = Some (BInt pl)).
  { destruct single; [apply bind_Ok in E as (f & _ & E)|]; injection E as <-; eexists; (split; [done|]); by destruct priv. }
  destruct R as (d & -> & E1 & E2). unfold info_from_value, get_u64, u64_try_from. cbn [as_dict mbind result_bind]. rewrite E1. cbn [ok_or as_str as_bytes mbind result_bind]. rewrite Hu. cbn [mbind result_bind].
  rewrite Hn, E2. cbn [ok_or as_int mbind result_bind]. rewrite (proj2 (Z.ltb_ge pl 0)) by lia. cbn [mbind result_bind]. change MAX_PIECE_LENGTH with 1073741824.
  by rewrite (proj2 (Z.eqb_neq pl 0)), (proj2 (Z.ltb_lt 1073741824 pl)) by lia.
Qed.

(** A file name with a backslash, which Unix allows, gives a torrent that the loader refuses. *)
Definition backslash_ex : Node := Directory (Some [(["a"%byte; x5c; "b"%byte], Some (RegularFile (Some 3) (Some (bs "xyz"))))]).

Lemma backslash_unloadable : let made := create_torrent digest_ex (fun t => t) (bs "set") backslash_ex [] 4 None false in
  (match made with Ok _ => true | _ => false end) = true /\ ('(raw, _) ← made; Torrent.from_bytes digest_ex raw) = Err (EBencode "unsafe path segment").
Proof. split; vm_compute; reflexivity. Qed.

(** Without an output path, the torrent is written beside the caller under its own name. *)
Lemma default_output : cmd_create digest_ex (fun t => t) (bs "/data/set") tree_ex None [] 4 None false = ('(raw, _) ← create_torrent digest_ex (fun t => t) (bs "/data/set") tree_ex [] 4 None false; Ok (bs "set.torrent", raw)).
Proof. vm_compute. reflexivity. Qed.
