(* ===== verification/Web.v ===== *)
(** * The daemon's control interface: [src/src/web.rs]

    The loopback server: the guard in front of every route, the routes and their
    handlers, which act on the session manager.  Requests come already split into
    method, route, headers and body.  The file system (canonical paths, file kinds,
    lengths and contents), and what the [http] crate makes of a header's bytes, are
    parameters. *)

From Stdlib Require Import ZArith Lia String Strings.Byte.
From stdpp Require Import base tactics numbers list option gmap fin_maps.
From S2P Require Import Prelude Bencode Net Paths Text IpText Torrent Magnet Tracker Storage Cache Engine Mse DaemonStore Session Daemon.

#[local] Set Warnings "-register-all".
#[local] Existing Instance plain_json.

(** ** The guard *)

Definition host_part (value : bytes) : option bytes :=
  let rest := match split_once (bs "://") value with Some (_, r) => r | None => value end in
  let authority := before (fun c => Byte.eqb c "/" || Byte.eqb c "?" || Byte.eqb c "#") rest in
  Some (match Text.rsplit_once "]" authority with
    | Some (h, _) => h ++ bs "]"
    | None => match Text.rsplit_once ":" authority with Some (h, _) => h | None => authority end
    end).

Definition is_loopback_host (host : bytes) : bool :=
  let h := trim_matches (fun c => Byte.eqb c "[" || Byte.eqb c "]") host in
  bytes_eqb h (bs "127.0.0.1") || bytes_eqb h (bs "::1") || bytes_eqb h (bs "localhost").

(** [HEAD] requests are served by the handlers of [GET]. *)
Inductive Method := GET | HEAD | POST | OtherMethod.

Inductive Route :=
  | Index
  | Status
  | AddTorrent
  | AddMagnet
  | PauseTorrent (ih : bytes)
  | ResumeTorrent (ih : bytes)
  | RemoveTorrent (ih : bytes)
  | NoRoute.

(** The routes of the single-torrent server. *)
Inductive MonitorRoute := Home | StatusJson | PeersJson | FilesJson | PauseNow | ResumeNow | ShutdownNow | Metrics | NoMonitor.

Record Request {R : Type} := mkRequest { rq_method : Method; rq_route : R; rq_host : option bytes; rq_origin : option bytes; rq_body : bytes }.
Arguments Request R : clear implicits.
Arguments mkRequest {R}.

Definition OK : Z := 200.
Definition ACCEPTED : Z := 202.
Definition BAD_REQUEST : Z := 400.
Definition FORBIDDEN : Z := 403.
Definition NOT_FOUND : Z := 404.
Definition METHOD_NOT_ALLOWED : Z := 405.
Definition CONFLICT : Z := 409.
Definition PAYLOAD_TOO_LARGE : Z := 413.
Definition TOO_MANY_REQUESTS : Z := 429.
Definition SERVICE_UNAVAILABLE : Z := 503.

Definition MAX_REQUEST_BODY_BYTES : Z := 64 * 1024.
Definition MAX_TORRENT_FILE_BYTES : Z := 16 * 1024 * 1024.
Definition MAX_CONCURRENT_MAGNET_ADDS : nat := 4.
Definition DAEMON_MARTIANS_STRICT : bool := false.

(** A response: its status and what its text begins with. *)
Record Response := mkResponse { status : Z; text : bytes }.

Section Guard.
Context (to_str : bytes -> option bytes).

Definition csrf_guard {R} (rq : Request R) : option Response :=
  let host_ok := default false (is_loopback_host <$> (h ← rq_host rq; h ← to_str h; host_part h)) in
  if negb host_ok then Some (mkResponse FORBIDDEN (bs "foreign Host header"))
  else
    match rq_method rq with
    | POST =>
        let origin_ok := default true (is_loopback_host <$> (o ← rq_origin rq; o ← to_str o; host_part o)) in
        if negb origin_ok then Some (mkResponse FORBIDDEN (bs "cross-origin request rejected")) else None
    | _ => None
    end.
End Guard.

(** ** The single-torrent server *)

(** One series of the text exposition. *)
Definition metric (ih name help ty value : bytes) : bytes :=
  (bs "# HELP rustytorrent_" ++ name ++ bs " " ++ help ++ [x0a])
  ++ (bs "# TYPE rustytorrent_" ++ name ++ bs " " ++ ty ++ [x0a])
  ++ (bs "rustytorrent_" ++ name ++ bs "{info_hash=" ++ [x22] ++ ih ++ [x22] ++ bs "} " ++ value ++ [x0a]).

Definition render_prometheus (s : EngineStats) : bytes :=
  let metric := metric (es_info_hash s) in
  metric (bs "complete_pieces") (bs "Pieces verified and written") (bs "gauge") (show_u (Z.of_nat (es_complete_pieces s)))
  ++ metric (bs "total_pieces") (bs "Total pieces in the torrent") (bs "gauge") (show_u (Z.of_nat (es_total_pieces s)))
  ++ metric (bs "downloaded_bytes") (bs "Payload bytes downloaded") (bs "counter") (show_u (es_downloaded_bytes s))
  ++ metric (bs "uploaded_bytes") (bs "Payload bytes uploaded") (bs "counter") (show_u (es_uploaded_bytes s))
  ++ metric (bs "total_bytes") (bs "Total torrent size in bytes") (bs "gauge") (show_u (es_total_bytes s))
  ++ metric (bs "peers_connected") (bs "Currently connected peers") (bs "gauge") (show_u (Z.of_nat (es_peers_connected s)))
  ++ metric (bs "down_rate_bps") (bs "Instantaneous download rate, bytes/sec") (bs "gauge") (show_u (es_down_rate_bps s))
  ++ metric (bs "up_rate_bps") (bs "Instantaneous upload rate, bytes/sec") (bs "gauge") (show_u (es_up_rate_bps s))
  ++ metric (bs "complete") (bs "1 if the download is complete, else 0") (bs "gauge") (if es_complete s then bs "1" else bs "0").

(** The latest statistics and the channel to the engine: the commands sent, and whether the engine still receives. *)
Record WebState := mkWebState { ws_stats : EngineStats; ws_ctl : list EngineControl; ws_receiving : bool }.

Definition control (cmd : EngineControl) : M WebState Response := fun st =>
  if ws_receiving st then (mkWebState (ws_stats st) (ws_ctl st ++ [cmd]) true, Ok (mkResponse OK (bs "ok")))
  else (st, Ok (mkResponse SERVICE_UNAVAILABLE (bs "engine unavailable"))).

(** [router]; pages and JSON documents are left out of the responses. *)
Definition router (to_str : bytes -> option bytes) (rq : Request MonitorRoute) : M WebState Response :=
  match csrf_guard to_str rq with
  | Some refused => mret refused
  | None =>
      match rq_route rq, rq_method rq with
      | (Home | StatusJson | PeersJson | FilesJson), (GET | HEAD) => mret (mkResponse OK [])
      | Metrics, (GET | HEAD) => st ← gets id; mret (mkResponse OK (render_prometheus (ws_stats st)))
      | PauseNow, POST => control Pause
      | ResumeNow, POST => control Resume
      | ShutdownNow, POST => control ShutdownSession
      | NoMonitor, _ => mret (mkResponse NOT_FOUND [])
      | _, _ => mret (mkResponse METHOD_NOT_ALLOWED [])
      end
  end.

(** ** Text *)

(** [char::is_whitespace] *)
Definition is_whitespace (c : bytes) : bool :=
  let p := code_point c in
  ((9 <=? p) && (p <=? 13)) || (p =? 32) || (p =? 0x85) || (p =? 0xA0) || (p =? 0x1680) || ((0x2000 <=? p) && (p <=? 0x200A))
  || (p =? 0x2028) || (p =? 0x2029) || (p =? 0x202F) || (p =? 0x205F) || (p =? 0x3000).

Fixpoint drop_while {A} (p : A -> bool) (l : list A) : list A :=
  match l with [] => [] | x :: r => if p x then drop_while p r else l end.

(** [str::trim] *)
Definition trim (s : bytes) : bytes := concat (rev (drop_while is_whitespace (rev (drop_while is_whitespace (chars s))))).

(** ** A torrent file around an info dictionary *)

Definition push_bstr (s : bytes) : bytes := show_u (Z.of_nat (length s)) ++ ":"%byte :: s.

Definition assemble_torrent_bytes (info_bytes : bytes) (trackers : list bytes) : bytes :=
  ["d"%byte]
  ++ match trackers with first :: _ => push_bstr (bs "announce") ++ push_bstr first | [] => [] end
  ++ match trackers with
     | [] => []
     | _ => push_bstr (bs "announce-list") ++ ["l"%byte] ++ flat_map (fun t => "l"%byte :: push_bstr t ++ ["e"%byte]) trackers ++ ["e"%byte]
     end
  ++ push_bstr (bs "info") ++ info_bytes ++ ["e"%byte].

Definition filter_daemon_peer_pool (peers : list SocketAddr) : list SocketAddr :=
  List.filter (fun a => is_dialable_peer_addr a DAEMON_MARTIANS_STRICT) peers.

(** The order of [SocketAddr]: IPv4 first, then the address, the port and what an IPv6 address adds. *)
Definition addr_key (a : SocketAddr) : list Z :=
  match sa_ip a with
  | IpV4 x y z w => 0 :: (b2z <$> [x; y; z; w]) ++ [sa_port a]
  | IpV6 o => 1 :: (b2z <$> o) ++ [sa_port a; sa_flow a; sa_scope a]
  end.

Fixpoint key_ltb (a b : list Z) : bool :=
  match a, b with
  | _, [] => false
  | [], _ :: _ => true
  | x :: a, y :: b => (x <? y) || (x =? y) && key_ltb a b
  end.

(** [Vec::dedup] *)
Fixpoint dedup_addrs (l : list SocketAddr) : list SocketAddr :=
  match l with
  | [] => []
  | x :: r => match dedup_addrs r with y :: _ as r' => if decide (x = y) then r' else x :: r' | [] => [x] end
  end.

(** ** State *)

(** The file system as the handlers see it. *)
Record Files := mkFiles {
  canonicalize : bytes -> option bytes;
  metadata : bytes -> option (bool * Z);
  contents : bytes -> option bytes;
}.

Section Handlers.
Context {C : Type} `{Lru C} `{SerdeJson} (sha1 : bytes -> bytes) (to_str : bytes -> option bytes) (fs : Files).

(** [ds_permits] is what is left of [magnet_gate]; the magnets of [ds_magnets] wait for it and those of
    [ds_running] hold a permit.  [ds_reads] are the files that were read, [ds_contacts] the trackers and
    [ds_pools] the peers that pipelines contacted. *)
Record DaemonState := mkDaemon {
  mgr : SessionManager C;
  ds_output : bytes;
  ds_peer_id : bytes;
  base_port : Z;
  no_dht : bool;
  torrent_dir : bytes;
  ds_permits : nat;
  ds_magnets : list MagnetLink;
  ds_running : list MagnetLink;
  ds_reads : list bytes;
  ds_contacts : list bytes;
  ds_pools : list (list SocketAddr);
}.

Definition with_mgr (m : SessionManager C) (st : DaemonState) : DaemonState :=
  mkDaemon m (ds_output st) (ds_peer_id st) (base_port st) (no_dht st) (torrent_dir st) (ds_permits st) (ds_magnets st) (ds_running st) (ds_reads st) (ds_contacts st) (ds_pools st).

Definition with_gate (permits : nat) (waiting running : list MagnetLink) (st : DaemonState) : DaemonState :=
  mkDaemon (mgr st) (ds_output st) (ds_peer_id st) (base_port st) (no_dht st) (torrent_dir st) permits waiting running (ds_reads st) (ds_contacts st) (ds_pools st).

Definition with_log (reads contacts : list bytes) (pools : list (list SocketAddr)) (st : DaemonState) : DaemonState :=
  mkDaemon (mgr st) (ds_output st) (ds_peer_id st) (base_port st) (no_dht st) (torrent_dir st) (ds_permits st) (ds_magnets st) (ds_running st) reads contacts pools.

Definition on_mgr {A} (f : M (SessionManager C) A) : M DaemonState A := fun st =>
  let '(m, r) := f (mgr st) in (with_mgr m st, r).

Definition spawn_magnet (magnet : MagnetLink) : M DaemonState unit :=
  modify (fun st => with_gate (ds_permits st) (ds_magnets st ++ [magnet]) (ds_running st) st).

Definition note_read (path : bytes) : M DaemonState unit := modify (fun st => with_log (ds_reads st ++ [path]) (ds_contacts st) (ds_pools st) st).
Definition note_contact (url : bytes) : M DaemonState unit := modify (fun st => with_log (ds_reads st) (ds_contacts st ++ [url]) (ds_pools st) st).
Definition note_pool (pool : list SocketAddr) : M DaemonState unit := modify (fun st => with_log (ds_reads st) (ds_contacts st) (ds_pools st ++ [pool]) st).

(** ** Handlers *)

Definition resolve_under (dir requested : bytes) : option bytes :=
  base ← canonicalize fs dir;
  full ← canonicalize fs requested;
  if starts_with full base then Some full else None.

(** The bytes of the file, or the refusal.  [fs] is what one request sees: a file that is changed between the check of its
    size and the read is not modelled. *)
Definition read_torrent_capped (path : bytes) : M DaemonState (Response + bytes) :=
  match metadata fs path with
  | None => mret (inl (mkResponse BAD_REQUEST (bs "stat")))
  | Some (is_file, len) =>
      if negb is_file then mret (inl (mkResponse BAD_REQUEST (bs "not a regular file")))
      else if MAX_TORRENT_FILE_BYTES <? len then mret (inl (mkResponse PAYLOAD_TOO_LARGE (bs "exceeds the torrent file limit")))
      else
        _ ← note_read path;
        mret (match contents fs path with Some raw => inr raw | None => inl (mkResponse BAD_REQUEST (bs "read")) end)
  end.

(** The configuration of a torrent added at run time: the sandbox setting stays at its default. *)
Definition runtime_config (st : DaemonState) : EngineConfig := daemon_config (ds_output st) (base_port st) (negb (no_dht st)) false.

Definition daemon_add (o1 o2 : Wrote) (now : Z) (body : bytes) : M DaemonState Response :=
  let path := trim body in
  if (length path =? 0)%nat then mret (mkResponse BAD_REQUEST (bs "empty path"))
  else
    st ← gets id;
    match resolve_under (torrent_dir st) path with
    | None => mret (mkResponse FORBIDDEN (bs "outside the permitted torrent dir"))
    | Some safe =>
        raw ← read_torrent_capped safe;
        match raw with
        | inl r => mret r
        | inr raw =>
            match Torrent.from_bytes sha1 raw with
            | Ok torrent =>
                ih ← on_mgr (add_persistent o1 o2 now torrent (ds_peer_id st) (runtime_config st) raw);
                mret (match ih with Some ih => mkResponse OK (hex ih) | None => mkResponse CONFLICT (bs "already running") end)
            | Err _ => mret (mkResponse BAD_REQUEST (bs "parse"))
            | Panic => lift Panic
            | NoFuel => lift NoFuel
            end
        end
    end.

Definition daemon_add_magnet (body : bytes) : M DaemonState Response :=
  match Magnet.parse (trim body) with
  | Ok magnet =>
      st ← gets id;
      if contains (ml_info_hash magnet) (mgr st) then mret (mkResponse CONFLICT (bs "already running"))
      else if (length (ml_trackers magnet) =? 0)%nat then mret (mkResponse BAD_REQUEST (bs "magnet has no trackers"))
      else if (ds_permits st =? 0)%nat then mret (mkResponse TOO_MANY_REQUESTS (bs "bootstrap pipeline saturated"))
      else _ ← spawn_magnet magnet; mret (mkResponse ACCEPTED (hex (ml_info_hash magnet)))
  | Err _ => mret (mkResponse BAD_REQUEST (bs "parse magnet"))
  | Panic => lift Panic
  | NoFuel => lift NoFuel
  end.

Definition daemon_remove (r1 r2 : bool) (ih : bytes) : M DaemonState Response :=
  h ← lift (info_hash_from_hex ih);
  match h with
  | None => mret (mkResponse BAD_REQUEST (bs "bad info_hash"))
  | Some h =>
      ok ← on_mgr (remove r1 r2 h);
      mret (if ok : bool then mkResponse OK (bs "removed") else mkResponse NOT_FOUND (bs "no such torrent"))
  end.

Definition daemon_ctl (ih : bytes) (cmd : EngineControl) : M DaemonState Response :=
  h ← lift (info_hash_from_hex ih);
  match h with
  | None => mret (mkResponse BAD_REQUEST (bs "bad info_hash"))
  | Some h =>
      ok ← on_mgr (Session.control h cmd);
      mret (if ok : bool then mkResponse OK (bs "ok") else mkResponse NOT_FOUND (bs "no such torrent"))
  end.

(** The body of a request as text, within the limit. *)
Definition with_body (rq : Request Route) (f : bytes -> M DaemonState Response) : M DaemonState Response :=
  if MAX_REQUEST_BODY_BYTES <? Z.of_nat (length (rq_body rq)) then mret (mkResponse PAYLOAD_TOO_LARGE (bs "length limit exceeded"))
  else if negb (utf8_valid (rq_body rq)) then mret (mkResponse BAD_REQUEST (bs "Request body didn't contain valid UTF-8"))
  else f (rq_body rq).

(** [daemon_router]: the guard, then the route's handler for the method. *)
Definition daemon_router (o1 o2 : Wrote) (r1 r2 : bool) (now : Z) (rq : Request Route) : M DaemonState Response :=
  match csrf_guard to_str rq with
  | Some refused => mret refused
  | None =>
      match rq_route rq, rq_method rq with
      | (Index | Status), (GET | HEAD) => mret (mkResponse OK [])
      | AddTorrent, POST => with_body rq (daemon_add o1 o2 now)
      | AddMagnet, POST => with_body rq daemon_add_magnet
      | PauseTorrent ih, POST => daemon_ctl ih Pause
      | ResumeTorrent ih, POST => daemon_ctl ih Resume
      | RemoveTorrent ih, POST => daemon_remove r1 r2 ih
      | NoRoute, _ => mret (mkResponse NOT_FOUND [])
      | _, _ => mret (mkResponse METHOD_NOT_ALLOWED [])
      end
  end.

(** ** Magnet pipelines *)

(** A pipeline that waits gets a permit, in the order they were spawned. *)
Definition magnet_begin : M DaemonState unit :=
  modify (fun st =>
    match ds_permits st, ds_magnets st with
    | S n, m :: waiting => with_gate n waiting (ds_running st ++ [m]) st
    | _, _ => st
    end).

Section Pipeline.
(** An HTTP announce, the host the URL library finds in a URL, and the metadata fetch from a pool. *)
Context (http_announce : bytes -> bool -> bool -> Z * result AnnounceResponse) (url_host : bytes -> option (option bytes)).
Context (fetch_metadata : list SocketAddr -> option bytes).

Fixpoint bootstrap_pool (trackers : list bytes) (pool : list SocketAddr) : M DaemonState (list SocketAddr) :=
  match trackers with
  | [] => mret pool
  | url :: trackers =>
      let a := announce_screened http_announce url_host url false false in
      _ ← match an_contacts a with [] => mret tt | _ => note_contact url end;
      match an_result a with
      | Ok resp => bootstrap_pool trackers (pool ++ filter_daemon_peer_pool (peers resp))
      | Err _ => bootstrap_pool trackers pool
      | Panic => lift Panic
      | NoFuel => lift NoFuel
      end
  end.

(** [magnet_bootstrap] once it has its permit. *)
Definition magnet_bootstrap (o1 o2 : Wrote) (now : Z) (magnet : MagnetLink) : M DaemonState unit :=
  st ← gets id;
  pool ← bootstrap_pool (ml_trackers magnet) [];
  let pool := dedup_addrs (sort_by (fun a b => key_ltb (addr_key a) (addr_key b)) pool) in
  if (length pool =? 0)%nat then mret tt
  else
    _ ← note_pool pool;
    match fetch_metadata pool with
    | None => mret tt
    | Some info_bytes =>
        match from_info_dict_bytes sha1 info_bytes (ml_info_hash magnet) (ml_trackers magnet) with
        | Ok torrent =>
            let raw_torrent := assemble_torrent_bytes info_bytes (ml_trackers magnet) in
            _ ← on_mgr (add_persistent o1 o2 now torrent (ds_peer_id st) (runtime_config st) raw_torrent);
            mret tt
        | Err _ => mret tt
        | Panic => lift Panic
        | NoFuel => lift NoFuel
        end
    end.

(** The task of a running magnet ends, whatever its result, and its permit returns. *)
Definition magnet_end (o1 o2 : Wrote) (now : Z) (i : nat) : M DaemonState unit := fun st =>
  match ds_running st !! i with
  | None => (st, Ok tt)
  | Some m =>
      let st' := (magnet_bootstrap o1 o2 now m st).1 in
      (with_gate (S (ds_permits st')) (ds_magnets st') (delete i (ds_running st')) st', Ok tt)
  end.
End Pipeline.
End Handlers.
Arguments DaemonState C : clear implicits.

(** ** The text exposition *)

Definition newlines (l : bytes) : nat := length (List.filter (Byte.eqb x0a) l).

Lemma newlines_app a b : newlines (a ++ b) = (newlines a + newlines b)%nat.
Proof. unfold newlines. by rewrite List.filter_app, length_app. Qed.

Lemma newlines_number n : 0 <= n -> newlines (show_u n) = 0%nat.
Proof.
  intros Hn. pose proof (show_u_digits n Hn) as F. induction (show_u n) as [|c l IH]; [done|]. apply andb_true_iff in F as [Hc F]. unfold newlines in *. cbn [List.filter].
  destruct (Byte.eqb x0a c) eqn:E; [|by apply IH]. by apply byte_eqb_iff in E as <-.
Qed.

Lemma newlines_metric ih name help ty value : newlines ih = 0%nat -> newlines value = 0%nat -> newlines name = 0%nat -> newlines help = 0%nat -> newlines ty = 0%nat ->
  newlines (metric ih name help ty value) = 3%nat.
Proof. intros. unfold metric. rewrite !newlines_app. repeat match goal with E : newlines _ = 0%nat |- _ => rewrite E; clear E end. done. Qed.

(** Nine series of three lines each: no statistic, and no torrent's name, adds a line. *)
Lemma exposition_lines s : newlines (es_info_hash s) = 0%nat -> 0 <= es_downloaded_bytes s -> 0 <= es_uploaded_bytes s -> 0 <= es_total_bytes s ->
  0 <= es_down_rate_bps s -> 0 <= es_up_rate_bps s -> newlines (render_prometheus s) = 27%nat.
Proof.
  intros. unfold render_prometheus. rewrite !newlines_app, !newlines_metric by (done || (apply newlines_number; lia) || by destruct (es_complete s)). done.
Qed.

(** ** Names in headers *)

(** A host name as a browser writes it in a header. *)
Definition dns_char (c : byte) : bool :=
  between 97 122 c || between 65 90 c || between 48 57 c || Byte.eqb c "-" || Byte.eqb c "_" || Byte.eqb c ".".

Definition port_suffix (l : bytes) : Prop := l = [] \/ exists digits, l = ":"%byte :: digits /\ forallb (between 48 57) digits = true.

Lemma no_slash_split l : "/"%byte ∉ l -> split_once (bs "://") l = None.
Proof.
  induction l as [|c l IH]; intros Hl; [done|]. apply not_elem_of_cons in Hl as [Hc Hl]. cbn [split_once]. rewrite IH by done.
  destruct (has_prefix (bs "://") (c :: l)) eqn:E; [|done]. change (bs "://") with [":"%byte; "/"%byte; "/"%byte] in E. destruct l as [|d l]; cbn [has_prefix] in E; rewrite ?andb_false_r, ?andb_true_iff in E; [done|].
  destruct E as (_ & Ed & _). apply Byte.byte_dec_bl in Ed. set_solver.
Qed.

Lemma header_chars name suffix : forallb dns_char name = true -> port_suffix suffix ->
  Forall (fun c => dns_char c || Byte.eqb c ":" = true) (name ++ suffix).
Proof.
  intros Hn Hs. apply Forall_app. rewrite forallb_forall in Hn. split.
  - apply list.Forall_forall. intros c Hc%list_elem_of_In. by rewrite Hn.
  - destruct Hs as [->|(digits & -> & Hd)]; [constructor|]. rewrite forallb_forall in Hd. constructor; [done|]. apply list.Forall_forall. intros c Hc%list_elem_of_In.
    unfold dns_char. rewrite (Hd c Hc). by rewrite !orb_true_r.
Qed.

Lemma absent_char name suffix c : forallb dns_char name = true -> port_suffix suffix -> dns_char c || Byte.eqb c ":" = false -> c ∉ name ++ suffix.
Proof. intros Hn Hs Hc Hin. pose proof (header_chars name suffix Hn Hs) as F. rewrite list.Forall_forall in F. specialize (F c Hin). congruence. Qed.

Lemma host_part_name name suffix : forallb dns_char name = true -> port_suffix suffix -> host_part (name ++ suffix) = Some name.
Proof.
  intros Hn Hs. unfold host_part. rewrite no_slash_split by (by apply absent_char). rewrite before_all.
  - rewrite absent_rsplit by (by apply absent_char). destruct Hs as [->|(digits & -> & Hd)].
    + rewrite app_nil_r. rewrite absent_rsplit; [done|]. intros Hin. rewrite forallb_forall in Hn. apply list_elem_of_In, Hn in Hin. done.
    + rewrite rsplit_once_last; [done|]. intros Hin. rewrite forallb_forall in Hd. apply list_elem_of_In, Hd in Hin. done.
  - apply forallb_forall. intros c Hc%list_elem_of_In. pose proof (header_chars name suffix Hn Hs) as F. rewrite list.Forall_forall in F. apply F in Hc.
    destruct c; (done || vm_compute in Hc; discriminate Hc).
Qed.

Lemma trim_none p l : Forall (fun c => p c = false) l -> trim_matches p l = l.
Proof.
  assert (G : forall l, Forall (fun c => p c = false) l -> trim_start p l = l) by (intros k Hk; destruct k as [|c k]; [done|]; apply list.Forall_cons in Hk as [Hc _]; cbn; by rewrite Hc).
  intros Hl. unfold trim_matches. rewrite (G l Hl), G; [by rewrite rev_involutive|]. apply Forall_rev. exact Hl.
Qed.

Lemma loopback_name name : forallb dns_char name = true -> name <> bs "127.0.0.1" -> name <> bs "localhost" -> is_loopback_host name = false.
Proof.
  intros Hn H1 H2. unfold is_loopback_host. rewrite trim_none; cycle 1.
  { apply list.Forall_forall. intros c Hc. rewrite forallb_forall in Hn. apply list_elem_of_In, Hn in Hc. destruct c; (done || vm_compute in Hc; discriminate Hc). }
  destruct (bytes_eqb name (bs "127.0.0.1")) eqn:E1; [by apply bytes_eqb_eq in E1|]. destruct (bytes_eqb name (bs "localhost")) eqn:E2; [by apply bytes_eqb_eq in E2|].
  destruct (bytes_eqb name (bs "::1")) eqn:E3; [|done]. apply bytes_eqb_eq in E3 as ->. by vm_compute in Hn.
Qed.

(** A header that names another machine: a host name other than the two of this one, after a scheme
    or without, with or without a port. *)
Definition foreign (header : bytes) : Prop :=
  exists scheme name suffix, header = scheme ++ name ++ suffix /\ (scheme = [] \/ exists s, forallb dns_char s = true /\ scheme = s ++ bs "://") /\
    forallb dns_char name = true /\ port_suffix suffix /\ name <> bs "127.0.0.1" /\ name <> bs "localhost".

(** A header of this machine. *)
Definition local_header (header : bytes) : Prop :=
  exists name suffix, header = name ++ suffix /\ port_suffix suffix /\ name ∈ [bs "127.0.0.1"; bs "localhost"; bs "[::1]"].

Lemma dns_without s : forallb dns_char s = true -> without [":"%byte] s = true.
Proof. apply forallb_weaken. intros c. destruct c; (done || vm_compute; discriminate). Qed.

Lemma host_part_scheme s rest : forallb dns_char s = true -> "/"%byte ∉ rest -> host_part (s ++ bs "://" ++ rest) = host_part rest.
Proof. intros Hs Hr. unfold host_part. rewrite (split_once_app (bs "://") ":") by (done || by apply dns_without). by rewrite no_slash_split. Qed.

Lemma foreign_refused header : foreign header -> exists h, host_part header = Some h /\ is_loopback_host h = false.
Proof.
  intros (scheme & name & suffix & -> & Hs & Hn & Hp & H1 & H2). exists name. split; [|by apply loopback_name].
  destruct Hs as [->|(s & Hs & ->)]; [by apply (host_part_name name)|]. rewrite <- app_assoc, host_part_scheme by (done || by apply absent_char). by apply host_part_name.
Qed.

Lemma suffix_absent suffix c : port_suffix suffix -> between 48 57 c || Byte.eqb c ":" = false -> c ∉ suffix.
Proof.
  intros [->|(digits & -> & Hd)] Hc Hin; [by apply not_elem_of_nil in Hin|]. rewrite forallb_forall in Hd. apply elem_of_cons in Hin as [->|Hin]; [done|].
  apply list_elem_of_In, Hd in Hin. by rewrite Hin in Hc.
Qed.

Lemma local_accepted header : local_header header -> exists h, host_part header = Some h /\ is_loopback_host h = true.
Proof.
  intros (name & suffix & -> & Hp & Hin). exists name. assert (L : is_loopback_host name = true) by (repeat (apply elem_of_cons in Hin as [->|Hin]; [done|]); by apply not_elem_of_nil in Hin).
  split; [|done]. apply elem_of_cons in Hin as [->|Hin]; [by apply host_part_name|]. apply elem_of_cons in Hin as [->|Hin]; [by apply host_part_name|].
  apply list_elem_of_singleton in Hin as ->. unfold host_part. rewrite no_slash_split; cycle 1.
  { intros [Hin|Hin]%elem_of_app; [|by eapply suffix_absent in Hin]. revert Hin. apply (bool_decide_unpack _). by vm_compute. }
  rewrite before_all; cycle 1.
  { rewrite forallb_app. apply andb_true_iff. split; [done|]. apply forallb_forall. intros c Hc%list_elem_of_In.
    destruct c; try done; exfalso; (by eapply suffix_absent in Hc). }
  change (bs "[::1]" ++ suffix) with (bs "[::1" ++ "]"%byte :: suffix). rewrite rsplit_once_last; [done|]. by apply suffix_absent.
Qed.

Section Guarded.
Context {C : Type} `{Lru C} `{SerdeJson} (sha1 : bytes -> bytes) (to_str : bytes -> option bytes) (fs : Files).
Context (Hstr : forall b s, to_str b = Some s -> s = b).

Lemma foreign_host {R} (rq : Request R) : (forall h, rq_host rq = Some h -> foreign h) -> csrf_guard to_str rq = Some (mkResponse FORBIDDEN (bs "foreign Host header")).
Proof.
  intros Hh. unfold csrf_guard. destruct (rq_host rq) as [h|]; [|done]. cbn [mbind option_bind]. destruct (to_str h) as [s|] eqn:E; [|done].
  apply Hstr in E as ->. destruct (foreign_refused h (Hh h eq_refl)) as (n & En & Eb). cbn [mbind option_bind]. rewrite En. cbn. by rewrite Eb.
Qed.

Lemma foreign_origin {R} (rq : Request R) o : rq_method rq = POST -> rq_origin rq = Some o -> is_Some (to_str o) -> foreign o ->
  exists t, csrf_guard to_str rq = Some (mkResponse FORBIDDEN t).
Proof.
  intros Hm Ho [s Hs] Hf. unfold csrf_guard. destruct (negb _); [by eexists|]. rewrite Hm, Ho. cbn [mbind option_bind]. rewrite Hs. apply Hstr in Hs as ->.
  destruct (foreign_refused o Hf) as (n & En & Eb). cbn [mbind option_bind]. rewrite En. cbn. rewrite Eb. by eexists.
Qed.

Lemma local_passes {R} (rq : Request R) h : rq_host rq = Some h -> to_str h = Some h -> local_header h -> rq_origin rq = None -> csrf_guard to_str rq = None.
Proof.
  intros Hh Hs Hl Ho. unfold csrf_guard. rewrite Hh, Ho. cbn [mbind option_bind]. rewrite Hs. destruct (local_accepted h Hl) as (n & En & Eb).
  cbn [mbind option_bind]. rewrite En. cbn. rewrite Eb. by destruct (rq_method rq).
Qed.

(** What the guard makes of a request, given what the server answers. *)
Definition guarded {R S} (rq : Request R) (st : S) (answer : S * result Response) : Prop :=
  ((forall h, rq_host rq = Some h -> foreign h) -> answer = (st, Ok (mkResponse FORBIDDEN (bs "foreign Host header")))) /\
  (forall o, rq_method rq = POST -> rq_origin rq = Some o -> is_Some (to_str o) -> foreign o -> exists t, answer = (st, Ok (mkResponse FORBIDDEN t))) /\
  (rq_method rq <> POST -> answer.1 = st) /\
  (forall h, rq_host rq = Some h -> to_str h = Some h -> local_header h -> rq_origin rq = None -> csrf_guard to_str rq = None).

Lemma guarded_intro {R S} (rq : Request R) (st : S) answer : (forall t, csrf_guard to_str rq = Some t -> answer = (st, Ok t)) -> (rq_method rq <> POST -> answer.1 = st) ->
  guarded rq st answer.
Proof.
  intros Hg Hm. split_and!; [|..|intros h; by apply local_passes].
  - intros Hh. by apply Hg, foreign_host.
  - intros o H1 H2 H3 H4. destruct (foreign_origin rq o H1 H2 H3 H4) as [t E]. exists t. by apply Hg.
  - done.
Qed.

Lemma read_only o1 o2 r1 r2 now rq (st : DaemonState C) : rq_method rq <> POST -> (daemon_router sha1 to_str fs o1 o2 r1 r2 now rq st).1 = st.
Proof. intros Hm. unfold daemon_router. destruct (csrf_guard to_str rq); [done|]. by destruct (rq_route rq), (rq_method rq). Qed.
End Guarded.

(** ** Histories *)

Section Histories.
Context {C : Type} `{Lru C} `{SerdeJson} (sha1 : bytes -> bytes) (Hsha : forall b, length (sha1 b) = 20%nat) (to_str : bytes -> option bytes).
Context (url_host : bytes -> option (option bytes)).

(** A request served while the files are as given, a pipeline that gets a permit, one that ends after
    the network answered as given. *)
Inductive WebStep :=
  | Serve (fs : Files) (o1 o2 : Wrote) (r1 r2 : bool) (now : Z) (rq : Request Route)
  | Begin
  | End_ (o1 o2 : Wrote) (now : Z) (i : nat) (http_announce : bytes -> bool -> bool -> Z * result AnnounceResponse) (fetch : list SocketAddr -> option bytes).

(** The state after a step; a handler that panics leaves what it had done. *)
Definition web_step (st : DaemonState C) (s : WebStep) : DaemonState C :=
  match s with
  | Serve fs o1 o2 r1 r2 now rq => (daemon_router sha1 to_str fs o1 o2 r1 r2 now rq st).1
  | Begin => (magnet_begin st).1
  | End_ o1 o2 now i http_announce fetch => (magnet_end sha1 http_announce url_host fetch o1 o2 now i st).1
  end.

(** A regular file of at most 16 MiB inside the permitted directory. *)
Definition permitted (dir : bytes) (fs : Files) (path : bytes) : Prop :=
  (exists base, canonicalize fs dir = Some base /\ starts_with path base = true) /\
  exists len, metadata fs path = Some (true, len) /\ len <= MAX_TORRENT_FILE_BYTES.

Record web_ok (dir : bytes) (may : bytes -> Prop) (st : DaemonState C) : Prop := {
  wo_hosts : hosts_ok (mgr st);
  wo_dir : torrent_dir st = dir;
  wo_gate : (ds_permits st + length (ds_running st) = MAX_CONCURRENT_MAGNET_ADDS)%nat;
  wo_reads : Forall may (ds_reads st);
  wo_contacts : Forall (fun url => tracker_url_dialable url_host url false = true) (ds_contacts st);
  wo_pools : Forall (Forall (fun a => is_dialable_peer_addr a false = true)) (ds_pools st);
}.

Lemma on_mgr_ok {A} dir may (f : M (SessionManager C) A) st : web_ok dir may st -> hosts_ok (f (mgr st)).1 -> web_ok dir may (on_mgr f st).1.
Proof. intros [] Hf. unfold on_mgr. destruct (f (mgr st)) as [m r]. by constructor. Qed.

Lemma on_mgr_bind {A B} (f : M (SessionManager C) A) (g : A -> B) st : ((a ← on_mgr f; mret (g a)) st).1 = (on_mgr f st).1.
Proof. unfold on_mgr, mbind, M_bind. destruct (f (mgr st)) as [m r]. by destruct r. Qed.

Lemma add_runtime_ok {B} dir may o1 o2 now t pid c raw (g : option bytes -> B) st : valid t -> web_ok dir may st ->
  web_ok dir may ((a ← on_mgr (add_persistent o1 o2 now t pid c raw); mret (g a)) st).1.
Proof. intros Hv Hs. rewrite on_mgr_bind. apply on_mgr_ok; [done|]. by apply add_persistent_hosts; [|apply Hs]. Qed.

Lemma read_ok dir may fs path base st : web_ok dir may st -> canonicalize fs dir = Some base -> starts_with path base = true ->
  (permitted dir fs path -> may path) -> web_ok dir may (read_torrent_capped fs path st).1.
Proof.
  intros Hs Hb Hp Hmay. unfold read_torrent_capped. destruct (metadata fs path) as [[is_file len]|] eqn:E; [|done].
  destruct is_file; [|done]. cbn [negb]. destruct (Z.ltb_spec MAX_TORRENT_FILE_BYTES len); [done|]. destruct Hs. constructor; try done. cbn.
  apply Forall_app. split; [done|]. apply list.Forall_singleton, Hmay. split; [by exists base|]. by exists len.
Qed.

Lemma daemon_add_ok dir may fs o1 o2 now body st : web_ok dir may st -> (forall path, permitted dir fs path -> may path) ->
  web_ok dir may (daemon_add sha1 fs o1 o2 now body st).1.
Proof.
  intros Hs Hmay. unfold daemon_add. destruct (_ =? 0)%nat; [done|]. rewrite bind_gets. cbn [id]. destruct (resolve_under fs _ _) as [safe|] eqn:E; [|done].
  unfold resolve_under in E. rewrite (wo_dir _ _ _ Hs) in E. destruct (canonicalize fs dir) as [base|] eqn:Eb; [|done]. cbn [mbind option_bind] in E.
  destruct (canonicalize fs (trim body)) as [full|]; [|done]. cbn [mbind option_bind] in E. destruct (starts_with full base) eqn:Ew; [|discriminate E]. injection E as ->.
  pose proof (read_ok dir may fs safe base st Hs Eb Ew (Hmay safe)) as G. unfold mbind at 1, M_bind at 1. destruct (read_torrent_capped fs safe st) as [st' [[r|raw]|e| |]]; try done.
  cbn [fst] in G. destruct (Torrent.from_bytes sha1 raw) as [t|e| |] eqn:Et; try done. apply add_runtime_ok; [|done]. by eapply parsed_valid.
Qed.

Lemma daemon_magnet_ok dir may body st : web_ok dir may st -> web_ok dir may (daemon_add_magnet body st).1.
Proof.
  intros Hs. unfold daemon_add_magnet. destruct (Magnet.parse _) as [magnet|e| |]; try done. rewrite bind_gets. cbn [id].
  destruct (contains _ _); [done|]. destruct (_ =? 0)%nat; [done|]. destruct (_ =? 0)%nat; [done|]. destruct Hs. by constructor.
Qed.

Lemma lift_skip {S A B} (r : result A) (f : A -> M S B) (P : S -> Prop) st : P st -> (forall a, r = Ok a -> P (f a st).1) -> P ((lift r ≫= f) st).1.
Proof. intros Hs Hf. unfold lift, mbind, M_bind. destruct r; [by apply Hf|done..]. Qed.

Lemma daemon_ctl_ok dir may ih cmd st : web_ok dir may st -> web_ok dir may (daemon_ctl ih cmd st).1.
Proof.
  intros Hs. unfold daemon_ctl. apply lift_skip; [done|]. intros [h|] _; [|done]. rewrite (on_mgr_bind _ (fun ok : bool => if ok then _ else _)). apply on_mgr_ok; [done|].
  by apply control_hosts, Hs.
Qed.

Lemma daemon_remove_ok dir may r1 r2 ih st : web_ok dir may st -> web_ok dir may (daemon_remove r1 r2 ih st).1.
Proof.
  intros Hs. unfold daemon_remove. apply lift_skip; [done|]. intros [h|] _; [|done]. rewrite (on_mgr_bind _ (fun ok : bool => if ok then _ else _)). apply on_mgr_ok; [done|].
  by apply remove_hosts, Hs.
Qed.

Lemma serve_ok dir may fs o1 o2 r1 r2 now rq st : web_ok dir may st -> (forall path, permitted dir fs path -> may path) ->
  web_ok dir may (daemon_router sha1 to_str fs o1 o2 r1 r2 now rq st).1.
Proof.
  intros Hs Hmay. unfold daemon_router. destruct (csrf_guard to_str rq); [done|].
  assert (B : forall f, (forall b, web_ok dir may (f b st).1) -> web_ok dir may (with_body rq f st).1).
  { intros f Hf. unfold with_body. destruct (_ <? _); [done|]. destruct (negb _); [done|]. apply Hf. }
  destruct (rq_route rq), (rq_method rq); try done.
  - apply B. intros b. by apply daemon_add_ok.
  - apply B. intros b. by apply daemon_magnet_ok.
  - by apply daemon_ctl_ok.
  - by apply daemon_ctl_ok.
  - by apply daemon_remove_ok.
Qed.

(** What a stretch of a pipeline leaves as it was. *)
Definition same_gate (st st' : DaemonState C) : Prop :=
  ds_permits st' = ds_permits st /\ ds_magnets st' = ds_magnets st /\ ds_running st' = ds_running st.

Definition kept dir may (st st' : DaemonState C) : Prop := web_ok dir may st' /\ same_gate st st'.

Lemma pool_ok dir may http_announce trackers : forall pool st, web_ok dir may st -> Forall (fun a => is_dialable_peer_addr a false = true) pool ->
  let st' := (bootstrap_pool http_announce url_host trackers pool st).1 in
  web_ok dir may st' /\ same_gate st st' /\ forall pool', (bootstrap_pool http_announce url_host trackers pool st).2 = Ok pool' -> Forall (fun a => is_dialable_peer_addr a false = true) pool'.
Proof.
  induction trackers as [|url l IH]; intros pool st Hs Hp; cbn [bootstrap_pool]; [split_and!; [done|done|by intros pool' [= <-]]|].
  set (a := announce_screened _ _ _ _ _).
  assert (G : exists st1, (match an_contacts a with [] => mret tt | _ => note_contact url end : M (DaemonState C) unit) st = (st1, Ok tt) /\ web_ok dir may st1 /\ same_gate st st1).
  { destruct (an_contacts a) as [|x xs] eqn:E; [by exists st|]. eexists. split; [done|]. split; [|done]. destruct Hs. constructor; try done. cbn.
    apply Forall_app. split; [done|]. apply list.Forall_singleton. unfold a, announce_screened in E. by destruct (tracker_url_dialable url_host url _) eqn:Eu. }
  destruct G as (st1 & E1 & Hs1 & Hg1). rewrite (bind_step _ _ _ _ _ E1).
  assert (K : forall pool1, Forall (fun a => is_dialable_peer_addr a false = true) pool1 ->
    let st' := (bootstrap_pool http_announce url_host l pool1 st1).1 in
    web_ok dir may st' /\ same_gate st st' /\ forall pool', (bootstrap_pool http_announce url_host l pool1 st1).2 = Ok pool' -> Forall (fun a => is_dialable_peer_addr a false = true) pool').
  { intros pool1 Hp1. destruct (IH pool1 st1 Hs1 Hp1) as (A & (B1 & B2 & B3) & D). split_and!; [done| |done]. destruct Hg1 as (G1 & G2 & G3). unfold same_gate. by rewrite B1, B2, B3. }
  destruct (an_result a) as [resp|e| |]; [|by apply K|by split_and!..]. apply K, Forall_app. split; [done|].
  apply list.Forall_forall. intros x. unfold filter_daemon_peer_pool. rewrite list_elem_of_In, filter_In. by intros [_ ?].
Qed.

Lemma dedup_addrs_sub l x : x ∈ dedup_addrs l -> x ∈ l.
Proof. induction l as [|y l IH]; cbn [dedup_addrs]; [done|]. destruct (dedup_addrs l) as [|z r]; [set_solver|]. case_decide; set_solver. Qed.

Lemma info_dict_valid b ih trackers t : from_info_dict_bytes sha1 b ih trackers = Ok t -> valid t.
Proof.
  intros E. split; [|destruct (torrent_validated sha1 t) as (total & Hi & _); [right; by eexists _, _, _|by exists total]].
  unfold from_info_dict_bytes in E. destruct (bytes_eqb (sha1 b) ih) eqn:Eb; [|done]. apply bytes_eqb_eq in Eb as <-. cbn [negb] in E.
  apply bind_Ok in E as (v & _ & E). apply bind_Ok in E as (i & _ & [= <-]). apply Hsha.
Qed.

Lemma bootstrap_ok dir may http_announce fetch o1 o2 now magnet st : web_ok dir may st ->
  kept dir may st (magnet_bootstrap sha1 http_announce url_host fetch o1 o2 now magnet st).1.
Proof.
  intros Hs. unfold magnet_bootstrap. rewrite bind_gets. destruct (pool_ok dir may http_announce (ml_trackers magnet) [] st Hs) as (A & B & D); [constructor|].
  unfold mbind at 1, M_bind at 1. destruct (bootstrap_pool http_announce url_host (ml_trackers magnet) [] st) as [st1 [pool|e| |]]; cbn [fst snd] in *; try by split.
  specialize (D pool eq_refl). cbv beta zeta. set (p := dedup_addrs _). destruct (length p =? 0)%nat; [by split|].
  assert (Hp : Forall (fun a => is_dialable_peer_addr a false = true) p).
  { apply list.Forall_forall. intros x Hx%dedup_addrs_sub. rewrite sort_by_perm in Hx. rewrite list.Forall_forall in D. by apply D. }
  unfold note_pool. unfold mbind at 1, M_bind at 1. unfold modify at 1. set (st2 := with_log _ _ _ st1).
  assert (Hs2 : web_ok dir may st2) by (destruct A; constructor; try done; cbn; apply Forall_app; split; [done|by apply list.Forall_singleton]).
  destruct (fetch p) as [info|]; [|by split]. destruct (from_info_dict_bytes _ _ _ _) as [t|e| |] eqn:Et; try by split.
  split; [apply (add_runtime_ok _ _ _ _ _ _ _ _ _ (fun _ => tt)); [by eapply info_dict_valid|done]|].
  rewrite (on_mgr_bind _ (fun _ => tt)). unfold on_mgr. by destruct (add_persistent _ _ _ _ _ _ _ _).
Qed.

Lemma web_step_ok dir may st s : web_ok dir may st -> (forall fs path, (exists o1 o2 r1 r2 now rq, s = Serve fs o1 o2 r1 r2 now rq) -> permitted dir fs path -> may path) ->
  web_ok dir may (web_step st s).
Proof.
  intros Hs Hmay. destruct s as [fs o1 o2 r1 r2 now rq| |o1 o2 now i http_announce fetch]; cbn [web_step].
  - apply serve_ok; [done|]. intros path. apply Hmay. by eexists _, _, _, _, _, _.
  - unfold magnet_begin, modify. cbn [fst]. destruct Hs as [H1 H2 Hg H3 H4 H5]. destruct (ds_permits st) as [|n] eqn:En; [by constructor; rewrite ?En|]. destruct (ds_magnets st) as [|m w]; [by constructor; rewrite ?En|].
    constructor; try done. cbn. rewrite length_app. cbn. lia.
  - unfold magnet_end. destruct (ds_running st !! i) as [m|] eqn:Ei; [|done]. destruct (bootstrap_ok dir may http_announce fetch o1 o2 now m st Hs) as [[H1 H2 Hg H3 H4 H5] (E1 & E2 & E3)].
    cbn [fst]. constructor; try done. cbn. rewrite E3 in *. apply lookup_lt_Some in Ei as Hl. rewrite length_delete by (by eexists). lia.
Qed.
End Histories.

(** ** The assembled file, read back *)

(** One entry of a dictionary, as the parser reads it. *)
Lemma parse_entry f k c v rest map prev d : in_u 64 (Z.of_nat (length k)) = true ->
  match prev with Some pk => bytes_ltb pk k | None => true end = true -> parse_value_depth f (c ++ rest) (S d) = Ok (v, rest) ->
  parse_dict (S f) (push_bstr k ++ c ++ rest) map prev d = parse_dict f rest (bt_insert k v map) (Some k) d.
Proof.
  intros Hk Hp Hv. pose proof (parse_bytes_show k (c ++ rest) Hk) as E. unfold push_bstr. rewrite <- app_assoc. cbn [app].
  destruct (show_u_cons (Z.of_nat (length k))) as (g & t & Ht & Hg); [lia|]. rewrite Ht in *. cbn [app] in *. cbn [parse_dict].
  rewrite (proj2 (proj2 (proj2 (digit_not_tag g Hg)))), E. cbn [mbind result_bind]. destruct prev as [pk|]; [rewrite Hp|]; cbn [negb]; by rewrite Hv.
Qed.

Definition assembled (info_v : BencodeValue) (trackers : list bytes) : BencodeValue :=
  BDict (match trackers with first :: _ => [(bs "announce", BBytes first); (bs "announce-list", tiers trackers)] | [] => [] end ++ [(bs "info", info_v)]).

Lemma tiers_bytes trackers : Bencode.to_bytes (tiers trackers) = ["l"%byte] ++ flat_map (fun t => "l"%byte :: push_bstr t ++ ["e"%byte]) trackers ++ ["e"%byte].
Proof.
  unfold tiers. cbn [Bencode.to_bytes app]. do 2 f_equal. induction trackers as [|t l IH]; [done|]. cbn [fmap list_fmap flat_map Bencode.to_bytes]. rewrite app_nil_r. cbn [app]. f_equal. f_equal. exact IH.
Qed.

Lemma value_back v d f r : wf v = true -> (height v + d <= MAX_DEPTH)%nat -> (2 * length (Bencode.to_bytes v) + 1 <= f)%nat ->
  parse_value_depth f (Bencode.to_bytes v ++ r) d = Ok (v, r).
Proof. intros. by apply all_read_back. Qed.

(** What precedes the info dictionary in the file. *)
Definition announces (trackers : list bytes) : bytes :=
  match trackers with
  | first :: _ => push_bstr (bs "announce") ++ Bencode.to_bytes (BBytes first) ++ push_bstr (bs "announce-list") ++ Bencode.to_bytes (tiers trackers)
  | [] => []
  end.

Lemma assembled_shape info trackers : assemble_torrent_bytes info trackers = "d"%byte :: announces trackers ++ push_bstr (bs "info") ++ info ++ ["e"%byte].
Proof. unfold assemble_torrent_bytes, announces. destruct trackers as [|first l]; [done|]. rewrite tiers_bytes. cbn [app]. by rewrite <- !app_assoc. Qed.

Lemma push_bstr_pos k : (2 <= length (push_bstr k))%nat.
Proof. unfold push_bstr. destruct (show_u_cons (Z.of_nat (length k))) as (g & t & -> & _); [lia|]. cbn [app length]. rewrite length_app. cbn. lia. Qed.

Lemma push_bstr_eq k : push_bstr k = Bencode.to_bytes (BBytes k).
Proof. done. Qed.

Section Assembled.
Context (info : bytes) (info_v : BencodeValue) (Hinfo : forall f r, (2 * length info + 1 <= f)%nat -> parse_value_depth f (info ++ r) 1 = Ok (info_v, r)).
Context (trackers : list bytes) (Hut : Forall usable trackers).

Lemma assembled_parse : parse_all (assemble_torrent_bytes info trackers) = Ok (assembled info_v trackers).
Proof.
  unfold parse_all, parse_value. rewrite assembled_shape. set (n := length (_ :: _)). rewrite Nat.add_1_r. cbn [parse_value_depth].
  change (MAX_DEPTH <? 0)%nat with false. change (Byte.eqb "d" "i") with false. change (Byte.eqb "d" "l") with false. change (Byte.eqb "d" "d") with true. cbv iota.
  pose proof (push_bstr_pos (bs "announce")). pose proof (push_bstr_pos (bs "announce-list")). pose proof (push_bstr_pos (bs "info")).
  assert (G : forall f map prev, (2 * length info + 4 <= f)%nat -> match prev with Some pk => bytes_ltb pk (bs "info") | None => true end = true ->
    parse_dict f (push_bstr (bs "info") ++ info ++ ["e"%byte]) map prev 0 = Ok (BDict (bt_insert (bs "info") info_v map), [])).
  { intros f map prev Hf Hp. destruct f as [|f]; [lia|]. rewrite (parse_entry f (bs "info") info info_v) by (done || apply Hinfo; lia). destruct f; [lia|]. done. }
  destruct trackers as [|first l]; cbn [announces app] in *.
  { rewrite G; [done| |done]. unfold n. cbn [length]. rewrite !length_app. lia. }
  destruct (tiers_wf (first :: l) Hut) as [Hw Hh]. apply list.Forall_cons in Hut as [[_ Hf] _].
  assert (Hn : (2 * length info + 2 * length (Bencode.to_bytes (BBytes first)) + 2 * length (Bencode.to_bytes (tiers (first :: l))) + 10 <= 2 * n)%nat).
  { unfold n. cbn [length]. rewrite !length_app. lia. }
  destruct (2 * n)%nat as [|[|k]] eqn:Ek; [lia..|]. rewrite <- !app_assoc.
  rewrite (parse_entry _ (bs "announce") _ (BBytes first)) by (done || (apply value_back; [done|change (height (BBytes first)) with 0%nat; unfold MAX_DEPTH; lia|lia])).
  rewrite (parse_entry _ (bs "announce-list") _ (tiers (first :: l))) by (done || (apply value_back; [done|unfold MAX_DEPTH; lia|lia])).
  rewrite G by (done || lia). done.
Qed.

Lemma assembled_value r : parse_value (info ++ r) = Ok (info_v, r).
Proof. apply (nested_value (2 * length info + 1) _ 1). apply Hinfo. lia. Qed.

Lemma assembled_slice : find_info_slice (assemble_torrent_bytes info trackers) = Ok info.
Proof.
  unfold find_info_slice. rewrite assembled_shape. change (Byte.eqb "d" "d") with true. cbv iota.
  set (n := length ("d"%byte :: _)). assert (Hl : (3 <= n)%nat).
  { pose proof (push_bstr_pos (bs "info")). unfold n. cbn [length]. rewrite !length_app. lia. }
  destruct n as [|[|[|n]]]; [lia..|]. clear Hl.
  change 1%nat with (length ["d"%byte]). change ("d"%byte :: ?l) with (["d"%byte] ++ l).
  destruct trackers as [|first l]; cbn [announces app] in *.
  { rewrite push_bstr_eq. apply (find_info_here _ ["d"%byte] info info_v), assembled_value. }
  destruct (tiers_wf (first :: l) Hut) as [Hw Hh]. apply list.Forall_cons in Hut as [[_ Hf] _]. rewrite <- !app_assoc.
  change ("d"%byte :: ?l) with (["d"%byte] ++ l). rewrite !push_bstr_eq.
  rewrite (find_info_past _ _ (bs "announce") _ (BBytes first)) by (done || (apply parse_value_back; [done|cbn; lia])).
  rewrite (find_info_past _ _ (bs "announce-list") _ (tiers (first :: l))) by (done || (apply parse_value_back; [done|unfold MAX_DEPTH; lia])).
  apply (find_info_here _ _ info info_v), assembled_value.
Qed.
End Assembled.

(** ** Theorems *)

(** C21: pages of other sites reach neither server.  A request is refused with 403 and changes nothing
    when it has no [Host] or names another machine there, and a [POST] also when its [Origin] is text
    that names another machine, whatever the route and the body.  No request but a [POST] changes
    anything.  A local client that sends no [Origin] passes. *)
Theorem web_guarded {C : Type} `{Lru C} `{SerdeJson} sha1 to_str fs o1 o2 r1 r2 now rq (st : DaemonState C) : (forall b s, to_str b = Some s -> s = b) ->
  guarded to_str rq st (daemon_router sha1 to_str fs o1 o2 r1 r2 now rq st) /\
  forall rq' st', guarded to_str rq' st' (router to_str rq' st').
Proof.
  intros Hstr. split; [|intros rq' st']; apply guarded_intro; try done.
  - intros t E. unfold daemon_router. by rewrite E.
  - by apply read_only.
  - intros t E. unfold router. by rewrite E.
  - intros Hm. unfold router. destruct (csrf_guard to_str rq'); [done|]. by destruct (rq_route rq'), (rq_method rq').
Qed.

(** C22: what requests and magnets can make the daemon do.  Along every history of requests and of
    magnet pipelines: the sessions stay wired as [hosts_ok] says; at most four pipelines run, and a
    permit is free exactly when fewer do; every file read was, when it was read, a regular file of at
    most 16 MiB inside the permitted directory; every tracker contacted passes the screen of its URL;
    and every peer handed to the metadata fetch is dialable. *)
Theorem web_history {C : Type} `{Lru C} `{SerdeJson} sha1 to_str url_host steps (st : DaemonState C) : (forall b, length (sha1 b) = 20%nat) ->
  web_ok url_host (torrent_dir st) (fun path => path ∈ ds_reads st) st ->
  web_ok url_host (torrent_dir st) (fun path => path ∈ ds_reads st \/ exists fs o1 o2 r1 r2 now rq, Serve fs o1 o2 r1 r2 now rq ∈ steps /\ permitted (torrent_dir st) fs path)
    (foldl (web_step sha1 to_str url_host) st steps).
Proof.
  intros Hsha Hst. set (may := fun path => _ \/ _). assert (G : web_ok url_host (torrent_dir st) may st).
  { destruct Hst. constructor; try done. eapply list.Forall_impl; [done|]. by left. }
  assert (K : forall l s, incl l steps -> web_ok url_host (torrent_dir st) may s -> web_ok url_host (torrent_dir st) may (foldl (web_step sha1 to_str url_host) s l)).
  { induction l as [|x l IH]; intros s Hl Hs; [done|]. cbn [foldl]. apply IH; [intros y Hy; apply Hl; by right|]. apply web_step_ok; [done|done|].
    intros fs path (o1 & o2 & r1 & r2 & now & rq & ->) Hp. right. exists fs, o1, o2, r1, r2, now, rq. split; [|done]. apply list_elem_of_In, Hl. by left. }
  apply K; [apply incl_refl|done].
Qed.

(** C38: the file written for a torrent added from a magnet loads again, when the info dictionary is at
    least one level less deep than the parser allows and the trackers are UTF-8 ([usable]).  The file assembled around the dictionary then parses, to the same info hash, the same
    metadata and the same trackers in the same order.  A dictionary as deep as the parser allows
    is accepted from the magnet and its file is refused: [deepest_lost]. *)
Theorem magnet_restored sha1 info_bytes ih trackers t v : from_info_dict_bytes sha1 info_bytes ih trackers = Ok t -> Forall usable trackers ->
  parse_value_depth (2 * length info_bytes + 1) info_bytes 1 = Ok (v, []) ->
  exists t', Torrent.from_bytes sha1 (assemble_torrent_bytes info_bytes trackers) = Ok t' /\ Torrent.info_hash t' = Torrent.info_hash t /\ info t' = info t /\
    Torrent.trackers t' = Torrent.trackers t.
Proof.
  intros E Hut Hv. destruct (proj1 (parse_sound _) _ _ _ _ Hv) as [_ (c & Ec & _ & Hl)]. rewrite app_nil_r in Ec. subst c.
  assert (Hinfo : forall f r, (2 * length info_bytes + 1 <= f)%nat -> parse_value_depth f (info_bytes ++ r) 1 = Ok (v, r)) by (intros; by apply Hl).
  unfold from_info_dict_bytes in E. destruct (bytes_eqb (sha1 info_bytes) ih) eqn:Eb; [|done]. apply bytes_eqb_eq in Eb as <-. cbn [negb] in E.
  apply bind_Ok in E as (v' & Ev & E). pose proof (assembled_value info_bytes v Hinfo []) as Ev'. rewrite app_nil_r in Ev'. unfold parse_all in Ev. rewrite Ev' in Ev. cbn [mbind result_bind] in Ev. injection Ev as <-.
  apply bind_Ok in E as (i & Ei & [= <-]). unfold Torrent.from_bytes, compute_info_hash. rewrite (assembled_parse info_bytes v Hinfo trackers Hut), (assembled_slice info_bytes v Hinfo trackers Hut).
  cbn [mbind result_bind]. unfold torrent_from_value, assembled, parse_announce_list. cbn [as_dict mbind result_bind]. destruct trackers as [|first l].
  { cbn [app]. rewrite (bt_get_skip (bs "announce")), (bt_get_skip (bs "announce-list")), bt_get_hit by done. cbn [bt_get mbind result_bind ok_or]. rewrite Ei. by eexists. }
  destruct (list.Forall_cons usable first l) as [[[Hf _] _] _]; [done|]. cbn [app]. rewrite bt_get_hit. cbn [as_str as_bytes mbind result_bind]. rewrite Hf. cbn [mbind result_bind].
  rewrite (bt_get_skip (bs "announce-list") (bs "announce")), bt_get_hit by done. unfold tiers. cbn [as_list mbind result_bind]. rewrite tiers_read by (eapply list.Forall_impl; [exact Hut|by intros ? []]). cbn [mbind result_bind].
  rewrite (bt_get_skip (bs "info") (bs "announce")), (bt_get_skip (bs "info") (bs "announce-list")), bt_get_hit by done. cbn [ok_or mbind result_bind]. rewrite Ei. eexists. split; [done|]. split_and!; try done.
  unfold Torrent.trackers. cbn [announce announce_list foldl]. rewrite (fold_tiers (first :: l)). apply pushed_again. cbn [foldl]. apply pushed_stays. unfold push_new. cbn. by apply list_elem_of_singleton.
Qed.

(** ** Witnesses *)

(** Header text: tabs and visible ASCII. *)
Definition visible (b : bytes) : option bytes := if forallb (fun c => between 32 126 c || Byte.eqb c x09) b then Some b else None.

Definition files_ex : Files := mkFiles Some (fun _ => Some (true, 4096)) (fun _ => Some Torrent.torrent_ex).

Definition state_ex : DaemonState Assoc :=
  mkDaemon Daemon.empty_ex (bs "/srv") (replicate 20 x2d) 6881 false (bs "/srv/torrents") MAX_CONCURRENT_MAGNET_ADDS [] [] [] [] [].

Definition post_ex (host : bytes) (origin : option bytes) (body : bytes) : Request Route := mkRequest POST AddTorrent (Some host) origin body.

Lemma web_guarded_witness :
  let ask := fun rq => daemon_router digest20 visible files_ex WroteAll WroteAll true true 0 rq state_ex in
  ask (post_ex (bs "evil.example:8317") None (bs "/srv/torrents/a.torrent")) = (state_ex, Ok (mkResponse FORBIDDEN (bs "foreign Host header"))) /\
  (exists t, ask (post_ex (bs "127.0.0.1:8317") (Some (bs "https://evil.example")) (bs "/srv/torrents/a.torrent")) = (state_ex, Ok (mkResponse FORBIDDEN t))) /\
  csrf_guard visible (post_ex (bs "localhost:8317") None []) = None.
Proof.
  intros ask.
  assert (Hv : forall b s, visible b = Some s -> s = b) by (intros b s; unfold visible; destruct (forallb _ b); [by intros [= ->]|done]).
  split_and!.
  - apply (web_guarded digest20 visible files_ex WroteAll WroteAll true true 0 (post_ex _ _ _) state_ex Hv). intros h [= <-].
    exists [], (bs "evil.example"), (bs ":8317"). split_and!; try done; try by left. right. by exists (bs "8317").
  - destruct (web_guarded digest20 visible files_ex WroteAll WroteAll true true 0 (post_ex (bs "127.0.0.1:8317") (Some (bs "https://evil.example")) (bs "/srv/torrents/a.torrent")) state_ex Hv) as [(_ & G & _) _].
    apply (G (bs "https://evil.example")); try done.
    exists (bs "https://"), (bs "evil.example"), []. split_and!; try done; try by left. right. by exists (bs "https").
  - destruct (web_guarded digest20 visible files_ex WroteAll WroteAll true true 0 (post_ex (bs "localhost:8317") None []) state_ex Hv) as [(_ & _ & _ & G) _].
    apply (G (bs "localhost:8317")); try done.
    exists (bs "localhost"), (bs ":8317"). split_and!; try done; [right; by exists (bs "8317")|]. apply list_elem_of_In. right. by left.
Defined.

(** A torrent is added, a magnet is added and its pipeline runs. *)
Definition magnet_ex : bytes := link (replicate 20 x07) None [bs "http://t.example/announce"].

Definition web_steps_ex : list WebStep :=
  [Serve files_ex WroteAll WroteAll true true 0 (post_ex (bs "localhost:8317") None (bs " /srv/torrents/a.torrent "));
   Serve files_ex WroteAll WroteAll true true 0 (mkRequest POST AddMagnet (Some (bs "[::1]:8317")) None magnet_ex);
   Begin;
   End_ WroteAll WroteAll 0 0 (fun _ _ _ => (0, Ok (mkResp 1800 None None None [sock_addr (IpV4 x08 x08 x08 x08) 6881; sock_addr (IpV4 x7f x00 x00 x01) 22]))) (fun _ => None)].

Definition hosts_ex (url : bytes) : option (option bytes) := Some (Some (bs "t.example")).

(** The files read, the trackers contacted and the pools of peers. *)
Definition web_view (st : DaemonState Assoc) : list bytes * list bytes * list (list SocketAddr) * nat :=
  (ds_reads st, ds_contacts st, ds_pools st, ds_permits st).

Lemma web_history_witness :
  let st := foldl (web_step digest20 visible hosts_ex) state_ex web_steps_ex in
  web_view st = ([bs "/srv/torrents/a.torrent"], [bs "http://t.example/announce"], [[sock_addr (IpV4 x08 x08 x08 x08) 6881]], 4%nat) /\ hosts_ok (mgr st).
Proof.
  intros st. split; [vm_compute; reflexivity|]. apply (web_history digest20 visible hosts_ex web_steps_ex state_ex digest20_len).
  constructor; try done; [|constructor..]. apply start_hosts.
Defined.

Lemma magnet_restored_witness : exists t', Torrent.from_bytes digest20 (assemble_torrent_bytes (Bencode.to_bytes Torrent.info_ex) [bs "http://a/"; bs "udp://b:1"]) = Ok t' /\
  Torrent.info_hash t' = digest20 (Bencode.to_bytes Torrent.info_ex) /\ Torrent.trackers t' = [bs "http://a/"; bs "udp://b:1"].
Proof.
  destruct (from_info_dict_bytes digest20 (Bencode.to_bytes Torrent.info_ex) (digest20 (Bencode.to_bytes Torrent.info_ex)) [bs "http://a/"; bs "udp://b:1"]) as [t|e| |] eqn:E; [|vm_compute in E; discriminate E..].
  destruct (magnet_restored digest20 (Bencode.to_bytes Torrent.info_ex) _ _ t Torrent.info_ex E) as (t' & E' & H1 & _ & H3).
  - repeat constructor.
  - vm_compute. reflexivity.
  - exists t'. rewrite H1, H3. vm_compute in E. injection E as <-. split_and!; [exact E'|vm_compute; reflexivity..].
Defined.

(** A dictionary as deep as the parser allows is accepted from a magnet, but its file is not read back. *)
Definition deep (n : nat) : BencodeValue := Nat.iter n (fun v => BList [v]) (BInt 0).
Definition deep_info (n : nat) : bytes := Bencode.to_bytes (BDict ((match Torrent.info_ex with BDict d => d | _ => [] end) ++ [(bs "x", deep n)])).

Lemma deepest_lost :
  (exists t, from_info_dict_bytes digest20 (deep_info 99) (digest20 (deep_info 99)) [] = Ok t) /\
  Torrent.from_bytes digest20 (assemble_torrent_bytes (deep_info 99) []) = Err (EBencode "nesting exceeds max depth") /\
  exists t, Torrent.from_bytes digest20 (assemble_torrent_bytes (deep_info 98) []) = Ok t.
Proof. split_and!; [eexists; vm_compute; reflexivity|vm_compute; reflexivity|eexists; vm_compute; reflexivity]. Qed.
