(* ===== verification/Launch.v ===== *)
(** * Starting from the command line: [src/src/main.rs] and [src/src/peer_id.rs]

    What [download] and [magnet] do before the engine takes over: the peer id, the
    proxy chain, and for a magnet the bootstrap from trackers, the DHT and the
    peers found there.  Everything that leaves the machine on the way, and every
    use of the file that keeps the peer id, is entered in a list of [Act]s.  The
    environment, the resolver, the trackers, the DHT and the peers are a
    [LaunchEnv].  Errors of the command line are kept as [EIo] with their text. *)

From Stdlib Require Import ZArith Lia String Strings.Byte.
From stdpp Require Import base tactics numbers list option.
From S2P Require Import Prelude Bencode PeerWire Handshake Paths Net Text IpText Extension Torrent Magnet Socks5 Tracker Mse Engine Connection MetadataFetch FetchPool Decrypt DaemonStore Session Web.

#[local] Set Warnings "-register-all".

(** ** Peer ids *)

Definition ALPHABET : bytes := bs "0123456789abcdefghijklmnopqrstuvwxyzABCDEFGHIJKLMNOPQRSTUVWXYZ".

(** [draw i] is the [i]-th number drawn, taken into the range of the alphabet. *)
Definition generate_with_prefix (draw : nat -> nat) (prefix : bytes) : bytes :=
  prefix ++ ((fun i => default x00 (ALPHABET !! (draw i mod length ALPHABET)%nat)) <$> seq 0 12).

Definition generate (draw : nat -> nat) : bytes := generate_with_prefix draw (bs "-RT0100-").
Definition generate_libtorrent_lookalike (draw : nat -> nat) : bytes := generate_with_prefix draw (bs "-LT2090-").

(** On Unix. *)
Definition peer_id_path (xdg_config_home home : option bytes) : bytes :=
  match xdg_config_home with
  | Some (b :: x) => join (join (b :: x) (bs "rustytorrent")) (bs "peer_id")
  | _ =>
      match home with
      | Some (b :: h) => join (join (join (b :: h) (bs ".config")) (bs "rustytorrent")) (bs "peer_id")
      | _ => bs ".rustytorrent-peer-id"
      end
  end.

(** The state is the file, if it can be read; [dir] and [write] say whether its directory can be made and it can be written. *)
Definition load_or_generate (draw : nat -> nat) (dir write : bool) : M (option bytes) bytes :=
  file ← gets id;
  match file with
  | Some b => if (length b =? 20)%nat then mret b else
      let id := generate draw in
      if dir && write then _ ← modify (fun _ => Some id); mret id else mret id
  | None =>
      let id := generate draw in
      if dir && write then _ ← modify (fun _ => Some id); mret id else mret id
  end.

(** ** Addresses on the command line: [SocketAddr::from_str] *)

Definition read_port (s : bytes) : option (Z * bytes) := s ← read_given_char ":" s; read_number 10 (length s) 65535 true s.

Definition read_scope_id (s : bytes) : Z * bytes :=
  match (s ← read_given_char "%" s; read_number 10 (length s) (2 ^ 32 - 1) true s) with
  | Some (n, r) => (n, r)
  | None => (0, s)
  end.

Definition read_socket_addr (s : bytes) : option (SocketAddr * bytes) :=
  match ('(ip, s) ← read_ipv4_addr s; '(port, s) ← read_port s; Some (sock_addr ip port, s)) with
  | Some r => Some r
  | None =>
      s ← read_given_char "[" s;
      '(ip, s) ← read_ipv6_addr s;
      let '(scope, s) := read_scope_id s in
      s ← read_given_char "]" s;
      '(port, s) ← read_port s;
      Some (mkAddr ip port 0 scope, s)
  end.

Definition parse_socket_addr (s : bytes) : option SocketAddr :=
  match read_socket_addr s with Some (a, []) => Some a | _ => None end.

Example parse_socket_addr_ex :
  parse_socket_addr (bs "127.0.0.1:9050") = Some (sock_addr (IpV4 x7f x00 x00 x01) 9050) /\ parse_socket_addr (bs "[::1%3]:80") = Some (mkAddr (IpV6 (replicate 15 x00 ++ [x01])) 80 0 3) /\
  parse_socket_addr (bs "tor.example:9050") = None /\ parse_socket_addr (bs "1.2.3.4:70000") = None.
Proof. vm_compute. done. Qed.

(** ** Arguments *)

Record SharedDownloadArgs := mkShared {
  a_output : bytes;
  a_port : Z;
  a_peer : list bytes;
  a_encrypt : bool;
  a_socks5 : list bytes;
  a_socks5_user : option bytes;
  a_socks5_pass : option bytes;
  a_anonymous : bool;
  a_bind_iface : option bytes;
  a_tor_isolation : bool;
  a_paranoid : bool;
  a_memory_only : bool;
  a_sandbox : bool;
  a_passphrase : option bytes;
  a_spool : option bytes;
  a_max_down : option Z;
  a_max_up : option Z;
  a_utp : bool;
  a_web : option Z;
  a_select : list bytes;
  a_sequential : bool;
}.

Definition parse_rate_kib (k : option Z) : option Z :=
  match k with Some kib => if kib =? 0 then None else Some (Z.min (kib * 1024) (2 ^ 64 - 1)) | None => None end.

Fixpoint validate_select_patterns (selectors : list bytes) : result unit :=
  match selectors with
  | [] => Ok tt
  | s :: selectors =>
      if (length (Web.trim s) =? 0)%nat then Err (EIo "--select patterns must not be empty or whitespace-only") else validate_select_patterns selectors
  end.

Definition effective_socks5_pass (flag env : option bytes) : option bytes :=
  match flag with Some p => Some p | None => match env with Some (b :: p) => Some (b :: p) | _ => None end end.

Definition effective_socks5_user (flag env : option bytes) : option bytes :=
  match flag with Some u => Some u | None => match env with Some (b :: u) => Some (b :: u) | _ => None end end.

Definition bootstrap_allows_tracker (url : bytes) (anonymous : bool) : bool := negb (anonymous && has_prefix (bs "http://") url).

(** ** What leaves the machine *)

Inductive Act :=
  | ResolveHost (spec : bytes)
  | IdFile
  | Announced (url : bytes) (req : AnnounceRequest) (via : option ProxyConfig) (iface : option bytes)
  | DhtSpawned (port : Z) (iface : option bytes) (strict_martians : bool)
  | Dialled (d : Dial).

Definition act (a : Act) : M (list Act) unit := modify (fun l => l ++ [a]).

Record LaunchEnv := mkLaunchEnv {
  le_user : option bytes;
  le_pass : option bytes;
  le_secret : option bytes;
  le_terminal : bool;
  le_prompt : result bytes;
  le_resolve : bytes -> result (list SocketAddr);
  le_http : bytes -> bool -> bool -> Z * result AnnounceResponse;
  le_url_host : bytes -> option (option bytes);
  le_dht : bool;
  le_dht_peers : list SocketAddr;
  le_draw : nat -> nat;
  le_id_file : option bytes;
  le_fetch_draw : nat -> nat;
  le_attempt : nat -> Attempt;
  le_steps : list PoolStep;
}.

(** ** The proxy chain *)

Section Launch.
Context (env : LaunchEnv).

(** The loop over the hops; credentials and isolation belong to the last. *)
Fixpoint resolve_hops (require_ip_literals tor_isolation : bool) (credentials : option Credentials) (specs : list bytes) : M (list Act) (list ProxyConfig) :=
  match specs with
  | [] => mret []
  | spec :: specs =>
      addr ← (if require_ip_literals then
                lift (ok_or (parse_socket_addr spec) (EIo "--anonymous requires each --socks5 hop as an IP literal"))
              else
                _ ← act (ResolveHost spec);
                addrs ← lift (le_resolve env spec);
                lift (ok_or (head addrs) (EIo "SOCKS5 proxy did not resolve")));
      let is_last := (length specs =? 0)%nat in
      rest ← resolve_hops require_ip_literals tor_isolation credentials specs;
      mret (mkProxy addr (if is_last then credentials else None) (if is_last then tor_isolation else false) :: rest)
  end.

Definition resolve_proxy_chain (socks5 : list bytes) (socks5_user socks5_pass : option bytes) (tor_isolation require_ip_literals : bool) : M (list Act) (list ProxyConfig) :=
  let socks5_pass := effective_socks5_pass socks5_pass (le_pass env) in
  let socks5_user := effective_socks5_user socks5_user (le_user env) in
  match socks5 with
  | [] =>
      if bool_decide (is_Some socks5_user) || bool_decide (is_Some socks5_pass) || tor_isolation
      then lift (Err (EIo "--socks5-user / --socks5-pass / --tor-isolation require --socks5"))
      else mret []
  | _ =>
      credentials ← lift (match socks5_user, socks5_pass with
        | Some u, Some p => Ok (Some (mkCreds u p))
        | None, None => Ok None
        | _, _ => Err (EIo "--socks5-user and --socks5-pass must be set together")
        end);
      resolve_hops require_ip_literals tor_isolation credentials socks5
  end.

(** ** Shared steps *)

Fixpoint parse_peers (specs : list bytes) : result (list SocketAddr) :=
  match specs with
  | [] => Ok []
  | s :: specs => a ← ok_or (parse_socket_addr s) (EIo "invalid peer address"); rest ← parse_peers specs; Ok (a :: rest)
  end.

(** A fresh id for an anonymous run, else the one in the file; what is written back does not matter here. *)
Definition choose_peer_id (anonymous : bool) : M (list Act) bytes :=
  if anonymous then mret (generate_libtorrent_lookalike (le_draw env))
  else _ ← act IdFile; lift (load_or_generate (le_draw env) true true (le_id_file env)).2.

Definition session_passphrase (a : SharedDownloadArgs) : result (option bytes) :=
  if a_paranoid a then p ← resolve_passphrase (a_passphrase a) (le_secret env) (le_terminal env) (le_prompt env); Ok (Some p) else Ok None.

(** The configuration both commands build; a magnet has no [--no-tracker] and its extra peers only bootstrap it. *)
Definition launch_config (a : SharedDownloadArgs) (seed_peers : list SocketAddr) (no_tracker dht : bool) (proxies : list ProxyConfig) (pass : option bytes) : EngineConfig :=
  let c := default_config in
  mkConfig (a_output a) (a_port a) (cfg_max_peers c) (progress_every c) (reannounce_min c) seed_peers no_tracker (a_encrypt a) dht (dht_bootstrap c) proxies (a_bind_iface a) (a_anonymous a)
    (a_paranoid a) (a_sandbox a) (a_memory_only a) pass (a_spool a) (parse_rate_kib (a_max_down a)) (parse_rate_kib (a_max_up a)) (a_utp a) (a_web a) (a_select a) (a_sequential a).

(** What the engine is made of. *)
Definition Launched : Type := TorrentFile * bytes * EngineConfig.

Context `{NumBigint} (sha1 : bytes -> bytes).

(** ** [cmd_download] *)

Definition cmd_download (torrent : result bytes) (no_tracker dht : bool) (a : SharedDownloadArgs) : M (list Act) Launched :=
  raw ← lift torrent;
  t ← lift (Torrent.from_bytes sha1 raw);
  parsed_peers ← lift (parse_peers (a_peer a));
  proxies ← resolve_proxy_chain (a_socks5 a) (a_socks5_user a) (a_socks5_pass a) (a_tor_isolation a) (a_anonymous a);
  peer_id ← choose_peer_id (a_anonymous a);
  pass ← lift (session_passphrase a);
  _ ← lift (validate_select_patterns (a_select a));
  mret (t, peer_id, launch_config a parsed_peers no_tracker dht proxies pass).

(** ** [cmd_magnet] *)

Inductive TrackerOutcome := Screened | Dialed_.

Definition announce_magnet_tracker (url : bytes) (req : AnnounceRequest) (proxy : option ProxyConfig) (anonymous : bool) (iface : option bytes) (pool : list SocketAddr)
    : M (list Act) (TrackerOutcome * list SocketAddr) :=
  let proxied := bool_decide (is_Some proxy) in
  let a := announce_screened (le_http env) (le_url_host env) url proxied anonymous in
  _ ← match an_contacts a with [] => mret tt | _ => act (Announced url req proxy iface) end;
  match an_result a with
  | Ok resp => mret (Dialed_, pool ++ List.filter (fun p => is_dialable_peer_addr p (dht_martian_strict anonymous proxied)) (peers resp))
  | Err e => mret (match e with ETracker s => if contains_str "martian screen" s then Screened else Dialed_ | _ => Dialed_ end, pool)
  | Panic => lift Panic
  | NoFuel => lift NoFuel
  end.

Fixpoint bootstrap_trackers (urls : list bytes) (req : AnnounceRequest) (proxy : option ProxyConfig) (anonymous : bool) (iface : option bytes) (pool : list SocketAddr) : M (list Act) (list SocketAddr) :=
  match urls with
  | [] => mret pool
  | url :: urls =>
      if negb (bootstrap_allows_tracker url anonymous) then bootstrap_trackers urls req proxy anonymous iface pool
      else
        '(_, pool) ← announce_magnet_tracker url req proxy anonymous iface pool;
        bootstrap_trackers urls req proxy anonymous iface pool
  end.

(** From the pool of peers on. *)
Definition magnet_download (m : MagnetLink) (dht : bool) (a : SharedDownloadArgs) (proxies : list ProxyConfig) (peer_id : bytes) (pool : list SocketAddr) : M (list Act) Launched :=
  let pool := dedup_addrs (sort_by (fun x y => key_ltb (addr_key x) (addr_key y)) pool) in
  let fetch_id := if a_anonymous a then generate_libtorrent_lookalike (le_fetch_draw env) else generate (le_fetch_draw env) in
  let fetched := fetch_metadata sha1 (le_attempt env) pool (ml_info_hash m) fetch_id proxies (a_anonymous a) (a_bind_iface a) (le_steps env ++ [Deadline]) in
  _ ← modify (fun l => l ++ (Dialled <$> p_dials fetched));
  info_bytes ← lift (default NoFuel (p_outcome fetched));
  t ← lift (from_info_dict_bytes sha1 info_bytes (ml_info_hash m) (ml_trackers m));
  pass ← lift (session_passphrase a);
  _ ← lift (validate_select_patterns (a_select a));
  mret (t, peer_id, launch_config a [] false dht proxies pass).

(** With the chain resolved: the id, the peers named, the trackers and the DHT. *)
Definition magnet_run (m : MagnetLink) (dht : bool) (a : SharedDownloadArgs) (proxies : list ProxyConfig) : M (list Act) Launched :=
  peer_id ← choose_peer_id (a_anonymous a);
  pool ← lift (parse_peers (a_peer a));
  let proxied := negb (length proxies =? 0)%nat in
  let req := mkReq (ml_info_hash m) peer_id (advertised_port (a_anonymous a) proxied (a_port a)) 0 0 0 EvStarted 50 in
  pool ← bootstrap_trackers (ml_trackers m) req (head proxies) (a_anonymous a) (a_bind_iface a) pool;
  pool ← (if dht_wanted dht (a_anonymous a) proxied false then
            _ ← act (DhtSpawned (a_port a) None (dht_martian_strict (a_anonymous a) proxied));
            mret (if le_dht env then pool ++ le_dht_peers env else pool)
          else mret pool);
  magnet_download m dht a proxies peer_id pool.

Definition cmd_magnet (uri : bytes) (dht : bool) (a : SharedDownloadArgs) : M (list Act) Launched :=
  _ ← lift (validate_select_patterns (a_select a));
  magnet ← lift (Magnet.parse uri);
  proxies ← resolve_proxy_chain (a_socks5 a) (a_socks5_user a) (a_socks5_pass a) (a_tor_isolation a) (a_anonymous a);
  magnet_run magnet dht a proxies.
End Launch.

(** ** What a launch may do *)

Definition act_ok (env : LaunchEnv) (a : SharedDownloadArgs) (proxies : list ProxyConfig) (x : Act) : Prop :=
  let proxied := negb (length proxies =? 0)%nat in
  match x with
  | ResolveHost spec => a_anonymous a = false /\ spec ∈ a_socks5 a
  | IdFile => a_anonymous a = false
  | Announced url req via iface =>
      via = head proxies /\ iface = a_bind_iface a /\ tracker_url_dialable (le_url_host env) url (a_anonymous a || proxied) = true /\
      rq_port req = advertised_port (a_anonymous a) proxied (a_port a) /\
      (a_anonymous a = true -> proxies <> [] /\ has_prefix (bs "http://") url = false /\ take 8 (rq_peer_id req) = bs "-LT2090-")
  | DhtSpawned _ _ _ => a_anonymous a = false /\ proxies = []
  | Dialled d => exists addr, allowed addr false proxies (a_bind_iface a) (a_anonymous a) d
  end.

(** A secret from the command line, else from a variable that is not empty. *)
Definition given (flag var : option bytes) : option bytes :=
  match flag, var with
  | Some x, _ => Some x
  | None, Some x => if (length x =? 0)%nat then None else Some x
  | None, None => None
  end.

Definition given_user (env : LaunchEnv) (a : SharedDownloadArgs) : option bytes := given (a_socks5_user a) (le_user env).
Definition given_pass (env : LaunchEnv) (a : SharedDownloadArgs) : option bytes := given (a_socks5_pass a) (le_pass env).

(** The hops, with what the last one is told and the others are not. *)
Definition hops_told (creds : option Credentials) (iso : bool) (proxies : list ProxyConfig) : Prop :=
  forall i p, proxies !! i = Some p -> (pc_credentials p, pc_isolation p) = if (S i =? length proxies)%nat then (creds, iso) else (None, false).

(** One hop per argument, in order: a literal address for an anonymous run, else the first the name resolves to.  The last has exactly the
    credentials that were given, both halves or none, and the isolation switch; without a hop there is neither. *)
Definition chain_ok (env : LaunchEnv) (a : SharedDownloadArgs) (proxies : list ProxyConfig) : Prop :=
  Forall2 (fun s p => if a_anonymous a then parse_socket_addr s = Some (pc_addr p) else exists rest, le_resolve env s = Ok (pc_addr p :: rest)) (a_socks5 a) proxies /\
  hops_told (u ← given_user env a; w ← given_pass env a; Some (mkCreds u w)) (a_tor_isolation a) proxies /\
  (is_Some (given_user env a) <-> is_Some (given_pass env a)) /\
  (a_socks5 a = [] -> given_user env a = None /\ a_tor_isolation a = false).

Section Adds.
Context (X : Prop).

(** [m] only adds acts of [P], panics only in the case [X], and its result satisfies [Q]. *)
Definition adds {A} (P : Act -> Prop) (Q : A -> Prop) (m : M (list Act) A) : Prop :=
  forall l, exists new, (m l).1 = l ++ new /\ Forall P new /\ (returns (m l).2 = true \/ X) /\ forall x, (m l).2 = Ok x -> Q x.

Lemma adds_bind {A B} P (Q : A -> Prop) (R : B -> Prop) m (f : A -> M (list Act) B) : adds P Q m -> (forall x, Q x -> adds P R (f x)) -> adds P R (m ≫= f).
Proof.
  intros Hm Hf l. destruct (Hm l) as (new & E & Hn & Hr & Hq). unfold mbind, M_bind. destruct (m l) as [l1 [x|e| |]]; cbn [fst snd] in *; subst l1; [|by exists new..].
  destruct (Hf x (Hq x eq_refl) (l ++ new)) as (new' & E' & Hn' & H'). exists (new ++ new'). rewrite E', <- app_assoc. split; [done|]. split; [by apply list.Forall_app|done].
Qed.

Lemma adds_ret {A} P (Q : A -> Prop) x : Q x -> adds P Q (mret x).
Proof. intros Hx l. exists []. rewrite app_nil_r. split_and!; try done; [by left|]. by intros y [= <-]. Qed.

Lemma adds_lift {A} P (Q : A -> Prop) r : returns r = true -> (forall x, r = Ok x -> Q x) -> adds P Q (lift r).
Proof. intros Hr Hq l. exists []. rewrite app_nil_r. split_and!; try done. by left. Qed.

Lemma adds_act (P : Act -> Prop) x : P x -> adds P (fun _ => True) (act x).
Proof. intros Hx l. exists [x]. split_and!; try done; [by constructor|by left]. Qed.

Lemma adds_weaken {A} (P P' : Act -> Prop) (Q Q' : A -> Prop) m : (forall x, P x -> P' x) -> (forall x, Q x -> Q' x) -> adds P Q m -> adds P' Q' m.
Proof. intros Hp Hq Hm l. destruct (Hm l) as (new & E & Hn & Hr & Hx). exists new. split_and!; try done; [by eapply list.Forall_impl|auto]. Qed.


(** The acts that follow may be judged by what [m] returned. *)
Lemma adds_then {A B} (P : Act -> Prop) (Q : A -> Prop) (P' : A -> Act -> Prop) (R : A -> B -> Prop) m (f : A -> M (list Act) B) : (forall x y, P y -> P' x y) ->
  adds P Q m -> (forall x, Q x -> adds (P' x) (R x) (f x)) ->
  forall l, exists new r, (m ≫= f) l = (l ++ new, r) /\ (returns r = true \/ X) /\
    ((exists x, Q x /\ Forall (P' x) new /\ forall y, r = Ok y -> R x y) \/ (Forall P new /\ forall y, r <> Ok y)).
Proof.
  intros HP Hm Hf l. destruct (Hm l) as (new & E & Hn & Hr & Hq). unfold mbind, M_bind. destruct (m l) as [l1 [x|e| |]]; cbn [fst snd] in *; subst l1; [|by eexists new, _; split_and!; [done|..|right]..].
  destruct (Hf x (Hq x eq_refl) (l ++ new)) as (new' & E' & Hn' & Hr' & H'). destruct (f x (l ++ new)) as [l2 r]. cbn [fst snd] in *. subst l2. exists (new ++ new'), r. rewrite <- app_assoc. split_and!; [done|done|]. left. exists x. split_and!; [by apply Hq| |done].
  apply list.Forall_app. split; [|done]. eapply list.Forall_impl; [exact Hn|apply HP].
Qed.
End Adds.

Lemma ok_or_returns {A} (o : option A) e : returns (ok_or o e) = true /\ forall x, ok_or o e = Ok x -> o = Some x.
Proof. destruct o; cbn; split; try done. by intros y [= <-]. Qed.

(** ** The stages *)

Lemma length_generated draw prefix : length prefix = 8%nat -> length (generate_with_prefix draw prefix) = 20%nat.
Proof. intros Hp. unfold generate_with_prefix. rewrite length_app, length_fmap, length_seq. lia. Qed.

Section Private.
Context (X : Prop) (env : LaunchEnv) (Hhttp : forall url p anon, returns (le_http env url p anon).2 = true).
Context (Hresolve : forall spec, returns (le_resolve env spec) = true) (Hprompt : returns (le_prompt env) = true).
Context (a : SharedDownloadArgs).

Lemma select_returns l : returns (validate_select_patterns l) = true.
Proof. induction l as [|s l IH]; [done|]. cbn [validate_select_patterns]. by destruct (_ =? 0)%nat. Qed.

Lemma peers_return l : returns (parse_peers l) = true.
Proof. induction l as [|s l IH]; [done|]. cbn [parse_peers]. destruct (parse_socket_addr s); [|done]. cbn [ok_or mbind result_bind]. by destruct (parse_peers l). Qed.

Lemma passphrase_returns : returns (session_passphrase env a) = true.
Proof.
  unfold session_passphrase, resolve_passphrase. destruct (a_paranoid a); [|done]. destruct (a_passphrase a); [done|]. destruct (le_secret env) as [[|b p]|]; [|done|]; (destruct (le_terminal env); [|done]; destruct (le_prompt env) as [[|]| | |]; done).
Qed.

(** Only the resolver, and not for an anonymous run. *)
Definition resolving (x : Act) : Prop := match x with ResolveHost spec => a_anonymous a = false /\ spec ∈ a_socks5 a | _ => False end.

Lemma hops_ok iso creds specs : (forall s, s ∈ specs -> s ∈ a_socks5 a) ->
  adds X resolving (fun proxies => Forall2 (fun s p => if a_anonymous a then parse_socket_addr s = Some (pc_addr p) else exists rest, le_resolve env s = Ok (pc_addr p :: rest)) specs proxies /\
    hops_told creds iso proxies) (resolve_hops env (a_anonymous a) iso creds specs).
Proof.
  induction specs as [|spec specs IH]; intros Hs; cbn [resolve_hops]; [apply adds_ret; split_and!; [constructor|done]|].
  eapply (adds_bind _ _ (fun addr => if a_anonymous a then parse_socket_addr spec = Some addr else exists rest, le_resolve env spec = Ok (addr :: rest))).
  - destruct (a_anonymous a) eqn:Ea; [apply adds_lift; [apply ok_or_returns|intros x Hx; by apply ok_or_returns in Hx]|].
    eapply (adds_bind _ _ (fun _ => True)); [apply adds_act; split; [done|]; apply Hs; by left|]. intros _ _.
    eapply (adds_bind _ _ (fun addrs => le_resolve env spec = Ok addrs)); [by apply adds_lift|]. intros addrs Hr. apply adds_lift; [apply ok_or_returns|].
    intros x Hx. apply ok_or_returns in Hx. destruct addrs as [|y rest]; [done|]. injection Hx as <-. by exists rest.
  - intros addr Haddr. eapply adds_bind; [apply IH; intros s Hin; apply Hs; by right|]. intros rest (F & C). apply adds_ret. pose proof (Forall2_length F) as L. split; [by constructor|].
    intros [|i] p Hp; [|by apply (C i p Hp)]. injection Hp as <-. cbn [length pc_credentials pc_isolation]. rewrite <- L. by destruct specs.
Qed.

Lemma given_user_eq flag var : effective_socks5_user flag var = given flag var.
Proof. by destruct flag, var as [[|]|]. Qed.

Lemma given_pass_eq flag var : effective_socks5_pass flag var = given flag var.
Proof. by destruct flag, var as [[|]|]. Qed.

Lemma chain_resolves : adds X resolving (chain_ok env a) (resolve_proxy_chain env (a_socks5 a) (a_socks5_user a) (a_socks5_pass a) (a_tor_isolation a) (a_anonymous a)).
Proof.
  unfold resolve_proxy_chain. cbn zeta. rewrite given_user_eq, given_pass_eq. fold (given_user env a) (given_pass env a). destruct (a_socks5 a) as [|s0 ss] eqn:Es.
  - destruct (_ || _) eqn:En; [by apply adds_lift|]. rewrite !orb_false_iff in En. destruct En as [[E1%bool_decide_eq_false E2%bool_decide_eq_false] E3].
    apply adds_ret. unfold chain_ok. rewrite Es. split_and!; [constructor|done|by split; intros ?|]. intros _. split; [|done]. destruct (given_user env a); [exfalso; by apply E1|done].
  - set (creds := u ← given_user env a; w ← given_pass env a; Some (mkCreds u w)).
    eapply (adds_bind _ _ (fun c => c = creds /\ (is_Some (given_user env a) <-> is_Some (given_pass env a)))).
    { unfold creds. apply adds_lift; destruct (given_user env a), (given_pass env a); try done; intros x [= <-]; (split; [done|]); [split; intros _; by eexists|done]. }
    intros c [-> Hb]. rewrite <- Es. eapply adds_weaken; [done| |apply (hops_ok (a_tor_isolation a) creds (a_socks5 a)); done].
    intros proxies [F T]. unfold chain_ok. split_and!; try done. intros Hn. by rewrite Es in Hn.
Qed.

(** A fresh id that looks like libtorrent's, or the kept one when it has the right length, else a fresh one of our own. *)
Definition id_ok (id : bytes) : Prop :=
  length id = 20%nat /\
  if a_anonymous a then take 8 id = bs "-LT2090-"
  else match le_id_file env with
       | Some b => if (length b =? 20)%nat then id = b else take 8 id = bs "-RT0100-"
       | None => take 8 id = bs "-RT0100-"
       end.

Lemma id_chosen (P : Act -> Prop) : (a_anonymous a = false -> P IdFile) -> adds X P id_ok (choose_peer_id env (a_anonymous a)).
Proof.
  intros Hp. unfold choose_peer_id, id_ok. destruct (a_anonymous a) eqn:Ea; [apply adds_ret; split; [by apply length_generated|done]|].
  eapply (adds_bind _ _ (fun _ => True)); [apply adds_act; auto|]. intros _ _. apply adds_lift; unfold load_or_generate; msteps; destruct (le_id_file env) as [b|]; cbn -[generate]; try done.
  - by destruct (length b =? 20)%nat.
  - destruct (length b =? 20)%nat eqn:El; intros x [= <-]; [split; [by apply Nat.eqb_eq|done]|]. split; [apply length_generated; done|done].
  - intros x [= <-]. split; [by apply length_generated|done].
Qed.

Section Rest.
Context (Hclap : a_anonymous a = true -> a_socks5 a <> []) (proxies : list ProxyConfig) (Hchain : chain_ok env a proxies).
#[local] Abbreviation proxied := (negb (length proxies =? 0)%nat).

Lemma chain_there : a_anonymous a = true -> proxies <> [].
Proof. intros Ha ->. destruct Hchain as [L _]. apply Forall2_length in L. destruct (a_socks5 a) eqn:E; [by apply Hclap|done]. Qed.

Lemma head_proxied : bool_decide (is_Some (head proxies)) = proxied.
Proof. destruct proxies; [by rewrite bool_decide_eq_false_2 by (by intros [? ?])|by rewrite bool_decide_eq_true_2 by (by eexists)]. Qed.

Lemma trackers_asked urls req pool : rq_port req = advertised_port (a_anonymous a) proxied (a_port a) -> (a_anonymous a = true -> take 8 (rq_peer_id req) = bs "-LT2090-") ->
  adds X (act_ok env a proxies) (fun _ => True) (bootstrap_trackers env urls req (head proxies) (a_anonymous a) (a_bind_iface a) pool).
Proof.
  intros Hport Hid. revert pool. induction urls as [|url urls IH]; intros pool; cbn [bootstrap_trackers]; [by apply adds_ret|]. destruct (bootstrap_allows_tracker url (a_anonymous a)) eqn:Eb; cbn [negb]; [|apply IH].
  eapply (adds_bind _ _ (fun _ => True)); [|intros [o pool'] _; apply IH]. unfold announce_magnet_tracker. rewrite head_proxied. set (an := announce_screened _ _ _ _ _).
  assert (Hr : returns (an_result an) = true) by (unfold an, announce_screened; destruct (tracker_url_dialable _ _ _); cbn [negb]; [|done]; specialize (Hhttp url proxied (a_anonymous a)); by destruct (le_http env url proxied (a_anonymous a))).
  eapply (adds_bind _ _ (fun _ => True)).
  - destruct (an_contacts an) as [|c cs] eqn:Ec; [by apply adds_ret|]. apply adds_act. assert (Hd : tracker_url_dialable (le_url_host env) url (a_anonymous a || proxied) = true).
    { unfold an, announce_screened in Ec. by destruct (tracker_url_dialable _ _ _). }
    cbn [act_ok]. split_and!; try done. intros Ha. split_and!; [by apply chain_there| |by apply Hid]. unfold bootstrap_allows_tracker in Eb. rewrite Ha in Eb. cbn in Eb. by apply negb_true_iff in Eb.
  - intros _ _. destruct (an_result an); try discriminate; by apply adds_ret.
Qed.

Lemma dialled_ok `{NumBigintLaws} sha1 (sha1_len : forall b, length (sha1 b) = 20%nat) pool ih pid (Hent : forall i, length (entropy (at_secrets (le_attempt env i))) = 20%nat) :
  let p := fetch_metadata sha1 (le_attempt env) pool ih pid proxies (a_anonymous a) (a_bind_iface a) (le_steps env ++ [Deadline]) in
  Forall (act_ok env a proxies) (Dialled <$> p_dials p) /\ exists r, p_outcome p = Some r /\ fine sha1 ih r.
Proof.
  intros p. assert (Hp : pool_sound sha1 pool ih proxies (a_anonymous a) (a_bind_iface a) p) by (apply pool_run_ok; [done..|]; split_and!; cbn; [lia|constructor|]; intros r; destruct (_ =? 0)%nat; [by intros [= <-]|done]).
  destruct Hp as (_ & H2 & H3). split.
  - apply Forall_fmap. eapply list.Forall_impl; [exact H2|]. intros d (addr & _ & Hd). by exists addr.
  - assert (E : exists r, p_outcome p = Some r).
    { unfold p, fetch_metadata. rewrite foldl_app. cbn [foldl]. set (q := foldl _ _ _). unfold pool_step. destruct (p_outcome q) as [r|] eqn:E; [by exists r|by eexists]. }
    destruct E as [r E]. exists r. split; [done|]. by apply H3.
Qed.

(** A rate in KiB: none for none and for 0. *)
Definition rate_ok (kib rate : option Z) : Prop :=
  (kib = None \/ kib = Some 0 -> rate = None) /\ forall k, kib = Some k -> k <> 0 -> rate = Some (Z.min (k * 1024) (2 ^ 64 - 1)).

(** Where the passphrase of a paranoid run comes from; another run has none. *)
Definition passphrase_ok (pass : option bytes) : Prop :=
  if a_paranoid a then
    match given (a_passphrase a) (le_secret env) with
    | Some p => pass = Some p
    | None => exists p, p <> [] /\ le_terminal env = true /\ le_prompt env = Ok p /\ pass = Some p
    end
  else pass = None.

(** What the engine is told: every argument as given, field by field; the four fields no argument sets have their defaults. *)
Definition config_ok (seeds : list SocketAddr) (trackerless dht : bool) (l : Launched) : Prop :=
  let '(_, id, cfg) := l in
  id_ok id /\ output_dir cfg = a_output a /\ listen_port cfg = a_port a /\ seed_peers cfg = seeds /\ no_tracker cfg = trackerless /\
  cfg_force_outgoing_mse cfg = a_encrypt a /\ enable_dht cfg = dht /\ cfg_proxies cfg = proxies /\ cfg_bind_iface cfg = a_bind_iface a /\
  cfg_anonymous cfg = a_anonymous a /\ paranoid cfg = a_paranoid a /\ sandbox cfg = a_sandbox a /\ memory_only cfg = a_memory_only a /\
  passphrase_ok (passphrase cfg) /\ spool_path cfg = a_spool a /\
  rate_ok (a_max_down a) (max_down_bytes_per_sec cfg) /\ rate_ok (a_max_up a) (max_up_bytes_per_sec cfg) /\
  utp_enabled cfg = a_utp a /\ web_port cfg = a_web a /\ selected_files cfg = a_select a /\ cfg_sequential cfg = a_sequential a /\
  (cfg_max_peers cfg, progress_every cfg, reannounce_min cfg, dht_bootstrap cfg) = (50%nat, 2 * Choke.SEC, 60 * Choke.SEC, []).

Lemma rate_kept k : rate_ok k (parse_rate_kib k).
Proof. split; [by intros [->| ->]|]. intros x -> Hx. unfold parse_rate_kib. by destruct (Z.eqb_spec x 0). Qed.

Lemma passphrase_kept pass : session_passphrase env a = Ok pass -> passphrase_ok pass.
Proof.
  unfold session_passphrase, passphrase_ok, resolve_passphrase. destruct (a_paranoid a); [|by intros [= <-]]. destruct (a_passphrase a); [by intros [= <-]|].
  destruct (le_secret env) as [[|b p]|]; cbn [given length Nat.eqb]; [|by intros [= <-]|]; (destruct (le_terminal env); [|done]; destruct (le_prompt env) as [[|c q]| | |]; try done; cbn; intros [= <-]; by exists (c :: q)).
Qed.

Lemma configured P (Q : TorrentFile -> Prop) (t : TorrentFile) id seeds trackerless dht : Q t -> id_ok id ->
  adds X P (fun l => Q l.1.1 /\ config_ok seeds trackerless dht l) (pass ← lift (session_passphrase env a); _ ← lift (validate_select_patterns (a_select a)); mret (t, id, launch_config a seeds trackerless dht proxies pass)).
Proof.
  intros Ht Hid. eapply (adds_bind _ _ passphrase_ok); [apply adds_lift; [apply passphrase_returns|apply passphrase_kept]|]. intros pass Hpass.
  eapply (adds_bind _ _ (fun _ => True)); [apply adds_lift; [apply select_returns|done]|]. intros _ _. apply adds_ret. split; [exact Ht|]. unfold config_ok, launch_config. cbn -[parse_rate_kib id_ok rate_ok]. split_and!; try done; apply rate_kept.
Qed.
End Rest.
End Private.

(** ** The commands *)

Section Commands.
Context `{NumBigintLaws} (sha1 : bytes -> bytes) (sha1_len : forall b, length (sha1 b) = 20%nat).
Context (env : LaunchEnv) (Hhttp : forall url p anon, returns (le_http env url p anon).2 = true).
Context (Hresolve : forall spec, returns (le_resolve env spec) = true) (Hprompt : returns (le_prompt env) = true).
Context (Hent : forall i, length (entropy (at_secrets (le_attempt env i))) = 20%nat).
Context (a : SharedDownloadArgs) (Hclap : a_anonymous a = true -> a_socks5 a <> []).

(** Metadata with the right hash on which the torrent parser itself panics. *)
Definition overflows (m : MagnetLink) : Prop := exists b, verified sha1 (ml_info_hash m) b /\ returns (from_info_dict_bytes sha1 b (ml_info_hash m) (ml_trackers m)) = false.

Lemma info_dict_hash b ih trackers t : from_info_dict_bytes sha1 b ih trackers = Ok t -> info_hash t = ih.
Proof. unfold from_info_dict_bytes. destruct (negb _); [done|]. intros E. apply bind_Ok in E as (v & _ & E). by apply bind_Ok in E as (i & _ & [= <-]). Qed.

Lemma magnet_loaded m proxies dht id b : id_ok env a id -> verified sha1 (ml_info_hash m) b ->
  adds (overflows m) (act_ok env a proxies) (fun l => info_hash l.1.1 = ml_info_hash m /\ config_ok env a proxies [] false dht l)
    (t ← lift (from_info_dict_bytes sha1 b (ml_info_hash m) (ml_trackers m)); pass ← lift (session_passphrase env a); _ ← lift (validate_select_patterns (a_select a));
     mret (t, id, launch_config a [] false dht proxies pass)).
Proof.
  intros Hid Hb. eapply (adds_bind _ _ (fun t => info_hash t = ml_info_hash m)); [|intros t Ht; by apply (configured _ env Hprompt a proxies _ (fun t => info_hash t = ml_info_hash m))].
  intros l. exists []. rewrite app_nil_r. split_and!; [done|constructor| |].
  - destruct (returns (from_info_dict_bytes sha1 b (ml_info_hash m) (ml_trackers m))) eqn:E; [by left|]. right. by exists b.
  - intros t. apply info_dict_hash.
Qed.

Lemma magnet_fetched m proxies dht id pool pid : id_ok env a id ->
  let fetched := fetch_metadata sha1 (le_attempt env) pool (ml_info_hash m) pid proxies (a_anonymous a) (a_bind_iface a) (le_steps env ++ [Deadline]) in
  adds (overflows m) (act_ok env a proxies) (fun l => info_hash l.1.1 = ml_info_hash m /\ config_ok env a proxies [] false dht l)
    (_ ← modify (fun l => l ++ (Dialled <$> p_dials fetched)); info_bytes ← lift (default NoFuel (p_outcome fetched));
     t ← lift (from_info_dict_bytes sha1 info_bytes (ml_info_hash m) (ml_trackers m)); pass ← lift (session_passphrase env a); _ ← lift (validate_select_patterns (a_select a));
     mret (t, id, launch_config a [] false dht proxies pass)).
Proof.
  intros Hid fetched. destruct (dialled_ok env a proxies sha1 sha1_len pool (ml_info_hash m) pid Hent) as (D & r & E & Hr & Hv). fold fetched in D, E. rewrite E. clearbody fetched.
  eapply (adds_bind _ _ (fun _ => True)); [intros l; eexists; split_and!; [reflexivity|exact D|by left|done]|]. intros _ _.
  eapply (adds_bind _ _ (verified sha1 (ml_info_hash m))); [apply adds_lift; [done|apply Hv]|]. intros b Hb. by apply magnet_loaded.
Qed.

Lemma resolving_ok proxies x : resolving a x -> act_ok env a proxies x.
Proof. by destruct x. Qed.

Lemma magnet_bootstraps m dht proxies : chain_ok env a proxies ->
  adds (overflows m) (act_ok env a proxies) (fun l => info_hash l.1.1 = ml_info_hash m /\ config_ok env a proxies [] false dht l)
    (magnet_run env sha1 m dht a proxies).
Proof.
  intros Hchain. eapply adds_bind; [apply id_chosen; done|]. intros id Hid. eapply (adds_bind _ _ (fun _ => True)); [apply adds_lift; [apply peers_return|done]|]. intros pool _. cbn zeta.
  eapply (adds_bind _ _ (fun _ => True)); [apply trackers_asked; try done; intros Ha; destruct Hid as [_ Hid]; by rewrite Ha in Hid|]. intros pool1 _. eapply (adds_bind _ _ (fun _ => True)); [|intros pool2 _; by apply magnet_fetched].
  destruct (dht_wanted _ _ _ _) eqn:Ed; [|by apply adds_ret]. eapply (adds_bind _ _ (fun _ => True)); [|intros _ _; by apply adds_ret]. apply adds_act.
  unfold dht_wanted in Ed. cbn [act_ok]. destruct (a_anonymous a), proxies; cbn in Ed; rewrite ?andb_false_r in Ed; done.
Qed.

Lemma lift_bind {A B} (r : result A) (f : A -> M (list Act) B) l :
  (lift r ≫= f) l = match r with Ok x => f x l | Err e => (l, Err e) | Panic => (l, Panic) | NoFuel => (l, NoFuel) end.
Proof. by destruct r. Qed.

Lemma magnet_private uri dht : exists proxies, let '(acts, r) := cmd_magnet env sha1 uri dht a [] in
    Forall (act_ok env a proxies) acts /\ (chain_ok env a proxies \/ Forall (resolving a) acts) /\
    (returns r = true \/ exists m, Magnet.parse uri = Ok m /\ overflows m) /\
    forall l, r = Ok l -> chain_ok env a proxies /\ config_ok env a proxies [] false dht l /\ exists m, Magnet.parse uri = Ok m /\ info_hash l.1.1 = ml_info_hash m.
Proof.
  unfold cmd_magnet. rewrite lift_bind. pose proof (select_returns (a_select a)) as Hs. destruct (validate_select_patterns (a_select a)); try done; [|exists []; split_and!; [constructor|right; constructor|by left|done]]. rewrite lift_bind.
  destruct (magnet_parse_typed uri) as [Hm _]. destruct (Magnet.parse uri) as [m| | |] eqn:Em; try done; [|exists []; split_and!; [constructor|right; constructor|by left|done]].
  destruct (adds_then (overflows m) (resolving a) (chain_ok env a) (act_ok env a) (fun proxies l => info_hash l.1.1 = ml_info_hash m /\ config_ok env a proxies [] false dht l) (resolve_proxy_chain env (a_socks5 a) (a_socks5_user a) (a_socks5_pass a) (a_tor_isolation a) (a_anonymous a)) (magnet_run env sha1 m dht a)
    (fun x y => resolving_ok x y) (chain_resolves _ env Hresolve a) (fun x Hx => magnet_bootstraps m dht x Hx) []) as (new & r & E & Hr & Hres).
  match goal with |- context [let '(_, _) := ?c in _] => replace c with ([] ++ new, r) by exact (eq_sym E) end. cbn [app]. destruct Hres as [(proxies & Hc & Hf & Hl)|[Hf Hl]].
  - exists proxies. split_and!; [done|by left|destruct Hr; [by left|right; by exists m]|]. intros l Hx. apply Hl in Hx as [H1 H2]. split_and!; [done|done|by exists m].
  - exists []. split_and!; [eapply list.Forall_impl; [exact Hf|apply resolving_ok]|by right|destruct Hr; [by left|right; by exists m]|]. intros l Hx. by apply Hl in Hx.
Qed.

Lemma parsed_peers l seeds : parse_peers l = Ok seeds -> Forall2 (fun s p => parse_socket_addr s = Some p) l seeds.
Proof.
  revert seeds. induction l as [|s l IH]; intros seeds; cbn [parse_peers]; [intros [= <-]; constructor|]. destruct (parse_socket_addr s) as [p|] eqn:Ep; [|done]. cbn [ok_or mbind result_bind].
  destruct (parse_peers l) as [rest| | |]; try done. intros [= <-]. constructor; [done|by apply IH].
Qed.

Lemma download_private torrent trackerless dht : let '(acts, r) := cmd_download env sha1 torrent trackerless dht a [] in
    Forall (fun x => resolving a x \/ x = IdFile /\ a_anonymous a = false) acts /\
    (returns r = true \/ returns torrent = false \/ exists raw, torrent = Ok raw /\ returns (Torrent.from_bytes sha1 raw) = false) /\
    forall l, r = Ok l -> exists proxies raw seeds, chain_ok env a proxies /\ Forall2 (fun s p => parse_socket_addr s = Some p) (a_peer a) seeds /\
      config_ok env a proxies seeds trackerless dht l /\ torrent = Ok raw /\ Torrent.from_bytes sha1 raw = Ok l.1.1.
Proof.
  unfold cmd_download. rewrite lift_bind. destruct torrent as [raw| | |]; [|by split_and!; [constructor|auto|]..].
  rewrite lift_bind. destruct (Torrent.from_bytes sha1 raw) as [t| | |] eqn:Et; [|split_and!; [constructor|by left|done]|split_and!; [constructor|right; right; exists raw; by rewrite Et|done]..].
  rewrite lift_bind. pose proof (peers_return (a_peer a)) as Hpr. destruct (parse_peers (a_peer a)) as [peers| | |] eqn:Ep; try done; [|by split_and!; [constructor|left|]]. apply parsed_peers in Ep.
  destruct (adds_then False (resolving a) (chain_ok env a) (fun _ x => resolving a x \/ x = IdFile /\ a_anonymous a = false) (fun proxies l => l.1.1 = t /\ config_ok env a proxies peers trackerless dht l) (resolve_proxy_chain env (a_socks5 a) (a_socks5_user a) (a_socks5_pass a) (a_tor_isolation a) (a_anonymous a))
    (fun proxies => peer_id ← choose_peer_id env (a_anonymous a); pass ← lift (session_passphrase env a); _ ← lift (validate_select_patterns (a_select a)); mret (t, peer_id, launch_config a peers trackerless dht proxies pass))) with (l := @nil Act) as (new & r & E & Hr & Hres).
  - by left.
  - by apply chain_resolves.
  - intros proxies Hc. eapply adds_bind; [apply id_chosen; by right|]. intros id Hid. by apply (configured _ env Hprompt a proxies _ (fun x => x = t)).
  - match goal with |- context [let '(_, _) := ?c in _] => replace c with ([] ++ new, r) by exact (eq_sym E) end. cbn [app]. destruct Hres as [(proxies & Hc & Hf & Hl)|[Hf Hl]].
    + split_and!; [done|destruct Hr; [by left|done]|]. intros l Hx. apply Hl in Hx as [<- H2]. by exists proxies, raw, peers.
    + split_and!; [eapply list.Forall_impl; [exact Hf|by left]|destruct Hr; [by left|done]|]. intros l Hx. by apply Hl in Hx.
Qed.

End Commands.

(** ** Examples *)

#[local] Existing Instance std_bigint.
#[local] Existing Instance std_bigint_laws.

Definition dict_ex : bytes := Bencode.to_bytes Torrent.info_ex.
Definition want_ex : bytes := sha1_ex dict_ex.
Definition answers_ex : bytes :=
  Handshake.encode (mkHandshake [x00; x00; x00; x00; x00; x10; x00; x00] want_ex (replicate 20 x09)) ++ PeerWire.encode (Extended EXT_HANDSHAKE_ID (bs "d1:md11:ut_metadatai3ee13:metadata_sizei103ee"))
  ++ PeerWire.encode (data_msg dict_ex 103 1 0).
(** One tracker with one peer, which has the metadata. *)
Definition env_ex : LaunchEnv :=
  mkLaunchEnv None (Some []) None false (Err (EIo "no terminal")) (fun _ => Ok []) (fun _ _ _ => (0, Ok (mkResp 1800 None None None [sock_addr (IpV4 x08 x08 x08 x08) 6881])))
    (fun _ => Some (Some (bs "t.example"))) true [] (fun i => i) None (fun i => i)
    (fun _ => mkAttempt (mkDialEnv (fun _ _ => []) (fun _ => true) (fun _ => true) (fun _ => true)) None (fun _ => mkStream answers_ex [] true) (fun _ => false) (mkSecrets (replicate 20 x07) [] []) (fun _ => 0))
    [Acquire 0; Complete 0].
Definition args_ex (socks5 : list bytes) (anonymous : bool) (iface : option bytes) : SharedDownloadArgs :=
  mkShared (bs "out") 6881 [] false socks5 None None anonymous iface false false false false None None None (Some 100) false None [] false.
Definition uri_ex : bytes := Magnet.link want_ex None [bs "http://t.example/a"; bs "HTTP://t.example/a"].
Definition magnet_ex (socks5 : list bytes) (anonymous : bool) (iface : option bytes) : list Act * result Launched := cmd_magnet env_ex sha1_ex uri_ex true (args_ex socks5 anonymous iface) [].


(** The screen of plain-HTTP trackers is by letter: one spelled in upper case is asked in an anonymous run. *)
Example upper_case_announced : exists req via, head (magnet_ex [bs "127.0.0.1:9050"] true None).1 = Some (Announced (bs "HTTP://t.example/a") req via None).
Proof. vm_compute. do 2 eexists. reflexivity. Qed.

(** The DHT of the bootstrap is bound to no interface, whatever [--bind-iface] says. *)
Example magnet_dht_unbound : DhtSpawned 6881 None false ∈ (magnet_ex [] false (Some (bs "wg0"))).1.
Proof. assert (E : (magnet_ex [] false (Some (bs "wg0"))).1 !! 3%nat = Some (DhtSpawned 6881 None false)) by (vm_compute; reflexivity). by eapply list_elem_of_lookup_2. Qed.
